(* ===== verification/_CoqProject ===== *)
-Q . S2P
Prelude.v
Json.v
Duration.v
Runtime.v
RuntimeFacts.v
WorkerPool.v
WorkerPoolFacts.v
Workflow.v
WorkflowFacts.v
ResultFacts.v
WorkData.v
WorkGraph.v
WorkCommands.v
WorkValue.v
WorkSteps.v
WorkInv.v
WorkMachine.v
WorkSim.v
WorkFacts.v
WorkItems.v
WorkAudit.v
WorkGates.v
WorkDemo.v
Registry.v
RegistryFacts.v
WorkAssign.v
Spiffe.v
Dispatch.v
DispatchFacts.v
DispatchUid.v
DispatchEvents.v
DispatchService.v
DispatchServiceFacts.v
DispatchDemo.v
Consequence.v
ConsequenceFacts.v
Proc.v
GatewayStore.v
GatewayFacts.v
GatewayService.v
ProcLogic.v
GatewayServiceFacts.v
GatewayEffects.v
GatewayPolicy.v
GatewayErrors.v
GatewayDemo.v
IdentityActions.v
IdentityData.v
IdentityStore.v
IdentityFlows.v
IdentityJourneys.v
IdentitySession.v
IdentityPeople.v
IdentityFacts.v
Authority.v
AuthorityFacts.v
IdentityMachine.v
IdentityRace.v
IdentitySchema.v
IdentityLinks.v
IdentityRefine.v
IdentityAuthority.v
AuthorityCutover.v
IdentityDemo.v
Artifact.v
ArtifactFacts.v
ArtifactLifecycle.v
RateLimit.v
RateLimitFacts.v
Catalog.v
InferenceBody.v
Inference.v
InferenceFacts.v
InferenceAccess.v
InferenceDemo.v
Reconcile.v
ReconcileFacts.v
Web.v
WebFacts.v
WebAccess.v
