(* ===== verification/Prelude.v ===== *)
(** * Verification of the iterabase-mono control plane

    The program is a multi-service platform that runs customer workflows with AI
    agents. Its core is the Go module control-plane: it registers versioned workflow
    definitions, turns a request into a work item whose attempts walk the workflow's
    graph node by node, hands each agent node to a warm worker over a stream, stops at
    human gates and before repeated external actions, and keeps a durable history. The
    agents' tools run behind a gateway that authorizes each call, ledgers it and sends it
    to a runner. People and services reach it with accounts, browser sessions and API
    credentials, whose authority is kept by the identity package. Files that agents and
    people exchange are artifacts in an object store. Policies, identities and models are
    declared as Kubernetes resources, which reconcilers carry into the database; a second
    Go module, the inference gateway, reads them from there, authenticates calls of models,
    limits their rate and forwards them. The state lives in PostgreSQL; a command is one
    transaction or a few. This library models those stores, the dispatch service, the two
    gateways, the reconcilers and the HTTP API of accounts, and proves what makes them
    correct.

    ** How the code is modelled

    A table is a finite map from primary key to row (a list in insertion order for the
    append-only ones), a database a record of tables. A command is a function in the
    state-and-error monad [Tx] below with the guards, early returns and writes of the Go
    function in its order; [run_tx] discards the writes of a failed command, as the
    deferred Rollback does. The constraints of the migrations that a statement can hit
    (primary keys, unique and partial indexes, CHECKs, foreign keys, column widths) are
    part of its INSERT or UPDATE and are error values. [now()] is an argument, generated
    ids come from an arbitrary stream of which nothing is assumed: a repeated id is a
    primary-key violation. Advisory locks, row locks and serializable isolation make a
    command atomic; interleavings of commands are sequences of them.

    Where the code runs several statements without a transaction, what other connections
    do in between matters. The session UID allocator takes their changes as arguments; the
    dispatch service is a state machine over events with lost statements and sends as
    inputs; the gateway's handlers are processes ([Proc]): trees of atomic actions on the
    shared database and memory and of questions to the environment (time, faults, the
    network), any number of which are interleaved. [ProcLogic] has the program logics
    they are verified with: an invariant logic, a rely/guarantee logic with a ghost
    budget that counts effects, and a logic of what a run establishes.

    ** Files

    - [Prelude]: the transaction monad, its inversion tactics ([inv_tx], [inv_res]),
      tables and SELECTs, generic lemmas.
    - [Json], [Duration]: the parts of encoding/json and time.ParseDuration the program
      uses, with binary64 rounding.
    - [Runtime]: internal/runtime/store.go, the turn runtime: runs, steps, turns and
      their event log. [RuntimeFacts]: its invariant, lifecycles, event replay and
      settlement.
    - [WorkerPool]: internal/dispatch/workerpool.go and the capacity gate of
      dispatch/store.go. [WorkerPoolFacts]: credit, fencing, selection, capacity and the
      send/teardown race as a step relation.
    - [Workflow]: internal/workflow/graph.go and the spec types of store.go.
      [WorkflowFacts], [ResultFacts]: the validator decides a contract stated without it.
    - [Registry], [RegistryFacts]: the definition registry of internal/workflow/store.go.
    - [WorkData]: the tables of the work domain (internal/work/types.go, migration
      000016); [WorkGraph]: internal/work/graph.go; [WorkCommands]: internal/work/store.go
      and commands.go; [WorkValue]: internal/work/value.go.
    - [WorkSteps], [WorkInv]: inversion of the table updates and the invariant [gwf] of
      one attempt's execution; [WorkMachine]: the abstract graph machine [gstep];
      [WorkSim]: the simulation of every command by it; [WorkFacts], [WorkItems],
      [WorkAudit], [WorkGates]: the theorems; [WorkDemo]: a concrete workflow
      on which they are instantiated. [WorkAssign]: internal/work/assignment.go, the
      context stamped on an assignment.
    - [Spiffe]: internal/spiffe/spiffe.go, the identities of workers and runners.
    - [Dispatch]: internal/dispatch/store.go, assignments, fencing generations, session
      UIDs; [DispatchFacts], [DispatchUid], [DispatchEvents]: its invariant, the UID
      allocator and the event watermark. [DispatchService]: internal/dispatch/service.go,
      the worker stream, outcomes, leases and the reconciler; [DispatchServiceFacts],
      [DispatchDemo]: its theorems and a concrete service.
    - [Consequence], [ConsequenceFacts]: internal/gateway/consequence.go, the text a
      customer reads before an external action is repeated.
    - [GatewayStore]: internal/gateway/store.go, tool versions, runner registrations,
      pools, grants, credentials, caller scopes, tool pins and the invocation ledger;
      [GatewayFacts]: its invariant. [GatewayService]: internal/gateway/service.go,
      runnerpool.go, conversions.go, credresolve.go and argschema.go;
      [GatewayServiceFacts], [GatewayEffects]: what its handlers do to the ledger and to
      runners; [GatewayPolicy]: authorization, declared state and recovery;
      [GatewayErrors]: publication, replays and requests that cannot complete;
      [GatewayDemo]: a concrete gateway on top of the dispatch example.
    - Identity (internal/identity). [IdentityActions]: actions.go, the action catalogue and
      its encoding in migration 000027. [IdentityData]: the tables and constraints of
      migrations 000002, 000026 and 000027, and audit.go. [IdentityStore]: store.go,
      local_users.go, email.go, apikey.go, secrets.go. [IdentityFlows]: authlink.go and the
      outbox of authemail.go. [IdentityJourneys]: access_request.go, credentials.go,
      bootstrap.go. [IdentitySession]: session.go and throttle.go. [IdentityPeople]:
      apicredentials.go and people.go. [Authority]: authority.go, the V2 authority epoch and
      its cutover. [IdentityFacts], [AuthorityFacts]: lemmas on the statements and on the
      disposition of legacy credentials. [IdentityMachine]: all operations as one machine
      [exec], the authority [view] it grants and the abstract machine [authority_step];
      [IdentityRefine]: the simulation; [IdentityAuthority], [IdentitySchema],
      [IdentityLinks], [IdentityRace], [AuthorityCutover]: the theorems; [IdentityDemo]: a
      concrete deployment.
    - [Artifact]: internal/artifact (types.go, store.go, service.go, objectstore.go), the
      table with its trigger, an object store and the operations as processes;
      [ArtifactFacts]: the protocol between the two; [ArtifactLifecycle]: the theorems and
      runs that lose bytes.
    - [RateLimit]: inference-gateway/internal/ratelimit, the script over Redis sorted sets,
      the limiter and the token batcher; [RateLimitFacts]: their theorems.
    - [Catalog]: internal/permissions/store.go, internal/catalog (store.go, models.go) and
      the views the gateway reads (migrations 000003 to 000008).
    - [InferenceBody]: what inference-gateway/internal/proxy does to request and response
      bodies. [Inference]: snapshot (store.go, cache.go), spiffe, workload, middleware, the
      proxy's handlers and the routers, as processes over a world that others change.
      [InferenceFacts]: what holds between the snapshot, the worlds it was read from and the
      requests sent; [InferenceAccess]: the theorems; [InferenceDemo]: a concrete gateway.
    - [Reconcile]: the reconcilers of internal/controller for policies, identity mappings
      and models over a Kubernetes API with versions and a lagging informer.
      [ReconcileFacts]: the finalizer protocol and convergence, and a small cluster.
    - [Web]: internal/server (auth_middleware.go, auth_api.go, people_api.go, authority.go
      and the user and key endpoints of server.go), each endpoint with its guards as a
      process over the identity store. [WebFacts]: a logic that knows the log of a request's
      own actions, one that compares two runs, and what each handler leaves alone;
      [WebAccess]: the theorems and a deployment served over HTTP.

    ** What the theorems show

    - Work domain: every command is a step of the abstract graph machine, so each attempt
      executes a path of its immutable graph snapshot with at most one active node, one
      turn per agent visit, consecutive visit and sequence numbers and the transition
      limit respected; history rows never change; routing is total and unambiguous on
      validated graphs; settling a turn does exactly what the completion report and the
      graph say; starts are idempotent; repeated external actions need an exact, current
      confirmation; the customer-visible state is the one of the current attempt; the
      value ledger holds at most one credit and one deduction that cancel; timelines are
      append only.
    - Workflow contract: [ValidateGraph] accepts exactly the specs of a declarative contract
      (routing, reachability, reserved capabilities, agent tasks, the forms of human gates
      and the result presentations, down to the property paths and enum values of their
      schemas), in whatever order they list their parts; its graph search computes
      reachability.
    - Registry: versions are immutable, keys keep their owner, cleanup of one owner does
      not touch another, a replacement leaves exactly the given bindings.
    - Runtime: reachable databases are well formed, rows follow their lifecycles, the log
      replays from any point, the first terminal writer wins.
    - Worker pool: a worker never holds credit and a turn at once, reconnects fence the
      previous stream, selection returns an assignable worker whenever there is one,
      capacity gating has the specified hysteresis, and no send touches a stream after
      its teardown, which never hangs.
    - Dispatch: a turn is assigned and sent at most once, a send whose outcome is unknown
      counted as sent, a stale worker changes nothing, events are applied exactly once and acknowledged only after their commit,
      a session's UID is not given away within its grace period and stays in range.
    - Gateway: whatever requests, runner streams, sweeps and administrative writes
      interleave and whichever statements and sends fail, a runner is told to execute only
      calls with a committed ledger row, no oftener than the configured attempts and exactly
      once for a write that cannot be repeated, with the tool version the attempt pinned; a terminal answer is what the
      ledger holds; a fenced worker is refused; what a caller may invoke it can discover;
      recovery closes exactly the orphaned calls; pools, bindings and approvals are what
      was declared; consequence templates are accepted exactly by their contract.
    - Identity: every operation but one is a sequence of guarded authority steps, so a
      credential has Admin-only power only while its owner is an active Admin, revoked
      credentials and closed sessions are never usable again, and the last active Admin
      survives every sequence of operations the guard covers; rows carry what
      their state means where no constraint asks for it; a one-time link is claimed at most once; a throttled key waits exactly its
      block; an action set is issued exactly when it is enforceable; a mapping of a legacy
      credential never widens it; a committed cutover passes its verification, the epoch gate
      never reopens, a ready preflight is kept by a later transaction.
    - Artifacts: whatever uploads, reads, deletions and sweeps interleave and whichever
      requests fail, an available artifact whose object has not been removed has the bytes
      its row records, an upload that succeeds recorded the body it was given, and what is
      served is what was recorded.
    - Rate limiter: the limiter decides as a sliding window over the requests and tokens it
      has counted, admits at most a positive constant limit in any window (calls in the
      order of their times, clocks within half a second, no two calls that build the same
      member, Redis answering), and the batcher loses only the tokens that meet a full queue.
    - Inference gateway: every request that reaches a backend was authorized, by the tables
      as they stood when the snapshot was read, or by a live assignment held while the
      request ran; with a fresh snapshot exactly the calls the tables allow are forwarded,
      to the backend they name; the body a backend gets is the client's with exactly the
      configured defaults, prompt, model name, reasoning switch and stream options; after the authority cutover the
      snapshot cannot change any more.
    - Reconcilers: an active policy, external identity or model always has a resource with
      the finalizer behind it, however stale the reads and whatever fails, as long as nobody
      takes the finalizer off by hand or makes such rows otherwise; two answered rounds bring any policy to what its
      resource declares.
    - HTTP API of accounts: whatever interferes, a request changes account rows,
      passwords included, and keys and credentials only after it found the live session of
      an Admin with its CSRF token and a recent password, or an Admin key, or, for that one
      account alone, with an unused setup or reset link or, its name and locale, the
      owner's session; a refused sign-in gives the same reply for every reason it can be refused; the
      throttles of the link endpoints never count.
    - Several theorems (their comments say so) state behaviour the code does not intend.

    ** Parameters, fuel

    The JSON Schema library is third-party: [jsonschema_compiles] and [jsonschema_valid]
    are arbitrary functions. The SHA-256 of a start payload is the arbitrary function
    [payload_hash]; idempotency is stated in terms of it. At the gateway the schema
    validator, the literal of a JSON number, error texts, the artifact rows and the
    iteration order of Go maps are arbitrary; secrets and OAuth tokens are answers of the
    environment. In the identity files SHA-256 ([sha256hex]), strings.ToLower and password
    hashing ([HashPassword]) are arbitrary functions; generated secrets are arguments. So
    are the hash of artifact bytes and API keys ([sha256hex]), media type parsing
    ([media_type]), uuid.Parse and PostgreSQL's uuid input ([uuid_Parse], [pg_uuid]) and the
    texts of errors ([error_text], [err_text]). In the HTTP API [VerifyPassword],
    net.SplitHostPort, net.ParseIP, the networks of proxies ([contains]) and the parser of
    user agents ([ParseClientLabels]) are arbitrary too. An object store is any instance of the class
    [ObjectStorage]; the answers of Redis calls, backends, the Kubernetes API and the clock
    are questions to the environment. Loops that are not structural
    carry fuel: 40 digits for the numbers Lua prints (a time in microseconds has fewer), the number
    of attempts for the start of the snapshot cache (any number), the length of the text for JSON, durations and trimming, one more than
    the number of graph edges for [walk] (shown enough by [walk_correct]), the depth of the
    document for the schema traversal ([collect_fuel] shows that more changes nothing, as
    [parse_groups_fuel] does for durations).

    ** Not modelled

    Read-only projections and dashboards, the HTTP endpoints of work, artifacts, tokens and
    capabilities, JSON decoding of request bodies and the texts and cookie attributes of
    replies, the time a password check takes, the gRPC servers, metrics and logs, the
    gateway's artifact streams, JSON Web Tokens, the arithmetic of Argon2, the delivery
    loop and templates of mail, geolocation and user agents, the decoder of the published
    authority state, the inference gateway's configuration and listeners, the controllers
    that build cluster objects (agent pools, model backends, workflows), provisioning, the
    TypeScript services and generated
    code. Several gateway processes share the database in production; the theorems that
    count messages are about the streams of one of them, whose handlers run with arbitrary
    well-behaved changes of the shared tables. The Kubernetes watch is not modelled: rounds
    run at any time, and convergence is about rounds that do run. *)
From stdpp Require Export base tactics decidable gmap strings list sets fin_maps fin_map_dom sorting.
From Stdlib Require Export ZArith Lia.

#[global] Open Scope Z_scope.

(** Go strings are byte strings; [String.string] is the same data. UUID columns
    and parameters are kept as strings. *)
Notation uuid := string (only parsing).
(** Timestamps, in microseconds. *)
Notation timestamp := Z (only parsing).

(** * Transactions

    A database transaction is a function from the committed state to either an
    error (the deferred [tx.Rollback] discards every write) or a result with the
    new state (the final [tx.Commit]). *)
Definition Tx (S E A : Type) : Type := S → E + (A * S).

Section tx_ops.
Context {S E : Type}.
#[global] Instance tx_ret : MRet (Tx S E) := λ A a s, inr (a, s).
#[global] Instance tx_bind : MBind (Tx S E) := λ A B k m s,
  match m s with
  | inl e => inl e
  | inr (a, s') => k a s'
  end.
Definition tx_fail {A} (e : E) : Tx S E A := λ _, inl e.
Definition tx_get : Tx S E S := λ s, inr (s, s).
Definition tx_modify (f : S → S) : Tx S E () := λ s, inr ((), f s).
Definition tx_asks {A} (f : S → A) : Tx S E A := λ s, inr (f s, s).
Definition tx_require (b : bool) (e : E) : Tx S E () :=
  if b then mret () else tx_fail e.
Definition tx_opt {A} (o : option A) (e : E) : Tx S E A :=
  match o with Some a => mret a | None => tx_fail e end.
Fixpoint tx_iter {A} (f : A → Tx S E ()) (l : list A) : Tx S E () :=
  match l with
  | [] => mret ()
  | a :: l' => f a ≫= λ _, tx_iter f l'
  end.
End tx_ops.

(** Running a transaction: the caller gets the error or the value, and the
    committed state moves only on success. *)
Definition run_tx {S E A} (m : Tx S E A) (s : S) : (E + A) * S :=
  match m s with
  | inl e => (inl e, s)
  | inr (a, s') => (inr a, s')
  end.

Section tx_lemmas.
Context {S E : Type}.
Lemma tx_bind_inr {A B} (m : Tx S E A) (k : A → Tx S E B) s b s' :
  (m ≫= k) s = inr (b, s') ↔ ∃ a s1, m s = inr (a, s1) ∧ k a s1 = inr (b, s').
Proof. unfold mbind, tx_bind. destruct (m s) as [e|[a s1]]; naive_solver. Qed.
Lemma tx_bind_inl {A B} (m : Tx S E A) (k : A → Tx S E B) s e :
  (m ≫= k) s = inl e ↔ m s = inl e ∨ ∃ a s1, m s = inr (a, s1) ∧ k a s1 = inl e.
Proof. unfold mbind, tx_bind. destruct (m s) as [e'|[a s1]]; naive_solver. Qed.
Lemma tx_bind_step {A B} (m : Tx S E A) (k : A → Tx S E B) s a s1 :
  m s = inr (a, s1) → (m ≫= k) s = k a s1.
Proof. intros H. unfold mbind, tx_bind. by rewrite H. Qed.
Lemma tx_bind_err {A B} (m : Tx S E A) (k : A → Tx S E B) s e :
  m s = inl e → (m ≫= k) s = inl e.
Proof. intros H. unfold mbind, tx_bind. by rewrite H. Qed.
Lemma tx_ret_inr {A} (a b : A) (s s' : S) :
  (mret a : Tx S E A) s = inr (b, s') ↔ a = b ∧ s = s'.
Proof. unfold mret, tx_ret. naive_solver. Qed.
Lemma tx_require_inr b (e : E) (s s' : S) u :
  tx_require b e s = inr (u, s') ↔ b = true ∧ s = s'.
Proof. destruct b, u; unfold tx_require, tx_fail, mret, tx_ret; naive_solver. Qed.
Lemma tx_opt_inr {A} (o : option A) (e : E) (s s' : S) a :
  tx_opt o e s = inr (a, s') ↔ o = Some a ∧ s = s'.
Proof. destruct o; unfold tx_opt, tx_fail, mret, tx_ret; naive_solver. Qed.
Lemma tx_asks_inr {A} (f : S → A) (s s' : S) a :
  (tx_asks f : Tx S E A) s = inr (a, s') ↔ f s = a ∧ s = s'.
Proof. unfold tx_asks. naive_solver. Qed.
Lemma tx_modify_inr (f : S → S) (s s' : S) u :
  (tx_modify f : Tx S E ()) s = inr (u, s') ↔ f s = s'.
Proof. unfold tx_modify. destruct u. naive_solver. Qed.
Lemma tx_get_inr (s s' a : S) :
  (tx_get : Tx S E S) s = inr (a, s') ↔ s = a ∧ s = s'.
Proof. unfold tx_get. naive_solver. Qed.
Lemma tx_fail_inr {A} (e : E) (s s' : S) (a : A) :
  tx_fail e s = inr (a, s') ↔ False.
Proof. unfold tx_fail. naive_solver. Qed.
Lemma run_tx_err {A} (m : Tx S E A) s e s' :
  run_tx m s = (inl e, s') → s' = s.
Proof. unfold run_tx. destruct (m s) as [|[??]]; naive_solver. Qed.
Lemma run_tx_ok {A} (m : Tx S E A) s a s' :
  run_tx m s = (inr a, s') ↔ m s = inr (a, s').
Proof. unfold run_tx. destruct (m s) as [|[??]]; naive_solver. Qed.
(** A relation kept by each iteration is kept by the loop. *)
Lemma tx_iter_preserves {A} (R : S → S → Prop) (f : A → Tx S E ()) l s s' u :
  (∀ x, R x x) → (∀ x y z, R x y → R y z → R x z) →
  (∀ a x y v, a ∈ l → f a x = inr (v, y) → R x y) →
  tx_iter f l s = inr (u, s') → R s s'.
Proof.
  intros Hr Ht. revert s. induction l as [|a l IH]; intros s Hf H; simpl in H.
  - apply tx_ret_inr in H as [_ ->]. apply Hr.
  - apply tx_bind_inr in H as (v & s1 & H1 & H2).
    eapply Ht; [eapply Hf; [left|done]|].
    eapply IH; [|done]. intros; eapply Hf; [by right|done].
Qed.
End tx_lemmas.

(** [inv_tx H] decomposes [H : m s = inr (a, s')] into its successful steps. *)
Ltac inv_eq H := first [ subst_var_r H | idtac ]
with subst_var_r H :=
  lazymatch type of H with
  | _ = ?y => is_var y; first [ rewrite <- H in *; clear H y | subst y ]
  end.
Ltac inv_tx_step :=
  match goal with
  | H : (_ ≫= _) _ = inr (_, _) |- _ =>
      apply tx_bind_inr in H; destruct H as (? & ? & ? & H)
  | H : mret _ _ = inr (_, _) |- _ =>
      apply tx_ret_inr in H; let H' := fresh in destruct H as [H H']; inv_eq H'; inv_eq H
  | H : tx_require _ _ _ = inr (_, _) |- _ =>
      apply tx_require_inr in H; let H' := fresh in destruct H as [H H']; inv_eq H'
  | H : tx_opt _ _ _ = inr (_, _) |- _ =>
      apply tx_opt_inr in H; let H' := fresh in destruct H as [H H']; inv_eq H'
  | H : tx_asks _ _ = inr (_, _) |- _ =>
      apply tx_asks_inr in H; let H' := fresh in destruct H as [H H']; inv_eq H'; inv_eq H
  | H : tx_modify _ _ = inr (_, _) |- _ => apply tx_modify_inr in H; inv_eq H
  | H : tx_get _ = inr (_, _) |- _ =>
      apply tx_get_inr in H; let H' := fresh in destruct H as [H H']; inv_eq H'; inv_eq H
  | H : tx_fail _ _ = inr (_, _) |- _ => apply tx_fail_inr in H; destruct H
  | u : () |- _ => destruct u
  end.
Ltac inv_tx := repeat inv_tx_step.

(** * Functions that return a value or an error *)
#[export] Instance result_ret {E : Type} : MRet (sum E) := λ A a, inr a.
#[export] Instance result_bind {E : Type} : MBind (sum E) := λ A B k m,
  match m with inl e => inl e | inr a => k a end.
(** [if cond { return err }]. *)
Definition fail_if {E : Type} (b : bool) (e : E) : E + () := if b then inl e else inr ().
(** A [for i, x := range l] loop that returns on the first error. *)
Fixpoint range_loop {E A B : Type} (f : Z → A → B → E + B) (i : Z) (l : list A) (b : B) : E + B :=
  match l with
  | [] => inr b
  | a :: l' => f i a b ≫= λ b', range_loop f (i + 1) l' b'
  end.
(** The same for a loop without an accumulator. *)
Fixpoint range_check {E A : Type} (f : Z → A → E + ()) (i : Z) (l : list A) : E + () :=
  match l with
  | [] => inr ()
  | a :: l' => f i a ≫= λ _, range_check f (i + 1) l'
  end.

Section result_lemmas.
Context {E : Type}.
Lemma result_bind_inr {A B} (m : E + A) (k : A → E + B) b :
  (m ≫= k) = inr b ↔ ∃ a, m = inr a ∧ k a = inr b.
Proof. unfold mbind, result_bind. destruct m; naive_solver. Qed.
Lemma fail_if_inr b (e : E) u : fail_if b e = inr u ↔ b = false.
Proof. destruct b, u; unfold fail_if; naive_solver. Qed.
Lemma range_check_inr {A} (f : Z → A → E + ()) i l u :
  range_check f i l = inr u ↔ ∀ j a, l !! j = Some a → f (i + Z.of_nat j) a = inr ().
Proof.
  destruct u. revert i. induction l as [|a l IH]; intros i; simpl.
  - split; [intros _ j a Hj; by rewrite lookup_nil in Hj|done].
  - rewrite result_bind_inr. split.
    + intros ([] & Ha & Hl) [|j] b Hj.
      * injection Hj as <-. by rewrite Z.add_0_r.
      * replace (i + Z.of_nat (S j)) with ((i + 1) + Z.of_nat j) by lia. by apply IH.
    + intros H. exists (). split.
      * specialize (H 0%nat a eq_refl). by rewrite Z.add_0_r in H.
      * apply IH. intros j b Hj. specialize (H (S j) b Hj).
        by replace (i + 1 + Z.of_nat j) with (i + Z.of_nat (S j)) by lia.
Qed.
Lemma range_check_Forall {A} (f : Z → A → E + ()) (P : A → Prop) i l u :
  (∀ j a, f j a = inr () ↔ P a) → range_check f i l = inr u ↔ Forall P l.
Proof.
  intros Hf. rewrite range_check_inr, Forall_lookup. split; intros H j a Hj.
  - apply (Hf (i + Z.of_nat j)). eauto.
  - apply Hf. eauto.
Qed.
End result_lemmas.
(** [inv_res] decomposes a successful computation of [sum] into its steps. *)
Ltac inv_res_step :=
  match goal with
  | H : (_ ≫= _) = inr _ |- _ => apply result_bind_inr in H; destruct H as (? & ? & H)
  | H : fail_if _ _ = inr _ |- _ => apply fail_if_inr in H
  | H : mret _ = inr _ |- _ => unfold mret, result_ret in H
  | H : inl _ = inr _ |- _ => discriminate H
  | u : () |- _ => destruct u
  end.
Ltac inv_res := repeat inv_res_step.

(** [sort.Strings]. *)
Fixpoint insert_string (x : string) (l : list string) : list string :=
  match l with
  | [] => [x]
  | y :: l' => if String.leb x y then x :: l else y :: insert_string x l'
  end.
Definition sort_strings (l : list string) : list string := foldr insert_string [] l.
Lemma insert_string_perm x l : insert_string x l ≡ₚ x :: l.
Proof.
  induction l as [|y l IH]; simpl; [done|]. destruct (String.leb x y); [done|].
  rewrite IH. by constructor.
Qed.
Lemma sort_strings_perm l : sort_strings l ≡ₚ l.
Proof. induction l as [|x l IH]; simpl; [done|]. by rewrite insert_string_perm, IH. Qed.

(** * Selecting rows of a table *)
Definition rows {R} (t : gmap uuid R) : list R := snd <$> map_to_list t.
Definition select {R} (P : R → bool) (t : gmap uuid R) : list R :=
  filter (λ r, P r = true) (rows t).

Lemma elem_of_rows {R} (t : gmap uuid R) r : r ∈ rows t ↔ ∃ k, t !! k = Some r.
Proof.
  unfold rows. rewrite list_elem_of_fmap. split.
  - intros ([k r'] & -> & H). exists k. by apply elem_of_map_to_list in H.
  - intros [k H]. exists (k, r). by rewrite elem_of_map_to_list.
Qed.
Lemma elem_of_select {R} P (t : gmap uuid R) r :
  r ∈ select P t ↔ P r = true ∧ ∃ k, t !! k = Some r.
Proof. unfold select. by rewrite list_elem_of_filter, elem_of_rows. Qed.

(** [SELECT EXISTS (SELECT 1 FROM t WHERE P)]. *)
Definition exists_row {R} (P : R → bool) (t : gmap uuid R) : bool :=
  match select P t with [] => false | _ => true end.
Lemma exists_row_true {R} P (t : gmap uuid R) :
  exists_row P t = true ↔ ∃ k r, t !! k = Some r ∧ P r = true.
Proof.
  unfold exists_row. destruct (select P t) as [|r l] eqn:Hs; split; try done.
  - intros (k & r & Hk & HP). assert (r ∈ select P t) as Hin by (apply elem_of_select; eauto).
    rewrite Hs in Hin. by apply not_elem_of_nil in Hin.
  - intros _. assert (r ∈ select P t) as Hin by (rewrite Hs; left).
    apply elem_of_select in Hin as (? & k & ?). eauto.
Qed.
Lemma exists_row_false {R} P (t : gmap uuid R) :
  exists_row P t = false ↔ ∀ k r, t !! k = Some r → P r = false.
Proof.
  destruct (exists_row P t) eqn:He; split; try done.
  - intros H. apply exists_row_true in He as (k & r & Hk & HP).
    rewrite (H k r Hk) in HP. done.
  - intros _ k r Hk. destruct (P r) eqn:HP; [|done].
    assert (exists_row P t = true) as H by (apply exists_row_true; eauto). congruence.
Qed.

(** [ORDER BY key LIMIT 1]: a row with the least key. *)
Fixpoint min_by {A} (key : A → Z) (l : list A) : option A :=
  match l with
  | [] => None
  | a :: l' =>
      match min_by key l' with
      | None => Some a
      | Some b => if key b <? key a then Some b else Some a
      end
  end.
Lemma min_by_None {A} key (l : list A) : min_by key l = None ↔ l = [].
Proof.
  destruct l as [|a l]; simpl; [done|].
  destruct (min_by key l) as [b|]; [destruct (key b <? key a)|]; done.
Qed.
Lemma min_by_Some {A} key (l : list A) a :
  min_by key l = Some a → a ∈ l ∧ ∀ b, b ∈ l → key a ≤ key b.
Proof.
  revert a. induction l as [|x l IH]; intros a; simpl; [done|].
  destruct (min_by key l) as [y|] eqn:Hm.
  - destruct (IH y eq_refl) as [Hin Hmin].
    destruct (Z.ltb_spec (key y) (key x)); intros [= <-].
    + split; [by right|]. intros b [->|Hb]%elem_of_cons; [lia|auto].
    + split; [left|]. intros b [->|Hb]%elem_of_cons; [lia|]. specialize (Hmin _ Hb). lia.
  - intros [= <-]. apply min_by_None in Hm as ->. split; [left|].
    intros b [->|Hb]%elem_of_cons; [lia|]. by apply not_elem_of_nil in Hb.
Qed.

(** [COALESCE(MAX(e), 0)] over the selected rows. *)
Fixpoint max_of {A} (f : A → Z) (l : list A) : Z :=
  match l with [] => 0 | a :: l' => Z.max (f a) (max_of f l') end.
Lemma max_of_nonneg {A} (f : A → Z) l : 0 ≤ max_of f l.
Proof. induction l; simpl; lia. Qed.
Lemma max_of_ge {A} (f : A → Z) l a : a ∈ l → f a ≤ max_of f l.
Proof.
  induction l as [|b l IH]; simpl; intros H; [by apply not_elem_of_nil in H|].
  apply elem_of_cons in H as [->|H]; [lia|]. specialize (IH H). lia.
Qed.
Lemma max_of_app {A} (f : A → Z) l1 l2 : max_of f (l1 ++ l2) = Z.max (max_of f l1) (max_of f l2).
Proof.
  induction l1 as [|a l IH]; simpl; [|lia]. pose proof (max_of_nonneg f l2). lia.
Qed.
Lemma max_of_witness {A} (f : A → Z) l : max_of f l = 0 ∨ ∃ a, a ∈ l ∧ f a = max_of f l.
Proof.
  induction l as [|b l IH]; simpl; [by left|].
  destruct (Z.max_spec (f b) (max_of f l)) as [[? ->]|[? ->]].
  - destruct IH as [->|(a & ? & ?)]; [by left|]. right. exists a. split; [by right|done].
  - right. exists b. split; [left|done].
Qed.

Lemma filter_all {A} (P : A → Prop) `{∀ x, Decision (P x)} l : Forall P l → filter P l = l.
Proof.
  induction 1 as [|x l Hx _ IH]; [done|]. by rewrite filter_cons, decide_True, IH.
Qed.

(** * Booleans *)
Lemma bool_decide_in {A} `{EqDecision A} (a : A) (l : list A) :
  bool_decide (a ∈ l) = true ↔ a ∈ l.
Proof. apply bool_decide_eq_true. Qed.

(** PostgreSQL's [integer] and [bigint], Go's [int] on 64-bit platforms. *)
Definition int4_max : Z := 2147483647.
Definition int8_max : Z := 9223372036854775807.

Create HintDb iterabase.
#[export] Hint Resolve max_of_nonneg : iterabase.
