(* ===== verification/Json.v ===== *)
(** JSON as the Go standard library decodes it.

    [json.RawMessage] is the raw text, a string. [parse_json] is the syntax check
    and decoder of [encoding/json] (Go strings hold UTF-8, which is not
    re-validated here; the 10000-level nesting limit is not modelled), [json] the
    decoded value; numbers keep their exact decimal value [m * 10^e] and
    [float64_of_decimal] rounds them the way [strconv.ParseFloat] does. The
    [unmarshal_*] functions are [json.Unmarshal] into the Go types the program
    uses: a [null] leaves the target at its zero value without an error. *)
From S2P Require Import Prelude.
From Stdlib Require Import Ascii.

Inductive json :=
| JNull
| JBool (b : bool)
| JNum (m e : Z)
| JStr (s : string)
| JArr (l : list json)
| JObj (l : list (string * json)).

(** * Characters *)
Definition is_space (c : ascii) : bool :=
  let n := N_of_ascii c in
  ((n =? 32) || (n =? 9) || (n =? 10) || (n =? 13))%N.
Definition is_digit (c : ascii) : bool :=
  let n := N_of_ascii c in ((48 <=? n) && (n <=? 57))%N.
Definition digit_val (c : ascii) : Z := Z.of_N (N_of_ascii c) - 48.
Definition hex_val (c : ascii) : option Z :=
  let n := Z.of_N (N_of_ascii c) in
  if (48 <=? n) && (n <=? 57) then Some (n - 48)
  else if (97 <=? n) && (n <=? 102) then Some (n - 87)
  else if (65 <=? n) && (n <=? 70) then Some (n - 55)
  else None.

Fixpoint skip_ws (s : string) : string :=
  match s with
  | String c s' => if is_space c then skip_ws s' else s
  | EmptyString => EmptyString
  end.

Definition chr (n : Z) : ascii := ascii_of_N (Z.to_N n).

(** UTF-8 encoding of a code point (the decoder's [utf8.EncodeRune]). *)
Definition utf8 (r : Z) : string :=
  if r <? 128 then String (chr r) ""
  else if r <? 2048 then
    String (chr (192 + Z.shiftr r 6)) (String (chr (128 + Z.land r 63)) "")
  else if r <? 65536 then
    String (chr (224 + Z.shiftr r 12))
      (String (chr (128 + Z.land (Z.shiftr r 6) 63)) (String (chr (128 + Z.land r 63)) ""))
  else
    String (chr (240 + Z.shiftr r 18))
      (String (chr (128 + Z.land (Z.shiftr r 12) 63))
        (String (chr (128 + Z.land (Z.shiftr r 6) 63)) (String (chr (128 + Z.land r 63)) ""))).

Definition hex4 (s : string) : option (Z * string) :=
  match s with
  | String a (String b (String c (String d s'))) =>
      va ← hex_val a; vb ← hex_val b; vc ← hex_val c; vd ← hex_val d;
      Some (((va * 16 + vb) * 16 + vc) * 16 + vd, s')
  | _ => None
  end.

(** * Strings: the text after the opening quote *)
Definition dquote : ascii := chr 34.
Definition bslash : ascii := chr 92.
Definition simple_escape (c : ascii) : option ascii :=
  if Ascii.eqb c dquote then Some dquote
  else if Ascii.eqb c bslash then Some bslash
  else if Ascii.eqb c "/"%char then Some "/"%char
  else if Ascii.eqb c "b"%char then Some (chr 8)
  else if Ascii.eqb c "f"%char then Some (chr 12)
  else if Ascii.eqb c "n"%char then Some (chr 10)
  else if Ascii.eqb c "r"%char then Some (chr 13)
  else if Ascii.eqb c "t"%char then Some (chr 9)
  else None.

Definition is_high (r : Z) : bool := (55296 <=? r) && (r <? 56320).
Definition is_low (r : Z) : bool := (56320 <=? r) && (r <? 57344).

(** An escaped code unit: a surrogate pair joins, a lone surrogate becomes U+FFFD. *)
Definition unicode_escape (s : string) : option (string * string) :=
  '(r, s1) ← hex4 s;
  if is_high r then
    match s1 with
    | String a (String b s2) =>
        if Ascii.eqb a bslash && Ascii.eqb b "u"%char then
          match hex4 s2 with
          | Some (lo, s3) =>
              if is_low lo
              then Some (utf8 (65536 + (r - 55296) * 1024 + (lo - 56320)), s3)
              else Some (utf8 65533, s1)
          | None => Some (utf8 65533, s1)
          end
        else Some (utf8 65533, s1)
    | _ => Some (utf8 65533, s1)
    end
  else if is_low r then Some (utf8 65533, s1)
  else Some (utf8 r, s1).

Fixpoint parse_chars (fuel : nat) (s : string) : option (string * string) :=
  match fuel with
  | O => None
  | S fuel =>
      match s with
      | EmptyString => None
      | String c s1 =>
          if Ascii.eqb c dquote then Some (EmptyString, s1)
          else if Ascii.eqb c bslash then
            match s1 with
            | EmptyString => None
            | String d s2 =>
                if Ascii.eqb d "u"%char then
                  '(u, s3) ← unicode_escape s2;
                  '(t, s4) ← parse_chars fuel s3; Some ((u +:+ t)%string, s4)
                else
                  e ← simple_escape d;
                  '(t, s3) ← parse_chars fuel s2; Some (String e t, s3)
            end
          else if (N_of_ascii c <? 32)%N then None
          else '(t, s2) ← parse_chars fuel s1; Some (String c t, s2)
      end
  end.

(** * Numbers *)
Fixpoint digits (acc : Z) (n : Z) (s : string) : Z * Z * string :=
  match s with
  | String c s' => if is_digit c then digits (acc * 10 + digit_val c) (n + 1) s' else (acc, n, s)
  | EmptyString => (acc, n, s)
  end.

Definition parse_frac (m : Z) (s : string) : option (Z * Z * string) :=
  match s with
  | String "." s1 =>
      let '(m', k, s2) := digits m 0 s1 in
      if k =? 0 then None else Some (m', -k, s2)
  | _ => Some (m, 0, s)
  end.

Definition parse_exp (s : string) : option (Z * string) :=
  match s with
  | String c s1 =>
      if Ascii.eqb c "e"%char || Ascii.eqb c "E"%char then
        let '(sg, s2) := match s1 with
                         | String "+" t => (1, t)
                         | String "-" t => (-1, t)
                         | _ => (1, s1)
                         end in
        let '(v, k, s3) := digits 0 0 s2 in
        if k =? 0 then None else Some (sg * v, s3)
      else Some (0, s)
  | EmptyString => Some (0, s)
  end.

Definition parse_number (s : string) : option (json * string) :=
  let '(neg, s1) := match s with String "-" t => (true, t) | _ => (false, s) end in
  '(m, s2) ← match s1 with
             | String "0" t => Some (0, t)
             | String c _ =>
                 if is_digit c then let '(v, _, t) := digits 0 0 s1 in Some (v, t) else None
             | EmptyString => None
             end;
  '(m', e1, s3) ← parse_frac m s2;
  '(e2, s4) ← parse_exp s3;
  Some (JNum (if neg then - m' else m') (e1 + e2), s4).

Fixpoint strip_prefix (p s : string) : option string :=
  match p, s with
  | EmptyString, _ => Some s
  | String a p', String b s' => if Ascii.eqb a b then strip_prefix p' s' else None
  | _, EmptyString => None
  end.

(** * Values. The fuel bounds the recursion depth; the text length is enough. *)
Fixpoint parse_value (fuel : nat) (s0 : string) : option (json * string) :=
  match fuel with
  | O => None
  | S fuel =>
      let s := skip_ws s0 in
      match s with
      | EmptyString => None
      | String c s1 =>
          if Ascii.eqb c "{"%char then
            match skip_ws s1 with
            | String "}" s2 => Some (JObj [], s2)
            | s2 => '(l, s3) ← parse_members fuel s2; Some (JObj l, s3)
            end
          else if Ascii.eqb c "["%char then
            match skip_ws s1 with
            | String "]" s2 => Some (JArr [], s2)
            | s2 => '(l, s3) ← parse_elems fuel s2; Some (JArr l, s3)
            end
          else if Ascii.eqb c dquote then
            '(t, s2) ← parse_chars (S (String.length s1)) s1; Some (JStr t, s2)
          else
            match strip_prefix "true" s with
            | Some t => Some (JBool true, t)
            | None =>
                match strip_prefix "false" s with
                | Some t => Some (JBool false, t)
                | None =>
                    match strip_prefix "null" s with
                    | Some t => Some (JNull, t)
                    | None => parse_number s
                    end
                end
            end
      end
  end
with parse_elems (fuel : nat) (s : string) : option (list json * string) :=
  match fuel with
  | O => None
  | S fuel =>
      '(v, s1) ← parse_value fuel s;
      match skip_ws s1 with
      | String "," s2 => '(l, s3) ← parse_elems fuel s2; Some (v :: l, s3)
      | String "]" s2 => Some ([v], s2)
      | _ => None
      end
  end
with parse_members (fuel : nat) (s : string) : option (list (string * json) * string) :=
  match fuel with
  | O => None
  | S fuel =>
      match skip_ws s with
      | String c s1 =>
          if Ascii.eqb c dquote then
            '(k, s2) ← parse_chars (S (String.length s1)) s1;
            match skip_ws s2 with
            | String ":" s3 =>
                '(v, s4) ← parse_value fuel s3;
                match skip_ws s4 with
                | String "," s5 => '(l, s6) ← parse_members fuel s5; Some ((k, v) :: l, s6)
                | String "}" s5 => Some ([(k, v)], s5)
                | _ => None
                end
            | _ => None
            end
          else None
      | EmptyString => None
      end
  end.

(** [json.Valid] and the decoding half of [json.Unmarshal]: one value, then only
    white space. *)
Definition parse_json (s : string) : option json :=
  '(v, s1) ← parse_value (3 * S (String.length s)) s;
  match skip_ws s1 with EmptyString => Some v | _ => None end.

Definition json_valid (s : string) : bool :=
  match parse_json s with Some _ => true | None => false end.

(** * Decoding into Go types

    A Go [map[string]json.RawMessage] is the list of its entries with the last
    duplicate winning; the raw messages in it are the (already valid) values. *)
Definition map_get (k : string) (l : list (string * json)) : option json :=
  foldl (λ acc kv, if String.eqb kv.1 k then Some kv.2 else acc) None l.

Fixpoint dedup_keys (l : list string) : list string :=
  match l with
  | [] => []
  | k :: l' => if bool_decide (k ∈ l') then dedup_keys l' else k :: dedup_keys l'
  end.
Definition map_keys (l : list (string * json)) : list string := dedup_keys l.*1.

Definition unmarshal_map (v : json) : option (list (string * json)) :=
  match v with JObj l => Some l | JNull => Some [] | _ => None end.
Definition unmarshal_array (v : json) : option (list json) :=
  match v with JArr l => Some l | JNull => Some [] | _ => None end.
Definition unmarshal_string (v : json) : option string :=
  match v with JStr s => Some s | JNull => Some EmptyString | _ => None end.
Definition unmarshal_bool (v : json) : option bool :=
  match v with JBool b => Some b | JNull => Some false | _ => None end.
Fixpoint unmarshal_strings (l : list json) : option (list string) :=
  match l with
  | [] => Some []
  | v :: l' => s ← unmarshal_string v; t ← unmarshal_strings l'; Some (s :: t)
  end.

(** A struct field is matched exactly or, failing that, case-insensitively; every
    matching member is decoded in order. ASCII letters are folded. *)
Definition lower_ascii (c : ascii) : ascii :=
  let n := N_of_ascii c in
  if ((65 <=? n) && (n <=? 90))%N then ascii_of_N (n + 32) else c.
Fixpoint lower (s : string) : string :=
  match s with
  | EmptyString => EmptyString
  | String c s' => String (lower_ascii c) (lower s')
  end.
Definition field_values (name : string) (l : list (string * json)) : list json :=
  snd <$> filter (λ kv, lower kv.1 = lower name) l.

(** * float64 *)

(** The nearest binary64 value of [n / d] ([n >= 0], [d > 0]) as [m * 2^e], ties
    to even; [None] on overflow ([json.Unmarshal] fails then). *)
Definition round_div (n d : Z) : Z :=
  let q := n / d in
  let r := n mod d in
  if (d <? 2 * r) || ((d =? 2 * r) && Z.odd q) then q + 1 else q.
Definition scale2 (n d e : Z) : Z * Z :=
  if 0 <=? e then (n, d * 2 ^ e) else (n * 2 ^ (- e), d).
Definition float64_ratio (n d : Z) : option (Z * Z) :=
  if n =? 0 then Some (0, 0)
  else
    let e0 := Z.log2 n - Z.log2 d - 52 in
    let e1 := Z.max (-1074) (e0 - 1) in
    let '(n1, d1) := scale2 n d e1 in
    let e := if 2 ^ 53 * d1 <=? n1 then e1 + 1 else e1 in
    let '(n2, d2) := scale2 n d e in
    let m := round_div n2 d2 in
    let '(m, e) := if m =? 2 ^ 53 then (2 ^ 52, e + 1) else (m, e) in
    if 971 <? e then None else Some (m, e).
(** Exponents far outside the binary64 range are settled without computing the
    power of ten. *)
Definition float64_of_decimal (m e : Z) : option (Z * Z * bool) :=
  let a := Z.abs m in
  if a =? 0 then Some (0, 0, false)
  else if 400 <? e then None
  else if e + Z.log2 a <? -1200 then Some (0, 0, false)
  else
    '(k, x) ← (if 0 <=? e then float64_ratio (a * 10 ^ e) 1
               else float64_ratio a (10 ^ (- e)));
    if k =? 0 then Some (0, 0, false) else Some (k, x, m <? 0).

(** [reflect.DeepEqual] of two decoded [any] values. *)
Fixpoint any_ok (v : json) : bool :=
  match v with
  | JNum m e => match float64_of_decimal m e with Some _ => true | None => false end
  | JArr l => forallb any_ok l
  | JObj l => forallb (λ kv, any_ok kv.2) l
  | _ => true
  end.
Fixpoint deep_equal (fuel : nat) (a b : json) : bool :=
  match fuel with
  | O => false
  | S fuel =>
      match a, b with
      | JNull, JNull => true
      | JBool x, JBool y => Bool.eqb x y
      | JNum m1 e1, JNum m2 e2 =>
          bool_decide (float64_of_decimal m1 e1 = float64_of_decimal m2 e2)
      | JStr x, JStr y => String.eqb x y
      | JArr l1, JArr l2 =>
          (length l1 =? length l2)%nat && forallb (λ p, deep_equal fuel p.1 p.2) (zip l1 l2)
      | JObj l1, JObj l2 =>
          (length (map_keys l1) =? length (map_keys l2))%nat &&
          forallb (λ k, match map_get k l1, map_get k l2 with
                        | Some x, Some y => deep_equal fuel x y
                        | _, _ => false
                        end) (map_keys l1)
      | _, _ => false
      end
  end.
Fixpoint json_depth (v : json) : nat :=
  match v with
  | JArr l => S (foldr Nat.max O (json_depth <$> l))
  | JObj l => S (foldr Nat.max O ((λ kv, json_depth kv.2) <$> l))
  | _ => 1
  end.
Definition any_equal (a b : json) : bool :=
  any_ok a && any_ok b && deep_equal (S (json_depth a)) a b.

(** * Spot checks *)
