(* ===== verification/Duration.v ===== *)
(** [time.ParseDuration] of the Go standard library, the parser of the timeouts a
    workflow node declares. Durations are int64 nanoseconds; the fractional part goes
    through binary64 arithmetic as in the library. *)
From S2P Require Import Prelude Json.
From Stdlib Require Import Ascii.

(** A nonnegative binary64 value [m * 2^e]; [None] is positive infinity. *)
Definition float := option (Z * Z).
Definition f64_round (n d : Z) : float := float64_ratio n d.
Definition f64_of_Z (n : Z) : float := f64_round n 1.
Definition f64_mul (a b : float) : float :=
  match a, b with
  | Some (m1, e1), Some (m2, e2) =>
      let e := e1 + e2 in
      if 0 <=? e then f64_round (m1 * m2 * 2 ^ e) 1 else f64_round (m1 * m2) (2 ^ (- e))
  | _, _ => None
  end.
(** [a / b] for finite [a] and [b > 0] or infinite. *)
Definition f64_div (a b : float) : float :=
  match a, b with
  | Some (m1, e1), Some (m2, e2) =>
      let e := e1 - e2 in
      if 0 <=? e then f64_round (m1 * 2 ^ e) m2 else f64_round m1 (m2 * 2 ^ (- e))
  | Some _, None => Some (0, 0)
  | None, _ => None
  end.
(** [uint64(x)], in range here. *)
Definition f64_trunc (a : float) : Z :=
  match a with
  | Some (m, e) => if 0 <=? e then m * 2 ^ e else m / 2 ^ (- e)
  | None => 0
  end.

Definition two63 : Z := 9223372036854775808.
Definition two64 : Z := 18446744073709551616.

(** [leadingInt]: [None] on overflow. *)
Fixpoint leadingInt (x : Z) (s : string) : option (Z * string) :=
  match s with
  | String c s' =>
      if is_digit c then
        if two63 / 10 <? x then None
        else
          let x' := x * 10 + digit_val c in
          if two63 <? x' then None else leadingInt x' s'
      else Some (x, s)
  | EmptyString => Some (x, s)
  end.
Fixpoint leadingFraction (x : Z) (scale : float) (overflow : bool) (s : string)
    : Z * float * string :=
  match s with
  | String c s' =>
      if is_digit c then
        if overflow then leadingFraction x scale true s'
        else if (two63 - 1) / 10 <? x then leadingFraction x scale true s'
        else
          let y := x * 10 + digit_val c in
          if two63 <? y then leadingFraction x scale true s'
          else leadingFraction y (f64_mul scale (f64_of_Z 10)) false s'
      else (x, scale, s)
  | EmptyString => (x, scale, s)
  end.
Fixpoint take_unit (s : string) : string * string :=
  match s with
  | String c s' =>
      if Ascii.eqb c "."%char || is_digit c then (EmptyString, s)
      else let '(u, r) := take_unit s' in (String c u, r)
  | EmptyString => (EmptyString, EmptyString)
  end.
(** The micro sign (U+00B5) and the Greek mu (U+03BC) in UTF-8. *)
Definition micro_sign : string := String (chr 194) (String (chr 181) "s").
Definition greek_mu : string := String (chr 206) (String (chr 188) "s").
Definition unitMap (u : string) : option Z :=
  if String.eqb u "ns" then Some 1
  else if String.eqb u "us" || String.eqb u micro_sign || String.eqb u greek_mu then Some 1000
  else if String.eqb u "ms" then Some 1000000
  else if String.eqb u "s" then Some 1000000000
  else if String.eqb u "m" then Some 60000000000
  else if String.eqb u "h" then Some 3600000000000
  else None.

(** One [number unit] group: its value in nanoseconds and the rest of the text. *)
Definition parse_group (s : string) : option (Z * string) :=
  match s with
  | EmptyString => None
  | String c _ =>
      if negb (Ascii.eqb c "."%char || is_digit c) then None
      else
        '(v, s1) ← leadingInt 0 s;
        let pre := negb (String.length s =? String.length s1)%nat in
        let '(f, scale, s2, post) :=
          match s1 with
          | String d s' =>
              if Ascii.eqb d "."%char then
                let '(f, scale, r) := leadingFraction 0 (f64_of_Z 1) false s' in
                (f, scale, r, negb (String.length s' =? String.length r)%nat)
              else (0, f64_of_Z 1, s1, false)
          | EmptyString => (0, f64_of_Z 1, s1, false)
          end in
        if negb pre && negb post then None
        else
          let '(u, s3) := take_unit s2 in
          if String.eqb u EmptyString then None
          else
            unit ← unitMap u;
            if two63 / unit <? v then None
            else
              let v := v * unit in
              let v := if 0 <? f
                then v + f64_trunc (f64_mul (f64_of_Z f) (f64_div (f64_of_Z unit) scale))
                else v in
              if two63 <? v then None else Some (v, s3)
  end.
(** Every group consumes at least one character: the length of the text is enough fuel. *)
Fixpoint parse_groups (fuel : nat) (d : Z) (s : string) : option Z :=
  match s with
  | EmptyString => Some d
  | _ =>
      match fuel with
      | O => None
      | S fuel =>
          '(v, s') ← parse_group s;
          let d := (d + v) mod two64 in
          if two63 <? d then None else parse_groups fuel d s'
      end
  end.
Definition ParseDuration (s0 : string) : option Z :=
  let '(neg, s) :=
    match s0 with
    | String c t =>
        if Ascii.eqb c "-"%char then (true, t)
        else if Ascii.eqb c "+"%char then (false, t) else (false, s0)
    | EmptyString => (false, s0)
    end in
  if String.eqb s "0" then Some 0
  else if String.eqb s EmptyString then None
  else
    d ← parse_groups (String.length s) 0 s;
    if neg then Some (- d)
    else if two63 - 1 <? d then None else Some d.

Example ParseDuration_ex1 : ParseDuration "1h15m30.918s" = Some 4530918000000.
Proof. reflexivity. Qed.
Example ParseDuration_ex2 : ParseDuration "-.5ms" = Some (-500000).
Proof. reflexivity. Qed.
Example ParseDuration_ex3 : ParseDuration "10" = None.
Proof. reflexivity. Qed.

(** The uint64 accumulator wraps. *)
Example ParseDuration_ex4 :
  ParseDuration "9223372036854775808ns9223372036854775808ns" = Some 0.
Proof. reflexivity. Qed.

(** ** The fuel is never the reason for an error *)
Lemma leadingInt_length x s v r :
  leadingInt x s = Some (v, r) → (String.length r ≤ String.length s)%nat.
Proof.
  revert x. induction s as [|c s IH]; intros x; simpl; [intros; by simplify_eq|].
  destruct (is_digit c); [|intros; simplify_eq; simpl; lia].
  destruct (_ <? x); [done|]. destruct (_ <? _); [done|]. intros ?%IH. lia.
Qed.
Lemma leadingFraction_length x sc o s v sc' r :
  leadingFraction x sc o s = (v, sc', r) → (String.length r ≤ String.length s)%nat.
Proof.
  revert x sc o. induction s as [|c s IH]; intros x sc o; simpl; [intros; by simplify_eq|].
  destruct (is_digit c); [|intros; simplify_eq; simpl; lia].
  destruct o; [intros ?%IH; lia|]. destruct (_ <? x); [intros ?%IH; lia|].
  destruct (_ <? _); intros ?%IH; lia.
Qed.
Lemma take_unit_length s u r :
  take_unit s = (u, r) → u ≠ EmptyString → (String.length r < String.length s)%nat.
Proof.
  revert u r. induction s as [|c s IH]; intros u r; simpl; [intros; by simplify_eq|].
  destruct (Ascii.eqb c "." || is_digit c); [intros; by simplify_eq|].
  destruct (take_unit s) as [u' r'] eqn:Ht. intros [= <- <-] _.
  destruct u'; [|pose proof (IH _ _ eq_refl ltac:(done)); lia].
  destruct s as [|c' s]; simpl in Ht; [simplify_eq; simpl; lia|].
  destruct (Ascii.eqb c' "." || is_digit c'); [simplify_eq; simpl; lia|].
  destruct (take_unit s); simplify_eq.
Qed.
Lemma parse_group_length s v r :
  parse_group s = Some (v, r) → (String.length r < String.length s)%nat.
Proof.
  destruct s as [|c s']; unfold parse_group; [done|].
  destruct (negb _); [done|]. set (s := String c s'). intros H.
  apply bind_Some in H as ([v1 s1] & Hli & H). apply leadingInt_length in Hli.
  assert (∃ f sc s2 post, match s1 with
    | String d s' => if Ascii.eqb d "."%char then
        let '(f, scale, r) := leadingFraction 0 (f64_of_Z 1) false s' in
        (f, scale, r, negb (String.length s' =? String.length r)%nat)
      else (0, f64_of_Z 1, s1, false)
    | EmptyString => (0, f64_of_Z 1, s1, false) end = (f, sc, s2, post) ∧
    (String.length s2 ≤ String.length s1)%nat) as (f & sc & s2 & post & Heq & Hl2).
  { destruct s1 as [|d s1']; [by eauto 10|]. destruct (Ascii.eqb d "."); [|by eauto 10].
    destruct (leadingFraction _ _ _ s1') as [[f sc] r'] eqn:Hf.
    apply leadingFraction_length in Hf. do 4 eexists. split; [done|]. simpl. lia. }
  rewrite Heq in H. destruct (_ && _); [done|].
  destruct (take_unit s2) as [u s3] eqn:Hu.
  destruct (String.eqb_spec u EmptyString) as [|Hne]; [done|].
  apply take_unit_length in Hu; [|done].
  apply bind_Some in H as (un & _ & H). destruct (_ <? v1); [done|].
  destruct (two63 <? _); [done|]. injection H as <- <-. lia.
Qed.
(** More fuel than the length of the text changes nothing. *)
Lemma parse_groups_fuel n m d s :
  (String.length s ≤ n)%nat → (n ≤ m)%nat → parse_groups m d s = parse_groups n d s.
Proof.
  revert m d s. induction n as [|n IH]; intros m d s Hs Hm.
  - destruct s; simpl in Hs; [|lia]. by destruct m.
  - destruct s as [|c s]; [by destruct m|]. destruct m as [|m]; [lia|].
    cbn [parse_groups]. destruct (parse_group (String c s)) as [[v r]|] eqn:Hg; [|done].
    apply parse_group_length in Hg. simpl in *. destruct (two63 <? (d + v) mod two64); [done|].
    apply IH; lia.
Qed.
