(* ===== verification/Runtime.v ===== *)
(** The durable turn runtime store (control-plane/internal/runtime/store.go).

    Tables of the [runtime] schema are finite maps from primary key to row; the
    append-only [runtime.events] is the list of its rows in insertion order. Every
    exported operation is one transaction. [gen_random_uuid()] draws from the
    stream [uuids]; nothing is assumed about it, a repeated value is a primary-key
    violation. [now()] is the argument [now]. The CHECK, UNIQUE, partial-index and
    foreign-key constraints of migrations 000009 and 000016 that these statements
    can hit are part of the INSERTs and UPDATEs. *)
From S2P Require Import Prelude Json.

(** * States, event kinds, rows *)
Inductive RunState :=
  RunPending | RunRunning | RunAwaitingApproval | RunSucceeded | RunFailed | RunAborted.
Inductive StepState := StepPending | StepRunning | StepSucceeded | StepFailed | StepSkipped.
Inductive TurnState := TurnPending | TurnRunning | TurnSucceeded | TurnFailed | TurnAborted.
#[export] Instance RunState_eq : EqDecision RunState. Proof. solve_decision. Defined.
#[export] Instance StepState_eq : EqDecision StepState. Proof. solve_decision. Defined.
#[export] Instance TurnState_eq : EqDecision TurnState. Proof. solve_decision. Defined.

Definition run_state_name (s : RunState) : string :=
  match s with
  | RunPending => "pending" | RunRunning => "running" | RunAwaitingApproval => "awaiting_approval"
  | RunSucceeded => "succeeded" | RunFailed => "failed" | RunAborted => "aborted"
  end.
Definition step_state_name (s : StepState) : string :=
  match s with
  | StepPending => "pending" | StepRunning => "running" | StepSucceeded => "succeeded"
  | StepFailed => "failed" | StepSkipped => "skipped"
  end.
Definition turn_state_name (s : TurnState) : string :=
  match s with
  | TurnPending => "pending" | TurnRunning => "running" | TurnSucceeded => "succeeded"
  | TurnFailed => "failed" | TurnAborted => "aborted"
  end.

Definition KindChat : string := "chat".
Definition KindWorkflow : string := "workflow".
Definition StepKindAgentTask : string := "agent_task".

Definition EvTurnStarted : string := "turn_started".
Definition EvSettled : string := "settled".
Definition EvStepStarted : string := "step_started".
Definition EvStepSucceeded : string := "step_succeeded".
Definition EvStepFailed : string := "step_failed".
Definition EvStepSkipped : string := "step_skipped".
Definition EvRunStarted : string := "run_started".
Definition EvRunSucceeded : string := "run_succeeded".
Definition EvRunFailed : string := "run_failed".
Definition EvRunAborted : string := "run_aborted".
Definition EvRunAwaitingApproval : string := "run_awaiting_approval".
Definition EvRunResumed : string := "run_resumed".

(** Who a run is accountable to; written by the commands of the work domain only. *)
Record Principals := {
  pp_InitiatingHumanIdentityID : option uuid; pp_RequestActorIdentityID : option uuid;
  pp_AuthorizationSource : option string; pp_AuthorizationAPIKeyID : option uuid;
  pp_AuthorizationSessionID : option uuid }.
Definition no_principals : Principals :=
  {| pp_InitiatingHumanIdentityID := None; pp_RequestActorIdentityID := None; pp_AuthorizationSource := None;
     pp_AuthorizationAPIKeyID := None; pp_AuthorizationSessionID := None |}.
Record Run := {
  run_ID : uuid; run_Kind : string; run_DefinitionKey : option string;
  run_ScopeIdentityID : uuid; run_SessionID : string; run_SessionDir : string;
  run_Trigger : json; run_State : RunState;
  run_CreatedAt : timestamp; run_UpdatedAt : timestamp;
  run_StartedAt : option timestamp; run_FinishedAt : option timestamp; run_Principals : Principals }.
Record Step := {
  step_ID : uuid; step_RunID : uuid; step_Seq : Z; step_Kind : string; step_Config : json;
  step_State : StepState; step_StartedAt : option timestamp; step_FinishedAt : option timestamp;
  step_CreatedAt : timestamp; step_UpdatedAt : timestamp }.
Record Turn := {
  turn_ID : uuid; turn_RunID : uuid; turn_StepID : option uuid; turn_NodeExecutionID : option uuid;
  turn_SessionID : string; turn_Model : option string; turn_State : TurnState;
  turn_StartedAt : option timestamp; turn_SettledAt : option timestamp;
  turn_CreatedAt : timestamp; turn_UpdatedAt : timestamp }.
Record Event := {
  ev_ID : uuid; ev_RunID : uuid; ev_TurnID : option uuid; ev_StepID : option uuid;
  ev_NodeExecutionID : option uuid; ev_Seq : Z; ev_Kind : string; ev_Payload : json;
  ev_TS : timestamp }.
Record StepInput := { si_Seq : Z; si_Kind : string; si_Config : string }.
Record CreateRunInput := {
  cri_Kind : string; cri_DefinitionKey : string; cri_ScopeIdentityID : uuid;
  cri_SessionID : string; cri_SessionDir : string; cri_Trigger : string;
  cri_Steps : list StepInput }.

(** The tables the store reads and writes. *)
Record RuntimeDB := mkRuntimeDB {
  identities : gset uuid;
  workflow_runs : gmap uuid Run;
  run_steps : gmap uuid Step;
  turns : gmap uuid Turn;
  events : list Event;
  uuids : nat → uuid;
  uuid_next : nat }.

Inductive RtErr :=
| ErrNotFound
| ErrInvalidTransition (state : string)
| ErrInvalidReason (reason : string)
| ErrUniqueViolation (constraint : string)
| ErrForeignKeyViolation (constraint : string)
| ErrCheckViolation (constraint : string)
| ErrNumericOutOfRange
| ErrInvalidJSON.

Abbreviation RtTx := (Tx RuntimeDB RtErr).

(** * Field updates *)
Definition set_runs (t : gmap uuid Run) (d : RuntimeDB) : RuntimeDB :=
  mkRuntimeDB (identities d) t (run_steps d) (turns d) (events d) (uuids d) (uuid_next d).
Definition set_steps (t : gmap uuid Step) (d : RuntimeDB) : RuntimeDB :=
  mkRuntimeDB (identities d) (workflow_runs d) t (turns d) (events d) (uuids d) (uuid_next d).
Definition set_turns (t : gmap uuid Turn) (d : RuntimeDB) : RuntimeDB :=
  mkRuntimeDB (identities d) (workflow_runs d) (run_steps d) t (events d) (uuids d) (uuid_next d).
Definition set_events (l : list Event) (d : RuntimeDB) : RuntimeDB :=
  mkRuntimeDB (identities d) (workflow_runs d) (run_steps d) (turns d) l (uuids d) (uuid_next d).
Definition bump_uuid (d : RuntimeDB) : RuntimeDB :=
  mkRuntimeDB (identities d) (workflow_runs d) (run_steps d) (turns d) (events d) (uuids d)
    (S (uuid_next d)).

(** [DEFAULT gen_random_uuid()]. *)
Definition gen_random_uuid : RtTx uuid :=
  u ← tx_asks (λ d, uuids d (uuid_next d)); tx_modify bump_uuid;; mret u.

(** [nullable]: the empty string is stored as NULL. *)
Definition nullable (s : string) : option string :=
  if String.eqb s EmptyString then None else Some s.
Definition strPtr (p : option string) : string := default EmptyString p.
(** [jsonB]: an empty message is stored as the empty object; the column rejects
    text that is not JSON. *)
Definition jsonB (b : string) : RtTx json :=
  if String.eqb b EmptyString then mret (JObj [])
  else tx_opt (parse_json b) ErrInvalidJSON.

Definition IsTerminalRun (s : RunState) : bool :=
  match s with RunSucceeded | RunFailed | RunAborted => true | _ => false end.
Definition isTerminal (s : RunState) : bool := IsTerminalRun s.
Definition isStepTerminal (s : StepState) : bool :=
  match s with StepSucceeded | StepFailed | StepSkipped => true | _ => false end.
Definition isTurnTerminal (s : TurnState) : bool :=
  match s with TurnSucceeded | TurnFailed | TurnAborted => true | _ => false end.
Definition turnStateForReason (reason : string) : option TurnState :=
  if String.eqb reason "completed" then Some TurnSucceeded
  else if String.eqb reason "failed" then Some TurnFailed
  else if String.eqb reason "aborted" then Some TurnAborted
  else None.

(** * Events *)

(** [appendEventTx]: the next per-run sequence number, computed in the INSERT. *)
Definition run_events (d : RuntimeDB) (runID : uuid) : list Event :=
  filter (λ e, ev_RunID e = runID) (events d).
Definition next_event_seq (d : RuntimeDB) (runID : uuid) : Z :=
  max_of ev_Seq (run_events d runID) + 1.
Definition fk_ok {R} (t : gmap uuid R) (k : option uuid) : bool :=
  match k with None => true | Some k => bool_decide (is_Some (t !! k)) end.

Definition insertEvent (now : timestamp) (runID : uuid) (turnID stepID nodeID : option uuid)
    (kind : string) (payload : json) : RtTx Event :=
  seq ← tx_asks (λ d, next_event_seq d runID);
  tx_require (seq <=? int4_max) ErrNumericOutOfRange;;
  id ← gen_random_uuid;
  d ← tx_get;
  tx_require (bool_decide (id ∉ ev_ID <$> events d)) (ErrUniqueViolation "events_pkey");;
  tx_require (bool_decide (seq ∉ ev_Seq <$> run_events d runID))
    (ErrUniqueViolation "events_run_id_seq_key");;
  tx_require (bool_decide (is_Some (workflow_runs d !! runID)))
    (ErrForeignKeyViolation "events_run_id_fkey");;
  tx_require (fk_ok (turns d) turnID) (ErrForeignKeyViolation "events_turn_id_fkey");;
  tx_require (fk_ok (run_steps d) stepID) (ErrForeignKeyViolation "events_step_id_fkey");;
  let e := {| ev_ID := id; ev_RunID := runID; ev_TurnID := turnID; ev_StepID := stepID;
              ev_NodeExecutionID := nodeID; ev_Seq := seq; ev_Kind := kind;
              ev_Payload := payload; ev_TS := now |} in
  tx_modify (set_events (events d ++ [e]));;
  mret e.

Definition appendEventTx (now : timestamp) (runID turnID stepID kind : string) (payload : string)
    : RtTx Event :=
  p ← jsonB payload;
  insertEvent now runID (nullable turnID) (nullable stepID) None kind p.

Definition AppendEvent (now : timestamp) (runID turnID stepID kind : string) (payload : string)
    : RtTx Event :=
  appendEventTx now runID turnID stepID kind payload.

(** Reading a run's history, ordered by [seq]. *)
Fixpoint insert_by_seq (e : Event) (l : list Event) : list Event :=
  match l with
  | [] => [e]
  | e' :: l' => if ev_Seq e <=? ev_Seq e' then e :: l else e' :: insert_by_seq e l'
  end.
Definition sort_by_seq (l : list Event) : list Event := foldr insert_by_seq [] l.
Definition ListEvents (d : RuntimeDB) (runID : uuid) : list Event :=
  sort_by_seq (run_events d runID).
Definition EventsSince (d : RuntimeDB) (runID : uuid) (after : Z) : list Event :=
  sort_by_seq (filter (λ e, after < ev_Seq e) (run_events d runID)).
Definition LastEventSeq (d : RuntimeDB) (runID : uuid) : Z := max_of ev_Seq (run_events d runID).

(** * Runs *)
Definition with_run_state (now : timestamp) (st : RunState) (started finished : option timestamp)
    (r : Run) : Run :=
  {| run_ID := run_ID r; run_Kind := run_Kind r; run_DefinitionKey := run_DefinitionKey r;
     run_ScopeIdentityID := run_ScopeIdentityID r; run_SessionID := run_SessionID r;
     run_SessionDir := run_SessionDir r; run_Trigger := run_Trigger r; run_State := st;
     run_CreatedAt := run_CreatedAt r; run_UpdatedAt := now;
     run_StartedAt := started; run_FinishedAt := finished; run_Principals := run_Principals r |}.
(** [COALESCE(a, b)]. *)
Definition coalesce {A} (a b : option A) : option A :=
  match a with Some _ => a | None => b end.

(** One row of the snapshotted step plan; [UNIQUE(run_id, seq)]. *)
Definition insertStep (now : timestamp) (runID : uuid) (st : StepInput) : RtTx () :=
  config ← jsonB (si_Config st);
  id ← gen_random_uuid;
  d ← tx_get;
  tx_require (String.eqb (si_Kind st) StepKindAgentTask) (ErrCheckViolation "run_steps_kind_check");;
  tx_require (bool_decide (run_steps d !! id = None)) (ErrUniqueViolation "run_steps_pkey");;
  tx_require (negb (exists_row (λ x, bool_decide (step_RunID x = runID) && (step_Seq x =? si_Seq st))
                      (run_steps d))) (ErrUniqueViolation "run_steps_run_id_seq_key");;
  tx_require (bool_decide (is_Some (workflow_runs d !! runID)))
    (ErrForeignKeyViolation "run_steps_run_id_fkey");;
  tx_modify (set_steps (<[id := {| step_ID := id; step_RunID := runID; step_Seq := si_Seq st;
    step_Kind := si_Kind st; step_Config := config; step_State := StepPending;
    step_StartedAt := None; step_FinishedAt := None; step_CreatedAt := now;
    step_UpdatedAt := now |}]> (run_steps d))).

Definition CreateRun (now : timestamp) (inp : CreateRunInput) : RtTx Run :=
  trigger ← jsonB (cri_Trigger inp);
  id ← gen_random_uuid;
  d ← tx_get;
  tx_require (String.eqb (cri_Kind inp) KindChat || String.eqb (cri_Kind inp) KindWorkflow)
    (ErrCheckViolation "workflow_runs_kind_check");;
  tx_require (bool_decide (workflow_runs d !! id = None)) (ErrUniqueViolation "workflow_runs_pkey");;
  tx_require (bool_decide (cri_ScopeIdentityID inp ∈ identities d))
    (ErrForeignKeyViolation "workflow_runs_scope_identity_id_fkey");;
  let run := {| run_ID := id; run_Kind := cri_Kind inp;
    run_DefinitionKey := nullable (cri_DefinitionKey inp);
    run_ScopeIdentityID := cri_ScopeIdentityID inp; run_SessionID := cri_SessionID inp;
    run_SessionDir := cri_SessionDir inp; run_Trigger := trigger; run_State := RunPending;
    run_CreatedAt := now; run_UpdatedAt := now; run_StartedAt := None; run_FinishedAt := None;
    run_Principals := no_principals |} in
  tx_modify (set_runs (<[id := run]> (workflow_runs d)));;
  tx_iter (insertStep now id) (cri_Steps inp);;
  mret run.

Definition GetRun (id : uuid) : RtTx Run :=
  d ← tx_get; tx_opt (workflow_runs d !! id) ErrNotFound.

(** [runTransitionErr]: absent row, or a row in a state the transition forbids. *)
Definition runTransitionErr {A} (id : uuid) : RtTx A :=
  d ← tx_get;
  match workflow_runs d !! id with
  | None => tx_fail ErrNotFound
  | Some r => tx_fail (ErrInvalidTransition (run_state_name (run_State r)))
  end.

(** [transitionRun]: compare-and-set of the state with its audit event. *)
Definition transitionRun (now : timestamp) (id : uuid) (from : list RunState) (to : RunState)
    (eventKind : string) (payload : string) : RtTx Run :=
  let finishedExpr := if isTerminal to then Some now else None in
  let startedExpr := if bool_decide (to = RunRunning) then Some now else None in
  d ← tx_get;
  match workflow_runs d !! id with
  | Some r =>
      if bool_decide (run_State r ∈ from) then
        let run := with_run_state now to (coalesce (run_StartedAt r) startedExpr) finishedExpr r in
        tx_modify (set_runs (<[id := run]> (workflow_runs d)));;
        appendEventTx now id EmptyString EmptyString eventKind payload;;
        mret run
      else runTransitionErr id
  | None => runTransitionErr id
  end.

Definition StartRun (now : timestamp) (id : uuid) : RtTx Run :=
  transitionRun now id [RunPending] RunRunning EvRunStarted EmptyString.
Definition SucceedRun (now : timestamp) (id : uuid) : RtTx Run :=
  transitionRun now id [RunRunning] RunSucceeded EvRunSucceeded EmptyString.
Definition FailRun (now : timestamp) (id : uuid) : RtTx Run :=
  transitionRun now id [RunRunning; RunAwaitingApproval] RunFailed EvRunFailed EmptyString.
Definition AbortRun (now : timestamp) (id : uuid) : RtTx Run :=
  transitionRun now id [RunRunning; RunAwaitingApproval] RunAborted EvRunAborted EmptyString.
Definition AwaitApproval (now : timestamp) (id : uuid) : RtTx Run :=
  transitionRun now id [RunRunning] RunAwaitingApproval EvRunAwaitingApproval EmptyString.
Definition ResumeFromApproval (now : timestamp) (id : uuid) : RtTx Run :=
  transitionRun now id [RunAwaitingApproval] RunRunning EvRunResumed EmptyString.

(** * Steps *)
Definition GetStep (id : uuid) : RtTx Step :=
  d ← tx_get; tx_opt (run_steps d !! id) ErrNotFound.
(** The oldest pending step of a run: [ORDER BY seq LIMIT 1]. *)
Definition pending_steps (d : RuntimeDB) (runID : uuid) : list Step :=
  select (λ x, bool_decide (step_RunID x = runID) && bool_decide (step_State x = StepPending))
    (run_steps d).
Definition next_pending (d : RuntimeDB) (runID : uuid) : option Step :=
  min_by step_Seq (pending_steps d runID).
Definition NextPendingStep (runID : uuid) : RtTx Step :=
  d ← tx_get; tx_opt (next_pending d runID) ErrNotFound.

Definition with_step_state (now : timestamp) (st : StepState) (started finished : option timestamp)
    (x : Step) : Step :=
  {| step_ID := step_ID x; step_RunID := step_RunID x; step_Seq := step_Seq x;
     step_Kind := step_Kind x; step_Config := step_Config x; step_State := st;
     step_StartedAt := started; step_FinishedAt := finished;
     step_CreatedAt := step_CreatedAt x; step_UpdatedAt := now |}.
(** The partial unique index [idx_run_steps_one_running]: another row of the run is
    already running. *)
Definition other_running_step (d : RuntimeDB) (id runID : uuid) : bool :=
  exists_row (λ x, bool_decide (step_RunID x = runID) && bool_decide (step_State x = StepRunning)
                   && negb (bool_decide (step_ID x = id))) (run_steps d).
(** Writing a step row, with the partial unique index checked. *)
Definition update_step (id : uuid) (x : Step) : RtTx () :=
  d ← tx_get;
  tx_require (negb (bool_decide (step_State x = StepRunning) && other_running_step d id (step_RunID x)))
    (ErrUniqueViolation "idx_run_steps_one_running");;
  tx_modify (set_steps (<[id := x]> (run_steps d))).

Definition stepTransitionErr {A} (id : uuid) : RtTx A :=
  d ← tx_get;
  match run_steps d !! id with
  | None => tx_fail ErrNotFound
  | Some x => tx_fail (ErrInvalidTransition (step_state_name (step_State x)))
  end.

Definition transitionStep (now : timestamp) (id : uuid) (from : list StepState) (to : StepState)
    (eventKind : string) (payload : string) : RtTx Step :=
  let finishedExpr := if isStepTerminal to then Some now else None in
  let startedExpr := if bool_decide (to = StepRunning) then Some now else None in
  d ← tx_get;
  match run_steps d !! id with
  | Some x =>
      if bool_decide (step_State x ∈ from) then
        let st := with_step_state now to (coalesce (step_StartedAt x) startedExpr) finishedExpr x in
        update_step id st;;
        appendEventTx now (step_RunID st) EmptyString id eventKind payload;;
        mret st
      else stepTransitionErr id
  | None => stepTransitionErr id
  end.

Definition StartStep (now : timestamp) (id : uuid) : RtTx Step :=
  transitionStep now id [StepPending] StepRunning EvStepStarted EmptyString.
Definition SucceedStep (now : timestamp) (id : uuid) : RtTx Step :=
  transitionStep now id [StepRunning] StepSucceeded EvStepSucceeded EmptyString.
Definition FailStep (now : timestamp) (id : uuid) : RtTx Step :=
  transitionStep now id [StepRunning] StepFailed EvStepFailed EmptyString.
Definition SkipStep (now : timestamp) (id : uuid) : RtTx Step :=
  transitionStep now id [StepPending] StepSkipped EvStepSkipped EmptyString.

(** * Turns *)
Definition turn_active (s : TurnState) : bool :=
  match s with TurnPending | TurnRunning => true | _ => false end.
(** The partial unique index [idx_turns_one_active_per_session]. *)
Definition session_busy (d : RuntimeDB) (sessionID : string) : bool :=
  exists_row (λ t, bool_decide (turn_SessionID t = sessionID) && turn_active (turn_State t)) (turns d).
(** The partial unique index [idx_turns_node_execution]. *)
Definition node_has_turn (d : RuntimeDB) (nodeID : option uuid) : bool :=
  match nodeID with
  | None => false
  | Some n => exists_row (λ t, bool_decide (turn_NodeExecutionID t = Some n)) (turns d)
  end.

Definition insertTurn (now : timestamp) (runID : uuid) (stepID nodeID : option uuid)
    (sessionID : string) (model : option string) (started : option timestamp) : RtTx Turn :=
  id ← gen_random_uuid;
  d ← tx_get;
  tx_require (bool_decide (turns d !! id = None)) (ErrUniqueViolation "turns_pkey");;
  tx_require (negb (session_busy d sessionID))
    (ErrUniqueViolation "idx_turns_one_active_per_session");;
  tx_require (negb (node_has_turn d nodeID)) (ErrUniqueViolation "idx_turns_node_execution");;
  tx_require (bool_decide (is_Some (workflow_runs d !! runID)))
    (ErrForeignKeyViolation "turns_run_id_fkey");;
  tx_require (fk_ok (run_steps d) stepID) (ErrForeignKeyViolation "turns_step_id_fkey");;
  let t := {| turn_ID := id; turn_RunID := runID; turn_StepID := stepID;
    turn_NodeExecutionID := nodeID; turn_SessionID := sessionID; turn_Model := model;
    turn_State := TurnRunning; turn_StartedAt := started; turn_SettledAt := None;
    turn_CreatedAt := now; turn_UpdatedAt := now |} in
  tx_modify (set_turns (<[id := t]> (turns d)));;
  mret t.

Definition StartTurn (now : timestamp) (runID stepID model : string) : RtTx Turn :=
  d ← tx_get;
  run ← tx_opt (workflow_runs d !! runID) ErrNotFound;
  t ← insertTurn now runID (nullable stepID) None (run_SessionID run) (nullable model) None;
  insertEvent now runID (Some (turn_ID t)) (nullable stepID) None EvTurnStarted
    (JObj [("model", JStr model)]);;
  mret t.

Definition with_turn_state (now : timestamp) (st : TurnState) (t : Turn) : Turn :=
  {| turn_ID := turn_ID t; turn_RunID := turn_RunID t; turn_StepID := turn_StepID t;
     turn_NodeExecutionID := turn_NodeExecutionID t; turn_SessionID := turn_SessionID t;
     turn_Model := turn_Model t; turn_State := st; turn_StartedAt := turn_StartedAt t;
     turn_SettledAt := Some now; turn_CreatedAt := turn_CreatedAt t; turn_UpdatedAt := now |}.

Definition turnTransitionErr {A} (id : uuid) : RtTx A :=
  d ← tx_get;
  match turns d !! id with
  | None => tx_fail ErrNotFound
  | Some t => tx_fail (ErrInvalidTransition (turn_state_name (turn_State t)))
  end.

(** The first-terminal-writer compare-and-set both settle operations start with. *)
Definition casTurn (now : timestamp) (id : uuid) (to : TurnState) : RtTx Turn :=
  d ← tx_get;
  match turns d !! id with
  | Some t =>
      if bool_decide (turn_State t = TurnRunning) then
        let t' := with_turn_state now to t in
        tx_modify (set_turns (<[id := t']> (turns d)));; mret t'
      else turnTransitionErr id
  | None => turnTransitionErr id
  end.

Definition settled_payload (reason : string) (messageCount : Z) : json :=
  JObj [("message_count", JNum messageCount 0); ("reason", JStr reason)].

Definition SettleTurn (now : timestamp) (id reason : string) (messageCount : Z) : RtTx Turn :=
  to ← tx_opt (turnStateForReason reason) (ErrInvalidReason reason);
  t ← casTurn now id to;
  insertEvent now (turn_RunID t) (Some id) (nullable (strPtr (turn_StepID t))) None EvSettled
    (settled_payload reason messageCount);;
  mret t.

(** [UPDATE runtime.workflow_runs SET state, finished_at = now() WHERE id AND state = ANY(from)]:
    a miss changes nothing and is not reported. *)
Definition finish_run_if (now : timestamp) (runID : uuid) (from : list RunState) (to : RunState)
    : RtTx () :=
  d ← tx_get;
  match workflow_runs d !! runID with
  | Some r =>
      if bool_decide (run_State r ∈ from)
      then tx_modify (set_runs (<[runID := with_run_state now to (run_StartedAt r) (Some now) r]>
             (workflow_runs d)))
      else mret ()
  | None => mret ()
  end.

(** [advanceRunAfterSettleTx]. *)
Definition advanceRunAfterSettleTx (now : timestamp) (runID : uuid) (reason : string)
    : RtTx RunState :=
  let terminal (to : RunState) (ev : string) : RtTx RunState :=
    finish_run_if now runID [RunRunning; RunAwaitingApproval] to;;
    appendEventTx now runID EmptyString EmptyString ev EmptyString;;
    mret to in
  if String.eqb reason "aborted" then terminal RunAborted EvRunAborted
  else if String.eqb reason "failed" then terminal RunFailed EvRunFailed
  else if String.eqb reason "completed" then
    d ← tx_get;
    match next_pending d runID with
    | None =>
        finish_run_if now runID [RunRunning] RunSucceeded;;
        appendEventTx now runID EmptyString EmptyString EvRunSucceeded EmptyString;;
        mret RunSucceeded
    | Some x =>
        update_step (step_ID x)
          (with_step_state now StepRunning (coalesce (step_StartedAt x) (Some now))
             (step_FinishedAt x) x);;
        appendEventTx now runID EmptyString (step_ID x) EvStepStarted EmptyString;;
        mret RunRunning
    end
  else mret RunRunning.

(** The dependent step transition of a settled turn: a miss on the step's state is
    not reported, its event is appended all the same. *)
Definition settle_step (now : timestamp) (runID stepID : uuid) (reason : string) : RtTx () :=
  let '(stepTo, stepEvent) :=
    if String.eqb reason "completed" then (StepSucceeded, EvStepSucceeded)
    else (StepFailed, EvStepFailed) in
  d ← tx_get;
  match run_steps d !! stepID with
  | Some x =>
      if bool_decide (step_State x = StepRunning)
      then update_step stepID (with_step_state now stepTo (step_StartedAt x) (Some now) x)
      else mret ()
  | None => mret ()
  end;;
  appendEventTx now runID EmptyString stepID stepEvent EmptyString;;
  mret ().

Definition settle_turn_step (now : timestamp) (t : Turn) (reason : string) : RtTx () :=
  match turn_StepID t with
  | Some stepID =>
      if String.eqb stepID EmptyString then mret ()
      else settle_step now (turn_RunID t) stepID reason
  | None => mret ()
  end.

Definition SettleTurnAndAdvance (now : timestamp) (turnID reason : string) : RtTx RunState :=
  to ← tx_opt (turnStateForReason reason) (ErrInvalidReason reason);
  t ← casTurn now turnID to;
  insertEvent now (turn_RunID t) (Some turnID) (nullable (strPtr (turn_StepID t))) None EvSettled
    (settled_payload reason 0);;
  settle_turn_step now t reason;;
  advanceRunAfterSettleTx now (turn_RunID t) reason.

Definition HasTurnForStep (d : RuntimeDB) (stepID : uuid) : bool :=
  exists_row (λ t, bool_decide (turn_StepID t = Some stepID)) (turns d).
(** [ORDER BY started_at DESC LIMIT 1] over the run's active turns; NULLs first. *)
Definition active_turns (d : RuntimeDB) (runID : uuid) : list Turn :=
  select (λ t, bool_decide (turn_RunID t = runID) && turn_active (turn_State t)) (turns d).
Definition ActiveTurn (runID : uuid) : RtTx Turn :=
  d ← tx_get;
  let l := active_turns d runID in
  let nulls := filter (λ t, turn_StartedAt t = None) l in
  tx_opt (match nulls with
          | t :: _ => Some t
          | [] => min_by (λ t, - default 0 (turn_StartedAt t)) l
          end) ErrNotFound.
(** [ListRunsByState]: the runs in a state ([ORDER BY created_at] orders the result). *)
Fixpoint insert_run (r : Run) (l : list Run) : list Run :=
  match l with
  | [] => [r]
  | r' :: l' => if run_CreatedAt r <=? run_CreatedAt r' then r :: l else r' :: insert_run r l'
  end.
Definition ListRunsByState (d : RuntimeDB) (st : RunState) : list Run :=
  foldr insert_run [] (select (λ r, bool_decide (run_State r = st)) (workflow_runs d)).
Fixpoint insert_step_seq (x : Step) (l : list Step) : list Step :=
  match l with
  | [] => [x]
  | y :: l' => if step_Seq x <=? step_Seq y then x :: l else y :: insert_step_seq x l'
  end.
Definition ListSteps (d : RuntimeDB) (runID : uuid) : list Step :=
  foldr insert_step_seq [] (select (λ x, bool_decide (step_RunID x = runID)) (run_steps d)).
