(* ===== verification/RuntimeFacts.v ===== *)
(** Invariant, lifecycle refinement, event log and settlement theorems of the
    durable turn runtime store modelled in [Runtime]. *)
From S2P Require Import Prelude Json Runtime.

(** * The well-formedness invariant of the runtime schema *)
Record rt_wf (d : RuntimeDB) : Prop := {
  wf_run_key : ∀ k r, workflow_runs d !! k = Some r → run_ID r = k;
  wf_step_key : ∀ k x, run_steps d !! k = Some x → step_ID x = k;
  wf_turn_key : ∀ k t, turns d !! k = Some t → turn_ID t = k;
  wf_run_fin : ∀ k r, workflow_runs d !! k = Some r →
    (is_Some (run_FinishedAt r) ↔ isTerminal (run_State r) = true);
  wf_step_fin : ∀ k x, run_steps d !! k = Some x →
    (is_Some (step_FinishedAt x) ↔ isStepTerminal (step_State x) = true);
  wf_turn_fin : ∀ k t, turns d !! k = Some t →
    (is_Some (turn_SettledAt t) ↔ isTurnTerminal (turn_State t) = true);
  wf_step_run : ∀ k x, run_steps d !! k = Some x → is_Some (workflow_runs d !! step_RunID x);
  wf_turn_run : ∀ k t, turns d !! k = Some t →
    ∃ r, workflow_runs d !! turn_RunID t = Some r ∧ run_SessionID r = turn_SessionID t;
  wf_step_seq : ∀ k1 k2 x1 x2, run_steps d !! k1 = Some x1 → run_steps d !! k2 = Some x2 →
    step_RunID x1 = step_RunID x2 → step_Seq x1 = step_Seq x2 → k1 = k2;
  wf_one_running : ∀ k1 k2 x1 x2, run_steps d !! k1 = Some x1 → run_steps d !! k2 = Some x2 →
    step_RunID x1 = step_RunID x2 → step_State x1 = StepRunning → step_State x2 = StepRunning →
    k1 = k2;
  wf_one_active : ∀ k1 k2 t1 t2, turns d !! k1 = Some t1 → turns d !! k2 = Some t2 →
    turn_SessionID t1 = turn_SessionID t2 → turn_active (turn_State t1) = true →
    turn_active (turn_State t2) = true → k1 = k2;
  wf_event_seq : ∀ rid, ev_Seq <$> run_events d rid = seqZ 1 (Z.of_nat (length (run_events d rid)));
  wf_event_run : ∀ e, e ∈ events d → is_Some (workflow_runs d !! ev_RunID e);
}.

(** * Sequence numbers *)
Lemma max_of_seqZ {A} (f : A → Z) (l : list A) (n : Z) :
  0 ≤ n → f <$> l = seqZ 1 n → max_of f l = n.
Proof.
  revert n. induction l as [|a l IH] using rev_ind; intros n Hn H; simpl in *.
  - destruct (decide (n = 0)) as [->|]; [done|].
    rewrite seqZ_cons in H by lia. done.
  - destruct (decide (n = 0)) as [->|].
    { apply (f_equal length) in H. rewrite length_fmap, length_app in H. simpl in H. lia. }
    assert (n = (n - 1) + 1) as E by lia. rewrite E in H.
    rewrite seqZ_app in H by lia. rewrite fmap_app in H. simpl in H.
    apply app_inj_tail in H as [H1 H2].
    rewrite max_of_app, (IH (n - 1) ltac:(lia) H1). simpl. lia.
Qed.

Lemma next_event_seq_wf d rid :
  rt_wf d → next_event_seq d rid = Z.of_nat (length (run_events d rid)) + 1.
Proof.
  intros Hwf. unfold next_event_seq.
  rewrite (max_of_seqZ _ _ (Z.of_nat (length (run_events d rid)))); [done|lia|]. apply Hwf.
Qed.

Lemma run_events_app d l rid :
  run_events (set_events (events d ++ l) d) rid
  = run_events d rid ++ filter (λ e, ev_RunID e = rid) l.
Proof. unfold run_events. simpl. by rewrite filter_app. Qed.

(** * Frames of the primitives *)
Lemma gen_uuid_inr d u d' :
  gen_random_uuid d = inr (u, d') → u = uuids d (uuid_next d) ∧ d' = bump_uuid d.
Proof. unfold gen_random_uuid. intros H. by inv_tx. Qed.

Lemma wf_bump d : rt_wf d → rt_wf (bump_uuid d).
Proof. by intros [? ? ? ? ? ? ? ? ? ? ? ? ?]; constructor. Qed.

Lemma jsonB_inr b d v d' : jsonB b d = inr (v, d') → d' = d.
Proof. unfold jsonB. case_match; intros; inv_tx; done. Qed.
#[export] Hint Resolve wf_bump : iterabase.

Ltac inv_prim :=
  match goal with
  | H : gen_random_uuid _ = inr (_, _) |- _ => apply gen_uuid_inr in H as [-> ->]
  | H : jsonB _ _ = inr (_, _) |- _ => apply jsonB_inr in H as ->
  end.
Ltac inv_all := repeat (progress (inv_tx; repeat inv_prim)); simpl in *.
Ltac bools :=
  repeat match goal with
  | H : _ && _ = true |- _ => apply andb_true_iff in H as [? ?]
  | H : negb _ = true |- _ => apply negb_true_iff in H
  | H : _ && _ = false |- _ => apply andb_false_iff in H
  | H : bool_decide _ = true |- _ => apply bool_decide_eq_true in H
  | H : bool_decide _ = false |- _ => apply bool_decide_eq_false in H
  | H : (_ <=? _) = true |- _ => apply Z.leb_le in H
  | H : String.eqb _ _ = true |- _ => apply String.eqb_eq in H
  end.

(** The state after one appended event. *)
Lemma insertEvent_inr now rid tid sid nid kind p d e d' :
  insertEvent now rid tid sid nid kind p d = inr (e, d') →
  d' = set_events (events d ++ [e]) (bump_uuid d) ∧ ev_RunID e = rid ∧
  ev_Seq e = next_event_seq d rid ∧ ev_Kind e = kind ∧ is_Some (workflow_runs d !! rid).
Proof. unfold insertEvent. intros H. inv_all. bools. done. Qed.

Lemma appendEventTx_inr now rid tid sid kind p d e d' :
  appendEventTx now rid tid sid kind p d = inr (e, d') →
  d' = set_events (events d ++ [e]) (bump_uuid d) ∧ ev_RunID e = rid ∧
  ev_Seq e = next_event_seq d rid ∧ ev_Kind e = kind ∧ is_Some (workflow_runs d !! rid).
Proof.
  unfold appendEventTx. intros H. inv_tx. inv_prim.
  by apply insertEvent_inr in H.
Qed.

Lemma wf_push_event d e :
  rt_wf d → ev_Seq e = next_event_seq d (ev_RunID e) → is_Some (workflow_runs d !! ev_RunID e) →
  rt_wf (set_events (events d ++ [e]) (bump_uuid d)).
Proof.
  intros Hwf Hs Hr. pose proof (next_event_seq_wf d (ev_RunID e) Hwf) as Hn.
  destruct Hwf as [? ? ? ? ? ? ? ? ? ? ? Hseq Hrun]. constructor; try done; simpl.
  - intros rid. change (run_events (set_events (events d ++ [e]) (bump_uuid d)) rid)
      with (run_events (set_events (events d ++ [e]) d) rid).
    rewrite run_events_app, fmap_app, length_app, Hseq.
    rewrite filter_cons, filter_nil. case_decide as Heq; simpl.
    + subst rid. rewrite Hs, Hn, Nat2Z.inj_add, seqZ_app by lia. f_equal.
      change (Z.of_nat 1) with 1. rewrite seqZ_cons by lia. f_equal. lia.
    + by rewrite Nat.add_0_r, app_nil_r.
  - intros e' [He|He]%elem_of_app; [by apply Hrun|].
    apply list_elem_of_singleton in He as ->. done.
Qed.

(** Writing a run row that keeps its session keeps the invariant. *)
Lemma wf_set_run d id r r' :
  rt_wf d → workflow_runs d !! id = Some r → run_ID r' = run_ID r →
  run_SessionID r' = run_SessionID r →
  (is_Some (run_FinishedAt r') ↔ isTerminal (run_State r') = true) →
  rt_wf (set_runs (<[id := r']> (workflow_runs d)) d).
Proof.
  intros [] Hr Hid Hss Hf. constructor; simpl; try done.
  - intros k q [[-> <-]|[? ?]]%lookup_insert_Some; simpl; eauto. rewrite Hid. eauto.
  - intros k q [[-> <-]|[? ?]]%lookup_insert_Some; simpl; eauto.
  - intros k x Hx. specialize (wf_step_run0 _ _ Hx).
    rewrite lookup_insert. case_decide; [eauto|done].
  - intros k t Ht. destruct (wf_turn_run0 _ _ Ht) as (q & Hq & Hs).
    rewrite lookup_insert. case_decide; [|eauto].
    subst. rewrite Hr in Hq. injection Hq as ->. exists r'. split; [done|congruence].
  - intros e He. specialize (wf_event_run0 _ He). rewrite lookup_insert. case_decide; eauto.
Qed.

Lemma wf_update_step d id x x' u d' :
  rt_wf d → run_steps d !! id = Some x → step_ID x' = step_ID x →
  step_RunID x' = step_RunID x → step_Seq x' = step_Seq x →
  (is_Some (step_FinishedAt x') ↔ isStepTerminal (step_State x') = true) →
  update_step id x' d = inr (u, d') →
  d' = set_steps (<[id := x']> (run_steps d)) d ∧ rt_wf d'.
Proof.
  intros Hwf Hx Hid Hrun Hseq Hf H. unfold update_step in H. inv_all. bools.
  split; [done|]. pose proof Hwf as [].
  assert (Hone : ∀ k y, k ≠ id → run_steps d !! k = Some y → step_RunID y = step_RunID x' →
            step_State y = StepRunning → step_State x' = StepRunning → False).
  { match goal with Hq : _ = false ∨ _ |- _ => rename Hq into H end.
    intros k y Hk Hy Hr Hs Hs'. destruct H as [H|H]; bools; [by rewrite Hs' in H|].
    unfold other_running_step in H. rewrite exists_row_false in H. specialize (H _ _ Hy).
    rewrite !andb_false_iff, negb_false_iff, !bool_decide_eq_false, bool_decide_eq_true in H.
    rewrite (wf_step_key0 _ _ Hy) in H. naive_solver. }
  constructor; simpl; try done.
  - intros k y [[-> <-]|[? ?]]%lookup_insert_Some; simpl; eauto. rewrite Hid. eauto.
  - intros k y [[-> <-]|[? ?]]%lookup_insert_Some; simpl; eauto.
  - intros k y [[-> <-]|[? ?]]%lookup_insert_Some; simpl; eauto. rewrite Hrun. eauto.
  - intros k1 k2 x1 x2 [[<- <-]|[? ?]]%lookup_insert_Some [[<- <-]|[? ?]]%lookup_insert_Some;
      rewrite ?Hrun, ?Hseq; eauto.
  - intros k1 k2 x1 x2 [[<- <-]|[? ?]]%lookup_insert_Some [[<- <-]|[? ?]]%lookup_insert_Some ???;
      eauto; exfalso; eauto.
Qed.

(** * The abstract lifecycle and the evolution preorder *)
Inductive run_edge : RunState → RunState → Prop :=
| edge_start : run_edge RunPending RunRunning
| edge_succeed : run_edge RunRunning RunSucceeded
| edge_fail : run_edge RunRunning RunFailed
| edge_abort : run_edge RunRunning RunAborted
| edge_await : run_edge RunRunning RunAwaitingApproval
| edge_resume : run_edge RunAwaitingApproval RunRunning
| edge_fail_waiting : run_edge RunAwaitingApproval RunFailed
| edge_abort_waiting : run_edge RunAwaitingApproval RunAborted.
Inductive step_edge : StepState → StepState → Prop :=
| edge_step_start : step_edge StepPending StepRunning
| edge_step_skip : step_edge StepPending StepSkipped
| edge_step_succeed : step_edge StepRunning StepSucceeded
| edge_step_fail : step_edge StepRunning StepFailed.
#[export] Hint Constructors run_edge step_edge : iterabase.

(** What an operation may do to an existing row: follow the lifecycle, keep the
    immutable columns, and leave a terminal row alone. *)
Definition run_moves (r r' : Run) : Prop :=
  rtc run_edge (run_State r) (run_State r') ∧
  (isTerminal (run_State r) = true → r' = r) ∧
  run_ID r' = run_ID r ∧ run_Kind r' = run_Kind r ∧ run_SessionID r' = run_SessionID r ∧
  run_DefinitionKey r' = run_DefinitionKey r ∧ run_ScopeIdentityID r' = run_ScopeIdentityID r ∧
  run_Trigger r' = run_Trigger r ∧ run_CreatedAt r' = run_CreatedAt r ∧ run_Principals r' = run_Principals r.
Definition step_moves (x x' : Step) : Prop :=
  rtc step_edge (step_State x) (step_State x') ∧
  (isStepTerminal (step_State x) = true → x' = x) ∧
  step_ID x' = step_ID x ∧ step_RunID x' = step_RunID x ∧ step_Seq x' = step_Seq x ∧
  step_Config x' = step_Config x.
Definition turn_moves (t t' : Turn) : Prop :=
  t' = t ∨ (turn_State t = TurnRunning ∧ isTurnTerminal (turn_State t') = true ∧
            turn_ID t' = turn_ID t ∧ turn_RunID t' = turn_RunID t ∧
            turn_StepID t' = turn_StepID t ∧ turn_NodeExecutionID t' = turn_NodeExecutionID t ∧
            turn_SessionID t' = turn_SessionID t ∧ turn_Model t' = turn_Model t).

Record rt_evolves (d d' : RuntimeDB) : Prop := {
  evo_runs : ∀ k r, workflow_runs d !! k = Some r →
    ∃ r', workflow_runs d' !! k = Some r' ∧ run_moves r r';
  evo_steps : ∀ k x, run_steps d !! k = Some x →
    ∃ x', run_steps d' !! k = Some x' ∧ step_moves x x';
  evo_turns : ∀ k t, turns d !! k = Some t → ∃ t', turns d' !! k = Some t' ∧ turn_moves t t';
  evo_log : ∃ l, events d' = events d ++ l }.

Lemma run_moves_refl r : run_moves r r.
Proof. by repeat split. Qed.
Lemma step_moves_refl x : step_moves x x.
Proof. by repeat split. Qed.
Lemma turn_moves_refl t : turn_moves t t.
Proof. by left. Qed.
#[export] Hint Resolve run_moves_refl step_moves_refl turn_moves_refl : iterabase.
Lemma run_moves_trans r1 r2 r3 : run_moves r1 r2 → run_moves r2 r3 → run_moves r1 r3.
Proof.
  intros (H1 & T1 & A) (H2 & T2 & B). split; [by etrans|]. split.
  - intros Ht. rewrite (T1 Ht) in T2. rewrite <- (T1 Ht) at 1. rewrite T2; auto.
    by rewrite (T1 Ht).
  - intuition congruence.
Qed.
Lemma step_moves_trans r1 r2 r3 : step_moves r1 r2 → step_moves r2 r3 → step_moves r1 r3.
Proof.
  intros (H1 & T1 & A) (H2 & T2 & B). split; [by etrans|]. split.
  - intros Ht. specialize (T1 Ht). subst r2. auto.
  - intuition congruence.
Qed.
Lemma turn_moves_trans t1 t2 t3 : turn_moves t1 t2 → turn_moves t2 t3 → turn_moves t1 t3.
Proof.
  intros [->|(H1 & H2 & A)]; [done|]. intros [->|(H3 & H4 & B)].
  - by right.
  - by rewrite H3 in H2.
Qed.
#[export] Instance rt_evolves_preorder : PreOrder rt_evolves.
Proof.
  split.
  - intros d. constructor; eauto with iterabase. exists []. by rewrite app_nil_r.
  - intros d1 d2 d3 [A1 B1 C1 [l1 D1]] [A2 B2 C2 [l2 D2]]. constructor.
    + intros k r Hr. destruct (A1 _ _ Hr) as (r' & Hr' & ?).
      destruct (A2 _ _ Hr') as (r'' & ? & ?). eauto using run_moves_trans.
    + intros k r Hr. destruct (B1 _ _ Hr) as (r' & Hr' & ?).
      destruct (B2 _ _ Hr') as (r'' & ? & ?). eauto using step_moves_trans.
    + intros k r Hr. destruct (C1 _ _ Hr) as (r' & Hr' & ?).
      destruct (C2 _ _ Hr') as (r'' & ? & ?). eauto using turn_moves_trans.
    + exists (l1 ++ l2). by rewrite D2, D1, app_assoc.
Qed.

(** An operation is good when it keeps the invariant and evolves the tables. *)
Definition good (d d' : RuntimeDB) : Prop := rt_wf d → rt_wf d' ∧ rt_evolves d d'.
#[export] Instance good_preorder : PreOrder good.
Proof.
  split; [by intros d Hwf|]. intros d1 d2 d3 H1 H2 Hwf.
  destruct (H1 Hwf) as [W1 E1]. destruct (H2 W1) as [W2 E2]. split; [done|]. by etrans.
Qed.

Lemma good_wf d d' : (rt_wf d → good d d') → good d d'.
Proof. intros H Hwf. by apply (H Hwf). Qed.

Lemma good_event d e :
  ev_Seq e = next_event_seq d (ev_RunID e) → is_Some (workflow_runs d !! ev_RunID e) →
  good d (set_events (events d ++ [e]) (bump_uuid d)).
Proof.
  intros Hs Hr Hwf. split; [by apply wf_push_event|].
  constructor; simpl; eauto with iterabase.
Qed.
Lemma good_insertEvent now rid tid sid nid kind p d e d' :
  insertEvent now rid tid sid nid kind p d = inr (e, d') → good d d'.
Proof. intros (-> & <- & ? & _ & ?)%insertEvent_inr. by apply good_event. Qed.
Lemma good_appendEvent now rid tid sid kind p d e d' :
  appendEventTx now rid tid sid kind p d = inr (e, d') → good d d'.
Proof. intros (-> & <- & ? & _ & ?)%appendEventTx_inr. by apply good_event. Qed.
Lemma good_bump d : good d (bump_uuid d).
Proof. intros Hwf. split; [by apply wf_bump|]. constructor; simpl; eauto with iterabase.
  exists []. by rewrite app_nil_r. Qed.

Lemma good_set_run d id r now st started finished :
  workflow_runs d !! id = Some r → rtc run_edge (run_State r) st →
  isTerminal (run_State r) = false → (is_Some finished ↔ isTerminal st = true) →
  good d (set_runs (<[id := with_run_state now st started finished r]> (workflow_runs d)) d).
Proof.
  intros Hr He Ht Hf Hwf. split; [by eapply wf_set_run|].
  constructor; simpl; eauto with iterabase; [|exists []; by rewrite app_nil_r].
  intros k q Hq. rewrite lookup_insert. case_decide as E; [|eauto with iterabase].
  subst k. rewrite Hr in Hq. injection Hq as <-. eexists. split; [done|].
  split; [done|]. split; [congruence|done].
Qed.

Lemma good_update_step d id x now st started finished u d' :
  run_steps d !! id = Some x → rtc step_edge (step_State x) st →
  isStepTerminal (step_State x) = false → (is_Some finished ↔ isStepTerminal st = true) →
  update_step id (with_step_state now st started finished x) d = inr (u, d') → good d d'.
Proof.
  intros Hx He Ht Hf H Hwf. eapply wf_update_step in H as [-> ?]; eauto. split; [done|].
  constructor; simpl; eauto with iterabase; [|exists []; by rewrite app_nil_r].
  intros k q Hq. rewrite lookup_insert. case_decide as E; [|eauto with iterabase].
  subst k. rewrite Hx in Hq. injection Hq as <-. eexists. split; [done|].
  split; [done|]. split; [congruence|done].
Qed.

(** * Every operation is good *)
Lemma casTurn_inr now id to d t' d' :
  casTurn now id to d = inr (t', d') →
  ∃ t, turns d !! id = Some t ∧ turn_State t = TurnRunning ∧ t' = with_turn_state now to t ∧
    d' = set_turns (<[id := t']> (turns d)) d.
Proof.
  unfold casTurn, turnTransitionErr. intros H. inv_tx_step. inv_tx_step.
  destruct (turns d !! id) as [t|]; [case_bool_decide|]; inv_all; eauto.
  - destruct (turns d !! id); inv_tx.
  - destruct (turns d !! id); inv_tx.
Qed.

Lemma good_casTurn now id to d t' d' :
  isTurnTerminal to = true → casTurn now id to d = inr (t', d') → good d d'.
Proof.
  intros Hto (t & Ht & Hst & -> & ->)%casTurn_inr Hwf.
  assert (turn_active to = false) as Hna by (by destruct to).
  split.
  - destruct Hwf. constructor; simpl; try done.
    + intros k q [[<- <-]|[? ?]]%lookup_insert_Some; simpl; eauto.
    + intros k q [[<- <-]|[? ?]]%lookup_insert_Some; simpl; eauto. simpl. by split.
    + intros k q [[<- <-]|[? ?]]%lookup_insert_Some; simpl; eauto.
    + intros k1 k2 x1 x2 [[<- <-]|[? ?]]%lookup_insert_Some [[<- <-]|[? ?]]%lookup_insert_Some;
        simpl; eauto; congruence.
  - constructor; simpl; eauto with iterabase; [|exists []; by rewrite app_nil_r].
    intros k q Hq. rewrite lookup_insert. case_decide as E; [|eauto with iterabase].
    subst k. rewrite Ht in Hq. injection Hq as <-. eexists. split; [done|]. right. done.
Qed.

Lemma insertTurn_inr now rid sid nid ss m started d t d' :
  insertTurn now rid sid nid ss m started d = inr (t, d') →
  let id := uuids d (uuid_next d) in
  turns d !! id = None ∧ session_busy d ss = false ∧ is_Some (workflow_runs d !! rid) ∧
  t = {| turn_ID := id; turn_RunID := rid; turn_StepID := sid; turn_NodeExecutionID := nid;
         turn_SessionID := ss; turn_Model := m; turn_State := TurnRunning;
         turn_StartedAt := started; turn_SettledAt := None; turn_CreatedAt := now;
         turn_UpdatedAt := now |} ∧
  d' = set_turns (<[id := t]> (turns d)) (bump_uuid d).
Proof. unfold insertTurn. intros H. inv_all. bools. done. Qed.

Lemma good_insertTurn now rid sid nid ss m started d t d' r :
  workflow_runs d !! rid = Some r → run_SessionID r = ss →
  insertTurn now rid sid nid ss m started d = inr (t, d') → good d d'.
Proof.
  intros Hr Hss (Hid & Hb & _ & -> & ->)%insertTurn_inr Hwf. simpl.
  unfold session_busy in Hb. rewrite exists_row_false in Hb.
  assert (Hact : ∀ k q, turns d !! k = Some q → turn_SessionID q = ss →
            turn_active (turn_State q) = true → False).
  { intros k q Hk Hs Ha. specialize (Hb _ _ Hk).
    rewrite Ha, (bool_decide_eq_true_2 _ Hs) in Hb. done. }
  split.
  - destruct Hwf. constructor; simpl; try done.
    + intros k q [[<- <-]|[? ?]]%lookup_insert_Some; simpl; eauto.
    + intros k q [[<- <-]|[? ?]]%lookup_insert_Some; simpl; eauto. simpl. split; [by intros [? ?]|done].
    + intros k q [[<- <-]|[? ?]]%lookup_insert_Some; simpl; eauto.
    + intros k1 k2 x1 x2 [[<- <-]|[? ?]]%lookup_insert_Some [[<- <-]|[? ?]]%lookup_insert_Some ???;
        simpl in *; eauto; exfalso; eauto.
  - constructor; simpl; eauto with iterabase; [|exists []; by rewrite app_nil_r].
    intros k q Hq. rewrite lookup_insert_ne by congruence. eauto with iterabase.
Qed.

Lemma good_insertStep now rid st d u d' : insertStep now rid st d = inr (u, d') → good d d'.
Proof.
  unfold insertStep. intros H Hwf. inv_all. bools.
  match goal with Hq : exists_row _ _ = false |- _ => rewrite exists_row_false in Hq; rename Hq into Hs end.
  assert (Hseq : ∀ k q, run_steps d !! k = Some q → step_RunID q = rid →
            step_Seq q = si_Seq st → False).
  { intros k q Hk H1 H2. specialize (Hs _ _ Hk).
    rewrite (bool_decide_eq_true_2 _ H1), H2, Z.eqb_refl in Hs. done. }
  split.
  - destruct Hwf. constructor; simpl; try done.
    + intros k q [[<- <-]|[? ?]]%lookup_insert_Some; simpl; eauto.
    + intros k q [[<- <-]|[? ?]]%lookup_insert_Some; simpl; eauto. simpl. split; [by intros [? ?]|done].
    + intros k q [[<- <-]|[? ?]]%lookup_insert_Some; simpl; eauto.
    + intros k1 k2 x1 x2 [[<- <-]|[? ?]]%lookup_insert_Some [[<- <-]|[? ?]]%lookup_insert_Some ??;
        simpl in *; eauto; exfalso; eauto.
    + intros k1 k2 x1 x2 [[<- <-]|[? ?]]%lookup_insert_Some [[<- <-]|[? ?]]%lookup_insert_Some;
        simpl in *; eauto; congruence.
  - constructor; simpl; eauto with iterabase; [|exists []; by rewrite app_nil_r].
    intros k q Hq. rewrite lookup_insert_ne by congruence. eauto with iterabase.
Qed.

Lemma good_CreateRun now inp d r d' : CreateRun now inp d = inr (r, d') → good d d'.
Proof.
  unfold CreateRun. intros H. inv_all. bools.
  match goal with Hq : tx_iter _ _ ?d1 = _ |- _ => transitivity d1; rename Hq into Hit end.
  - intros Hwf. split.
    + destruct Hwf. constructor; simpl; try done.
      * intros k q [[<- <-]|[? ?]]%lookup_insert_Some; simpl; eauto.
      * intros k q [[<- <-]|[? ?]]%lookup_insert_Some; simpl; eauto. simpl. split; [by intros [? ?]|done].
      * intros k y Hy. rewrite lookup_insert. case_decide; eauto.
      * intros k t Ht. destruct (wf_turn_run0 _ _ Ht) as (q & Hq & ?).
        rewrite lookup_insert_ne by congruence. eauto.
      * intros e He. rewrite lookup_insert. case_decide; eauto.
    + constructor; simpl; eauto with iterabase; [|exists []; by rewrite app_nil_r].
      intros k q Hq. rewrite lookup_insert_ne by congruence. eauto with iterabase.
  - eapply (tx_iter_preserves good); [| |..|exact Hit]; [done|intros ???; apply transitivity|].
    intros. by eapply good_insertStep.
Qed.

Lemma transitionRun_inr now id from to ev p d r' d' :
  transitionRun now id from to ev p d = inr (r', d') →
  ∃ r d1 e, workflow_runs d !! id = Some r ∧ run_State r ∈ from ∧
    r' = with_run_state now to
           (coalesce (run_StartedAt r) (if bool_decide (to = RunRunning) then Some now else None))
           (if isTerminal to then Some now else None) r ∧
    d1 = set_runs (<[id := r']> (workflow_runs d)) d ∧
    appendEventTx now id EmptyString EmptyString ev p d1 = inr (e, d').
Proof.
  unfold transitionRun, runTransitionErr. intros H. inv_tx_step. inv_tx_step.
  destruct (workflow_runs d !! id) as [r|] eqn:Hr; [case_bool_decide|].
  - inv_tx. eauto 10.
  - inv_tx. rewrite Hr in H. inv_tx.
  - inv_tx. rewrite Hr in H. inv_tx.
Qed.

Lemma good_transitionRun now id from to ev p d r' d' :
  (∀ s, s ∈ from → run_edge s to) →
  transitionRun now id from to ev p d = inr (r', d') → good d d'.
Proof.
  intros Hedge (r & d1 & e & Hr & Hin & -> & -> & He)%transitionRun_inr.
  apply good_appendEvent in He. etransitivity; [|exact He].
  specialize (Hedge _ Hin). eapply good_set_run; [done|by apply rtc_once| |].
  - by inversion Hedge.
  - destruct (isTerminal to); split; try done; try by intros [? ?].
Qed.

Lemma transitionStep_inr now id from to ev p d x' d' :
  transitionStep now id from to ev p d = inr (x', d') →
  ∃ x d1 e, run_steps d !! id = Some x ∧ step_State x ∈ from ∧
    x' = with_step_state now to
           (coalesce (step_StartedAt x) (if bool_decide (to = StepRunning) then Some now else None))
           (if isStepTerminal to then Some now else None) x ∧
    update_step id x' d = inr ((), d1) ∧
    appendEventTx now (step_RunID x') EmptyString id ev p d1 = inr (e, d').
Proof.
  unfold transitionStep, stepTransitionErr. intros H. inv_tx_step. inv_tx_step.
  destruct (run_steps d !! id) as [r|] eqn:Hr; [case_bool_decide|].
  - inv_tx. eauto 10.
  - inv_tx. rewrite Hr in H. inv_tx.
  - inv_tx. rewrite Hr in H. inv_tx.
Qed.

Lemma good_transitionStep now id from to ev p d x' d' :
  (∀ s, s ∈ from → step_edge s to) →
  transitionStep now id from to ev p d = inr (x', d') → good d d'.
Proof.
  intros Hedge (x & d1 & e & Hx & Hin & -> & Hu & He)%transitionStep_inr.
  apply good_appendEvent in He. etransitivity; [|exact He].
  specialize (Hedge _ Hin). eapply good_update_step; [done|by apply rtc_once| | |exact Hu].
  - by inversion Hedge.
  - destruct (isStepTerminal to); split; try done; try by intros [? ?].
Qed.

Lemma good_StartTurn now rid sid m d t d' : StartTurn now rid sid m d = inr (t, d') → good d d'.
Proof.
  unfold StartTurn. intros H. inv_tx.
  match goal with Hi : insertTurn _ _ _ _ _ _ _ _ = _ |- _ => rename Hi into Hins end.
  match goal with Hi : insertEvent _ _ _ _ _ _ _ _ = _ |- _ => rename Hi into Hev end.
  apply good_insertEvent in Hev. etransitivity; [|exact Hev]. by eapply good_insertTurn.
Qed.

Lemma turnStateForReason_terminal reason to :
  turnStateForReason reason = Some to → isTurnTerminal to = true.
Proof. unfold turnStateForReason. repeat case_match; naive_solver. Qed.

Lemma good_SettleTurn now id reason n d t d' :
  SettleTurn now id reason n d = inr (t, d') → good d d'.
Proof.
  unfold SettleTurn. intros H. inv_tx.
  match goal with Hi : turnStateForReason _ = _ |- _ => apply turnStateForReason_terminal in Hi end.
  match goal with Hi : casTurn _ _ _ _ = _ |- _ => apply good_casTurn in Hi; [|done]; rename Hi into Hc end.
  match goal with Hi : insertEvent _ _ _ _ _ _ _ _ = _ |- _ => apply good_insertEvent in Hi end.
  by etransitivity.
Qed.

Lemma good_finish_run now rid from to d u d' :
  (∀ s, s ∈ from → run_edge s to) → isTerminal to = true →
  finish_run_if now rid from to d = inr (u, d') → good d d'.
Proof.
  intros He Hto. unfold finish_run_if. intros H. inv_tx_step. inv_tx_step.
  destruct (workflow_runs d !! rid) as [r|] eqn:Hr; [case_bool_decide as Hin|]; inv_tx; try done.
  specialize (He _ Hin). eapply good_set_run; [done|by apply rtc_once|by inversion He|].
  rewrite Hto. done.
Qed.

Lemma good_settle_step now rid sid reason d u d' :
  settle_step now rid sid reason d = inr (u, d') → good d d'.
Proof.
  unfold settle_step. destruct (String.eqb reason "completed"); intros H; inv_tx;
  match goal with Hi : appendEventTx _ _ _ _ _ _ _ = _ |- _ => apply good_appendEvent in Hi as Hg end;
  (etransitivity; [|exact Hg]);
  match goal with Hi : context [run_steps d !! sid] |- _ =>
    destruct (run_steps d !! sid) as [y|] eqn:Hx; [case_bool_decide as Hst|]; inv_tx; try done;
    eapply good_update_step in Hi; eauto end.
  all: rewrite ?Hst; auto using rtc_once with iterabase; by split; eauto.
Qed.

Lemma next_pending_Some d rid x :
  next_pending d rid = Some x →
  (∃ k, run_steps d !! k = Some x) ∧ step_RunID x = rid ∧ step_State x = StepPending ∧
  ∀ k y, run_steps d !! k = Some y → step_RunID y = rid → step_State y = StepPending →
    step_Seq x ≤ step_Seq y.
Proof.
  unfold next_pending, pending_steps. intros [Hin Hmin]%min_by_Some.
  apply elem_of_select in Hin as [HP ?]. bools. repeat split; try done.
  intros k y Hk Hr Hs. apply Hmin. apply elem_of_select. split; [|eauto].
  by rewrite !bool_decide_eq_true_2.
Qed.
Lemma next_pending_None d rid :
  next_pending d rid = None →
  ∀ k y, run_steps d !! k = Some y → step_RunID y = rid → step_State y ≠ StepPending.
Proof.
  unfold next_pending, pending_steps. rewrite min_by_None. intros Hn k y Hk H1 H2.
  assert (y ∈ @nil Step) as Hc; [|by apply not_elem_of_nil in Hc].
  rewrite <- Hn. apply elem_of_select. split; [|eauto]. by rewrite !bool_decide_eq_true_2.
Qed.

Lemma good_advance now rid reason d st d' :
  advanceRunAfterSettleTx now rid reason d = inr (st, d') → good d d'.
Proof.
  unfold advanceRunAfterSettleTx. intros H.
  repeat case_match; inv_tx; try done.
  1,2: match goal with Hf : finish_run_if _ _ _ _ _ = _, Ha : appendEventTx _ _ _ _ _ _ _ = _ |- _ =>
    apply good_appendEvent in Ha; etransitivity; [|exact Ha]; eapply good_finish_run; [| |exact Hf] end;
    [|done]; intros s Hs; set_unfold in Hs; destruct Hs as [->|[->|[]]]; auto with iterabase.
  apply good_wf. intros Hwf. case_match eqn:Hn; inv_tx;
    match goal with Ha : appendEventTx _ _ _ _ _ _ _ = _ |- _ => apply good_appendEvent in Ha as Hg end;
    (etransitivity; [|exact Hg]).
  - apply next_pending_Some in Hn as ((k & Hk) & Hrun & Hst & _).
    eapply good_update_step; [| | | |done].
    + by rewrite (wf_step_key _ Hwf _ _ Hk).
    + rewrite Hst. apply rtc_once. auto with iterabase.
    + by rewrite Hst.
    + pose proof (wf_step_fin _ Hwf _ _ Hk) as Hf. rewrite Hst in Hf. done.
  - eapply good_finish_run; [| |eassumption]; [|done].
    intros s Hs. apply list_elem_of_singleton in Hs as ->. auto with iterabase.
Qed.

Lemma good_settle_turn_step now t reason d u d' :
  settle_turn_step now t reason d = inr (u, d') → good d d'.
Proof.
  unfold settle_turn_step. intros H. repeat case_match; inv_tx; try done.
  by eapply good_settle_step.
Qed.
Lemma SettleTurnAndAdvance_inr now id reason d st d' :
  SettleTurnAndAdvance now id reason d = inr (st, d') →
  ∃ to t d1 e d2 d3, turnStateForReason reason = Some to ∧ casTurn now id to d = inr (t, d1) ∧
    insertEvent now (turn_RunID t) (Some id) (nullable (strPtr (turn_StepID t))) None EvSettled
      (settled_payload reason 0) d1 = inr (e, d2) ∧
    settle_turn_step now t reason d2 = inr ((), d3) ∧
    advanceRunAfterSettleTx now (turn_RunID t) reason d3 = inr (st, d').
Proof. unfold SettleTurnAndAdvance. intros H. inv_tx. eauto 20. Qed.
Lemma good_SettleTurnAndAdvance now id reason d st d' :
  SettleTurnAndAdvance now id reason d = inr (st, d') → good d d'.
Proof.
  intros (to & t & d1 & e & d2 & d3 & Hto & Hc & Hi & Hs & Ha)%SettleTurnAndAdvance_inr.
  apply turnStateForReason_terminal in Hto.
  etransitivity; [by eapply good_casTurn|]. etransitivity; [by eapply good_insertEvent|].
  etransitivity; [by eapply good_settle_turn_step|by eapply good_advance].
Qed.
(** After a settlement the turn holds the state its reason names. *)
Lemma SettleTurnAndAdvance_turn now id reason d st d' to :
  rt_wf d → SettleTurnAndAdvance now id reason d = inr (st, d') →
  turnStateForReason reason = Some to →
  ∃ t', turns d' !! id = Some t' ∧ turn_State t' = to.
Proof.
  intros Hwf (to' & t & d1 & e & d2 & d3 & Hto & Hc & Hi & Hs & Ha)%SettleTurnAndAdvance_inr Hto'.
  rewrite Hto in Hto'. injection Hto' as ->. apply turnStateForReason_terminal in Hto as Htt.
  destruct (good_casTurn _ _ _ _ _ _ Htt Hc Hwf) as [Hwf1 _].
  assert (good d1 d') as Hg.
  { etransitivity; [by eapply good_insertEvent|].
    etransitivity; [by eapply good_settle_turn_step|by eapply good_advance]. }
  destruct (Hg Hwf1) as [_ E]. apply casTurn_inr in Hc as (t0 & Ht0 & _ & -> & ->).
  destruct (evo_turns _ _ E id (with_turn_state now to t0)) as (t' & ? & [->|[Hr _]]);
    [simpl; by rewrite lookup_insert_eq|eauto|]. simpl in Hr. by rewrite Hr in Htt.
Qed.

(** * Executions *)

(** The state-changing operations of the store, as commands. *)
Inductive RtOp :=
| OpCreateRun (now : timestamp) (inp : CreateRunInput)
| OpStartRun (now : timestamp) (id : uuid)
| OpSucceedRun (now : timestamp) (id : uuid)
| OpFailRun (now : timestamp) (id : uuid)
| OpAbortRun (now : timestamp) (id : uuid)
| OpAwaitApproval (now : timestamp) (id : uuid)
| OpResumeFromApproval (now : timestamp) (id : uuid)
| OpStartStep (now : timestamp) (id : uuid)
| OpSucceedStep (now : timestamp) (id : uuid)
| OpFailStep (now : timestamp) (id : uuid)
| OpSkipStep (now : timestamp) (id : uuid)
| OpStartTurn (now : timestamp) (runID stepID model : string)
| OpSettleTurn (now : timestamp) (id reason : string) (messageCount : Z)
| OpSettleTurnAndAdvance (now : timestamp) (id reason : string)
| OpAppendEvent (now : timestamp) (runID turnID stepID kind payload : string).

Definition commit {A} (m : RtTx A) (d : RuntimeDB) : RuntimeDB := (run_tx m d).2.
Definition exec_op (op : RtOp) : RuntimeDB → RuntimeDB :=
  match op with
  | OpCreateRun now inp => commit (CreateRun now inp)
  | OpStartRun now id => commit (StartRun now id)
  | OpSucceedRun now id => commit (SucceedRun now id)
  | OpFailRun now id => commit (FailRun now id)
  | OpAbortRun now id => commit (AbortRun now id)
  | OpAwaitApproval now id => commit (AwaitApproval now id)
  | OpResumeFromApproval now id => commit (ResumeFromApproval now id)
  | OpStartStep now id => commit (StartStep now id)
  | OpSucceedStep now id => commit (SucceedStep now id)
  | OpFailStep now id => commit (FailStep now id)
  | OpSkipStep now id => commit (SkipStep now id)
  | OpStartTurn now rid sid m => commit (StartTurn now rid sid m)
  | OpSettleTurn now id reason n => commit (SettleTurn now id reason n)
  | OpSettleTurnAndAdvance now id reason => commit (SettleTurnAndAdvance now id reason)
  | OpAppendEvent now rid tid sid kind p => commit (AppendEvent now rid tid sid kind p)
  end.
Fixpoint exec_ops (ops : list RtOp) (d : RuntimeDB) : RuntimeDB :=
  match ops with [] => d | op :: ops' => exec_ops ops' (exec_op op d) end.
(** A freshly migrated database. *)
Definition init_db (ids : gset uuid) (us : nat → uuid) : RuntimeDB :=
  mkRuntimeDB ids ∅ ∅ ∅ [] us 0.

Lemma good_commit {A} (m : RtTx A) d :
  (∀ a d', m d = inr (a, d') → good d d') → good d (commit m d).
Proof.
  intros H. unfold commit, run_tx. destruct (m d) as [e|[a d']] eqn:E; simpl; [done|eauto].
Qed.
Ltac solve_edges := let s := fresh in let Hs := fresh in
  intros s Hs; set_unfold in Hs; destruct_or?; subst; done || auto with iterabase.
Lemma good_exec_op op d : good d (exec_op op d).
Proof.
  destruct op; apply good_commit; intros a d' H;
    eauto using good_CreateRun, good_StartTurn, good_SettleTurn, good_SettleTurnAndAdvance,
      good_appendEvent;
    first [ eapply good_transitionRun; [|exact H] | eapply good_transitionStep; [|exact H] ];
    solve_edges.
Qed.
Lemma good_exec_ops ops d : good d (exec_ops ops d).
Proof.
  revert d. induction ops as [|op ops IH]; intros d; simpl; [done|].
  etransitivity; [apply good_exec_op|apply IH].
Qed.
Lemma exec_ops_app ops1 ops2 d : exec_ops (ops1 ++ ops2) d = exec_ops ops2 (exec_ops ops1 d).
Proof. revert d. induction ops1; intros d; simpl; auto. Qed.
Lemma init_wf ids us : rt_wf (init_db ids us).
Proof.
  constructor; simpl; intros; try done.
  all: try match goal with H : ∅ !! _ = Some _ |- _ => by rewrite lookup_empty in H end.
  by apply not_elem_of_nil in H.
Qed.
Lemma reachable_wf ids us ops : rt_wf (exec_ops ops (init_db ids us)).
Proof. apply good_exec_ops, init_wf. Qed.
#[export] Hint Resolve reachable_wf init_wf : iterabase.

(** * The event log *)
Lemma insert_by_seq_head e l :
  Forall (λ x, ev_Seq e ≤ ev_Seq x) l → insert_by_seq e l = e :: l.
Proof.
  destruct l as [|x l]; [done|]. intros [? _]%Forall_cons. simpl.
  by rewrite (proj2 (Z.leb_le _ _)).
Qed.
Lemma sort_sorted l m :
  ev_Seq <$> l = seqZ m (Z.of_nat (length l)) → sort_by_seq l = l.
Proof.
  revert m. induction l as [|e l IH]; intros m H; [done|]. simpl in *.
  rewrite Nat2Z.inj_succ, seqZ_cons in H by lia. injection H as He Hl.
  replace (Z.pred (Z.succ (Z.of_nat (length l)))) with (Z.of_nat (length l)) in Hl by lia.
  rewrite (IH _ Hl). apply insert_by_seq_head. apply Forall_forall. intros x Hx.
  assert (ev_Seq x ∈ seqZ (Z.succ m) (Z.of_nat (length l))) as Hin
    by (rewrite <- Hl; by apply list_elem_of_fmap_2).
  rewrite elem_of_seqZ in Hin. lia.
Qed.
Lemma filter_after l m n :
  ev_Seq <$> l = seqZ m (Z.of_nat (length l)) →
  filter (λ e, m - 1 + Z.of_nat n < ev_Seq e) l = drop n l ∧
  ev_Seq <$> drop n l = seqZ (m + Z.of_nat n) (Z.of_nat (length (drop n l))).
Proof.
  revert m n. induction l as [|e l IH]; intros m n H.
  - by rewrite drop_nil.
  - simpl in H. rewrite Nat2Z.inj_succ, seqZ_cons in H by lia. injection H as He Hl.
    replace (Z.pred (Z.succ (Z.of_nat (length l)))) with (Z.of_nat (length l)) in Hl by lia.
    destruct n as [|n]; simpl.
    + split.
      * apply filter_all. constructor; [lia|]. apply Forall_forall. intros x Hx.
        assert (ev_Seq x ∈ seqZ (Z.succ m) (Z.of_nat (length l))) as Hin
          by (rewrite <- Hl; by apply list_elem_of_fmap_2).
        rewrite elem_of_seqZ in Hin. lia.
      * rewrite Nat2Z.inj_succ, seqZ_cons by lia. f_equal; [lia|].
        rewrite Hl. f_equal; lia.
    + destruct (IH _ n Hl) as [H1 H2]. split.
      * rewrite filter_cons, decide_False by lia. rewrite <- H1.
        apply list_filter_iff. intros x. lia.
      * rewrite H2. f_equal; lia.
Qed.

(** * Progress of the settlement transaction *)

(** The next [n] generated ids are distinct and unused by the event log. *)
Definition fresh_ids (n : nat) (d : RuntimeDB) : Prop :=
  NoDup ((λ i, uuids d (uuid_next d + i)%nat) <$> seq 0 n) ∧
  ∀ i, (i < n)%nat → uuids d (uuid_next d + i)%nat ∉ ev_ID <$> events d.

Lemma fresh_ids_step n d e :
  fresh_ids (S n) d → ev_ID e = uuids d (uuid_next d) →
  fresh_ids n (set_events (events d ++ [e]) (bump_uuid d)).
Proof.
  intros [Hnd Hf] He. split.
  - simpl. apply NoDup_fmap_1 in Hnd as Hnd'. revert Hnd. simpl seq. rewrite fmap_cons.
    intros [_ H]%NoDup_cons. rewrite <- fmap_S_seq, <- list_fmap_compose in H.
    erewrite list_fmap_ext; [exact H|]. intros i x Hi. simpl. f_equal. lia.
  - simpl. intros i Hi. rewrite fmap_app, not_elem_of_app. simpl. split.
    + replace (S (uuid_next d + i)) with (uuid_next d + S i)%nat by lia. apply Hf. lia.
    + rewrite list_elem_of_singleton, He. intros Heq.
      revert Hnd. rewrite NoDup_alt. intros Hnd.
      specialize (Hnd (S i) 0%nat (uuids d (uuid_next d))).
      rewrite !list_lookup_fmap, !lookup_seq_lt in Hnd by lia. simpl in Hnd.
      replace (uuid_next d + S i)%nat with (S (uuid_next d + i)) in Hnd by lia.
      rewrite Heq, Nat.add_0_r in Hnd. specialize (Hnd eq_refl eq_refl). lia.
Qed.

Lemma insertEvent_ok now rid tid sid nid kind p d n :
  rt_wf d → fresh_ids (S n) d → Z.of_nat (length (run_events d rid)) < int4_max →
  is_Some (workflow_runs d !! rid) → fk_ok (turns d) tid = true →
  fk_ok (run_steps d) sid = true →
  ∃ e, insertEvent now rid tid sid nid kind p d
       = inr (e, set_events (events d ++ [e]) (bump_uuid d)) ∧
       ev_ID e = uuids d (uuid_next d) ∧ ev_RunID e = rid ∧ ev_Kind e = kind ∧
       ev_Seq e = next_event_seq d rid.
Proof.
  intros Hwf [_ Hf] Hlen Hr Ht Hs. specialize (Hf 0%nat ltac:(lia)). rewrite Nat.add_0_r in Hf.
  pose proof (next_event_seq_wf d rid Hwf) as Hn.
  unfold insertEvent, gen_random_uuid, tx_asks, tx_get, tx_modify, tx_require, mret, tx_ret,
    mbind, tx_bind. simpl.
  rewrite (proj2 (Z.leb_le _ _)) by lia. rewrite bool_decide_eq_true_2 by done.
  rewrite (bool_decide_eq_true_2 (_ ∉ _ <$> run_events _ _)).
  - rewrite (bool_decide_eq_true_2 (is_Some _)) by done. rewrite Ht, Hs. simpl. eauto 10.
  - change (run_events (bump_uuid d) rid) with (run_events d rid).
    rewrite (wf_event_seq _ Hwf), elem_of_seqZ. lia.
Qed.
Lemma appendEventTx_ok now rid sid kind d n :
  rt_wf d → fresh_ids (S n) d → Z.of_nat (length (run_events d rid)) < int4_max →
  is_Some (workflow_runs d !! rid) → fk_ok (run_steps d) (nullable sid) = true →
  ∃ e, appendEventTx now rid EmptyString sid kind EmptyString d
       = inr (e, set_events (events d ++ [e]) (bump_uuid d)) ∧
       ev_ID e = uuids d (uuid_next d) ∧ ev_RunID e = rid ∧ ev_Kind e = kind ∧
       ev_Seq e = next_event_seq d rid.
Proof.
  intros. unfold appendEventTx, jsonB. simpl. unfold mbind at 1, tx_bind. simpl.
  by eapply insertEvent_ok.
Qed.
Lemma run_events_length d e rid :
  (length (run_events (set_events (events d ++ [e]) (bump_uuid d)) rid)
   ≤ S (length (run_events d rid)))%nat.
Proof.
  change (run_events (set_events (events d ++ [e]) (bump_uuid d)) rid)
    with (run_events (set_events (events d ++ [e]) d) rid).
  rewrite run_events_app, length_app, filter_cons, filter_nil. case_decide; simpl; lia.
Qed.

Lemma casTurn_ok now id to d t :
  turns d !! id = Some t → turn_State t = TurnRunning →
  casTurn now id to d
  = inr (with_turn_state now to t, set_turns (<[id := with_turn_state now to t]> (turns d)) d).
Proof.
  intros Ht Hs. unfold casTurn, tx_get, mbind, tx_bind. rewrite Ht.
  by rewrite bool_decide_eq_true_2.
Qed.

Lemma update_step_ok id x d :
  step_State x ≠ StepRunning ∨ other_running_step d id (step_RunID x) = false →
  update_step id x d = inr ((), set_steps (<[id := x]> (run_steps d)) d).
Proof.
  intros H. unfold update_step, tx_get, tx_require, tx_modify, mbind, tx_bind.
  destruct H as [H|H].
  - by rewrite bool_decide_eq_false_2.
  - by rewrite H, andb_false_r.
Qed.

(** The step half of a settlement, when the step is running. *)
Lemma settle_step_ok now rid sid reason d n x :
  rt_wf d → fresh_ids (S n) d → Z.of_nat (length (run_events d rid)) < int4_max →
  is_Some (workflow_runs d !! rid) → run_steps d !! sid = Some x → step_State x = StepRunning →
  sid ≠ EmptyString →
  let to := if String.eqb reason "completed" then StepSucceeded else StepFailed in
  let x' := with_step_state now to (step_StartedAt x) (Some now) x in
  ∃ e, settle_step now rid sid reason d
       = inr ((), set_events (events d ++ [e])
                    (bump_uuid (set_steps (<[sid := x']> (run_steps d)) d))) ∧
       ev_ID e = uuids d (uuid_next d).
Proof.
  intros Hwf Hf Hl Hr Hx Hst Hne to x'.
  set (d1 := set_steps (<[sid := x']> (run_steps d)) d).
  assert (update_step sid x' d = inr ((), d1)) as Hu.
  { apply update_step_ok. left. unfold x', to; simpl. by destruct (String.eqb _ _). }
  assert (rt_wf d1) as Hwf1.
  { eapply good_update_step; [exact Hx| | | |exact Hu|exact Hwf].
    - rewrite Hst. apply rtc_once. unfold to. destruct (String.eqb _ _); auto with iterabase.
    - by rewrite Hst.
    - unfold to. destruct (String.eqb _ _); split; eauto. }
  destruct (appendEventTx_ok now rid sid
    (if String.eqb reason "completed" then EvStepSucceeded else EvStepFailed) d1 n)
    as (e & He & Hid & _); try done.
  - unfold nullable. rewrite (proj2 (String.eqb_neq _ _) Hne). simpl.
    apply bool_decide_eq_true_2. unfold d1; simpl. rewrite lookup_insert_eq. eauto.
  - exists e. split; [|done]. unfold settle_step. subst to. unfold x' in *.
    destruct (String.eqb reason "completed"); unfold tx_get, mbind, tx_bind in *;
      rewrite Hx, bool_decide_eq_true_2 by done; rewrite Hu; simpl in *; by rewrite He.
Qed.

Lemma finish_run_ok now rid from to d r :
  workflow_runs d !! rid = Some r → run_State r ∈ from →
  finish_run_if now rid from to d
  = inr ((), set_runs (<[rid := with_run_state now to (run_StartedAt r) (Some now) r]>
               (workflow_runs d)) d).
Proof.
  intros Hr Hin. unfold finish_run_if, tx_get, mbind, tx_bind. rewrite Hr.
  by rewrite bool_decide_eq_true_2.
Qed.

(** The run half of a settlement on a running run whose steps are not running. *)
Lemma advance_ok now rid reason d n r to :
  rt_wf d → fresh_ids (S n) d → Z.of_nat (length (run_events d rid)) < int4_max →
  workflow_runs d !! rid = Some r → run_State r = RunRunning →
  (∀ k y, run_steps d !! k = Some y → step_RunID y = rid → step_State y ≠ StepRunning) →
  turnStateForReason reason = Some to →
  ∃ st d', advanceRunAfterSettleTx now rid reason d = inr (st, d') ∧ turns d' = turns d ∧
    (∃ r', workflow_runs d' !! rid = Some r' ∧ run_State r' = st) ∧
    match to with
    | TurnFailed => st = RunFailed ∧ run_steps d' = run_steps d
    | TurnAborted => st = RunAborted ∧ run_steps d' = run_steps d
    | _ =>
        (next_pending d rid = None ∧ st = RunSucceeded ∧ run_steps d' = run_steps d) ∨
        (∃ y started, next_pending d rid = Some y ∧ st = RunRunning ∧
           run_steps d' = <[step_ID y := with_step_state now StepRunning started
                                            (step_FinishedAt y) y]> (run_steps d))
    end.
Proof.
  intros Hwf Hf Hl Hr Hst Hnr Hto.
  assert (Hfin : ∀ from st ev, RunRunning ∈ from → run_edge RunRunning st →
    isTerminal st = true →
    ∃ d', (finish_run_if now rid from st ≫= λ _,
           appendEventTx now rid EmptyString EmptyString ev EmptyString ≫= λ _, mret st) d
          = inr (st, d') ∧ turns d' = turns d ∧ run_steps d' = run_steps d ∧
          ∃ r', workflow_runs d' !! rid = Some r' ∧ run_State r' = st).
  { intros from st ev Hin Hedge Hterm.
    pose proof (finish_run_ok now rid from st d r Hr ltac:(by rewrite Hst)) as Hfr.
    set (d1 := set_runs _ d) in Hfr.
    assert (rt_wf d1) as Hwf1.
    { eapply good_set_run; [exact Hr| | | |exact Hwf]; rewrite ?Hst; [by apply rtc_once|done|].
      rewrite Hterm. by split; eauto. }
    destruct (appendEventTx_ok now rid EmptyString ev d1 n) as (e & He & _); try done.
    { unfold d1; simpl. rewrite lookup_insert_eq. eauto. }
    eexists. rewrite (tx_bind_step _ _ _ _ _ Hfr), (tx_bind_step _ _ _ _ _ He).
    split; [done|]. unfold d1. simpl. repeat split; try done.
    rewrite lookup_insert_eq. eauto. }
  unfold turnStateForReason in Hto. unfold advanceRunAfterSettleTx.
  destruct (String.eqb_spec reason "completed") as [->|]; simplify_eq; simpl;
    [|destruct (String.eqb_spec reason "failed") as [->|]; simplify_eq; simpl;
      [|destruct (String.eqb_spec reason "aborted") as [->|]; simplify_eq; simpl]].
  - rewrite (tx_bind_step _ _ _ _ _ eq_refl).
    destruct (next_pending d rid) as [y|] eqn:Hy.
    + apply next_pending_Some in Hy as Hy'. destruct Hy' as ((k & Hk) & Hyr & Hys & _).
      pose proof (wf_step_key _ Hwf _ _ Hk) as Hyk. rewrite <- Hyk in Hk.
      set (y' := with_step_state now StepRunning _ _ y).
      assert (update_step (step_ID y) y' d
              = inr ((), set_steps (<[step_ID y := y']> (run_steps d)) d)) as Hu.
      { apply update_step_ok. right. unfold other_running_step. apply exists_row_false.
        intros k' z Hz. rewrite !andb_false_iff, !bool_decide_eq_false.
        destruct (decide (step_RunID z = step_RunID y')) as [E|]; [|auto].
        left. right. eapply Hnr; [exact Hz|]. rewrite E. done. }
      set (d1 := set_steps _ d) in Hu.
      assert (rt_wf d1) as Hwf1.
      { eapply good_update_step; [exact Hk| | | |exact Hu|exact Hwf]; rewrite ?Hys.
        - apply rtc_once. auto with iterabase.
        - done.
        - pose proof (wf_step_fin _ Hwf _ _ Hk) as Hfin'. rewrite Hys in Hfin'. done. }
      destruct (appendEventTx_ok now rid (step_ID y) EvStepStarted d1 n) as (e & He & _); try done.
      { unfold nullable. destruct (String.eqb (step_ID y) EmptyString); [done|]. simpl.
        apply bool_decide_eq_true_2. rewrite lookup_insert_eq. eauto. }
      eexists RunRunning, _. rewrite (tx_bind_step _ _ _ _ _ Hu), (tx_bind_step _ _ _ _ _ He).
      split; [done|]. simpl. split; [done|]. split; [eauto|]. right. eauto.
    + destruct (Hfin [RunRunning] RunSucceeded EvRunSucceeded) as (d' & Hd & ? & ? & ?);
        [left|auto with iterabase|done|].
      exists RunSucceeded, d'. split; [exact Hd|]. eauto 10.
  - destruct (Hfin [RunRunning; RunAwaitingApproval] RunFailed EvRunFailed) as (d' & Hd & ? & ? & ?);
      [left|auto with iterabase|done|]. exists RunFailed, d'. split; [exact Hd|]. eauto 10.
  - destruct (Hfin [RunRunning; RunAwaitingApproval] RunAborted EvRunAborted) as (d' & Hd & ? & ? & ?);
      [left|auto with iterabase|done|]. exists RunAborted, d'. split; [exact Hd|]. eauto 10.
Qed.

(** A settlement up to its run half: the turn compare-and-set, its audit event and
    the step transition of a running step. *)
Lemma settle_prefix_ok now d turnID t sid x r reason to :
  rt_wf d → turns d !! turnID = Some t → turn_State t = TurnRunning →
  turn_StepID t = Some sid → sid ≠ EmptyString →
  run_steps d !! sid = Some x → step_State x = StepRunning →
  workflow_runs d !! turn_RunID t = Some r →
  turnStateForReason reason = Some to → fresh_ids 3 d →
  Z.of_nat (length (run_events d (turn_RunID t))) + 3 ≤ int4_max →
  let sto := if String.eqb reason "completed" then StepSucceeded else StepFailed in
  ∃ d3, SettleTurnAndAdvance now turnID reason d
        = advanceRunAfterSettleTx now (turn_RunID t) reason d3 ∧
    rt_wf d3 ∧ fresh_ids 1 d3 ∧
    Z.of_nat (length (run_events d3 (turn_RunID t))) < int4_max ∧
    workflow_runs d3 = workflow_runs d ∧
    turns d3 = <[turnID := with_turn_state now to t]> (turns d) ∧
    run_steps d3 = <[sid := with_step_state now sto (step_StartedAt x) (Some now) x]> (run_steps d).
Proof.
  intros Hwf Ht Hts Hsid Hne Hx Hxs Hr Hto Hf Hl sto.
  pose proof (turnStateForReason_terminal _ _ Hto) as Htt.
  pose proof (casTurn_ok now turnID to d t Ht Hts) as Hc.
  pose proof (good_casTurn _ _ _ _ _ _ Htt Hc Hwf) as [Hwf1 _]. set (d1 := set_turns _ d) in *.
  destruct (insertEvent_ok now (turn_RunID t) (Some turnID) (Some sid) None EvSettled
    (settled_payload reason 0) d1 2) as (e & He & Hid & Her & _); try done.
  { change (run_events d1) with (run_events d). lia. }
  { simpl. apply bool_decide_eq_true_2. rewrite lookup_insert_eq. eauto. }
  { simpl. apply bool_decide_eq_true_2. eauto. }
  pose proof (good_insertEvent _ _ _ _ _ _ _ _ _ _ He Hwf1) as [Hwf2 _].
  pose proof (fresh_ids_step 2 d1 e Hf Hid) as Hf2.
  pose proof (run_events_length d1 e (turn_RunID t)) as Hl2.
  change (run_events d1) with (run_events d) in Hl2. set (d2 := set_events _ _) in *.
  destruct (settle_step_ok now (turn_RunID t) sid reason d2 1 x) as (e3 & Hs & Hid3);
    try done; [lia|].
  pose proof (good_settle_step _ _ _ _ _ _ _ Hs Hwf2) as [Hwf3 _].
  set (d2' := set_steps _ d2) in *. pose proof (fresh_ids_step 1 d2' e3 Hf2 Hid3) as Hf3.
  pose proof (run_events_length d2' e3 (turn_RunID t)) as Hl3.
  change (run_events d2') with (run_events d2) in Hl3.
  exists (set_events (events d2' ++ [e3]) (bump_uuid d2')).
  split; [|repeat (split; [done || lia|]); done].
  unfold SettleTurnAndAdvance. rewrite Hto. rewrite (tx_bind_step _ _ _ to d) by done.
  rewrite (tx_bind_step _ _ _ _ _ Hc). simpl. rewrite Hsid. unfold strPtr, nullable. simpl.
  rewrite (proj2 (String.eqb_neq _ _) Hne). rewrite (tx_bind_step _ _ _ _ _ He).
  unfold settle_turn_step. simpl. rewrite Hsid, (proj2 (String.eqb_neq _ _) Hne).
  by rewrite (tx_bind_step _ _ _ _ _ Hs).
Qed.

(** * Theorems *)

(** C38. Every database the store's operations can reach from a freshly migrated one
    is well formed: rows sit under their ids, finish times are set exactly on
    terminal rows, turns carry their run's session, plan sequence numbers are
    unique, at most one step of a run is running, at most one turn of a session is
    active, and each run's events are numbered 1, 2, 3, ... without a gap. *)
Theorem runtime_invariant (ids : gset uuid) (us : nat → uuid) (ops : list RtOp) :
  rt_wf (exec_ops ops (init_db ids us)).
Proof. apply reachable_wf. Qed.

(** Between any two points of an execution each run, step and turn only follows
    the lifecycle of its kind, immutable columns keep their values, terminal rows
    never change again and the event log only grows. *)
Theorem runtime_evolution (ids : gset uuid) (us : nat → uuid) (pre post : list RtOp) :
  rt_evolves (exec_ops pre (init_db ids us)) (exec_ops (pre ++ post) (init_db ids us)).
Proof. rewrite exec_ops_app. apply good_exec_ops, reachable_wf. Qed.

(** In every reachable database the history of a run is complete and replayable:
    [ListEvents] returns its events in insertion order numbered 1..n,
    [LastEventSeq] is n, and resuming with [EventsSince k] returns exactly the
    events after the k-th. *)
Theorem event_log_replay (ids : gset uuid) (us : nat → uuid) (ops : list RtOp) rid (k : nat) :
  let d := exec_ops ops (init_db ids us) in
  ListEvents d rid = run_events d rid ∧
  ev_Seq <$> ListEvents d rid = seqZ 1 (LastEventSeq d rid) ∧
  LastEventSeq d rid = Z.of_nat (length (ListEvents d rid)) ∧
  EventsSince d rid (Z.of_nat k) = drop k (ListEvents d rid).
Proof.
  intros d. pose proof (reachable_wf ids us ops) as Hwf. fold d in Hwf.
  pose proof (wf_event_seq _ Hwf rid) as Hs.
  assert (ListEvents d rid = run_events d rid) as Hl by exact (sort_sorted _ _ Hs).
  assert (LastEventSeq d rid = Z.of_nat (length (run_events d rid))) as Hm
    by (apply max_of_seqZ; [lia|done]).
  rewrite Hl, Hm. split; [done|]. split; [done|]. split; [done|].
  destruct (filter_after _ _ k Hs) as [Hf Hd]. unfold EventsSince.
  rewrite <- (sort_sorted _ _ Hd). f_equal. rewrite <- Hf. apply list_filter_iff. intros e. lia.
Qed.

(** First terminal writer: once a turn has been settled, whatever runs
    afterwards, a second settlement of it with any valid reason is refused with an
    invalid-transition error naming the state the first one wrote, and writes
    nothing. *)
Theorem first_terminal_writer now d turnID reason st d' ops now2 reason2 to to2 :
  rt_wf d → SettleTurnAndAdvance now turnID reason d = inr (st, d') →
  turnStateForReason reason = Some to → turnStateForReason reason2 = Some to2 →
  run_tx (SettleTurnAndAdvance now2 turnID reason2) (exec_ops ops d')
  = (inl (ErrInvalidTransition (turn_state_name to)), exec_ops ops d').
Proof.
  intros Hwf H Hto Hto2. pose proof (good_SettleTurnAndAdvance _ _ _ _ _ _ H Hwf) as [Hwf' _].
  destruct (SettleTurnAndAdvance_turn _ _ _ _ _ _ _ Hwf H Hto) as (t' & Ht' & <-).
  pose proof (turnStateForReason_terminal _ _ Hto) as Htt.
  destruct (good_exec_ops ops d' Hwf') as [_ E].
  destruct (evo_turns _ _ E _ _ Ht') as (t2 & Ht2 & [->|[Hr _]]); [|by rewrite Hr in Htt].
  unfold run_tx, SettleTurnAndAdvance, casTurn, turnTransitionErr.
  unfold mbind, tx_bind, tx_get, tx_opt. rewrite Hto2. simpl. rewrite Ht2.
  rewrite bool_decide_eq_false_2 by (intros Hc; by rewrite Hc in Htt). simpl. by rewrite Ht2.
Qed.

(** Settling a running turn of a running run succeeds (given unused ids and room
    in the sequence), and is atomic and exact: the turn takes the state of the
    reason, its step succeeds or fails, and the state the call returns is the state
    stored for the run: failed or aborted for those reasons, and for a completed
    turn still running with the oldest pending step started, or succeeded when no
    pending step remains. *)
Theorem settle_and_advance_correct now d turnID t sid x r reason to :
  rt_wf d → turns d !! turnID = Some t → turn_State t = TurnRunning →
  turn_StepID t = Some sid → sid ≠ EmptyString →
  run_steps d !! sid = Some x → step_State x = StepRunning → step_RunID x = turn_RunID t →
  workflow_runs d !! turn_RunID t = Some r → run_State r = RunRunning →
  turnStateForReason reason = Some to → fresh_ids 3 d →
  Z.of_nat (length (run_events d (turn_RunID t))) + 3 ≤ int4_max →
  ∃ st d', SettleTurnAndAdvance now turnID reason d = inr (st, d') ∧
    (∃ t', turns d' !! turnID = Some t' ∧ turn_State t' = to) ∧
    (∃ r', workflow_runs d' !! turn_RunID t = Some r' ∧ run_State r' = st) ∧
    (∃ x', run_steps d' !! sid = Some x' ∧
       step_State x' = if bool_decide (to = TurnSucceeded) then StepSucceeded else StepFailed) ∧
    match to with
    | TurnFailed => st = RunFailed
    | TurnAborted => st = RunAborted
    | _ =>
        (st = RunSucceeded ∧ ∀ k y, run_steps d !! k = Some y → step_RunID y = turn_RunID t →
           step_State y ≠ StepPending) ∨
        (st = RunRunning ∧
          ∃ k y y', run_steps d !! k = Some y ∧ step_State y = StepPending ∧
            step_RunID y = turn_RunID t ∧
            run_steps d' !! k = Some y' ∧ step_State y' = StepRunning ∧
            (∀ k2 y2, run_steps d !! k2 = Some y2 → step_RunID y2 = turn_RunID t →
               step_State y2 = StepPending → step_Seq y ≤ step_Seq y2))
    end.
Proof.
  intros Hwf Ht Hts Hsid Hne Hx Hxs Hxr Hr Hrs Hto Hf Hl.
  destruct (settle_prefix_ok now d turnID t sid x r reason to)
    as (d3 & Heq & Hwf3 & Hf3 & Hl3 & Hr3 & Ht3 & Hs3); try done.
  set (sto := if String.eqb reason "completed" then _ else _) in Hs3.
  assert (sto = if bool_decide (to = TurnSucceeded) then StepSucceeded else StepFailed) as Hsto.
  { revert Hto. unfold sto, turnStateForReason.
    repeat case_match; intros; simplify_eq; by case_bool_decide. }
  assert (sto ≠ StepRunning ∧ sto ≠ StepPending) as [Hsr Hsp] by (rewrite Hsto; by case_bool_decide).
  destruct (advance_ok now (turn_RunID t) reason d3 0 r to)
    as (st & d' & Ha & Htu & Hrun & Hm); try done; [by rewrite Hr3| |].
  { intros k y. rewrite Hs3. intros [[<- <-]|[Hk Hy]]%lookup_insert_Some Hyr Hys; [done|].
    apply Hk. by eapply (wf_one_running _ Hwf); [exact Hx|exact Hy|congruence|..]. }
  exists st, d'. split; [by rewrite Heq|].
  split; [rewrite Htu, Ht3, lookup_insert_eq; eauto|]. split; [done|].
  assert (∀ k y, run_steps d3 !! k = Some y → step_State y = StepPending →
            k ≠ sid ∧ run_steps d !! k = Some y) as Hold.
  { intros k y. rewrite Hs3. by intros [[<- <-]|[Hk Hy]]%lookup_insert_Some. }
  assert (∀ k y, run_steps d !! k = Some y → step_State y = StepPending →
            run_steps d3 !! k = Some y) as Hnew.
  { intros k y Hk Hp. rewrite Hs3, lookup_insert_ne; [done|congruence]. }
  assert (∀ m, run_steps d' = m → m !! sid = run_steps d3 !! sid →
            ∃ x', run_steps d' !! sid = Some x' ∧ step_State x' = sto) as Hsid'.
  { intros m -> ->. rewrite Hs3, lookup_insert_eq. eauto. }
  rewrite <- Hsto. apply turnStateForReason_terminal in Hto as Htt.
  destruct to; try done; [|by destruct Hm as [-> Hm]; eauto..].
  destruct Hm as [(Hn & -> & Hm)|(y & started & Hn & -> & Hm)].
  - split; [by eapply Hsid'|]. left. split; [done|]. intros k y Hk Hyr Hp.
    eapply (next_pending_None _ _ Hn); [by apply Hnew|done|done].
  - apply next_pending_Some in Hn as ((k & Hk) & Hyr & Hys & Hmin).
    rewrite (wf_step_key _ Hwf3 _ _ Hk) in Hm. destruct (Hold _ _ Hk Hys) as [Hks Hk0].
    split; [eapply Hsid'; [exact Hm|by rewrite lookup_insert_ne]|]. right. split; [done|].
    exists k, y. eexists. repeat (split; [done|]). rewrite Hm, lookup_insert_eq.
    split; [done|]. split; [done|]. intros k2 y2 Hk2 Hr2 Hp2. eapply Hmin; [|done|done]. eauto.
Qed.

(** * A concrete chat run *)
Definition demo_ids (n : nat) : uuid := String (Ascii.ascii_of_nat (65 + n)) EmptyString.
Definition demo_input : CreateRunInput :=
  {| cri_Kind := KindChat; cri_DefinitionKey := EmptyString; cri_ScopeIdentityID := "u";
     cri_SessionID := "s"; cri_SessionDir := "s"; cri_Trigger := EmptyString;
     cri_Steps := [{| si_Seq := 1; si_Kind := StepKindAgentTask; si_Config := EmptyString |}] |}.
(** A run with an empty step plan. *)
Definition demo_plain : CreateRunInput :=
  {| cri_Kind := KindChat; cri_DefinitionKey := EmptyString; cri_ScopeIdentityID := "u";
     cri_SessionID := "s"; cri_SessionDir := "s"; cri_Trigger := EmptyString; cri_Steps := [] |}.
Definition demo_db : RuntimeDB :=
  exec_ops [OpCreateRun 1 demo_input; OpStartRun 2 "A"; OpStartStep 3 "B";
            OpStartTurn 4 "A" "B" "m"] (init_db {["u"]} demo_ids).

Lemma demo_fresh : fresh_ids 3 demo_db.
Proof.
  split; [apply (bool_decide_unpack _); vm_compute; exact I|].
  assert (Forall (λ i, uuids demo_db (uuid_next demo_db + i)%nat ∉ ev_ID <$> events demo_db)
            (seq 0 3)) as H by (apply (bool_decide_unpack _); vm_compute; exact I).
  rewrite Forall_forall in H. intros i Hi. apply H, elem_of_seq. lia.
Qed.

Lemma settle_and_advance_correct_witness :
  ∃ st d', SettleTurnAndAdvance 7 "E" "completed" demo_db = inr (st, d') ∧
    ∃ t', turns d' !! "E" = Some t' ∧ turn_State t' = TurnSucceeded.
Proof.
  destruct (settle_and_advance_correct 7 demo_db "E"
    {| turn_ID := "E"; turn_RunID := "A"; turn_StepID := Some "B"; turn_NodeExecutionID := None;
       turn_SessionID := "s"; turn_Model := Some "m"; turn_State := TurnRunning;
       turn_StartedAt := None; turn_SettledAt := None; turn_CreatedAt := 4; turn_UpdatedAt := 4 |}
    "B"
    {| step_ID := "B"; step_RunID := "A"; step_Seq := 1; step_Kind := StepKindAgentTask;
       step_Config := JObj []; step_State := StepRunning; step_StartedAt := Some 3;
       step_FinishedAt := None; step_CreatedAt := 1; step_UpdatedAt := 3 |}
    {| run_ID := "A"; run_Kind := KindChat; run_DefinitionKey := None; run_ScopeIdentityID := "u";
       run_SessionID := "s"; run_SessionDir := "s"; run_Trigger := JObj [];
       run_State := RunRunning; run_CreatedAt := 1; run_UpdatedAt := 2;
       run_StartedAt := Some 2; run_FinishedAt := None; run_Principals := no_principals |}
    "completed" TurnSucceeded) as (st & d' & H & Ht & _).
  - apply reachable_wf.
  - vm_compute. reflexivity.
  - reflexivity.
  - reflexivity.
  - discriminate.
  - vm_compute. reflexivity.
  - reflexivity.
  - reflexivity.
  - vm_compute. reflexivity.
  - reflexivity.
  - reflexivity.
  - apply demo_fresh.
  - vm_compute. discriminate.
  - exists st, d'. split; [exact H|exact Ht].
Defined.

Lemma first_terminal_writer_witness :
  ∃ st d', SettleTurnAndAdvance 7 "E" "completed" demo_db = inr (st, d') ∧
    run_tx (SettleTurnAndAdvance 9 "E" "failed") (exec_ops [OpStartRun 8 "A"] d')
    = (inl (ErrInvalidTransition "succeeded"), exec_ops [OpStartRun 8 "A"] d').
Proof.
  destruct (SettleTurnAndAdvance 7 "E" "completed" demo_db) as [e|[st d']] eqn:E.
  - exfalso. vm_compute in E. discriminate E.
  - exists st, d'. split; [reflexivity|].
    apply (first_terminal_writer 7 demo_db "E" "completed" st d' [OpStartRun 8 "A"] 9 "failed"
             TurnSucceeded TurnFailed); [apply reachable_wf|exact E|reflexivity|reflexivity].
Defined.

(** [SettleTurnAndAdvance] does not notice that its run compare-and-set missed: a
    turn can be started on a run that is still pending, and settling it as
    completed then returns succeeded and appends run_succeeded while the stored run
    stays pending and unfinished. *)
Theorem settle_reports_unstored_state :
  ∃ (ops : list RtOp) (turnID : uuid) d',
    SettleTurnAndAdvance 9 turnID "completed" (exec_ops ops (init_db {["u"]} demo_ids))
      = inr (RunSucceeded, d') ∧
    (λ r, (run_State r, run_FinishedAt r)) <$> workflow_runs d' !! "A" = Some (RunPending, None) ∧
    ev_Kind <$> last (ListEvents d' "A") = Some EvRunSucceeded.
Proof.
  exists [OpCreateRun 1 demo_plain; OpStartTurn 4 "A" EmptyString "m"], "B". eexists.
  split; [vm_compute; reflexivity|]. split; vm_compute; reflexivity.
Qed.
