(* ===== verification/WorkerPool.v ===== *)
(** The warm-worker pool of dispatch (control-plane/internal/dispatch/workerpool.go)
    and the durable per-pool capacity gate it publishes (dispatch/store.go).

    A [workerConn] is one live worker stream. Methods that run under [w.mu] are
    atomic functions on the record; the pool keeps pointers, so the heap of
    connections and the map of registered ones are separate, and a fenced
    connection stays alive in the heap. Go iterates maps in an unspecified order:
    operations that loop over [p.conns] take the order as an argument. The sends
    and the teardown of the stream, which interleave, are a transition system. *)
From S2P Require Import Prelude.
From Stdlib Require Import QArith.
#[local] Open Scope Z_scope.

Record workerConn := mkConn {
  wc_poolID : string;
  wc_workerID : string;
  wc_gen : Z;
  wc_closed : bool;
  wc_idle : bool;
  wc_creditAdvertised : bool;
  wc_activeTurn : string;
  wc_lastSeen : timestamp;
  wc_workspaceObserved : bool;
  wc_workspaceGated : bool;
  wc_workspaceWarning : bool;
  wc_workspaceFree : Z;
  wc_workspaceCapacity : Z;
  wc_workspaceRatio : Q }.

(** The connection the [Work] handler creates. *)
Definition new_conn (poolID workerID : string) (gen : Z) (now : timestamp) : workerConn :=
  mkConn poolID workerID gen false false false EmptyString now false false false 0 0 0%Q.

Definition set_credit (idle adv : bool) (active : string) (w : workerConn) : workerConn :=
  mkConn (wc_poolID w) (wc_workerID w) (wc_gen w) (wc_closed w) idle adv active (wc_lastSeen w)
    (wc_workspaceObserved w) (wc_workspaceGated w) (wc_workspaceWarning w) (wc_workspaceFree w)
    (wc_workspaceCapacity w) (wc_workspaceRatio w).
Definition set_lastSeen (now : timestamp) (w : workerConn) : workerConn :=
  mkConn (wc_poolID w) (wc_workerID w) (wc_gen w) (wc_closed w) (wc_idle w)
    (wc_creditAdvertised w) (wc_activeTurn w) now
    (wc_workspaceObserved w) (wc_workspaceGated w) (wc_workspaceWarning w) (wc_workspaceFree w)
    (wc_workspaceCapacity w) (wc_workspaceRatio w).
Definition set_gated (gated : bool) (w : workerConn) : workerConn :=
  mkConn (wc_poolID w) (wc_workerID w) (wc_gen w) (wc_closed w) (wc_idle w)
    (wc_creditAdvertised w) (wc_activeTurn w) (wc_lastSeen w)
    (wc_workspaceObserved w) gated (wc_workspaceWarning w) (wc_workspaceFree w)
    (wc_workspaceCapacity w) (wc_workspaceRatio w).
Definition no_turn (w : workerConn) : bool := String.eqb (wc_activeTurn w) EmptyString.

(** * Credits of one connection *)
Definition markClosed (w : workerConn) : workerConn :=
  mkConn (wc_poolID w) (wc_workerID w) (wc_gen w) true (wc_idle w)
    (wc_creditAdvertised w) (wc_activeTurn w) (wc_lastSeen w)
    (wc_workspaceObserved w) (wc_workspaceGated w) (wc_workspaceWarning w) (wc_workspaceFree w)
    (wc_workspaceCapacity w) (wc_workspaceRatio w).

Definition tryConsumeCredit (turnID : string) (w : workerConn) : bool * workerConn :=
  if wc_closed w || negb (wc_idle w) || negb (wc_creditAdvertised w) || negb (no_turn w)
  then (false, w)
  else (true, set_credit false false turnID w).

Definition restoreCreditAfterPreDeliveryFailure (turnID : string) (w : workerConn)
    : bool * workerConn :=
  if wc_closed w || negb (String.eqb (wc_activeTurn w) turnID) then (false, w)
  else
    let idle := wc_workspaceObserved w && negb (wc_workspaceGated w) in
    (idle, set_credit idle true EmptyString w).

Definition releaseTurn (w : workerConn) : workerConn :=
  set_credit (wc_idle w) (wc_creditAdvertised w) EmptyString w.

Definition releaseAssignmentFailure (turnID : string) (deliveryAttempted : bool) (w : workerConn)
    : bool * workerConn :=
  if negb deliveryAttempted then restoreCreditAfterPreDeliveryFailure turnID w
  else (false, releaseTurn w).

(** Returns [(granted, valid)]. *)
Definition grantCreditIfIdle (now : timestamp) (w : workerConn) : (bool * bool) * workerConn :=
  if wc_closed w || negb (no_turn w) || negb (wc_workspaceObserved w) then ((false, false), w)
  else
    let w := set_lastSeen now w in
    if wc_workspaceGated w
    then ((false, true), set_credit false true (wc_activeTurn w) w)
    else ((true, true), set_credit true true (wc_activeTurn w) w).

Definition applyWorkspaceStatus (now : timestamp) (free capacity : Z) (ratio : Q)
    (warning gated observedByWorker : bool) (w : workerConn) : bool * workerConn :=
  let wasIdle := wc_idle w in
  let w' := mkConn (wc_poolID w) (wc_workerID w) (wc_gen w) (wc_closed w)
    (if no_turn w then negb gated && wc_creditAdvertised w else wc_idle w)
    (wc_creditAdvertised w) (wc_activeTurn w) (if observedByWorker then now else wc_lastSeen w)
    (wc_workspaceObserved w || observedByWorker) gated warning free capacity ratio in
  (negb wasIdle && wc_idle w', w').
Definition updateWorkspaceStatus (now : timestamp) (free capacity : Z) (ratio : Q)
    (warning gated : bool) (w : workerConn) : bool * workerConn :=
  applyWorkspaceStatus now free capacity ratio warning gated true w.
Definition lastSeenAt (w : workerConn) : timestamp := wc_lastSeen w.

(** * The pool *)
Record WorkspaceCapacityState := {
  wcs_PoolID : string; wcs_Observed : bool; wcs_FreeBytes : Z; wcs_CapacityBytes : Z;
  wcs_FreeRatio : Q; wcs_Warning : bool; wcs_CreditGated : bool; wcs_StorageAuthorized : bool;
  wcs_ObservedAt : option timestamp }.
Definition freshCreditGated (s : WorkspaceCapacityState) : bool :=
  wcs_CreditGated s || negb (wcs_StorageAuthorized s).

Abbreviation ptr := nat (only parsing).
Record workerPool := mkPool {
  wp_heap : gmap nat workerConn;
  wp_conns : gmap string nat;
  wp_workspaceGated : gmap string bool }.

Definition newWorkerPool : workerPool := mkPool ∅ ∅ ∅.
Definition workerKey (poolID workerID : string) : string := (poolID +:+ "/" +:+ workerID)%string.

Definition put_conn (p : ptr) (w : workerConn) (s : workerPool) : workerPool :=
  mkPool (<[p := w]> (wp_heap s)) (wp_conns s) (wp_workspaceGated s).

Definition seedWorkspaceCapacity (states : gmap string WorkspaceCapacityState) (s : workerPool)
    : workerPool :=
  mkPool (wp_heap s) (wp_conns s) ((freshCreditGated <$> states) ∪ wp_workspaceGated s).

Definition syncWorkspaceCapacity (states : gmap string WorkspaceCapacityState) (s : workerPool)
    : list string * workerPool :=
  let removed := filter (λ k, states !! k = None) (map_to_list (wp_workspaceGated s)).*1 in
  let kept := filter (λ kv, is_Some (states !! kv.1)) (wp_workspaceGated s) in
  (removed, mkPool (wp_heap s) (wp_conns s) ((freshCreditGated <$> states) ∪ kept)).

(** The registered connections in iteration order. *)
Fixpoint apply_all (source : ptr) (poolID : string) (now : timestamp) (free capacity : Z) (ratio : Q)
    (warning gated : bool) (order : list string) (s : workerPool) : bool * workerPool :=
  match order with
  | [] => (false, s)
  | k :: order' =>
      match wp_conns s !! k with
      | None => apply_all source poolID now free capacity ratio warning gated order' s
      | Some p =>
          match wp_heap s !! p with
          | None => apply_all source poolID now free capacity ratio warning gated order' s
          | Some w =>
              if negb (String.eqb (wc_poolID w) poolID)
              then apply_all source poolID now free capacity ratio warning gated order' s
              else
                let '(restored, w') :=
                  applyWorkspaceStatus now free capacity ratio warning gated
                    (bool_decide (p = source)) w in
                let '(r, s') := apply_all source poolID now free capacity ratio warning gated order'
                                  (put_conn p w' s) in
                (restored || r, s')
          end
      end
  end.
Definition pool_applyWorkspaceStatus (order : list string) (source : ptr) (poolID : string)
    (now : timestamp) (free capacity : Z) (ratio : Q) (warning gated : bool) (s : workerPool)
    : bool * workerPool :=
  apply_all source poolID now free capacity ratio warning gated order
    (mkPool (wp_heap s) (wp_conns s) (<[poolID := gated]> (wp_workspaceGated s))).

(** [add]: registers the connection at [p], gated until the pool is known open, and
    returns the connection it replaces. *)
Definition pool_add (p : ptr) (w : workerConn) (s : workerPool) : option ptr * workerPool :=
  let key := workerKey (wc_poolID w) (wc_workerID w) in
  let gated := default true (wp_workspaceGated s !! wc_poolID w) in
  (wp_conns s !! key,
   mkPool (<[p := set_gated gated w]> (wp_heap s)) (<[key := p]> (wp_conns s)) (wp_workspaceGated s)).

Definition pool_remove (p : ptr) (s : workerPool) : workerPool :=
  match wp_heap s !! p with
  | None => s
  | Some w =>
      let key := workerKey (wc_poolID w) (wc_workerID w) in
      if bool_decide (wp_conns s !! key = Some p)
      then mkPool (wp_heap s) (delete key (wp_conns s)) (wp_workspaceGated s)
      else s
  end.

Definition pool_get (poolID workerID : string) (s : workerPool) : option ptr :=
  wp_conns s !! workerKey poolID workerID.

Fixpoint pickIdle (poolID turnID : string) (order : list string) (s : workerPool)
    : option ptr * workerPool :=
  match order with
  | [] => (None, s)
  | k :: order' =>
      match wp_conns s !! k with
      | None => pickIdle poolID turnID order' s
      | Some p =>
          match wp_heap s !! p with
          | None => pickIdle poolID turnID order' s
          | Some w =>
              if negb (String.eqb (wc_poolID w) poolID) then pickIdle poolID turnID order' s
              else
                let '(ok, w') := tryConsumeCredit turnID w in
                if ok then (Some p, put_conn p w' s) else pickIdle poolID turnID order' s
          end
      end
  end.

Fixpoint activeConn (turnID : string) (order : list string) (s : workerPool) : option ptr :=
  match order with
  | [] => None
  | k :: order' =>
      match wp_conns s !! k with
      | None => activeConn turnID order' s
      | Some p =>
          match wp_heap s !! p with
          | None => activeConn turnID order' s
          | Some w =>
              if String.eqb (wc_activeTurn w) turnID && negb (wc_closed w)
              then Some p else activeConn turnID order' s
          end
      end
  end.
Definition pool_all (order : list string) (s : workerPool) : list ptr :=
  omap (λ k, wp_conns s !! k) order.

(** * The durable capacity gate *)

(** The thresholds are binary64 constants: 0.25 is exact, 0.20 is not. *)
Definition ratio_open : Q := 1 # 4.
Definition ratio_close : Q := 3602879701896397 # 18014398509481984.

(** [ObserveWorkspaceCapacity]: the upsert with its hysteresis CASE. [None] is the
    bigint range error. A new row takes the column default, not storage-authorized. *)
Definition ObserveWorkspaceCapacity (now : timestamp) (poolID : string)
    (free capacity : Z) (ratio : Q) (t : gmap string WorkspaceCapacityState)
    : option (WorkspaceCapacityState * gmap string WorkspaceCapacityState) :=
  if (int8_max <? free) || (int8_max <? capacity) then None
  else
    let warning := negb (Qle_bool ratio_open ratio) in
    let row :=
      match t !! poolID with
      | None =>
          {| wcs_PoolID := poolID; wcs_Observed := true; wcs_FreeBytes := free;
             wcs_CapacityBytes := capacity; wcs_FreeRatio := ratio; wcs_Warning := warning;
             wcs_CreditGated := warning; wcs_StorageAuthorized := false;
             wcs_ObservedAt := Some now |}
      | Some old =>
          {| wcs_PoolID := poolID; wcs_Observed := true; wcs_FreeBytes := free;
             wcs_CapacityBytes := capacity; wcs_FreeRatio := ratio; wcs_Warning := warning;
             wcs_CreditGated :=
               if Qle_bool ratio ratio_close then true
               else if Qle_bool ratio_open ratio then false
               else wcs_CreditGated old;
             wcs_StorageAuthorized := wcs_StorageAuthorized old;
             wcs_ObservedAt := Some now |}
      end in
    Some (row, <[poolID := row]> t).

(** * Concurrent sends and teardown of one connection

    [send]'s program points: before the first critical section; registered with
    [sendWG] and waiting for [sendMu]; holding [sendMu] before the second check of
    [closed]; inside [stream.Send]; after the deferred [sendMu.Unlock] and before the
    deferred [sendWG.Done]; returned. *)
Inductive send_pc := PStart | PRegistered | PLocked | PSending | PUnlocked | PReturned.
#[export] Instance send_pc_eq : EqDecision send_pc. Proof. solve_decision. Defined.
(** The [Work] handler: serving, [markClosed] done and waiting on [sendWG], returned
    (Connect then closes the response writer). *)
Inductive handler_pc := HServing | HClosing | HReturned.
Record send_state := mkSend {
  ss_closed : bool;
  ss_wg : nat;
  ss_sendMu : option nat;
  ss_pcs : gmap nat send_pc;
  ss_handler : handler_pc }.
Definition send_init : send_state := mkSend false 0 None ∅ HServing.

Inductive send_step : send_state → send_state → Prop :=
| step_call c wg mu pcs h i :
    pcs !! i = None →
    send_step (mkSend c wg mu pcs h) (mkSend c wg mu (<[i := PStart]> pcs) h)
| step_refused wg mu pcs h i :
    pcs !! i = Some PStart →
    send_step (mkSend true wg mu pcs h) (mkSend true wg mu (<[i := PReturned]> pcs) h)
| step_register wg mu pcs h i :
    pcs !! i = Some PStart →
    send_step (mkSend false wg mu pcs h) (mkSend false (S wg) mu (<[i := PRegistered]> pcs) h)
| step_lock c wg pcs h i :
    pcs !! i = Some PRegistered →
    send_step (mkSend c wg None pcs h) (mkSend c wg (Some i) (<[i := PLocked]> pcs) h)
| step_recheck_closed wg pcs h i :
    pcs !! i = Some PLocked →
    send_step (mkSend true wg (Some i) pcs h) (mkSend true wg None (<[i := PUnlocked]> pcs) h)
| step_recheck_open wg pcs h i :
    pcs !! i = Some PLocked →
    send_step (mkSend false wg (Some i) pcs h) (mkSend false wg (Some i) (<[i := PSending]> pcs) h)
| step_sent c wg pcs h i :
    pcs !! i = Some PSending →
    send_step (mkSend c wg (Some i) pcs h) (mkSend c wg None (<[i := PUnlocked]> pcs) h)
| step_done c wg mu pcs h i :
    pcs !! i = Some PUnlocked →
    send_step (mkSend c (S wg) mu pcs h) (mkSend c wg mu (<[i := PReturned]> pcs) h)
| step_fence c wg mu pcs h :
    send_step (mkSend c wg mu pcs h) (mkSend true wg mu pcs h)
| step_teardown c wg mu pcs :
    send_step (mkSend c wg mu pcs HServing) (mkSend true wg mu pcs HClosing)
| step_drained c mu pcs :
    send_step (mkSend c 0 mu pcs HClosing) (mkSend c 0 mu pcs HReturned).
