(* ===== verification/WorkerPoolFacts.v ===== *)
(** Theorems about the warm-worker pool modelled in [WorkerPool]: the credit
    invariant and its accounting, worker selection, fail-closed gating, the capacity
    hysteresis, and the send/teardown protocol. *)
From S2P Require Import Prelude WorkerPool.
From Stdlib Require Import QArith.
#[local] Open Scope Z_scope.

(** * The credit invariant *)

(** A usable credit is exactly an advertised one with no active turn and an open
    gate; an assigned turn consumed the advertised credit; credit is only taken
    from workers that reported their workspace. *)
Record conn_wf (w : workerConn) : Prop := {
  cw_idle : wc_idle w = wc_creditAdvertised w && no_turn w && negb (wc_workspaceGated w);
  cw_turn : no_turn w = false → wc_creditAdvertised w = false ∧ wc_workspaceObserved w = true;
  cw_adv : wc_creditAdvertised w = true → wc_workspaceObserved w = true }.

Lemma no_turn_set idle adv t w : no_turn (set_credit idle adv t w) = String.eqb t EmptyString.
Proof. done. Qed.

(** The operations the dispatcher runs on a registered connection. *)
Inductive ConnOp :=
| CoReady (now : timestamp)
| CoConsume (turnID : string)
| CoReleaseFailure (turnID : string) (deliveryAttempted : bool)
| CoRelease
| CoStatus (now : timestamp) (free capacity : Z) (ratio : Q) (warning gated observed : bool)
| CoClose.
Definition conn_exec (op : ConnOp) (w : workerConn) : workerConn :=
  match op with
  | CoReady now => (grantCreditIfIdle now w).2
  | CoConsume t => (tryConsumeCredit t w).2
  | CoReleaseFailure t b => (releaseAssignmentFailure t b w).2
  | CoRelease => releaseTurn w
  | CoStatus now f c r wn g o => (applyWorkspaceStatus now f c r wn g o w).2
  | CoClose => markClosed w
  end.
Fixpoint conn_run (ops : list ConnOp) (w : workerConn) : workerConn :=
  match ops with [] => w | op :: ops' => conn_run ops' (conn_exec op w) end.
(** Assignments name a turn, and an undelivered one is released by its own turn id. *)
Definition op_named (op : ConnOp) : Prop :=
  match op with
  | CoConsume t | CoReleaseFailure t false => t ≠ EmptyString
  | _ => True
  end.


Lemma no_turn_true w : no_turn w = true ↔ wc_activeTurn w = EmptyString.
Proof. unfold no_turn. apply String.eqb_eq. Qed.
Lemma no_turn_false w : no_turn w = false ↔ wc_activeTurn w ≠ EmptyString.
Proof. unfold no_turn. apply String.eqb_neq. Qed.

(** What the critical section of each operation decides, as one guard. *)
Lemma tryConsumeCredit_spec t w :
  tryConsumeCredit t w =
    if negb (wc_closed w) && wc_idle w && wc_creditAdvertised w && no_turn w
    then (true, set_credit false false t w) else (false, w).
Proof.
  unfold tryConsumeCredit. destruct (wc_closed w), (wc_idle w), (wc_creditAdvertised w), (no_turn w);
    done.
Qed.
Lemma no_turn_nonempty i a t w : t ≠ EmptyString → no_turn (set_credit i a t w) = false.
Proof. intros. by apply no_turn_false. Qed.

Lemma consume_wf t w : t ≠ EmptyString → conn_wf w → conn_wf (tryConsumeCredit t w).2.
Proof.
  intros Ht Hw. rewrite tryConsumeCredit_spec.
  destruct (negb (wc_closed w) && wc_idle w && wc_creditAdvertised w && no_turn w) eqn:Hg; [|done].
  apply andb_prop in Hg as [[[_ _]%andb_prop Ha]%andb_prop _].
  constructor; rewrite ?no_turn_nonempty by done; simpl; [done| |done].
  intros _. split; [done|]. by apply (cw_adv w Hw).
Qed.
Lemma release_wf w : conn_wf w → conn_wf (releaseTurn w).
Proof.
  intros [H1 H2 H3]. destruct (no_turn w) eqn:Hn.
  - apply no_turn_true in Hn as He.
    constructor; simpl; [|done|done]. by rewrite H1.
  - destruct (H2 eq_refl) as [Ha Ho].
    constructor; simpl; [|done|done]. by rewrite H1, Ha.
Qed.
Lemma restore_wf t w :
  t ≠ EmptyString → conn_wf w → conn_wf (restoreCreditAfterPreDeliveryFailure t w).2.
Proof.
  intros Ht Hw. unfold restoreCreditAfterPreDeliveryFailure.
  destruct (wc_closed w || negb (String.eqb (wc_activeTurn w) t)) eqn:Hg; [done|].
  apply orb_false_iff in Hg as [_ Hg%negb_false_iff]. apply String.eqb_eq in Hg as <-.
  apply no_turn_false in Ht. destruct (cw_turn w Hw Ht) as [_ Ho].
  constructor; simpl; [by rewrite Ho|done|done].
Qed.
Lemma grant_wf now w : conn_wf w → conn_wf (grantCreditIfIdle now w).2.
Proof.
  intros Hw. unfold grantCreditIfIdle.
  destruct (wc_closed w || negb (no_turn w) || negb (wc_workspaceObserved w)) eqn:Hg; [done|].
  apply orb_false_iff in Hg as [[_ Hn%negb_false_iff]%orb_false_iff Ho%negb_false_iff].
  change (wc_workspaceGated (set_lastSeen now w)) with (wc_workspaceGated w).
  apply no_turn_true in Hn.
  destruct (wc_workspaceGated w) eqn:Hgt; constructor; simpl; rewrite ?no_turn_set; simpl;
    rewrite ?Hgt, ?Hn; done.
Qed.
Lemma status_wf now f c r wn g o w : conn_wf w → conn_wf (applyWorkspaceStatus now f c r wn g o w).2.
Proof.
  intros [H1 H2 H3].
  destruct (no_turn w) eqn:Hn.
  - constructor; unfold applyWorkspaceStatus, no_turn in *; simpl; rewrite ?Hn; [|done|].
    + destruct (wc_creditAdvertised w), g; done.
    + intros Ha. by rewrite H3.
  - destruct (H2 eq_refl) as [Ha Ho]. rewrite Ha in H1.
    constructor; unfold applyWorkspaceStatus, no_turn in *; simpl; rewrite ?Hn, ?Ha, ?Ho; done.
Qed.
Lemma close_wf w : conn_wf w → conn_wf (markClosed w).
Proof. intros [H1 H2 H3]. by constructor. Qed.
Lemma set_gated_wf g w : wc_creditAdvertised w = false → conn_wf w → conn_wf (set_gated g w).
Proof. intros Ha [H1 H2 H3]. constructor; simpl; [by rewrite H1, Ha|done|done]. Qed.
#[export] Hint Resolve consume_wf release_wf restore_wf grant_wf status_wf close_wf : iterabase.

Lemma conn_exec_wf op w : op_named op → conn_wf w → conn_wf (conn_exec op w).
Proof. destruct op as [| |? []| | |]; cbn [conn_exec op_named releaseAssignmentFailure negb snd]; auto with iterabase. Qed.
Lemma conn_run_wf ops w : Forall op_named ops → conn_wf w → conn_wf (conn_run ops w).
Proof.
  intros H. revert w. induction H as [|op ops Hop _ IH]; intros w Hw; simpl; [done|].
  apply IH. by apply conn_exec_wf.
Qed.
Lemma new_conn_wf pid wid gen now : conn_wf (new_conn pid wid gen now).
Proof. by constructor. Qed.

(** ** Credit accounting *)
Definition is_consume (op : ConnOp) (w : workerConn) : nat :=
  match op with CoConsume t => Nat.b2n (tryConsumeCredit t w).1 | _ => 0 end.
(** A [Ready] the handler accepts, or an assignment given back before delivery. *)
Definition is_credit (op : ConnOp) (w : workerConn) : nat :=
  match op with
  | CoReady now => Nat.b2n (grantCreditIfIdle now w).1.2
  | CoReleaseFailure t false =>
      Nat.b2n (negb (wc_closed w) && String.eqb (wc_activeTurn w) t)
  | _ => 0
  end.
Fixpoint count_ops (f : ConnOp → workerConn → nat) (ops : list ConnOp) (w : workerConn) : nat :=
  match ops with [] => 0 | op :: ops' => f op w + count_ops f ops' (conn_exec op w) end.

Lemma credit_step op w :
  (is_consume op w + Nat.b2n (wc_creditAdvertised (conn_exec op w))
    ≤ Nat.b2n (wc_creditAdvertised w) + is_credit op w)%nat.
Proof.
  destruct op as [now|t|t []| |now f c r wn g o|]; simpl; try lia.
  - unfold grantCreditIfIdle.
    destruct (wc_closed w || negb (no_turn w) || negb (wc_workspaceObserved w)); simpl; [lia|].
    destruct (wc_workspaceGated w); simpl; lia.
  - rewrite tryConsumeCredit_spec.
    destruct (negb (wc_closed w) && wc_idle w && wc_creditAdvertised w && no_turn w) eqn:Hg;
      simpl; [|lia].
    apply andb_prop in Hg as [[_ ->]%andb_prop _]. simpl. lia.
  - unfold releaseAssignmentFailure, restoreCreditAfterPreDeliveryFailure. simpl.
    destruct (wc_closed w), (String.eqb (wc_activeTurn w) t); simpl; lia.
Qed.
Lemma credit_count ops w :
  (count_ops is_consume ops w + Nat.b2n (wc_creditAdvertised (conn_run ops w))
    ≤ Nat.b2n (wc_creditAdvertised w) + count_ops is_credit ops w)%nat.
Proof.
  revert w. induction ops as [|op ops IH]; intros w; simpl; [lia|].
  specialize (IH (conn_exec op w)). pose proof (credit_step op w). lia.
Qed.

(** Whatever the order in which status reports, [Ready] messages, assignments,
    give-backs and the teardown reach a fresh worker connection, the connection is
    usable ([idle]) exactly when a credit is advertised, no turn is active and its
    pool is not gated, an active turn leaves no credit behind, and the number of
    assignments handed to the worker plus the credit still outstanding never
    exceeds the number of accepted [Ready] messages plus pre-delivery give-backs. *)
Theorem worker_credit_invariant pid wid gen now ops :
  Forall op_named ops →
  let w0 := new_conn pid wid gen now in
  let w := conn_run ops w0 in
  wc_idle w = wc_creditAdvertised w && no_turn w && negb (wc_workspaceGated w) ∧
  (wc_activeTurn w ≠ EmptyString → wc_creditAdvertised w = false ∧ wc_workspaceObserved w = true) ∧
  (count_ops is_consume ops w0 + Nat.b2n (wc_creditAdvertised w) ≤ count_ops is_credit ops w0)%nat.
Proof.
  intros Hops w0 w. pose proof (conn_run_wf ops w0 Hops (new_conn_wf pid wid gen now)) as Hw.
  split; [apply Hw|]. split.
  - intros Ht. apply (cw_turn w Hw). by apply no_turn_false.
  - apply (credit_count ops w0).
Qed.
Lemma worker_credit_invariant_witness :
  let ops := [CoStatus 1 80 100 (4#5) false false true; CoReady 2; CoConsume "t1";
              CoReleaseFailure "t1" false; CoConsume "t2"; CoRelease; CoConsume "t3"] in
  count_ops is_consume ops (new_conn "p" "w" 1 0) = 2%nat ∧
  (2 + 0 ≤ count_ops is_credit ops (new_conn "p" "w" 1 0))%nat.
Proof.
  intros ops. split; [reflexivity|].
  assert (Forall op_named ops) as H by (repeat constructor; discriminate).
  exact (proj2 (proj2 (worker_credit_invariant "p" "w" 1 0 ops H))).
Defined.

(** * The pool *)

(** Registered keys point at live connections stored under their own key, and every
    connection of the heap satisfies the credit invariant. *)
Record pool_wf (s : workerPool) : Prop := {
  pw_conns : ∀ k p, wp_conns s !! k = Some p →
    ∃ w, wp_heap s !! p = Some w ∧ k = workerKey (wc_poolID w) (wc_workerID w);
  pw_heap : map_Forall (λ _, conn_wf) (wp_heap s) }.

(** The connection a worker selection may take. *)
Definition available (poolID : string) (w : workerConn) : bool :=
  String.eqb (wc_poolID w) poolID && negb (wc_closed w) && wc_idle w && wc_creditAdvertised w
  && no_turn w.

Lemma tryConsume_available poolID t w :
  String.eqb (wc_poolID w) poolID = true →
  tryConsumeCredit t w =
    if available poolID w then (true, set_credit false false t w) else (false, w).
Proof. intros Hp. rewrite tryConsumeCredit_spec. unfold available. by rewrite Hp. Qed.

Lemma pickIdle_Some poolID t order s p s' :
  pickIdle poolID t order s = (Some p, s') →
  ∃ k w, k ∈ order ∧ wp_conns s !! k = Some p ∧ wp_heap s !! p = Some w ∧
    available poolID w = true ∧ s' = put_conn p (set_credit false false t w) s.
Proof.
  induction order as [|k order IH]; simpl; [done|].
  assert (pickIdle poolID t order s = (Some p, s') →
    ∃ k0 w, k0 ∈ k :: order ∧ wp_conns s !! k0 = Some p ∧ wp_heap s !! p = Some w ∧
    available poolID w = true ∧ s' = put_conn p (set_credit false false t w) s) as Hrec.
  { intros (k0 & w & ? & ?)%IH. exists k0, w. split; [by right|done]. }
  destruct (wp_conns s !! k) as [q|] eqn:Hk; [|done].
  destruct (wp_heap s !! q) as [w|] eqn:Hq; [|done].
  destruct (String.eqb (wc_poolID w) poolID) eqn:Hp; simpl; [|done].
  rewrite (tryConsume_available poolID) by done.
  destruct (available poolID w) eqn:Ha; [|done].
  intros [= <- <-]. exists k, w. split_and!; [left|done..].
Qed.
Lemma pickIdle_None poolID t order s s' :
  pickIdle poolID t order s = (None, s') →
  s' = s ∧ ∀ k p w, k ∈ order → wp_conns s !! k = Some p → wp_heap s !! p = Some w →
    available poolID w = false.
Proof.
  induction order as [|k order IH]; simpl.
  { intros [= <-]. split; [done|]. intros k p w Hk. by apply not_elem_of_nil in Hk. }
  destruct (wp_conns s !! k) as [q|] eqn:Hk; [destruct (wp_heap s !! q) as [w|] eqn:Hq|].
  2,3: intros [-> H]%IH; split; [done|]; intros k' p w' [->|Hin]%elem_of_cons; naive_solver.
  destruct (String.eqb (wc_poolID w) poolID) eqn:Hp; simpl.
  - rewrite (tryConsume_available poolID) by done.
    destruct (available poolID w) eqn:Ha; [done|].
    intros [-> H]%IH. split; [done|]. intros k' p w' [->|Hin]%elem_of_cons; naive_solver.
  - intros [-> H]%IH. split; [done|]. intros k' p w' [->|Hin]%elem_of_cons; [|naive_solver].
    intros. simplify_eq. unfold available. by rewrite Hp.
Qed.

(** Selecting an idle worker for a turn is sound and complete for every map
    iteration order: a returned connection is registered, belongs to the requested
    pool, was open and idle with an advertised credit, no active turn and an ungated
    pool, and now carries the turn with no credit left while every other connection
    is untouched; no connection is returned only when no registered connection of
    the pool is usable, and then nothing changed. *)
Theorem pickIdle_correct poolID turnID order s r s' :
  pool_wf s → (∀ k, is_Some (wp_conns s !! k) → k ∈ order) →
  pickIdle poolID turnID order s = (r, s') →
  match r with
  | Some p =>
      ∃ k w, wp_conns s !! k = Some p ∧ wp_heap s !! p = Some w ∧ wc_poolID w = poolID ∧
        k = workerKey poolID (wc_workerID w) ∧
        wc_closed w = false ∧ wc_idle w = true ∧ wc_activeTurn w = EmptyString ∧
        wc_workspaceGated w = false ∧ wc_workspaceObserved w = true ∧
        s' = put_conn p (set_credit false false turnID w) s
  | None =>
      s' = s ∧ ∀ k p w, wp_conns s !! k = Some p → wp_heap s !! p = Some w →
        wc_poolID w = poolID → wc_closed w = true ∨ wc_idle w = false
  end.
Proof.
  intros Hwf Hord Hpick. destruct r as [p|].
  - apply pickIdle_Some in Hpick as (k & w & _ & Hk & Hp & Ha & ->).
    destruct (pw_conns s Hwf k p Hk) as (w' & ? & ->). simplify_eq.
    pose proof (pw_heap s Hwf p w Hp) as Hcw. unfold available in Ha.
    apply andb_prop in Ha as [[[[Hpid%String.eqb_eq Hc%negb_true_iff]%andb_prop Hi]%andb_prop
      Hadv]%andb_prop Ht%no_turn_true].
    exists (workerKey (wc_poolID w) (wc_workerID w)), w. rewrite <- Hpid.
    pose proof (cw_idle w Hcw) as Hidle. rewrite Hi in Hidle. symmetry in Hidle.
    apply andb_prop in Hidle as [_ Hg%negb_true_iff].
    split_and!; try done. by apply (cw_adv w Hcw).
  - apply pickIdle_None in Hpick as [-> H]. split; [done|]. intros k p w Hk Hp Hpid.
    assert (available poolID w = false) as Ha by (eapply H; eauto). unfold available in Ha.
    pose proof (cw_idle w (pw_heap s Hwf p w Hp)) as Hidle.
    rewrite Hpid, String.eqb_refl in Ha.
    destruct (wc_closed w), (wc_idle w), (wc_creditAdvertised w), (no_turn w); simpl in *; auto.
Qed.

(** ** Operations keep the pool well-formed *)
Lemma put_conn_wf p w w' s :
  pool_wf s → wp_heap s !! p = Some w → wc_poolID w' = wc_poolID w → wc_workerID w' = wc_workerID w →
  conn_wf w' → pool_wf (put_conn p w' s).
Proof.
  intros [Hc Hh] Hp Hpid Hwid Hw'. constructor; simpl.
  - intros k q Hk. destruct (Hc k q Hk) as (v & Hv & ->). destruct (decide (q = p)) as [->|Hne].
    + exists w'. rewrite lookup_insert_eq. simplify_eq. by rewrite Hpid, Hwid.
    + exists v. by rewrite lookup_insert_ne.
  - by apply map_Forall_insert_2.
Qed.
Lemma pickIdle_wf poolID t order s r s' :
  t ≠ EmptyString → pool_wf s → pickIdle poolID t order s = (r, s') → pool_wf s'.
Proof.
  intros Ht Hwf Hpick. destruct r as [p|].
  - apply pickIdle_Some in Hpick as (k & w & _ & Hk & Hp & Ha & ->).
    eapply put_conn_wf; [done|done|done|done|].
    pose proof (consume_wf t w Ht (pw_heap s Hwf p w Hp)) as Hc.
    unfold available in Ha. apply andb_prop in Ha as [[[[Hpid%String.eqb_eq Hc'%negb_true_iff]%andb_prop Hi]%andb_prop
      Hadv]%andb_prop Htt].
    rewrite tryConsumeCredit_spec, Hc', Hi, Hadv, Htt in Hc. done.
  - by apply pickIdle_None in Hpick as [-> _].
Qed.

Lemma newWorkerPool_wf : pool_wf newWorkerPool.
Proof. constructor; simpl; [intros k p H; by rewrite lookup_empty in H|apply map_Forall_empty]. Qed.
Lemma pool_add_wf p w s :
  wp_heap s !! p = None → wc_creditAdvertised w = false → conn_wf w → pool_wf s →
  pool_wf (pool_add p w s).2.
Proof.
  intros Hp Ha Hw [Hc Hh]. constructor; simpl.
  - intros k q [[<- <-]|[Hk Hq]]%lookup_insert_Some.
    + eexists. by rewrite lookup_insert_eq.
    + destruct (Hc k q Hq) as (v & Hv & ->). exists v.
      rewrite lookup_insert_ne by congruence. done.
  - apply map_Forall_insert_2; [by apply set_gated_wf|done].
Qed.
Lemma pool_remove_wf p s : pool_wf s → pool_wf (pool_remove p s).
Proof.
  intros [Hc Hh]. unfold pool_remove. destruct (wp_heap s !! p) as [w|]; [|done].
  case_bool_decide; [|done]. constructor; simpl; [|done].
  intros k q [_ Hk]%lookup_delete_Some. eauto.
Qed.
Lemma pool_conn_wf p op w s :
  op_named op → wp_heap s !! p = Some w → pool_wf s → pool_wf (put_conn p (conn_exec op w) s).
Proof.
  intros Hop Hp Hwf. eapply put_conn_wf; [done|done|..|by apply conn_exec_wf, (pw_heap s Hwf p)].
  - destruct op as [| |? []| | |]; cbn [conn_exec releaseAssignmentFailure negb snd];
      rewrite ?tryConsumeCredit_spec;
      unfold grantCreditIfIdle, restoreCreditAfterPreDeliveryFailure; try done; by repeat case_match.
  - destruct op as [| |? []| | |]; cbn [conn_exec releaseAssignmentFailure negb snd];
      rewrite ?tryConsumeCredit_spec;
      unfold grantCreditIfIdle, restoreCreditAfterPreDeliveryFailure; try done; by repeat case_match.
Qed.

(** Reconnection fences by identity: registering a connection of (pool, worker)
    hands back the connection registered before, which is then no longer selectable;
    the late cleanup of that replaced connection is a no-op on the registration,
    while removing the current connection unregisters the worker. A connection
    starts with its pool's known gate, and gated when the pool is unknown, in which
    case even an accepted [Ready] gives it no usable credit. *)
Theorem reconnect_fencing p w s old s' :
  pool_wf s → wp_heap s !! p = None → pool_add p w s = (old, s') →
  old = pool_get (wc_poolID w) (wc_workerID w) s ∧
  pool_get (wc_poolID w) (wc_workerID w) s' = Some p ∧
  (∀ q, old = Some q → pool_remove q s' = s') ∧
  pool_get (wc_poolID w) (wc_workerID w) (pool_remove p s') = None ∧
  (∀ k, k ≠ workerKey (wc_poolID w) (wc_workerID w) →
     wp_conns s' !! k = wp_conns s !! k ∧ wp_conns (pool_remove p s') !! k = wp_conns s !! k) ∧
  ∃ w', wp_heap s' !! p = Some w' ∧
    wc_workspaceGated w' = default true (wp_workspaceGated s !! wc_poolID w) ∧
    (wp_workspaceGated s !! wc_poolID w = None →
       ∀ now, (grantCreditIfIdle now w').1.1 = false).
Proof.
  intros Hwf Hp. unfold pool_add. intros [= <- <-]. set (key := workerKey _ _).
  unfold pool_get; simpl. fold key.
  assert (∀ h g, pool_remove p (mkPool (<[p:=set_gated g w]> (wp_heap s)) (<[key:=p]> (wp_conns s)) h)
    = mkPool (<[p:=set_gated g w]> (wp_heap s)) (delete key (<[key:=p]> (wp_conns s))) h) as Hrem.
  { intros h g. unfold pool_remove; simpl. rewrite lookup_insert_eq. simpl.
    by rewrite bool_decide_eq_true_2 by apply lookup_insert_eq. }
  rewrite !Hrem. cbn [wp_conns wp_heap]. split_and!; try done.
  - apply lookup_insert_eq.
  - intros q Hq. destruct (pw_conns s Hwf key q Hq) as (v & Hv & Hkey).
    unfold pool_remove; cbn [wp_conns wp_heap]. rewrite lookup_insert_ne by congruence.
    rewrite Hv, <- Hkey, bool_decide_eq_false_2; [done|].
    rewrite lookup_insert_eq. congruence.
  - by rewrite lookup_delete_eq.
  - intros k Hk. by rewrite lookup_delete_ne, lookup_insert_ne by done.
  - eexists. rewrite lookup_insert_eq. split_and!; [done|done|].
    intros -> now. unfold grantCreditIfIdle; simpl. by repeat case_match.
Qed.
Lemma reconnect_fencing_witness :
  let s1 := (pool_add 1 (new_conn "pool" "w0" 1 0) newWorkerPool).2 in
  pool_get "pool" "w0" s1 = Some 1%nat ∧
  pool_get "pool" "w0" (pool_add 2 (new_conn "pool" "w0" 2 5) s1).2 = Some 2%nat.
Proof.
  intros s1. split; [reflexivity|].
  assert (pool_wf s1) as H1.
  { apply pool_add_wf; [reflexivity|reflexivity|apply new_conn_wf|apply newWorkerPool_wf]. }
  destruct (reconnect_fencing 2 (new_conn "pool" "w0" 2 5) s1
    (pool_add 2 (new_conn "pool" "w0" 2 5) s1).1 (pool_add 2 (new_conn "pool" "w0" 2 5) s1).2
    H1 eq_refl eq_refl) as (_ & H & _). exact H.
Defined.

(** A pool with one worker that reported its workspace and advertised a credit. *)
Definition demo_pool : workerPool :=
  let s0 := mkPool ∅ ∅ {[ "pool" := false ]} in
  let s1 := (pool_add 1 (new_conn "pool" "w0" 1 0) s0).2 in
  let s2 := put_conn 1 (conn_exec (CoStatus 1 80 100 (4#5) false false true)
                          (set_gated false (new_conn "pool" "w0" 1 0))) s1 in
  put_conn 1 (conn_exec (CoReady 2) (conn_exec (CoStatus 1 80 100 (4#5) false false true)
                          (set_gated false (new_conn "pool" "w0" 1 0)))) s2.
Lemma demo_pool_wf : pool_wf demo_pool.
Proof.
  apply pool_conn_wf; [done|reflexivity|]. apply pool_conn_wf; [done|reflexivity|].
  apply pool_add_wf; [reflexivity|reflexivity|apply new_conn_wf|].
  constructor; simpl; [intros k p H; by rewrite lookup_empty in H|apply map_Forall_empty].
Qed.
Lemma demo_pool_order k : is_Some (wp_conns demo_pool !! k) → k ∈ ["pool/w0"].
Proof.
  intros [p Hp]. unfold demo_pool in Hp; simpl in Hp.
  apply lookup_insert_Some in Hp as [[<- _]|[_ Hp]]; [left|by rewrite lookup_empty in Hp].
Qed.
Lemma pickIdle_correct_witness :
  (pickIdle "pool" "turn-1" ["pool/w0"] demo_pool).1 = Some 1%nat ∧
  ∃ k w, wp_conns demo_pool !! k = Some 1%nat ∧ wp_heap demo_pool !! 1%nat = Some w ∧
    wc_poolID w = "pool".
Proof.
  split; [vm_compute; reflexivity|].
  destruct (pickIdle "pool" "turn-1" ["pool/w0"] demo_pool) as [r s'] eqn:Hp.
  pose proof (pickIdle_correct "pool" "turn-1" ["pool/w0"] demo_pool r s' demo_pool_wf
    demo_pool_order Hp) as H.
  assert (r = Some 1%nat) as -> by (change r with (r, s').1; rewrite <- Hp; vm_compute; reflexivity).
  destruct H as (k & w & Hk & Hw & Hpid & _). by exists k, w.
Defined.

(** ** Publishing a pool's capacity *)

(** What the loop does to the connection at [p]: [order] lists registered keys. *)
Lemma apply_all_spec source poolID now f c r wn g order s b s' :
  pool_wf s → NoDup order →
  apply_all source poolID now f c r wn g order s = (b, s') →
  pool_wf s' ∧ wp_conns s' = wp_conns s ∧ wp_workspaceGated s' = wp_workspaceGated s ∧
  ∀ p w, wp_heap s !! p = Some w →
    wp_heap s' !! p = Some (
      if String.eqb (wc_poolID w) poolID &&
         bool_decide (workerKey (wc_poolID w) (wc_workerID w) ∈ order ∧
           wp_conns s !! workerKey (wc_poolID w) (wc_workerID w) = Some p)
      then (applyWorkspaceStatus now f c r wn g (bool_decide (p = source)) w).2 else w).
Proof.
  revert s b. induction order as [|k order IH]; intros s b Hwf Hnd; cbn [apply_all].
  { intros [= <- <-]. split_and!; try done. intros p w Hp.
    rewrite bool_decide_eq_false_2 by (intros [H _]; by apply not_elem_of_nil in H).
    by rewrite andb_false_r. }
  apply NoDup_cons in Hnd as [Hk Hnd].
  assert (apply_all source poolID now f c r wn g order s = (b, s') →
    (∀ p w, wp_heap s !! p = Some w → wc_poolID w = poolID → 
      workerKey (wc_poolID w) (wc_workerID w) = k → wp_conns s !! k ≠ Some p) →
    pool_wf s' ∧ wp_conns s' = wp_conns s ∧ wp_workspaceGated s' = wp_workspaceGated s ∧
    ∀ p w, wp_heap s !! p = Some w →
    wp_heap s' !! p = Some (
      if String.eqb (wc_poolID w) poolID &&
         bool_decide (workerKey (wc_poolID w) (wc_workerID w) ∈ k :: order ∧
           wp_conns s !! workerKey (wc_poolID w) (wc_workerID w) = Some p)
      then (applyWorkspaceStatus now f c r wn g (bool_decide (p = source)) w).2 else w)) as Hskip.
  { intros (? & ? & ? & Hmap)%IH Hno; try done. split_and!; try done.
    intros p w Hp. rewrite (Hmap p w Hp). f_equal.
    destruct (String.eqb_spec (wc_poolID w) poolID) as [Heq|]; [|done]. simpl.
    erewrite (bool_decide_ext (_ ∈ k :: order ∧ _)); [done|].
    rewrite elem_of_cons. specialize (Hno p w Hp Heq). naive_solver. }
  destruct (wp_conns s !! k) as [q|] eqn:Hkq; [|intros H; by apply Hskip].
  destruct (pw_conns s Hwf k q Hkq) as (v & Hv & ->). rewrite Hv.
  destruct (String.eqb_spec (wc_poolID v) poolID) as [Hpid|Hpid]; cbn [negb];
    [|intros H; apply Hskip; [done|]; intros p w Hp Hwp Hkey [= ->]; congruence].
  clear Hskip. destruct (applyWorkspaceStatus _ _ _ _ _ _ _ v) as [rs v'] eqn:Hst.
  destruct (apply_all _ _ _ _ _ _ _ _ order _) as [r2 s2] eqn:Hrec. intros [= <- <-].
  assert (v' = (applyWorkspaceStatus now f c r wn g (bool_decide (q = source)) v).2) as Hv'
    by (by rewrite Hst).
  assert (pool_wf (put_conn q v' s)) as Hwf'.
  { eapply put_conn_wf; [done|done|..]; rewrite Hv'; [done|done|].
    apply status_wf. by apply (pw_heap s Hwf q). }
  destruct (IH _ _ Hwf' Hnd Hrec) as (Hw2 & Hc2 & Hg2 & Hmap). split_and!; try done.
  intros p w Hp. destruct (decide (p = q)) as [->|Hne].
  - simplify_eq. rewrite (Hmap q _ (lookup_insert_eq _ _ _)).
    rewrite (bool_decide_eq_false_2 (_ ∈ order ∧ _)) by (intros [? _]; done).
    rewrite andb_false_r, String.eqb_refl, (bool_decide_eq_true_2 (_ ∈ _ :: order ∧ _)); [done|].
    split; [left|done].
  - rewrite (Hmap p w) by (by simpl; rewrite lookup_insert_ne). f_equal. simpl.
    destruct (String.eqb_spec (wc_poolID w) poolID) as [Heq|]; [|done]. simpl.
    erewrite (bool_decide_ext (_ ∈ _ :: order ∧ _)); [done|].
    rewrite elem_of_cons. split; [|intros [??]; auto]. intros [[He|?] Hc']; [|done].
    rewrite He in Hc'. congruence.
Qed.

(** Publishing a pool's capacity updates exactly the registered connections of
    that pool, in every map iteration order: each takes the new gate, one without an
    active turn becomes usable exactly when the gate is open and its advertised
    credit is still unspent, one that runs a turn stays unusable, the connections of
    other pools and the fenced ones are untouched, and later connections of the pool
    start with the published gate. *)
Theorem pool_capacity_publish order source poolID now free capacity ratio warning gated s b s' :
  pool_wf s → NoDup order → (∀ k, is_Some (wp_conns s !! k) → k ∈ order) →
  pool_applyWorkspaceStatus order source poolID now free capacity ratio warning gated s = (b, s') →
  pool_wf s' ∧ wp_conns s' = wp_conns s ∧
  wp_workspaceGated s' = <[poolID := gated]> (wp_workspaceGated s) ∧
  ∀ p w, wp_heap s !! p = Some w → ∃ w', wp_heap s' !! p = Some w' ∧
    (if bool_decide (wc_poolID w = poolID ∧
         wp_conns s !! workerKey poolID (wc_workerID w) = Some p)
     then wc_workspaceGated w' = gated ∧ wc_workspaceWarning w' = warning ∧
          wc_creditAdvertised w' = wc_creditAdvertised w ∧ wc_activeTurn w' = wc_activeTurn w ∧
          wc_idle w' = wc_creditAdvertised w && no_turn w && negb gated
     else w' = w).
Proof.
  intros Hwf Hnd Hord Happ. unfold pool_applyWorkspaceStatus in Happ.
  assert (pool_wf (mkPool (wp_heap s) (wp_conns s) (<[poolID:=gated]> (wp_workspaceGated s))))
    as Hwf1 by (destruct Hwf; by constructor).
  destruct (apply_all_spec _ _ _ _ _ _ _ _ _ _ _ _ Hwf1 Hnd Happ) as (Hwf' & Hc & Hg & Hmap).
  split_and!; [done..|]. intros p w Hp. specialize (Hmap p w Hp). simpl in Hmap.
  eexists. split; [exact Hmap|]. pose proof (pw_heap s' Hwf' _ _ Hmap) as Hcw.
  destruct (String.eqb_spec (wc_poolID w) poolID) as [Hpid|Hpid]; simpl in *; cycle 1.
  { rewrite bool_decide_eq_false_2; naive_solver. }
  rewrite Hpid in *.
  destruct (decide (wp_conns s !! workerKey poolID (wc_workerID w) = Some p)) as [Hk|Hk].
  - rewrite bool_decide_eq_true_2 in Hmap, Hcw |- * by eauto. rewrite bool_decide_eq_true_2 by eauto.
    split_and!; try done. apply (cw_idle _ Hcw).
  - rewrite (bool_decide_eq_false_2 (poolID = poolID ∧ _)) by naive_solver.
    by rewrite bool_decide_eq_false_2 by naive_solver.
Qed.

Lemma pool_capacity_publish_witness :
  let out := pool_applyWorkspaceStatus ["pool/w0"] 1 "pool" 9 10 100 (1#10) true true demo_pool in
  pool_wf out.2 ∧ (wc_idle <$> wp_heap out.2 !! 1%nat) = Some false.
Proof.
  intros out. split; [|vm_compute; reflexivity].
  assert (NoDup ["pool/w0"]) as Hnd by (apply NoDup_singleton).
  destruct out as [b s'] eqn:Hout.
  exact (proj1 (pool_capacity_publish ["pool/w0"] 1 "pool" 9 10 100 (1#10) true true demo_pool b s'
    demo_pool_wf Hnd demo_pool_order Hout)).
Defined.

(** * Capacity hysteresis *)
Definition Obs : Type := timestamp * Z * Z * Q.
Definition obs_ratio (o : Obs) : Q := o.2.
Definition obs_fits (o : Obs) : bool :=
  negb (int8_max <? o.1.1.2) && negb (int8_max <? o.1.2).
Fixpoint observe_all (poolID : string) (obs : list Obs) (t : gmap string WorkspaceCapacityState)
    : option (gmap string WorkspaceCapacityState) :=
  match obs with
  | [] => Some t
  | (now, free, cap, ratio) :: obs' =>
      '(_, t') ← ObserveWorkspaceCapacity now poolID free cap ratio t;
      observe_all poolID obs' t'
  end.
(** Outside the open band between the two thresholds. *)
Definition decisive (r : Q) : bool := Qle_bool r ratio_close || Qle_bool ratio_open r.
(** The gate after a sequence of ratios: the last decisive one closes or opens it. *)
Fixpoint gate_after (g : bool) (rs : list Q) : bool :=
  match rs with
  | [] => g
  | r :: rs' => gate_after (if decisive r then Qle_bool r ratio_close else g) rs'
  end.
(** A pool without a row is closed, except that a first observation opens it at or
    above the open threshold. *)
Definition gate_of (t : gmap string WorkspaceCapacityState) (poolID : string) : bool :=
  match t !! poolID with Some row => wcs_CreditGated row | None => true end.
Definition auth_of (t : gmap string WorkspaceCapacityState) (poolID : string) : bool :=
  match t !! poolID with Some row => wcs_StorageAuthorized row | None => false end.

Lemma thresholds r : Qle_bool r ratio_close = true → Qle_bool ratio_open r = false.
Proof.
  intros Hr. apply Qle_bool_iff in Hr. apply not_true_is_false. intros Ho%Qle_bool_iff.
  assert (Qle ratio_open ratio_close) as H by (eapply Qle_trans; eauto). by vm_compute in H.
Qed.
Lemma observe_spec now poolID free cap ratio t :
  (int8_max <? free) || (int8_max <? cap) = false →
  ∃ row t', ObserveWorkspaceCapacity now poolID free cap ratio t = Some (row, t') ∧
    t' = <[poolID := row]> t ∧
    wcs_CreditGated row = (if decisive ratio then Qle_bool ratio ratio_close else gate_of t poolID) ∧
    wcs_Warning row = negb (Qle_bool ratio_open ratio) ∧
    wcs_StorageAuthorized row = auth_of t poolID ∧ wcs_FreeRatio row = ratio.
Proof.
  intros Hfit. unfold ObserveWorkspaceCapacity, decisive, gate_of, auth_of. rewrite Hfit.
  destruct (t !! poolID) as [old|]; do 2 eexists; split_and!; try done; simpl;
    destruct (Qle_bool ratio ratio_close) eqn:Hc; simpl;
    rewrite ?(thresholds _ Hc); try done; by destruct (Qle_bool ratio_open ratio).
Qed.

Lemma gate_after_app g l1 l2 : gate_after g (l1 ++ l2) = gate_after (gate_after g l1) l2.
Proof. revert g. induction l1 as [|r l1 IH]; intros g; simpl; [done|apply IH]. Qed.
Lemma gate_after_band g rs : forallb (λ r, negb (decisive r)) rs = true → gate_after g rs = g.
Proof.
  induction rs as [|r rs IH]; simpl; [done|].
  intros [Hr%negb_true_iff Hrs]%andb_prop. rewrite Hr. auto.
Qed.
Lemma observe_all_spec poolID obs t :
  forallb obs_fits obs = true →
  ∃ t', observe_all poolID obs t = Some t' ∧
    gate_of t' poolID = gate_after (gate_of t poolID) (obs_ratio <$> obs) ∧
    auth_of t' poolID = auth_of t poolID ∧ (∀ q, q ≠ poolID → t' !! q = t !! q).
Proof.
  revert t. induction obs as [|[[[now free] cap] ratio] obs IH]; intros t Hfit; simpl; [eauto|].
  simpl in Hfit. apply andb_prop in Hfit as [[Hf%negb_true_iff Hc%negb_true_iff]%andb_prop Hfit].
  destruct (observe_spec now poolID free cap ratio t) as (row & t1 & -> & -> & Hg & _ & Ha & _).
  { simpl in *. by rewrite Hf, Hc. }
  simpl. destruct (IH (<[poolID:=row]> t) Hfit) as (t' & -> & Hg' & Ha' & Ho). exists t'.
  unfold gate_of, auth_of in Hg', Ha'. rewrite lookup_insert_eq in Hg', Ha'.
  split_and!; [done| | |].
  - unfold gate_of at 1. rewrite Hg', Hg. done.
  - unfold auth_of at 1. by rewrite Ha', Ha.
  - intros q Hq. by rewrite Ho, lookup_insert_ne.
Qed.

(** The capacity gate is a hysteresis that survives any sequence of reports:
    the observations are all accepted when they fit a bigint, and afterwards the
    gate is what the last report outside the 20-25 percent band decided (closed at or
    below 20 percent, open at or above 25), the reports inside the band changing
    nothing; a pool never reported outside the band stays closed. Storage
    authorization and the rows of other pools are not touched. *)
Theorem capacity_hysteresis poolID before r0 band t :
  forallb obs_fits before = true → obs_fits r0 = true → forallb obs_fits band = true →
  decisive (obs_ratio r0) = true → forallb (λ o, negb (decisive (obs_ratio o))) band = true →
  (∃ t', observe_all poolID (before ++ r0 :: band) t = Some t' ∧
     gate_of t' poolID = Qle_bool (obs_ratio r0) ratio_close ∧
     auth_of t' poolID = auth_of t poolID ∧ (∀ q, q ≠ poolID → t' !! q = t !! q)) ∧
  (∃ t', observe_all poolID band t = Some t' ∧ gate_of t' poolID = gate_of t poolID).
Proof.
  intros Hb Hr Hband Hd Hin.
  assert (forallb (λ r, negb (decisive r)) (obs_ratio <$> band) = true) as Hin'.
  { clear -Hin. induction band as [|o band IH]; simpl in *; [done|].
    apply andb_prop in Hin as [-> Hin]. by apply IH. }
  split.
  - destruct (observe_all_spec poolID (before ++ r0 :: band) t) as (t' & H1 & H2 & H3 & H4).
    { rewrite forallb_app. simpl. by rewrite Hb, Hr, Hband. }
    exists t'. split_and!; try done.
    rewrite H2, fmap_app, gate_after_app. simpl. rewrite Hd. by apply gate_after_band.
  - destruct (observe_all_spec poolID band t Hband) as (t' & H1 & H2 & _).
    exists t'. split; [done|]. rewrite H2. by apply gate_after_band.
Qed.
Lemma capacity_hysteresis_witness :
  ∃ t', observe_all "pool" [(1, 90, 100, 9#10); (2, 15, 100, 3#20); (3, 22, 100, 11#50)] ∅ = Some t' ∧
    gate_of t' "pool" = true.
Proof.
  destruct (proj1 (capacity_hysteresis "pool" [(1, 90, 100, 9#10)] (2, 15, 100, 3#20)
    [(3, 22, 100, 11#50)] ∅ eq_refl eq_refl eq_refl eq_refl eq_refl)) as (t' & H1 & H2 & _).
  exists t'. split; [exact H1|]. rewrite H2. vm_compute. reflexivity.
Defined.

(** * Sends and teardown *)

(** A send that registered with the wait group and has not called [Done]. *)
Definition in_flight (pc : send_pc) : bool :=
  match pc with PRegistered | PLocked | PSending | PUnlocked => true | _ => false end.
Definition holds_mu (pc : send_pc) : bool :=
  match pc with PLocked | PSending => true | _ => false end.
Definition flights (pcs : gmap nat send_pc) : nat := size (filter (λ x, in_flight x.2 = true) pcs).

Record send_inv (s : send_state) : Prop := {
  si_wg : ss_wg s = flights (ss_pcs s);
  si_mu : ∀ i pc, ss_pcs s !! i = Some pc → (holds_mu pc = true ↔ ss_sendMu s = Some i);
  si_mu_dom : ∀ i, ss_sendMu s = Some i → is_Some (ss_pcs s !! i);
  si_closing : ss_handler s ≠ HServing → ss_closed s = true;
  si_returned : ss_handler s = HReturned → ss_wg s = 0%nat }.


Lemma flights_fresh (pcs : gmap nat send_pc) i pc :
  pcs !! i = None → flights (<[i := pc]> pcs) = (flights pcs + Nat.b2n (in_flight pc))%nat.
Proof.
  intros Hm. unfold flights. destruct (in_flight pc) eqn:Hpc; simpl.
  - rewrite map_filter_insert_True by done. rewrite map_size_insert_None; [lia|].
    apply map_lookup_filter_None. by left.
  - rewrite map_filter_insert_False by (simpl; congruence). rewrite delete_id by done. lia.
Qed.
Lemma flights_insert (pcs : gmap nat send_pc) i pc old :
  pcs !! i = Some old →
  (flights (<[i := pc]> pcs) + Nat.b2n (in_flight old) = flights pcs + Nat.b2n (in_flight pc))%nat.
Proof.
  intros Hi. rewrite <- (insert_delete_id pcs i old Hi) at 2.
  rewrite <- (insert_delete_eq pcs i pc), !flights_fresh by apply lookup_delete_eq. lia.
Qed.

Lemma send_inv_init : send_inv send_init.
Proof. constructor; simpl; try done; intros i pc H; by rewrite lookup_empty in H. Qed.

(** One thread moves from [old] to [pc]. *)
Lemma send_inv_move c wg mu pcs h i old pc mu' wg' :
  send_inv (mkSend c wg mu pcs h) → pcs !! i = Some old →
  (wg' + Nat.b2n (in_flight old) = wg + Nat.b2n (in_flight pc))%nat →
  (holds_mu pc = true ↔ mu' = Some i) →
  (mu' ≠ mu → mu = None ∨ mu = Some i) → (mu' = mu ∨ mu' = None ∨ mu' = Some i) →
  (h = HReturned → wg' = 0%nat) →
  send_inv (mkSend c wg' mu' (<[i := pc]> pcs) h).
Proof.
  intros [Hwg Hmu Hdom Hcl Hret] Hi Hw Hh Hch Hmu' Hret'; simpl in *. constructor; simpl; try done.
  - pose proof (flights_insert pcs i pc old Hi). lia.
  - intros j pcj [[<- <-]|[Hne Hj]]%lookup_insert_Some; [done|].
    rewrite (Hmu j pcj Hj). split; intros He.
    + destruct (decide (mu' = mu)) as [->|Hd]; [done|]. destruct (Hch Hd); congruence.
    + destruct Hmu' as [->|[->| ->]]; [done|done|]. congruence.
  - intros j ->. destruct (decide (i = j)) as [->|Hne].
    + by rewrite lookup_insert_eq.
    + rewrite lookup_insert_ne by done. apply Hdom.
      destruct Hmu' as [<-|[?|?]]; congruence.
Qed.
Lemma send_step_inv s s' : send_step s s' → send_inv s → send_inv s'.
Proof.
  intros Hst Hinv. pose proof Hinv as [Hwg Hmu Hdom Hcl Hret].
  destruct Hst as [c wg mu pcs h i Hi|wg mu pcs h i Hi|wg mu pcs h i Hi|c wg pcs h i Hi
    |wg pcs h i Hi|wg pcs h i Hi|c wg pcs h i Hi|c wg mu pcs h i Hi|c wg mu pcs h|c wg mu pcs
    |c mu pcs]; simpl in *.
  - constructor; simpl; try done.
    + rewrite flights_fresh by done. simpl. lia.
    + intros j pcj [[<- <-]|[Hne Hj]]%lookup_insert_Some; [|by apply Hmu]. simpl.
      split; [done|]. intros Hm. destruct (Hdom _ Hm). congruence.
    + intros j Hj. destruct (Hdom j Hj) as [x Hx].
      rewrite lookup_insert_ne by congruence. eauto.
  - eapply send_inv_move; [exact Hinv|exact Hi|simpl; lia| |tauto|tauto|done].
    by rewrite <- (Hmu i _ Hi).
  - eapply send_inv_move; [exact Hinv|exact Hi|simpl; lia| |tauto|tauto|].
    + by rewrite <- (Hmu i _ Hi).
    + intros ->. by specialize (Hcl ltac:(done)).
  - eapply send_inv_move; [exact Hinv|exact Hi|simpl; lia|done|tauto|tauto|done].
  - eapply send_inv_move; [exact Hinv|exact Hi|simpl; lia|done|tauto|tauto|done].
  - eapply send_inv_move; [exact Hinv|exact Hi|simpl; lia|done|tauto|tauto|done].
  - eapply send_inv_move; [exact Hinv|exact Hi|simpl; lia|done|tauto|tauto|done].
  - eapply send_inv_move; [exact Hinv|exact Hi|simpl; lia| |tauto|tauto|].
    + by rewrite <- (Hmu i _ Hi).
    + intros ->. by specialize (Hret eq_refl).
  - constructor; done.
  - constructor; simpl; try done.
  - constructor; simpl; try done. intros. by apply Hcl.
Qed.
Lemma send_reach_inv s s' : rtc send_step s s' → send_inv s → send_inv s'.
Proof. induction 1; eauto using send_step_inv. Qed.

(** A thread inside [stream.Send]. *)
Definition sending (s : send_state) (i : nat) : Prop := ss_pcs s !! i = Some PSending.

Lemma in_flight_wg s i pc :
  send_inv s → ss_pcs s !! i = Some pc → in_flight pc = true → ss_wg s ≠ 0%nat.
Proof.
  intros [Hwg _ _ _ _] Hi Hf. rewrite Hwg. unfold flights. rewrite map_size_ne_0_lookup.
  exists i, pc. by apply map_lookup_filter_Some.
Qed.

(** In every interleaving of concurrent sends, fencing and stream teardown: at
    most one thread is inside [stream.Send]; once the handler has returned (and the
    response writer is closed) no thread is inside it or can enter it; and the
    teardown never hangs: while the handler waits and sends are still registered,
    one of them can take a step that is not a new call, so the wait group drains. *)
Theorem send_teardown_safe s :
  rtc send_step send_init s →
  (∀ i j, sending s i → sending s j → i = j) ∧
  (ss_handler s = HReturned → ∀ s' i, rtc send_step s s' → ¬ sending s' i) ∧
  (ss_handler s = HClosing →
     (∃ s', send_step s s' ∧ ss_handler s' = HReturned) ∨
     (∃ s' i pc pc', send_step s s' ∧ ss_pcs s !! i = Some pc ∧ in_flight pc = true ∧
        ss_pcs s' !! i = Some pc' ∧ pc' ≠ pc ∧ ss_handler s' = HClosing)).
Proof.
  intros Hr. pose proof (send_reach_inv _ _ Hr send_inv_init) as Hinv. split_and!.
  - intros i j Hi Hj. apply (si_mu s Hinv) in Hi as [Hi _], Hj as [Hj _].
    specialize (Hi eq_refl). specialize (Hj eq_refl). congruence.
  - intros Hret s' i Hs' Hi. pose proof (send_reach_inv _ _ Hs' Hinv) as Hinv'.
    eapply (in_flight_wg s' i PSending Hinv' Hi eq_refl). apply (si_returned s' Hinv').
    clear -Hs' Hret. induction Hs' as [|x y z Hxy _ IH]; [done|]. apply IH.
    destruct Hxy; simpl in *; congruence.
  - intros Hc. pose proof Hinv as [Hwg Hmu Hdom Hcl Hret].
    destruct s as [c wg mu pcs h]; simpl in *. subst h.
    rewrite Hcl in * by done. clear Hcl Hret.
    destruct wg as [|wg]; [left; eexists; split; [constructor|done]|right].
    destruct mu as [i|].
    + destruct (Hdom i eq_refl) as [pc Hi]. pose proof (proj2 (Hmu i pc Hi) eq_refl) as Hh.
      destruct pc; try done.
      * do 4 eexists. split_and!; [by apply step_recheck_closed|done|done|apply lookup_insert_eq|done|done].
      * do 4 eexists. split_and!; [by apply step_sent|done|done|apply lookup_insert_eq|done|done].
    + assert (flights pcs ≠ 0%nat) as (i & pc & Hi)%map_size_ne_0_lookup by lia.
      apply map_lookup_filter_Some in Hi as [Hi Hf]; simpl in Hf.
      destruct (Hmu i pc Hi) as [Hh _]. destruct pc; try done; try (by specialize (Hh eq_refl)).
      * do 4 eexists. split_and!; [by apply step_lock|done|done|apply lookup_insert_eq|done|done].
      * do 4 eexists. split_and!; [by apply step_done|done|done|apply lookup_insert_eq|done|done].
Qed.
(** A send inside the stream while the teardown waits for it. *)
Definition demo_closing : send_state := mkSend true 1 (Some 7%nat) {[ 7%nat := PSending ]} HClosing.
Lemma send_teardown_safe_witness :
  (∃ s', send_step demo_closing s' ∧ ss_handler s' = HReturned) ∨
  (∃ s' i pc pc', send_step demo_closing s' ∧ ss_pcs demo_closing !! i = Some pc ∧ in_flight pc = true ∧
     ss_pcs s' !! i = Some pc' ∧ pc' ≠ pc ∧ ss_handler s' = HClosing).
Proof.
  refine (proj2 (proj2 (send_teardown_safe demo_closing _)) eq_refl). unfold send_init.
  eapply rtc_l; [apply (step_call _ _ _ _ _ 7%nat); reflexivity|].
  eapply rtc_l; [apply (step_register _ _ _ _ 7%nat); reflexivity|].
  eapply rtc_l; [apply (step_lock _ _ _ _ 7%nat); reflexivity|].
  eapply rtc_l; [apply (step_recheck_open _ _ _ 7%nat); reflexivity|].
  eapply rtc_l; [apply step_teardown|]. apply rtc_refl.
Defined.
