(* ===== verification/Workflow.v ===== *)
(** The workflow contract (control-plane/internal/workflow): the canonical spec
    (store.go) and the validator that runs at reconcile and at attempt resolution
    (graph.go).

    Go maps are [gmap]s; a [json.RawMessage] field of the spec is its text, one found
    inside a decoded document is the decoded value. A loop over a map runs in the
    order of [map_to_list]: Go's order is unspecified, and only the choice of the
    error reported among several depends on it. Errors keep the format string of
    [fmt.Errorf] and its arguments; the path prefix of a nested message is not
    rendered. The JSON Schema compiler is third-party code: it
    is the parameter [jsonschema_compiles]. *)
From S2P Require Import Prelude Json Duration.
From Stdlib Require Import Ascii.

(** * Errors *)
Inductive gerror := Errorf (format : string) (args : list garg)
with garg := GI (i : Z) | GS (s : string) | GE (e : gerror).
Notation check := (sum gerror) (only parsing).
(** [if err := m; err != nil { return fmt.Errorf(format, args..., err) }]. *)
Definition wrap {A} (format : string) (args : list garg) (m : gerror + A) : gerror + A :=
  match m with inl e => inl (Errorf format (args ++ [GE e])) | inr a => inr a end.
Definition json_error : gerror := Errorf "json: cannot unmarshal" [].
Definition unmarshal {A} (o : option A) (e : gerror) : gerror + A :=
  match o with Some a => inr a | None => inl e end.

(** * The canonical spec (workflow/store.go) *)
Record CanonicalLocalizedText := { lt_EN : string; lt_PT : string }.
Definition incomplete (t : CanonicalLocalizedText) : bool :=
  String.eqb (lt_EN t) EmptyString || String.eqb (lt_PT t) EmptyString.
Record CanonicalResultValuePresentation := { rv_Value : string; rv_Label : CanonicalLocalizedText }.
Record CanonicalResultFieldPresentation := {
  rf_Path : list string; rf_Label : CanonicalLocalizedText;
  rf_Options : list CanonicalResultValuePresentation }.
Record CanonicalResultOutcomePresentation := {
  ro_Outcome : string; ro_Summary : CanonicalLocalizedText }.
Record CanonicalResultPresentation := {
  rp_Outcomes : list CanonicalResultOutcomePresentation;
  rp_Fields : list CanonicalResultFieldPresentation }.
Record CanonicalHumanGateFieldPresentation := {
  hf_Key : string; hf_Label : CanonicalLocalizedText; hf_Options : list CanonicalLocalizedText }.
Record CanonicalHumanGatePresentation := {
  hp_Outcomes : list CanonicalLocalizedText; hp_Fields : list CanonicalHumanGateFieldPresentation }.
Record CanonicalHumanGate := {
  hg_Type : string; hg_Title : CanonicalLocalizedText; hg_Description : CanonicalLocalizedText;
  hg_ResponseSchema : string; hg_Presentation : CanonicalHumanGatePresentation }.
Record CanonicalNode := mkNode {
  cn_Key : string; cn_Label : CanonicalLocalizedText; cn_Kind : string; cn_Prompt : string;
  cn_ModelRef : string; cn_Skills : list string; cn_Capabilities : list string;
  cn_WorkspaceTools : bool; cn_Timeout : string; cn_Outcomes : list string;
  cn_OutputSchema : option string;
  cn_ResultPresentation : option CanonicalResultPresentation;
  cn_HumanGate : option CanonicalHumanGate }.
Record CanonicalEdge := { ce_From : string; ce_Outcome : string; ce_To : string }.
Record CanonicalTerminalOutcome := { ct_Node : string; ct_Outcome : string }.
Record CanonicalGraph := mkGraph {
  cg_EntryNode : string; cg_MaxTransitions : Z; cg_Nodes : list CanonicalNode;
  cg_Edges : list CanonicalEdge; cg_TerminalOutcomes : list CanonicalTerminalOutcome }.
Record CanonicalSkill := { sk_Name : string; sk_Version : string; sk_Digest : string }.
Record CanonicalCapability := {
  cc_Tool : string; cc_MaxEffectClass : string; cc_Actions : list string }.
Record CanonicalTrigger := { tr_Name : string; tr_BindingKey : string }.
Record CanonicalSource := { so_Type : string; so_TriggerBindings : list CanonicalTrigger }.
Record CanonicalPresentation := {
  pr_WorkflowTitle : string; pr_PersonaName : string; pr_PersonaAvatar : string; pr_Locale : string }.
Record CanonicalSpec := mkSpec {
  cs_Key : string; cs_ScopeIdentityKey : string; cs_Source : CanonicalSource;
  cs_Skills : list CanonicalSkill; cs_RequestedCapabilities : list CanonicalCapability;
  cs_DefaultModelRef : string; cs_Graph : CanonicalGraph; cs_ValueModelRef : string;
  cs_Presentation : CanonicalPresentation; cs_PoolRef : string }.

Definition NodeAgentTask : string := "agent_task".
Definition NodeHumanGate : string := "human_gate".

(** * Bytes and struct decoding *)

(** [bytes.TrimSpace] and [strings.TrimSpace]: the runes of [unicode.IsSpace] are cut
    off both ends of the UTF-8 text. Every rune is at least a byte, so the length is
    enough fuel. *)
Definition space_runes : list Z :=
  [9; 10; 11; 12; 13; 32; 133; 160; 5760; 8192; 8193; 8194; 8195; 8196; 8197; 8198; 8199; 8200; 8201; 8202;
   8232; 8233; 8239; 8287; 12288].
Fixpoint strip_any (ps : list string) (s : string) : option string :=
  match ps with
  | [] => None
  | p :: ps' => match strip_prefix p s with Some s' => Some s' | None => strip_any ps' s end
  end.
Fixpoint trim_prefixes (fuel : nat) (ps : list string) (s : string) : string :=
  match fuel with
  | O => s
  | S fuel' => match strip_any ps s with Some s' => trim_prefixes fuel' ps s' | None => s end
  end.
Fixpoint rev_onto (s acc : string) : string :=
  match s with
  | EmptyString => acc
  | String c s' => rev_onto s' (String c acc)
  end.
Definition reverse_bytes (s : string) : string := rev_onto s EmptyString.
Definition trim_left (s : string) : string := trim_prefixes (String.length s) (utf8 <$> space_runes) s.
Definition trim_right (s : string) : string :=
  reverse_bytes (trim_prefixes (String.length s) ((reverse_bytes ∘ utf8) <$> space_runes) (reverse_bytes s)).
Definition TrimSpace (s : string) : string := trim_right (trim_left s).
Example trim_unicode : TrimSpace (utf8 160 +:+ " a b" +:+ utf8 8195 +:+ " ")%string = "a b".
Proof. reflexivity. Qed.
Definition blank_schema (trimmed : string) : bool :=
  String.eqb trimmed EmptyString || String.eqb trimmed "{}".

(** The members of a document decoded into a struct: [null] leaves it zero. *)
Definition struct_members (v : json) : option (list (string * json)) := unmarshal_map v.
(** Fields of type string, map[string]json.RawMessage, *bool and []json.RawMessage. *)
Definition string_field (name : string) (l : list (string * json)) : option string :=
  foldl (λ acc v, s ← acc; match v with JStr t => Some t | JNull => Some s | _ => None end)
    (Some EmptyString) (field_values name l).
Definition map_field (name : string) (l : list (string * json)) : option (list (string * json)) :=
  foldl (λ acc v, m ← acc; match v with JObj l' => Some (m ++ l') | JNull => Some [] | _ => None end)
    (Some []) (field_values name l).
Definition boolptr_field (name : string) (l : list (string * json)) : option (option bool) :=
  foldl (λ acc v, _ ← acc; match v with JBool b => Some (Some b) | JNull => Some None | _ => None end)
    (Some None) (field_values name l).
Definition array_field (name : string) (l : list (string * json)) : option (list json) :=
  foldl (λ acc v, _ ← acc; match v with JArr l' => Some l' | JNull => Some [] | _ => None end)
    (Some []) (field_values name l).

(** * Human-gate response schemas and their presentation *)
Definition validateLocalizedLabels (labels : list CanonicalLocalizedText) (path : string) : check () :=
  range_check (λ i label, fail_if (incomplete label)
    (Errorf "%s[%d] requires en and pt text" [GS path; GI i])) 0 labels.

Definition responseSchemaProperties (raw : string) : check (list (string * json)) :=
  let trimmed := TrimSpace raw in
  if blank_schema trimmed then inr []
  else unmarshal (v ← parse_json trimmed; l ← struct_members v; map_field "properties" l)
         (Errorf "read response-schema properties: %w" [GE json_error]).

Definition dashboard_keywords : list string :=
  ["$comment"; "$id"; "$schema"; "additionalProperties"; "default"; "deprecated"; "description";
   "examples"; "properties"; "readOnly"; "required"; "title"; "type"; "writeOnly"].
Definition property_keywords : list string :=
  ["$comment"; "$id"; "$schema"; "default"; "deprecated"; "description"; "enum"; "examples";
   "readOnly"; "title"; "type"; "writeOnly"].
Definition property_types : list string :=
  ["string"; "boolean"; "number"; "integer"; "object"; "array"].

Definition validateDashboardResponseProperty (key : string) (raw : json) : check () :=
  property ← unmarshal (unmarshal_map raw) (Errorf "property %q must be a JSON object" [GS key]);
  _ ← range_check (λ _ keyword, fail_if (negb (bool_decide (keyword ∈ property_keywords)))
        (Errorf "property %q keyword %q is not supported by the v1 Dashboard form"
           [GS key; GS keyword])) 0 (map_keys property);
  match map_get "enum" property with
  | Some enum =>
      match unmarshal_array enum with
      | Some (_ :: _) => inr ()
      | _ => inl (Errorf "property %q enum must contain at least one value" [GS key])
      end
  | None =>
      propertyType ← unmarshal (v ← map_get "type" property; unmarshal_string v)
        (Errorf "property %q must declare a direct type or enum" [GS key]);
      fail_if (negb (bool_decide (propertyType ∈ property_types)))
        (Errorf "property %q type %q is not supported by the v1 Dashboard form"
           [GS key; GS propertyType])
  end.

Definition validateDashboardResponseSchema (raw : string) : check () :=
  let trimmed := TrimSpace raw in
  if blank_schema trimmed then inr ()
  else
    schema ← unmarshal (v ← parse_json trimmed; unmarshal_map v)
      (Errorf "must be a JSON object: %w" [GE json_error]);
    _ ← range_check (λ _ keyword, fail_if (negb (bool_decide (keyword ∈ dashboard_keywords)))
          (Errorf "keyword %q is not supported by the v1 Dashboard form" [GS keyword]))
          0 (map_keys schema);
    _ ← fail_if (negb (bool_decide ((v ← map_get "type" schema; unmarshal_string v) = Some "object")))
          (Errorf "must declare type object for the v1 Dashboard form" []);
    properties ← responseSchemaProperties raw;
    required ← match map_get "required" schema with
               | Some value =>
                   unmarshal (l ← unmarshal_array value; unmarshal_strings l)
                     (Errorf "required must be an array of property names" [])
               | None => inr []
               end;
    _ ← range_check (λ _ key, fail_if (bool_decide (map_get key properties = None))
          (Errorf "required property %q must be declared directly in properties" [GS key])) 0 required;
    _ ← match map_get "additionalProperties" schema with
        | Some value =>
            unmarshal (unmarshal_bool value)
              (Errorf "additionalProperties must be a boolean for the v1 Dashboard form" [])
        | None => inr false
        end;
    range_check (λ _ key,
      match map_get key properties with
      | Some property => validateDashboardResponseProperty key property
      | None => inr ()
      end) 0 (map_keys properties).

Definition indexHumanGateFields (fields : list CanonicalHumanGateFieldPresentation)
    : check (gmap string CanonicalHumanGateFieldPresentation) :=
  range_loop (λ i field indexed,
    _ ← fail_if (String.eqb (hf_Key field) EmptyString)
          (Errorf "fields[%d].key is required" [GI i]);
    _ ← fail_if (bool_decide (is_Some (indexed !! hf_Key field)))
          (Errorf "field %q is duplicated" [GS (hf_Key field)]);
    _ ← fail_if (incomplete (hf_Label field))
          (Errorf "field %q label requires en and pt text" [GS (hf_Key field)]);
    inr (<[hf_Key field := field]> indexed)) 0 fields ∅.

Definition validateHumanGateFieldOptions (key : string) (raw : json)
    (labels : list CanonicalLocalizedText) : check () :=
  enum ← unmarshal (l ← struct_members raw; array_field "enum" l)
    (Errorf "responseSchema property %q must be an object" [GS key]);
  _ ← fail_if (negb (length labels =? length enum)%nat)
        (Errorf "field %q options must provide one localized label for each enum value" [GS key]);
  validateLocalizedLabels labels "field %q options".

Definition validateHumanGatePresentation (node : CanonicalNode) (gate : CanonicalHumanGate) : check () :=
  let presentation := hg_Presentation gate in
  _ ← fail_if (negb (length (hp_Outcomes presentation) =? length (cn_Outcomes node))%nat)
        (Errorf "outcomes must provide one localized label for each declared outcome" []);
  _ ← validateLocalizedLabels (hp_Outcomes presentation) "outcomes";
  properties ← responseSchemaProperties (hg_ResponseSchema gate);
  fields ← indexHumanGateFields (hp_Fields presentation);
  _ ← range_check (λ _ key, fail_if (bool_decide (map_get key properties = None))
        (Errorf "field %q does not exist in responseSchema.properties" [GS key]))
        0 (map_to_list fields).*1;
  range_check (λ _ key,
    match fields !! key with
    | None => inl (Errorf "responseSchema property %q requires localized presentation" [GS key])
    | Some field =>
        match map_get key properties with
        | Some property => validateHumanGateFieldOptions key property (hf_Options field)
        | None => inr ()
        end
    end) 0 (sort_strings (map_keys properties)).

(** * Result presentations of terminal nodes *)
Definition unsupported_keywords : list string := ["$ref"; "allOf"; "anyOf"; "if"; "not"; "oneOf"].
Definition no_keywords (what : string) (path : string) (schema : list (string * json)) : check () :=
  range_check (λ _ keyword, fail_if (bool_decide (is_Some (map_get keyword schema)))
    (Errorf what [GS path; GS keyword])) 0 unsupported_keywords.
(** [_ = json.Unmarshal(schema["type"], &schemaType)] from the zero value. *)
Definition direct_type (schema : list (string * json)) : string :=
  default EmptyString (v ← map_get "type" schema; unmarshal_string v).

Definition effectiveResultSchema (raw : json) (path : string) : check (json * string * bool) :=
  schema ← unmarshal (unmarshal_map raw) (Errorf "%s schema must be an object" [GS path]);
  _ ← no_keywords "%s schema keyword %q is not supported by resultPresentation" path schema;
  if bool_decide (is_Some (map_get "enum" schema)) then inr (raw, direct_type schema, true)
  else
    '(effective, schema) ←
      (if String.eqb (direct_type schema) "array" then
         items ← unmarshal (map_get "items" schema)
           (Errorf "%s array schema must declare direct items" [GS path]);
         itemSchema ← unmarshal (unmarshal_map items)
           (Errorf "%s item schema must be an object" [GS path]);
         _ ← no_keywords "%s item schema keyword %q is not supported by resultPresentation"
               path itemSchema;
         inr (items, itemSchema)
       else inr (raw, schema) : check (json * list (string * json)));
    if bool_decide (is_Some (map_get "enum" schema)) then inr (effective, direct_type schema, true)
    else if String.eqb (direct_type schema) EmptyString
    then inl (Errorf "%s schema must declare a direct type or enum" [GS path])
    else inr (effective, direct_type schema, false).

Definition resultPathLabel (path : list string) : string :=
  ("/" +:+ String.concat "/" path)%string.

Definition validatePropertylessResultRoot (schemaType : string) (additionalProperties : option bool)
    (path : string) : check () :=
  _ ← fail_if (negb (String.eqb schemaType "object"))
        (Errorf "%s requires a direct object schema" [GS path]);
  fail_if (bool_decide (additionalProperties ≠ Some false))
    (Errorf "%s root schema must set additionalProperties to false" [GS path]).

(** The map from declared property paths to their schemas. The source keys it by the
    JSON encoding of the path, an injective name for the path itself. [out] is the
    shared map the recursion fills; the fuel bounds the nesting of [raw]. *)
Fixpoint collectResultSchemaFields (fuel : nat) (raw : json) (prefix : list string)
    (out : gmap (list string) json) (path : string) : check (gmap (list string) json) :=
  match fuel with
  | O => inl (Errorf "fuel" [])
  | S fuel =>
      '(schemaType, properties, additional) ←
        unmarshal (l ← struct_members raw; t ← string_field "type" l;
                   p ← map_field "properties" l; a ← boolptr_field "additionalProperties" l;
                   Some (t, p, a))
          (Errorf "%s schema must be an object: %w" [GS path; GE json_error]);
      if bool_decide (map_keys properties = []) then
        _ ← fail_if (bool_decide (prefix ≠ []))
              (Errorf "%s object path %q must declare direct properties"
                 [GS path; GS (resultPathLabel prefix)]);
        _ ← validatePropertylessResultRoot schemaType additional path;
        inr out
      else
        _ ← fail_if (negb (String.eqb schemaType "object"))
              (Errorf "%s requires a direct object schema" [GS path]);
        _ ← fail_if (bool_decide (additional ≠ Some false))
              (Errorf "%s schema with presented properties must set additionalProperties to false"
                 [GS path]);
        range_loop (λ _ key out,
          match map_get key properties with
          | None => inr out
          | Some fieldSchema =>
              let fieldPath := prefix ++ [key] in
              let out := <[fieldPath := fieldSchema]> out in
              '(effective, effectiveType, hasEnum) ← effectiveResultSchema fieldSchema path;
              if negb hasEnum && String.eqb effectiveType "object"
              then collectResultSchemaFields fuel effective fieldPath out path
              else inr out
          end) 0 (sort_strings (map_keys properties)) out
  end.

Definition equalJSON (a : string) (b : json) : bool :=
  match parse_json a with Some av => any_equal av b | None => false end.

(** The first unmatched value equal to the option is taken out. *)
Fixpoint match_value (v : string) (values : list json) : option (list json) :=
  match values with
  | [] => None
  | x :: values' =>
      if equalJSON v x then Some values' else (x ::.) <$> match_value v values'
  end.
Definition validateResultOptions (enumRaw : option json)
    (options : list CanonicalResultValuePresentation) (path : string) : check () :=
  match enumRaw with
  | None =>
      fail_if (bool_decide (options ≠ [])) (Errorf "%s options require a schema enum" [GS path])
  | Some enum =>
      match unmarshal_array enum with
      | None | Some [] => inl (Errorf "%s enum must contain at least one value" [GS path])
      | Some values =>
          _ ← fail_if (negb (length options =? length values)%nat)
                (Errorf "%s options must localize every enum value exactly once" [GS path]);
          _ ← range_loop (λ i option unmatched,
                _ ← fail_if (incomplete (rv_Label option))
                      (Errorf "%s options[%d] label requires en and pt text" [GS path; GI i]);
                unmarshal (match_value (rv_Value option) unmatched)
                  (Errorf "%s options[%d] value is not an unmatched schema enum value"
                     [GS path; GI i])) 0 options values;
          inr ()
      end
  end.

Definition result_types : list string := ["string"; "boolean"; "number"; "integer"; "object"].
Definition validateResultFieldSchema (raw : json) (options : list CanonicalResultValuePresentation)
    (path : string) : check () :=
  '(effective, effectiveType, hasEnum) ← effectiveResultSchema raw path;
  schema ← unmarshal (unmarshal_map effective) (Errorf "%s schema must be an object" [GS path]);
  _ ← validateResultOptions (map_get "enum" schema) options path;
  if (hasEnum : bool) then inr ()
  else fail_if (negb (bool_decide (effectiveType ∈ result_types)))
         (Errorf "%s type %q is not supported by resultPresentation" [GS path; GS effectiveType]).

Definition indexResultPresentations (fields : list CanonicalResultFieldPresentation)
    (schemas : gmap (list string) json) (path : string) : check (gset (list string)) :=
  range_loop (λ i field indexed,
    let key := rf_Path field in
    _ ← fail_if (bool_decide (key = [])) (Errorf "%s[%d].path is required" [GS path; GI i]);
    _ ← range_check (λ _ segment, fail_if (String.eqb segment EmptyString)
          (Errorf "%s[%d].path cannot contain an empty segment" [GS path; GI i])) 0 key;
    _ ← fail_if (bool_decide (key ∈ indexed))
          (Errorf "%s path %q is duplicated" [GS path; GS (resultPathLabel key)]);
    _ ← fail_if (incomplete (rf_Label field))
          (Errorf "%s path %q label requires en and pt text" [GS path; GS (resultPathLabel key)]);
    schema ← unmarshal (schemas !! key)
      (Errorf "%s path %q does not exist in the result schema" [GS path; GS (resultPathLabel key)]);
    _ ← validateResultFieldSchema schema (rf_Options field) path;
    inr ({[key]} ∪ indexed)) 0 fields ∅.

Definition validateResultFields (raw : string) (fields : list CanonicalResultFieldPresentation)
    (path : string) : check () :=
  let trimmed := TrimSpace raw in
  if blank_schema trimmed then
    fail_if (bool_decide (fields ≠ []))
      (Errorf "%s cannot declare fields without a direct object schema" [GS path])
  else
    v ← unmarshal (parse_json trimmed)
          (Errorf "%s schema must be an object: %w" [GS path; GE json_error]);
    schemas ← collectResultSchemaFields (S (json_depth v)) v [] ∅ path;
    indexed ← indexResultPresentations fields schemas path;
    _ ← fail_if (negb (size indexed =? size schemas)%nat)
          (Errorf "%s must present every declared schema property exactly once" [GS path]);
    range_check (λ _ key, fail_if (negb (bool_decide (key ∈ indexed)))
      (Errorf "%s schema property path %q requires localized presentation"
         [GS path; GS (resultPathLabel key)])) 0 (map_to_list schemas).*1.

Definition validateResultOutcomePresentations (nodeKey : string) (terminal : gset string)
    (presentations : list CanonicalResultOutcomePresentation) : check () :=
  _ ← fail_if (negb (length presentations =? size terminal)%nat)
        (Errorf "graph node %q resultPresentation.outcomes must cover each terminal outcome exactly once"
           [GS nodeKey]);
  _ ← range_loop (λ i presentation seen,
        let outcome := ro_Outcome presentation in
        _ ← fail_if (negb (bool_decide (outcome ∈ terminal)))
              (Errorf "graph node %q resultPresentation.outcomes[%d] references non-terminal outcome %q"
                 [GS nodeKey; GI i; GS outcome]);
        _ ← fail_if (bool_decide (outcome ∈ seen))
              (Errorf "graph node %q resultPresentation outcome %q is duplicated"
                 [GS nodeKey; GS outcome]);
        _ ← fail_if (incomplete (ro_Summary presentation))
              (Errorf "graph node %q resultPresentation outcome %q summary requires en and pt text"
                 [GS nodeKey; GS outcome]);
        inr ({[outcome]} ∪ seen)) 0 presentations (∅ : gset string);
  inr ().

(** [terminalByNode]. *)
Definition terminals_by_node (terminals : list CanonicalTerminalOutcome) : gmap string (gset string) :=
  foldl (λ m t, <[ct_Node t := {[ct_Outcome t]} ∪ default ∅ (m !! ct_Node t)]> m) ∅ terminals.

Definition validateResultPresentations (nodes : gmap string CanonicalNode)
    (terminals : list CanonicalTerminalOutcome) : check () :=
  let terminalByNode := terminals_by_node terminals in
  range_check (λ _ key,
    match nodes !! key with
    | None => inr ()
    | Some node =>
        let terminalOutcomes := default ∅ (terminalByNode !! key) in
        if bool_decide (terminalOutcomes = ∅) then
          fail_if (bool_decide (is_Some (cn_ResultPresentation node)))
            (Errorf "graph node %q resultPresentation is only allowed on a terminal node" [GS key])
        else
          match cn_ResultPresentation node with
          | None =>
              inl (Errorf "graph node %q requires resultPresentation for its terminal outcomes" [GS key])
          | Some rp =>
              _ ← validateResultOutcomePresentations key terminalOutcomes (rp_Outcomes rp);
              let schema :=
                if String.eqb (cn_Kind node) NodeHumanGate
                then match cn_HumanGate node with Some g => hg_ResponseSchema g | None => EmptyString end
                else default EmptyString (cn_OutputSchema node) in
              validateResultFields schema (rp_Fields rp) "graph node %q resultPresentation.fields"
          end
    end) 0 (sort_strings (map_to_list nodes).*1).

(** * Reachability: [walk] *)

(** The inner loop: the unseen successors are marked and queued. *)
Fixpoint walk_next (l : list string) (seen : gset string) (queue : list string)
    : gset string * list string :=
  match l with
  | [] => (seen, queue)
  | next :: l' =>
      if bool_decide (next ∈ seen) then walk_next l' seen queue
      else walk_next l' ({[next]} ∪ seen) (queue ++ [next])
  end.
Fixpoint walk_loop (fuel : nat) (adj : gmap string (list string)) (seen : gset string)
    (queue : list string) : gset string :=
  match fuel with
  | O => seen
  | S fuel =>
      match queue with
      | [] => seen
      | cur :: queue =>
          let '(seen, queue) := walk_next (default [] (adj !! cur)) seen queue in
          walk_loop fuel adj seen queue
      end
  end.
(** A node enters the queue at most once, and only the start or a successor does. *)
Definition walk_fuel (adj : gmap string (list string)) : nat :=
  S (length (concat (map_to_list adj).*2)).
Definition walk (start : string) (adj : gmap string (list string)) : gset string :=
  walk_loop (walk_fuel adj) adj {[start]} [start].

(** * ValidateGraph *)
Section validate.
(** [compiler.AddResource] and [compiler.Compile] succeed on the schema text. *)
Context (jsonschema_compiles : string → bool).

Definition compileSchema (raw : string) : check () :=
  if blank_schema (TrimSpace raw) then inr ()
  else fail_if (negb (jsonschema_compiles raw)) (Errorf "compile JSON Schema: %w" []).

(** A list of names without duplicates, each of them declared. *)
Definition check_names (dup undeclared : string) (i : Z) (declared : gset string)
    (names : list string) : check () :=
  _ ← range_loop (λ _ name seen,
        _ ← fail_if (bool_decide (name ∈ seen)) (Errorf dup [GI i; GS name]);
        _ ← fail_if (negb (bool_decide (name ∈ declared))) (Errorf undeclared [GI i; GS name]);
        inr ({[name]} ∪ seen)) 0 names (∅ : gset string);
  inr ().

Definition check_agent_task (spec : CanonicalSpec) (skills caps : gset string) (i : Z)
    (n : CanonicalNode) : check () :=
  _ ← fail_if (String.eqb (cn_Prompt n) EmptyString)
        (Errorf "graph.nodes[%d].prompt is required for agent_task" [GI i]);
  _ ← fail_if (bool_decide (is_Some (cn_HumanGate n)))
        (Errorf "graph.nodes[%d].humanGate is forbidden for agent_task" [GI i]);
  _ ← fail_if (String.eqb (cn_ModelRef n) EmptyString && String.eqb (cs_DefaultModelRef spec) EmptyString)
        (Errorf "graph.nodes[%d] requires modelRef or spec.defaultModelRef" [GI i]);
  _ ← check_names "graph.nodes[%d].skill %q is duplicated"
        "graph.nodes[%d].skill %q is not declared by the workflow" i skills (cn_Skills n);
  _ ← check_names "graph.nodes[%d].capability %q is duplicated"
        "graph.nodes[%d].capability %q is not requested by the workflow" i caps (cn_Capabilities n);
  _ ← (if String.eqb (cn_Timeout n) EmptyString then inr ()
       else match ParseDuration (cn_Timeout n) with
            | Some timeout => fail_if (timeout <=? 0)
                (Errorf "graph.nodes[%d].timeout must be a positive duration" [GI i])
            | None => inl (Errorf "graph.nodes[%d].timeout must be a positive duration" [GI i])
            end);
  wrap "graph.nodes[%d].outputSchema: %w" [GI i]
    (compileSchema (default EmptyString (cn_OutputSchema n))).

Definition gate_types : list string := ["information"; "decision"; "approval"; "artifact"].
Definition check_human_gate (i : Z) (n : CanonicalNode) : check () :=
  _ ← fail_if (negb (String.eqb (cn_Prompt n) EmptyString) || negb (String.eqb (cn_ModelRef n) EmptyString)
               || bool_decide (cn_Skills n ≠ []) || bool_decide (cn_Capabilities n ≠ [])
               || cn_WorkspaceTools n)
        (Errorf "graph.nodes[%d] human_gate cannot declare agent prompt/model/skills/capabilities/workspaceTools" [GI i]);
  _ ← fail_if (bool_decide (is_Some (cn_OutputSchema n)))
        (Errorf "graph.nodes[%d].outputSchema is forbidden for human_gate; use humanGate.responseSchema" [GI i]);
  match cn_HumanGate n with
  | None => inl (Errorf "graph.nodes[%d].humanGate is required for human_gate" [GI i])
  | Some gate =>
      _ ← fail_if (negb (bool_decide (hg_Type gate ∈ gate_types)))
            (Errorf "graph.nodes[%d].humanGate.type %q is invalid" [GI i; GS (hg_Type gate)]);
      _ ← fail_if (incomplete (hg_Title gate))
            (Errorf "graph.nodes[%d].humanGate.title requires en and pt text" [GI i]);
      _ ← fail_if (incomplete (hg_Description gate))
            (Errorf "graph.nodes[%d].humanGate.description requires en and pt text" [GI i]);
      _ ← wrap "graph.nodes[%d].humanGate.responseSchema: %w" [GI i]
            (compileSchema (hg_ResponseSchema gate));
      _ ← wrap "graph.nodes[%d].humanGate.responseSchema: %w" [GI i]
            (validateDashboardResponseSchema (hg_ResponseSchema gate));
      wrap "graph.nodes[%d].humanGate.presentation: %w" [GI i]
        (validateHumanGatePresentation n gate)
  end.

(** The declared outcomes of a node: nonempty names without duplicates. *)
Definition check_outcomes (i : Z) (n : CanonicalNode) : check (gset string) :=
  _ ← fail_if (bool_decide (cn_Outcomes n = []))
        (Errorf "graph.nodes[%d].outcomes must not be empty" [GI i]);
  range_loop (λ j name out,
    _ ← fail_if (String.eqb name EmptyString)
          (Errorf "graph.nodes[%d].outcomes[%d] is empty" [GI i; GI j]);
    _ ← fail_if (bool_decide (name ∈ out))
          (Errorf "graph.nodes[%d].outcome %q is duplicated" [GI i; GS name]);
    inr ({[name]} ∪ out)) 0 (cn_Outcomes n) ∅.

Definition node_tables : Type := gmap string CanonicalNode * gmap string (gset string).
Definition check_node (spec : CanonicalSpec) (skills caps : gset string) (i : Z)
    (n : CanonicalNode) (acc : node_tables) : check node_tables :=
  let '(nodes, outcomes) := acc in
  _ ← fail_if (String.eqb (cn_Key n) EmptyString) (Errorf "graph.nodes[%d].key is required" [GI i]);
  _ ← fail_if (bool_decide (is_Some (nodes !! cn_Key n)))
        (Errorf "graph.nodes[%d].key %q is duplicated" [GI i; GS (cn_Key n)]);
  _ ← fail_if (incomplete (cn_Label n))
        (Errorf "graph.nodes[%d].label requires en and pt text" [GI i]);
  out ← check_outcomes i n;
  _ ← (if String.eqb (cn_Kind n) NodeAgentTask then check_agent_task spec skills caps i n
       else if String.eqb (cn_Kind n) NodeHumanGate then check_human_gate i n
       else inl (Errorf "graph.nodes[%d].kind %q is unknown" [GI i; GS (cn_Kind n)]));
  inr (<[cn_Key n := n]> nodes, <[cn_Key n := out]> outcomes).

Definition requested_caps (spec : CanonicalSpec) : check (gset string) :=
  range_loop (λ _ c caps,
    _ ← fail_if (String.eqb (cc_Tool c) "complete_step")
          (Errorf "requested capability complete_step is reserved by the platform" []);
    inr ({[cc_Tool c]} ∪ caps)) 0 (cs_RequestedCapabilities spec) ∅.

(** Routes of (node, outcome), successors and predecessors. *)
Record route_tables := mkRoutes {
  rt_routes : gmap (string * string) string;
  rt_adj : gmap string (list string);
  rt_reverse : gmap string (list string) }.
Definition append_to (k v : string) (m : gmap string (list string)) : gmap string (list string) :=
  <[k := default [] (m !! k) ++ [v]]> m.
Definition check_edge (nodes : gmap string CanonicalNode) (outcomes : gmap string (gset string))
    (i : Z) (e : CanonicalEdge) (acc : route_tables) : check route_tables :=
  _ ← fail_if (bool_decide (nodes !! ce_From e = None))
        (Errorf "graph.edges[%d].from %q does not reference a node" [GI i; GS (ce_From e)]);
  _ ← fail_if (bool_decide (nodes !! ce_To e = None))
        (Errorf "graph.edges[%d].to %q does not reference a node" [GI i; GS (ce_To e)]);
  _ ← fail_if (negb (bool_decide (ce_Outcome e ∈ default ∅ (outcomes !! ce_From e))))
        (Errorf "graph.edges[%d] outcome %q is not declared by node %q"
           [GI i; GS (ce_Outcome e); GS (ce_From e)]);
  match rt_routes acc !! (ce_From e, ce_Outcome e) with
  | Some previous =>
      inl (Errorf "graph outcome %s/%s has multiple routes (%s and %s)"
             [GS (ce_From e); GS (ce_Outcome e); GS previous; GS (ce_To e)])
  | None =>
      inr (mkRoutes (<[(ce_From e, ce_Outcome e) := ce_To e]> (rt_routes acc))
             (append_to (ce_From e) (ce_To e) (rt_adj acc))
             (append_to (ce_To e) (ce_From e) (rt_reverse acc)))
  end.

Definition check_terminal (nodes : gmap string CanonicalNode) (outcomes : gmap string (gset string))
    (i : Z) (t : CanonicalTerminalOutcome) (acc : gmap (string * string) string * gset string)
    : check (gmap (string * string) string * gset string) :=
  let '(routes, terminalNodes) := acc in
  _ ← fail_if (bool_decide (nodes !! ct_Node t = None))
        (Errorf "graph.terminalOutcomes[%d].node %q does not reference a node" [GI i; GS (ct_Node t)]);
  _ ← fail_if (negb (bool_decide (ct_Outcome t ∈ default ∅ (outcomes !! ct_Node t))))
        (Errorf "graph.terminalOutcomes[%d] outcome %q is not declared by node %q"
           [GI i; GS (ct_Outcome t); GS (ct_Node t)]);
  match routes !! (ct_Node t, ct_Outcome t) with
  | Some previous =>
      inl (Errorf "graph outcome %s/%s is both terminal and routed to %s"
             [GS (ct_Node t); GS (ct_Outcome t); GS previous])
  | None =>
      inr (<[(ct_Node t, ct_Outcome t) := "$terminal"]> routes, {[ct_Node t]} ∪ terminalNodes)
  end.

Definition ValidateGraph (spec : CanonicalSpec) : check () :=
  let g := cs_Graph spec in
  _ ← fail_if (String.eqb (cg_EntryNode g) EmptyString) (Errorf "graph.entryNode is required" []);
  _ ← fail_if ((cg_MaxTransitions g <? 1) || (10000 <? cg_MaxTransitions g))
        (Errorf "graph.maxTransitions must be between 1 and 10000" []);
  _ ← fail_if (bool_decide (cg_Nodes g = [])) (Errorf "graph.nodes must not be empty" []);
  _ ← fail_if (bool_decide (cg_TerminalOutcomes g = []))
        (Errorf "graph.terminalOutcomes must not be empty" []);
  let skills : gset string := list_to_set (sk_Name <$> cs_Skills spec) in
  caps ← requested_caps spec;
  '(nodes, outcomes) ← range_loop (check_node spec skills caps) 0 (cg_Nodes g) (∅, ∅);
  _ ← fail_if (bool_decide (nodes !! cg_EntryNode g = None))
        (Errorf "graph.entryNode %q does not reference a node" [GS (cg_EntryNode g)]);
  tables ← range_loop (check_edge nodes outcomes) 0 (cg_Edges g) (mkRoutes ∅ ∅ ∅);
  '(routes, terminalNodes) ←
    range_loop (check_terminal nodes outcomes) 0 (cg_TerminalOutcomes g) (rt_routes tables, ∅);
  _ ← validateResultPresentations nodes (cg_TerminalOutcomes g);
  _ ← range_check (λ _ nd, range_check (λ _ outcome,
        fail_if (bool_decide (routes !! (nd.1, outcome) = None))
          (Errorf "graph outcome %s/%s has no edge or terminal declaration" [GS nd.1; GS outcome]))
        0 (elements (nd.2 : gset string))) 0 (map_to_list outcomes);
  let reachable := walk (cg_EntryNode g) (rt_adj tables) in
  _ ← range_check (λ _ key, fail_if (negb (bool_decide (key ∈ reachable)))
        (Errorf "graph node %q is unreachable from entryNode" [GS key])) 0 (map_to_list nodes).*1;
  let canTerminate : gset string :=
    ⋃ ((λ key, walk key (rt_reverse tables)) <$> elements terminalNodes) in
  range_check (λ _ key, fail_if (negb (bool_decide (key ∈ canTerminate)))
    (Errorf "graph node %q has no path to a terminal outcome" [GS key])) 0 (map_to_list nodes).*1.
End validate.
