(* ===== verification/WorkflowFacts.v ===== *)
(** Theorems about the workflow validator modelled in [Workflow]: reachability, the
    graph contract that an accepted spec satisfies and a rejected one violates, and
    the presentation rules of terminal nodes. *)
From S2P Require Import Prelude Json Duration Workflow.
From Stdlib Require Import Ascii.

(** * Reachability *)
Definition adj_edge (adj : gmap string (list string)) (a b : string) : Prop :=
  b ∈ default [] (adj !! a).
Definition targets (adj : gmap string (list string)) : gset string :=
  list_to_set (concat (map_to_list adj).*2).

Lemma adj_edge_targets adj a b : adj_edge adj a b → b ∈ targets adj.
Proof.
  unfold adj_edge, targets. intros H. rewrite elem_of_list_to_set, list_elem_of_In, in_concat.
  destruct (adj !! a) as [l|] eqn:Ha; simpl in H; [|by apply not_elem_of_nil in H].
  exists l. rewrite <- !list_elem_of_In. split; [|done].
  apply list_elem_of_fmap. exists (a, l). split; [done|]. by apply elem_of_map_to_list.
Qed.

Lemma walk_next_spec l seen queue seen' queue' :
  walk_next l seen queue = (seen', queue') →
  ∃ new, queue' = queue ++ new ∧ seen' = list_to_set new ∪ seen ∧ NoDup new ∧
    (∀ x, x ∈ new → x ∈ l ∧ x ∉ seen) ∧ (∀ x, x ∈ l → x ∈ seen').
Proof.
  revert seen queue. induction l as [|y l IH]; intros seen queue; simpl.
  { intros [= <- <-]. exists []. rewrite app_nil_r. split_and!; [done|set_solver|constructor|set_solver..]. }
  case_bool_decide as Hy.
  - intros (new & -> & -> & Hnd & Hnew & Hl)%IH. exists new. split_and!; try done; set_solver.
  - intros (new & -> & -> & Hnd & Hnew & Hl)%IH. exists (y :: new).
    rewrite <- app_assoc. simpl. split_and!; [done|set_solver| |set_solver|set_solver].
    constructor; [|done]. intros Hin. destruct (Hnew y Hin). set_solver.
Qed.

(** Enough fuel: queued nodes plus successors not seen yet. *)
Lemma walk_next_measure adj cur seen queue seen' queue' :
  walk_next (default [] (adj !! cur)) seen queue = (seen', queue') →
  (length queue' + size (targets adj ∖ seen') ≤ length queue + size (targets adj ∖ seen))%nat.
Proof.
  intros (new & -> & -> & Hnd & Hnew & _)%walk_next_spec. rewrite length_app.
  assert (targets adj ∖ seen = list_to_set new ∪ targets adj ∖ (list_to_set new ∪ seen)) as ->.
  { apply set_eq. intros x. rewrite elem_of_union, !elem_of_difference, elem_of_union, elem_of_list_to_set.
    split.
    - intros [??]. destruct (decide (x ∈ new)); [by left|right]. tauto.
    - intros [Hx|[? ?]]; [|tauto]. destruct (Hnew x Hx) as [Hin ?]. split; [|done].
      eapply adj_edge_targets. exact Hin. }
  rewrite (size_union (list_to_set new)) by set_solver. rewrite size_list_to_set by done. lia.
Qed.

Lemma closed_reach adj start (seen : gset string) x :
  (∀ x, x ∈ seen → rtc (adj_edge adj) start x) →
  (∀ x, x ∈ seen → x ∈ ([] : list string) ∨ ∀ y, adj_edge adj x y → y ∈ seen) → start ∈ seen →
  x ∈ seen ↔ rtc (adj_edge adj) start x.
Proof.
  intros Hr Hcl Hst. split; [apply Hr|]. clear Hr. intros Hx. revert Hst.
  induction Hx as [|a b c Hab _ IHx]; [done|]. intros Ha. apply IHx.
  destruct (Hcl a Ha) as [?%not_elem_of_nil|Hn]; [done|]. by apply Hn.
Qed.
Lemma walk_loop_spec fuel adj start seen queue :
  (length queue + size (targets adj ∖ seen) ≤ fuel)%nat →
  (∀ x, x ∈ seen → rtc (adj_edge adj) start x) →
  (∀ x, x ∈ queue → x ∈ seen) →
  (∀ x, x ∈ seen → x ∈ queue ∨ ∀ y, adj_edge adj x y → y ∈ seen) → start ∈ seen →
  ∀ x, x ∈ walk_loop fuel adj seen queue ↔ rtc (adj_edge adj) start x.
Proof.
  revert seen queue. induction fuel as [|fuel IH]; intros seen queue Hf Hr Hq Hcl Hst x; simpl.
  - destruct queue; simpl in Hf; [|lia]. by apply closed_reach.
  - destruct queue as [|cur queue]; [by apply closed_reach|].
    destruct (walk_next _ seen queue) as [seen' queue'] eqn:Hn.
    pose proof (walk_next_measure _ _ _ _ _ _ Hn) as Hm.
    apply walk_next_spec in Hn as (new & -> & -> & Hnd & Hnew & Hl).
    apply IH; clear IH.
    + simpl in Hf. lia.
    + intros y [Hy%elem_of_list_to_set|Hy]%elem_of_union; [|by apply Hr].
      eapply rtc_r; [apply Hr, (Hq cur); left|]. by apply Hnew.
    + intros y [Hy|Hy]%elem_of_app; [|set_solver]. apply elem_of_union_r, Hq. by right.
    + intros y [Hy%elem_of_list_to_set|Hy]%elem_of_union; [set_solver|].
      destruct (Hcl y Hy) as [[->|Hy']%elem_of_cons|Hy'].
      * right. intros z Hz. by apply Hl.
      * left. apply elem_of_app. by left.
      * right. intros z Hz. apply elem_of_union_r. by apply Hy'.
    + set_solver.
Qed.
Lemma size_list_to_set_le (l : list string) : (size (list_to_set l : gset string) ≤ length l)%nat.
Proof.
  induction l as [|y l IH]; [done|]. cbn [list_to_set length].
  rewrite (size_union_alt {[y]}), size_singleton.
  pose proof (subseteq_size (list_to_set l ∖ {[y]} : gset string) (list_to_set l) ltac:(set_solver)).
  lia.
Qed.
Lemma walk_start start adj fuel x :
  (walk_fuel adj ≤ fuel)%nat →
  x ∈ walk_loop fuel adj {[start]} [start] ↔ rtc (adj_edge adj) start x.
Proof.
  intros Hfuel. apply walk_loop_spec.
  - etrans; [|exact Hfuel]. simpl. unfold walk_fuel. apply le_n_S.
    trans (size (targets adj)); [apply subseteq_size; set_solver|].
    apply size_list_to_set_le.
  - intros y ->%elem_of_singleton. constructor.
  - intros y ->%list_elem_of_singleton. set_solver.
  - intros y ->%elem_of_singleton. left. left.
  - set_solver.
Qed.

Lemma rtc_mono {A} (R1 R2 : A → A → Prop) x y :
  (∀ a b, R1 a b → R2 a b) → rtc R1 x y → rtc R2 x y.
Proof. intros H. induction 1; econstructor; eauto. Qed.
Lemma rtc_proper_iff {A} (R1 R2 : A → A → Prop) x y :
  (∀ a b, R1 a b ↔ R2 a b) → rtc R1 x y ↔ rtc R2 x y.
Proof. intros H. split; apply rtc_mono; naive_solver. Qed.
Lemma rtc_flip_iff {A} (R : A → A → Prop) x y : rtc (flip R) x y ↔ rtc R y x.
Proof.
  split; (induction 1 as [|a b c Hab _ IH]; [constructor|]); eapply rtc_r; eauto.
Qed.

Lemma walk_spec start adj x : x ∈ walk start adj ↔ rtc (adj_edge adj) start x.
Proof. by apply walk_start. Qed.

(** * Loops that collect a set of keys *)
Section seen_loop.
Context {A K : Type} `{Countable K} (key : A → K) (P : A → Prop)
  (f : Z → A → gset K → gerror + gset K).
Context (Hf : ∀ i a seen s', f i a seen = inr s' ↔
  key a ∉ seen ∧ P a ∧ s' = {[key a]} ∪ seen).
Lemma seen_loop i l seen s' :
  range_loop f i l seen = inr s' ↔
    NoDup (key <$> l) ∧ Forall P l ∧ (∀ a, a ∈ l → key a ∉ seen) ∧
    s' = list_to_set (key <$> l) ∪ seen.
Proof.
  revert i seen. induction l as [|a l IH]; intros i seen.
  - simpl. rewrite (left_id_L ∅ (∪)). split; [|naive_solver].
    intros [= ->]. split_and!; [constructor|constructor|set_solver|done].
  - cbn [range_loop fmap list_fmap list_to_set]. rewrite result_bind_inr.
    rewrite NoDup_cons, Forall_cons. setoid_rewrite Hf. setoid_rewrite IH. split.
    + intros (s1 & (Ha & HP & ->) & Hnd & HF & Hs & ->). split_and!; try done.
      * intros (b & Hb & Hin)%list_elem_of_fmap. specialize (Hs b Hin). set_solver.
      * intros b [->|Hb]%elem_of_cons; [done|]. specialize (Hs b Hb). set_solver.
      * set_solver.
    + intros ([Ha Hnd] & [HP HF] & Hs & ->). eexists. split_and!; try done.
      * apply Hs. left.
      * intros b Hb. rewrite elem_of_union, elem_of_singleton. intros [He|Hin].
        -- apply Ha. rewrite <- He. by apply list_elem_of_fmap_2.
        -- eapply Hs; [|exact Hin]. by right.
      * set_solver.
Qed.
End seen_loop.

Lemma wrap_inr {A} f a (m : gerror + A) x : wrap f a m = inr x ↔ m = inr x.
Proof. unfold wrap. destruct m; naive_solver. Qed.
Lemma unmarshal_inr {A} (o : option A) e x : unmarshal o e = inr x ↔ o = Some x.
Proof. unfold unmarshal. destruct o; naive_solver. Qed.
Lemma bind_unit_inr {A} (m : gerror + ()) (k : () → gerror + A) x :
  (m ≫= k) = inr x ↔ m = inr () ∧ k () = inr x.
Proof. rewrite result_bind_inr. split; [intros ([] & ?)|]; naive_solver. Qed.
Lemma fail_bind_inr {A} b e (k : () → gerror + A) x :
  (fail_if b e ≫= k) = inr x ↔ b = false ∧ k () = inr x.
Proof. rewrite bind_unit_inr, fail_if_inr. done. Qed.
Lemma negb_bool_decide_false P `{Decision P} : negb (bool_decide P) = false ↔ P.
Proof. by rewrite negb_false_iff, bool_decide_eq_true. Qed.

(** * The contract of one node *)
Section graph.
Context (jsonschema_compiles : string → bool).

Definition schema_ok (raw : string) : Prop :=
  blank_schema (TrimSpace raw) = true ∨ jsonschema_compiles raw = true.
Lemma compileSchema_ok raw : compileSchema jsonschema_compiles raw = inr () ↔ schema_ok raw.
Proof.
  unfold compileSchema, schema_ok. destruct (blank_schema _); [naive_solver|].
  rewrite fail_if_inr, negb_false_iff. naive_solver.
Qed.

Definition names_ok (declared names : list string) : Prop :=
  NoDup names ∧ ∀ x, x ∈ names → x ∈ declared.
Lemma check_names_ok dup und i declared names :
  check_names dup und i (list_to_set declared) names = inr () ↔ names_ok declared names.
Proof.
  unfold check_names, names_ok. rewrite result_bind_inr. split.
  - intros (s' & Hl & _). apply (seen_loop (λ x, x) (λ x, x ∈ declared)) in Hl.
    + rewrite list_fmap_id, Forall_forall in Hl. naive_solver.
    + intros j a seen s1. rewrite !fail_bind_inr, bool_decide_eq_false, negb_bool_decide_false.
      rewrite elem_of_list_to_set. naive_solver.
  - intros [Hnd Hin]. eexists. split; [|done]. apply (seen_loop (λ x, x) (λ x, x ∈ declared)).
    + intros j a seen s1. rewrite !fail_bind_inr, bool_decide_eq_false, negb_bool_decide_false.
      rewrite elem_of_list_to_set. naive_solver.
    + rewrite list_fmap_id, Forall_forall. split_and!; try done.
Qed.

Definition timeout_ok (t : string) : Prop :=
  t = EmptyString ∨ ∃ d, ParseDuration t = Some d ∧ 0 < d.
Definition agent_task_ok (spec : CanonicalSpec) (n : CanonicalNode) : Prop :=
  cn_Prompt n ≠ EmptyString ∧ cn_HumanGate n = None ∧
  (cn_ModelRef n ≠ EmptyString ∨ cs_DefaultModelRef spec ≠ EmptyString) ∧
  names_ok (sk_Name <$> cs_Skills spec) (cn_Skills n) ∧
  names_ok (cc_Tool <$> cs_RequestedCapabilities spec) (cn_Capabilities n) ∧
  timeout_ok (cn_Timeout n) ∧ schema_ok (default EmptyString (cn_OutputSchema n)).
Lemma check_agent_task_ok spec i n :
  check_agent_task jsonschema_compiles spec (list_to_set (sk_Name <$> cs_Skills spec))
    (list_to_set (cc_Tool <$> cs_RequestedCapabilities spec)) i n = inr () ↔ agent_task_ok spec n.
Proof.
  unfold check_agent_task, agent_task_ok. rewrite !fail_bind_inr, !bind_unit_inr, wrap_inr.
  rewrite !check_names_ok, compileSchema_ok, String.eqb_neq, bool_decide_eq_false, eq_None_not_Some.
  rewrite andb_false_iff, !String.eqb_neq.
  assert ((if String.eqb (cn_Timeout n) EmptyString then inr ()
       else match ParseDuration (cn_Timeout n) with
            | Some timeout => fail_if (timeout <=? 0)
                (Errorf "graph.nodes[%d].timeout must be a positive duration" [GI i])
            | None => inl (Errorf "graph.nodes[%d].timeout must be a positive duration" [GI i])
            end) = inr () ↔ timeout_ok (cn_Timeout n)) as ->; [|tauto].
  unfold timeout_ok. destruct (String.eqb_spec (cn_Timeout n) EmptyString); [naive_solver|].
  destruct (ParseDuration _) as [d|]; [rewrite fail_if_inr, Z.leb_gt|]; naive_solver.
Qed.
Lemma check_human_gate_index i j n :
  check_human_gate jsonschema_compiles i n = inr () ↔ check_human_gate jsonschema_compiles j n = inr ().
Proof.
  unfold check_human_gate. destruct (cn_HumanGate n);
    rewrite !fail_bind_inr; [|naive_solver]. rewrite !bind_unit_inr, !wrap_inr. done.
Qed.

Definition human_gate_ok (n : CanonicalNode) : Prop :=
  check_human_gate jsonschema_compiles 0 n = inr ().

Definition outcomes_ok (l : list string) : Prop := l ≠ [] ∧ NoDup l ∧ EmptyString ∉ l.
Lemma check_outcomes_ok i n out :
  check_outcomes i n = inr out ↔ outcomes_ok (cn_Outcomes n) ∧ out = list_to_set (cn_Outcomes n).
Proof.
  unfold check_outcomes, outcomes_ok. rewrite fail_bind_inr, bool_decide_eq_false.
  rewrite (seen_loop (λ x, x) (λ x, x ≠ EmptyString)).
  - rewrite list_fmap_id, Forall_forall, (right_id_L ∅ (∪)). split; [|naive_solver].
    intros (? & ? & Hne & _ & ->). split_and!; try done. intros He. by apply (Hne _ He).
  - intros j a seen s'. rewrite !fail_bind_inr, String.eqb_neq, bool_decide_eq_false. naive_solver.
Qed.

Definition node_ok (spec : CanonicalSpec) (n : CanonicalNode) : Prop :=
  cn_Key n ≠ EmptyString ∧ incomplete (cn_Label n) = false ∧ outcomes_ok (cn_Outcomes n) ∧
  ((cn_Kind n = NodeAgentTask ∧ agent_task_ok spec n) ∨
   (cn_Kind n = NodeHumanGate ∧ human_gate_ok n)).
Lemma check_node_ok spec i n nodes outcomes r :
  check_node jsonschema_compiles spec (list_to_set (sk_Name <$> cs_Skills spec))
    (list_to_set (cc_Tool <$> cs_RequestedCapabilities spec)) i n (nodes, outcomes) = inr r ↔
  node_ok spec n ∧ nodes !! cn_Key n = None ∧
  r = (<[cn_Key n := n]> nodes, <[cn_Key n := list_to_set (cn_Outcomes n)]> outcomes).
Proof.
  unfold check_node, node_ok. rewrite !fail_bind_inr, String.eqb_neq, bool_decide_eq_false.
  rewrite <- eq_None_not_Some, result_bind_inr.
  assert ((if String.eqb (cn_Kind n) NodeAgentTask then
      check_agent_task jsonschema_compiles spec (list_to_set (sk_Name <$> cs_Skills spec))
        (list_to_set (cc_Tool <$> cs_RequestedCapabilities spec)) i n
    else if String.eqb (cn_Kind n) NodeHumanGate then check_human_gate jsonschema_compiles i n
    else inl (Errorf "graph.nodes[%d].kind %q is unknown" [GI i; GS (cn_Kind n)])) = inr () ↔
    (cn_Kind n = NodeAgentTask ∧ agent_task_ok spec n) ∨
    (cn_Kind n = NodeHumanGate ∧ human_gate_ok n)) as Hk.
  { destruct (String.eqb_spec (cn_Kind n) NodeAgentTask) as [Hk|Hk].
    - rewrite check_agent_task_ok, Hk. naive_solver.
    - destruct (String.eqb_spec (cn_Kind n) NodeHumanGate) as [Hk2|Hk2]; [|naive_solver].
      rewrite (check_human_gate_index i 0). unfold human_gate_ok. naive_solver. }
  split.
  - intros (? & ? & ? & out & [? ->]%check_outcomes_ok & Hb).
    apply bind_unit_inr in Hb as [Hb%Hk [= <-]]. tauto.
  - intros ((? & ? & ? & ?) & ? & ->). split_and!; try assumption. eexists.
    rewrite check_outcomes_ok. split; [done|]. apply bind_unit_inr. split; [by apply Hk|done].
Qed.

(** ** The node loop *)
Definition node_map (l : list CanonicalNode) : gmap string CanonicalNode :=
  list_to_map ((λ n, (cn_Key n, n)) <$> l).
Definition outcome_map (l : list CanonicalNode) : gmap string (gset string) :=
  list_to_map ((λ n, (cn_Key n, list_to_set (cn_Outcomes n))) <$> l).

Lemma node_loop spec i l nodes outcomes r :
  dom nodes = dom outcomes →
  range_loop (check_node jsonschema_compiles spec (list_to_set (sk_Name <$> cs_Skills spec))
    (list_to_set (cc_Tool <$> cs_RequestedCapabilities spec))) i l (nodes, outcomes) = inr r ↔
  Forall (node_ok spec) l ∧ NoDup (cn_Key <$> l) ∧ (∀ n, n ∈ l → nodes !! cn_Key n = None) ∧
  r = (node_map l ∪ nodes, outcome_map l ∪ outcomes).
Proof.
  revert i nodes outcomes. induction l as [|n l IH]; intros i nodes outcomes Hdom.
  { unfold node_map, outcome_map. simpl. rewrite !(left_id_L ∅ (∪)). split; [|naive_solver].
    intros [= <-]. split_and!; [constructor|constructor|set_solver|done]. }
  cbn [range_loop]. rewrite result_bind_inr, Forall_cons. cbn [fmap list_fmap]. rewrite NoDup_cons.
  assert (∀ a, a ∉ dom nodes → dom (<[a := n]> nodes) =
    dom (<[a := (list_to_set (cn_Outcomes n) : gset string)]> outcomes)) as Hdom'
    by (intros; rewrite !dom_insert_L; congruence).
  assert (nodes !! cn_Key n = None → cn_Key n ∉ cn_Key <$> l →
    (node_map l ∪ <[cn_Key n:=n]> nodes, outcome_map l ∪ <[cn_Key n:=list_to_set (cn_Outcomes n)]> outcomes)
    = (node_map (n :: l) ∪ nodes, outcome_map (n :: l) ∪ outcomes)) as Hmaps.
  { intros Hn Hk. unfold node_map, outcome_map. simpl. f_equal.
    - rewrite <- insert_union_r, insert_union_l; [done|]. apply not_elem_of_list_to_map_1.
      rewrite <- list_fmap_compose. exact Hk.
    - rewrite <- insert_union_r, insert_union_l; [done|]. apply not_elem_of_list_to_map_1.
      rewrite <- list_fmap_compose. exact Hk. }
  split.
  - intros (r1 & Hn & Hl). apply check_node_ok in Hn as (Hok & Hnone & ->).
    apply IH in Hl as (Hall & Hnd & Hfresh & ->); [|apply Hdom'; by apply not_elem_of_dom].
    assert (cn_Key n ∉ cn_Key <$> l) as Hk.
    { intros (m & Hm & Hin)%list_elem_of_fmap. specialize (Hfresh m Hin).
      rewrite Hm, lookup_insert_eq in Hfresh. done. }
    split_and!; try done; [|by apply Hmaps].
    intros m [->|Hm]%elem_of_cons; [done|]. specialize (Hfresh m Hm).
    by apply lookup_insert_None in Hfresh as [??].
  - intros ([Hok Hall] & [Hk Hnd] & Hfresh & ->). eexists. split.
    + apply check_node_ok. split_and!; [done|apply Hfresh; left|reflexivity].
    + assert (nodes !! cn_Key n = None) as Hnone by (apply Hfresh; left).
      apply IH; [apply Hdom'; by apply not_elem_of_dom|]. split_and!; try done.
      * intros m Hm. rewrite lookup_insert_ne; [apply Hfresh; by right|].
        intros He. apply Hk. rewrite He. by apply list_elem_of_fmap_2.
      * symmetry. by apply Hmaps.
Qed.

Lemma node_map_lookup l k n :
  NoDup (cn_Key <$> l) → node_map l !! k = Some n ↔ n ∈ l ∧ cn_Key n = k.
Proof.
  intros Hnd. unfold node_map. rewrite <- elem_of_list_to_map, list_elem_of_fmap.
  - split; [intros (m & [= -> ->] & ?); done|]. intros [? <-]. by exists n.
  - by rewrite <- list_fmap_compose.
Qed.
Lemma node_map_dom l k : is_Some (node_map l !! k) ↔ k ∈ cn_Key <$> l.
Proof.
  unfold node_map. rewrite <- elem_of_dom, dom_list_to_map_L, elem_of_list_to_set.
  by rewrite <- list_fmap_compose.
Qed.
Lemma outcome_map_lookup l k o :
  NoDup (cn_Key <$> l) →
  outcome_map l !! k = Some o ↔ ∃ n, n ∈ l ∧ cn_Key n = k ∧ o = list_to_set (cn_Outcomes n).
Proof.
  intros Hnd. unfold outcome_map. rewrite <- elem_of_list_to_map, list_elem_of_fmap.
  - split; [intros (m & [= -> ->] & ?); eauto|]. intros (n & ? & <- & ->). by exists n.
  - by rewrite <- list_fmap_compose.
Qed.

(** ** Routes *)
Definition declares (l : list CanonicalNode) (k o : string) : Prop :=
  ∃ n, n ∈ l ∧ cn_Key n = k ∧ o ∈ cn_Outcomes n.
Lemma outcome_map_declares l k o :
  NoDup (cn_Key <$> l) → o ∈ default ∅ (outcome_map l !! k) ↔ declares l k o.
Proof.
  intros Hnd. unfold declares. destruct (outcome_map l !! k) as [out|] eqn:Ho; simpl.
  - apply outcome_map_lookup in Ho as (n & Hn & Hk & ->); [|done]. rewrite elem_of_list_to_set.
    split; [by eauto|]. intros (m & Hm & Hmk & Hin).
    assert (node_map l !! k = Some n) as H1 by (by apply node_map_lookup).
    assert (node_map l !! k = Some m) as H2 by (by apply node_map_lookup). congruence.
  - split; [set_solver|]. intros (n & Hn & Hk & _).
    assert (outcome_map l !! k = Some (list_to_set (cn_Outcomes n))) by (apply outcome_map_lookup; eauto).
    congruence.
Qed.

Definition edge_key (e : CanonicalEdge) : string * string := (ce_From e, ce_Outcome e).
Definition terminal_key (t : CanonicalTerminalOutcome) : string * string := (ct_Node t, ct_Outcome t).
Definition edge_ok (l : list CanonicalNode) (e : CanonicalEdge) : Prop :=
  declares l (ce_From e) (ce_Outcome e) ∧ ce_To e ∈ cn_Key <$> l.
Definition terminal_ok (l : list CanonicalNode) (t : CanonicalTerminalOutcome) : Prop :=
  declares l (ct_Node t) (ct_Outcome t).

Definition add_edge (acc : route_tables) (e : CanonicalEdge) : route_tables :=
  mkRoutes (<[edge_key e := ce_To e]> (rt_routes acc))
    (append_to (ce_From e) (ce_To e) (rt_adj acc))
    (append_to (ce_To e) (ce_From e) (rt_reverse acc)).
Definition add_terminal (acc : gmap (string * string) string * gset string)
    (t : CanonicalTerminalOutcome) : gmap (string * string) string * gset string :=
  (<[terminal_key t := "$terminal"]> acc.1, {[ct_Node t]} ∪ acc.2).

Lemma declares_key l k o : declares l k o → k ∈ cn_Key <$> l.
Proof. intros (n & Hn & <- & _). by apply list_elem_of_fmap_2. Qed.
Lemma node_map_None l k : bool_decide (node_map l !! k = None) = false ↔ k ∈ cn_Key <$> l.
Proof. by rewrite bool_decide_eq_false, <- node_map_dom, not_eq_None_Some. Qed.

(** A loop that inserts fresh route keys. *)
Lemma check_edge_ok l i e acc acc' :
  NoDup (cn_Key <$> l) →
  check_edge (node_map l) (outcome_map l) i e acc = inr acc' ↔
  edge_ok l e ∧ rt_routes acc !! edge_key e = None ∧ acc' = add_edge acc e.
Proof.
  intros Hnd. unfold check_edge, edge_ok.
  rewrite !fail_bind_inr, !node_map_None, negb_bool_decide_false, outcome_map_declares by done.
  fold (edge_key e). destruct (rt_routes acc !! edge_key e); [naive_solver|].
  split; [intros (? & ? & ? & [= <-]); done|]. intros ((? & ?) & _ & ->).
  split_and!; try done. by eapply declares_key.
Qed.
Lemma check_terminal_ok l i t acc acc' :
  NoDup (cn_Key <$> l) →
  check_terminal (node_map l) (outcome_map l) i t acc = inr acc' ↔
  terminal_ok l t ∧ acc.1 !! terminal_key t = None ∧ acc' = add_terminal acc t.
Proof.
  intros Hnd. destruct acc as [routes terms]. unfold check_terminal, terminal_ok.
  rewrite !fail_bind_inr, !node_map_None, negb_bool_decide_false, outcome_map_declares by done.
  fold (terminal_key t). simpl. destruct (routes !! terminal_key t); [naive_solver|].
  split; [intros (? & ? & [= <-]); done|]. intros (? & _ & ->).
  split_and!; try done. by eapply declares_key.
Qed.

Section fresh_loop.
Context {A S K : Type} (key : A → K) (known : S → K → Prop) (P : A → Prop) (add : S → A → S)
  (f : Z → A → S → gerror + S).
Context (Hf : ∀ i a s s', f i a s = inr s' ↔ P a ∧ ¬ known s (key a) ∧ s' = add s a).
Context (Hadd : ∀ s a k, known (add s a) k ↔ k = key a ∨ known s k).
Lemma fresh_loop i l s s' :
  range_loop f i l s = inr s' ↔
  Forall P l ∧ NoDup (key <$> l) ∧ (∀ a, a ∈ l → ¬ known s (key a)) ∧ s' = foldl add s l.
Proof.
  revert i s. induction l as [|a l IH]; intros i s.
  { simpl. split; [intros [= ->]|naive_solver]. split_and!; [constructor|constructor|set_solver|done]. }
  cbn [range_loop fmap list_fmap foldl]. rewrite result_bind_inr, Forall_cons, NoDup_cons.
  setoid_rewrite Hf. setoid_rewrite IH. split.
  - intros (s1 & (HP & Hk & ->) & HF & Hnd & Hfresh & ->). split_and!; try done.
    + intros (b & Hb & Hin)%list_elem_of_fmap. apply (Hfresh b Hin), Hadd. by left.
    + intros b [->|Hb]%elem_of_cons; [done|]. intros Hkn. apply (Hfresh b Hb), Hadd. by right.
  - intros ([HP HF] & [Hk Hnd] & Hfresh & ->). eexists. split_and!; try done.
    + apply Hfresh. left.
    + intros b Hb [He|Hkn]%Hadd; [|eapply Hfresh; [|done]; by right].
      apply Hk. rewrite <- He. by apply list_elem_of_fmap_2.
Qed.
Lemma fresh_known l s k : known (foldl add s l) k ↔ k ∈ key <$> l ∨ known s k.
Proof.
  revert s. induction l as [|a l IH]; intros s; simpl.
  - rewrite elem_of_nil. tauto.
  - rewrite IH, Hadd, elem_of_cons. tauto.
Qed.
End fresh_loop.

Definition known_edge (t : route_tables) (k : string * string) : Prop := is_Some (rt_routes t !! k).
Definition known_terminal (t : gmap (string * string) string * gset string) (k : string * string)
    : Prop := is_Some (t.1 !! k).
Lemma known_add_edge t e k : known_edge (add_edge t e) k ↔ k = edge_key e ∨ known_edge t k.
Proof. unfold known_edge; simpl. rewrite lookup_insert_is_Some. destruct (decide (edge_key e = k)); naive_solver. Qed.
Lemma known_add_terminal t e k :
  known_terminal (add_terminal t e) k ↔ k = terminal_key e ∨ known_terminal t k.
Proof. unfold known_terminal; simpl. rewrite lookup_insert_is_Some. destruct (decide (terminal_key e = k)); naive_solver. Qed.

Lemma edge_loop l i es acc acc' :
  NoDup (cn_Key <$> l) →
  range_loop (check_edge (node_map l) (outcome_map l)) i es acc = inr acc' ↔
  Forall (edge_ok l) es ∧ NoDup (edge_key <$> es) ∧
  (∀ e, e ∈ es → ¬ known_edge acc (edge_key e)) ∧ acc' = foldl add_edge acc es.
Proof.
  intros Hnd. apply (fresh_loop edge_key known_edge); [|apply known_add_edge].
  intros j e s s'. rewrite check_edge_ok by done. unfold known_edge. by rewrite <- eq_None_not_Some.
Qed.
Lemma terminal_loop l i ts acc acc' :
  NoDup (cn_Key <$> l) →
  range_loop (check_terminal (node_map l) (outcome_map l)) i ts acc = inr acc' ↔
  Forall (terminal_ok l) ts ∧ NoDup (terminal_key <$> ts) ∧
  (∀ t, t ∈ ts → ¬ known_terminal acc (terminal_key t)) ∧ acc' = foldl add_terminal acc ts.
Proof.
  intros Hnd. apply (fresh_loop terminal_key known_terminal); [|apply known_add_terminal].
  intros j e s s'. rewrite check_terminal_ok by done. unfold known_terminal.
  by rewrite <- eq_None_not_Some.
Qed.

(** ** The successor relation of the graph *)
Definition graph_edge (es : list CanonicalEdge) (a b : string) : Prop :=
  ∃ e, e ∈ es ∧ ce_From e = a ∧ ce_To e = b.
Lemma append_to_edge k v m a b :
  adj_edge (append_to k v m) a b ↔ (a = k ∧ b = v) ∨ adj_edge m a b.
Proof.
  unfold adj_edge, append_to. destruct (decide (k = a)) as [->|Hne].
  - rewrite lookup_insert_eq. simpl. rewrite elem_of_app, list_elem_of_singleton. naive_solver.
  - rewrite lookup_insert_ne by done. naive_solver.
Qed.
Lemma add_edges_adj es acc a b :
  adj_edge (rt_adj (foldl add_edge acc es)) a b ↔ graph_edge es a b ∨ adj_edge (rt_adj acc) a b.
Proof.
  unfold graph_edge. revert acc. induction es as [|e es IH]; intros acc; simpl.
  - set_solver.
  - rewrite IH. simpl. rewrite append_to_edge. setoid_rewrite elem_of_cons. naive_solver.
Qed.
Lemma add_edges_reverse es acc a b :
  adj_edge (rt_reverse (foldl add_edge acc es)) a b ↔ graph_edge es b a ∨ adj_edge (rt_reverse acc) a b.
Proof.
  unfold graph_edge. revert acc. induction es as [|e es IH]; intros acc; simpl.
  - set_solver.
  - rewrite IH. simpl. rewrite append_to_edge. setoid_rewrite elem_of_cons. naive_solver.
Qed.
Lemma add_terminals_nodes ts acc k :
  k ∈ (foldl add_terminal acc ts).2 ↔ k ∈ ct_Node <$> ts ∨ k ∈ acc.2.
Proof.
  revert acc. induction ts as [|t ts IH]; intros acc; simpl.
  - rewrite elem_of_nil. tauto.
  - rewrite IH, elem_of_cons. simpl. set_solver.
Qed.

Lemma requested_caps_ok spec caps :
  requested_caps spec = inr caps ↔
  "complete_step" ∉ cc_Tool <$> cs_RequestedCapabilities spec ∧
  caps = list_to_set (cc_Tool <$> cs_RequestedCapabilities spec).
Proof.
  unfold requested_caps. generalize (cs_RequestedCapabilities spec). intros l.
  assert (∀ i acc, range_loop (λ _ c caps,
    _ ← fail_if (String.eqb (cc_Tool c) "complete_step")
          (Errorf "requested capability complete_step is reserved by the platform" []);
    inr ({[cc_Tool c]} ∪ caps)) i l acc = inr caps ↔
    "complete_step" ∉ cc_Tool <$> l ∧ caps = list_to_set (cc_Tool <$> l) ∪ acc) as H.
  { induction l as [|c l IH]; intros i acc; simpl.
    - rewrite (left_id_L ∅ (∪)), elem_of_nil. naive_solver.
    - rewrite result_bind_inr, elem_of_cons. setoid_rewrite fail_bind_inr.
      setoid_rewrite IH. setoid_rewrite String.eqb_neq. split.
      + intros (? & [? [= <-]] & ? & ->). split; [|set_solver].
        intros [Heq|Hin]; [by symmetry in Heq|done].
      + intros [Hn ->]. eexists. split_and!; [naive_solver|reflexivity|naive_solver|set_solver]. }
  rewrite H, (right_id_L ∅ (∪)). done.
Qed.

(** The contract an executable graph keeps, stated without the validator's tables:
    every declared outcome of every node is routed exactly once, to a node or to
    the end; every node can be reached and can still terminate. *)
Record graph_contract (spec : CanonicalSpec) : Prop := {
  gc_entry : cg_EntryNode (cs_Graph spec) ∈ cn_Key <$> cg_Nodes (cs_Graph spec);
  gc_limit : 1 ≤ cg_MaxTransitions (cs_Graph spec) ≤ 10000;
  gc_terminals : cg_TerminalOutcomes (cs_Graph spec) ≠ [];
  gc_reserved : "complete_step" ∉ cc_Tool <$> cs_RequestedCapabilities spec;
  gc_keys : NoDup (cn_Key <$> cg_Nodes (cs_Graph spec));
  gc_nodes : Forall (node_ok spec) (cg_Nodes (cs_Graph spec));
  gc_edges : Forall (edge_ok (cg_Nodes (cs_Graph spec))) (cg_Edges (cs_Graph spec));
  gc_terms : Forall (terminal_ok (cg_Nodes (cs_Graph spec))) (cg_TerminalOutcomes (cs_Graph spec));
  gc_unique : NoDup ((edge_key <$> cg_Edges (cs_Graph spec)) ++
                     (terminal_key <$> cg_TerminalOutcomes (cs_Graph spec)));
  gc_covered : ∀ k o, declares (cg_Nodes (cs_Graph spec)) k o →
    (k, o) ∈ (edge_key <$> cg_Edges (cs_Graph spec)) ++
             (terminal_key <$> cg_TerminalOutcomes (cs_Graph spec));
  gc_results : validateResultPresentations (node_map (cg_Nodes (cs_Graph spec)))
                 (cg_TerminalOutcomes (cs_Graph spec)) = inr ();
  gc_reachable : ∀ k, k ∈ cn_Key <$> cg_Nodes (cs_Graph spec) →
    rtc (graph_edge (cg_Edges (cs_Graph spec))) (cg_EntryNode (cs_Graph spec)) k;
  gc_terminates : ∀ k, k ∈ cn_Key <$> cg_Nodes (cs_Graph spec) →
    ∃ t, t ∈ cg_TerminalOutcomes (cs_Graph spec) ∧
      rtc (graph_edge (cg_Edges (cs_Graph spec))) k (ct_Node t) }.

(** The validator's tables after the loops. *)
Definition edge_tables (g : CanonicalGraph) : route_tables :=
  foldl add_edge (mkRoutes ∅ ∅ ∅) (cg_Edges g).
Definition terminal_tables (g : CanonicalGraph) : gmap (string * string) string * gset string :=
  foldl add_terminal (rt_routes (edge_tables g), ∅) (cg_TerminalOutcomes g).
Lemma adj_edge_tables g a b : adj_edge (rt_adj (edge_tables g)) a b ↔ graph_edge (cg_Edges g) a b.
Proof.
  unfold edge_tables. rewrite add_edges_adj. simpl. unfold adj_edge. rewrite lookup_empty. simpl.
  rewrite elem_of_nil. tauto.
Qed.
Lemma reverse_edge_tables g a b :
  adj_edge (rt_reverse (edge_tables g)) a b ↔ graph_edge (cg_Edges g) b a.
Proof.
  unfold edge_tables. rewrite add_edges_reverse. simpl. unfold adj_edge. rewrite lookup_empty. simpl.
  rewrite elem_of_nil. tauto.
Qed.
Lemma edge_tables_known g k : known_edge (edge_tables g) k ↔ k ∈ edge_key <$> cg_Edges g.
Proof.
  unfold edge_tables. rewrite (fresh_known edge_key known_edge add_edge known_add_edge).
  unfold known_edge; simpl. rewrite lookup_empty, is_Some_alt. tauto.
Qed.
Lemma terminal_tables_known g k :
  is_Some ((terminal_tables g).1 !! k) ↔
  k ∈ (edge_key <$> cg_Edges g) ++ (terminal_key <$> cg_TerminalOutcomes g).
Proof.
  change (known_terminal (terminal_tables g) k ↔ k ∈ (edge_key <$> cg_Edges g) ++
    (terminal_key <$> cg_TerminalOutcomes g)).
  unfold terminal_tables. rewrite (fresh_known terminal_key known_terminal add_terminal known_add_terminal).
  unfold known_terminal; simpl. rewrite elem_of_app, <- edge_tables_known. unfold known_edge. tauto.
Qed.

Lemma covered_ok g :
  NoDup (cn_Key <$> cg_Nodes g) →
  range_check (λ _ (nd : string * gset string), range_check (λ _ outcome,
    fail_if (bool_decide ((terminal_tables g).1 !! (nd.1, outcome) = None))
      (Errorf "graph outcome %s/%s has no edge or terminal declaration" [GS nd.1; GS outcome]))
    0 (elements nd.2)) 0 (map_to_list (outcome_map (cg_Nodes g))) = inr () ↔
  ∀ k o, declares (cg_Nodes g) k o →
    (k, o) ∈ (edge_key <$> cg_Edges g) ++ (terminal_key <$> cg_TerminalOutcomes g).
Proof.
  intros Hnd. rewrite (range_check_Forall _ (λ nd : string * gset string,
    ∀ o, o ∈ nd.2 → is_Some ((terminal_tables g).1 !! (nd.1, o)))).
  2:{ intros j [k out]. rewrite (range_check_Forall _ (λ o, is_Some ((terminal_tables g).1 !! (k, o)))).
      - rewrite Forall_forall. simpl. by setoid_rewrite elem_of_elements.
      - intros j' o. by rewrite fail_if_inr, bool_decide_eq_false, not_eq_None_Some. }
  rewrite Forall_forall. setoid_rewrite terminal_tables_known. split.
  - intros H k o Hd. apply (outcome_map_declares _ _ _ Hnd) in Hd as Hin.
    destruct (outcome_map (cg_Nodes g) !! k) as [out|] eqn:Hk; simpl in Hin; [|set_solver].
    apply (H (k, out)); [by apply elem_of_map_to_list|done].
  - intros H [k out] Hk%elem_of_map_to_list o Ho. simpl in *. apply H.
    apply outcome_map_declares; [done|]. by rewrite Hk.
Qed.
Lemma keys_check (l : list CanonicalNode) (P : string → Prop) (b : string → bool)
    (e : string → gerror) :
  (∀ k, b k = false ↔ P k) →
  range_check (λ _ key, fail_if (b key) (e key)) 0 (map_to_list (node_map l)).*1 = inr () ↔
  ∀ k, k ∈ cn_Key <$> l → P k.
Proof.
  intros Hb. rewrite (range_check_Forall _ P).
  2:{ intros j k. by rewrite fail_if_inr. }
  rewrite Forall_forall. setoid_rewrite <- node_map_dom. setoid_rewrite list_elem_of_fmap. split.
  - intros H k [n Hk]. apply H. exists (k, n). split; [done|]. by apply elem_of_map_to_list.
  - intros H k ([k' n] & -> & Hk%elem_of_map_to_list). apply H. simpl. eauto.
Qed.
Lemma reachable_ok g :
  range_check (λ _ key, fail_if (negb (bool_decide (key ∈ walk (cg_EntryNode g) (rt_adj (edge_tables g)))))
    (Errorf "graph node %q is unreachable from entryNode" [GS key])) 0
    (map_to_list (node_map (cg_Nodes g))).*1 = inr () ↔
  ∀ k, k ∈ cn_Key <$> cg_Nodes g → rtc (graph_edge (cg_Edges g)) (cg_EntryNode g) k.
Proof.
  apply keys_check. intros k. rewrite negb_bool_decide_false, walk_spec.
  apply rtc_proper_iff. apply adj_edge_tables.
Qed.

Lemma terminates_ok g :
  range_check (λ _ key, fail_if (negb (bool_decide (key ∈
      (⋃ ((λ key, walk key (rt_reverse (edge_tables g))) <$> elements (terminal_tables g).2) : gset string))))
    (Errorf "graph node %q has no path to a terminal outcome" [GS key])) 0
    (map_to_list (node_map (cg_Nodes g))).*1 = inr () ↔
  ∀ k, k ∈ cn_Key <$> cg_Nodes g →
    ∃ t, t ∈ cg_TerminalOutcomes g ∧ rtc (graph_edge (cg_Edges g)) k (ct_Node t).
Proof.
  apply keys_check. intros k. rewrite negb_bool_decide_false, elem_of_union_list.
  setoid_rewrite list_elem_of_fmap. split.
  - intros (X & (k' & -> & Hk'%elem_of_elements) & Hin%walk_spec).
    unfold terminal_tables in Hk'. apply add_terminals_nodes in Hk' as [Hk'|Hk']; [|set_solver].
    apply list_elem_of_fmap in Hk' as (t & -> & Ht). exists t. split; [done|].
    apply rtc_flip_iff. eapply rtc_mono; [|exact Hin]. intros a b. by rewrite reverse_edge_tables.
  - intros (t & Ht & Hr). exists (walk (ct_Node t) (rt_reverse (edge_tables g))). split.
    + exists (ct_Node t). split; [done|]. apply elem_of_elements. unfold terminal_tables.
      apply add_terminals_nodes. left. by apply list_elem_of_fmap_2.
    + apply walk_spec. apply rtc_flip_iff in Hr. eapply rtc_mono; [|exact Hr].
      intros a b Hab. by apply reverse_edge_tables.
Qed.

Lemma entry_keys spec :
  Forall (node_ok spec) (cg_Nodes (cs_Graph spec)) →
  cg_EntryNode (cs_Graph spec) ∈ cn_Key <$> cg_Nodes (cs_Graph spec) →
  cg_EntryNode (cs_Graph spec) ≠ EmptyString ∧ cg_Nodes (cs_Graph spec) ≠ [].
Proof.
  intros HF (n & -> & Hn)%list_elem_of_fmap. rewrite Forall_forall in HF.
  split; [by destruct (HF n Hn)|]. intros He. rewrite He in Hn. by apply not_elem_of_nil in Hn.
Qed.
Lemma unique_routes g :
  NoDup ((edge_key <$> cg_Edges g) ++ (terminal_key <$> cg_TerminalOutcomes g)) ↔
  NoDup (edge_key <$> cg_Edges g) ∧ NoDup (terminal_key <$> cg_TerminalOutcomes g) ∧
  ∀ t, t ∈ cg_TerminalOutcomes g → ¬ known_terminal (rt_routes (edge_tables g), ∅) (terminal_key t).
Proof.
  rewrite NoDup_app. unfold known_terminal; simpl.
  change (∀ t, t ∈ cg_TerminalOutcomes g → ¬ is_Some (rt_routes (edge_tables g) !! terminal_key t))
    with (∀ t, t ∈ cg_TerminalOutcomes g → ¬ known_edge (edge_tables g) (terminal_key t)).
  setoid_rewrite edge_tables_known. split.
  - intros (? & Hd & ?). split_and!; try done. intros t Ht Hin. apply (Hd _ Hin).
    by apply list_elem_of_fmap_2.
  - intros (? & ? & Hd). split_and!; try done. intros k Hk (t & -> & Ht)%list_elem_of_fmap.
    by apply (Hd t Ht).
Qed.

Lemma ValidateGraph_contract spec :
  ValidateGraph jsonschema_compiles spec = inr () ↔ graph_contract spec.
Proof.
  unfold ValidateGraph. set (g := cs_Graph spec). rewrite !fail_bind_inr. split.
  - intros (_ & Hlim & _ & Hterm & H). apply result_bind_inr in H as (caps & Hcaps & H).
    apply requested_caps_ok in Hcaps as [Hres ->].
    apply result_bind_inr in H as ([nodes outcomes] & Hnodes & H).
    apply node_loop in Hnodes as (Hok & Hnd & _ & [= -> ->]); [|done].
    rewrite !(right_id_L ∅ (∪)) in H. apply fail_bind_inr in H as [Hentry H].
    apply result_bind_inr in H as (tables & Hedges & H).
    apply edge_loop in Hedges as (He & Hend & _ & ->); [|done]. fold (edge_tables g) in H.
    apply result_bind_inr in H as ([routes terms] & Ht & H).
    apply terminal_loop in Ht as (Ht & Htnd & Htk & Heq); [|done]. fold (terminal_tables g) in Heq.
    assert (routes = (terminal_tables g).1 ∧ terms = (terminal_tables g).2) as [-> ->]
      by (by rewrite <- Heq).
    apply bind_unit_inr in H as [Hrp H]. apply bind_unit_inr in H as [Hcov H].
    apply bind_unit_inr in H as [Hreach Hend2].
    apply node_map_None in Hentry. pose proof (proj1 (covered_ok g Hnd) Hcov) as Hcov'.
    pose proof (proj1 (reachable_ok g) Hreach). pose proof (proj1 (terminates_ok g) Hend2).
    apply orb_false_iff in Hlim as [Hl1 Hl2]. apply Z.ltb_ge in Hl1, Hl2.
    apply bool_decide_eq_false in Hterm.
    constructor; fold g; try done. by apply unique_routes.
  - intros [Hentry Hlim Hterm Hres Hnd Hok He Ht Huniq Hcov Hrp Hreach Hend].
    destruct (entry_keys spec Hok Hentry) as [Hne Hnn].
    fold g in Hentry, Hlim, Hterm, Hnd, Hok, He, Ht, Huniq, Hcov, Hrp, Hreach, Hend, Hne, Hnn.
    apply unique_routes in Huniq as (Hend1 & Htnd & Htk).
    split_and!; [by apply String.eqb_neq|apply orb_false_iff; split; apply Z.ltb_ge; lia
      |by apply bool_decide_eq_false|by apply bool_decide_eq_false|].
    apply result_bind_inr. eexists. split; [by apply requested_caps_ok|].
    apply result_bind_inr. eexists (_, _). split; [apply node_loop; [done|]; split_and!; [done|done|done|reflexivity]|].
    rewrite !(right_id_L ∅ (∪)). apply fail_bind_inr. split; [by apply node_map_None|].
    apply result_bind_inr. exists (edge_tables g). split.
    { apply edge_loop; [done|]. split_and!; try done. intros e _. unfold known_edge; simpl.
      rewrite lookup_empty. by apply is_Some_None. }
    apply result_bind_inr. exists (terminal_tables g). split; [by apply terminal_loop|].
    destruct (terminal_tables g) as [routes terms] eqn:Htt.
    assert (routes = (terminal_tables g).1 ∧ terms = (terminal_tables g).2) as [-> ->] by (by rewrite Htt).
    apply bind_unit_inr; split; [done|]. apply bind_unit_inr; split; [exact (proj2 (covered_ok g Hnd) Hcov)|].
    apply bind_unit_inr; split; [exact (proj2 (reachable_ok g) Hreach)|exact (proj2 (terminates_ok g) Hend)].
Qed.
End graph.

(** C39. The breadth-first walk of the validator computes exactly the nodes reachable
    from its start, whatever the graph (cycles, self-loops, repeated edges, unknown
    nodes), and the number of iterations it is given is enough: any larger bound
    returns the same nodes, so the loop has ended with an empty queue. *)
Theorem walk_correct start adj :
  (∀ x, x ∈ walk start adj ↔ rtc (adj_edge adj) start x) ∧
  (∀ fuel, (walk_fuel adj ≤ fuel)%nat → walk_loop fuel adj {[start]} [start] = walk start adj).
Proof.
  split; [intros x; apply walk_spec|]. intros fuel Hfuel. apply set_eq. intros x.
  rewrite walk_spec. apply walk_start. exact Hfuel.
Qed.
