(* ===== verification/ResultFacts.v ===== *)
(** The presentation rules of the workflow validator, and the contract it decides, stated
    without it: the verdict does not depend on the order of the lists of the spec, the
    presented fields and enum options are exactly the declared ones, and a spec is
    accepted if and only if it keeps the contract. *)
From S2P Require Import Prelude Json Duration Workflow WorkflowFacts.

(** * Order independence *)
Lemma range_check_ext {E A} (f g : Z → A → E + ()) i l :
  (∀ j a, f j a = g j a) → range_check f i l = range_check g i l.
Proof.
  intros H. revert i. induction l as [|a l IH]; intros i; simpl; [done|].
  by rewrite H, IH.
Qed.
Lemma terminals_by_node_spec ts (acc : gmap string (gset string)) (k o : string) :
  o ∈ (default ∅ (foldl (λ (m : gmap string (gset string)) t,
      <[ct_Node t := {[ct_Outcome t]} ∪ default ∅ (m !! ct_Node t)]> m) acc ts !! k) : gset string) ↔
  (k, o) ∈ terminal_key <$> ts ∨ o ∈ (default ∅ (acc !! k) : gset string).
Proof.
  revert acc. induction ts as [|t ts IH]; intros acc; simpl; [rewrite elem_of_nil; tauto|].
  rewrite IH, elem_of_cons. unfold terminal_key at 2.
  destruct (decide (ct_Node t = k)) as [<-|Hne].
  - rewrite lookup_insert_eq. simpl. rewrite elem_of_union, elem_of_singleton. naive_solver.
  - rewrite lookup_insert_ne by done. naive_solver.
Qed.
Lemma terminals_by_node_perm ts ts' k :
  ts ≡ₚ ts' →
  default ∅ (terminals_by_node ts !! k) = default ∅ (terminals_by_node ts' !! k).
Proof.
  intros Hp. apply set_eq. intros o. unfold terminals_by_node. rewrite !terminals_by_node_spec.
  by rewrite Hp.
Qed.
Lemma validateResultPresentations_perm nodes ts ts' :
  ts ≡ₚ ts' → validateResultPresentations nodes ts = validateResultPresentations nodes ts'.
Proof.
  intros Hp. apply range_check_ext. intros _ k.
  by rewrite (terminals_by_node_perm ts ts' k Hp).
Qed.

(** The same spec with its lists in another order. *)
Definition reorder (spec : CanonicalSpec) (nodes : list CanonicalNode) (edges : list CanonicalEdge)
    (terminals : list CanonicalTerminalOutcome) : CanonicalSpec :=
  mkSpec (cs_Key spec) (cs_ScopeIdentityKey spec) (cs_Source spec) (cs_Skills spec)
    (cs_RequestedCapabilities spec) (cs_DefaultModelRef spec)
    (mkGraph (cg_EntryNode (cs_Graph spec)) (cg_MaxTransitions (cs_Graph spec)) nodes edges terminals)
    (cs_ValueModelRef spec) (cs_Presentation spec) (cs_PoolRef spec).

Lemma graph_contract_reorder jc spec nodes edges terminals :
  cg_Nodes (cs_Graph spec) ≡ₚ nodes → cg_Edges (cs_Graph spec) ≡ₚ edges →
  cg_TerminalOutcomes (cs_Graph spec) ≡ₚ terminals →
  graph_contract jc spec → graph_contract jc (reorder spec nodes edges terminals).
Proof.
  intros Hn He Ht [Hentry Hlim Hterm Hres Hnd Hok Hed Hte Huniq Hcov Hrp Hreach Hend].
  assert (∀ k o, declares nodes k o ↔ declares (cg_Nodes (cs_Graph spec)) k o) as Hdec.
  { intros k o. unfold declares. by setoid_rewrite Hn. }
  assert (∀ a b, graph_edge edges a b ↔ graph_edge (cg_Edges (cs_Graph spec)) a b) as Hge.
  { intros a b. unfold graph_edge. by setoid_rewrite He. }
  constructor; cbn [reorder cs_Graph cg_Nodes cg_Edges cg_TerminalOutcomes cg_EntryNode
    cg_MaxTransitions cs_RequestedCapabilities]; try done.
  - by rewrite <- Hn.
  - intros ->. apply Permutation_nil_r in Ht. done.
  - by rewrite <- Hn.
  - change (Forall (node_ok jc spec) nodes). by rewrite <- Hn.
  - rewrite <- He. eapply Forall_impl; [exact Hed|]. intros e [Hd Hto]. split.
    + by apply Hdec.
    + by rewrite <- Hn.
  - rewrite <- Ht. eapply Forall_impl; [exact Hte|]. intros t Hd. by apply Hdec.
  - by rewrite <- He, <- Ht.
  - intros k o Hd%Hdec. rewrite <- He, <- Ht. by apply Hcov.
  - rewrite <- (validateResultPresentations_perm _ _ _ Ht).
    replace (node_map nodes) with (node_map (cg_Nodes (cs_Graph spec))); [done|].
    unfold node_map. apply list_to_map_proper; [by rewrite <- list_fmap_compose|by rewrite Hn].
  - intros k Hk. rewrite <- Hn in Hk. eapply rtc_proper_iff; [apply Hge|]. by apply Hreach.
  - intros k Hk. rewrite <- Hn in Hk. destruct (Hend k Hk) as (t & Ht' & Hr).
    exists t. rewrite <- Ht. split; [done|]. by eapply rtc_proper_iff; [apply Hge|].
Qed.

(** Whether a spec is accepted does not depend on the order in which it lists its
    nodes, edges and terminal outcomes, so two canonicalisations of one definition
    that differ in order get the same verdict. *)
Theorem validation_order_independent jsonschema_compiles spec nodes edges terminals :
  cg_Nodes (cs_Graph spec) ≡ₚ nodes → cg_Edges (cs_Graph spec) ≡ₚ edges →
  cg_TerminalOutcomes (cs_Graph spec) ≡ₚ terminals →
  ValidateGraph jsonschema_compiles spec = inr () ↔
  ValidateGraph jsonschema_compiles (reorder spec nodes edges terminals) = inr ().
Proof.
  intros Hn He Ht. rewrite !ValidateGraph_contract. split.
  - by apply graph_contract_reorder.
  - intros H. apply (graph_contract_reorder _ _ (cg_Nodes (cs_Graph spec)) (cg_Edges (cs_Graph spec))
      (cg_TerminalOutcomes (cs_Graph spec))) in H; [|done..].
    by destruct spec as [? ? ? ? ? ? [] ? ? ?].
Qed.

(** * A concrete workflow *)
Definition text (s : string) : CanonicalLocalizedText := {| lt_EN := s; lt_PT := s |}.
Definition draft_node : CanonicalNode :=
  mkNode "draft" (text "Draft") NodeAgentTask "Write the draft" "gpt" [] ["search"] true "1h30m"
    ["ready"; "unclear"] None None None.
Definition review_node : CanonicalNode :=
  mkNode "review" (text "Review") NodeHumanGate "" "" [] [] false "" ["approved"; "changes"] None
    (Some {| rp_Outcomes := [{| ro_Outcome := "approved"; ro_Summary := text "Approved" |}];
             rp_Fields := [] |})
    (Some {| hg_Type := "approval"; hg_Title := text "Approve"; hg_Description := text "Check it";
             hg_ResponseSchema := EmptyString;
             hg_Presentation := {| hp_Outcomes := [text "Approve"; text "Request changes"];
                                   hp_Fields := [] |} |}).
Definition demo_edges : list CanonicalEdge :=
  [{| ce_From := "draft"; ce_Outcome := "ready"; ce_To := "review" |};
   {| ce_From := "draft"; ce_Outcome := "unclear"; ce_To := "draft" |};
   {| ce_From := "review"; ce_Outcome := "changes"; ce_To := "draft" |}].
Definition demo_terminals : list CanonicalTerminalOutcome :=
  [{| ct_Node := "review"; ct_Outcome := "approved" |}].
Definition demo_graph : CanonicalGraph :=
  mkGraph "draft" 25 [draft_node; review_node] demo_edges demo_terminals.
Definition demo_spec : CanonicalSpec :=
  mkSpec "proposal" "org" {| so_Type := "manual"; so_TriggerBindings := [] |} []
    [{| cc_Tool := "search"; cc_MaxEffectClass := "read"; cc_Actions := [] |}] "" demo_graph ""
    {| pr_WorkflowTitle := "Proposal"; pr_PersonaName := "Ana"; pr_PersonaAvatar := ""; pr_Locale := "en" |}
    "default".
Example demo_spec_valid : ValidateGraph (λ _, true) demo_spec = inr ().
Proof. vm_compute. reflexivity. Qed.
Lemma validation_order_independent_witness :
  ValidateGraph (λ _, true) (reorder demo_spec [review_node; draft_node] (reverse demo_edges) demo_terminals)
    = inr ().
Proof.
  refine (proj1 (validation_order_independent (λ _, true) demo_spec [review_node; draft_node]
    (reverse demo_edges) demo_terminals _ _ _) demo_spec_valid).
  - apply perm_swap.
  - symmetry. apply reverse_Permutation.
  - reflexivity.
Defined.

(** * Enum options *)
Lemma match_value_Some v values rest :
  match_value v values = Some rest →
  ∃ x, equalJSON v x = true ∧ values ≡ₚ x :: rest.
Proof.
  revert rest. induction values as [|y values IH]; intros rest; simpl; [done|].
  destruct (equalJSON v y) eqn:He; [intros [= <-]; eauto|].
  intros (rest' & Hm & ->)%fmap_Some. destruct (IH rest' Hm) as (x & ? & Hp).
  exists x. split; [done|]. rewrite Hp. apply perm_swap.
Qed.
Lemma options_loop path i (options : list CanonicalResultValuePresentation) values rest :
  range_loop (λ i option unmatched,
    _ ← fail_if (incomplete (rv_Label option))
          (Errorf "%s options[%d] label requires en and pt text" [GS path; GI i]);
    unmarshal (match_value (rv_Value option) unmatched)
      (Errorf "%s options[%d] value is not an unmatched schema enum value"
         [GS path; GI i])) i options values = inr rest →
  Forall (λ o, incomplete (rv_Label o) = false) options ∧
  ∃ taken, values ≡ₚ taken ++ rest ∧ Forall2 (λ o v, equalJSON (rv_Value o) v = true) options taken.
Proof.
  revert i values. induction options as [|o options IH]; intros i values; simpl.
  - intros [= <-]. split; [constructor|]. exists []. done.
  - intros H. apply result_bind_inr in H as (vs & Ho & H). apply fail_bind_inr in Ho as [Hl Ho].
    apply unmarshal_inr, match_value_Some in Ho as (x & Hx & Hp).
    apply IH in H as (HF & taken & Hp' & H2). split; [by constructor|].
    exists (x :: taken). split; [|by constructor]. by rewrite Hp, Hp'.
Qed.

(** Accepted enum options localize the enum exactly: there is a one-to-one
    assignment of the options to the enum's values in which each option equals its
    value as decoded JSON, so no value is left without a label and no option is
    spurious; every label is complete; and options are refused without an enum. *)
Lemma result_options_match enumRaw options path :
  validateResultOptions enumRaw options path = inr () →
  match enumRaw with
  | None => options = []
  | Some enum => ∃ values assigned,
      unmarshal_array enum = Some values ∧ values ≠ [] ∧ assigned ≡ₚ values ∧
      Forall2 (λ o v, equalJSON (rv_Value o) v = true) options assigned ∧
      Forall (λ o, incomplete (rv_Label o) = false) options
  end.
Proof.
  unfold validateResultOptions. destruct enumRaw as [enum|].
  - destruct (unmarshal_array enum) as [[|v values]|] eqn:Hv; [done| |done].
    intros H. apply fail_bind_inr in H as [Hlen H]. apply result_bind_inr in H as (rest & H & _).
    apply options_loop in H as (HF & taken & Hp & H2).
    exists (v :: values), taken. split_and!; try done.
    apply negb_false_iff, Nat.eqb_eq in Hlen. pose proof (Forall2_length _ _ _ H2).
    pose proof (Permutation_length Hp) as Hpl. rewrite length_app in Hpl.
    assert (length rest = 0%nat) as ->%nil_length_inv by lia. by rewrite app_nil_r in Hp.
  - rewrite fail_if_inr, bool_decide_eq_false. intros H. by destruct options; [|destruct H].
Qed.
(** * Result fields *)
Definition schema_properties (raw : json) : option (list (string * json)) :=
  l ← struct_members raw; map_field "properties" l.
(** A schema without references and combinators. *)
Definition plain_schema (raw : json) (m : list (string * json)) : Prop :=
  unmarshal_map raw = Some m ∧ Forall (λ keyword, map_get keyword m = None) unsupported_keywords.
(** The schema whose values a field shows, with its type and whether it is an enum: the
    field's own or, of an array, that of its items. *)
Inductive effective_schema (raw : json) : json → string → bool → Prop :=
| effective_enum m :
    plain_schema raw m → is_Some (map_get "enum" m) → effective_schema raw raw (direct_type m) true
| effective_typed m :
    plain_schema raw m → map_get "enum" m = None → direct_type m ≠ "array" → direct_type m ≠ EmptyString →
    effective_schema raw raw (direct_type m) false
| effective_item_enum m items im :
    plain_schema raw m → map_get "enum" m = None → direct_type m = "array" → map_get "items" m = Some items →
    plain_schema items im → is_Some (map_get "enum" im) → effective_schema raw items (direct_type im) true
| effective_item_typed m items im :
    plain_schema raw m → map_get "enum" m = None → direct_type m = "array" → map_get "items" m = Some items →
    plain_schema items im → map_get "enum" im = None → direct_type im ≠ EmptyString → effective_schema raw items (direct_type im) false.
Lemma no_keywords_inr what path m : no_keywords what path m = inr () ↔ Forall (λ keyword, map_get keyword m = None) unsupported_keywords.
Proof. apply range_check_Forall. intros j k. by rewrite fail_if_inr, bool_decide_eq_false, eq_None_not_Some. Qed.
Lemma items_inr path what e1 e2 m items im :
  map_get "items" m = Some items → unmarshal_map items = Some im → Forall (λ keyword, map_get keyword im = None) unsupported_keywords →
  (items ← unmarshal (map_get "items" m) e1; itemSchema ← unmarshal (unmarshal_map items) e2;
   _ ← no_keywords what path itemSchema; inr (items, itemSchema) : check (json * list (string * json))) = inr (items, im).
Proof.
  intros Hi Him Hk. apply result_bind_inr. exists items. split; [by apply unmarshal_inr|]. apply result_bind_inr. exists im.
  split; [by apply unmarshal_inr|]. apply bind_unit_inr. split; [by apply no_keywords_inr|done].
Qed.
Lemma effective_iff raw path eff ty en : effectiveResultSchema raw path = inr (eff, ty, en) ↔ effective_schema raw eff ty en.
Proof.
  unfold effectiveResultSchema. rewrite result_bind_inr. setoid_rewrite unmarshal_inr. setoid_rewrite bind_unit_inr. setoid_rewrite no_keywords_inr. split.
  - intros (m & Hm & Hk & H). assert (plain_schema raw m) as Hp by done. case_bool_decide as He; [injection H as <- <- <-; by apply effective_enum|].
    rewrite <- eq_None_not_Some in He. apply result_bind_inr in H as ([e2 m2] & Ha & H).
    destruct (String.eqb_spec (direct_type m) "array") as [Harr|Harr].
    + apply result_bind_inr in Ha as (items & Hi%unmarshal_inr & Ha). apply result_bind_inr in Ha as (im & Him%unmarshal_inr & Ha).
      apply bind_unit_inr in Ha as [Hik%no_keywords_inr [= <- <-]]. case_bool_decide as Hie.
      * injection H as <- <- <-. by eapply effective_item_enum.
      * rewrite <- eq_None_not_Some in Hie. destruct (String.eqb_spec (direct_type im) EmptyString); [done|]. injection H as <- <- <-. by eapply effective_item_typed.
    + injection Ha as <- <-. rewrite bool_decide_false in H by (by rewrite He; intros [? ?]).
      destruct (String.eqb_spec (direct_type m) EmptyString); [done|]. injection H as <- <- <-. by apply effective_typed.
  - destruct 1 as [m [Hm Hk] He|m [Hm Hk] He Ha Ht|m items im [Hm Hk] He Ha Hi [Him Hik] Hie|m items im [Hm Hk] He Ha Hi [Him Hik] Hie Ht]; exists m; (split; [done|split; [done|]]).
    + by rewrite bool_decide_true.
    + rewrite bool_decide_false by (by rewrite He; intros [? ?]). apply String.eqb_neq in Ha as ->. apply result_bind_inr. exists (raw, m). split; [done|]. cbv beta iota.
      rewrite bool_decide_false by (by rewrite He; intros [? ?]). by apply String.eqb_neq in Ht as ->.
    + rewrite bool_decide_false by (by rewrite He; intros [? ?]). rewrite Ha, String.eqb_refl. apply result_bind_inr. exists (items, im).
      split; [by eapply items_inr|]. cbv beta iota. by rewrite bool_decide_true.
    + rewrite bool_decide_false by (by rewrite He; intros [? ?]). rewrite Ha, String.eqb_refl. apply result_bind_inr. exists (items, im).
      split; [by eapply items_inr|]. cbv beta iota. rewrite bool_decide_false by (by rewrite Hie; intros [? ?]). by apply String.eqb_neq in Ht as ->.
Qed.
(** The property paths a schema declares, with the schema at each. *)
Inductive declared_path : json → list string → json → Prop :=
| dp_here raw props key fs :
    schema_properties raw = Some props → map_get key props = Some fs →
    declared_path raw [key] fs
| dp_deep raw props key fs effective p sub :
    schema_properties raw = Some props → map_get key props = Some fs →
    effective_schema fs effective "object" false →
    declared_path effective p sub →
    declared_path raw (key :: p) sub.

Lemma declared_path_cons raw props k p s :
  schema_properties raw = Some props →
  declared_path raw (k :: p) s ↔
  ∃ fs, map_get k props = Some fs ∧
    ((p = [] ∧ s = fs) ∨
     ∃ eff, effective_schema fs eff "object" false ∧ declared_path eff p s).
Proof.
  intros Hp. split.
  - inversion 1; subst; simplify_eq; eauto 10.
  - intros (fs & Hk & [[-> ->]|(eff & He & Hd)]); [by econstructor|by eapply dp_deep].
Qed.
Lemma declared_path_nil raw s : ¬ declared_path raw [] s.
Proof. inversion 1. Qed.

Lemma map_get_snoc k l k' v :
  map_get k (l ++ [(k', v)]) = if String.eqb k' k then Some v else map_get k l.
Proof. unfold map_get. by rewrite foldl_app. Qed.
Lemma dedup_keys_elem l k : k ∈ dedup_keys l ↔ k ∈ l.
Proof.
  induction l as [|x l IH]; simpl; [done|]. case_bool_decide as Hx.
  - rewrite IH, elem_of_cons. naive_solver.
  - by rewrite !elem_of_cons, IH.
Qed.
Lemma dedup_keys_NoDup l : NoDup (dedup_keys l).
Proof.
  induction l as [|x l IH]; simpl; [constructor|]. case_bool_decide; [done|].
  constructor; [by rewrite dedup_keys_elem|done].
Qed.
Lemma map_get_elem k l v : map_get k l = Some v → (k, v) ∈ l.
Proof.
  induction l as [|[k' v'] l IH] using rev_ind; [done|].
  rewrite map_get_snoc, elem_of_app, list_elem_of_singleton.
  destruct (String.eqb_spec k' k) as [->|]; [intros [= ->]; by right|]. intros H. left. auto.
Qed.
Lemma map_get_keys k l : is_Some (map_get k l) ↔ k ∈ map_keys l.
Proof.
  unfold map_keys. rewrite dedup_keys_elem. split.
  - intros [v Hv%map_get_elem]. apply list_elem_of_fmap. by exists (k, v).
  - induction l as [|[k' v'] l IH] using rev_ind; [by intros ?%not_elem_of_nil|].
    rewrite map_get_snoc, fmap_app, elem_of_app. simpl. rewrite list_elem_of_singleton.
    intros [?| ->]; [|by rewrite String.eqb_refl]. destruct (String.eqb k' k); eauto.
Qed.

Section collect.
Context (path : string).
(** The keys the loop still has to visit are not below [prefix] in the map yet. *)
Definition clear_below (prefix : list string) (keys : list string)
    (out : gmap (list string) json) : Prop :=
  ∀ k p, k ∈ keys → out !! (prefix ++ k :: p) = None.
Definition collects (raw : json) (prefix : list string) (keys : list string)
    (out out' : gmap (list string) json) : Prop :=
  ∀ q s, out' !! q = Some s ↔
    out !! q = Some s ∨ ∃ k p, k ∈ keys ∧ q = prefix ++ k :: p ∧ declared_path raw (k :: p) s.

(** One iteration adds a key and everything below it. *)
Lemma collect_step raw props prefix k fs out out1 (eff : json) (deep : bool) :
  schema_properties raw = Some props → map_get k props = Some fs →
  clear_below prefix [k] out →
  (deep = true → ∃ t e, effectiveResultSchema fs path = inr (eff, t, e) ∧ negb e && String.eqb t "object" = true) →
  (deep = false → ∀ eff', effectiveResultSchema fs path ≠ inr (eff', "object", false)) →
  (if deep then ∀ q s, out1 !! q = Some s ↔ <[prefix ++ [k] := fs]> out !! q = Some s ∨
      ∃ p, q = (prefix ++ [k]) ++ p ∧ declared_path eff p s
   else out1 = <[prefix ++ [k] := fs]> out) →
  collects raw prefix [k] out out1.
Proof.
  intros Hp Hk Hcl Ht Hf H1 q s.
  assert (<[prefix ++ [k] := fs]> out !! q = Some s ↔ out !! q = Some s ∨ (q = prefix ++ [k] ∧ s = fs))
    as Hins.
  { rewrite lookup_insert_Some. split; [naive_solver|]. intros [Hq|[-> ->]]; [|by left].
    right. split; [|done]. intros <-. rewrite Hcl in Hq by left. done. }
  destruct deep.
  - rewrite H1, Hins. destruct (Ht eq_refl) as (t & e & He & Hg).
    apply andb_prop in Hg as [->%negb_true_iff ->%String.eqb_eq].
    split.
    + intros [[?|[-> ->]]|(p & -> & Hd)]; [by left| |].
      * right. exists k, []. split_and!; [left|done|]. by eapply dp_here.
      * right. exists k, p. split_and!; [left|by rewrite <- app_assoc|]. eapply dp_deep; [done|done|by eapply effective_iff|done].
    + intros [?|(k' & p & ->%list_elem_of_singleton & -> & Hd)]; [by left; left|].
      apply (declared_path_cons _ _ _ _ _ Hp) in Hd as (fs' & ? & [[-> ->]|(eff' & He' & Hd)]);
        simplify_eq; [by left; right|].
      apply (effective_iff _ path) in He'. rewrite He in He'. injection He' as <-.
      right. exists p. by rewrite <- app_assoc.
  - subst out1. rewrite Hins. split.
    + intros [?|[-> ->]]; [by left|]. right. exists k, []. split_and!; [left|done|]. by eapply dp_here.
    + intros [?|(k' & p & ->%list_elem_of_singleton & -> & Hd)]; [by left|].
      apply (declared_path_cons _ _ _ _ _ Hp) in Hd as (fs' & ? & [[-> ->]|(eff' & He' & Hd)]);
        simplify_eq; [by right|]. apply (effective_iff _ path) in He'. by destruct (Hf eq_refl eff').
Qed.
Lemma collects_trans raw prefix k keys out out1 out2 :
  collects raw prefix [k] out out1 → collects raw prefix keys out1 out2 →
  collects raw prefix (k :: keys) out out2.
Proof.
  intros H1 H2 q s. rewrite (H2 q s), (H1 q s). setoid_rewrite elem_of_cons.
  setoid_rewrite elem_of_nil. naive_solver.
Qed.
Lemma collects_clear raw prefix k keys out out1 :
  collects raw prefix [k] out out1 → k ∉ keys → clear_below prefix keys out →
  clear_below prefix keys out1.
Proof.
  intros H1 Hk Hcl k' p Hk'. apply eq_None_not_Some. intros [s Hs]. apply H1 in Hs as [Hs|Hs].
  - rewrite Hcl in Hs; done.
  - destruct Hs as (k'' & p' & ->%list_elem_of_singleton & Heq%app_inv_head & _).
    injection Heq as -> ->. done.
Qed.

Definition collect_body (rec : json → list string → gmap (list string) json →
    gerror + gmap (list string) json) (properties : list (string * json)) (prefix : list string)
    (key : string) (out : gmap (list string) json) : gerror + gmap (list string) json :=
  match map_get key properties with
  | None => inr out
  | Some fieldSchema =>
      let fieldPath := prefix ++ [key] in
      let out := <[fieldPath := fieldSchema]> out in
      '(effective, effectiveType, hasEnum) ← effectiveResultSchema fieldSchema path;
      if negb hasEnum && String.eqb effectiveType "object" then rec effective fieldPath out else inr out
  end.
Definition rec_ok (rec : json → list string → gmap (list string) json →
    gerror + gmap (list string) json) : Prop :=
  ∀ raw prefix out out', (∀ p, p ≠ [] → out !! (prefix ++ p) = None) → rec raw prefix out = inr out' →
    ∀ q s, out' !! q = Some s ↔
      out !! q = Some s ∨ ∃ p, q = prefix ++ p ∧ declared_path raw p s.

Lemma collect_body_ok rec raw props prefix k out out1 :
  rec_ok rec → schema_properties raw = Some props → is_Some (map_get k props) →
  clear_below prefix [k] out →
  collect_body rec props prefix k out = inr out1 → collects raw prefix [k] out out1.
Proof.
  intros Hrec Hp [fs Hk] Hcl. unfold collect_body. rewrite Hk. intros H.
  apply result_bind_inr in H as ([[eff t] e] & He & H).
  eapply (collect_step raw props prefix k fs out out1 eff (negb e && String.eqb t "object"));
    try done.
  - intros Hg. eauto.
  - intros Hg eff' He'. rewrite He in He'. injection He' as -> -> ->. done.
  - destruct (negb e && String.eqb t "object"); [|by injection H as <-].
    apply (Hrec eff (prefix ++ [k]) _ out1); [|done].
    intros p Hne. rewrite <- app_assoc. simpl. rewrite lookup_insert_ne.
    + apply Hcl. left.
    + intros Heq%app_inv_head. injection Heq as <-. done.
Qed.
Lemma collect_loop rec raw props prefix keys i out out' :
  rec_ok rec → schema_properties raw = Some props → NoDup keys →
  (∀ k, k ∈ keys → is_Some (map_get k props)) → clear_below prefix keys out →
  range_loop (λ _ k out, collect_body rec props prefix k out) i keys out = inr out' →
  collects raw prefix keys out out'.
Proof.
  intros Hrec Hp. revert i out. induction keys as [|k keys IH]; intros i out Hnd Hks Hcl; simpl.
  { intros [= ->] q s. set_solver. }
  apply NoDup_cons in Hnd as [Hk Hnd]. intros H. apply result_bind_inr in H as (out1 & H1 & H2).
  apply (collect_body_ok _ raw) in H1; [|done|done|apply Hks; left|].
  2:{ intros k' p ->%list_elem_of_singleton. apply Hcl. left. }
  eapply collects_trans; [done|]. eapply IH; [done| | |done].
  - intros k' Hk'. apply Hks. by right.
  - eapply collects_clear; [done|done|]. intros k' p Hk'. apply Hcl. by right.
Qed.
Lemma collect_ok fuel : rec_ok (λ raw prefix out, collectResultSchemaFields fuel raw prefix out path).
Proof.
  induction fuel as [|fuel IH]; intros raw prefix out out' Hfresh; simpl; [done|]. intros H.
  apply result_bind_inr in H as ([[ty props] add] & Hdec & H). apply unmarshal_inr in Hdec.
  assert (schema_properties raw = Some props) as Hp.
  { unfold schema_properties. destruct (struct_members raw) as [l|]; [|done]. simpl in *.
    destruct (string_field "type" l); [|done]. simpl in *.
    destruct (map_field "properties" l); [|done]. simpl in *.
    destruct (boolptr_field "additionalProperties" l); [|done]. simpl in Hdec. congruence. }
  clear Hdec. case_bool_decide as Hkeys.
  - apply fail_bind_inr in H as [_ H]. apply bind_unit_inr in H as [_ [= <-]].
    intros q s. split; [by left|]. intros [?|(p & -> & Hd)]; [done|].
    destruct p as [|k p]; [by apply declared_path_nil in Hd|].
    apply (declared_path_cons _ _ _ _ _ Hp) in Hd as (fs & Hfs & _).
    assert (k ∈ map_keys props) as Hin by (apply map_get_keys; eauto).
    rewrite Hkeys in Hin. by apply not_elem_of_nil in Hin.
  - apply fail_bind_inr in H as [_ H]. apply fail_bind_inr in H as [_ H].
    assert (∀ k, k ∈ sort_strings (map_keys props) ↔ is_Some (map_get k props)) as Hin.
    { intros k. by rewrite sort_strings_perm, map_get_keys. }
    apply (collect_loop (λ raw prefix out, collectResultSchemaFields fuel raw prefix out path)
      raw props prefix (sort_strings (map_keys props))) in H; [|exact IH|done| | |].
    + intros q s. rewrite (H q s). split; (intros [?|Hd]; [by left|right]).
      * destruct Hd as (k & p & _ & -> & Hd). eauto.
      * destruct Hd as (p & -> & Hd). destruct p as [|k p]; [by apply declared_path_nil in Hd|].
        exists k, p. split_and!; try done. apply Hin.
        apply (declared_path_cons _ _ _ _ _ Hp) in Hd as (fs & Hfs & _). eauto.
    + rewrite sort_strings_perm. apply dedup_keys_NoDup.
    + intros k Hk. by apply Hin.
    + intros k p _. by apply Hfresh.
Qed.
End collect.

Definition presents (schemas : gmap (list string) json) (path : string) (f : CanonicalResultFieldPresentation) : Prop :=
  rf_Path f ≠ [] ∧ Forall (λ x, x ≠ EmptyString) (rf_Path f) ∧ incomplete (rf_Label f) = false ∧
  ∃ schema, schemas !! rf_Path f = Some schema ∧ validateResultFieldSchema schema (rf_Options f) path = inr ().
Lemma index_iff path schemas fields indexed :
  indexResultPresentations fields schemas path = inr indexed ↔
  NoDup (rf_Path <$> fields) ∧ indexed = list_to_set (rf_Path <$> fields) ∧ Forall (presents schemas path) fields.
Proof.
  unfold indexResultPresentations. rewrite (seen_loop rf_Path (presents schemas path)).
  - rewrite (right_id_L ∅ (∪)). split; [naive_solver|]. intros (? & ? & ?). split_and!; done.
  - intros j f s s'. cbn zeta. rewrite fail_bind_inr, bind_unit_inr, !fail_bind_inr, result_bind_inr. unfold presents.
    rewrite (range_check_Forall _ (λ x, x ≠ EmptyString)).
    2:{ intros j' x. by rewrite fail_if_inr, String.eqb_neq. }
    rewrite !bool_decide_eq_false. setoid_rewrite unmarshal_inr. setoid_rewrite bind_unit_inr.
    split; [|naive_solver]. intros (? & ? & ? & ? & sc & ? & ? & [= <-]). eauto 10.
Qed.
Definition demo_result_schema : json :=
  JObj [("type", JStr "object"); ("additionalProperties", JBool false);
        ("properties", JObj [
           ("total", JObj [("type", JStr "number")]);
           ("lines", JObj [("type", JStr "array");
              ("items", JObj [("type", JStr "object"); ("additionalProperties", JBool false);
                 ("properties", JObj [("sku", JObj [("type", JStr "string")])])])])])].
Definition quoted (s : string) : string := (String dquote s +:+ String dquote EmptyString)%string.
Definition demo_result_text : string :=
  ("{" +:+ quoted "type" +:+ ":" +:+ quoted "object" +:+ "," +:+ quoted "additionalProperties"
   +:+ ":false," +:+ quoted "properties" +:+ ":{" +:+ quoted "total" +:+ ":{" +:+ quoted "type" +:+ ":"
   +:+ quoted "number" +:+ "}," +:+ quoted "lines" +:+ ":{" +:+ quoted "type" +:+ ":" +:+ quoted "array"
   +:+ "," +:+ quoted "items" +:+ ":{" +:+ quoted "type" +:+ ":" +:+ quoted "object" +:+ ","
   +:+ quoted "additionalProperties" +:+ ":false," +:+ quoted "properties" +:+ ":{" +:+ quoted "sku"
   +:+ ":{" +:+ quoted "type" +:+ ":" +:+ quoted "string" +:+ "}}}}}}")%string.
Example demo_result_parses : parse_json demo_result_text = Some demo_result_schema.
Proof. vm_compute. reflexivity. Qed.
Definition demo_field (p : list string) : CanonicalResultFieldPresentation :=
  {| rf_Path := p; rf_Label := text "Label"; rf_Options := [] |}.
(** ** The nesting of the schema is enough fuel *)
Lemma depth_member k v l : (k, v) ∈ l → (json_depth v < json_depth (JObj l))%nat.
Proof.
  intros Hin. simpl. apply Nat.lt_succ_r.
  induction l as [|[k' v'] l IH]; [by apply not_elem_of_nil in Hin|].
  rewrite fmap_cons. cbn [foldr snd].
  apply elem_of_cons in Hin as [[= -> ->]|Hin]; [lia|]. specialize (IH Hin). lia.
Qed.
Lemma field_values_elem name l v : v ∈ field_values name l → ∃ k, (k, v) ∈ l.
Proof.
  unfold field_values. intros ([k v'] & -> & Hin)%list_elem_of_fmap.
  apply list_elem_of_filter in Hin as [_ Hin]. eauto.
Qed.
Lemma map_field_elem name l props k v :
  map_field name l = Some props → (k, v) ∈ props → ∃ m, JObj m ∈ field_values name l ∧ (k, v) ∈ m.
Proof.
  unfold map_field. generalize (field_values name l). intros vs. revert props.
  induction vs as [|x vs IH] using rev_ind; intros props; simpl.
  { intros [= <-] H. by apply not_elem_of_nil in H. }
  rewrite foldl_app. simpl. intros (m0 & Hm & Hx)%bind_Some Hin.
  destruct x as [| | | | |m]; try done; injection Hx as <-.
  - by apply not_elem_of_nil in Hin.
  - apply elem_of_app in Hin as [Hin|Hin].
    + destruct (IH m0 Hm Hin) as (m' & ? & ?). exists m'. split; [|done]. apply elem_of_app. by left.
    + exists m. split; [|done]. apply elem_of_app. right. left.
Qed.
Lemma properties_depth raw props k fs :
  schema_properties raw = Some props → map_get k props = Some fs →
  (json_depth fs < json_depth raw)%nat.
Proof.
  unfold schema_properties, struct_members. intros (l & Hl & Hm)%bind_Some Hk%map_get_elem.
  destruct (map_field_elem _ _ _ _ _ Hm Hk) as (m & Hin & Hkm).
  apply field_values_elem in Hin as [k' Hin].
  destruct raw; try done; injection Hl as <-; [by apply not_elem_of_nil in Hin|].
  pose proof (depth_member _ _ _ Hin). pose proof (depth_member _ _ _ Hkm). lia.
Qed.
Lemma effective_depth fs path eff t e :
  effectiveResultSchema fs path = inr (eff, t, e) → (json_depth eff ≤ json_depth fs)%nat.
Proof.
  unfold effectiveResultSchema. intros H. apply result_bind_inr in H as (schema & Hs%unmarshal_inr & H).
  apply bind_unit_inr in H as [_ H]. case_bool_decide; [by simplify_eq|].
  apply result_bind_inr in H as ([eff' sc] & He & H).
  assert (json_depth eff' ≤ json_depth fs)%nat as Hd.
  { destruct (String.eqb (direct_type schema) "array"); [|by simplify_eq].
    apply result_bind_inr in He as (items & Hi%unmarshal_inr & He).
    apply result_bind_inr in He as (isch & _ & He). apply bind_unit_inr in He as [_ [= <- _]].
    apply map_get_elem in Hi. destruct fs; try done; injection Hs as <-; [by apply not_elem_of_nil in Hi|].
    pose proof (depth_member _ _ _ Hi). lia. }
  case_bool_decide; [by simplify_eq|]. destruct (String.eqb _ EmptyString); by simplify_eq.
Qed.
Lemma range_loop_ext {E A B} (f g : Z → A → B → E + B) i l b :
  (∀ j a b, a ∈ l → f j a b = g j a b) → range_loop f i l b = range_loop g i l b.
Proof.
  revert i b. induction l as [|a l IH]; intros i b H; simpl; [done|].
  rewrite (H i a b) by left. destruct (g i a b) as [|b']; [done|]. apply IH. intros. apply H. by right.
Qed.
Lemma collect_fuel n m raw prefix out path :
  (json_depth raw ≤ n)%nat → (n ≤ m)%nat →
  collectResultSchemaFields m raw prefix out path = collectResultSchemaFields n raw prefix out path.
Proof.
  revert m raw prefix out. induction n as [|n IH]; intros m raw prefix out Hd Hm.
  { destruct raw; simpl in Hd; lia. }
  destruct m as [|m]; [lia|]. simpl.
  destruct (struct_members raw) as [l|] eqn:Hl; [|done]. simpl.
  destruct (string_field "type" l); [|done]. simpl.
  destruct (map_field "properties" l) as [props|] eqn:Hp; [|done]. simpl.
  destruct (boolptr_field "additionalProperties" l); [|done].
  cbn -[collectResultSchemaFields sort_strings map_keys]. case_bool_decide; [done|].
  destruct (fail_if _ _) as [|[]]; [done|]. cbn -[collectResultSchemaFields sort_strings map_keys].
  destruct (fail_if _ _) as [|[]]; [done|]. cbn -[collectResultSchemaFields sort_strings map_keys].
  apply range_loop_ext. intros j k out1 _. destruct (map_get k props) as [fs|] eqn:Hk; [|done].
  destruct (effectiveResultSchema fs path) as [|[[eff t] e]] eqn:He; [done|].
  cbn -[collectResultSchemaFields]. destruct (negb e && String.eqb t "object"); [|done].
  apply effective_depth in He. apply (properties_depth raw) in Hk.
  - apply IH; lia.
  - unfold schema_properties. rewrite Hl. exact Hp.
Qed.

(** * The contract, stated without the validator *)
Definition localized (t : CanonicalLocalizedText) : Prop := lt_EN t ≠ EmptyString ∧ lt_PT t ≠ EmptyString.
Lemma incomplete_iff t : incomplete t = false ↔ localized t.
Proof. unfold incomplete. by rewrite orb_false_iff, !String.eqb_neq. Qed.

(** ** Options of an enum *)
Lemma keys_included (l l' : list string) : NoDup l → NoDup l' → length l = length l' → l ⊆ l' → l' ⊆ l.
Proof.
  intros Hl Hl' Hlen Hsub. assert (l ≡ₚ l') as Hp by (apply submseteq_length_Permutation; [by apply NoDup_submseteq|lia]).
  intros x. by rewrite Hp.
Qed.
Lemma zip_equal n (l1 l2 : list json) :
  (length l1 =? length l2)%nat && forallb (λ p, deep_equal n p.1 p.2) (zip l1 l2) = true ↔ Forall2 (λ a b, deep_equal n a b = true) l1 l2.
Proof.
  rewrite andb_true_iff, Nat.eqb_eq. split.
  - intros [Hl H]. revert l2 Hl H. induction l1 as [|a l1 IH]; intros [|b l2] Hl H; try done.
    cbn in H. apply andb_true_iff in H as [? ?]. injection Hl as Hl. constructor; auto.
  - induction 1 as [|a b l1 l2 Hab _ [IH1 IH2]]; [done|]. cbn. by rewrite IH1, Hab, IH2.
Qed.
Definition same_members (n : nat) (l1 l2 : list (string * json)) : Prop :=
  length (map_keys l1) = length (map_keys l2) ∧
  ∀ k, k ∈ map_keys l1 → ∃ x y, map_get k l1 = Some x ∧ map_get k l2 = Some y ∧ deep_equal n x y = true.
Lemma members_equal n (l1 l2 : list (string * json)) :
  deep_equal (S n) (JObj l1) (JObj l2) = true ↔ same_members n l1 l2.
Proof.
  cbn [deep_equal]. unfold same_members. rewrite andb_true_iff, Nat.eqb_eq, forallb_forall. setoid_rewrite <- list_elem_of_In.
  split; (intros [Hl H]; split; [done|]; intros k Hk; specialize (H k Hk)).
  - repeat case_match; try done. eauto.
  - destruct H as (x & y & -> & -> & ->). done.
Qed.
Lemma same_members_keys n l1 l2 k : same_members n l1 l2 → k ∈ map_keys l2 → k ∈ map_keys l1.
Proof.
  intros [Hl H]. apply (keys_included (map_keys l1) (map_keys l2)); [apply dedup_keys_NoDup..|done|].
  intros j Hj. destruct (H j Hj) as (_ & y & _ & Hy & _). apply map_get_keys. eauto.
Qed.
(** Two values that equal a third: what equals the one equals the other. *)
Lemma deep_equal_swap n m o x y w :
  deep_equal m o x = true → deep_equal m o y = true → deep_equal n w y = true → deep_equal n w x = true.
Proof.
  revert m o x y w. induction n as [|n IH]; intros [|m] o x y w Hx Hy Hw; try done.
  destruct o as [|bo|mo eo|so|lo|lo]; destruct x as [|bx|mx ex|sx|lx|lx]; try done; destruct y as [|b'|my ey|sy|ly|ly]; try done;
    destruct w as [|bw|mw ew|sw|lw|lw]; try done.
  - cbn in *. apply eqb_prop in Hx, Hy, Hw. rewrite Hw, <- Hy, Hx. apply eqb_reflx.
  - cbn in *. apply bool_decide_eq_true in Hx, Hy, Hw. apply bool_decide_eq_true. congruence.
  - cbn in *. apply String.eqb_eq in Hx, Hy, Hw. apply String.eqb_eq. congruence.
  - change (deep_equal (S n) (JArr lw) (JArr lx)) with ((length lw =? length lx)%nat && forallb (λ p, deep_equal n p.1 p.2) (zip lw lx)).
    apply (zip_equal n) in Hw. apply (zip_equal m) in Hx, Hy. apply zip_equal.
    revert lx ly lw Hx Hy Hw. induction lo as [|o lo IHl]; intros lx ly lw Hx Hy Hw; inversion Hx; subst; inversion Hy; subst; inversion Hw; subst; constructor; eauto.
  - apply members_equal. apply members_equal in Hx, Hy, Hw. split.
    + destruct Hx, Hy, Hw. congruence.
    + intros k Hk. destruct (proj2 Hw k Hk) as (a & b & Ha & Hb & Hab).
      assert (k ∈ map_keys lo) as Hko by (eapply same_members_keys; [exact Hy|]; apply map_get_keys; eauto).
      destruct (proj2 Hy k Hko) as (c & b' & Hc & Hb' & Hcb). destruct (proj2 Hx k Hko) as (c' & d & Hc' & Hd & Hcd).
      simplify_eq. exists a, d. eauto.
Qed.
Lemma equalJSON_swap v w x y : equalJSON v x = true → equalJSON v y = true → equalJSON w y = true → equalJSON w x = true.
Proof.
  unfold equalJSON, any_equal. destruct (parse_json v) as [o|]; [|done]. destruct (parse_json w) as [z|]; [|done].
  rewrite !andb_true_iff. intros [[? ?] Hx] [[? ?] Hy] [[? ?] Hw]. split_and!; try done. by eapply deep_equal_swap.
Qed.
Lemma match_value_is_Some v x values : x ∈ values → equalJSON v x = true → is_Some (match_value v values).
Proof.
  induction values as [|y values IH]; intros Hin Hx; [by apply not_elem_of_nil in Hin|]. cbn. destruct (equalJSON v y) eqn:He; [eauto|].
  apply elem_of_cons in Hin as [->|Hin]; [congruence|]. destruct (IH Hin Hx) as [r ->]. eauto.
Qed.
(** Taking the first match spoils no assignment. *)
Lemma options_match path i (options : list CanonicalResultValuePresentation) assigned values :
  Forall (λ o, localized (rv_Label o)) options → Forall2 (λ o v, equalJSON (rv_Value o) v = true) options assigned → assigned ≡ₚ values →
  ∃ rest, range_loop (λ i option unmatched,
    _ ← fail_if (incomplete (rv_Label option))
          (Errorf "%s options[%d] label requires en and pt text" [GS path; GI i]);
    unmarshal (match_value (rv_Value option) unmatched)
      (Errorf "%s options[%d] value is not an unmatched schema enum value"
         [GS path; GI i])) i options values = inr rest.
Proof.
  intros Hl. revert i assigned values. induction Hl as [|o options Ho Hl IH]; intros i assigned values H2 Hp; [by eexists|].
  inversion H2 as [|o' x options' xs Hx Hxs]; subst. cbn [range_loop].
  destruct (match_value_is_Some (rv_Value o) x values) as [rest Hm]; [rewrite <- Hp; by left|done|].
  pose proof (match_value_Some _ _ _ Hm) as (y & Hy & Hv).
  assert (∃ xs', Forall2 (λ o v, equalJSON (rv_Value o) v = true) options xs' ∧ xs' ≡ₚ rest) as (xs' & Hxs' & Hrest).
  { rewrite Hv in Hp. assert (y ∈ x :: xs) as Hin by (rewrite Hp; by left). apply elem_of_cons in Hin as [->|Hin].
    - exists xs. split; [done|]. by apply Permutation_cons_inv in Hp.
    - apply list_elem_of_split in Hin as (l1 & l2 & ->). exists (l1 ++ x :: l2). split.
      + apply Forall2_app_inv_r in Hxs as (o1 & o2 & H1 & Hc & ->). inversion Hc as [|w y' o3 l3 Hw Ho3]; subst.
        apply Forall2_app; [done|]. constructor; [by eapply equalJSON_swap|done].
      + apply (Permutation_cons_inv (a := y)). rewrite <- Hp, Permutation_middle. rewrite <- !Permutation_middle. apply perm_swap. }
  destruct (IH (i + 1) xs' rest Hxs' Hrest) as [r Hr]. exists r. apply result_bind_inr. exists rest. split; [|exact Hr].
  apply fail_bind_inr. split; [by apply incomplete_iff|]. by apply unmarshal_inr.
Qed.
(** The options localize the values of the enum one to one; without an enum there are none. *)
Definition options_fit (enumRaw : option json) (options : list CanonicalResultValuePresentation) : Prop :=
  match enumRaw with
  | None => options = []
  | Some enum => ∃ values assigned, unmarshal_array enum = Some values ∧ values ≠ [] ∧ assigned ≡ₚ values ∧
      Forall2 (λ o v, equalJSON (rv_Value o) v = true) options assigned ∧ Forall (λ o, localized (rv_Label o)) options
  end.
Lemma options_iff enumRaw options path : validateResultOptions enumRaw options path = inr () ↔ options_fit enumRaw options.
Proof.
  split.
  - intros H%result_options_match. unfold options_fit. destruct enumRaw as [enum|]; [|done].
    destruct H as (values & assigned & ? & ? & ? & ? & Hf). exists values, assigned. split_and!; try done.
    eapply Forall_impl; [exact Hf|]. intros o. apply incomplete_iff.
  - unfold options_fit, validateResultOptions. destruct enumRaw as [enum|]; [|intros ->; by apply fail_if_inr].
    intros (values & assigned & -> & Hne & Hp & H2 & Hl). destruct values as [|v values]; [done|]. apply fail_bind_inr. split.
    + apply negb_false_iff, Nat.eqb_eq. rewrite (Forall2_length _ _ _ H2). by apply Permutation_length.
    + destruct (options_match path 0 options assigned (v :: values) Hl H2 Hp) as [rest Hr]. apply result_bind_inr. eauto.
Qed.

(** ** Result fields *)
Definition field_fits (schema : json) (options : list CanonicalResultValuePresentation) : Prop :=
  ∃ eff ty en m, effective_schema schema eff ty en ∧ unmarshal_map eff = Some m ∧ options_fit (map_get "enum" m) options ∧
    (en = false → ty ∈ result_types).
Lemma field_schema_iff raw options path : validateResultFieldSchema raw options path = inr () ↔ field_fits raw options.
Proof.
  unfold validateResultFieldSchema, field_fits. rewrite result_bind_inr. split.
  - intros ([[eff ty] en] & He%effective_iff & H). apply result_bind_inr in H as (m & Hm%unmarshal_inr & H).
    apply bind_unit_inr in H as [Ho%options_iff H]. exists eff, ty, en, m. split_and!; try done. intros ->. cbn in H.
    by rewrite fail_if_inr, negb_bool_decide_false in H.
  - intros (eff & ty & en & m & He & Hm & Ho & Ht). exists (eff, ty, en). split; [by apply effective_iff|]. apply result_bind_inr.
    exists m. split; [by apply unmarshal_inr|]. apply bind_unit_inr. split; [by apply options_iff|]. destruct en; [done|].
    rewrite fail_if_inr, negb_bool_decide_false. auto.
Qed.
(** An object schema that closes its properties, through every object below it; only the
    root may have no properties. *)
Definition object_schema (raw : json) (ty : string) (props : list (string * json)) (closed : option bool) : Prop :=
  ∃ l, struct_members raw = Some l ∧ string_field "type" l = Some ty ∧ map_field "properties" l = Some props ∧
    boolptr_field "additionalProperties" l = Some closed.
Inductive result_shape : bool → json → Prop :=
| result_shape_object root raw props :
    object_schema raw "object" props (Some false) → (map_keys props = [] → root = true) →
    (∀ k fs, map_get k props = Some fs → ∃ eff ty en, effective_schema fs eff ty en) →
    (∀ k fs eff, map_get k props = Some fs → effective_schema fs eff "object" false → result_shape false eff) →
    result_shape root raw.
Lemma object_schema_properties raw ty props closed : object_schema raw ty props closed → schema_properties raw = Some props.
Proof. intros (l & Hl & _ & Hp & _). unfold schema_properties. by rewrite Hl. Qed.
Lemma range_loop_total {A B} (f : Z → A → B → gerror + B) (P : A → Prop) i l b :
  (∀ j a b, a ∈ l → (∃ b', f j a b = inr b') ↔ P a) → (∃ b', range_loop f i l b = inr b') ↔ Forall P l.
Proof.
  revert i b. induction l as [|a l IH]; intros i b Hf; cbn [range_loop]; [split; [constructor|by eexists]|].
  rewrite Forall_cons, <- (Hf i a b) by left. setoid_rewrite result_bind_inr. split.
  - intros (b' & b1 & H1 & H2). split; [eauto|]. apply (IH (i + 1) b1); [intros; apply Hf; by right|eauto].
  - intros [[b1 H1] H2]. apply (IH (i + 1) b1) in H2 as [b2 H2]; [eauto|]. intros; apply Hf; by right.
Qed.
Lemma struct_decodes raw e ty props closed :
  unmarshal (l ← struct_members raw; t ← string_field "type" l; p ← map_field "properties" l;
             a ← boolptr_field "additionalProperties" l; Some (t, p, a)) e = inr (ty, props, closed) ↔ object_schema raw ty props closed.
Proof.
  rewrite unmarshal_inr. split.
  - intros (l & Hl & (t & Ht & (p & Hp & (a & Ha & [= -> -> ->])%bind_Some)%bind_Some)%bind_Some)%bind_Some. by exists l.
  - intros (l & -> & H1 & H2 & H3). cbn. rewrite H1. cbn. rewrite H2. cbn. by rewrite H3.
Qed.
(** The collection succeeds on these schemas, and on no others. *)
Lemma collect_iff fuel raw prefix out path :
  (json_depth raw < fuel)%nat →
  (∃ out', collectResultSchemaFields fuel raw prefix out path = inr out') ↔ result_shape (bool_decide (prefix = [])) raw.
Proof.
  revert raw prefix out. induction fuel as [|fuel IH]; intros raw prefix out Hd; [lia|]. cbn [collectResultSchemaFields]. setoid_rewrite result_bind_inr.
  assert (∀ props, schema_properties raw = Some props →
    (∃ out', range_loop (λ _ key out, match map_get key props with
          | None => inr out
          | Some fieldSchema =>
              let fieldPath := prefix ++ [key] in
              let out := <[fieldPath := fieldSchema]> out in
              '(effective, effectiveType, hasEnum) ← effectiveResultSchema fieldSchema path;
              if negb hasEnum && String.eqb effectiveType "object"
              then collectResultSchemaFields fuel effective fieldPath out path
              else inr out
          end) 0 (sort_strings (map_keys props)) out = inr out') ↔
    (∀ k fs, map_get k props = Some fs → ∃ eff ty en, effective_schema fs eff ty en) ∧
    (∀ k fs eff, map_get k props = Some fs → effective_schema fs eff "object" false → result_shape false eff)) as Hloop.
  { intros props Hp. rewrite (range_loop_total _ (λ k, ∀ fs, map_get k props = Some fs →
      (∃ eff ty en, effective_schema fs eff ty en) ∧ ∀ eff, effective_schema fs eff "object" false → result_shape false eff)).
    - rewrite Forall_forall. split.
      + intros H. assert (∀ k fs, map_get k props = Some fs → k ∈ sort_strings (map_keys props)) as Hin.
        { intros k fs Hk. rewrite sort_strings_perm. apply map_get_keys. eauto. }
        split; intros k fs; [|intros eff Hk He]; [intros Hk|]; by apply (H k (Hin k fs Hk) fs Hk).
      + intros [H1 H2] k _ fs Hk. split; [by eapply H1|]. intros eff. by apply (H2 k).
    - intros j k out1 Hin. rewrite sort_strings_perm in Hin. apply map_get_keys in Hin as [fs Hk]. rewrite Hk. cbv zeta.
      setoid_rewrite result_bind_inr. pose proof (properties_depth raw props k fs Hp Hk) as Hdf. split.
      + intros (out2 & [[eff ty] en] & He & H) fs' [= <-]. split; [exists eff, ty, en; by eapply effective_iff|].
        intros eff' He'%(effective_iff _ path). rewrite He in He'. injection He' as -> -> ->. cbn in H.
        pose proof (effective_depth _ _ _ _ _ He). rewrite <- (bool_decide_false (prefix ++ [k] = [])) by (by destruct prefix).
        apply (IH eff' (prefix ++ [k]) (<[prefix ++ [k] := fs]> out1)); [lia|eauto].
      + intros H. destruct (H fs eq_refl) as [(eff & ty & en & He) Hs]. apply (effective_iff _ path) in He.
        destruct (negb en && String.eqb ty "object") eqn:Hg.
        * pose proof Hg as Hg'. apply andb_true_iff in Hg' as [->%negb_true_iff ->%String.eqb_eq].
          pose proof (effective_depth _ _ _ _ _ He). apply (effective_iff _ path) in He as He'.
          destruct (proj2 (IH eff (prefix ++ [k]) (<[prefix ++ [k] := fs]> out1) ltac:(lia))) as [out2 H2].
          { rewrite bool_decide_false by (by destruct prefix). by apply Hs. }
          exists out2, (eff, "object", false). by split.
        * eexists _, (eff, ty, en). split; [done|]. cbv beta iota. by rewrite Hg. }
  split.
  - intros (out' & [[ty props] closed] & Hdec%struct_decodes & H). pose proof (object_schema_properties _ _ _ _ Hdec) as Hp.
    case_bool_decide as Hk.
    + rewrite fail_bind_inr, bind_unit_inr, bool_decide_eq_false in H. destruct H as (Hpre & Hroot & _).
      unfold validatePropertylessResultRoot in Hroot. rewrite fail_bind_inr, fail_if_inr, negb_false_iff, String.eqb_eq, bool_decide_eq_false in Hroot.
      destruct Hroot as [-> Hc%dec_stable]. subst closed. apply dec_stable in Hpre as ->.
      assert (∀ k fs, map_get k props ≠ Some fs) as Hno.
      { intros k fs Hkf. assert (k ∈ map_keys props) as Hin by (apply map_get_keys; eauto). rewrite Hk in Hin. by apply not_elem_of_nil in Hin. }
      eapply result_shape_object; [exact Hdec|done|intros k fs Hkf; by destruct (Hno k fs)|intros k fs eff Hkf; by destruct (Hno k fs)].
    + rewrite !fail_bind_inr, negb_false_iff, String.eqb_eq, bool_decide_eq_false in H. destruct H as (-> & Hc%dec_stable & H). subst closed.
      destruct (proj1 (Hloop props Hp) (ex_intro _ out' H)) as [H1 H2]. by eapply result_shape_object.
  - inversion 1 as [root raw' props Hdec Hroot H1 H2]; subst. pose proof (object_schema_properties _ _ _ _ Hdec) as Hp.
    destruct (bool_decide (map_keys props = [])) eqn:Hk.
    + exists out, ("object", props, Some false). split; [by apply struct_decodes|]. cbv beta iota. rewrite Hk.
      apply bool_decide_eq_true in Hk. apply Hroot, bool_decide_eq_true in Hk. subst prefix. done.
    + destruct (proj2 (Hloop props Hp)) as [out' Ho]; [done|]. exists out', ("object", props, Some false). split; [by apply struct_decodes|].
      cbv beta iota. rewrite Hk. apply fail_bind_inr. split; [done|]. apply fail_bind_inr. split; [done|]. exact Ho.
Qed.
(** The presented fields are exactly the declared property paths, each with complete labels
    and options that fit the schema at the path. *)
Definition fields_contract (raw : string) (fields : list CanonicalResultFieldPresentation) : Prop :=
  if blank_schema (TrimSpace raw) then fields = []
  else ∃ v, parse_json (TrimSpace raw) = Some v ∧ result_shape true v ∧ NoDup (rf_Path <$> fields) ∧
    (∀ p, p ∈ rf_Path <$> fields ↔ ∃ s, declared_path v p s) ∧
    Forall (λ f, EmptyString ∉ rf_Path f ∧ localized (rf_Label f) ∧ ∃ s, declared_path v (rf_Path f) s ∧ field_fits s (rf_Options f)) fields.
Lemma collect_declared v schemas path :
  collectResultSchemaFields (S (json_depth v)) v [] ∅ path = inr schemas → ∀ q s, schemas !! q = Some s ↔ declared_path v q s.
Proof.
  intros Hs q s. rewrite (collect_ok path _ v [] ∅ schemas) by (done || exact Hs).
  rewrite lookup_empty. simpl. split; [|naive_solver]. by intros [?|(p & -> & ?)].
Qed.
Lemma result_fields_iff raw fields path : validateResultFields raw fields path = inr () ↔ fields_contract raw fields.
Proof.
  unfold validateResultFields, fields_contract. destruct (blank_schema (TrimSpace raw)).
  { rewrite fail_if_inr, bool_decide_eq_false. split; [apply dec_stable|tauto]. }
  assert (∀ v schemas, collectResultSchemaFields (S (json_depth v)) v [] ∅ path = inr schemas →
    Forall (presents schemas path) fields ↔
    Forall (λ f, EmptyString ∉ rf_Path f ∧ localized (rf_Label f) ∧ ∃ s, declared_path v (rf_Path f) s ∧ field_fits s (rf_Options f)) fields) as Hpres.
  { intros v schemas Hc. apply Forall_iff. intros f. unfold presents. setoid_rewrite (collect_declared v schemas path Hc).
    setoid_rewrite field_schema_iff. rewrite incomplete_iff. split.
    - intros (_ & Hseg & ? & ?). split_and!; try done. intros Hin. by apply (Forall_forall (λ x, x ≠ EmptyString) (rf_Path f)) in Hin.
    - intros (Hseg & ? & s & Hs & Hf). split_and!; [|by apply Forall_forall; intros x Hx ->|done|eauto].
      intros E. rewrite E in Hs. by apply declared_path_nil in Hs. }
  rewrite result_bind_inr. setoid_rewrite unmarshal_inr. apply exist_proper. intros v. apply and_iff_compat_l.
  rewrite <- (collect_iff (S (json_depth v)) v [] ∅ path) by lia. split.
  - intros H. apply result_bind_inr in H as (schemas & Hs & H). apply result_bind_inr in H as (indexed & Hi & H).
    apply index_iff in Hi as (Hnd & -> & HF). pose proof (collect_declared v schemas path Hs) as Hdecl.
    split_and!; [eauto|done| |by apply (Hpres v schemas)].
    apply fail_bind_inr in H as [_ H]. apply range_check_Forall with (P := λ k, k ∈ rf_Path <$> fields) in H.
    2:{ intros j k. by rewrite fail_if_inr, negb_bool_decide_false, elem_of_list_to_set. }
    rewrite Forall_forall in H. intros p. setoid_rewrite <- Hdecl. split.
    + intros (f & -> & Hf)%list_elem_of_fmap. rewrite Forall_forall in HF. destruct (HF f Hf) as (_ & _ & _ & s & Hs' & _). eauto.
    + intros [s Hd]. apply H. apply list_elem_of_fmap. exists (p, s). split; [done|]. by apply elem_of_map_to_list.
  - intros ((schemas & Hs) & Hnd & Hp & HF). apply result_bind_inr. exists schemas. split; [done|].
    apply result_bind_inr. exists (list_to_set (rf_Path <$> fields)). split; [apply index_iff; split_and!; [done|done|by apply (Hpres v)]|].
    assert (list_to_set (rf_Path <$> fields) = dom schemas) as Hdom.
    { apply set_eq. intros p. rewrite elem_of_list_to_set, Hp, elem_of_dom. unfold is_Some. by setoid_rewrite (collect_declared v schemas path Hs). }
    apply fail_bind_inr. split.
    + rewrite Hdom, size_dom. by rewrite Nat.eqb_refl.
    + apply (range_check_Forall _ (λ k, k ∈ dom schemas)); [intros j k; by rewrite fail_if_inr, negb_bool_decide_false, Hdom|].
      apply Forall_forall. intros p ([p' s] & -> & Hin%elem_of_map_to_list)%list_elem_of_fmap. by apply elem_of_dom_2 in Hin.
Qed.

(** ** Result presentations *)
Definition outcomes_presented (terminal : list string) (l : list CanonicalResultOutcomePresentation) : Prop :=
  NoDup (ro_Outcome <$> l) ∧ (∀ o, o ∈ ro_Outcome <$> l ↔ o ∈ terminal) ∧ Forall (λ p, localized (ro_Summary p)) l.
Lemma outcomes_iff key (T : gset string) l :
  validateResultOutcomePresentations key T l = inr () ↔ outcomes_presented (elements T) l.
Proof.
  unfold validateResultOutcomePresentations, outcomes_presented. rewrite fail_bind_inr, result_bind_inr, negb_false_iff, Nat.eqb_eq.
  setoid_rewrite (seen_loop ro_Outcome (λ p, ro_Outcome p ∈ T ∧ localized (ro_Summary p))).
  2:{ intros j p seen s'. cbn zeta. rewrite !fail_bind_inr, negb_bool_decide_false, bool_decide_eq_false, incomplete_iff. naive_solver. }
  setoid_rewrite elem_of_elements. split.
  - intros (Hlen & s & (Hnd & HF & _) & _). apply Forall_and in HF as [HT HS]. split_and!; [done| |done].
    assert (ro_Outcome <$> l ⊆ elements T) as Hsub.
    { intros o (p & -> & Hp)%list_elem_of_fmap. apply elem_of_elements. rewrite Forall_forall in HT. by apply HT. }
    intros o. split; [intros Ho%Hsub; by apply elem_of_elements|]. intros Ho. apply (keys_included _ (elements T)); [done|apply NoDup_elements| |done|by apply elem_of_elements].
    rewrite length_fmap. exact Hlen.
  - intros (Hnd & Hin & HS). split.
    + rewrite <- (length_fmap ro_Outcome). unfold size, set_size. cbn. apply Permutation_length. apply NoDup_Permutation; [done|apply NoDup_elements|].
      intros o. by rewrite Hin, elem_of_elements.
    + eexists. split; [|done]. split_and!; [done| |intros p _; apply not_elem_of_empty|reflexivity]. apply Forall_and. split; [|done].
      apply Forall_forall. intros p Hp. apply Hin. by apply list_elem_of_fmap_2.
Qed.
(** The schema of what a node returns. *)
Definition result_schema (n : CanonicalNode) : string :=
  if decide (cn_Kind n = NodeHumanGate) then match cn_HumanGate n with Some g => hg_ResponseSchema g | None => EmptyString end
  else default EmptyString (cn_OutputSchema n).
(** Terminal nodes, and only they, present their result: every terminal outcome once with a
    complete summary, and the fields of the schema. *)
Definition result_contract (terminals : list CanonicalTerminalOutcome) (n : CanonicalNode) : Prop :=
  match cn_ResultPresentation n with
  | None => ∀ o, (cn_Key n, o) ∉ terminal_key <$> terminals
  | Some rp =>
      rp_Outcomes rp ≠ [] ∧ NoDup (ro_Outcome <$> rp_Outcomes rp) ∧
      (∀ o, o ∈ ro_Outcome <$> rp_Outcomes rp ↔ (cn_Key n, o) ∈ terminal_key <$> terminals) ∧
      Forall (λ p, localized (ro_Summary p)) (rp_Outcomes rp) ∧ fields_contract (result_schema n) (rp_Fields rp)
  end.
Lemma result_node_iff (nodes : gmap string CanonicalNode) terminals (k : string) (n : CanonicalNode) :
  nodes !! k = Some n → cn_Key n = k →
  (match nodes !! k with
    | None => inr ()
    | Some node =>
        let terminalOutcomes := default ∅ (terminals_by_node terminals !! k) in
        if bool_decide (terminalOutcomes = ∅) then
          fail_if (bool_decide (is_Some (cn_ResultPresentation node)))
            (Errorf "graph node %q resultPresentation is only allowed on a terminal node" [GS k])
        else
          match cn_ResultPresentation node with
          | None =>
              inl (Errorf "graph node %q requires resultPresentation for its terminal outcomes" [GS k])
          | Some rp =>
              _ ← validateResultOutcomePresentations k terminalOutcomes (rp_Outcomes rp);
              let schema :=
                if String.eqb (cn_Kind node) NodeHumanGate
                then match cn_HumanGate node with Some g => hg_ResponseSchema g | None => EmptyString end
                else default EmptyString (cn_OutputSchema node) in
              validateResultFields schema (rp_Fields rp) "graph node %q resultPresentation.fields"
          end
    end = inr ()) ↔ result_contract terminals n.
Proof.
  intros Hn Hk. rewrite Hn. cbv zeta. set (T := default ∅ (terminals_by_node terminals !! k) : gset string).
  assert (∀ o, o ∈ T ↔ (cn_Key n, o) ∈ terminal_key <$> terminals) as HT.
  { intros o. unfold T, terminals_by_node. rewrite terminals_by_node_spec, Hk, lookup_empty. cbn. set_solver. }
  unfold result_contract. destruct (cn_ResultPresentation n) as [rp|]; setoid_rewrite <- HT.
  - case_bool_decide as HE.
    + split; [by rewrite fail_if_inr, bool_decide_true|]. intros (Hne & _ & Hin & _). destruct (rp_Outcomes rp) as [|p l]; [done|]. exfalso.
      assert (ro_Outcome p ∈ T) as Hp by (apply Hin; by left). rewrite HE in Hp. by apply not_elem_of_empty in Hp.
    + rewrite bind_unit_inr, outcomes_iff, result_fields_iff. unfold outcomes_presented. setoid_rewrite elem_of_elements.
      assert ((if String.eqb (cn_Kind n) NodeHumanGate then match cn_HumanGate n with Some g => hg_ResponseSchema g | None => EmptyString end
        else default EmptyString (cn_OutputSchema n)) = result_schema n) as ->
        by (unfold result_schema; destruct (String.eqb_spec (cn_Kind n) NodeHumanGate); by case_decide).
      split; [|naive_solver]. intros [(Hnd & Hin & HS) Hf]. split_and!; try done. intros E. rewrite E in Hin. apply HE, set_eq. intros o. rewrite <- Hin. set_solver.
  - case_bool_decide as HE.
    + rewrite fail_if_inr, bool_decide_false by (by intros [? ?]). rewrite HE. set_solver.
    + split; [done|]. intros H. exfalso. apply HE. set_solver.
Qed.
Lemma result_presentations_iff l terminals :
  NoDup (cn_Key <$> l) → validateResultPresentations (node_map l) terminals = inr () ↔ Forall (result_contract terminals) l.
Proof.
  intros Hnd. assert (∀ n, n ∈ l → node_map l !! cn_Key n = Some n) as Hmap.
  { intros n Hn. apply elem_of_list_to_map_1; [by rewrite <- list_fmap_compose|]. apply list_elem_of_fmap. by exists n. }
  unfold validateResultPresentations.
  rewrite (range_check_Forall _ (λ k, ∀ n, node_map l !! k = Some n → cn_Key n = k → result_contract terminals n)).
  - rewrite !Forall_forall. split.
    + intros H n Hn. apply (H (cn_Key n)); [|by apply Hmap|done]. rewrite sort_strings_perm. apply list_elem_of_fmap. exists (cn_Key n, n).
      split; [done|]. by apply elem_of_map_to_list, Hmap.
    + intros H k _ n Hn _. apply H. apply elem_of_list_to_map_2 in Hn. by apply list_elem_of_fmap in Hn as (n' & [= _ ->] & Hin).
  - intros j k. destruct (node_map l !! k) as [n|] eqn:Hn; [|naive_solver].
    assert (cn_Key n = k) as Hk. { apply elem_of_list_to_map_2, list_elem_of_fmap in Hn as (n' & [= -> ->] & _). done. }
    pose proof (result_node_iff (node_map l) terminals k n Hn Hk) as H. rewrite Hn in H. rewrite H. naive_solver.
Qed.

(** ** Human gates *)
Definition keywords_in (allowed : list string) (m : list (string * json)) : Prop := ∀ k, is_Some (map_get k m) → k ∈ allowed.
Lemma keywords_iff (e : string → gerror) allowed m :
  range_check (λ _ keyword, fail_if (negb (bool_decide (keyword ∈ allowed))) (e keyword)) 0 (map_keys m) = inr () ↔ keywords_in allowed m.
Proof.
  rewrite (range_check_Forall _ (λ k, k ∈ allowed)); [|intros j k; by rewrite fail_if_inr, negb_bool_decide_false].
  rewrite Forall_forall. unfold keywords_in. by setoid_rewrite map_get_keys.
Qed.
(** A property the form can show: a nonempty enum or a direct type. *)
Definition form_property (raw : json) : Prop :=
  ∃ m, unmarshal_map raw = Some m ∧ keywords_in property_keywords m ∧
    match map_get "enum" m with
    | Some enum => ∃ v values, unmarshal_array enum = Some (v :: values)
    | None => ∃ v ty, map_get "type" m = Some v ∧ unmarshal_string v = Some ty ∧ ty ∈ property_types
    end.
Lemma form_property_iff key raw : validateDashboardResponseProperty key raw = inr () ↔ form_property raw.
Proof.
  unfold validateDashboardResponseProperty, form_property. rewrite result_bind_inr. setoid_rewrite unmarshal_inr. setoid_rewrite bind_unit_inr.
  apply exist_proper. intros m. rewrite (keywords_iff (λ k, Errorf "property %q keyword %q is not supported by the v1 Dashboard form" [GS key; GS k])).
  destruct (map_get "enum" m) as [enum|].
  - destruct (unmarshal_array enum) as [[|v values]|]; naive_solver.
  - rewrite result_bind_inr. setoid_rewrite unmarshal_inr. setoid_rewrite fail_if_inr. setoid_rewrite negb_bool_decide_false.
    setoid_rewrite bind_Some. naive_solver.
Qed.
(** The properties a response schema declares; a blank schema declares none. *)
Definition response_properties (raw : string) : option (list (string * json)) :=
  if blank_schema (TrimSpace raw) then Some [] else v ← parse_json (TrimSpace raw); schema_properties v.
Lemma response_properties_iff raw props : responseSchemaProperties raw = inr props ↔ response_properties raw = Some props.
Proof. unfold responseSchemaProperties, response_properties. destruct (blank_schema _); [naive_solver|]. by rewrite unmarshal_inr. Qed.
(** A response schema the form can show. *)
Definition form_schema (raw : string) : Prop :=
  blank_schema (TrimSpace raw) = true ∨
  ∃ v m props, parse_json (TrimSpace raw) = Some v ∧ unmarshal_map v = Some m ∧ keywords_in dashboard_keywords m ∧
    map_get "type" m = Some (JStr "object") ∧ response_properties raw = Some props ∧
    (∀ r, map_get "required" m = Some r → ∃ l names, unmarshal_array r = Some l ∧ unmarshal_strings l = Some names ∧
       ∀ k, k ∈ names → is_Some (map_get k props)) ∧
    (∀ r, map_get "additionalProperties" m = Some r → is_Some (unmarshal_bool r)) ∧
    (∀ k p, map_get k props = Some p → form_property p).
Lemma type_object m : (v ← map_get "type" m; unmarshal_string v) = Some "object" ↔ map_get "type" m = Some (JStr "object").
Proof. destruct (map_get "type" m) as [[]|]; cbn; naive_solver. Qed.
Lemma required_iff (m props : list (string * json)) e (e' : string → gerror) :
  (required ← match map_get "required" m with
              | Some value => unmarshal (l ← unmarshal_array value; unmarshal_strings l) e
              | None => inr []
              end;
   _ ← range_check (λ _ key, fail_if (bool_decide (map_get key props = None)) (e' key)) 0 required;
   inr () : check ()) = inr () ↔
  ∀ r, map_get "required" m = Some r → ∃ l names, unmarshal_array r = Some l ∧ unmarshal_strings l = Some names ∧ ∀ k, k ∈ names → is_Some (map_get k props).
Proof.
  assert (∀ names, range_check (λ _ key, fail_if (bool_decide (map_get key props = None)) (e' key)) 0 names = inr () ↔ ∀ k, k ∈ names → is_Some (map_get k props)) as Hc.
  { intros names. rewrite (range_check_Forall _ (λ k, is_Some (map_get k props))), Forall_forall; [done|].
    intros j k. by rewrite fail_if_inr, bool_decide_eq_false, not_eq_None_Some. }
  rewrite result_bind_inr. setoid_rewrite bind_unit_inr. setoid_rewrite Hc. destruct (map_get "required" m) as [r|].
  - setoid_rewrite unmarshal_inr. setoid_rewrite bind_Some. split; [intros (names & (l & ? & ?) & ? & _) r' [= <-]; eauto|].
    intros H. destruct (H r eq_refl) as (l & names & ? & ? & ?). eauto 10.
  - split; [done|]. intros _. exists []. split_and!; [done| |done]. by intros k ?%not_elem_of_nil.
Qed.
Lemma form_schema_iff raw : validateDashboardResponseSchema raw = inr () ↔ form_schema raw.
Proof.
  unfold validateDashboardResponseSchema, form_schema. destruct (blank_schema (TrimSpace raw)); [split; [by left|done]|].
  rewrite result_bind_inr.
  assert (∀ props, range_check (λ _ key, match map_get key props with Some property => validateDashboardResponseProperty key property | None => inr () end)
    0 (map_keys props) = inr () ↔ ∀ k p, map_get k props = Some p → form_property p) as Hprops.
  { intros props. rewrite (range_check_Forall _ (λ k, ∀ p, map_get k props = Some p → form_property p)).
    - rewrite Forall_forall. split; [|naive_solver]. intros H k p Hk. apply (H k); [|done]. apply map_get_keys. eauto.
    - intros j k. destruct (map_get k props) as [p|]; [rewrite form_property_iff|]; naive_solver. }
  split.
  - intros (m & (v & Hv & Hm)%unmarshal_inr%bind_Some & H). right. rewrite !bind_unit_inr, fail_if_inr, negb_bool_decide_false, type_object in H. destruct H as (Hk & Ht & H).
    apply (keywords_iff (λ k, Errorf "keyword %q is not supported by the v1 Dashboard form" [GS k])) in Hk.
    apply result_bind_inr in H as (props & Hp%response_properties_iff & H). apply result_bind_inr in H as (names & Hn & H).
    apply bind_unit_inr in H as [Hr H]. apply result_bind_inr in H as (b & Hb & H). exists v, m, props. split_and!; try done.
    + apply (required_iff m props (Errorf "required must be an array of property names" [])
        (λ key, Errorf "required property %q must be declared directly in properties" [GS key])). apply result_bind_inr. exists names. split; [done|].
      by apply bind_unit_inr.
    + intros r Hr'. rewrite Hr' in Hb. apply unmarshal_inr in Hb. eauto.
    + by apply Hprops.
  - intros [?|(v & m & props & Hv & Hm & Hk & Ht & Hp & Hr & Ha & Hf)]; [done|]. exists m. split; [apply unmarshal_inr, bind_Some; eauto|]. apply bind_unit_inr.
    split; [by apply (keywords_iff (λ k, Errorf "keyword %q is not supported by the v1 Dashboard form" [GS k]))|].
    apply bind_unit_inr. split; [by rewrite fail_if_inr, negb_bool_decide_false, type_object|].
    apply result_bind_inr. exists props. split; [by apply response_properties_iff|].
    apply (required_iff m props (Errorf "required must be an array of property names" [])
      (λ key, Errorf "required property %q must be declared directly in properties" [GS key])) in Hr.
    apply result_bind_inr in Hr as (names & Hn & Hr). apply bind_unit_inr in Hr as [Hr _]. apply result_bind_inr. exists names. split; [done|].
    apply bind_unit_inr. split; [done|]. apply result_bind_inr. destruct (map_get "additionalProperties" m) as [r|] eqn:Er.
    + destruct (Ha r eq_refl) as [b Hb]. exists b. split; [by apply unmarshal_inr|by apply Hprops].
    + exists false. split; [done|by apply Hprops].
Qed.
(** The options of a field localize its enum, one label a value. *)
Definition field_options (raw : json) (labels : list CanonicalLocalizedText) : Prop :=
  ∃ l enum, struct_members raw = Some l ∧ array_field "enum" l = Some enum ∧ length labels = length enum ∧ Forall localized labels.
Lemma labels_iff labels path : validateLocalizedLabels labels path = inr () ↔ Forall localized labels.
Proof. apply range_check_Forall. intros j t. by rewrite fail_if_inr, incomplete_iff. Qed.
Lemma field_options_iff key raw labels : validateHumanGateFieldOptions key raw labels = inr () ↔ field_options raw labels.
Proof.
  unfold validateHumanGateFieldOptions, field_options. rewrite result_bind_inr. split.
  - intros (enum & (l & Hl & He)%unmarshal_inr%bind_Some & H). rewrite fail_bind_inr, negb_false_iff, Nat.eqb_eq, labels_iff in H. naive_solver.
  - intros (l & enum & Hl & He & Hlen & Hf). exists enum. split; [apply unmarshal_inr, bind_Some; eauto|].
    by rewrite fail_bind_inr, negb_false_iff, Nat.eqb_eq, labels_iff.
Qed.
Lemma index_gate_iff fields indexed :
  indexHumanGateFields fields = inr indexed ↔
  NoDup (hf_Key <$> fields) ∧ Forall (λ f, hf_Key f ≠ EmptyString ∧ localized (hf_Label f)) fields ∧
  indexed = list_to_map ((λ f, (hf_Key f, f)) <$> fields).
Proof.
  assert (∀ i (acc : gmap string CanonicalHumanGateFieldPresentation),
    range_loop (λ i field indexed,
      _ ← fail_if (String.eqb (hf_Key field) EmptyString) (Errorf "fields[%d].key is required" [GI i]);
      _ ← fail_if (bool_decide (is_Some (indexed !! hf_Key field))) (Errorf "field %q is duplicated" [GS (hf_Key field)]);
      _ ← fail_if (incomplete (hf_Label field)) (Errorf "field %q label requires en and pt text" [GS (hf_Key field)]);
      inr (<[hf_Key field := field]> indexed)) i fields acc = inr indexed ↔
    NoDup (hf_Key <$> fields) ∧ Forall (λ f, hf_Key f ≠ EmptyString ∧ localized (hf_Label f)) fields ∧
    (∀ f, f ∈ fields → acc !! hf_Key f = None) ∧ indexed = list_to_map ((λ f, (hf_Key f, f)) <$> fields) ∪ acc) as H.
  { induction fields as [|f fields IH]; intros i acc.
    - cbn. rewrite (left_id_L ∅ (∪)). split; [intros [= ->]; split_and!; [constructor|constructor|by intros ? ?%not_elem_of_nil|done]|naive_solver].
    - cbn [range_loop]. rewrite result_bind_inr. setoid_rewrite fail_bind_inr. setoid_rewrite fail_bind_inr. setoid_rewrite fail_bind_inr.
      setoid_rewrite String.eqb_neq. setoid_rewrite bool_decide_eq_false. setoid_rewrite <- eq_None_not_Some. setoid_rewrite incomplete_iff. cbn [fmap list_fmap]. rewrite NoDup_cons, Forall_cons. cbn.
      assert (acc !! hf_Key f = None → hf_Key f ∉ hf_Key <$> fields →
        (list_to_map ((λ f, (hf_Key f, f)) <$> fields) : gmap string _) ∪ <[hf_Key f := f]> acc = <[hf_Key f := f]> (list_to_map ((λ f, (hf_Key f, f)) <$> fields)) ∪ acc) as Hu.
      { intros _ Hf. rewrite <- insert_union_r, insert_union_l; [done|]. apply not_elem_of_list_to_map_1. by rewrite <- list_fmap_compose. }
      split.
      + intros (acc1 & (Hne & Hn & Hl & [= <-]) & (Hnd & HF & Hfr & ->)%IH).
        assert (hf_Key f ∉ hf_Key <$> fields) as Hk.
        { intros (g & Hg & Hin)%list_elem_of_fmap. specialize (Hfr g Hin). rewrite <- Hg, lookup_insert_eq in Hfr. done. }
        split_and!; try done; [|by apply Hu]. intros g [->|Hg]%elem_of_cons; [done|]. specialize (Hfr g Hg). by apply lookup_insert_None in Hfr as [? _].
      + intros ((Hk & Hnd) & ((Hne & Hl) & HF) & Hfr & ->). exists (<[hf_Key f := f]> acc). split; [split_and!; try done; apply Hfr; by left|].
        apply IH. split_and!; try done; [|symmetry; apply Hu; [apply Hfr; by left|done]].
        intros g Hg. apply lookup_insert_None. split; [apply Hfr; by right|]. intros E. apply Hk. rewrite E. by apply list_elem_of_fmap_2. }
  unfold indexHumanGateFields. rewrite H, (right_id_L ∅ (∪)). naive_solver.
Qed.
(** What a gate shows: one label for each declared outcome, and every declared property of
    the response schema, and nothing else, as a field. *)
Definition gate_presented (n : CanonicalNode) (gate : CanonicalHumanGate) : Prop :=
  length (hp_Outcomes (hg_Presentation gate)) = length (cn_Outcomes n) ∧ Forall localized (hp_Outcomes (hg_Presentation gate)) ∧
  ∃ props, response_properties (hg_ResponseSchema gate) = Some props ∧
    NoDup (hf_Key <$> hp_Fields (hg_Presentation gate)) ∧
    (∀ k, k ∈ hf_Key <$> hp_Fields (hg_Presentation gate) ↔ is_Some (map_get k props)) ∧
    Forall (λ f, hf_Key f ≠ EmptyString ∧ localized (hf_Label f) ∧ ∀ p, map_get (hf_Key f) props = Some p → field_options p (hf_Options f))
      (hp_Fields (hg_Presentation gate)).
Lemma gate_presented_iff n gate : validateHumanGatePresentation n gate = inr () ↔ gate_presented n gate.
Proof.
  unfold validateHumanGatePresentation, gate_presented. cbv zeta. rewrite fail_bind_inr, negb_false_iff, Nat.eqb_eq, bind_unit_inr, labels_iff, result_bind_inr.
  apply and_iff_compat_l, and_iff_compat_l, exist_proper. intros props. rewrite response_properties_iff. apply and_iff_compat_l.
  set (fields := hp_Fields (hg_Presentation gate)). set (M := list_to_map ((λ f, (hf_Key f, f)) <$> fields) : gmap string CanonicalHumanGateFieldPresentation).
  assert (NoDup (hf_Key <$> fields) → (∀ f, f ∈ fields → M !! hf_Key f = Some f) ∧ (∀ k f, M !! k = Some f → f ∈ fields ∧ hf_Key f = k)) as HM.
  { intros Hnd. split.
    - intros f Hf. apply elem_of_list_to_map_1; [by rewrite <- list_fmap_compose|]. apply list_elem_of_fmap. by exists f.
    - intros k f (g & [= -> ->] & Hg)%elem_of_list_to_map_2%list_elem_of_fmap. done. }
  rewrite result_bind_inr. setoid_rewrite bind_unit_inr. split.
  - intros (indexed & (Hnd & HF & ->)%index_gate_iff & Hex & Hall). fold M in Hex, Hall. destruct (HM Hnd) as [HM1 HM2].
    apply (range_check_Forall _ (λ k, is_Some (map_get k props))) in Hex; [|intros j k; by rewrite fail_if_inr, bool_decide_eq_false, not_eq_None_Some].
    apply (range_check_Forall _ (λ k, ∃ f, M !! k = Some f ∧ ∀ p, map_get k props = Some p → field_options p (hf_Options f))) in Hall.
    2:{ intros j k. destruct (M !! k) as [f|]; [|naive_solver]. destruct (map_get k props) as [p|]; [rewrite field_options_iff|]; naive_solver. }
    rewrite Forall_forall in Hex. rewrite Forall_forall in Hall. rewrite Forall_forall in HF. setoid_rewrite sort_strings_perm in Hall. setoid_rewrite <- map_get_keys in Hall. split_and!; [done| |].
    + intros k. split.
      * intros (f & -> & Hf)%list_elem_of_fmap. apply Hex. apply list_elem_of_fmap. exists (hf_Key f, f). split; [done|]. by apply elem_of_map_to_list, HM1.
      * intros Hk. destruct (Hall k Hk) as (f & Hf & _). apply HM2 in Hf as [Hf <-]. by apply list_elem_of_fmap_2.
    + apply Forall_forall. intros f Hf. destruct (HF f Hf). split_and!; try done. intros p Hp. destruct (Hall (hf_Key f)) as (g & Hg & Ho); [eauto|].
      rewrite (HM1 f Hf) in Hg. injection Hg as <-. by apply Ho.
  - intros (Hnd & Hin & HF). destruct (HM Hnd) as [HM1 HM2]. exists M. rewrite Forall_forall in HF. split_and!.
    + apply index_gate_iff. split_and!; try done. apply Forall_forall. intros f Hf. by destruct (HF f Hf) as (? & ? & _).
    + apply (range_check_Forall _ (λ k, is_Some (map_get k props))); [intros j k; by rewrite fail_if_inr, bool_decide_eq_false, not_eq_None_Some|].
      apply Forall_forall. intros k ([k' f] & -> & Hf%elem_of_map_to_list)%list_elem_of_fmap. apply HM2 in Hf as [Hf Hk]. cbn. rewrite <- Hk. apply Hin. by apply list_elem_of_fmap_2.
    + apply (range_check_Forall _ (λ k, ∃ f, M !! k = Some f ∧ ∀ p, map_get k props = Some p → field_options p (hf_Options f))).
      { intros j k. destruct (M !! k) as [f|]; [|naive_solver]. destruct (map_get k props) as [p|]; [rewrite field_options_iff|]; naive_solver. }
      apply Forall_forall. intros k. rewrite sort_strings_perm, <- map_get_keys. intros Hk. apply Hin, list_elem_of_fmap in Hk as (f & -> & Hf).
      exists f. split; [by apply HM1|]. by apply HF.
Qed.

(** ** The whole spec *)
Section contract.
Context (jsonschema_compiles : string → bool).
Definition gate_contract (n : CanonicalNode) : Prop :=
  cn_Prompt n = EmptyString ∧ cn_ModelRef n = EmptyString ∧ cn_Skills n = [] ∧ cn_Capabilities n = [] ∧ cn_WorkspaceTools n = false ∧
  cn_OutputSchema n = None ∧
  ∃ gate, cn_HumanGate n = Some gate ∧ hg_Type gate ∈ gate_types ∧ localized (hg_Title gate) ∧ localized (hg_Description gate) ∧
    schema_ok jsonschema_compiles (hg_ResponseSchema gate) ∧ form_schema (hg_ResponseSchema gate) ∧ gate_presented n gate.
Lemma gate_iff i n : check_human_gate jsonschema_compiles i n = inr () ↔ gate_contract n.
Proof.
  unfold check_human_gate, gate_contract. rewrite !fail_bind_inr, !orb_false_iff, !negb_false_iff, !String.eqb_eq, !bool_decide_eq_false, <- eq_None_not_Some.
  assert (∀ l : list string, ¬ l ≠ [] ↔ l = []) as Hnil by (intros l; split; [apply dec_stable|tauto]). rewrite !Hnil.
  destruct (cn_HumanGate n) as [gate|]; [|naive_solver].
  rewrite !fail_bind_inr, !bind_unit_inr, !wrap_inr, negb_bool_decide_false, !incomplete_iff, compileSchema_ok, form_schema_iff, gate_presented_iff. naive_solver.
Qed.
Definition node_contract (spec : CanonicalSpec) (n : CanonicalNode) : Prop :=
  cn_Key n ≠ EmptyString ∧ localized (cn_Label n) ∧ outcomes_ok (cn_Outcomes n) ∧
  ((cn_Kind n = NodeAgentTask ∧ agent_task_ok jsonschema_compiles spec n) ∨ (cn_Kind n = NodeHumanGate ∧ gate_contract n)).
Lemma node_contract_iff spec n : node_ok jsonschema_compiles spec n ↔ node_contract spec n.
Proof. unfold node_ok, node_contract, human_gate_ok. by rewrite incomplete_iff, gate_iff. Qed.
Record workflow_contract (spec : CanonicalSpec) : Prop := {
  wc_entry : cg_EntryNode (cs_Graph spec) ∈ cn_Key <$> cg_Nodes (cs_Graph spec);
  wc_limit : 1 ≤ cg_MaxTransitions (cs_Graph spec) ≤ 10000;
  wc_ends : cg_TerminalOutcomes (cs_Graph spec) ≠ [];
  wc_reserved : "complete_step" ∉ cc_Tool <$> cs_RequestedCapabilities spec;
  wc_keys : NoDup (cn_Key <$> cg_Nodes (cs_Graph spec));
  wc_nodes : Forall (node_contract spec) (cg_Nodes (cs_Graph spec));
  wc_edges : Forall (edge_ok (cg_Nodes (cs_Graph spec))) (cg_Edges (cs_Graph spec));
  wc_terminals : Forall (terminal_ok (cg_Nodes (cs_Graph spec))) (cg_TerminalOutcomes (cs_Graph spec));
  wc_routed_once : NoDup ((edge_key <$> cg_Edges (cs_Graph spec)) ++ (terminal_key <$> cg_TerminalOutcomes (cs_Graph spec)));
  wc_routed : ∀ k o, declares (cg_Nodes (cs_Graph spec)) k o →
    (k, o) ∈ (edge_key <$> cg_Edges (cs_Graph spec)) ++ (terminal_key <$> cg_TerminalOutcomes (cs_Graph spec));
  wc_results : Forall (result_contract (cg_TerminalOutcomes (cs_Graph spec))) (cg_Nodes (cs_Graph spec));
  wc_reachable : ∀ k, k ∈ cn_Key <$> cg_Nodes (cs_Graph spec) → rtc (graph_edge (cg_Edges (cs_Graph spec))) (cg_EntryNode (cs_Graph spec)) k;
  wc_terminates : ∀ k, k ∈ cn_Key <$> cg_Nodes (cs_Graph spec) →
    ∃ t, t ∈ cg_TerminalOutcomes (cs_Graph spec) ∧ rtc (graph_edge (cg_Edges (cs_Graph spec))) k (ct_Node t) }.
Lemma workflow_contract_iff spec : graph_contract jsonschema_compiles spec ↔ workflow_contract spec.
Proof.
  assert (∀ l, Forall (node_ok jsonschema_compiles spec) l ↔ Forall (node_contract spec) l) as Hn by (intros l; apply Forall_iff, node_contract_iff).
  split; intros [H1 H2 H3 H4 H5 H6 H7 H8 H9 H10 H11 H12 H13]; constructor; try done; first [by apply Hn|by apply (result_presentations_iff _ _ H5)].
Qed.

End contract.

(** * Concrete specs *)
Example demo_fields : fields_contract demo_result_text (demo_field <$> [["total"]; ["lines"]; ["lines"; "sku"]]).
Proof. apply (result_fields_iff _ _ "fields"). by vm_compute. Qed.
Example nested_field_needed : ¬ fields_contract demo_result_text (demo_field <$> [["total"]; ["lines"]]).
Proof. rewrite <- (result_fields_iff _ _ "fields"). by vm_compute. Qed.
Example demo_contract : workflow_contract (λ _, true) demo_spec.
Proof. apply workflow_contract_iff, ValidateGraph_contract, demo_spec_valid. Qed.
