(* ===== verification/WorkData.v ===== *)
(** The durable work domain (control-plane/internal/work): rows, tables and the
    single-statement operations on them that the commands of [WorkGraph] and
    [WorkCommands] compose.

    The database extends [RuntimeDB] with the tables of the [work] schema and of
    [runtime.node_executions] and [runtime.graph_transitions] (migrations 000016,
    000019, 000021). A jsonb column that holds a marshalled Go value is kept as that
    value; other jsonb columns are JSON values. The CHECK, UNIQUE, partial-index and
    foreign-key constraints the statements can hit are part of the statements. The
    identity sequence of the timeline is the number of rows plus one (the gaps a
    rollback leaves are not modelled). *)
From S2P Require Import Prelude Json Duration Runtime Workflow.

(** * Rows *)
Inductive NodeState := NodePending | NodeRunning | NodeBlocked | NodeSucceeded | NodeFailed.
#[export] Instance NodeState_eq : EqDecision NodeState. Proof. solve_decision. Defined.
Definition node_state_name (s : NodeState) : string :=
  match s with
  | NodePending => "pending" | NodeRunning => "running" | NodeBlocked => "blocked"
  | NodeSucceeded => "succeeded" | NodeFailed => "failed"
  end.
Definition node_active (s : NodeState) : bool :=
  match s with NodePending | NodeRunning | NodeBlocked => true | _ => false end.

(** A [json.RawMessage]: empty, not JSON, or JSON. *)
Inductive RawMessage := NoJSON | BadJSON (text : string) | GoodJSON (v : json).
Definition raw_message (text : string) : RawMessage :=
  if String.eqb text EmptyString then NoJSON
  else match parse_json text with Some v => GoodJSON v | None => BadJSON text end.
Record ArtifactRef := { ar_ArtifactID : string; ar_Role : string; ar_Metadata : RawMessage }.
Definition set_role (role : string) (r : ArtifactRef) : ArtifactRef :=
  {| ar_ArtifactID := ar_ArtifactID r; ar_Role := role; ar_Metadata := ar_Metadata r |}.
Record Consequence := { co_InvocationID : string; co_Summary : json; co_State : string }.
Record modelSnapshot := {
  ms_Key : string; ms_ID : string; ms_API : string; ms_ContextWindow : Z; ms_MaxOutputTokens : Z;
  ms_ThinkingLevel : string; ms_DefaultParams : json; ms_ReasoningConfig : json }.

Record NodeExecution := mkNodeExec {
  ne_ID : uuid; ne_AttemptID : uuid; ne_NodeKey : string; ne_BusinessLabel : CanonicalLocalizedText;
  ne_ResultPresentation : option CanonicalResultPresentation;
  ne_Visit : Z; ne_ExecutionSeq : Z; ne_Kind : string; ne_Prompt : option string; ne_Context : json;
  ne_ModelSnapshot : option modelSnapshot; ne_SkillsSnapshot : list CanonicalSkill;
  ne_CapabilitiesSnapshot : list CanonicalCapability; ne_WorkspaceTools : bool;
  ne_TimeoutMS : option Z;
  ne_State : NodeState; ne_CompletionOutcome : option string; ne_CompletionSummary : option string;
  ne_Output : option json; ne_ArtifactRefs : list ArtifactRef;
  ne_CompletionReportedAt : option timestamp; ne_StartedAt : option timestamp;
  ne_FinishedAt : option timestamp; ne_CreatedAt : timestamp }.

(** [SET state, started_at, finished_at]. *)
Definition with_node_state (st : NodeState) (started finished : option timestamp)
    (n : NodeExecution) : NodeExecution :=
  mkNodeExec (ne_ID n) (ne_AttemptID n) (ne_NodeKey n) (ne_BusinessLabel n) (ne_ResultPresentation n)
    (ne_Visit n) (ne_ExecutionSeq n) (ne_Kind n) (ne_Prompt n) (ne_Context n) (ne_ModelSnapshot n)
    (ne_SkillsSnapshot n) (ne_CapabilitiesSnapshot n) (ne_WorkspaceTools n) (ne_TimeoutMS n)
    st (ne_CompletionOutcome n) (ne_CompletionSummary n) (ne_Output n) (ne_ArtifactRefs n)
    (ne_CompletionReportedAt n) started finished (ne_CreatedAt n).
(** [SET completion_outcome, completion_summary, output, artifact_refs, completion_reported_at]. *)
Definition with_report (now : timestamp) (outcome summary : string) (output : json)
    (refs : list ArtifactRef) (n : NodeExecution) : NodeExecution :=
  mkNodeExec (ne_ID n) (ne_AttemptID n) (ne_NodeKey n) (ne_BusinessLabel n) (ne_ResultPresentation n)
    (ne_Visit n) (ne_ExecutionSeq n) (ne_Kind n) (ne_Prompt n) (ne_Context n) (ne_ModelSnapshot n)
    (ne_SkillsSnapshot n) (ne_CapabilitiesSnapshot n) (ne_WorkspaceTools n) (ne_TimeoutMS n)
    (ne_State n) (Some outcome) (Some summary) (Some output) refs
    (Some now) (ne_StartedAt n) (ne_FinishedAt n) (ne_CreatedAt n).

(** [work.value_models] and its snapshot on an attempt; money in millionths. *)
Record ValueModel := {
  vm_ID : uuid; vm_Ref : string; vm_Version : string; vm_Formula : string; vm_Currency : string;
  vm_BaselineSeconds : Z; vm_LoadedHourlyCost : Z; vm_Assumptions : json; vm_Explanation : json;
  vm_CreatedAt : timestamp }.

Record Definition_ := {
  df_ID : uuid; df_Key : string; df_Version : string; df_Digest : string; df_Spec : CanonicalSpec;
  df_ValidationStatus : string; df_ScopeIdentityID : uuid; df_SourceType : string;
  df_PoolKey : string; df_Presentation : CanonicalPresentation; df_CreatedAt : timestamp;
  df_DeletedAt : option timestamp }.

Record Attempt := {
  at_ID : uuid; at_WorkItemID : uuid; at_Number : Z; at_DefinitionID : uuid;
  at_DefinitionKey : string; at_DefinitionVersion : string; at_DefinitionDigest : string;
  at_GraphSnapshot : CanonicalGraph; at_SkillsSnapshot : list CanonicalSkill;
  at_CapabilitiesSnapshot : list CanonicalCapability; at_ModelsSnapshot : gmap string modelSnapshot;
  at_PresentationSnapshot : CanonicalPresentation; at_ValueModelID : option uuid;
  at_ValueModelSnapshot : option ValueModel; at_RevisedFromAttemptID : option uuid;
  at_RevisionFeedbackID : option uuid; at_ActionableGuidance : option string;
  at_ConsequenceConfirmation : list string; at_CustomerFailureSummary : option json;
  at_OperatorFailureDetail : option json; at_CreatedAt : timestamp;
  at_FinishedAt : option timestamp }.
Definition finish_attempt (now : timestamp) (customer operator : option json) (a : Attempt) : Attempt :=
  {| at_ID := at_ID a; at_WorkItemID := at_WorkItemID a; at_Number := at_Number a;
     at_DefinitionID := at_DefinitionID a; at_DefinitionKey := at_DefinitionKey a;
     at_DefinitionVersion := at_DefinitionVersion a; at_DefinitionDigest := at_DefinitionDigest a;
     at_GraphSnapshot := at_GraphSnapshot a; at_SkillsSnapshot := at_SkillsSnapshot a;
     at_CapabilitiesSnapshot := at_CapabilitiesSnapshot a; at_ModelsSnapshot := at_ModelsSnapshot a;
     at_PresentationSnapshot := at_PresentationSnapshot a; at_ValueModelID := at_ValueModelID a;
     at_ValueModelSnapshot := at_ValueModelSnapshot a;
     at_RevisedFromAttemptID := at_RevisedFromAttemptID a;
     at_RevisionFeedbackID := at_RevisionFeedbackID a;
     at_ActionableGuidance := at_ActionableGuidance a;
     at_ConsequenceConfirmation := at_ConsequenceConfirmation a;
     at_CustomerFailureSummary := customer; at_OperatorFailureDetail := operator;
     at_CreatedAt := at_CreatedAt a; at_FinishedAt := Some now |}.

Record PresentationField := { pf_Label : CanonicalLocalizedText; pf_Value : string }.
Record SourcePresentation := {
  sp_Kind : string; sp_Title : string; sp_Subtitle : string; sp_OriginalURL : string;
  sp_Evidence : list PresentationField }.
Record WorkItem := {
  wi_ID : uuid; wi_WorkflowKey : string; wi_ScopeIdentityID : uuid; wi_Title : string;
  wi_Source : json; wi_SourcePresentation : SourcePresentation; wi_StartIdentityID : uuid;
  wi_StartIdempotencyKey : string; wi_StartPayloadHash : string;
  wi_CurrentAttemptID : option uuid; wi_CreatedAt : timestamp; wi_Principals : Principals }.
Definition set_current_attempt (id : uuid) (w : WorkItem) : WorkItem :=
  {| wi_ID := wi_ID w; wi_WorkflowKey := wi_WorkflowKey w; wi_ScopeIdentityID := wi_ScopeIdentityID w;
     wi_Title := wi_Title w; wi_Source := wi_Source w;
     wi_SourcePresentation := wi_SourcePresentation w; wi_StartIdentityID := wi_StartIdentityID w;
     wi_StartIdempotencyKey := wi_StartIdempotencyKey w;
     wi_StartPayloadHash := wi_StartPayloadHash w; wi_CurrentAttemptID := Some id;
     wi_CreatedAt := wi_CreatedAt w; wi_Principals := wi_Principals w |}.

Inductive BlockerState := BlockerOpen | BlockerResolved.
#[export] Instance BlockerState_eq : EqDecision BlockerState. Proof. solve_decision. Defined.
Record Blocker := {
  bl_ID : uuid; bl_WorkItemID : uuid; bl_AttemptID : uuid; bl_NodeExecutionID : option uuid;
  bl_Kind : string; bl_Title : CanonicalLocalizedText; bl_Description : CanonicalLocalizedText;
  bl_ResponseSchema : string; bl_AllowedOutcomes : list string;
  bl_Presentation : CanonicalHumanGatePresentation;
  bl_RequiredConsequences : list Consequence; bl_State : BlockerState;
  bl_ResponseOutcome : option string; bl_Response : option json; bl_RespondedBy : option uuid;
  bl_CreatedAt : timestamp; bl_ResolvedAt : option timestamp }.

Record GraphTransition := {
  gt_ID : uuid; gt_AttemptID : uuid; gt_FromExecutionID : uuid; gt_Outcome : string;
  gt_ToExecutionID : option uuid; gt_Terminal : bool; gt_CreatedAt : timestamp }.
Record Feedback := {
  fb_ID : uuid; fb_WorkItemID : uuid; fb_AttemptID : uuid; fb_Category : string;
  fb_Explanation : option string; fb_CorrectedResult : option json; fb_CreatedBy : uuid;
  fb_CreatedAt : timestamp }.
Record ArtifactLink := {
  al_ArtifactID : string; al_WorkItemID : uuid; al_AttemptID : uuid;
  al_NodeExecutionID : option uuid; al_Role : string; al_Metadata : json; al_CreatedAt : timestamp }.
Record TimelineEvent := {
  tl_Cursor : Z; tl_WorkItemID : uuid; tl_AttemptID : option uuid; tl_NodeExecutionID : option uuid;
  tl_Code : string; tl_Params : json; tl_ArtifactRefs : list ArtifactRef;
  tl_ActorIdentityID : option uuid; tl_CreatedAt : timestamp }.
Inductive ledger_kind := CompletionCredit | FeedbackDeduction.
#[export] Instance ledger_kind_eq : EqDecision ledger_kind. Proof. solve_decision. Defined.
Record LedgerEntry := {
  le_WorkItemID : uuid; le_AttemptID : uuid; le_FeedbackID : option uuid; le_ValueModelID : uuid;
  le_Kind : ledger_kind; le_Amount : Z; le_Currency : string; le_Formula : ValueModel;
  le_CreatedAt : timestamp }.
(** The columns of [artifact.artifacts], [toolgateway.invocations] read here. *)
Record ArtifactRow := {
  af_State : string; af_SourceType : string; af_MIMEType : string; af_SizeBytes : Z; af_Digest : string }.
Record Invocation := {
  iv_ID : uuid; iv_CallerScope : string; iv_CallerScopeID : string; iv_EffectClass : string;
  iv_State : string; iv_ConsequenceSummary : json; iv_CreatedAt : timestamp }.

(** What attempt creation reads of the other schemas: active workflow-pool bindings by
    definition key, the available models of [catalog.effective_catalog], the healthy
    tool versions and the active pool grants. *)
Record PoolBinding := { pb_PoolID : uuid; pb_PermittedTools : list CanonicalCapability }.
Record ModelRow := {
  mr_ID : string; mr_ContextLength : Z; mr_DefaultParams : json; mr_ReasoningConfig : json }.
Record ToolVersion := {
  tv_ID : uuid; tv_Name : string; tv_Digest : string; tv_EffectClass : string; tv_CreatedAt : timestamp }.
Record PoolGrant := { pg_PoolID : uuid; pg_ToolName : string; pg_MaxEffectClass : string }.
Record Catalog := {
  ca_bindings : gmap string PoolBinding;
  ca_models : gmap string ModelRow;
  ca_tool_versions : list ToolVersion;
  ca_grants : list PoolGrant }.

(** * The database *)
Record WorkDB := mkWorkDB {
  wk_rt : RuntimeDB;
  definitions : gmap uuid Definition_;
  work_items : gmap uuid WorkItem;
  attempts : gmap uuid Attempt;
  node_executions : gmap uuid NodeExecution;
  graph_transitions : list GraphTransition;
  blockers : gmap uuid Blocker;
  feedback : gmap uuid Feedback;
  artifact_links : list ArtifactLink;
  timeline_events : list TimelineEvent;
  value_ledger : list LedgerEntry;
  value_models : gmap uuid ValueModel;
  artifacts : gmap string ArtifactRow;
  invocations : list Invocation;
  catalog : Catalog;
  tool_pins : list (uuid * string * string);
  pool_assignments : gmap uuid uuid }.

Definition set_rt (v : RuntimeDB) (d : WorkDB) : WorkDB :=
  mkWorkDB v (definitions d) (work_items d) (attempts d) (node_executions d) (graph_transitions d)
    (blockers d) (feedback d) (artifact_links d) (timeline_events d) (value_ledger d)
    (value_models d) (artifacts d) (invocations d) (catalog d) (tool_pins d) (pool_assignments d).
Definition set_work_items (v : gmap uuid WorkItem) (d : WorkDB) : WorkDB :=
  mkWorkDB (wk_rt d) (definitions d) v (attempts d) (node_executions d) (graph_transitions d)
    (blockers d) (feedback d) (artifact_links d) (timeline_events d) (value_ledger d)
    (value_models d) (artifacts d) (invocations d) (catalog d) (tool_pins d) (pool_assignments d).
Definition set_attempts (v : gmap uuid Attempt) (d : WorkDB) : WorkDB :=
  mkWorkDB (wk_rt d) (definitions d) (work_items d) v (node_executions d) (graph_transitions d)
    (blockers d) (feedback d) (artifact_links d) (timeline_events d) (value_ledger d)
    (value_models d) (artifacts d) (invocations d) (catalog d) (tool_pins d) (pool_assignments d).
Definition set_nodes (v : gmap uuid NodeExecution) (d : WorkDB) : WorkDB :=
  mkWorkDB (wk_rt d) (definitions d) (work_items d) (attempts d) v (graph_transitions d)
    (blockers d) (feedback d) (artifact_links d) (timeline_events d) (value_ledger d)
    (value_models d) (artifacts d) (invocations d) (catalog d) (tool_pins d) (pool_assignments d).
Definition set_transitions (v : list GraphTransition) (d : WorkDB) : WorkDB :=
  mkWorkDB (wk_rt d) (definitions d) (work_items d) (attempts d) (node_executions d) v
    (blockers d) (feedback d) (artifact_links d) (timeline_events d) (value_ledger d)
    (value_models d) (artifacts d) (invocations d) (catalog d) (tool_pins d) (pool_assignments d).
Definition set_blockers (v : gmap uuid Blocker) (d : WorkDB) : WorkDB :=
  mkWorkDB (wk_rt d) (definitions d) (work_items d) (attempts d) (node_executions d)
    (graph_transitions d) v (feedback d) (artifact_links d) (timeline_events d) (value_ledger d)
    (value_models d) (artifacts d) (invocations d) (catalog d) (tool_pins d) (pool_assignments d).
Definition set_feedback (v : gmap uuid Feedback) (d : WorkDB) : WorkDB :=
  mkWorkDB (wk_rt d) (definitions d) (work_items d) (attempts d) (node_executions d)
    (graph_transitions d) (blockers d) v (artifact_links d) (timeline_events d) (value_ledger d)
    (value_models d) (artifacts d) (invocations d) (catalog d) (tool_pins d) (pool_assignments d).
Definition set_links (v : list ArtifactLink) (d : WorkDB) : WorkDB :=
  mkWorkDB (wk_rt d) (definitions d) (work_items d) (attempts d) (node_executions d)
    (graph_transitions d) (blockers d) (feedback d) v (timeline_events d) (value_ledger d)
    (value_models d) (artifacts d) (invocations d) (catalog d) (tool_pins d) (pool_assignments d).
Definition set_timeline (v : list TimelineEvent) (d : WorkDB) : WorkDB :=
  mkWorkDB (wk_rt d) (definitions d) (work_items d) (attempts d) (node_executions d)
    (graph_transitions d) (blockers d) (feedback d) (artifact_links d) v (value_ledger d)
    (value_models d) (artifacts d) (invocations d) (catalog d) (tool_pins d) (pool_assignments d).
Definition set_ledger (v : list LedgerEntry) (d : WorkDB) : WorkDB :=
  mkWorkDB (wk_rt d) (definitions d) (work_items d) (attempts d) (node_executions d)
    (graph_transitions d) (blockers d) (feedback d) (artifact_links d) (timeline_events d) v
    (value_models d) (artifacts d) (invocations d) (catalog d) (tool_pins d) (pool_assignments d).
Definition set_definitions (v : gmap uuid Definition_) (d : WorkDB) : WorkDB :=
  mkWorkDB (wk_rt d) v (work_items d) (attempts d) (node_executions d)
    (graph_transitions d) (blockers d) (feedback d) (artifact_links d) (timeline_events d)
    (value_ledger d) (value_models d) (artifacts d) (invocations d) (catalog d) (tool_pins d) (pool_assignments d).
Definition set_pins (v : list (uuid * string * string)) (d : WorkDB) : WorkDB :=
  mkWorkDB (wk_rt d) (definitions d) (work_items d) (attempts d) (node_executions d)
    (graph_transitions d) (blockers d) (feedback d) (artifact_links d) (timeline_events d)
    (value_ledger d) (value_models d) (artifacts d) (invocations d) (catalog d) v (pool_assignments d).
Definition set_assignments (v : gmap uuid uuid) (d : WorkDB) : WorkDB :=
  mkWorkDB (wk_rt d) (definitions d) (work_items d) (attempts d) (node_executions d)
    (graph_transitions d) (blockers d) (feedback d) (artifact_links d) (timeline_events d)
    (value_ledger d) (value_models d) (artifacts d) (invocations d) (catalog d) (tool_pins d) v.
Definition set_value_models (v : gmap uuid ValueModel) (d : WorkDB) : WorkDB :=
  mkWorkDB (wk_rt d) (definitions d) (work_items d) (attempts d) (node_executions d)
    (graph_transitions d) (blockers d) (feedback d) (artifact_links d) (timeline_events d)
    (value_ledger d) v (artifacts d) (invocations d) (catalog d) (tool_pins d) (pool_assignments d).
(** The tool gateway and the artifact service write these tables. *)
Definition set_external (arts : gmap string ArtifactRow) (invs : list Invocation) (d : WorkDB) : WorkDB :=
  mkWorkDB (wk_rt d) (definitions d) (work_items d) (attempts d) (node_executions d)
    (graph_transitions d) (blockers d) (feedback d) (artifact_links d) (timeline_events d)
    (value_ledger d) (value_models d) arts invs (catalog d) (tool_pins d) (pool_assignments d).

Inductive WkErr :=
| WErrNotFound
| WErrConflict (msg : string)
| WErrInvalidTransition (msg : string)
| WErrInvalidInput (msg : string)
| WErrConfirmation (msg : string)
| WErrNoRows
| WErrOther (msg : string)
| WErrDB (e : RtErr).

Abbreviation WkTx := (Tx WorkDB WkErr).
(** A statement on the runtime tables inside the transaction. *)
Definition lift_rt {A} (m : RtTx A) : WkTx A := λ d,
  match m (wk_rt d) with
  | inl e => inl (WErrDB e)
  | inr (a, r) => inr (a, set_rt r d)
  end.
Definition new_uuid : WkTx uuid := lift_rt gen_random_uuid.
Definition violation (c : string) : WkErr := WErrDB (ErrUniqueViolation c).
Definition fk_violation (c : string) : WkErr := WErrDB (ErrForeignKeyViolation c).

(** * Statements *)

(** [appendTimelineTx]. *)
Definition appendTimelineTx (now : timestamp) (itemID attemptID nodeID code : string) (params : json)
    (refs : list ArtifactRef) (actorID : string) : WkTx () :=
  d ← tx_get;
  tx_require (bool_decide (is_Some (work_items d !! itemID))) (fk_violation "timeline_events_work_item_id_fkey");;
  tx_require (fk_ok (attempts d) (nullable attemptID)) (fk_violation "timeline_events_attempt_id_fkey");;
  tx_require (fk_ok (node_executions d) (nullable nodeID)) (fk_violation "timeline_events_node_execution_id_fkey");;
  tx_require (match nullable actorID with None => true | Some a => bool_decide (a ∈ identities (wk_rt d)) end)
    (fk_violation "timeline_events_actor_identity_id_fkey");;
  tx_modify (set_timeline (timeline_events d ++ [
    {| tl_Cursor := Z.of_nat (length (timeline_events d)) + 1; tl_WorkItemID := itemID;
       tl_AttemptID := nullable attemptID; tl_NodeExecutionID := nullable nodeID; tl_Code := code;
       tl_Params := params; tl_ArtifactRefs := refs; tl_ActorIdentityID := nullable actorID;
       tl_CreatedAt := now |}])).

(** [UPDATE runtime.workflow_runs ... WHERE id AND cond]: a miss changes nothing. *)
Definition update_run (id : uuid) (cond : RunState → bool) (f : Run → Run) : WkTx () :=
  d ← tx_get;
  match workflow_runs (wk_rt d) !! id with
  | Some r =>
      if cond (run_State r)
      then tx_modify (λ d, set_rt (set_runs (<[id := f r]> (workflow_runs (wk_rt d))) (wk_rt d)) d)
      else mret ()
  | None => mret ()
  end.
Definition run_to (now : timestamp) (st : RunState) (r : Run) : Run :=
  with_run_state now st (run_StartedAt r) (run_FinishedAt r) r.
Definition run_started_to (now : timestamp) (st : RunState) (r : Run) : Run :=
  with_run_state now st (coalesce (run_StartedAt r) (Some now)) (run_FinishedAt r) r.
Definition run_finished_to (now : timestamp) (st : RunState) (r : Run) : Run :=
  with_run_state now st (run_StartedAt r) (Some now) r.

(** The partial unique index [idx_node_executions_one_active]. *)
Definition other_active_node (d : WorkDB) (id attemptID : uuid) : bool :=
  exists_row (λ n, bool_decide (ne_AttemptID n = attemptID) && node_active (ne_State n)
                   && negb (bool_decide (ne_ID n = id))) (node_executions d).
(** [UPDATE runtime.node_executions ... WHERE id AND cond]: the number of rows changed. *)
Definition update_node (id : uuid) (cond : NodeExecution → bool) (f : NodeExecution → NodeExecution)
    : WkTx Z :=
  d ← tx_get;
  match node_executions d !! id with
  | Some n =>
      if cond n then
        tx_require (negb (node_active (ne_State (f n)) && other_active_node d id (ne_AttemptID n)))
          (violation "idx_node_executions_one_active");;
        tx_modify (set_nodes (<[id := f n]> (node_executions d)));;
        mret 1
      else mret 0
  | None => mret 0
  end.

(** The attempt's pending, running or blocked execution. *)
Definition active_nodes (d : WorkDB) (attemptID : uuid) : list NodeExecution :=
  select (λ n, bool_decide (ne_AttemptID n = attemptID) && node_active (ne_State n)) (node_executions d).
Definition active_node (d : WorkDB) (attemptID : uuid) : option NodeExecution :=
  head (active_nodes d attemptID).

(** [INSERT ... ON CONFLICT (artifact_id, work_item_id, attempt_id, node_execution_id, role) DO NOTHING]. *)
Definition same_link (a b : ArtifactLink) : bool :=
  String.eqb (al_ArtifactID a) (al_ArtifactID b) && String.eqb (al_WorkItemID a) (al_WorkItemID b) &&
  String.eqb (al_AttemptID a) (al_AttemptID b) &&
  bool_decide (al_NodeExecutionID a = al_NodeExecutionID b) && String.eqb (al_Role a) (al_Role b).
Definition add_link (l : ArtifactLink) (links : list ArtifactLink) : list ArtifactLink :=
  if existsb (same_link l) links then links else links ++ [l].
Definition link_roles : list string := ["source"; "input"; "output"; "corrected_result"; "evidence"].

(** [jsonOrObject]: a message bound for a jsonb column. *)
Definition json_column (raw : RawMessage) : WkTx json :=
  match raw with
  | NoJSON => mret (JObj [])
  | GoodJSON v => mret v
  | BadJSON _ => tx_fail (WErrDB ErrInvalidJSON)
  end.
(** [len(raw) > 0 && !json.Valid(raw)]. *)
Definition invalid_json (raw : RawMessage) : bool :=
  match raw with BadJSON _ => true | _ => false end.
Definition json_strings (l : list string) : json := JArr (JStr <$> l).
Definition contains (values : list string) (want : string) : bool := bool_decide (want ∈ values).
Definition deref (v : option string) : string := default EmptyString v.
Definition sortedIDs (cs : list Consequence) : list string := sort_strings (co_InvocationID <$> cs).
Definition equalStrings (a b : list string) : bool := bool_decide (a = b).
