(* ===== verification/WorkGraph.v ===== *)
(** The graph execution engine (control-plane/internal/work/graph.go): preparing the
    active node, recording a completion report, settling a graph turn and advancing
    along the immutable graph, with the helpers of store.go they use.

    The JSON Schema validator is third-party code: it is the parameter
    [jsonschema_valid]. *)
From S2P Require Import Prelude Json Duration Runtime Workflow WorkData.

(** * Lookups *)
Definition findNode (graph : CanonicalGraph) (key : string) : option CanonicalNode :=
  List.find (λ n, String.eqb (cn_Key n) key) (cg_Nodes graph).
Definition is_terminal_outcome (node outcome : string) (t : CanonicalTerminalOutcome) : bool :=
  String.eqb (ct_Node t) node && String.eqb (ct_Outcome t) outcome.
Definition is_edge_outcome (node outcome : string) (e : CanonicalEdge) : bool :=
  String.eqb (ce_From e) node && String.eqb (ce_Outcome e) outcome.
(** [route]: [None] is [ok = false], [Some None] a terminal outcome. *)
Definition route (graph : CanonicalGraph) (node outcome : string) : option (option string) :=
  if existsb (is_terminal_outcome node outcome) (cg_TerminalOutcomes graph) then Some None
  else match List.find (is_edge_outcome node outcome) (cg_Edges graph) with
       | Some e => Some (Some (ce_To e))
       | None => None
       end.
Definition IsGraphAttempt (d : WorkDB) (runID : uuid) : bool := bool_decide (is_Some (attempts d !! runID)).
Definition ActiveNode (attemptID : uuid) : WkTx NodeExecution :=
  d ← tx_get; tx_opt (active_node d attemptID) WErrNotFound.

(** * Consequences of earlier visits *)
Definition invocation_le (a b : Invocation) : bool :=
  (iv_CreatedAt a <? iv_CreatedAt b) ||
  ((iv_CreatedAt a =? iv_CreatedAt b) && String.leb (iv_ID a) (iv_ID b)).
Fixpoint insert_invocation (i : Invocation) (l : list Invocation) : list Invocation :=
  match l with
  | [] => [i]
  | j :: l' => if invocation_le i j then i :: l else j :: insert_invocation i l'
  end.
Definition sort_invocations (l : list Invocation) : list Invocation := foldr insert_invocation [] l.
(** A settled or unknown external write made by a turn. *)
Definition consequential (i : Invocation) : bool :=
  String.eqb (iv_CallerScope i) "turn" &&
  (String.eqb (iv_EffectClass i) "idempotent_write" || String.eqb (iv_EffectClass i) "non_idempotent_write") &&
  (String.eqb (iv_State i) "succeeded" || String.eqb (iv_State i) "outcome_unknown").
(** The node execution the calling turn belongs to. *)
Definition invocation_node (d : WorkDB) (i : Invocation) : option NodeExecution :=
  t ← turns (wk_rt d) !! iv_CallerScopeID i;
  n ← turn_NodeExecutionID t;
  node_executions d !! n.
Definition node_consequence (d : WorkDB) (attemptID nodeKey excludeNodeID : uuid) (i : Invocation) : bool :=
  consequential i &&
  match invocation_node d i with
  | Some n => String.eqb (ne_AttemptID n) attemptID && String.eqb (ne_NodeKey n) nodeKey
              && negb (String.eqb (ne_ID n) excludeNodeID)
  | None => false
  end.
Definition validateConsequenceSummary (raw : json) : bool :=
  match raw with
  | JObj l =>
      forallb (λ kv, match unmarshal_string kv.2 with Some _ => true | None => false end) l &&
      match v ← map_get "en" l; unmarshal_string v with Some s => negb (String.eqb s EmptyString) | None => false end &&
      match v ← map_get "pt" l; unmarshal_string v with Some s => negb (String.eqb s EmptyString) | None => false end
  | _ => false
  end.
Definition to_consequences (l : list Invocation) : WkTx (list Consequence) :=
  tx_require (forallb (λ i, validateConsequenceSummary (iv_ConsequenceSummary i)) l)
    (WErrOther "invalid customer-safe consequence summary");;
  mret ((λ i, {| co_InvocationID := iv_ID i; co_Summary := iv_ConsequenceSummary i;
                 co_State := iv_State i |}) <$> l).
Definition consequencesForNodeTx (attemptID nodeKey excludeNodeID : uuid) : WkTx (list Consequence) :=
  d ← tx_get;
  to_consequences (sort_invocations
    (filter (λ i, node_consequence d attemptID nodeKey excludeNodeID i = true) (invocations d))).

(** The last resolved confirmation of the node lists exactly the current writes. *)
Definition resolved_confirmations (d : WorkDB) (nodeID : uuid) : list Blocker :=
  select (λ b, bool_decide (bl_NodeExecutionID b = Some nodeID) &&
               String.eqb (bl_Kind b) "consequence_confirmation" &&
               bool_decide (bl_State b = BlockerResolved)) (blockers d).
Definition consequencesConfirmedTx (nodeID : uuid) (current : list Consequence) : WkTx bool :=
  d ← tx_get;
  match min_by (λ b, - default 0 (bl_ResolvedAt b)) (resolved_confirmations d nodeID) with
  | None => mret false
  | Some b => mret (equalStrings (sortedIDs (bl_RequiredConsequences b)) (sortedIDs current))
  end.

(** * Blockers *)
Definition insert_blocker (b : Blocker) : WkTx () :=
  d ← tx_get;
  tx_require (bool_decide (blockers d !! bl_ID b = None)) (violation "blockers_pkey");;
  tx_require (negb (exists_row (λ x, String.eqb (bl_WorkItemID x) (bl_WorkItemID b) &&
                                     bool_decide (bl_State x = BlockerOpen)) (blockers d)))
    (violation "idx_blockers_one_open_per_item");;
  tx_modify (set_blockers (<[bl_ID b := b]> (blockers d))).
Definition blocker_kinds : list string :=
  ["information"; "decision"; "approval"; "artifact"; "consequence_confirmation"].

Definition createHumanBlockerTx (now : timestamp) (itemID attemptID nodeID : uuid)
    (node : CanonicalNode) (gate : CanonicalHumanGate) : WkTx () :=
  id ← new_uuid;
  tx_require (bool_decide (hg_Type gate ∈ blocker_kinds)) (WErrDB (ErrCheckViolation "blockers_kind_check"));;
  insert_blocker {| bl_ID := id; bl_WorkItemID := itemID; bl_AttemptID := attemptID;
    bl_NodeExecutionID := Some nodeID; bl_Kind := hg_Type gate; bl_Title := hg_Title gate;
    bl_Description := hg_Description gate; bl_ResponseSchema := hg_ResponseSchema gate;
    bl_AllowedOutcomes := cn_Outcomes node; bl_Presentation := hg_Presentation gate;
    bl_RequiredConsequences := []; bl_State := BlockerOpen; bl_ResponseOutcome := None;
    bl_Response := None; bl_RespondedBy := None; bl_CreatedAt := now; bl_ResolvedAt := None |}.

Definition createConsequenceBlockerTx (now : timestamp) (itemID attemptID nodeID : uuid)
    (consequences : list Consequence) : WkTx () :=
  id ← new_uuid;
  insert_blocker {| bl_ID := id; bl_WorkItemID := itemID; bl_AttemptID := attemptID;
    bl_NodeExecutionID := Some nodeID; bl_Kind := "consequence_confirmation";
    bl_Title := {| lt_EN := "Confirm repeated external actions";
                   lt_PT := "Confirmar ações externas repetidas" |};
    bl_Description := {| lt_EN := "This step may repeat external actions from an earlier visit.";
                         lt_PT := "Este passo pode repetir ações externas de uma visita anterior." |};
    bl_ResponseSchema := "{}"; bl_AllowedOutcomes := ["confirmed"];
    bl_Presentation := {| hp_Outcomes := [{| lt_EN := "Confirm"; lt_PT := "Confirmar" |}]; hp_Fields := [] |};
    bl_RequiredConsequences := consequences; bl_State := BlockerOpen; bl_ResponseOutcome := None;
    bl_Response := None; bl_RespondedBy := None; bl_CreatedAt := now; bl_ResolvedAt := None |}.

Definition consequences_json (cs : list Consequence) : json :=
  JArr ((λ c, JObj [("invocationId", JStr (co_InvocationID c)); ("summary", co_Summary c);
                    ("state", JStr (co_State c))]) <$> cs).

(** * Preparing the active node *)
Definition unstarted (s : RunState) : bool := match s with RunPending | RunRunning => true | _ => false end.

(** The consequence gate on re-entry; [Some n] is the node, now blocked. *)
Definition prepare_reentry (now : timestamp) (itemID attemptID : uuid) (node : NodeExecution)
    (kind : string) : WkTx (option NodeExecution) :=
  if bool_decide (ne_State node = NodePending) && (1 <? ne_Visit node) && String.eqb kind NodeAgentTask then
    consequences ← consequencesForNodeTx attemptID (ne_NodeKey node) (ne_ID node);
    if bool_decide (consequences = []) then mret None
    else
      confirmed ← consequencesConfirmedTx (ne_ID node) consequences;
      if (confirmed : bool) then mret None
      else
        createConsequenceBlockerTx now itemID attemptID (ne_ID node) consequences;;
        update_node (ne_ID node) (λ _, true)
          (λ n, with_node_state NodeBlocked (ne_StartedAt n) (ne_FinishedAt n) n);;
        update_run attemptID unstarted (run_to now RunAwaitingApproval);;
        appendTimelineTx now itemID attemptID (ne_ID node) "consequence_confirmation_required"
          (JObj [("nodeKey", JStr (ne_NodeKey node)); ("consequences", consequences_json consequences)])
          [] EmptyString;;
        mret (Some (with_node_state NodeBlocked (ne_StartedAt node) (ne_FinishedAt node) node))
  else mret None.

Definition prepare_human (now : timestamp) (itemID attemptID : uuid) (node : NodeExecution)
    (def : CanonicalNode) (gate : CanonicalHumanGate) : WkTx NodeExecution :=
  if bool_decide (ne_State node = NodePending) then
    createHumanBlockerTx now itemID attemptID (ne_ID node) def gate;;
    update_node (ne_ID node) (λ _, true)
      (λ n, with_node_state NodeBlocked (coalesce (ne_StartedAt n) (Some now)) (ne_FinishedAt n) n);;
    update_run attemptID unstarted (run_started_to now RunAwaitingApproval);;
    appendTimelineTx now itemID attemptID (ne_ID node) "work_blocked"
      (JObj [("nodeKey", JStr (ne_NodeKey node)); ("type", JStr (hg_Type gate))]) [] EmptyString;;
    mret (with_node_state NodeBlocked (ne_StartedAt node) (ne_FinishedAt node) node)
  else mret node.

Definition node_turn (d : WorkDB) (nodeID : uuid) : option Turn :=
  head (select (λ t, bool_decide (turn_NodeExecutionID t = Some nodeID)) (turns (wk_rt d))).
Definition resumable (s : RunState) : bool :=
  match s with RunPending | RunAwaitingApproval => true | _ => false end.

Definition prepare_agent (now : timestamp) (itemID attemptID : uuid) (node : NodeExecution)
    : WkTx (NodeExecution * Turn) :=
  if bool_decide (ne_State node = NodeRunning) then
    d ← tx_get;
    turn ← tx_opt (node_turn d (ne_ID node)) WErrNoRows;
    mret (node, turn)
  else
    model ← tx_opt (ne_ModelSnapshot node) (WErrOther "node has no valid model snapshot");
    tx_require (negb (String.eqb (ms_ID model) EmptyString)) (WErrOther "node has no valid model snapshot");;
    d ← tx_get;
    run ← tx_opt (workflow_runs (wk_rt d) !! attemptID) WErrNoRows;
    turn ← lift_rt (insertTurn now attemptID None (Some (ne_ID node)) (run_SessionID run)
                      (Some (ms_ID model)) (Some now));
    update_node (ne_ID node) (λ n, bool_decide (ne_State n = NodePending))
      (λ n, with_node_state NodeRunning (coalesce (ne_StartedAt n) (Some now)) (ne_FinishedAt n) n);;
    update_run attemptID resumable (run_started_to now RunRunning);;
    lift_rt (insertEvent now attemptID (Some (turn_ID turn)) None (Some (ne_ID node)) EvTurnStarted
               (JObj [("model", JStr (ms_ID model))]));;
    appendTimelineTx now itemID attemptID (ne_ID node) "node_started"
      (JObj [("nodeKey", JStr (ne_NodeKey node)); ("visit", JNum (ne_Visit node) 0)]) [] EmptyString;;
    mret (with_node_state NodeRunning (Some now) (ne_FinishedAt node) node, turn).

(** [PrepareNode]: the node, its turn when it needs a worker, and whether to dispatch. *)
Definition PrepareNode (now : timestamp) (attemptID : uuid)
    : WkTx (NodeExecution * option Turn * bool) :=
  d ← tx_get;
  node ← tx_opt (active_node d attemptID) WErrNotFound;
  if bool_decide (ne_State node = NodeBlocked) then mret (node, None, false)
  else
    attempt ← tx_opt (attempts d !! attemptID) WErrNoRows;
    run ← tx_opt (workflow_runs (wk_rt d) !! attemptID) WErrNoRows;
    let itemID := at_WorkItemID attempt in
    tx_require (unstarted (run_State run)) (WErrInvalidTransition (run_state_name (run_State run)));;
    def ← tx_opt (findNode (at_GraphSnapshot attempt) (ne_NodeKey node))
            (WErrOther "graph node missing from snapshot");
    blocked ← prepare_reentry now itemID attemptID node (cn_Kind def);
    match blocked with
    | Some n => mret (n, None, false)
    | None =>
        if String.eqb (cn_Kind def) NodeHumanGate then
          gate ← tx_opt (cn_HumanGate def) (WErrOther "nil human gate");
          n ← prepare_human now itemID attemptID node def gate;
          mret (n, None, false)
        else
          '(n, turn) ← prepare_agent now itemID attemptID node;
          mret (n, Some turn, true)
    end.

(** * Completion reports *)
Record CompletionReport := {
  cr_Outcome : string; cr_Summary : string; cr_Output : RawMessage; cr_ArtifactRefs : list ArtifactRef }.

Definition published_sources : list string := ["sandbox_publish"; "tool_output"; "workflow"].
Definition artifact_published (d : WorkDB) (artifactID attemptID nodeID : string) : bool :=
  match artifacts d !! artifactID with
  | Some a =>
      String.eqb (af_State a) "available" && bool_decide (af_SourceType a ∈ published_sources) &&
      existsb (λ l, String.eqb (al_ArtifactID l) artifactID && String.eqb (al_AttemptID l) attemptID &&
                    bool_decide (al_NodeExecutionID l = Some nodeID)) (artifact_links d)
  | None => false
  end.
(** One iteration of the loop over [report.ArtifactRefs]: the reference with its role. *)
Definition check_report_ref (attemptID nodeID : uuid) (ref : ArtifactRef) : WkTx ArtifactRef :=
  tx_require (negb (String.eqb (ar_ArtifactID ref) EmptyString)) (WErrInvalidInput "artifactId is required");;
  let role := if String.eqb (ar_Role ref) EmptyString then "output" else ar_Role ref in
  tx_require (String.eqb role "output" || String.eqb role "evidence")
    (WErrInvalidInput "artifact role is not allowed for complete_step");;
  tx_require (negb (invalid_json (ar_Metadata ref))) (WErrInvalidInput "artifact metadata must be valid JSON");;
  d ← tx_get;
  tx_require (artifact_published d (ar_ArtifactID ref) attemptID nodeID)
    (WErrInvalidInput "artifact is not an output published by this node");;
  mret (set_role role ref).
Fixpoint tx_map {A B} (f : A → WkTx B) (l : list A) : WkTx (list B) :=
  match l with
  | [] => mret []
  | a :: l' => b ← f a; bs ← tx_map f l'; mret (b :: bs)
  end.
Definition link_artifact (now : timestamp) (itemID attemptID nodeID : uuid) (role : string)
    (ref : ArtifactRef) : WkTx () :=
  meta ← json_column (ar_Metadata ref);
  tx_modify (λ d, set_links (add_link {| al_ArtifactID := ar_ArtifactID ref; al_WorkItemID := itemID;
    al_AttemptID := attemptID; al_NodeExecutionID := Some nodeID; al_Role := role;
    al_Metadata := meta; al_CreatedAt := now |} (artifact_links d)) d).

Section engine.
(** Compiling the schema and validating the instance against it succeed. *)
Context (jsonschema_valid : string → json → bool).

(** [validateInstance]: the decoded instance. *)
Definition validateInstance (raw : RawMessage) (schema : string) : option json :=
  match raw with
  | BadJSON _ => None
  | NoJSON =>
      if blank_schema (TrimSpace schema) || jsonschema_valid schema (JObj []) then Some (JObj []) else None
  | GoodJSON v =>
      if any_ok v && (blank_schema (TrimSpace schema) || jsonschema_valid schema v) then Some v else None
  end.

Definition RecordCompletionReport (now : timestamp) (turnID : uuid) (report : CompletionReport)
    : WkTx () :=
  tx_require (negb (String.eqb (cr_Outcome report) EmptyString) &&
              negb (String.eqb (cr_Summary report) EmptyString))
    (WErrInvalidInput "outcome and summary are required");;
  d ← tx_get;
  turn ← tx_opt (turns (wk_rt d) !! turnID) WErrNotFound;
  nodeID ← tx_opt (turn_NodeExecutionID turn) WErrNotFound;
  node ← tx_opt (node_executions d !! nodeID) WErrNotFound;
  attempt ← tx_opt (attempts d !! ne_AttemptID node) WErrNotFound;
  tx_require (bool_decide (ne_State node = NodeRunning))
    (WErrInvalidTransition (node_state_name (ne_State node)));;
  def ← tx_opt (findNode (at_GraphSnapshot attempt) (ne_NodeKey node))
          (WErrInvalidTransition "completion report is not for an agent node");
  tx_require (String.eqb (cn_Kind def) NodeAgentTask)
    (WErrInvalidTransition "completion report is not for an agent node");;
  tx_require (contains (cn_Outcomes def) (cr_Outcome report))
    (WErrInvalidInput "outcome is not declared by node");;
  output ← tx_opt (validateInstance (cr_Output report) (default EmptyString (cn_OutputSchema def)))
             (WErrInvalidInput "output");
  refs ← tx_map (check_report_ref (ne_AttemptID node) nodeID) (cr_ArtifactRefs report);
  changed ← update_node nodeID
    (λ n, bool_decide (ne_State n = NodeRunning) && bool_decide (ne_CompletionReportedAt n = None))
    (with_report now (cr_Outcome report) (cr_Summary report) output refs);
  tx_require (changed =? 1) (WErrConflict "complete_step already reported");;
  tx_iter (λ ref, link_artifact now (at_WorkItemID attempt) (ne_AttemptID node) nodeID (ar_Role ref) ref) refs.
End engine.

(** * Value credit *)

(** PostgreSQL numeric division of [n / 10^6] by 3600, both positive, rounded to the
    scale [select_div_scale] picks (16 significant digits, at least the 6 decimals of
    the dividend), then to the 6 decimals of the column; halves round away from zero. *)
Definition round_half_up (n d : Z) : Z := (2 * n + d) / (2 * d).
Fixpoint weight10000 (fuel : nat) (n : Z) : Z * Z :=
  match fuel with
  | O => (0, n)
  | S fuel => if n <? 10000 then (0, n) else let '(w, f) := weight10000 fuel (n / 10000) in (w + 1, f)
  end.
(** Weight and first base-10000 digit of [n / 10^6]. *)
Definition numeric_head (n : Z) : Z * Z :=
  if 1000000 <=? n then weight10000 (S (Z.to_nat (Z.log2 n))) (n / 1000000)
  else if 100 <=? n then (-1, n / 100) else (-2, n * 100).
Definition div_scale (n : Z) : Z :=
  let '(w, first) := numeric_head n in
  let qweight := if first <=? 3600 then w - 1 else w in
  Z.min 1000 (Z.max 6 (16 - 4 * qweight)).
Definition hourly_amount (baseline hourly : Z) : Z :=
  let n := baseline * hourly in
  if n =? 0 then 0
  else
    let s := div_scale n in
    let q := round_half_up (n * 10 ^ s) (1000000 * 3600) in
    round_half_up q (10 ^ (s - 6)).
(** numeric(20,6). *)
Definition numeric_max : Z := 10 ^ 20.

Definition credit_exists (d : WorkDB) (itemID : uuid) (kind : ledger_kind) : bool :=
  existsb (λ e, String.eqb (le_WorkItemID e) itemID && bool_decide (le_Kind e = kind)) (value_ledger d).
(** [INSERT INTO work.value_ledger ... ON CONFLICT DO NOTHING]: was a row added? *)
Definition insert_ledger (e : LedgerEntry) : WkTx bool :=
  d ← tx_get;
  tx_require (Z.abs (le_Amount e) <? numeric_max) (WErrDB ErrNumericOutOfRange);;
  tx_require (match le_Kind e with
              | CompletionCredit => (0 <? le_Amount e) && bool_decide (le_FeedbackID e = None)
              | FeedbackDeduction => (le_Amount e <? 0) && bool_decide (is_Some (le_FeedbackID e))
              end) (WErrDB (ErrCheckViolation "value_ledger_check"));;
  if credit_exists d (le_WorkItemID e) (le_Kind e) then mret false
  else tx_modify (set_ledger (value_ledger d ++ [e]));; mret true.

Definition creditValueTx (now : timestamp) (itemID attemptID : uuid) : WkTx () :=
  d ← tx_get;
  a ← tx_opt (attempts d !! attemptID) WErrNoRows;
  match at_ValueModelID a, at_ValueModelSnapshot a with
  | Some modelID, Some v =>
      if negb (at_Number a =? 1) then mret ()
      else
        added ← insert_ledger {| le_WorkItemID := itemID; le_AttemptID := attemptID; le_FeedbackID := None;
          le_ValueModelID := modelID; le_Kind := CompletionCredit;
          le_Amount := hourly_amount (vm_BaselineSeconds v) (vm_LoadedHourlyCost v);
          le_Currency := vm_Currency v; le_Formula := v; le_CreatedAt := now |};
        if (added : bool)
        then appendTimelineTx now itemID attemptID EmptyString "value_credited"
               (JObj [("estimated", JBool true); ("currency", JStr (vm_Currency v))]) [] EmptyString
        else mret ()
  | _, _ => mret ()
  end.

(** * Node contexts and visits *)
Definition raw_json (r : RawMessage) : list (string * json) :=
  match r with GoodJSON v => [("metadata", v)] | _ => [] end.
Definition refs_json (refs : list ArtifactRef) : json :=
  JArr ((λ r, JObj (("artifactId", JStr (ar_ArtifactID r))
                    :: (if String.eqb (ar_Role r) EmptyString then [] else [("role", JStr (ar_Role r))])
                    ++ raw_json (ar_Metadata r))) <$> refs).
Definition str_json (s : option string) : json := match s with Some s => JStr s | None => JNull end.
Definition value_json (v : option json) : json := default (JObj []) v.

(** [SELECT DISTINCT artifact_id, metadata ... role = 'source' ORDER BY artifact_id]. *)
Fixpoint insert_link (l : ArtifactLink) (ls : list ArtifactLink) : list ArtifactLink :=
  match ls with
  | [] => [l]
  | m :: ls' => if String.leb (al_ArtifactID l) (al_ArtifactID m) then l :: ls else m :: insert_link l ls'
  end.
Fixpoint distinct_links (ls : list ArtifactLink) : list ArtifactLink :=
  match ls with
  | [] => []
  | l :: ls' =>
      if existsb (λ m, String.eqb (al_ArtifactID m) (al_ArtifactID l) && any_equal (al_Metadata m) (al_Metadata l)) ls'
      then distinct_links ls' else l :: distinct_links ls'
  end.
Definition sourceArtifacts (d : WorkDB) (itemID : uuid) : list ArtifactRef :=
  (λ l, {| ar_ArtifactID := al_ArtifactID l; ar_Role := "source"; ar_Metadata := GoodJSON (al_Metadata l) |})
    <$> foldr insert_link [] (distinct_links
          (filter (λ l, String.eqb (al_WorkItemID l) itemID && String.eqb (al_Role l) "source" = true)
             (artifact_links d))).

(** The succeeded visit of each node key with the greatest visit number. *)
Definition latest_visits (d : WorkDB) (attemptID : uuid) : list NodeExecution :=
  let done := select (λ n, String.eqb (ne_AttemptID n) attemptID && bool_decide (ne_State n = NodeSucceeded))
                (node_executions d) in
  filter (λ n, forallb (λ m, negb (String.eqb (ne_NodeKey m) (ne_NodeKey n)) || (ne_Visit m <=? ne_Visit n)) done
               = true) done.
Definition latest_json (n : NodeExecution) : string * json :=
  (ne_NodeKey n, JObj [("executionId", JStr (ne_ID n)); ("visit", JNum (ne_Visit n) 0);
    ("outcome", str_json (ne_CompletionOutcome n)); ("summary", str_json (ne_CompletionSummary n));
    ("output", value_json (ne_Output n)); ("artifactRefs", refs_json (ne_ArtifactRefs n))]).
Definition buildContextTx (attemptID : uuid) (previous : NodeExecution) : WkTx json :=
  d ← tx_get;
  a ← tx_opt (attempts d !! attemptID) WErrNoRows;
  item ← tx_opt (work_items d !! at_WorkItemID a) WErrNoRows;
  mret (JObj ([("source", wi_Source item);
    ("sourceArtifacts", refs_json (sourceArtifacts d (wi_ID item)));
    ("executionHistoryRef", JObj [("attemptId", JStr attemptID);
       ("throughExecutionSeq", JNum (ne_ExecutionSeq previous) 0)]);
    ("previous", JObj [("executionId", JStr (ne_ID previous)); ("nodeKey", JStr (ne_NodeKey previous));
       ("visit", JNum (ne_Visit previous) 0); ("outcome", str_json (ne_CompletionOutcome previous));
       ("summary", str_json (ne_CompletionSummary previous)); ("output", value_json (ne_Output previous));
       ("artifactRefs", refs_json (ne_ArtifactRefs previous))]);
    ("latestByNode", JObj (latest_json <$> latest_visits d attemptID))]
    ++ match at_ActionableGuidance a with Some g => [("revisionGuidance", JStr g)] | None => [] end)).

Definition zero_model : modelSnapshot :=
  {| ms_Key := EmptyString; ms_ID := EmptyString; ms_API := EmptyString; ms_ContextWindow := 0;
     ms_MaxOutputTokens := 0; ms_ThinkingLevel := EmptyString; ms_DefaultParams := JNull;
     ms_ReasoningConfig := JNull |}.
Definition node_skills (node : CanonicalNode) (spec : CanonicalSpec) : list CanonicalSkill :=
  omap (λ name, List.find (λ s, String.eqb (sk_Name s) name) (cs_Skills spec)) (cn_Skills node).
Definition node_caps (node : CanonicalNode) (spec : CanonicalSpec) : list CanonicalCapability :=
  omap (λ name, List.find (λ c, String.eqb (cc_Tool c) name) (cs_RequestedCapabilities spec))
    (cn_Capabilities node).
(** [d.Milliseconds()] of a positive timeout. *)
Definition timeout_ms (timeout : string) : WkTx (option Z) :=
  if String.eqb timeout EmptyString then mret None
  else match ParseDuration timeout with
       | Some d => if d <=? 0 then tx_fail (WErrInvalidInput "invalid node timeout")
                   else mret (Some (d / 1000000))
       | None => tx_fail (WErrInvalidInput "invalid node timeout")
       end.
Definition node_kinds : list string := [NodeAgentTask; NodeHumanGate].

Definition insertNodeExecutionTx (now : timestamp) (attemptID : uuid) (node : CanonicalNode)
    (visit seq : Z) (ctx : json) (models : gmap string modelSnapshot) (spec : CanonicalSpec) : WkTx uuid :=
  let modelRef := if String.eqb (cn_ModelRef node) EmptyString then cs_DefaultModelRef spec else cn_ModelRef node in
  let model := if String.eqb (cn_Kind node) NodeAgentTask
               then Some (default zero_model (models !! modelRef)) else None in
  timeout ← timeout_ms (cn_Timeout node);
  id ← new_uuid;
  d ← tx_get;
  tx_require (bool_decide (node_executions d !! id = None)) (violation "node_executions_pkey");;
  tx_require (bool_decide (is_Some (attempts d !! attemptID))) (fk_violation "node_executions_attempt_id_fkey");;
  tx_require ((0 <? visit) && (visit <=? int4_max) && (0 <? seq) && (seq <=? int4_max)) (WErrDB ErrNumericOutOfRange);;
  tx_require (bool_decide (cn_Kind node ∈ node_kinds)) (WErrDB (ErrCheckViolation "node_executions_kind_check"));;
  tx_require (match timeout with Some t => 0 <? t | None => true end)
    (WErrDB (ErrCheckViolation "node_executions_timeout_ms_check"));;
  tx_require (negb (exists_row (λ n, String.eqb (ne_AttemptID n) attemptID && String.eqb (ne_NodeKey n) (cn_Key node)
                                     && (ne_Visit n =? visit)) (node_executions d)))
    (violation "node_executions_attempt_id_node_key_visit_key");;
  tx_require (negb (exists_row (λ n, String.eqb (ne_AttemptID n) attemptID && (ne_ExecutionSeq n =? seq))
                      (node_executions d)))
    (violation "node_executions_attempt_id_execution_seq_key");;
  tx_require (negb (other_active_node d id attemptID)) (violation "idx_node_executions_one_active");;
  tx_modify (set_nodes (<[id := mkNodeExec id attemptID (cn_Key node) (cn_Label node)
    (cn_ResultPresentation node) visit seq (cn_Kind node) (nullable (cn_Prompt node)) ctx model
    (node_skills node spec) (node_caps node spec) (cn_WorkspaceTools node) timeout
    NodePending None None None [] None None None now]> (node_executions d)));;
  mret id.

(** * Advancing the graph *)
Definition insert_transition (now : timestamp) (attemptID fromID : uuid) (outcome : string)
    (toID : option uuid) : WkTx () :=
  id ← new_uuid;
  d ← tx_get;
  tx_require (bool_decide (id ∉ gt_ID <$> graph_transitions d)) (violation "graph_transitions_pkey");;
  tx_require (bool_decide (fromID ∉ gt_FromExecutionID <$> graph_transitions d))
    (violation "graph_transitions_from_execution_id_key");;
  tx_modify (set_transitions (graph_transitions d ++ [
    {| gt_ID := id; gt_AttemptID := attemptID; gt_FromExecutionID := fromID; gt_Outcome := outcome;
       gt_ToExecutionID := toID; gt_Terminal := bool_decide (toID = None); gt_CreatedAt := now |}])).
Definition transition_count (d : WorkDB) (attemptID : uuid) : Z :=
  Z.of_nat (length (filter (λ t, gt_AttemptID t = attemptID ∧ gt_Terminal t = false) (graph_transitions d))).
Definition attempt_nodes (d : WorkDB) (attemptID : uuid) : list NodeExecution :=
  select (λ n, String.eqb (ne_AttemptID n) attemptID) (node_executions d).
Definition next_visit (d : WorkDB) (attemptID : uuid) (key : string) : Z :=
  max_of ne_Visit (filter (λ n, ne_NodeKey n = key) (attempt_nodes d attemptID)) + 1.
Definition next_seq (d : WorkDB) (attemptID : uuid) : Z := max_of ne_ExecutionSeq (attempt_nodes d attemptID) + 1.

(** The artifacts handed to the next node: the current node's inputs and the ones its
    completion selected. Of several links of one artifact the oldest is taken. *)
Fixpoint insert_created (l : ArtifactLink) (ls : list ArtifactLink) : list ArtifactLink :=
  match ls with
  | [] => [l]
  | m :: ls' => if al_CreatedAt l <=? al_CreatedAt m then l :: ls else m :: insert_created l ls'
  end.
Definition handoff_candidates (d : WorkDB) (attemptID : uuid) (node : NodeExecution) : list ArtifactLink :=
  filter (λ l, String.eqb (al_AttemptID l) attemptID && bool_decide (al_NodeExecutionID l = Some (ne_ID node)) &&
    (String.eqb (al_Role l) "source" || String.eqb (al_Role l) "input" ||
     bool_decide (al_ArtifactID l ∈ ar_ArtifactID <$> ne_ArtifactRefs node)) = true) (artifact_links d).
Definition handoff (now : timestamp) (attemptID : uuid) (fromID nextID : uuid) : WkTx () :=
  d ← tx_get;
  match node_executions d !! fromID with
  | None => mret ()
  | Some node =>
      tx_modify (λ d, set_links (foldl (λ ls l, add_link
        {| al_ArtifactID := al_ArtifactID l; al_WorkItemID := al_WorkItemID l; al_AttemptID := al_AttemptID l;
           al_NodeExecutionID := Some nextID; al_Role := "input"; al_Metadata := al_Metadata l;
           al_CreatedAt := now |} ls)
        (artifact_links d) (foldr insert_created [] (handoff_candidates d attemptID node))) d)
  end.

Definition update_attempt (id : uuid) (f : Attempt → Attempt) : WkTx () :=
  tx_modify (λ d, set_attempts (alter f id (attempts d)) d).
Definition transition_limit_failure : json :=
  JObj [("code", JStr "transition_limit");
        ("message", JStr "The workflow could not complete within its configured transition limit.")].
Definition any_run (s : RunState) : bool := true.
Definition advanceable (s : RunState) : bool :=
  match s with RunRunning | RunAwaitingApproval => true | _ => false end.

Definition advance_terminal (now : timestamp) (itemID attemptID : uuid) (node : NodeExecution)
    (outcome : string) (a : Attempt) (actorID : string) : WkTx RunState :=
  update_run attemptID any_run (run_finished_to now RunSucceeded);;
  update_attempt attemptID (λ a, finish_attempt now (at_CustomerFailureSummary a) (at_OperatorFailureDetail a) a);;
  insert_transition now attemptID (ne_ID node) outcome None;;
  creditValueTx now itemID attemptID;;
  appendTimelineTx now itemID attemptID (ne_ID node) "work_completed"
    (JObj [("definitionKey", JStr (at_DefinitionKey a)); ("definitionVersion", JStr (at_DefinitionVersion a))])
    [] actorID;;
  mret RunSucceeded.
Definition advance_limit (now : timestamp) (itemID attemptID : uuid) (node : NodeExecution) (actorID : string)
    : WkTx RunState :=
  update_run attemptID any_run (run_finished_to now RunFailed);;
  update_attempt attemptID (λ a, finish_attempt now (Some transition_limit_failure) (at_OperatorFailureDetail a) a);;
  appendTimelineTx now itemID attemptID (ne_ID node) "work_failed"
    (JObj [("reason", JStr "transition_limit")]) [] actorID;;
  mret RunFailed.
Definition advance_edge (now : timestamp) (attemptID : uuid) (node : NodeExecution) (outcome target : string)
    (a : Attempt) (spec : CanonicalSpec) : WkTx RunState :=
  targetDef ← tx_opt (findNode (at_GraphSnapshot a) target) (WErrOther "target node missing");
  d ← tx_get;
  ctx ← buildContextTx attemptID node;
  nextID ← insertNodeExecutionTx now attemptID targetDef (next_visit d attemptID target) (next_seq d attemptID)
             ctx (at_ModelsSnapshot a) spec;
  handoff now attemptID (ne_ID node) nextID;;
  insert_transition now attemptID (ne_ID node) outcome (Some nextID);;
  update_run attemptID advanceable (run_to now RunRunning);;
  mret RunRunning.

(** [advanceGraphTx]: [node] is the completed source node as the caller holds it. *)
Definition advanceGraphTx (now : timestamp) (itemID attemptID : uuid) (node : NodeExecution)
    (actorID : string) : WkTx RunState :=
  outcome ← tx_opt (ne_CompletionOutcome node) (WErrInvalidTransition "node completion outcome is missing");
  d ← tx_get;
  a ← tx_opt (attempts d !! attemptID) WErrNoRows;
  definition ← tx_opt (definitions d !! at_DefinitionID a) WErrNoRows;
  let graph := at_GraphSnapshot a in
  def ← tx_opt (findNode graph (ne_NodeKey node)) (WErrOther "immutable graph node is missing or changed kind");
  tx_require (String.eqb (cn_Kind def) (ne_Kind node)) (WErrOther "immutable graph node is missing or changed kind");;
  tx_require (contains (cn_Outcomes def) outcome) (WErrInvalidInput "outcome is not declared");;
  appendTimelineTx now itemID attemptID (ne_ID node) "node_completed"
    (JObj [("nodeKey", JStr (ne_NodeKey node)); ("visit", JNum (ne_Visit node) 0); ("outcome", JStr outcome);
           ("summary", JStr (deref (ne_CompletionSummary node)))]) (ne_ArtifactRefs node) actorID;;
  match route graph (ne_NodeKey node) outcome with
  | None => tx_fail (WErrOther "immutable graph has no route")
  | Some None => advance_terminal now itemID attemptID node outcome a actorID
  | Some (Some target) =>
      if cg_MaxTransitions graph <=? transition_count d attemptID
      then advance_limit now itemID attemptID node actorID
      else advance_edge now attemptID node outcome target a (df_Spec definition)
  end.

(** * Settling a graph turn *)
Definition settle_turn_row (now : timestamp) (turnID : uuid) (to : TurnState) : WkTx () :=
  tx_modify (λ d, set_rt (set_turns (alter (with_turn_state now to) turnID (turns (wk_rt d))) (wk_rt d)) d).

Definition CompleteTurn (now : timestamp) (turnID : uuid) (reason : string)
    (customerFailure operatorFailure : option json) : WkTx RunState :=
  d ← tx_get;
  turn ← tx_opt (turns (wk_rt d) !! turnID) WErrNotFound;
  nodeID ← tx_opt (turn_NodeExecutionID turn) WErrNotFound;
  node ← tx_opt (node_executions d !! nodeID) WErrNotFound;
  attempt ← tx_opt (attempts d !! ne_AttemptID node) WErrNotFound;
  let attemptID := turn_RunID turn in
  let itemID := at_WorkItemID attempt in
  tx_require (bool_decide (turn_State turn = TurnRunning))
    (WErrInvalidTransition (turn_state_name (turn_State turn)));;
  if negb (String.eqb reason "completed") || bool_decide (ne_CompletionOutcome node = None)
     || bool_decide (ne_CompletionReportedAt node = None) then
    let '(to, runTo) := if String.eqb reason "aborted" then (TurnAborted, RunAborted)
                        else (TurnFailed, RunFailed) in
    settle_turn_row now turnID to;;
    update_node nodeID (λ _, true) (λ n, with_node_state NodeFailed (ne_StartedAt n) (Some now) n);;
    update_run attemptID any_run (run_finished_to now runTo);;
    update_attempt attemptID (finish_attempt now customerFailure operatorFailure);;
    appendTimelineTx now itemID attemptID nodeID "work_failed" (JObj [("nodeKey", JStr (ne_NodeKey node))])
      [] EmptyString;;
    mret runTo
  else
    settle_turn_row now turnID TurnSucceeded;;
    update_node nodeID (λ _, true) (λ n, with_node_state NodeSucceeded (ne_StartedAt n) (Some now) n);;
    advanceGraphTx now itemID attemptID node EmptyString.
