(* ===== verification/WorkCommands.v ===== *)
(** The commands of the work domain (control-plane/internal/work/store.go,
    commands.go, value.go) and the resolution of a workflow definition for an attempt
    (control-plane/internal/workflow/store.go).

    Third-party code and the payload digest are parameters: [jsonschema_compiles] and
    [jsonschema_valid] for the JSON Schema library, [payload_hash] for the hex SHA-256
    of the canonical start payload. *)
From S2P Require Import Prelude Json Duration Runtime Workflow WorkData WorkGraph.
From Stdlib Require Import Ascii.

(** * Resolving a definition *)
Definition DefinitionKey (key version : string) : string := (key +:+ ":" +:+ version)%string.
Definition active_definition (key : string) (x : Definition_) : bool :=
  String.eqb (df_Key x) key && bool_decide (df_DeletedAt x = None).
Definition getDefinition (d : WorkDB) (key version : string) : option Definition_ :=
  head (select (λ x, active_definition key x && String.eqb (df_Version x) version) (definitions d)).
(** [ORDER BY created_at DESC, id DESC LIMIT 1]. *)
Definition newer (a b : Definition_) : bool :=
  (df_CreatedAt b <? df_CreatedAt a) ||
  ((df_CreatedAt a =? df_CreatedAt b) && String.leb (df_ID b) (df_ID a)).
Definition latest_of (l : list Definition_) : option Definition_ :=
  foldr (λ x acc, match acc with
                  | None => Some x
                  | Some y => if newer x y then Some x else Some y
                  end) None l.
Definition getLatestDefinition (d : WorkDB) (key : string) : option Definition_ :=
  latest_of (select (active_definition key) (definitions d)).

Section commands.
Context (jsonschema_compiles : string → bool) (jsonschema_valid : string → json → bool).

Definition validateCanonicalSpecForAttempt (x : Definition_) (spec : CanonicalSpec) : check () :=
  _ ← fail_if (String.eqb (cs_Key spec) EmptyString || negb (String.eqb (cs_Key spec) (df_Key x)))
        (Errorf "key must match definition key %q" [GS (df_Key x)]);
  _ ← fail_if (String.eqb (cs_ScopeIdentityKey spec) EmptyString) (Errorf "scopeIdentityKey is required" []);
  _ ← fail_if (String.eqb (so_Type (cs_Source spec)) EmptyString) (Errorf "source.type is required" []);
  _ ← range_check (λ i skill, fail_if (String.eqb (sk_Name skill) EmptyString ||
          String.eqb (sk_Version skill) EmptyString || String.eqb (sk_Digest skill) EmptyString)
        (Errorf "skills[%d] requires name, version, and digest" [GI i])) 0 (cs_Skills spec);
  ValidateGraph jsonschema_compiles spec.

(** [resolveForAttempt]: the definition with its decoded, revalidated spec. A missing
    definition or pool binding is [workflow.ErrNotFound], which callers report as
    unavailable. *)
Definition resolveForAttempt (key version : string) : WkTx Definition_ :=
  d ← tx_get;
  x ← tx_opt (if String.eqb version EmptyString then getLatestDefinition d key
              else getDefinition d key version) (WErrInvalidInput "workflow is unavailable");
  tx_require (negb (String.eqb (df_ValidationStatus x) "invalid"))
    (WErrOther "definition is invalid and cannot start an attempt");;
  tx_require (bool_decide (is_Some (ca_bindings (catalog d) !! DefinitionKey (df_Key x) (df_Version x))))
    (WErrInvalidInput "workflow is unavailable");;
  match validateCanonicalSpecForAttempt x (df_Spec x) with
  | inl _ => tx_fail (WErrOther "resolve canonical workflow spec")
  | inr _ => mret x
  end.

(** * Attempt creation *)
Definition resolvePoolTx (definitionKey : string) : WkTx uuid :=
  d ← tx_get;
  b ← tx_opt (ca_bindings (catalog d) !! definitionKey)
        (WErrInvalidInput "workflow has no active pool binding");
  mret (pb_PoolID b).

Definition namespace_of (poolKey : string) : string :=
  match String.index 0 "/" poolKey with
  | Some n => String.substring 0 n poolKey
  | None => poolKey
  end.
Definition model_refs (spec : CanonicalSpec) : list string :=
  dedup_keys (omap (λ n, if String.eqb (cn_Kind n) NodeAgentTask
                         then Some (if String.eqb (cn_ModelRef n) EmptyString
                                    then cs_DefaultModelRef spec else cn_ModelRef n)
                         else None) (cg_Nodes (cs_Graph spec))).
(** [*int] and [*bool] fields decoded with the error dropped. *)
Definition int_field (name : string) (v : json) : option Z :=
  match v with
  | JObj l => foldl (λ acc x, match x with
      | JNum m e => let n := m * 10 ^ e in
          if (0 <=? e) && (- int8_max - 1 <=? n) && (n <=? int8_max) then Some n else Some (default 0 acc)
      | JNull => None
      | _ => Some (default 0 acc)
      end) None (field_values name l)
  | _ => None
  end.
Definition boolptr_of (name : string) (v : json) : option bool :=
  match v with
  | JObj l => foldl (λ acc x, match x with
      | JBool b => Some b
      | JNull => None
      | _ => Some (default false acc)
      end) None (field_values name l)
  | _ => None
  end.
Definition snapshot_model (key : string) (m : ModelRow) : modelSnapshot :=
  {| ms_Key := key; ms_ID := mr_ID m; ms_API := "openai-completions";
     ms_ContextWindow := mr_ContextLength m;
     ms_MaxOutputTokens := default 0 (int_field "max_tokens" (mr_DefaultParams m));
     ms_ThinkingLevel := match boolptr_of "enable_thinking" (mr_ReasoningConfig m) with
                         | Some true => "medium" | Some false => "off" | None => EmptyString end;
     ms_DefaultParams := mr_DefaultParams m; ms_ReasoningConfig := mr_ReasoningConfig m |}.
Definition resolveModelsTx (poolKey : string) (spec : CanonicalSpec) : WkTx (gmap string modelSnapshot) :=
  d ← tx_get;
  let key ref := (namespace_of poolKey +:+ "/" +:+ ref)%string in
  tx_require (forallb (λ ref, bool_decide (is_Some (ca_models (catalog d) !! key ref))) (model_refs spec))
    (WErrInvalidInput "model is unavailable");;
  mret (list_to_map (omap (λ ref, m ← ca_models (catalog d) !! key ref;
                                  Some (ref, snapshot_model (key ref) m)) (model_refs spec))).

(** The newest version of the value model, [None] when unconfigured. *)
Definition newer_value (a b : ValueModel) : bool :=
  (vm_CreatedAt b <? vm_CreatedAt a) ||
  ((vm_CreatedAt a =? vm_CreatedAt b) && String.leb (vm_ID b) (vm_ID a)).
Definition resolveValueModelTx (d : WorkDB) (ref : string) : option ValueModel :=
  if String.eqb ref EmptyString then None
  else foldr (λ x acc, match acc with
                       | None => Some x
                       | Some y => if newer_value x y then Some x else Some y
                       end) None (select (λ v, String.eqb (vm_Ref v) ref) (value_models d)).

Definition effect_rank (c : string) : Z :=
  if String.eqb c "read_only" then 1 else if String.eqb c "idempotent_write" then 2 else 3.
Definition eligible_versions (c : Catalog) (poolID : uuid) (name maxEffect : string) : list ToolVersion :=
  filter (λ tv, String.eqb (tv_Name tv) name &&
    existsb (λ g, String.eqb (pg_ToolName g) name && String.eqb (pg_PoolID g) poolID &&
                  (effect_rank (tv_EffectClass tv) <=? effect_rank (pg_MaxEffectClass g))) (ca_grants c) &&
    (effect_rank (tv_EffectClass tv) <=? effect_rank maxEffect) = true) (ca_tool_versions c).
Definition newest_version (l : list ToolVersion) : option ToolVersion :=
  foldr (λ x acc, match acc with
                  | None => Some x
                  | Some y => if (tv_CreatedAt y <? tv_CreatedAt x) ||
                                 ((tv_CreatedAt x =? tv_CreatedAt y) && String.leb (tv_ID y) (tv_ID x))
                              then Some x else Some y
                  end) None l.
Definition capability_ceilings (caps : list CanonicalCapability) : gmap string string :=
  foldl (λ m c, <[cc_Tool c := cc_MaxEffectClass c]> m) ∅ caps.
Definition pin_tool (attemptID poolID : uuid) (ceilings : gmap string string) (name : string) : WkTx () :=
  d ← tx_get;
  tv ← tx_opt (newest_version (eligible_versions (catalog d) poolID name
                 (default EmptyString (ceilings !! name))))
         (WErrInvalidInput "requested tool has no eligible healthy version");
  tx_require (forallb (λ p, negb (String.eqb p.1.1 attemptID && String.eqb p.1.2 name)) (tool_pins d))
    (violation "attempt_tool_pins_pkey");;
  tx_modify (set_pins (tool_pins d ++ [(attemptID, name, tv_Digest tv)])).
Definition snapshotToolsTx (attemptID poolID : uuid) (caps : list CanonicalCapability) : WkTx () :=
  let ceilings := capability_ceilings caps in
  tx_iter (pin_tool attemptID poolID ceilings) (sort_strings (map_to_list ceilings).*1).

Record createAttemptInput := {
  ci_ID : uuid; ci_WorkItemID : uuid; ci_Number : Z; ci_ActorIdentityID : string;
  ci_InitiatingHumanIdentityID : string; ci_AuthorizationSource : string;
  ci_AuthorizationAPIKeyID : string; ci_AuthorizationSessionID : string;
  ci_Resolved : Definition_; ci_Source : RawMessage; ci_SourceArtifacts : list ArtifactRef;
  ci_RevisedFromAttemptID : string; ci_RevisionFeedbackID : string; ci_ActionableGuidance : string;
  ci_ConsequenceConfirmation : list string }.

Definition textOrNil (value : string) : option string :=
  if String.eqb (TrimSpace value) EmptyString then None else Some value.
Definition authorization_sources : list string := ["browser"; "api"; "chat"].
(** The CHECK on the authorization source passes NULL. *)
Definition source_ok (p : Principals) : bool :=
  match pp_AuthorizationSource p with
  | None => true
  | Some s => bool_decide (s ∈ authorization_sources)
  end.
Definition run_principals (inp : createAttemptInput) : Principals :=
  {| pp_InitiatingHumanIdentityID := textOrNil (ci_InitiatingHumanIdentityID inp);
     pp_RequestActorIdentityID := textOrNil (ci_ActorIdentityID inp);
     pp_AuthorizationSource := textOrNil (ci_AuthorizationSource inp);
     pp_AuthorizationAPIKeyID := textOrNil (ci_AuthorizationAPIKeyID inp);
     pp_AuthorizationSessionID := textOrNil (ci_AuthorizationSessionID inp) |}.
Definition insert_run (now : timestamp) (id : uuid) (definitionKey : string) (scope : uuid) (trigger : json)
    (principals : Principals) : WkTx () :=
  d ← tx_get;
  tx_require (source_ok principals) (WErrDB (ErrCheckViolation "workflow_runs_authorization_source_check"));;
  tx_require (bool_decide (workflow_runs (wk_rt d) !! id = None)) (violation "workflow_runs_pkey");;
  tx_require (bool_decide (scope ∈ identities (wk_rt d))) (fk_violation "workflow_runs_scope_identity_id_fkey");;
  tx_modify (λ d, set_rt (set_runs (<[id := {| run_ID := id; run_Kind := KindWorkflow;
    run_DefinitionKey := Some definitionKey; run_ScopeIdentityID := scope; run_SessionID := id;
    run_SessionDir := id; run_Trigger := trigger; run_State := RunPending; run_CreatedAt := now;
    run_UpdatedAt := now; run_StartedAt := None; run_FinishedAt := None; run_Principals := principals |}]>
    (workflow_runs (wk_rt d))) (wk_rt d)) d).
Definition insert_attempt (a : Attempt) : WkTx () :=
  d ← tx_get;
  tx_require (bool_decide (attempts d !! at_ID a = None)) (violation "attempts_pkey");;
  tx_require (bool_decide (is_Some (work_items d !! at_WorkItemID a))) (fk_violation "attempts_work_item_id_fkey");;
  tx_require (negb (exists_row (λ b, String.eqb (at_WorkItemID b) (at_WorkItemID a) && (at_Number b =? at_Number a))
                      (attempts d))) (violation "attempts_work_item_id_number_key");;
  tx_require (match at_RevisionFeedbackID a with
              | None => true
              | Some f => negb (exists_row (λ b, bool_decide (at_RevisionFeedbackID b = Some f)) (attempts d))
              end) (violation "idx_attempts_revision_feedback");;
  tx_require ((0 <? at_Number a) && (at_Number a <=? int4_max)) (WErrDB ErrNumericOutOfRange);;
  tx_modify (set_attempts (<[at_ID a := a]> (attempts d))).

(** One source artifact: it must be available; the link is not conditional. *)
Definition link_source (now : timestamp) (inp : createAttemptInput) (execID : uuid) (ref : ArtifactRef) : WkTx () :=
  tx_require (negb (String.eqb (ar_ArtifactID ref) EmptyString)) (WErrInvalidInput "artifactId is required");;
  let role := if String.eqb (ar_Role ref) EmptyString then "source" else ar_Role ref in
  meta ← json_column (ar_Metadata ref);
  d ← tx_get;
  tx_require (match artifacts d !! ar_ArtifactID ref with
              | Some a => String.eqb (af_State a) "available" | None => false end)
    (WErrInvalidInput "source artifact is not available");;
  tx_require (bool_decide (role ∈ link_roles)) (WErrDB (ErrCheckViolation "artifact_links_role_check"));;
  let l := {| al_ArtifactID := ar_ArtifactID ref; al_WorkItemID := ci_WorkItemID inp; al_AttemptID := ci_ID inp;
              al_NodeExecutionID := Some execID; al_Role := role; al_Metadata := meta; al_CreatedAt := now |} in
  tx_require (negb (existsb (same_link l) (artifact_links d))) (violation "artifact_links_key");;
  tx_modify (set_links (artifact_links d ++ [l])).

Definition createAttemptTx (now : timestamp) (inp : createAttemptInput) : WkTx () :=
  let def := ci_Resolved inp in
  let spec := df_Spec def in
  poolID ← resolvePoolTx (DefinitionKey (df_Key def) (df_Version def));
  models ← resolveModelsTx (df_PoolKey def) spec;
  d ← tx_get;
  '(valueID, value) ←
    (if String.eqb (ci_RevisedFromAttemptID inp) EmptyString
     then let v := resolveValueModelTx d (cs_ValueModelRef spec) in mret (vm_ID <$> v, v)
     else first ← tx_opt (head (select (λ a, String.eqb (at_WorkItemID a) (ci_WorkItemID inp) && (at_Number a =? 1))
                                  (attempts d))) WErrNoRows;
          mret (at_ValueModelID first, at_ValueModelSnapshot first) : WkTx (option uuid * option ValueModel));
  trigger ← json_column (ci_Source inp);
  insert_run now (ci_ID inp) (DefinitionKey (df_Key def) (df_Version def)) (df_ScopeIdentityID def) trigger
    (run_principals inp);;
  insert_attempt {| at_ID := ci_ID inp; at_WorkItemID := ci_WorkItemID inp; at_Number := ci_Number inp;
    at_DefinitionID := df_ID def; at_DefinitionKey := df_Key def; at_DefinitionVersion := df_Version def;
    at_DefinitionDigest := df_Digest def; at_GraphSnapshot := cs_Graph spec; at_SkillsSnapshot := cs_Skills spec;
    at_CapabilitiesSnapshot := cs_RequestedCapabilities spec; at_ModelsSnapshot := models;
    at_PresentationSnapshot := df_Presentation def; at_ValueModelID := valueID; at_ValueModelSnapshot := value;
    at_RevisedFromAttemptID := nullable (ci_RevisedFromAttemptID inp);
    at_RevisionFeedbackID := nullable (ci_RevisionFeedbackID inp);
    at_ActionableGuidance := nullable (ci_ActionableGuidance inp);
    at_ConsequenceConfirmation := ci_ConsequenceConfirmation inp; at_CustomerFailureSummary := None;
    at_OperatorFailureDetail := None; at_CreatedAt := now; at_FinishedAt := None |};;
  tx_modify (λ d, set_assignments (<[ci_ID inp := poolID]> (pool_assignments d)) d);;
  snapshotToolsTx (ci_ID inp) poolID (cs_RequestedCapabilities spec);;
  entry ← tx_opt (findNode (cs_Graph spec) (cg_EntryNode (cs_Graph spec)))
            (WErrInvalidInput "graph entry node disappeared from immutable snapshot");
  execID ← insertNodeExecutionTx now (ci_ID inp) entry 1 1
    (JObj ([("source", match ci_Source inp with GoodJSON v => if any_ok v then v else JObj [] | _ => JObj [] end);
            ("sourceArtifacts", refs_json (ci_SourceArtifacts inp));
            ("latestByNode", JObj []);
            ("executionHistoryRef", JObj [("attemptId", JStr (ci_ID inp)); ("throughExecutionSeq", JNum 0 0)])]
           ++ (if String.eqb (ci_ActionableGuidance inp) EmptyString then []
               else [("revisionGuidance", JStr (ci_ActionableGuidance inp))]))) models spec;
  tx_iter (link_source now inp execID) (ci_SourceArtifacts inp);;
  appendTimelineTx now (ci_WorkItemID inp) (ci_ID inp) execID "attempt_created"
    (JObj [("attemptNumber", JNum (ci_Number inp) 0); ("definitionVersion", JStr (df_Version def))])
    [] (ci_ActorIdentityID inp).

(** * Starting work *)
Record StartInput := {
  st_ActorIdentityID : string; st_WorkflowKey : string; st_WorkflowVersion : string;
  st_IdempotencyKey : string; st_Title : string; st_Source : RawMessage; st_SourceBytes : Z;
  st_SourcePresentation : SourcePresentation; st_ArtifactRefs : list ArtifactRef;
  st_InitiatingHumanIdentityID : string; st_AuthorizationSource : string;
  st_AuthorizationAPIKeyID : string; st_AuthorizationSessionID : string }.
Definition MaxSourceBytes : Z := 1048576.

Definition https_prefix (s : string) : bool :=
  match strip_prefix "https://" s with Some _ => true | None => false end.
Definition validateSourcePresentation (sp : SourcePresentation) : WkTx () :=
  tx_require (negb (String.eqb (TrimSpace (sp_Kind sp)) EmptyString) &&
              negb (String.eqb (TrimSpace (sp_Title sp)) EmptyString))
    (WErrInvalidInput "sourcePresentation.kind and title are required");;
  tx_require (String.eqb (sp_OriginalURL sp) EmptyString || https_prefix (sp_OriginalURL sp))
    (WErrInvalidInput "sourcePresentation.originalUrl must use https");;
  tx_require (forallb (λ f, negb (String.eqb (lt_EN (pf_Label f)) EmptyString &&
                                  String.eqb (lt_PT (pf_Label f)) EmptyString) &&
                            negb (String.eqb (TrimSpace (pf_Value f)) EmptyString)) (sp_Evidence sp))
    (WErrInvalidInput "sourcePresentation.evidence requires a label and value").

(** The canonical payload that is hashed: the source defaults to the empty object. *)
Record StartPayload := {
  py_WorkflowKey : string; py_Version : string; py_Title : string; py_Source : json;
  py_SourcePresentation : SourcePresentation; py_Artifacts : list (string * string * option json) }.
Context (payload_hash : StartPayload → string).
Definition decoded (raw : RawMessage) (dflt : option json) : option (option json) :=
  match raw with
  | NoJSON => Some dflt
  | GoodJSON v => if any_ok v then Some (Some v) else None
  | BadJSON _ => None
  end.
Fixpoint canonical_artifacts (refs : list ArtifactRef) : option (list (string * string * option json)) :=
  match refs with
  | [] => Some []
  | r :: refs' =>
      m ← decoded (ar_Metadata r) None;
      l ← canonical_artifacts refs';
      Some ((ar_ArtifactID r, ar_Role r, m) :: l)
  end.
Definition startPayloadHash (inp : StartInput) (refs : list ArtifactRef) : WkTx string :=
  source ← tx_opt (decoded (st_Source inp) (Some (JObj []))) (WErrInvalidInput "source must be valid JSON");
  arts ← tx_opt (canonical_artifacts refs) (WErrInvalidInput "artifact metadata must be valid JSON");
  mret (payload_hash {| py_WorkflowKey := st_WorkflowKey inp; py_Version := st_WorkflowVersion inp;
    py_Title := st_Title inp; py_Source := default (JObj []) source;
    py_SourcePresentation := st_SourcePresentation inp; py_Artifacts := arts |}).

Definition start_key_matches (inp : StartInput) (w : WorkItem) : bool :=
  String.eqb (wi_StartIdentityID w) (st_ActorIdentityID inp) &&
  String.eqb (wi_WorkflowKey w) (st_WorkflowKey inp) &&
  String.eqb (wi_StartIdempotencyKey w) (st_IdempotencyKey inp).
Definition existing_start (d : WorkDB) (inp : StartInput) : option WorkItem :=
  head (select (start_key_matches inp) (work_items d)).
Definition start_refs (inp : StartInput) : WkTx (list ArtifactRef) :=
  tx_map (λ ref,
    tx_require (negb (String.eqb (ar_ArtifactID ref) EmptyString)) (WErrInvalidInput "artifactId is required");;
    tx_require (String.eqb (ar_Role ref) EmptyString || String.eqb (ar_Role ref) "source")
      (WErrInvalidInput "work-item start artifacts must use role source");;
    mret (set_role "source" ref)) (st_ArtifactRefs inp).

Definition start_principals (inp : StartInput) : Principals :=
  {| pp_InitiatingHumanIdentityID := textOrNil (st_InitiatingHumanIdentityID inp);
     pp_RequestActorIdentityID := Some (st_ActorIdentityID inp);
     pp_AuthorizationSource := textOrNil (st_AuthorizationSource inp);
     pp_AuthorizationAPIKeyID := textOrNil (st_AuthorizationAPIKeyID inp);
     pp_AuthorizationSessionID := textOrNil (st_AuthorizationSessionID inp) |}.
(** [Start]: the work item's id and whether this call created it. *)
Definition Start (now : timestamp) (inp : StartInput) : WkTx (uuid * bool) :=
  tx_require (negb (String.eqb (st_ActorIdentityID inp) EmptyString) &&
              negb (String.eqb (st_WorkflowKey inp) EmptyString) &&
              negb (String.eqb (st_IdempotencyKey inp) EmptyString) &&
              negb (String.eqb (st_Title inp) EmptyString))
    (WErrInvalidInput "actor, workflowKey, idempotency key, and title are required");;
  validateSourcePresentation (st_SourcePresentation inp);;
  tx_require (st_SourceBytes inp <=? MaxSourceBytes) (WErrInvalidInput "source payload exceeds limit");;
  refs ← start_refs inp;
  payloadHash ← startPayloadHash inp refs;
  d ← tx_get;
  match existing_start d inp with
  | Some w =>
      tx_require (String.eqb (wi_StartPayloadHash w) payloadHash)
        (WErrConflict "idempotency key reused with different payload");;
      mret (wi_ID w, false)
  | None =>
      resolved ← resolveForAttempt (st_WorkflowKey inp) (st_WorkflowVersion inp);
      itemID ← new_uuid;
      attemptID ← new_uuid;
      source ← json_column (st_Source inp);
      let principals := start_principals inp in
      d ← tx_get;
      tx_require (source_ok principals) (WErrDB (ErrCheckViolation "work_items_authorization_source_check"));;
      tx_require (bool_decide (work_items d !! itemID = None)) (violation "work_items_pkey");;
      tx_require (bool_decide (st_ActorIdentityID inp ∈ identities (wk_rt d)) &&
                  bool_decide (df_ScopeIdentityID resolved ∈ identities (wk_rt d)) &&
                  match pp_InitiatingHumanIdentityID principals with
                  | None => true | Some h => bool_decide (h ∈ identities (wk_rt d)) end)
        (fk_violation "work_items_identity_fkey");;
      tx_modify (set_work_items (<[itemID := {| wi_ID := itemID; wi_WorkflowKey := st_WorkflowKey inp;
        wi_ScopeIdentityID := df_ScopeIdentityID resolved; wi_Title := st_Title inp; wi_Source := source;
        wi_SourcePresentation := st_SourcePresentation inp; wi_StartIdentityID := st_ActorIdentityID inp;
        wi_StartIdempotencyKey := st_IdempotencyKey inp; wi_StartPayloadHash := payloadHash;
        wi_CurrentAttemptID := None; wi_CreatedAt := now; wi_Principals := principals |}]> (work_items d)));;
      createAttemptTx now {| ci_ID := attemptID; ci_WorkItemID := itemID; ci_Number := 1;
        ci_ActorIdentityID := st_ActorIdentityID inp;
        ci_InitiatingHumanIdentityID := st_InitiatingHumanIdentityID inp;
        ci_AuthorizationSource := st_AuthorizationSource inp;
        ci_AuthorizationAPIKeyID := st_AuthorizationAPIKeyID inp;
        ci_AuthorizationSessionID := st_AuthorizationSessionID inp;
        ci_Resolved := resolved; ci_Source := st_Source inp;
        ci_SourceArtifacts := refs; ci_RevisedFromAttemptID := EmptyString;
        ci_RevisionFeedbackID := EmptyString; ci_ActionableGuidance := EmptyString;
        ci_ConsequenceConfirmation := [] |};;
      tx_modify (λ d, set_work_items (alter (set_current_attempt attemptID) itemID (work_items d)) d);;
      appendTimelineTx now itemID attemptID EmptyString "work_item_created"
        (JObj [("title", JStr (st_Title inp)); ("workflowKey", JStr (st_WorkflowKey inp))]) refs
        (st_ActorIdentityID inp);;
      mret (itemID, true)
  end.

(** * Responding to a blocker *)
Record BlockerResponseInput := {
  br_BlockerID : string; br_ActorIdentityID : string; br_Outcome : string; br_Response : RawMessage;
  br_ArtifactRefs : list ArtifactRef; br_ConfirmedInvocationIDs : list string }.
Definition set_blocker (b : Blocker) (d : WorkDB) : WorkDB := set_blockers (<[bl_ID b := b]> (blockers d)) d.
Definition with_resolution (now : timestamp) (outcome : string) (response : json) (actor : uuid)
    (b : Blocker) : Blocker :=
  {| bl_ID := bl_ID b; bl_WorkItemID := bl_WorkItemID b; bl_AttemptID := bl_AttemptID b;
     bl_NodeExecutionID := bl_NodeExecutionID b; bl_Kind := bl_Kind b; bl_Title := bl_Title b;
     bl_Description := bl_Description b; bl_ResponseSchema := bl_ResponseSchema b;
     bl_AllowedOutcomes := bl_AllowedOutcomes b; bl_Presentation := bl_Presentation b;
     bl_RequiredConsequences := bl_RequiredConsequences b; bl_State := BlockerResolved;
     bl_ResponseOutcome := Some outcome; bl_Response := Some response; bl_RespondedBy := Some actor;
     bl_CreatedAt := bl_CreatedAt b; bl_ResolvedAt := Some now |}.
(** The value [RespondBlocker] returns: the row it read with the response filled in. *)
Definition answered (outcome : string) (response : json) (b : Blocker) : Blocker :=
  {| bl_ID := bl_ID b; bl_WorkItemID := bl_WorkItemID b; bl_AttemptID := bl_AttemptID b;
     bl_NodeExecutionID := bl_NodeExecutionID b; bl_Kind := bl_Kind b; bl_Title := bl_Title b;
     bl_Description := bl_Description b; bl_ResponseSchema := bl_ResponseSchema b;
     bl_AllowedOutcomes := bl_AllowedOutcomes b; bl_Presentation := bl_Presentation b;
     bl_RequiredConsequences := bl_RequiredConsequences b; bl_State := BlockerResolved;
     bl_ResponseOutcome := Some outcome; bl_Response := Some response; bl_RespondedBy := bl_RespondedBy b;
     bl_CreatedAt := bl_CreatedAt b; bl_ResolvedAt := bl_ResolvedAt b |}.
Definition with_required (cs : list Consequence) (b : Blocker) : Blocker :=
  {| bl_ID := bl_ID b; bl_WorkItemID := bl_WorkItemID b; bl_AttemptID := bl_AttemptID b;
     bl_NodeExecutionID := bl_NodeExecutionID b; bl_Kind := bl_Kind b; bl_Title := bl_Title b;
     bl_Description := bl_Description b; bl_ResponseSchema := bl_ResponseSchema b;
     bl_AllowedOutcomes := bl_AllowedOutcomes b; bl_Presentation := bl_Presentation b;
     bl_RequiredConsequences := cs; bl_State := bl_State b;
     bl_ResponseOutcome := bl_ResponseOutcome b; bl_Response := bl_Response b;
     bl_RespondedBy := bl_RespondedBy b; bl_CreatedAt := bl_CreatedAt b; bl_ResolvedAt := bl_ResolvedAt b |}.

Definition check_response_ref (ref : ArtifactRef) : WkTx ArtifactRef :=
  tx_require (negb (String.eqb (ar_ArtifactID ref) EmptyString)) (WErrInvalidInput "artifactRefs artifactId is required");;
  tx_require (negb (invalid_json (ar_Metadata ref))) (WErrInvalidInput "artifactRefs metadata must be valid JSON");;
  d ← tx_get;
  tx_require (match artifacts d !! ar_ArtifactID ref with
              | Some a => String.eqb (af_State a) "available" | None => false end)
    (WErrInvalidInput "artifactRefs is not available");;
  mret (set_role "input" ref).

(** The confirmation of repeated external writes: [Some cs] asks for a refreshed
    blocker, because the set of writes changed since it was disclosed. *)
Definition check_confirmation (b : Blocker) (confirmedIDs : list string) : WkTx (option (list Consequence)) :=
  nodeID ← tx_opt (bl_NodeExecutionID b) (WErrInvalidTransition "blocker has no node execution");
  d ← tx_get;
  node ← tx_opt (node_executions d !! nodeID) WErrNoRows;
  current ← consequencesForNodeTx (bl_AttemptID b) (ne_NodeKey node) nodeID;
  if negb (equalStrings (sortedIDs (bl_RequiredConsequences b)) (sortedIDs current)) then mret (Some current)
  else
    tx_require (equalStrings (sortedIDs current) (sort_strings confirmedIDs))
      (WErrConfirmation "exact invocation set required");;
    mret None.

Definition completeHumanNodeTx (now : timestamp) (b : Blocker) (nodeID : uuid) (outcome : string)
    (response : json) (refs : list ArtifactRef) (actorID : string) : WkTx () :=
  d ← tx_get;
  node ← tx_opt (node_executions d !! nodeID) WErrNoRows;
  tx_require (bool_decide (ne_State node = NodeBlocked))
    (WErrInvalidTransition (node_state_name (ne_State node)));;
  let done n := with_node_state NodeSucceeded (ne_StartedAt n) (Some now)
                  (with_report now outcome "Human response received" response refs n) in
  update_node nodeID (λ _, true) done;;
  tx_iter (link_artifact now (bl_WorkItemID b) (bl_AttemptID b) nodeID "input") refs;;
  appendTimelineTx now (bl_WorkItemID b) (bl_AttemptID b) nodeID "blocker_resolved"
    (JObj [("nodeKey", JStr (ne_NodeKey node)); ("outcome", JStr outcome)]) refs actorID;;
  advanceGraphTx now (bl_WorkItemID b) (bl_AttemptID b)
    (with_node_state NodeSucceeded (ne_StartedAt node) (ne_FinishedAt node)
       (with_report now outcome "Human response received" response refs node)) actorID;;
  mret ().

(** A refreshed blocker is committed although the caller gets an error. *)
Inductive RespondResult := Responded (b : Blocker) | RefreshRequired.

Definition RespondBlocker (now : timestamp) (inp : BlockerResponseInput) : WkTx RespondResult :=
  tx_require (negb (String.eqb (br_BlockerID inp) EmptyString) &&
              negb (String.eqb (br_ActorIdentityID inp) EmptyString) &&
              negb (String.eqb (br_Outcome inp) EmptyString))
    (WErrInvalidInput "blocker, actor, and outcome are required");;
  d ← tx_get;
  b ← tx_opt (blockers d !! br_BlockerID inp) WErrNotFound;
  tx_require (bool_decide (bl_State b = BlockerOpen)) (WErrInvalidTransition "blocker is resolved");;
  tx_require (contains (bl_AllowedOutcomes b) (br_Outcome inp)) (WErrInvalidInput "outcome is not allowed");;
  response ← tx_opt (validateInstance jsonschema_valid (br_Response inp) (bl_ResponseSchema b))
               (WErrInvalidInput "response");
  tx_require (negb (String.eqb (bl_Kind b) "artifact" && bool_decide (br_ArtifactRefs inp = [])))
    (WErrInvalidInput "artifact blocker requires artifactRefs");;
  tx_require (String.eqb (bl_Kind b) "artifact" || bool_decide (br_ArtifactRefs inp = []))
    (WErrInvalidInput "artifactRefs are allowed only for artifact blockers");;
  refs ← tx_map check_response_ref (br_ArtifactRefs inp);
  refresh ← (if String.eqb (bl_Kind b) "consequence_confirmation"
             then check_confirmation b (br_ConfirmedInvocationIDs inp) else mret None);
  match refresh with
  | Some current => tx_modify (set_blocker (with_required current b));; mret RefreshRequired
  | None =>
      d ← tx_get;
      tx_require (bool_decide (br_ActorIdentityID inp ∈ identities (wk_rt d)))
        (fk_violation "blockers_responded_by_fkey");;
      let resolved := with_resolution now (br_Outcome inp) response (br_ActorIdentityID inp) b in
      tx_modify (set_blocker resolved);;
      nodeID ← tx_opt (bl_NodeExecutionID b) (WErrInvalidTransition "blocker has no node execution");
      (if String.eqb (bl_Kind b) "consequence_confirmation" then
         update_node nodeID (λ n, bool_decide (ne_State n = NodeBlocked))
           (λ n, with_node_state NodePending (ne_StartedAt n) (ne_FinishedAt n) n);;
         update_run (bl_AttemptID b) (λ s, bool_decide (s = RunAwaitingApproval)) (run_to now RunRunning);;
         appendTimelineTx now (bl_WorkItemID b) (bl_AttemptID b) nodeID "consequence_repetition_confirmed"
           (JObj [("invocationIds", json_strings (br_ConfirmedInvocationIDs inp))]) [] (br_ActorIdentityID inp)
       else completeHumanNodeTx now b nodeID (br_Outcome inp) response refs (br_ActorIdentityID inp));;
      mret (Responded (answered (br_Outcome inp) response b))
  end.

(** * Feedback and value *)
Record FeedbackInput := {
  fi_WorkItemID : string; fi_AttemptID : string; fi_ActorIdentityID : string; fi_Category : string;
  fi_Explanation : string; fi_CorrectedResult : RawMessage }.
Definition completion_credit (d : WorkDB) (itemID : uuid) : option LedgerEntry :=
  List.find (λ e, String.eqb (le_WorkItemID e) itemID && bool_decide (le_Kind e = CompletionCredit)) (value_ledger d).
Definition deductValueTx (now : timestamp) (f : Feedback) : WkTx () :=
  d ← tx_get;
  match completion_credit d (fb_WorkItemID f) with
  | None => mret ()
  | Some c =>
      added ← insert_ledger {| le_WorkItemID := fb_WorkItemID f; le_AttemptID := fb_AttemptID f;
        le_FeedbackID := Some (fb_ID f); le_ValueModelID := le_ValueModelID c; le_Kind := FeedbackDeduction;
        le_Amount := - le_Amount c; le_Currency := le_Currency c; le_Formula := le_Formula c;
        le_CreatedAt := now |};
      if (added : bool)
      then appendTimelineTx now (fb_WorkItemID f) (fb_AttemptID f) EmptyString "value_deducted"
             (JObj [("estimated", JBool true); ("currency", JStr (le_Currency c))]) [] (fb_CreatedBy f)
      else mret ()
  end.
Definition SaveFeedback (now : timestamp) (inp : FeedbackInput) : WkTx Feedback :=
  tx_require (negb (String.eqb (fi_WorkItemID inp) EmptyString) && negb (String.eqb (fi_AttemptID inp) EmptyString)
              && negb (String.eqb (fi_ActorIdentityID inp) EmptyString)
              && negb (String.eqb (fi_Category inp) EmptyString))
    (WErrInvalidInput "item, attempt, actor, and category are required");;
  tx_require (negb (invalid_json (fi_CorrectedResult inp))) (WErrInvalidInput "correctedResult must be valid JSON");;
  d ← tx_get;
  a ← tx_opt (attempts d !! fi_AttemptID inp) WErrNotFound;
  tx_require (String.eqb (at_WorkItemID a) (fi_WorkItemID inp)) WErrNotFound;;
  run ← tx_opt (workflow_runs (wk_rt d) !! fi_AttemptID inp) WErrNotFound;
  tx_require (bool_decide (run_State run = RunSucceeded))
    (WErrInvalidTransition "feedback requires a completed attempt");;
  id ← new_uuid;
  d ← tx_get;
  tx_require (bool_decide (feedback d !! id = None)) (violation "feedback_pkey");;
  tx_require (bool_decide (fi_ActorIdentityID inp ∈ identities (wk_rt d))) (fk_violation "feedback_created_by_fkey");;
  let f := {| fb_ID := id; fb_WorkItemID := fi_WorkItemID inp; fb_AttemptID := fi_AttemptID inp;
              fb_Category := fi_Category inp; fb_Explanation := nullable (fi_Explanation inp);
              fb_CorrectedResult := match fi_CorrectedResult inp with GoodJSON v => Some v | _ => None end;
              fb_CreatedBy := fi_ActorIdentityID inp; fb_CreatedAt := now |} in
  tx_modify (set_feedback (<[id := f]> (feedback d)));;
  deductValueTx now f;;
  appendTimelineTx now (fi_WorkItemID inp) (fi_AttemptID inp) EmptyString "feedback_recorded"
    (JObj [("category", JStr (fi_Category inp))]) [] (fi_ActorIdentityID inp);;
  mret f.

(** * Revisions *)
Record RevisionInput := {
  ri_WorkItemID : string; ri_ActorIdentityID : string; ri_FeedbackID : string;
  ri_ActionableGuidance : string; ri_ConfirmedInvocationIDs : list string }.
Definition item_consequence (d : WorkDB) (itemID : uuid) (i : Invocation) : bool :=
  consequential i &&
  match n ← invocation_node d i; attempts d !! ne_AttemptID n with
  | Some a => String.eqb (at_WorkItemID a) itemID
  | None => false
  end.
Definition consequencesForItemQuery (itemID : uuid) : WkTx (list Consequence) :=
  d ← tx_get;
  to_consequences (sort_invocations (filter (λ i, item_consequence d itemID i = true) (invocations d))).
Definition ConsequencesForItem (itemID : uuid) : WkTx (list Consequence) :=
  d ← tx_get;
  tx_require (bool_decide (is_Some (work_items d !! itemID))) WErrNotFound;;
  consequencesForItemQuery itemID.

(** The read before the transaction: definition and attempt the feedback is about. *)
Definition revision_target (inp : RevisionInput) : WkTx (string * string * uuid) :=
  d ← tx_get;
  f ← tx_opt (feedback d !! ri_FeedbackID inp) WErrNotFound;
  a ← tx_opt (attempts d !! fb_AttemptID f) WErrNotFound;
  item ← tx_opt (work_items d !! fb_WorkItemID f) WErrNotFound;
  tx_require (String.eqb (fb_WorkItemID f) (ri_WorkItemID inp) &&
              bool_decide (wi_CurrentAttemptID item = Some (fb_AttemptID f))) WErrNotFound;;
  mret (at_DefinitionKey a, at_DefinitionVersion a, fb_AttemptID f).
Definition next_attempt_number (d : WorkDB) (itemID : uuid) : Z :=
  max_of at_Number (select (λ a, String.eqb (at_WorkItemID a) itemID) (attempts d)) + 1.
(** The transaction, with what was read before it. *)
Definition createRevisionTx (now : timestamp) (inp : RevisionInput) (resolved : Definition_)
    (currentAttempt : uuid) : WkTx uuid :=
  d ← tx_get;
  item ← tx_opt (work_items d !! ri_WorkItemID inp) WErrNoRows;
  tx_require (bool_decide (wi_CurrentAttemptID item = Some currentAttempt)) (WErrConflict "current attempt changed");;
  run ← tx_opt (workflow_runs (wk_rt d) !! currentAttempt) WErrNoRows;
  tx_require (bool_decide (run_State run = RunSucceeded))
    (WErrInvalidTransition "revision requires current item Done");;
  consequences ← consequencesForItemQuery (ri_WorkItemID inp);
  let confirmed := sort_strings (ri_ConfirmedInvocationIDs inp) in
  tx_require (equalStrings (sortedIDs consequences) confirmed) (WErrConfirmation "exact invocation set required");;
  let number := next_attempt_number d (ri_WorkItemID inp) in
  attemptID ← new_uuid;
  createAttemptTx now {| ci_ID := attemptID; ci_WorkItemID := ri_WorkItemID inp; ci_Number := number;
    ci_ActorIdentityID := ri_ActorIdentityID inp; ci_InitiatingHumanIdentityID := EmptyString;
    ci_AuthorizationSource := EmptyString; ci_AuthorizationAPIKeyID := EmptyString;
    ci_AuthorizationSessionID := EmptyString; ci_Resolved := resolved;
    ci_Source := GoodJSON (wi_Source item); ci_SourceArtifacts := sourceArtifacts d (ri_WorkItemID inp);
    ci_RevisedFromAttemptID := currentAttempt; ci_RevisionFeedbackID := ri_FeedbackID inp;
    ci_ActionableGuidance := ri_ActionableGuidance inp; ci_ConsequenceConfirmation := confirmed |};;
  tx_modify (λ d, set_work_items (alter (set_current_attempt attemptID) (ri_WorkItemID inp) (work_items d)) d);;
  appendTimelineTx now (ri_WorkItemID inp) attemptID EmptyString "revision_requested"
    (JObj [("feedbackId", JStr (ri_FeedbackID inp)); ("attemptNumber", JNum number 0)]) []
    (ri_ActorIdentityID inp);;
  mret attemptID.
Definition CreateRevision (now : timestamp) (inp : RevisionInput) : WkTx uuid :=
  tx_require (negb (String.eqb (ri_WorkItemID inp) EmptyString) && negb (String.eqb (ri_ActorIdentityID inp) EmptyString)
              && negb (String.eqb (ri_FeedbackID inp) EmptyString)
              && negb (String.eqb (ri_ActionableGuidance inp) EmptyString))
    (WErrInvalidInput "item, actor, feedback, and actionable guidance are required");;
  '(key, version, currentAttempt) ← revision_target inp;
  resolved ← resolveForAttempt key version;
  createRevisionTx now inp resolved currentAttempt.
End commands.

(** * The customer's view: [work.current_work_items] *)
Inductive CustomerState := StateTodo | StateInProgress | StateBlocked | StateDone | StateFailed.
#[export] Instance CustomerState_eq : EqDecision CustomerState. Proof. solve_decision. Defined.
Definition open_blocker (d : WorkDB) (itemID : uuid) : option Blocker :=
  head (select (λ b, String.eqb (bl_WorkItemID b) itemID && bool_decide (bl_State b = BlockerOpen)) (blockers d)).
Definition customer_state (d : WorkDB) (itemID : uuid) : option CustomerState :=
  item ← work_items d !! itemID;
  attemptID ← wi_CurrentAttemptID item;
  run ← workflow_runs (wk_rt d) !! attemptID;
  Some (match run_State run with
        | RunFailed | RunAborted => StateFailed
        | st => if open_blocker d itemID then StateBlocked
                else match st with
                     | RunPending => StateTodo
                     | RunSucceeded => StateDone
                     | _ => StateInProgress
                     end
        end).
(** [v.amount]: the item's ledger sum. *)
Definition item_value (d : WorkDB) (itemID : uuid) : Z :=
  foldr Z.add 0 (le_Amount <$> filter (λ e, le_WorkItemID e = itemID) (value_ledger d)).
