(* ===== verification/WorkValue.v ===== *)
(** Value models (control-plane/internal/work/value.go): the validation of a model and its
    insertion. Money is kept in millionths, the scale of the numeric(20,6) columns. *)
From S2P Require Import Prelude Json Duration Runtime Workflow WorkData WorkGraph.
From Stdlib Require Import Ascii.

Record ValueModelInput := {
  vi_Ref : string; vi_Version : string; vi_Currency : string; vi_BaselineSeconds : Z;
  vi_LoadedHourlyCost : string; vi_Assumptions : RawMessage; vi_Explanation : RawMessage }.

Definition dec_digit (c : ascii) : option Z :=
  let n := Z.of_nat (nat_of_ascii c) in
  if (48 <=? n) && (n <=? 57) then Some (n - 48) else None.
(** The decimal digits of a whole string, most significant first: value and count. *)
Fixpoint dec_number (acc count : Z) (s : string) : option (Z * Z) :=
  match s with
  | EmptyString => Some (acc, count)
  | String c s' => d ← dec_digit c; dec_number (acc * 10 + d) (count + 1) s'
  end.
(** The text before and after the first dot. *)
Fixpoint split_dot (s : string) : string * option string :=
  match s with
  | EmptyString => (EmptyString, None)
  | String c s' =>
      if Ascii.eqb c "." then (EmptyString, Some s')
      else let '(a, b) := split_dot s' in (String c a, b)
  end.
(** [exactMoneyPattern], with the amount in millionths. *)
Definition exact_money (s : string) : option Z :=
  let '(whole, frac) := split_dot s in
  '(w, n) ← dec_number 0 0 whole;
  if n <? 1 then None
  else match frac with
       | None => Some (w * 1000000)
       | Some f => '(v, k) ← dec_number 0 0 f;
                   if (1 <=? k) && (k <=? 6) then Some (w * 1000000 + v * 10 ^ (6 - k)) else None
       end.
Definition upper (c : ascii) : bool :=
  let n := Z.of_nat (nat_of_ascii c) in (65 <=? n) && (n <=? 90).
(** [currencyPattern]. *)
Definition currency_ok (s : string) : bool :=
  match s with
  | String a (String b (String c EmptyString)) => upper a && upper b && upper c
  | _ => false
  end.

(** The accepted hourly cost. *)
Definition validateValueModelInput (inp : ValueModelInput) : WkTx Z :=
  tx_require (negb (String.eqb (vi_Ref inp) EmptyString) && negb (String.eqb (vi_Version inp) EmptyString) &&
              negb (String.eqb (vi_Currency inp) EmptyString) && (0 <? vi_BaselineSeconds inp) &&
              negb (String.eqb (vi_LoadedHourlyCost inp) EmptyString))
    (WErrInvalidInput "ref, version, currency, baselineSeconds, and loadedHourlyCost are required");;
  cost ← tx_opt (exact_money (vi_LoadedHourlyCost inp)) (WErrInvalidInput "loadedHourlyCost");
  tx_require (currency_ok (vi_Currency inp) && (0 <? cost)) (WErrInvalidInput "currency, loadedHourlyCost");;
  tx_require (negb (invalid_json (vi_Assumptions inp)) && negb (invalid_json (vi_Explanation inp)))
    (WErrInvalidInput "assumptions and explanation must be valid JSON");;
  mret cost.

Definition CreateValueModel (now : timestamp) (inp : ValueModelInput) : WkTx ValueModel :=
  cost ← validateValueModelInput inp;
  assumptions ← json_column (vi_Assumptions inp);
  explanation ← json_column (vi_Explanation inp);
  id ← new_uuid;
  d ← tx_get;
  tx_require (bool_decide (value_models d !! id = None)) (violation "value_models_pkey");;
  tx_require (negb (exists_row (λ v, String.eqb (vm_Ref v) (vi_Ref inp) && String.eqb (vm_Version v) (vi_Version inp))
                      (value_models d))) (WErrConflict "value model ref/version already exists");;
  tx_require (vi_BaselineSeconds inp <=? int8_max) (WErrDB ErrNumericOutOfRange);;
  tx_require (cost <? numeric_max) (WErrDB ErrNumericOutOfRange);;
  let v := {| vm_ID := id; vm_Ref := vi_Ref inp; vm_Version := vi_Version inp; vm_Formula := "labor_time_saved";
              vm_Currency := vi_Currency inp; vm_BaselineSeconds := vi_BaselineSeconds inp;
              vm_LoadedHourlyCost := cost; vm_Assumptions := assumptions; vm_Explanation := explanation;
              vm_CreatedAt := now |} in
  tx_modify (set_value_models (<[id := v]> (value_models d)));;
  mret v.
