(* ===== verification/WorkSteps.v ===== *)
(** The effect of each statement of the work domain on the database, as equations the
    proofs about whole commands rewrite with. *)
From S2P Require Import Prelude Json Duration Runtime Workflow WorkData WorkGraph WorkCommands.

Lemma lift_rt_inr {A} (m : RtTx A) d a d' :
  lift_rt m d = inr (a, d') ↔ ∃ r, m (wk_rt d) = inr (a, r) ∧ d' = set_rt r d.
Proof. unfold lift_rt. destruct (m (wk_rt d)) as [|[x r]]; naive_solver. Qed.

Lemma gen_random_uuid_inr (r : RuntimeDB) id r' :
  gen_random_uuid r = inr (id, r') ↔ id = uuids r (uuid_next r) ∧ r' = bump_uuid r.
Proof.
  unfold gen_random_uuid. rewrite tx_bind_inr. split.
  - intros (u & s & H1 & H2). inv_tx. done.
  - intros [-> ->]. by do 2 eexists.
Qed.
Lemma new_uuid_inr d id d' :
  new_uuid d = inr (id, d') ↔
  id = uuids (wk_rt d) (uuid_next (wk_rt d)) ∧ d' = set_rt (bump_uuid (wk_rt d)) d.
Proof.
  unfold new_uuid. rewrite lift_rt_inr. setoid_rewrite gen_random_uuid_inr. naive_solver.
Qed.

Definition timeline_row (now : timestamp) (d : WorkDB) (itemID attemptID nodeID code : string)
    (params : json) (refs : list ArtifactRef) (actorID : string) : TimelineEvent :=
  {| tl_Cursor := Z.of_nat (length (timeline_events d)) + 1; tl_WorkItemID := itemID;
     tl_AttemptID := nullable attemptID; tl_NodeExecutionID := nullable nodeID; tl_Code := code;
     tl_Params := params; tl_ArtifactRefs := refs; tl_ActorIdentityID := nullable actorID;
     tl_CreatedAt := now |}.
Lemma appendTimelineTx_inr now i a n c p refs actor d u d' :
  appendTimelineTx now i a n c p refs actor d = inr (u, d') →
  d' = set_timeline (timeline_events d ++ [timeline_row now d i a n c p refs actor]) d.
Proof. unfold appendTimelineTx. intros H. inv_tx. done. Qed.

(** [UPDATE ... WHERE id AND cond] on a table. *)
Definition upd {R} (id : uuid) (cond : R → bool) (f : R → R) (t : gmap uuid R) : gmap uuid R :=
  match t !! id with
  | Some r => if cond r then <[id := f r]> t else t
  | None => t
  end.
Lemma upd_lookup {R} id cond (f : R → R) t k :
  upd id cond f t !! k =
    match t !! k with
    | Some r => Some (if bool_decide (k = id) && cond r then f r else r)
    | None => None
    end.
Proof.
  unfold upd. destruct (decide (k = id)) as [->|Hne].
  - rewrite (bool_decide_eq_true_2 (id = id)) by done. simpl.
    destruct (t !! id) as [r|] eqn:Ht; [|done].
    destruct (cond r); [by rewrite lookup_insert_eq|done].
  - rewrite (bool_decide_eq_false_2 (k = id)) by done. simpl.
    destruct (t !! id) as [r|]; [destruct (cond r)|];
      rewrite ?lookup_insert_ne by done; by destruct (t !! k).
Qed.
Lemma upd_dom {R} id cond (f : R → R) t k : is_Some (upd id cond f t !! k) ↔ is_Some (t !! k).
Proof. rewrite upd_lookup. destruct (t !! k); simpl; rewrite !is_Some_alt; done. Qed.

Lemma update_run_eq id cond f d :
  update_run id cond f d =
    inr ((), set_rt (set_runs (upd id (λ r, cond (run_State r)) f (workflow_runs (wk_rt d))) (wk_rt d)) d).
Proof.
  unfold update_run, upd, mbind, tx_bind, tx_get, tx_modify, mret, tx_ret.
  destruct (workflow_runs (wk_rt d) !! id) as [r|]; [destruct (cond (run_State r))|];
    [done|by destruct d as [[]]|by destruct d as [[]]].
Qed.
Lemma update_node_inr id cond f d c d' :
  update_node id cond f d = inr (c, d') →
  d' = set_nodes (upd id cond f (node_executions d)) d ∧
  c = match node_executions d !! id with Some n => if cond n then 1 else 0 | None => 0 end.
Proof.
  unfold update_node, upd. intros H. apply tx_bind_inr in H as (d0 & d1 & Hg & H). inv_tx.
  destruct (node_executions d !! id) as [n|] eqn:Hn; [destruct (cond n)|]; inv_tx.
  - done.
  - split; [by destruct d|done].
  - split; [by destruct d|done].
Qed.
Lemma update_attempt_eq id f d :
  update_attempt id f d = inr ((), set_attempts (alter f id (attempts d)) d).
Proof. done. Qed.
Lemma settle_turn_row_eq now id to d :
  settle_turn_row now id to d =
    inr ((), set_rt (set_turns (alter (with_turn_state now to) id (turns (wk_rt d))) (wk_rt d)) d).
Proof. done. Qed.

Lemma insert_blocker_inr b d u d' :
  insert_blocker b d = inr (u, d') →
  d' = set_blockers (<[bl_ID b := b]> (blockers d)) d ∧ blockers d !! bl_ID b = None ∧
  (∀ k x, blockers d !! k = Some x → bl_WorkItemID x = bl_WorkItemID b → bl_State x = BlockerResolved).
Proof.
  unfold insert_blocker. intros H. inv_tx. split_and!; [done|by eapply bool_decide_eq_true_1|].
  intros k x Hk Hi.
  match goal with Hx : negb (exists_row _ _) = true |- _ => rename Hx into Hx1 end.
  apply negb_true_iff in Hx1. rewrite exists_row_false in Hx1. specialize (Hx1 k x Hk).
  rewrite Hi, String.eqb_refl in Hx1. simpl in Hx1. apply bool_decide_eq_false in Hx1.
  by destruct (bl_State x).
Qed.

(** The turn insertion seen from the work tables. *)
Lemma insertTurn_row now runID stepID nodeID session model started r t r' :
  insertTurn now runID stepID nodeID session model started r = inr (t, r') →
  t = {| turn_ID := turn_ID t; turn_RunID := runID; turn_StepID := stepID; turn_NodeExecutionID := nodeID;
         turn_SessionID := session; turn_Model := model; turn_State := TurnRunning;
         turn_StartedAt := started; turn_SettledAt := None; turn_CreatedAt := now; turn_UpdatedAt := now |} ∧
  turns r !! turn_ID t = None ∧ node_has_turn r nodeID = false ∧
  r' = set_turns (<[turn_ID t := t]> (turns r)) (bump_uuid r).
Proof.
  unfold insertTurn. intros H. apply tx_bind_inr in H as (id & r1 & Hid & H).
  apply gen_random_uuid_inr in Hid as [-> ->]. inv_tx. cbn [turns bump_uuid turn_ID] in *.
  split_and!; try done.
  - by eapply bool_decide_eq_true_1.
  - match goal with Hx : negb (node_has_turn _ _) = true |- _ => apply negb_true_iff in Hx; exact Hx end.
Qed.
Lemma insertEvent_row now runID turnID stepID nodeID kind payload r e r' :
  insertEvent now runID turnID stepID nodeID kind payload r = inr (e, r') →
  r' = set_events (events r ++ [e]) (bump_uuid r).
Proof.
  unfold insertEvent. intros H. apply tx_bind_inr in H as (s & r1 & Hs & H).
  apply tx_asks_inr in Hs as [<- <-].
  apply tx_bind_inr in H as (u & r2 & Hq & H). apply tx_require_inr in Hq as [_ <-].
  apply tx_bind_inr in H as (id & r3 & Hid & H). apply gen_random_uuid_inr in Hid as [-> ->]. inv_tx. done.
Qed.
