(* ===== verification/WorkInv.v ===== *)
(** The invariant of graph execution: at most one active node per attempt, an attempt
    is terminal exactly when it has none, and the node executions of an attempt are a
    path through its immutable graph, bounded by the transition limit. The lemmas at
    the end say which table updates keep it. *)
From S2P Require Import Prelude Json Duration Runtime Workflow WorkflowFacts WorkData WorkGraph.

Section inv.
Context (jc : string → bool).

(** The graph of an accepted spec. *)
Definition graph_valid (g : CanonicalGraph) : Prop := ∃ spec, cs_Graph spec = g ∧ graph_contract jc spec.
Definition edge_count (tr : list GraphTransition) (attemptID : uuid) : Z :=
  Z.of_nat (length (filter (λ t, gt_AttemptID t = attemptID ∧ gt_Terminal t = false) tr)).
Definition active (n : NodeExecution) : Prop := node_active (ne_State n) = true.
Definition has_active (ns : gmap uuid NodeExecution) (a : uuid) : Prop :=
  ∃ k n, ns !! k = Some n ∧ ne_AttemptID n = a ∧ active n.

(** The run state that goes with the state of the active visit. *)
Definition run_matches (st : NodeState) (rs : RunState) : Prop :=
  match st with
  | NodePending => rs = RunPending ∨ rs = RunRunning
  | NodeRunning => rs = RunRunning
  | NodeBlocked => rs = RunAwaitingApproval
  | _ => isTerminal rs = true
  end.
Lemma run_matches_live st rs : run_matches st rs → isTerminal rs = negb (node_active st).
Proof. destruct st; simpl; [intros [->| ->]|intros ->|intros ->| |]; done. Qed.

Definition turn_ok (ns : gmap uuid NodeExecution) (tn : Turn) : Prop :=
  ∀ k, turn_NodeExecutionID tn = Some k → ∃ n, ns !! k = Some n ∧ turn_RunID tn = ne_AttemptID n ∧
    (turn_State tn = TurnRunning → ne_State n = NodeRunning).
Definition blocker_ok (ats : gmap uuid Attempt) (ns : gmap uuid NodeExecution) (b : Blocker) : Prop :=
  ∃ k n a, bl_NodeExecutionID b = Some k ∧ ns !! k = Some n ∧ bl_AttemptID b = ne_AttemptID n ∧
    ats !! bl_AttemptID b = Some a ∧ at_WorkItemID a = bl_WorkItemID b ∧
    (bl_State b = BlockerOpen → ne_State n = NodeBlocked).
(** How a visit was reached: it is the entry, or an edge was followed from the
    preceding, completed visit. *)
Definition reached (ats : gmap uuid Attempt) (ns : gmap uuid NodeExecution) (n : NodeExecution) : Prop :=
  ∃ a, ats !! ne_AttemptID n = Some a ∧
    ((ne_ExecutionSeq n = 1 ∧ ne_NodeKey n = cg_EntryNode (at_GraphSnapshot a)) ∨
     ∃ k m o, ns !! k = Some m ∧ ne_AttemptID m = ne_AttemptID n ∧
       ne_ExecutionSeq m + 1 = ne_ExecutionSeq n ∧ ne_State m = NodeSucceeded ∧
       ne_CompletionOutcome m = Some o ∧
       route (at_GraphSnapshot a) (ne_NodeKey m) o = Some (Some (ne_NodeKey n))).

(** Turns and blockers agree with the visits they belong to: a running visit has its one
    running turn, a blocked visit its open blocker, and a work item one open blocker. *)
Record side (ats : gmap uuid Attempt) (ns : gmap uuid NodeExecution) (ts : gmap uuid Turn)
    (bs : gmap uuid Blocker) : Prop := {
  s_blocker_id : ∀ k b, bs !! k = Some b → bl_ID b = k;
  s_turn : ∀ k tn, ts !! k = Some tn → turn_ok ns tn;
  s_turn_unique : ∀ k1 k2 t1 t2 id, ts !! k1 = Some t1 → ts !! k2 = Some t2 →
    turn_NodeExecutionID t1 = Some id → turn_NodeExecutionID t2 = Some id → k1 = k2;
  s_blocker : ∀ k b, bs !! k = Some b → blocker_ok ats ns b;
  s_open_unique : ∀ k1 k2 b1 b2, bs !! k1 = Some b1 → bs !! k2 = Some b2 →
    bl_WorkItemID b1 = bl_WorkItemID b2 → bl_State b1 = BlockerOpen → bl_State b2 = BlockerOpen → k1 = k2;
  s_running : ∀ k n, ns !! k = Some n → ne_State n = NodeRunning →
    ∃ j t, ts !! j = Some t ∧ turn_State t = TurnRunning ∧ turn_NodeExecutionID t = Some k;
  s_blocked : ∀ k n, ns !! k = Some n → ne_State n = NodeBlocked →
    ∃ j b, bs !! j = Some b ∧ bl_State b = BlockerOpen ∧ bl_NodeExecutionID b = Some k }.

Record gwf (defs : gmap uuid Definition_) (runs : gmap uuid Run) (ts : gmap uuid Turn)
    (ats : gmap uuid Attempt) (ns : gmap uuid NodeExecution) (tr : list GraphTransition)
    (bs : gmap uuid Blocker) : Prop := {
  g_node_id : ∀ k n, ns !! k = Some n → ne_ID n = k;
  g_attempt : ∀ k a, ats !! k = Some a → at_ID a = k ∧ is_Some (runs !! k) ∧
    is_Some (defs !! at_DefinitionID a) ∧ graph_valid (at_GraphSnapshot a);
  g_node : ∀ k n, ns !! k = Some n → ∃ a def, ats !! ne_AttemptID n = Some a ∧
    findNode (at_GraphSnapshot a) (ne_NodeKey n) = Some def ∧ cn_Kind def = ne_Kind n;
  g_one_active : ∀ k1 k2 n1 n2, ns !! k1 = Some n1 → ns !! k2 = Some n2 →
    ne_AttemptID n1 = ne_AttemptID n2 → active n1 → active n2 → k1 = k2;
  g_terminal : ∀ k a r, ats !! k = Some a → runs !! k = Some r →
    (isTerminal (run_State r) = false ↔ has_active ns k);
  g_pos : ∀ k n, ns !! k = Some n → 1 ≤ ne_Visit n ≤ ne_ExecutionSeq n;
  g_seq_unique : ∀ k1 k2 n1 n2, ns !! k1 = Some n1 → ns !! k2 = Some n2 →
    ne_AttemptID n1 = ne_AttemptID n2 → ne_ExecutionSeq n1 = ne_ExecutionSeq n2 → k1 = k2;
  g_visit_unique : ∀ k1 k2 n1 n2, ns !! k1 = Some n1 → ns !! k2 = Some n2 →
    ne_AttemptID n1 = ne_AttemptID n2 → ne_NodeKey n1 = ne_NodeKey n2 →
    ne_Visit n1 = ne_Visit n2 → k1 = k2;
  g_active_last : ∀ k1 k2 n1 n2, ns !! k1 = Some n1 → ns !! k2 = Some n2 →
    ne_AttemptID n1 = ne_AttemptID n2 → active n1 → ne_ExecutionSeq n2 ≤ ne_ExecutionSeq n1;
  g_path : ∀ k n, ns !! k = Some n → reached ats ns n;
  g_tr : ∀ t, t ∈ tr → is_Some (ats !! gt_AttemptID t) ∧
    ∃ n, ns !! gt_FromExecutionID t = Some n ∧ ne_State n = NodeSucceeded;
  g_bound : ∀ k a, ats !! k = Some a → edge_count tr k ≤ cg_MaxTransitions (at_GraphSnapshot a);
  g_seq_bound : ∀ k n, ns !! k = Some n → ne_ExecutionSeq n ≤ 1 + edge_count tr (ne_AttemptID n);
  g_side : side ats ns ts bs;
  g_def_id : ∀ k x, defs !! k = Some x → df_ID x = k;
  g_live : ∀ k n r, ns !! k = Some n → active n → runs !! ne_AttemptID n = Some r →
    run_matches (ne_State n) (run_State r) }.

(** What a statement may not change of a node execution. *)
Definition same_visit (n n' : NodeExecution) : Prop :=
  ne_ID n' = ne_ID n ∧ ne_AttemptID n' = ne_AttemptID n ∧ ne_NodeKey n' = ne_NodeKey n ∧
  ne_Kind n' = ne_Kind n ∧ ne_Visit n' = ne_Visit n ∧ ne_ExecutionSeq n' = ne_ExecutionSeq n.

(** ** A visit that is over is the predecessor of at most what it was *)
Lemma reached_update ats ns n0 k n n' :
  reached ats ns n0 → ns !! k = Some n → active n → same_visit n n' → reached ats (<[k := n']> ns) n0.
Proof.
  intros (a & Ha & Hr) Hk Hact Hs. exists a. split; [done|]. destruct Hr as [?|Hr]; [by left|right].
  destruct Hr as (k' & m & o & Hm & ? & ? & Hst & ?). exists k', m, o.
  rewrite lookup_insert_ne; [done|]. intros <-. unfold active in Hact.
  assert (m = n) as -> by congruence. rewrite Hst in Hact. done.
Qed.
Lemma reached_same ats ns n n' : same_visit n n' → reached ats ns n → reached ats ns n'.
Proof.
  intros (_ & Hat & Hk & _ & _ & Hseq). unfold reached. by rewrite Hat, Hk, Hseq.
Qed.

(** Changing the state of the active visit [n] of an attempt, with the attempt's run,
    its turns and its blockers. *)
Lemma gwf_update defs runs ts ats ns tr bs k n n' runs' ts' bs' :
  gwf defs runs ts ats ns tr bs → ns !! k = Some n → active n → same_visit n n' →
  (∀ j, j ≠ ne_AttemptID n → runs' !! j = runs !! j) →
  (∃ r', runs' !! ne_AttemptID n = Some r' ∧ run_matches (ne_State n') (run_State r')) →
  side ats (<[k := n']> ns) ts' bs' →
  gwf defs runs' ts' ats (<[k := n']> ns) tr bs'.
Proof.
  intros W Hk Hact Hs Hruns (r' & Hr' & Hmatch) Hside. pose proof (run_matches_live _ _ Hmatch) as Hterm.
  pose proof Hs as (Hid & Hat & Hkey & Hkind & Hvis & Hseq).
  assert (∀ j m, <[k := n']> ns !! j = Some m → ∃ m0, ns !! j = Some m0 ∧ same_visit m0 m ∧
    ((j = k ∧ m = n') ∨ (j ≠ k ∧ m = m0))) as Hold.
  { intros j m [[<- <-]|[Hne Hj]]%lookup_insert_Some; [by exists n; auto|].
    exists m. repeat split; auto. }
  constructor.
  - intros j m Hj. destruct (Hold j m Hj) as (m0 & Hm0 & (Hi & _) & _). rewrite Hi. by eapply g_node_id.
  - intros j a Ha. destruct (g_attempt _ _ _ _ _ _ _ W j a Ha) as (? & Hr & ? & ?).
    split_and!; try done. destruct (decide (j = ne_AttemptID n)) as [->|Hne]; [eauto|].
    by rewrite Hruns.
  - intros j m Hj. destruct (Hold j m Hj) as (m0 & Hm0 & (_ & H1 & H2 & H3 & _) & _).
    rewrite H1, H2, H3. by eapply g_node.
  - intros k1 k2 n1 n2 H1 H2 Ha A1 A2.
    destruct (Hold _ _ H1) as (m1 & Hm1 & (_ & E1 & _) & C1), (Hold _ _ H2) as (m2 & Hm2 & (_ & E2 & _) & C2).
    rewrite E1, E2 in Ha.
    assert (active m1) by (destruct C1 as [[-> ->]|[_ ->]]; congruence).
    assert (active m2) by (destruct C2 as [[-> ->]|[_ ->]]; congruence).
    by eapply (g_one_active _ _ _ _ _ _ _ W).
  - intros j a r Ha Hr. destruct (decide (j = ne_AttemptID n)) as [->|Hne].
    + assert (r = r') as -> by congruence. rewrite Hterm, negb_false_iff. split.
      * intros Hn'. exists k, n'. rewrite lookup_insert_eq. done.
      * intros (j & m & Hj & Hm & Hma). destruct (Hold j m Hj) as (m0 & Hm0 & _ & [[-> ->]|[Hnek ->]]); [done|].
        destruct Hnek. by eapply (g_one_active _ _ _ _ _ _ _ W).
    + rewrite Hruns in Hr by done. rewrite (g_terminal _ _ _ _ _ _ _ W j a r Ha Hr). split.
      * intros (i & m & Hi & Hm & Hma). exists i, m. rewrite lookup_insert_ne; [done|]. intros <-. congruence.
      * intros (i & m & Hi & Hm & Hma). destruct (Hold i m Hi) as (m0 & Hm0 & (_ & E & _) & [[-> ->]|[Hnek ->]]);
          [congruence|]. by exists i, m0.
  - intros j m Hj. destruct (Hold j m Hj) as (m0 & Hm0 & (_ & _ & _ & _ & H1 & H2) & _).
    rewrite H1, H2. by eapply g_pos.
  - intros k1 k2 n1 n2 H1 H2.
    destruct (Hold _ _ H1) as (m1 & Hm1 & (_ & E1 & _ & _ & _ & S1) & _), (Hold _ _ H2) as (m2 & Hm2 & (_ & E2 & _ & _ & _ & S2) & _).
    rewrite E1, E2, S1, S2. by apply (g_seq_unique _ _ _ _ _ _ _ W).
  - intros k1 k2 n1 n2 H1 H2.
    destruct (Hold _ _ H1) as (m1 & Hm1 & (_ & E1 & K1 & _ & V1 & _) & _), (Hold _ _ H2) as (m2 & Hm2 & (_ & E2 & K2 & _ & V2 & _) & _).
    rewrite E1, E2, K1, K2, V1, V2. by apply (g_visit_unique _ _ _ _ _ _ _ W).
  - intros k1 k2 n1 n2 H1 H2 Ha A1.
    destruct (Hold _ _ H1) as (m1 & Hm1 & (_ & E1 & _ & _ & _ & S1) & C1), (Hold _ _ H2) as (m2 & Hm2 & (_ & E2 & _ & _ & _ & S2) & _).
    rewrite S1, S2. rewrite E1, E2 in Ha. eapply (g_active_last _ _ _ _ _ _ _ W); [done|done|done|].
    destruct C1 as [[-> ->]|[_ ->]]; congruence.
  - intros j m Hj. destruct (Hold j m Hj) as (m0 & Hm0 & Hsm & _).
    eapply reached_same; [exact Hsm|]. eapply reached_update; [by eapply g_path|done|done|done].
  - intros t Ht. destruct (g_tr _ _ _ _ _ _ _ W t Ht) as (? & m & Hm & Hst). split; [done|].
    exists m. rewrite lookup_insert_ne; [done|]. intros ->. unfold active in Hact.
    assert (m = n) as -> by congruence. by rewrite Hst in Hact.
  - apply (g_bound _ _ _ _ _ _ _ W).
  - intros j m Hj. destruct (Hold j m Hj) as (m0 & Hm0 & (_ & E & _ & _ & _ & S) & _).
    rewrite E, S. by eapply (g_seq_bound _ _ _ _ _ _ _ W).
  - done.
  - apply W.
  - intros j m r Hj Hma. destruct (Hold j m Hj) as (m0 & Hm0 & _ & [[-> ->]|[Hne ->]]).
    + rewrite Hat. congruence.
    + destruct (decide (ne_AttemptID m0 = ne_AttemptID n)) as [Heq|Hne'].
      * destruct Hne. by eapply (g_one_active _ _ _ _ _ _ _ W).
      * rewrite Hruns by done. by eapply (g_live _ _ _ _ _ _ _ W).
Qed.

(** Finishing an attempt keeps what the graph depends on. *)
Definition same_attempt (a a' : Attempt) : Prop :=
  at_ID a' = at_ID a ∧ at_WorkItemID a' = at_WorkItemID a ∧ at_DefinitionID a' = at_DefinitionID a ∧
  at_GraphSnapshot a' = at_GraphSnapshot a.
Lemma alter_back {R} (f : R → R) (P : R → R → Prop) (t : gmap uuid R) id k r' :
  (∀ r, P r r) → (∀ r, P r (f r)) → alter f id t !! k = Some r' → ∃ r, t !! k = Some r ∧ P r r'.
Proof.
  intros Hr Hf. destruct (decide (id = k)) as [->|Hne].
  - rewrite lookup_alter_eq. intros (r & -> & ->)%fmap_Some. eauto.
  - rewrite lookup_alter_ne by done. eauto.
Qed.
Lemma alter_forth {R} (f : R → R) (P : R → R → Prop) (t : gmap uuid R) id k r :
  (∀ r, P r r) → (∀ r, P r (f r)) → t !! k = Some r → ∃ r', alter f id t !! k = Some r' ∧ P r r'.
Proof.
  intros Hr Hf Hk. destruct (decide (id = k)) as [->|Hne].
  - rewrite lookup_alter_eq, Hk. simpl. eauto.
  - rewrite lookup_alter_ne by done. eauto.
Qed.
Lemma side_attempt f id ats ns ts bs :
  (∀ a, same_attempt a (f a)) → side ats ns ts bs → side (alter f id ats) ns ts bs.
Proof.
  intros Hf [? ? ? Hb ? ? ?]. constructor; try done. intros k b Hk.
  destruct (Hb k b Hk) as (j & n & a & ? & ? & ? & Ha & Hi & ?).
  destruct (alter_forth f same_attempt ats id _ a ltac:(done) Hf Ha) as (a' & Ha' & _ & Hi' & _).
  exists j, n, a'. rewrite Hi'. done.
Qed.
Lemma reached_attempt f id ats ns n :
  (∀ a, same_attempt a (f a)) → reached ats ns n → reached (alter f id ats) ns n.
Proof.
  intros Hf (a & Ha & Hr).
  destruct (alter_forth f same_attempt ats id _ a ltac:(done) Hf Ha) as (a' & Ha' & _ & _ & _ & Hg).
  exists a'. rewrite Hg. done.
Qed.
Lemma gwf_finish_attempt f id defs runs ts ats ns tr bs :
  (∀ a, same_attempt a (f a)) → gwf defs runs ts ats ns tr bs → gwf defs runs ts (alter f id ats) ns tr bs.
Proof.
  intros Hf W. pose proof (λ k a, alter_back f same_attempt ats id k a ltac:(done) Hf) as Hback.
  constructor; try apply W.
  - intros k a' (a & Ha & Hi & _ & Hd & Hg)%Hback. rewrite Hi, Hd, Hg. by apply W.
  - intros k n Hn. destruct (g_node _ _ _ _ _ _ _ W k n Hn) as (a & def & Ha & Hdef & Hk).
    destruct (alter_forth f same_attempt ats id _ a ltac:(done) Hf Ha) as (a' & Ha' & _ & _ & _ & Hg).
    exists a', def. by rewrite Hg.
  - intros k a' r (a & Ha & _)%Hback Hr. by eapply (g_terminal _ _ _ _ _ _ _ W).
  - intros k n Hn. apply reached_attempt; [done|]. by eapply (g_path _ _ _ _ _ _ _ W).
  - intros t Ht. destruct (g_tr _ _ _ _ _ _ _ W t Ht) as ([a Ha] & ?). split; [|done].
    destruct (alter_forth f same_attempt ats id _ a ltac:(done) Hf Ha) as (a' & Ha' & _). eauto.
  - intros k a' (a & Ha & _ & _ & _ & Hg)%Hback. rewrite Hg. by eapply (g_bound _ _ _ _ _ _ _ W).
  - apply side_attempt; [done|]. apply W.
Qed.

(** The terminal transition of a completed visit. *)
Lemma edge_count_app tr t a :
  edge_count (tr ++ [t]) a = edge_count tr a + (if decide (gt_AttemptID t = a ∧ gt_Terminal t = false) then 1 else 0).
Proof.
  unfold edge_count. rewrite filter_app, length_app, filter_cons, filter_nil. case_decide; simpl; lia.
Qed.
Lemma gwf_terminal_transition t n defs runs ts ats ns tr bs :
  gwf defs runs ts ats ns tr bs → gt_Terminal t = true → is_Some (ats !! gt_AttemptID t) →
  ns !! gt_FromExecutionID t = Some n → ne_State n = NodeSucceeded → gwf defs runs ts ats ns (tr ++ [t]) bs.
Proof.
  intros W Ht Ha Hn Hst.
  assert (∀ a, edge_count (tr ++ [t]) a = edge_count tr a) as Hc.
  { intros a. rewrite edge_count_app, decide_False by (intros [_ ?]; congruence). lia. }
  constructor; try apply W.
  - intros u [Hu|Hu%list_elem_of_singleton]%elem_of_app; [by apply (g_tr _ _ _ _ _ _ _ W)|subst u; eauto].
  - intros k a Hk. rewrite Hc. by apply (g_bound _ _ _ _ _ _ _ W).
  - intros k m Hm. rewrite Hc. by apply (g_seq_bound _ _ _ _ _ _ _ W k).
Qed.

(** Following an edge: the next visit and the transition to it, after the active visit
    was completed. *)
Lemma gwf_edge defs runs ts ats ns tr bs k n n' o k2 m t a def runs' ts' bs' :
  gwf defs runs ts ats ns tr bs → ns !! k = Some n → active n → same_visit n n' →
  ne_State n' = NodeSucceeded → ne_CompletionOutcome n' = Some o →
  ats !! ne_AttemptID n = Some a →
  route (at_GraphSnapshot a) (ne_NodeKey n) o = Some (Some (ne_NodeKey m)) →
  findNode (at_GraphSnapshot a) (ne_NodeKey m) = Some def → cn_Kind def = ne_Kind m →
  <[k := n']> ns !! k2 = None → ne_ID m = k2 → ne_AttemptID m = ne_AttemptID n → active m →
  ne_ExecutionSeq m = ne_ExecutionSeq n + 1 → 1 ≤ ne_Visit m ≤ ne_ExecutionSeq m →
  (∀ j x, ns !! j = Some x → ne_AttemptID x = ne_AttemptID n → ne_NodeKey x = ne_NodeKey m → ne_Visit x ≠ ne_Visit m) →
  gt_AttemptID t = ne_AttemptID n → gt_FromExecutionID t = k → gt_Terminal t = false →
  edge_count tr (ne_AttemptID n) < cg_MaxTransitions (at_GraphSnapshot a) →
  (∀ j, j ≠ ne_AttemptID n → runs' !! j = runs !! j) →
  (∃ r', runs' !! ne_AttemptID n = Some r' ∧ run_matches (ne_State m) (run_State r')) →
  side ats (<[k2 := m]> (<[k := n']> ns)) ts' bs' →
  gwf defs runs' ts' ats (<[k2 := m]> (<[k := n']> ns)) (tr ++ [t]) bs'.
Proof.
  intros W Hk Hact Hs Hn'st Ho Ha Hroute Hdef Hkind Hfresh Hmid Hmat Hmact Hmseq Hmv Hmvis
    Htat Htfrom Htt Hlt Hruns (r' & Hr' & Hmatch) Hside.
  assert (isTerminal (run_State r') = false) as Hterm by (rewrite (run_matches_live _ _ Hmatch); by rewrite Hmact).
  pose proof Hs as (Hid & Hat & Hkey & Hkd & Hvis & Hseq).
  apply lookup_insert_None in Hfresh as [Hfresh Hkk2].
  assert (¬ active n') as Hn'act by (unfold active; by rewrite Hn'st).
  assert (∀ j x, <[k2 := m]> (<[k := n']> ns) !! j = Some x →
    (j = k2 ∧ x = m) ∨ ∃ x0, ns !! j = Some x0 ∧ same_visit x0 x ∧ ((j = k ∧ x = n') ∨ (j ≠ k ∧ x = x0))) as Hold.
  { intros j x [[<- <-]|[Hne [[<- <-]|[Hne2 Hj]]%lookup_insert_Some]]%lookup_insert_Some;
      [by left|right; exists n; split_and!; auto|]. right. exists x. split_and!; [done|done|auto]. }
  assert (∀ j x, ns !! j = Some x → ∃ x', <[k2 := m]> (<[k := n']> ns) !! j = Some x' ∧ (j ≠ k → x' = x)) as Hnew.
  { intros j x Hj. assert (j ≠ k2) by congruence. rewrite lookup_insert_ne by done.
    destruct (decide (j = k)) as [->|]; [exists n'; by rewrite lookup_insert_eq|].
    exists x. by rewrite lookup_insert_ne by done. }
  assert (∀ j x, ns !! j = Some x → ne_AttemptID x = ne_AttemptID n → ne_ExecutionSeq x ≤ ne_ExecutionSeq n) as Hmax.
  { intros j x Hj Hx. by eapply (g_active_last _ _ _ _ _ _ _ W k j). }
  constructor.
  - intros j x Hj. destruct (Hold j x Hj) as [[-> ->]|(x0 & Hx0 & (Hi & _) & _)]; [done|].
    rewrite Hi. by eapply (g_node_id _ _ _ _ _ _ _ W).
  - intros j b Hb. destruct (g_attempt _ _ _ _ _ _ _ W j b Hb) as (? & ? & ? & ?).
    split_and!; try done. destruct (decide (j = ne_AttemptID n)) as [->|Hne]; [eauto|by rewrite Hruns].
  - intros j x Hj. destruct (Hold j x Hj) as [[-> ->]|(x0 & Hx0 & (_ & H1 & H2 & H3 & _) & _)].
    + exists a, def. by rewrite Hmat.
    + rewrite H1, H2, H3. by eapply (g_node _ _ _ _ _ _ _ W).
  - intros k1 j2 n1 n2 H1 H2 Hatt A1 A2.
    assert (∀ j x, <[k2 := m]> (<[k := n']> ns) !! j = Some x → active x →
      ne_AttemptID x = ne_AttemptID n → j = k2) as Honly.
    { intros j x Hj Hx Hxa. destruct (Hold j x Hj) as [[-> ->]|(x0 & Hx0 & _ & [[-> ->]|[Hne ->]])]; [done..|].
      destruct Hne. by eapply (g_one_active _ _ _ _ _ _ _ W). }
    destruct (Hold _ _ H1) as [[-> ->]|(m1 & Hm1 & (_ & E1 & _) & C1)].
    { symmetry. eapply Honly; [done|done|congruence]. }
    destruct (Hold _ _ H2) as [[-> ->]|(m2 & Hm2 & (_ & E2 & _) & C2)].
    { eapply Honly; [done|done|congruence]. }
    destruct C1 as [[-> ->]|[_ ->]]; [done|]. destruct C2 as [[-> ->]|[_ ->]]; [done|].
    by eapply (g_one_active _ _ _ _ _ _ _ W).
  - intros j b r Hb Hr. destruct (decide (j = ne_AttemptID n)) as [->|Hne].
    + assert (r = r') as -> by congruence. rewrite Hterm. split; [|done]. intros _. exists k2, m.
      by rewrite lookup_insert_eq.
    + rewrite Hruns in Hr by done. rewrite (g_terminal _ _ _ _ _ _ _ W j b r Hb Hr). split.
      * intros (i & x & Hi & Hx & Hxa). destruct (Hnew i x Hi) as (x' & Hx' & Heq).
        assert (x' = x) as -> by (apply Heq; intros ->; congruence). by exists i, x.
      * intros (i & x & Hi & Hx & Hxa). destruct (Hold i x Hi) as [[-> ->]|(x0 & Hx0 & _ & [[-> ->]|[Hn ->]])];
          [congruence|done|]. by exists i, x0.
  - intros j x Hj. destruct (Hold j x Hj) as [[-> ->]|(x0 & Hx0 & (_ & _ & _ & _ & V & S) & _)]; [done|].
    rewrite V, S. by eapply (g_pos _ _ _ _ _ _ _ W).
  - intros k1 j2 n1 n2 H1 H2 Hatt.
    destruct (Hold _ _ H1) as [[-> ->]|(m1 & Hm1 & (_ & E1 & _ & _ & _ & S1) & _)],
      (Hold _ _ H2) as [[-> ->]|(m2 & Hm2 & (_ & E2 & _ & _ & _ & S2) & _)]; [done|..].
    + assert (ne_ExecutionSeq m2 ≤ ne_ExecutionSeq n) by (eapply Hmax; [done|congruence]). lia.
    + assert (ne_ExecutionSeq m1 ≤ ne_ExecutionSeq n) by (eapply Hmax; [done|congruence]). lia.
    + rewrite S1, S2. eapply (g_seq_unique _ _ _ _ _ _ _ W); [done|done|congruence].
  - intros k1 j2 n1 n2 H1 H2 Hatt.
    destruct (Hold _ _ H1) as [[-> ->]|(m1 & Hm1 & (_ & E1 & K1 & _ & V1 & _) & _)],
      (Hold _ _ H2) as [[-> ->]|(m2 & Hm2 & (_ & E2 & K2 & _ & V2 & _) & _)]; [done|..]; intros HK HV.
    + edestruct (Hmvis _ _ Hm2); congruence.
    + edestruct (Hmvis _ _ Hm1); congruence.
    + eapply (g_visit_unique _ _ _ _ _ _ _ W); [done|done|congruence..].
  - intros k1 j2 n1 n2 H1 H2 Hatt A1.
    destruct (Hold _ _ H1) as [[-> ->]|(m1 & Hm1 & (_ & E1 & _ & _ & _ & S1) & C1)],
      (Hold _ _ H2) as [[-> ->]|(m2 & Hm2 & (_ & E2 & _ & _ & _ & S2) & _)]; [done|..].
    + assert (ne_ExecutionSeq m2 ≤ ne_ExecutionSeq n) by (eapply Hmax; [done|congruence]). lia.
    + destruct C1 as [[-> ->]|[Hne ->]]; [done|]. destruct Hne.
      eapply (g_one_active _ _ _ _ _ _ _ W); [done|done|congruence|done..].
    + destruct C1 as [[-> ->]|[Hne ->]]; [done|]. rewrite S2.
      eapply (g_active_last _ _ _ _ _ _ _ W); [done|done|congruence|done].
  - intros j x Hj. destruct (Hold j x Hj) as [[-> ->]|(x0 & Hx0 & Hsm & _)].
    + exists a. rewrite Hmat. split; [done|]. right. exists k, n', o.
      rewrite lookup_insert_ne, lookup_insert_eq, Hat, Hseq, Hkey by done. rewrite Hmseq. done.
    + eapply reached_same; [exact Hsm|]. destruct (g_path _ _ _ _ _ _ _ W j x0 Hx0) as (b & Hb & Hr).
      exists b. split; [done|]. destruct Hr as [?|(i & y & oo & Hy & ? & ? & Hyst & ?)]; [by left|right].
      destruct (Hnew i y Hy) as (y' & Hy' & Heq). exists i, y, oo.
      assert (y' = y) as ->; [|done]. apply Heq. intros ->. unfold active in Hact.
      assert (y = n) as -> by congruence. by rewrite Hyst in Hact.
  - intros u [Hu|Hu%list_elem_of_singleton]%elem_of_app; [|subst u].
    + destruct (g_tr _ _ _ _ _ _ _ W u Hu) as (? & y & Hy & Hyst). split; [done|].
      destruct (Hnew _ y Hy) as (y' & Hy' & Heq). exists y. assert (y' = y) as ->; [|done]. apply Heq.
      intros Hfk. rewrite Hfk in Hy. unfold active in Hact. assert (y = n) as -> by congruence. by rewrite Hyst in Hact.
    + rewrite Htat, Htfrom. split; [eauto|]. exists n'. by rewrite lookup_insert_ne, lookup_insert_eq by done.
  - intros j b Hb. rewrite edge_count_app. pose proof (g_bound _ _ _ _ _ _ _ W j b Hb).
    case_decide as Hd; [|lia]. destruct Hd as [Hd _]. rewrite Htat in Hd. subst j.
    assert (b = a) as -> by congruence. lia.
  - intros j x Hj. rewrite edge_count_app. destruct (Hold j x Hj) as [[-> ->]|(x0 & Hx0 & (_ & E & _ & _ & _ & S) & _)].
    + rewrite decide_True by (split; congruence). rewrite Hmat, Hmseq.
      pose proof (g_seq_bound _ _ _ _ _ _ _ W k n Hk). lia.
    + rewrite E, S. pose proof (g_seq_bound _ _ _ _ _ _ _ W j x0 Hx0). case_decide; lia.
  - done.
  - apply W.
  - intros j x r Hj Hxa. destruct (Hold j x Hj) as [[-> ->]|(x0 & Hx0 & _ & [[-> ->]|[Hne ->]])]; [|done|].
    + rewrite Hmat. congruence.
    + destruct (decide (ne_AttemptID x0 = ne_AttemptID n)) as [Heq|Hne'].
      * destruct Hne. by eapply (g_one_active _ _ _ _ _ _ _ W).
      * rewrite Hruns by done. by eapply (g_live _ _ _ _ _ _ _ W).
Qed.

(** A new attempt: its run and the visit of the entry node. *)
Lemma gwf_new_attempt defs runs ts ats ns tr bs id a r k m def :
  gwf defs runs ts ats ns tr bs → ats !! id = None → ns !! k = None →
  at_ID a = id → is_Some (defs !! at_DefinitionID a) → graph_valid (at_GraphSnapshot a) →
  run_State r = RunPending →
  ne_ID m = k → ne_AttemptID m = id → ne_NodeKey m = cg_EntryNode (at_GraphSnapshot a) → ne_State m = NodePending →
  ne_Visit m = 1 → ne_ExecutionSeq m = 1 →
  findNode (at_GraphSnapshot a) (ne_NodeKey m) = Some def → cn_Kind def = ne_Kind m →
  gwf defs (<[id := r]> runs) ts (<[id := a]> ats) (<[k := m]> ns) tr bs.
Proof.
  intros W Hid Hk Haid Hdefs Hval Hr Hmid Hmat Hkey Hpend Hvis Hseq Hdef Hkind.
  assert (active m) as Hact by (unfold active; by rewrite Hpend).
  assert (∀ j x, ats !! j = Some x → <[id := a]> ats !! j = Some x) as Hats.
  { intros j x Hj. rewrite lookup_insert_ne; [done|]. congruence. }
  assert (∀ j x, ns !! j = Some x → <[k := m]> ns !! j = Some x) as Hns.
  { intros j x Hj. rewrite lookup_insert_ne; [done|]. congruence. }
  assert (∀ j x, ns !! j = Some x → ne_AttemptID x ≠ id) as Hnone.
  { intros j x Hj Heq. destruct (g_node _ _ _ _ _ _ _ W j x Hj) as (? & ? & ? & _). congruence. }
  assert (edge_count tr id = 0) as Hcount.
  { unfold edge_count. replace (filter _ tr) with (@nil GraphTransition); [done|]. symmetry.
    apply elem_of_nil_inv. intros t [[Ht _] Hin]%list_elem_of_filter.
    destruct (g_tr _ _ _ _ _ _ _ W t Hin) as ([? ?] & _). congruence. }
  assert (∀ j x, <[k := m]> ns !! j = Some x → (j = k ∧ x = m) ∨ (ns !! j = Some x ∧ ne_AttemptID x ≠ id)) as Hold.
  { intros j x [[<- <-]|[_ Hj]]%lookup_insert_Some; [by left|right]. eauto. }
  constructor.
  - intros j x [[-> ->]|[Hj _]]%Hold; [done|]. by eapply (g_node_id _ _ _ _ _ _ _ W).
  - intros j b [[<- <-]|[Hne Hb]]%lookup_insert_Some.
    + rewrite lookup_insert_eq. eauto.
    + rewrite lookup_insert_ne by done. by apply (g_attempt _ _ _ _ _ _ _ W).
  - intros j x [[-> ->]|[Hj _]]%Hold.
    + exists a, def. by rewrite Hmat, lookup_insert_eq.
    + destruct (g_node _ _ _ _ _ _ _ W j x Hj) as (b & df & Hb & ?). exists b, df. split; [auto|done].
  - intros k1 k2 n1 n2 [[-> ->]|[H1 N1]]%Hold [[-> ->]|[H2 N2]]%Hold; [done|congruence..|].
    by apply (g_one_active _ _ _ _ _ _ _ W).
  - intros j b r' [[<- <-]|[Hne Hb]]%lookup_insert_Some.
    + rewrite lookup_insert_eq. intros [= <-]. rewrite Hr. split; [|done]. intros _. exists k, m.
      by rewrite lookup_insert_eq.
    + rewrite lookup_insert_ne by done. intros Hr'. rewrite (g_terminal _ _ _ _ _ _ _ W j b r' Hb Hr').
      split; intros (i & x & Hi & Hx & Hxa); exists i, x; [auto|].
      destruct (Hold i x Hi) as [[-> ->]|[? _]]; [congruence|done].
  - intros j x [[-> ->]|[Hj _]]%Hold; [lia|]. by eapply (g_pos _ _ _ _ _ _ _ W).
  - intros k1 k2 n1 n2 [[-> ->]|[H1 N1]]%Hold [[-> ->]|[H2 N2]]%Hold; [done|congruence..|].
    by apply (g_seq_unique _ _ _ _ _ _ _ W).
  - intros k1 k2 n1 n2 [[-> ->]|[H1 N1]]%Hold [[-> ->]|[H2 N2]]%Hold; [done|congruence..|].
    by apply (g_visit_unique _ _ _ _ _ _ _ W).
  - intros k1 k2 n1 n2 [[-> ->]|[H1 N1]]%Hold [[-> ->]|[H2 N2]]%Hold; [done|congruence..|].
    by eapply (g_active_last _ _ _ _ _ _ _ W).
  - intros j x [[-> ->]|[Hj _]]%Hold.
    + exists a. rewrite Hmat, lookup_insert_eq. auto.
    + destruct (g_path _ _ _ _ _ _ _ W j x Hj) as (b & Hb & Hr0). exists b. split; [auto|].
      destruct Hr0 as [?|(i & y & o & Hy & ?)]; [by left|right]. exists i, y, o. split; [auto|done].
  - intros t Ht. destruct (g_tr _ _ _ _ _ _ _ W t Ht) as ([b Hb] & n & Hn & ?). split; [eauto|].
    exists n. split; [auto|done].
  - intros j b [[<- <-]|[Hne Hb]]%lookup_insert_Some; [|by apply (g_bound _ _ _ _ _ _ _ W)].
    destruct Hval as (spec & <- & Hc). destruct (gc_limit _ _ Hc). lia.
  - intros j x [[-> ->]|[Hj _]]%Hold; [|by eapply (g_seq_bound _ _ _ _ _ _ _ W)].
    rewrite Hmat, Hcount, Hseq. lia.
  - destruct (g_side _ _ _ _ _ _ _ W) as [S1 S2 S3 S4 S5 S6 S7]. constructor; try done.
    + intros j tn Hj x Hx. destruct (S2 j tn Hj x Hx) as (n & Hn & ?). exists n. split; [auto|done].
    + intros j b Hj. destruct (S4 j b Hj) as (x & n & b0 & ? & Hn & ? & Hb & ?).
      exists x, n, b0. split_and!; auto; naive_solver.
    + intros j x [[-> ->]|[Hj _]]%Hold; [congruence|by eapply S6].
    + intros j x [[-> ->]|[Hj _]]%Hold; [congruence|by eapply S7].
  - apply W.
  - intros j x r' [[-> ->]|[Hj Hne]]%Hold Hxa.
    + rewrite Hmat, lookup_insert_eq, Hpend. intros [= <-]. by left.
    + rewrite lookup_insert_ne by done. by eapply (g_live _ _ _ _ _ _ _ W).
Qed.
End inv.
