(* ===== verification/WorkMachine.v ===== *)
(** The abstract machine of graph execution: what one command may do to the seven
    tables that hold the durable state of graph attempts. The invariant of [WorkInv] is
    kept by every step, and no step rewrites history. *)
From S2P Require Import Prelude Json Duration Runtime Workflow WorkflowFacts WorkData WorkGraph WorkInv.

Record tables := mkTables {
  tb_defs : gmap uuid Definition_; tb_runs : gmap uuid Run; tb_turns : gmap uuid Turn;
  tb_attempts : gmap uuid Attempt; tb_nodes : gmap uuid NodeExecution;
  tb_trans : list GraphTransition; tb_blockers : gmap uuid Blocker }.
Definition tables_of (d : WorkDB) : tables :=
  mkTables (definitions d) (workflow_runs (wk_rt d)) (turns (wk_rt d)) (attempts d) (node_executions d)
    (graph_transitions d) (blockers d).

Section machine.
Context (jc : string → bool).

Definition tables_wf (T : tables) : Prop :=
  gwf jc (tb_defs T) (tb_runs T) (tb_turns T) (tb_attempts T) (tb_nodes T) (tb_trans T) (tb_blockers T).

(** What lets a visit go on: the end of its turn, or the answer to its blocker. *)
Inductive settles (T : tables) (k : uuid) : gmap uuid Turn → gmap uuid Blocker → Prop :=
| settles_turn id t t' :
    tb_turns T !! id = Some t → turn_State t = TurnRunning → turn_NodeExecutionID t = Some k →
    isTurnTerminal (turn_State t') = true → turn_NodeExecutionID t' = Some k → turn_RunID t' = turn_RunID t →
    settles T k (<[id := t']> (tb_turns T)) (tb_blockers T)
| settles_blocker id b b' :
    tb_blockers T !! id = Some b → bl_State b = BlockerOpen → bl_NodeExecutionID b = Some k →
    bl_State b' = BlockerResolved → bl_ID b' = bl_ID b → bl_NodeExecutionID b' = Some k →
    bl_AttemptID b' = bl_AttemptID b → bl_WorkItemID b' = bl_WorkItemID b →
    settles T k (tb_turns T) (<[id := b']> (tb_blockers T)).

(** The visit of node [k] is settled as [n']. *)
Record leaves (T : tables) (k : uuid) (n n' : NodeExecution) (ts' : gmap uuid Turn)
    (bs' : gmap uuid Blocker) : Prop := {
  lv_node : tb_nodes T !! k = Some n;
  lv_active : active n;
  lv_same : same_visit n n';
  lv_left : ne_State n' ≠ NodeRunning ∧ ne_State n' ≠ NodeBlocked;
  lv_settles : settles T k ts' bs' }.

Inductive gstep : tables → tables → Prop :=
| step_idle T : gstep T T
(** A worker turn starts for the pending visit. *)
| step_start T k n n' r' id t :
    tb_nodes T !! k = Some n → ne_State n = NodePending → same_visit n n' → ne_State n' = NodeRunning →
    run_State r' = RunRunning → tb_turns T !! id = None → turn_State t = TurnRunning →
    turn_NodeExecutionID t = Some k → turn_RunID t = ne_AttemptID n →
    (∀ j u, tb_turns T !! j = Some u → turn_NodeExecutionID u ≠ Some k) →
    gstep T (mkTables (tb_defs T) (<[ne_AttemptID n := r']> (tb_runs T)) (<[id := t]> (tb_turns T))
               (tb_attempts T) (<[k := n']> (tb_nodes T)) (tb_trans T) (tb_blockers T))
(** The pending visit waits for an answer. *)
| step_block T k n n' r' a b :
    tb_nodes T !! k = Some n → ne_State n = NodePending → same_visit n n' → ne_State n' = NodeBlocked →
    run_State r' = RunAwaitingApproval → tb_attempts T !! ne_AttemptID n = Some a →
    tb_blockers T !! bl_ID b = None → bl_State b = BlockerOpen → bl_NodeExecutionID b = Some k →
    bl_AttemptID b = ne_AttemptID n → bl_WorkItemID b = at_WorkItemID a →
    (∀ j x, tb_blockers T !! j = Some x → bl_WorkItemID x = bl_WorkItemID b → bl_State x = BlockerResolved) →
    gstep T (mkTables (tb_defs T) (<[ne_AttemptID n := r']> (tb_runs T)) (tb_turns T) (tb_attempts T)
               (<[k := n']> (tb_nodes T)) (tb_trans T) (<[bl_ID b := b]> (tb_blockers T)))
(** The consequences an open blocker discloses are refreshed. *)
| step_refresh T id b b' :
    tb_blockers T !! id = Some b → bl_State b = BlockerOpen → bl_State b' = BlockerOpen → bl_ID b' = bl_ID b →
    bl_NodeExecutionID b' = bl_NodeExecutionID b → bl_AttemptID b' = bl_AttemptID b →
    bl_WorkItemID b' = bl_WorkItemID b →
    gstep T (mkTables (tb_defs T) (tb_runs T) (tb_turns T) (tb_attempts T) (tb_nodes T) (tb_trans T)
               (<[id := b']> (tb_blockers T)))
(** The running visit records its completion report. *)
| step_report T k n n' :
    tb_nodes T !! k = Some n → ne_State n = NodeRunning → same_visit n n' → ne_State n' = NodeRunning →
    gstep T (mkTables (tb_defs T) (tb_runs T) (tb_turns T) (tb_attempts T) (<[k := n']> (tb_nodes T))
               (tb_trans T) (tb_blockers T))
(** Repeated consequences are confirmed: the visit is pending again. *)
| step_resume T k n n' r' ts' bs' :
    leaves T k n n' ts' bs' → ne_State n' = NodePending → run_State r' = RunRunning →
    gstep T (mkTables (tb_defs T) (<[ne_AttemptID n := r']> (tb_runs T)) ts' (tb_attempts T)
               (<[k := n']> (tb_nodes T)) (tb_trans T) bs')
(** The visit fails, and the attempt with it. *)
| step_fail T k n n' r' ts' bs' f :
    leaves T k n n' ts' bs' → ne_State n' = NodeFailed → isTerminal (run_State r') = true →
    (∀ a, same_attempt a (f a)) →
    gstep T (mkTables (tb_defs T) (<[ne_AttemptID n := r']> (tb_runs T)) ts'
               (alter f (ne_AttemptID n) (tb_attempts T)) (<[k := n']> (tb_nodes T)) (tb_trans T) bs')
(** A terminal outcome: the attempt succeeds. *)
| step_finish T k n n' r' ts' bs' f a o t :
    leaves T k n n' ts' bs' → ne_State n' = NodeSucceeded → ne_CompletionOutcome n' = Some o →
    tb_attempts T !! ne_AttemptID n = Some a → route (at_GraphSnapshot a) (ne_NodeKey n) o = Some None →
    run_State r' = RunSucceeded → (∀ a, same_attempt a (f a)) →
    gt_AttemptID t = ne_AttemptID n → gt_FromExecutionID t = k → gt_Terminal t = true →
    gstep T (mkTables (tb_defs T) (<[ne_AttemptID n := r']> (tb_runs T)) ts'
               (alter f (ne_AttemptID n) (tb_attempts T)) (<[k := n']> (tb_nodes T)) (tb_trans T ++ [t]) bs')
(** The transition limit is reached: the attempt fails. *)
| step_limit T k n n' r' ts' bs' f a o target :
    leaves T k n n' ts' bs' → ne_State n' = NodeSucceeded → ne_CompletionOutcome n' = Some o →
    tb_attempts T !! ne_AttemptID n = Some a →
    route (at_GraphSnapshot a) (ne_NodeKey n) o = Some (Some target) →
    edge_count (tb_trans T) (ne_AttemptID n) = cg_MaxTransitions (at_GraphSnapshot a) →
    run_State r' = RunFailed → (∀ a, same_attempt a (f a)) →
    gstep T (mkTables (tb_defs T) (<[ne_AttemptID n := r']> (tb_runs T)) ts'
               (alter f (ne_AttemptID n) (tb_attempts T)) (<[k := n']> (tb_nodes T)) (tb_trans T) bs')
(** The edge of the outcome is followed. *)
| step_edge T k n n' r' ts' bs' a def o m t :
    leaves T k n n' ts' bs' → ne_State n' = NodeSucceeded → ne_CompletionOutcome n' = Some o →
    tb_attempts T !! ne_AttemptID n = Some a →
    route (at_GraphSnapshot a) (ne_NodeKey n) o = Some (Some (ne_NodeKey m)) →
    findNode (at_GraphSnapshot a) (ne_NodeKey m) = Some def → cn_Kind def = ne_Kind m →
    edge_count (tb_trans T) (ne_AttemptID n) < cg_MaxTransitions (at_GraphSnapshot a) →
    run_State r' = RunRunning →
    <[k := n']> (tb_nodes T) !! ne_ID m = None → ne_AttemptID m = ne_AttemptID n → ne_State m = NodePending →
    ne_ExecutionSeq m = ne_ExecutionSeq n + 1 → 1 ≤ ne_Visit m ≤ ne_ExecutionSeq m →
    (∀ j x, tb_nodes T !! j = Some x → ne_AttemptID x = ne_AttemptID n → ne_NodeKey x = ne_NodeKey m →
       ne_Visit x < ne_Visit m) →
    gt_AttemptID t = ne_AttemptID n → gt_FromExecutionID t = k → gt_Terminal t = false →
    gt_ToExecutionID t = Some (ne_ID m) →
    gstep T (mkTables (tb_defs T) (<[ne_AttemptID n := r']> (tb_runs T)) ts' (tb_attempts T)
               (<[ne_ID m := m]> (<[k := n']> (tb_nodes T))) (tb_trans T ++ [t]) bs')
(** A new attempt on a definition with a valid graph, at its entry node. *)
| step_new T a r m def :
    tb_attempts T !! at_ID a = None → tb_runs T !! at_ID a = None → tb_nodes T !! ne_ID m = None →
    is_Some (tb_defs T !! at_DefinitionID a) → graph_valid jc (at_GraphSnapshot a) →
    run_State r = RunPending → ne_AttemptID m = at_ID a →
    ne_NodeKey m = cg_EntryNode (at_GraphSnapshot a) → ne_State m = NodePending →
    ne_Visit m = 1 → ne_ExecutionSeq m = 1 →
    findNode (at_GraphSnapshot a) (ne_NodeKey m) = Some def → cn_Kind def = ne_Kind m →
    gstep T (mkTables (tb_defs T) (<[at_ID a := r]> (tb_runs T)) (tb_turns T)
               (<[at_ID a := a]> (tb_attempts T)) (<[ne_ID m := m]> (tb_nodes T)) (tb_trans T) (tb_blockers T)).

(** ** Every step keeps the invariant *)
Lemma turn_ok_update ns k n n' tn :
  turn_ok ns tn → ns !! k = Some n → same_visit n n' →
  (turn_NodeExecutionID tn = Some k → turn_State tn = TurnRunning → ne_State n' = NodeRunning) →
  turn_ok (<[k := n']> ns) tn.
Proof.
  intros Hok Hk (_ & Hat & _) Hrun j Hj. destruct (Hok j Hj) as (m & Hm & Hr & Hst).
  destruct (decide (k = j)) as [->|Hne].
  - exists n'. rewrite lookup_insert_eq. assert (m = n) as -> by congruence. rewrite Hat. auto.
  - exists m. by rewrite lookup_insert_ne.
Qed.
Lemma blocker_ok_update ats ns k n n' b :
  blocker_ok ats ns b → ns !! k = Some n → same_visit n n' →
  (bl_NodeExecutionID b = Some k → bl_State b = BlockerOpen → ne_State n' = NodeBlocked) →
  blocker_ok ats (<[k := n']> ns) b.
Proof.
  intros (j & m & a & Hj & Hm & Hat & Ha & Hi & Hst) Hk (_ & Hat' & _) Hopen.
  destruct (decide (k = j)) as [->|Hne].
  - exists j, n', a. rewrite lookup_insert_eq. assert (m = n) as -> by congruence. rewrite Hat'. auto 10.
  - exists j, m, a. by rewrite lookup_insert_ne.
Qed.

Lemma side_settles T k n n' ts' bs' :
  tables_wf T → leaves T k n n' ts' bs' → side (tb_attempts T) (<[k := n']> (tb_nodes T)) ts' bs'.
Proof.
  intros W [Hk Hact Hsame [Hnr Hnb] Hset]. destruct (g_side _ _ _ _ _ _ _ _ W) as [S1 S2 S3 S4 S5 S6 S7].
  destruct Hset as [id t t' Ht Hrun Htk Hfin Htk' Htr | id b b' Hb Hopen Hbk Hres Hid Hbk' Hba Hbi].
  - assert (ne_State n = NodeRunning) as Hn.
    { destruct (S2 id t Ht k Htk) as (m & Hm & _ & Hst). assert (m = n) as -> by congruence. auto. }
    constructor; [done|..].
    + intros j tn [[<- <-]|[Hne Hj]]%lookup_insert_Some.
      * eapply turn_ok_update; [|done|done|intros _ Hx; by rewrite Hx in Hfin].
        intros x Hx. assert (x = k) as -> by congruence. destruct (S2 id t Ht k Htk) as (m & Hm & ? & _).
        exists m. split_and!; [done|congruence|]. intros Hx'. by rewrite Hx' in Hfin.
      * eapply turn_ok_update; [by eapply S2|done|done|]. intros Hx. destruct Hne. by eapply S3.
    + intros k1 k2 t1 t2 x H1 H2 Hx1 Hx2.
      assert (∀ j u, <[id := t']> (tb_turns T) !! j = Some u → turn_NodeExecutionID u = Some x →
        ∃ u0, tb_turns T !! j = Some u0 ∧ turn_NodeExecutionID u0 = Some x) as Hback.
      { intros j u [[<- <-]|[_ Hj]]%lookup_insert_Some Hu; [|eauto]. exists t. split; congruence. }
      destruct (Hback _ _ H1 Hx1) as (? & ? & ?), (Hback _ _ H2 Hx2) as (? & ? & ?). by eapply S3.
    + intros j b Hj. eapply blocker_ok_update; [by eapply S4|done|done|]. intros Hbk Hopen.
      destruct (S4 j b Hj) as (x & m & a & Hx & Hm & _ & _ & _ & Hst).
      assert (m = n) as -> by congruence. rewrite (Hst Hopen) in Hn. done.
    + done.
    + intros j x [[<- <-]|[Hne Hj]]%lookup_insert_Some Hx; [done|]. destruct (S6 j x Hj Hx) as (i & u & Hu & ? & Hun).
      exists i, u. rewrite lookup_insert_ne by (intros ->; congruence). done.
    + intros j x [[<- <-]|[Hne Hj]]%lookup_insert_Some Hx; [done|]. by eapply S7.
  - destruct (S4 id b Hb) as (x & m & a & Hx & Hm & Hat & Ha & Hai & Hst).
    assert (x = k) as -> by congruence. assert (m = n) as -> by congruence.
    constructor.
    + intros j y [[<- <-]|[Hne Hj]]%lookup_insert_Some; [rewrite Hid|]; by eapply S1.
    + intros j tn Hj. eapply turn_ok_update; [by eapply S2|done|done|]. intros Hx' Hrun.
      destruct (S2 j tn Hj k Hx') as (m & Hm' & _ & Hst'). assert (m = n) as -> by congruence.
      rewrite (Hst Hopen) in Hst'. by specialize (Hst' Hrun).
    + done.
    + intros j y [[<- <-]|[Hne Hj]]%lookup_insert_Some.
      * destruct Hsame as (_ & Hat' & _). exists k, n', a.
        rewrite lookup_insert_eq, Hba, Hbi, Hat'. split_and!; try done. by rewrite Hres.
      * eapply blocker_ok_update; [by eapply S4|done|done|]. intros Hyk Hyo. destruct Hne.
        destruct (S4 j y Hj) as (x' & m' & a' & Hx' & Hm'' & Hat'' & Ha' & Hai' & _).
        assert (x' = k) as -> by congruence. assert (m' = n) as -> by congruence.
        eapply S5; [done|done| |done|done]. congruence.
    + intros k1 k2 b1 b2 [[<- <-]|[_ H1]]%lookup_insert_Some; [congruence|].
      intros [[<- <-]|[_ H2]]%lookup_insert_Some; [congruence|]. by eapply S5.
    + intros j x [[<- <-]|[Hne Hj]]%lookup_insert_Some Hx'; [done|]. by eapply S6.
    + intros j x [[<- <-]|[Hne Hj]]%lookup_insert_Some Hx'; [done|]. destruct (S7 j x Hj Hx') as (i & u & Hu & ? & Hun).
      exists i, u. rewrite lookup_insert_ne by (intros ->; congruence). done.
Qed.
Lemma side_new_node ats ns ts bs k m :
  side ats ns ts bs → ns !! k = None → ne_State m = NodePending → side ats (<[k := m]> ns) ts bs.
Proof.
  intros [S1 S2 S3 S4 S5 S6 S7] Hk Hp. constructor; try done.
  - intros j tn Hj x Hx. destruct (S2 j tn Hj x Hx) as (n & Hn & ?). exists n.
    by rewrite lookup_insert_ne by congruence.
  - intros j b Hj. destruct (S4 j b Hj) as (x & n & a & Hx & Hn & ?). exists x, n, a.
    by rewrite lookup_insert_ne by congruence.
  - intros j x [[<- <-]|[_ Hj]]%lookup_insert_Some Hx; [congruence|by eapply S6].
  - intros j x [[<- <-]|[_ Hj]]%lookup_insert_Some Hx; [congruence|by eapply S7].
Qed.
Lemma side_start T k n n' id t :
  tables_wf T → tb_nodes T !! k = Some n → ne_State n = NodePending → same_visit n n' →
  ne_State n' = NodeRunning → tb_turns T !! id = None → turn_State t = TurnRunning → turn_NodeExecutionID t = Some k →
  turn_RunID t = ne_AttemptID n →
  (∀ j u, tb_turns T !! j = Some u → turn_NodeExecutionID u ≠ Some k) →
  side (tb_attempts T) (<[k := n']> (tb_nodes T)) (<[id := t]> (tb_turns T)) (tb_blockers T).
Proof.
  intros W Hk Hn Hs Hn' Hid Htrun Htk Htr Hnone. destruct (g_side _ _ _ _ _ _ _ _ W) as [S1 S2 S3 S4 S5 S6 S7].
  constructor; try done.
  - intros j tn [[<- <-]|[Hne Hj]]%lookup_insert_Some.
    + intros x Hx. assert (x = k) as -> by congruence. exists n'. rewrite lookup_insert_eq.
      destruct Hs as (_ & -> & _). done.
    + eapply turn_ok_update; [by eapply S2|done..].
  - intros k1 k2 t1 t2 x [[<- <-]|[_ H1]]%lookup_insert_Some [[<- <-]|[_ H2]]%lookup_insert_Some Hx1 Hx2;
      [done|..|by eapply S3].
    + destruct (Hnone _ _ H2). congruence.
    + destruct (Hnone _ _ H1). congruence.
  - intros j b Hj. eapply blocker_ok_update; [by eapply S4|done|done|]. intros Hbk Hopen.
    destruct (S4 j b Hj) as (x & m & a & Hx & Hm & _ & _ & _ & Hst).
    assert (m = n) as -> by congruence. rewrite (Hst Hopen) in Hn. done.
  - intros j x [[<- <-]|[_ Hj]]%lookup_insert_Some Hx; [exists id, t; by rewrite lookup_insert_eq|].
    destruct (S6 j x Hj Hx) as (i & u & Hu & ?). exists i, u. by rewrite lookup_insert_ne by congruence.
  - intros j x [[<- <-]|[_ Hj]]%lookup_insert_Some Hx; [congruence|by eapply S7].
Qed.
Lemma side_block T k n n' a b :
  tables_wf T → tb_nodes T !! k = Some n → ne_State n = NodePending → same_visit n n' →
  ne_State n' = NodeBlocked → tb_attempts T !! ne_AttemptID n = Some a →
  tb_blockers T !! bl_ID b = None → bl_State b = BlockerOpen → bl_NodeExecutionID b = Some k → bl_AttemptID b = ne_AttemptID n → bl_WorkItemID b = at_WorkItemID a →
  (∀ j x, tb_blockers T !! j = Some x → bl_WorkItemID x = bl_WorkItemID b → bl_State x = BlockerResolved) →
  side (tb_attempts T) (<[k := n']> (tb_nodes T)) (tb_turns T) (<[bl_ID b := b]> (tb_blockers T)).
Proof.
  intros W Hk Hn Hs Hn' Ha Hfresh Hbo Hbk Hba Hbi Hnone. destruct (g_side _ _ _ _ _ _ _ _ W) as [S1 S2 S3 S4 S5 S6 S7].
  constructor; try done.
  - intros j x [[<- <-]|[_ Hj]]%lookup_insert_Some; [done|by eapply S1].
  - intros j tn Hj. eapply turn_ok_update; [by eapply S2|done|done|]. intros Hx Hrun.
    destruct (S2 j tn Hj k Hx) as (m & Hm & _ & Hst). assert (m = n) as -> by congruence.
    rewrite (Hst Hrun) in Hn. done.
  - intros j x [[<- <-]|[_ Hj]]%lookup_insert_Some.
    + exists k, n', a. rewrite lookup_insert_eq, Hba, Hbi. destruct Hs as (_ & -> & _). done.
    + eapply blocker_ok_update; [by eapply S4|done..].
  - intros k1 k2 b1 b2 [[<- <-]|[_ H1]]%lookup_insert_Some [[<- <-]|[_ H2]]%lookup_insert_Some Hi O1 O2;
      [done|..|by eapply S5].
    + rewrite (Hnone _ _ H2) in O2; done.
    + rewrite (Hnone _ _ H1) in O1; done.
  - intros j x [[<- <-]|[_ Hj]]%lookup_insert_Some Hx; [congruence|by eapply S6].
  - intros j x [[<- <-]|[_ Hj]]%lookup_insert_Some Hx; [exists (bl_ID b), b; by rewrite lookup_insert_eq|].
    destruct (S7 j x Hj Hx) as (i & u & Hu & ?). exists i, u. by rewrite lookup_insert_ne by congruence.
Qed.

Lemma side_refresh ats ns ts bs id b b' :
  side ats ns ts bs → bs !! id = Some b → bl_State b = BlockerOpen → bl_State b' = BlockerOpen →
  bl_ID b' = bl_ID b → bl_NodeExecutionID b' = bl_NodeExecutionID b → bl_AttemptID b' = bl_AttemptID b →
  bl_WorkItemID b' = bl_WorkItemID b → side ats ns ts (<[id := b']> bs).
Proof.
  intros [S1 S2 S3 S4 S5 S6 S7] Hb Hbo Hbo' Hid Hbk Hba Hbi. constructor; try done.
  - intros j x [[<- <-]|[_ Hj]]%lookup_insert_Some; [rewrite Hid|]; by eapply S1.
  - intros j x [[<- <-]|[_ Hj]]%lookup_insert_Some; [|by eapply S4].
    destruct (S4 _ _ Hb) as (y & n & a & ? & ? & ? & ? & ? & ?). exists y, n, a.
    rewrite Hbk, Hba, Hbi. split_and!; auto.
  - assert (∀ j x, <[id := b']> bs !! j = Some x → bl_State x = BlockerOpen →
      ∃ x0, bs !! j = Some x0 ∧ bl_WorkItemID x0 = bl_WorkItemID x ∧ bl_State x0 = BlockerOpen) as Hx.
    { intros j x [[<- <-]|[_ Hj]]%lookup_insert_Some Hx; eauto. }
    intros k1 k2 b1 b2 K1 K2 Hi O1 O2. destruct (Hx _ _ K1 O1) as (? & ? & ? & ?), (Hx _ _ K2 O2) as (? & ? & ? & ?).
    eapply S5; [done|done|congruence|done..].
  - intros j x Hj Hx. destruct (S7 j x Hj Hx) as (i & u & Hu & ? & ?). destruct (decide (i = id)) as [->|Hne].
    + exists id, b'. rewrite lookup_insert_eq. assert (u = b) as -> by congruence. by rewrite Hbk.
    + exists i, u. by rewrite lookup_insert_ne.
Qed.
Lemma side_report T k n n' :
  tables_wf T → tb_nodes T !! k = Some n → ne_State n = NodeRunning → same_visit n n' → ne_State n' = NodeRunning →
  side (tb_attempts T) (<[k := n']> (tb_nodes T)) (tb_turns T) (tb_blockers T).
Proof.
  intros W Hk Hr Hs Hr'. destruct (g_side _ _ _ _ _ _ _ _ W) as [S1 S2 S3 S4 S5 S6 S7]. constructor; try done.
  - intros j tn Hj. by eapply turn_ok_update; [eapply S2| | |].
  - intros j b Hj. eapply blocker_ok_update; [by eapply S4|done|done|]. intros Hbk Hopen.
    destruct (S4 j b Hj) as (x & m & a & Hx & Hm & _ & _ & _ & Hst).
    assert (m = n) as -> by congruence. rewrite (Hst Hopen) in Hr. done.
  - intros j x [[<- <-]|[_ Hj]]%lookup_insert_Some Hx; by eapply S6.
  - intros j x [[<- <-]|[_ Hj]]%lookup_insert_Some Hx; [congruence|by eapply S7].
Qed.
Lemma wf_update T k n n' r' ts' bs' :
  tables_wf T → tb_nodes T !! k = Some n → active n → same_visit n n' →
  run_matches (ne_State n') (run_State r') →
  side (tb_attempts T) (<[k := n']> (tb_nodes T)) ts' bs' →
  gwf jc (tb_defs T) (<[ne_AttemptID n := r']> (tb_runs T)) ts' (tb_attempts T) (<[k := n']> (tb_nodes T))
    (tb_trans T) bs'.
Proof.
  intros W Hk Hact Hs Hr Hside. eapply gwf_update; [exact W|done|done|done| | |done].
  - intros j Hj. by rewrite lookup_insert_ne.
  - exists r'. by rewrite lookup_insert_eq.
Qed.
Lemma pending_active n : ne_State n = NodePending → active n.
Proof. unfold active. by intros ->. Qed.
Lemma running_active n : ne_State n = NodeRunning → active n.
Proof. unfold active. by intros ->. Qed.
Lemma run_of_active T k n :
  tables_wf T → tb_nodes T !! k = Some n → active n →
  ∃ r, tb_runs T !! ne_AttemptID n = Some r ∧ isTerminal (run_State r) = false.
Proof.
  intros W Hk Hact. destruct (g_node _ _ _ _ _ _ _ _ W k n Hk) as (a & _ & Ha & _).
  destruct (g_attempt _ _ _ _ _ _ _ _ W _ a Ha) as (_ & [r Hr] & _). exists r. split; [done|].
  apply (g_terminal _ _ _ _ _ _ _ _ W _ a r Ha Hr). by exists k, n.
Qed.
Hint Resolve pending_active running_active : iterabase.

Lemma wf_update_same_run T k n n' ts' bs' :
  tables_wf T → tb_nodes T !! k = Some n → active n → same_visit n n' → ne_State n' = ne_State n →
  side (tb_attempts T) (<[k := n']> (tb_nodes T)) ts' bs' →
  gwf jc (tb_defs T) (tb_runs T) ts' (tb_attempts T) (<[k := n']> (tb_nodes T)) (tb_trans T) bs'.
Proof.
  intros W Hk Hact Hs Hst Hside. destruct (run_of_active _ _ _ W Hk Hact) as (r & Hr & Ht).
  eapply gwf_update; [exact W|done|done|done|done| |done]. exists r.
  rewrite Hst. split; [done|]. by eapply (g_live _ _ _ _ _ _ _ _ W).
Qed.

Lemma settles_state T k n n' ts' bs' :
  tables_wf T → leaves T k n n' ts' bs' → ne_State n = NodeRunning ∨ ne_State n = NodeBlocked.
Proof.
  intros W [Hk _ _ _ Hset]. destruct (g_side _ _ _ _ _ _ _ _ W) as [_ S2 _ S4 _ _ _].
  destruct Hset as [id t t' Ht Hrun Htk _ _ _ | id b b' Hb Hopen Hbk _ _ _ _ _].
  - left. destruct (S2 id t Ht k Htk) as (m & Hm & _ & Hst). assert (m = n) as -> by congruence. auto.
  - right. destruct (S4 id b Hb) as (x & m & a & Hx & Hm & _ & _ & _ & Hst).
    assert (m = n) as -> by congruence. auto.
Qed.

Lemma gstep_wf T T' : tables_wf T → gstep T T' → tables_wf T'.
Proof.
  intros W Hstep. unfold tables_wf.
  destruct Hstep as [T|T k n n' r' id t Hk Hp Hs Hr Hrun Hid Ht Htk Htr Hnone
    |T k n n' r' a b Hk Hp Hs Hb Hrun Ha Hid Hbo Hbk Hba Hbi Hnone|T id b b' Hb Hbo Hbo' Hid Hbk Hba Hbi
    |T k n n' Hk Hr Hs Hr'|T k n n' r' ts' bs' L Hp Hrun|T k n n' r' ts' bs' f L Hf Hrun Hsa
    |T k n n' r' ts' bs' f a o t L Hsu Ho Ha Hroute Hrun Hsa Ht1 Ht2 Ht3
    |T k n n' r' ts' bs' f a o target L Hsu Ho Ha Hroute Hlim Hrun Hsa
    |T k n n' r' ts' bs' a def o m t L Hsu Ho Ha Hroute Hdef Hkind Hlim Hrun Hfresh Hmat Hmp Hseq Hvis Hgt Ht1 Ht2 Ht3 Ht4
    |T a r m def Ha Hr Hm Hdefs Hval Hrun Hmat Hkey Hmp Hvis Hseq Hdef Hkind]; simpl.
  - done.
  - eapply wf_update; eauto with iterabase; [by rewrite Hr, Hrun|]. by eapply side_start.
  - eapply wf_update; eauto with iterabase; [by rewrite Hb, Hrun|]. by eapply side_block.
  - destruct W. constructor; try done. by eapply side_refresh.
  - eapply wf_update_same_run; eauto with iterabase; [congruence|]. by eapply side_report.
  - pose proof L as []. eapply wf_update; eauto; [rewrite Hp; by right|by eapply side_settles].
  - pose proof L as []. apply gwf_finish_attempt; [done|].
    eapply wf_update; eauto; [by rewrite Hf|by eapply side_settles].
  - pose proof L as []. eapply gwf_terminal_transition; [|done| | |done].
    + apply gwf_finish_attempt; [done|].
      eapply wf_update; eauto; [by rewrite Hsu, Hrun|by eapply side_settles].
    + rewrite Ht1, lookup_alter_eq, Ha. by eexists.
    + rewrite Ht2. by apply lookup_insert_eq.
  - pose proof L as []. apply gwf_finish_attempt; [done|].
    eapply wf_update; eauto; [by rewrite Hsu, Hrun|by eapply side_settles].
  - pose proof L as []. eapply gwf_edge; try done.
    + by apply pending_active.
    + intros j x Hj Hx1 Hx2 Hx3. specialize (Hgt j x Hj Hx1 Hx2). lia.
    + intros j Hj. by rewrite lookup_insert_ne.
    + exists r'. rewrite lookup_insert_eq, Hmp. split; [done|by right].
    + apply side_new_node; [by eapply side_settles|done|done].
  - by eapply gwf_new_attempt.
Qed.

(** ** No step rewrites history *)
Definition same_turn (t t' : Turn) : Prop :=
  turn_NodeExecutionID t' = turn_NodeExecutionID t ∧ turn_RunID t' = turn_RunID t.
Definition same_blocker (b b' : Blocker) : Prop :=
  bl_ID b' = bl_ID b ∧ bl_NodeExecutionID b' = bl_NodeExecutionID b ∧ bl_AttemptID b' = bl_AttemptID b ∧
  bl_WorkItemID b' = bl_WorkItemID b.
Definition run_over (T : tables) (k : uuid) : Prop :=
  ∃ r, tb_runs T !! k = Some r ∧ isTerminal (run_State r) = true.
(** Rows stay, keep their identity, and are frozen once they are over: terminal runs
    and attempts, completed visits, settled turns, resolved blockers, transitions. *)
Record extends (T T' : tables) : Prop := {
  x_defs : tb_defs T' = tb_defs T;
  x_runs : ∀ k, is_Some (tb_attempts T !! k) → run_over T k → tb_runs T' !! k = tb_runs T !! k;
  x_attempts : ∀ k a, tb_attempts T !! k = Some a → ∃ a', tb_attempts T' !! k = Some a' ∧ same_attempt a a' ∧
    (run_over T k → a' = a);
  x_nodes : ∀ k n, tb_nodes T !! k = Some n → ∃ n', tb_nodes T' !! k = Some n' ∧ same_visit n n' ∧
    (¬ active n → n' = n);
  x_turns : ∀ k t, tb_turns T !! k = Some t → ∃ t', tb_turns T' !! k = Some t' ∧ same_turn t t' ∧
    (isTurnTerminal (turn_State t) = true → t' = t);
  x_trans : tb_trans T `prefix_of` tb_trans T';
  x_blockers : ∀ k b, tb_blockers T !! k = Some b → ∃ b', tb_blockers T' !! k = Some b' ∧ same_blocker b b' ∧
    (bl_State b = BlockerResolved → b' = b) }.

Lemma extends_refl T : extends T T.
Proof.
  constructor; try done; intros k x Hk; exists x; done.
Qed.
Lemma extends_trans T1 T2 T3 : extends T1 T2 → extends T2 T3 → extends T1 T3.
Proof.
  intros [A1 B1 C1 D1 E1 F1 G1] [A2 B2 C2 D2 E2 F2 G2].
  assert (∀ k, is_Some (tb_attempts T1 !! k) → run_over T1 k → is_Some (tb_attempts T2 !! k) ∧ run_over T2 k) as Hover.
  { intros k [a Ha] Ho. destruct (C1 k a Ha) as (a' & Ha' & _). split; [eauto|].
    unfold run_over. rewrite B1; [done|eauto|done]. }
  constructor.
  - congruence.
  - intros k Ha Ho. destruct (Hover k Ha Ho). rewrite B2, B1; done.
  - intros k a Ha. destruct (C1 k a Ha) as (a1 & Ha1 & (?&?&?&?) & Hk1), (C2 k a1 Ha1) as (a2 & Ha2 & (?&?&?&?) & Hk2).
    exists a2. split_and!; [done|unfold same_attempt; split_and!; congruence|]. intros Ho.
    destruct (Hover k ltac:(eauto) Ho). rewrite Hk2, Hk1; done.
  - intros k n Hn. destruct (D1 k n Hn) as (n1 & Hn1 & (?&?&?&?&?&?) & Hk1), (D2 k n1 Hn1) as (n2 & Hn2 & (?&?&?&?&?&?) & Hk2).
    exists n2. split_and!; [done|unfold same_visit; split_and!; congruence|]. intros Ho. rewrite Hk2, Hk1; try done.
    by rewrite Hk1.
  - intros k t Ht. destruct (E1 k t Ht) as (t1 & Ht1 & (?&?) & Hk1), (E2 k t1 Ht1) as (t2 & Ht2 & (?&?) & Hk2).
    exists t2. split_and!; [done|unfold same_turn; split_and!; congruence|]. intros Ho. rewrite Hk2, Hk1; try done.
    by rewrite Hk1.
  - by etrans.
  - intros k b Hb. destruct (G1 k b Hb) as (b1 & Hb1 & (?&?&?&?) & Hk1), (G2 k b1 Hb1) as (b2 & Hb2 & (?&?&?&?) & Hk2).
    exists b2. split_and!; [done|unfold same_blocker; split_and!; congruence|]. intros Ho. rewrite Hk2, Hk1; try done.
    by rewrite Hk1.
Qed.
#[global] Instance extends_preorder : PreOrder extends.
Proof. split; [exact extends_refl|exact extends_trans]. Qed.

(** Overwriting one row that is not over. *)
Lemma insert_extends {R} (same : R → R → Prop) (over : R → Prop) (t : gmap uuid R) k r r' :
  (∀ x, same x x) → t !! k = Some r → same r r' → ¬ over r →
  ∀ j x, t !! j = Some x → ∃ x', <[k := r']> t !! j = Some x' ∧ same x x' ∧ (over x → x' = x).
Proof.
  intros Hrefl Hk Hs Ho j x Hj. destruct (decide (k = j)) as [->|Hne].
  - exists r'. rewrite lookup_insert_eq. assert (x = r) as -> by congruence. done.
  - exists x. by rewrite lookup_insert_ne.
Qed.
Lemma insert_fresh_extends {R} (same : R → R → Prop) (over : R → Prop) (t : gmap uuid R) k r' :
  (∀ x, same x x) → t !! k = None →
  ∀ j x, t !! j = Some x → ∃ x', <[k := r']> t !! j = Some x' ∧ same x x' ∧ (over x → x' = x).
Proof. intros Hrefl Hk j x Hj. exists x. by rewrite lookup_insert_ne by congruence. Qed.

(** The rows a live visit's step may touch. *)
Lemma extends_live T k n n' r' ts' ats' ns' tr' bs' f :
  tables_wf T → tb_nodes T !! k = Some n → active n → same_visit n n' →
  (ats' = tb_attempts T ∨ (∀ a, same_attempt a (f a)) ∧ ats' = alter f (ne_AttemptID n) (tb_attempts T)) →
  (ns' = <[k := n']> (tb_nodes T) ∨ ∃ m, <[k := n']> (tb_nodes T) !! ne_ID m = None ∧
    ns' = <[ne_ID m := m]> (<[k := n']> (tb_nodes T))) →
  (∀ j t, tb_turns T !! j = Some t → ∃ t', ts' !! j = Some t' ∧ same_turn t t' ∧
    (isTurnTerminal (turn_State t) = true → t' = t)) →
  tb_trans T `prefix_of` tr' →
  (∀ j b, tb_blockers T !! j = Some b → ∃ b', bs' !! j = Some b' ∧ same_blocker b b' ∧
    (bl_State b = BlockerResolved → b' = b)) →
  extends T (mkTables (tb_defs T) (<[ne_AttemptID n := r']> (tb_runs T)) ts' ats' ns' tr' bs').
Proof.
  intros W Hk Hact Hs Hats Hns Hts Htr Hbs. destruct (run_of_active _ _ _ W Hk Hact) as (r & Hr & Hlive).
  assert (∀ j, run_over T j → j ≠ ne_AttemptID n) as Hne.
  { intros j (r0 & Hr0 & Ho) ->. congruence. }
  assert (∀ j x, tb_nodes T !! j = Some x → ∃ x', <[k := n']> (tb_nodes T) !! j = Some x' ∧ same_visit x x' ∧
    (¬ active x → x' = x)) as Hn1.
  { apply (insert_extends same_visit (λ x, ¬ active x) (tb_nodes T) k n n'); [done|done|done|tauto]. }
  constructor; simpl; try done.
  - intros j _ Ho. by rewrite lookup_insert_ne by (symmetry; auto).
  - intros j a Ha. destruct Hats as [->|[Hf ->]]; [by exists a|].
    destruct (alter_forth f same_attempt (tb_attempts T) (ne_AttemptID n) j a ltac:(done) Hf Ha) as (a' & Ha' & Hsa).
    exists a'. split_and!; [done|done|]. intros Ho. rewrite lookup_alter_ne in Ha' by (symmetry; auto). congruence.
  - intros j x Hj. destruct (Hn1 j x Hj) as (x' & Hx' & ? & ?). destruct Hns as [->|(m & Hm & ->)]; [eauto|].
    exists x'. by rewrite lookup_insert_ne by congruence.
Qed.
Lemma settles_turns T k ts' bs' :
  settles T k ts' bs' → ∀ j t, tb_turns T !! j = Some t → ∃ t', ts' !! j = Some t' ∧ same_turn t t' ∧
    (isTurnTerminal (turn_State t) = true → t' = t).
Proof.
  destruct 1 as [id t t' Ht Hrun Htk Hfin Htk' Htr|]; [|by intros j t Hj; exists t].
  eapply (insert_extends same_turn (λ t, isTurnTerminal (turn_State t) = true)); [done|exact Ht| |].
  - split; congruence.
  - by rewrite Hrun.
Qed.
Lemma settles_blockers T k ts' bs' :
  settles T k ts' bs' → ∀ j b, tb_blockers T !! j = Some b → ∃ b', bs' !! j = Some b' ∧ same_blocker b b' ∧
    (bl_State b = BlockerResolved → b' = b).
Proof.
  destruct 1 as [|id b b' Hb Hopen Hbk Hres Hid Hbk' Hba Hbi]; [by intros j b Hj; exists b|].
  eapply (insert_extends same_blocker (λ b, bl_State b = BlockerResolved)); [done|exact Hb| |].
  - unfold same_blocker. split_and!; congruence.
  - by rewrite Hopen.
Qed.

Lemma gstep_extends T T' : tables_wf T → gstep T T' → extends T T'.
Proof.
  intros W Hstep. destruct Hstep.
  - done.
  - eapply (extends_live T k n n' r' _ _ _ _ _ (λ a, a)); eauto with iterabase.
    + by apply (insert_fresh_extends same_turn).
    + intros j b Hj. by exists b.
  - eapply (extends_live T k n n' r' _ _ _ _ _ (λ a, a)); eauto with iterabase.
    + intros j t Hj. by exists t.
    + by apply (insert_fresh_extends same_blocker).
  - constructor; try done; simpl; try (intros j x Hj; by exists x).
    eapply (insert_extends same_blocker (λ b, bl_State b = BlockerResolved)); [done|done|done|]. by rewrite H0.
  - constructor; try done; simpl; try (intros j x Hj; by exists x).
    apply (insert_extends same_visit (λ x, ¬ active x) (tb_nodes T) k n n'); [done|done|done|].
    intros Hx. apply Hx. by apply running_active.
  - destruct H. eapply (extends_live T k n n' r' _ _ _ _ _ (λ a, a));
      eauto using settles_turns, settles_blockers.
  - destruct H. eapply (extends_live T k n n' r' _ _ _ _ _ f); eauto using settles_turns, settles_blockers.
  - destruct H. eapply (extends_live T k n n' r' _ _ _ _ _ f);
      eauto using settles_turns, settles_blockers, prefix_app_r.
  - destruct H. eapply (extends_live T k n n' r' _ _ _ _ _ f); eauto using settles_turns, settles_blockers.
  - destruct H. eapply (extends_live T k n n' r' _ _ _ _ _ (λ a, a));
      eauto using settles_turns, settles_blockers, prefix_app_r.
  - constructor; try done; simpl; try (intros j x Hj; by exists x).
    + intros k [x Hx] _. by rewrite lookup_insert_ne by congruence.
    + intros k x Hk. exists x. by rewrite lookup_insert_ne by congruence.
    + by apply (insert_fresh_extends same_visit).
Qed.
End machine.
