(* ===== verification/WorkSim.v ===== *)
(** Simulation: every command of the work domain that commits is a step of the abstract
    machine of [WorkMachine]. *)
From S2P Require Import Prelude Json Duration Runtime Workflow WorkflowFacts WorkData WorkGraph.
From S2P Require Import WorkCommands WorkSteps WorkInv WorkMachine.

(** * Statements that keep a relation on the database *)
Definition keeps {A} (P : WorkDB → WorkDB → Prop) (m : WkTx A) : Prop :=
  ∀ d a d', m d = inr (a, d') → P d d'.

Section keeps.
Context (P : WorkDB → WorkDB → Prop) `{!PreOrder P}.
Lemma keeps_ret {A} (a : A) : keeps P (mret a).
Proof. intros d x d' H. inv_tx. done. Qed.
Lemma keeps_bind {A B} (m : WkTx A) (k : A → WkTx B) :
  keeps P m → (∀ a, keeps P (k a)) → keeps P (m ≫= k).
Proof. intros Hm Hk d b d' (a & d1 & H1 & H2)%tx_bind_inr. etrans; [by eapply Hm|by eapply Hk]. Qed.
Lemma keeps_get : keeps P tx_get.
Proof. intros d x d' H. inv_tx. done. Qed.
Lemma keeps_require b e : keeps P (tx_require b e).
Proof. intros d x d' H. inv_tx. done. Qed.
Lemma keeps_opt {A} (o : option A) e : keeps P (tx_opt o e).
Proof. intros d x d' H. inv_tx. done. Qed.
Lemma keeps_fail {A} e : keeps P (tx_fail e : WkTx A).
Proof. intros d x d' H. inv_tx. Qed.
Lemma keeps_modify f : (∀ d, P d (f d)) → keeps P (tx_modify f).
Proof. intros Hf d x d' H. inv_tx. apply Hf. Qed.
Lemma keeps_iter {A} (f : A → WkTx ()) l : (∀ a, keeps P (f a)) → keeps P (tx_iter f l).
Proof.
  intros Hf. induction l as [|a l IH]; simpl; [apply keeps_ret|]. by apply keeps_bind.
Qed.
Lemma keeps_map {A B} (f : A → WkTx B) l : (∀ a, keeps P (f a)) → keeps P (tx_map f l).
Proof.
  intros Hf. induction l as [|a l IH]; simpl; [apply keeps_ret|].
  apply keeps_bind; [done|]. intros b. apply keeps_bind; [done|]. intros bs. apply keeps_ret.
Qed.
End keeps.

Create HintDb keeps.
Ltac keeps_step :=
  match goal with
  | |- keeps _ (_ ≫= _) => apply keeps_bind; [..|intros]
  | |- keeps _ (mret _) => apply keeps_ret
  | |- keeps _ tx_get => apply keeps_get
  | |- keeps _ (tx_require _ _) => apply keeps_require
  | |- keeps _ (tx_opt _ _) => apply keeps_opt
  | |- keeps _ (tx_fail _) => apply keeps_fail
  | |- keeps _ (tx_iter _ _) => apply keeps_iter; intros
  | |- keeps _ (tx_map _ _) => apply keeps_map; intros
  | |- keeps _ (tx_modify _) => apply keeps_modify; intros; done
  | |- keeps _ (match _ with _ => _ end) => case_match
  | |- keeps _ (let _ := _ in _) => cbv zeta
  | |- _ => progress eauto with keeps
  end.
Ltac keeps_tac := repeat keeps_step; try typeclasses eauto.

(** ** Statements that only read *)
Abbreviation reads := (keeps eq).
Lemma reads_json_column raw : reads (json_column raw).
Proof. unfold json_column. keeps_tac. Qed.
Lemma reads_to_consequences l : reads (to_consequences l).
Proof. unfold to_consequences. keeps_tac. Qed.
#[export] Hint Resolve reads_json_column reads_to_consequences : keeps.
Lemma reads_consequencesForNodeTx a n x : reads (consequencesForNodeTx a n x).
Proof. unfold consequencesForNodeTx. keeps_tac. Qed.
Lemma reads_consequencesConfirmedTx n c : reads (consequencesConfirmedTx n c).
Proof. unfold consequencesConfirmedTx. keeps_tac. Qed.
Lemma reads_consequencesForItemQuery i : reads (consequencesForItemQuery i).
Proof. unfold consequencesForItemQuery. keeps_tac. Qed.
Lemma reads_buildContextTx a n : reads (buildContextTx a n).
Proof. unfold buildContextTx. keeps_tac. Qed.
Lemma reads_check_report_ref a n r : reads (check_report_ref a n r).
Proof. unfold check_report_ref. keeps_tac. Qed.
Lemma reads_check_response_ref r : reads (check_response_ref r).
Proof. unfold check_response_ref. keeps_tac. Qed.
#[export] Hint Resolve reads_consequencesForNodeTx reads_consequencesConfirmedTx reads_consequencesForItemQuery
  reads_buildContextTx reads_check_report_ref reads_check_response_ref : keeps.
Lemma reads_check_confirmation b ids : reads (check_confirmation b ids).
Proof. unfold check_confirmation. keeps_tac. Qed.
Lemma reads_validateSourcePresentation sp : reads (validateSourcePresentation sp).
Proof. unfold validateSourcePresentation. keeps_tac. Qed.
Lemma reads_startPayloadHash h inp refs : reads (startPayloadHash h inp refs).
Proof. unfold startPayloadHash. keeps_tac. Qed.
Lemma reads_start_refs inp : reads (start_refs inp).
Proof. unfold start_refs. keeps_tac. Qed.
Lemma reads_resolveForAttempt jc key version : reads (resolveForAttempt jc key version).
Proof. unfold resolveForAttempt. keeps_tac. Qed.
Lemma reads_resolvePoolTx k : reads (resolvePoolTx k).
Proof. unfold resolvePoolTx. keeps_tac. Qed.
Lemma reads_resolveModelsTx k s : reads (resolveModelsTx k s).
Proof. unfold resolveModelsTx. keeps_tac. Qed.
Lemma reads_revision_target inp : reads (revision_target inp).
Proof. unfold revision_target. keeps_tac. Qed.
Lemma reads_timeout_ms t : reads (timeout_ms t).
Proof. unfold timeout_ms. keeps_tac. Qed.
#[export] Hint Resolve reads_check_confirmation reads_validateSourcePresentation reads_startPayloadHash
  reads_start_refs reads_resolveForAttempt reads_resolvePoolTx reads_resolveModelsTx reads_revision_target
  reads_timeout_ms : keeps.

(** ** Statements that leave the graph tables alone *)
Definition same_tables (d d' : WorkDB) : Prop := tables_of d' = tables_of d.
#[export] Instance same_tables_preorder : PreOrder same_tables.
Proof. split; [done|]. intros x y z H1 H2. unfold same_tables in *. congruence. Qed.
Lemma keeps_reads {A} (P : WorkDB → WorkDB → Prop) `{!PreOrder P} (m : WkTx A) : reads m → keeps P m.
Proof. intros Hm d a d' H. by rewrite (Hm _ _ _ H). Qed.
Abbreviation frames := (keeps same_tables).
Lemma frames_new_uuid : frames new_uuid.
Proof. intros d id d' [-> ->]%new_uuid_inr. done. Qed.
Lemma frames_appendTimelineTx now i a n c p refs actor : frames (appendTimelineTx now i a n c p refs actor).
Proof. intros d u d' ->%appendTimelineTx_inr. done. Qed.
Lemma frames_insert_ledger e : frames (insert_ledger e).
Proof. intros d u d' H. unfold insert_ledger in H. inv_tx. case_match; inv_tx; done. Qed.
#[export] Hint Resolve frames_new_uuid frames_appendTimelineTx frames_insert_ledger : keeps.
Lemma frames_creditValueTx now i a : frames (creditValueTx now i a).
Proof. unfold creditValueTx. keeps_tac. Qed.
Lemma frames_deductValueTx now f : frames (deductValueTx now f).
Proof. unfold deductValueTx. keeps_tac. Qed.
Lemma frames_link_artifact now i a n role ref : frames (link_artifact now i a n role ref).
Proof. unfold link_artifact. keeps_tac. apply keeps_reads; [typeclasses eauto|]. apply reads_json_column. Qed.
Lemma frames_handoff now a f n : frames (handoff now a f n).
Proof. unfold handoff. keeps_tac. Qed.
Lemma frames_pin_tool a p c n : frames (pin_tool a p c n).
Proof. unfold pin_tool. keeps_tac. Qed.
#[export] Hint Resolve frames_creditValueTx frames_deductValueTx frames_link_artifact frames_handoff frames_pin_tool : keeps.
Lemma frames_snapshotToolsTx a p c : frames (snapshotToolsTx a p c).
Proof. unfold snapshotToolsTx. keeps_tac. Qed.
Lemma frames_link_source now inp e r : frames (link_source now inp e r).
Proof. unfold link_source. keeps_tac. apply keeps_reads; [typeclasses eauto|]. apply reads_json_column. Qed.
#[export] Hint Resolve frames_snapshotToolsTx frames_link_source : keeps.

(** ** Table equations of the writing statements *)
Lemma insertNodeExecutionTx_inr now att node visit seq ctx models spec d id d' :
  insertNodeExecutionTx now att node visit seq ctx models spec d = inr (id, d') →
  ∃ m, ne_ID m = id ∧ ne_AttemptID m = att ∧ ne_NodeKey m = cn_Key node ∧ ne_Kind m = cn_Kind node ∧
    ne_Visit m = visit ∧ ne_ExecutionSeq m = seq ∧ ne_State m = NodePending ∧ 0 < visit ∧ 0 < seq ∧
    node_executions d !! id = None ∧
    tables_of d' = mkTables (definitions d) (workflow_runs (wk_rt d)) (turns (wk_rt d)) (attempts d)
      (<[id := m]> (node_executions d)) (graph_transitions d) (blockers d).
Proof.
  unfold insertNodeExecutionTx. intros H. inv_tx_step.
  match goal with Ht : timeout_ms _ _ = _ |- _ => apply reads_timeout_ms in Ht; subst end.
  inv_tx_step. match goal with Hu : new_uuid _ = _ |- _ => apply new_uuid_inr in Hu as [-> ->] end.
  inv_tx. cbn in *.
  eexists (mkNodeExec _ _ _ _ _ _ _ _ _ _ _ _ _ _ _ _ _ _ _ _ _ _ _ _).
  split_and!; [reflexivity..| | | |reflexivity].
  - match goal with Hb : (_ && _ && _ && _)%bool = true |- _ => rewrite !andb_true_iff in Hb; lia end.
  - match goal with Hb : (_ && _ && _ && _)%bool = true |- _ => rewrite !andb_true_iff in Hb; lia end.
  - by eapply bool_decide_eq_true_1.
Qed.
Lemma insert_transition_inr now att from outcome to d u d' :
  insert_transition now att from outcome to d = inr (u, d') →
  ∃ t, gt_AttemptID t = att ∧ gt_FromExecutionID t = from ∧ gt_Outcome t = outcome ∧ gt_ToExecutionID t = to ∧
    gt_Terminal t = bool_decide (to = None) ∧
    tables_of d' = mkTables (definitions d) (workflow_runs (wk_rt d)) (turns (wk_rt d)) (attempts d)
      (node_executions d) (graph_transitions d ++ [t]) (blockers d).
Proof.
  unfold insert_transition. intros H. inv_tx_step.
  match goal with Hu : new_uuid _ = _ |- _ => apply new_uuid_inr in Hu as [-> ->] end.
  inv_tx. eexists (Build_GraphTransition _ _ _ _ _ _ _). split_and!; reflexivity.
Qed.
Lemma update_run_inr id cond f d u d' :
  update_run id cond f d = inr (u, d') →
  tables_of d' = mkTables (definitions d) (upd id (λ r, cond (run_State r)) f (workflow_runs (wk_rt d)))
    (turns (wk_rt d)) (attempts d) (node_executions d) (graph_transitions d) (blockers d).
Proof. rewrite update_run_eq. by intros [= _ <-]. Qed.
Lemma upd_insert {R} id (cond : R → bool) f (t : gmap uuid R) r :
  t !! id = Some r → upd id cond f t = <[id := if cond r then f r else r]> t.
Proof. intros Hr. unfold upd. rewrite Hr. destruct (cond r); [done|]. by rewrite insert_id. Qed.

(** Frame facts as equations between tables. *)
Lemma frame_eq {A} (m : WkTx A) d a d' : frames m → m d = inr (a, d') → tables_of d' = tables_of d.
Proof. intros Hm H. by eapply Hm. Qed.
Ltac frame H :=
  lazymatch type of H with
  | ?m ?d = inr (?a, ?d') =>
      let E := fresh "E" in
      assert (tables_of d' = tables_of d) as E by (eapply (frame_eq m d a d'); [eauto with keeps; keeps_tac|exact H]);
      clear H
  end.
Ltac read H :=
  lazymatch type of H with
  | ?m ?d = inr (?a, ?d') =>
      let E := fresh "E" in
      assert (d = d') as E by (refine ((_ : reads m) d a d' H); eauto with keeps; keeps_tac); subst d'
  end.

Lemma finish_same now c o a : same_attempt a (finish_attempt now c o a).
Proof. done. Qed.

(** * Advancing *)
Section advance.
Context (jc : string → bool).
Context (T : tables) (k : uuid) (n n' : NodeExecution) (ts' : gmap uuid Turn) (bs' : gmap uuid Blocker).
Context (W : tables_wf jc T) (L : leaves T k n n' ts' bs') (Hdone : ne_State n' = NodeSucceeded).
Context (o : string) (Ho : ne_CompletionOutcome n' = Some o).
Context (a : Attempt) (Ha : tb_attempts T !! ne_AttemptID n = Some a).
(** The tables once the visit is completed and its source settled. *)
Let T1 := mkTables (tb_defs T) (tb_runs T) ts' (tb_attempts T) (<[k := n']> (tb_nodes T)) (tb_trans T) bs'.

(** A step of the machine that leaves the completed visit and the returned run state
    stored. *)
Definition advanced (st : RunState) (d' : WorkDB) : Prop :=
  gstep jc T (tables_of d') ∧ tb_turns (tables_of d') = ts' ∧ tb_nodes (tables_of d') !! k = Some n' ∧
  ∃ r', tb_runs (tables_of d') !! ne_AttemptID n = Some r' ∧ run_State r' = st.

Lemma advance_terminal_step now itemID node a' actor d st d' :
  tables_of d = T1 → ne_ID node = k → route (at_GraphSnapshot a) (ne_NodeKey n) o = Some None →
  advance_terminal now itemID (ne_AttemptID n) node o a' actor d = inr (st, d') →
  st = RunSucceeded ∧ advanced st d'.
Proof.
  intros Hd Hid Hroute H. unfold advance_terminal in H.
  apply tx_bind_inr in H as ([] & d1 & H1%update_run_inr & H).
  apply tx_bind_inr in H as ([] & d2 & H2 & H). rewrite update_attempt_eq in H2. injection H2 as <-.
  apply tx_bind_inr in H as ([] & d3 & (t & Ht1 & Ht2 & _ & _ & Ht3 & H3)%insert_transition_inr & H).
  apply tx_bind_inr in H as ([] & d4 & H4 & H). frame H4.
  apply tx_bind_inr in H as ([] & d5 & H5 & H). frame H5. inv_tx.
  destruct (run_of_active _ _ _ _ W (lv_node _ _ _ _ _ _ L) (lv_active _ _ _ _ _ _ L)) as (r & Hr & _).
  unfold advanced. rewrite E0, E, H3. injection Hd as Dd Dr Dt Da Dn Dtr Db.
  injection H1 as Ed Er Et Ea En Etr Eb. cbn.
  rewrite Ed, Er, Et, Ea, En, Etr, Eb, Dd, Dr, Dt, Da, Dn, Dtr, Db, (upd_insert _ _ _ _ r Hr).
  split; [done|]. split; [|cbn; rewrite !lookup_insert_eq; eauto].
  eapply (step_finish jc T k n n'); try done. by rewrite Ht2.
Qed.
Lemma advance_limit_step now itemID node actor d st d' target :
  tables_of d = T1 → route (at_GraphSnapshot a) (ne_NodeKey n) o = Some (Some target) →
  cg_MaxTransitions (at_GraphSnapshot a) ≤ edge_count (tb_trans T) (ne_AttemptID n) →
  advance_limit now itemID (ne_AttemptID n) node actor d = inr (st, d') → st = RunFailed ∧ advanced st d'.
Proof.
  intros Hd Hroute Hlim H. unfold advance_limit in H.
  apply tx_bind_inr in H as ([] & d1 & H1%update_run_inr & H).
  apply tx_bind_inr in H as ([] & d2 & H2 & H). rewrite update_attempt_eq in H2. injection H2 as <-.
  apply tx_bind_inr in H as ([] & d3 & H3 & H). frame H3. inv_tx.
  destruct (run_of_active _ _ _ _ W (lv_node _ _ _ _ _ _ L) (lv_active _ _ _ _ _ _ L)) as (r & Hr & _).
  unfold advanced. rewrite E. injection Hd as Dd Dr Dt Da Dn Dtr Db. injection H1 as Ed Er Et Ea En Etr Eb.
  unfold tables_of. cbn.
  rewrite Ed, Er, Et, Ea, En, Etr, Eb, Dd, Dr, Dt, Da, Dn, Dtr, Db, (upd_insert _ _ _ _ r Hr).
  split; [done|]. split; [|cbn; rewrite !lookup_insert_eq; eauto].
  eapply (step_limit jc T k n n'); try done.
  pose proof (g_bound _ _ _ _ _ _ _ _ W _ a Ha). lia.
Qed.

Lemma next_seq_eq d : tables_of d = T1 → next_seq d (ne_AttemptID n) = ne_ExecutionSeq n + 1.
Proof.
  intros Hd. injection Hd as _ _ _ _ Dn _ _. destruct L as [Hk Hact (_ & Hat & _ & _ & _ & Hseq) _].
  unfold next_seq. f_equal.
  assert (n' ∈ attempt_nodes d (ne_AttemptID n)) as Hin.
  { unfold attempt_nodes. rewrite Dn. apply elem_of_select. rewrite Hat, String.eqb_refl. split; [done|].
    exists k. by rewrite lookup_insert_eq. }
  apply (max_of_ge ne_ExecutionSeq) in Hin as Hge. pose proof (g_pos _ _ _ _ _ _ _ _ W k n Hk).
  destruct (max_of_witness ne_ExecutionSeq (attempt_nodes d (ne_AttemptID n))) as [Hz|(x & Hx & Heq)]; [lia|].
  unfold attempt_nodes in Hx. rewrite Dn in Hx. apply elem_of_select in Hx as (Hxa & j & Hj).
  apply String.eqb_eq in Hxa. apply lookup_insert_Some in Hj as [[<- <-]|[_ Hj]]; [lia|].
  pose proof (g_active_last _ _ _ _ _ _ _ _ W k j n x Hk Hj (eq_sym Hxa) Hact). lia.
Qed.
Lemma next_visit_gt d key j x :
  tables_of d = T1 → tb_nodes T !! j = Some x → ne_AttemptID x = ne_AttemptID n → ne_NodeKey x = key →
  ne_Visit x < next_visit d (ne_AttemptID n) key.
Proof.
  intros Hd Hj Hx Hkey. injection Hd as _ _ _ _ Dn _ _.
  destruct L as [Hk Hact (_ & Hat & Hkey' & _ & Hvis & _) _].
  assert (∃ y, y ∈ filter (λ m, ne_NodeKey m = key) (attempt_nodes d (ne_AttemptID n)) ∧ ne_Visit y = ne_Visit x)
    as (y & Hy & Heq).
  { unfold attempt_nodes. rewrite Dn. setoid_rewrite list_elem_of_filter. setoid_rewrite elem_of_select.
    destruct (decide (k = j)) as [->|Hne].
    - assert (x = n) as -> by congruence. exists n'. rewrite Hat, Hkey', String.eqb_refl, Hvis.
      split_and!; try done. exists j. by rewrite lookup_insert_eq.
    - exists x. rewrite Hx, String.eqb_refl. split_and!; try done. exists j. by rewrite lookup_insert_ne. }
  apply (max_of_ge ne_Visit) in Hy. unfold next_visit. lia.
Qed.
Lemma next_visit_le d key :
  tables_of d = T1 → 1 ≤ next_visit d (ne_AttemptID n) key ≤ ne_ExecutionSeq n + 1.
Proof.
  intros Hd. pose proof Hd as Hd0. injection Hd0 as _ _ _ _ Dn _ _.
  destruct L as [Hk Hact (_ & Hat & Hkey' & _ & Hvis & Hseq) _].
  unfold next_visit. set (l := filter _ _).
  pose proof (max_of_nonneg ne_Visit l). pose proof (g_pos _ _ _ _ _ _ _ _ W k n Hk).
  destruct (max_of_witness ne_Visit l) as [->|(x & Hx & <-)]; [lia|].
  unfold l in Hx. apply list_elem_of_filter in Hx as [_ Hx].
  unfold attempt_nodes in Hx. rewrite Dn in Hx. apply elem_of_select in Hx as (Hxa & j & Hj).
  apply String.eqb_eq in Hxa. apply lookup_insert_Some in Hj as [[<- <-]|[_ Hj]]; [lia|].
  pose proof (g_active_last _ _ _ _ _ _ _ _ W k j n x Hk Hj (eq_sym Hxa) Hact).
  pose proof (g_pos _ _ _ _ _ _ _ _ W j x Hj). lia.
Qed.

Lemma findNode_key g key def : findNode g key = Some def → cn_Key def = key.
Proof. intros H. apply List.find_some in H as [_ H]. by apply String.eqb_eq in H. Qed.

Lemma advance_edge_step now node target a' spec d st d' :
  tables_of d = T1 → ne_ID node = k → at_GraphSnapshot a' = at_GraphSnapshot a →
  route (at_GraphSnapshot a) (ne_NodeKey n) o = Some (Some target) →
  edge_count (tb_trans T) (ne_AttemptID n) < cg_MaxTransitions (at_GraphSnapshot a) →
  advance_edge now (ne_AttemptID n) node o target a' spec d = inr (st, d') →
  st = RunRunning ∧ advanced st d'.
Proof.
  intros Hd Hid Hg Hroute Hlim H. unfold advance_edge in H.
  apply tx_bind_inr in H as (def & d1 & [Hdef <-]%tx_opt_inr & H). rewrite Hg in Hdef.
  apply tx_bind_inr in H as (dd & d1 & [<- <-]%tx_get_inr & H).
  apply tx_bind_inr in H as (ctx & d2 & H2 & H). read H2.
  apply tx_bind_inr in H as (id & d3 & H3 & H).
  apply insertNodeExecutionTx_inr in H3
    as (m & Mid & Mat & Mkey & Mkind & Mvis & Mseq & Mst & _ & _ & Mnone & H3).
  apply tx_bind_inr in H as ([] & d4 & H4 & H). frame H4.
  apply tx_bind_inr in H as ([] & d5 & (t & Ht1 & Ht2 & _ & Ht4 & Ht3 & H5)%insert_transition_inr & H).
  apply tx_bind_inr in H as ([] & d6 & H6%update_run_inr & H). inv_tx.
  pose proof (findNode_key _ _ _ Hdef) as Hdk.
  destruct (run_of_active _ _ _ _ W (lv_node _ _ _ _ _ _ L) (lv_active _ _ _ _ _ _ L)) as (r & Hr & Hlive).
  pose proof (next_seq_eq d Hd) as Hns. pose proof (next_visit_le d target Hd) as Hnv.
  pose proof (λ j x, next_visit_gt d target j x Hd) as Hgt.
  injection Hd as Dd Dr Dt Da Dn Dtr Db. rewrite H3 in E. injection E as Ad Ar At Aa An Atr Ab.
  injection H5 as Bd Br Bt Ba Bn Btr Bb. unfold advanced. rewrite H6.
  rewrite Bd, Br, Bt, Ba, Bn, Btr, Bb, Ad, Ar, At, Aa, An, Atr, Ab, Dd, Dr, Dt, Da, Dn, Dtr, Db.
  rewrite (upd_insert _ _ _ _ r Hr). rewrite Dn in Mnone. subst id.
  assert (run_State (if advanceable (run_State r) then run_to now RunRunning r else r) = RunRunning) as Hrun.
  { pose proof (g_live _ _ _ _ _ _ _ _ W _ _ r (lv_node _ _ _ _ _ _ L) (lv_active _ _ _ _ _ _ L) Hr) as Hm.
    destruct (settles_state _ _ _ _ _ _ _ W L) as [Hst|Hst]; rewrite Hst in Hm; simpl in Hm; by rewrite Hm. }
  split; [done|]. split.
  2: { cbn. apply lookup_insert_None in Mnone as [_ Hne]. rewrite (lookup_insert_ne _ (ne_ID m)) by done.
       rewrite !lookup_insert_eq. eauto. }
  eapply (step_edge jc T k n n'); try done; try congruence.
  - intros j x Hj Hx Hxk. rewrite Mvis. apply (Hgt j); [done|done|]. by rewrite Hxk, Mkey.
Qed.

Lemma advanceGraphTx_step now itemID node actor d st d' :
  tables_of d = T1 → ne_ID node = k → ne_NodeKey node = ne_NodeKey n → ne_CompletionOutcome node = Some o →
  advanceGraphTx now itemID (ne_AttemptID n) node actor d = inr (st, d') →
  advanced st d' ∧
  st = match route (at_GraphSnapshot a) (ne_NodeKey n) o with
       | Some (Some _) => if cg_MaxTransitions (at_GraphSnapshot a) <=? edge_count (tb_trans T) (ne_AttemptID n)
                          then RunFailed else RunRunning
       | _ => RunSucceeded
       end.
Proof.
  intros Hd Hid Hkey Hout H. unfold advanceGraphTx in H. rewrite Hout in H.
  apply tx_bind_inr in H as (o' & d1 & [[= <-] <-]%tx_opt_inr & H).
  apply tx_bind_inr in H as (dd & d1 & [<- <-]%tx_get_inr & H).
  apply tx_bind_inr in H as (a' & d1 & [Ha' <-]%tx_opt_inr & H).
  apply tx_bind_inr in H as (def & d1 & [_ <-]%tx_opt_inr & H).
  apply tx_bind_inr in H as (nd & d1 & [_ <-]%tx_opt_inr & H).
  apply tx_bind_inr in H as (u & d1 & [_ <-]%tx_require_inr & H).
  apply tx_bind_inr in H as (u' & d1 & [_ <-]%tx_require_inr & H).
  apply tx_bind_inr in H as (u'' & d1 & H1 & H). frame H1.
  pose proof Hd as Hd0. injection Hd0 as _ _ _ Da _ Dtr _. rewrite Da in Ha'.
  assert (a' = a) as -> by congruence. rewrite Hd in E. rewrite Hkey in H.
  destruct (route (at_GraphSnapshot a) (ne_NodeKey n) o) as [[target|]|] eqn:Hroute; [| |inv_tx].
  - unfold transition_count in H. rewrite Dtr in H.
    destruct (Z.leb_spec (cg_MaxTransitions (at_GraphSnapshot a)) (edge_count (tb_trans T) (ne_AttemptID n)))
      as [Hlim|Hlim]; pose proof Hlim as Hlim'; unfold edge_count in Hlim'.
    + rewrite (proj2 (Z.leb_le _ _) Hlim') in H. eapply and_comm, advance_limit_step; done.
    + rewrite (proj2 (Z.leb_gt _ _) Hlim') in H. eapply and_comm, advance_edge_step; done.
  - eapply and_comm, advance_terminal_step; done.
Qed.
End advance.

(** * Commands *)
Lemma alter_to_insert {R} (f : R → R) (t : gmap uuid R) id r : t !! id = Some r → alter f id t = <[id := f r]> t.
Proof.
  intros Hr. apply map_eq. intros j. destruct (decide (id = j)) as [->|Hne].
  - by rewrite lookup_alter_eq, Hr, lookup_insert_eq.
  - by rewrite lookup_alter_ne, lookup_insert_ne.
Qed.
Lemma update_node_tables id cond f d c d' :
  update_node id cond f d = inr (c, d') →
  tables_of d' = mkTables (definitions d) (workflow_runs (wk_rt d)) (turns (wk_rt d)) (attempts d)
    (upd id cond f (node_executions d)) (graph_transitions d) (blockers d).
Proof. intros [-> _]%update_node_inr. done. Qed.

Section commands.
Context (jc : string → bool) (jv : string → json → bool) (ph : StartPayload → string).

(** The run state an outcome of the active visit leads to. *)
Definition next_run_state (d : WorkDB) (a : Attempt) (node : NodeExecution) (o : string) : RunState :=
  match route (at_GraphSnapshot a) (ne_NodeKey node) o with
  | Some (Some _) => if cg_MaxTransitions (at_GraphSnapshot a) <=? transition_count d (ne_AttemptID node)
                     then RunFailed else RunRunning
  | _ => RunSucceeded
  end.
Definition reported (reason : string) (node : NodeExecution) : bool :=
  String.eqb reason "completed" && bool_decide (is_Some (ne_CompletionOutcome node)) &&
  bool_decide (is_Some (ne_CompletionReportedAt node)).
(** The effect of settling a graph turn. *)
Definition turn_settled (d : WorkDB) (turnID : uuid) (reason : string) (st : RunState) (d' : WorkDB) : Prop :=
  ∃ turn k node a turn' node' r',
    turns (wk_rt d) !! turnID = Some turn ∧ turn_State turn = TurnRunning ∧ turn_NodeExecutionID turn = Some k ∧
    node_executions d !! k = Some node ∧ ne_State node = NodeRunning ∧ attempts d !! turn_RunID turn = Some a ∧
    turns (wk_rt d') !! turnID = Some turn' ∧ node_executions d' !! k = Some node' ∧
    workflow_runs (wk_rt d') !! turn_RunID turn = Some r' ∧ run_State r' = st ∧
    if reported reason node
    then turn_State turn' = TurnSucceeded ∧ ne_State node' = NodeSucceeded ∧
         ∃ o, ne_CompletionOutcome node = Some o ∧ st = next_run_state d a node o
    else turn_State turn' = (if String.eqb reason "aborted" then TurnAborted else TurnFailed) ∧
         ne_State node' = NodeFailed ∧ st = (if String.eqb reason "aborted" then RunAborted else RunFailed).

Lemma CompleteTurn_inr now turnID reason cf opf d st d' :
  tables_wf jc (tables_of d) → CompleteTurn now turnID reason cf opf d = inr (st, d') →
  gstep jc (tables_of d) (tables_of d') ∧ turn_settled d turnID reason st d'.
Proof.
  intros W H. unfold CompleteTurn in H.
  apply tx_bind_inr in H as (dd & d1 & [<- <-]%tx_get_inr & H).
  apply tx_bind_inr in H as (turn & d1 & [Hturn <-]%tx_opt_inr & H).
  apply tx_bind_inr in H as (k & d1 & [Hk <-]%tx_opt_inr & H).
  apply tx_bind_inr in H as (node & d1 & [Hnode <-]%tx_opt_inr & H).
  apply tx_bind_inr in H as (a & d1 & [Ha <-]%tx_opt_inr & H).
  apply tx_bind_inr in H as (u & d1 & [Hrun <-]%tx_require_inr & H).
  apply bool_decide_eq_true_1 in Hrun.
  destruct (s_turn _ _ _ _ (g_side _ _ _ _ _ _ _ _ W) turnID turn Hturn k Hk) as (n & Hn & Hrid & Hst).
  cbn [tables_of tb_nodes] in Hn. assert (n = node) as -> by congruence. specialize (Hst Hrun).
  assert (ne_ID node = k) as Hid by (by eapply (g_node_id _ _ _ _ _ _ _ _ W)).
  assert (∀ to, isTurnTerminal to = true → settles (tables_of d) k
    (alter (with_turn_state now to) turnID (turns (wk_rt d))) (blockers d)) as Hset.
  { intros to Hto. rewrite (alter_to_insert _ _ _ turn Hturn). by eapply settles_turn. }
  assert (negb (String.eqb reason "completed") || bool_decide (ne_CompletionOutcome node = None)
    || bool_decide (ne_CompletionReportedAt node = None) = negb (reported reason node)) as Hcase.
  { unfold reported. destruct (String.eqb _ _), (ne_CompletionOutcome node), (ne_CompletionReportedAt node); done. }
  rewrite Hcase in H. destruct (reported reason node) eqn:Hrep; simpl in H.
  - unfold reported in Hrep. destruct (ne_CompletionOutcome node) as [o|] eqn:Ho; [|by rewrite andb_false_r in Hrep].
    apply tx_bind_inr in H as ([] & d1 & H1 & H). rewrite settle_turn_row_eq in H1. injection H1 as <-.
    apply tx_bind_inr in H as (c & d2 & H2%update_node_tables & H). rewrite Hrid in H.
    set (n' := with_node_state NodeSucceeded (ne_StartedAt node) (Some now) node).
    eapply (advanceGraphTx_step jc (tables_of d) k node n' _ _ W) in H as ((Hg & Ht & Hn' & r' & Hr' & Hrs) & Hres);
      [|constructor; [exact Hn|by apply running_active|done|done|by apply (Hset TurnSucceeded)]|done|exact Ho|exact Ha
       |rewrite H2; cbn; by rewrite (upd_insert _ _ _ _ node Hn)|done|done|exact Ho].
    split; [done|]. exists turn, k, node, a, (with_turn_state now TurnSucceeded turn), n', r'. cbn in Ht, Hn', Hr'.
    rewrite Ht, lookup_alter_eq, Hturn, Hrid. unfold reported. rewrite Ho, Hrep. split_and!; try done. exists o. done.
  - assert (∃ to runTo, (if String.eqb reason "aborted" then (TurnAborted, RunAborted) else (TurnFailed, RunFailed))
      = (to, runTo)) as (to & runTo & Hto) by (destruct (String.eqb reason "aborted"); eauto).
    rewrite Hto in H.
    assert (isTurnTerminal to = true ∧ isTerminal runTo = true) as [Ht1 Ht2]
      by (destruct (String.eqb reason "aborted"); injection Hto as <- <-; done).
    apply tx_bind_inr in H as ([] & d1 & H1 & H). rewrite settle_turn_row_eq in H1. injection H1 as <-.
    apply tx_bind_inr in H as (c & d2 & H2%update_node_tables & H).
    apply tx_bind_inr in H as ([] & d3 & H3%update_run_inr & H).
    apply tx_bind_inr in H as ([] & d4 & H4 & H). rewrite update_attempt_eq in H4. injection H4 as <-.
    apply tx_bind_inr in H as ([] & d5 & H5 & H). frame H5. apply tx_ret_inr in H as [<- <-].
    destruct (run_of_active _ _ _ _ W Hn (running_active _ Hst)) as (r & Hr & _).
    injection H2 as Ad Ar At Aa An Atr Ab. injection H3 as Bd Br Bt Ba Bn Btr Bb.
    assert (tables_of d5 = mkTables (definitions d)
      (<[ne_AttemptID node := run_finished_to now runTo r]> (workflow_runs (wk_rt d)))
      (alter (with_turn_state now to) turnID (turns (wk_rt d)))
      (alter (finish_attempt now cf opf) (ne_AttemptID node) (attempts d))
      (<[k := with_node_state NodeFailed (ne_StartedAt node) (Some now) node]> (node_executions d))
      (graph_transitions d) (blockers d)) as HT.
    { rewrite E. unfold tables_of. cbn.
      rewrite Bd, Br, Bt, Ba, Bn, Btr, Bb, Ad, Ar, At, Aa, An, Atr, Ab. cbn. rewrite Hrid.
      by rewrite (upd_insert _ _ _ _ r Hr), (upd_insert _ _ _ _ node Hn). }
    split.
    + rewrite HT. eapply (step_fail jc (tables_of d) k node);
        [constructor; [done|by apply running_active|done|done|by apply Hset]|done|done|done].
    + injection HT as _ Hr' Ht' _ Hn' _ _. exists turn, k, node, a, (with_turn_state now to turn).
      do 2 eexists. rewrite Hr', Ht', Hn', Hrid, !lookup_insert_eq, lookup_alter_eq, Hturn, Hrep.
      split_and!; try done; by destruct (String.eqb reason "aborted"); injection Hto as <- <-.
Qed.

(** ** Preparing the active node *)
Lemma active_node_Some d att node :
  active_node d att = Some node → ∃ k, node_executions d !! k = Some node ∧ ne_AttemptID node = att ∧ active node.
Proof.
  unfold active_node, active_nodes. intros H.
  apply head_Some_elem_of, elem_of_select in H as (Hp & k & Hk).
  apply andb_true_iff in Hp as [Hp1%bool_decide_eq_true_1 Hp2]. eauto.
Qed.
(** Both kinds of blocker are opened on the visit of the attempt. *)
Definition opens (d : WorkDB) (itemID attemptID nodeID : uuid) (d' : WorkDB) : Prop :=
  ∃ b, bl_State b = BlockerOpen ∧ bl_NodeExecutionID b = Some nodeID ∧ bl_AttemptID b = attemptID ∧
    bl_WorkItemID b = itemID ∧ blockers d !! bl_ID b = None ∧
    (∀ j x, blockers d !! j = Some x → bl_WorkItemID x = bl_WorkItemID b → bl_State x = BlockerResolved) ∧
    tables_of d' = mkTables (definitions d) (workflow_runs (wk_rt d)) (turns (wk_rt d)) (attempts d)
      (node_executions d) (graph_transitions d) (<[bl_ID b := b]> (blockers d)).
Lemma createConsequenceBlockerTx_opens now i a n cs d u d' :
  createConsequenceBlockerTx now i a n cs d = inr (u, d') → opens d i a n d'.
Proof.
  unfold createConsequenceBlockerTx. intros (id & d1 & [-> ->]%new_uuid_inr & H)%tx_bind_inr.
  lazymatch type of H with insert_blocker ?b _ = _ => exists b end.
  by apply insert_blocker_inr in H as (-> & Hnone & Hopen).
Qed.
Lemma createHumanBlockerTx_opens now i a n node gate d u d' :
  createHumanBlockerTx now i a n node gate d = inr (u, d') → opens d i a n d'.
Proof.
  unfold createHumanBlockerTx. intros (id & d1 & [-> ->]%new_uuid_inr & H)%tx_bind_inr.
  apply tx_bind_inr in H as (u' & d1 & [_ <-]%tx_require_inr & H).
  lazymatch type of H with insert_blocker ?b _ = _ => exists b end.
  by apply insert_blocker_inr in H as (-> & Hnone & Hopen).
Qed.
(** A blocker, the node blocked, the run moved unless it is past waiting, and a
    timeline entry: a block step. *)
Lemma block_step d k node a itemID d1 d2 d3 d4 u st c cond f :
  tables_wf jc (tables_of d) → node_executions d !! k = Some node → ne_State node = NodePending →
  attempts d !! ne_AttemptID node = Some a → itemID = at_WorkItemID a →
  opens d itemID (ne_AttemptID node) k d1 →
  update_node k (λ _, true) (λ n, with_node_state NodeBlocked (st n) (ne_FinishedAt n) n) d1 = inr (c, d2) →
  update_run (ne_AttemptID node) cond f d2 = inr (u, d3) →
  (∀ r, run_matches NodePending (run_State r) → cond (run_State r) = true ∧ run_State (f r) = RunAwaitingApproval) →
  tables_of d4 = tables_of d3 → gstep jc (tables_of d) (tables_of d4).
Proof.
  intros W Hk Hst Ha -> (b & Hb1 & Hb2 & Hb3 & Hb4 & Hb5 & Hb6 & T1) T2%update_node_tables T3%update_run_inr Hf T4.
  destruct (run_of_active _ _ _ _ W Hk (pending_active _ Hst)) as (r & Hr & Hlive).
  injection T1 as Ad Ar At Aa An Atr Ab. injection T2 as Bd Br Bt Ba Bn Btr Bb.
  rewrite T4, T3, Bd, Br, Bt, Ba, Bn, Btr, Bb, Ad, Ar, At, Aa, An, Atr, Ab.
  rewrite (upd_insert _ _ _ _ r Hr), (upd_insert _ _ _ _ node Hk).
  pose proof (g_live _ _ _ _ _ _ _ _ W _ _ r Hk (pending_active _ Hst) Hr) as Hm. rewrite Hst in Hm.
  destruct (Hf r Hm) as [Hc Hf']. rewrite Hc. by eapply (step_block jc (tables_of d) k node).
Qed.

Lemma await_unstarted (f : Run → Run) r :
  (∀ r, run_State (f r) = RunAwaitingApproval) → run_matches NodePending (run_State r) →
  unstarted (run_State r) = true ∧ run_State (f r) = RunAwaitingApproval.
Proof. by intros Hf [->| ->]. Qed.

Lemma prepare_reentry_inr now a node kind d bl d' k :
  tables_wf jc (tables_of d) → node_executions d !! k = Some node → ne_ID node = k →
  attempts d !! ne_AttemptID node = Some a →
  prepare_reentry now (at_WorkItemID a) (ne_AttemptID node) node kind d = inr (bl, d') →
  match bl with None => d' = d | Some _ => gstep jc (tables_of d) (tables_of d') end.
Proof.
  intros W Hk Hid Ha H. unfold prepare_reentry in H. destruct (_ && _ && _) eqn:Hc; [|by inv_tx].
  apply andb_true_iff in Hc as [[Hst%bool_decide_eq_true_1 _]%andb_true_iff _].
  apply tx_bind_inr in H as (cs & d1 & H1 & H). read H1. case_bool_decide; [by inv_tx|].
  apply tx_bind_inr in H as (cf & d1 & H2 & H). read H2. destruct cf; [by inv_tx|].
  apply tx_bind_inr in H as (u1 & d1 & O1%createConsequenceBlockerTx_opens & H).
  apply tx_bind_inr in H as (u2 & d2 & O2 & H). apply tx_bind_inr in H as (u3 & d3 & O3 & H).
  apply tx_bind_inr in H as (u4 & d4 & O4 & H). frame O4. inv_tx. rewrite Hid in *.
  eapply (block_step d k node a _ d1 d2 d3 d4 _ ne_StartedAt); eauto using await_unstarted.
Qed.

Lemma prepare_human_step now a node def gate d x d' k :
  tables_wf jc (tables_of d) → node_executions d !! k = Some node → ne_ID node = k →
  attempts d !! ne_AttemptID node = Some a →
  prepare_human now (at_WorkItemID a) (ne_AttemptID node) node def gate d = inr (x, d') →
  gstep jc (tables_of d) (tables_of d').
Proof.
  intros W Hk Hid Ha H. unfold prepare_human in H. case_bool_decide as Hst; [|inv_tx; apply step_idle].
  apply tx_bind_inr in H as (u1 & d1 & O1%createHumanBlockerTx_opens & H).
  apply tx_bind_inr in H as (u2 & d2 & O2 & H). apply tx_bind_inr in H as (u3 & d3 & O3 & H).
  apply tx_bind_inr in H as (u4 & d4 & O4 & H). frame O4. inv_tx. rewrite Hid in *.
  eapply (block_step d k node a _ d1 d2 d3 d4 _ (λ n, coalesce (ne_StartedAt n) (Some now)));
    eauto using await_unstarted.
Qed.

Lemma node_has_turn_false r k :
  node_has_turn r (Some k) = false → ∀ j u, turns r !! j = Some u → turn_NodeExecutionID u ≠ Some k.
Proof.
  unfold node_has_turn. intros H j u Hj Hu. rewrite exists_row_false in H. specialize (H j u Hj).
  rewrite Hu in H. by rewrite bool_decide_eq_true_2 in H.
Qed.
Lemma prepare_agent_step now itemID node d x d' k :
  tables_wf jc (tables_of d) → node_executions d !! k = Some node → ne_ID node = k → active node →
  ne_State node ≠ NodeBlocked →
  prepare_agent now itemID (ne_AttemptID node) node d = inr (x, d') →
  gstep jc (tables_of d) (tables_of d').
Proof.
  intros W Hk Hid Hact Hnb H. unfold prepare_agent in H. case_bool_decide as Hst; [inv_tx; apply step_idle|].
  assert (ne_State node = NodePending) as Hp by (unfold active in Hact; by destruct (ne_State node)).
  apply tx_bind_inr in H as (model & d1 & [_ <-]%tx_opt_inr & H).
  apply tx_bind_inr in H as (u & d1 & [_ <-]%tx_require_inr & H).
  apply tx_bind_inr in H as (dd & d1 & [<- <-]%tx_get_inr & H).
  apply tx_bind_inr in H as (run & d1 & [Hrun <-]%tx_opt_inr & H).
  apply tx_bind_inr in H as (turn & d1 & (r1 & Ht & ->)%lift_rt_inr & H).
  apply insertTurn_row in Ht as (Ht & Hnone & Hhas & ->).
  apply tx_bind_inr in H as (c & d2 & T2%update_node_tables & H).
  apply tx_bind_inr in H as (u3 & d3 & T3%update_run_inr & H).
  apply tx_bind_inr in H as (e & d4 & (r4 & T4%insertEvent_row & ->)%lift_rt_inr & H). subst r4.
  apply tx_bind_inr in H as (u5 & d5 & T5 & H). frame T5. inv_tx. rewrite Hid in *.
  destruct (run_of_active _ _ _ _ W Hk Hact) as (r & Hr & Hlive). cbn in T2.
  injection T2 as Bd Br Bt Ba Bn Btr Bb. injection T3 as Cd Cr Ct Ca Cn Ctr Cb.
  rewrite E. unfold tables_of at 2. cbn.
  rewrite Cd, Cr, Ct, Ca, Cn, Ctr, Cb, Bd, Br, Bt, Ba, Bn, Btr, Bb.
  rewrite (upd_insert _ _ _ _ r Hr), (upd_insert _ _ _ _ node Hk), Hp.
  eapply (step_start jc (tables_of d) k node); try done.
  - pose proof (g_live _ _ _ _ _ _ _ _ W _ _ r Hk Hact Hr) as Hm. rewrite Hp in Hm.
    by destruct Hm as [Hm|Hm]; rewrite Hm.
  - by rewrite Ht.
  - by rewrite Ht.
  - by rewrite Ht.
  - by apply node_has_turn_false.
Qed.

Lemma PrepareNode_step now attemptID d x d' :
  tables_wf jc (tables_of d) → PrepareNode now attemptID d = inr (x, d') → gstep jc (tables_of d) (tables_of d').
Proof.
  intros W H. unfold PrepareNode in H.
  apply tx_bind_inr in H as (dd & d1 & [<- <-]%tx_get_inr & H).
  apply tx_bind_inr in H as (node & d1 & [Hnode <-]%tx_opt_inr & H).
  apply active_node_Some in Hnode as (k & Hk & <- & Hact). case_bool_decide as Hb; [inv_tx; apply step_idle|].
  pose proof (g_node_id _ _ _ _ _ _ _ _ W k node Hk) as Hid.
  apply tx_bind_inr in H as (a & d1 & [Ha <-]%tx_opt_inr & H).
  apply tx_bind_inr in H as (run & d1 & [_ <-]%tx_opt_inr & H).
  apply tx_bind_inr in H as (u & d1 & [_ <-]%tx_require_inr & H).
  apply tx_bind_inr in H as (def & d1 & [_ <-]%tx_opt_inr & H).
  apply tx_bind_inr in H as (bl & d1 & Hre & H). eapply prepare_reentry_inr in Hre; [|done..].
  destruct bl as [n|]; [by inv_tx|]. subst d1. destruct (String.eqb _ _).
  - apply tx_bind_inr in H as (gate & d1 & [_ <-]%tx_opt_inr & H).
    apply tx_bind_inr in H as (n & d1 & Hh & H). inv_tx. by eapply prepare_human_step.
  - apply tx_bind_inr in H as ([n t] & d1 & Hh & H). inv_tx. by eapply prepare_agent_step.
Qed.

(** ** Completion reports *)
Lemma RecordCompletionReport_inv now turnID report d u d' :
  RecordCompletionReport jv now turnID report d = inr (u, d') →
  ∃ turn k n a def out refs d2, turns (wk_rt d) !! turnID = Some turn ∧ turn_NodeExecutionID turn = Some k ∧
    node_executions d !! k = Some n ∧ ne_State n = NodeRunning ∧ ne_CompletionReportedAt n = None ∧
    attempts d !! ne_AttemptID n = Some a ∧ findNode (at_GraphSnapshot a) (ne_NodeKey n) = Some def ∧
    cn_Kind def = NodeAgentTask ∧ cr_Outcome report ∈ cn_Outcomes def ∧
    node_executions d2 = <[k := with_report now (cr_Outcome report) (cr_Summary report) out refs n]> (node_executions d) ∧
    d2 = set_nodes (node_executions d2) d ∧ tables_of d' = tables_of d2.
Proof.
  intros H. unfold RecordCompletionReport in H.
  apply tx_bind_inr in H as (u0 & d1 & [_ <-]%tx_require_inr & H).
  apply tx_bind_inr in H as (dd & d1 & [<- <-]%tx_get_inr & H).
  apply tx_bind_inr in H as (turn & d1 & [Hturn <-]%tx_opt_inr & H).
  apply tx_bind_inr in H as (k & d1 & [Hk <-]%tx_opt_inr & H).
  apply tx_bind_inr in H as (n & d1 & [Hn <-]%tx_opt_inr & H).
  apply tx_bind_inr in H as (a & d1 & [Ha <-]%tx_opt_inr & H).
  apply tx_bind_inr in H as (u1 & d1 & [Hrun%bool_decide_eq_true_1 <-]%tx_require_inr & H).
  apply tx_bind_inr in H as (def & d1 & [Hdef <-]%tx_opt_inr & H).
  apply tx_bind_inr in H as (u2 & d1 & [Hkind%String.eqb_eq <-]%tx_require_inr & H).
  apply tx_bind_inr in H as (u3 & d1 & [Hout%bool_decide_eq_true_1 <-]%tx_require_inr & H).
  apply tx_bind_inr in H as (out & d1 & [_ <-]%tx_opt_inr & H).
  apply tx_bind_inr in H as (refs & d1 & Hrefs & H). read Hrefs.
  apply tx_bind_inr in H as (c & d2 & [Hd2 Hc]%update_node_inr & H). rewrite Hn in Hc.
  apply tx_bind_inr in H as (u4 & d3 & [Hone%Z.eqb_eq <-]%tx_require_inr & H). frame H.
  destruct (bool_decide (ne_State n = NodeRunning) && bool_decide (ne_CompletionReportedAt n = None)) eqn:Hcond; [|lia].
  rewrite (upd_insert _ _ _ _ n Hn), Hcond in Hd2. apply andb_true_iff in Hcond as [_ Hnone%bool_decide_eq_true_1].
  exists turn, k, n, a, def, out, refs, d2. rewrite Hd2 in *. split_and!; done.
Qed.
Lemma RecordCompletionReport_step now turnID report d u d' :
  RecordCompletionReport jv now turnID report d = inr (u, d') → gstep jc (tables_of d) (tables_of d').
Proof.
  intros (turn & k & n & a & def & out & refs & d2 & _ & _ & Hn & Hrun & _ & _ & _ & _ & _ & Hnodes & Hd2 & E)%RecordCompletionReport_inv.
  rewrite E, Hd2. unfold tables_of at 2. cbn. rewrite Hnodes. by eapply (step_report jc (tables_of d) k n).
Qed.

(** ** Answering a blocker *)
Lemma completeHumanNodeTx_step now b k outcome response refs actor d0 d u d' bid b' :
  tables_wf jc (tables_of d0) → blockers d0 !! bid = Some b → bl_State b = BlockerOpen →
  bl_NodeExecutionID b = Some k → b' = with_resolution now outcome response actor b →
  tables_of d = mkTables (definitions d0) (workflow_runs (wk_rt d0)) (turns (wk_rt d0)) (attempts d0)
    (node_executions d0) (graph_transitions d0) (<[bid := b']> (blockers d0)) →
  completeHumanNodeTx now b k outcome response refs actor d = inr (u, d') →
  gstep jc (tables_of d0) (tables_of d').
Proof.
  intros W Hb Hopen Hbk -> Td H. unfold completeHumanNodeTx in H.
  apply tx_bind_inr in H as (dd & d1 & [<- <-]%tx_get_inr & H).
  apply tx_bind_inr in H as (node & d1 & [Hnode <-]%tx_opt_inr & H).
  apply tx_bind_inr in H as (u1 & d1 & [Hst%bool_decide_eq_true_1 <-]%tx_require_inr & H).
  injection Td as Ad Ar At Aa An Atr Ab. rewrite An in Hnode.
  destruct (s_blocker _ _ _ _ (g_side _ _ _ _ _ _ _ _ W) bid b Hb) as (k' & n & a & Hk' & Hn & Hat & Ha & Hai & _).
  cbn in Hn, Ha. assert (k' = k) as -> by congruence. assert (n = node) as -> by congruence.
  pose proof (g_node_id _ _ _ _ _ _ _ _ W k node Hnode) as Hid.
  apply tx_bind_inr in H as (c & d2 & T2%update_node_tables & H).
  apply tx_bind_inr in H as (u3 & d3 & T3 & H). frame T3. apply tx_bind_inr in H as (u4 & d4 & T4 & H). frame T4.
  apply tx_bind_inr in H as (st & d5 & T5 & H). inv_tx. rewrite Hat in T5.
  set (n' := with_node_state NodeSucceeded (ne_StartedAt node) (Some now)
               (with_report now outcome "Human response received" response refs node)).
  eapply (advanceGraphTx_step jc (tables_of d0) k node n' _ _ W); [..|exact T5]; [|done|done|by rewrite <- Hat| |done..].
  - constructor; [exact Hn|unfold active; by rewrite Hst|done|done|].
    by apply (settles_blocker (tables_of d0) k bid b (with_resolution now outcome response actor b)).
  - rewrite E0, E, T2, Ad, Ar, At, Aa, An, Atr, Ab. cbn. by rewrite (upd_insert _ _ _ _ node Hnode).
Qed.

Lemma RespondBlocker_inv now inp d x d' :
  RespondBlocker jv now inp d = inr (x, d') →
  ∃ b resp refs refresh, blockers d !! br_BlockerID inp = Some b ∧ bl_State b = BlockerOpen ∧
    br_Outcome inp ∈ bl_AllowedOutcomes b ∧
    (if String.eqb (bl_Kind b) "consequence_confirmation"
     then check_confirmation b (br_ConfirmedInvocationIDs inp) d = inr (refresh, d) else refresh = None) ∧
    match refresh with
    | Some cs => x = RefreshRequired ∧ d' = set_blocker (with_required cs b) d
    | None =>
        let b' := with_resolution now (br_Outcome inp) resp (br_ActorIdentityID inp) b in
        x = Responded (answered (br_Outcome inp) resp b) ∧ ∃ k, bl_NodeExecutionID b = Some k ∧
        if String.eqb (bl_Kind b) "consequence_confirmation"
        then ∃ c d2 u d3,
          update_node k (λ n, bool_decide (ne_State n = NodeBlocked))
            (λ n, with_node_state NodePending (ne_StartedAt n) (ne_FinishedAt n) n) (set_blocker b' d) = inr (c, d2) ∧
          update_run (bl_AttemptID b) (λ s, bool_decide (s = RunAwaitingApproval)) (run_to now RunRunning) d2 = inr (u, d3) ∧
          tables_of d' = tables_of d3
        else ∃ u, completeHumanNodeTx now b k (br_Outcome inp) resp refs (br_ActorIdentityID inp) (set_blocker b' d)
               = inr (u, d')
    end.
Proof.
  intros H. unfold RespondBlocker in H.
  apply tx_bind_inr in H as (u0 & d1 & [_ <-]%tx_require_inr & H).
  apply tx_bind_inr in H as (dd & d1 & [<- <-]%tx_get_inr & H).
  apply tx_bind_inr in H as (b & d1 & [Hb <-]%tx_opt_inr & H).
  apply tx_bind_inr in H as (u1 & d1 & [Hopen%bool_decide_eq_true_1 <-]%tx_require_inr & H).
  apply tx_bind_inr in H as (u2 & d1 & [Hout%bool_decide_eq_true_1 <-]%tx_require_inr & H).
  apply tx_bind_inr in H as (resp & d1 & [_ <-]%tx_opt_inr & H).
  apply tx_bind_inr in H as (u3 & d1 & [_ <-]%tx_require_inr & H).
  apply tx_bind_inr in H as (u4 & d1 & [_ <-]%tx_require_inr & H).
  apply tx_bind_inr in H as (refs & d1 & Hrefs & H). read Hrefs.
  apply tx_bind_inr in H as (refresh & d1 & Href & H). pose proof Href as Href'. read Href'.
  exists b, resp, refs, refresh. split_and!; [done|done|done| |].
  { destruct (String.eqb _ _); [done|]. by apply tx_ret_inr in Href as [<- _]. }
  destruct refresh as [cs|].
  - apply tx_bind_inr in H as (u5 & d1 & <-%tx_modify_inr & H). by apply tx_ret_inr in H as [<- <-].
  - apply tx_bind_inr in H as (dd & d1 & [<- <-]%tx_get_inr & H).
    apply tx_bind_inr in H as (u5 & d1 & [_ <-]%tx_require_inr & H).
    apply tx_bind_inr in H as (u6 & d1 & <-%tx_modify_inr & H).
    apply tx_bind_inr in H as (k & d1 & [Hk <-]%tx_opt_inr & H).
    apply tx_bind_inr in H as (u7 & d1 & H1 & H). apply tx_ret_inr in H as [<- <-].
    split; [done|]. exists k. split; [done|]. destruct (String.eqb _ _); [|by exists u7].
    apply tx_bind_inr in H1 as (c & d2 & T2 & H1). apply tx_bind_inr in H1 as (u8 & d3 & T3 & H1). frame H1.
    by exists c, d2, u8, d3.
Qed.
Lemma RespondBlocker_step now inp d x d' :
  tables_wf jc (tables_of d) → RespondBlocker jv now inp d = inr (x, d') → gstep jc (tables_of d) (tables_of d').
Proof.
  intros W (b & resp & refs & refresh & Hb & Hopen & _ & _ & H)%RespondBlocker_inv.
  pose proof (s_blocker_id _ _ _ _ (g_side _ _ _ _ _ _ _ _ W) _ b Hb) as Hbid.
  destruct (s_blocker _ _ _ _ (g_side _ _ _ _ _ _ _ _ W) _ b Hb) as (k & n & a & Hk & Hn & Hat & Ha & Hai & Hst).
  cbn in Hn, Ha. specialize (Hst Hopen). destruct refresh as [cs|].
  { destruct H as [_ ->]. unfold tables_of at 2. cbn. rewrite Hbid. by eapply (step_refresh jc (tables_of d)). }
  destruct H as (_ & k' & Hk' & H). assert (k' = k) as -> by congruence. destruct (String.eqb (bl_Kind b) _).
  - destruct H as (c & d2 & u8 & d3 & T2%update_node_tables & T3%update_run_inr & E).
    assert (active n) as Hact by (unfold active; by rewrite Hst).
    destruct (run_of_active _ _ _ _ W Hn Hact) as (r & Hr & Hlive).
    injection T2 as Bd Br Bt Ba Bn Btr Bb. rewrite E, T3, Bd, Br, Bt, Ba, Bn, Btr, Bb. cbn.
    rewrite Hat, (upd_insert _ _ _ _ r Hr), (upd_insert _ _ _ _ n Hn), Hst, Hbid. cbn.
    eapply (step_resume jc (tables_of d) k n).
    + constructor; [exact Hn|exact Hact|done|done|].
      by apply (settles_blocker (tables_of d) k _ b (with_resolution now (br_Outcome inp) resp (br_ActorIdentityID inp) b)).
    + done.
    + pose proof (g_live _ _ _ _ _ _ _ _ W _ _ r Hn Hact Hr) as Hm. rewrite Hst in Hm. simpl in Hm. by rewrite Hm.
  - destruct H as [u H]. eapply (completeHumanNodeTx_step now b k); [exact W|exact Hb|done|done|reflexivity| |exact H].
    unfold tables_of, set_blocker. cbn. by rewrite Hbid.
Qed.

Lemma SaveFeedback_step now inp d x d' :
  SaveFeedback now inp d = inr (x, d') → gstep jc (tables_of d) (tables_of d').
Proof.
  intros H. assert (frames (SaveFeedback now inp)) as Hf by (unfold SaveFeedback; keeps_tac).
  rewrite (Hf _ _ _ H). apply step_idle.
Qed.

(** ** New attempts *)
Lemma latest_of_elem l x : latest_of l = Some x → x ∈ l.
Proof.
  revert x. induction l as [|y l IH]; intros x Hx; [done|].
  change (match latest_of l with None => Some y | Some z => if newer y z then Some y else Some z end = Some x) in Hx.
  destruct (latest_of l) as [z|]; [destruct (newer y z)|]; injection Hx as <-; [left|right; auto|left].
Qed.
Lemma resolveForAttempt_inr key version d x d' :
  tables_wf jc (tables_of d) → resolveForAttempt jc key version d = inr (x, d') →
  d' = d ∧ definitions d !! df_ID x = Some x ∧ graph_valid jc (cs_Graph (df_Spec x)).
Proof.
  intros W H. pose proof (reads_resolveForAttempt jc key version d x d' H) as <-. split; [done|].
  unfold resolveForAttempt in H.
  apply tx_bind_inr in H as (dd & d1 & [<- <-]%tx_get_inr & H).
  apply tx_bind_inr in H as (y & d1 & [Hy <-]%tx_opt_inr & H).
  apply tx_bind_inr in H as (u & d1 & [_ <-]%tx_require_inr & H).
  apply tx_bind_inr in H as (u' & d1 & [_ <-]%tx_require_inr & H).
  destruct (validateCanonicalSpecForAttempt jc y (df_Spec y)) as [|[]] eqn:Hv; [inv_tx|]. apply tx_ret_inr in H as [-> _]. split.
  - assert (∃ k, definitions d !! k = Some x) as [k Hk].
    { destruct (String.eqb version EmptyString).
      - apply latest_of_elem, elem_of_select in Hy as [_ ?]. done.
      - unfold getDefinition in Hy. apply head_Some_elem_of, elem_of_select in Hy as [_ ?]. done. }
    by rewrite (g_def_id _ _ _ _ _ _ _ _ W k x Hk).
  - exists (df_Spec x). split; [done|]. unfold validateCanonicalSpecForAttempt in Hv. inv_res.
    by apply ValidateGraph_contract.
Qed.

(** The attempt, its run and the entry visit are added. *)
Definition attempt_added (d : WorkDB) (id itemID : uuid) (d' : WorkDB) : Prop :=
  ∃ a r m, at_ID a = id ∧ at_WorkItemID a = itemID ∧ run_State r = RunPending ∧ attempts d !! id = None ∧
    tables_of d' = mkTables (definitions d) (<[id := r]> (workflow_runs (wk_rt d))) (turns (wk_rt d))
      (<[id := a]> (attempts d)) (<[ne_ID m := m]> (node_executions d)) (graph_transitions d) (blockers d).
Lemma createAttemptTx_step now inp d u d' :
  tables_wf jc (tables_of d) → definitions d !! df_ID (ci_Resolved inp) = Some (ci_Resolved inp) →
  graph_valid jc (cs_Graph (df_Spec (ci_Resolved inp))) →
  createAttemptTx now inp d = inr (u, d') →
  gstep jc (tables_of d) (tables_of d') ∧ attempt_added d (ci_ID inp) (ci_WorkItemID inp) d'.
Proof.
  intros W Hdef Hval H. unfold createAttemptTx in H.
  apply tx_bind_inr in H as (pool & d1 & H1 & H). read H1.
  apply tx_bind_inr in H as (models & d1 & H2 & H). read H2.
  apply tx_bind_inr in H as (dd & d1 & [<- <-]%tx_get_inr & H).
  apply tx_bind_inr in H as ([vid v] & d1 & H3 & H).
  assert (d1 = d) as ->.
  { destruct (String.eqb (ci_RevisedFromAttemptID inp) EmptyString); inv_tx; done. }
  clear H3. apply tx_bind_inr in H as (trig & d1 & H4 & H). read H4.
  apply tx_bind_inr in H as ([] & d1 & H5 & H). unfold insert_run in H5.
  apply tx_bind_inr in H5 as (dd & d2 & [<- <-]%tx_get_inr & H5).
  apply tx_bind_inr in H5 as (u1 & d2 & [_ <-]%tx_require_inr & H5).
  apply tx_bind_inr in H5 as (u2 & d2 & [Hrun%bool_decide_eq_true_1 <-]%tx_require_inr & H5).
  apply tx_bind_inr in H5 as (u3 & d2 & [_ <-]%tx_require_inr & <-%tx_modify_inr).
  apply tx_bind_inr in H as ([] & d1 & H6 & H). unfold insert_attempt in H6.
  apply tx_bind_inr in H6 as (dd & d2 & [<- <-]%tx_get_inr & H6).
  apply tx_bind_inr in H6 as (u4 & d2 & [Hatt%bool_decide_eq_true_1 <-]%tx_require_inr & H6).
  do 4 (apply tx_bind_inr in H6 as (? & d2 & [_ <-]%tx_require_inr & H6)). apply tx_modify_inr in H6 as <-.
  apply tx_bind_inr in H as ([] & d1 & <-%tx_modify_inr & H).
  apply tx_bind_inr in H as ([] & d1 & H7 & H). frame H7. cbn in E.
  apply tx_bind_inr in H as (entry & d2 & [Hentry <-]%tx_opt_inr & H).
  apply tx_bind_inr in H as (exec & d2 & H8 & H).
  apply insertNodeExecutionTx_inr in H8
    as (m & Mid & Mat & Mkey & Mkind & Mvis & Mseq & Mst & _ & _ & Mnone & T8).
  apply tx_bind_inr in H as ([] & d3 & H9 & H). frame H9. frame H.
  injection E as Ad Ar At Aa An Atr Ab. unfold attempt_added.
  rewrite E1, E0, T8, Ad, Ar, At, Aa, An, Atr, Ab. rewrite An in Mnone. subst exec.
  match goal with |- context [<[ci_ID inp := ?a]> (attempts d)] => set (att := a) end.
  match goal with |- context [<[ci_ID inp := ?a]> (workflow_runs _)] => set (r := a) end.
  pose proof (findNode_key _ _ _ Hentry) as Hek.
  split; [|by exists att, r, m].
  eapply (step_new jc (tables_of d) att r m entry); try done; cbn.
  - by rewrite Mkey.
  - by rewrite Mkey, Hek.
Qed.

(** The item a start inserts, and what follows the attempt's creation. *)
Definition start_item (now : timestamp) (inp : StartInput) (hash : string) (item : uuid) (w : WorkItem) : Prop :=
  wi_ID w = item ∧ start_key_matches inp w = true ∧ wi_StartPayloadHash w = hash.
Lemma Start_inv now inp d x d' :
  Start jc ph now inp d = inr (x, d') →
  ∃ refs hash, start_refs inp d = inr (refs, d) ∧ startPayloadHash ph inp refs d = inr (hash, d) ∧
  match existing_start d inp with
  | Some w => wi_StartPayloadHash w = hash ∧ x = (wi_ID w, false) ∧ d' = d
  | None => ∃ res w c d1 d3, resolveForAttempt jc (st_WorkflowKey inp) (st_WorkflowVersion inp) d = inr (res, d) ∧
      x = (wi_ID w, true) ∧ tables_of d1 = tables_of d ∧ work_items d1 = work_items d ∧
      work_items d !! wi_ID w = None ∧ start_item now inp hash (wi_ID w) w ∧
      ci_Resolved c = res ∧ ci_WorkItemID c = wi_ID w ∧
      createAttemptTx now c (set_work_items (<[wi_ID w := w]> (work_items d1)) d1) = inr ((), d3) ∧
      tables_of d' = tables_of d3 ∧
      work_items d' = alter (set_current_attempt (ci_ID c)) (wi_ID w) (work_items d3)
  end.
Proof.
  intros H. unfold Start in H.
  apply tx_bind_inr in H as (u0 & d1 & [_ <-]%tx_require_inr & H).
  apply tx_bind_inr in H as (u1 & d1 & H1 & H). read H1.
  apply tx_bind_inr in H as (u2 & d1 & [_ <-]%tx_require_inr & H).
  apply tx_bind_inr in H as (refs & d1 & H2 & H). pose proof H2 as H2'. read H2'.
  apply tx_bind_inr in H as (hash & d1 & H3 & H). pose proof H3 as H3'. read H3'.
  exists refs, hash. split_and!; [done|done|]. clear H1 H2 H3.
  apply tx_bind_inr in H as (dd & d1 & [<- <-]%tx_get_inr & H).
  destruct (existing_start d inp) as [w|].
  { apply tx_bind_inr in H as (u & d1 & [Hh%String.eqb_eq <-]%tx_require_inr & H).
    by apply tx_ret_inr in H as [<- <-]. }
  apply tx_bind_inr in H as (res & d1 & H4 & H). pose proof H4 as H4'. read H4'.
  apply tx_bind_inr in H as (item & d1 & [_ ->]%new_uuid_inr & H).
  apply tx_bind_inr in H as (att & d2 & [_ ->]%new_uuid_inr & H).
  apply tx_bind_inr in H as (src & d3 & H7 & H). read H7.
  apply tx_bind_inr in H as (dd & d3 & [<- <-]%tx_get_inr & H).
  apply tx_bind_inr in H as (u9 & d3 & [_ <-]%tx_require_inr & H).
  apply tx_bind_inr in H as (u3 & d3 & [Hnone%bool_decide_eq_true_1 <-]%tx_require_inr & H).
  apply tx_bind_inr in H as (u4 & d3 & [_ <-]%tx_require_inr & H).
  apply tx_bind_inr in H as (u5 & d3 & <-%tx_modify_inr & H).
  apply tx_bind_inr in H as ([] & d3 & H8 & H).
  apply tx_bind_inr in H as (u7 & d4 & <-%tx_modify_inr & H).
  apply tx_bind_inr in H as (u8 & d5 & ->%appendTimelineTx_inr & H). apply tx_ret_inr in H as [<- <-].
  match type of H8 with createAttemptTx _ ?c (set_work_items (<[_ := ?w]> _) ?d1) = _ => exists res, w, c, d1, d3 end.
  split_and!; try done. split_and!; [done| |done]. unfold start_key_matches. cbn. by rewrite !String.eqb_refl.
Qed.
Lemma Start_step now inp d x d' :
  tables_wf jc (tables_of d) → Start jc ph now inp d = inr (x, d') → gstep jc (tables_of d) (tables_of d').
Proof.
  intros W (refs & hash & _ & _ & H)%Start_inv. destruct (existing_start d inp) as [w|].
  { destruct H as (_ & _ & ->). apply step_idle. }
  destruct H as (res & w & c & d1 & d3 & Hres & _ & E & Ei & _ & _ & <- & _ & H & E' & _).
  apply resolveForAttempt_inr in Hres as (_ & Hdef & Hval); [|done]. rewrite E', <- E.
  eapply createAttemptTx_step in H; [exact (proj1 H)| | |exact Hval].
  - change (tables_wf jc (tables_of d1)). by rewrite E.
  - cbn. injection E as -> _ _ _ _ _ _. done.
Qed.

Lemma CreateRevision_inv now inp d x d' :
  CreateRevision jc now inp d = inr (x, d') →
  ∃ key ver res item run cur c d1 d3, resolveForAttempt jc key ver d = inr (res, d) ∧
    work_items d !! ri_WorkItemID inp = Some item ∧ wi_CurrentAttemptID item = Some cur ∧
    workflow_runs (wk_rt d) !! cur = Some run ∧ run_State run = RunSucceeded ∧
    tables_of d1 = tables_of d ∧ work_items d1 = work_items d ∧ ci_Resolved c = res ∧
    ci_WorkItemID c = ri_WorkItemID inp ∧ createAttemptTx now c d1 = inr ((), d3) ∧ tables_of d' = tables_of d3 ∧
    work_items d' = alter (set_current_attempt (ci_ID c)) (ri_WorkItemID inp) (work_items d3).
Proof.
  intros H. unfold CreateRevision in H.
  apply tx_bind_inr in H as (u0 & d1 & [_ <-]%tx_require_inr & H).
  apply tx_bind_inr in H as ([[key ver] cur] & d1 & H1 & H). read H1.
  apply tx_bind_inr in H as (res & d1 & H4 & H). pose proof H4 as H4'. read H4'. unfold createRevisionTx in H.
  apply tx_bind_inr in H as (dd & d1 & [<- <-]%tx_get_inr & H).
  apply tx_bind_inr in H as (item & d1 & [Hitem <-]%tx_opt_inr & H).
  apply tx_bind_inr in H as (u2 & d1 & [Hcur%bool_decide_eq_true_1 <-]%tx_require_inr & H).
  apply tx_bind_inr in H as (run & d1 & [Hrun <-]%tx_opt_inr & H).
  apply tx_bind_inr in H as (u3 & d1 & [Hsucc%bool_decide_eq_true_1 <-]%tx_require_inr & H).
  apply tx_bind_inr in H as (cs & d1 & H5 & H). read H5.
  apply tx_bind_inr in H as (u4 & d1 & [_ <-]%tx_require_inr & H).
  apply tx_bind_inr in H as (att & d1 & [_ ->]%new_uuid_inr & H).
  apply tx_bind_inr in H as ([] & d3 & H8 & H).
  apply tx_bind_inr in H as (u7 & d4 & <-%tx_modify_inr & H).
  apply tx_bind_inr in H as (u8 & d5 & ->%appendTimelineTx_inr & H). apply tx_ret_inr in H as [_ <-].
  match type of H8 with createAttemptTx _ ?c ?d1 = _ => exists key, ver, res, item, run, cur, c, d1, d3 end.
  split_and!; done.
Qed.
Lemma CreateRevision_step now inp d x d' :
  tables_wf jc (tables_of d) → CreateRevision jc now inp d = inr (x, d') → gstep jc (tables_of d) (tables_of d').
Proof.
  intros W (key & ver & res & item & run & cur & c & d1 & d3 & Hres & _ & _ & _ & _ & E & _ & <- & _ & H & E' & _)%CreateRevision_inv.
  apply resolveForAttempt_inr in Hres as (_ & Hdef & Hval); [|done]. rewrite E', <- E.
  eapply createAttemptTx_step in H; [exact (proj1 H)| | |exact Hval].
  - by rewrite E.
  - injection E as -> _ _ _ _ _ _. done.
Qed.
End commands.
