(* ===== verification/WorkFacts.v ===== *)
(** Theorems about the work domain as a whole: the commands refine the abstract machine
    of graph execution, keep its invariant and never rewrite history, over any sequence
    of commands interleaved with the writes of the artifact service and the tool
    gateway. *)
From S2P Require Import Prelude Json Duration Runtime Workflow WorkflowFacts WorkData WorkGraph.
From S2P Require Import WorkCommands WorkValue WorkSteps WorkInv WorkMachine WorkSim.

Lemma frames_CreateValueModel now inp : frames (CreateValueModel now inp).
Proof.
  unfold CreateValueModel, validateValueModelInput. keeps_tac; apply keeps_reads; try apply reads_json_column;
    typeclasses eauto.
Qed.

(** * Sequences of commands *)
Inductive WorkOp :=
| OpStart (now : timestamp) (inp : StartInput)
| OpPrepareNode (now : timestamp) (attemptID : uuid)
| OpReport (now : timestamp) (turnID : uuid) (report : CompletionReport)
| OpCompleteTurn (now : timestamp) (turnID : uuid) (reason : string) (customer operator : option json)
| OpRespond (now : timestamp) (inp : BlockerResponseInput)
| OpFeedback (now : timestamp) (inp : FeedbackInput)
| OpRevision (now : timestamp) (inp : RevisionInput)
| OpValueModel (now : timestamp) (inp : ValueModelInput)
| OpExternal (arts : gmap string ArtifactRow) (invs : list Invocation).

(** The state a command leaves: a failed command is rolled back. *)
Definition committed {A} (m : WkTx A) (d : WorkDB) : WorkDB := (run_tx m d).2.

Section facts.
Context (jc : string → bool) (jv : string → json → bool) (ph : StartPayload → string).

Definition exec (op : WorkOp) : WorkDB → WorkDB :=
  match op with
  | OpStart now inp => committed (Start jc ph now inp)
  | OpPrepareNode now att => committed (PrepareNode now att)
  | OpReport now turn report => committed (RecordCompletionReport jv now turn report)
  | OpCompleteTurn now turn reason c o => committed (CompleteTurn now turn reason c o)
  | OpRespond now inp => committed (RespondBlocker jv now inp)
  | OpFeedback now inp => committed (SaveFeedback now inp)
  | OpRevision now inp => committed (CreateRevision jc now inp)
  | OpValueModel now inp => committed (CreateValueModel now inp)
  | OpExternal arts invs => set_external arts invs
  end.
Definition execs (ops : list WorkOp) (d : WorkDB) : WorkDB := foldl (λ d op, exec op d) d ops.
Definition work_wf (d : WorkDB) : Prop := tables_wf jc (tables_of d).

(** A relation that holds when nothing changes and when a command commits holds of
    every command. *)
Lemma committed_ind {A} (m : WkTx A) (P : WorkDB → WorkDB → Prop) d :
  P d d → (∀ a d', m d = inr (a, d') → P d d') → P d (committed m d).
Proof.
  intros Hr Hm. unfold committed, run_tx. destruct (m d) as [|[a d']] eqn:H; simpl; eauto.
Qed.
Lemma exec_step op d : work_wf d → gstep jc (tables_of d) (tables_of (exec op d)).
Proof.
  intros W. destruct op; simpl;
    try (apply (committed_ind _ (λ d d', gstep jc (tables_of d) (tables_of d'))); [apply step_idle|intros x d' H]).
  - by eapply Start_step.
  - by eapply PrepareNode_step.
  - by eapply RecordCompletionReport_step.
  - by eapply CompleteTurn_inr.
  - by eapply RespondBlocker_step.
  - by eapply SaveFeedback_step.
  - by eapply CreateRevision_step.
  - rewrite (frames_CreateValueModel _ _ _ _ _ H). apply step_idle.
  - apply step_idle.
Qed.
Lemma execs_ind (P : WorkDB → WorkDB → Prop) ops d :
  (∀ x, P x x) → (∀ x y z, P x y → P y z → P x z) → (∀ op x, work_wf x → P x (exec op x)) →
  work_wf d → work_wf (execs ops d) ∧ P d (execs ops d).
Proof.
  intros Hr Ht Hs. unfold execs. revert d. induction ops as [|op ops IH]; intros d W; simpl; [auto|].
  assert (work_wf (exec op d)) as W' by (eapply gstep_wf; [exact W|by apply exec_step]).
  destruct (IH _ W') as [W2 HP]. split; [done|]. eauto.
Qed.

Lemma execs_app ops1 ops2 d : execs (ops1 ++ ops2) d = execs ops2 (execs ops1 d).
Proof. apply foldl_app. Qed.
Lemma execs_wf ops d : work_wf d → work_wf (execs ops d).
Proof. intros W. by apply (execs_ind (λ _ _, True)). Qed.

(** C1. Refinement: from any well-formed database, each command of the work domain
    (start, node preparation, completion report, turn settlement, blocker response,
    feedback, revision, value model), whatever its input and whether it commits or fails, changes
    the runs, turns, attempts, node executions, transitions and blockers exactly as
    one step of the abstract graph machine [gstep]. *)
Theorem commands_refine_graph_machine (op : WorkOp) (d : WorkDB) :
  work_wf d → gstep jc (tables_of d) (tables_of (exec op d)).
Proof. apply exec_step. Qed.

(** C2. Invariant: [work_wf] is kept by every sequence of commands: an attempt has at
    most one active visit, it is live exactly while it has one, its run state agrees
    with that visit, a running visit has exactly one running turn and a blocked visit
    an open blocker (one per item), visits are numbered without clashes, every visit
    was reached from the entry node along edges of recorded outcomes, and no attempt
    follows more edges than its transition limit. *)
Theorem graph_execution_invariant (ops : list WorkOp) (d : WorkDB) : work_wf d → work_wf (execs ops d).
Proof. apply execs_wf. Qed.

(** Safety: no sequence of commands rewrites history. Terminal runs, the attempts
    they belong to, completed visits, settled turns and resolved blockers stay as
    they are; the identity of every row and the graph snapshot of every attempt are
    immutable; transitions are only appended. *)
Theorem history_is_immutable (ops : list WorkOp) (d : WorkDB) :
  work_wf d → extends (tables_of d) (tables_of (execs ops d)).
Proof.
  intros W. apply (execs_ind (λ x y, extends (tables_of x) (tables_of y)) ops d); [| | |done].
  - intros x. reflexivity.
  - intros x y z ? ?. by etrans.
  - intros op x Wx. eapply gstep_extends; [exact Wx|by apply exec_step].
Qed.

(** ** The visits of an attempt *)
(** [p] lists stored visits of the attempt in execution order, from the entry node,
    each but the last completed with an outcome whose edge leads to the next. *)
Record execution_path (d : WorkDB) (attemptID : uuid) (g : CanonicalGraph) (p : list NodeExecution) : Prop := {
  ep_entry : ∀ x, head p = Some x → ne_NodeKey x = cg_EntryNode g;
  ep_stored : ∀ i x, p !! i = Some x →
    node_executions d !! ne_ID x = Some x ∧ ne_AttemptID x = attemptID ∧ ne_ExecutionSeq x = Z.of_nat i + 1;
  ep_edges : ∀ i x y, p !! i = Some x → p !! S i = Some y → ne_State x = NodeSucceeded ∧
    ∃ o, ne_CompletionOutcome x = Some o ∧ route g (ne_NodeKey x) o = Some (Some (ne_NodeKey y)) }.

Lemma execution_path_snoc d att g p x y o :
  execution_path d att g p → last p = Some x → ne_State x = NodeSucceeded → ne_CompletionOutcome x = Some o →
  route g (ne_NodeKey x) o = Some (Some (ne_NodeKey y)) →
  node_executions d !! ne_ID y = Some y → ne_AttemptID y = att → ne_ExecutionSeq y = Z.of_nat (length p) + 1 →
  execution_path d att g (p ++ [y]).
Proof.
  intros [P1 P2 P3] Hlast Hst Ho Hr Hy Hya Hyseq. constructor.
  - destruct p as [|z p]; [done|]. exact P1.
  - intros i z Hz. apply lookup_app_Some in Hz as [Hz|[Hlen Hz]]; [by apply P2|].
    apply list_lookup_singleton_Some in Hz as [Hi <-]. split_and!; [done|done|lia].
  - intros i u v Hu Hv. apply lookup_app_Some in Hv as [Hv|[Hlen Hv]].
    + assert (is_Some (p !! i)) as [u' Hu'] by (apply lookup_lt_is_Some; apply lookup_lt_Some in Hv; lia).
      rewrite lookup_app_l in Hu by (by eapply lookup_lt_Some). by eapply P3.
    + apply list_lookup_singleton_Some in Hv as [Hi <-].
      rewrite last_lookup in Hlast. rewrite lookup_app_l in Hu by lia.
      replace (pred (length p)) with i in Hlast by lia. assert (u = x) as -> by congruence. eauto.
Qed.
Lemma path_exists d k n a : work_wf d → node_executions d !! k = Some n → attempts d !! ne_AttemptID n = Some a →
  ∃ p, execution_path d (ne_AttemptID n) (at_GraphSnapshot a) p ∧ last p = Some n ∧
    Z.of_nat (length p) = ne_ExecutionSeq n.
Proof.
  intros W. remember (Z.to_nat (ne_ExecutionSeq n)) as s eqn:Hs. revert k n Hs.
  induction s as [|s IH]; intros k n Hs Hk Ha; pose proof (g_pos _ _ _ _ _ _ _ _ W k n Hk); [lia|].
  pose proof (g_node_id _ _ _ _ _ _ _ _ W k n Hk) as Hid.
  destruct (g_path _ _ _ _ _ _ _ _ W k n Hk) as (a' & Ha' & Hr). cbn in Ha', Hr.
  assert (a' = a) as -> by congruence. destruct Hr as [[Hone Hkey]|(j & m & o & Hm & Hma & Hseq & Hst & Ho & Hr)].
  - exists [n]. split_and!; [|done|simpl; lia]. constructor.
    + by intros x [= <-].
    + intros i x [-> <-]%list_lookup_singleton_Some. split_and!; [congruence|done|lia].
    + intros i x y _ Hy. by apply list_lookup_singleton_Some in Hy as [? _].
  - destruct (IH j m ltac:(lia) Hm ltac:(congruence)) as (p & Hp & Hlast & Hlen). rewrite Hma in Hp.
    exists (p ++ [n]). split_and!; [|by rewrite last_snoc|rewrite length_app; simpl; lia].
    eapply execution_path_snoc; try done; [congruence|lia].
Qed.

(** Functional: every stored visit is the end of an execution path: the visits of
    its attempt with smaller sequence numbers are all there, without gaps, start at
    the entry node and follow, edge by edge, the routes of the recorded outcomes in
    the attempt's immutable graph; the path has at most one more visit than the
    graph's transition limit. *)
Theorem visit_history_is_graph_path (d : WorkDB) (k : uuid) (n : NodeExecution) :
  work_wf d → node_executions d !! k = Some n →
  ∃ a p, attempts d !! ne_AttemptID n = Some a ∧ execution_path d (ne_AttemptID n) (at_GraphSnapshot a) p ∧
    last p = Some n ∧ Z.of_nat (length p) ≤ 1 + cg_MaxTransitions (at_GraphSnapshot a) ∧
    ∀ j m, node_executions d !! j = Some m → ne_AttemptID m = ne_AttemptID n →
      ne_ExecutionSeq m ≤ ne_ExecutionSeq n → m ∈ p.
Proof.
  intros W Hk. destruct (g_node _ _ _ _ _ _ _ _ W k n Hk) as (a & _ & Ha & _). cbn in Ha.
  destruct (path_exists d k n a W Hk Ha) as (p & Hp & Hlast & Hlen). exists a, p. split_and!; try done.
  - rewrite Hlen. pose proof (g_seq_bound _ _ _ _ _ _ _ _ W k n Hk). pose proof (g_bound _ _ _ _ _ _ _ _ W _ a Ha). lia.
  - intros j m Hj Hma Hseq. pose proof (g_pos _ _ _ _ _ _ _ _ W j m Hj).
    assert (is_Some (p !! Z.to_nat (ne_ExecutionSeq m - 1))) as [x Hx] by (apply lookup_lt_is_Some; lia).
    destruct (ep_stored _ _ _ _ Hp _ _ Hx) as (Hx1 & Hx2 & Hx3).
    assert (j = ne_ID x) as -> by (eapply (g_seq_unique _ _ _ _ _ _ _ _ W); [done|exact Hx1|congruence|lia]).
    assert (m = x) as -> by congruence. by eapply list_elem_of_lookup_2.
Qed.

(** ** Routing *)
Lemma NoDup_fmap_inj {A B} (f : A → B) (l : list A) x y :
  NoDup (f <$> l) → x ∈ l → y ∈ l → f x = f y → x = y.
Proof.
  intros Hnd [i Hi]%list_elem_of_lookup_1 [j Hj]%list_elem_of_lookup_1 Hf.
  assert (i = j) as ->; [|congruence].
  eapply (NoDup_lookup (f <$> l)); [done|by rewrite list_lookup_fmap, Hi|by rewrite list_lookup_fmap, Hj, Hf].
Qed.
Lemma findNode_in g key : key ∈ cn_Key <$> cg_Nodes g → ∃ def, findNode g key = Some def.
Proof.
  intros (n & -> & Hn)%list_elem_of_fmap. unfold findNode.
  destruct (List.find _ (cg_Nodes g)) as [def|] eqn:Hf; [eauto|].
  apply list_elem_of_In in Hn. pose proof (List.find_none _ _ Hf n Hn) as Hx. simpl in Hx.
  by rewrite String.eqb_refl in Hx.
Qed.
Lemma is_edge_outcome_true key o e : is_edge_outcome key o e = true ↔ edge_key e = (key, o).
Proof.
  unfold is_edge_outcome, edge_key. rewrite andb_true_iff, !String.eqb_eq. split; [by intros [-> ->]|by intros [= -> ->]].
Qed.
Lemma is_terminal_outcome_true key o t : is_terminal_outcome key o t = true ↔ terminal_key t = (key, o).
Proof.
  unfold is_terminal_outcome, terminal_key. rewrite andb_true_iff, !String.eqb_eq.
  split; [by intros [-> ->]|by intros [= -> ->]].
Qed.
Lemma route_edge g key o e :
  NoDup ((edge_key <$> cg_Edges g) ++ (terminal_key <$> cg_TerminalOutcomes g)) →
  e ∈ cg_Edges g → edge_key e = (key, o) → route g key o = Some (Some (ce_To e)).
Proof.
  intros (Hnd & Hdis & _)%NoDup_app He Hek. unfold route.
  destruct (existsb (is_terminal_outcome key o) (cg_TerminalOutcomes g)) eqn:Hterm.
  - apply existsb_exists in Hterm as (t & Ht%list_elem_of_In & Htk%is_terminal_outcome_true).
    destruct (Hdis (key, o)); [rewrite <- Hek|rewrite <- Htk]; by apply list_elem_of_fmap_2.
  - destruct (List.find (is_edge_outcome key o) (cg_Edges g)) as [e'|] eqn:Hf.
    + apply List.find_some in Hf as [Hin' Hk'%is_edge_outcome_true]. apply list_elem_of_In in Hin'.
      by rewrite (NoDup_fmap_inj edge_key (cg_Edges g) e' e) by (done || congruence).
    + apply list_elem_of_In in He. pose proof (List.find_none _ _ Hf e He) as Hx.
      apply is_edge_outcome_true in Hek. congruence.
Qed.

(** Functional: in the graph snapshot of an attempt, a declared outcome of a node
    has exactly one continuation, and [route] finds it: either the outcome is terminal
    and no edge leaves on it, or exactly one edge leaves on it, its target is a node of
    the graph, and the outcome is not terminal. So advancing never ends in "no route"
    or a missing target. *)
Theorem routing_total_and_unambiguous (d : WorkDB) (k : uuid) (a : Attempt) (key o : string) (def : CanonicalNode) :
  work_wf d → attempts d !! k = Some a →
  findNode (at_GraphSnapshot a) key = Some def → o ∈ cn_Outcomes def →
  let g := at_GraphSnapshot a in
  (route g key o = Some None ∧ (∃ t, t ∈ cg_TerminalOutcomes g ∧ terminal_key t = (key, o)) ∧
     ∀ e, e ∈ cg_Edges g → edge_key e ≠ (key, o)) ∨
  (∃ e target, e ∈ cg_Edges g ∧ edge_key e = (key, o) ∧ route g key o = Some (Some (ce_To e)) ∧
     findNode g (ce_To e) = Some target ∧ (∀ e', e' ∈ cg_Edges g → edge_key e' = (key, o) → e' = e) ∧
     ∀ t, t ∈ cg_TerminalOutcomes g → terminal_key t ≠ (key, o)).
Proof.
  intros W Hk Hdef Ho g. destruct (g_attempt _ _ _ _ _ _ _ _ W k a Hk) as (_ & _ & _ & spec & Hg & Hc).
  fold g in Hdef, Hg. clearbody g. subst g. set (g := cs_Graph spec) in *.
  apply List.find_some in Hdef as [Hin Hkey%String.eqb_eq]. apply list_elem_of_In in Hin.
  pose proof (gc_unique _ _ Hc) as Hnd. pose proof Hnd as (Hnde & Hdis & Hndt)%NoDup_app.
  destruct (proj1 (elem_of_app _ _ _) (gc_covered _ _ Hc key o (ex_intro _ def (conj Hin (conj Hkey Ho))))) as [Hd|Hd];
    apply list_elem_of_fmap in Hd as (x & Hx & Hxin).
  - right. pose proof (proj1 (Forall_forall _ _) (gc_edges _ _ Hc) x Hxin) as [_ Hto].
    destruct (findNode_in g (ce_To x) Hto) as [target Htarget].
    exists x, target. split_and!; [done|done|by apply route_edge|done| |].
    + intros e' He' Hke. by apply (NoDup_fmap_inj edge_key (cg_Edges g)); [| | |congruence].
    + intros t Ht Htk. apply (Hdis (key, o)); [rewrite Hx|rewrite <- Htk]; by apply list_elem_of_fmap_2.
  - left. split_and!; [|eauto|].
    + unfold route. replace (existsb _ _) with true; [done|]. symmetry. apply existsb_exists. exists x.
      split; [by apply list_elem_of_In|by apply is_terminal_outcome_true].
    + intros e He Hke. apply (Hdis (key, o)); [rewrite <- Hke|rewrite Hx]; by apply list_elem_of_fmap_2.
Qed.

(** ** Settling a turn *)
(** C3. Functional: when [CompleteTurn] commits, the turn was running and belonged to the
    running visit of its attempt, and exactly one of two things happened. With reason
    "completed" and a recorded completion report, the turn and the visit succeeded and the
    returned state is the one the graph prescribes for the reported outcome: succeeded
    for a terminal outcome, running when an edge is followed, failed when the
    transition limit is used up. Otherwise the turn, the visit and the run failed (or
    were aborted). In all cases the returned run state is the stored one. *)
Theorem complete_turn_correct (d d' : WorkDB) (now : timestamp) (turnID : uuid) (reason : string)
    (customer operator : option json) (st : RunState) :
  work_wf d → CompleteTurn now turnID reason customer operator d = inr (st, d') →
  turn_settled d turnID reason st d'.
Proof. intros W H. by eapply CompleteTurn_inr. Qed.
End facts.
