(* ===== verification/WorkItems.v ===== *)
(** Work items, the audit trail and the value ledger: start is idempotent, the trail only
    grows, the ledger credits an item once and deducts it once. *)
From S2P Require Import Prelude Json Duration Runtime Workflow WorkflowFacts WorkData WorkGraph.
From S2P Require Import WorkCommands WorkValue WorkSteps WorkInv WorkMachine WorkSim WorkFacts.

(** * Start keys *)
(** Everything of a work item but the current attempt. *)
Definition same_item (w w' : WorkItem) : Prop :=
  ∃ c, w' = {| wi_ID := wi_ID w; wi_WorkflowKey := wi_WorkflowKey w; wi_ScopeIdentityID := wi_ScopeIdentityID w;
    wi_Title := wi_Title w; wi_Source := wi_Source w; wi_SourcePresentation := wi_SourcePresentation w;
    wi_StartIdentityID := wi_StartIdentityID w; wi_StartIdempotencyKey := wi_StartIdempotencyKey w;
    wi_StartPayloadHash := wi_StartPayloadHash w; wi_CurrentAttemptID := c; wi_CreatedAt := wi_CreatedAt w;
    wi_Principals := wi_Principals w |}.
Lemma same_item_refl w : same_item w w.
Proof. exists (wi_CurrentAttemptID w). by destruct w. Qed.
Lemma same_item_trans w1 w2 w3 : same_item w1 w2 → same_item w2 w3 → same_item w1 w3.
Proof. intros [c1 ->] [c2 ->]. by exists c2. Qed.
Lemma same_item_current id w : same_item w (set_current_attempt id w).
Proof. by exists (Some id). Qed.

(** The items are the same but for their current attempts. *)
Definition items_stable (d d' : WorkDB) : Prop :=
  ∀ k, match work_items d !! k, work_items d' !! k with
       | Some w, Some w' => same_item w w'
       | None, None => True
       | _, _ => False
       end.
#[export] Instance items_stable_preorder : PreOrder items_stable.
Proof.
  split.
  - intros d k. destruct (work_items d !! k); [apply same_item_refl|done].
  - intros d1 d2 d3 H1 H2 k. specialize (H1 k). specialize (H2 k).
    destruct (work_items d1 !! k), (work_items d2 !! k), (work_items d3 !! k); try done. by eapply same_item_trans.
Qed.
Lemma items_same d d' : work_items d' = work_items d → items_stable d d'.
Proof. intros H k. rewrite H. destruct (work_items d !! k); [apply same_item_refl|done]. Qed.
(** ** Statements that leave items, attempts and ledger alone *)
(** A relation that holds when the items, the set of attempts and the ledger are the
    same. *)
Class Quiet (P : WorkDB → WorkDB → Prop) : Prop := {
  quiet_preorder :: PreOrder P;
  quiet_same d d' : work_items d' = work_items d → (∀ k, is_Some (attempts d' !! k) → is_Some (attempts d !! k)) →
    value_ledger d' = value_ledger d → P d d' }.
Section quiet.
Context (P : WorkDB → WorkDB → Prop) `{!Quiet P}.
Lemma quiet_modify f :
  (∀ d, work_items (f d) = work_items d ∧ attempts (f d) = attempts d ∧ value_ledger (f d) = value_ledger d) →
  keeps P (tx_modify f).
Proof.
  intros Hf. apply keeps_modify. intros d. destruct (Hf d) as (H1 & H2 & H3). apply quiet_same; [done| |done].
  by rewrite H2.
Qed.
Lemma quiet_reads {A} (m : WkTx A) : reads m → keeps P m.
Proof. apply keeps_reads. typeclasses eauto. Qed.
Lemma quiet_lift_rt {A} (m : RtTx A) : keeps P (lift_rt m).
Proof. intros d a d' (r & _ & ->)%lift_rt_inr. by apply quiet_same. Qed.
Lemma quiet_appendTimelineTx now i a n c p refs actor : keeps P (appendTimelineTx now i a n c p refs actor).
Proof. intros d u d' ->%appendTimelineTx_inr. by apply quiet_same. Qed.
Lemma quiet_update_run id cond f : keeps P (update_run id cond f).
Proof. intros d u d' H. rewrite update_run_eq in H. injection H as _ <-. by apply quiet_same. Qed.
Lemma quiet_update_node id cond f : keeps P (update_node id cond f).
Proof. intros d u d' [-> _]%update_node_inr. by apply quiet_same. Qed.
Lemma quiet_insert_blocker b : keeps P (insert_blocker b).
Proof. intros d u d' (-> & _)%insert_blocker_inr. by apply quiet_same. Qed.
Lemma quiet_update_attempt id f : keeps P (update_attempt id f).
Proof.
  intros d u d' H. rewrite update_attempt_eq in H. injection H as _ <-. apply quiet_same; [done| |done].
  intros k [a Ha]. destruct (alter_back f (λ _ _, True) (attempts d) id k a) as (r & Hr & _); [done|done|done|eauto].
Qed.
End quiet.
#[export] Hint Resolve quiet_modify quiet_lift_rt quiet_appendTimelineTx quiet_update_run quiet_update_node
  quiet_insert_blocker quiet_update_attempt : keeps.
#[export] Hint Extern 5 (keeps _ _) => (apply quiet_reads; solve [eauto with keeps]) : keeps.
#[export] Hint Extern 1 (Quiet _) => typeclasses eauto : keeps.

Lemma quiet_CreateValueModel P `{!Quiet P} now inp : keeps P (CreateValueModel now inp).
Proof. unfold CreateValueModel, validateValueModelInput, new_uuid. keeps_tac. Qed.

Abbreviation stable := (keeps items_stable).
#[export] Instance items_stable_quiet : Quiet items_stable.
Proof. split; [typeclasses eauto|]. intros d d' H _ _. by apply items_same. Qed.
Lemma stable_modify f : (∀ d, work_items (f d) = work_items d) → stable (tx_modify f).
Proof. intros Hf. apply keeps_modify. intros d. by apply items_same. Qed.
#[export] Hint Resolve stable_modify : keeps.

(** Every command is its statements. *)
Ltac unfold_commands :=
  unfold PrepareNode, prepare_reentry, prepare_human, prepare_agent, createHumanBlockerTx, createConsequenceBlockerTx,
    RecordCompletionReport, CompleteTurn, RespondBlocker, completeHumanNodeTx, SaveFeedback, deductValueTx,
    link_artifact, settle_turn_row, advanceGraphTx, advance_terminal, advance_limit, advance_edge,
    insert_transition, creditValueTx, handoff, createAttemptTx, insert_run, insert_attempt, snapshotToolsTx, pin_tool,
    link_source, insertNodeExecutionTx, insert_ledger, new_uuid.
Lemma stable_PrepareNode now a : stable (PrepareNode now a).
Proof. unfold_commands. keeps_tac. Qed.
Lemma stable_RecordCompletionReport jv now t r : stable (RecordCompletionReport jv now t r).
Proof. unfold_commands. keeps_tac. Qed.
Lemma stable_CompleteTurn now t r c o : stable (CompleteTurn now t r c o).
Proof. unfold_commands. keeps_tac. Qed.
Lemma stable_RespondBlocker jv now inp : stable (RespondBlocker jv now inp).
Proof. unfold_commands. keeps_tac. Qed.
Lemma stable_SaveFeedback now inp : stable (SaveFeedback now inp).
Proof. unfold_commands. keeps_tac. Qed.
Lemma stable_createAttemptTx now inp : stable (createAttemptTx now inp).
Proof. unfold_commands. keeps_tac. Qed.
Lemma stable_set_current id k : stable (tx_modify (λ d, set_work_items (alter (set_current_attempt id) k (work_items d)) d)).
Proof.
  apply keeps_modify. intros d j. cbn. destruct (decide (k = j)) as [->|Hne].
  - rewrite lookup_alter_eq. destruct (work_items d !! j); simpl; [apply same_item_current|done].
  - rewrite lookup_alter_ne by done. destruct (work_items d !! j); [apply same_item_refl|done].
Qed.
#[export] Hint Resolve stable_createAttemptTx stable_set_current : keeps.
Lemma stable_CreateRevision jc now inp : stable (CreateRevision jc now inp).
Proof. unfold CreateRevision, createRevisionTx, new_uuid. keeps_tac. Qed.

(** ** Checks that do not look at the database *)
Definition pure {A} (m : WkTx A) : Prop := ∀ d a d' d2, m d = inr (a, d') → m d2 = inr (a, d2).
Lemma pure_ret {A} (a : A) : pure (mret a).
Proof. intros d x d' d2 H. inv_tx. done. Qed.
Lemma pure_require b e : pure (tx_require b e).
Proof. intros d x d' d2 [-> _]%tx_require_inr. by destruct x. Qed.
Lemma pure_opt {A} (o : option A) e : pure (tx_opt o e).
Proof. intros d x d' d2 [-> _]%tx_opt_inr. done. Qed.
Lemma pure_bind {A B} (m : WkTx A) (k : A → WkTx B) : pure m → (∀ a, pure (k a)) → pure (m ≫= k).
Proof.
  intros Hm Hk d b d' d2 (a & d1 & H1 & H2)%tx_bind_inr.
  rewrite (tx_bind_step _ _ _ _ _ (Hm _ _ _ d2 H1)). by eapply Hk.
Qed.
Lemma pure_map {A B} (f : A → WkTx B) l : (∀ a, pure (f a)) → pure (tx_map f l).
Proof.
  intros Hf. induction l as [|a l IH]; simpl; [apply pure_ret|].
  apply pure_bind; [done|]. intros b. apply pure_bind; [done|]. intros bs. apply pure_ret.
Qed.
Ltac pure_tac := repeat first [apply pure_bind; intros|apply pure_map; intros|apply pure_require|apply pure_opt|apply pure_ret].
Lemma pure_validateSourcePresentation sp : pure (validateSourcePresentation sp).
Proof. unfold validateSourcePresentation. pure_tac. Qed.
Lemma pure_start_refs inp : pure (start_refs inp).
Proof. unfold start_refs. pure_tac. Qed.
Lemma pure_startPayloadHash ph inp refs : pure (startPayloadHash ph inp refs).
Proof. unfold startPayloadHash. pure_tac. Qed.

(** ** Start *)
Definition start_hash (ph : StartPayload → string) (inp : StartInput) (hash : string) : Prop :=
  ∃ refs, ∀ d, start_refs inp d = inr (refs, d) ∧ startPayloadHash ph inp refs d = inr (hash, d).
Lemma start_hash_functional ph inp h1 h2 (d : WorkDB) : start_hash ph inp h1 → start_hash ph inp h2 → h1 = h2.
Proof.
  intros [r1 H1] [r2 H2]. destruct (H1 d) as [A1 B1], (H2 d) as [A2 B2].
  assert (r1 = r2) as -> by congruence. congruence.
Qed.
(** A started item: the stored key and digest are those of the input. *)
Definition started (ph : StartPayload → string) (inp : StartInput) (id : uuid) (w : WorkItem) : Prop :=
  wi_ID w = id ∧ start_key_matches inp w = true ∧ start_hash ph inp (wi_StartPayloadHash w).

Section start.
Context (jc : string → bool) (ph : StartPayload → string).

Lemma Start_inr now inp d id created d' :
  Start jc ph now inp d = inr ((id, created), d') →
  (created = false ∧ d' = d ∧ ∃ w, existing_start d inp = Some w ∧ started ph inp id w) ∨
  (created = true ∧ existing_start d inp = None ∧ work_items d !! id = None ∧ ∃ w, started ph inp id w ∧
     items_stable (set_work_items (<[id := w]> (work_items d)) d) d').
Proof.
  intros (refs & hash & H2 & H3 & H)%Start_inv.
  assert (start_hash ph inp hash) as Hhash.
  { exists refs. intros dx. split; [by eapply pure_start_refs|by eapply pure_startPayloadHash]. }
  destruct (existing_start d inp) as [w|] eqn:Hex.
  - destruct H as (Hh & [= -> ->] & ->). left. split_and!; try done. exists w. split; [done|].
    split_and!; [done| |by rewrite Hh]. unfold existing_start in Hex.
    by apply head_Some_elem_of, elem_of_select in Hex as [? _].
  - right. destruct H as (res & w & c & d1 & d3 & _ & [= -> ->] & _ & Hi & Hnone & (_ & Hm & Hw) & _ & _ & H & _ & Hi').
    split_and!; [done|done|done|]. exists w. split; [split_and!; [done|done|by rewrite Hw]|].
    apply stable_createAttemptTx in H. etrans; [|etrans; [exact H|]].
    + apply items_same. cbn. by rewrite Hi.
    + etrans; [eapply (stable_set_current (ci_ID c) (wi_ID w)); reflexivity|]. apply items_same. by rewrite Hi'.
Qed.

(** No two items share a start key; rows are stored under their id. *)
Definition start_unique (d : WorkDB) : Prop :=
  (∀ k w, work_items d !! k = Some w → wi_ID w = k) ∧
  (∀ inp k1 k2 w1 w2, work_items d !! k1 = Some w1 → work_items d !! k2 = Some w2 →
     start_key_matches inp w1 = true → start_key_matches inp w2 = true → k1 = k2).
Lemma same_item_matches inp w w' : same_item w w' → start_key_matches inp w' = start_key_matches inp w.
Proof. by intros [c ->]. Qed.
Lemma stable_back d d' k w' : items_stable d d' → work_items d' !! k = Some w' →
  ∃ w, work_items d !! k = Some w ∧ same_item w w'.
Proof. intros H Hk. specialize (H k). rewrite Hk in H. destruct (work_items d !! k); [eauto|done]. Qed.
Lemma stable_forth d d' k w : items_stable d d' → work_items d !! k = Some w →
  ∃ w', work_items d' !! k = Some w' ∧ same_item w w'.
Proof. intros H Hk. specialize (H k). rewrite Hk in H. destruct (work_items d' !! k); [eauto|done]. Qed.
Lemma start_unique_stable d d' : items_stable d d' → start_unique d → start_unique d'.
Proof.
  intros Hs [U1 U2]. split.
  - intros k w' (w & Hw & [c ->])%(stable_back d d' k w' Hs). cbn. by apply U1.
  - intros inp k1 k2 w1 w2 (v1 & H1 & S1)%(stable_back d d' k1 w1 Hs) (v2 & H2 & S2)%(stable_back d d' k2 w2 Hs).
    rewrite (same_item_matches _ _ _ S1), (same_item_matches _ _ _ S2). by eapply U2.
Qed.
Lemma matches_transfer inp inp' w w' :
  start_key_matches inp w = true → start_key_matches inp w' = true → start_key_matches inp' w = true →
  start_key_matches inp' w' = true.
Proof.
  unfold start_key_matches. rewrite !andb_true_iff, !String.eqb_eq. intros [[-> ->] ->] [[-> ->] ->] ?. done.
Qed.
Lemma existing_start_None d inp : existing_start d inp = None → ∀ k w, work_items d !! k = Some w →
  start_key_matches inp w = false.
Proof.
  unfold existing_start. intros H%head_None k w Hk. destruct (start_key_matches inp w) eqn:Hm; [|done].
  assert (w ∈ select (start_key_matches inp) (work_items d)) as Hin by (apply elem_of_select; eauto).
  rewrite H in Hin. by apply not_elem_of_nil in Hin.
Qed.
Lemma start_unique_Start now inp d x d' :
  Start jc ph now inp d = inr (x, d') → start_unique d → start_unique d'.
Proof.
  destruct x as [id created]. intros [(_ & -> & _)|(_ & Hnone & Hid & w & (Hwid & Hm & _) & Hs)]%Start_inr U; [done|].
  eapply start_unique_stable; [exact Hs|]. destruct U as [U1 U2]. pose proof (existing_start_None _ _ Hnone) as Hno.
  split; cbn.
  - intros k v [[<- <-]|[_ Hk]]%lookup_insert_Some; [done|by apply U1].
  - intros inp' k1 k2 w1 w2 [[<- <-]|[_ H1]]%lookup_insert_Some [[<- <-]|[_ H2]]%lookup_insert_Some M1 M2;
      [done|..|by eapply U2].
    + pose proof (matches_transfer _ _ _ _ M1 M2 Hm) as Hx. by rewrite (Hno _ _ H2) in Hx.
    + pose proof (matches_transfer _ _ _ _ M2 M1 Hm) as Hx. by rewrite (Hno _ _ H1) in Hx.
Qed.
End start.

Section idempotency.
Context (jc : string → bool) (jv : string → json → bool) (ph : StartPayload → string).
Notation exec := (exec jc jv ph).
Notation execs := (execs jc jv ph).

(** Items stay, and their start keys stay unique. *)
Definition items_kept (d d' : WorkDB) : Prop :=
  (start_unique d → start_unique d') ∧
  ∀ k w, work_items d !! k = Some w → ∃ w', work_items d' !! k = Some w' ∧ same_item w w'.
#[export] Instance items_kept_preorder : PreOrder items_kept.
Proof.
  split; [split; [done|]; intros k w Hk; exists w; split; [done|apply same_item_refl]|].
  intros d1 d2 d3 [U1 K1] [U2 K2]. split; [auto|]. intros k w Hk.
  destruct (K1 k w Hk) as (w1 & Hw1 & S1), (K2 k w1 Hw1) as (w2 & Hw2 & S2). exists w2. split; [done|].
  by eapply same_item_trans.
Qed.
Lemma stable_kept d d' : items_stable d d' → items_kept d d'.
Proof. intros Hs. split; [by apply start_unique_stable|]. intros k w Hk. by eapply stable_forth. Qed.
Lemma Start_kept now inp d x d' : Start jc ph now inp d = inr (x, d') → items_kept d d'.
Proof.
  intros H. split; [by eapply start_unique_Start|]. destruct x as [id created].
  apply Start_inr in H as [(_ & -> & _)|(_ & _ & Hid & w & _ & Hs)].
  - intros k w Hk. exists w. split; [done|apply same_item_refl].
  - intros k v Hk. eapply stable_forth; [exact Hs|]. cbn. by rewrite lookup_insert_ne by congruence.
Qed.
Lemma exec_items op d : items_kept d (exec op d).
Proof.
  destruct op; simpl; try (apply committed_ind; [reflexivity|intros a d' H]).
  - by eapply Start_kept.
  - apply stable_kept. by eapply stable_PrepareNode.
  - apply stable_kept. by eapply stable_RecordCompletionReport.
  - apply stable_kept. by eapply stable_CompleteTurn.
  - apply stable_kept. by eapply stable_RespondBlocker.
  - apply stable_kept. by eapply stable_SaveFeedback.
  - apply stable_kept. by eapply stable_CreateRevision.
  - apply stable_kept. by eapply (quiet_CreateValueModel items_stable).
  - apply stable_kept. by apply items_same.
Qed.
Lemma execs_items ops d : items_kept d (execs ops d).
Proof.
  revert d. induction ops as [|op ops IH]; intros d; [reflexivity|]. etrans; [apply (exec_items op)|apply IH].
Qed.

Lemma existing_start_unique d inp id w :
  start_unique d → work_items d !! id = Some w → start_key_matches inp w = true → existing_start d inp = Some w.
Proof.
  intros [_ U] Hid Hm. destruct (existing_start d inp) as [v|] eqn:He.
  - unfold existing_start in He. apply head_Some_elem_of, elem_of_select in He as (Hv & k & Hk).
    assert (k = id) as -> by (by eapply U). congruence.
  - by rewrite (existing_start_None _ _ He _ _ Hid) in Hm.
Qed.
(** A start that passed its checks once passes them again, and finds the item. *)
Lemma Start_again now now2 inp d x d1 d2 id w :
  Start jc ph now inp d = inr (x, d1) → start_unique d2 → work_items d2 !! id = Some w → started ph inp id w →
  Start jc ph now2 inp d2 = inr ((id, false), d2).
Proof.
  intros H U Hid (Hwid & Hm & Hh). unfold Start in H |- *.
  apply tx_bind_inr in H as (u0 & e1 & H0 & H). rewrite (tx_bind_step _ _ _ _ _ (pure_require _ _ _ _ _ d2 H0)).
  apply tx_bind_inr in H as (u1 & e2 & H1 & H).
  rewrite (tx_bind_step _ _ _ _ _ (pure_validateSourcePresentation _ _ _ _ d2 H1)).
  apply tx_bind_inr in H as (u2 & e3 & H2 & H). rewrite (tx_bind_step _ _ _ _ _ (pure_require _ _ _ _ _ d2 H2)).
  destruct Hh as [refs Hrefs]. destruct (Hrefs d2) as [R1 R2].
  rewrite (tx_bind_step _ _ _ _ _ R1), (tx_bind_step _ _ _ _ _ R2).
  rewrite (tx_bind_step tx_get _ d2 d2 d2 eq_refl).
  rewrite (existing_start_unique _ _ _ _ U Hid Hm), String.eqb_refl. unfold tx_require, mbind, tx_bind, mret, tx_ret.
  by rewrite Hwid.
Qed.
Lemma started_same inp id w w' : same_item w w' → started ph inp id w → started ph inp id w'.
Proof. intros [c ->] (? & ? & ?). done. Qed.
Lemma Start_stored now inp d id c d1 :
  start_unique d → Start jc ph now inp d = inr ((id, c), d1) →
  ∃ w, work_items d1 !! id = Some w ∧ started ph inp id w.
Proof.
  intros [U1 _] [(_ & -> & w & He & Hw)|(_ & _ & _ & w & Hw & Hs)]%Start_inr.
  - exists w. split; [|done]. unfold existing_start in He. apply head_Some_elem_of, elem_of_select in He as (_ & k & Hk).
    destruct Hw as [<- _]. by rewrite (U1 k w Hk).
  - destruct (stable_forth _ _ id w Hs) as (w' & Hw' & Hsame); [cbn; by rewrite lookup_insert_eq|].
    exists w'. split; [done|by eapply started_same].
Qed.

(** Functional: starting work is idempotent. Once a start has succeeded, the same
    input at any later time, after any sequence of commands, returns the same work item
    without creating anything and leaves the database as it is; and no start that
    reuses the actor, workflow and idempotency key with a payload of another digest
    can succeed. *)
Theorem start_is_idempotent (now now2 : timestamp) (inp : StartInput) (ops : list WorkOp) (d d1 : WorkDB)
    (id : uuid) (created : bool) :
  start_unique d → Start jc ph now inp d = inr ((id, created), d1) →
  let d2 := execs ops d1 in
  Start jc ph now2 inp d2 = inr ((id, false), d2) ∧
  ∀ inp2 h h2 x d3, start_hash ph inp h → start_hash ph inp2 h2 → h2 ≠ h →
    st_ActorIdentityID inp2 = st_ActorIdentityID inp → st_WorkflowKey inp2 = st_WorkflowKey inp →
    st_IdempotencyKey inp2 = st_IdempotencyKey inp → Start jc ph now2 inp2 d2 ≠ inr (x, d3).
Proof.
  intros U H d2. destruct (Start_stored _ _ _ _ _ _ U H) as (w & Hw & Hst).
  assert (start_unique d1) as U1 by (eapply start_unique_Start; [exact H|done]).
  destruct (execs_items ops d1) as [U2 K]. destruct (K id w Hw) as (w' & Hw' & Hsame). fold d2 in U2, Hw'.
  pose proof (started_same _ _ _ _ Hsame Hst) as Hst'. split; [by eapply Start_again; eauto|].
  intros inp2 h h2 [id2 c2] d3 Hh Hh2 Hne E1 E2 E3 [(_ & _ & v & He & _ & _ & Hhv)|(_ & He & _)]%Start_inr.
  - assert (start_key_matches inp2 w' = true) as Hm2.
    { destruct Hst' as (_ & Hm & _). unfold start_key_matches in *. by rewrite E1, E2, E3. }
    rewrite (existing_start_unique d2 inp2 id w' (U2 U1) Hw' Hm2) in He. injection He as <-.
    destruct Hst' as (_ & _ & Hhw). pose proof (start_hash_functional _ _ _ _ d2 Hh Hhw).
    pose proof (start_hash_functional _ _ _ _ d2 Hh2 Hhv). congruence.
  - assert (start_key_matches inp2 w' = true) as Hm2.
    { destruct Hst' as (_ & Hm & _). unfold start_key_matches in *. by rewrite E1, E2, E3. }
    by rewrite (existing_start_None _ _ He _ _ Hw') in Hm2.
Qed.
End idempotency.
