(* ===== verification/WorkAudit.v ===== *)
(** The audit trail of the work domain only grows, and the value ledger credits an item
    once and deducts it at most once. The customer's view: the state shown for a work item
    is the state of its current attempt, and only the current attempt of an item can be
    live. *)
From S2P Require Import Prelude Json Duration Runtime Workflow WorkflowFacts WorkData WorkGraph.
From S2P Require Import WorkCommands WorkValue WorkSteps WorkInv WorkMachine WorkSim WorkFacts WorkItems.

(** * Append-only tables *)
Definition cursors_ok (d : WorkDB) : Prop :=
  tl_Cursor <$> timeline_events d = seqZ 1 (Z.of_nat (length (timeline_events d))).
Record appends (d d' : WorkDB) : Prop := mkAppends {
  ap_timeline : timeline_events d `prefix_of` timeline_events d';
  ap_cursors : cursors_ok d → cursors_ok d';
  ap_ledger : value_ledger d `prefix_of` value_ledger d';
  ap_links : artifact_links d `prefix_of` artifact_links d';
  ap_feedback : feedback d ⊆ feedback d';
  ap_events : events (wk_rt d) `prefix_of` events (wk_rt d');
  ap_pins : tool_pins d `prefix_of` tool_pins d' }.
#[export] Instance appends_preorder : PreOrder appends.
Proof.
  split.
  - intros d. constructor; done.
  - intros d1 d2 d3 [] []. constructor; [by etrans|auto|by etrans..].
Qed.
(** The tables above. *)
Definition trail (d : WorkDB) := (timeline_events d, value_ledger d, artifact_links d, feedback d, events (wk_rt d), tool_pins d).
Lemma appends_same d d' : trail d' = trail d → appends d d'.
Proof.
  unfold trail. intros [= H1 H2 H3 H4 H5 H6].
  constructor; unfold cursors_ok; by rewrite ?H1, ?H2, ?H3, ?H4, ?H5, ?H6.
Qed.
Abbreviation grows := (keeps appends).
Lemma grows_modify f : (∀ d, trail (f d) = trail d) → grows (tx_modify f).
Proof. intros Hf. apply keeps_modify. intros d. by apply appends_same. Qed.
Lemma grows_reads {A} (m : WkTx A) : reads m → grows m.
Proof. apply keeps_reads. typeclasses eauto. Qed.
Lemma grows_new_uuid : grows (lift_rt gen_random_uuid).
Proof. intros d a d' (r & [-> ->]%gen_random_uuid_inr & ->)%lift_rt_inr. by apply appends_same. Qed.
Lemma grows_insertTurn now a s n se m st : grows (lift_rt (insertTurn now a s n se m st)).
Proof. intros d t d' (r & (_ & _ & _ & ->)%insertTurn_row & ->)%lift_rt_inr. by apply appends_same. Qed.
Lemma grows_insertEvent now a t s n k p : grows (lift_rt (insertEvent now a t s n k p)).
Proof.
  intros d e d' (r & ->%insertEvent_row & ->)%lift_rt_inr. constructor; try done. cbn. by apply prefix_app_r.
Qed.
Lemma grows_appendTimelineTx now i a n c p refs actor : grows (appendTimelineTx now i a n c p refs actor).
Proof.
  intros d u d' ->%appendTimelineTx_inr. constructor; try done; cbn; [by apply prefix_app_r|].
  unfold cursors_ok. cbn. intros H. rewrite fmap_app, H, length_app, Nat2Z.inj_add, seqZ_app by lia.
  f_equal. cbn. rewrite Z.add_comm. done.
Qed.
Lemma grows_update_run id cond f : grows (update_run id cond f).
Proof. intros d u d' H. rewrite update_run_eq in H. injection H as _ <-. by apply appends_same. Qed.
Lemma grows_update_node id cond f : grows (update_node id cond f).
Proof. intros d u d' [-> _]%update_node_inr. by apply appends_same. Qed.
Lemma grows_insert_blocker b : grows (insert_blocker b).
Proof. intros d u d' (-> & _)%insert_blocker_inr. by apply appends_same. Qed.
Lemma grows_insert_ledger e : grows (insert_ledger e).
Proof.
  intros d u d' H. unfold insert_ledger in H. inv_tx. case_match; inv_tx; [done|].
  constructor; try done. cbn. by apply prefix_app_r.
Qed.
Lemma add_link_prefix l ls : ls `prefix_of` add_link l ls.
Proof. unfold add_link. case_match; [done|by apply prefix_app_r]. Qed.
Lemma grows_link_artifact now i a n role ref : grows (link_artifact now i a n role ref).
Proof.
  unfold link_artifact. apply keeps_bind; [typeclasses eauto|apply grows_reads, reads_json_column|]. intros v.
  apply keeps_modify. intros d. constructor; try done. cbn. apply add_link_prefix.
Qed.
Lemma grows_handoff now a f n : grows (handoff now a f n).
Proof.
  unfold handoff. keeps_tac. apply keeps_modify. intros d. constructor; try done. cbn.
  match goal with |- context [foldr insert_created [] ?l] => generalize (foldr insert_created [] l) end.
  intros ls. generalize (artifact_links d). induction ls as [|x ls IH]; intros acc; [done|]. cbn.
  etrans; [apply add_link_prefix|apply IH].
Qed.
Lemma grows_link_source now inp e r : grows (link_source now inp e r).
Proof.
  intros d u d' H. unfold link_source in H. inv_tx.
  match goal with Hj : json_column _ _ = inr _ |- _ => apply reads_json_column in Hj; subst end.
  constructor; try done. cbn. by apply prefix_app_r.
Qed.
Lemma grows_pin_tool a p c n : grows (pin_tool a p c n).
Proof. intros d u d' H. unfold pin_tool in H. inv_tx. constructor; try done. cbn. by apply prefix_app_r. Qed.
#[export] Hint Resolve grows_modify grows_new_uuid grows_insertTurn grows_insertEvent grows_appendTimelineTx
  grows_update_run grows_update_node grows_insert_blocker grows_insert_ledger grows_link_artifact grows_handoff
  grows_link_source grows_pin_tool : keeps.
#[export] Hint Extern 5 (keeps appends _) => (apply grows_reads; solve [eauto with keeps]) : keeps.

(** The statements of each command, down to those above. *)
Ltac unfold_to_statements :=
  unfold PrepareNode, prepare_reentry, prepare_human, prepare_agent, createHumanBlockerTx, createConsequenceBlockerTx,
    RecordCompletionReport, CompleteTurn, RespondBlocker, completeHumanNodeTx, deductValueTx,
    settle_turn_row, advanceGraphTx, advance_terminal, advance_limit, advance_edge, update_attempt, creditValueTx,
    createAttemptTx, snapshotToolsTx, Start, CreateRevision, createRevisionTx,
    insert_transition, insert_run, insert_attempt, insertNodeExecutionTx, new_uuid.
Lemma grows_PrepareNode now a : grows (PrepareNode now a).
Proof. unfold_to_statements. keeps_tac. Qed.
Lemma grows_RecordCompletionReport jv now t r : grows (RecordCompletionReport jv now t r).
Proof. unfold_to_statements. keeps_tac. Qed.
Lemma grows_CompleteTurn now t r c o : grows (CompleteTurn now t r c o).
Proof. unfold_to_statements. keeps_tac. Qed.
Lemma grows_RespondBlocker jv now inp : grows (RespondBlocker jv now inp).
Proof. unfold_to_statements. keeps_tac. Qed.
Lemma grows_createAttemptTx now inp : grows (createAttemptTx now inp).
Proof. unfold_to_statements. keeps_tac. Qed.
#[export] Hint Resolve grows_createAttemptTx : keeps.
Lemma grows_Start jc ph now inp : grows (Start jc ph now inp).
Proof. unfold Start, new_uuid. keeps_tac. Qed.
Lemma grows_CreateRevision jc now inp : grows (CreateRevision jc now inp).
Proof. unfold CreateRevision, createRevisionTx, new_uuid. keeps_tac. Qed.
Lemma grows_deductValueTx now f : grows (deductValueTx now f).
Proof. unfold deductValueTx. keeps_tac. Qed.
Lemma grows_CreateValueModel now inp : grows (CreateValueModel now inp).
Proof. unfold CreateValueModel, validateValueModelInput, new_uuid. keeps_tac. Qed.
Lemma grows_SaveFeedback now inp : grows (SaveFeedback now inp).
Proof.
  intros d f d' H. unfold SaveFeedback in H.
  apply tx_bind_inr in H as (? & d1 & [_ <-]%tx_require_inr & H).
  apply tx_bind_inr in H as (? & d1 & [_ <-]%tx_require_inr & H).
  apply tx_bind_inr in H as (dd & d1 & [<- <-]%tx_get_inr & H).
  apply tx_bind_inr in H as (a & d1 & [_ <-]%tx_opt_inr & H).
  apply tx_bind_inr in H as (? & d1 & [_ <-]%tx_require_inr & H).
  apply tx_bind_inr in H as (run & d1 & [_ <-]%tx_opt_inr & H).
  apply tx_bind_inr in H as (? & d1 & [_ <-]%tx_require_inr & H).
  apply tx_bind_inr in H as (id & d1 & [-> ->]%new_uuid_inr & H).
  apply tx_bind_inr in H as (dd & d1 & [<- <-]%tx_get_inr & H).
  apply tx_bind_inr in H as (? & d1 & [Hnone%bool_decide_eq_true_1 <-]%tx_require_inr & H).
  apply tx_bind_inr in H as (? & d1 & [_ <-]%tx_require_inr & H).
  apply tx_bind_inr in H as (? & d1 & <-%tx_modify_inr & H).
  apply tx_bind_inr in H as (? & d2 & H1%grows_deductValueTx & H).
  apply tx_bind_inr in H as (? & d3 & H2%grows_appendTimelineTx & H). apply tx_ret_inr in H as [_ <-].
  etrans; [|exact H2]. etrans; [|exact H1]. constructor; try done. cbn. by apply insert_subseteq.
Qed.

Section audit.
Context (jc : string → bool) (jv : string → json → bool) (ph : StartPayload → string).
Notation exec := (exec jc jv ph).
Notation execs := (execs jc jv ph).

Lemma exec_appends op d : appends d (exec op d).
Proof.
  destruct op; simpl; try (apply committed_ind; [reflexivity|intros a d' H]).
  - by eapply grows_Start.
  - by eapply grows_PrepareNode.
  - by eapply grows_RecordCompletionReport.
  - by eapply grows_CompleteTurn.
  - by eapply grows_RespondBlocker.
  - by eapply grows_SaveFeedback.
  - by eapply grows_CreateRevision.
  - by eapply grows_CreateValueModel.
  - by apply appends_same.
Qed.

(** Safety: over any sequence of commands the audit trail only grows: timeline events,
    ledger entries, artifact links, runtime events and tool pins are appended and never
    changed, feedback rows are never changed or removed, and the timeline cursors stay
    1, 2, 3, ... in order of insertion. *)
Theorem audit_trail_append_only (ops : list WorkOp) (d : WorkDB) : appends d (execs ops d).
Proof.
  revert d. induction ops as [|op ops IH]; intros d; [reflexivity|]. etrans; [apply (exec_appends op)|apply IH].
Qed.
End audit.

(** * The value ledger *)
Definition credit_of (l : list LedgerEntry) (itemID : uuid) : option LedgerEntry :=
  List.find (λ e, String.eqb (le_WorkItemID e) itemID && bool_decide (le_Kind e = CompletionCredit)) l.
Definition has_entry (l : list LedgerEntry) (itemID : uuid) (kind : ledger_kind) : bool :=
  existsb (λ e, String.eqb (le_WorkItemID e) itemID && bool_decide (le_Kind e = kind)) l.
(** The ledgers the commands can build: a positive credit for an item without one, and
    one deduction that takes an item's credit back. *)
Inductive ledger_ok : list LedgerEntry → Prop :=
| ledger_nil : ledger_ok []
| ledger_credit l e :
    ledger_ok l → le_Kind e = CompletionCredit → 0 < le_Amount e →
    has_entry l (le_WorkItemID e) CompletionCredit = false → ledger_ok (l ++ [e])
| ledger_deduct l e c :
    ledger_ok l → le_Kind e = FeedbackDeduction → credit_of l (le_WorkItemID e) = Some c →
    le_Amount e = - le_Amount c → has_entry l (le_WorkItemID e) FeedbackDeduction = false → ledger_ok (l ++ [e]).
Definition ledger_value (l : list LedgerEntry) (itemID : uuid) : Z :=
  foldr Z.add 0 (le_Amount <$> filter (λ e, le_WorkItemID e = itemID) l).
Definition expected_value (l : list LedgerEntry) (itemID : uuid) : Z :=
  match credit_of l itemID with
  | Some c => if has_entry l itemID FeedbackDeduction then 0 else le_Amount c
  | None => 0
  end.

Lemma credit_of_app l e i :
  credit_of (l ++ [e]) i = match credit_of l i with
    | Some c => Some c
    | None => if String.eqb (le_WorkItemID e) i && bool_decide (le_Kind e = CompletionCredit) then Some e else None
    end.
Proof.
  unfold credit_of. induction l as [|x l IH]; simpl; [done|].
  destruct (String.eqb (le_WorkItemID x) i && _); [done|exact IH].
Qed.
Lemma has_entry_app l e i k :
  has_entry (l ++ [e]) i k = has_entry l i k || (String.eqb (le_WorkItemID e) i && bool_decide (le_Kind e = k)).
Proof. unfold has_entry. rewrite existsb_app. simpl. by rewrite orb_false_r. Qed.
Lemma credit_of_None l i : credit_of l i = None ↔ has_entry l i CompletionCredit = false.
Proof.
  unfold credit_of, has_entry. induction l as [|x l IH]; simpl; [done|].
  destruct (String.eqb (le_WorkItemID x) i && _); [done|exact IH].
Qed.
Lemma credit_of_Some l i c : credit_of l i = Some c → le_WorkItemID c = i ∧ le_Kind c = CompletionCredit ∧ c ∈ l.
Proof.
  intros [Hin Hp]%List.find_some. apply andb_true_iff in Hp as [?%String.eqb_eq ?%bool_decide_eq_true_1].
  by rewrite list_elem_of_In.
Qed.
Lemma deduction_has_credit l i : ledger_ok l → has_entry l i FeedbackDeduction = true → is_Some (credit_of l i).
Proof.
  induction 1 as [|l e Hl IH Hk Hpos Hno|l e c Hl IH Hk Hc Ha Hno]; [done|..]; rewrite has_entry_app, credit_of_app, Hk.
  - rewrite andb_false_r, orb_false_r. intros Hd. destruct (IH Hd) as [c ->]. eauto.
  - intros [Hd|Hd]%orb_true_iff; [destruct (IH Hd) as [x ->]; eauto|].
    apply andb_true_iff in Hd as [<-%String.eqb_eq _]. rewrite Hc. eauto.
Qed.
Lemma credit_positive l i c : ledger_ok l → credit_of l i = Some c → 0 < le_Amount c.
Proof.
  induction 1 as [|l e Hl IH Hk Hpos Hno|l e c' Hl IH Hk Hc Ha Hno]; [done|..]; rewrite credit_of_app, Hk;
    destruct (credit_of l i); try done.
  - destruct (_ && _); [|done]. by intros [= <-].
  - by rewrite andb_false_r.
Qed.
Lemma ledger_value_app l e i :
  ledger_value (l ++ [e]) i = ledger_value l i + (if decide (le_WorkItemID e = i) then le_Amount e else 0).
Proof.
  unfold ledger_value. rewrite filter_app, fmap_app. cbn [filter]. rewrite filter_cons, filter_nil.
  induction (le_Amount <$> filter (λ x, le_WorkItemID x = i) l) as [|z zs IH]; simpl; [case_decide; simpl; lia|].
  rewrite IH. lia.
Qed.
(** An item is worth its credit until the deduction, and nothing before the credit or
    after the deduction. *)
Lemma ledger_value_expected l i : ledger_ok l → ledger_value l i = expected_value l i.
Proof.
  intros Hok. induction Hok as [|l e Hl IH Hk Hpos Hno|l e c Hl IH Hk Hc Ha Hno]; [done|..];
    rewrite ledger_value_app; unfold expected_value in *; rewrite credit_of_app, has_entry_app, Hk.
  - apply credit_of_None in Hno. rewrite andb_false_r, orb_false_r, (bool_decide_eq_true_2 (CompletionCredit = _)) by done.
    case_decide as Hd.
    + subst i. rewrite Hno in *. rewrite String.eqb_refl. simpl. rewrite IH.
      destruct (has_entry l (le_WorkItemID e) FeedbackDeduction) eqn:Hded; [|lia].
      destruct (deduction_has_credit _ _ Hl Hded) as [? ?]. congruence.
    + rewrite (proj2 (String.eqb_neq _ _)) by done. simpl. rewrite IH. destruct (credit_of l i); lia.
  - rewrite (bool_decide_eq_false_2 (FeedbackDeduction = CompletionCredit)) by done.
    rewrite (bool_decide_eq_true_2 (FeedbackDeduction = _)), andb_false_r, andb_true_r by done.
    case_decide as Hd.
    + subst i. rewrite Hc in *. rewrite String.eqb_refl, Hno in *. simpl. lia.
    + rewrite (proj2 (String.eqb_neq _ _)), orb_false_r by done. rewrite IH. destruct (credit_of l i); lia.
Qed.

(** ** Statements and the ledger *)
Definition ledgers (d d' : WorkDB) : Prop := ledger_ok (value_ledger d) → ledger_ok (value_ledger d').
#[export] Instance ledgers_preorder : PreOrder ledgers.
Proof. split; [by intros x H|]. intros x y z H1 H2 H. auto. Qed.
Lemma ledger_same d d' : value_ledger d' = value_ledger d → ledgers d d'.
Proof. intros H. unfold ledgers. by rewrite H. Qed.
Abbreviation books := (keeps ledgers).
Lemma books_modify f : (∀ d, value_ledger (f d) = value_ledger d) → books (tx_modify f).
Proof. intros Hf. apply keeps_modify. intros d. by apply ledger_same. Qed.
#[export] Instance ledgers_quiet : Quiet ledgers.
Proof. split; [typeclasses eauto|]. intros d d' _ _ H. by apply ledger_same. Qed.
#[export] Hint Resolve books_modify : keeps.

Lemma insert_ledger_inr e d b d' :
  insert_ledger e d = inr (b, d') →
  (match le_Kind e with CompletionCredit => 0 < le_Amount e | FeedbackDeduction => le_Amount e < 0 end) ∧
  (value_ledger d' = value_ledger d ∨
   has_entry (value_ledger d) (le_WorkItemID e) (le_Kind e) = false ∧ value_ledger d' = value_ledger d ++ [e]).
Proof.
  intros H. unfold insert_ledger in H.
  apply tx_bind_inr in H as (dd & d1 & [<- <-]%tx_get_inr & H).
  apply tx_bind_inr in H as (u & d1 & [_ <-]%tx_require_inr & H).
  apply tx_bind_inr in H as (u' & d1 & [Hc <-]%tx_require_inr & H). split.
  - destruct (le_Kind e); apply andb_true_iff in Hc as [? _]; lia.
  - unfold credit_exists in H. fold (has_entry (value_ledger d) (le_WorkItemID e) (le_Kind e)) in H.
    destruct (has_entry (value_ledger d) (le_WorkItemID e) (le_Kind e)) eqn:He; inv_tx; [by left|by right].
Qed.
Lemma books_credit e : le_Kind e = CompletionCredit → books (insert_ledger e).
Proof.
  intros Hk d b d' [Hpos [H|[Hno H]]]%insert_ledger_inr; [by apply ledger_same|]. rewrite Hk in Hpos, Hno.
  unfold ledgers. rewrite H. intros Hok. by apply ledger_credit.
Qed.
Lemma books_creditValueTx now i a : books (creditValueTx now i a).
Proof. unfold creditValueTx. keeps_tac. by apply books_credit. Qed.
Lemma books_deductValueTx now f : books (deductValueTx now f).
Proof.
  intros d u d' H. unfold deductValueTx in H.
  apply tx_bind_inr in H as (dd & d1 & [<- <-]%tx_get_inr & H).
  change (completion_credit d (fb_WorkItemID f)) with (credit_of (value_ledger d) (fb_WorkItemID f)) in H.
  destruct (credit_of (value_ledger d) (fb_WorkItemID f)) as [c|] eqn:Hc; [|by inv_tx].
  apply tx_bind_inr in H as (added & d1 & H1 & H).
  assert (ledgers d1 d') as Hrest.
  { destruct added; [|by inv_tx]. by eapply (quiet_appendTimelineTx ledgers). }
  intros Hok. apply Hrest. apply insert_ledger_inr in H1 as [_ [H1|[Hno H1]]]; rewrite H1; [done|].
  by eapply ledger_deduct.
Qed.
#[export] Hint Resolve books_creditValueTx books_deductValueTx : keeps.
Ltac unfold_to_credit :=
  unfold PrepareNode, prepare_reentry, prepare_human, prepare_agent, createHumanBlockerTx, createConsequenceBlockerTx,
    RecordCompletionReport, CompleteTurn, RespondBlocker, completeHumanNodeTx, SaveFeedback, CreateValueModel,
    validateValueModelInput, Start, CreateRevision, createRevisionTx, createAttemptTx,
    link_artifact, settle_turn_row, advanceGraphTx, advance_terminal, advance_limit, advance_edge,
    insert_transition, handoff, insert_run, insert_attempt, snapshotToolsTx, pin_tool,
    link_source, insertNodeExecutionTx, new_uuid.

Section value.
Context (jc : string → bool) (jv : string → json → bool) (ph : StartPayload → string).
Notation exec := (exec jc jv ph).
Notation execs := (execs jc jv ph).

Lemma exec_ledgers op d : ledgers d (exec op d).
Proof.
  destruct op; simpl; try (apply committed_ind; [reflexivity|intros a d' H; revert d a d' H;
    match goal with |- ∀ d a d', ?m d = _ → _ => change (books m) end; unfold_to_credit; keeps_tac]).
  by apply ledger_same.
Qed.

(** Invariant: every sequence of commands keeps the value ledger in order: an item
    is credited at most once, with a positive amount, and at most one deduction takes
    back exactly that credit; the value shown for an item is its credit until the
    deduction and zero otherwise, so it is never negative. *)
Theorem value_ledger_in_order (ops : list WorkOp) (d : WorkDB) (itemID : uuid) :
  ledger_ok (value_ledger d) →
  let d' := execs ops d in
  ledger_ok (value_ledger d') ∧ item_value d' itemID = expected_value (value_ledger d') itemID ∧
  0 ≤ item_value d' itemID.
Proof.
  intros Hok d'. assert (ledger_ok (value_ledger d')) as Hok'.
  { unfold d'. clear d'. revert d Hok. induction ops as [|op ops IH]; intros d Hok; [done|].
    apply (IH (exec op d)). by apply exec_ledgers. }
  pose proof (ledger_value_expected _ itemID Hok') as Hv. unfold item_value. fold (ledger_value (value_ledger d') itemID).
  split_and!; [done|done|]. rewrite Hv. unfold expected_value.
  destruct (credit_of (value_ledger d') itemID) as [c|] eqn:Hc; [|lia]. pose proof (credit_positive _ _ _ Hok' Hc).
  case_match; lia.
Qed.
End value.

(** * Commands that add no attempt *)
Definition steady (d d' : WorkDB) : Prop :=
  work_items d' = work_items d ∧ ∀ k, is_Some (attempts d' !! k) → is_Some (attempts d !! k).
#[export] Instance steady_preorder : PreOrder steady.
Proof.
  split; [done|]. intros d1 d2 d3 [I1 A1] [I2 A2]. split; [congruence|auto].
Qed.
#[export] Instance steady_quiet : Quiet steady.
Proof. split; [typeclasses eauto|]. done. Qed.
Lemma steady_modify f : (∀ d, work_items (f d) = work_items d ∧ attempts (f d) = attempts d) → keeps steady (tx_modify f).
Proof. intros Hf. apply keeps_modify. intros d. destruct (Hf d) as [H1 H2]. split; [done|by rewrite H2]. Qed.
#[export] Hint Resolve steady_modify : keeps.
Lemma steady_PrepareNode now a : keeps steady (PrepareNode now a).
Proof. unfold_commands. keeps_tac. Qed.
Lemma steady_RecordCompletionReport jv now t r : keeps steady (RecordCompletionReport jv now t r).
Proof. unfold_commands. keeps_tac. Qed.
Lemma steady_CompleteTurn now t r c o : keeps steady (CompleteTurn now t r c o).
Proof. unfold_commands. keeps_tac. Qed.
Lemma steady_RespondBlocker jv now inp : keeps steady (RespondBlocker jv now inp).
Proof. unfold_commands. keeps_tac. Qed.
Lemma steady_SaveFeedback now inp : keeps steady (SaveFeedback now inp).
Proof. unfold_commands. keeps_tac. Qed.
(** Creating an attempt leaves the items alone. *)
Definition fixed (d d' : WorkDB) : Prop := work_items d' = work_items d.
#[export] Instance fixed_quiet : Quiet fixed.
Proof. split; [|done]. split; [done|]. intros d1 d2 d3 H1 H2. unfold fixed in *. congruence. Qed.
Lemma fixed_modify f : (∀ d, work_items (f d) = work_items d) → keeps fixed (tx_modify f).
Proof. intros Hf. apply keeps_modify. exact Hf. Qed.
#[export] Hint Resolve fixed_modify : keeps.
Lemma fixed_createAttemptTx now inp : keeps fixed (createAttemptTx now inp).
Proof. unfold_commands. keeps_tac. Qed.

Section view.
Context (jc : string → bool) (jv : string → json → bool) (ph : StartPayload → string).
Notation exec := (exec jc jv ph).
Notation execs := (execs jc jv ph).

(** The current attempt of an item is one of its attempts, and the only one that can
    be live. *)
Record item_wf (d : WorkDB) : Prop := {
  iw_current : ∀ id w k, work_items d !! id = Some w → wi_CurrentAttemptID w = Some k →
    ∃ a, attempts d !! k = Some a ∧ at_WorkItemID a = id;
  iw_live : ∀ k a r, attempts d !! k = Some a → workflow_runs (wk_rt d) !! k = Some r →
    isTerminal (run_State r) = false →
    ∃ w, work_items d !! at_WorkItemID a = Some w ∧ wi_CurrentAttemptID w = Some k }.

Lemma item_wf_steady d d' :
  work_wf jc d → extends (tables_of d) (tables_of d') → steady d d' → item_wf d → item_wf d'.
Proof.
  intros W X [Hi Ha] [I1 I2]. constructor.
  - rewrite Hi. intros id w k Hw Hk. destruct (I1 id w k Hw Hk) as (a & Hak & Hid).
    destruct (x_attempts _ _ X k a Hak) as (a' & Ha' & (_ & Hid' & _) & _). exists a'. split; [done|congruence].
  - rewrite Hi. intros k a' r' Hk Hr' Hlive. destruct (Ha k ltac:(eauto)) as [a Hka].
    destruct (x_attempts _ _ X k a Hka) as (a'' & Ha'' & (_ & Hid' & _) & _). cbn in Ha''.
    assert (a'' = a') as -> by congruence. rewrite Hid'.
    destruct (g_attempt _ _ _ _ _ _ _ _ W k a Hka) as (_ & [r Hr] & _). cbn in Hr.
    apply (I2 k a r Hka Hr). destruct (isTerminal (run_State r)) eqn:Hterm; [|done].
    assert (run_over (tables_of d) k) as Ho by (exists r; done).
    pose proof (x_runs _ _ X k ltac:(eauto) Ho) as Heq. cbn in Heq. congruence.
Qed.
(** A new current attempt, when the item has no live one. *)
Lemma item_wf_added d d' id att w :
  item_wf d → attempt_added d att id d' →
  (∀ k a r, attempts d !! k = Some a → workflow_runs (wk_rt d) !! k = Some r →
     isTerminal (run_State r) = false → at_WorkItemID a ≠ id) →
  work_items d' = <[id := set_current_attempt att w]> (work_items d) → item_wf d'.
Proof.
  intros [I1 I2] (a & r & m & Ha & Hai & Hr & Hnone & T) Hno Hi. injection T as _ Tr _ Ta _ _ _. constructor.
  - rewrite Hi, Ta. intros j v k [[<- <-]|[Hne Hj]]%lookup_insert_Some Hk.
    + injection Hk as <-. exists a. by rewrite lookup_insert_eq.
    + destruct (I1 j v k Hj Hk) as (b & Hb & ?). exists b. by rewrite lookup_insert_ne by congruence.
  - rewrite Hi, Ta, Tr. intros k b s [[<- <-]|[Hne Hb]]%lookup_insert_Some Hs Hlive.
    + rewrite Hai. exists (set_current_attempt att w). by rewrite lookup_insert_eq.
    + rewrite lookup_insert_ne in Hs by done. destruct (I2 k b s Hb Hs Hlive) as (v & Hv & Hc). exists v.
      rewrite lookup_insert_ne; [done|]. intros Heq. by eapply Hno.
Qed.

Lemma attempt_added_tables d d1 id item d' d1' :
  tables_of d1 = tables_of d → tables_of d1' = tables_of d' → attempt_added d1 id item d' → attempt_added d id item d1'.
Proof.
  intros E E' (a & r & m & H1 & H2 & H3 & H4 & T). injection E as Ed Er Et Ea En Etr Eb.
  exists a, r, m. rewrite E', T, Ed, Er, Et, Ea, En, Etr, Eb, <- Ea. done.
Qed.
Lemma Start_added now inp d x d' :
  work_wf jc d → Start jc ph now inp d = inr (x, d') →
  d' = d ∨ ∃ att w, work_items d !! wi_ID w = None ∧ attempt_added d att (wi_ID w) d' ∧
    work_items d' = <[wi_ID w := set_current_attempt att w]> (work_items d).
Proof.
  intros W (refs & hash & _ & _ & H)%Start_inv. destruct (existing_start d inp) as [w|].
  { left. by destruct H as (_ & _ & ->). }
  right. destruct H as (res & w & c & d1 & d3 & Hres & _ & E & Ei & Hnone & _ & <- & Hci & H & E' & Hi').
  apply (resolveForAttempt_inr jc) in Hres as (_ & Hdef & Hval); [|done].
  pose proof (fixed_createAttemptTx _ _ _ _ _ H) as Hfix. unfold fixed in Hfix. cbn in Hfix.
  apply (createAttemptTx_step jc) in H as [_ Hadd]; [| |by (cbn; injection E as -> _ _ _ _ _ _)|exact Hval].
  2: { change (tables_wf jc (tables_of d1)). by rewrite E. }
  exists (ci_ID c), w. rewrite Hci in Hadd. split_and!; [done| |].
  - by eapply attempt_added_tables; [exact E|exact E'|].
  - by rewrite Hi', Hfix, Ei, (alter_to_insert _ _ (wi_ID w) _ (lookup_insert_eq _ _ _)), insert_insert_eq.
Qed.
Lemma CreateRevision_added now inp d x d' :
  work_wf jc d → CreateRevision jc now inp d = inr (x, d') →
  ∃ att w cur r, work_items d !! ri_WorkItemID inp = Some w ∧ wi_CurrentAttemptID w = Some cur ∧
    workflow_runs (wk_rt d) !! cur = Some r ∧ run_State r = RunSucceeded ∧
    attempt_added d att (ri_WorkItemID inp) d' ∧
    work_items d' = <[ri_WorkItemID inp := set_current_attempt att w]> (work_items d).
Proof.
  intros W (key & ver & res & item & run & cur & c & d1 & d3 & Hres & Hitem & Hcur & Hrun & Hs & E & Ei & <- & Hci & H & E' & Hi')%CreateRevision_inv.
  apply (resolveForAttempt_inr jc) in Hres as (_ & Hdef & Hval); [|done].
  pose proof (fixed_createAttemptTx _ _ _ _ _ H) as Hfix. unfold fixed in Hfix.
  apply (createAttemptTx_step jc) in H as [_ Hadd]; [|by rewrite E|by (injection E as -> _ _ _ _ _ _)|exact Hval].
  exists (ci_ID c), item, cur, run. rewrite Hci in Hadd. split_and!; try done.
  - by eapply attempt_added_tables; [exact E|exact E'|].
  - by rewrite Hi', Hfix, Ei, (alter_to_insert _ _ _ item Hitem).
Qed.

Lemma exec_item_wf op d : work_wf jc d → item_wf d → item_wf (exec op d).
Proof.
  intros W I. assert (∀ d', gstep jc (tables_of d) (tables_of d') → steady d d' → item_wf d') as Hst.
  { intros d' Hg Hs. eapply item_wf_steady; [exact W| |exact Hs|exact I]. by eapply gstep_extends. }
  pose proof (exec_step jc jv ph op d W) as Hg. destruct op; simpl in *;
    try (revert Hg; apply (committed_ind _ (λ d d', gstep jc (tables_of d) (tables_of d') → item_wf d'));
         [done|intros a d' H Hg]).
  - destruct (Start_added _ _ _ _ _ W H) as [->|(att & w & Hnone & Hadd & Hi)]; [done|].
    eapply item_wf_added; [exact I|exact Hadd| |exact Hi]. intros k b r Hb Hr Hlive Heq.
    destruct (iw_live _ I k b r Hb Hr Hlive) as (v & Hv & _). congruence.
  - apply Hst; [done|by eapply steady_PrepareNode].
  - apply Hst; [done|by eapply steady_RecordCompletionReport].
  - apply Hst; [done|by eapply steady_CompleteTurn].
  - apply Hst; [done|by eapply steady_RespondBlocker].
  - apply Hst; [done|by eapply steady_SaveFeedback].
  - destruct (CreateRevision_added _ _ _ _ _ W H) as (att & w & cur & r & Hw & Hcur & Hr & Hs & Hadd & Hi).
    eapply item_wf_added; [exact I|exact Hadd| |exact Hi]. intros k b s Hb Hs' Hlive Heq.
    destruct (iw_live _ I k b s Hb Hs' Hlive) as (v & Hv & Hc). rewrite Heq in Hv.
    assert (k = cur) as -> by congruence. assert (s = r) as -> by congruence. by rewrite Hs in Hlive.
  - apply Hst; [done|by eapply (quiet_CreateValueModel steady)].
  - by apply Hst.
Qed.
Lemma execs_item_wf ops d : work_wf jc d → item_wf d → work_wf jc (execs ops d) ∧ item_wf (execs ops d).
Proof.
  revert d. induction ops as [|op ops IH]; intros d W I; [done|]. apply (IH (exec op d)).
  - eapply gstep_wf; [exact W|by apply exec_step].
  - by apply exec_item_wf.
Qed.

(** The active visit of the attempt is waiting for an answer. *)
Definition waiting (d : WorkDB) (k : uuid) : Prop :=
  ∃ j n, node_executions d !! j = Some n ∧ ne_AttemptID n = k ∧ ne_State n = NodeBlocked.
Lemma waiting_iff d k a r :
  work_wf jc d → attempts d !! k = Some a → workflow_runs (wk_rt d) !! k = Some r →
  waiting d k ↔ run_State r = RunAwaitingApproval.
Proof.
  intros W Ha Hr. split.
  - intros (j & n & Hj & <- & Hb). assert (active n) as Hact by (unfold active; by rewrite Hb).
    pose proof (g_live _ _ _ _ _ _ _ _ W j n r Hj Hact Hr) as Hm. by rewrite Hb in Hm.
  - intros Hs. destruct (proj1 (g_terminal _ _ _ _ _ _ _ _ W k a r Ha Hr)) as (j & n & Hj & Hn & Hact); [by rewrite Hs|].
    rewrite <- Hn in Hr. pose proof (g_live _ _ _ _ _ _ _ _ W j n r Hj Hact Hr) as Hm. exists j, n. split_and!; [done|done|].
    rewrite Hs in Hm. unfold active in Hact. destruct (ne_State n); simpl in *; naive_solver.
Qed.
Lemma open_blocker_iff d id w k a r :
  work_wf jc d → item_wf d → work_items d !! id = Some w → wi_CurrentAttemptID w = Some k →
  attempts d !! k = Some a → at_WorkItemID a = id → workflow_runs (wk_rt d) !! k = Some r →
  is_Some (open_blocker d id) ↔ run_State r = RunAwaitingApproval.
Proof.
  intros W I Hw Hk Ha Hid Hr. split.
  - intros [b Hb]. unfold open_blocker in Hb. apply head_Some_elem_of, elem_of_select in Hb as (Hb & j & Hj).
    apply andb_true_iff in Hb as [Hbi%String.eqb_eq Hopen%bool_decide_eq_true_1].
    destruct (s_blocker _ _ _ _ (g_side _ _ _ _ _ _ _ _ W) j b Hj) as (i & n & a' & _ & Hn & Hat & Ha' & Hai & Hst).
    cbn in Hn, Ha'. specialize (Hst Hopen). assert (active n) as Hact by (unfold active; by rewrite Hst).
    destruct (run_of_active _ _ _ _ W Hn Hact) as (r' & Hr' & Hlive). cbn in Hr'. rewrite <- Hat in Hr'.
    destruct (iw_live _ I _ a' r' Ha' Hr' Hlive) as (v & Hv & Hc). rewrite Hai, Hbi in Hv.
    assert (bl_AttemptID b = k) as Hbk by congruence. rewrite Hbk in *.
    apply (waiting_iff d k a r W Ha Hr). by exists i, n.
  - intros Hs. destruct (proj2 (waiting_iff d k a r W Ha Hr) Hs) as (j & n & Hj & Hn & Hb).
    destruct (s_blocked _ _ _ _ (g_side _ _ _ _ _ _ _ _ W) j n Hj Hb) as (i & b & Hbi & Hopen & Hbn).
    destruct (s_blocker _ _ _ _ (g_side _ _ _ _ _ _ _ _ W) i b Hbi) as (j' & n' & a' & Hj' & Hn' & Hat & Ha' & Hai & _).
    cbn in Hbi, Hn', Ha'. unfold open_blocker.
    destruct (select _ (blockers d)) as [|x l] eqn:Hsel; [|by eexists].
    assert (b ∈ @nil Blocker) as Hin; [|by apply not_elem_of_nil in Hin].
    rewrite <- Hsel. apply elem_of_select. split; [|eauto].
    rewrite (bool_decide_eq_true_2 (bl_State b = BlockerOpen)), andb_true_r by done. apply String.eqb_eq.
    assert (j' = j) as -> by congruence. assert (n' = n) as -> by congruence. congruence.
Qed.

(** Functional: after any sequence of commands, the state the customer sees for a
    work item is the state of its current attempt: failed when the run failed or was
    aborted, blocked exactly when the active visit waits for an answer (equivalently,
    when the item has an open blocker), todo while the run is pending, in progress
    while it runs, done when it succeeded. Open blockers of older attempts cannot leak
    into the view, because only the current attempt of an item can be live. *)
Theorem customer_state_correct (ops : list WorkOp) (d0 : WorkDB) (id : uuid) (w : WorkItem) (k : uuid) :
  work_wf jc d0 → item_wf d0 →
  let d := execs ops d0 in
  work_items d !! id = Some w → wi_CurrentAttemptID w = Some k →
  ∃ r, workflow_runs (wk_rt d) !! k = Some r ∧
    customer_state d id = Some match run_State r with
      | RunPending => StateTodo
      | RunRunning => StateInProgress
      | RunAwaitingApproval => StateBlocked
      | RunSucceeded => StateDone
      | RunFailed | RunAborted => StateFailed
      end ∧ (customer_state d id = Some StateBlocked ↔ waiting d k).
Proof.
  intros W0 I0 d Hw Hk. destruct (execs_item_wf ops d0 W0 I0) as [W I]. fold d in W, I.
  destruct (iw_current _ I id w k Hw Hk) as (a & Ha & Hid).
  destruct (g_attempt _ _ _ _ _ _ _ _ W k a Ha) as (_ & [r Hr] & _). cbn in Hr. exists r. split; [done|].
  pose proof (open_blocker_iff d id w k a r W I Hw Hk Ha Hid Hr) as Hob.
  rewrite (waiting_iff d k a r W Ha Hr).
  assert (customer_state d id = Some match run_State r with
      | RunPending => StateTodo | RunRunning => StateInProgress | RunAwaitingApproval => StateBlocked
      | RunSucceeded => StateDone | RunFailed | RunAborted => StateFailed end) as Hc.
  { unfold customer_state. rewrite Hw. simpl. rewrite Hk. simpl. rewrite Hr. simpl. f_equal.
    destruct (open_blocker d id) as [b|].
    - assert (run_State r = RunAwaitingApproval) as -> by (apply Hob; eauto). done.
    - destruct (run_State r) eqn:Hs; try done. destruct (proj2 Hob eq_refl) as [? ?]. done. }
  split; [done|]. rewrite Hc. destruct (run_State r); split; done.
Qed.
End view.
