(* ===== verification/WorkGates.v ===== *)
(** The gates of graph execution: repeated external writes need an exact confirmation,
    completion reports are accepted once, human answers are validated; and two ways the
    checks made when a definition is accepted are too weak for the checks made when it
    runs. *)
From S2P Require Import Prelude Json Duration Runtime Workflow WorkflowFacts WorkData WorkGraph.
From S2P Require Import WorkCommands WorkValue WorkSteps WorkInv WorkMachine WorkSim WorkFacts ResultFacts.

Section gates.
Context (jc : string → bool) (jv : string → json → bool).

(** The newest resolved confirmation of the visit lists exactly these consequences. *)
Definition confirmed_exactly (d : WorkDB) (nodeID : uuid) (cs : list Consequence) : Prop :=
  ∃ b, b ∈ resolved_confirmations d nodeID ∧
    (∀ b', b' ∈ resolved_confirmations d nodeID → default 0 (bl_ResolvedAt b') ≤ default 0 (bl_ResolvedAt b)) ∧
    sortedIDs (bl_RequiredConsequences b) = sortedIDs cs.
Lemma consequencesConfirmedTx_inr nodeID cs d b d' :
  consequencesConfirmedTx nodeID cs d = inr (b, d') → b = true → confirmed_exactly d nodeID cs.
Proof.
  unfold consequencesConfirmedTx. intros (dd & d1 & [<- <-]%tx_get_inr & H)%tx_bind_inr ->.
  destruct (min_by _ _) as [x|] eqn:Hmin; [|by apply tx_ret_inr in H as [? _]].
  apply tx_ret_inr in H as [H%bool_decide_eq_true_1 _]. apply min_by_Some in Hmin as [Hin Hmin].
  exists x. split_and!; [done| |done]. intros b' Hb'. specialize (Hmin b' Hb'). lia.
Qed.

(** C4. Safety: when a loop of the graph brings an agent node back, [PrepareNode] never
    starts a worker turn on it while writes of earlier visits of that node are
    unconfirmed. It dispatches only if there are no such writes, or if the newest
    answered confirmation of this very visit names exactly the current set; otherwise
    it creates no turn, blocks the visit and opens a confirmation that names exactly
    the current writes. *)
Theorem reentry_requires_confirmation (now : timestamp) (attemptID : uuid) (d d' : WorkDB)
    (node n : NodeExecution) (t : option Turn) (dispatch : bool) :
  work_wf jc d → active_node d attemptID = Some node → ne_State node = NodePending → 1 < ne_Visit node →
  ne_Kind node = NodeAgentTask → PrepareNode now attemptID d = inr ((n, t, dispatch), d') →
  ∃ cs, consequencesForNodeTx attemptID (ne_NodeKey node) (ne_ID node) d = inr (cs, d) ∧
    if dispatch then (cs = [] ∨ confirmed_exactly d (ne_ID node) cs) ∧ is_Some t
    else cs ≠ [] ∧ t = None ∧ turns (wk_rt d') = turns (wk_rt d) ∧
      (∃ n', node_executions d' !! ne_ID node = Some n' ∧ ne_State n' = NodeBlocked) ∧
      ∃ b, blockers d' !! bl_ID b = Some b ∧ bl_State b = BlockerOpen ∧
        bl_Kind b = "consequence_confirmation" ∧ bl_NodeExecutionID b = Some (ne_ID node) ∧
        bl_RequiredConsequences b = cs.
Proof.
  intros W Hnode Hp Hv Hkind H. pose proof (active_node_Some _ _ _ Hnode) as (k & Hk & Hat & Hact).
  pose proof (g_node_id _ _ _ _ _ _ _ _ W k node Hk) as Hid.
  destruct (g_node _ _ _ _ _ _ _ _ W k node Hk) as (a & def & Ha & Hdef & Hdk). cbn in Ha. rewrite Hat in Ha.
  unfold PrepareNode in H.
  apply tx_bind_inr in H as (dd & d1 & [<- <-]%tx_get_inr & H). rewrite Hnode in H.
  apply tx_bind_inr in H as (node' & d1 & [[= <-] <-]%tx_opt_inr & H). rewrite Hp in H.
  apply tx_bind_inr in H as (a' & d1 & [Ha' <-]%tx_opt_inr & H). assert (a' = a) as -> by congruence.
  apply tx_bind_inr in H as (run & d1 & [_ <-]%tx_opt_inr & H).
  apply tx_bind_inr in H as (u & d1 & [_ <-]%tx_require_inr & H). rewrite Hdef in H.
  apply tx_bind_inr in H as (def' & d1 & [[= <-] <-]%tx_opt_inr & H). rewrite Hdk, Hkind in H.
  apply tx_bind_inr in H as (bl & d1 & Hre & H). unfold prepare_reentry in Hre.
  rewrite Hp, (proj2 (Z.ltb_lt _ _) Hv) in Hre.
  apply tx_bind_inr in Hre as (cs & d2 & Hcs & Hre). pose proof (reads_consequencesForNodeTx _ _ _ _ _ _ Hcs) as <-.
  exists cs. split; [done|].
  assert (bl = None → dispatch = true ∧ is_Some t) as Hgo.
  { intros ->. apply tx_bind_inr in H as ([m tn] & d2 & _ & H). apply tx_ret_inr in H as [[= <- <- <-] _]. eauto. }
  case_bool_decide as Hempty.
  { apply tx_ret_inr in Hre as [<- <-]. destruct (Hgo eq_refl) as [-> ?]. auto. }
  apply tx_bind_inr in Hre as (cf & d2 & Hcf & Hre). pose proof (reads_consequencesConfirmedTx _ _ _ _ _ Hcf) as <-.
  destruct cf.
  { apply tx_ret_inr in Hre as [<- <-]. destruct (Hgo eq_refl) as [-> ?].
    pose proof (consequencesConfirmedTx_inr _ _ _ _ _ Hcf eq_refl). auto. }
  apply tx_bind_inr in Hre as (u1 & d2 & O1 & Hre). unfold createConsequenceBlockerTx in O1.
  apply tx_bind_inr in O1 as (bid & d3 & [-> ->]%new_uuid_inr & O1).
  match type of O1 with insert_blocker ?x _ = _ => set (b := x) in O1 end.
  apply insert_blocker_inr in O1 as (-> & _ & _).
  apply tx_bind_inr in Hre as (u2 & d4 & O2%update_node_tables & Hre).
  apply tx_bind_inr in Hre as (u3 & d5 & O3%update_run_inr & Hre).
  apply tx_bind_inr in Hre as (u4 & d6 & O4 & Hre). frame O4. apply tx_ret_inr in Hre as [<- <-].
  apply tx_ret_inr in H as [[= <- <- <-] <-]. injection O2 as _ _ Bt _ Bn _ Bb. rewrite O3 in E.
  injection E as _ _ Et _ En _ Eb. split_and!; [done|done|by rewrite Et, Bt| |].
  - exists (with_node_state NodeBlocked (ne_StartedAt node) (ne_FinishedAt node) node).
    rewrite En, Bn. cbn. rewrite Hid, (upd_insert _ _ _ _ node Hk), lookup_insert_eq. done.
  - exists b. rewrite Eb, Bb. cbn. rewrite lookup_insert_eq. done.
Qed.

(** C5. Safety: a confirmation of repeated writes is answered only by naming them
    exactly. When the answer to a confirmation blocker commits, either the disclosed set
    is still the current one and the caller confirmed exactly that set, the blocker is
    resolved and the visit pending again; or the set has changed since it was disclosed,
    and then nothing is confirmed: the blocker stays open and now discloses the current
    set. *)
Theorem confirmation_is_exact (now : timestamp) (inp : BlockerResponseInput) (d d' : WorkDB) (b : Blocker)
    (res : RespondResult) :
  work_wf jc d → blockers d !! br_BlockerID inp = Some b → bl_Kind b = "consequence_confirmation" →
  RespondBlocker jv now inp d = inr (res, d') →
  ∃ k n cs, bl_NodeExecutionID b = Some k ∧ node_executions d !! k = Some n ∧
    consequencesForNodeTx (bl_AttemptID b) (ne_NodeKey n) k d = inr (cs, d) ∧
    match res with
    | Responded _ =>
        sortedIDs (bl_RequiredConsequences b) = sortedIDs cs ∧
        sort_strings (br_ConfirmedInvocationIDs inp) = sortedIDs cs ∧
        (∃ b', blockers d' !! br_BlockerID inp = Some b' ∧ bl_State b' = BlockerResolved ∧
           bl_RespondedBy b' = Some (br_ActorIdentityID inp)) ∧
        ∃ n', node_executions d' !! k = Some n' ∧ ne_State n' = NodePending
    | RefreshRequired =>
        sortedIDs (bl_RequiredConsequences b) ≠ sortedIDs cs ∧ node_executions d' = node_executions d ∧
        ∃ b', blockers d' !! br_BlockerID inp = Some b' ∧ bl_State b' = BlockerOpen ∧ bl_RequiredConsequences b' = cs
    end.
Proof.
  intros W Hb Hkind (b0 & resp & refs & refresh & Hb0 & Hopen & _ & Hconf & H)%RespondBlocker_inv.
  rewrite Hb in Hb0. injection Hb0 as <-. rewrite Hkind, String.eqb_refl in Hconf, H.
  pose proof (s_blocker_id _ _ _ _ (g_side _ _ _ _ _ _ _ _ W) _ b Hb) as Hbid.
  destruct (s_blocker _ _ _ _ (g_side _ _ _ _ _ _ _ _ W) _ b Hb) as (k & n & a & Hk & Hn & _ & _ & _ & Hst).
  cbn in Hn. specialize (Hst Hopen). unfold check_confirmation in Hconf. rewrite Hk in Hconf.
  apply tx_bind_inr in Hconf as (k' & d1 & [[= <-] <-]%tx_opt_inr & Hconf).
  apply tx_bind_inr in Hconf as (dd & d1 & [<- <-]%tx_get_inr & Hconf). rewrite Hn in Hconf.
  apply tx_bind_inr in Hconf as (n0 & d1 & [[= <-] <-]%tx_opt_inr & Hconf).
  apply tx_bind_inr in Hconf as (cs & d1 & Hcs & Hconf). pose proof (reads_consequencesForNodeTx _ _ _ _ _ _ Hcs) as <-.
  exists k, n, cs. split_and!; try done. unfold equalStrings in Hconf.
  case_bool_decide as Heq; simpl in Hconf.
  - apply tx_bind_inr in Hconf as (u5 & d1 & [Hall%bool_decide_eq_true_1 <-]%tx_require_inr & Hconf).
    apply tx_ret_inr in Hconf as [<- _].
    destruct H as (-> & k' & Hk' & c & d2 & u & d3 & T2%update_node_tables & T3%update_run_inr & E).
    assert (k' = k) as -> by congruence.
    injection T2 as _ _ _ _ Bn _ Bb. rewrite T3 in E. injection E as _ _ _ _ En _ Eb.
    split_and!; [done|done| |].
    + eexists. rewrite Eb, Bb. cbn. by rewrite Hbid, lookup_insert_eq.
    + eexists. rewrite En, Bn. cbn. rewrite (upd_insert _ _ _ _ n Hn), lookup_insert_eq, Hst. done.
  - apply tx_ret_inr in Hconf as [<- _]. destruct H as [-> ->].
    split_and!; [done|done|]. exists (with_required cs b). cbn. rewrite Hbid, lookup_insert_eq. done.
Qed.

(** Functional: a completion report is recorded only for the running agent visit of
    its turn and only with an outcome the node declares; it is stored as reported, and it
    is final: no second report of the turn is accepted, whatever it says. *)
Theorem completion_report_once (now now2 : timestamp) (turnID : uuid) (report report2 : CompletionReport)
    (d d' : WorkDB) (u : ()) (x : () * WorkDB) :
  RecordCompletionReport jv now turnID report d = inr (u, d') →
  (∃ turn k n a def n', turns (wk_rt d) !! turnID = Some turn ∧ turn_NodeExecutionID turn = Some k ∧
     node_executions d !! k = Some n ∧ ne_State n = NodeRunning ∧ attempts d !! ne_AttemptID n = Some a ∧
     findNode (at_GraphSnapshot a) (ne_NodeKey n) = Some def ∧ cn_Kind def = NodeAgentTask ∧
     cr_Outcome report ∈ cn_Outcomes def ∧ node_executions d' !! k = Some n' ∧ ne_State n' = NodeRunning ∧
     ne_CompletionOutcome n' = Some (cr_Outcome report) ∧ ne_CompletionSummary n' = Some (cr_Summary report) ∧
     ne_CompletionReportedAt n' = Some now) ∧
  RecordCompletionReport jv now2 turnID report2 d' ≠ inr x.
Proof.
  intros (turn & k & n & a & def & out & refs & d2 & Hturn & Hk & Hn & Hrun & _ & Ha & Hdef & Hkind & Hout & Hnodes & Hd2 & E)%RecordCompletionReport_inv.
  rewrite Hd2 in E. injection E as _ _ Et _ En _ _. rewrite Hnodes in En.
  split; [do 6 eexists; rewrite En, lookup_insert_eq; split_and!; done|].
  destruct x as [u' d'']. intros (turn2 & k2 & n2 & _ & _ & _ & _ & _ & Hturn2 & Hk2 & Hn2 & _ & Hnone & _)%RecordCompletionReport_inv.
  rewrite Et, Hturn in Hturn2. injection Hturn2 as <-. rewrite Hk in Hk2. injection Hk2 as <-.
  rewrite En, lookup_insert_eq in Hn2. injection Hn2 as <-. done.
Qed.
End gates.

(** * Checks that disagree *)
(** A stored visit has a timeout of at least one millisecond. *)
Lemma insertNodeExecutionTx_timeout now att node visit seq ctx models spec d x t :
  ParseDuration (cn_Timeout node) = Some t → cn_Timeout node ≠ EmptyString → t < 1000000 →
  insertNodeExecutionTx now att node visit seq ctx models spec d ≠ inr x.
Proof.
  intros Ht Hne Hlt H. destruct x as [id d']. unfold insertNodeExecutionTx in H.
  apply tx_bind_inr in H as (ms & d1 & Hms & H).
  assert (ms = Some (t / 1000000) ∧ 0 < t) as [-> Hpos].
  { unfold timeout_ms in Hms. rewrite (proj2 (String.eqb_neq _ _) Hne), Ht in Hms.
    destruct (Z.leb_spec t 0); inv_tx; done. }
  do 6 (apply tx_bind_inr in H as (? & ? & _ & H)).
  apply tx_bind_inr in H as (? & ? & [Hb _]%tx_require_inr & _). rewrite Z.div_small in Hb by lia. done.
Qed.

Definition micro_node : CanonicalNode :=
  mkNode "draft" (text "Draft") NodeAgentTask "Write the draft" "gpt" [] ["search"] true "500us"
    ["ready"; "unclear"] None None None.
(** The workflow of [demo_spec] with a timeout of half a millisecond on the entry node. *)
Definition micro_spec : CanonicalSpec :=
  reorder demo_spec [micro_node; review_node] demo_edges demo_terminals.

(** Error: the checks on timeouts disagree. There is a spec with a positive timeout
    below one millisecond that [ValidateGraph] accepts, and no attempt on it can ever be
    created, whatever the database and the input, because the stored number of
    milliseconds is zero and violates the column's check. *)
Theorem accepted_timeout_never_runs :
  ∃ spec, ValidateGraph (λ _, true) spec = inr () ∧
    ∀ now inp d x, df_Spec (ci_Resolved inp) = spec → createAttemptTx now inp d ≠ inr x.
Proof.
  exists micro_spec. split; [vm_compute; reflexivity|]. intros now inp d [u d'] Hspec H. unfold createAttemptTx in H.
  rewrite Hspec in H.
  do 5 (apply tx_bind_inr in H as ([? ?] & ? & _ & H) || apply tx_bind_inr in H as (? & ? & _ & H)).
  do 4 (apply tx_bind_inr in H as (? & ? & _ & H)).
  apply tx_bind_inr in H as (entry & d1 & [Hentry _]%tx_opt_inr & H).
  assert (entry = micro_node) as -> by (vm_compute in Hentry; by injection Hentry).
  apply tx_bind_inr in H as (id & d2 & Hins & _). revert Hins.
  apply (insertNodeExecutionTx_timeout _ _ _ _ _ _ _ _ _ _ 500000); [vm_compute; reflexivity|done|lia].
Qed.

(** Error: a value model whose credit rounds to zero makes its work impossible to
    complete. If the credit of the attempt's value model rounds to 0.000000, then on the
    first attempt of an item no terminal outcome can commit: the ledger's check rejects
    the zero credit and with it the whole completion. *)
Theorem zero_credit_blocks_completion (now : timestamp) (itemID attemptID actor : uuid) (node : NodeExecution)
    (d : WorkDB) (a : Attempt) (v : ValueModel) (modelID : uuid) (o : string) (x : RunState * WorkDB) :
  attempts d !! attemptID = Some a → at_Number a = 1 → at_ValueModelID a = Some modelID →
  at_ValueModelSnapshot a = Some v → hourly_amount (vm_BaselineSeconds v) (vm_LoadedHourlyCost v) = 0 →
  ne_CompletionOutcome node = Some o → route (at_GraphSnapshot a) (ne_NodeKey node) o = Some None →
  advanceGraphTx now itemID attemptID node actor d ≠ inr x.
Proof.
  intros Ha Hnum Hid Hv Hzero Ho Hroute H. destruct x as [st d']. unfold advanceGraphTx in H. rewrite Ho in H.
  apply tx_bind_inr in H as (o' & d1 & [[= <-] <-]%tx_opt_inr & H).
  apply tx_bind_inr in H as (dd & d1 & [<- <-]%tx_get_inr & H). rewrite Ha in H.
  apply tx_bind_inr in H as (a' & d1 & [[= <-] <-]%tx_opt_inr & H).
  apply tx_bind_inr in H as (def & d1 & [_ <-]%tx_opt_inr & H).
  apply tx_bind_inr in H as (nd & d1 & [_ <-]%tx_opt_inr & H).
  do 2 (apply tx_bind_inr in H as (? & d1 & [_ <-]%tx_require_inr & H)).
  apply tx_bind_inr in H as (? & d1 & E1 & H). frame E1. rewrite Hroute in H. unfold advance_terminal in H.
  apply tx_bind_inr in H as ([] & d2 & E2%update_run_inr & H).
  apply tx_bind_inr in H as ([] & d3 & E3 & H). rewrite update_attempt_eq in E3. injection E3 as <-.
  apply tx_bind_inr in H as ([] & d4 & (t & _ & _ & _ & _ & _ & E4)%insert_transition_inr & H).
  apply tx_bind_inr in H as (? & d5 & H & _). unfold creditValueTx in H.
  apply tx_bind_inr in H as (dd & d6 & [<- <-]%tx_get_inr & H).
  injection E4 as _ _ _ E4 _ _ _. injection E2 as _ _ _ E2 _ _ _. injection E as _ _ _ E _ _ _.
  rewrite E4 in H. cbn in H. rewrite E2, E, lookup_alter_eq, Ha in H.
  apply tx_bind_inr in H as (a' & d6 & [[= <-] <-]%tx_opt_inr & H). cbn in H. rewrite Hid, Hv, Hnum in H. cbn in H.
  apply tx_bind_inr in H as (added & d6 & H & _). unfold insert_ledger in H. cbn in H. rewrite Hzero in H.
  apply tx_bind_inr in H as (dd & d7 & [<- <-]%tx_get_inr & H).
  apply tx_bind_inr in H as (? & d7 & [_ <-]%tx_require_inr & H).
  apply tx_bind_inr in H as (? & d7 & [Hbad _]%tx_require_inr & _). done.
Qed.
