(* ===== verification/WorkDemo.v ===== *)
(** A concrete work database and runs through it, on which the theorems about the work
    domain are applied: a proposal is drafted by an agent and approved by a person; a
    second draft waits for the confirmation of the first draft's external write; an item
    whose credit rounds to zero cannot be completed. *)
From S2P Require Import Prelude Json Duration Runtime Workflow WorkflowFacts ResultFacts WorkData WorkGraph.
From S2P Require Import WorkCommands WorkValue WorkInv WorkMachine WorkSim WorkFacts WorkItems WorkAudit WorkGates.
From Stdlib Require Import Ascii.

Definition letter (n : nat) : uuid := String (ascii_of_nat (65 + n)) EmptyString.
Definition demo_definition : Definition_ :=
  {| df_ID := "def1"; df_Key := "proposal"; df_Version := "1"; df_Digest := "d1"; df_Spec := demo_spec;
     df_ValidationStatus := "valid"; df_ScopeIdentityID := "u"; df_SourceType := "manual";
     df_PoolKey := "ns/pool"; df_Presentation := cs_Presentation demo_spec; df_CreatedAt := 1; df_DeletedAt := None |}.
Definition demo_catalog : Catalog :=
  {| ca_bindings := {["proposal:1" := {| pb_PoolID := "pool"; pb_PermittedTools := [] |}]};
     ca_models := {["ns/gpt" := {| mr_ID := "m1"; mr_ContextLength := 8192; mr_DefaultParams := JObj [];
                                   mr_ReasoningConfig := JObj [] |}]};
     ca_tool_versions := [{| tv_ID := "tv"; tv_Name := "search"; tv_Digest := "sd"; tv_EffectClass := "read_only";
                             tv_CreatedAt := 1 |}];
     ca_grants := [{| pg_PoolID := "pool"; pg_ToolName := "search"; pg_MaxEffectClass := "read_only" |}] |}.
(** A database with the registered workflow and no work. *)
Definition demo_work_db : WorkDB :=
  mkWorkDB (mkRuntimeDB {["u"]} ∅ ∅ ∅ [] letter 0) {["def1" := demo_definition]} ∅ ∅ ∅ [] ∅ ∅ [] [] [] ∅ ∅ []
    demo_catalog [] ∅.

Definition demo_start : StartInput :=
  {| st_ActorIdentityID := "u"; st_WorkflowKey := "proposal"; st_WorkflowVersion := EmptyString;
     st_IdempotencyKey := "k1"; st_Title := "Offer"; st_Source := NoJSON; st_SourceBytes := 0;
     st_SourcePresentation := {| sp_Kind := "mail"; sp_Title := "Request"; sp_Subtitle := EmptyString;
                                 sp_OriginalURL := EmptyString; sp_Evidence := [] |};
     st_ArtifactRefs := []; st_InitiatingHumanIdentityID := "u"; st_AuthorizationSource := "browser";
     st_AuthorizationAPIKeyID := EmptyString; st_AuthorizationSessionID := "session" |}.
Definition any_schema (s : string) : bool := true.
Definition any_instance (s : string) (v : json) : bool := true.
Definition title_hash (p : StartPayload) : string := py_Title p.
Definition demo_report : CompletionReport :=
  {| cr_Outcome := "ready"; cr_Summary := "drafted"; cr_Output := NoJSON; cr_ArtifactRefs := [] |}.
Definition demo_answer : BlockerResponseInput :=
  {| br_BlockerID := "H"; br_ActorIdentityID := "u"; br_Outcome := "approved"; br_Response := NoJSON;
     br_ArtifactRefs := []; br_ConfirmedInvocationIDs := [] |}.
Definition demo_exec : list WorkOp → WorkDB → WorkDB := execs any_schema any_instance title_hash.

Definition draft_ops : list WorkOp :=
  [OpStart 10 demo_start; OpPrepareNode 11 "B"; OpReport 12 "D" demo_report].
Definition demo_ops : list WorkOp :=
  draft_ops ++ [OpCompleteTurn 13 "D" "completed" None None; OpPrepareNode 14 "B"; OpRespond 15 demo_answer].
(** The draft is reported but its turn is still running. *)
Definition drafted : WorkDB := demo_exec draft_ops demo_work_db.
(** The proposal is approved. *)
Definition approved : WorkDB := demo_exec demo_ops demo_work_db.
Example approved_is_done : customer_state approved "A" = Some StateDone.
Proof. vm_compute. reflexivity. Qed.

(** ** The databases are well-formed *)
Lemma demo_wf : work_wf any_schema demo_work_db.
Proof.
  unfold work_wf, tables_wf, demo_work_db. cbn.
  constructor; [..|constructor| |]; try (intros *; rewrite ?lookup_empty; done).
  - intros t Ht. by apply not_elem_of_nil in Ht.
  - intros k x H. apply lookup_singleton_Some in H as [<- <-]. done.
Qed.
Lemma demo_items : item_wf demo_work_db.
Proof. constructor; cbn; intros *; rewrite lookup_empty; done. Qed.
Lemma demo_starts : start_unique demo_work_db.
Proof. split; cbn; intros *; rewrite lookup_empty; done. Qed.
Lemma demo_exec_wf ops : work_wf any_schema (demo_exec ops demo_work_db).
Proof. apply execs_wf, demo_wf. Qed.
(** A command that commits, by evaluation. *)
Definition commits {A} (m : WkTx A) (d : WorkDB) : bool := match m d with inr _ => true | inl _ => false end.
Lemma commits_inr {A} (m : WkTx A) d : commits m d = true → ∃ a d', m d = inr (a, d').
Proof. unfold commits. destruct (m d) as [|[a d']]; [done|eauto]. Qed.

(** ** The theorems at these databases *)
Lemma commands_refine_graph_machine_witness :
  let d := exec any_schema any_instance title_hash (OpStart 10 demo_start) demo_work_db in
  gstep any_schema (tables_of demo_work_db) (tables_of d) ∧ is_Some (attempts d !! "B").
Proof.
  split; [|by eexists; vm_compute; reflexivity].
  apply (commands_refine_graph_machine any_schema any_instance title_hash). apply demo_wf.
Defined.
Lemma graph_execution_invariant_witness :
  work_wf any_schema approved ∧ run_State <$> workflow_runs (wk_rt approved) !! "B" = Some RunSucceeded.
Proof.
  split; [|vm_compute; reflexivity].
  apply (graph_execution_invariant any_schema any_instance title_hash demo_ops demo_work_db). apply demo_wf.
Defined.
Lemma history_is_immutable_witness :
  extends (tables_of drafted) (tables_of (demo_exec [OpCompleteTurn 13 "D" "completed" None None] drafted)).
Proof.
  apply (history_is_immutable any_schema any_instance title_hash). apply demo_exec_wf.
Defined.
Lemma visit_history_is_graph_path_witness :
  ∃ n a p, node_executions approved !! "F" = Some n ∧ ne_ExecutionSeq n = 2 ∧ attempts approved !! "B" = Some a ∧
    execution_path approved "B" (at_GraphSnapshot a) p ∧ last p = Some n.
Proof.
  destruct (node_executions approved !! "F") as [n|] eqn:Hn; [|vm_compute in Hn; discriminate].
  destruct (visit_history_is_graph_path any_schema approved "F" n (demo_exec_wf demo_ops) Hn)
    as (a & p & Ha & Hp & Hl & _).
  assert (Some (ne_AttemptID n, ne_ExecutionSeq n) = Some ("B", 2)) as [= Hat Hseq].
  { change (Some (ne_AttemptID n, ne_ExecutionSeq n))
      with ((λ n, (ne_AttemptID n, ne_ExecutionSeq n)) <$> Some n). rewrite <- Hn. vm_compute. reflexivity. }
  rewrite Hat in Ha, Hp. exists n, a, p. exact (conj eq_refl (conj Hseq (conj Ha (conj Hp Hl)))).
Defined.
Lemma routing_total_and_unambiguous_witness :
  ∃ a, attempts approved !! "B" = Some a ∧ at_GraphSnapshot a = demo_graph ∧
    ∃ e, e ∈ cg_Edges demo_graph ∧ edge_key e = ("draft", "ready") ∧
      route demo_graph "draft" "ready" = Some (Some (ce_To e)).
Proof.
  destruct (attempts approved !! "B") as [a|] eqn:Ha; [|vm_compute in Ha; discriminate].
  assert (Some (at_GraphSnapshot a) = Some demo_graph) as [= Hg].
  { change (Some (at_GraphSnapshot a)) with (at_GraphSnapshot <$> Some a). rewrite <- Ha. vm_compute. reflexivity. }
  exists a. split; [exact eq_refl|]. split; [exact Hg|].
  destruct (routing_total_and_unambiguous any_schema approved "B" a "draft" "ready" draft_node) as [H|H].
  - apply demo_exec_wf.
  - exact Ha.
  - rewrite Hg. reflexivity.
  - apply (bool_decide_unpack _). vm_compute. exact I.
  - destruct H as [H _]. rewrite Hg in H. vm_compute in H. discriminate.
  - rewrite Hg in H. destruct H as (e & _ & He & Hk & Hr & _).
    exists e. exact (conj He (conj Hk Hr)).
Defined.
Lemma complete_turn_correct_witness :
  ∃ st d', CompleteTurn 13 "D" "completed" None None drafted = inr (st, d') ∧
    turn_settled drafted "D" "completed" st d'.
Proof.
  destruct (commits_inr (CompleteTurn 13 "D" "completed" None None) drafted) as (st & d' & H);
    [vm_compute; reflexivity|].
  exists st, d'. split; [exact H|]. apply (complete_turn_correct any_schema drafted d' 13 "D" "completed" None None st).
  - apply demo_exec_wf.
  - exact H.
Defined.

Lemma start_is_idempotent_witness :
  ∃ id d1, Start any_schema title_hash 10 demo_start demo_work_db = inr ((id, true), d1) ∧
    let d2 := demo_exec [OpPrepareNode 11 "B"] d1 in
    Start any_schema title_hash 99 demo_start d2 = inr ((id, false), d2).
Proof.
  destruct (commits_inr (Start any_schema title_hash 10 demo_start) demo_work_db) as ([id c] & d1 & H);
    [vm_compute; reflexivity|].
  assert (c = true) as ->.
  { assert (match Start any_schema title_hash 10 demo_start demo_work_db with
            | inr ((_, c), _) => c | inl _ => false end = true) as Hc by (vm_compute; reflexivity).
    rewrite H in Hc. exact Hc. }
  exists id, d1. split; [exact H|].
  exact (proj1 (start_is_idempotent any_schema any_instance title_hash 10 99 demo_start [OpPrepareNode 11 "B"]
    demo_work_db d1 id true demo_starts H)).
Defined.
Lemma value_ledger_in_order_witness :
  ledger_ok (value_ledger approved) ∧ 0 ≤ item_value approved "A".
Proof.
  destruct (value_ledger_in_order any_schema any_instance title_hash demo_ops demo_work_db "A" ledger_nil) as (H & _ & Hv).
  exact (conj H Hv).
Defined.
Lemma customer_state_correct_witness :
  ∃ w r, work_items approved !! "A" = Some w ∧ workflow_runs (wk_rt approved) !! "B" = Some r ∧
    customer_state approved "A" = Some StateDone.
Proof.
  destruct (work_items approved !! "A") as [w|] eqn:Hw; [|vm_compute in Hw; discriminate].
  assert (wi_CurrentAttemptID <$> Some w = Some (Some "B")) as Hc by (rewrite <- Hw; vm_compute; reflexivity).
  destruct (customer_state_correct any_schema any_instance title_hash demo_ops demo_work_db "A" w "B" demo_wf demo_items Hw)
    as (r & Hr & _ & _); [by injection Hc|].
  exists w, r. exact (conj eq_refl (conj Hr approved_is_done)).
Defined.
Lemma completion_report_once_witness :
  ∃ d', RecordCompletionReport any_instance 12 "D" demo_report (demo_exec (take 2 draft_ops) demo_work_db) = inr ((), d') ∧
    ∀ x, RecordCompletionReport any_instance 13 "D" demo_report d' ≠ inr x.
Proof.
  destruct (commits_inr (RecordCompletionReport any_instance 12 "D" demo_report)
    (demo_exec (take 2 draft_ops) demo_work_db)) as ([] & d' & H); [vm_compute; reflexivity|].
  exists d'. split; [exact H|]. intros x.
  exact (proj2 (completion_report_once any_instance 12 13 "D" demo_report demo_report _ d' () x H)).
Defined.

(** ** A second draft after an external write *)
Definition unclear_report : CompletionReport :=
  {| cr_Outcome := "unclear"; cr_Summary := "not clear"; cr_Output := NoJSON; cr_ArtifactRefs := [] |}.
Definition crm_write : Invocation :=
  {| iv_ID := "call1"; iv_CallerScope := "turn"; iv_CallerScopeID := "D"; iv_EffectClass := "non_idempotent_write";
     iv_State := "succeeded"; iv_ConsequenceSummary := JObj [("en", JStr "CRM updated"); ("pt", JStr "CRM atualizado")];
     iv_CreatedAt := 12 |}.
Definition redraft : WorkDB :=
  demo_exec [OpStart 10 demo_start; OpPrepareNode 11 "B"; OpExternal ∅ [crm_write]; OpReport 12 "D" unclear_report;
             OpCompleteTurn 13 "D" "completed" None None] demo_work_db.
Lemma reentry_requires_confirmation_witness :
  ∃ node n t dispatch d', active_node redraft "B" = Some node ∧
    PrepareNode 14 "B" redraft = inr ((n, t, dispatch), d') ∧ dispatch = false ∧ t = None.
Proof.
  destruct (active_node redraft "B") as [node|] eqn:Hn; [|vm_compute in Hn; discriminate].
  destruct (commits_inr (PrepareNode 14 "B") redraft) as ([[n t] dispatch] & d' & H); [vm_compute; reflexivity|].
  assert (dispatch = false) as ->.
  { assert (match PrepareNode 14 "B" redraft with inr ((_, b), _) => negb b | inl _ => false end = true) as Hc
      by (vm_compute; reflexivity).
    rewrite H in Hc. by apply negb_true_iff in Hc. }
  assert ((λ n, (ne_State n, ne_Visit n, ne_Kind n)) <$> Some node = Some (NodePending, 2, NodeAgentTask)) as Hv
    by (rewrite <- Hn; vm_compute; reflexivity).
  injection Hv as H1 H2 H3.
  destruct (reentry_requires_confirmation any_schema 14 "B" redraft d' node n t false) as (cs & _ & _ & Ht & _).
  - apply demo_exec_wf.
  - exact Hn.
  - exact H1.
  - rewrite H2. lia.
  - exact H3.
  - exact H.
  - exists node, n, t, false, d'. exact (conj eq_refl (conj H (conj eq_refl Ht))).
Defined.
(** The confirmation is open. *)
Definition asked : WorkDB := demo_exec [OpPrepareNode 14 "B"] redraft.
Definition confirm_input : BlockerResponseInput :=
  {| br_BlockerID := "H"; br_ActorIdentityID := "u"; br_Outcome := "confirmed"; br_Response := NoJSON;
     br_ArtifactRefs := []; br_ConfirmedInvocationIDs := ["call1"] |}.
Lemma confirmation_is_exact_witness :
  ∃ b res d', blockers asked !! "H" = Some b ∧ RespondBlocker any_instance 15 confirm_input asked = inr (res, d') ∧
    ∃ k n cs, bl_NodeExecutionID b = Some k ∧ node_executions asked !! k = Some n ∧
      consequencesForNodeTx (bl_AttemptID b) (ne_NodeKey n) k asked = inr (cs, asked).
Proof.
  destruct (blockers asked !! "H") as [b|] eqn:Hb; [|vm_compute in Hb; discriminate].
  destruct (commits_inr (RespondBlocker any_instance 15 confirm_input) asked) as (res & d' & H); [vm_compute; reflexivity|].
  assert (bl_Kind <$> Some b = Some "consequence_confirmation") as Hk by (rewrite <- Hb; vm_compute; reflexivity).
  injection Hk as Hk.
  destruct (confirmation_is_exact any_schema any_instance 15 confirm_input asked d' b res) as (k & n & cs & H1 & H2 & H3 & _).
  - unfold asked, redraft, demo_exec. rewrite <- execs_app. apply demo_exec_wf.
  - exact Hb.
  - exact Hk.
  - exact H.
  - exists b, res, d'. split; [exact eq_refl|]. split; [exact H|]. exists k, n, cs. exact (conj H1 (conj H2 H3)).
Defined.

(** ** An item whose credit rounds to zero *)
Definition tiny_model : ValueModelInput :=
  {| vi_Ref := "tiny"; vi_Version := "1"; vi_Currency := "EUR"; vi_BaselineSeconds := 1;
     vi_LoadedHourlyCost := "0.001"; vi_Assumptions := NoJSON; vi_Explanation := NoJSON |}.
Definition tiny_definition : Definition_ :=
  {| df_ID := "def1"; df_Key := "proposal"; df_Version := "1"; df_Digest := "d1";
     df_Spec := mkSpec (cs_Key demo_spec) (cs_ScopeIdentityKey demo_spec) (cs_Source demo_spec) (cs_Skills demo_spec)
       (cs_RequestedCapabilities demo_spec) (cs_DefaultModelRef demo_spec) (cs_Graph demo_spec) "tiny"
       (cs_Presentation demo_spec) (cs_PoolRef demo_spec);
     df_ValidationStatus := "valid"; df_ScopeIdentityID := "u"; df_SourceType := "manual";
     df_PoolKey := "ns/pool"; df_Presentation := cs_Presentation demo_spec; df_CreatedAt := 1; df_DeletedAt := None |}.
Definition tiny_db : WorkDB := set_definitions {["def1" := tiny_definition]} demo_work_db.
(** The model is accepted, and the proposal waits for approval. *)
Definition tiny_waiting : WorkDB :=
  demo_exec [OpValueModel 9 tiny_model; OpStart 10 demo_start; OpPrepareNode 11 "C"; OpReport 12 "E" demo_report;
             OpCompleteTurn 13 "E" "completed" None None; OpPrepareNode 14 "C"] tiny_db.
Definition tiny_answer : BlockerResponseInput :=
  {| br_BlockerID := "I"; br_ActorIdentityID := "u"; br_Outcome := "approved"; br_Response := NoJSON;
     br_ArtifactRefs := []; br_ConfirmedInvocationIDs := [] |}.
(** The approval is rolled back, and the item stays blocked. *)
Example tiny_never_done :
  RespondBlocker any_instance 15 tiny_answer tiny_waiting = inl (WErrDB (ErrCheckViolation "value_ledger_check")) ∧
  customer_state (demo_exec [OpRespond 15 tiny_answer] tiny_waiting) "B" = Some StateBlocked.
Proof. split; vm_compute; reflexivity. Qed.
Lemma zero_credit_blocks_completion_witness :
  ∃ a v n, attempts tiny_waiting !! "C" = Some a ∧ at_ValueModelSnapshot a = Some v ∧
    hourly_amount (vm_BaselineSeconds v) (vm_LoadedHourlyCost v) = 0 ∧
    ∀ x, advanceGraphTx 15 "B" "C" n "u" tiny_waiting ≠ inr x.
Proof.
  destruct (attempts tiny_waiting !! "C") as [a|] eqn:Ha; [|vm_compute in Ha; discriminate].
  destruct (node_executions tiny_waiting !! "G") as [n|] eqn:Hn; [|vm_compute in Hn; discriminate].
  assert ((λ a, (at_Number a, at_ValueModelID a, at_GraphSnapshot a)) <$> Some a = Some (1, Some "A", demo_graph)) as H
    by (rewrite <- Ha; vm_compute; reflexivity). injection H as H1 H2 H3.
  destruct (value_models tiny_waiting !! "A") as [v|] eqn:Hm; [|vm_compute in Hm; discriminate].
  assert (at_ValueModelSnapshot <$> Some a = Some (Some v)) as Hv
    by (rewrite <- Ha, <- Hm; vm_compute; reflexivity). injection Hv as Hv.
  assert ((λ v, hourly_amount (vm_BaselineSeconds v) (vm_LoadedHourlyCost v)) <$> Some v = Some 0) as Hz
    by (rewrite <- Hm; vm_compute; reflexivity). injection Hz as Hz.
  assert (ne_NodeKey <$> Some n = Some "review") as Hk by (rewrite <- Hn; vm_compute; reflexivity). injection Hk as Hk.
  exists a, v, (with_report 15 "approved" "Human response received" (JObj []) [] n).
  split; [exact eq_refl|]. split; [exact Hv|]. split; [exact Hz|]. intros x.
  apply (zero_credit_blocks_completion 15 "B" "C" "u" _ tiny_waiting a v "A" "approved" x).
  - exact Ha.
  - exact H1.
  - exact H2.
  - exact Hv.
  - exact Hz.
  - reflexivity.
  - rewrite H3. change (route demo_graph (ne_NodeKey n) "approved" = Some None). rewrite Hk. reflexivity.
Defined.
