(* ===== verification/Registry.v ===== *)
(** The workflow definition registry (control-plane/internal/workflow/store.go): immutable
    versioned definitions, their owners and their trigger bindings.

    A definition row is [Definition_] of [WorkData]; the canonical spec and presentation
    are kept decoded, a nil spec is the spec that decodes from the empty object. The
    advisory lock serialises registrations of one key, so each operation is one
    transaction. Identities are the map from id to key of [identity.identities]. *)
From S2P Require Import Prelude Json Duration Runtime Workflow WorkData.

Record TriggerBindingRow := {
  tb_ID : uuid; tb_DefinitionID : uuid; tb_Name : string; tb_SourceType : string;
  tb_BindingKey : string; tb_CreatedAt : timestamp; tb_UpdatedAt : timestamp;
  tb_DeletedAt : option timestamp }.
Record TriggerBindingInput := { ti_Name : string; ti_BindingKey : string }.
(** A [Definition] as the caller fills it. *)
Record DefinitionInput := {
  di_Key : string; di_Version : string; di_Digest : string; di_Spec : option CanonicalSpec;
  di_ValidationStatus : string; di_ScopeIdentityID : string; di_SourceType : string;
  di_PoolKey : string; di_Presentation : option CanonicalPresentation }.

Record RegDB := mkRegDB {
  rg_definitions : gmap uuid Definition_;
  rg_bindings : gmap uuid TriggerBindingRow;
  rg_identities : gmap uuid string;
  rg_uuids : nat → uuid;
  rg_next : nat }.
Definition set_rdefs (v : gmap uuid Definition_) (d : RegDB) : RegDB :=
  mkRegDB v (rg_bindings d) (rg_identities d) (rg_uuids d) (rg_next d).
Definition set_rbinds (v : gmap uuid TriggerBindingRow) (d : RegDB) : RegDB :=
  mkRegDB (rg_definitions d) v (rg_identities d) (rg_uuids d) (rg_next d).

Inductive RegErr :=
| RErrNotFound
| RErrImmutableVersion (digest : string)
| RErrDefinitionOwnership (owner : uuid)
| RErrInput (msg : string)
| RErrDB (e : RtErr).
Abbreviation RegTx := (Tx RegDB RegErr).
(** The default of the id column. *)
Definition reg_uuid : RegTx uuid :=
  d ← tx_get;
  tx_modify (λ d, mkRegDB (rg_definitions d) (rg_bindings d) (rg_identities d) (rg_uuids d) (S (rg_next d)));;
  mret (rg_uuids d (rg_next d)).

(** * Registration *)
Definition zero_presentation : CanonicalPresentation :=
  {| pr_WorkflowTitle := EmptyString; pr_PersonaName := EmptyString; pr_PersonaAvatar := EmptyString;
     pr_Locale := EmptyString |}.
Definition zero_spec : CanonicalSpec :=
  mkSpec EmptyString EmptyString {| so_Type := EmptyString; so_TriggerBindings := [] |} [] [] EmptyString
    (mkGraph EmptyString 0 [] [] []) EmptyString zero_presentation EmptyString.
Definition prepareDefinition (x : DefinitionInput) : RegTx (CanonicalSpec * CanonicalPresentation) :=
  tx_require (negb (String.eqb (di_Key x) EmptyString) && negb (String.eqb (di_Version x) EmptyString) &&
              negb (String.eqb (di_Digest x) EmptyString)) (RErrInput "key, version, and digest are required");;
  tx_require (negb (String.eqb (di_ScopeIdentityID x) EmptyString)) (RErrInput "scope_identity_id is required");;
  mret (default zero_spec (di_Spec x), default zero_presentation (di_Presentation x)).

(** [ORDER BY created_at, id LIMIT 1]. *)
Definition older (a b : Definition_) : bool :=
  (df_CreatedAt a <? df_CreatedAt b) ||
  ((df_CreatedAt a =? df_CreatedAt b) && String.leb (df_ID a) (df_ID b)).
Definition oldest_of (l : list Definition_) : option Definition_ :=
  foldr (λ x acc, match acc with
                  | None => Some x
                  | Some y => if older x y then Some x else Some y
                  end) None l.
Definition versions_of (d : RegDB) (key : string) : list Definition_ :=
  select (λ r, String.eqb (df_Key r) key) (rg_definitions d).
Definition lockAndCheckDefinitionOwner (x : DefinitionInput) : RegTx () :=
  d ← tx_get;
  match oldest_of (versions_of d (di_Key x)) with
  | Some r => tx_require (String.eqb (df_ScopeIdentityID r) (di_ScopeIdentityID x))
                (RErrDefinitionOwnership (df_ScopeIdentityID r))
  | None => mret ()
  end.

Definition row_at (d : RegDB) (key version : string) : option Definition_ :=
  head (select (λ r, String.eqb (df_Key r) key && String.eqb (df_Version r) version) (rg_definitions d)).
Definition with_deleted (t : option timestamp) (r : Definition_) : Definition_ :=
  {| df_ID := df_ID r; df_Key := df_Key r; df_Version := df_Version r; df_Digest := df_Digest r;
     df_Spec := df_Spec r; df_ValidationStatus := df_ValidationStatus r;
     df_ScopeIdentityID := df_ScopeIdentityID r; df_SourceType := df_SourceType r; df_PoolKey := df_PoolKey r;
     df_Presentation := df_Presentation r; df_CreatedAt := df_CreatedAt r; df_DeletedAt := t |}.
Definition source_types : list string := ["graph_email"; "operator_artifact"; "manual_api"].
(** The INSERT with its checks; on a conflict of (key, version) a deleted row of the
    same owner and digest is revived, any other row stays as it is. *)
Definition insertDefinition (now : timestamp) (x : DefinitionInput) (spec : CanonicalSpec)
    (presentation : CanonicalPresentation) : RegTx () :=
  id ← reg_uuid;
  tx_require (String.eqb (di_ValidationStatus x) "valid" || String.eqb (di_ValidationStatus x) "invalid")
    (RErrDB (ErrCheckViolation "definitions_validation_status_check"));;
  tx_require (bool_decide (di_SourceType x ∈ source_types)) (RErrDB (ErrCheckViolation "definitions_source_type_check"));;
  d ← tx_get;
  match row_at d (di_Key x) (di_Version x) with
  | Some r =>
      if String.eqb (df_ScopeIdentityID r) (di_ScopeIdentityID x) && String.eqb (df_Digest r) (di_Digest x) &&
         bool_decide (is_Some (df_DeletedAt r))
      then tx_modify (set_rdefs (<[df_ID r := with_deleted None r]> (rg_definitions d)))
      else mret ()
  | None =>
      tx_require (bool_decide (rg_definitions d !! id = None)) (RErrDB (ErrUniqueViolation "definitions_pkey"));;
      tx_require (bool_decide (is_Some (rg_identities d !! di_ScopeIdentityID x)))
        (RErrDB (ErrForeignKeyViolation "definitions_scope_identity_id_fkey"));;
      tx_modify (set_rdefs (<[id := {| df_ID := id; df_Key := di_Key x; df_Version := di_Version x;
        df_Digest := di_Digest x; df_Spec := spec; df_ValidationStatus := di_ValidationStatus x;
        df_ScopeIdentityID := di_ScopeIdentityID x; df_SourceType := di_SourceType x; df_PoolKey := di_PoolKey x;
        df_Presentation := presentation; df_CreatedAt := now; df_DeletedAt := None |}]> (rg_definitions d)))
  end.
Definition readRegisteredDefinition (x : DefinitionInput) : RegTx Definition_ :=
  d ← tx_get;
  r ← tx_opt (row_at d (di_Key x) (di_Version x)) RErrNotFound;
  tx_require (String.eqb (df_ScopeIdentityID r) (di_ScopeIdentityID x)) (RErrDefinitionOwnership (df_ScopeIdentityID r));;
  tx_require (String.eqb (df_Digest r) (di_Digest x)) (RErrImmutableVersion (df_Digest r));;
  mret r.
Definition RegisterDefinition (now : timestamp) (x : DefinitionInput) : RegTx Definition_ :=
  '(spec, presentation) ← prepareDefinition x;
  lockAndCheckDefinitionOwner x;;
  insertDefinition now x spec presentation;;
  readRegisteredDefinition x.

(** * Lookups *)
Definition is_active (r : Definition_) : bool := bool_decide (df_DeletedAt r = None).
Definition GetDefinition (key version : string) : RegTx Definition_ :=
  d ← tx_get;
  tx_opt (head (select (λ r, String.eqb (df_Key r) key && String.eqb (df_Version r) version && is_active r)
                  (rg_definitions d))) RErrNotFound.
Fixpoint insert_by_version (r : Definition_) (l : list Definition_) : list Definition_ :=
  match l with
  | [] => [r]
  | x :: l' => if String.leb (df_Version r) (df_Version x) then r :: l else x :: insert_by_version r l'
  end.
Definition ListDefinitionsByKey (d : RegDB) (key : string) : list Definition_ :=
  foldr insert_by_version [] (select (λ r, String.eqb (df_Key r) key && is_active r) (rg_definitions d)).
(** The identity with this key owns the row. *)
Definition owned_by (d : RegDB) (ownerKey : string) (r : Definition_) : bool :=
  bool_decide (rg_identities d !! df_ScopeIdentityID r = Some ownerKey).
Definition by_key_version (r x : Definition_) : bool :=
  (String.ltb (df_Key r) (df_Key x)) ||
  (String.eqb (df_Key r) (df_Key x) && String.leb (df_Version r) (df_Version x)).
Fixpoint insert_by_key (r : Definition_) (l : list Definition_) : list Definition_ :=
  match l with
  | [] => [r]
  | x :: l' => if by_key_version r x then r :: l else x :: insert_by_key r l'
  end.
Definition ListDefinitionsByOwner (d : RegDB) (ownerKey : string) : list Definition_ :=
  foldr insert_by_key [] (select (λ r, owned_by d ownerKey r && is_active r) (rg_definitions d)).

(** * Trigger bindings *)
Definition delete_binding (now : timestamp) (b : TriggerBindingRow) : TriggerBindingRow :=
  {| tb_ID := tb_ID b; tb_DefinitionID := tb_DefinitionID b; tb_Name := tb_Name b; tb_SourceType := tb_SourceType b;
     tb_BindingKey := tb_BindingKey b; tb_CreatedAt := tb_CreatedAt b; tb_UpdatedAt := now; tb_DeletedAt := Some now |}.
Definition live_binding (b : TriggerBindingRow) : bool := bool_decide (tb_DeletedAt b = None).
(** [UPDATE ... SET deleted_at = now() WHERE P AND deleted_at IS NULL]. *)
Definition delete_bindings (now : timestamp) (P : TriggerBindingRow → bool) (d : RegDB) : RegDB :=
  set_rbinds ((λ b, if P b && live_binding b then delete_binding now b else b) <$> rg_bindings d) d.
Definition binding_at (d : RegDB) (definitionID name : string) : option TriggerBindingRow :=
  head (select (λ b, String.eqb (tb_DefinitionID b) definitionID && String.eqb (tb_Name b) name) (rg_bindings d)).
Definition upsert_binding (now : timestamp) (definitionID sourceType : string) (b : TriggerBindingInput) : RegTx () :=
  id ← reg_uuid;
  tx_require (bool_decide (sourceType ∈ source_types)) (RErrDB (ErrCheckViolation "trigger_bindings_source_type_check"));;
  d ← tx_get;
  match binding_at d definitionID (ti_Name b) with
  | Some r =>
      tx_modify (set_rbinds (<[tb_ID r := {| tb_ID := tb_ID r; tb_DefinitionID := tb_DefinitionID r;
        tb_Name := tb_Name r; tb_SourceType := sourceType; tb_BindingKey := ti_BindingKey b;
        tb_CreatedAt := tb_CreatedAt r; tb_UpdatedAt := now; tb_DeletedAt := None |}]> (rg_bindings d)))
  | None =>
      tx_require (bool_decide (rg_bindings d !! id = None)) (RErrDB (ErrUniqueViolation "trigger_bindings_pkey"));;
      tx_require (bool_decide (is_Some (rg_definitions d !! definitionID)))
        (RErrDB (ErrForeignKeyViolation "trigger_bindings_definition_id_fkey"));;
      tx_modify (set_rbinds (<[id := {| tb_ID := id; tb_DefinitionID := definitionID; tb_Name := ti_Name b;
        tb_SourceType := sourceType; tb_BindingKey := ti_BindingKey b; tb_CreatedAt := now; tb_UpdatedAt := now;
        tb_DeletedAt := None |}]> (rg_bindings d)))
  end.
(** The loop over the desired bindings; [seen] are the names before. *)
Fixpoint replace_loop (now : timestamp) (definitionID sourceType : string) (seen : gset string)
    (bindings : list TriggerBindingInput) : RegTx () :=
  match bindings with
  | [] => mret ()
  | b :: bindings' =>
      tx_require (negb (String.eqb (ti_Name b) EmptyString)) (RErrInput "binding name is required");;
      tx_require (negb (String.eqb (ti_BindingKey b) EmptyString)) (RErrInput "bindingKey is required");;
      tx_require (bool_decide (ti_Name b ∉ seen)) (RErrInput "binding name is duplicated");;
      upsert_binding now definitionID sourceType b;;
      replace_loop now definitionID sourceType ({[ti_Name b]} ∪ seen) bindings'
  end.
Definition ReplaceTriggerBindings (now : timestamp) (definitionID sourceType : string)
    (bindings : list TriggerBindingInput) : RegTx () :=
  tx_modify (delete_bindings now (λ b, String.eqb (tb_DefinitionID b) definitionID));;
  replace_loop now definitionID sourceType ∅ bindings.
Fixpoint insert_by_name (b : TriggerBindingRow) (l : list TriggerBindingRow) : list TriggerBindingRow :=
  match l with
  | [] => [b]
  | x :: l' => if String.leb (tb_Name b) (tb_Name x) then b :: l else x :: insert_by_name b l'
  end.
Definition listTriggerBindings (d : RegDB) (definitionID : string) : list TriggerBindingRow :=
  foldr insert_by_name [] (select (λ b, String.eqb (tb_DefinitionID b) definitionID && live_binding b) (rg_bindings d)).

(** * Soft deletion *)
(** Delete the active definitions that satisfy [P], and the live bindings of every
    definition, active or not, that satisfies it. *)
Definition delete_definitions (now : timestamp) (P : Definition_ → bool) (d : RegDB) : RegDB :=
  let d1 := delete_bindings now (λ b, match rg_definitions d !! tb_DefinitionID b with
                                      | Some r => P r | None => false end) d in
  set_rdefs ((λ r, if P r && is_active r then with_deleted (Some now) r else r) <$> rg_definitions d1) d1.
Definition SoftDeleteDefinitionByKey (now : timestamp) (key : string) : RegTx () :=
  tx_modify (delete_definitions now (λ r, String.eqb (df_Key r) key)).
Definition SoftDeleteDefinitionsByOwner (now : timestamp) (ownerKey : string) : RegTx () :=
  tx_modify (λ d, delete_definitions now (owned_by d ownerKey) d).
