(* ===== verification/RegistryFacts.v ===== *)
(** Theorems about the workflow definition registry modelled in [Registry]. *)
From S2P Require Import Prelude Json Duration Runtime Workflow WorkData Registry.

(** * The invariant *)
Record reg_wf (d : RegDB) : Prop := {
  rw_id : ∀ k r, rg_definitions d !! k = Some r → df_ID r = k;
  rw_version : ∀ k1 k2 r1 r2, rg_definitions d !! k1 = Some r1 → rg_definitions d !! k2 = Some r2 →
    df_Key r1 = df_Key r2 → df_Version r1 = df_Version r2 → k1 = k2;
  rw_owner : ∀ k1 k2 r1 r2, rg_definitions d !! k1 = Some r1 → rg_definitions d !! k2 = Some r2 →
    df_Key r1 = df_Key r2 → df_ScopeIdentityID r1 = df_ScopeIdentityID r2;
  rw_owner_exists : ∀ k r, rg_definitions d !! k = Some r → is_Some (rg_identities d !! df_ScopeIdentityID r);
  rw_bind_id : ∀ k b, rg_bindings d !! k = Some b → tb_ID b = k;
  rw_bind_name : ∀ k1 k2 b1 b2, rg_bindings d !! k1 = Some b1 → rg_bindings d !! k2 = Some b2 →
    tb_DefinitionID b1 = tb_DefinitionID b2 → tb_Name b1 = tb_Name b2 → k1 = k2;
  rw_bind_def : ∀ k b, rg_bindings d !! k = Some b → is_Some (rg_definitions d !! tb_DefinitionID b) }.

(** A row keeps everything but its deletion mark; a binding keeps its definition and
    name. *)
Definition same_binding (b b' : TriggerBindingRow) : Prop :=
  tb_ID b' = tb_ID b ∧ tb_DefinitionID b' = tb_DefinitionID b ∧ tb_Name b' = tb_Name b ∧
  tb_CreatedAt b' = tb_CreatedAt b.
Record reg_evolves (d d' : RegDB) : Prop := {
  re_defs : ∀ k r, rg_definitions d !! k = Some r → ∃ t, rg_definitions d' !! k = Some (with_deleted t r);
  re_binds : ∀ k b, rg_bindings d !! k = Some b → ∃ b', rg_bindings d' !! k = Some b' ∧ same_binding b b';
  re_ids : rg_identities d' = rg_identities d }.
Lemma with_deleted_id r : with_deleted (df_DeletedAt r) r = r.
Proof. by destruct r. Qed.
Lemma with_deleted_twice t u r : with_deleted t (with_deleted u r) = with_deleted t r.
Proof. done. Qed.
#[export] Instance reg_evolves_preorder : PreOrder reg_evolves.
Proof.
  split.
  - intros d. constructor; [|by intros k b Hk; exists b|done].
    intros k r Hk. exists (df_DeletedAt r). by rewrite with_deleted_id.
  - intros d1 d2 d3 [A1 B1 C1] [A2 B2 C2]. constructor; [| |congruence].
    + intros k r Hk. destruct (A1 k r Hk) as [t Ht], (A2 _ _ Ht) as [u Hu]. by exists u.
    + intros k b Hk. destruct (B1 k b Hk) as (b1 & Hb1 & (?&?&?&?)), (B2 _ _ Hb1) as (b2 & Hb2 & (?&?&?&?)).
      exists b2. split; [done|]. unfold same_binding. split_and!; congruence.
Qed.

(** ** Lookups by key and version *)
Lemma row_at_Some d key version r :
  reg_wf d → row_at d key version = Some r →
  rg_definitions d !! df_ID r = Some r ∧ df_Key r = key ∧ df_Version r = version.
Proof.
  intros W H. unfold row_at in H. apply head_Some_elem_of, elem_of_select in H as (Hp & k & Hk).
  apply andb_true_iff in Hp as [?%String.eqb_eq ?%String.eqb_eq]. by rewrite (rw_id _ W k r Hk).
Qed.
Lemma row_at_None d key version :
  row_at d key version = None → ∀ k r, rg_definitions d !! k = Some r → df_Key r = key → df_Version r ≠ version.
Proof.
  unfold row_at. intros H%head_None k r Hk <- <-.
  assert (r ∈ @nil Definition_) as Hin; [|by apply not_elem_of_nil in Hin].
  rewrite <- H. apply elem_of_select. rewrite !String.eqb_refl. eauto.
Qed.
Lemma row_at_unique d k r :
  reg_wf d → rg_definitions d !! k = Some r → row_at d (df_Key r) (df_Version r) = Some r.
Proof.
  intros W Hk. destruct (row_at d (df_Key r) (df_Version r)) as [r'|] eqn:He.
  - destruct (row_at_Some _ _ _ _ W He) as (H1 & H2 & H3).
    assert (df_ID r' = k) as Hid by (eapply (rw_version _ W); eauto). congruence.
  - by destruct (row_at_None _ _ _ He _ _ Hk eq_refl).
Qed.
Lemma oldest_of_elem l r : oldest_of l = Some r → r ∈ l.
Proof.
  revert r. induction l as [|x l IH]; intros r Hr; [done|].
  change (match oldest_of l with None => Some x | Some y => if older x y then Some x else Some y end = Some r) in Hr.
  destruct (oldest_of l) as [y|]; [destruct (older x y)|]; injection Hr as <-; [left|right; auto|left].
Qed.
Lemma oldest_of_None l : oldest_of l = None → l = [].
Proof.
  destruct l as [|x l]; [done|]. intros H.
  change (match oldest_of l with None => Some x | Some y => if older x y then Some x else Some y end = None) in H.
  destruct (oldest_of l) as [y|]; [destruct (older x y)|]; done.
Qed.
(** The owner check looks at one row; by the invariant that is all of them. *)
Lemma owner_check x d u d' :
  reg_wf d → lockAndCheckDefinitionOwner x d = inr (u, d') →
  d' = d ∧ ∀ k r, rg_definitions d !! k = Some r → df_Key r = di_Key x → df_ScopeIdentityID r = di_ScopeIdentityID x.
Proof.
  intros W H. unfold lockAndCheckDefinitionOwner in H.
  apply tx_bind_inr in H as (dd & d1 & [<- <-]%tx_get_inr & H).
  destruct (oldest_of (versions_of d (di_Key x))) as [o|] eqn:Ho.
  - apply tx_require_inr in H as [Hs%String.eqb_eq <-]. split; [done|]. intros k r Hk Hkey. rewrite <- Hs.
    apply oldest_of_elem, elem_of_select in Ho as (Hok%String.eqb_eq & j & Hj).
    eapply (rw_owner _ W); [exact Hk|exact Hj|congruence].
  - apply tx_ret_inr in H as [_ <-]. split; [done|]. intros k r Hk Hkey.
    apply oldest_of_None in Ho. assert (r ∈ versions_of d (di_Key x)) as Hin.
    { apply elem_of_select. rewrite Hkey, String.eqb_refl. eauto. }
    rewrite Ho in Hin. by apply not_elem_of_nil in Hin.
Qed.

(** * Registration *)
(** The stored row carries the registered content and is active. *)
Definition registered (x : DefinitionInput) (r : Definition_) : Prop :=
  df_Key r = di_Key x ∧ df_Version r = di_Version x ∧ df_Digest r = di_Digest x ∧
  df_ScopeIdentityID r = di_ScopeIdentityID x ∧ df_DeletedAt r = None.
(** What a successful registration did: the one row [r] under (key, version) is new, or
    was there with the same content. *)
Record registers (x : DefinitionInput) (d : RegDB) (r : Definition_) (d' : RegDB) : Prop := {
  rs_content : registered x r;
  rs_stored : rg_definitions d' = <[df_ID r := r]> (rg_definitions d);
  rs_owner : ∀ k r0, rg_definitions d !! k = Some r0 → df_Key r0 = di_Key x → df_ScopeIdentityID r0 = di_ScopeIdentityID x;
  rs_existing : ∀ k r0, rg_definitions d !! k = Some r0 → df_Key r0 = di_Key x → df_Version r0 = di_Version x →
    k = df_ID r ∧ df_Digest r0 = di_Digest x ∧ r = with_deleted None r0;
  rs_new : (∀ k r0, rg_definitions d !! k = Some r0 → df_Key r0 = di_Key x → df_Version r0 ≠ di_Version x) →
    rg_definitions d !! df_ID r = None ∧ is_Some (rg_identities d !! di_ScopeIdentityID x) ∧
    df_Spec r = default zero_spec (di_Spec x) ∧ df_PoolKey r = di_PoolKey x;
  rs_rest : rg_bindings d' = rg_bindings d ∧ rg_identities d' = rg_identities d }.

Lemma reg_uuid_inr d id d' :
  reg_uuid d = inr (id, d') → rg_definitions d' = rg_definitions d ∧ rg_bindings d' = rg_bindings d ∧
    rg_identities d' = rg_identities d.
Proof. unfold reg_uuid. intros H. inv_tx. done. Qed.
Lemma row_at_defs d d' key version : rg_definitions d' = rg_definitions d → row_at d' key version = row_at d key version.
Proof. unfold row_at. by intros ->. Qed.
(** Tables the invariant does not depend on. *)
Lemma reg_wf_tables d d' :
  rg_definitions d' = rg_definitions d → rg_bindings d' = rg_bindings d → rg_identities d' = rg_identities d →
  reg_wf d → reg_wf d'.
Proof. destruct d, d'. simpl. by intros -> -> -> []. Qed.
Lemma reg_evolves_tables d d' :
  rg_definitions d' = rg_definitions d → rg_bindings d' = rg_bindings d → rg_identities d' = rg_identities d →
  reg_evolves d d'.
Proof.
  intros E1 E2 E3. constructor; [..|done]; rewrite ?E1, ?E2; intros k r Hk; [|by exists r].
  exists (df_DeletedAt r). by rewrite with_deleted_id.
Qed.
Lemma reg_wf_marked d d' (f : Definition_ → option timestamp) :
  rg_definitions d' = (λ r, with_deleted (f r) r) <$> rg_definitions d → rg_bindings d' = rg_bindings d →
  rg_identities d' = rg_identities d → reg_wf d → reg_wf d'.
Proof.
  intros E1 E2 E3 W. destruct W as [W1 W2 W3 W4 W5 W6 W7].
  assert (∀ k r', rg_definitions d' !! k = Some r' → ∃ r, rg_definitions d !! k = Some r ∧ r' = with_deleted (f r) r) as Hb.
  { intros k r'. rewrite E1, lookup_fmap. intros (r & -> & Hr)%fmap_Some. eauto. }
  constructor; rewrite ?E2, ?E3; try done.
  - intros k r' (r & Hr & ->)%Hb. exact (W1 _ _ Hr).
  - intros k1 k2 r1 r2 (x1 & H1 & ->)%Hb (x2 & H2 & ->)%Hb. exact (W2 _ _ _ _ H1 H2).
  - intros k1 k2 r1 r2 (x1 & H1 & ->)%Hb (x2 & H2 & ->)%Hb. exact (W3 _ _ _ _ H1 H2).
  - intros k r' (r & Hr & ->)%Hb. exact (W4 _ _ Hr).
  - intros k b Hk. destruct (W7 k b Hk) as [r Hr]. rewrite E1, lookup_fmap, Hr. by eexists.
Qed.
Lemma reg_wf_mark d r t :
  reg_wf d → rg_definitions d !! df_ID r = Some r →
  reg_wf (set_rdefs (<[df_ID r := with_deleted t r]> (rg_definitions d)) d).
Proof.
  intros W Hr. eapply (reg_wf_marked d _ (λ x, if String.eqb (df_ID x) (df_ID r) then t else df_DeletedAt x)); try done.
  cbn. apply map_eq. intros k. rewrite lookup_fmap. destruct (decide (df_ID r = k)) as [<-|Hne].
  - rewrite lookup_insert_eq, Hr. simpl. by rewrite String.eqb_refl.
  - rewrite lookup_insert_ne by done. destruct (rg_definitions d !! k) as [x|] eqn:Hx; simpl; [|done].
    rewrite (proj2 (String.eqb_neq _ _)), with_deleted_id; [done|]. by rewrite (rw_id _ W k x Hx).
Qed.
Lemma reg_wf_new d r :
  reg_wf d → rg_definitions d !! df_ID r = None → is_Some (rg_identities d !! df_ScopeIdentityID r) →
  (∀ k x, rg_definitions d !! k = Some x → df_Key x = df_Key r →
     df_Version x ≠ df_Version r ∧ df_ScopeIdentityID x = df_ScopeIdentityID r) →
  reg_wf (set_rdefs (<[df_ID r := r]> (rg_definitions d)) d).
Proof.
  intros [W1 W2 W3 W4 W5 W6 W7] Hid Hown Hkey. constructor; cbn; try done.
  - intros k x [[<- <-]|[_ Hk]]%lookup_insert_Some; [done|by apply W1].
  - intros k1 k2 r1 r2 [[<- <-]|[_ H1]]%lookup_insert_Some [[<- <-]|[_ H2]]%lookup_insert_Some HK HV;
      [done|..|by eapply W2].
    + by destruct (Hkey _ _ H2 (eq_sym HK)).
    + by destruct (Hkey _ _ H1 HK).
  - intros k1 k2 r1 r2 [[<- <-]|[_ H1]]%lookup_insert_Some [[<- <-]|[_ H2]]%lookup_insert_Some HK; [done|..|by eapply W3].
    + by destruct (Hkey _ _ H2 (eq_sym HK)).
    + by destruct (Hkey _ _ H1 HK).
  - intros k x [[<- <-]|[_ Hk]]%lookup_insert_Some; [done|by eapply W4].
  - intros k b Hk. destruct (W7 k b Hk) as [x Hx]. rewrite lookup_insert_ne by congruence. eauto.
Qed.

(** The insert: it revives, keeps or adds the row. *)
Lemma insertDefinition_inr now x spec pres d u d' :
  reg_wf d → insertDefinition now x spec pres d = inr (u, d') →
  (∀ k r, rg_definitions d !! k = Some r → df_Key r = di_Key x → df_ScopeIdentityID r = di_ScopeIdentityID x) →
  reg_wf d' ∧ rg_bindings d' = rg_bindings d ∧ rg_identities d' = rg_identities d ∧
  match row_at d (di_Key x) (di_Version x) with
  | Some r =>
      if bool_decide (df_ScopeIdentityID r = di_ScopeIdentityID x ∧ df_Digest r = di_Digest x)
      then rg_definitions d' = <[df_ID r := with_deleted None r]> (rg_definitions d)
      else rg_definitions d' = rg_definitions d
  | None => ∃ r, registered x r ∧ df_Spec r = spec ∧ df_PoolKey r = di_PoolKey x ∧ rg_definitions d !! df_ID r = None ∧
      is_Some (rg_identities d !! di_ScopeIdentityID x) ∧ rg_definitions d' = <[df_ID r := r]> (rg_definitions d)
  end.
Proof.
  intros W H Howner. unfold insertDefinition in H.
  apply tx_bind_inr in H as (id & d3 & (E1 & E2 & E3)%reg_uuid_inr & H).
  do 2 (apply tx_bind_inr in H as (? & ? & [_ <-]%tx_require_inr & H)).
  apply tx_bind_inr in H as (dd & ? & [<- <-]%tx_get_inr & H). rewrite (row_at_defs d d3) in H by done.
  assert (reg_wf d3) as W3 by (by eapply reg_wf_tables). rewrite <- E1, <- E2, <- E3 in *.
  destruct (row_at d (di_Key x) (di_Version x)) as [r|] eqn:Hrow.
  - rewrite <- (row_at_defs d d3) in Hrow by done. destruct (row_at_Some _ _ _ _ W3 Hrow) as (Hr & _ & _).
    destruct (String.eqb_spec (df_ScopeIdentityID r) (di_ScopeIdentityID x)) as [Hs|Hs];
      destruct (String.eqb_spec (df_Digest r) (di_Digest x)) as [Hg|Hg]; simpl in H;
      [|rewrite bool_decide_eq_false_2 by tauto; by apply tx_ret_inr in H as [_ <-]..].
    rewrite bool_decide_eq_true_2 by done. destruct (df_DeletedAt r) as [t|] eqn:Hdel; simpl in H.
    + apply tx_modify_inr in H as <-. split; [by apply reg_wf_mark|done].
    + apply tx_ret_inr in H as [_ <-]. split_and!; [done|done|done|].
      rewrite <- Hdel, with_deleted_id. by rewrite insert_id.
  - apply tx_bind_inr in H as (? & ? & [Hnone%bool_decide_eq_true_1 <-]%tx_require_inr & H).
    apply tx_bind_inr in H as (? & ? & [Hid%bool_decide_eq_true_1 <-]%tx_require_inr & H).
    apply tx_modify_inr in H as <-.
    match goal with |- context [<[id := ?r]> _] => set (row := r) in * end. rewrite <- (row_at_defs d d3) in Hrow by done.
    split; [|split; [done|split; [done|by exists row]]].
    apply (reg_wf_new d3 row); [done|done|done|]. intros k y Hk Hky. split; [by eapply row_at_None|by eapply Howner].
Qed.

Lemma RegisterDefinition_registers now x d r d' :
  reg_wf d → RegisterDefinition now x d = inr (r, d') → reg_wf d' ∧ registers x d r d'.
Proof.
  intros W H. unfold RegisterDefinition in H.
  apply tx_bind_inr in H as ([spec pres] & d1 & Hp & H). unfold prepareDefinition in Hp.
  apply tx_bind_inr in Hp as (? & ? & [_ <-]%tx_require_inr & Hp).
  apply tx_bind_inr in Hp as (? & ? & [_ <-]%tx_require_inr & Hp). apply tx_ret_inr in Hp as [[= <- <-] <-].
  apply tx_bind_inr in H as (u & d1 & Hown & H). destruct (owner_check _ _ _ _ W Hown) as [-> Howner].
  apply tx_bind_inr in H as (u' & d2 & Hins & H).
  destruct (insertDefinition_inr _ _ _ _ _ _ _ W Hins Howner) as (W2 & E2 & E3 & Hcase).
  unfold readRegisteredDefinition in H. apply tx_bind_inr in H as (dd & ? & [<- <-]%tx_get_inr & H).
  apply tx_bind_inr in H as (r' & ? & [Hr' <-]%tx_opt_inr & H).
  apply tx_bind_inr in H as (? & ? & [Hs%String.eqb_eq <-]%tx_require_inr & H).
  apply tx_bind_inr in H as (? & ? & [Hdg%String.eqb_eq <-]%tx_require_inr & H). apply tx_ret_inr in H as [<- <-].
  split; [done|]. destruct (row_at_Some _ _ _ _ W2 Hr') as (Hst & Hkey & Hver).
  destruct (row_at d (di_Key x) (di_Version x)) as [r0|] eqn:Hrow.
  - destruct (row_at_Some _ _ _ _ W Hrow) as (Hst0 & Hkey0 & Hver0).
    case_bool_decide as Hsame.
    2: { destruct Hsame. rewrite Hcase in Hst. assert (df_ID r' = df_ID r0) as Hid.
         { eapply (rw_version _ W); [exact Hst|exact Hst0|congruence..]. }
         assert (r' = r0) as -> by congruence. done. }
    assert (r' = with_deleted None r0) as ->.
    { assert (df_ID r' = df_ID r0) as Hid.
      { eapply (rw_version _ W2); [exact Hst|rewrite Hcase; apply lookup_insert_eq|cbn; congruence..]. }
      rewrite Hcase, Hid, lookup_insert_eq in Hst. by injection Hst. }
    constructor; try done.
    + intros k y Hk Hky Hvy. assert (k = df_ID r0) as -> by (eapply (rw_version _ W); [done|done|congruence..]).
      assert (y = r0) as -> by congruence. done.
    + intros Hno. by destruct (Hno _ _ Hst0 Hkey0).
  - destruct Hcase as (row & Hreg & Hspec & Hpool & Hnone & Hid & Hcase).
    assert (r' = row) as ->.
    { destruct Hreg as (? & ? & _).
      assert (df_ID r' = df_ID row) as Hi.
      { eapply (rw_version _ W2); [exact Hst|rewrite Hcase; apply lookup_insert_eq|congruence..]. }
      rewrite Hcase, Hi, lookup_insert_eq in Hst. by injection Hst. }
    constructor; try done. intros k y Hk Hky Hvy. by destruct (row_at_None _ _ _ Hrow _ _ Hk Hky).
Qed.

(** * Trigger bindings *)
Lemma binding_at_Some d def name b :
  reg_wf d → binding_at d def name = Some b →
  rg_bindings d !! tb_ID b = Some b ∧ tb_DefinitionID b = def ∧ tb_Name b = name.
Proof.
  intros W H. unfold binding_at in H. apply head_Some_elem_of, elem_of_select in H as (Hp & k & Hk).
  apply andb_true_iff in Hp as [?%String.eqb_eq ?%String.eqb_eq]. by rewrite (rw_bind_id _ W k b Hk).
Qed.
Lemma binding_at_None d def name :
  binding_at d def name = None → ∀ k b, rg_bindings d !! k = Some b → tb_DefinitionID b = def → tb_Name b ≠ name.
Proof.
  unfold binding_at. intros H%head_None k b Hk <- <-.
  assert (b ∈ @nil TriggerBindingRow) as Hin; [|by apply not_elem_of_nil in Hin].
  rewrite <- H. apply elem_of_select. rewrite !String.eqb_refl. eauto.
Qed.
(** A row as the replacement leaves it. *)
Definition bound (def sourceType : string) (x : TriggerBindingInput) (b : TriggerBindingRow) : Prop :=
  tb_DefinitionID b = def ∧ tb_SourceType b = sourceType ∧ tb_Name b = ti_Name x ∧
  tb_BindingKey b = ti_BindingKey x ∧ tb_DeletedAt b = None.
(** Writing the one row of its definition and name. *)
Lemma reg_put_binding d (b : TriggerBindingRow) :
  reg_wf d → is_Some (rg_definitions d !! tb_DefinitionID b) →
  (∀ k b0, rg_bindings d !! k = Some b0 →
     (k = tb_ID b ↔ tb_DefinitionID b0 = tb_DefinitionID b ∧ tb_Name b0 = tb_Name b)) →
  (∀ b0, rg_bindings d !! tb_ID b = Some b0 → tb_CreatedAt b = tb_CreatedAt b0) →
  let d' := set_rbinds (<[tb_ID b := b]> (rg_bindings d)) d in reg_wf d' ∧ reg_evolves d d'.
Proof.
  intros W Hdef Hone Hcreated d'. destruct W as [W1 W2 W3 W4 W5 W6 W7]. split; constructor; cbn; try done.
  - intros k x [[<- <-]|[_ Hk]]%lookup_insert_Some; [done|by apply W5].
  - intros k1 k2 b1 b2 [[<- <-]|[N1 H1]]%lookup_insert_Some [[<- <-]|[N2 H2]]%lookup_insert_Some HD HN; [done|..].
    + symmetry. by apply (Hone k2 b2 H2).
    + by apply (Hone k1 b1 H1).
    + by eapply W6.
  - intros k x [[<- <-]|[_ Hk]]%lookup_insert_Some; [done|by eapply W7].
  - intros k r Hk. exists (df_DeletedAt r). by rewrite with_deleted_id.
  - intros k b0 Hk. destruct (decide (tb_ID b = k)) as [<-|Hne].
    + exists b. rewrite lookup_insert_eq. split; [done|]. destruct (proj1 (Hone _ _ Hk) eq_refl).
      split_and!; [by rewrite (W5 _ _ Hk)|done|done|by apply Hcreated].
    + exists b0. by rewrite lookup_insert_ne.
Qed.
(** What one step does to the bindings: the row of (definition, name) is written. *)
Lemma upsert_binding_inr now def st x d u d' :
  reg_wf d → upsert_binding now def st x d = inr (u, d') →
  reg_wf d' ∧ reg_evolves d d' ∧ rg_definitions d' = rg_definitions d ∧
  ∃ b, bound def st x b ∧ rg_bindings d' = <[tb_ID b := b]> (rg_bindings d) ∧
    ∀ k b0, rg_bindings d !! k = Some b0 → (k = tb_ID b ↔ tb_DefinitionID b0 = def ∧ tb_Name b0 = ti_Name x).
Proof.
  intros W H. unfold upsert_binding in H.
  apply tx_bind_inr in H as (id & d3 & (E1 & E2 & E3)%reg_uuid_inr & H).
  apply tx_bind_inr in H as (? & ? & [_ <-]%tx_require_inr & H).
  apply tx_bind_inr in H as (dd & ? & [<- <-]%tx_get_inr & H).
  assert (reg_wf d3) as W3 by (by eapply reg_wf_tables).
  assert (reg_evolves d d3) as Ev by (by apply reg_evolves_tables).
  assert (∃ b, bound def st x b ∧ is_Some (rg_definitions d3 !! def) ∧
    (∀ k b0, rg_bindings d3 !! k = Some b0 → (k = tb_ID b ↔ tb_DefinitionID b0 = def ∧ tb_Name b0 = ti_Name x)) ∧
    (∀ b0, rg_bindings d3 !! tb_ID b = Some b0 → tb_CreatedAt b = tb_CreatedAt b0) ∧
    d' = set_rbinds (<[tb_ID b := b]> (rg_bindings d3)) d3) as (b & Hb & Hdef & Hone & Hcr & ->).
  { destruct (binding_at d3 def (ti_Name x)) as [r|] eqn:Hb.
    - destruct (binding_at_Some d3 _ _ _ W3 Hb) as (Hr & Hd & Hn). apply tx_modify_inr in H as <-.
      match goal with |- context [<[tb_ID r := ?b]> _] => exists b end.
      split; [by split_and!|]. split; [rewrite <- Hd; by eapply (rw_bind_def _ W3)|].
      split; [|split; [cbn; congruence|done]]. intros k b0 Hk. cbn. split; [intros ->; naive_solver congruence|].
      intros [HD HN]. eapply (rw_bind_name _ W3); [exact Hk|exact Hr|congruence..].
    - pose proof (binding_at_None _ _ _ Hb) as Hno.
      apply tx_bind_inr in H as (? & ? & [Hnone%bool_decide_eq_true_1 <-]%tx_require_inr & H).
      apply tx_bind_inr in H as (? & ? & [Hdef%bool_decide_eq_true_1 <-]%tx_require_inr & H).
      apply tx_modify_inr in H as <-.
      match goal with |- context [<[id := ?b]> _] => exists b end. split; [by split_and!|]. split; [done|].
      split; [|split; [cbn; congruence|done]]. intros k b0 Hk. cbn. split; [congruence|].
      intros [HD HN]. by destruct (Hno _ _ Hk HD). }
  destruct Hb as (Hb1 & Hb2 & Hb3 & Hb4 & Hb5).
  destruct (reg_put_binding d3 b W3) as [W' Ev']; [congruence|by rewrite Hb1, Hb3|done|].
  split; [done|]. split; [by rewrite Ev|]. split; [done|]. exists b. cbn. rewrite <- E2.
  split; [by split_and!|done].
Qed.
(** ** Soft deletion *)
Lemma reg_evolves_fmap d d' (f : Definition_ → option timestamp) (g : TriggerBindingRow → TriggerBindingRow) :
  rg_definitions d' = (λ r, with_deleted (f r) r) <$> rg_definitions d → rg_bindings d' = g <$> rg_bindings d →
  rg_identities d' = rg_identities d → (∀ b, same_binding b (g b)) → reg_evolves d d'.
Proof.
  intros E1 E2 E3 Hg. constructor; [..|done]; rewrite ?E1, ?E2; intros k r Hk; rewrite lookup_fmap, Hk; [by exists (f r)|].
  exists (g r). split; [done|apply Hg].
Qed.
Lemma reg_wf_bindings d g :
  reg_wf d → (∀ b, same_binding b (g b)) → reg_wf (set_rbinds (g <$> rg_bindings d) d).
Proof.
  intros [W1 W2 W3 W4 W5 W6 W7] Hg.
  assert (∀ k b', (g <$> rg_bindings d) !! k = Some b' → ∃ b, rg_bindings d !! k = Some b ∧ same_binding b b') as Hb.
  { intros k b'. rewrite lookup_fmap. intros (b & Hk & ->)%fmap_Some. exists b. split; [done|apply Hg]. }
  constructor; cbn; try done.
  - intros k b' (b & Hk & (-> & _))%Hb. by apply W5.
  - intros k1 k2 b1 b2 (x1 & H1 & (_ & -> & -> & _))%Hb (x2 & H2 & (_ & -> & -> & _))%Hb. by eapply W6.
  - intros k b' (b & Hk & (_ & -> & _))%Hb. by eapply W7.
Qed.
Lemma same_binding_refl b : same_binding b b.
Proof. by split_and!. Qed.
Lemma same_binding_deleted now (c : bool) b : same_binding b (if c then delete_binding now b else b).
Proof. destruct c; by split_and!. Qed.
Lemma delete_mark now P r :
  (if P r && is_active r then with_deleted (Some now) r else r)
  = with_deleted (if P r && is_active r then Some now else df_DeletedAt r) r.
Proof. destruct (P r && is_active r); [done|by rewrite with_deleted_id]. Qed.
Lemma delete_bindings_good now P d : reg_wf d → reg_wf (delete_bindings now P d) ∧ reg_evolves d (delete_bindings now P d).
Proof.
  intros W. split.
  - apply reg_wf_bindings; [done|]. intros b. apply same_binding_deleted.
  - unshelve eapply (reg_evolves_fmap _ _ df_DeletedAt); [..|done|done|intros b; apply same_binding_deleted].
    cbn. symmetry. erewrite (map_fmap_ext _ id), map_fmap_id; [done|]. intros k r _. apply with_deleted_id.
Qed.
Lemma delete_definitions_good now P d :
  reg_wf d → reg_wf (delete_definitions now P d) ∧ reg_evolves d (delete_definitions now P d).
Proof.
  intros W. unfold delete_definitions.
  set (d1 := delete_bindings now _ d). destruct (delete_bindings_good now (λ b, match rg_definitions d !! tb_DefinitionID b with
    Some r => P r | None => false end) d W) as [W1 E1]. fold d1 in W1, E1.
  set (f := λ r, if P r && is_active r then Some now else df_DeletedAt r).
  assert ((λ r, if P r && is_active r then with_deleted (Some now) r else r) <$> rg_definitions d1
    = (λ r, with_deleted (f r) r) <$> rg_definitions d1) as Hf.
  { apply map_fmap_ext. intros k r _. apply delete_mark. }
  rewrite Hf. split; [by eapply (reg_wf_marked d1 _ f)|]. rewrite E1.
  apply (reg_evolves_fmap _ _ f id); [done|cbn; by rewrite map_fmap_id|done|intros b; apply same_binding_refl].
Qed.

(** * Executions *)
Inductive RegOp :=
| ORegister (now : timestamp) (x : DefinitionInput)
| OReplace (now : timestamp) (definitionID sourceType : string) (bindings : list TriggerBindingInput)
| ODeleteKey (now : timestamp) (key : string)
| ODeleteOwner (now : timestamp) (ownerKey : string).
(** The state after one call; a failed one is rolled back. *)
Definition reg_exec (op : RegOp) (d : RegDB) : RegDB :=
  match op with
  | ORegister now x => (run_tx (RegisterDefinition now x) d).2
  | OReplace now def st bs => (run_tx (ReplaceTriggerBindings now def st bs) d).2
  | ODeleteKey now key => (run_tx (SoftDeleteDefinitionByKey now key) d).2
  | ODeleteOwner now key => (run_tx (SoftDeleteDefinitionsByOwner now key) d).2
  end.
Definition reg_execs (ops : list RegOp) (d : RegDB) : RegDB := foldl (λ d op, reg_exec op d) d ops.
(** A freshly migrated registry with some identities. *)
Definition init_reg (ids : gmap uuid string) (us : nat → uuid) : RegDB := mkRegDB ∅ ∅ ids us 0.
Definition reg_good (d d' : RegDB) : Prop := reg_wf d → reg_wf d' ∧ reg_evolves d d'.
#[export] Instance reg_good_preorder : PreOrder reg_good.
Proof.
  split; [by intros d W|]. intros d1 d2 d3 H1 H2 W. destruct (H1 W) as [W2 E1], (H2 W2) as [W3 E2].
  split; [done|]. by rewrite E1.
Qed.

Lemma registers_evolves x d r d' : reg_wf d → registers x d r d' → reg_evolves d d'.
Proof.
  intros W [Hc Hs _ Hex Hnew [Hb Hi]]. constructor; [| |done].
  - rewrite Hs. intros k y Hk. destruct (decide (df_ID r = k)) as [<-|Hne].
    + rewrite lookup_insert_eq. destruct (row_at d (di_Key x) (di_Version x)) as [r0|] eqn:Hrow.
      * destruct (row_at_Some _ _ _ _ W Hrow) as (H0 & HK & HV). destruct (Hex _ _ H0 HK HV) as (_ & _ & ->).
        cbn in Hk. exists None. congruence.
      * destruct (Hnew (row_at_None _ _ _ Hrow)). congruence.
    + rewrite lookup_insert_ne by done. exists (df_DeletedAt y). by rewrite with_deleted_id.
  - rewrite Hb. intros k b Hk. exists b. split; [done|apply same_binding_refl].
Qed.
Lemma replace_loop_good now def st seen bs d u d' :
  replace_loop now def st seen bs d = inr (u, d') → reg_good d d'.
Proof.
  revert seen d. induction bs as [|b bs IH]; intros seen d H; simpl in H.
  - by apply tx_ret_inr in H as [_ <-].
  - do 3 (apply tx_bind_inr in H as (? & ? & [_ <-]%tx_require_inr & H)).
    apply tx_bind_inr in H as (? & d1 & Hu & H). transitivity d1; [|by eapply IH].
    intros W. by destruct (upsert_binding_inr _ _ _ _ _ _ _ W Hu) as (? & ? & _).
Qed.
Lemma run_tx_good {A} (m : RegTx A) d : (∀ a d', m d = inr (a, d') → reg_good d d') → reg_good d (run_tx m d).2.
Proof. intros H. unfold run_tx. destruct (m d) as [e|[a d']] eqn:Hm; [reflexivity|by eapply H]. Qed.
Lemma reg_exec_good op d : reg_good d (reg_exec op d).
Proof.
  destruct op as [now x|now def st bs|now key|now key]; apply run_tx_good; intros a d' H.
  - intros W. destruct (RegisterDefinition_registers _ _ _ _ _ W H) as [W' R].
    split; [done|by eapply registers_evolves].
  - unfold ReplaceTriggerBindings in H. apply tx_bind_inr in H as (? & d1 & <-%tx_modify_inr & H).
    etransitivity; [|by eapply replace_loop_good]. intros W. by apply delete_bindings_good.
  - apply tx_modify_inr in H as <-. intros W. by apply delete_definitions_good.
  - apply tx_modify_inr in H as <-. intros W. by apply delete_definitions_good.
Qed.
Lemma reg_execs_good ops d : reg_good d (reg_execs ops d).
Proof.
  revert d. induction ops as [|op ops IH]; intros d; [reflexivity|]. simpl.
  etransitivity; [apply reg_exec_good|apply IH].
Qed.
Lemma init_reg_wf ids us : reg_wf (init_reg ids us).
Proof. constructor; intros; cbn in *; by rewrite lookup_empty in *. Qed.
Lemma reachable_reg_wf ids us ops : reg_wf (reg_execs ops (init_reg ids us)).
Proof. apply reg_execs_good, init_reg_wf. Qed.

(** ** Registration of known rows *)
(** The input passes the checks before the (key, version) conflict. *)
Definition input_ok (x : DefinitionInput) : bool :=
  (negb (String.eqb (di_Key x) EmptyString) && negb (String.eqb (di_Version x) EmptyString) &&
   negb (String.eqb (di_Digest x) EmptyString)) && negb (String.eqb (di_ScopeIdentityID x) EmptyString) &&
  (String.eqb (di_ValidationStatus x) "valid" || String.eqb (di_ValidationStatus x) "invalid") &&
  bool_decide (di_SourceType x ∈ source_types).
Lemma RegisterDefinition_input_ok now x d r d' : RegisterDefinition now x d = inr (r, d') → input_ok x = true.
Proof.
  intros H. unfold RegisterDefinition, prepareDefinition in H.
  apply tx_bind_inr in H as ([spec pres] & d1 & Hp & H).
  apply tx_bind_inr in Hp as (? & ? & [H1 _]%tx_require_inr & Hp).
  apply tx_bind_inr in Hp as (? & ? & [H2 _]%tx_require_inr & _).
  apply tx_bind_inr in H as (? & ? & _ & H). apply tx_bind_inr in H as (? & ? & H & _).
  unfold insertDefinition in H. apply tx_bind_inr in H as (? & ? & _ & H).
  apply tx_bind_inr in H as (? & ? & [H3 _]%tx_require_inr & H).
  apply tx_bind_inr in H as (? & ? & [H4 _]%tx_require_inr & _).
  unfold input_ok. by rewrite H1, H2, H3, H4.
Qed.
Lemma tx_require_true {S E} (b : bool) (e : E) (s : S) : b = true → tx_require b e s = inr ((), s).
Proof. by intros ->. Qed.
Lemma prepareDefinition_ok x d :
  input_ok x = true →
  prepareDefinition x d = inr ((default zero_spec (di_Spec x), default zero_presentation (di_Presentation x)), d).
Proof.
  unfold input_ok, prepareDefinition, mbind, tx_bind. rewrite !andb_true_iff. intros [[[H1 H2] _] _].
  rewrite tx_require_true by (by rewrite !andb_true_iff). by rewrite tx_require_true.
Qed.
(** The owner check of a key that has a version. *)
Lemma owner_check_known x d k r :
  reg_wf d → rg_definitions d !! k = Some r → df_Key r = di_Key x →
  lockAndCheckDefinitionOwner x d
  = if String.eqb (df_ScopeIdentityID r) (di_ScopeIdentityID x) then inr ((), d)
    else inl (RErrDefinitionOwnership (df_ScopeIdentityID r)).
Proof.
  intros W Hk Hkey. unfold lockAndCheckDefinitionOwner, mbind, tx_bind, tx_get.
  destruct (oldest_of (versions_of d (di_Key x))) as [o|] eqn:Ho.
  - apply oldest_of_elem, elem_of_select in Ho as (Hok%String.eqb_eq & j & Hj).
    rewrite (rw_owner _ W j k o r Hj Hk) by congruence. unfold tx_require. by destruct (String.eqb _ _).
  - apply oldest_of_None in Ho. assert (r ∈ versions_of d (di_Key x)) as Hin.
    { apply elem_of_select. rewrite Hkey, String.eqb_refl. eauto. }
    rewrite Ho in Hin. by apply not_elem_of_nil in Hin.
Qed.
Definition reg_bump (d : RegDB) : RegDB :=
  mkRegDB (rg_definitions d) (rg_bindings d) (rg_identities d) (rg_uuids d) (S (rg_next d)).
(** Registering against an active row of the version: the row decides. *)
Lemma register_known now x d k r :
  reg_wf d → rg_definitions d !! k = Some r → df_Key r = di_Key x → df_Version r = di_Version x →
  df_ScopeIdentityID r = di_ScopeIdentityID x → input_ok x = true → (df_DeletedAt r = None ∨ df_Digest r ≠ di_Digest x) →
  RegisterDefinition now x d
  = if String.eqb (df_Digest r) (di_Digest x) then inr (r, reg_bump d) else inl (RErrImmutableVersion (df_Digest r)).
Proof.
  intros W Hk HK HV HS Hok Hdel. pose proof (row_at_unique _ _ _ W Hk) as Hrow. rewrite HK, HV in Hrow.
  unfold RegisterDefinition, mbind, tx_bind. rewrite (prepareDefinition_ok _ _ Hok).
  rewrite (owner_check_known _ _ _ _ W Hk HK), HS, String.eqb_refl.
  unfold input_ok in Hok. rewrite !andb_true_iff in Hok. destruct Hok as [[_ Hst] Hso].
  unfold insertDefinition, reg_uuid, mbind, tx_bind, tx_get, tx_modify, mret, tx_ret. fold (reg_bump d).
  rewrite !tx_require_true by done. change (row_at (reg_bump d)) with (row_at d). rewrite Hrow, HS, String.eqb_refl.
  unfold readRegisteredDefinition, mbind, tx_bind, tx_get.
  destruct (String.eqb_spec (df_Digest r) (di_Digest x)) as [Hd|Hd]; simpl.
  - destruct Hdel as [Hdel|]; [|done]. rewrite Hdel. simpl. change (row_at (reg_bump d)) with (row_at d).
    rewrite Hrow. simpl. rewrite HS, String.eqb_refl, Hd, String.eqb_refl. done.
  - change (row_at (reg_bump d)) with (row_at d). rewrite Hrow. simpl. rewrite HS, String.eqb_refl. simpl.
    by rewrite (proj2 (String.eqb_neq _ _) Hd).
Qed.
Lemma GetDefinition_active d k r :
  reg_wf d → rg_definitions d !! k = Some r → df_DeletedAt r = None →
  GetDefinition (df_Key r) (df_Version r) d = inr (r, d).
Proof.
  intros W Hk Hdel. unfold GetDefinition, mbind, tx_bind, tx_get, tx_opt.
  set (P := λ r0 : Definition_, _). assert (r ∈ select P (rg_definitions d)) as Hin.
  { apply elem_of_select. unfold P, is_active. rewrite !String.eqb_refl, bool_decide_eq_true_2 by done. eauto. }
  destruct (select P (rg_definitions d)) as [|y l] eqn:Hs; [by apply not_elem_of_nil in Hin|]. simpl.
  assert (y ∈ select P (rg_definitions d)) as Hy by (rewrite Hs; left).
  apply elem_of_select in Hy as (HP & j & Hj). unfold P in HP. rewrite !andb_true_iff, !String.eqb_eq in HP.
  destruct HP as [[HK HV] _]. assert (j = k) as -> by (by eapply (rw_version _ W)).
  assert (y = r) as -> by congruence. done.
Qed.

(** * Claims *)
(** Every registry reachable by registrations, binding replacements and soft
    deletions keeps one row per (key, version), one owner for all versions of a key,
    which exists, and one binding per (definition, name) of an existing definition. *)
Theorem registry_invariant (ids : gmap uuid string) (us : nat → uuid) (ops : list RegOp) :
  reg_wf (reg_execs ops (init_reg ids us)).
Proof. apply reachable_reg_wf. Qed.
(** Definitions are immutable: between any two points of an execution a registered
    row stays, and nothing of it changes but its deletion mark; bindings stay with
    their definition under their name. *)
Theorem definitions_are_immutable (ids : gmap uuid string) (us : nat → uuid) (pre post : list RegOp) :
  reg_evolves (reg_execs pre (init_reg ids us)) (reg_execs (pre ++ post) (init_reg ids us)).
Proof. unfold reg_execs. rewrite foldl_app. apply reg_execs_good, reachable_reg_wf. Qed.
(** A successful registration stores exactly one row: a new one with the given
    content when the version is new, else the existing row of that version, whose
    digest and owner are the given ones, made active again. The row is what
    [GetDefinition] then returns, and registering the same input again returns the
    same row and changes no table. *)
Theorem register_definition_correct now now2 (x : DefinitionInput) (d d' : RegDB) r :
  reg_wf d → RegisterDefinition now x d = inr (r, d') →
  registers x d r d' ∧ GetDefinition (di_Key x) (di_Version x) d' = inr (r, d') ∧
  RegisterDefinition now2 x d' = inr (r, reg_bump d').
Proof.
  intros W H. destruct (RegisterDefinition_registers _ _ _ _ _ W H) as [W' R]. split; [done|].
  pose proof R as [(HK & HV & HD & HS & Hdel) Hst _ _ _ _].
  assert (rg_definitions d' !! df_ID r = Some r) as Hr by (rewrite Hst; apply lookup_insert_eq).
  split; [rewrite <- HK, <- HV; by eapply GetDefinition_active|].
  rewrite (register_known now2 x d' _ _ W' Hr) by first [done|by eapply RegisterDefinition_input_ok|by left].
  by rewrite HD, String.eqb_refl.
Qed.
(** A key belongs to its first owner and a version to its first content: a
    registration by another owner is refused as an ownership error even for a new
    version or a deleted key, and one with another digest as an immutability error;
    neither writes anything. *)
Theorem registration_conflicts_refused now (x : DefinitionInput) (d : RegDB) k r :
  reg_wf d → input_ok x = true → rg_definitions d !! k = Some r → df_Key r = di_Key x →
  (df_ScopeIdentityID r ≠ di_ScopeIdentityID x →
     run_tx (RegisterDefinition now x) d = (inl (RErrDefinitionOwnership (df_ScopeIdentityID r)), d)) ∧
  (df_ScopeIdentityID r = di_ScopeIdentityID x → df_Version r = di_Version x → df_Digest r ≠ di_Digest x →
     run_tx (RegisterDefinition now x) d = (inl (RErrImmutableVersion (df_Digest r)), d)).
Proof.
  intros W Hok Hk HK. split.
  - intros HS. unfold run_tx, RegisterDefinition, mbind, tx_bind. rewrite (prepareDefinition_ok _ _ Hok).
    by rewrite (owner_check_known _ _ _ _ W Hk HK), (proj2 (String.eqb_neq _ _) HS).
  - intros HS HV HD. unfold run_tx. rewrite (register_known now x d k r) by first [done|by right].
    by rewrite (proj2 (String.eqb_neq _ _) HD).
Qed.

(** ** What a cleanup and a replacement leave *)
Lemma select_fmap_same {R} (P Q : R → bool) (f : R → R) (t : gmap uuid R) :
  (∀ k r, t !! k = Some r → Q (f r) = P r ∧ (P r = true → f r = r)) → select Q (f <$> t) = select P t.
Proof.
  intros H. unfold select, rows. rewrite map_to_list_fmap.
  assert (∀ kr, kr ∈ map_to_list t → Q (f kr.2) = P kr.2 ∧ (P kr.2 = true → f kr.2 = kr.2)) as Hl.
  { intros [k r] Hin%elem_of_map_to_list. by eapply H. }
  revert Hl. induction (map_to_list t) as [|[k r] l IH]; intros Hl; simpl; [done|].
  destruct (Hl (k, r) ltac:(left)) as [HQ Hf]. simpl in HQ, Hf. specialize (IH (λ kr Hin, Hl kr ltac:(by right))).
  unfold list_filter. cbn. rewrite HQ. destruct (P r) eqn:HP; cbn.
  - rewrite Hf by done. f_equal. exact IH.
  - exact IH.
Qed.
Lemma insert_by_name_perm b l : insert_by_name b l ≡ₚ b :: l.
Proof.
  induction l as [|x l IH]; simpl; [done|]. destruct (String.leb _ _); [done|]. rewrite IH. constructor.
Qed.
Lemma listTriggerBindings_perm d def :
  listTriggerBindings d def ≡ₚ select (λ b, String.eqb (tb_DefinitionID b) def && live_binding b) (rg_bindings d).
Proof.
  unfold listTriggerBindings. induction (select _ _) as [|b l IH]; simpl; [done|]. by rewrite insert_by_name_perm, IH.
Qed.
Lemma elem_of_listTriggerBindings d def b :
  b ∈ listTriggerBindings d def ↔ tb_DefinitionID b = def ∧ tb_DeletedAt b = None ∧ ∃ k, rg_bindings d !! k = Some b.
Proof.
  rewrite listTriggerBindings_perm, elem_of_select, andb_true_iff, String.eqb_eq. unfold live_binding.
  rewrite bool_decide_eq_true. naive_solver.
Qed.
Lemma NoDup_select {R B} (f : R → B) (P : R → bool) (t : gmap uuid R) :
  (∀ k1 k2 r1 r2, t !! k1 = Some r1 → t !! k2 = Some r2 → P r1 = true → P r2 = true → f r1 = f r2 → k1 = k2) →
  NoDup (f <$> select P t).
Proof.
  intros H. unfold select, rows.
  assert (∀ a b, a ∈ map_to_list t → b ∈ map_to_list t → P a.2 = true → P b.2 = true → f a.2 = f b.2 → a.1 = b.1) as Hl.
  { intros [k1 r1] [k2 r2] H1%elem_of_map_to_list H2%elem_of_map_to_list. by eapply H. }
  pose proof (NoDup_fst_map_to_list t) as Hnd. revert Hl Hnd.
  induction (map_to_list t) as [|[k r] l IH]; intros Hl Hnd; simpl; [constructor|].
  apply NoDup_cons in Hnd as [Hk Hnd].
  assert (NoDup (f <$> filter (λ r, P r = true) (snd <$> l))) as IH'.
  { apply IH; [|done]. intros a b Ha Hb. apply Hl; by right. }
  rewrite filter_cons. destruct (decide (P r = true)) as [HP|]; [|done]. apply NoDup_cons. split; [|done].
  intros (r' & Hfr & (HP' & ([k' r''] & Heq & Hin)%list_elem_of_fmap)%list_elem_of_filter)%list_elem_of_fmap.
  simpl in Heq. subst r''. apply Hk, list_elem_of_fmap. exists (k', r'). split; [|done].
  apply (Hl (k, r) (k', r')); [left|by right|done..].
Qed.
Lemma NoDup_bindings d def : reg_wf d → NoDup (tb_Name <$> listTriggerBindings d def).
Proof.
  intros W. rewrite listTriggerBindings_perm. apply NoDup_select. intros k1 k2 b1 b2 H1 H2.
  rewrite !andb_true_iff, !String.eqb_eq. intros [HD1 _] [HD2 _] Hn. eapply (rw_bind_name _ W); [done|done|congruence|done].
Qed.
Lemma select_nil {R} (P : R → bool) (t : gmap uuid R) : (∀ k r, t !! k = Some r → P r = false) → select P t = [].
Proof.
  intros H. apply elem_of_nil_inv. intros r (HP & k & Hk)%elem_of_select. by rewrite (H k r Hk) in HP.
Qed.
Lemma deleted_not_live now c b : live_binding (if c && live_binding b then delete_binding now b else b) = negb c && live_binding b.
Proof. destruct c; simpl; [|done]. destruct (live_binding b) eqn:Hl; done. Qed.
Lemma deleted_not_active now c r : is_active (if c && is_active r then with_deleted (Some now) r else r) = negb c && is_active r.
Proof. destruct c; simpl; [|done]. destruct (is_active r) eqn:Hl; done. Qed.
Lemma deleted_definition (now : timestamp) (c : bool) b : tb_DefinitionID (if c then delete_binding now b else b) = tb_DefinitionID b.
Proof. by destruct c. Qed.
Lemma deleted_scope (now : option timestamp) (c : bool) r : df_ScopeIdentityID (if c then with_deleted now r else r) = df_ScopeIdentityID r.
Proof. by destruct c. Qed.

(** The finalizer's cleanup is complete and isolated: after it the owner has no
    active definition and none of its definitions a live binding, while every other
    owner lists the same definitions as before, and the rows and bindings of a
    definition that is not the owner's are untouched. *)
Theorem owner_cleanup_isolated (now : timestamp) (owner : string) (d : RegDB) :
  let d' := (run_tx (SoftDeleteDefinitionsByOwner now owner) d).2 in
  ListDefinitionsByOwner d' owner = [] ∧
  (∀ other, other ≠ owner → ListDefinitionsByOwner d' other = ListDefinitionsByOwner d other) ∧
  (∀ k r, rg_definitions d !! k = Some r →
     if owned_by d owner r then listTriggerBindings d' k = []
     else rg_definitions d' !! k = Some r ∧ listTriggerBindings d' k = listTriggerBindings d k).
Proof.
  intros d'. unfold d', run_tx, SoftDeleteDefinitionsByOwner, tx_modify, delete_definitions, delete_bindings. cbn.
  split_and!.
  - unfold ListDefinitionsByOwner. rewrite select_nil; [done|]. intros k r'. cbn. rewrite lookup_fmap.
    intros (r & _ & ->)%fmap_Some. unfold owned_by. cbn. rewrite deleted_not_active, deleted_scope.
    by case_bool_decide; rewrite ?andb_false_r.
  - intros other Hne. unfold ListDefinitionsByOwner. f_equal. cbn. apply select_fmap_same. intros k r _.
    unfold owned_by. cbn. rewrite deleted_not_active, deleted_scope. split.
    + repeat case_bool_decide; simpl; try done; congruence.
    + intros [Ho%bool_decide_eq_true_1 _]%andb_true_iff. rewrite bool_decide_eq_false_2; [done|congruence].
  - intros k r Hk. unfold listTriggerBindings. cbn. destruct (owned_by d owner r) eqn:Ho.
    + rewrite select_nil; [done|]. intros j b'. rewrite lookup_fmap. intros (b & _ & ->)%fmap_Some.
      rewrite deleted_not_live, deleted_definition. destruct (String.eqb_spec (tb_DefinitionID b) k) as [->|]; [|done].
      by rewrite Hk, Ho.
    + split; [by rewrite lookup_fmap, Hk; simpl; rewrite Ho|]. f_equal. apply select_fmap_same. intros j b _.
      rewrite deleted_not_live, deleted_definition.
      destruct (String.eqb_spec (tb_DefinitionID b) k) as [->|]; [|done]. by rewrite Hk, Ho.
Qed.

(** The loop: the rows of the given names are written, all others stay. *)
Lemma replace_loop_inr now def st seen bs d u d' :
  reg_wf d → replace_loop now def st seen bs d = inr (u, d') →
  NoDup (ti_Name <$> bs) ∧ (∀ x, x ∈ bs → ti_Name x ∉ seen) ∧ rg_definitions d' = rg_definitions d ∧
  (∀ x, x ∈ bs → ∃ k b, rg_bindings d' !! k = Some b ∧ bound def st x b) ∧
  (∀ k b, rg_bindings d' !! k = Some b → (∃ x, x ∈ bs ∧ bound def st x b) ∨ rg_bindings d !! k = Some b) ∧
  (∀ k b, rg_bindings d !! k = Some b →
     (tb_DefinitionID b = def → tb_Name b ∉ (ti_Name <$> bs)) → rg_bindings d' !! k = Some b).
Proof.
  revert seen d. induction bs as [|x bs IH]; intros seen d W H; simpl in H.
  { apply tx_ret_inr in H as [_ <-]. split_and!; [constructor|set_solver..|done|set_solver|auto|auto]. }
  do 2 (apply tx_bind_inr in H as (? & ? & [_ <-]%tx_require_inr & H)).
  apply tx_bind_inr in H as (? & ? & [Hseen%bool_decide_eq_true_1 <-]%tx_require_inr & H).
  apply tx_bind_inr in H as (? & d1 & Hu & H).
  destruct (upsert_binding_inr _ _ _ _ _ _ _ W Hu) as (W1 & _ & E1 & b & Hb & Hput & Hone).
  destruct (IH _ _ W1 H) as (Hnd & Hns & E2 & Hex & Hfrom & Hkeep).
  assert (ti_Name x ∉ ti_Name <$> bs) as Hx.
  { intros (y & Hy & Hin)%list_elem_of_fmap. specialize (Hns _ Hin). set_solver. }
  pose proof Hb as (HD & _ & HN & _). split_and!.
  - by apply NoDup_cons.
  - intros y [->|Hy]%elem_of_cons; [done|]. specialize (Hns _ Hy). set_solver.
  - congruence.
  - intros y [->|Hy]%elem_of_cons; [|by apply Hex]. exists (tb_ID b), b. split; [|done]. apply Hkeep.
    + rewrite Hput. apply lookup_insert_eq.
    + by rewrite HN.
  - intros k b' [(y & Hy & Hby)|Hk]%Hfrom; [left; exists y; split; [by right|done]|].
    rewrite Hput in Hk. apply lookup_insert_Some in Hk as [[_ <-]|[_ Hk]]; [|by right].
    left. exists x. split; [left|done].
  - intros k b' Hk Hno. cbn in Hno. apply Hkeep; [|set_solver]. rewrite Hput, lookup_insert_ne; [done|].
    intros <-. destruct (proj1 (Hone _ _ Hk) eq_refl) as [HD' HN']. apply (Hno HD'). rewrite HN'. left.
Qed.
Definition binding_input (b : TriggerBindingRow) : TriggerBindingInput :=
  {| ti_Name := tb_Name b; ti_BindingKey := tb_BindingKey b |}.
(** A successful replacement leaves exactly the given bindings live, all with the
    given source type, and touches neither the definitions nor the live bindings of
    another definition. *)
Theorem replace_bindings_exact now def st (bs : list TriggerBindingInput) (d d' : RegDB) u :
  reg_wf d → ReplaceTriggerBindings now def st bs d = inr (u, d') →
  binding_input <$> listTriggerBindings d' def ≡ₚ bs ∧
  (∀ b, b ∈ listTriggerBindings d' def → tb_SourceType b = st) ∧
  (∀ other, other ≠ def → listTriggerBindings d' other ≡ₚ listTriggerBindings d other) ∧
  rg_definitions d' = rg_definitions d.
Proof.
  intros W H. unfold ReplaceTriggerBindings in H. apply tx_bind_inr in H as ([] & d0 & <-%tx_modify_inr & H).
  set (d1 := delete_bindings now _ d) in *.
  assert (reg_wf d1) as W1 by (by apply delete_bindings_good).
  assert (reg_wf d') as W' by (by eapply replace_loop_good).
  destruct (replace_loop_inr _ _ _ _ _ _ _ _ W1 H) as (Hnd & _ & E & Hex & Hfrom & Hkeep).
  assert (∀ b, b ∈ listTriggerBindings d' def → ∃ x, x ∈ bs ∧ bound def st x b) as Hlive.
  { intros b (HD & Hdel & k & [Hx|Hk]%Hfrom)%elem_of_listTriggerBindings; [done|]. cbn in Hk.
    rewrite lookup_fmap in Hk. apply fmap_Some in Hk as (b0 & _ & ->). exfalso.
    rewrite deleted_definition in HD. rewrite HD, String.eqb_refl in Hdel.
    unfold live_binding in Hdel. by destruct (tb_DeletedAt b0) eqn:Hdb; cbn in Hdel; rewrite ?Hdb in Hdel. }
  split_and!; [| | |done].
  - apply NoDup_Permutation.
    + apply (NoDup_fmap_1 ti_Name). rewrite <- list_fmap_compose. by apply NoDup_bindings.
    + by apply (NoDup_fmap_1 ti_Name).
    + intros x. rewrite list_elem_of_fmap. split.
      * intros (b & -> & Hb). destruct (Hlive b Hb) as ([n k] & Hx & (_ & _ & HN & HK & _)).
        unfold binding_input. cbn in HN, HK. by rewrite HN, HK.
      * intros Hx. destruct (Hex x Hx) as (k & b & Hk & (HD & _ & HN & HK & Hdel)). exists b. split.
        { destruct x. unfold binding_input. cbn in *. by rewrite HN, HK. }
        apply elem_of_listTriggerBindings. eauto.
  - intros b Hb. by destruct (Hlive b Hb) as (x & _ & (_ & -> & _)).
  - intros other Hne. apply NoDup_Permutation; [by eapply (NoDup_fmap_1 tb_Name), NoDup_bindings..|].
    assert (∀ k b, tb_DefinitionID b = other → rg_bindings d1 !! k = Some b ↔ rg_bindings d !! k = Some b) as Hsame.
    { intros k b HD. cbn. rewrite lookup_fmap, fmap_Some. split.
      - intros (b0 & Hk & ->). rewrite deleted_definition in HD. by rewrite (proj2 (String.eqb_neq _ _)) by congruence.
      - intros Hk. exists b. by rewrite (proj2 (String.eqb_neq _ _)) by congruence. }
    intros b. rewrite !elem_of_listTriggerBindings. split; intros (HD & Hdel & k & Hk); split_and!; try done; exists k.
    + apply Hfrom in Hk as [(x & _ & (HD' & _))|Hk]; [congruence|]. by apply Hsame.
    + apply Hkeep; [by apply Hsame|congruence].
Qed.

(** * Witnesses *)
Definition demo_ids : gmap uuid string := {["owner-a" := "prod/quotation"; "owner-b" := "prod/invoices"]}.
Fixpoint demo_uuid (n : nat) : uuid :=
  match n with O => "id" | S n' => String.append "x" (demo_uuid n') end.
Definition demo_input (version digest owner : string) : DefinitionInput :=
  {| di_Key := "walter/quotation"; di_Version := version; di_Digest := digest; di_Spec := None;
     di_ValidationStatus := "valid"; di_ScopeIdentityID := owner; di_SourceType := "graph_email";
     di_PoolKey := "prod/pool"; di_Presentation := None |}.
(** One registered version with a binding, then deleted by its owner. *)
Definition demo_reg : RegDB :=
  reg_execs [ORegister 1 (demo_input "1" "sha-1" "owner-a"); OReplace 2 "id" "graph_email" [{| ti_Name := "inbox"; ti_BindingKey := "a@x" |}];
             ODeleteOwner 3 "prod/quotation"] (init_reg demo_ids demo_uuid).
Definition demo_row : Definition_ :=
  {| df_ID := "id"; df_Key := "walter/quotation"; df_Version := "1"; df_Digest := "sha-1"; df_Spec := zero_spec;
     df_ValidationStatus := "valid"; df_ScopeIdentityID := "owner-a"; df_SourceType := "graph_email";
     df_PoolKey := "prod/pool"; df_Presentation := zero_presentation; df_CreatedAt := 1; df_DeletedAt := None |}.
Lemma demo_reg_wf : reg_wf demo_reg.
Proof. apply reachable_reg_wf. Qed.
(** The deleted version is revived; the key stays with its owner. *)
Lemma register_definition_correct_witness :
  ∃ d', RegisterDefinition 4 (demo_input "1" "sha-1" "owner-a") demo_reg = inr (demo_row, d') ∧
    registers (demo_input "1" "sha-1" "owner-a") demo_reg demo_row d' ∧
    GetDefinition "walter/quotation" "1" d' = inr (demo_row, d').
Proof.
  eexists. split; [vm_compute; reflexivity|].
  edestruct (register_definition_correct 4 5 (demo_input "1" "sha-1" "owner-a") demo_reg) as (H1 & H2 & _);
    [exact demo_reg_wf|vm_compute; reflexivity|]. split; [exact H1|exact H2].
Defined.
Lemma registration_conflicts_refused_witness :
  run_tx (RegisterDefinition 4 (demo_input "2" "sha-2" "owner-b")) demo_reg
  = (inl (RErrDefinitionOwnership "owner-a"), demo_reg) ∧
  run_tx (RegisterDefinition 4 (demo_input "1" "sha-2" "owner-a")) demo_reg
  = (inl (RErrImmutableVersion "sha-1"), demo_reg).
Proof.
  assert (rg_definitions demo_reg !! "id" = Some (with_deleted (Some 3) demo_row)) as Hk by (vm_compute; reflexivity).
  split.
  - destruct (registration_conflicts_refused 4 (demo_input "2" "sha-2" "owner-b") demo_reg "id" _
      demo_reg_wf eq_refl Hk eq_refl) as [H _]. apply H. discriminate.
  - destruct (registration_conflicts_refused 4 (demo_input "1" "sha-2" "owner-a") demo_reg "id" _
      demo_reg_wf eq_refl Hk eq_refl) as [_ H]. apply H; [reflexivity|reflexivity|discriminate].
Defined.
Lemma replace_bindings_exact_witness :
  ∃ d', ReplaceTriggerBindings 4 "id" "graph_email"
      [{| ti_Name := "sales"; ti_BindingKey := "s@x" |}; {| ti_Name := "inbox"; ti_BindingKey := "b@x" |}] demo_reg = inr ((), d') ∧
    binding_input <$> listTriggerBindings d' "id"
      ≡ₚ [{| ti_Name := "sales"; ti_BindingKey := "s@x" |}; {| ti_Name := "inbox"; ti_BindingKey := "b@x" |}].
Proof.
  eexists. split; [vm_compute; reflexivity|].
  eapply (replace_bindings_exact 4 "id" "graph_email"); [exact demo_reg_wf|vm_compute; reflexivity].
Defined.
