(* ===== verification/WorkAssign.v ===== *)
(** What dispatch sends a worker for a graph node: [GetAssignmentContext]
    (control-plane/internal/work/assignment.go), and the JSON text of the snapshots it
    stamps on the assignment. *)
From S2P Require Import Prelude Json Runtime Workflow WorkData WorkGraph.

Record ArtifactMaterialization := {
  mt_ArtifactID : string; mt_MIMEType : string; mt_SizeBytes : Z; mt_Digest : string;
  mt_RelativePath : string }.
Record AssignmentContext := {
  ac_WorkItemID : uuid; ac_AttemptID : uuid; ac_ScopeIdentityID : uuid; ac_AgentPoolKey : string;
  ac_Persona : string; ac_Node : NodeExecution; ac_AllowedOutcomes : list string;
  ac_OutputSchema : string; ac_Skills : list CanonicalSkill; ac_ToolPins : json;
  ac_Materializations : list ArtifactMaterialization }.

(** [ORDER BY] a text column. *)
Fixpoint insert_by {A} (key : A → string) (x : A) (l : list A) : list A :=
  match l with
  | [] => [x]
  | y :: l' => if String.leb (key x) (key y) then x :: l else y :: insert_by key x l'
  end.
Definition sort_by {A} (key : A → string) (l : list A) : list A := foldr (insert_by key) [] l.

(** The pins of an attempt, as the array of objects [json.Marshal] writes (map keys
    sorted). *)
Definition tool_pins_json (d : WorkDB) (attemptID : uuid) : json :=
  JArr ((λ p, JObj [("digest", JStr (snd p)); ("tool", JStr (snd (fst p)))])
          <$> sort_by (λ p, snd (fst p)) (filter (λ p, fst (fst p) = attemptID) (tool_pins d))).
(** The distinct available inputs linked to the node. *)
Definition input_artifacts (d : WorkDB) (nodeID : uuid) : list ArtifactMaterialization :=
  let ids := sort_strings (remove_dups (al_ArtifactID <$>
    filter (λ l, al_NodeExecutionID l = Some nodeID ∧ al_Role l ∈ ["source"; "input"]) (artifact_links d))) in
  omap (λ id,
    match artifacts d !! id with
    | Some r =>
        if String.eqb (af_State r) "available" then
          Some {| mt_ArtifactID := id; mt_MIMEType := af_MIMEType r; mt_SizeBytes := af_SizeBytes r;
                  mt_Digest := af_Digest r; mt_RelativePath := ("inputs/" +:+ id)%string |}
        else None
    | None => None
    end) ids.

Definition GetAssignmentContext (nodeExecutionID : uuid) : WkTx AssignmentContext :=
  d ← tx_get;
  node ← tx_opt (node_executions d !! nodeExecutionID) WErrNotFound;
  attempt ← tx_opt (attempts d !! ne_AttemptID node) WErrNotFound;
  run ← tx_opt (workflow_runs (wk_rt d) !! at_ID attempt) WErrNotFound;
  definition ← tx_opt (definitions d !! at_DefinitionID attempt) WErrNotFound;
  def ← tx_opt (findNode (at_GraphSnapshot attempt) (ne_NodeKey node)) WErrNotFound;
  mret {| ac_WorkItemID := at_WorkItemID attempt; ac_AttemptID := at_ID attempt;
          ac_ScopeIdentityID := run_ScopeIdentityID run; ac_AgentPoolKey := df_PoolKey definition;
          ac_Persona := pr_PersonaName (cs_Presentation (df_Spec definition)); ac_Node := node;
          ac_AllowedOutcomes := cn_Outcomes def;
          ac_OutputSchema :=
            (let schema := default EmptyString (cn_OutputSchema def) in
             if String.eqb schema EmptyString then "{}" else schema);
          ac_Skills := ne_SkillsSnapshot node;
          ac_ToolPins := tool_pins_json d (at_ID attempt);
          ac_Materializations := input_artifacts d nodeExecutionID |}.

(** The snapshot columns of a node as [json.Marshal] wrote them. *)
Definition omit_empty (k : string) (empty : bool) (v : json) : list (string * json) :=
  if empty then [] else [(k, v)].
Definition model_snapshot_json (m : modelSnapshot) : json :=
  JObj ([("key", JStr (ms_Key m)); ("id", JStr (ms_ID m)); ("api", JStr (ms_API m));
         ("contextWindow", JNum (ms_ContextWindow m) 0)] ++
        omit_empty "maxOutputTokens" (ms_MaxOutputTokens m =? 0) (JNum (ms_MaxOutputTokens m) 0) ++
        omit_empty "thinkingLevel" (String.eqb (ms_ThinkingLevel m) EmptyString) (JStr (ms_ThinkingLevel m)) ++
        [("defaultParams", ms_DefaultParams m); ("reasoningConfig", ms_ReasoningConfig m)]).
Definition capability_json (c : CanonicalCapability) : json :=
  JObj ([("tool", JStr (cc_Tool c)); ("maxEffectClass", JStr (cc_MaxEffectClass c))] ++
        omit_empty "actions" (bool_decide (cc_Actions c = [])) (JArr (JStr <$> cc_Actions c))).
Definition capabilities_json (l : list CanonicalCapability) : json := JArr (capability_json <$> l).
