(* ===== verification/Spiffe.v ===== *)
(** Workload identities (control-plane/internal/spiffe/spiffe.go): the path of a
    verified SPIFFE id classifies its caller. [Parse] takes the result of [url.Parse]. *)
From Stdlib Require Import Ascii.
From S2P Require Import Prelude.

Inductive Kind := KindUnknown | KindSupervisor | KindRunner | KindControlPlaneWorkflow.
#[export] Instance Kind_eq : EqDecision Kind. Proof. solve_decision. Defined.
Definition kind_String (k : Kind) : string :=
  match k with
  | KindSupervisor => "supervisor"
  | KindRunner => "runner"
  | KindControlPlaneWorkflow => "control-plane-workflow"
  | KindUnknown => "unknown"
  end.
Definition DefaultTrustDomain : string := "iterabase.local".

Record Identity := {
  id_SPIFFEID : string; id_Kind : Kind; id_TrustDomain : string;
  id_PoolUID : string; id_WorkerID : string; id_Namespace : string; id_RunnerID : string }.

(** [strings.Trim(p, "/")]. *)
Fixpoint trim_left (s : string) : string :=
  match s with
  | String c s' => if Ascii.eqb c "/"%char then trim_left s' else s
  | EmptyString => EmptyString
  end.
Fixpoint trim_right (s : string) : string :=
  match s with
  | EmptyString => EmptyString
  | String c s' =>
      match trim_right s' with
      | EmptyString => if Ascii.eqb c "/"%char then EmptyString else String c EmptyString
      | t => String c t
      end
  end.
(** [strings.Split(p, "/")]: one segment more than there are slashes. *)
Fixpoint split_slash (s : string) : list string :=
  match s with
  | EmptyString => [EmptyString]
  | String c s' =>
      if Ascii.eqb c "/"%char then EmptyString :: split_slash s'
      else match split_slash s' with
           | [] => [String c EmptyString]
           | t :: l => String c t :: l
           end
  end.
Definition splitPath (p : string) : list string :=
  let p := trim_right (trim_left p) in
  if String.eqb p EmptyString then [] else split_slash p.

(** The parts of a parsed URL the classification reads; the path is decoded. *)
Record URL := { u_Scheme : string; u_Host : string; u_Path : string }.
Definition bare_identity (spiffeID : string) (k : Kind) (host : string) : Identity :=
  {| id_SPIFFEID := spiffeID; id_Kind := k; id_TrustDomain := host; id_PoolUID := EmptyString;
     id_WorkerID := EmptyString; id_Namespace := EmptyString; id_RunnerID := EmptyString |}.
Definition Parse (spiffeID : string) (parsed : option URL) (trustDomain : string) : string + Identity :=
  let trustDomain := if String.eqb trustDomain EmptyString then DefaultTrustDomain else trustDomain in
  match parsed with
  | None => inl "parse id"
  | Some u =>
      if negb (String.eqb (u_Scheme u) "spiffe") then inl "not a spiffe:// URI"
      else if negb (String.eqb (u_Host u) trustDomain) then inl "trust domain mismatch"
      else
        match splitPath (u_Path u) with
        | ["pools"; pool; "workers"; worker] =>
            inr {| id_SPIFFEID := spiffeID; id_Kind := KindSupervisor; id_TrustDomain := u_Host u;
                   id_PoolUID := pool; id_WorkerID := worker; id_Namespace := EmptyString;
                   id_RunnerID := EmptyString |}
        | ["tool-runners"; ns; runner] =>
            inr {| id_SPIFFEID := spiffeID; id_Kind := KindRunner; id_TrustDomain := u_Host u;
                   id_PoolUID := EmptyString; id_WorkerID := EmptyString; id_Namespace := ns;
                   id_RunnerID := runner |}
        | ["control-plane"; "workflow-runtime"] =>
            inr (bare_identity spiffeID KindControlPlaneWorkflow (u_Host u))
        | _ => inl "unrecognized id path"
        end
  end.
(** The leaf certificate's first URI SAN; a chain is the list of each certificate's
    URI SANs with their parses. *)
Definition IdentityFromCerts (certs : list (list (string * option URL))) (trustDomain : string)
    : string + Identity :=
  match certs with
  | [] => inl "no peer certificate"
  | [] :: _ => inl "peer certificate has no URI SAN"
  | ((uri, parsed) :: _) :: _ => Parse uri parsed trustDomain
  end.
Definition IdentityFromConnState (cs : option (list (list (string * option URL)))) (trustDomain : string)
    : string + Identity :=
  match cs with
  | None => inl "no TLS connection state"
  | Some certs => IdentityFromCerts certs trustDomain
  end.

(** * Facts *)
Definition no_slash (s : string) : Prop := "/"%char ∉ String.list_ascii_of_string s.
Definition segment (s : string) : Prop := no_slash s ∧ s ≠ EmptyString.

Lemma split_no_slash s : no_slash s → split_slash s = [s].
Proof.
  unfold no_slash. induction s as [|c s IH]; simpl; [done|]. intros [Hc Hs]%not_elem_of_cons.
  destruct (Ascii.eqb_spec c "/"%char); [by subst|]. by rewrite IH.
Qed.
Lemma split_join s t : no_slash s → split_slash (s +:+ String "/" t) = s :: split_slash t.
Proof.
  unfold no_slash. induction s as [|c s IH]; simpl; [done|]. intros [Hc Hs]%not_elem_of_cons.
  destruct (Ascii.eqb_spec c "/"%char); [by subst|]. by rewrite IH.
Qed.

Lemma trim_right_no_slash s : no_slash s → trim_right s = s.
Proof.
  unfold no_slash. induction s as [|c s IH]; simpl; [done|]. intros [Hc Hs]%not_elem_of_cons.
  rewrite (IH Hs). destruct s; [|done]. by destruct (Ascii.eqb_spec c "/"%char).
Qed.
Lemma trim_right_app s t : t ≠ EmptyString → trim_right t = t → trim_right (s +:+ t) = s +:+ t.
Proof.
  intros Hn Ht. induction s as [|c s IH]; simpl; [done|]. rewrite IH.
  change (String c s +:+ t) with (String c (s +:+ t)).
  destruct (s +:+ t) eqn:E; [|done]. destruct s; simpl in E; [by subst|done].
Qed.
Lemma split_nonempty s : split_slash s ≠ [].
Proof. destruct s as [|c s]; simpl; [done|]. destruct (Ascii.eqb c "/"%char); [done|]. by destruct (split_slash s). Qed.
(** The segments of a path, joined again. *)
Fixpoint join_slash (l : list string) : string :=
  match l with
  | [] => EmptyString
  | [s] => s
  | s :: l' => s +:+ String "/" (join_slash l')
  end.
Lemma join_cons c s l : join_slash (String c s :: l) = String c (join_slash (s :: l)).
Proof. by destruct l. Qed.
Lemma join_split s : join_slash (split_slash s) = s.
Proof.
  induction s as [|c s IH]; [done|]. simpl. destruct (Ascii.eqb_spec c "/"%char) as [->|Hc].
  - pose proof (split_nonempty s) as Hn. destruct (split_slash s) as [|t l] eqn:E; [done|].
    change (join_slash (EmptyString :: t :: l)) with (String "/" (join_slash (t :: l))). by rewrite IH.
  - pose proof (split_nonempty s) as Hn. destruct (split_slash s) as [|t l] eqn:E; [done|].
    by rewrite join_cons, IH.
Qed.
Lemma join_segments s l :
  segment s → Forall segment l →
  join_slash (s :: l) ≠ EmptyString ∧ trim_right (join_slash (s :: l)) = join_slash (s :: l) ∧
  split_slash (join_slash (s :: l)) = s :: l.
Proof.
  intros Hs Hl. revert s Hs. induction Hl as [|t l Ht Hl IH]; intros s [Hs Hne].
  - simpl. split_and!; [done|by apply trim_right_no_slash|by apply split_no_slash].
  - destruct (IH t Ht) as (J1 & J2 & J3).
    change (join_slash (s :: t :: l)) with (s +:+ String "/" (join_slash (t :: l))).
    split_and!.
    + destruct s; [done|]. done.
    + apply trim_right_app; [done|]. cbn [trim_right]. rewrite J2.
      by destruct (join_slash (t :: l)).
    + rewrite split_join by done. by rewrite J3.
Qed.
Lemma split_path_join s l :
  segment s → Forall segment l → splitPath (String "/" (join_slash (s :: l))) = s :: l.
Proof.
  intros Hs Hl. destruct (join_segments s l Hs Hl) as (J1 & J2 & J3). unfold splitPath.
  assert (trim_left (String "/" (join_slash (s :: l))) = join_slash (s :: l)) as ->.
  { change (trim_left (String "/" (join_slash (s :: l)))) with (trim_left (join_slash (s :: l))).
    destruct Hs as [Hs Hne]. destruct s as [|c s]; [done|]. rewrite join_cons. cbn [trim_left].
    destruct (Ascii.eqb_spec c "/"%char) as [->|]; [|done]. destruct Hs. simpl. left. }
  rewrite J2. rewrite (proj2 (String.eqb_neq _ _) J1). done.
Qed.

(** The id paths the control plane issues. *)
Definition caller_path (id : Identity) : string :=
  match id_Kind id with
  | KindSupervisor => String "/" (join_slash ["pools"; id_PoolUID id; "workers"; id_WorkerID id])
  | KindRunner => String "/" (join_slash ["tool-runners"; id_Namespace id; id_RunnerID id])
  | KindControlPlaneWorkflow => String "/" (join_slash ["control-plane"; "workflow-runtime"])
  | KindUnknown => EmptyString
  end.
(** The identities of the three caller classes, with their own fields only. *)
Definition proper (id : Identity) : Prop :=
  match id_Kind id with
  | KindSupervisor => segment (id_PoolUID id) ∧ segment (id_WorkerID id) ∧
      id_Namespace id = EmptyString ∧ id_RunnerID id = EmptyString
  | KindRunner => segment (id_Namespace id) ∧ segment (id_RunnerID id) ∧
      id_PoolUID id = EmptyString ∧ id_WorkerID id = EmptyString
  | KindControlPlaneWorkflow => id_PoolUID id = EmptyString ∧ id_WorkerID id = EmptyString ∧
      id_Namespace id = EmptyString ∧ id_RunnerID id = EmptyString
  | KindUnknown => False
  end.
Lemma literal_segment s :
  bool_decide ("/"%char ∉ String.list_ascii_of_string s) && negb (String.eqb s EmptyString) = true → segment s.
Proof.
  intros [H1 H2]%andb_true_iff. split; [by apply bool_decide_eq_true in H1|].
  apply negb_true_iff in H2. by apply String.eqb_neq.
Qed.

(** Caller identities round-trip: parsing the SPIFFE id of a supervisor, tool runner or
    control-plane workflow in its trust domain gives back exactly that identity, so
    distinct pools, workers and runners have distinct ids. *)
Theorem spiffe_round_trip id :
  proper id → id_TrustDomain id ≠ EmptyString →
  Parse (id_SPIFFEID id)
    (Some {| u_Scheme := "spiffe"; u_Host := id_TrustDomain id; u_Path := caller_path id |})
    (id_TrustDomain id) = inr id.
Proof.
  intros Hp Ht. unfold Parse, caller_path. rewrite (proj2 (String.eqb_neq _ _) Ht). simpl u_Scheme. simpl u_Host.
  rewrite !String.eqb_refl. cbn [negb u_Path]. destruct id as [sid k td pool w ns r]. unfold proper in Hp.
  cbn [id_Kind id_PoolUID id_WorkerID id_Namespace id_RunnerID id_TrustDomain id_SPIFFEID] in *.
  destruct k; [done|..].
  - destruct Hp as (? & ? & -> & ->). rewrite split_path_join; [done|by apply literal_segment|].
    by repeat (apply Forall_cons_2; [first [assumption|by apply literal_segment]|]).
  - destruct Hp as (? & ? & -> & ->). rewrite split_path_join; [done|by apply literal_segment|].
    by repeat (apply Forall_cons_2; [first [assumption|by apply literal_segment]|]).
  - destruct Hp as (-> & -> & -> & ->). done.
Qed.
Definition demo_supervisor : Identity :=
  {| id_SPIFFEID := "spiffe://iterabase.local/pools/p1/workers/w1"; id_Kind := KindSupervisor;
     id_TrustDomain := DefaultTrustDomain; id_PoolUID := "p1"; id_WorkerID := "w1";
     id_Namespace := EmptyString; id_RunnerID := EmptyString |}.
Lemma spiffe_round_trip_witness :
  Parse (id_SPIFFEID demo_supervisor)
    (Some {| u_Scheme := "spiffe"; u_Host := DefaultTrustDomain; u_Path := "/pools/p1/workers/w1" |})
    DefaultTrustDomain = inr demo_supervisor.
Proof.
  apply (spiffe_round_trip demo_supervisor); [|done].
  split_and!; try done; by apply literal_segment.
Defined.

(** The path check lets an empty segment through: an id whose pool segment is empty is
    classified as a supervisor of the pool with the empty UID. *)
Theorem empty_pool_segment_accepted :
  ∃ uri u id, Parse uri (Some u) DefaultTrustDomain = inr id ∧ id_Kind id = KindSupervisor ∧
    id_PoolUID id = EmptyString ∧ EmptyString ∈ splitPath (u_Path u).
Proof.
  exists "spiffe://iterabase.local/pools//workers/w".
  exists {| u_Scheme := "spiffe"; u_Host := DefaultTrustDomain; u_Path := "/pools//workers/w" |}.
  eexists. split; [reflexivity|]. split_and!; [done|done|]. apply (bool_decide_unpack _). vm_compute. exact I.
Qed.
