(* ===== verification/Dispatch.v ===== *)
(** The durable dispatch store (control-plane/internal/dispatch/store.go): active
    assignments of turns to workers, the session UID allocator, the acknowledged
    event watermark and the run-to-pool binding.

    The tables of migrations 000013, 000014 and 000024 extend the work database.
    Every exported operation is one statement or one transaction, with the exception
    of [AllocateSessionUID], which issues several: it takes the changes other
    connections commit in between as an argument. The readings of Go's clock are
    arguments; [now] is PostgreSQL's [now()]. *)
From Stdlib Require Import QArith Ascii.
From S2P Require Import Prelude Json Runtime WorkerPool WorkData.
#[local] Open Scope Z_scope.

(** * States, rows, errors *)
Inductive AssignmentState := AssignmentActive | AssignmentTerminal | AssignmentFenced.
#[export] Instance AssignmentState_eq : EqDecision AssignmentState.
Proof. solve_decision. Defined.

(** A row of [runtime.turn_assignments]; [scanAssignment] leaves the last two columns. *)
Record Assignment := mkAssignment {
  as_TurnID : uuid; as_RunID : uuid; as_PoolID : uuid; as_WorkerID : string;
  as_FencingGeneration : Z; as_AttemptID : string; as_ScopeIdentityID : uuid;
  as_AgentPoolKey : string; as_ModelPermission : json; as_CapabilityRequest : json;
  as_ToolVersionSnapshot : json; as_State : AssignmentState; as_HighestAppliedSequence : Z;
  as_AssignedAt : timestamp; as_TerminalizedAt : option timestamp;
  as_WorkItemID : option uuid; as_NodeExecutionID : option uuid }.

Record AssignmentInput := {
  in_TurnID : uuid; in_RunID : uuid; in_PoolID : uuid; in_WorkerID : string;
  in_FencingGeneration : Z; in_AttemptID : string; in_ScopeIdentityID : uuid;
  in_AgentPoolKey : string; in_SessionID : string; in_SandboxUID : Z; in_SandboxGID : Z;
  in_ModelPermission : RawMessage; in_CapabilityRequest : RawMessage;
  in_ToolVersionSnapshot : RawMessage; in_WorkItemID : string; in_NodeExecutionID : string }.

Inductive UidState := UidInUse | UidFreed.
#[export] Instance UidState_eq : EqDecision UidState. Proof. solve_decision. Defined.
(** A row of [runtime.session_uid_allocations], keyed by its uid. *)
Record UidAllocation := mkAlloc {
  al_SessionID : string; al_State : UidState; al_AllocatedAt : timestamp;
  al_FreedAt : option timestamp }.

(** A row of [toolgateway.pools]. *)
Record Pool := {
  po_ID : uuid; po_Key : string; po_Name : string; po_SpiffeIDPrefix : string;
  po_DeletedAt : option timestamp }.

Record DispatchDB := mkDispatchDB {
  dp_wk : WorkDB;
  turn_assignments : gmap uuid Assignment;
  session_uid_allocations : gmap Z UidAllocation;
  workspace_capacity_state : gmap uuid WorkspaceCapacityState;
  pools : gmap uuid Pool }.

Definition set_wk (w : WorkDB) (d : DispatchDB) : DispatchDB :=
  mkDispatchDB w (turn_assignments d) (session_uid_allocations d) (workspace_capacity_state d) (pools d).
Definition set_assignments (t : gmap uuid Assignment) (d : DispatchDB) : DispatchDB :=
  mkDispatchDB (dp_wk d) t (session_uid_allocations d) (workspace_capacity_state d) (pools d).
Definition set_allocs (t : gmap Z UidAllocation) (d : DispatchDB) : DispatchDB :=
  mkDispatchDB (dp_wk d) (turn_assignments d) t (workspace_capacity_state d) (pools d).
Definition set_capacity (t : gmap uuid WorkspaceCapacityState) (d : DispatchDB) : DispatchDB :=
  mkDispatchDB (dp_wk d) (turn_assignments d) (session_uid_allocations d) t (pools d).
Definition dp_rt (d : DispatchDB) : RuntimeDB := wk_rt (dp_wk d).
Definition runs_of (d : DispatchDB) : gmap uuid Run := workflow_runs (dp_rt d).

Inductive DpErr :=
| ErrNotFound
| ErrPoolStorageUnauthorized
| ErrAlreadyAssigned
| ErrAssignmentNotActive
| ErrSessionUIDUnavailable
| ErrSessionIdentityMismatch
| ErrSessionUIDActive
| ErrOutOfOrderSequence
| ErrUIDExhausted
| errUIDRace
| errRetriesExhausted
| errNoModel
| errInvalidModelSnapshot
| errUnavailable
| errSend
| errProtocol
| errScan
| errWork (e : WkErr)
| errDB (e : RtErr).

Abbreviation DpTx := (Tx DispatchDB DpErr).
(** Statements on the work and on the runtime tables. *)
Definition lift_wk {A} (m : WkTx A) : DpTx A := λ d,
  match m (dp_wk d) with
  | inl e => inl (errWork e)
  | inr (a, w) => inr (a, set_wk w d)
  end.
Definition lift_drt {A} (m : RtTx A) : DpTx A := λ d,
  match m (dp_rt d) with
  | inl e => inl (errDB e)
  | inr (a, r) => inr (a, set_wk (set_rt r (dp_wk d)) d)
  end.

(** [jsonB] into a [jsonb] column. *)
Definition jsonb_arg (r : RawMessage) : DpTx json :=
  match r with
  | NoJSON => mret (JObj [])
  | GoodJSON v => mret v
  | BadJSON _ => tx_fail (errDB ErrInvalidJSON)
  end.

(** * Assignments *)
Definition is_active (a : Assignment) : bool := bool_decide (as_State a = AssignmentActive).
Definition bound_to (poolID workerID : string) (a : Assignment) : bool :=
  String.eqb (as_PoolID a) poolID && String.eqb (as_WorkerID a) workerID.
Definition with_assignment_state (st : AssignmentState) (term : option timestamp) (a : Assignment)
    : Assignment :=
  mkAssignment (as_TurnID a) (as_RunID a) (as_PoolID a) (as_WorkerID a) (as_FencingGeneration a)
    (as_AttemptID a) (as_ScopeIdentityID a) (as_AgentPoolKey a) (as_ModelPermission a)
    (as_CapabilityRequest a) (as_ToolVersionSnapshot a) st (as_HighestAppliedSequence a)
    (as_AssignedAt a) term (as_WorkItemID a) (as_NodeExecutionID a).
Definition with_watermark (seq : Z) (a : Assignment) : Assignment :=
  mkAssignment (as_TurnID a) (as_RunID a) (as_PoolID a) (as_WorkerID a) (as_FencingGeneration a)
    (as_AttemptID a) (as_ScopeIdentityID a) (as_AgentPoolKey a) (as_ModelPermission a)
    (as_CapabilityRequest a) (as_ToolVersionSnapshot a) (as_State a) seq
    (as_AssignedAt a) (as_TerminalizedAt a) (as_WorkItemID a) (as_NodeExecutionID a).

(** [COALESCE(MAX(fencing_generation), 0)], scanned into a [uint64]. *)
Definition MaxFencingGeneration (d : DispatchDB) : option Z :=
  let l := rows (turn_assignments d) in
  let m := match l with
           | [] => 0
           | a :: l' => foldr (λ b, Z.max (as_FencingGeneration b)) (as_FencingGeneration a) l'
           end in
  if m <? 0 then None else Some m.

(** The row of a session; the column is UNIQUE. *)
Definition session_alloc (d : DispatchDB) (sessionID : string) : option (Z * UidAllocation) :=
  head (filter (λ kv, al_SessionID kv.2 = sessionID) (map_to_list (session_uid_allocations d))).

Definition CreateAssignment (now : timestamp) (x : AssignmentInput) : DpTx Assignment :=
  tx_require (negb (String.eqb (in_SessionID x) EmptyString) && negb (in_SandboxUID x =? 0) &&
              (in_SandboxUID x =? in_SandboxGID x)) ErrSessionIdentityMismatch;;
  d ← tx_get;
  run ← tx_opt (runs_of d !! in_RunID x) ErrNotFound;
  tx_require (String.eqb (run_SessionID run) (in_SessionID x)) ErrSessionIdentityMismatch;;
  alloc ← tx_opt (session_alloc d (in_SessionID x)) ErrSessionUIDUnavailable;
  tx_require (bool_decide (al_State (snd alloc) = UidInUse)) ErrSessionUIDUnavailable;;
  tx_require (fst alloc =? in_SandboxUID x) ErrSessionIdentityMismatch;;
  model ← jsonb_arg (in_ModelPermission x);
  capability ← jsonb_arg (in_CapabilityRequest x);
  tools ← jsonb_arg (in_ToolVersionSnapshot x);
  tx_require (bool_decide (turn_assignments d !! in_TurnID x = None)) ErrAlreadyAssigned;;
  tx_require (bool_decide (is_Some (turns (dp_rt d) !! in_TurnID x)))
    (errDB (ErrForeignKeyViolation "turn_assignments_turn_id_fkey"));;
  tx_require (fk_ok (work_items (dp_wk d)) (nullable (in_WorkItemID x)))
    (errDB (ErrForeignKeyViolation "turn_assignments_work_item_id_fkey"));;
  tx_require (fk_ok (node_executions (dp_wk d)) (nullable (in_NodeExecutionID x)))
    (errDB (ErrForeignKeyViolation "turn_assignments_node_execution_id_fkey"));;
  let a := mkAssignment (in_TurnID x) (in_RunID x) (in_PoolID x) (in_WorkerID x)
             (in_FencingGeneration x) (in_AttemptID x) (in_ScopeIdentityID x) (in_AgentPoolKey x)
             model capability tools AssignmentActive 0 now None
             (nullable (in_WorkItemID x)) (nullable (in_NodeExecutionID x)) in
  tx_modify (set_assignments (<[in_TurnID x := a]> (turn_assignments d)));;
  mret a.

Definition active_row (d : DispatchDB) (turnID : uuid) : option Assignment :=
  a ← turn_assignments d !! turnID; if is_active a then Some a else None.
Definition ResolveActiveAssignment (turnID : uuid) : DpTx Assignment :=
  d ← tx_get; tx_opt (active_row d turnID) ErrAssignmentNotActive.
Definition ActiveAssignmentForWorker (poolID workerID : string) : DpTx Assignment :=
  d ← tx_get;
  tx_opt (head (select (λ a, bound_to poolID workerID a && is_active a) (turn_assignments d)))
    ErrNotFound.

(** [UPDATE ... SET state = 'fenced' WHERE P RETURNING]: every matching row moves,
    the caller reads the first returned. *)
Definition fence_rows (P : Assignment → bool) : DpTx Assignment :=
  d ← tx_get;
  tx_modify (set_assignments
    ((λ a, if P a then with_assignment_state AssignmentFenced (as_TerminalizedAt a) a else a)
       <$> turn_assignments d));;
  tx_opt ((λ a, with_assignment_state AssignmentFenced (as_TerminalizedAt a) a)
            <$> head (select P (turn_assignments d))) ErrNotFound.
Definition FenceWorkerGeneration (poolID workerID : string) : DpTx Assignment :=
  fence_rows (λ a, bound_to poolID workerID a && is_active a).
Definition FenceWorkerGenerationIf (poolID workerID : string) (expectedGen : Z) : DpTx Assignment :=
  fence_rows (λ a, bound_to poolID workerID a && is_active a &&
                   (as_FencingGeneration a =? expectedGen)).

(** [ORDER BY assigned_at DESC LIMIT 1]. *)
Definition PriorAssignmentForWorker (poolID workerID : string) : DpTx Assignment :=
  d ← tx_get;
  tx_opt (min_by (λ a, - as_AssignedAt a) (select (bound_to poolID workerID) (turn_assignments d)))
    ErrNotFound.

Definition TerminalizeAssignment (now : timestamp) (turnID : uuid) : DpTx () :=
  tx_modify (λ d,
    match turn_assignments d !! turnID with
    | Some a =>
        if bool_decide (as_State a = AssignmentTerminal) then d
        else set_assignments
               (<[turnID := with_assignment_state AssignmentTerminal (Some now) a]> (turn_assignments d)) d
    | None => d
    end).

(** * Worker events *)

(** The body [AppendTurnEvent] and [AppendAfterTerminalEvent] share: deduplicate
    against the locked row, append the audit event, advance the watermark. *)
Definition append_sequenced (now : timestamp) (turnID : uuid) (a : Assignment) (workerSeq : Z)
    (kind : string) (payload : RawMessage) : DpTx bool :=
  let highest := as_HighestAppliedSequence a in
  if workerSeq <=? highest then mret false
  else
    tx_require (workerSeq =? highest + 1) ErrOutOfOrderSequence;;
    p ← jsonb_arg payload;
    lift_drt (insertEvent now (as_RunID a) (Some turnID) None None kind p);;
    tx_require (workerSeq <=? int8_max) (errDB ErrNumericOutOfRange);;
    tx_modify (λ d, set_assignments (<[turnID := with_watermark workerSeq a]> (turn_assignments d)) d);;
    mret true.
Definition AppendTurnEvent (now : timestamp) (turnID : uuid) (workerSeq : Z) (kind : string)
    (payload : RawMessage) : DpTx bool :=
  d ← tx_get;
  a ← tx_opt (active_row d turnID) ErrAssignmentNotActive;
  append_sequenced now turnID a workerSeq kind payload.
Definition AppendAfterTerminalEvent (now : timestamp) (turnID : uuid) (workerSeq : Z) (kind : string)
    (payload : RawMessage) (poolID workerID : string) : DpTx bool :=
  d ← tx_get;
  a ← tx_opt (a ← turn_assignments d !! turnID; if bound_to poolID workerID a then Some a else None)
        ErrNotFound;
  append_sequenced now turnID a workerSeq kind payload.
Definition AckWatermark (turnID : uuid) : DpTx Z :=
  d ← tx_get;
  a ← tx_opt (active_row d turnID) ErrAssignmentNotActive;
  mret (as_HighestAppliedSequence a).
Definition SessionIDForRun (runID : uuid) : DpTx string :=
  d ← tx_get; run ← tx_opt (runs_of d !! runID) ErrNotFound; mret (run_SessionID run).

(** * The session UID allocator *)
Definition with_alloc (sessionID : string) (st : UidState) (freed : option timestamp)
    (a : UidAllocation) : UidAllocation := mkAlloc sessionID st (al_AllocatedAt a) freed.
(** [state = 'freed' AND freed_at < $graceBefore]. *)
Definition recyclable (graceBefore : timestamp) (a : UidAllocation) : bool :=
  match al_State a, al_FreedAt a with
  | UidFreed, Some t => t <? graceBefore
  | _, _ => false
  end.
(** [state = 'freed' AND freed_at >= $graceBefore]. *)
Definition within_grace (graceBefore : timestamp) (a : UidAllocation) : bool :=
  match al_State a, al_FreedAt a with
  | UidFreed, Some t => graceBefore <=? t
  | _, _ => false
  end.
Definition uid_free (graceBefore : timestamp) (d : DispatchDB) (uid : Z) : bool :=
  match session_uid_allocations d !! uid with
  | None => true
  | Some a => recyclable graceBefore a
  end.
(** [generate_series(lo, hi)] joined with the table, [ORDER BY uid LIMIT 1]. *)
Definition lowest_free (graceBefore : timestamp) (d : DispatchDB) (lo hi : Z) : option Z :=
  List.find (uid_free graceBefore d) (seqZ lo (hi - lo + 1)).
Definition other_session_row (d : DispatchDB) (uid : Z) (sessionID : string) : bool :=
  bool_decide (Exists (λ kv, kv.1 ≠ uid ∧ al_SessionID kv.2 = sessionID)
                 (map_to_list (session_uid_allocations d))).

(** [INSERT ... ON CONFLICT (uid) DO UPDATE ... WHERE]: a new row, or the expired one
    handed to the session; no row returned is a lost race. *)
Definition claim_uid (now graceBefore : timestamp) (candidate : Z) (sessionID : string) : DpTx Z :=
  d ← tx_get;
  row ← match session_uid_allocations d !! candidate with
        | None => mret (mkAlloc sessionID UidInUse now None)
        | Some a =>
            if recyclable graceBefore a then mret (with_alloc sessionID UidInUse None a)
            else tx_fail errUIDRace
        end;
  tx_require (negb (other_session_row d candidate sessionID))
    (errDB (ErrUniqueViolation "session_uid_allocations_session_id_key"));;
  tx_modify (set_allocs (<[candidate := row]> (session_uid_allocations d)));;
  mret candidate.

Definition uint32_mod : Z := 4294967296.
(** One attempt. [env1] and [env2] are what other connections commit before the
    candidate is selected and before it is claimed. [base+n-1] is computed in
    [uint32]; a bound above the [integer] range is an encoding error. *)
Definition tryAllocSessionUID (env1 env2 : DispatchDB → DispatchDB) (goNow dbNow : timestamp)
    (sessionID : string) (base n : Z) (grace : Z) (d : DispatchDB) : (DpErr + Z) * DispatchDB :=
  let graceBefore := goNow - grace in
  let hi := (base + n - 1) mod uint32_mod in
  let d := env1 d in
  if (int4_max <? base) || (int4_max <? hi) then (inl (errDB ErrNumericOutOfRange), d)
  else
    match lowest_free graceBefore d base hi with
    | None => (inl ErrUIDExhausted, d)
    | Some candidate => run_tx (claim_uid dbNow graceBefore candidate sessionID) (env2 d)
    end.

Definition isUniqueViolation (e : DpErr) : bool :=
  match e with errDB (ErrUniqueViolation _) => true | _ => false end.
Definition uid_retryable (e : DpErr) : bool :=
  match e with errUIDRace => true | _ => isUniqueViolation e end.

(** The retry loop; attempt [k] issues statements [3+2k] and [4+2k]. *)
Fixpoint alloc_attempts (left k : nat) (env : nat → DispatchDB → DispatchDB)
    (goNow dbNow : nat → timestamp) (sessionID : string) (base n : Z) (grace : Z) (d : DispatchDB)
    : (DpErr + Z) * DispatchDB :=
  match left with
  | O => (inl errRetriesExhausted, d)
  | S left' =>
      match tryAllocSessionUID (env (3 + 2 * k)%nat) (env (4 + 2 * k)%nat) (goNow (S k)) (dbNow (S k))
              sessionID base n grace d with
      | (inr uid, d') => (inr uid, d')
      | (inl e, d') =>
          if uid_retryable e then alloc_attempts left' (S k) env goNow dbNow sessionID base n grace d'
          else (inl e, d')
      end
  end.

(** [UPDATE ... SET state = 'in_use', freed_at = NULL WHERE session_id = $1 AND P RETURNING uid]. *)
Definition reclaim_session (P : UidAllocation → bool) (sessionID : string) (d : DispatchDB)
    : option Z * DispatchDB :=
  match session_alloc d sessionID with
  | Some (uid, a) =>
      if P a then (Some uid, set_allocs (<[uid := with_alloc sessionID UidInUse None a]>
                                            (session_uid_allocations d)) d)
      else (None, d)
  | None => (None, d)
  end.
Definition in_use (a : UidAllocation) : bool := bool_decide (al_State a = UidInUse).

Definition AllocateSessionUID (env : nat → DispatchDB → DispatchDB) (goNow dbNow : nat → timestamp)
    (sessionID : string) (base n : Z) (grace : Z) (d : DispatchDB) : (DpErr + Z) * DispatchDB :=
  if n =? 0 then (inl ErrUIDExhausted, d)
  else
    let graceBefore := goNow 0%nat - grace in
    match reclaim_session in_use sessionID (env 0%nat d) with
    | (Some uid, d) => (inr uid, d)
    | (None, d) =>
        match reclaim_session (recyclable graceBefore) sessionID (env 1%nat d) with
        | (Some uid, d) => (inr uid, d)
        | (None, d) =>
            let d := env 2%nat d in
            let blocked := match session_alloc d sessionID with
                           | Some (_, a) => within_grace graceBefore a
                           | None => false
                           end in
            if blocked then (inl ErrUIDExhausted, d)
            else alloc_attempts 8 0 env goNow dbNow sessionID base n grace d
        end
    end.

Definition SessionUID (sessionID : string) : DpTx Z :=
  d ← tx_get;
  alloc ← tx_opt (session_alloc d sessionID) ErrNotFound;
  tx_require (in_use (snd alloc)) ErrNotFound;;
  mret (fst alloc).

(** A turn of the session is actively assigned. *)
Definition session_active (d : DispatchDB) (sessionID : string) : bool :=
  exists_row (λ a, is_active a &&
                   match runs_of d !! as_RunID a with
                   | Some run => String.eqb (run_SessionID run) sessionID
                   | None => false
                   end) (turn_assignments d).
Definition ReleaseSessionUID (now : timestamp) (sessionID : string) : DpTx () :=
  d ← tx_get;
  match session_alloc d sessionID with
  | None => mret ()
  | Some (uid, a) =>
      if bool_decide (al_State a = UidFreed) then mret ()
      else
        tx_require (negb (session_active d sessionID)) ErrSessionUIDActive;;
        tx_modify (set_allocs (<[uid := with_alloc sessionID UidFreed (Some now) a]>
                                 (session_uid_allocations d)))
  end.

(** * Capacity rows, pools, run-to-pool binding *)

(** [scanWorkspaceCapacityState] rejects a row the table cannot hold. *)
Definition scanWorkspaceCapacityState (s : WorkspaceCapacityState) : option WorkspaceCapacityState :=
  if String.eqb (wcs_PoolID s) EmptyString || (wcs_FreeBytes s <? 0) || (wcs_CapacityBytes s <? 0)
  then None else Some s.
Definition pool_live (d : DispatchDB) (poolID : uuid) : bool :=
  match pools d !! poolID with
  | Some p => bool_decide (po_DeletedAt p = None)
  | None => false
  end.
Definition LoadWorkspaceCapacityStates (d : DispatchDB) : option (gmap string WorkspaceCapacityState) :=
  let found := select (λ s, pool_live d (wcs_PoolID s)) (workspace_capacity_state d) in
  scanned ← mapM scanWorkspaceCapacityState found;
  Some (list_to_map ((λ s, (wcs_PoolID s, s)) <$> scanned)).

(** The upsert of WorkerPool with its foreign key on the pool. *)
Definition observe_capacity (now : timestamp) (poolID : uuid) (free capacity : Z) (ratio : Q)
    : DpTx WorkspaceCapacityState :=
  d ← tx_get;
  r ← tx_opt (ObserveWorkspaceCapacity now poolID free capacity ratio (workspace_capacity_state d))
        (errDB ErrNumericOutOfRange);
  tx_require (bool_decide (is_Some (pools d !! poolID)))
    (errDB (ErrForeignKeyViolation "workspace_capacity_state_pool_id_fkey"));;
  tx_modify (set_capacity (snd r));;
  tx_opt (scanWorkspaceCapacityState (fst r)) errScan.

(** PostgreSQL's [LIKE] with the default escape character, on ASCII text. *)
Fixpoint like (p s : string) {struct p} : bool :=
  match p with
  | EmptyString => String.eqb s EmptyString
  | String c p' =>
      if Ascii.eqb c "%"%char then
        (fix any (s : string) : bool :=
           like p' s || match s with EmptyString => false | String _ s' => any s' end) s
      else if Ascii.eqb c "_"%char then
        match s with EmptyString => false | String _ s' => like p' s' end
      else if Ascii.eqb c "\" then
        match p', s with
        | String e p'', String x s' => Ascii.eqb e x && like p'' s'
        | _, _ => false
        end
      else match s with EmptyString => false | String x s' => Ascii.eqb c x && like p' s' end
  end.
Definition prefix_matches (spiffeID : string) (p : Pool) : bool :=
  like (po_SpiffeIDPrefix p +:+ "%") spiffeID && bool_decide (po_DeletedAt p = None).
Definition ResolvePoolBySpiffePrefix (spiffeID : string) : DpTx Pool :=
  d ← tx_get;
  tx_opt (min_by (λ p, - Z.of_nat (String.length (po_SpiffeIDPrefix p)))
            (select (prefix_matches spiffeID) (pools d))) ErrNotFound.

Definition set_pool_assignments (t : gmap uuid uuid) (d : WorkDB) : WorkDB :=
  mkWorkDB (wk_rt d) (definitions d) (work_items d) (attempts d) (node_executions d)
    (graph_transitions d) (blockers d) (feedback d) (artifact_links d) (timeline_events d)
    (value_ledger d) (value_models d) (artifacts d) (invocations d) (catalog d) (tool_pins d) t.
Definition AssignRunToPool (runID poolID : uuid) : DpTx () :=
  d ← tx_get;
  tx_require (bool_decide (is_Some (runs_of d !! runID)))
    (errDB (ErrForeignKeyViolation "run_pool_assignments_run_id_fkey"));;
  tx_modify (set_wk (set_pool_assignments (<[runID := poolID]> (pool_assignments (dp_wk d))) (dp_wk d))).
Definition PoolForRun (runID : uuid) : DpTx uuid :=
  d ← tx_get;
  poolID ← tx_opt (pool_assignments (dp_wk d) !! runID) ErrNotFound;
  tx_require (match workspace_capacity_state d !! poolID with
              | Some s => wcs_StorageAuthorized s
              | None => false
              end) ErrPoolStorageUnauthorized;;
  mret poolID.
