(* ===== verification/DispatchFacts.v ===== *)
(** The dispatch store keeps its tables consistent under every interleaving of its
    statements: the invariant, the evolution of assignments and of UID allocations,
    fencing, and the exactly-once watermark. *)
From Stdlib Require Import QArith Ascii.
From S2P Require Import Prelude Json Runtime RuntimeFacts WorkerPool WorkData Dispatch.
#[local] Open Scope Z_scope.

(** * The invariant *)
Record dp_wf (d : DispatchDB) : Prop := {
  dw_key : ∀ k a, turn_assignments d !! k = Some a → as_TurnID a = k;
  dw_run : ∀ k a, turn_assignments d !! k = Some a → is_Some (runs_of d !! as_RunID a);
  dw_seq : ∀ k a, turn_assignments d !! k = Some a → 0 ≤ as_HighestAppliedSequence a ≤ int8_max;
  dw_terminal : ∀ k a, turn_assignments d !! k = Some a →
    (is_Some (as_TerminalizedAt a) ↔ as_State a = AssignmentTerminal);
  dw_session : ∀ k a run, turn_assignments d !! k = Some a → as_State a = AssignmentActive →
    runs_of d !! as_RunID a = Some run →
    ∃ uid al, session_uid_allocations d !! uid = Some al ∧ al_SessionID al = run_SessionID run ∧
      al_State al = UidInUse;
  dw_unique : ∀ u1 u2 a1 a2, session_uid_allocations d !! u1 = Some a1 →
    session_uid_allocations d !! u2 = Some a2 → al_SessionID a1 = al_SessionID a2 → u1 = u2;
  dw_freed : ∀ u al, session_uid_allocations d !! u = Some al →
    (is_Some (al_FreedAt al) ↔ al_State al = UidFreed);
  dw_range : ∀ u al, session_uid_allocations d !! u = Some al → 0 ≤ u ≤ int4_max }.

Lemma session_alloc_Some d s u al :
  session_alloc d s = Some (u, al) → session_uid_allocations d !! u = Some al ∧ al_SessionID al = s.
Proof.
  unfold session_alloc. intros [l Hl]%head_Some.
  assert ((u, al) ∈ filter (λ kv, al_SessionID kv.2 = s) (map_to_list (session_uid_allocations d)))
    as Hin by (rewrite Hl; left).
  apply list_elem_of_filter in Hin as [? Hin]. by apply elem_of_map_to_list in Hin.
Qed.
Lemma session_alloc_None d s :
  session_alloc d s = None ↔ ∀ u al, session_uid_allocations d !! u = Some al → al_SessionID al ≠ s.
Proof.
  unfold session_alloc. rewrite head_None. split.
  - intros Hn u al Hu <-. apply elem_of_map_to_list in Hu.
    assert ((u, al) ∈ filter (λ kv, al_SessionID kv.2 = al_SessionID al)
              (map_to_list (session_uid_allocations d))) as Hin by (by apply list_elem_of_filter).
    rewrite Hn in Hin. by apply not_elem_of_nil in Hin.
  - intros H. apply elem_of_nil_inv. intros [u al] [Hs Hu%elem_of_map_to_list]%list_elem_of_filter.
    by eapply H.
Qed.
Lemma session_alloc_wf d s u al :
  dp_wf d → session_uid_allocations d !! u = Some al → al_SessionID al = s →
  session_alloc d s = Some (u, al).
Proof.
  intros Hwf Hu Hs. destruct (session_alloc d s) as [[u' al']|] eqn:E.
  - apply session_alloc_Some in E as [Hu' Hs'].
    assert (u' = u) as -> by (eapply (dw_unique _ Hwf); eauto; congruence). congruence.
  - apply session_alloc_None with (u := u) (al := al) in E; done.
Qed.
Lemma active_row_Some d k a :
  active_row d k = Some a ↔ turn_assignments d !! k = Some a ∧ as_State a = AssignmentActive.
Proof.
  unfold active_row, is_active. destruct (turn_assignments d !! k) as [b|]; simpl; [|naive_solver].
  case_bool_decide; naive_solver.
Qed.
Lemma other_session_row_false d u s :
  other_session_row d u s = false →
  ∀ u' al, session_uid_allocations d !! u' = Some al → al_SessionID al = s → u' = u.
Proof.
  unfold other_session_row. rewrite bool_decide_eq_false, Exists_exists. intros Hn u' al Hu Hs.
  destruct (decide (u' = u)) as [|Hne]; [done|]. destruct Hn. exists (u', al).
  by rewrite elem_of_map_to_list.
Qed.

(** * Atomic statements and transactions

    [dispatch_step l d d'] is one committed statement or transaction of some
    connection. [SOther] is any transaction of the runtime and work stores: runs are
    not deleted and keep their session. *)
Definition runs_stay (r r' : gmap uuid Run) : Prop :=
  ∀ k x, r !! k = Some x → ∃ x', r' !! k = Some x' ∧ run_SessionID x' = run_SessionID x.

Inductive label :=
| LAssign (turnID : uuid)
| LReleased (t : timestamp) (sessionID : string)
| LClaimed (graceBefore : timestamp) (uid : Z) (sessionID : string)
| LOther.

Inductive dispatch_step : label → DispatchDB → DispatchDB → Prop :=
| SCreate now x d a d' :
    CreateAssignment now x d = inr (a, d') → dispatch_step (LAssign (in_TurnID x)) d d'
| SFence poolID workerID d a d' :
    FenceWorkerGeneration poolID workerID d = inr (a, d') → dispatch_step LOther d d'
| SFenceIf poolID workerID gen d a d' :
    FenceWorkerGenerationIf poolID workerID gen d = inr (a, d') → dispatch_step LOther d d'
| STerminalize now turnID d u d' :
    TerminalizeAssignment now turnID d = inr (u, d') → dispatch_step LOther d d'
| SAppend now turnID seq kind payload d b d' :
    AppendTurnEvent now turnID seq kind payload d = inr (b, d') → dispatch_step LOther d d'
| SAppendLate now turnID seq kind payload poolID workerID d b d' :
    AppendAfterTerminalEvent now turnID seq kind payload poolID workerID d = inr (b, d') →
    dispatch_step LOther d d'
| SReclaim sessionID d uid d' :
    reclaim_session in_use sessionID d = (Some uid, d') → dispatch_step LOther d d'
| SReclaimFreed graceBefore sessionID d uid d' :
    reclaim_session (recyclable graceBefore) sessionID d = (Some uid, d') →
    dispatch_step (LClaimed graceBefore uid sessionID) d d'
| SClaim now graceBefore candidate sessionID d uid d' :
    0 ≤ candidate ≤ int4_max →
    claim_uid now graceBefore candidate sessionID d = inr (uid, d') →
    dispatch_step (LClaimed graceBefore uid sessionID) d d'
| SRelease now sessionID d u d' :
    ReleaseSessionUID now sessionID d = inr (u, d') → dispatch_step (LReleased now sessionID) d d'
| SObserve now poolID free capacity ratio d s d' :
    observe_capacity now poolID free capacity ratio d = inr (s, d') → dispatch_step LOther d d'
| SAssignRun runID poolID d u d' :
    AssignRunToPool runID poolID d = inr (u, d') → dispatch_step LOther d d'
| SOther w d : runs_stay (runs_of d) (workflow_runs (wk_rt w)) → dispatch_step LOther d (set_wk w d).

Inductive trace : list label → DispatchDB → DispatchDB → Prop :=
| trace_nil d : trace [] d d
| trace_cons l ls d1 d2 d3 : dispatch_step l d1 d2 → trace ls d2 d3 → trace (l :: ls) d1 d3.
Definition steps (d d' : DispatchDB) : Prop := ∃ ls, trace ls d d'.

Lemma trace_app l1 l2 d1 d2 d3 : trace l1 d1 d2 → trace l2 d2 d3 → trace (l1 ++ l2) d1 d3.
Proof. induction 1; [done|]. intros ?. simpl. eapply trace_cons; eauto. Qed.
#[export] Instance steps_preorder : PreOrder steps.
Proof.
  split; [by exists []; constructor|]. intros d1 d2 d3 [l1 H1] [l2 H2].
  exists (l1 ++ l2). by eapply trace_app.
Qed.
Lemma steps_one l d d' : dispatch_step l d d' → steps d d'.
Proof. intros H. exists [l]. econstructor; [done|constructor]. Qed.

(** * What each statement does *)
Definition jsonb_value (r : RawMessage) (v : json) : Prop := jsonb_arg r = mret v.
Lemma jsonb_arg_inr r d v d' : jsonb_arg r d = inr (v, d') → d' = d ∧ jsonb_value r v.
Proof. unfold jsonb_value. destruct r; unfold jsonb_arg; intros H; inv_tx; done. Qed.

Record created (x : AssignmentInput) (d : DispatchDB) (a : Assignment) (d' : DispatchDB) : Prop := {
  cd_fresh : turn_assignments d !! in_TurnID x = None;
  cd_db : d' = set_assignments (<[in_TurnID x := a]> (turn_assignments d)) d;
  cd_turn : as_TurnID a = in_TurnID x ∧ is_Some (turns (dp_rt d) !! in_TurnID x);
  cd_run : as_RunID a = in_RunID x ∧
    ∃ run, runs_of d !! in_RunID x = Some run ∧ run_SessionID run = in_SessionID x;
  cd_uid : ∃ al, session_uid_allocations d !! in_SandboxUID x = Some al ∧
    al_SessionID al = in_SessionID x ∧ al_State al = UidInUse;
  cd_sandbox : in_SandboxUID x = in_SandboxGID x ∧ in_SandboxUID x ≠ 0 ∧ in_SessionID x ≠ EmptyString;
  cd_worker : as_PoolID a = in_PoolID x ∧ as_WorkerID a = in_WorkerID x ∧
    as_FencingGeneration a = in_FencingGeneration x;
  cd_state : as_State a = AssignmentActive ∧ as_HighestAppliedSequence a = 0 ∧
    as_TerminalizedAt a = None }.

Lemma CreateAssignment_inr now x d a d' :
  CreateAssignment now x d = inr (a, d') → created x d a d'.
Proof.
  unfold CreateAssignment. intros H. inv_tx.
  repeat match goal with
  | H : jsonb_arg _ _ = inr _ |- _ => apply jsonb_arg_inr in H as [-> _]
  | H : _ && _ = true |- _ => apply andb_true_iff in H as [? ?]
  | H : negb _ = true |- _ => apply negb_true_iff in H
  | H : String.eqb _ _ = true |- _ => apply String.eqb_eq in H
  | H : String.eqb _ _ = false |- _ => apply String.eqb_neq in H
  | H : bool_decide _ = true |- _ => apply bool_decide_eq_true in H
  | H : (_ =? _) = true |- _ => apply Z.eqb_eq in H
  | H : (_ =? _) = false |- _ => apply Z.eqb_neq in H
  end.
  match goal with H : session_alloc _ _ = Some ?p |- _ =>
    destruct p as [u al]; simpl in *; apply session_alloc_Some in H as [? ?] end.
  constructor; simpl; eauto 10; try done. subst u. eauto.
Qed.

Lemma fence_rows_inr P d a d' :
  fence_rows P d = inr (a, d') →
  d' = set_assignments
    ((λ a, if P a then with_assignment_state AssignmentFenced (as_TerminalizedAt a) a else a)
       <$> turn_assignments d) d ∧
  ∃ k b, turn_assignments d !! k = Some b ∧ P b = true ∧
    a = with_assignment_state AssignmentFenced (as_TerminalizedAt b) b.
Proof.
  unfold fence_rows. intros H. inv_tx. split; [done|].
  match goal with H : _ <$> _ = Some a |- _ => apply fmap_Some in H as (b & Hb & ->) end.
  apply head_Some in Hb as [l Hl].
  assert (b ∈ select P (turn_assignments d)) as Hin by (rewrite Hl; left).
  apply elem_of_select in Hin as (? & k & ?). eauto.
Qed.
Lemma fence_rows_none P d :
  fence_rows P d = inl ErrNotFound ↔ ∀ k a, turn_assignments d !! k = Some a → P a = false.
Proof.
  pose proof (exists_row_false P (turn_assignments d)) as He. unfold exists_row in He.
  rewrite <- He. unfold fence_rows.
  unfold mbind, tx_bind, tx_get, tx_modify, tx_opt, tx_fail, mret, tx_ret.
  destruct (select P (turn_assignments d)); simpl; split; congruence.
Qed.
(** [UPDATE ... RETURNING] either moves a row or reports none; it has no other error. *)
Lemma fence_rows_total P d :
  (∃ a d', fence_rows P d = inr (a, d')) ∨ fence_rows P d = inl ErrNotFound.
Proof.
  unfold fence_rows, mbind, tx_bind, tx_get, tx_modify, tx_opt, tx_fail, mret, tx_ret.
  destruct (select P (turn_assignments d)); simpl; eauto.
Qed.

Lemma dp_insertEvent_row now rid tid sid nid kind p d e d' :
  insertEvent now rid tid sid nid kind p d = inr (e, d') →
  ev_TurnID e = tid ∧ ev_Payload e = p ∧ ev_TS e = now.
Proof. unfold insertEvent. intros H. inv_tx. done. Qed.

Lemma append_sequenced_inr now k a seq kind payload d b d' :
  append_sequenced now k a seq kind payload d = inr (b, d') →
  (b = false ∧ d' = d ∧ seq ≤ as_HighestAppliedSequence a) ∨
  (b = true ∧ seq = as_HighestAppliedSequence a + 1 ∧ seq ≤ int8_max ∧
   ∃ e v, jsonb_value payload v ∧ ev_RunID e = as_RunID a ∧ ev_TurnID e = Some k ∧ ev_Kind e = kind ∧
     ev_Payload e = v ∧ ev_Seq e = next_event_seq (dp_rt d) (as_RunID a) ∧
     is_Some (runs_of d !! as_RunID a) ∧
     d' = set_assignments (<[k := with_watermark seq a]> (turn_assignments d))
            (set_wk (set_rt (set_events (events (dp_rt d) ++ [e]) (bump_uuid (dp_rt d))) (dp_wk d)) d)).
Proof.
  unfold append_sequenced. destruct (Z.leb_spec seq (as_HighestAppliedSequence a)); intros H0.
  { inv_tx. by left. }
  right. inv_tx.
  match goal with H : (_ =? _) = true |- _ => apply Z.eqb_eq in H end.
  match goal with H : (_ <=? _) = true |- _ => apply Z.leb_le in H end.
  match goal with H : jsonb_arg payload d = inr (?w, _) |- _ =>
    rename w into v; apply jsonb_arg_inr in H as [-> Hv] end.
  match goal with H : lift_drt _ _ = inr _ |- _ => unfold lift_drt in H;
    destruct (insertEvent _ _ _ _ _ _ _ _) as [|[e r]] eqn:E in H; [done|]; injection H as <- <- end.
  pose proof (dp_insertEvent_row _ _ _ _ _ _ _ _ _ _ E) as (? & ? & ?).
  apply insertEvent_inr in E as (-> & ? & ? & ? & ?).
  split; [done|]. split; [done|]. split; [done|].
  exists e, v. by repeat split.
Qed.

Lemma claim_uid_inr now gb c s d u d' :
  claim_uid now gb c s d = inr (u, d') →
  u = c ∧ uid_free gb d c = true ∧
  (∀ u' al, session_uid_allocations d !! u' = Some al → al_SessionID al = s → u' = c) ∧
  ∃ t, d' = set_allocs (<[c := mkAlloc s UidInUse t None]> (session_uid_allocations d)) d.
Proof.
  unfold claim_uid, uid_free. intros H. inv_tx.
  match goal with H : negb _ = true |- _ => apply negb_true_iff in H;
    pose proof (other_session_row_false _ _ _ H) as Ho end.
  destruct (session_uid_allocations d !! c) as [a|] eqn:E.
  - destruct (recyclable gb a) eqn:Hr; inv_tx. split_and!; try done.
    exists (al_AllocatedAt a). done.
  - inv_tx. split_and!; try done. eauto.
Qed.
Lemma reclaim_session_inr P s d u d' :
  reclaim_session P s d = (Some u, d') →
  ∃ al, session_uid_allocations d !! u = Some al ∧ al_SessionID al = s ∧ P al = true ∧
    d' = set_allocs (<[u := with_alloc s UidInUse None al]> (session_uid_allocations d)) d.
Proof.
  unfold reclaim_session. destruct (session_alloc d s) as [[v al]|] eqn:E; [|done].
  destruct (P al) eqn:HP; [|done]. intros [= <- <-].
  apply session_alloc_Some in E as [? ?]. eauto.
Qed.
Lemma reclaim_session_none P s d d' : reclaim_session P s d = (None, d') → d' = d.
Proof.
  unfold reclaim_session. destruct (session_alloc d s) as [[v al]|]; [|congruence].
  destruct (P al); congruence.
Qed.
Lemma ReleaseSessionUID_inr now s d u d' :
  ReleaseSessionUID now s d = inr (u, d') →
  (d' = d ∧ ∀ v al, session_alloc d s = Some (v, al) → al_State al = UidFreed) ∨
  ∃ v al, session_uid_allocations d !! v = Some al ∧ al_SessionID al = s ∧ al_State al = UidInUse ∧
    session_active d s = false ∧
    d' = set_allocs (<[v := with_alloc s UidFreed (Some now) al]> (session_uid_allocations d)) d.
Proof.
  unfold ReleaseSessionUID. intros H. inv_tx_step. inv_tx_step.
  destruct (session_alloc d s) as [[v al]|] eqn:E; [|inv_tx; by left].
  case_bool_decide as Hf; inv_tx.
  - left. split; [done|]. intros ? ? [= <- <-]. done.
  - right. match goal with H : negb _ = true |- _ => apply negb_true_iff in H end.
    apply session_alloc_Some in E as [? ?].
    exists v, al. split_and!; try done. by destruct (al_State al).
Qed.
Lemma session_active_false d s :
  session_active d s = false → ∀ k a run, turn_assignments d !! k = Some a →
  as_State a = AssignmentActive → runs_of d !! as_RunID a = Some run → run_SessionID run ≠ s.
Proof.
  unfold session_active. rewrite exists_row_false. intros H k a run Hk Ha Hr <-.
  specialize (H k a Hk). unfold is_active in H. rewrite bool_decide_eq_true_2, Hr in H by done.
  by rewrite String.eqb_refl in H.
Qed.

(** * Assignments only move forward *)
Inductive asg_edge : AssignmentState → AssignmentState → Prop :=
| edge_fence : asg_edge AssignmentActive AssignmentFenced
| edge_finish : asg_edge AssignmentActive AssignmentTerminal
| edge_settle : asg_edge AssignmentFenced AssignmentTerminal.
Record asg_moves (a a' : Assignment) : Prop := mkMoves {
  mv_columns : with_watermark 0 (with_assignment_state AssignmentActive None a') =
               with_watermark 0 (with_assignment_state AssignmentActive None a);
  mv_state : rtc asg_edge (as_State a) (as_State a');
  mv_seq : as_HighestAppliedSequence a ≤ as_HighestAppliedSequence a' }.
#[export] Instance asg_moves_preorder : PreOrder asg_moves.
Proof.
  split; [by intros a; constructor|]. intros a b c [A1 A2 A3] [B1 B2 B3].
  constructor; [congruence|by etrans|lia].
Qed.
Lemma asg_moves_same a a' : asg_moves a a' →
  as_TurnID a' = as_TurnID a ∧ as_RunID a' = as_RunID a ∧ as_PoolID a' = as_PoolID a ∧
  as_WorkerID a' = as_WorkerID a ∧ as_FencingGeneration a' = as_FencingGeneration a.
Proof. intros [H _ _]. unfold with_watermark, with_assignment_state in H. simpl in H. by injection H. Qed.
Lemma asg_edge_from_terminal s : rtc asg_edge AssignmentTerminal s → s = AssignmentTerminal.
Proof. intros H. inversion H as [|? ? ? He]; subst; [done|inversion He]. Qed.
Lemma asg_edge_to_active s : rtc asg_edge s AssignmentActive → s = AssignmentActive.
Proof.
  intros H. remember AssignmentActive as t eqn:Et. induction H as [|? ? ? He _ IH]; [done|].
  specialize (IH Et). subst. inversion He.
Qed.
Lemma asg_moves_active a a' :
  asg_moves a a' → as_State a' = AssignmentActive → as_State a = AssignmentActive.
Proof. intros [_ H _] E. rewrite E in H. by apply asg_edge_to_active. Qed.
(** Every row of [t] survives in [t'], moved forward. *)
Definition asg_evolves (t t' : gmap uuid Assignment) : Prop :=
  ∀ k a, t !! k = Some a → ∃ a', t' !! k = Some a' ∧ asg_moves a a'.
#[export] Instance asg_evolves_preorder : PreOrder asg_evolves.
Proof.
  split; [by intros t k a H; exists a|]. intros t1 t2 t3 H1 H2 k a Hk.
  destruct (H1 _ _ Hk) as (b & Hb & ?). destruct (H2 _ _ Hb) as (c & Hc & ?).
  exists c. split; [done|]. by etrans.
Qed.
Lemma asg_evolves_insert (t : gmap uuid Assignment) k a a' :
  t !! k = Some a → asg_moves a a' → asg_evolves t (<[k := a']> t).
Proof.
  intros Hk Hm j b Hj. destruct (decide (j = k)) as [->|Hne].
  - rewrite lookup_insert_eq. assert (b = a) as -> by congruence. eauto.
  - rewrite lookup_insert_ne by done. by exists b.
Qed.
Lemma asg_moves_watermark a seq :
  as_HighestAppliedSequence a ≤ seq → asg_moves a (with_watermark seq a).
Proof. by constructor. Qed.
Lemma asg_moves_state a st term :
  asg_edge (as_State a) st → asg_moves a (with_assignment_state st term a).
Proof. intros. constructor; [done|by apply rtc_once|done]. Qed.

(** * The invariant is kept *)
Lemma wf_set_assignments d t' :
  dp_wf d →
  (∀ k a', t' !! k = Some a' → ∃ a, turn_assignments d !! k = Some a ∧ asg_moves a a' ∧
     as_HighestAppliedSequence a' ≤ int8_max ∧
     (is_Some (as_TerminalizedAt a') ↔ as_State a' = AssignmentTerminal)) →
  dp_wf (set_assignments t' d).
Proof.
  intros W H. constructor; simpl; try apply W.
  - intros k a' (a & Ha & (-> & _)%asg_moves_same & _)%H. by apply (dw_key _ W).
  - intros k a' (a & Ha & (_ & -> & _)%asg_moves_same & _)%H. by eapply (dw_run _ W).
  - intros k a' (a & Ha & Hm & ? & _)%H. pose proof (dw_seq _ W _ _ Ha). destruct Hm. lia.
  - intros k a' (a & Ha & _ & _ & ?)%H. done.
  - intros k a' run (a & Ha & Hm & _)%H Hact. pose proof (asg_moves_active _ _ Hm Hact).
    apply asg_moves_same in Hm as (_ & -> & _). by apply (dw_session _ W k a).
Qed.
Lemma wf_set_alloc d u al' :
  dp_wf d → 0 ≤ u ≤ int4_max → (is_Some (al_FreedAt al') ↔ al_State al' = UidFreed) →
  (∀ v al, session_uid_allocations d !! v = Some al → al_SessionID al = al_SessionID al' → v = u) →
  (∀ al, session_uid_allocations d !! u = Some al → al_State al = UidInUse →
     (al_SessionID al' = al_SessionID al ∧ al_State al' = UidInUse) ∨
     session_active d (al_SessionID al) = false) →
  dp_wf (set_allocs (<[u := al']> (session_uid_allocations d)) d).
Proof.
  intros W Hr Hf Hu Hold. constructor; simpl; try apply W.
  - intros k a run Hk Hact Hrun. destruct (dw_session _ W k a run Hk Hact Hrun) as (v & al & Hv & Hs & Hi).
    destruct (decide (v = u)) as [->|Hne].
    + destruct (Hold _ Hv Hi) as [[? ?]|Hna].
      * exists u, al'. rewrite lookup_insert_eq. split_and!; congruence.
      * by destruct (session_active_false _ _ Hna k a run Hk Hact Hrun).
    + exists v, al. by rewrite lookup_insert_ne.
  - intros u1 u2 a1 a2 [[<- <-]|[? H1]]%lookup_insert_Some [[<- <-]|[? H2]]%lookup_insert_Some E; try done.
    + symmetry in E. by rewrite (Hu _ _ H2 E).
    + by rewrite (Hu _ _ H1 E).
    + by eapply (dw_unique _ W).
  - intros v al [[<- <-]|[? H1]]%lookup_insert_Some; [done|]. by eapply (dw_freed _ W).
  - intros v al [[<- <-]|[? H1]]%lookup_insert_Some; [done|]. by eapply (dw_range _ W).
Qed.
Lemma wf_set_wk d w :
  dp_wf d → runs_stay (runs_of d) (workflow_runs (wk_rt w)) → dp_wf (set_wk w d).
Proof.
  intros W Hst. constructor; simpl; try apply W.
  - intros k a Hk. destruct (dw_run _ W k a Hk) as [run Hr].
    destruct (Hst _ _ Hr) as (run' & ? & _). by exists run'.
  - intros k a run' Hk Hact Hrun'. destruct (dw_run _ W k a Hk) as [run Hr].
    destruct (Hst _ _ Hr) as (run2 & Hr2 & Hs). unfold runs_of in Hrun'. simpl in Hrun'.
    assert (run2 = run') as -> by (unfold dp_rt in *; simpl in *; congruence). rewrite Hs.
    by apply (dw_session _ W k a).
Qed.

Lemma created_wf x d a d' : created x d a d' → dp_wf d → dp_wf d'.
Proof.
  intros [Hf -> [Ht _] [Hr (run & Hrun & Hsess)] (al & Hal & Hs & Hi) _ _ (Ha & Hz & Htm)] W.
  constructor; simpl; try apply W.
  - intros k b [[<- <-]|[? Hb]]%lookup_insert_Some; [done|by apply (dw_key _ W)].
  - intros k b [[<- <-]|[? Hb]]%lookup_insert_Some; [rewrite Hr; by exists run|by eapply (dw_run _ W)].
  - intros k b [[<- <-]|[? Hb]]%lookup_insert_Some; [rewrite Hz; unfold int8_max; lia|by eapply (dw_seq _ W)].
  - intros k b [[<- <-]|[? Hb]]%lookup_insert_Some; [|by eapply (dw_terminal _ W)].
    rewrite Htm, Ha. split; [by intros []|done].
  - intros k b r [[<- <-]|[? Hb]]%lookup_insert_Some; [|by apply (dw_session _ W k b)].
    intros _. rewrite Hr. change (runs_of (set_assignments _ d)) with (runs_of d). rewrite Hrun.
    intros [= <-]. exists (in_SandboxUID x), al. rewrite Hsess. done.
Qed.
Lemma fenced_wf P d :
  dp_wf d → (∀ a, P a = true → as_State a = AssignmentActive) →
  dp_wf (set_assignments
    ((λ a, if P a then with_assignment_state AssignmentFenced (as_TerminalizedAt a) a else a)
       <$> turn_assignments d) d).
Proof.
  intros W HP. apply wf_set_assignments; [done|]. intros k a' (a & E0 & Ha)%lookup_fmap_Some. subst a'. cbn beta.
  exists a. split; [done|]. pose proof (dw_seq _ W _ _ Ha). pose proof (dw_terminal _ W _ _ Ha) as Ht.
  destruct (P a) eqn:E; [|split_and!; try done; lia].
  specialize (HP a E). split_and!; simpl; [|lia|].
  - apply asg_moves_state. rewrite HP. constructor.
  - rewrite HP in Ht. split; [intros [=]%Ht|done].
Qed.
Lemma appended_wf now k a seq kind payload d b d' :
  dp_wf d → turn_assignments d !! k = Some a →
  append_sequenced now k a seq kind payload d = inr (b, d') → dp_wf d'.
Proof.
  intros W Ha [(_ & -> & _)|(_ & -> & Hmax & e & v & _ & _ & _ & _ & _ & _ & _ & ->)]%append_sequenced_inr; [done|].
  pose proof (dw_terminal _ W _ _ Ha). pose proof (dw_seq _ W _ _ Ha).
  apply wf_set_assignments; [apply wf_set_wk; [done|]; intros j r Hj; by exists r|].
  simpl. intros j b' [[<- <-]|[? Hb]]%lookup_insert_Some.
  - exists a. split_and!; try done. apply asg_moves_watermark. lia.
  - exists b'. pose proof (dw_terminal _ W _ _ Hb). pose proof (dw_seq _ W _ _ Hb). split_and!; done || lia.
Qed.

Lemma AppendTurnEvent_inr now k seq kind payload d b d' :
  AppendTurnEvent now k seq kind payload d = inr (b, d') →
  ∃ a, turn_assignments d !! k = Some a ∧ as_State a = AssignmentActive ∧
    append_sequenced now k a seq kind payload d = inr (b, d').
Proof.
  unfold AppendTurnEvent. intros H. inv_tx.
  match goal with H : active_row _ _ = Some ?x |- _ => apply active_row_Some in H as [? ?]; exists x end.
  done.
Qed.
Lemma AppendAfterTerminalEvent_inr now k seq kind payload p w d b d' :
  AppendAfterTerminalEvent now k seq kind payload p w d = inr (b, d') →
  ∃ a, turn_assignments d !! k = Some a ∧ as_PoolID a = p ∧ as_WorkerID a = w ∧
    append_sequenced now k a seq kind payload d = inr (b, d').
Proof.
  unfold AppendAfterTerminalEvent. intros H. inv_tx.
  destruct (turn_assignments d !! k) as [a|] eqn:E; [|done]. simpl in *.
  destruct (bound_to p w a) eqn:B; [|done].
  match goal with H : Some a = Some ?y |- _ => injection H as <- end. exists a.
  unfold bound_to in B. apply andb_true_iff in B as [->%String.eqb_eq ->%String.eqb_eq]. done.
Qed.
Lemma TerminalizeAssignment_inr now k d u d' :
  TerminalizeAssignment now k d = inr (u, d') →
  (d' = d ∧ ∀ a, turn_assignments d !! k = Some a → as_State a = AssignmentTerminal) ∨
  ∃ a, turn_assignments d !! k = Some a ∧ as_State a ≠ AssignmentTerminal ∧
    d' = set_assignments
           (<[k := with_assignment_state AssignmentTerminal (Some now) a]> (turn_assignments d)) d.
Proof.
  unfold TerminalizeAssignment. rewrite tx_modify_inr. intros <-.
  destruct (turn_assignments d !! k) as [a|] eqn:E; [|by left].
  case_bool_decide; [left; naive_solver|right; eauto].
Qed.
Lemma terminal_edge s : s ≠ AssignmentTerminal → asg_edge s AssignmentTerminal.
Proof. intros H. destruct s; [apply edge_finish|done|apply edge_settle]. Qed.
Lemma fence_pred_active p w a : bound_to p w a && is_active a = true → as_State a = AssignmentActive.
Proof. intros [_ H]%andb_true_iff. by apply bool_decide_eq_true in H. Qed.
Lemma fence_if_pred_active p w g a :
  bound_to p w a && is_active a && (as_FencingGeneration a =? g) = true → as_State a = AssignmentActive.
Proof. intros [H _]%andb_true_iff. by eapply fence_pred_active. Qed.
#[export] Hint Resolve fence_pred_active fence_if_pred_active terminal_edge : iterabase.

Lemma step_wf l d d' : dp_wf d → dispatch_step l d d' → dp_wf d'.
Proof.
  intros W. induction 1 as
    [now x d a d' H|p w d a d' H|p w g d a d' H|now k d u d' H|now k seq kind pl d b d' H
    |now k seq kind pl p w d b d' H|s d u d' H|gb s d u d' H|now gb c s d u d' Hc H|now s d u d' H
    |now p f c r d s d' H|r p d u d' H|w d Hst].
  - apply CreateAssignment_inr in H. by eapply created_wf.
  - apply fence_rows_inr in H as [-> _]. apply fenced_wf; [done|]. eauto with iterabase.
  - apply fence_rows_inr in H as [-> _]. apply fenced_wf; [done|]. eauto with iterabase.
  - apply TerminalizeAssignment_inr in H as [[-> _]|(a & Ha & Hs & ->)]; [done|].
    apply wf_set_assignments; [done|]. intros j b [[<- <-]|[? Hb]]%lookup_insert_Some.
    + exists a. split_and!; try done; [by apply asg_moves_state; auto with iterabase|].
      simpl. by apply (dw_seq _ W k).
    + exists b. split_and!; try done; [by apply (dw_seq _ W j)|by eapply (dw_terminal _ W)..].
  - apply AppendTurnEvent_inr in H as (a & Ha & _ & H). by eapply appended_wf.
  - apply AppendAfterTerminalEvent_inr in H as (a & Ha & _ & _ & H). by eapply appended_wf.
  - apply reclaim_session_inr in H as (al & Hal & Hs & Hi & ->). apply bool_decide_eq_true in Hi.
    apply wf_set_alloc; [done|by eapply (dw_range _ W)|simpl; split; [by intros []|done]| |].
    + intros v al' Hv E. eapply (dw_unique _ W); [done|done|]. simpl in E. congruence.
    + intros al' Hal' _. left. simpl. split; congruence.
  - apply reclaim_session_inr in H as (al & Hal & Hs & Hi & ->).
    apply wf_set_alloc; [done|by eapply (dw_range _ W)|simpl; split; [by intros []|done]| |].
    + intros v al' Hv E. eapply (dw_unique _ W); [done|done|]. simpl in E. congruence.
    + intros al' Hal' Hu. rewrite Hal in Hal'. injection Hal' as <-. unfold recyclable in Hi. by rewrite Hu in Hi.
  - apply claim_uid_inr in H as (-> & Hfree & Ho & t & ->).
    apply wf_set_alloc; [done|done|simpl; split; [by intros []|done]|simpl; eauto|].
    intros al Hal Hu. unfold uid_free in Hfree. rewrite Hal in Hfree. unfold recyclable in Hfree.
    by rewrite Hu in Hfree.
  - apply ReleaseSessionUID_inr in H as [[-> _]|(v & al & Hv & Hs & Hi & Ha & ->)]; [done|].
    apply wf_set_alloc; [done|by eapply (dw_range _ W)|simpl; split; eauto| |].
    + intros v' al' Hv' E. eapply (dw_unique _ W); [done|done|]. simpl in E. congruence.
    + intros al' Hal' _. right. congruence.
  - unfold observe_capacity in H. inv_tx. destruct W. by constructor.
  - unfold AssignRunToPool in H. inv_tx. apply wf_set_wk; [done|]. intros j r' Hj. by exists r'.
  - by apply wf_set_wk.
Qed.
Lemma trace_wf ls d d' : trace ls d d' → dp_wf d → dp_wf d'.
Proof. induction 1; eauto using step_wf. Qed.
Lemma steps_wf d d' : steps d d' → dp_wf d → dp_wf d'.
Proof. intros [ls H]. by eapply trace_wf. Qed.

(** * Evolution of the assignments *)
Lemma append_sequenced_moves now k a seq kind payload d b d' :
  turn_assignments d !! k = Some a →
  append_sequenced now k a seq kind payload d = inr (b, d') →
  asg_evolves (turn_assignments d) (turn_assignments d') ∧
  dom (turn_assignments d') = dom (turn_assignments d).
Proof.
  intros Ha [(_ & -> & _)|(_ & -> & _ & e & v & _ & _ & _ & _ & _ & _ & _ & ->)]%append_sequenced_inr; [done|].
  simpl. split; [eapply asg_evolves_insert; [done|apply asg_moves_watermark; lia]|].
  by apply dom_insert_lookup_L.
Qed.
Lemma fence_rows_moves P d a d' :
  (∀ a, P a = true → as_State a = AssignmentActive) → fence_rows P d = inr (a, d') →
  asg_evolves (turn_assignments d) (turn_assignments d') ∧
  dom (turn_assignments d') = dom (turn_assignments d).
Proof.
  intros HP [-> _]%fence_rows_inr. simpl. split; [|by rewrite dom_fmap_L].
  intros k b Hb. rewrite lookup_fmap, Hb. simpl. eexists. split; [done|].
  destruct (P b) eqn:E; [|done]. apply asg_moves_state. rewrite (HP _ E). constructor.
Qed.
Lemma step_assignments l d d' :
  dispatch_step l d d' →
  asg_evolves (turn_assignments d) (turn_assignments d') ∧
  dom (turn_assignments d') = dom (turn_assignments d) ∪
    (match l with LAssign k => {[k]} | _ => ∅ end) ∧
  (∀ k, l = LAssign k → turn_assignments d !! k = None).
Proof.
  assert (∀ (t t' : gmap uuid Assignment) (Q : Prop), asg_evolves t t' ∧ dom t' = dom t → Q →
    asg_evolves t t' ∧ dom t' = dom t ∪ ∅ ∧ Q) as Hsame
    by (intros t t' Q [? ->] ?; split_and!; [done|set_solver|done]).
  destruct 1 as
    [now x d a d' H|p w d a d' H|p w g d a d' H|now k d u d' H|now k seq kind pl d b d' H
    |now k seq kind pl p w d b d' H|s d u d' H|gb s d u d' H|now gb c s d u d' Hc H|now s d u d' H
    |now p f c r d s d' H|r p d u d' H|w d Hst];
    [|apply Hsame; [|done]..].
  - apply CreateAssignment_inr in H as [Hf -> _ _ _ _ _ _]. simpl. split; [|split].
    + intros k b Hb. exists b. split; [|done]. rewrite lookup_insert_ne; [done|congruence].
    + rewrite dom_insert_L. set_solver.
    + by intros k [= <-].
  - eapply fence_rows_moves; [|exact H]. simpl. eauto with iterabase.
  - eapply fence_rows_moves; [|exact H]. simpl. eauto with iterabase.
  - apply TerminalizeAssignment_inr in H as [[-> _]|(a & Ha & Hs & ->)]; [done|]. simpl.
    split; [|by apply dom_insert_lookup_L].
    eapply asg_evolves_insert; [done|]. apply asg_moves_state. auto with iterabase.
  - apply AppendTurnEvent_inr in H as (a & Ha & _ & H). by eapply append_sequenced_moves.
  - apply AppendAfterTerminalEvent_inr in H as (a & Ha & _ & _ & H). by eapply append_sequenced_moves.
  - apply reclaim_session_inr in H as (al & _ & _ & _ & ->). done.
  - apply reclaim_session_inr in H as (al & _ & _ & _ & ->). done.
  - apply claim_uid_inr in H as (_ & _ & _ & t & ->). done.
  - apply ReleaseSessionUID_inr in H as [[-> _]|(v & al & _ & _ & _ & _ & ->)]; done.
  - unfold observe_capacity in H. inv_tx. done.
  - unfold AssignRunToPool in H. inv_tx. done.
  - done.
Qed.
Lemma trace_assignments ls d d' :
  trace ls d d' → asg_evolves (turn_assignments d) (turn_assignments d').
Proof.
  induction 1 as [|l ls d1 d2 d3 H _ IH]; [done|]. etrans; [|exact IH]. by apply step_assignments in H as [? _].
Qed.

Definition assigned_turns (ls : list label) : list uuid :=
  omap (λ l, match l with LAssign k => Some k | _ => None end) ls.
Lemma trace_assigns_fresh ls d d' :
  trace ls d d' → NoDup (assigned_turns ls) ∧
  ∀ k, k ∈ assigned_turns ls → turn_assignments d !! k = None ∧ is_Some (turn_assignments d' !! k).
Proof.
  induction 1 as [d|l ls d1 d2 d3 H Ht [IH1 IH2]].
  { split; [constructor|]. intros k Hk. by apply not_elem_of_nil in Hk. }
  pose proof (trace_assignments _ _ _ Ht) as Hev. apply step_assignments in H as (Hev1 & Hdom & Hf).
  assert (∀ k, turn_assignments d2 !! k = None → turn_assignments d1 !! k = None) as Hback.
  { intros k Hk. destruct (turn_assignments d1 !! k) as [a|] eqn:E; [|done].
    destruct (Hev1 _ _ E) as (? & ? & _). congruence. }
  unfold assigned_turns in *. destruct l as [k0| | |]; simpl; [|split; [done|]; intros k [? ?]%IH2; auto..].
  assert (is_Some (turn_assignments d2 !! k0)) as [a0 H0].
  { apply elem_of_dom. rewrite Hdom. set_solver. }
  split.
  - constructor; [|done]. intros [? _]%IH2. congruence.
  - intros k [->|Hk]%elem_of_cons.
    + split; [by apply Hf|]. destruct (Hev _ _ H0) as (? & ? & _). eauto.
    + destruct (IH2 _ Hk). auto.
Qed.

(** * Claims *)

(** C34. Under every interleaving of the committed statements of the dispatch store and of
    transactions of the other stores, the dispatch tables stay consistent: keys match,
    assigned runs exist, watermarks are in range, exactly the terminal assignments are
    stamped, no session owns two UIDs, exactly the freed UIDs have a release time, and
    every active assignment's session holds a UID that is in use. *)
Theorem dispatch_invariant ls d d' : dp_wf d → trace ls d d' → dp_wf d'.
Proof. intros W H. by eapply trace_wf. Qed.

(** A turn is assigned at most once ever: in any interleaved history the successful
    assignments are of distinct turns that had no assignment before, and every existing
    assignment survives with its worker, generation, run and snapshots unchanged, its
    state only moving active, fenced, terminal, its watermark only growing; so a fenced
    or terminal assignment never authorizes again. *)
Theorem turn_assigned_at_most_once ls d d' :
  trace ls d d' →
  NoDup (assigned_turns ls) ∧
  (∀ k, k ∈ assigned_turns ls → turn_assignments d !! k = None ∧ is_Some (turn_assignments d' !! k)) ∧
  (∀ k a, turn_assignments d !! k = Some a →
     ∃ a', turn_assignments d' !! k = Some a' ∧ asg_moves a a' ∧
       (as_State a ≠ AssignmentActive → active_row d' k = None)).
Proof.
  intros H. pose proof (trace_assigns_fresh _ _ _ H) as [? ?]. split_and!; [done..|].
  intros k a Ha. destruct (trace_assignments _ _ _ H k a Ha) as (a' & Ha' & Hm).
  exists a'. split_and!; try done. intros Hn. destruct (active_row d' k) as [b|] eqn:E; [|done].
  apply active_row_Some in E as [Hb ?]. assert (b = a') as -> by congruence.
  by destruct Hn; apply (asg_moves_active _ a').
Qed.

(** The generation-qualified fence is exact: it never fails with anything but not
    found, and reports that exactly when no active assignment of the worker has the
    generation; otherwise it returns such an assignment, leaves none of that generation
    active and does not touch any other row, so a late teardown of an old connection
    cannot fence the assignment of its replacement. *)
Theorem fence_if_is_exact p w g d :
  match FenceWorkerGenerationIf p w g d with
  | inl e => e = ErrNotFound ∧ ∀ k a, active_row d k = Some a →
      as_PoolID a = p → as_WorkerID a = w → as_FencingGeneration a ≠ g
  | inr (a, d') =>
      (∃ k b, active_row d k = Some b ∧ as_PoolID b = p ∧ as_WorkerID b = w ∧
         as_FencingGeneration b = g ∧ a = with_assignment_state AssignmentFenced (as_TerminalizedAt b) b) ∧
      (∀ k b, turn_assignments d !! k = Some b →
         as_PoolID b ≠ p ∨ as_WorkerID b ≠ w ∨ as_FencingGeneration b ≠ g →
         turn_assignments d' !! k = Some b) ∧
      (∀ k b, active_row d' k = Some b →
         as_PoolID b ≠ p ∨ as_WorkerID b ≠ w ∨ as_FencingGeneration b ≠ g) ∧
      dp_wk d' = dp_wk d ∧ session_uid_allocations d' = session_uid_allocations d
  end.
Proof.
  unfold FenceWorkerGenerationIf. set (P := λ a, bound_to p w a && is_active a && (as_FencingGeneration a =? g)).
  assert (∀ a, P a = true ↔ as_PoolID a = p ∧ as_WorkerID a = w ∧ as_FencingGeneration a = g ∧
    as_State a = AssignmentActive) as HP.
  { intros a. unfold P, bound_to, is_active.
    rewrite !andb_true_iff, !String.eqb_eq, Z.eqb_eq, bool_decide_eq_true. tauto. }
  destruct (fence_rows P d) as [e|[a d']] eqn:E.
  - destruct (fence_rows_total P d) as [(a & d' & E')|E']; rewrite E in E'; [done|]. injection E' as ->.
    split; [done|]. rewrite fence_rows_none in E. intros k a [Ha Hact]%active_row_Some Hp Hw Hg.
    specialize (E k a Ha). assert (P a = true) by (by apply HP). congruence.
  - apply fence_rows_inr in E as (-> & k & b & Hb & HPb%HP & ->). simpl. split_and!; try done.
    + exists k, b. rewrite active_row_Some. naive_solver.
    + intros j c Hc Hne. rewrite lookup_fmap, Hc. simpl. destruct (P c) eqn:Ec; [|done].
      apply HP in Ec. naive_solver.
    + intros j c [Hc Hact]%active_row_Some. simpl in Hc. apply lookup_fmap_Some in Hc as (c0 & Hc0 & _).
      destruct (P c0) eqn:Ec; subst c; [done|].
      destruct (decide (as_PoolID c0 = p)), (decide (as_WorkerID c0 = w)), (decide (as_FencingGeneration c0 = g));
        try tauto. assert (P c0 = true) by (by apply HP). congruence.
Qed.

(** A raw message the [jsonb] column accepts. *)
Definition storable (r : RawMessage) : bool := match r with BadJSON _ => false | _ => true end.
(** What an assignment requires. *)
Record assignable (x : AssignmentInput) (d : DispatchDB) : Prop := {
  ok_run : ∃ run, runs_of d !! in_RunID x = Some run ∧ run_SessionID run = in_SessionID x;
  ok_uid : ∃ al, session_uid_allocations d !! in_SandboxUID x = Some al ∧
    al_SessionID al = in_SessionID x ∧ al_State al = UidInUse;
  ok_sandbox : in_SessionID x ≠ EmptyString ∧ in_SandboxUID x ≠ 0 ∧ in_SandboxUID x = in_SandboxGID x;
  ok_first : turn_assignments d !! in_TurnID x = None;
  ok_turn : is_Some (turns (dp_rt d) !! in_TurnID x);
  ok_refs : fk_ok (work_items (dp_wk d)) (nullable (in_WorkItemID x)) = true ∧
    fk_ok (node_executions (dp_wk d)) (nullable (in_NodeExecutionID x)) = true;
  ok_json : storable (in_ModelPermission x) && storable (in_CapabilityRequest x) &&
    storable (in_ToolVersionSnapshot x) = true }.
Lemma jsonb_arg_ok r d : storable r = true → ∃ v, jsonb_arg r d = inr (v, d).
Proof. destruct r; simpl; eauto. done. Qed.

(** An assignment is created exactly when it is safe: the run exists and has the
    session, the session holds precisely the sandbox UID and holds it in use, the turn
    exists and was never assigned before (in any state), and the references and
    snapshots are storable; every other request fails and changes nothing. The stored
    assignment is active with watermark zero for the worker and generation asked for. *)
Theorem create_assignment_correct now x d :
  dp_wf d →
  (assignable x d ↔ ∃ a d', CreateAssignment now x d = inr (a, d')) ∧
  (∀ a d', CreateAssignment now x d = inr (a, d') → created x d a d') ∧
  (∀ e, CreateAssignment now x d = inl e → run_tx (CreateAssignment now x) d = (inl e, d)).
Proof.
  intros W. split; [split|split].
  - intros [(run & Hr & Hs) (al & Ha & Hal & Hi) (H1 & H2 & H3) Hf Ht [R1 R2] J].
    apply andb_true_iff in J as [[J1 J2]%andb_true_iff J3].
    unfold CreateAssignment.
    destruct (jsonb_arg_ok _ d J1) as [v1 E1], (jsonb_arg_ok _ d J2) as [v2 E2], (jsonb_arg_ok _ d J3) as [v3 E3].
    unfold mbind, tx_bind, tx_get, tx_opt, tx_require, tx_modify, mret, tx_ret.
    rewrite (proj2 (String.eqb_neq _ _) H1), (proj2 (Z.eqb_neq _ _) H2), (proj2 (Z.eqb_eq _ _) H3). simpl.
    rewrite Hr, Hs, String.eqb_refl, (session_alloc_wf _ _ _ _ W Ha Hal). simpl.
    rewrite bool_decide_eq_true_2, Z.eqb_refl, E1 by done. rewrite E2, E3, Hf, R1, R2.
    rewrite !bool_decide_eq_true_2 by done. eauto.
  - intros (a & d' & H). pose proof H as H0. apply CreateAssignment_inr in H as [? ? [_ ?] [_ ?] ? (? & ? & ?) _ _].
    constructor; try done; unfold CreateAssignment in H0; inv_tx; [done|].
    repeat match goal with H : jsonb_arg ?r _ = inr _ |- _ =>
      assert (storable r = true) by (by destruct r); clear H end.
    by repeat (apply andb_true_iff; split).
  - intros a d' H. by apply CreateAssignment_inr in H.
  - intros e H. unfold run_tx. by rewrite H.
Qed.
