(* ===== verification/DispatchUid.v ===== *)
(** The session UID allocator: a UID changes hands only after a release older than the
    grace period, whatever the interleaving; an undisturbed allocation returns the
    lowest free UID of the range; the machine-width bounds. *)
From Stdlib Require Import QArith Ascii.
From S2P Require Import Prelude Json Runtime RuntimeFacts WorkerPool WorkData Dispatch DispatchFacts.
#[local] Open Scope Z_scope.

(** * How one row may change *)
Definition same_hold (a a' : UidAllocation) : Prop :=
  al_SessionID a' = al_SessionID a ∧ al_State a' = al_State a ∧ al_FreedAt a' = al_FreedAt a.
Inductive uid_change (u : Z) (l : label) (a a' : UidAllocation) : Prop :=
| uc_same : same_hold a a' → uid_change u l a a'
| uc_release t : l = LReleased t (al_SessionID a) → al_State a = UidInUse →
    al_SessionID a' = al_SessionID a → al_State a' = UidFreed → al_FreedAt a' = Some t →
    uid_change u l a a'
| uc_claim gb s : l = LClaimed gb u s → recyclable gb a = true → al_SessionID a' = s →
    al_State a' = UidInUse → uid_change u l a a'.

Lemma step_uid l d d' u a :
  dp_wf d → dispatch_step l d d' → session_uid_allocations d !! u = Some a →
  ∃ a', session_uid_allocations d' !! u = Some a' ∧ uid_change u l a a'.
Proof.
  intros W H. revert W. destruct H as
    [now x d a0 d' H|p w d a0 d' H|p w g d a0 d' H|now k d u0 d' H|now k seq kind pl d b d' H
    |now k seq kind pl p w d b d' H|s d u0 d' H|gb s d u0 d' H|now gb c s d u0 d' Hc H|now s d u0 d' H
    |now p f c r d s d' H|r p d u0 d' H|w d Hst]; intros W Hu.
  - apply CreateAssignment_inr in H as [_ -> _ _ _ _ _ _]. exists a. by repeat constructor.
  - apply fence_rows_inr in H as [-> _]. exists a. by repeat constructor.
  - apply fence_rows_inr in H as [-> _]. exists a. by repeat constructor.
  - apply TerminalizeAssignment_inr in H as [[-> _]|(b & _ & _ & ->)]; exists a; by repeat constructor.
  - apply AppendTurnEvent_inr in H as (b' & _ & _ & H).
    apply append_sequenced_inr in H as [(_ & -> & _)|(_ & _ & _ & e & v & _ & _ & _ & _ & _ & _ & _ & ->)];
      exists a; by repeat constructor.
  - apply AppendAfterTerminalEvent_inr in H as (b' & _ & _ & _ & H).
    apply append_sequenced_inr in H as [(_ & -> & _)|(_ & _ & _ & e & v & _ & _ & _ & _ & _ & _ & _ & ->)];
      exists a; by repeat constructor.
  - apply reclaim_session_inr in H as (al & Hal & Hs & Hi & ->). simpl.
    rewrite lookup_insert. case_decide as E; [|exists a; by repeat constructor]. subst u0.
    assert (al = a) as -> by congruence. eexists. split; [done|]. apply uc_same.
    apply bool_decide_eq_true in Hi. split_and!; simpl; try done.
    destruct (al_FreedAt a) eqn:Ef; [|done].
    assert (al_State a = UidFreed) by (apply (dw_freed _ W u); [done|rewrite Ef; eauto]). congruence.
  - apply reclaim_session_inr in H as (al & Hal & Hs & Hi & ->). simpl.
    rewrite lookup_insert. case_decide as E; [|exists a; by repeat constructor]. subst u0.
    assert (al = a) as -> by congruence. eexists. split; [done|]. by eapply uc_claim.
  - apply claim_uid_inr in H as (-> & Hfree & _ & t & ->). simpl.
    rewrite lookup_insert. case_decide as E; [|exists a; by repeat constructor]. subst c.
    eexists. split; [done|]. eapply uc_claim; try done. unfold uid_free in Hfree. by rewrite Hu in Hfree.
  - apply ReleaseSessionUID_inr in H as [[-> _]|(v & al & Hv & Hs & Hi & _ & ->)]; [exists a; by repeat constructor|].
    simpl. rewrite lookup_insert. case_decide as E; [|exists a; by repeat constructor]. subst v.
    assert (al = a) as -> by congruence. eexists. split; [done|]. apply (uc_release _ _ _ _ now); simpl; congruence.
  - unfold observe_capacity in H. inv_tx. exists a. by repeat constructor.
  - unfold AssignRunToPool in H. inv_tx. exists a. by repeat constructor.
  - exists a. by repeat constructor.
Qed.

Lemma not_recyclable_in_use gb a : al_State a = UidInUse → recyclable gb a = true → False.
Proof. unfold recyclable. by intros ->. Qed.
Lemma freed_then_claimed ls d d' u a a' t :
  trace ls d d' → dp_wf d → session_uid_allocations d !! u = Some a →
  al_State a = UidFreed → al_FreedAt a = Some t →
  session_uid_allocations d' !! u = Some a' → al_State a' = UidInUse →
  ∃ l1 gb s l2, ls = l1 ++ LClaimed gb u s :: l2 ∧ t < gb.
Proof.
  intros Htr. revert a. induction Htr as [d|l ls d1 d2 d3 Hs Htr IH]; intros a W Hu Hf Ht Hu' Hn.
  { congruence. }
  destruct (step_uid _ _ _ _ _ W Hs Hu) as (b & Hb & [(E1 & E2 & E3)|? ? ? ? ? ?|gb s -> Hr ? ?]).
  - destruct (IH b) as (l1 & gb & s & l2 & -> & ?); try congruence; [by eapply step_wf|].
    by exists (l :: l1), gb, s, l2.
  - congruence.
  - exists [], gb, s, ls. split; [done|]. unfold recyclable in Hr. rewrite Hf, Ht in Hr. lia.
Qed.
Lemma holder_changes ls d d' u a a' :
  trace ls d d' → dp_wf d → session_uid_allocations d !! u = Some a → al_State a = UidInUse →
  session_uid_allocations d' !! u = Some a' → al_State a' = UidInUse →
  al_SessionID a' ≠ al_SessionID a →
  ∃ l1 t l2 gb s l3, ls = l1 ++ LReleased t (al_SessionID a) :: l2 ++ LClaimed gb u s :: l3 ∧ t < gb.
Proof.
  intros Htr. revert a. induction Htr as [d|l ls d1 d2 d3 Hs Htr IH]; intros a W Hu Hf Hu' Hn Hd.
  { congruence. }
  destruct (step_uid _ _ _ _ _ W Hs Hu) as (b & Hb & [(E1 & E2 & E3)|t -> _ E1 E2 E3|gb s -> Hr _ _]).
  - destruct (IH b) as (l1 & t & l2 & gb & s & l3 & -> & ?); try congruence; [by eapply step_wf|].
    exists (l :: l1), t, l2, gb, s, l3. by rewrite <- E1.
  - destruct (freed_then_claimed _ _ _ _ _ _ _ Htr (step_wf _ _ _ W Hs) Hb E2 E3 Hu' Hn)
      as (l1 & gb & s & l2 & -> & ?). by exists [], t, l1, gb, s, l2.
  - by destruct (not_recyclable_in_use gb a).
Qed.

(** * Allocation under interference *)
Definition holds (d : DispatchDB) (sessionID : string) (uid : Z) : Prop :=
  ∃ al, session_uid_allocations d !! uid = Some al ∧ al_SessionID al = sessionID ∧ al_State al = UidInUse.

Lemma lowest_free_Some gb d lo hi u :
  lowest_free gb d lo hi = Some u ↔
  lo ≤ u ≤ hi ∧ uid_free gb d u = true ∧ ∀ v, lo ≤ v < u → uid_free gb d v = false.
Proof.
  unfold lowest_free. remember (hi - lo + 1) as len eqn:Hlen.
  destruct (Z.lt_ge_cases len 0) as [Hneg|Hpos].
  { unfold seqZ. replace (Z.to_nat len) with 0%nat by lia. simpl. split; [done|]. intros (? & _). lia. }
  revert lo hi Hlen. pattern len. apply natlike_ind; [| |done].
  - intros lo hi Hlen. split; [done|]. intros (? & _). lia.
  - intros m Hm IH lo hi Hlen. rewrite seqZ_cons by lia. simpl.
    replace (Z.pred (Z.succ m)) with m by lia. destruct (uid_free gb d lo) eqn:E.
    + split; [intros [= <-]; split_and!; [lia..|done|lia]|].
      intros (? & ? & Hlow). destruct (decide (u = lo)) as [->|]; [done|].
      rewrite Hlow in E by lia. done.
    + rewrite (IH (Z.succ lo) hi) by lia. split.
      * intros (? & ? & Hlow). split_and!; [lia..|done|]. intros v Hv.
        destruct (decide (v = lo)) as [->|]; [done|]. apply Hlow. lia.
      * intros (? & ? & Hlow). split_and!; [|lia|done|intros v Hv; apply Hlow; lia].
        destruct (decide (u = lo)) as [->|]; [congruence|lia].
Qed.
Lemma lowest_free_None gb d lo hi :
  lowest_free gb d lo hi = None ↔ ∀ v, lo ≤ v ≤ hi → uid_free gb d v = false.
Proof.
  unfold lowest_free. split.
  - intros H v Hv. apply (find_none _ _ H). apply list_elem_of_In, elem_of_seqZ. lia.
  - intros H. destruct (List.find _ _) as [u|] eqn:E; [|done].
    apply find_some in E as [Hin Hf]. apply list_elem_of_In, elem_of_seqZ in Hin.
    rewrite H in Hf by lia. done.
Qed.

(** The last UID of the range, when [base+n-1] does not wrap around. *)
Lemma uid_bounds base n u :
  0 ≤ base → 0 < n < uint32_mod → base ≤ u ≤ (base + n - 1) mod uint32_mod → base ≤ u < base + n.
Proof.
  intros Hb Hn Hu. pose proof (Z.mod_le (base + n - 1) uint32_mod ltac:(lia) ltac:(done)). lia.
Qed.

Section interference.
Context (env : nat → DispatchDB → DispatchDB) (Henv : ∀ i d, steps d (env i d)).
Context (goNow dbNow : nat → timestamp) (s : string) (base n grace : Z).
Context (Hbase : 0 ≤ base) (Hn : 0 < n < uint32_mod).

Lemma try_alloc_ok i j now now' d r d' :
  tryAllocSessionUID (env i) (env j) now now' s base n grace d = (r, d') →
  steps d d' ∧ ∀ u, r = inr u → holds d' s u ∧ base ≤ u < base + n.
Proof.
  unfold tryAllocSessionUID. destruct ((int4_max <? base) || _) eqn:Eb; [by intros [= <- <-]|].
  destruct (lowest_free _ _ _ _) as [c|] eqn:El; [|by intros [= <- <-]].
  apply lowest_free_Some in El as (Hc & _). apply orb_false_iff in Eb as [_ Eb].
  intros H. assert (steps d (env j (env i d))) as Hs by (etrans; apply Henv).
  destruct r as [e|u].
  { apply run_tx_err in H as ->. done. }
  apply run_tx_ok in H. split.
  - etrans; [exact Hs|]. eapply steps_one, SClaim; [|exact H]. lia.
  - intros u' [= <-]. apply claim_uid_inr in H as (-> & _ & _ & t & ->). split; [|by apply uid_bounds].
    eexists. simpl. by rewrite lookup_insert_eq.
Qed.
Lemma alloc_attempts_ok left k d r d' :
  alloc_attempts left k env goNow dbNow s base n grace d = (r, d') →
  steps d d' ∧ ∀ u, r = inr u → holds d' s u ∧ base ≤ u < base + n.
Proof.
  revert k d. induction left as [|left IH]; intros k d; simpl; [by intros [= <- <-]|].
  destruct (tryAllocSessionUID _ _ _ _ _ _ _ _ _) as [[e|u] d1] eqn:E;
    apply try_alloc_ok in E as [Hs Hu]; [|by intros [= <- <-]].
  destruct (uid_retryable e); [|by intros [= <- <-]]. intros [? ?]%IH. split; [by etrans|done].
Qed.
Lemma reclaim_ok P l d r d' :
  (∀ d uid d', reclaim_session P s d = (Some uid, d') → dispatch_step (l uid) d d') →
  reclaim_session P s d = (r, d') → steps d d' ∧ ∀ u, r = Some u → holds d' s u.
Proof.
  intros Hst H. destruct r as [u|]; [|apply reclaim_session_none in H as ->; done].
  split; [by eapply steps_one, Hst|]. intros u' [= <-].
  apply reclaim_session_inr in H as (al & _ & _ & _ & ->). eexists. simpl. by rewrite lookup_insert_eq.
Qed.
(** The whole allocation is a sequence of atomic steps, its own and those of the other
    connections, and ends with the session holding the UID it returns. *)
Lemma allocate_ok d r d' :
  AllocateSessionUID env goNow dbNow s base n grace d = (r, d') →
  steps d d' ∧ ∀ u, r = inr u → holds d' s u.
Proof.
  unfold AllocateSessionUID. replace (n =? 0) with false by lia.
  destruct (reclaim_session in_use s (env 0%nat d)) as [r1 d1] eqn:E1.
  apply (reclaim_ok _ (λ _, LOther)) in E1 as [Hs1 Hh1]; [|intros; by eapply SReclaim].
  assert (steps d d1) by (etrans; [apply (Henv 0)|done]).
  destruct r1 as [u|]; [intros [= <- <-]; split; [done|]; intros ? [= <-]; auto|].
  destruct (reclaim_session (recyclable _) s (env 1%nat d1)) as [r2 d2] eqn:E2.
  apply (reclaim_ok _ (λ u, LClaimed (goNow 0%nat - grace) u s)) in E2 as [Hs2 Hh2];
    [|intros; by eapply SReclaimFreed].
  assert (steps d d2) by (etrans; [done|]; etrans; [apply (Henv 1)|done]).
  destruct r2 as [u|]; [intros [= <- <-]; split; [done|]; intros ? [= <-]; auto|].
  assert (steps d (env 2%nat d2)) by (etrans; [done|apply Henv]).
  destruct (match session_alloc _ _ with Some _ => _ | None => _ end); [by intros [= <- <-]|].
  intros [? Hu]%alloc_attempts_ok. split; [by etrans|]. intros u Hr. by apply Hu.
Qed.
End interference.

(** * Allocation without interference *)
Definition quiet : nat → DispatchDB → DispatchDB := λ _ d, d.
Definition fixed (t : timestamp) : nat → timestamp := λ _, t.

Lemma in_range_no_wrap base n :
  0 ≤ base → 0 < n → base + n - 1 ≤ int4_max →
  (base + n - 1) mod uint32_mod = base + n - 1 ∧
  (int4_max <? base) || (int4_max <? base + n - 1) = false.
Proof.
  intros Hb Hn Hm. split; [|apply orb_false_iff; lia].
  apply Z.mod_small. unfold uint32_mod, int4_max in *. lia.
Qed.
Lemma claim_fresh now gb c s d :
  session_alloc d s = None → uid_free gb d c = true →
  ∃ row, claim_uid now gb c s d = inr (c, set_allocs (<[c := row]> (session_uid_allocations d)) d) ∧
    al_SessionID row = s ∧ al_State row = UidInUse ∧ al_FreedAt row = None.
Proof.
  intros Hs Hf. unfold claim_uid.
  assert (other_session_row d c s = false) as Ho.
  { unfold other_session_row. apply bool_decide_eq_false. rewrite Exists_exists.
    intros ([v al] & Hin & _ & E). apply elem_of_map_to_list in Hin.
    by eapply session_alloc_None in Hs. }
  unfold uid_free in Hf. unfold mbind, tx_bind, tx_get, mret, tx_ret, tx_require, tx_modify, tx_fail.
  rewrite Ho. destruct (session_uid_allocations d !! c) as [al|]; [rewrite Hf|]; simpl; eexists; by split.
Qed.
(** What an undisturbed allocation does, case by case on the session's row. *)
Lemma allocate_cases go db s base n grace d :
  dp_wf d → 0 ≤ base → 0 < n → base + n - 1 ≤ int4_max →
  let '(r, d') := AllocateSessionUID quiet (fixed go) (fixed db) s base n grace d in
  match session_alloc d s with
  | Some (u, al) =>
      if in_use al || recyclable (go - grace) al
      then r = inr u ∧ d' = set_allocs (<[u := with_alloc s UidInUse None al]> (session_uid_allocations d)) d
      else r = inl ErrUIDExhausted ∧ d' = d
  | None =>
      match lowest_free (go - grace) d base (base + n - 1) with
      | Some u => r = inr u ∧ ∃ row, d' = set_allocs (<[u := row]> (session_uid_allocations d)) d ∧
          al_SessionID row = s ∧ al_State row = UidInUse ∧ al_FreedAt row = None
      | None => r = inl ErrUIDExhausted ∧ d' = d
      end
  end.
Proof.
  intros W Hb Hn Hm. unfold AllocateSessionUID, quiet, fixed.
  replace (n =? 0) with false by lia. unfold reclaim_session at 1.
  destruct (session_alloc d s) as [[u al]|] eqn:Es.
  - destruct (in_use al) eqn:Ei; [done|]. cbn [orb].
    unfold reclaim_session. rewrite Es. destruct (recyclable (go - grace) al) eqn:Er; [done|].
    rewrite Es.
    apply session_alloc_Some in Es as [Hu _]. pose proof (dw_freed _ W _ _ Hu) as Hf.
    unfold in_use in Ei. apply bool_decide_eq_false in Ei. unfold recyclable, within_grace in *.
    destruct (al_State al); [done|]. destruct (al_FreedAt al) as [t|]; [|by destruct Hf as [_ [? ?]]].
    replace (go - grace <=? t) with true by lia. done.
  - unfold reclaim_session. rewrite !Es. cbn [alloc_attempts]. unfold tryAllocSessionUID.
    destruct (in_range_no_wrap base n Hb Hn Hm) as [-> ->].
    destruct (lowest_free _ d base _) as [u|] eqn:El; [|done].
    apply lowest_free_Some in El as (_ & Hf & _).
    destruct (claim_fresh db (go - grace) u s d Es Hf) as (row & Hc & ? & ? & ?).
    unfold run_tx. rewrite Hc. simpl. split; [done|]. by exists row.
Qed.

(** * Claims *)

(** A UID is never handed to another session before its sandbox is reaped: when a
    UID is in use by one session and later, after any interleaved history, in use by
    another, the history contains its release by the first session at some time and,
    after that, a claim whose grace threshold is strictly later than the release. *)
Theorem uid_not_recycled_within_grace ls d d' u a a' :
  dp_wf d → trace ls d d' →
  session_uid_allocations d !! u = Some a → al_State a = UidInUse →
  session_uid_allocations d' !! u = Some a' → al_State a' = UidInUse →
  al_SessionID a' ≠ al_SessionID a →
  ∃ l1 t l2 gb s l3, ls = l1 ++ LReleased t (al_SessionID a) :: l2 ++ LClaimed gb u s :: l3 ∧ t < gb.
Proof. intros W Ht. by apply holder_changes. Qed.

(** Allocation under interference: whatever other connections commit between its
    statements, allocating a session UID is a sequence of atomic steps (so it keeps the
    invariant), and when it returns a UID the session holds that UID in use. *)
Theorem allocation_is_atomic_steps env goNow dbNow s base n grace d r d' :
  (∀ i x, steps x (env i x)) → 0 ≤ base → 0 < n < uint32_mod → dp_wf d →
  AllocateSessionUID env goNow dbNow s base n grace d = (r, d') →
  steps d d' ∧ dp_wf d' ∧ ∀ u, r = inr u → holds d' s u.
Proof.
  intros He Hb Hn W [Hs Hu]%allocate_ok; try done. split_and!; [done|by eapply steps_wf|done].
Qed.

(** The machine arithmetic is safe: one allocation attempt with any 32-bit base and
    range size, whose last UID is computed with wrap-around, either fails closed or
    claims a UID inside the configured range that fits PostgreSQL's integer; it never
    hands out a UID outside the range. *)
Theorem uid_within_range env1 env2 goNow dbNow s base n grace d u d' :
  0 ≤ base < uint32_mod → 0 < n < uint32_mod →
  tryAllocSessionUID env1 env2 goNow dbNow s base n grace d = (inr u, d') →
  base ≤ u < base + n ∧ u ≤ int4_max.
Proof.
  intros Hb Hn. unfold tryAllocSessionUID.
  destruct ((int4_max <? base) || _) eqn:Eb; [done|].
  destruct (lowest_free _ _ _ _) as [c|] eqn:El; [|done].
  apply lowest_free_Some in El as (Hc & _). apply orb_false_iff in Eb as [_ Eb].
  intros H%run_tx_ok. apply claim_uid_inr in H as (-> & _). split; [apply uid_bounds; [lia|done|done]|lia].
Qed.

(** Undisturbed allocation: a session holding a UID gets it again; one whose UID was
    released gets the same UID back once the grace period has passed and is refused
    before; a new session gets the lowest UID of the range that is unallocated or past
    its grace period, and is refused exactly when there is none. *)
Theorem allocation_lowest_free go db s base n grace d :
  dp_wf d → 0 ≤ base → 0 < n → base + n - 1 ≤ int4_max →
  (∀ u, holds d s u → fst (AllocateSessionUID quiet (fixed go) (fixed db) s base n grace d) = inr u) ∧
  (∀ u al t, session_uid_allocations d !! u = Some al → al_SessionID al = s → al_State al = UidFreed →
     al_FreedAt al = Some t →
     fst (AllocateSessionUID quiet (fixed go) (fixed db) s base n grace d) =
       if t <? go - grace then inr u else inl ErrUIDExhausted) ∧
  ((∀ u al, session_uid_allocations d !! u = Some al → al_SessionID al ≠ s) →
   ∀ u, fst (AllocateSessionUID quiet (fixed go) (fixed db) s base n grace d) = inr u ↔
        base ≤ u < base + n ∧ uid_free (go - grace) d u = true ∧
        ∀ v, base ≤ v < u → uid_free (go - grace) d v = false) ∧
  ((∀ u al, session_uid_allocations d !! u = Some al → al_SessionID al ≠ s) →
   fst (AllocateSessionUID quiet (fixed go) (fixed db) s base n grace d) = inl ErrUIDExhausted ↔
        ∀ v, base ≤ v < base + n → uid_free (go - grace) d v = false).
Proof.
  intros W Hb Hn Hm. pose proof (allocate_cases go db s base n grace d W Hb Hn Hm) as H.
  destruct (AllocateSessionUID _ _ _ _ _ _ _ _) as [r d']. cbn [fst]. split_and!.
  - intros u (al & Hu & Hs & Hi). rewrite (session_alloc_wf _ _ _ _ W Hu Hs) in H.
    unfold in_use in H. rewrite bool_decide_eq_true_2 in H by done. by destruct H.
  - intros u al t Hu Hs Hf Ht. rewrite (session_alloc_wf _ _ _ _ W Hu Hs) in H.
    unfold in_use, recyclable in H. rewrite Hf, Ht in H. simpl in H.
    destruct (t <? go - grace); by destruct H.
  - intros Hno u. apply session_alloc_None in Hno. rewrite Hno in H.
    destruct (lowest_free _ _ _ _) as [v|] eqn:El.
    + destruct H as [-> _]. apply lowest_free_Some in El as (Hv & Hfv & Hlv). split.
      * intros [= <-]. split_and!; [lia..|done|done].
      * intros (? & Hf & Hl). f_equal. destruct (Z.lt_trichotomy u v) as [?|[?|?]]; [|done|].
        -- rewrite Hlv in Hf by lia. done.
        -- rewrite Hl in Hfv by lia. done.
    + destruct H as [-> _]. rewrite lowest_free_None in El. split; [done|].
      intros (? & Hf & _). rewrite El in Hf by lia. done.
  - intros Hno. apply session_alloc_None in Hno. rewrite Hno in H.
    destruct (lowest_free _ _ _ _) as [v|] eqn:El; destruct H as [-> _].
    + apply lowest_free_Some in El as (? & Hf & _). split; [done|]. intros Hall.
      rewrite Hall in Hf by lia. done.
    + rewrite lowest_free_None in El. split; [|done]. intros _ v Hv. apply El. lia.
Qed.
