(* ===== verification/DispatchEvents.v ===== *)
(** Worker events: whatever is delivered, resent or reordered, and however the
    assignment is fenced or terminalized meanwhile, each sequence number is applied at
    most once, in order and without gaps; a contiguous replay brings the watermark up. *)
From Stdlib Require Import QArith Ascii.
From S2P Require Import Prelude Json Runtime RuntimeFacts WorkerPool WorkData Dispatch DispatchFacts.
#[local] Open Scope Z_scope.

(** What happens to one assignment: an event arrives on the active assignment or as a
    late observation of the bound worker; the assignment is fenced or terminalized. *)
Record worker_event := { we_seq : Z; we_kind : string; we_payload : RawMessage }.
Inductive occurrence :=
| OLive (now : timestamp) (e : worker_event)
| OLate (now : timestamp) (poolID workerID : string) (e : worker_event)
| OFence (poolID workerID : string) (gen : Z)
| OTerminalize (now : timestamp).

(** The events applied, with the final state. *)
Definition occurs (turnID : uuid) (o : occurrence) (d : DispatchDB) : list worker_event * DispatchDB :=
  let applied (e : worker_event) (m : DpTx bool) :=
    match run_tx m d with (inr true, d') => ([e], d') | (_, d') => ([], d') end in
  match o with
  | OLive now e => applied e (AppendTurnEvent now turnID (we_seq e) (we_kind e) (we_payload e))
  | OLate now p w e =>
      applied e (AppendAfterTerminalEvent now turnID (we_seq e) (we_kind e) (we_payload e) p w)
  | OFence p w gen => ([], snd (run_tx (FenceWorkerGenerationIf p w gen) d))
  | OTerminalize now => ([], snd (run_tx (TerminalizeAssignment now turnID) d))
  end.
Fixpoint occur (turnID : uuid) (l : list occurrence) (d : DispatchDB) : list worker_event * DispatchDB :=
  match l with
  | [] => ([], d)
  | o :: l' =>
      let '(es, d1) := occurs turnID o d in
      let '(es', d2) := occur turnID l' d1 in (es ++ es', d2)
  end.

(** [e] recorded as the audit event [v] of the turn. *)
Definition records (turnID runID : uuid) (e : worker_event) (v : Event) : Prop :=
  ev_TurnID v = Some turnID ∧ ev_RunID v = runID ∧ ev_Kind v = we_kind e ∧
  jsonb_value (we_payload e) (ev_Payload v).
(** From watermark [h], [es] was applied. *)
Record applies (turnID : uuid) (es : list worker_event) (d d' : DispatchDB) : Prop := {
  ap_rows : ∀ a, turn_assignments d !! turnID = Some a →
    ∃ a', turn_assignments d' !! turnID = Some a' ∧ as_RunID a' = as_RunID a ∧
      as_PoolID a' = as_PoolID a ∧ as_WorkerID a' = as_WorkerID a ∧
      as_HighestAppliedSequence a' = as_HighestAppliedSequence a + Z.of_nat (length es) ∧
      we_seq <$> es = seqZ (as_HighestAppliedSequence a + 1) (Z.of_nat (length es)) ∧
      ∃ vs, events (dp_rt d') = events (dp_rt d) ++ vs ∧ Forall2 (records turnID (as_RunID a)) es vs }.

Lemma applies_nil k d d' :
  (∀ a, turn_assignments d !! k = Some a → ∃ a', turn_assignments d' !! k = Some a' ∧
     as_RunID a' = as_RunID a ∧ as_PoolID a' = as_PoolID a ∧ as_WorkerID a' = as_WorkerID a ∧
     as_HighestAppliedSequence a' = as_HighestAppliedSequence a) →
  events (dp_rt d') = events (dp_rt d) → applies k [] d d'.
Proof.
  intros H He. constructor. intros a (a' & ? & ? & ? & ? & E)%H. exists a'. split_and!; try done.
  - simpl. lia.
  - exists []. by rewrite app_nil_r.
Qed.
Lemma applies_refl k d : applies k [] d d.
Proof. apply applies_nil; [|done]. intros a Ha. by exists a. Qed.
Lemma applies_app k es1 es2 d1 d2 d3 :
  applies k es1 d1 d2 → applies k es2 d2 d3 → applies k (es1 ++ es2) d1 d3.
Proof.
  intros [H1] [H2]. constructor. intros a Ha.
  destruct (H1 a Ha) as (b & Hb & R1 & P1 & W1 & Q1 & S1 & vs1 & E1 & F1).
  destruct (H2 b Hb) as (c & Hc & R2 & P2 & W2 & Q2 & S2 & vs2 & E2 & F2).
  exists c. rewrite length_app, Nat2Z.inj_add. split_and!; try congruence; [lia| |].
  - rewrite fmap_app, S1, S2, Q1, seqZ_app by lia. by replace (as_HighestAppliedSequence a + 1 + Z.of_nat (length es1))
      with (as_HighestAppliedSequence a + Z.of_nat (length es1) + 1) by lia.
  - exists (vs1 ++ vs2). rewrite E2, E1, app_assoc. split; [done|]. apply Forall2_app; [done|]. by rewrite <- R1.
Qed.
Lemma append_applies now k a e d b d' :
  turn_assignments d !! k = Some a →
  append_sequenced now k a (we_seq e) (we_kind e) (we_payload e) d = inr (b, d') →
  applies k (if b then [e] else []) d d'.
Proof.
  intros Ha [(-> & -> & _)|(-> & Hs & _ & v & j & Hj & ? & ? & ? & Hp & _ & _ & ->)]%append_sequenced_inr;
    [apply applies_refl|].
  constructor. intros a2 Ha2. assert (a2 = a) as -> by congruence.
  exists (with_watermark (we_seq e) a). simpl. rewrite lookup_insert_eq. split_and!; try done; [by rewrite Hs|].
  exists [v]. split; [done|]. constructor; [|done]. unfold records. rewrite Hp. done.
Qed.
Lemma occurs_applies k o d es d' : occurs k o d = (es, d') → applies k es d d'.
Proof.
  destruct o as [now e|now p w e|p w gen|now]; unfold occurs.
  - destruct (run_tx _ d) as [[err|b] d1] eqn:E.
    { apply run_tx_err in E as ->. intros [= <- <-]. apply applies_refl. }
    apply run_tx_ok, AppendTurnEvent_inr in E as (a & Ha & _ & E).
    apply append_applies in E; [|done]. destruct b; by intros [= <- <-].
  - destruct (run_tx _ d) as [[err|b] d1] eqn:E.
    { apply run_tx_err in E as ->. intros [= <- <-]. apply applies_refl. }
    apply run_tx_ok, AppendAfterTerminalEvent_inr in E as (a & Ha & _ & _ & E).
    apply append_applies in E; [|done]. destruct b; by intros [= <- <-].
  - destruct (run_tx _ d) as [[err|a] d1] eqn:E; intros [= <- <-]; simpl.
    { apply run_tx_err in E as ->. apply applies_refl. }
    apply run_tx_ok, fence_rows_inr in E as [-> _]. apply applies_nil; [|done]. simpl. intros b Hb.
    rewrite lookup_fmap, Hb. simpl. eexists. split; [done|]. by destruct (_ && _).
  - destruct (run_tx _ d) as [[err|u] d1] eqn:E; intros [= <- <-]; simpl.
    { apply run_tx_err in E as ->. apply applies_refl. }
    apply run_tx_ok, TerminalizeAssignment_inr in E as [[-> _]|(a & Ha & _ & ->)]; [apply applies_refl|].
    apply applies_nil; [|done]. intros b Hb. assert (b = a) as -> by congruence. simpl.
    rewrite lookup_insert_eq. eexists. by split.
Qed.
Lemma occur_applies k l d es d' : occur k l d = (es, d') → applies k es d d'.
Proof.
  revert d es. induction l as [|o l IH]; intros d es; simpl; [intros [= <- <-]; apply applies_refl|].
  destruct (occurs k o d) as [es1 d1] eqn:E1. destruct (occur k l d1) as [es2 d2] eqn:E2.
  intros [= <- <-]. eapply applies_app; [by apply occurs_applies in E1|by apply IH].
Qed.

(** * Replay makes progress *)
Definition is_storage_error (r : DpErr + bool) : bool :=
  match r with inl (errDB _) => true | _ => false end.
Lemma lift_drt_inl {A} (m : RtTx A) d e : lift_drt m d = inl e → ∃ e', e = errDB e'.
Proof. unfold lift_drt. destruct (m (dp_rt d)) as [e'|[a r]]; [|done]. intros [= <-]. eauto. Qed.
(** An event at most one past the watermark is applied or deduplicated, unless the
    database refuses the write. *)
Lemma append_sequenced_progress now k a seq kind payload d :
  seq ≤ as_HighestAppliedSequence a + 1 →
  match append_sequenced now k a seq kind payload d with
  | inl e => ∃ e', e = errDB e'
  | inr (b, _) => b = negb (seq <=? as_HighestAppliedSequence a)
  end.
Proof.
  intros Hs. destruct (append_sequenced now k a seq kind payload d) as [e|[b d']] eqn:E.
  - unfold append_sequenced in E. destruct (Z.leb_spec seq (as_HighestAppliedSequence a)); [done|].
    apply tx_bind_inl in E as [E|(? & ? & E & F)].
    { exfalso. unfold tx_require in E. replace (seq =? _) with true in E by lia. done. }
    apply tx_bind_inl in F as [F|(? & ? & _ & F)].
    { destruct payload; simpl in F; try done. injection F as <-. eauto. }
    apply tx_bind_inl in F as [F|(? & ? & _ & F)]; [by apply lift_drt_inl in F|].
    apply tx_bind_inl in F as [F|(? & ? & _ & F)]; [|done].
    unfold tx_require in F. destruct (seq <=? int8_max); [done|]. injection F as <-. eauto.
  - apply append_sequenced_inr in E as [(-> & _ & ?)|(-> & -> & _)]; lia.
Qed.

(** The bound worker resends [es] after a reconnect. *)
Definition replay (now : timestamp) (poolID workerID : string) (es : list worker_event) : list occurrence :=
  OLate now poolID workerID <$> es.
Definition late_result (now : timestamp) (turnID poolID workerID : string) (e : worker_event)
    (d : DispatchDB) : DpErr + bool :=
  fst (run_tx (AppendAfterTerminalEvent now turnID (we_seq e) (we_kind e) (we_payload e) poolID workerID) d).
(** No write of the replay is refused by the database. *)
Fixpoint writes_ok (now : timestamp) (turnID poolID workerID : string) (es : list worker_event)
    (d : DispatchDB) : bool :=
  match es with
  | [] => true
  | e :: es' =>
      negb (is_storage_error (late_result now turnID poolID workerID e d)) &&
      writes_ok now turnID poolID workerID es' (snd (occurs turnID (OLate now poolID workerID e) d))
  end.

Lemma late_delivery now k p w e d a :
  turn_assignments d !! k = Some a → as_PoolID a = p → as_WorkerID a = w →
  we_seq e ≤ as_HighestAppliedSequence a + 1 →
  is_storage_error (late_result now k p w e d) = false →
  ∃ d' a', occurs k (OLate now p w e) d =
      (if we_seq e <=? as_HighestAppliedSequence a then [] else [e], d') ∧
    turn_assignments d' !! k = Some a' ∧ as_PoolID a' = p ∧ as_WorkerID a' = w ∧
    as_HighestAppliedSequence a' = Z.max (as_HighestAppliedSequence a) (we_seq e).
Proof.
  intros Ha Hp Hw Hs. unfold late_result, occurs, run_tx.
  assert (AppendAfterTerminalEvent now k (we_seq e) (we_kind e) (we_payload e) p w d =
          append_sequenced now k a (we_seq e) (we_kind e) (we_payload e) d) as ->.
  { unfold AppendAfterTerminalEvent, mbind, tx_bind, tx_get, tx_opt. rewrite Ha. simpl.
    unfold bound_to. by rewrite Hp, Hw, !String.eqb_refl. }
  pose proof (append_sequenced_progress now k a (we_seq e) (we_kind e) (we_payload e) d Hs) as H.
  destruct (append_sequenced _ _ _ _ _ _ _) as [err|[b d']] eqn:E.
  { destruct H as [e' ->]. done. }
  intros _. subst b. apply append_sequenced_inr in E as [(E & -> & Hle)|(E & Heq & _ & v & j & _ & _ & _ & _ & _ & _ & _ & ->)].
  - replace (we_seq e <=? _) with true by lia. exists d, a. split_and!; try done. lia.
  - rewrite Heq. replace (_ + 1 <=? _) with false by lia. simpl. eexists _, _. split; [done|]. simpl.
    rewrite lookup_insert_eq. split; [done|]. simpl. split_and!; try done. lia.
Qed.
Lemma replay_progress now k p w es d a s :
  turn_assignments d !! k = Some a → as_PoolID a = p → as_WorkerID a = w →
  we_seq <$> es = seqZ s (Z.of_nat (length es)) → s ≤ as_HighestAppliedSequence a + 1 →
  writes_ok now k p w es d = true →
  ∃ a', turn_assignments (snd (occur k (replay now p w es) d)) !! k = Some a' ∧
    as_HighestAppliedSequence a' = Z.max (as_HighestAppliedSequence a) (s + Z.of_nat (length es) - 1).
Proof.
  revert d a s. induction es as [|e es IH]; intros d a s Ha Hp Hw Hseq Hs Hok.
  { exists a. split; [done|]. simpl. lia. }
  cbn [replay fmap list_fmap occur length] in *. rewrite Nat2Z.inj_succ, seqZ_cons in Hseq by lia.
  injection Hseq as He Hseq. rewrite Z.pred_succ in Hseq.
  cbn [writes_ok] in Hok. apply andb_true_iff in Hok as [H1 H2]. apply negb_true_iff in H1.
  destruct (late_delivery now k p w e d a) as (d1 & a1 & Ho & Ha1 & Hp1 & Hw1 & Hh1); try done; [lia|].
  rewrite Ho in *. cbn [snd] in H2.
  destruct (IH d1 a1 (Z.succ s)) as (a' & Ha' & Hh'); try done; [lia|].
  unfold replay in Ha'. cbn [snd]. destruct (occur k (OLate now p w <$> es) d1) as [es2 d2] eqn:E2.
  exists a'. split; [done|]. lia.
Qed.

(** * Claims *)

(** C35. Worker events are applied exactly once, in order and without gaps: for any
    sequence of deliveries, resends, reorderings, late observations and losses of the
    assignment, the applied events carry the consecutive sequence numbers after the old
    watermark, the watermark ends at the last of them, and the run's audit log gains
    exactly those events, in that order, with their kinds and payloads. *)
Theorem worker_events_exactly_once turnID l d a :
  turn_assignments d !! turnID = Some a →
  let '(es, d') := occur turnID l d in
  we_seq <$> es = seqZ (as_HighestAppliedSequence a + 1) (Z.of_nat (length es)) ∧
  (∃ a', turn_assignments d' !! turnID = Some a' ∧
     as_HighestAppliedSequence a' = as_HighestAppliedSequence a + Z.of_nat (length es)) ∧
  ∃ vs, events (dp_rt d') = events (dp_rt d) ++ vs ∧ Forall2 (records turnID (as_RunID a)) es vs.
Proof.
  intros Ha. destruct (occur turnID l d) as [es d'] eqn:E. apply occur_applies in E as [H].
  destruct (H a Ha) as (a' & Ha' & _ & _ & _ & Hh & Hs & Hv). split_and!; eauto.
Qed.

(** Replay makes progress: when the worker bound to a turn resends a contiguous run
    of events that starts at or below the watermark's successor, as it does after a lost
    acknowledgement or a reconnect, and the database accepts the writes, the watermark
    reaches the last event resent, so the cumulative acknowledgement covers all of them,
    whether or not the assignment is still active. *)
Theorem replay_reaches_watermark now turnID es d a s :
  turn_assignments d !! turnID = Some a →
  we_seq <$> es = seqZ s (Z.of_nat (length es)) → s ≤ as_HighestAppliedSequence a + 1 →
  writes_ok now turnID (as_PoolID a) (as_WorkerID a) es d = true →
  ∃ a', turn_assignments (snd (occur turnID (replay now (as_PoolID a) (as_WorkerID a) es) d)) !! turnID = Some a' ∧
    as_HighestAppliedSequence a' = Z.max (as_HighestAppliedSequence a) (s + Z.of_nat (length es) - 1).
Proof. intros. by apply replay_progress. Qed.
