(* ===== verification/DispatchService.v ===== *)
(** The dispatch service (control-plane/internal/dispatch/service.go): worker streams,
    durable events, outcomes, worker loss, cancellation, leases and the reconciler.

    The service's state is the database, the pool of worker connections and the
    generation counter. A handler is a function on that state that cannot be undone: a
    store call commits or fails on its own, a message once sent is out. Failures are
    inputs: [sv_faults] says, per store call, whether the database answers, is lost
    before the commit or is lost after it; [sv_sends] says, per send on an open
    connection, whether it reports success; [sv_sent] is every message handed to a stream,
    received or not. [sv_timers] are the armed node timeouts (turn
    and milliseconds). A handler reads one clock. Metrics and logs
    are left out. *)
From Stdlib Require Import QArith Qabs Ascii.
From S2P Require Import Prelude Json Runtime WorkerPool WorkData WorkGraph WorkAssign Spiffe Dispatch DispatchUid.
#[local] Open Scope Z_scope.

(** * Configuration and messages *)
Record ModelConfig := {
  mc_Id : string; mc_Api : string; mc_ContextWindow : Z; mc_MaxOutputTokens : Z;
  mc_ThinkingLevel : string }.
(** [mustJSON(model)]: the generated struct's tags. *)
Definition model_config_json (m : ModelConfig) : json :=
  JObj (omit_empty "id" (String.eqb (mc_Id m) EmptyString) (JStr (mc_Id m)) ++
        omit_empty "api" (String.eqb (mc_Api m) EmptyString) (JStr (mc_Api m)) ++
        omit_empty "context_window" (mc_ContextWindow m =? 0) (JNum (mc_ContextWindow m) 0) ++
        omit_empty "max_output_tokens" (mc_MaxOutputTokens m =? 0) (JNum (mc_MaxOutputTokens m) 0) ++
        omit_empty "thinking_level" (String.eqb (mc_ThinkingLevel m) EmptyString) (JStr (mc_ThinkingLevel m))).
(** Durations in nanoseconds. *)
Definition second : Z := 1000000000.
Record Config := {
  cf_TrustDomain : string; cf_HeartbeatInterval : Z; cf_LeaseInterval : Z; cf_ReconcileInterval : Z;
  cf_ProtocolVersion : string; cf_SessionUIDBase : Z; cf_SessionUIDRange : Z; cf_SessionUIDGrace : Z;
  cf_DefaultModel : option ModelConfig }.
Definition defaults (c : Config) : Config :=
  let or_z (v dflt : Z) := if v =? 0 then dflt else v in
  let or_s (v dflt : string) := if String.eqb v EmptyString then dflt else v in
  {| cf_TrustDomain := or_s (cf_TrustDomain c) DefaultTrustDomain;
     cf_HeartbeatInterval := or_z (cf_HeartbeatInterval c) (10 * second);
     cf_LeaseInterval := or_z (cf_LeaseInterval c) (30 * second);
     cf_ReconcileInterval := or_z (cf_ReconcileInterval c) (second / 2);
     cf_ProtocolVersion := or_s (cf_ProtocolVersion c) "1";
     cf_SessionUIDBase := or_z (cf_SessionUIDBase c) 10000;
     cf_SessionUIDRange := or_z (cf_SessionUIDRange c) 50000;
     cf_SessionUIDGrace := or_z (cf_SessionUIDGrace c) (300 * second);
     cf_DefaultModel := cf_DefaultModel c |}.

Record AssignTurn := {
  tm_TurnId : uuid; tm_SessionId : string; tm_SandboxId : string; tm_Uid : Z; tm_Gid : Z;
  tm_Persona : string; tm_Model : ModelConfig; tm_WorkspaceTools : bool; tm_ScopeIdentityId : uuid;
  tm_Message : string; tm_RunId : uuid; tm_WorkItemId : string; tm_NodeExecutionId : string;
  tm_NodeKey : string; tm_Context : option json; tm_CompletionOutcomes : list string;
  tm_CompletionOutputSchema : string; tm_Skills : list Workflow.CanonicalSkill;
  tm_Materializations : list ArtifactMaterialization }.
Inductive AbortReason := AbortCancelled | AbortWorkflowTimeout | AbortOther.
Inductive ControlMessage :=
| CWelcome (gen : Z)
| CEventAck (turnID : uuid) (through : Z)
| CAbortTurn (turnID : uuid) (reason : AbortReason) (msg : string)
| CSessionEnd (sandboxID : string) (uid gid : Z)
| CAssignTurn (m : AssignTurn).

(** A durable worker observation; [te_Body] is the JSON of its message. *)
Inductive Outcome := OutcomeCompleted | OutcomeFailed | OutcomeAborted | OutcomeUnspecified.
Inductive TurnEventKind :=
| ExecutionStarted | ModelCallStarted | AssistantMessage | ModelCallFailed | ModelRetryScheduled
| ModelRetryFinished | ToolCallStarted | ToolResult | CompactionStarted | CompactionFinished
| HarnessError | WorkerOutcome (o : Outcome) | StepCompletion (r : CompletionReport) | UnknownEvent.
Record TurnEvent := {
  te_TurnId : uuid; te_Sequence : Z; te_Kind : TurnEventKind; te_Body : RawMessage }.

Definition EvModelCallStarted : string := "model_call_started".
Definition EvAssistantMessage : string := "assistant_message".
Definition EvModelCallFailed : string := "model_call_failed".
Definition EvModelRetryScheduled : string := "model_retry_scheduled".
Definition EvModelRetryFinished : string := "model_retry_finished".
Definition EvToolCallStarted : string := "tool_call_started".
Definition EvToolResult : string := "tool_result".
Definition EvStepCompletionReported : string := "step_completion_reported".
Definition EvCompactionStarted : string := "compaction_started".
Definition EvCompactionFinished : string := "compaction_finished".
Definition EvError : string := "error".

(** Kind and payload of the runtime event, and whether it is an outcome or a completion. *)
Definition turnEventToRuntime (te : TurnEvent) : string * RawMessage * bool * bool :=
  match te_Kind te with
  | ExecutionStarted => (EvTurnStarted, te_Body te, false, false)
  | ModelCallStarted => (EvModelCallStarted, te_Body te, false, false)
  | AssistantMessage => (EvAssistantMessage, te_Body te, false, false)
  | ModelCallFailed => (EvModelCallFailed, te_Body te, false, false)
  | ModelRetryScheduled => (EvModelRetryScheduled, te_Body te, false, false)
  | ModelRetryFinished => (EvModelRetryFinished, te_Body te, false, false)
  | ToolCallStarted => (EvToolCallStarted, te_Body te, false, false)
  | ToolResult => (EvToolResult, te_Body te, false, false)
  | CompactionStarted => (EvCompactionStarted, te_Body te, false, false)
  | CompactionFinished => (EvCompactionFinished, te_Body te, false, false)
  | HarnessError => (EvError, te_Body te, false, false)
  | WorkerOutcome _ => (EvSettled, te_Body te, true, false)
  | StepCompletion _ => (EvStepCompletionReported, te_Body te, false, true)
  | UnknownEvent => (EmptyString, NoJSON, false, false)
  end.

(** * State and effects *)
Inductive fault := FNone | FBeforeCommit | FAfterCommit.
Record Service := mkService {
  sv_db : DispatchDB;
  sv_pool : workerPool;
  sv_gen : Z;
  sv_sent : list (nat * ControlMessage);
  sv_faults : list fault;
  sv_sends : list bool;
  sv_kicked : bool;
  sv_timers : list (uuid * Z);
  sv_nextCapacitySweep : timestamp }.
Definition with_db (d : DispatchDB) (f : list fault) (s : Service) : Service :=
  mkService d (sv_pool s) (sv_gen s) (sv_sent s) f (sv_sends s) (sv_kicked s) (sv_timers s)
    (sv_nextCapacitySweep s).
Definition with_pool (p : workerPool) (s : Service) : Service :=
  mkService (sv_db s) p (sv_gen s) (sv_sent s) (sv_faults s) (sv_sends s) (sv_kicked s) (sv_timers s)
    (sv_nextCapacitySweep s).
Definition with_gen (g : Z) (s : Service) : Service :=
  mkService (sv_db s) (sv_pool s) g (sv_sent s) (sv_faults s) (sv_sends s) (sv_kicked s) (sv_timers s)
    (sv_nextCapacitySweep s).
Definition with_sent (l : list (nat * ControlMessage)) (f : list bool) (s : Service) : Service :=
  mkService (sv_db s) (sv_pool s) (sv_gen s) l (sv_faults s) f (sv_kicked s) (sv_timers s)
    (sv_nextCapacitySweep s).
Definition with_kick (s : Service) : Service :=
  mkService (sv_db s) (sv_pool s) (sv_gen s) (sv_sent s) (sv_faults s) (sv_sends s) true (sv_timers s)
    (sv_nextCapacitySweep s).
Definition with_sweep (t : timestamp) (s : Service) : Service :=
  mkService (sv_db s) (sv_pool s) (sv_gen s) (sv_sent s) (sv_faults s) (sv_sends s) (sv_kicked s) (sv_timers s) t.
Definition with_timers (l : list (uuid * Z)) (s : Service) : Service :=
  mkService (sv_db s) (sv_pool s) (sv_gen s) (sv_sent s) (sv_faults s) (sv_sends s) (sv_kicked s) l
    (sv_nextCapacitySweep s).

Definition Svc (A : Type) : Type := Service → A * Service.
#[export] Instance svc_ret : MRet Svc := λ A a s, (a, s).
#[export] Instance svc_bind : MBind Svc := λ A B k m s, let '(a, s') := m s in k a s'.
Definition sv_get : Svc Service := λ s, (s, s).
Definition sv_modify (f : Service → Service) : Svc () := λ s, ((), f s).

(** One store call. *)
Definition call {A} (m : DispatchDB → (DpErr + A) * DispatchDB) : Svc (DpErr + A) := λ s,
  match sv_faults s with
  | FBeforeCommit :: f => (inl errUnavailable, with_db (sv_db s) f s)
  | FAfterCommit :: f => (inl errUnavailable, with_db (snd (m (sv_db s))) f s)
  | FNone :: f => let '(r, d) := m (sv_db s) in (r, with_db d f s)
  | [] => let '(r, d) := m (sv_db s) in (r, with_db d [] s)
  end.
Definition store {A} (m : DpTx A) : Svc (DpErr + A) := call (run_tx m).

Definition conn (p : nat) : Svc (option workerConn) := λ s, (wp_heap (sv_pool s) !! p, s).
Definition update_conn (p : nat) (f : workerConn → workerConn) : Svc () :=
  sv_modify (λ s, match wp_heap (sv_pool s) !! p with
                  | Some w => with_pool (put_conn p (f w) (sv_pool s)) s
                  | None => s
                  end).
(** [w.send]: refused once the connection is closed; otherwise the message is in the log once
    Send was called, whatever Send then reports: the worker may have received it. *)
Definition send (p : nat) (m : ControlMessage) : Svc bool := λ s,
  match wp_heap (sv_pool s) !! p with
  | Some w =>
      if wc_closed w then (false, s)
      else match sv_sends s with
           | false :: f => (false, with_sent (sv_sent s ++ [(p, m)]) f s)
           | true :: f => (true, with_sent (sv_sent s ++ [(p, m)]) f s)
           | [] => (true, with_sent (sv_sent s ++ [(p, m)]) [] s)
           end
  | None => (false, s)
  end.
Definition kickReconciler : Svc () := sv_modify with_kick.

(** * Workspace reports *)

(** Finite binary64 values as rationals; [None] is NaN or an infinity. *)
Definition float64_nearest (q : Q) : Q :=
  match float64_ratio (Z.abs (Qnum q)) (Zpos (Qden q)) with
  | Some (m, e) =>
      let m := if Qnum q <? 0 then - m else m in
      if 0 <=? e then inject_Z (m * 2 ^ e) else Qmake m (Z.to_pos (2 ^ (- e)))
  | None => q
  end.
Record WorkspaceStatus := {
  ws_FreeBytes : Z; ws_CapacityBytes : Z; ws_FreeRatio : option Q; ws_Warning : bool;
  ws_CreditGated : bool }.
(** [float64(free) / float64(capacity)]. *)
Definition computed_ratio (free capacity : Z) : Q :=
  float64_nearest (float64_nearest (inject_Z free) / float64_nearest (inject_Z capacity)).
Definition ratio_tolerance : Q := float64_nearest (1 # 1000000).
Definition Qltb (a b : Q) : bool := negb (Qle_bool b a).
Definition validateWorkspaceStatus (status : option WorkspaceStatus) : string + Q :=
  match status with
  | None => inl "workspace status has invalid byte capacity"
  | Some st =>
      if (ws_CapacityBytes st =? 0) || (ws_CapacityBytes st <? ws_FreeBytes st)
      then inl "workspace status has invalid byte capacity"
      else
        match ws_FreeRatio st with
        | None => inl "workspace status free ratio does not match available blocks"
        | Some ratio =>
            if Qltb ratio 0 || Qltb 1 ratio ||
               Qltb ratio_tolerance
                 (Qabs (float64_nearest (ratio - computed_ratio (ws_FreeBytes st) (ws_CapacityBytes st))))
            then inl "workspace status free ratio does not match available blocks"
            else if negb (Bool.eqb (ws_Warning st) (Qltb ratio ratio_open))
            then inl "workspace status warning does not match the 25 percent threshold"
            else if Qle_bool ratio ratio_close && negb (ws_CreditGated st)
            then inl "workspace status must gate credit at or below 20 percent free"
            else if Qle_bool ratio_open ratio && ws_CreditGated st
            then inl "workspace status must reopen credit at or above 25 percent free"
            else inr ratio
        end
  end.

(** * Outcomes and worker loss *)
Section handlers.
Context (env : nat → DispatchDB → DispatchDB) (instance_ok : string → json → bool) (cfg : Config).

Definition isGraphAttempt (runID : uuid) : Svc (DpErr + bool) :=
  store (tx_asks (λ d, IsGraphAttempt (dp_wk d) runID)).
(** [errors.Is(err, runtime.ErrInvalidTransition)] or the work store's. *)
Definition invalid_transition (e : DpErr) : bool :=
  match e with
  | errDB (Runtime.ErrInvalidTransition _) => true
  | errWork (WErrInvalidTransition _) => true
  | errWork (WErrDB (Runtime.ErrInvalidTransition _)) => true
  | _ => false
  end.
Definition customer_failure : json :=
  JObj [("code", JStr "execution_failed"); ("message", JStr "This work could not be completed.")].
Definition operator_failure (reason turnID : string) : json :=
  JObj [("reason", JStr reason); ("turnId", JStr turnID)].
Definition settle_turn (isGraph : bool) (now : timestamp) (turnID reason : string) : DpTx RunState :=
  if isGraph then
    lift_wk (CompleteTurn now turnID reason (Some customer_failure) (Some (operator_failure reason turnID)))
  else lift_drt (SettleTurnAndAdvance now turnID reason).

(** The run's resulting state, none when another path had settled the turn. *)
Definition commitTurnTerminal (now : timestamp) (a : Assignment) (reason : string)
    : Svc (DpErr + option RunState) :=
  g ← isGraphAttempt (as_RunID a);
  match g with
  | inl e => mret (inl e)
  | inr isGraph =>
      rs ← store (settle_turn isGraph now (as_TurnID a) reason);
      match rs with
      | inl e =>
          if negb (invalid_transition e) then mret (inl e)
          else
            t ← store (TerminalizeAssignment now (as_TurnID a));
            match t with inl e => mret (inl e) | inr _ => mret (inr None) end
      | inr st =>
          t ← store (TerminalizeAssignment now (as_TurnID a));
          match t with inl e => mret (inl e) | inr _ => mret (inr (Some st)) end
      end
  end.
Definition outcome_reason (o : Outcome) : string :=
  match o with
  | OutcomeCompleted => "completed" | OutcomeFailed => "failed" | OutcomeAborted => "aborted"
  | OutcomeUnspecified => "failed"
  end.
Definition terminalizeTurnOutcome (now : timestamp) (a : Assignment) (o : Outcome)
    : Svc (DpErr + option RunState) := commitTurnTerminal now a (outcome_reason o).
Definition terminalizeTurnLoss (now : timestamp) (a : Assignment) : Svc (option DpErr) :=
  r ← commitTurnTerminal now a "aborted";
  mret (match r with inl e => Some e | inr _ => None end).

(** The UID is released only when the worker took the SessionEnd. *)
Definition sendSessionEnd (now : timestamp) (p : nat) (a : Assignment) : Svc () :=
  sid ← store (SessionIDForRun (as_RunID a));
  match sid with
  | inl _ => mret ()
  | inr sessionID =>
      u ← store (SessionUID sessionID);
      match u with
      | inl _ => mret ()
      | inr uid =>
          ok ← send p (CSessionEnd sessionID uid uid);
          if ok : bool then store (ReleaseSessionUID now sessionID);; mret () else mret ()
      end
  end.
Definition finishTurnOutcome (now : timestamp) (a : Assignment) (runState : option RunState) : Svc () :=
  s ← sv_get;
  match pool_get (as_PoolID a) (as_WorkerID a) (sv_pool s) with
  | Some p =>
      update_conn p releaseTurn;;
      (if match runState with Some st => IsTerminalRun st | None => false end
       then sendSessionEnd now p a else mret ())
  | None => mret ()
  end;;
  kickReconciler.

Definition handleWorkerLoss (now : timestamp) (p : nat) : Svc () :=
  w ← conn p;
  match w with
  | None => mret ()
  | Some w =>
      if no_turn w then mret ()
      else
        r ← store (FenceWorkerGenerationIf (wc_poolID w) (wc_workerID w) (wc_gen w));
        match r with
        | inl _ => mret ()
        | inr a => terminalizeTurnLoss now a;; mret ()
        end
  end.

(** * Worker events *)
Definition ack (p : nat) (turnID : uuid) (through : Z) : Svc (option DpErr) :=
  ok ← send p (CEventAck turnID through);
  mret (if ok : bool then None else Some errSend).
Definition appendAfterTerminal (now : timestamp) (turnID : uuid) (te : TurnEvent) (poolID workerID : string)
    : Svc (option DpErr) :=
  let '(kind, payload, _, _) := turnEventToRuntime te in
  if String.eqb kind EmptyString then mret None
  else
    r ← store (AppendAfterTerminalEvent now turnID (te_Sequence te) kind payload poolID workerID);
    mret (match r with
          | inl ErrNotFound => None
          | inl e => Some e
          | inr _ => None
          end).
Definition after_terminal_and_ack (now : timestamp) (te : TurnEvent) (p : nat) (w : workerConn)
    : Svc (option DpErr) :=
  r ← appendAfterTerminal now (te_TurnId te) te (wc_poolID w) (wc_workerID w);
  match r with
  | Some e => mret (Some e)
  | None => ack p (te_TurnId te) (te_Sequence te)
  end.
(** Contract-invalid reports are permanent: acknowledged all the same. *)
Definition permanent_report_error (e : DpErr) : bool :=
  match e with
  | errWork (WErrConflict _) | errWork (WErrInvalidInput _) | errWork (WErrInvalidTransition _)
  | errWork WErrNotFound => true
  | _ => false
  end.
Definition record_completion (now : timestamp) (turnID : uuid) (k : TurnEventKind) : Svc (option DpErr) :=
  match k with
  | StepCompletion report =>
      r ← store (lift_wk (RecordCompletionReport instance_ok now turnID report));
      mret (match r with
            | inl e => if permanent_report_error e then None else Some e
            | inr _ => None
            end)
  | _ => mret None
  end.

(** What follows the durable append, replayed or not: the completion report, the
    terminal outcome, the acknowledgement, and only then the cleanup. *)
Definition event_committed (now : timestamp) (te : TurnEvent) (p : nat) (a : Assignment) : Svc (option DpErr) :=
  rec ← record_completion now (te_TurnId te) (te_Kind te);
  match rec with
  | Some e => mret (Some e)
  | None =>
      match te_Kind te with
      | WorkerOutcome o =>
          out ← terminalizeTurnOutcome now a o;
          match out with
          | inl e => mret (Some e)
          | inr runState =>
              sent ← ack p (te_TurnId te) (te_Sequence te);
              match sent with
              | Some e => mret (Some e)
              | None => finishTurnOutcome now a runState;; mret None
              end
          end
      | _ => ack p (te_TurnId te) (te_Sequence te)
      end
  end.
Definition handleTurnEvent (now : timestamp) (te : TurnEvent) (p : nat) : Svc (option DpErr) :=
  let turnID := te_TurnId te in
  let seq := te_Sequence te in
  cw ← conn p;
  match cw with
  | None => mret (Some errSend)
  | Some w =>
      if String.eqb turnID EmptyString then mret (Some errProtocol)
      else
        resolved ← store (ResolveActiveAssignment turnID);
        match resolved with
        | inl ErrAssignmentNotActive => after_terminal_and_ack now te p w
        | inl e => mret (Some e)
        | inr a =>
            if negb (String.eqb (as_WorkerID a) (wc_workerID w)) || negb (as_FencingGeneration a =? wc_gen w)
            then mret None
            else
              let '(kind, payload, isOutcome, isCompletion) := turnEventToRuntime te in
              if String.eqb kind EmptyString && negb isOutcome && negb isCompletion then ack p turnID seq
              else
                applied ← store (AppendTurnEvent now turnID seq kind payload);
                match applied with
                | inl ErrAssignmentNotActive => after_terminal_and_ack now te p w
                | inl e => mret (Some e)
                | inr _ =>
                    event_committed now te p a
                end
        end
  end.

(** * Cancellation, leases, node timeouts *)
Definition CancelTurn (now : timestamp) (order : list string) (turnID : uuid) (reason : AbortReason)
    (msg : string) : Svc () :=
  r ← store (ResolveActiveAssignment turnID);
  match r with
  | inl _ => mret ()
  | inr a =>
      s ← sv_get;
      match activeConn turnID order (sv_pool s) with
      | Some p => send p (CAbortTurn turnID reason msg);; mret ()
      | None => mret ()
      end;;
      f ← store (FenceWorkerGenerationIf (as_PoolID a) (as_WorkerID a) (as_FencingGeneration a));
      match f with
      | inl _ => mret ()
      | inr _ => terminalizeTurnLoss now a;; mret ()
      end
  end.
(** One expired connection, as [expireLeases] treats it. *)
Definition expire_conn (now : timestamp) (p : nat) : Svc () :=
  cw ← conn p;
  match cw with
  | None => mret ()
  | Some w =>
      if now - cf_LeaseInterval cfg <? lastSeenAt w then mret ()
      else if no_turn w then mret ()
      else
        r ← store (FenceWorkerGenerationIf (wc_poolID w) (wc_workerID w) (wc_gen w));
        match r with
        | inl _ => mret ()
        | inr a => terminalizeTurnLoss now a;; update_conn p markClosed
        end
  end.
Fixpoint for_each {A} (f : A → Svc ()) (l : list A) : Svc () :=
  match l with [] => mret () | x :: l' => f x;; for_each f l' end.
Definition expireLeases (now : timestamp) (order : list string) : Svc () :=
  s ← sv_get; for_each (expire_conn now) (pool_all order (sv_pool s)).
(** An armed node timeout fires. *)
Definition fire_timer (now : timestamp) (order : list string) (i : nat) : Svc () :=
  s ← sv_get;
  match sv_timers s !! i with
  | None => mret ()
  | Some (turnID, _) =>
      sv_modify (with_timers (delete i (sv_timers s)));;
      CancelTurn now order turnID AbortWorkflowTimeout "workflow node timeout"
  end.

(** * Assignment *)

(** The durable assignment, then the message; once the send was attempted its delivery
    is ambiguous, so a failure fences the assignment and settles the turn as lost.
    Returns whether delivery was attempted. *)
Definition create_and_send (now : timestamp) (poolID : uuid) (p : nat) (w : workerConn)
    (x : AssignmentInput) (m : AssignTurn) : Svc (bool * option DpErr) :=
  c ← store (CreateAssignment now x);
  match c with
  | inl e => mret (false, Some e)
  | inr _ =>
      ok ← send p (CAssignTurn m);
      if ok : bool then mret (true, None)
      else
        f ← store (FenceWorkerGenerationIf poolID (wc_workerID w) (wc_gen w));
        match f with
        | inl _ => mret (true, Some errSend)
        | inr a => terminalizeTurnLoss now a;; mret (true, Some errSend)
        end
  end.
Definition allocate (now : timestamp) (sessionID : string) : Svc (DpErr + Z) :=
  call (AllocateSessionUID env (fixed now) (fixed now) sessionID (cf_SessionUIDBase cfg)
          (cf_SessionUIDRange cfg) (cf_SessionUIDGrace cfg)).

Definition assign (now : timestamp) (turn : Turn) (run : Run) (poolID : uuid) (p : nat)
    : Svc (bool * option DpErr) :=
  cw ← conn p;
  match cw, cf_DefaultModel cfg with
  | None, _ => mret (false, Some errSend)
  | _, None => mret (false, Some errNoModel)
  | Some w, Some model =>
      if String.eqb (mc_Id model) EmptyString then mret (false, Some errNoModel)
      else
        u ← allocate now (run_SessionID run);
        match u with
        | inl e => mret (false, Some e)
        | inr uid =>
            create_and_send now poolID p w
              {| in_TurnID := turn_ID turn; in_RunID := run_ID run; in_PoolID := poolID;
                 in_WorkerID := wc_workerID w; in_FencingGeneration := wc_gen w;
                 in_AttemptID := run_ID run; in_ScopeIdentityID := run_ScopeIdentityID run;
                 in_AgentPoolKey := poolID; in_SessionID := run_SessionID run;
                 in_SandboxUID := uid; in_SandboxGID := uid;
                 in_ModelPermission := GoodJSON (model_config_json model);
                 in_CapabilityRequest := GoodJSON (JArr []); in_ToolVersionSnapshot := GoodJSON (JArr []);
                 in_WorkItemID := EmptyString; in_NodeExecutionID := EmptyString |}
              {| tm_TurnId := turn_ID turn; tm_SessionId := run_SessionID run;
                 tm_SandboxId := run_SessionID run; tm_Uid := uid; tm_Gid := uid;
                 tm_Persona := EmptyString; tm_Model := model; tm_WorkspaceTools := false;
                 tm_ScopeIdentityId := run_ScopeIdentityID run; tm_Message := EmptyString;
                 tm_RunId := run_ID run; tm_WorkItemId := EmptyString; tm_NodeExecutionId := EmptyString;
                 tm_NodeKey := EmptyString; tm_Context := None; tm_CompletionOutcomes := [];
                 tm_CompletionOutputSchema := EmptyString; tm_Skills := []; tm_Materializations := [] |}
        end
  end.

Definition int32_ok (z : Z) : bool := (-2147483648 <=? z) && (z <=? 2147483647).
(** [json.Unmarshal(node.ModelSnapshot, &model)] into 32-bit token counts. *)
Definition snapshot_model (m : option modelSnapshot) : option ModelConfig :=
  match m with
  | None => None
  | Some m =>
      if int32_ok (ms_ContextWindow m) && int32_ok (ms_MaxOutputTokens m) &&
         negb (String.eqb (ms_ID m) EmptyString)
      then Some {| mc_Id := ms_ID m; mc_Api := ms_API m; mc_ContextWindow := ms_ContextWindow m;
                   mc_MaxOutputTokens := ms_MaxOutputTokens m; mc_ThinkingLevel := ms_ThinkingLevel m |}
      else None
  end.
Definition assignGraph (now : timestamp) (turn : Turn) (run : Run) (node : NodeExecution) (poolID : uuid)
    (p : nat) : Svc (bool * option DpErr) :=
  cw ← conn p;
  match cw with
  | None => mret (false, Some errSend)
  | Some w =>
      c ← store (lift_wk (GetAssignmentContext (ne_ID node)));
      match c with
      | inl e => mret (false, Some e)
      | inr assignment =>
          match snapshot_model (ne_ModelSnapshot node) with
          | None => mret (false, Some errInvalidModelSnapshot)
          | Some model =>
              u ← allocate now (run_SessionID run);
              match u with
              | inl e => mret (false, Some e)
              | inr uid =>
                  r ← create_and_send now poolID p w
                    {| in_TurnID := turn_ID turn; in_RunID := run_ID run; in_PoolID := poolID;
                       in_WorkerID := wc_workerID w; in_FencingGeneration := wc_gen w;
                       in_AttemptID := run_ID run; in_ScopeIdentityID := run_ScopeIdentityID run;
                       in_AgentPoolKey := ac_AgentPoolKey assignment; in_SessionID := run_SessionID run;
                       in_SandboxUID := uid; in_SandboxGID := uid;
                       in_ModelPermission :=
                         match ne_ModelSnapshot node with
                         | Some m => GoodJSON (model_snapshot_json m) | None => NoJSON
                         end;
                       in_CapabilityRequest := GoodJSON (capabilities_json (ne_CapabilitiesSnapshot node));
                       in_ToolVersionSnapshot := GoodJSON (ac_ToolPins assignment);
                       in_WorkItemID := ac_WorkItemID assignment; in_NodeExecutionID := ne_ID node |}
                    {| tm_TurnId := turn_ID turn; tm_SessionId := run_SessionID run;
                       tm_SandboxId := run_SessionID run; tm_Uid := uid; tm_Gid := uid;
                       tm_Persona := ac_Persona assignment; tm_Model := model;
                       tm_WorkspaceTools := ne_WorkspaceTools node;
                       tm_ScopeIdentityId := run_ScopeIdentityID run;
                       tm_Message := default EmptyString (ne_Prompt node); tm_RunId := run_ID run;
                       tm_WorkItemId := ac_WorkItemID assignment; tm_NodeExecutionId := ne_ID node;
                       tm_NodeKey := ne_NodeKey node; tm_Context := Some (ne_Context node);
                       tm_CompletionOutcomes := ac_AllowedOutcomes assignment;
                       tm_CompletionOutputSchema := ac_OutputSchema assignment;
                       tm_Skills := ac_Skills assignment;
                       tm_Materializations := ac_Materializations assignment |};
                  match r, ne_TimeoutMS node with
                  | (_, None), Some ms =>
                      s ← sv_get; sv_modify (with_timers (sv_timers s ++ [(turn_ID turn, ms)]));; mret r
                  | _, _ => mret r
                  end
              end
          end
      end
  end.

(** * The reconciler *)
Definition rt_call {A} (m : RtTx A) : Svc (DpErr + A) := store (lift_drt m).
Definition startNextStep (now : timestamp) (runID : uuid) : Svc (option DpErr) :=
  st ← rt_call (NextPendingStep runID);
  match st with
  | inl (errDB Runtime.ErrNotFound) =>
      r ← rt_call (SucceedRun now runID);
      mret (match r with inl e => if invalid_transition e then None else Some e | inr _ => None end)
  | inl e => mret (Some e)
  | inr step =>
      r ← rt_call (StartStep now (step_ID step));
      mret (match r with inl e => if invalid_transition e then None else Some e | inr _ => None end)
  end.
Definition runningStepID (runID : uuid) : Svc (DpErr + uuid) :=
  r ← store (tx_asks (λ d, ListSteps (dp_rt d) runID));
  mret (match r with
        | inl e => inl e
        | inr l => match head (filter (λ x, step_State x = StepRunning) l) with
                   | Some x => inr (step_ID x)
                   | None => inl (errDB Runtime.ErrNotFound)
                   end
        end).
Definition release_failed (p : nat) (turnID : uuid) (deliveryAttempted : bool) : Svc () :=
  update_conn p (λ w, snd (releaseAssignmentFailure turnID deliveryAttempted w));; kickReconciler.
(** The turn is handed to an idle worker of the run's pool, if there is one. *)
Definition hand_out (order : list string) (run : Run) (turn : Turn)
    (assign_to : uuid → nat → Svc (bool * option DpErr)) : Svc () :=
  held ← store (ResolveActiveAssignment (turn_ID turn));
  match held with
  | inr _ => mret ()
  | inl _ =>
      pr ← store (PoolForRun (run_ID run));
      match pr with
      | inl _ => mret ()
      | inr poolID =>
          s ← sv_get;
          let '(picked, pool') := pickIdle poolID (turn_ID turn) order (sv_pool s) in
          sv_modify (with_pool pool');;
          match picked with
          | None => mret ()
          | Some p =>
              r ← assign_to poolID p;
              match r with
              | (_, None) => mret ()
              | (attempted, Some _) => release_failed p (turn_ID turn) attempted
              end
          end
      end
  end.
Definition dispatchGraphRun (now : timestamp) (order : list string) (run : Run) : Svc () :=
  r ← store (lift_wk (PrepareNode now (run_ID run)));
  match r with
  | inr (node, Some turn, true) =>
      hand_out order run turn (λ poolID p, assignGraph now turn run node poolID p)
  | _ => mret ()
  end.

(** The running step, started when there is none. *)
Definition ensure_step (now : timestamp) (runID : uuid) : Svc (option uuid) :=
  r ← runningStepID runID;
  match r with
  | inr id => mret (Some id)
  | inl _ =>
      e ← startNextStep now runID;
      match e with
      | Some _ => mret None
      | None =>
          r ← runningStepID runID;
          mret (match r with inr id => Some id | inl _ => None end)
      end
  end.
(** The active turn, started when the step never had one and a model is configured. *)
Definition ensure_turn (now : timestamp) (runID stepID : uuid) : Svc (option Turn) :=
  r ← rt_call (ActiveTurn runID);
  match r with
  | inr t => mret (Some t)
  | inl (errDB Runtime.ErrNotFound) =>
      h ← store (tx_asks (λ d, HasTurnForStep (dp_rt d) stepID));
      match h, cf_DefaultModel cfg with
      | inr true, _ => mret None
      | _, None => mret None
      | _, Some model =>
          if String.eqb (mc_Id model) EmptyString then mret None
          else
            t ← rt_call (StartTurn now runID stepID (mc_Id model));
            mret (match t with inr t => Some t | inl _ => None end)
      end
  | inl _ => mret None
  end.
Definition dispatchRun (now : timestamp) (order : list string) (run : Run) : Svc () :=
  st ← ensure_step now (run_ID run);
  match st with
  | None => mret ()
  | Some stepID =>
      t ← ensure_turn now (run_ID run) stepID;
      match t with
      | None => mret ()
      | Some turn => hand_out order run turn (λ poolID p, assign now turn run poolID p)
      end
  end.

Definition start_pending (now : timestamp) (order : list string) (run : Run) : Svc () :=
  g ← isGraphAttempt (run_ID run);
  match g with
  | inl _ => mret ()
  | inr true => dispatchGraphRun now order run
  | inr false =>
      r ← rt_call (StartRun now (run_ID run));
      match r with
      | inl e => if invalid_transition e then startNextStep now (run_ID run);; mret () else mret ()
      | inr _ => startNextStep now (run_ID run);; mret ()
      end
  end.
Definition dispatch_running (now : timestamp) (order : list string) (run : Run) : Svc () :=
  g ← isGraphAttempt (run_ID run);
  match g with
  | inl _ => mret ()
  | inr true => dispatchGraphRun now order run
  | inr false => dispatchRun now order run
  end.
Definition list_runs (st : RunState) : Svc (DpErr + list Run) :=
  store (tx_asks (λ d, ListRunsByState (dp_rt d) st)).

Definition load_capacity : DpTx (gmap string WorkspaceCapacityState) :=
  d ← tx_get; tx_opt (LoadWorkspaceCapacityStates d) errScan.
Definition syncWorkspaceCapacityState : Svc (option DpErr) :=
  r ← store load_capacity;
  match r with
  | inl e => mret (Some e)
  | inr states =>
      sv_modify (λ s, with_pool (snd (syncWorkspaceCapacity states (sv_pool s))) s);; mret None
  end.
Definition syncWorkspaceCapacityStateIfDue (now : timestamp) : Svc () :=
  s ← sv_get;
  if negb (sv_nextCapacitySweep s =? 0) && (now <? sv_nextCapacitySweep s) then mret ()
  else
    e ← syncWorkspaceCapacityState;
    match e with
    | Some _ => mret ()
    | None => sv_modify (with_sweep (now + 30 * second))
    end.

Definition reconcileOnce (now : timestamp) (order : list string) : Svc () :=
  syncWorkspaceCapacityStateIfDue now;;
  pending ← list_runs RunPending;
  match pending with
  | inl _ => mret ()
  | inr pending =>
      for_each (start_pending now order) pending;;
      running ← list_runs RunRunning;
      match running with
      | inl _ => mret ()
      | inr running => for_each (dispatch_running now order) running
      end
  end.

(** * Starting the service *)
Definition max_generation : DpTx Z := d ← tx_get; tx_opt (MaxFencingGeneration d) errScan.
Definition SeedGeneration (now : timestamp) : Svc (option DpErr) :=
  m ← store max_generation;
  match m with
  | inl e => mret (Some e)
  | inr max =>
      r ← store load_capacity;
      match r with
      | inl e => mret (Some e)
      | inr states =>
          sv_modify (λ s, with_sweep (now + 30 * second)
                            (with_pool (snd (syncWorkspaceCapacity states (sv_pool s))) (with_gen max s)));;
          mret None
      end
  end.

(** * The worker stream *)
Definition fenceOldGeneration (now : timestamp) (old : option nat) (poolID workerID : string)
    : Svc (option DpErr) :=
  let close := match old with Some p => update_conn p markClosed | None => mret () end in
  r ← store (FenceWorkerGeneration poolID workerID);
  match r with
  | inr a =>
      t ← terminalizeTurnLoss now a;
      close;; mret t
  | inl ErrNotFound => close;; mret None
  | inl e => close;; mret (Some e)
  end.
Definition ackReconnectWatermark (p : nat) (poolID workerID : string) : Svc () :=
  r ← store (PriorAssignmentForWorker poolID workerID);
  match r with
  | inl _ => mret ()
  | inr a => send p (CEventAck (as_TurnID a) (as_HighestAppliedSequence a));; mret ()
  end.

Inductive stream_error := Unauthenticated | PermissionDenied | InvalidArgument | FailedPrecondition
  | Unavailable | StreamFailed (e : DpErr).
Definition uint64_mod : Z := 18446744073709551616.
Definition int64_of (z : Z) : Z := if z <=? int8_max then z else z - uint64_mod.
(** A connecting worker, up to the receive loop: the certificate decides who it is, the
    Hello must agree with it, and the previous generation is fenced before Welcome.
    [p] is the new connection's address. *)
Definition work_connect (now : timestamp) (p : nat) (id : option Identity) (helloPool helloWorker : string)
    : Svc (option stream_error) :=
  match id with
  | None => mret (Some Unauthenticated)
  | Some id =>
      if negb (bool_decide (id_Kind id = KindSupervisor)) then mret (Some PermissionDenied)
      else if negb (String.eqb helloPool (id_PoolUID id)) || negb (String.eqb helloWorker (id_WorkerID id))
      then mret (Some PermissionDenied)
      else
        rp ← store (ResolvePoolBySpiffePrefix (id_SPIFFEID id));
        match rp with
        | inl _ => mret (Some PermissionDenied)
        | inr pool =>
            s ← sv_get;
            let gen := (sv_gen s + 1) mod uint64_mod in
            let '(old, pool') := pool_add p (new_conn (po_ID pool) (id_WorkerID id) (int64_of gen) now) (sv_pool s) in
            sv_modify (λ s, with_pool pool' (with_gen gen s));;
            f ← fenceOldGeneration now old (po_ID pool) (id_WorkerID id);
            match f with
            | Some e => mret (Some (StreamFailed e))
            | None =>
                ok ← send p (CWelcome (int64_of gen));
                if ok : bool then ackReconnectWatermark p (id_PoolUID id) (id_WorkerID id);; mret None
                else mret (Some (StreamFailed errSend))
            end
        end
  end.
(** One message of the receive loop; an error ends the stream. *)
Inductive WorkerMessage :=
| MReady
| MWorkspaceStatus (st : option WorkspaceStatus)
| MHeartbeat
| MTurnEvent (te : TurnEvent)
| MTokenDelta.
Definition work_message (now : timestamp) (order : list string) (p : nat) (m : WorkerMessage)
    : Svc (option stream_error) :=
  update_conn p (set_lastSeen now);;
  match m with
  | MReady =>
      cw ← conn p;
      match cw with
      | None => mret (Some FailedPrecondition)
      | Some w =>
          let '((granted, valid), w') := grantCreditIfIdle now w in
          update_conn p (λ _, w');;
          if negb valid then mret (Some FailedPrecondition)
          else (if granted : bool then kickReconciler else mret ());; mret None
      end
  | MWorkspaceStatus st =>
      cw ← conn p;
      match cw, validateWorkspaceStatus st, st with
      | Some w, inr ratio, Some ws =>
          r ← store (observe_capacity now (wc_poolID w) (ws_FreeBytes ws) (ws_CapacityBytes ws) ratio);
          match r with
          | inl _ => mret (Some Unavailable)
          | inr c =>
              s ← sv_get;
              let '(restored, pool') :=
                pool_applyWorkspaceStatus order p (wc_poolID w) now (wcs_FreeBytes c) (wcs_CapacityBytes c)
                  (wcs_FreeRatio c) (wcs_Warning c) (freshCreditGated c) (sv_pool s) in
              sv_modify (with_pool pool');;
              (if restored : bool then kickReconciler else mret ());; mret None
          end
      | _, _, _ => mret (Some InvalidArgument)
      end
  | MHeartbeat => mret None
  | MTurnEvent te => handleTurnEvent now te p;; mret None
  | MTokenDelta => mret None
  end.
(** The deferred teardown of the handler. *)
Definition work_teardown (now : timestamp) (p : nat) : Svc () :=
  update_conn p markClosed;;
  sv_modify (λ s, with_pool (pool_remove p (sv_pool s)) s);;
  handleWorkerLoss now p.
End handlers.
