(* ===== verification/DispatchServiceFacts.v ===== *)
(** The dispatch service: a turn is delivered at most once whatever fails, an event is
    acknowledged only once it is durable, a stale connection changes nothing, and a
    worker is welcomed only after its previous assignment is fenced. *)
From Stdlib Require Import QArith Qabs Ascii.
From S2P Require Import Prelude Json Runtime RuntimeFacts WorkerPool WorkData WorkGraph WorkAssign Spiffe.
From S2P Require Import Dispatch DispatchFacts DispatchUid DispatchEvents DispatchService.
#[local] Open Scope Z_scope.

(** * How the service's state evolves *)
Definition delivered_turns (l : list (nat * ControlMessage)) : list uuid :=
  omap (λ x, match snd x with CAssignTurn m => Some (tm_TurnId m) | _ => None end) l.
Lemma delivered_app l1 l2 : delivered_turns (l1 ++ l2) = delivered_turns l1 ++ delivered_turns l2.
Proof. apply omap_app. Qed.

(** Assignments only move forward, messages are only added, and the turns delivered in
    between are distinct and were assigned in between. *)
Record svc_evolves (s s' : Service) : Prop := mkEvolves {
  se_rows : asg_evolves (turn_assignments (sv_db s)) (turn_assignments (sv_db s'));
  se_sent : ∃ l, sv_sent s' = sv_sent s ++ l ∧ NoDup (delivered_turns l) ∧
    ∀ k, k ∈ delivered_turns l → turn_assignments (sv_db s) !! k = None ∧
      is_Some (turn_assignments (sv_db s') !! k) }.
Lemma asg_evolves_is_Some t t' k : asg_evolves t t' → is_Some (t !! k) → is_Some (t' !! k).
Proof. intros H [a Ha]. destruct (H _ _ Ha) as (a' & ? & _). eauto. Qed.
Lemma asg_evolves_None t t' k : asg_evolves t t' → t' !! k = None → t !! k = None.
Proof. intros H Hn. destruct (t !! k) as [a|] eqn:E; [|done]. destruct (H _ _ E) as (? & ? & _). congruence. Qed.
#[export] Instance svc_evolves_preorder : PreOrder svc_evolves.
Proof.
  split.
  - intros s. constructor; [done|]. exists []. rewrite app_nil_r. split_and!; [done|constructor|].
    intros k Hk. by apply not_elem_of_nil in Hk.
  - intros s1 s2 s3 [R1 (l1 & E1 & N1 & K1)] [R2 (l2 & E2 & N2 & K2)]. constructor; [by etrans|].
    exists (l1 ++ l2). rewrite E2, E1, app_assoc, delivered_app. split_and!; [done| |].
    + apply NoDup_app. split_and!; [done| |done]. intros k [_ [a Ha]]%K1 [Hn _]%K2. congruence.
    + intros k [[? ?]%K1|[? ?]%K2]%elem_of_app; split; eauto using asg_evolves_is_Some, asg_evolves_None.
Qed.
Lemma svc_evolves_same s s' :
  asg_evolves (turn_assignments (sv_db s)) (turn_assignments (sv_db s')) →
  sv_sent s' = sv_sent s → svc_evolves s s'.
Proof.
  intros H E. constructor; [done|]. exists []. rewrite app_nil_r. split_and!; [done|constructor|].
  intros k Hk. by apply not_elem_of_nil in Hk.
Qed.

Definition keeps {A} (m : Svc A) : Prop := ∀ s, svc_evolves s (m s).2.
Lemma svc_keeps_ret {A} (a : A) : keeps (mret a).
Proof. intros s. reflexivity. Qed.
Lemma svc_keeps_bind {A B} (m : Svc A) (k : A → Svc B) :
  keeps m → (∀ a, keeps (k a)) → keeps (m ≫= k).
Proof.
  intros Hm Hk s. unfold mbind, svc_bind. specialize (Hm s). destruct (m s) as [a s'].
  etrans; [exact Hm|apply Hk].
Qed.
Lemma svc_keeps_get : keeps sv_get.
Proof. intros s. reflexivity. Qed.
Lemma keeps_conn p : keeps (conn p).
Proof. intros s. reflexivity. Qed.
Lemma svc_keeps_modify f : (∀ s, sv_db (f s) = sv_db s ∧ sv_sent (f s) = sv_sent s) → keeps (sv_modify f).
Proof. intros H s. destruct (H s) as [E1 E2]. apply svc_evolves_same; simpl; by rewrite ?E1. Qed.
Lemma keeps_update_conn p f : keeps (update_conn p f).
Proof. apply svc_keeps_modify. intros s. by destruct (wp_heap (sv_pool s) !! p). Qed.
Lemma keeps_send p m : (∀ a, m ≠ CAssignTurn a) → keeps (send p m).
Proof.
  intros Hm s. unfold send. destruct (wp_heap (sv_pool s) !! p) as [w|]; [|reflexivity].
  destruct (wc_closed w); [reflexivity|].
  assert (∀ f, svc_evolves s (with_sent (sv_sent s ++ [(p, m)]) f s)) as Hadd.
  { intros f. constructor; [done|]. exists [(p, m)]. simpl.
    destruct m; try (split_and!; [done|constructor|intros k Hk; by apply not_elem_of_nil in Hk]).
    by destruct (Hm m). }
  destruct (sv_sends s) as [|[] f]; simpl; apply Hadd.
Qed.
Lemma keeps_call {A} (m : DispatchDB → (DpErr + A) * DispatchDB) :
  (∀ d, asg_evolves (turn_assignments d) (turn_assignments (m d).2)) → keeps (call m).
Proof.
  intros Hm s. unfold call. specialize (Hm (sv_db s)).
  destruct (m (sv_db s)) as [r d] eqn:E. simpl in Hm.
  destruct (sv_faults s) as [|[] f]; simpl; apply svc_evolves_same; simpl; rewrite ?E; done.
Qed.
(** Transactions that only move assignments forward. *)
Definition forward {A} (m : DpTx A) : Prop :=
  ∀ d a d', m d = inr (a, d') → asg_evolves (turn_assignments d) (turn_assignments d').
Lemma keeps_store {A} (m : DpTx A) : forward m → keeps (store m).
Proof.
  intros H. apply keeps_call. intros d. unfold run_tx. destruct (m d) as [e|[a d']] eqn:E; simpl; [done|].
  by eapply H.
Qed.
Lemma forward_lift_wk {A} (m : WkTx A) : forward (lift_wk m).
Proof. intros d a d'. unfold lift_wk. destruct (m (dp_wk d)) as [|[? ?]]; [done|]. by intros [= <- <-]. Qed.
Lemma forward_lift_drt {A} (m : RtTx A) : forward (lift_drt m).
Proof. intros d a d'. unfold lift_drt. destruct (m (dp_rt d)) as [|[? ?]]; [done|]. by intros [= <- <-]. Qed.
Lemma forward_asks {A} (f : DispatchDB → A) : forward (tx_asks f).
Proof. intros d a d' H. inv_tx. done. Qed.
(** A transaction that only reads: [d ← tx_get; ...] ending in a lookup. *)
Lemma forward_read {A} (m : DpTx A) : (∀ d a d', m d = inr (a, d') → d' = d) → forward m.
Proof. intros H d a d' E%H. by subst. Qed.
Lemma forward_step {A} (m : DpTx A) (l : A → label) :
  (∀ d a d', m d = inr (a, d') → dispatch_step (l a) d d') → forward m.
Proof. intros H d a d' E%H. by apply step_assignments in E as [? _]. Qed.
#[export] Hint Resolve svc_keeps_ret svc_keeps_get keeps_conn keeps_update_conn keeps_store forward_lift_wk forward_lift_drt
  forward_asks : iterabase.
Ltac read_only := apply forward_read; intros ? ? ? H; unfold max_generation, load_capacity in H; inv_tx; done.
Lemma forward_Resolve k : forward (ResolveActiveAssignment k).
Proof. unfold ResolveActiveAssignment. read_only. Qed.
Lemma forward_SessionIDForRun k : forward (SessionIDForRun k).
Proof. unfold SessionIDForRun. read_only. Qed.
Lemma forward_SessionUID k : forward (SessionUID k).
Proof. unfold SessionUID. read_only. Qed.
Lemma forward_PoolForRun k : forward (PoolForRun k).
Proof. unfold PoolForRun. read_only. Qed.
Lemma forward_ResolvePool k : forward (ResolvePoolBySpiffePrefix k).
Proof. unfold ResolvePoolBySpiffePrefix. read_only. Qed.
Lemma forward_Prior p w : forward (PriorAssignmentForWorker p w).
Proof. unfold PriorAssignmentForWorker. read_only. Qed.
Lemma forward_max_generation : forward max_generation.
Proof. read_only. Qed.
Lemma forward_load_capacity : forward load_capacity.
Proof. read_only. Qed.
Lemma forward_Create now x : forward (CreateAssignment now x).
Proof. apply (forward_step _ (λ _, LAssign (in_TurnID x))). intros. by eapply SCreate. Qed.
Lemma forward_Fence p w : forward (FenceWorkerGeneration p w).
Proof. apply (forward_step _ (λ _, LOther)). intros. by eapply SFence. Qed.
Lemma forward_FenceIf p w g : forward (FenceWorkerGenerationIf p w g).
Proof. apply (forward_step _ (λ _, LOther)). intros. by eapply SFenceIf. Qed.
Lemma forward_Terminalize now k : forward (TerminalizeAssignment now k).
Proof. apply (forward_step _ (λ _, LOther)). intros. by eapply STerminalize. Qed.
Lemma forward_Append now k seq kind pl : forward (AppendTurnEvent now k seq kind pl).
Proof. apply (forward_step _ (λ _, LOther)). intros. by eapply SAppend. Qed.
Lemma forward_AppendLate now k seq kind pl p w : forward (AppendAfterTerminalEvent now k seq kind pl p w).
Proof. apply (forward_step _ (λ _, LOther)). intros. by eapply SAppendLate. Qed.
Lemma forward_Release now k : forward (ReleaseSessionUID now k).
Proof. apply (forward_step _ (λ _, LReleased now k)). intros. by eapply SRelease. Qed.
Lemma forward_observe now p f c r : forward (observe_capacity now p f c r).
Proof. apply (forward_step _ (λ _, LOther)). intros. by eapply SObserve. Qed.
#[export] Hint Resolve forward_Resolve forward_SessionIDForRun forward_SessionUID forward_PoolForRun
  forward_ResolvePool forward_Prior forward_max_generation forward_load_capacity forward_Create forward_Fence
  forward_FenceIf forward_Terminalize forward_Append forward_AppendLate forward_Release forward_observe : iterabase.

Lemma forward_settle g now k reason : forward (settle_turn g now k reason).
Proof. destruct g; eauto with iterabase. Qed.
#[export] Hint Resolve forward_settle : iterabase.

(** * Every handler evolves the state *)
Ltac keeps_step :=
  first
    [ solve [eauto with iterabase]
    | apply svc_keeps_bind; [|intros ?]
    | apply keeps_send; discriminate
    | apply svc_keeps_modify; done
    | match goal with
      | |- keeps (match ?x with _ => _ end) => destruct x eqn:?
      | |- keeps (let '(_, _) := ?x in _) => destruct x eqn:?
      end ].
Ltac keeps := repeat keeps_step.

Section handlers.
Context (env : nat → DispatchDB → DispatchDB) (instance_ok : string → json → bool) (cfg : Config).
Context (Henv : ∀ i d, steps d (env i d)).
Context (Hbase : 0 ≤ cf_SessionUIDBase cfg) (Hrange : 0 < cf_SessionUIDRange cfg < uint32_mod).

Lemma keeps_commit now a reason : keeps (commitTurnTerminal now a reason).
Proof. unfold commitTurnTerminal, isGraphAttempt. keeps. Qed.
#[local] Hint Resolve keeps_commit : iterabase.
Lemma keeps_loss now a : keeps (terminalizeTurnLoss now a).
Proof. unfold terminalizeTurnLoss. keeps. Qed.
Lemma keeps_session_end now p a : keeps (sendSessionEnd now p a).
Proof. unfold sendSessionEnd. keeps. Qed.
#[local] Hint Resolve keeps_loss keeps_session_end : iterabase.
Lemma keeps_kick : keeps kickReconciler.
Proof. apply svc_keeps_modify. done. Qed.
#[local] Hint Resolve keeps_kick : iterabase.
Lemma keeps_finish now a st : keeps (finishTurnOutcome now a st).
Proof. unfold finishTurnOutcome. keeps. Qed.
Lemma keeps_worker_loss now p : keeps (handleWorkerLoss now p).
Proof. unfold handleWorkerLoss. keeps. Qed.
Lemma keeps_ack p k seq : keeps (ack p k seq).
Proof. unfold ack. keeps. Qed.
#[local] Hint Resolve keeps_finish keeps_worker_loss keeps_ack : iterabase.
Lemma keeps_after_terminal now te p w : keeps (after_terminal_and_ack now te p w).
Proof. unfold after_terminal_and_ack, appendAfterTerminal. keeps. Qed.
Lemma keeps_record now k e : keeps (record_completion instance_ok now k e).
Proof. unfold record_completion. keeps. Qed.
#[local] Hint Resolve keeps_after_terminal keeps_record : iterabase.
Lemma keeps_committed now te p a : keeps (event_committed instance_ok now te p a).
Proof. unfold event_committed, terminalizeTurnOutcome. keeps. Qed.
#[local] Hint Resolve keeps_committed : iterabase.
Lemma keeps_turn_event now te p : keeps (handleTurnEvent instance_ok now te p).
Proof. unfold handleTurnEvent. keeps. Qed.
Lemma keeps_cancel now order k r m : keeps (CancelTurn now order k r m).
Proof. unfold CancelTurn. keeps. Qed.
#[local] Hint Resolve keeps_turn_event keeps_cancel : iterabase.
Lemma keeps_expire now p : keeps (expire_conn cfg now p).
Proof. unfold expire_conn. keeps. Qed.
Lemma keeps_for_each {A} (f : A → Svc ()) l : (∀ x, keeps (f x)) → keeps (for_each f l).
Proof. intros H. induction l; simpl; keeps; auto. Qed.
Lemma keeps_leases now order : keeps (expireLeases cfg now order).
Proof. unfold expireLeases. keeps. apply keeps_for_each, keeps_expire. Qed.
Lemma keeps_timer now order i : keeps (fire_timer now order i).
Proof. unfold fire_timer. keeps. Qed.

Lemma keeps_lost_send now poolID w :
  keeps (f ← store (FenceWorkerGenerationIf poolID (wc_workerID w) (wc_gen w));
         match f with
         | inl _ => mret (true, Some errSend)
         | inr a => terminalizeTurnLoss now a;; mret (true, Some errSend)
         end).
Proof. keeps. Qed.
(** Creating the assignment and sending it is the one place a turn is delivered. *)
Lemma keeps_create_and_send now poolID p w x m :
  in_TurnID x = tm_TurnId m → keeps (create_and_send now poolID p w x m).
Proof.
  intros Hid s. unfold create_and_send. unfold mbind at 1, svc_bind at 1.
  destruct (store (CreateAssignment now x) s) as [r s1] eqn:Ec.
  assert (svc_evolves s s1) as H1 by (change s1 with (snd (r, s1)); rewrite <- Ec; apply keeps_store, forward_Create).
  destruct r as [e|a]; [exact H1|].
  assert (turn_assignments (sv_db s) !! in_TurnID x = None ∧ is_Some (turn_assignments (sv_db s1) !! in_TurnID x) ∧
          sv_sent s1 = sv_sent s) as (Hn & Hs & Hsent).
  { unfold store, call, run_tx in Ec. destruct (CreateAssignment now x (sv_db s)) as [e|[a' d']] eqn:Ea;
      [by destruct (sv_faults s) as [|[] f]|].
    apply CreateAssignment_inr in Ea as [? -> _ _ _ _ _ _].
    destruct (sv_faults s) as [|[] f]; simplify_eq; simpl; by rewrite lookup_insert_eq. }
  unfold mbind at 1, svc_bind at 1, send.
  destruct (wp_heap (sv_pool s1) !! p) as [c|]; [|etrans; [exact H1|apply keeps_lost_send]].
  destruct (wc_closed c); [etrans; [exact H1|apply keeps_lost_send]|].
  assert (∀ f, svc_evolves s (with_sent (sv_sent s1 ++ [(p, CAssignTurn m)]) f s1)) as Hd.
  { intros f. destruct H1 as [R1 _]. constructor; [exact R1|]. exists [(p, CAssignTurn m)]. simpl. rewrite Hsent.
    split_and!; [done|apply NoDup_singleton|]. intros k ->%list_elem_of_singleton. by rewrite <- Hid. }
  destruct (sv_sends s1) as [|[] f]; [apply Hd|apply Hd|]. etrans; [apply Hd|apply keeps_lost_send].
Qed.
Lemma keeps_allocate now sid : keeps (allocate env cfg now sid).
Proof.
  unfold allocate. apply keeps_call. intros d.
  destruct (AllocateSessionUID _ _ _ _ _ _ _ d) as [r d'] eqn:E.
  apply allocate_ok in E as [[ls Hs] _]; [|done..]. by apply trace_assignments in Hs.
Qed.
#[local] Hint Resolve keeps_create_and_send keeps_allocate keeps_timer keeps_leases : iterabase.
Lemma keeps_assign now t r k p : keeps (assign env cfg now t r k p).
Proof. unfold assign. keeps. Qed.
Lemma keeps_assignGraph now t r n k p : keeps (assignGraph env cfg now t r n k p).
Proof. unfold assignGraph. keeps. Qed.
#[local] Hint Resolve keeps_assign keeps_assignGraph : iterabase.
Lemma keeps_start_step now k : keeps (startNextStep now k).
Proof. unfold startNextStep, rt_call. keeps. Qed.
#[local] Hint Resolve keeps_start_step : iterabase.
Lemma keeps_graph_run now order run : keeps (dispatchGraphRun env cfg now order run).
Proof. unfold dispatchGraphRun, hand_out, release_failed. keeps. Qed.
Lemma keeps_run now order run : keeps (dispatchRun env cfg now order run).
Proof.
  unfold dispatchRun, ensure_step, ensure_turn, runningStepID, rt_call, hand_out, release_failed. keeps.
Qed.
#[local] Hint Resolve keeps_graph_run keeps_run : iterabase.
Lemma keeps_reconcile now order : keeps (reconcileOnce env cfg now order).
Proof.
  unfold reconcileOnce, syncWorkspaceCapacityStateIfDue, syncWorkspaceCapacityState, list_runs. keeps.
  - apply keeps_for_each. intros x. unfold start_pending, isGraphAttempt, rt_call. keeps.
  - apply keeps_for_each. intros x. unfold dispatch_running, isGraphAttempt. keeps.
Qed.
Lemma keeps_seed now : keeps (SeedGeneration now).
Proof. unfold SeedGeneration. keeps. Qed.
Lemma keeps_fence_old now old k w : keeps (fenceOldGeneration now old k w).
Proof. unfold fenceOldGeneration. keeps. Qed.
#[local] Hint Resolve keeps_fence_old : iterabase.
Lemma keeps_connect now p id hp hw : keeps (work_connect now p id hp hw).
Proof. unfold work_connect, ackReconnectWatermark. keeps. Qed.
Lemma keeps_message now order p m : keeps (work_message instance_ok now order p m).
Proof. unfold work_message. keeps. Qed.
Lemma keeps_teardown now p : keeps (work_teardown now p).
Proof. unfold work_teardown. keeps. Qed.
End handlers.

(** * One store call *)
Lemma store_sent {A} (m : DpTx A) s : sv_sent (store m s).2 = sv_sent s ∧ sv_pool (store m s).2 = sv_pool s.
Proof.
  unfold store, call. destruct (run_tx m (sv_db s)) as [r d]. by destruct (sv_faults s) as [|[] f].
Qed.
Lemma store_inr {A} (m : DpTx A) s a s' : store m s = (inr a, s') → m (sv_db s) = inr (a, sv_db s').
Proof.
  unfold store, call. destruct (run_tx m (sv_db s)) as [r d] eqn:E.
  destruct (sv_faults s) as [|[] f]; intros H; simplify_eq; simpl; by apply run_tx_ok.
Qed.
(** An error other than unavailability is the transaction's own, and nothing changed. *)
Lemma store_inl {A} (m : DpTx A) s e s' :
  store m s = (inl e, s') →
  (e = errUnavailable ∧ (sv_db s' = sv_db s ∨ ∃ a, m (sv_db s) = inr (a, sv_db s'))) ∨
  (m (sv_db s) = inl e ∧ sv_db s' = sv_db s).
Proof.
  unfold store, call, run_tx. destruct (m (sv_db s)) as [e'|[a d]];
    destruct (sv_faults s) as [|[] f]; intros H; simplify_eq; simpl; eauto.
Qed.
Lemma store_keeps {A} (m : DpTx A) s r s' : forward m → store m s = (r, s') → svc_evolves s s'.
Proof. intros Hf H. change s' with (snd (r, s')). rewrite <- H. by apply keeps_store. Qed.
Lemma store_frame {A} (m : DpTx A) s r s' : store m s = (r, s') → sv_sent s' = sv_sent s ∧ sv_pool s' = sv_pool s.
Proof. intros H. change s' with (snd (r, s')). rewrite <- H. apply store_sent. Qed.
(** A read that fails or not leaves the database alone. *)
Lemma store_read {A} (m : DpTx A) s r s' :
  (∀ d a d', m d = inr (a, d') → d' = d) → store m s = (r, s') → sv_db s' = sv_db s.
Proof.
  intros Hr H. destruct r as [e|a].
  - apply store_inl in H as [[_ [?|[a Ha]]]|[_ ?]]; [done| |done]. by apply Hr in Ha.
  - apply store_inr in H. by apply Hr in H.
Qed.
Lemma resolve_read k : ∀ d a d', ResolveActiveAssignment k d = inr (a, d') → d' = d.
Proof. intros d a d' H. unfold ResolveActiveAssignment in H. inv_tx. done. Qed.

(** * Acknowledged events are durable *)
Definition durable (turnID : uuid) (seq : Z) (s : Service) : Prop :=
  ∃ a, turn_assignments (sv_db s) !! turnID = Some a ∧ seq ≤ as_HighestAppliedSequence a.
Lemma durable_keeps k seq s s' : svc_evolves s s' → durable k seq s → durable k seq s'.
Proof.
  intros [H _] (a & Ha & ?). destruct (H _ _ Ha) as (a' & ? & [_ _ ?]). exists a'. split; [done|lia].
Qed.
Lemma append_durable now k a seq kind pl d b d' :
  turn_assignments d !! k = Some a → append_sequenced now k a seq kind pl d = inr (b, d') →
  ∃ a', turn_assignments d' !! k = Some a' ∧ seq ≤ as_HighestAppliedSequence a'.
Proof.
  intros Ha [(_ & -> & ?)|(_ & _ & _ & e & v & _ & _ & _ & _ & _ & _ & _ & ->)]%append_sequenced_inr; [eauto|].
  eexists. simpl. rewrite lookup_insert_eq. by split.
Qed.
Lemma known_event te : te_Kind te ≠ UnknownEvent →
  ∃ kind pl o c, turnEventToRuntime te = (kind, pl, o, c) ∧ String.eqb kind EmptyString = false.
Proof. unfold turnEventToRuntime. destruct (te_Kind te); intros H; try done; by eexists _, _, _, _. Qed.

Lemma after_terminal_durable now te p w s r s' a :
  te_Kind te ≠ UnknownEvent → turn_assignments (sv_db s) !! te_TurnId te = Some a →
  as_PoolID a = wc_poolID w → as_WorkerID a = wc_workerID w →
  after_terminal_and_ack now te p w s = (r, s') →
  sv_sent s' = sv_sent s ∨ durable (te_TurnId te) (te_Sequence te) s'.
Proof.
  intros Hk Ha Hp Hw. destruct (known_event te Hk) as (kind & pl & o & c & Ek & Hne).
  unfold after_terminal_and_ack, appendAfterTerminal. rewrite Ek, Hne.
  unfold mbind, svc_bind. destruct (store _ s) as [x s1] eqn:E.
  destruct (store_frame _ _ _ _ E) as [Es _]. destruct x as [e|b].
  - assert (e ≠ ErrNotFound) as Hnf.
    { intros ->. apply store_inl in E as [[? _]|[E _]]; [done|].
      unfold AppendAfterTerminalEvent, mbind, tx_bind, tx_get, tx_opt in E. rewrite Ha in E. simpl in E.
      unfold bound_to in E. rewrite Hp, Hw, !String.eqb_refl in E. simpl in E.
      pose proof (append_sequenced_progress now (te_TurnId te) a (te_Sequence te) kind pl (sv_db s)) as Hpr.
      rewrite E in Hpr. destruct (Z.le_gt_cases (te_Sequence te) (as_HighestAppliedSequence a + 1)) as [Hle|Hgt].
      + by destruct (Hpr Hle) as [? [=]].
      + unfold append_sequenced in E. replace (te_Sequence te <=? _) with false in E by lia.
        apply tx_bind_inl in E as [E|(? & ? & E & _)].
        * unfold tx_require, tx_fail in E. by destruct (_ =? _).
        * apply tx_require_inr in E as [E _]. lia. }
    destruct e; try done; intros [= <- <-]; by left.
  - apply store_inr, AppendAfterTerminalEvent_inr in E as (a' & Ha' & _ & _ & E).
    apply append_durable in E; [|done]. intros H. right. eapply durable_keeps; [|exact E].
    change s' with (snd (r, s')). rewrite <- H. apply keeps_ack.
Qed.

Lemma handle_event_durable iok now te p w s r s' a :
  wp_heap (sv_pool s) !! p = Some w → te_Kind te ≠ UnknownEvent →
  turn_assignments (sv_db s) !! te_TurnId te = Some a →
  as_PoolID a = wc_poolID w → as_WorkerID a = wc_workerID w →
  handleTurnEvent iok now te p s = (r, s') →
  sv_sent s' = sv_sent s ∨ durable (te_TurnId te) (te_Sequence te) s'.
Proof.
  intros Hw Hk Ha Hp Hwk H.
  unfold handleTurnEvent in H. unfold mbind at 1, svc_bind at 1, conn in H. rewrite Hw in H.
  destruct (String.eqb (te_TurnId te) EmptyString); [injection H as <- <-; by left|].
  unfold mbind at 1, svc_bind at 1 in H.
  destruct (store (ResolveActiveAssignment _) s) as [x s1] eqn:E1.
  destruct (store_frame _ _ _ _ E1) as [Es1 _]. apply store_read in E1 as Ed1; [|apply resolve_read].
  rewrite <- Ed1 in Ha. destruct x as [e|a1].
  { assert (sv_sent s1 = sv_sent s → sv_sent s' = sv_sent s1 ∨ durable (te_TurnId te) (te_Sequence te) s' →
            sv_sent s' = sv_sent s ∨ durable (te_TurnId te) (te_Sequence te) s') as Hback
      by (intros E [?|?]; [left; congruence|by right]).
    apply Hback; [done|]. destruct e; try (injection H as <- <-; by left).
    by eapply after_terminal_durable. }
  destruct (_ || _); [injection H as <- <-; by left|].
  destruct (known_event te Hk) as (kind & pl & o & c & Ek & Hne). rewrite Ek, Hne in H. cbn [andb] in H.
  unfold mbind at 1, svc_bind at 1 in H.
  destruct (store (AppendTurnEvent _ _ _ _ _) s1) as [y s2] eqn:E2.
  destruct (store_frame _ _ _ _ E2) as [Es2 _]. destruct y as [e|b].
  { destruct e; try (injection H as <- <-; left; congruence).
    apply store_inl in E2 as [[? _]|[_ Ed2]]; [done|]. rewrite <- Ed2 in Ha.
    apply (after_terminal_durable _ _ _ _ _ _ _ _ Hk Ha Hp Hwk) in H as [?|?]; [left; congruence|by right]. }
  right. apply store_inr, AppendTurnEvent_inr in E2 as (a2 & Ha2 & _ & E2). apply append_durable in E2; [|done].
  eapply durable_keeps; [|exact E2]. change s' with (snd (r, s')). rewrite <- H. apply keeps_committed.
Qed.

(** * Stale connections *)
Lemma stale_event_ignored iok now te p w s a :
  wp_heap (sv_pool s) !! p = Some w → active_row (sv_db s) (te_TurnId te) = Some a →
  as_WorkerID a ≠ wc_workerID w ∨ as_FencingGeneration a ≠ wc_gen w →
  let s' := snd (handleTurnEvent iok now te p s) in
  sv_db s' = sv_db s ∧ sv_sent s' = sv_sent s ∧ sv_pool s' = sv_pool s.
Proof.
  intros Hw Ha Hne. destruct (handleTurnEvent iok now te p s) as [r s'] eqn:H. cbn [snd].
  unfold handleTurnEvent in H. unfold mbind at 1, svc_bind at 1, conn in H. rewrite Hw in H.
  destruct (String.eqb (te_TurnId te) EmptyString); [injection H as <- <-; done|].
  unfold mbind at 1, svc_bind at 1 in H.
  destruct (store (ResolveActiveAssignment _) s) as [x s1] eqn:E1.
  destruct (store_frame _ _ _ _ E1) as [Es1 Ep1]. apply store_read in E1 as Ed1; [|apply resolve_read].
  destruct x as [e|a1].
  { apply store_inl in E1 as [[-> _]|[E1 _]]; [injection H as <- <-; done|].
    unfold ResolveActiveAssignment, mbind, tx_bind, tx_get, tx_opt in E1. by rewrite Ha in E1. }
  apply store_inr in E1. unfold ResolveActiveAssignment in E1. inv_tx.
  match goal with H : active_row _ _ = Some a1 |- _ => rewrite Ha in H; injection H as <- end.
  replace (negb (String.eqb (as_WorkerID a) (wc_workerID w)) || negb (as_FencingGeneration a =? wc_gen w))
    with true in H; [injection H as <- <-; done|].
  symmetry. apply orb_true_iff. rewrite !negb_true_iff, String.eqb_neq, Z.eqb_neq. done.
Qed.

(** * Fencing before Welcome *)
Definition free_worker (poolID workerID : string) (d : DispatchDB) : Prop :=
  ∀ k a, active_row d k = Some a → ¬ (as_PoolID a = poolID ∧ as_WorkerID a = workerID).
Lemma fence_frees p w d a d' : FenceWorkerGeneration p w d = inr (a, d') → free_worker p w d'.
Proof.
  intros [-> _]%fence_rows_inr k b [Hb Hact]%active_row_Some. simpl in Hb.
  apply lookup_fmap_Some in Hb as (c & Hc & _). intros [Hp Hw].
  destruct (bound_to p w c && is_active c) eqn:E; subst b; [done|].
  unfold bound_to, is_active in E. by rewrite Hp, Hw, !String.eqb_refl, bool_decide_eq_true_2 in E.
Qed.
Lemma fence_none_free p w d : FenceWorkerGeneration p w d = inl ErrNotFound → free_worker p w d.
Proof.
  intros H k a [Ha Hact]%active_row_Some [Hp Hw]. eapply fence_rows_none in H; [|exact Ha].
  unfold bound_to, is_active in H. by rewrite Hp, Hw, !String.eqb_refl, bool_decide_eq_true_2 in H.
Qed.
(** No statement of a settlement makes an assignment active. *)
Definition no_new_active (d d' : DispatchDB) : Prop :=
  ∀ k a', active_row d' k = Some a' → active_row d k = Some a'.
Lemma free_worker_mono p w d d' : no_new_active d d' → free_worker p w d → free_worker p w d'.
Proof. intros H Hf k a Ha%H. by apply (Hf k). Qed.
Lemma store_no_new {A} (m : DpTx A) s r s' :
  (∀ d a d', m d = inr (a, d') → no_new_active d d') → store m s = (r, s') → no_new_active (sv_db s) (sv_db s').
Proof.
  intros Hm H. destruct r as [e|a].
  - apply store_inl in H as [[_ [->|[a Ha]]]|[_ ->]]; [by intros ? ?| |by intros ? ?]. by eapply Hm.
  - apply store_inr in H. by eapply Hm.
Qed.
Lemma settle_no_new g now k reason d a d' :
  settle_turn g now k reason d = inr (a, d') → no_new_active d d'.
Proof.
  unfold settle_turn, lift_wk, lift_drt. destruct g.
  - destruct (CompleteTurn _ _ _ _ _ _) as [|[? ?]]; [done|]. intros [= <- <-]. by intros ? ?.
  - destruct (SettleTurnAndAdvance _ _ _ _) as [|[? ?]]; [done|]. intros [= <- <-]. by intros ? ?.
Qed.
Lemma terminalize_no_new now k d u d' : TerminalizeAssignment now k d = inr (u, d') → no_new_active d d'.
Proof.
  intros [[-> _]|(a & Ha & _ & ->)]%TerminalizeAssignment_inr; [by intros ? ?|].
  intros j b [Hb Hact]%active_row_Some. simpl in Hb. apply active_row_Some. split; [|done].
  apply lookup_insert_Some in Hb as [[<- <-]|[? ?]]; [done|done].
Qed.
(** A relation kept by the three store calls of a settlement is kept by it. *)
Lemma commit_rel (R : relation Service) `{!PreOrder R} now a reason s :
  (∀ x, R x (store (tx_asks (λ d, IsGraphAttempt (dp_wk d) (as_RunID a))) x).2) →
  (∀ g x, R x (store (settle_turn g now (as_TurnID a) reason) x).2) →
  (∀ x, R x (store (TerminalizeAssignment now (as_TurnID a)) x).2) →
  R s (commitTurnTerminal now a reason s).2.
Proof.
  intros H1 H2 H3. unfold commitTurnTerminal, isGraphAttempt. unfold mbind at 1, svc_bind at 1.
  specialize (H1 s). destruct (store (tx_asks _) s) as [[e|g] s1]; [done|]. etrans; [exact H1|].
  unfold mbind at 1, svc_bind at 1. specialize (H2 g s1).
  assert (∀ (r0 : option RunState) s2,
    R s2 ((t ← store (TerminalizeAssignment now (as_TurnID a));
      match t with inl e => mret (inl e) | inr _ => mret (inr r0 : DpErr + option RunState) end) s2).2) as Ht.
  { intros r0 s2. unfold mbind, svc_bind. specialize (H3 s2).
    by destruct (store (TerminalizeAssignment _ _) s2) as [[e|[]] s3]. }
  destruct (store (settle_turn _ _ _ _) s1) as [[e|st] s2]; (etrans; [exact H2|]); [|apply (Ht (Some st))].
  destruct (negb (invalid_transition e)); [reflexivity|apply (Ht None)].
Qed.
Definition quiet_active (s s' : Service) : Prop := no_new_active (sv_db s) (sv_db s').
#[export] Instance quiet_active_preorder : PreOrder quiet_active.
Proof. split; [by intros s k a|]. intros s1 s2 s3 H1 H2 k a Ha. by apply H1, H2. Qed.
Lemma commit_no_new now a reason s : no_new_active (sv_db s) (sv_db (commitTurnTerminal now a reason s).2).
Proof.
  apply (commit_rel quiet_active); intros; destruct (store _ _) as [r s'] eqn:E;
    (eapply store_no_new; [|exact E]); [|apply settle_no_new|apply terminalize_no_new].
  intros * H. inv_tx. by intros ? ?.
Qed.
(** The settlement sends nothing and moves no assignment to another pool. *)
Record same_pools (s s' : Service) : Prop := mkSamePools {
  sp_rows : ∀ k a', turn_assignments (sv_db s') !! k = Some a' →
    ∃ a, turn_assignments (sv_db s) !! k = Some a ∧ as_PoolID a = as_PoolID a';
  sp_sent : sv_sent s' = sv_sent s }.
#[export] Instance same_pools_preorder : PreOrder same_pools.
Proof.
  split; [by intros s; constructor; eauto|]. intros s1 s2 s3 [A1 B1] [A2 B2]. constructor; [|congruence].
  intros k a (b & Hb & E)%A2. apply A1 in Hb as (c & ? & ?). exists c. split; congruence.
Qed.
Lemma store_same_pools {A} (m : DpTx A) s :
  (∀ d a d', m d = inr (a, d') → ∀ k b', turn_assignments d' !! k = Some b' →
     ∃ b, turn_assignments d !! k = Some b ∧ as_PoolID b = as_PoolID b') →
  same_pools s (store m s).2.
Proof.
  intros Hm. destruct (store_sent m s) as [Es _]. constructor; [|done].
  destruct (store m s) as [[e|a] s'] eqn:E; simpl in *.
  - apply store_inl in E as [[_ [->|[a Ha]]]|[_ ->]]; eauto.
  - apply store_inr in E. eauto.
Qed.
Lemma settle_same g now k reason d a d' :
  settle_turn g now k reason d = inr (a, d') → turn_assignments d' = turn_assignments d.
Proof.
  unfold settle_turn, lift_wk, lift_drt. destruct g.
  - destruct (CompleteTurn _ _ _ _ _ _) as [|[? ?]]; [done|]. by intros [= <- <-].
  - destruct (SettleTurnAndAdvance _ _ _ _) as [|[? ?]]; [done|]. by intros [= <- <-].
Qed.
Lemma commit_same_pools now a reason s : same_pools s (commitTurnTerminal now a reason s).2.
Proof.
  apply (commit_rel same_pools); intros; apply store_same_pools; intros d b d' H.
  - inv_tx. eauto.
  - rewrite (settle_same _ _ _ _ _ _ _ H). eauto.
  - apply TerminalizeAssignment_inr in H as [[-> _]|(c & Hc & _ & ->)]; [eauto|]. simpl. intros k b'.
    intros [[<- <-]|[? ?]]%lookup_insert_Some; eauto.
Qed.
Lemma update_conn_db p f s : sv_db (update_conn p f s).2 = sv_db s.
Proof. unfold update_conn, sv_modify. simpl. by destruct (wp_heap (sv_pool s) !! p). Qed.
Lemma fence_old_frees now old p w s s' :
  fenceOldGeneration now old p w s = (None, s') → free_worker p w (sv_db s').
Proof.
  unfold fenceOldGeneration. set (close := match old with Some q => update_conn q markClosed | None => mret () end).
  assert (∀ x, sv_db (close x).2 = sv_db x) as Hc.
  { intros x. unfold close. destruct old; [apply update_conn_db|done]. }
  unfold mbind at 1, svc_bind at 1. destruct (store _ s) as [[e|a] s1] eqn:E1.
  - assert (e = ErrNotFound ∧ sv_db s1 = sv_db s ∧ FenceWorkerGeneration p w (sv_db s) = inl ErrNotFound ∨
            e ≠ ErrNotFound) as [(-> & Ed & Ef)|Hne].
    { apply store_inl in E1 as [[-> _]|[H ?]]; [by right|]. destruct e; try (by right). by left. }
    + intros H. apply fence_none_free in Ef. rewrite <- Ed in Ef. specialize (Hc s1).
      unfold mbind, svc_bind in H. destruct (close s1) as [u s2]. injection H as <-. simpl in Hc. by rewrite Hc.
    + intros H. exfalso. destruct e; try done; unfold mbind, svc_bind in H; by destruct (close s1).
  - apply store_inr in E1. apply fence_frees in E1. unfold mbind at 1, svc_bind at 1.
    destruct (terminalizeTurnLoss now a s1) as [t s2] eqn:E2.
    assert (free_worker p w (sv_db s2)) as Hf.
    { eapply free_worker_mono; [|exact E1]. unfold terminalizeTurnLoss, mbind, svc_bind in E2.
      pose proof (commit_no_new now a "aborted" s1) as Hn.
      destruct (commitTurnTerminal now a "aborted" s1) as [x s3]. injection E2 as _ <-. exact Hn. }
    intros H. unfold mbind, svc_bind in H. specialize (Hc s2). destruct (close s2) as [u s3].
    injection H as _ <-. simpl in Hc. by rewrite Hc.
Qed.
Lemma send_db p m s : sv_db (send p m s).2 = sv_db s.
Proof.
  unfold send. destruct (wp_heap (sv_pool s) !! p) as [w|]; [|done]. destruct (wc_closed w); [done|].
  by destruct (sv_sends s) as [|[] f].
Qed.
Lemma ack_reconnect_db p k w s : sv_db (ackReconnectWatermark p k w s).2 = sv_db s.
Proof.
  unfold ackReconnectWatermark. unfold mbind at 1, svc_bind at 1.
  destruct (store _ s) as [[e|a] s1] eqn:E; apply store_read in E as Ed;
    try (intros * H; unfold PriorAssignmentForWorker in H; by inv_tx); [done|].
  unfold mbind, svc_bind. pose proof (send_db p (CEventAck (as_TurnID a) (as_HighestAppliedSequence a)) s1) as H.
  destruct (send _ _ s1) as [b s2]. simpl in *. congruence.
Qed.

Lemma resolve_pool_inr sid d pool d' :
  ResolvePoolBySpiffePrefix sid d = inr (pool, d') →
  d' = d ∧ ∃ k, pools d !! k = Some pool ∧ prefix_matches sid pool = true.
Proof.
  unfold ResolvePoolBySpiffePrefix. intros H. inv_tx. split; [done|].
  match goal with H : min_by _ _ = Some pool |- _ => apply min_by_Some in H as [Hin _] end.
  apply elem_of_select in Hin as (? & k & ?). eauto.
Qed.
Lemma connect_welcomed now p id hp hw s s' :
  work_connect now p id hp hw s = (None, s') →
  ∃ i k pool, id = Some i ∧ id_Kind i = KindSupervisor ∧ hp = id_PoolUID i ∧ hw = id_WorkerID i ∧
    pools (sv_db s) !! k = Some pool ∧ prefix_matches (id_SPIFFEID i) pool = true ∧
    free_worker (po_ID pool) (id_WorkerID i) (sv_db s').
Proof.
  unfold work_connect. destruct id as [i|]; [|done].
  destruct (bool_decide (id_Kind i = KindSupervisor)) eqn:Ek; [|done]. apply bool_decide_eq_true in Ek. cbn [negb].
  destruct (String.eqb_spec hp (id_PoolUID i)) as [->|]; [|done]. cbn [negb orb].
  destruct (String.eqb_spec hw (id_WorkerID i)) as [->|]; [|done]. cbn [negb].
  unfold mbind at 1, svc_bind at 1. destruct (store _ s) as [[e|pool] s1] eqn:E1; [done|].
  apply store_inr, resolve_pool_inr in E1 as (Ed1 & k & Hk & Hm).
  unfold mbind at 1, svc_bind at 1, sv_get. cbn zeta beta.
  destruct (pool_add _ _ (sv_pool s1)) as [old pl] eqn:Ea.
  unfold mbind at 1, svc_bind at 1. unfold sv_modify. cbv beta iota.
  unfold mbind at 1, svc_bind at 1.
  destruct (fenceOldGeneration _ _ _ _ _) as [f s2] eqn:Ef.
  destruct f as [e|]; [done|]. apply fence_old_frees in Ef.
  unfold mbind at 1, svc_bind at 1. pose proof (send_db p (CWelcome (int64_of ((sv_gen s1 + 1) mod uint64_mod))) s2) as Hs.
  destruct (send _ _ s2) as [[] s3]; [|done]. simpl in Hs.
  unfold mbind, svc_bind. pose proof (ack_reconnect_db p (id_PoolUID i) (id_WorkerID i) s3) as Hr.
  destruct (ackReconnectWatermark _ _ _ s3) as [u s4]. intros [= <-]. simpl in Hr.
  exists i, k, pool. rewrite Hr, Hs. done.
Qed.

(** * Claims *)
Inductive svc_op :=
| OConnect (now : timestamp) (p : nat) (id : option Identity) (helloPool helloWorker : string)
| OMessage (now : timestamp) (order : list string) (p : nat) (m : WorkerMessage)
| OTeardown (now : timestamp) (p : nat)
| OReconcile (now : timestamp) (order : list string)
| OLeases (now : timestamp) (order : list string)
| OTimer (now : timestamp) (order : list string) (i : nat)
| OCancel (now : timestamp) (order : list string) (turnID : uuid) (reason : AbortReason) (msg : string)
| OSeed (now : timestamp).
Definition svc_exec (env : nat → DispatchDB → DispatchDB) (iok : string → json → bool) (cfg : Config)
    (s : Service) (o : svc_op) : Service :=
  match o with
  | OConnect now p id hp hw => snd (work_connect now p id hp hw s)
  | OMessage now order p m => snd (work_message iok now order p m s)
  | OTeardown now p => snd (work_teardown now p s)
  | OReconcile now order => snd (reconcileOnce env cfg now order s)
  | OLeases now order => snd (expireLeases cfg now order s)
  | OTimer now order i => snd (fire_timer now order i s)
  | OCancel now order k r m => snd (CancelTurn now order k r m s)
  | OSeed now => snd (SeedGeneration now s)
  end.
Definition svc_execs env iok cfg (ops : list svc_op) (s : Service) : Service :=
  foldl (svc_exec env iok cfg) s ops.
Lemma svc_execs_evolve env iok cfg ops s :
  (∀ i d, steps d (env i d)) → 0 ≤ cf_SessionUIDBase cfg → 0 < cf_SessionUIDRange cfg < uint32_mod →
  svc_evolves s (svc_execs env iok cfg ops s).
Proof.
  intros He Hb Hr. revert s. induction ops as [|o ops IH]; intros s; [reflexivity|].
  etrans; [|apply IH]. destruct o; simpl.
  - apply keeps_connect.
  - apply keeps_message.
  - apply keeps_teardown.
  - by apply keeps_reconcile.
  - apply keeps_leases.
  - apply keeps_timer.
  - apply keeps_cancel.
  - apply keeps_seed.
Qed.

(** C10. A turn is handed to a worker at most once: over any sequence of connections,
    worker messages, teardowns, reconciler passes, lease expiries, timeouts and
    cancellations, with any database failures (before or after a commit), any failing sends
    and any concurrent allocator activity, the AssignTurn messages given to a worker's
    stream, also those whose Send reported an error and whose receipt is therefore
    unknown, are for distinct turns, each without an assignment before and with a durable
    one after. *)
Theorem turn_delivered_at_most_once env iok cfg ops s :
  (∀ i d, steps d (env i d)) → 0 ≤ cf_SessionUIDBase cfg → 0 < cf_SessionUIDRange cfg < uint32_mod →
  ∃ l, sv_sent (svc_execs env iok cfg ops s) = sv_sent s ++ l ∧ NoDup (delivered_turns l) ∧
    ∀ k, k ∈ delivered_turns l → turn_assignments (sv_db s) !! k = None ∧
      is_Some (turn_assignments (sv_db (svc_execs env iok cfg ops s)) !! k).
Proof. intros He Hb Hr. by destruct (svc_execs_evolve env iok cfg ops s He Hb Hr) as [_ ?]. Qed.

(** Acknowledgement follows the commit: handling a known event of a turn assigned to
    the connection's worker either sends nothing at all, or ends with the event durable,
    its sequence covered by the committed watermark, whatever store calls or sends fail;
    so the worker never drops an event the control plane has not stored. *)
Theorem ack_only_after_commit iok now te p w s r s' a :
  wp_heap (sv_pool s) !! p = Some w → te_Kind te ≠ UnknownEvent →
  turn_assignments (sv_db s) !! te_TurnId te = Some a →
  as_PoolID a = wc_poolID w → as_WorkerID a = wc_workerID w →
  handleTurnEvent iok now te p s = (r, s') →
  sv_sent s' = sv_sent s ∨
  ∃ a', turn_assignments (sv_db s') !! te_TurnId te = Some a' ∧
    te_Sequence te ≤ as_HighestAppliedSequence a'.
Proof. intros. by eapply handle_event_durable. Qed.

(** A stale connection is powerless: an event for an active assignment that names
    another worker or another fencing generation than the connection's changes neither
    the database nor the pool and is not acknowledged. *)
Theorem stale_connection_powerless iok now te p w s a :
  wp_heap (sv_pool s) !! p = Some w → active_row (sv_db s) (te_TurnId te) = Some a →
  as_WorkerID a ≠ wc_workerID w ∨ as_FencingGeneration a ≠ wc_gen w →
  let s' := snd (handleTurnEvent iok now te p s) in
  sv_db s' = sv_db s ∧ sv_sent s' = sv_sent s ∧ sv_pool s' = sv_pool s.
Proof. apply stale_event_ignored. Qed.

(** A worker is accepted only as itself and only after fencing: when the connection
    reaches its receive loop, the certificate named a supervisor, the Hello agreed with
    it, its pool is registered under a prefix of its id, and no assignment of that pool's
    worker is active any more, whatever failed in between. *)
Theorem welcome_only_after_fence now p id hp hw s s' :
  work_connect now p id hp hw s = (None, s') →
  ∃ i k pool, id = Some i ∧ id_Kind i = KindSupervisor ∧ hp = id_PoolUID i ∧ hw = id_WorkerID i ∧
    pools (sv_db s) !! k = Some pool ∧ prefix_matches (id_SPIFFEID i) pool = true ∧
    free_worker (po_ID pool) (id_WorkerID i) (sv_db s').
Proof. apply connect_welcomed. Qed.

(** An unknown event wedges its turn: the next event of a kind without durable
    representation is acknowledged through its own sequence although the watermark stays
    behind it, and from then on the event that follows is refused as out of order and
    not acknowledged. *)
Theorem unknown_event_wedges_turn iok now te te' p w s a :
  wp_heap (sv_pool s) !! p = Some w → wc_closed w = false → sv_faults s = [] → sv_sends s = [] →
  te_Kind te = UnknownEvent → te_TurnId te ≠ EmptyString →
  active_row (sv_db s) (te_TurnId te) = Some a →
  as_WorkerID a = wc_workerID w → as_FencingGeneration a = wc_gen w →
  te_Sequence te = as_HighestAppliedSequence a + 1 →
  te_TurnId te' = te_TurnId te → te_Kind te' ≠ UnknownEvent → te_Sequence te' = te_Sequence te + 1 →
  let '(r, s1) := handleTurnEvent iok now te p s in
  let '(r', s2) := handleTurnEvent iok now te' p s1 in
  r = None ∧ sv_sent s1 = sv_sent s ++ [(p, CEventAck (te_TurnId te) (te_Sequence te))] ∧
  r' = Some ErrOutOfOrderSequence ∧ sv_sent s2 = sv_sent s1 ∧ sv_db s2 = sv_db s.
Proof.
  intros Hw Hc Hf Hs Hk Hid Ha Hwk Hg Hseq Hid' Hk' Hseq'.
  assert (∀ t, sv_db t = sv_db s → sv_faults t = [] →
    store (ResolveActiveAssignment (te_TurnId te)) t = (inr a, with_db (sv_db s) [] t)) as Hres.
  { intros t Et Ft. unfold store, call, run_tx, ResolveActiveAssignment, mbind, tx_bind, tx_get, tx_opt.
    rewrite Ft, Et. by rewrite Ha. }
  assert (negb (String.eqb (as_WorkerID a) (wc_workerID w)) || negb (as_FencingGeneration a =? wc_gen w) = false) as Hown.
  { by rewrite Hwk, Hg, String.eqb_refl, Z.eqb_refl. }
  assert (handleTurnEvent iok now te p s =
    (None, with_sent (sv_sent s ++ [(p, CEventAck (te_TurnId te) (te_Sequence te))]) [] (with_db (sv_db s) [] s))) as E1.
  { unfold handleTurnEvent, mbind, svc_bind, conn. rewrite Hw, (proj2 (String.eqb_neq _ _) Hid), (Hres s eq_refl Hf), Hown.
    unfold turnEventToRuntime. rewrite Hk. cbn [String.eqb andb negb]. unfold ack, mbind, svc_bind, send. simpl.
    by rewrite Hw, Hc, Hs. }
  rewrite E1. set (s1 := with_sent _ _ _).
  destruct (known_event te' Hk') as (kind & pl & o & c & Ek & Hne).
  assert (AppendTurnEvent now (te_TurnId te) (te_Sequence te') kind pl (sv_db s) = inl ErrOutOfOrderSequence) as Happ.
  { unfold AppendTurnEvent, mbind, tx_bind, tx_get, tx_opt. rewrite Ha. unfold mret, tx_ret, append_sequenced.
    replace (te_Sequence te' <=? _) with false by lia. unfold mbind, tx_bind, tx_require.
    by replace (te_Sequence te' =? _) with false by lia. }
  assert (handleTurnEvent iok now te' p s1 = (Some ErrOutOfOrderSequence, with_db (sv_db s) [] s1)) as ->.
  { unfold handleTurnEvent, mbind, svc_bind, conn. change (wp_heap (sv_pool s1) !! p) with (wp_heap (sv_pool s) !! p). rewrite Hw, Hid'.
    rewrite (proj2 (String.eqb_neq _ _) Hid), (Hres s1 eq_refl eq_refl), Hown, Ek, Hne. cbn [andb].
    unfold store, call, run_tx. simpl. by rewrite Happ. }
  by split_and!.
Qed.

Lemma fence_same_pools poolID w s : same_pools s (store (FenceWorkerGeneration poolID w) s).2.
Proof.
  apply store_same_pools. intros d a d' [-> _]%fence_rows_inr k b'. simpl.
  intros (b & <- & Hb)%lookup_fmap_Some. exists b. split; [done|]. by destruct (_ && _).
Qed.
Lemma loss_same_pools now a s : same_pools s (terminalizeTurnLoss now a s).2.
Proof.
  pose proof (commit_same_pools now a "aborted" s) as H. unfold terminalizeTurnLoss, mbind, svc_bind.
  by destruct (commitTurnTerminal now a "aborted" s).
Qed.
Lemma fence_old_same_pools now old poolID w s : same_pools s (fenceOldGeneration now old poolID w s).2.
Proof.
  unfold fenceOldGeneration. set (close := match old with Some q => update_conn q markClosed | None => mret () end).
  assert (∀ x, same_pools x (close x).2) as Hc.
  { intros x. unfold close. destruct old as [q|]; [|reflexivity]. unfold update_conn, sv_modify. simpl.
    destruct (wp_heap (sv_pool x) !! q); [|reflexivity]. constructor; simpl; eauto. }
  assert (∀ (t : option DpErr) x, same_pools x ((close;; mret t) x).2) as Hc'.
  { intros t x. unfold mbind, svc_bind. specialize (Hc x). by destruct (close x). }
  unfold mbind at 1, svc_bind at 1. pose proof (fence_same_pools poolID w s) as Hf.
  destruct (store _ s) as [[e|a] s1]; (etrans; [exact Hf|]); [destruct e; apply Hc'|].
  unfold mbind at 1, svc_bind at 1. pose proof (loss_same_pools now a s1) as Hs.
  destruct (terminalizeTurnLoss now a s1) as [x s2]. etrans; [exact Hs|apply Hc'].
Qed.
Lemma ack_reconnect_none p poolID w s :
  (∀ k a, turn_assignments (sv_db s) !! k = Some a → as_PoolID a ≠ poolID) →
  sv_sent (ackReconnectWatermark p poolID w s).2 = sv_sent s.
Proof.
  intros Hno. unfold ackReconnectWatermark, mbind, svc_bind.
  destruct (store _ s) as [[e|a] s1] eqn:E; destruct (store_frame _ _ _ _ E) as [Es _]; [done|].
  exfalso. apply store_inr in E. unfold PriorAssignmentForWorker in E. inv_tx.
  match goal with H : min_by _ _ = Some a |- _ => apply min_by_Some in H as [Hin _] end.
  apply elem_of_select in Hin as (Hb & k & Hk). unfold bound_to in Hb.
  apply andb_true_iff in Hb as [Hb%String.eqb_eq _]. by apply (Hno k a).
Qed.
Lemma send_sent p m s l : (send p m s).2 = l → sv_sent l = sv_sent s ∨ sv_sent l = sv_sent s ++ [(p, m)].
Proof.
  intros <-. unfold send. destruct (wp_heap (sv_pool s) !! p) as [w|]; [|by left]. destruct (wc_closed w); [by left|].
  destruct (sv_sends s) as [|[] f]; by right.
Qed.

(** The reconnect acknowledgement looks in the wrong place: assignments are recorded
    under the pool's database id, but an accepted worker's watermark is looked up under
    the pool UID of its certificate; when no assignment carries that UID as its pool, the
    worker is sent at most the Welcome, never the cumulative acknowledgement of its
    previous assignment. *)
Theorem reconnect_ack_never_sent now p i hp hw s s' :
  (∀ k a, turn_assignments (sv_db s) !! k = Some a → as_PoolID a ≠ id_PoolUID i) →
  work_connect now p (Some i) hp hw s = (None, s') →
  sv_sent s' = sv_sent s ∨ ∃ gen, sv_sent s' = sv_sent s ++ [(p, CWelcome gen)].
Proof.
  intros Hno. unfold work_connect. destruct (negb (bool_decide _)); [done|]. destruct (_ || _); [done|].
  unfold mbind at 1, svc_bind at 1. destruct (store _ s) as [[e|pool] s1] eqn:E1; [done|].
  destruct (store_frame _ _ _ _ E1) as [Es1 _]. apply store_inr, resolve_pool_inr in E1 as (Ed1 & _).
  unfold mbind at 1, svc_bind at 1, sv_get. cbn zeta beta.
  destruct (pool_add _ _ (sv_pool s1)) as [old pl].
  unfold mbind at 1, svc_bind at 1. unfold sv_modify. cbv beta iota. unfold mbind at 1, svc_bind at 1.
  pose proof (fence_old_same_pools now old (po_ID pool) (id_WorkerID i)
    (with_pool pl (with_gen ((sv_gen s1 + 1) mod uint64_mod) s1))) as Hf.
  destruct (fenceOldGeneration _ _ _ _ _) as [[e|] s2]; [done|]. destruct Hf as [Hrows Hsent2]. simpl in Hrows, Hsent2.
  unfold mbind at 1, svc_bind at 1.
  pose proof (send_db p (CWelcome (int64_of ((sv_gen s1 + 1) mod uint64_mod))) s2) as Hdb.
  destruct (send _ _ s2) as [[] s3] eqn:E3; [|done].
  assert ((send p (CWelcome (int64_of ((sv_gen s1 + 1) mod uint64_mod))) s2).2 = s3) as Hs3 by (by rewrite E3).
  apply send_sent in Hs3. simpl in Hdb.
  unfold mbind, svc_bind. pose proof (ack_reconnect_none p (id_PoolUID i) (id_WorkerID i) s3) as Ha.
  destruct (ackReconnectWatermark _ _ _ s3) as [u s4]. intros [= <-]. simpl in Ha.
  assert (sv_sent s4 = sv_sent s3) as ->.
  { apply Ha. rewrite Hdb. intros k a (b & Hb & <-)%Hrows. rewrite Ed1 in Hb. by eapply Hno. }
  rewrite Hsent2, Es1 in Hs3. destruct Hs3; eauto.
Qed.
