(* ===== verification/DispatchDemo.v ===== *)
(** A concrete dispatch service on which the theorems are applied: a worker connects,
    reports its workspace and its readiness, and is handed the turn of a chat run; its
    settlement is lost once. *)
From Stdlib Require Import QArith Qabs Ascii.
From S2P Require Import Prelude Json Runtime RuntimeFacts WorkerPool WorkData WorkGraph WorkAssign Spiffe.
From S2P Require Import Dispatch DispatchFacts DispatchUid DispatchEvents DispatchService DispatchServiceFacts.
#[local] Open Scope Z_scope.

Definition no_catalog : Catalog :=
  {| ca_bindings := ∅; ca_models := ∅; ca_tool_versions := []; ca_grants := [] |}.
(** The chat run of the runtime example, assigned to a pool. *)
Definition chat_work : WorkDB :=
  mkWorkDB demo_db ∅ ∅ ∅ ∅ [] ∅ ∅ [] [] [] ∅ ∅ [] no_catalog [] {["A" := "pool"]}.
Definition demo_capacity : WorkspaceCapacityState :=
  {| wcs_PoolID := "pool"; wcs_Observed := false; wcs_FreeBytes := 0; wcs_CapacityBytes := 0;
     wcs_FreeRatio := 0; wcs_Warning := true; wcs_CreditGated := true; wcs_StorageAuthorized := true;
     wcs_ObservedAt := None |}.
Definition demo_pool : Pool :=
  {| po_ID := "pool"; po_Key := "ns/pool"; po_Name := "pool";
     po_SpiffeIDPrefix := "spiffe://iterabase.local/pools/p1"; po_DeletedAt := None |}.
Definition demo_dispatch : DispatchDB :=
  mkDispatchDB chat_work ∅ ∅ {["pool" := demo_capacity]} {["pool" := demo_pool]}.
Definition demo_config : Config :=
  defaults {| cf_TrustDomain := EmptyString; cf_HeartbeatInterval := 0; cf_LeaseInterval := 0;
              cf_ReconcileInterval := 0; cf_ProtocolVersion := EmptyString; cf_SessionUIDBase := 0;
              cf_SessionUIDRange := 4; cf_SessionUIDGrace := 0;
              cf_DefaultModel := Some {| mc_Id := "m"; mc_Api := "openai"; mc_ContextWindow := 8192;
                                         mc_MaxOutputTokens := 0; mc_ThinkingLevel := EmptyString |} |}.
Definition demo_service (f : list fault) : Service :=
  mkService demo_dispatch newWorkerPool 0 [] f [] false [] 0.
Definition half_free : WorkspaceStatus :=
  {| ws_FreeBytes := 50; ws_CapacityBytes := 100; ws_FreeRatio := Some (1 # 2); ws_Warning := false;
     ws_CreditGated := false |}.
Definition demo_order : list string := ["pool/w1"].
Definition connect_ops : list svc_op :=
  [OSeed 10; OConnect 11 1 (Some demo_supervisor) "p1" "w1";
   OMessage 12 demo_order 1 (MWorkspaceStatus (Some half_free)); OMessage 13 demo_order 1 MReady].
Definition no_instance (s : string) (v : json) : bool := true.
Definition demo_run (ops : list svc_op) (s : Service) : Service := svc_execs quiet no_instance demo_config ops s.
(** The turn ["E"] is assigned to the worker. *)
Definition assigned : Service := demo_run (connect_ops ++ [OReconcile 14 demo_order]) (demo_service []).

Example assigned_sent : delivered_turns (sv_sent assigned) = ["E"] ∧ length (sv_sent assigned) = 2%nat.
Proof. vm_compute. done. Qed.

(** * A settlement lost on reconnect *)

(** The database drops the third store call of the reconnecting worker: the pool is
    resolved, the assignment is fenced, the settlement fails. *)
Definition broken : Service := with_db (sv_db assigned) [FNone; FNone; FBeforeCommit] assigned.
Definition refused : Service := demo_run [OConnect 20 2 (Some demo_supervisor) "p1" "w1"; OTeardown 21 2; OTeardown 21 1] broken.
(** The worker retries, is accepted, reports ready, and the reconciler runs. *)
Definition retried : Service :=
  demo_run [OConnect 30 3 (Some demo_supervisor) "p1" "w1";
            OMessage 31 demo_order 3 (MWorkspaceStatus (Some half_free)); OMessage 32 demo_order 3 MReady;
            OReconcile 33 demo_order; OReconcile 34 demo_order; OLeases 99999999999 demo_order] refused.
Definition turn_state_of (s : Service) (k : uuid) : option TurnState := turn_State <$> turns (dp_rt (sv_db s)) !! k.
Definition assignment_state_of (s : Service) (k : uuid) : option AssignmentState :=
  as_State <$> turn_assignments (sv_db s) !! k.

(** A settlement lost while a worker reconnects is never retried: the failed connection
    leaves the assignment fenced and the turn running; the worker's next connection finds
    no active assignment and is accepted, and no later reconciler pass, lease expiry or
    cancellation settles the turn or delivers it again, although the comment on the fence
    promises that loss terminalization is re-attempted. *)
Theorem lost_settlement_never_retried :
  ∃ s1 s2 s3 : Service,
    fst (work_connect 20 2 (Some demo_supervisor) "p1" "w1" s1) = Some (StreamFailed errUnavailable) ∧
    s2 = demo_run [OConnect 20 2 (Some demo_supervisor) "p1" "w1"; OTeardown 21 2; OTeardown 21 1] s1 ∧
    fst (work_connect 30 3 (Some demo_supervisor) "p1" "w1" s2) = None ∧
    s3 = demo_run [OConnect 30 3 (Some demo_supervisor) "p1" "w1";
                   OMessage 31 demo_order 3 (MWorkspaceStatus (Some half_free)); OMessage 32 demo_order 3 MReady;
                   OReconcile 33 demo_order; OReconcile 34 demo_order; OLeases 99999999999 demo_order;
                   OCancel 99999999999 demo_order "E" AbortCancelled "stop"] s2 ∧
    turn_state_of s3 "E" = Some TurnRunning ∧ assignment_state_of s3 "E" = Some AssignmentFenced ∧
    delivered_turns (sv_sent s3) = delivered_turns (sv_sent s1).
Proof.
  exists broken, refused. eexists. split; [vm_compute; reflexivity|]. split; [reflexivity|].
  split; [vm_compute; reflexivity|]. split; [reflexivity|].
  split; [vm_compute; reflexivity|]. split; vm_compute; reflexivity.
Qed.

(** * The theorems applied *)
Lemma quiet_steps : ∀ i d, steps d (quiet i d).
Proof. intros i d. reflexivity. Qed.
Lemma turn_delivered_at_most_once_witness :
  ∃ l, sv_sent assigned = [] ++ l ∧ NoDup (delivered_turns l) ∧ "E" ∈ delivered_turns l.
Proof.
  destruct (turn_delivered_at_most_once quiet no_instance demo_config (connect_ops ++ [OReconcile 14 demo_order])
    (demo_service []) quiet_steps) as (l & Hl & Hn & _); [vm_compute; congruence|vm_compute; split; congruence|].
  exists l. split; [exact Hl|]. split; [exact Hn|].
  assert (sv_sent assigned = l) as <- by exact Hl. apply (bool_decide_unpack _). vm_compute. exact I.
Defined.

(** A history of one UID: claimed by session ["s"], used by an assignment that ends,
    released, and claimed by another session after the grace period. *)
Definition after {A} (m : DpTx A) (d : DispatchDB) : DispatchDB := snd (run_tx m d).
Definition succeeds {A} (m : DpTx A) (d : DispatchDB) : bool := match m d with inr _ => true | inl _ => false end.
Lemma succeeds_after {A} (m : DpTx A) d : succeeds m d = true → ∃ a, m d = inr (a, after m d).
Proof. unfold succeeds, after, run_tx. destruct (m d) as [|[a d']]; [done|]. eauto. Qed.
Definition demo_assignment : AssignmentInput :=
  {| in_TurnID := "E"; in_RunID := "A"; in_PoolID := "pool"; in_WorkerID := "w1"; in_FencingGeneration := 1;
     in_AttemptID := "A"; in_ScopeIdentityID := "u"; in_AgentPoolKey := "ns/pool"; in_SessionID := "s";
     in_SandboxUID := 10000; in_SandboxGID := 10000; in_ModelPermission := NoJSON; in_CapabilityRequest := NoJSON;
     in_ToolVersionSnapshot := NoJSON; in_WorkItemID := EmptyString; in_NodeExecutionID := EmptyString |}.
Definition h1 : DispatchDB := after (claim_uid 20 0 10000 "s") demo_dispatch.
Definition h2 : DispatchDB := after (CreateAssignment 21 demo_assignment) h1.
Definition h3 : DispatchDB := after (FenceWorkerGenerationIf "pool" "w1" 1) h2.
Definition h4 : DispatchDB := after (ReleaseSessionUID 50 "s") h3.
Definition h5 : DispatchDB := after (claim_uid 61 60 10000 "t") h4.
Lemma empty_wf w c p : dp_wf (mkDispatchDB w ∅ ∅ c p).
Proof. constructor; intros *; simpl; rewrite ?lookup_empty; done. Qed.
Lemma demo_dispatch_wf : dp_wf demo_dispatch.
Proof. apply empty_wf. Qed.
Lemma claim_step now gb c s d :
  0 ≤ c ≤ int4_max → succeeds (claim_uid now gb c s) d = true →
  dispatch_step (LClaimed gb c s) d (after (claim_uid now gb c s) d).
Proof.
  intros Hc [u Hu]%succeeds_after. pose proof Hu as Hu'. apply claim_uid_inr in Hu' as (-> & _). by eapply SClaim.
Qed.
Lemma h1_step : dispatch_step (LClaimed 0 10000 "s") demo_dispatch h1.
Proof. apply claim_step; [vm_compute; split; congruence|vm_compute; reflexivity]. Qed.
Lemma h2_step : dispatch_step (LAssign "E") h1 h2.
Proof.
  destruct (succeeds_after (CreateAssignment 21 demo_assignment) h1) as [a Ha]; [vm_compute; reflexivity|].
  exact (SCreate _ _ _ _ _ Ha).
Qed.
Lemma h3_step : dispatch_step LOther h2 h3.
Proof.
  destruct (succeeds_after (FenceWorkerGenerationIf "pool" "w1" 1) h2) as [a Ha]; [vm_compute; reflexivity|].
  exact (SFenceIf _ _ _ _ _ _ Ha).
Qed.
Lemma h4_step : dispatch_step (LReleased 50 "s") h3 h4.
Proof.
  destruct (succeeds_after (ReleaseSessionUID 50 "s") h3) as [a Ha]; [vm_compute; reflexivity|].
  exact (SRelease _ _ _ _ _ Ha).
Qed.
Lemma h5_step : dispatch_step (LClaimed 60 10000 "t") h4 h5.
Proof. apply claim_step; [vm_compute; split; congruence|vm_compute; reflexivity]. Qed.
Definition demo_history : list label := [LAssign "E"; LOther; LReleased 50 "s"; LClaimed 60 10000 "t"].
Lemma demo_trace : trace demo_history h1 h5.
Proof.
  repeat (eapply trace_cons; [first [exact h2_step|exact h3_step|exact h4_step|exact h5_step]|]). constructor.
Qed.
Lemma h1_wf : dp_wf h1.
Proof. eapply step_wf; [exact demo_dispatch_wf|exact h1_step]. Qed.
Lemma h2_wf : dp_wf h2.
Proof. eapply step_wf; [exact h1_wf|exact h2_step]. Qed.

Lemma dispatch_invariant_witness : dp_wf h5.
Proof. apply (dispatch_invariant demo_history h1 h5); [exact h1_wf|exact demo_trace]. Defined.
Lemma turn_assigned_at_most_once_witness : NoDup (assigned_turns demo_history) ∧ active_row h5 "E" = None.
Proof.
  pose proof (turn_assigned_at_most_once demo_history h1 h5 demo_trace) as (Hn & _).
  split; [exact Hn|vm_compute; reflexivity].
Defined.
Lemma create_assignment_correct_witness : assignable demo_assignment h1.
Proof.
  apply (proj2 (proj1 (create_assignment_correct 21 demo_assignment h1 h1_wf))).
  destruct (succeeds_after (CreateAssignment 21 demo_assignment) h1) as [a Ha]; [vm_compute; reflexivity|].
  exists a, h2. exact Ha.
Defined.
Lemma uid_not_recycled_within_grace_witness :
  ∃ l1 t l2 gb s l3, demo_history = l1 ++ LReleased t "s" :: l2 ++ LClaimed gb 10000 s :: l3 ∧ t < gb.
Proof.
  refine (uid_not_recycled_within_grace demo_history h1 h5 10000 (mkAlloc "s" UidInUse 20 None)
    (mkAlloc "t" UidInUse 20 None) h1_wf demo_trace _ _ _ _ _); [vm_compute; reflexivity..|].
  vm_compute. congruence.
Defined.
Lemma allocation_is_atomic_steps_witness :
  ∃ r d', AllocateSessionUID quiet (fixed 100) (fixed 100) "x" 10000 4 10 h2 = (r, d') ∧ steps h2 d' ∧
    holds d' "x" 10001.
Proof.
  destruct (AllocateSessionUID quiet (fixed 100) (fixed 100) "x" 10000 4 10 h2) as [r d'] eqn:E.
  destruct (allocation_is_atomic_steps quiet (fixed 100) (fixed 100) "x" 10000 4 10 h2 r d' quiet_steps)
    as (Hs & _ & Hh); [lia|vm_compute; split; congruence|exact h2_wf|exact E|].
  exists r, d'. split; [reflexivity|]. split; [exact Hs|]. apply Hh.
  assert (fst (AllocateSessionUID quiet (fixed 100) (fixed 100) "x" 10000 4 10 h2) = inr 10001) as <-
    by (vm_compute; reflexivity).
  rewrite E. reflexivity.
Defined.
Lemma uid_within_range_witness :
  ∃ u d', tryAllocSessionUID (quiet 0) (quiet 0) 100 100 "x" 10000 4 10 h2 = (inr u, d') ∧ 10000 ≤ u < 10004.
Proof.
  destruct (tryAllocSessionUID (quiet 0) (quiet 0) 100 100 "x" 10000 4 10 h2) as [[e|u] d'] eqn:E.
  - assert (∃ v, fst (tryAllocSessionUID (quiet 0) (quiet 0) 100 100 "x" 10000 4 10 h2) = inr v) as [v Hv]
      by (eexists; vm_compute; reflexivity). rewrite E in Hv. discriminate.
  - exists u, d'. split; [reflexivity|].
    destruct (uid_within_range (quiet 0) (quiet 0) 100 100 "x" 10000 4 10 h2 u d') as [H _];
      [vm_compute; split; congruence|vm_compute; split; congruence|exact E|exact H].
Defined.
Lemma allocation_lowest_free_witness :
  fst (AllocateSessionUID quiet (fixed 100) (fixed 100) "s" 10000 4 10 h2) = inr 10000.
Proof.
  apply (proj1 (allocation_lowest_free 100 100 "s" 10000 4 10 h2 h2_wf ltac:(lia) ltac:(lia) ltac:(vm_compute; congruence))).
  exists (mkAlloc "s" UidInUse 20 None). split; [vm_compute; reflexivity|]. split; vm_compute; reflexivity.
Defined.

(** Two events arrive, the second before the first and then again. *)
Definition ev (n : Z) : worker_event := {| we_seq := n; we_kind := "tool_result"; we_payload := NoJSON |}.
Definition E_row : Assignment :=
  match turn_assignments h2 !! "E" with
  | Some a => a
  | None => mkAssignment "E" "A" "pool" "w1" 1 "A" "u" "k" JNull JNull JNull AssignmentActive 0 0 None None None
  end.
Lemma E_row_at : turn_assignments h2 !! "E" = Some E_row.
Proof. vm_compute. reflexivity. Qed.
Definition demo_deliveries : list occurrence :=
  [OLive 30 (ev 2); OLive 31 (ev 1); OFence "pool" "w1" 1; OLate 32 "pool" "w1" (ev 2); OLate 33 "pool" "w1" (ev 1)].
Lemma worker_events_exactly_once_witness :
  we_seq <$> fst (occur "E" demo_deliveries h2) = [1; 2].
Proof.
  pose proof (worker_events_exactly_once "E" demo_deliveries h2 E_row E_row_at) as H.
  destruct (occur "E" demo_deliveries h2) as [es d'] eqn:E. destruct H as [H _]. cbn [fst]. rewrite H.
  assert (es = fst (occur "E" demo_deliveries h2)) as -> by (rewrite E; reflexivity). vm_compute. reflexivity.
Defined.
Lemma replay_reaches_watermark_witness :
  ∃ a', turn_assignments (snd (occur "E" (replay 40 "pool" "w1" [ev 1; ev 2; ev 3]) h3)) !! "E" = Some a' ∧
    as_HighestAppliedSequence a' = 3.
Proof.
  assert (∃ a, turn_assignments h3 !! "E" = Some a ∧ as_PoolID a = "pool" ∧ as_WorkerID a = "w1" ∧
    as_HighestAppliedSequence a = 0) as (a & Ha & Hp & Hw & Hh).
  { eexists. split; [vm_compute; reflexivity|]. split_and!; vm_compute; reflexivity. }
  destruct (replay_reaches_watermark 40 "E" [ev 1; ev 2; ev 3] h3 a 1) as (a' & Ha' & Hh');
    [exact Ha|reflexivity|rewrite Hh; discriminate|rewrite Hp, Hw; vm_compute; reflexivity|].
  rewrite Hp, Hw in Ha'. rewrite Hh in Hh'. exists a'. split; [exact Ha'|exact Hh'].
Defined.

(** The worker reports an event on its assigned turn. *)
Definition demo_event (k : TurnEventKind) (n : Z) : TurnEvent :=
  {| te_TurnId := "E"; te_Sequence := n; te_Kind := k; te_Body := NoJSON |}.
Definition dummy_conn : workerConn := new_conn EmptyString EmptyString 0 0.
Definition conn1 : workerConn := default dummy_conn (wp_heap (sv_pool assigned) !! 1%nat).
Lemma conn1_at : wp_heap (sv_pool assigned) !! 1%nat = Some conn1.
Proof. vm_compute. reflexivity. Qed.
Definition row1 : Assignment := default E_row (turn_assignments (sv_db assigned) !! "E").
Lemma row1_at : turn_assignments (sv_db assigned) !! "E" = Some row1.
Proof. vm_compute. reflexivity. Qed.
Lemma row1_active : active_row (sv_db assigned) "E" = Some row1.
Proof. vm_compute. reflexivity. Qed.
Lemma row1_owner : as_PoolID row1 = wc_poolID conn1 ∧ as_WorkerID row1 = wc_workerID conn1 ∧
  as_FencingGeneration row1 = wc_gen conn1 ∧ as_HighestAppliedSequence row1 = 0.
Proof. split_and!; vm_compute; reflexivity. Qed.
Lemma ack_only_after_commit_witness :
  ∃ s', snd (handleTurnEvent no_instance 15 (demo_event ToolResult 1) 1 assigned) = s' ∧
    ∃ a', turn_assignments (sv_db s') !! "E" = Some a' ∧ 1 ≤ as_HighestAppliedSequence a'.
Proof.
  destruct (handleTurnEvent no_instance 15 (demo_event ToolResult 1) 1 assigned) as [r s'] eqn:E.
  exists s'. split; [reflexivity|].
  destruct (ack_only_after_commit no_instance 15 (demo_event ToolResult 1) 1 conn1 assigned r s' row1 conn1_at
    ltac:(discriminate) row1_at (proj1 row1_owner) (proj1 (proj2 row1_owner)) E) as [Hs|H]; [|exact H].
  exfalso. assert (length (sv_sent s') = length (sv_sent assigned)) as Hl by (rewrite Hs; reflexivity).
  replace s' with (snd (handleTurnEvent no_instance 15 (demo_event ToolResult 1) 1 assigned)) in Hl
    by (rewrite E; reflexivity). vm_compute in Hl. discriminate.
Defined.
(** A second connection of the worker, not yet fenced in, presents an old generation. *)
Definition stale_pool : Service :=
  with_pool (put_conn 7 (new_conn "pool" "w1" 0 15) (sv_pool assigned)) assigned.
Lemma stale_connection_powerless_witness :
  sv_sent (snd (handleTurnEvent no_instance 16 (demo_event ToolResult 1) 7 stale_pool)) = sv_sent stale_pool.
Proof.
  apply (stale_connection_powerless no_instance 16 (demo_event ToolResult 1) 7 (new_conn "pool" "w1" 0 15) stale_pool row1).
  - vm_compute. reflexivity.
  - vm_compute. reflexivity.
  - right. vm_compute. discriminate.
Defined.
Lemma welcome_only_after_fence_witness :
  ∃ s' pool, work_connect 30 3 (Some demo_supervisor) "p1" "w1" refused = (None, s') ∧
    free_worker (po_ID pool) "w1" (sv_db s').
Proof.
  destruct (work_connect 30 3 (Some demo_supervisor) "p1" "w1" refused) as [r s'] eqn:E.
  assert (r = None) as -> by (replace r with (fst (work_connect 30 3 (Some demo_supervisor) "p1" "w1" refused))
    by (rewrite E; reflexivity); vm_compute; reflexivity).
  destruct (welcome_only_after_fence 30 3 (Some demo_supervisor) "p1" "w1" refused s' E)
    as (i & k & pool & Hi & _ & _ & Hw & _ & _ & Hf).
  exists s', pool. rewrite Hw. split; [reflexivity|exact Hf].
Defined.
Lemma unknown_event_wedges_turn_witness :
  let '(r, s1) := handleTurnEvent no_instance 16 (demo_event UnknownEvent 1) 1 assigned in
  fst (handleTurnEvent no_instance 16 (demo_event ToolResult 2) 1 s1) = Some ErrOutOfOrderSequence.
Proof.
  pose proof (unknown_event_wedges_turn no_instance 16 (demo_event UnknownEvent 1) (demo_event ToolResult 2) 1 conn1
    assigned row1 conn1_at) as H.
  destruct (handleTurnEvent no_instance 16 (demo_event UnknownEvent 1) 1 assigned) as [r s1].
  destruct (handleTurnEvent no_instance 16 (demo_event ToolResult 2) 1 s1) as [r' s2]. cbn [fst].
  apply H; try (vm_compute; reflexivity); try discriminate.
Defined.
Lemma reconnect_ack_never_sent_witness :
  ∃ s', snd (work_connect 30 3 (Some demo_supervisor) "p1" "w1" refused) = s' ∧
    (sv_sent s' = sv_sent refused ∨ ∃ gen, sv_sent s' = sv_sent refused ++ [(3%nat, CWelcome gen)]).
Proof.
  destruct (work_connect 30 3 (Some demo_supervisor) "p1" "w1" refused) as [r s'] eqn:E. exists s'. split; [reflexivity|].
  assert (r = None) as -> by (replace r with (fst (work_connect 30 3 (Some demo_supervisor) "p1" "w1" refused))
    by (rewrite E; reflexivity); vm_compute; reflexivity).
  apply (reconnect_ack_never_sent 30 3 demo_supervisor "p1" "w1" refused s'); [|exact E].
  intros k a H. assert (map_Forall (λ _ b, as_PoolID b ≠ "p1") (turn_assignments (sv_db refused))) as HF
    by (apply (bool_decide_unpack _); vm_compute; exact I). exact (HF k a H).
Defined.
