(* ===== verification/Consequence.v ===== *)
(** Consequence summaries (control-plane/internal/gateway/consequence.go): the
    localized, customer-safe text a write tool declares with its descriptor and the
    gateway renders from the call's arguments before the effect boundary.

    A template document is decoded to two Go maps; both are read by iteration, so
    rendering takes the order each locale iterates its fields in. [number_text] gives the
    literal of a [json.Number], which [json] does not keep. *)
From Stdlib Require Import Ascii.
From S2P Require Import Prelude Json Workflow WorkData.
From S2P Require Spiffe.

Definition maxConsequenceTemplateBytes : Z := 1000.
Definition maxConsequenceSummaryBytes : Z := 2000.
Definition byte_length (s : string) : Z := Z.of_nat (String.length s).

Record consequenceTemplate := mkTemplate {
  ct_LocalizedTemplates : gmap string string;
  ct_ArgumentPaths : gmap string string }.

Inductive CsErr :=
| errTemplateJSON
| errTemplateLocales
| errTemplateTooLong (locale : string)
| errInvalidPlaceholder (locale : string)
| errUnboundPlaceholder (field : string)
| errPointerRoot
| errPointerSlash
| errPointerEscape
| errUnusedPath (locale : string)
| errDecodeArguments
| errPathAbsent (pointer : string)
| errPathIndex (pointer : string)
| errPathScalar (pointer : string)
| errNotScalar (field : string)
| errUnresolved (locale : string)
| errSummaryTooLong.

(** [json.Unmarshal] into [map[string]string]: the members are added to the map, a
    [null] member is the empty string, a [null] document the empty map. *)
Definition add_member (acc : option (gmap string string)) (kv : string * json) : option (gmap string string) :=
  m ← acc; s ← unmarshal_string kv.2; Some (<[kv.1 := s]> m).
Definition unmarshal_string_map (acc : option (gmap string string)) (v : json) : option (gmap string string) :=
  match v with
  | JNull => _ ← acc; Some ∅
  | JObj l => foldl add_member acc l
  | _ => None
  end.
Definition unmarshal_template (raw : RawMessage) : option consequenceTemplate :=
  match raw with
  | GoodJSON JNull => Some (mkTemplate ∅ ∅)
  | GoodJSON (JObj l) =>
      texts ← foldl unmarshal_string_map (Some ∅) (field_values "localized_templates" l);
      paths ← foldl unmarshal_string_map (Some ∅) (field_values "argument_paths" l);
      Some (mkTemplate texts paths)
  | _ => None
  end.

(** * Placeholders *)
Definition is_letter (c : ascii) : bool :=
  let n := N_of_ascii c in (((65 <=? n) && (n <=? 90)) || ((97 <=? n) && (n <=? 122)))%N.
Definition is_word (c : ascii) : bool := is_letter c || is_digit c || Ascii.eqb c "_".
Fixpoint take_word (s : string) : string * string :=
  match s with
  | String c s' => if is_word c then let '(w, r) := take_word s' in (String c w, r) else (EmptyString, s)
  | EmptyString => (EmptyString, EmptyString)
  end.
(** [consequencePlaceholderPattern] at the start of [s]: the field and the rest. *)
Definition match_placeholder (s : string) : option (string * string) :=
  match s with
  | String a (String b (String c s')) =>
      if Ascii.eqb a "{" && Ascii.eqb b "{" && is_letter c then
        let '(w, r) := take_word s' in
        match r with
        | String x (String y r') =>
            if Ascii.eqb x "}" && Ascii.eqb y "}" then Some (String c w, r') else None
        | _ => None
        end
      else None
  | _ => None
  end.
Inductive token := Lit (c : ascii) | Field (f : string).
(** The leftmost non-overlapping matches and the text between them. Every token is at
    least a byte, so the length is enough fuel. *)
Fixpoint tokens (fuel : nat) (s : string) : list token :=
  match fuel with
  | O => []
  | S fuel' =>
      match match_placeholder s with
      | Some (f, r) => Field f :: tokens fuel' r
      | None => match s with
                | EmptyString => []
                | String c s' => Lit c :: tokens fuel' s'
                end
      end
  end.
Definition tokenize (s : string) : list token := tokens (String.length s) s.
Definition placeholder (f : string) : string := ("{{" +:+ f +:+ "}}")%string.
(** [FindAllStringSubmatch] and [ReplaceAllString] with the empty string. *)
Definition find_fields (s : string) : list string :=
  omap (λ t, match t with Field f => Some f | Lit _ => None end) (tokenize s).
Fixpoint strip_tokens (l : list token) : string :=
  match l with
  | [] => EmptyString
  | Lit c :: l' => String c (strip_tokens l')
  | Field _ :: l' => strip_tokens l'
  end.
Definition strip_fields (s : string) : string := strip_tokens (tokenize s).

(** [strings.HasPrefix], [strings.Contains]. *)
Definition HasPrefix (s p : string) : bool := bool_decide (is_Some (strip_prefix p s)).
Fixpoint Contains (s sub : string) : bool :=
  HasPrefix s sub ||
  match s with String _ s' => Contains s' sub | EmptyString => false end.
Definition has_marker (s : string) : bool := Contains s "{{" || Contains s "}}".

(** * JSON pointers *)
Fixpoint decode_part (s : string) : option string :=
  match s with
  | EmptyString => Some EmptyString
  | String c s' =>
      if Ascii.eqb c "~" then
        match s' with
        | String d s'' =>
            if Ascii.eqb d "0" then String "~" <$> decode_part s''
            else if Ascii.eqb d "1" then String "/" <$> decode_part s''
            else None
        | EmptyString => None
        end
      else String c <$> decode_part s'
  end.
Definition parseJSONPointer (pointer : string) : CsErr + list string :=
  match pointer with
  | EmptyString => inl errPointerRoot
  | String c rest =>
      if Ascii.eqb c "/" then
        match mapM decode_part (Spiffe.split_slash rest) with
        | Some parts => inr parts
        | None => inl errPointerEscape
        end
      else inl errPointerSlash
  end.

(** [strconv.Atoi]: an optional sign, decimal digits, the range of [int]. *)
Fixpoint all_digits (s : string) : bool :=
  match s with
  | EmptyString => true
  | String c s' => is_digit c && all_digits s'
  end.
Definition Atoi (s : string) : option Z :=
  let '(sign, body) :=
    match s with
    | String c s' => if Ascii.eqb c "-" then (-1, s') else if Ascii.eqb c "+" then (1, s') else (1, s)
    | EmptyString => (1, s)
    end in
  if String.eqb body EmptyString || negb (all_digits body) then None
  else
    let v := sign * (digits 0 0 body).1.1 in
    if (- int8_max - 1 <=? v) && (v <=? int8_max) then Some v else None.

Fixpoint walk_pointer (pointer : string) (parts : list string) (current : json) : CsErr + json :=
  match parts with
  | [] => inr current
  | part :: parts' =>
      match current with
      | JObj l =>
          match map_get part l with
          | Some v => walk_pointer pointer parts' v
          | None => inl (errPathAbsent pointer)
          end
      | JArr l =>
          match Atoi part with
          | Some i =>
              if (i <? 0) || (Z.of_nat (length l) <=? i) then inl (errPathIndex pointer)
              else match l !! Z.to_nat i with
                   | Some v => walk_pointer pointer parts' v
                   | None => inl (errPathIndex pointer)
                   end
          | None => inl (errPathIndex pointer)
          end
      | _ => inl (errPathScalar pointer)
      end
  end.
Definition resolveJSONPointer (value : json) (pointer : string) : CsErr + json :=
  parts ← parseJSONPointer pointer; walk_pointer pointer parts value.

(** * Validation *)
Definition EffectReadOnly : string := "read_only".
Definition EffectIdempotentWrite : string := "idempotent_write".
Definition EffectNonIdempotentWrite : string := "non_idempotent_write".

Definition check_placeholder (paths : gmap string string) (field : string) : CsErr + () :=
  match paths !! field with
  | Some path =>
      _ ← fail_if (negb (HasPrefix path "/")) (errUnboundPlaceholder field);
      _ ← parseJSONPointer path; inr ()
  | None => inl (errUnboundPlaceholder field)
  end.
Definition check_locale (paths : gmap string string) (locale text : string) : CsErr + () :=
  _ ← fail_if (maxConsequenceTemplateBytes <? byte_length text) (errTemplateTooLong locale);
  let fields := find_fields text in
  _ ← fail_if (has_marker (strip_fields text)) (errInvalidPlaceholder locale);
  _ ← range_check (λ _, check_placeholder paths) 0 fields;
  fail_if (negb (bool_decide (Forall (λ kv, kv.1 ∈ fields) (map_to_list paths)))) (errUnusedPath locale).
Definition sorted_locales (t : consequenceTemplate) : list string :=
  sort_strings (map_to_list (ct_LocalizedTemplates t)).*1.
Definition localized (t : consequenceTemplate) (locale : string) : string :=
  default EmptyString (ct_LocalizedTemplates t !! locale).
Definition is_blank (s : string) : bool := String.eqb (TrimSpace s) EmptyString.
Definition no_template (raw : RawMessage) : bool :=
  match raw with NoJSON => true | GoodJSON (JObj []) => true | _ => false end.

Definition check_template (effect : string) (t : consequenceTemplate) : CsErr + () :=
  _ ← fail_if (negb (String.eqb effect EffectReadOnly) &&
               (is_blank (localized t "en") || is_blank (localized t "pt"))) errTemplateLocales;
  range_check (λ _ locale, check_locale (ct_ArgumentPaths t) locale (localized t locale)) 0
    (sorted_locales t).
Definition validateConsequenceTemplate (effect : string) (raw : RawMessage) : CsErr + () :=
  if String.eqb effect EffectReadOnly && no_template raw then inr ()
  else match unmarshal_template raw with
       | None => inl errTemplateJSON
       | Some t => check_template effect t
       end.

(** * Rendering *)

(** [strings.ReplaceAll] of a non-empty [old]. *)
Fixpoint replace_all (fuel : nat) (old new s : string) : string :=
  match fuel with
  | O => s
  | S fuel' =>
      match strip_prefix old s with
      | Some r => new +:+ replace_all fuel' old new r
      | None => match s with
                | EmptyString => EmptyString
                | String c s' => String c (replace_all fuel' old new s')
                end
      end
  end.
Definition ReplaceAll (s old new : string) : string := replace_all (String.length s) old new s.

(** [json.Marshal] of a string: HTML-safe escapes, the line separators U+2028, U+2029. *)
Definition hex_digit (n : Z) : ascii := chr (if n <? 10 then 48 + n else 87 + n).
Definition u_escape (n : Z) : string :=
  String bslash (String "u" (String "0" (String "0"
    (String (hex_digit (n / 16)) (String (hex_digit (n mod 16)) EmptyString))))).
Definition two_escape (c : ascii) : string := String bslash (String c EmptyString).
Definition marshal_char (c : ascii) : string :=
  let n := Z.of_N (N_of_ascii c) in
  if (n =? 34) || (n =? 92) then two_escape c
  else if n =? 8 then two_escape "b" else if n =? 12 then two_escape "f"
  else if n =? 10 then two_escape "n" else if n =? 13 then two_escape "r"
  else if n =? 9 then two_escape "t"
  else if (n <? 32) || (n =? 60) || (n =? 62) || (n =? 38) then u_escape n
  else String c EmptyString.
Fixpoint marshal_chars (fuel : nat) (s : string) : string :=
  match fuel with
  | O => EmptyString
  | S fuel' =>
      match strip_prefix (utf8 8232) s with
      | Some r => String bslash ("u2028" +:+ marshal_chars fuel' r)
      | None =>
          match strip_prefix (utf8 8233) s with
          | Some r => String bslash ("u2029" +:+ marshal_chars fuel' r)
          | None => match s with
                    | EmptyString => EmptyString
                    | String c s' => marshal_char c +:+ marshal_chars fuel' s'
                    end
          end
      end
  end.
Definition marshal_string (s : string) : string :=
  String dquote (marshal_chars (String.length s) s +:+ String dquote EmptyString).
Fixpoint marshal_members (l : list (string * string)) : string :=
  match l with
  | [] => EmptyString
  | [(k, v)] => marshal_string k +:+ ":" +:+ marshal_string v
  | (k, v) :: l' => marshal_string k +:+ ":" +:+ marshal_string v +:+ "," +:+ marshal_members l'
  end.
(** [json.Marshal] of a [map[string]string]: the keys sorted. *)
Definition sorted_members (m : gmap string string) : list (string * string) :=
  (λ k, (k, default EmptyString (m !! k))) <$> sort_strings (map_to_list m).*1.
Definition marshal_string_map (m : gmap string string) : string :=
  "{" +:+ marshal_members (sorted_members m) +:+ "}".

(** [Decoder.Decode]: the first value of the stream. *)
Definition decode_first (s : string) : option json :=
  fst <$> parse_value (3 * S (String.length s)) s.

Section render.
Context (number_text : Z → Z → string).

Definition scalar_text (field : string) (v : json) : CsErr + string :=
  match v with
  | JStr s => inr s
  | JNum m e => inr (number_text m e)
  | JBool b => inr (if b then "true" else "false")
  | _ => inl (errNotScalar field)
  end.
Definition resolve_field (value : json) (field pointer : string) : CsErr + string :=
  v ← resolveJSONPointer value pointer; scalar_text field v.
Fixpoint resolve_fields (value : json) (paths : list (string * string)) : CsErr + list (string * string) :=
  match paths with
  | [] => inr []
  | (f, p) :: l => s ← resolve_field value f p; r ← resolve_fields value l; inr ((f, s) :: r)
  end.
(** One locale, its fields replaced in the order the map iteration gives them. *)
Definition substitute (fields : list (string * string)) (text : string) : string :=
  foldl (λ t fv, ReplaceAll t (placeholder fv.1) fv.2) text fields.
Definition render_locale (fields : list (string * string)) (locale text : string) : CsErr + string :=
  let text := substitute fields text in
  if has_marker text then inl (errUnresolved locale) else inr text.
Fixpoint render_locales (order : string → list (string * string)) (l : list (string * string))
    : CsErr + list (string * string) :=
  match l with
  | [] => inr []
  | (locale, text) :: l' =>
      t ← render_locale (order locale) locale text;
      r ← render_locales order l'; inr ((locale, t) :: r)
  end.
(** [arrange locale fields] is the order in which [range fields] runs for the locale. *)
Definition renderConsequenceSummary (arrange : string → list (string * string) → list (string * string))
    (effect : string) (raw : RawMessage) (arguments : string) : CsErr + option (gmap string string) :=
  if String.eqb effect EffectReadOnly then inr None
  else
    _ ← validateConsequenceTemplate effect raw;
    match unmarshal_template raw with
    | None => inl errTemplateJSON
    | Some t =>
        match decode_first arguments with
        | None => inl errDecodeArguments
        | Some value =>
            fields ← resolve_fields value (map_to_list (ct_ArgumentPaths t));
            out ← render_locales (λ locale, arrange locale fields) (map_to_list (ct_LocalizedTemplates t));
            let m := list_to_map out : gmap string string in
            _ ← fail_if (maxConsequenceSummaryBytes <? byte_length (marshal_string_map m)) errSummaryTooLong;
            inr (Some m)
        end
    end.
End render.

(** * Spot checks *)
Example tokenize_ex : tokenize "a{{{b}}" = [Lit "a"; Lit "{"; Field "b"].
Proof. reflexivity. Qed.
Example pointer_ex : parseJSONPointer "/a~1b/~0" = inr ["a/b"; "~"].
Proof. reflexivity. Qed.
Example marshal_ex : marshal_string_map (<["pt" := "a<b"]> (<["en" := ""]> ∅)) =
  "{" +:+ marshal_string "en" +:+ ":" +:+ marshal_string "" +:+ "," +:+ marshal_string "pt" +:+ ":" +:+ marshal_string "a<b" +:+ "}".
Proof. vm_compute. reflexivity. Qed.
Example marshal_html : marshal_string "<" = String dquote (String bslash "u003c") +:+ String dquote "".
Proof. reflexivity. Qed.
