(* ===== verification/ConsequenceFacts.v ===== *)
(** Consequence summaries: what a template must satisfy to be accepted, and that the
    field-by-field replacement of an accepted template is the simultaneous substitution
    of its placeholders, whatever order the fields are replaced in. *)
From Stdlib Require Import Ascii.
From S2P Require Import Prelude Json Workflow WorkData Consequence.
#[local] Arguments String.append !_ _ / : simpl nomatch.

(** * Strings *)
Lemma append_assoc (a b c : string) : ((a +:+ b) +:+ c = a +:+ (b +:+ c))%string.
Proof. induction a as [|x a IH]; [done|]. cbn. f_equal. exact IH. Qed.
Lemma append_nil_r (a : string) : (a +:+ EmptyString = a)%string.
Proof. induction a as [|x a IH]; [done|]. cbn. f_equal. exact IH. Qed.
Lemma length_append (a b : string) : String.length (a +:+ b) = (String.length a + String.length b)%nat.
Proof. induction a as [|x a IH]; [done|]. cbn. f_equal. exact IH. Qed.
Lemma strip_prefix_app p s : strip_prefix p (p +:+ s) = Some s.
Proof. induction p as [|c p IH]; cbn; [by destruct s|]. by rewrite Ascii.eqb_refl. Qed.
Lemma strip_prefix_Some p s r : strip_prefix p s = Some r ↔ s = (p +:+ r)%string.
Proof.
  split; [|intros ->; apply strip_prefix_app].
  revert s. induction p as [|c p IH]; intros s; cbn; [destruct s; congruence|].
  destruct s as [|d s]; [done|]. destruct (Ascii.eqb_spec c d) as [->|]; [|done].
  intros H. cbn. f_equal. by apply IH.
Qed.

(** No two adjacent bytes [c], reading on after a byte that was ([prev]) or was not [c]. *)
Fixpoint no_dbl (c : ascii) (prev : bool) (s : string) : bool :=
  match s with
  | EmptyString => true
  | String x s' => negb (prev && Ascii.eqb x c) && no_dbl c (Ascii.eqb x c) s'
  end.
Lemma no_dbl_weaken c b s : no_dbl c b s = true → no_dbl c false s = true.
Proof. destruct s as [|x s]; [done|]. cbn. by intros [_ H]%andb_prop. Qed.
Lemma contains_dbl c s : Contains s (String c (String c EmptyString)) = negb (no_dbl c false s).
Proof.
  induction s as [|x s IH]; [done|]. cbn [Contains no_dbl]. rewrite IH. cbn [negb andb].
  unfold HasPrefix. cbn [strip_prefix].
  destruct (Ascii.eqb_spec c x) as [->|Hx].
  - rewrite Ascii.eqb_refl. destruct s as [|y s]; [done|]. cbn [strip_prefix no_dbl].
    rewrite (Ascii.eqb_sym y x). destruct (Ascii.eqb_spec x y) as [->|]; cbn.
    + by destruct s.
    + done.
  - destruct (Ascii.eqb_spec x c) as [->|]; [done|]. done.
Qed.
Lemma has_marker_false s :
  has_marker s = false ↔ no_dbl "{" false s = true ∧ no_dbl "}" false s = true.
Proof.
  unfold has_marker. rewrite !contains_dbl.
  destruct (no_dbl "{" false s), (no_dbl "}" false s); cbn; naive_solver.
Qed.
(** A text without braces. *)
Fixpoint brace_free (s : string) : bool :=
  match s with
  | EmptyString => true
  | String c s' => negb (Ascii.eqb c "{") && negb (Ascii.eqb c "}") && brace_free s'
  end.
Lemma no_dbl_insert c b v s :
  (c = "{" ∨ c = "}")%char → brace_free v = true → no_dbl c b s = true → no_dbl c b (v +:+ s) = true.
Proof.
  intros Hc. revert b. induction v as [|x v IH]; intros b Hv Hs; [done|].
  cbn in Hv. apply andb_prop in Hv as [[H1 H2]%andb_prop Hv].
  assert (Ascii.eqb x c = false) as Hx by (destruct Hc as [-> | ->]; by apply negb_true_iff).
  cbn. rewrite Hx, andb_false_r. cbn. apply IH; [done|]. by eapply no_dbl_weaken.
Qed.

(** * Tokens *)
Fixpoint all_word (s : string) : bool :=
  match s with EmptyString => true | String c s' => is_word c && all_word s' end.
Definition is_ident (f : string) : bool :=
  match f with EmptyString => false | String c w => is_letter c && all_word w end.
Fixpoint print_tokens (l : list token) : string :=
  match l with
  | [] => EmptyString
  | Lit c :: l' => String c (print_tokens l')
  | Field f :: l' => (placeholder f +:+ print_tokens l')%string
  end.
Definition token_ok (t : token) : Prop :=
  match t with Lit _ => True | Field f => is_ident f = true end.
Definition token_fields (l : list token) : list string :=
  omap (λ t, match t with Field f => Some f | Lit _ => None end) l.

Lemma letter_not_open c : is_letter c = true → Ascii.eqb c "{" = false.
Proof. intros H. destruct (Ascii.eqb_spec c "{") as [->|]; [discriminate|done]. Qed.
Lemma word_not_brace c : is_word c = true → Ascii.eqb c "{" = false ∧ Ascii.eqb c "}" = false.
Proof.
  intros H. split.
  - destruct (Ascii.eqb_spec c "{") as [->|]; [discriminate|done].
  - destruct (Ascii.eqb_spec c "}") as [->|]; [discriminate|done].
Qed.
Lemma letter_word c : is_letter c = true → is_word c = true.
Proof. intros H. unfold is_word. by rewrite H. Qed.
Lemma take_word_spec s : let '(w, r) := take_word s in s = (w +:+ r)%string ∧ all_word w = true.
Proof.
  induction s as [|c s IH]; [done|]. cbn. destruct (is_word c) eqn:Hc; [|done].
  destruct (take_word s) as [w r]. destruct IH as [-> Hw]. cbn. by rewrite Hc, Hw.
Qed.
Lemma take_word_app w r :
  all_word w = true → take_word (w +:+ String "}" r) = (w, String "}" r).
Proof.
  induction w as [|c w IH]; [done|]. cbn. intros [Hc Hw]%andb_prop. by rewrite Hc, IH.
Qed.
Lemma placeholder_cons f : placeholder f = String "{" (String "{" (f +:+ "}}"))%string.
Proof. done. Qed.
Lemma match_placeholder_Some s f r :
  match_placeholder s = Some (f, r) → is_ident f = true ∧ s = (placeholder f +:+ r)%string.
Proof.
  destruct s as [|a [|b [|c s]]]; try done. cbn.
  destruct (Ascii.eqb_spec a "{") as [->|]; [|done]. destruct (Ascii.eqb_spec b "{") as [->|]; [|done].
  cbn. destruct (is_letter c) eqn:Hc; [|done]. pose proof (take_word_spec s) as Hw.
  destruct (take_word s) as [w t]. destruct Hw as [-> Hw]. destruct t as [|x [|y t]]; try done.
  destruct (Ascii.eqb_spec x "}") as [->|]; [|done]. destruct (Ascii.eqb_spec y "}") as [->|]; [|done].
  cbn. intros [= <- <-]. cbn. rewrite Hc, Hw. split; [done|].
  do 3 f_equal. by rewrite append_assoc.
Qed.
Lemma match_placeholder_app f r :
  is_ident f = true → match_placeholder (placeholder f +:+ r) = Some (f, r).
Proof.
  destruct f as [|c w]; [done|]. cbn. intros [Hc Hw]%andb_prop. rewrite Hc.
  rewrite append_assoc. cbn. rewrite take_word_app by done. done.
Qed.

Lemma tokens_spec fuel s :
  (String.length s ≤ fuel)%nat → print_tokens (tokens fuel s) = s ∧ Forall token_ok (tokens fuel s).
Proof.
  revert s. induction fuel as [|fuel IH]; intros s Hs.
  - destruct s; cbn in *; [done|lia].
  - cbn. destruct (match_placeholder s) as [[f r]|] eqn:Hm.
    + apply match_placeholder_Some in Hm as [Hf ->]. rewrite length_append in Hs. cbn in Hs.
      destruct (IH r) as [H1 H2]; [lia|]. cbn. rewrite H1. split; [done|]. by constructor.
    + destruct s as [|c s]; [done|]. cbn in Hs. destruct (IH s) as [H1 H2]; [lia|]. cbn. rewrite H1.
      split; [done|]. by constructor.
Qed.
Lemma tokenize_print s : print_tokens (tokenize s) = s.
Proof. by apply tokens_spec. Qed.
Lemma tokenize_ok s : Forall token_ok (tokenize s).
Proof. by apply tokens_spec. Qed.

(** A literal byte of a text without doubled braces starts no placeholder. *)
Lemma print_after_open l :
  Forall token_ok l → no_dbl "{" true (strip_tokens l) = true →
  match print_tokens l with
  | String b (String c _) => Ascii.eqb b "{" = true → Ascii.eqb c "{" = true
  | _ => True
  end.
Proof.
  destruct l as [|[c|f] l]; cbn.
  - done.
  - intros _ [H _]%andb_prop. destruct (print_tokens l); [done|].
    intros Hc. by rewrite Hc in H.
  - done.
Qed.
Lemma lit_no_match c l :
  Forall token_ok l → no_dbl "{" false (strip_tokens (Lit c :: l)) = true →
  match_placeholder (String c (print_tokens l)) = None.
Proof.
  cbn [strip_tokens no_dbl]. cbn. intros Hok H. destruct (Ascii.eqb_spec c "{") as [->|Hc].
  - pose proof (print_after_open l Hok H) as Hp. destruct (print_tokens l) as [|b [|d s]]; try done.
    destruct (Ascii.eqb b "{"); [|done]. specialize (Hp eq_refl). cbn.
    destruct (is_letter d) eqn:Hd; [|done]. apply letter_not_open in Hd. congruence.
  - destruct (print_tokens l) as [|b [|d s]]; done.
Qed.
Lemma no_dbl_tail c b x s : no_dbl c b (String x s) = true → no_dbl c false s = true.
Proof. cbn. intros [_ H]%andb_prop. by eapply no_dbl_weaken. Qed.

(** Tokenizing is the inverse of printing on well-formed token lists. *)
Lemma tokens_print l fuel :
  Forall token_ok l → no_dbl "{" false (strip_tokens l) = true →
  (String.length (print_tokens l) ≤ fuel)%nat → tokens fuel (print_tokens l) = l.
Proof.
  revert fuel. induction l as [|[c|f] l IH]; intros fuel Hok Hd Hf; cbn [print_tokens] in *.
  - by destruct fuel.
  - apply Forall_cons in Hok as [_ Hok]. destruct fuel as [|fuel]; [cbn in Hf; lia|].
    cbn [tokens]. rewrite lit_no_match by done. rewrite IH; [done|done| |cbn in Hf; lia].
    by eapply no_dbl_tail.
  - apply Forall_cons in Hok as [Hi Hok]. rewrite length_append in Hf.
    destruct fuel as [|fuel]; [cbn in Hf; lia|].
    cbn [tokens]. rewrite match_placeholder_app by done. rewrite IH; [done|done|done|cbn in Hf; lia].
Qed.
Lemma tokenize_of_print l :
  Forall token_ok l → no_dbl "{" false (strip_tokens l) = true → tokenize (print_tokens l) = l.
Proof. intros. by apply tokens_print. Qed.

(** * Replacing one field *)
Fixpoint lits (s : string) (l : list token) : list token :=
  match s with EmptyString => l | String c s' => Lit c :: lits s' l end.
Fixpoint subst1 (f v : string) (l : list token) : list token :=
  match l with
  | [] => []
  | Lit c :: l' => Lit c :: subst1 f v l'
  | Field g :: l' => if String.eqb g f then lits v (subst1 f v l') else Field g :: subst1 f v l'
  end.
Lemma print_lits v l : print_tokens (lits v l) = (v +:+ print_tokens l)%string.
Proof. induction v as [|c v IH]; [done|]. cbn. f_equal. exact IH. Qed.
Lemma strip_lits v l : strip_tokens (lits v l) = (v +:+ strip_tokens l)%string.
Proof. induction v as [|c v IH]; [done|]. cbn. f_equal. exact IH. Qed.
Lemma lits_ok v l : Forall token_ok l → Forall token_ok (lits v l).
Proof. intros H. induction v as [|c v IH]; [done|]. by constructor. Qed.
Lemma subst1_ok f v l : Forall token_ok l → Forall token_ok (subst1 f v l).
Proof.
  induction 1 as [|[c|g] l Ht Hl IH]; cbn; [done|by constructor|].
  destruct (String.eqb g f); [by apply lits_ok|by constructor].
Qed.
Lemma subst1_no_dbl c b f v l :
  (c = "{" ∨ c = "}")%char → brace_free v = true →
  no_dbl c b (strip_tokens l) = true → no_dbl c b (strip_tokens (subst1 f v l)) = true.
Proof.
  intros Hc Hv. revert b. induction l as [|[x|g] l IH]; intros b; cbn; [done| |].
  - intros [H1 H2]%andb_prop. rewrite H1. cbn. by apply IH.
  - intros H. destruct (String.eqb g f); [|by apply IH].
    rewrite strip_lits. apply no_dbl_insert; auto.
Qed.

Lemma strip_placeholder_open f s r :
  strip_prefix (placeholder f) (String "{" s) = Some r → ∃ s', s = String "{" s' ∧ strip_prefix (f +:+ "}}")%string s' = Some r.
Proof. intros [= ->]%strip_prefix_Some. eexists. split; [done|]. by apply strip_prefix_Some. Qed.
Lemma ident_word f : is_ident f = true → all_word f = true.
Proof. destruct f as [|c f]; [done|]. cbn. intros [H1 H2]%andb_prop. by rewrite letter_word, H2. Qed.
Lemma word_prefix_inj v w x y :
  all_word v = true → all_word w = true → (v +:+ String "}" x = w +:+ String "}" y)%string → v = w.
Proof.
  revert w. induction v as [|c v IH]; intros [|d w] Hv Hw Heq; [done| | |]; cbn in *.
  - injection Heq as <- _. discriminate.
  - injection Heq as -> _. discriminate.
  - injection Heq as -> Heq. apply andb_prop in Hv as [_ Hv], Hw as [_ Hw]. f_equal. eauto.
Qed.
Lemma strip_other f g s :
  is_ident f = true → is_ident g = true → f ≠ g →
  strip_prefix (f +:+ "}}") (g +:+ "}}" +:+ s)%string = None.
Proof.
  intros Hf%ident_word Hg%ident_word Hne. destruct (strip_prefix _ _) as [r|] eqn:Hs; [|done].
  apply strip_prefix_Some in Hs. rewrite append_assoc in Hs. exfalso.
  apply Hne. symmetry. by eapply word_prefix_inj.
Qed.
Lemma strip_placeholder_first f c s : Ascii.eqb c "{" = false → strip_prefix (placeholder f) (String c s) = None.
Proof.
  intros H. destruct (strip_prefix _ _) as [r|] eqn:Hs; [|done].
  apply strip_prefix_Some in Hs as [= ->]. discriminate.
Qed.
Lemma lit_no_occurrence f c l :
  is_ident f = true → Forall token_ok l → no_dbl "{" false (strip_tokens (Lit c :: l)) = true →
  strip_prefix (placeholder f) (String c (print_tokens l)) = None.
Proof.
  intros Hf Hok Hd. destruct (strip_prefix _ _) as [r|] eqn:Hs; [|done]. exfalso.
  apply strip_prefix_Some in Hs. pose proof (lit_no_match c l Hok Hd) as Hn.
  rewrite Hs, match_placeholder_app in Hn by done. done.
Qed.

(** Text without an opening brace is copied. *)
Fixpoint no_open (s : string) : bool :=
  match s with EmptyString => true | String c s' => negb (Ascii.eqb c "{") && no_open s' end.
Lemma replace_skip f v w s fuel :
  no_open w = true → (String.length w ≤ fuel)%nat →
  replace_all fuel (placeholder f) v (w +:+ s) =
    (w +:+ replace_all (fuel - String.length w) (placeholder f) v s)%string.
Proof.
  revert fuel. induction w as [|c w IH]; intros fuel Hw Hf; cbn [String.append String.length no_open] in *.
  - by rewrite Nat.sub_0_r.
  - apply andb_prop in Hw as [Hc%negb_true_iff Hw]. destruct fuel as [|fuel]; [lia|].
    cbn [replace_all]. rewrite strip_placeholder_first by done. f_equal. rewrite IH by (done || lia). done.
Qed.
Lemma word_no_open w : all_word w = true → no_open (w +:+ "}}") = true.
Proof.
  induction w as [|c w IH]; [done|]. cbn [all_word String.append no_open]. intros [Hc Hw]%andb_prop.
  apply word_not_brace in Hc as [-> _]. by rewrite IH.
Qed.
Lemma replace_other f g v s fuel :
  is_ident f = true → is_ident g = true → f ≠ g → (String.length (placeholder g) ≤ fuel)%nat →
  replace_all fuel (placeholder f) v (placeholder g +:+ s) =
    (placeholder g +:+ replace_all (fuel - String.length (placeholder g)) (placeholder f) v s)%string.
Proof.
  intros Hf Hg Hne Hfu. rewrite (placeholder_cons g) in *. cbn [String.append String.length] in *.
  destruct fuel as [|[|fuel]]; [lia|lia|]. cbn [replace_all].
  destruct (strip_prefix (placeholder f) (String "{" (String "{" _))) as [r|] eqn:Hs.
  { apply strip_placeholder_open in Hs as (s' & [= <-] & Hs). rewrite append_assoc in Hs.
    by rewrite strip_other in Hs. }
  clear Hs. destruct (strip_prefix (placeholder f) (String "{" ((g +:+ "}}") +:+ s))) as [r|] eqn:Hs.
  { apply strip_placeholder_open in Hs as (s' & Hs & _). destruct g as [|c w]; [done|].
    injection Hs as -> _. discriminate. }
  do 2 f_equal. rewrite replace_skip; [done|by apply word_no_open, ident_word|lia].
Qed.
Lemma replace_field f v l fuel :
  is_ident f = true → Forall token_ok l → no_dbl "{" false (strip_tokens l) = true →
  (String.length (print_tokens l) ≤ fuel)%nat →
  replace_all fuel (placeholder f) v (print_tokens l) = print_tokens (subst1 f v l).
Proof.
  intros Hf. revert fuel. induction l as [|[c|g] l IH]; intros fuel Hok Hd Hfu; cbn [print_tokens] in *.
  - by destruct fuel.
  - apply Forall_cons in Hok as [_ Hok]. destruct fuel as [|fuel]; [cbn in Hfu; lia|].
    cbn [replace_all]. rewrite lit_no_occurrence by done. cbn [subst1 print_tokens]. f_equal.
    apply IH; [done| |cbn in Hfu; lia]. by eapply no_dbl_tail.
  - apply Forall_cons in Hok as [Hg Hok]. rewrite length_append in Hfu. cbn [subst1].
    destruct (String.eqb_spec g f) as [->|Hne].
    + destruct fuel as [|fuel]; [cbn in Hfu; lia|]. cbn [replace_all].
      rewrite strip_prefix_app, print_lits. f_equal. apply IH; [done|done|cbn in Hfu; lia].
    + cbn [print_tokens]. rewrite replace_other by (done || lia). f_equal. apply IH; [done|done|lia].
Qed.

(** * What is accepted *)
Definition valid_pointer (p : string) : Prop := ∃ parts, parseJSONPointer p = inr parts.
(** The text of a locale: bounded, made of literals without doubled braces and of
    placeholders, which are exactly the bound fields. *)
Definition locale_accepted (paths : gmap string string) (text : string) : Prop :=
  byte_length text ≤ maxConsequenceTemplateBytes ∧
  ∃ toks, Forall token_ok toks ∧ text = print_tokens toks ∧
    has_marker (strip_tokens toks) = false ∧
    (∀ f, f ∈ token_fields toks ↔ is_Some (paths !! f)) ∧
    (∀ f p, paths !! f = Some p → valid_pointer p).
Definition template_accepted (effect : string) (t : consequenceTemplate) : Prop :=
  (effect ≠ EffectReadOnly → is_blank (localized t "en") = false ∧ is_blank (localized t "pt") = false) ∧
  ∀ locale text, ct_LocalizedTemplates t !! locale = Some text → locale_accepted (ct_ArgumentPaths t) text.

Lemma check_placeholder_inr paths f u :
  check_placeholder paths f = inr u ↔ ∃ p, paths !! f = Some p ∧ valid_pointer p.
Proof.
  destruct u. unfold check_placeholder, valid_pointer. destruct (paths !! f) as [p|]; [|naive_solver].
  rewrite result_bind_inr. split.
  - intros ([] & _ & H). apply result_bind_inr in H as (parts & H & _). eauto.
  - intros (q & [= <-] & parts & H). exists (). rewrite fail_if_inr. split.
    + destruct p as [|c p]; [done|]. cbn [parseJSONPointer] in H.
      destruct (Ascii.eqb_spec c "/") as [->|]; [|done]. cbn. by destruct p.
    + by rewrite H.
Qed.
Lemma check_locale_steps paths locale text :
  check_locale paths locale text = inr () ↔
  byte_length text ≤ maxConsequenceTemplateBytes ∧ has_marker (strip_fields text) = false ∧
  (∀ f, f ∈ find_fields text → ∃ p, paths !! f = Some p ∧ valid_pointer p) ∧
  (∀ f, is_Some (paths !! f) → f ∈ find_fields text).
Proof.
  assert ((range_check (λ _, check_placeholder paths) 0 (find_fields text) = inr ()) ↔
          ∀ f, f ∈ find_fields text → ∃ p, paths !! f = Some p ∧ valid_pointer p) as Hr.
  { rewrite <- Forall_forall. apply range_check_Forall. intros; apply check_placeholder_inr. }
  assert (negb (bool_decide (Forall (λ kv, kv.1 ∈ find_fields text) (map_to_list paths))) = false ↔
          ∀ f, is_Some (paths !! f) → f ∈ find_fields text) as Hu.
  { rewrite negb_false_iff, bool_decide_eq_true, Forall_forall. split.
    - intros H f [p Hp]. by apply (H (f, p)), elem_of_map_to_list.
    - intros H [f p] Hin%elem_of_map_to_list. apply H. eauto. }
  unfold check_locale. cbv zeta. split.
  - intros H. inv_res. rewrite <- Hr, <- Hu. rewrite Z.ltb_ge in *. done.
  - intros (Hlen & -> & H1%Hr & H2%Hu). rewrite H1, H2.
    destruct (Z.ltb_spec maxConsequenceTemplateBytes (byte_length text)); [lia|done].
Qed.
Lemma check_locale_inr paths locale text u :
  check_locale paths locale text = inr u ↔ locale_accepted paths text.
Proof.
  destruct u. rewrite check_locale_steps. split.
  - intros (Hlen & Hm & Hf & Hu). split; [done|]. exists (tokenize text).
    split; [apply tokenize_ok|]. split; [by rewrite tokenize_print|]. split; [done|]. split.
    + intros f. split; [intros Hin; destruct (Hf f Hin) as (p & -> & _); eauto|apply Hu].
    + intros f p Hp. destruct (Hf f) as (q & Hq & ?); [apply Hu; eauto|]. by simplify_eq.
  - intros (Hlen & toks & Hok & -> & Hm & Hdom & Hp). pose proof Hm as [Hd _]%has_marker_false.
    unfold strip_fields, find_fields. rewrite tokenize_of_print by done.
    repeat split; [done|done|intros f [p Hf]%Hdom; eauto|intros f; apply Hdom].
Qed.
Lemma elem_of_sorted_locales t locale :
  locale ∈ sorted_locales t ↔ is_Some (ct_LocalizedTemplates t !! locale).
Proof.
  unfold sorted_locales. rewrite sort_strings_perm, list_elem_of_fmap. split.
  - intros ([k v] & -> & H). apply elem_of_map_to_list in H. eauto.
  - intros [v H]. exists (locale, v). by rewrite elem_of_map_to_list.
Qed.
Lemma check_template_inr effect t u : check_template effect t = inr u ↔ template_accepted effect t.
Proof.
  destruct u. unfold check_template, template_accepted.
  assert (range_check (λ _ locale, check_locale (ct_ArgumentPaths t) locale (localized t locale)) 0
            (sorted_locales t) = inr () ↔
          ∀ locale text, ct_LocalizedTemplates t !! locale = Some text →
            locale_accepted (ct_ArgumentPaths t) text) as Hr.
  { rewrite (range_check_Forall _ (λ locale, locale_accepted (ct_ArgumentPaths t) (localized t locale)));
      [|intros; apply check_locale_inr].
    rewrite Forall_forall. unfold localized. split.
    - intros H locale text Ht. specialize (H locale). rewrite Ht in H. apply H.
      apply elem_of_sorted_locales. eauto.
    - intros H locale [text Ht]%elem_of_sorted_locales. rewrite Ht. eauto. }
  rewrite <- Hr. clear Hr. split.
  - intros H. inv_res. split; [|done]. intros Hne%String.eqb_neq. rewrite Hne in *. by apply orb_false_iff.
  - intros [Hb ->]. destruct (String.eqb_spec effect EffectReadOnly) as [|Hne]; [done|].
    destruct (Hb Hne) as [-> ->]. done.
Qed.

(** A descriptor's consequence template is accepted exactly when it is absent from a
    read-only tool, or decodes to non-blank English and Portuguese texts (for a write) whose
    every locale is at most 1000 bytes, has no stray doubled brace, and uses exactly the
    placeholders that are bound, each to a valid JSON pointer. *)
Theorem template_acceptance effect raw :
  validateConsequenceTemplate effect raw = inr () ↔
  (effect = EffectReadOnly ∧ no_template raw = true) ∨
  ∃ t, unmarshal_template raw = Some t ∧ template_accepted effect t.
Proof.
  unfold validateConsequenceTemplate.
  destruct (String.eqb_spec effect EffectReadOnly) as [->|Hne]; cbn [andb].
  - destruct (no_template raw) eqn:Hn.
    + split; [by left|done].
    + destruct (unmarshal_template raw) as [t|]; [rewrite check_template_inr|]; naive_solver.
  - destruct (unmarshal_template raw) as [t|]; [rewrite check_template_inr|]; naive_solver.
Qed.

(** * Rendering *)

(** The reference: every placeholder replaced at once. *)
Fixpoint subst_tokens (values : gmap string string) (l : list token) : string :=
  match l with
  | [] => EmptyString
  | Lit c :: l' => String c (subst_tokens values l')
  | Field f :: l' => (default EmptyString (values !! f) +:+ subst_tokens values l')%string
  end.
Lemma subst_lits values v l : subst_tokens values (lits v l) = (v +:+ subst_tokens values l)%string.
Proof. induction v as [|c v IH]; [done|]. cbn. f_equal. exact IH. Qed.
Lemma subst_subst1 values f v l :
  subst_tokens values (subst1 f v l) = subst_tokens (<[f := v]> values) l.
Proof.
  induction l as [|[c|g] l IH]; [done| |]; cbn.
  - by rewrite IH.
  - destruct (String.eqb_spec g f) as [->|Hne].
    + by rewrite subst_lits, IH, lookup_insert_eq.
    + cbn. by rewrite IH, lookup_insert_ne.
Qed.
Lemma token_fields_lits v l : token_fields (lits v l) = token_fields l.
Proof. induction v as [|c v IH]; [done|]. exact IH. Qed.
Lemma elem_of_fields_subst1 f v l g :
  g ∈ token_fields (subst1 f v l) ↔ g ∈ token_fields l ∧ g ≠ f.
Proof.
  induction l as [|[c|h] l IH]; cbn.
  - split; [by intros ?%not_elem_of_nil|intros [?%not_elem_of_nil _]; done].
  - exact IH.
  - destruct (String.eqb_spec h f) as [->|Hne].
    + fold (token_fields (lits v (subst1 f v l))). rewrite token_fields_lits, IH, elem_of_cons. naive_solver.
    + cbn. fold (token_fields (subst1 f v l)). rewrite !elem_of_cons.
      fold (token_fields l). rewrite IH. naive_solver.
Qed.
Lemma no_fields_strip values l :
  (∀ g, g ∉ token_fields l) → print_tokens l = subst_tokens values l ∧ strip_tokens l = print_tokens l.
Proof.
  induction l as [|[c|f] l IH]; [done| |]; cbn; intros H.
  - destruct IH as [<- ->]; [exact H|done].
  - exfalso. apply (H f). left.
Qed.

Lemma substitute_tokens fields l :
  Forall (λ fv, is_ident fv.1 = true ∧ brace_free fv.2 = true) fields → NoDup fields.*1 →
  Forall token_ok l → has_marker (strip_tokens l) = false →
  (∀ f, f ∈ token_fields l → f ∈ fields.*1) →
  substitute fields (print_tokens l) = subst_tokens (list_to_map fields) l ∧
  has_marker (substitute fields (print_tokens l)) = false.
Proof.
  intros Hf Hnd Hok [Hd1 Hd2]%has_marker_false. unfold substitute.
  revert l Hok Hd1 Hd2. induction Hf as [|[f v] fields [Hi Hb] Hf IH]; intros l Hok Hd1 Hd2 Hin.
  - cbn. destruct (no_fields_strip ∅ l) as [H1 H2]; [intros g Hg%Hin; by apply not_elem_of_nil in Hg|].
    split; [done|]. apply has_marker_false. by rewrite <- H2.
  - rewrite fmap_cons in Hnd, Hin. apply NoDup_cons in Hnd as [Hni Hnd].
    cbn [foldl fst snd] in *. unfold ReplaceAll. rewrite replace_field by done.
    rewrite list_to_map_cons, <- subst_subst1.
    apply IH; [done|by apply subst1_ok|by apply subst1_no_dbl; auto..|].
    intros g [Hg Hne]%elem_of_fields_subst1. apply Hin in Hg. by apply elem_of_cons in Hg as [?|?].
Qed.

Section render_facts.
Context (number_text : Z → Z → string).

Lemma resolve_fields_keys value paths fields :
  resolve_fields number_text value paths = inr fields → fields.*1 = paths.*1.
Proof.
  revert fields. induction paths as [|[f p] paths IH]; intros fields H; cbn [resolve_fields] in H.
  - by injection H as <-.
  - inv_res. match goal with H : inr _ = inr _ |- _ => injection H as <- end. cbn. f_equal. by apply IH.
Qed.
Lemma render_locales_ok order (l : list (string * string)) (g : string → string) :
  (∀ locale text, (locale, text) ∈ l → render_locale (order locale) locale text = inr (g text)) →
  render_locales order l = inr ((λ kv, (kv.1, g kv.2)) <$> l).
Proof.
  induction l as [|[locale text] l IH]; intros H; [done|]. cbn [render_locales].
  rewrite H by left. rewrite IH by (intros; apply H; by right). done.
Qed.
Lemma list_to_map_fmap_values (m : gmap string string) (g : string → string) :
  (list_to_map ((λ kv, (kv.1, g kv.2)) <$> map_to_list m) : gmap string string) = g <$> m.
Proof.
  transitivity (g <$> (list_to_map (map_to_list m) : gmap string string));
    [|by rewrite list_to_map_to_list].
  by rewrite <- list_to_map_fmap.
Qed.

(** The gateway replaces the fields of an accepted template one after the other, in the
    order Go's map iteration happens to give. When the argument values contain no brace the
    summary is nevertheless the simultaneous substitution of every placeholder, in every
    locale and for every iteration order, and is refused only for its size. *)
Theorem render_is_simultaneous arrange effect raw arguments t value fields :
  (∀ locale l, arrange locale l ≡ₚ l) →
  effect ≠ EffectReadOnly →
  validateConsequenceTemplate effect raw = inr () →
  unmarshal_template raw = Some t →
  decode_first arguments = Some value →
  resolve_fields number_text value (map_to_list (ct_ArgumentPaths t)) = inr fields →
  Forall (λ fv, brace_free fv.2 = true) fields →
  let out := (λ text, subst_tokens (list_to_map fields) (tokenize text)) <$> ct_LocalizedTemplates t in
  renderConsequenceSummary number_text arrange effect raw arguments =
    if maxConsequenceSummaryBytes <? byte_length (marshal_string_map out)
    then inl errSummaryTooLong else inr (Some out).
Proof.
  intros Harr Hne Hv Ht Hd Hf Hb out. unfold renderConsequenceSummary.
  rewrite (proj2 (String.eqb_neq _ _) Hne), Hv. unfold mbind, result_bind. rewrite Ht, Hd, Hf.
  unfold validateConsequenceTemplate in Hv. rewrite (proj2 (String.eqb_neq _ _) Hne), Ht in Hv.
  apply check_template_inr in Hv as [_ Hacc].
  pose proof (resolve_fields_keys _ _ _ Hf) as Hkeys.
  assert (NoDup fields.*1) as Hnd by (rewrite Hkeys; apply NoDup_fst_map_to_list).
  rewrite (render_locales_ok _ _ (λ text, subst_tokens (list_to_map fields) (tokenize text))).
  - change (list_to_map _) with (list_to_map ((λ kv, (kv.1, (λ text, subst_tokens (list_to_map fields)
      (tokenize text)) kv.2)) <$> map_to_list (ct_LocalizedTemplates t)) : gmap string string).
    rewrite list_to_map_fmap_values. fold out. unfold fail_if. by destruct (_ <? _).
  - intros locale text Hin%elem_of_map_to_list. apply Hacc in Hin as (_ & toks & Hok & -> & Hm & Hdom & _).
    pose proof Hm as [Hd1 _]%has_marker_false. rewrite tokenize_of_print by done.
    rewrite <- (list_to_map_proper (arrange locale fields) fields); [|by rewrite Harr|done].
    destruct (substitute_tokens (arrange locale fields) toks) as [Hs Hn]; [| |done|done| |].
    + rewrite Harr. apply Forall_forall. intros [f v] Hfv. rewrite Forall_forall in Hb.
      split; [|by apply (Hb (f, v))]. assert (f ∈ token_fields toks) as Hft.
      { apply Hdom. assert (f ∈ fields.*1) as Hfk by (apply list_elem_of_fmap; by exists (f, v)).
        rewrite Hkeys in Hfk. apply list_elem_of_fmap in Hfk as ([f' p] & -> & Hp%elem_of_map_to_list). eauto. }
      apply list_elem_of_omap in Hft as ([c|g] & Hg & Heq); [done|]. injection Heq as ->.
      rewrite Forall_forall in Hok. by apply (Hok _ Hg).
    + by rewrite Harr.
    + intros f [p Hp]%Hdom. rewrite Harr, Hkeys. apply list_elem_of_fmap. exists (f, p).
      by rewrite elem_of_map_to_list.
    + unfold render_locale. cbv zeta. by rewrite Hn, Hs.
Qed.
End render_facts.

(** * Concrete templates *)
Definition demo_template : RawMessage :=
  GoodJSON (JObj [("localized_templates", JObj [("en", JStr "Mail {{to}} about {{subject}}");
                                                ("pt", JStr "{{subject}} para {{to}}")]);
                  ("argument_paths", JObj [("to", JStr "/to/0"); ("subject", JStr "/subject")])]).
Definition demo_number (m e : Z) : string := "0".
(** A JSON text, written with single quotes. *)
Fixpoint quoted (s : string) : string :=
  match s with
  | EmptyString => EmptyString
  | String c s' => String (if Ascii.eqb c "'" then dquote else c) (quoted s')
  end.
Definition demo_arguments : string := quoted "{'to':['ann'],'subject':'tea'}".

Lemma template_acceptance_demo :
  validateConsequenceTemplate EffectNonIdempotentWrite demo_template = inr () ∧
  validateConsequenceTemplate EffectNonIdempotentWrite (GoodJSON (JObj [])) = inl errTemplateLocales ∧
  validateConsequenceTemplate EffectReadOnly (GoodJSON (JObj [])) = inr ().
Proof. vm_compute. done. Qed.

Lemma render_is_simultaneous_witness :
  renderConsequenceSummary demo_number (λ _ l, reverse l) EffectNonIdempotentWrite demo_template demo_arguments =
    inr (Some (<["en" := "Mail ann about tea"]> (<["pt" := "tea para ann"]> ∅))).
Proof.
  rewrite (render_is_simultaneous demo_number (λ _ l, reverse l) EffectNonIdempotentWrite demo_template
             demo_arguments
             (mkTemplate (<["en" := "Mail {{to}} about {{subject}}"]> (<["pt" := "{{subject}} para {{to}}"]> ∅))
                (<["to" := "/to/0"]> (<["subject" := "/subject"]> ∅)))
             (JObj [("to", JArr [JStr "ann"]); ("subject", JStr "tea")])
             (map_to_list (<["to" := "ann"]> (<["subject" := "tea"]> ∅)))).
  - vm_compute. reflexivity.
  - intros _ l. apply reverse_Permutation.
  - discriminate.
  - vm_compute. reflexivity.
  - vm_compute. reflexivity.
  - vm_compute. reflexivity.
  - vm_compute. reflexivity.
  - vm_compute. repeat constructor.
Defined.

(** The order does matter when a value contains a placeholder: with the recipient
    [{{subject}}], replacing the recipient first copies the subject into its place, replacing
    it last leaves the summary unresolved and refuses the call. *)
Theorem render_depends_on_order :
  let arguments := quoted "{'to':['{{subject}}'],'subject':'tea'}" in
  let first f (l : list (string * string)) :=
    filter (λ kv, kv.1 = f) l ++ filter (λ kv, kv.1 ≠ f) l in
  renderConsequenceSummary demo_number (λ _, first "to") EffectNonIdempotentWrite demo_template arguments =
    inr (Some (<["en" := "Mail tea about tea"]> (<["pt" := "tea para tea"]> ∅))) ∧
  ∃ locale,
    renderConsequenceSummary demo_number (λ _, first "subject") EffectNonIdempotentWrite demo_template arguments =
      inl (errUnresolved locale).
Proof. vm_compute. split; [reflexivity|]. eexists. reflexivity. Qed.
