(* ===== verification/Proc.v ===== *)
(** Processes that share a state.

    A request handler runs concurrently with other handlers and with background loops. It
    is a tree of atomic actions on the shared state (a database statement or transaction,
    a critical section, a channel operation) and of questions to its environment (the
    clock, the network, which branch of a [select] fires), whose answers are arbitrary. An
    atomic action that returns [None] is not enabled: the process blocks until another one
    has changed the state. [tsteps] interleaves any number of processes. *)
From S2P Require Import Prelude.

Inductive proc (S : Type) (Q : Type → Type) (A : Type) : Type :=
| Ret (a : A)
| Atomic {R : Type} (f : S → option (R * S)) (k : R → proc S Q A)
| Ask {R : Type} (q : Q R) (k : R → proc S Q A).
Arguments Ret {S Q A}.
Arguments Atomic {S Q A R}.
Arguments Ask {S Q A R}.

Section proc_ops.
Context {S : Type} {Q : Type → Type}.
#[global] Instance proc_ret : MRet (proc S Q) := λ A a, Ret a.
Fixpoint proc_bind_ {A B} (k : A → proc S Q B) (p : proc S Q A) : proc S Q B :=
  match p with
  | Ret a => k a
  | Atomic f h => Atomic f (λ r, proc_bind_ k (h r))
  | Ask q h => Ask q (λ r, proc_bind_ k (h r))
  end.
#[global] Instance proc_bind : MBind (proc S Q) := λ A B k p, proc_bind_ k p.
Definition ask {R} (q : Q R) : proc S Q R := Ask q Ret.
Definition atomically {R} (f : S → R * S) : proc S Q R := Atomic (λ s, Some (f s)) Ret.
Definition update (f : S → S) : proc S Q () := atomically (λ s, ((), f s)).
Definition inspect {R} (f : S → R) : proc S Q R := atomically (λ s, (f s, s)).
End proc_ops.

(** * One process *)
Section semantics.
Context {S : Type} {Q : Type → Type}.

Inductive pstep {A} : proc S Q A → S → proc S Q A → S → Prop :=
| step_atomic {R} (f : S → option (R * S)) k s r s' :
    f s = Some (r, s') → pstep (Atomic f k) s (k r) s'
| step_ask {R} (q : Q R) k s r : pstep (Ask q k) s (k r) s.

(** The process with the others' steps in between: [R] is what they may do. *)
Inductive psteps {A} (R : S → S → Prop) : proc S Q A → S → proc S Q A → S → Prop :=
| psteps_refl p s : psteps R p s p s
| psteps_own p s p1 s1 p2 s2 : pstep p s p1 s1 → psteps R p1 s1 p2 s2 → psteps R p s p2 s2
| psteps_env p s s1 p2 s2 : R s s1 → psteps R p s1 p2 s2 → psteps R p s p2 s2.

(** * Threads *)
Inductive tstep {A} : list (proc S Q A) → S → list (proc S Q A) → S → Prop :=
| thread_step ts i p s p' s' :
    ts !! i = Some p → pstep p s p' s' → tstep ts s (<[i := p']> ts) s'.
Inductive tsteps {A} : list (proc S Q A) → S → list (proc S Q A) → S → Prop :=
| tsteps_refl ts s : tsteps ts s ts s
| tsteps_step ts s ts1 s1 ts2 s2 : tstep ts s ts1 s1 → tsteps ts1 s1 ts2 s2 → tsteps ts s ts2 s2.

(** Every atomic action of the process keeps [R]. *)
Fixpoint all_steps {A} (R : S → S → Prop) (p : proc S Q A) : Prop :=
  match p with
  | Ret _ => True
  | Atomic f k => (∀ s r s', f s = Some (r, s') → R s s') ∧ ∀ r, all_steps R (k r)
  | Ask _ k => ∀ r, all_steps R (k r)
  end.
Lemma all_steps_step {A} R (p : proc S Q A) s p' s' :
  (∀ s, R s s) → all_steps R p → pstep p s p' s' → R s s' ∧ all_steps R p'.
Proof.
  intros Hr Hp Hs. destruct Hs as [T f k s r s' Hf|T q k s r]; cbn in Hp.
  - destruct Hp. eauto.
  - eauto.
Qed.
Lemma all_steps_ret {A} R (a : A) : all_steps R (mret a : proc S Q A).
Proof. exact I. Qed.
Lemma all_steps_bind {A B} R (p : proc S Q A) (k : A → proc S Q B) :
  all_steps R p → (∀ a, all_steps R (k a)) → all_steps R (p ≫= k).
Proof.
  intros Hp Hk. unfold mbind, proc_bind. induction p as [a|T f h IH|T q h IH]; cbn in *.
  - apply Hk.
  - destruct Hp as [Hf Hh]. split; [done|]. intros r. by apply IH.
  - intros r. by apply IH.
Qed.
Lemma all_steps_impl {A} (R R' : S → S → Prop) (p : proc S Q A) :
  (∀ s s', R s s' → R' s s') → all_steps R p → all_steps R' p.
Proof.
  intros HR. induction p as [a|T f h IH|T q h IH]; cbn; [done| |].
  - intros [Hf Hh]. split; [eauto|]. eauto.
  - eauto.
Qed.
Lemma all_steps_ask {R0} R (q : Q R0) : all_steps R (ask q).
Proof. by intros r. Qed.
Lemma all_steps_atomically {T} R (f : S → T * S) : (∀ s, R s (f s).2) → all_steps R (atomically f).
Proof.
  intros H. split; [|done]. intros s r s' Hf. specialize (H s). injection Hf as Hf. by rewrite Hf in H.
Qed.
(** A relation every thread keeps is kept by their interleaving. *)
Lemma tsteps_all {A} R (ts : list (proc S Q A)) s ts' s' :
  (∀ s, R s s) → (∀ a b c, R a b → R b c → R a c) →
  Forall (all_steps R) ts → tsteps ts s ts' s' → R s s' ∧ Forall (all_steps R) ts'.
Proof.
  intros Hr Ht Hall Hs. induction Hs as [ts s|ts s ts1 s1 ts2 s2 H1 H2 IH]; [done|].
  destruct H1 as [ts i p s p' s' Hi Hp].
  assert (all_steps R p) as Hpa by (rewrite Forall_lookup in Hall; eauto).
  destruct (all_steps_step R p s p' s' Hr Hpa Hp) as [HR Hp'].
  destruct IH as [HR' ?]; [by apply Forall_insert|]. eauto.
Qed.
End semantics.

(** * Running threads, for examples: the environment answers every question by [answer] and a
    schedule names the thread that takes the next step; one that cannot is passed over. *)
Section schedules.
Context {S : Type} {Q : Type → Type} (answer : ∀ R, Q R → R).
Definition run_step {A} (p : proc S Q A) (s : S) : option (proc S Q A * S) :=
  match p with
  | Ret _ => None
  | Atomic f k => '(r, s') ← f s; Some (k r, s')
  | Ask q k => Some (k (answer _ q), s)
  end.
Fixpoint run_threads {A} (ts : list (proc S Q A)) (s : S) (l : list nat) : list (proc S Q A) * S :=
  match l with
  | [] => (ts, s)
  | i :: l' =>
      match ts !! i ≫= (λ p, run_step p s) with
      | Some (p', s') => run_threads (<[i := p']> ts) s' l'
      | None => run_threads ts s l'
      end
  end.
Lemma run_step_pstep {A} (p : proc S Q A) s p' s' : run_step p s = Some (p', s') → pstep p s p' s'.
Proof.
  destruct p as [x|R f k|R q k]; cbn; [done| |].
  - destruct (f s) as [[r s1]|] eqn:E; [|done]. intros [= <- <-]. by constructor.
  - intros [= <- <-]. constructor.
Qed.
Lemma run_threads_tsteps {A} (ts : list (proc S Q A)) s l :
  tsteps ts s (run_threads ts s l).1 (run_threads ts s l).2.
Proof.
  revert ts s. induction l as [|i l IH]; intros ts s; cbn; [constructor|].
  destruct (ts !! i) as [p|] eqn:Hi; cbn; [|apply IH]. destruct (run_step p s) as [[p' s1]|] eqn:E; [|apply IH].
  econstructor; [|apply IH]. econstructor; [done|]. by apply run_step_pstep.
Qed.
(** One process alone, to its end. *)
Fixpoint run_proc {A} (p : proc S Q A) (s : S) : option (A * S) :=
  match p with
  | Ret a => Some (a, s)
  | Atomic f k => '(r, s') ← f s; run_proc (k r) s'
  | Ask q k => run_proc (k (answer _ q)) s
  end.
Lemma run_proc_psteps {A} (R : S → S → Prop) (p : proc S Q A) s a s' :
  run_proc p s = Some (a, s') → psteps R p s (Ret a) s'.
Proof.
  revert s. induction p as [x|X f k IH|X q k IH]; intros s; cbn.
  - intros [= <- <-]. constructor.
  - destruct (f s) as [[r s1]|] eqn:E; [|done]. cbn. intros H. eapply psteps_own; [by constructor|by eapply IH].
  - intros H. eapply psteps_own; [apply step_ask|by eapply IH].
Qed.
Lemma run_proc_bind {A B} (p : proc S Q A) (k : A → proc S Q B) s :
  run_proc (p ≫= k) s = '(a, s') ← run_proc p s; run_proc (k a) s'.
Proof.
  unfold mbind at 1, proc_bind. revert s. induction p as [x|X f h IH|X q h IH]; intros s; cbn; [done| |apply IH].
  destruct (f s) as [[r s1]|]; cbn; [apply IH|done].
Qed.
End schedules.

(** The same with an environment that changes: each step of the schedule brings its answers. *)
Section timed_schedules.
Context {S : Type} {Q : Type → Type}.
Fixpoint run_schedule {A} (ts : list (proc S Q A)) (s : S) (l : list (nat * (∀ R, Q R → R))) : list (proc S Q A) * S :=
  match l with
  | [] => (ts, s)
  | (i, answer) :: l' =>
      match ts !! i ≫= (λ p, run_step answer p s) with
      | Some (p', s') => run_schedule (<[i := p']> ts) s' l'
      | None => run_schedule ts s l'
      end
  end.
Lemma run_schedule_tsteps {A} (ts : list (proc S Q A)) s l :
  tsteps ts s (run_schedule ts s l).1 (run_schedule ts s l).2.
Proof.
  revert ts s. induction l as [|[i answer] l IH]; intros ts s; cbn; [constructor|].
  destruct (ts !! i) as [p|] eqn:Hi; cbn; [|apply IH]. destruct (run_step answer p s) as [[p' s1]|] eqn:E; [|apply IH].
  econstructor; [|apply IH]. econstructor; [done|]. by apply (run_step_pstep answer).
Qed.
End timed_schedules.
