(* ===== verification/GatewayStore.v ===== *)
(** The tool gateway's store (control-plane/internal/gateway/store.go): published tool
    versions, runner registrations, pools with their grants and credential bindings, the
    attempt's tool pins, caller-scope resolution and the at-most-once invocation ledger.

    The tables of migrations 000011, 000016, 000017 and 000018 extend the dispatch
    database. Every statement or transaction is one atomic action ([tx]); an operation of
    several statements is a process in which other connections may act in between, and any
    of its statements may fail, before or after its effect reached the database. [now] is
    PostgreSQL's [now()]. Columns with a unique key are maps over that key. *)
From S2P Require Import Prelude Json Runtime Workflow WorkerPool WorkData Dispatch Proc Consequence.

(** * Rows *)
Inductive CallerScope := CallerScopeTurn | CallerScopeWorkflowStep.
#[export] Instance CallerScope_eq : EqDecision CallerScope. Proof. solve_decision. Defined.
#[export] Instance CallerScope_countable : Countable CallerScope.
Proof.
  refine (inj_countable' (λ s, match s with CallerScopeTurn => true | CallerScopeWorkflowStep => false end)
            (λ b : bool, if b then CallerScopeTurn else CallerScopeWorkflowStep) _).
  by intros [].
Defined.

Inductive InvocationState :=
| InvocationDispatching | InvocationRunning | InvocationSucceeded | InvocationFailed
| InvocationOutcomeUnknown.
#[export] Instance InvocationState_eq : EqDecision InvocationState. Proof. solve_decision. Defined.
Definition IsTerminal (s : InvocationState) : bool :=
  match s with
  | InvocationSucceeded | InvocationFailed | InvocationOutcomeUnknown => true
  | _ => false
  end.
(** [state IN ('dispatching', 'running')]. *)
Definition in_flight (s : InvocationState) : bool :=
  match s with InvocationDispatching | InvocationRunning => true | _ => false end.

Definition CredBearer : string := "bearer".
Definition CredOAuthClientCredentials : string := "oauth_client_credentials".

Record ToolVersion := mkToolVersion {
  gv_ID : uuid; gv_Name : string; gv_Version : string; gv_Digest : string;
  gv_Description : string; gv_InputSchema : RawMessage; gv_EffectClass : string;
  gv_CredentialSlots : RawMessage; gv_ArtifactCapabs : RawMessage; gv_TimeoutMS : Z;
  gv_IdempotencyProof : RawMessage; gv_ConsequenceTemplate : RawMessage; gv_CreatedAt : timestamp }.

Record RunnerRegistration := mkRegistration {
  rr_ID : uuid; rr_RunnerID : string; rr_SpiffeID : string; rr_Namespace : string;
  rr_ToolName : string; rr_ToolVersion : string; rr_ToolDigest : string;
  rr_FencingGeneration : Z; rr_LastHeartbeatAt : timestamp; rr_Active : bool;
  rr_AcceptingNew : bool; rr_RegisteredAt : timestamp; rr_RetiredAt : option timestamp }.
Record ToolRef := mkToolRef { tr_Name : string; tr_Digest : string }.
#[export] Instance ToolRef_eq : EqDecision ToolRef. Proof. solve_decision. Defined.

Record PoolGrant := mkGrant {
  gg_MaxEffectClass : string; gg_AllowedActions : json; gg_DeletedAt : option timestamp }.
Record CredentialBinding := mkBinding {
  cb_SlotName : string; cb_Scheme : string; cb_SecretRef : json; cb_ResourceConstraints : json;
  cb_DeletedAt : option timestamp }.
Record Capability := mkCapability {
  cp_Tool : string; cp_MaxEffectClass : string; cp_Actions : list string }.
Record WorkflowPoolBinding := mkPoolBinding {
  wb_PoolID : uuid; wb_PermittedTools : json; wb_DeletedAt : option timestamp }.
Inductive ManagedBy := ManagedByOperator | ManagedByStaticConfig.
#[export] Instance ManagedBy_eq : EqDecision ManagedBy. Proof. solve_decision. Defined.
Record ApprovedRunner := mkApproved {
  ap_Namespace : string; ap_RunnerID : string; ap_SpiffeID : string;
  ap_AllowedToolNamespaces : list string; ap_ManagedBy : ManagedBy; ap_DeletedAt : option timestamp }.

Record Invocation := mkInvocation {
  gi_ID : uuid; gi_AttemptID : string; gi_CallerScope : CallerScope; gi_CallerScopeID : string;
  gi_ToolCallID : string; gi_ToolName : string; gi_ToolVersionDigest : string;
  gi_IdempotencyKey : string; gi_EffectClass : string; gi_PoolID : option uuid;
  gi_RunnerID : option string; gi_ArgumentsJSON : json; gi_ArtifactInputRefs : json;
  gi_ConsequenceSummary : option (gmap string string); gi_State : InvocationState;
  gi_ResultJSON : option json; gi_ArtifactOutputRefs : json; gi_Error : option json;
  gi_DispatchLeaseExpiresAt : option timestamp; gi_GatewayInstanceID : option string;
  gi_DispatchingAt : timestamp; gi_RunningAt : option timestamp; gi_FinishedAt : option timestamp }.
Record InvocationKey := mkKey {
  ik_AttemptID : string; ik_CallerScope : CallerScope; ik_CallerScopeID : string;
  ik_ToolCallID : string; ik_ToolVersionDigest : string; ik_IdempotencyKey : string }.
#[export] Instance InvocationKey_eq : EqDecision InvocationKey. Proof. solve_decision. Defined.
Definition key_of (i : Invocation) : InvocationKey :=
  mkKey (gi_AttemptID i) (gi_CallerScope i) (gi_CallerScopeID i) (gi_ToolCallID i)
    (gi_ToolVersionDigest i) (gi_IdempotencyKey i).

Record CallerResolution := mkResolution {
  re_Pool : Pool; re_PermittedCapabilities : option (list Capability); re_AttemptID : string;
  re_CallerScope : CallerScope; re_CallerScopeID : string }.

Record GatewayDB := mkGatewayDB {
  gw_dp : DispatchDB;
  tool_versions : gmap (string * string) ToolVersion;
  runner_registrations : gmap uuid RunnerRegistration;
  pool_grants : gmap (uuid * string) PoolGrant;
  credential_bindings : gmap (uuid * string * string) CredentialBinding;
  workflow_pool_bindings : gmap string WorkflowPoolBinding;
  approved_runners : gmap string ApprovedRunner;
  ledger : gmap uuid Invocation }.

Definition set_dp (v : DispatchDB) (d : GatewayDB) : GatewayDB :=
  mkGatewayDB v (tool_versions d) (runner_registrations d) (pool_grants d) (credential_bindings d)
    (workflow_pool_bindings d) (approved_runners d) (ledger d).
Definition set_versions (v : gmap (string * string) ToolVersion) (d : GatewayDB) : GatewayDB :=
  mkGatewayDB (gw_dp d) v (runner_registrations d) (pool_grants d) (credential_bindings d)
    (workflow_pool_bindings d) (approved_runners d) (ledger d).
Definition set_registrations (v : gmap uuid RunnerRegistration) (d : GatewayDB) : GatewayDB :=
  mkGatewayDB (gw_dp d) (tool_versions d) v (pool_grants d) (credential_bindings d)
    (workflow_pool_bindings d) (approved_runners d) (ledger d).
Definition set_grants (v : gmap (uuid * string) PoolGrant) (d : GatewayDB) : GatewayDB :=
  mkGatewayDB (gw_dp d) (tool_versions d) (runner_registrations d) v (credential_bindings d)
    (workflow_pool_bindings d) (approved_runners d) (ledger d).
Definition set_credentials (v : gmap (uuid * string * string) CredentialBinding) (d : GatewayDB) : GatewayDB :=
  mkGatewayDB (gw_dp d) (tool_versions d) (runner_registrations d) (pool_grants d) v
    (workflow_pool_bindings d) (approved_runners d) (ledger d).
Definition set_pool_bindings (v : gmap string WorkflowPoolBinding) (d : GatewayDB) : GatewayDB :=
  mkGatewayDB (gw_dp d) (tool_versions d) (runner_registrations d) (pool_grants d)
    (credential_bindings d) v (approved_runners d) (ledger d).
Definition set_approved (v : gmap string ApprovedRunner) (d : GatewayDB) : GatewayDB :=
  mkGatewayDB (gw_dp d) (tool_versions d) (runner_registrations d) (pool_grants d)
    (credential_bindings d) (workflow_pool_bindings d) v (ledger d).
Definition set_ledger (v : gmap uuid Invocation) (d : GatewayDB) : GatewayDB :=
  mkGatewayDB (gw_dp d) (tool_versions d) (runner_registrations d) (pool_grants d)
    (credential_bindings d) (workflow_pool_bindings d) (approved_runners d) v.
Definition gw_wk (d : GatewayDB) : WorkDB := dp_wk (gw_dp d).
Definition gw_rt (d : GatewayDB) : RuntimeDB := dp_rt (gw_dp d).
Definition gw_pools (d : GatewayDB) : gmap uuid Pool := pools (gw_dp d).
Definition set_gpools (v : gmap uuid Pool) (d : GatewayDB) : GatewayDB :=
  set_dp (mkDispatchDB (dp_wk (gw_dp d)) (turn_assignments (gw_dp d)) (session_uid_allocations (gw_dp d))
            (workspace_capacity_state (gw_dp d)) v) d.
Definition set_gwk (v : WorkDB) (d : GatewayDB) : GatewayDB := set_dp (set_wk v (gw_dp d)) d.

Inductive GwErr :=
| ErrNotFound
| ErrInvalidTransition
| ErrScopeDenied
| errEffectClass
| errTemplate (e : CsErr)
| errIdempotencyProof
| errIncompatibleVersion
| errDifferentMetadata
| errVersionPublished
| errDrainReference
| errNotOwned (tool : string)
| errNoEligibleVersion (tool : string)
| errStaticRunner
| errNegativeBytes
| errCapabilities
| errNullScan
| errNoRows
| errNotNull (column : string)
| errStore (e : RtErr)
| errUnavailable.

(** * Statements and processes *)
Abbreviation GwTx := (Tx GatewayDB GwErr).
Inductive fault := NoFault | FaultBefore | FaultAfter.
Inductive branch := SelResult | SelTimeout | SelDone.
(** What a handler asks of its environment. *)
Inductive Query : Type → Type :=
| QFault : Query fault
| QNow : Query timestamp
| QSend : Query bool
| QSelect : Query branch
| QSecret (name key : string) : Query (option string)
| QOAuth (tokenURL clientID clientSecret scope : string) : Query (option string)
| QOrder : Query (string → list (string * string) → list (string * string)).

(** A database and the process memory [M] of the gateway. *)
Definition Gw (M : Type) : Type := (GatewayDB * M)%type.

Section store.
Context {M : Type}.
#[local] Notation GwM A := (proc (Gw M) Query (GwErr + A)).

Definition tx_do {A} (m : GwTx A) (after : bool) (s : Gw M) : (GwErr + A) * Gw M :=
  let '(r, d) := run_tx m s.1 in (if after then inl errUnavailable else r, (d, s.2)).
Definition tx {A} (m : timestamp → GwTx A) : GwM A :=
  f ← ask QFault; now ← ask QNow;
  match f with
  | NoFault => atomically (tx_do (m now) false)
  | FaultAfter => atomically (tx_do (m now) true)
  | FaultBefore => mret (inl errUnavailable)
  end.
Definition fails {A} (e : GwErr) : GwM A := mret (inl e).
Definition returns {A} (a : A) : GwM A := mret (inr a).
(** [if err != nil { return err }]. *)
Definition ebind {A B} (m : GwM A) (k : A → GwM B) : GwM B :=
  r ← m; match r with inl e => fails e | inr a => k a end.
(** The error is inspected by the caller. *)
Definition attempt {A} (m : GwM A) : GwM (GwErr + A) := r ← m; returns r.
Fixpoint each {A} (f : A → GwM ()) (l : list A) : GwM () :=
  match l with
  | [] => returns ()
  | a :: l' => ebind (f a) (λ _, each f l')
  end.
End store.
Declare Scope gw_scope.
Delimit Scope gw_scope with gw.
Notation "x ⇐ y ; z" := (ebind y (λ x, z))
  (at level 20, y at level 100, z at level 200, only parsing) : gw_scope.
#[local] Open Scope gw_scope.

Definition gw_uuid : GwTx uuid := λ d,
  match gen_random_uuid (gw_rt d) with
  | inl e => inl (errStore e)
  | inr (u, r) => inr (u, set_gwk (set_rt r (gw_wk d)) d)
  end.
(** A parameter of a [jsonb] column: [None] is NULL. *)
Definition jsonb_param (r : RawMessage) : GwTx (option json) :=
  match r with
  | NoJSON => mret None
  | GoodJSON v => mret (Some v)
  | BadJSON _ => tx_fail (errStore ErrInvalidJSON)
  end.
Definition jsonb_not_null (column : string) (r : RawMessage) : GwTx json :=
  v ← jsonb_param r; tx_opt v (errNotNull column).
Definition live {R} (deleted : R → option timestamp) (r : R) : bool := bool_decide (deleted r = None).
(** Rows of a table over any key, and their update by [UPDATE ... WHERE]. *)
Definition values {K R} `{Countable K} (t : gmap K R) : list R := snd <$> map_to_list t.
Definition update_where {K R} `{Countable K} (P : R → bool) (f : R → R) (t : gmap K R) : gmap K R :=
  (λ r, if P r then f r else r) <$> t.
Definition count_where {K R} `{Countable K} (P : R → bool) (t : gmap K R) : Z :=
  Z.of_nat (length (filter (λ r, P r = true) (values t))).

(** * Tool versions *)
Definition effect_classes : list string := [EffectReadOnly; EffectIdempotentWrite; EffectNonIdempotentWrite].
Definition effectRank (c : string) : Z :=
  if String.eqb c EffectReadOnly then 1
  else if String.eqb c EffectIdempotentWrite then 2
  else if String.eqb c EffectNonIdempotentWrite then 3
  else 0.

(** The CASE of the queries; the CHECK constraints leave no other class. *)
Definition effect_rank_sql (c : string) : Z :=
  if String.eqb c EffectReadOnly then 1 else if String.eqb c EffectIdempotentWrite then 2 else 3.

(** The strategy of a non-empty proof; [None] when it is not a JSON object of that shape. *)
Definition proof_strategy (raw : RawMessage) : option string :=
  match raw with
  | GoodJSON (JObj l) => string_field "strategy" l
  | _ => None
  end.
Definition validateToolVersion (tv : ToolVersion) : GwErr + () :=
  if negb (bool_decide (gv_EffectClass tv ∈ effect_classes)) then inl errEffectClass
  else match validateConsequenceTemplate (gv_EffectClass tv) (gv_ConsequenceTemplate tv) with
       | inl e => inl (errTemplate e)
       | inr _ =>
           if String.eqb (gv_EffectClass tv) EffectIdempotentWrite &&
              negb (bool_decide (proof_strategy (gv_IdempotencyProof tv) = Some "upstream_key"))
           then inl errIdempotencyProof
           else inr ()
       end.

(** Empty and [null] are the same document. Two documents are compared as decoded values;
    texts that do not decode are compared as bytes. *)
Definition json_or_null (r : RawMessage) : RawMessage :=
  match r with NoJSON => GoodJSON JNull | _ => r end.
Definition sameJSON (a b : RawMessage) : bool :=
  match json_or_null a, json_or_null b with
  | GoodJSON x, GoodJSON y => any_equal x y
  | BadJSON s, BadJSON t => String.eqb s t
  | _, _ => false
  end.
Definition sameToolVersionDescriptor (a b : ToolVersion) : bool :=
  String.eqb (gv_Name a) (gv_Name b) && String.eqb (gv_Version a) (gv_Version b) &&
  String.eqb (gv_Digest a) (gv_Digest b) && String.eqb (gv_Description a) (gv_Description b) &&
  String.eqb (gv_EffectClass a) (gv_EffectClass b) && (gv_TimeoutMS a =? gv_TimeoutMS b) &&
  sameJSON (gv_InputSchema a) (gv_InputSchema b) &&
  sameJSON (gv_CredentialSlots a) (gv_CredentialSlots b) &&
  sameJSON (gv_ArtifactCapabs a) (gv_ArtifactCapabs b) &&
  sameJSON (gv_IdempotencyProof a) (gv_IdempotencyProof b) &&
  sameJSON (gv_ConsequenceTemplate a) (gv_ConsequenceTemplate b).

Definition version_row (id : uuid) (now : timestamp) (tv : ToolVersion) : ToolVersion :=
  mkToolVersion id (gv_Name tv) (gv_Version tv) (gv_Digest tv) (gv_Description tv) (gv_InputSchema tv)
    (gv_EffectClass tv) (gv_CredentialSlots tv) (gv_ArtifactCapabs tv) (gv_TimeoutMS tv)
    (gv_IdempotencyProof tv) (gv_ConsequenceTemplate tv) now.
Definition same_version (tv row : ToolVersion) : bool :=
  String.eqb (gv_Name row) (gv_Name tv) && String.eqb (gv_Version row) (gv_Version tv).
(** [INSERT ... ON CONFLICT (name, digest) DO NOTHING]; [UNIQUE (name, version)]. *)
Definition insert_tool_version (tv : ToolVersion) (now : timestamp) : GwTx () :=
  jsonb_not_null "input_schema" (gv_InputSchema tv);;
  jsonb_not_null "credential_slots" (gv_CredentialSlots tv);;
  jsonb_not_null "artifact_capabilities" (gv_ArtifactCapabs tv);;
  jsonb_param (gv_IdempotencyProof tv);;
  jsonb_not_null "consequence_summary_template" (gv_ConsequenceTemplate tv);;
  tx_require (bool_decide (gv_EffectClass tv ∈ effect_classes))
    (errStore (ErrCheckViolation "tool_versions_effect_class_check"));;
  id ← gw_uuid;
  d ← tx_get;
  match tool_versions d !! (gv_Name tv, gv_Digest tv) with
  | Some _ => mret ()
  | None =>
      tx_require (negb (existsb (same_version tv) (values (tool_versions d))))
        (errStore (ErrUniqueViolation "tool_versions_name_version_key"));;
      tx_modify (set_versions (<[(gv_Name tv, gv_Digest tv) := version_row id now tv]> (tool_versions d)))
  end.
Definition get_tool_version (name digest : string) (now : timestamp) : GwTx ToolVersion :=
  d ← tx_get; tx_opt (tool_versions d !! (name, digest)) ErrNotFound.
(** The row of the immutability guard, if any. *)
Definition other_digest (tv : ToolVersion) (now : timestamp) : GwTx bool :=
  tx_asks (λ d, existsb (λ row, same_version tv row && negb (String.eqb (gv_Digest row) (gv_Digest tv)))
                  (values (tool_versions d))).

Section versions.
Context {M : Type}.
#[local] Notation GwM A := (proc (Gw M) Query (GwErr + A)).
Definition GetToolVersion (name digest : string) : GwM ToolVersion := tx (get_tool_version name digest).
Definition RegisterToolVersion (tv : ToolVersion) : GwM ToolVersion :=
  match validateToolVersion tv with
  | inl e => fails e
  | inr _ =>
      _ ⇐ tx (insert_tool_version tv);
      out ⇐ GetToolVersion (gv_Name tv) (gv_Digest tv);
      match validateToolVersion out with
      | inl _ => fails errIncompatibleVersion
      | inr _ =>
          if negb (sameToolVersionDescriptor tv out) then fails errDifferentMetadata
          else
            other ⇐ tx (other_digest tv);
            if other : bool then fails errVersionPublished else returns out
      end
  end.
End versions.

(** * Runner registrations *)
Definition registers (runnerID tool version : string) (r : RunnerRegistration) : bool :=
  String.eqb (rr_RunnerID r) runnerID && String.eqb (rr_ToolName r) tool &&
  String.eqb (rr_ToolVersion r) version.
Definition on_stream (runnerID : string) (gen : Z) (r : RunnerRegistration) : bool :=
  String.eqb (rr_RunnerID r) runnerID && (rr_FencingGeneration r =? gen) && rr_Active r.
Definition for_ref (ref : ToolRef) (r : RunnerRegistration) : bool :=
  String.eqb (rr_ToolName r) (tr_Name ref) && String.eqb (rr_ToolDigest r) (tr_Digest ref).
Definition with_flags (active accepting : bool) (retired : option timestamp) (r : RunnerRegistration)
    : RunnerRegistration :=
  mkRegistration (rr_ID r) (rr_RunnerID r) (rr_SpiffeID r) (rr_Namespace r) (rr_ToolName r)
    (rr_ToolVersion r) (rr_ToolDigest r) (rr_FencingGeneration r) (rr_LastHeartbeatAt r) active accepting
    (rr_RegisteredAt r) retired.
Definition with_heartbeat (now : timestamp) (r : RunnerRegistration) : RunnerRegistration :=
  mkRegistration (rr_ID r) (rr_RunnerID r) (rr_SpiffeID r) (rr_Namespace r) (rr_ToolName r)
    (rr_ToolVersion r) (rr_ToolDigest r) (rr_FencingGeneration r) now (rr_Active r) (rr_AcceptingNew r)
    (rr_RegisteredAt r) (rr_RetiredAt r).
Definition deactivate (r : RunnerRegistration) : RunnerRegistration :=
  with_flags false (rr_AcceptingNew r) (rr_RetiredAt r) r.
Definition accepting (b : bool) (r : RunnerRegistration) : RunnerRegistration :=
  with_flags (rr_Active r) b (rr_RetiredAt r) r.
Definition update_registrations (P : RunnerRegistration → bool) (f : RunnerRegistration → RunnerRegistration)
    : GwTx Z :=
  d ← tx_get;
  tx_modify (set_registrations (update_where P f (runner_registrations d)));;
  mret (count_where P (runner_registrations d)).

(** The accepting state of the latest registration, [true] when it was retired. *)
Definition inherited_accepting (d : GatewayDB) (r : RunnerRegistration) : bool :=
  match min_by (λ x, - rr_RegisteredAt x)
          (filter (λ x, registers (rr_RunnerID r) (rr_ToolName r) (rr_ToolVersion r) x = true)
             (values (runner_registrations d))) with
  | Some x => if bool_decide (rr_RetiredAt x = None) then rr_AcceptingNew x else true
  | None => true
  end.
Definition upsert_registration (r : RunnerRegistration) (now : timestamp) : GwTx RunnerRegistration :=
  d ← tx_get;
  let acceptingNew := inherited_accepting d r in
  let same x := registers (rr_RunnerID r) (rr_ToolName r) (rr_ToolVersion r) x && rr_Active x in
  update_registrations same deactivate;;
  id ← gw_uuid;
  d ← tx_get;
  let row := mkRegistration id (rr_RunnerID r) (rr_SpiffeID r) (rr_Namespace r) (rr_ToolName r)
               (rr_ToolVersion r) (rr_ToolDigest r) (rr_FencingGeneration r) now true acceptingNew now None in
  tx_require (bool_decide (runner_registrations d !! id = None))
    (errStore (ErrUniqueViolation "runner_registrations_pkey"));;
  tx_require (negb (existsb same (values (runner_registrations d))))
    (errStore (ErrUniqueViolation "idx_runner_reg_active_unique"));;
  tx_modify (set_registrations (<[id := row]> (runner_registrations d)));;
  mret row.

Definition begin_drain (runnerID : string) (gen : Z) (refs : list ToolRef) (now : timestamp) : GwTx () :=
  update_registrations (on_stream runnerID gen) (accepting true);;
  tx_iter (λ ref,
    tx_require (negb (String.eqb (tr_Name ref) EmptyString) && negb (String.eqb (tr_Digest ref) EmptyString))
      errDrainReference;;
    n ← update_registrations (λ r, on_stream runnerID gen r && for_ref ref r) (accepting false);
    tx_require (negb (n =? 0)) (errNotOwned (tr_Name ref))) refs.

(** An unfinished attempt, or one the work tables do not know, pins the version. *)
Definition pinned_by_attempt (d : GatewayDB) (tool digest : string) : bool :=
  existsb (λ p, String.eqb p.1.2 tool && String.eqb p.2 digest &&
                match attempts (gw_wk d) !! p.1.1 with
                | None => true
                | Some a => bool_decide (at_FinishedAt a = None)
                end) (tool_pins (gw_wk d)).
Definition ref_leb (a b : ToolRef) : bool :=
  if String.eqb (tr_Name a) (tr_Name b) then String.leb (tr_Digest a) (tr_Digest b)
  else String.leb (tr_Name a) (tr_Name b).
Fixpoint insert_ref (x : ToolRef) (l : list ToolRef) : list ToolRef :=
  match l with
  | [] => [x]
  | y :: l' => if ref_leb x y then x :: l else y :: insert_ref x l'
  end.
Definition draining_status (runnerID : string) (gen : Z) (now : timestamp)
    : GwTx (list ToolRef * list ToolRef) :=
  tx_asks (λ d,
    let refs := foldr insert_ref []
      ((λ r, mkToolRef (rr_ToolName r) (rr_ToolDigest r)) <$>
       filter (λ r, on_stream runnerID gen r && negb (rr_AcceptingNew r) = true)
         (values (runner_registrations d))) in
    (filter (λ x, pinned_by_attempt d (tr_Name x) (tr_Digest x) = true) refs,
     filter (λ x, pinned_by_attempt d (tr_Name x) (tr_Digest x) = false) refs)).
Definition retire_version (runnerID : string) (gen : Z) (ref : ToolRef) (now : timestamp) : GwTx () :=
  n ← update_registrations (λ r, on_stream runnerID gen r && for_ref ref r && negb (rr_AcceptingNew r))
        (with_flags false false (Some now));
  tx_require (negb (n =? 0)) (errNotOwned (tr_Name ref)).

Section registrations.
Context {M : Type}.
#[local] Notation GwM A := (proc (Gw M) Query (GwErr + A)).
Definition UpsertRunnerRegistration (r : RunnerRegistration) : GwM RunnerRegistration :=
  tx (upsert_registration r).
Definition Heartbeat (runnerID toolName toolVersion : string) (gen : Z) : GwM () :=
  tx (λ now,
    n ← update_registrations (λ r, registers runnerID toolName toolVersion r &&
                                   (rr_FencingGeneration r =? gen) && rr_Active r) (with_heartbeat now);
    tx_require (negb (n =? 0)) ErrNotFound).
Definition HeartbeatRunner (runnerID : string) (gen : Z) : GwM () :=
  tx (λ now, update_registrations (on_stream runnerID gen) (with_heartbeat now);; mret ()).
Definition BeginDrain (runnerID : string) (gen : Z) (refs : list ToolRef) : GwM () :=
  tx (begin_drain runnerID gen refs).
Definition DrainingStatus (runnerID : string) (gen : Z) : GwM (list ToolRef * list ToolRef) :=
  tx (draining_status runnerID gen).
Definition RetireVersions (runnerID : string) (gen : Z) (refs : list ToolRef) : GwM () :=
  each (λ ref, tx (retire_version runnerID gen ref)) refs.
Definition DeactivateRunnerStream (runnerID : string) (gen : Z) : GwM () :=
  tx (λ now, update_registrations (on_stream runnerID gen) deactivate;; mret ()).
End registrations.

(** * Pools, bindings, caller scope *)
Definition live_pool (p : Pool) : bool := live po_DeletedAt p.
Definition get_pool_by_id (poolID : uuid) (now : timestamp) : GwTx Pool :=
  d ← tx_get;
  tx_opt (p ← gw_pools d !! poolID; if live_pool p then Some p else None) ErrNotFound.
Definition get_pool_by_key (key : string) (now : timestamp) : GwTx Pool :=
  d ← tx_get;
  tx_opt (head (select (λ p, String.eqb (po_Key p) key && live_pool p) (gw_pools d))) ErrNotFound.
Definition resolve_pool (spiffeID : string) (now : timestamp) : GwTx Pool :=
  d ← tx_get;
  tx_opt (min_by (λ p, - Z.of_nat (String.length (po_SpiffeIDPrefix p)))
            (select (prefix_matches spiffeID) (gw_pools d))) ErrNotFound.

(** [json.Unmarshal] into [[]Capability]: [Some None] is the nil slice of a [null]. *)
Definition strings_field (name : string) (l : list (string * json)) : option (list string) :=
  a ← array_field name l; unmarshal_strings a.
Definition unmarshal_capability (v : json) : option Capability :=
  match v with
  | JNull => Some (mkCapability EmptyString EmptyString [])
  | JObj l =>
      tool ← string_field "tool" l;
      ceiling ← string_field "maxEffectClass" l;
      actions ← strings_field "actions" l;
      Some (mkCapability tool ceiling actions)
  | _ => None
  end.
Definition unmarshal_capabilities (v : json) : option (option (list Capability)) :=
  match v with
  | JNull => Some None
  | JArr l => Some <$> mapM unmarshal_capability l
  | _ => None
  end.
Definition capability_doc (c : Capability) : json :=
  JObj ([("tool", JStr (cp_Tool c)); ("maxEffectClass", JStr (cp_MaxEffectClass c))] ++
        match cp_Actions c with [] => [] | l => [("actions", JArr (JStr <$> l))] end).

Definition get_pool_binding (key : string) (now : timestamp) : GwTx (uuid * option (list Capability)) :=
  d ← tx_get;
  w ← tx_opt (w ← workflow_pool_bindings d !! key; if live wb_DeletedAt w then Some w else None) ErrNotFound;
  caps ← tx_opt (unmarshal_capabilities (wb_PermittedTools w)) errCapabilities;
  mret (wb_PoolID w, caps).

(** The active turn of the run, assigned to the pool. *)
Definition turn_in_flight (t : Turn) : bool :=
  match turn_State t with TurnPending | TurnRunning => true | _ => false end.
Definition scoped_turn (poolID attemptID turnID : string) (now : timestamp) : GwTx uuid :=
  d ← tx_get;
  tx_opt (t ← turns (gw_rt d) !! turnID;
          p ← pool_assignments (gw_wk d) !! turn_RunID t;
          if turn_in_flight t && String.eqb (turn_RunID t) attemptID && String.eqb p poolID
          then Some (turn_RunID t) else None) ErrScopeDenied.
Definition scoped_assignment (turnID : string) (now : timestamp) : GwTx Assignment :=
  d ← tx_get; tx_opt (active_row (gw_dp d) turnID) ErrScopeDenied.
Definition scoped_step (attemptID runStepID : string) (now : timestamp) : GwTx string :=
  d ← tx_get;
  tx_opt (s ← run_steps (gw_rt d) !! runStepID;
          run ← workflow_runs (gw_rt d) !! step_RunID s;
          if bool_decide (step_State s = StepRunning) && String.eqb (step_RunID s) attemptID
          then Some (run_DefinitionKey run) else None) ErrScopeDenied
  ≫= λ key, tx_opt key errNullScan.
Definition run_pool (runID : string) (now : timestamp) : GwTx uuid :=
  d ← tx_get; tx_opt (pool_assignments (gw_wk d) !! runID) ErrNotFound.
Definition assign_run_pool (runID poolID : uuid) (now : timestamp) : GwTx () :=
  d ← tx_get;
  tx_require (bool_decide (is_Some (workflow_runs (gw_rt d) !! runID)))
    (errStore (ErrForeignKeyViolation "run_pool_assignments_run_id_fkey"));;
  tx_modify (set_gwk (set_pool_assignments (<[runID := poolID]> (pool_assignments (gw_wk d))) (gw_wk d))).

Section scope.
Context {M : Type}.
#[local] Notation GwM A := (proc (Gw M) Query (GwErr + A)).
Definition ResolvePoolBySpiffePrefix (spiffeID : string) : GwM Pool := tx (resolve_pool spiffeID).
Definition getPoolByID (poolID : uuid) : GwM Pool := tx (get_pool_by_id poolID).
Definition GetPoolByKey (key : string) : GwM Pool := tx (get_pool_by_key key).
Definition GetWorkflowPoolBinding (key : string) : GwM (uuid * option (list Capability)) :=
  tx (get_pool_binding key).
Definition UpsertRunPoolAssignment (runID poolID : uuid) : GwM () := tx (assign_run_pool runID poolID).

(** The capability subset of a graph turn; a chat turn has none, which narrows nothing. *)
Definition turn_capabilities (a : Assignment) : option (option (list Capability)) :=
  match as_NodeExecutionID a with
  | None => Some None
  | Some _ => unmarshal_capabilities (as_CapabilityRequest a)
  end.
Definition ResolveTurnScope (poolID attemptID turnID workerID : string) (fencingGeneration : Z)
    : GwM CallerResolution :=
  runID ⇐ tx (scoped_turn poolID attemptID turnID);
  a ⇐ tx (scoped_assignment turnID);
  if negb (String.eqb (as_WorkerID a) workerID && (as_FencingGeneration a =? fencingGeneration))
  then fails ErrScopeDenied
  else
    pool ⇐ attempt (getPoolByID poolID);
    match pool with
    | inl _ => fails ErrScopeDenied
    | inr p =>
        match turn_capabilities a with
        | None => fails ErrScopeDenied
        | Some permitted => returns (mkResolution p permitted runID CallerScopeTurn turnID)
        end
    end.

Definition ResolveWorkflowStepScope (attemptID runStepID : string) : GwM CallerResolution :=
  definitionKey ⇐ tx (scoped_step attemptID runStepID);
  if String.eqb definitionKey EmptyString then fails ErrScopeDenied
  else
    binding ⇐ attempt (GetWorkflowPoolBinding definitionKey);
    match binding with
    | inl _ => fails ErrScopeDenied
    | inr (poolID, caps) =>
        assigned ⇐ attempt (tx (run_pool attemptID));
        match assigned with
        | inl _ => fails ErrScopeDenied
        | inr assignedPool =>
            if negb (String.eqb assignedPool poolID) then fails ErrScopeDenied
            else
              pool ⇐ attempt (getPoolByID poolID);
              match pool with
              | inl _ => fails ErrScopeDenied
              | inr p =>
                  returns (mkResolution p (Some (default [] caps)) attemptID CallerScopeWorkflowStep runStepID)
              end
        end
    end.
End scope.

(** * Attempt tool pins and discovery *)
Definition heartbeat_lease : Z := 30000000.
Definition healthy (now : timestamp) (tv : ToolVersion) (r : RunnerRegistration) : bool :=
  String.eqb (rr_ToolName r) (gv_Name tv) && String.eqb (rr_ToolDigest r) (gv_Digest tv) &&
  rr_Active r && rr_AcceptingNew r && (now - heartbeat_lease <? rr_LastHeartbeatAt r).
(** The view [available_tool_versions]. *)
Definition available (now : timestamp) (d : GatewayDB) (tv : ToolVersion) : bool :=
  existsb (healthy now tv) (values (runner_registrations d)) &&
  (String.eqb (gv_EffectClass tv) EffectReadOnly || negb (no_template (gv_ConsequenceTemplate tv))).
Definition live_grant (d : GatewayDB) (poolID tool : string) : option PoolGrant :=
  g ← pool_grants d !! (poolID, tool); if live gg_DeletedAt g then Some g else None.
(** The grant's effect ceiling admits the version. *)
Definition within_grant (d : GatewayDB) (poolID : string) (tv : ToolVersion) : bool :=
  match live_grant d poolID (gv_Name tv) with
  | Some g => effect_rank_sql (gv_EffectClass tv) <=? effect_rank_sql (gg_MaxEffectClass g)
  | None => false
  end.
Definition eligible (now : timestamp) (d : GatewayDB) (poolID : string) : list ToolVersion :=
  filter (λ tv, available now d tv && within_grant d poolID tv = true) (values (tool_versions d)).
(** [ORDER BY created_at DESC, id DESC LIMIT 1]. *)
Definition newer (a b : ToolVersion) : bool :=
  (gv_CreatedAt b <? gv_CreatedAt a) ||
  ((gv_CreatedAt a =? gv_CreatedAt b) && String.leb (gv_ID b) (gv_ID a)).
Definition newest (l : list ToolVersion) : option ToolVersion :=
  foldr (λ x acc, match acc with
                  | None => Some x
                  | Some y => if newer x y then Some x else Some y
                  end) None l.
Definition pins := list (uuid * string * string).
Definition pin_of (p : pins) (attemptID tool : string) : option string :=
  snd <$> List.find (λ x, String.eqb x.1.1 attemptID && String.eqb x.1.2 tool) p.
Definition pin_attempt_tool (attemptID poolID : string) (now : timestamp) (name : string) : GwTx () :=
  d ← tx_get;
  tv ← tx_opt (newest (filter (λ tv, String.eqb (gv_Name tv) name = true) (eligible now d poolID)))
         (errNoEligibleVersion name);
  match pin_of (tool_pins (gw_wk d)) attemptID name with
  | Some _ => mret ()
  | None => tx_modify (set_gwk (set_pins (tool_pins (gw_wk d) ++ [(attemptID, name, gv_Digest tv)]) (gw_wk d)))
  end.
Definition get_pin (attemptID tool : string) (now : timestamp) : GwTx string :=
  d ← tx_get; tx_opt (pin_of (tool_pins (gw_wk d)) attemptID tool) ErrNotFound.
Definition eligible_names (poolID : string) (now : timestamp) : GwTx (list string) :=
  tx_asks (λ d, gv_Name <$> eligible now d poolID).
Definition unique_sorted (l : list string) : list string := sort_strings (dedup_keys l).

(** The workflow's capability of a tool: the last entry of the list wins. *)
Definition capability_by_tool (permitted : list Capability) (tool : string) : option Capability :=
  foldl (λ acc c, if String.eqb (cp_Tool c) tool then Some c else acc) None permitted.
Definition actionForTool (tv : ToolVersion) : string := gv_Name tv.
Definition action_listed (actions : list string) (action : string) : bool :=
  existsb (λ a, String.eqb a action || String.eqb a "*") actions.
Definition capabilityAllowsAction (c : Capability) (tv : ToolVersion) : bool :=
  match cp_Actions c with [] => true | l => action_listed l (actionForTool tv) end.
Definition exceeds_ceiling (tv : ToolVersion) (ceiling : string) : bool :=
  negb (String.eqb ceiling EmptyString) && (effectRank ceiling <? effectRank (gv_EffectClass tv)).
Definition capability_admits (permitted : option (list Capability)) (tv : ToolVersion) : bool :=
  match permitted with
  | None => true
  | Some l =>
      match capability_by_tool l (gv_Name tv) with
      | None => false
      | Some c => negb (exceeds_ceiling tv (cp_MaxEffectClass c)) && capabilityAllowsAction c tv
      end
  end.
Fixpoint insert_version (x : ToolVersion) (l : list ToolVersion) : list ToolVersion :=
  match l with
  | [] => [x]
  | y :: l' =>
      if (if String.eqb (gv_Name x) (gv_Name y) then String.leb (gv_Version x) (gv_Version y)
          else String.leb (gv_Name x) (gv_Name y)) then x :: l else y :: insert_version x l'
  end.
Definition pinned_versions (d : GatewayDB) (attemptID : string) : list ToolVersion :=
  omap (λ p, if String.eqb p.1.1 attemptID then tool_versions d !! (p.1.2, p.2) else None)
    (tool_pins (gw_wk d)).
Definition discover (attemptID poolID : string) (permitted : option (list Capability)) (now : timestamp)
    : GwTx (list ToolVersion) :=
  tx_asks (λ d,
    filter (λ tv, capability_admits permitted tv = true)
      (foldr insert_version []
        (filter (λ tv, within_grant d poolID tv = true) (pinned_versions d attemptID)))).

(** A grant with its decoded actions: an element that is no string is empty. *)
Definition decode_actions (v : json) : list string :=
  match v with JArr l => (λ x, match x with JStr s => s | _ => EmptyString end) <$> l | _ => [] end.
Definition get_grant (poolID tool : string) (now : timestamp) : GwTx (string * list string) :=
  d ← tx_get;
  g ← tx_opt (live_grant d poolID tool) ErrNotFound;
  mret (gg_MaxEffectClass g, decode_actions (gg_AllowedActions g)).
Fixpoint insert_binding (x : CredentialBinding) (l : list CredentialBinding) : list CredentialBinding :=
  match l with
  | [] => [x]
  | y :: l' => if String.leb (cb_SlotName x) (cb_SlotName y) then x :: l else y :: insert_binding x l'
  end.
Definition binding_rows (d : GatewayDB) (poolID tool : string) : list CredentialBinding :=
  foldr insert_binding []
    (omap (λ kv, if String.eqb kv.1.1.1 poolID && String.eqb kv.1.1.2 tool && live cb_DeletedAt kv.2
                 then Some kv.2 else None) (map_to_list (credential_bindings d))).

Section discovery.
Context {M : Type}.
#[local] Notation GwM A := (proc (Gw M) Query (GwErr + A)).
Definition SnapshotAttemptTools (attemptID poolID : string) (permittedTools : option (list string)) : GwM () :=
  match permittedTools with
  | Some [] => returns ()
  | _ =>
      names ⇐ match permittedTools with
              | None => tx (eligible_names poolID)
              | Some l => returns l
              end;
      tx (λ now, tx_iter (pin_attempt_tool attemptID poolID now) (unique_sorted names))
  end.
Definition GetAttemptToolPin (attemptID toolName : string) : GwM string := tx (get_pin attemptID toolName).
Definition DiscoverEffectiveTools (attemptID poolID : string) (permitted : option (list Capability))
    : GwM (list ToolVersion) := tx (discover attemptID poolID permitted).
Definition GetPoolGrant (poolID toolName : string) : GwM (string * list string) :=
  tx (get_grant poolID toolName).
Definition ResolveCredentialBindings (poolID toolName : string) : GwM (list CredentialBinding) :=
  tx (λ _, tx_asks (λ d, binding_rows d poolID toolName)).
End discovery.

(** * The invocation ledger *)
Definition find_key (d : GatewayDB) (k : InvocationKey) : option Invocation :=
  head (filter (λ i, key_of i = k) (values (ledger d))).
Definition pool_fk (d : GatewayDB) (poolID : option uuid) : bool :=
  match poolID with None => true | Some p => bool_decide (is_Some (gw_pools d !! p)) end.
Definition fresh_invocation (id : uuid) (now : timestamp) (k : InvocationKey) (tv : ToolVersion)
    (poolID : option uuid) (args refs : json) (summary : option (gmap string string)) (lease : timestamp)
    (instance : string) : Invocation :=
  mkInvocation id (ik_AttemptID k) (ik_CallerScope k) (ik_CallerScopeID k) (ik_ToolCallID k) (gv_Name tv)
    (ik_ToolVersionDigest k) (ik_IdempotencyKey k) (gv_EffectClass tv) poolID None args refs summary
    InvocationDispatching None (JArr []) None (Some lease) (Some instance) now None None.
(** [INSERT ... ON CONFLICT (key) DO NOTHING RETURNING id]. *)
Definition insert_invocation (k : InvocationKey) (tv : ToolVersion) (poolID : option uuid)
    (args : RawMessage) (refs : json) (summary : option (gmap string string)) (lease : timestamp)
    (instance : string) (now : timestamp) : GwTx (option uuid) :=
  args ← jsonb_not_null "arguments_json" args;
  tx_require (bool_decide (gv_EffectClass tv ∈ effect_classes))
    (errStore (ErrCheckViolation "invocations_effect_class_check"));;
  tx_require (String.eqb (gv_EffectClass tv) EffectReadOnly || bool_decide (is_Some summary))
    (errStore (ErrCheckViolation "invocations_write_consequence_summary_check"));;
  id ← gw_uuid;
  d ← tx_get;
  match find_key d k with
  | Some _ => mret None
  | None =>
      tx_require (bool_decide (ledger d !! id = None)) (errStore (ErrUniqueViolation "invocations_pkey"));;
      tx_require (pool_fk d poolID) (errStore (ErrForeignKeyViolation "invocations_pool_id_fkey"));;
      tx_modify (set_ledger (<[id := fresh_invocation id now k tv poolID args refs summary lease instance]>
                               (ledger d)));;
      mret (Some id)
  end.
Definition get_invocation (id : uuid) (now : timestamp) : GwTx Invocation :=
  d ← tx_get; tx_opt (ledger d !! id) ErrNotFound.
Definition get_invocation_by_key (k : InvocationKey) (now : timestamp) : GwTx Invocation :=
  d ← tx_get; tx_opt (find_key d k) ErrNotFound.

Definition with_lease (lease : option timestamp) (instance : option string) (i : Invocation) : Invocation :=
  mkInvocation (gi_ID i) (gi_AttemptID i) (gi_CallerScope i) (gi_CallerScopeID i) (gi_ToolCallID i)
    (gi_ToolName i) (gi_ToolVersionDigest i) (gi_IdempotencyKey i) (gi_EffectClass i) (gi_PoolID i)
    (gi_RunnerID i) (gi_ArgumentsJSON i) (gi_ArtifactInputRefs i) (gi_ConsequenceSummary i) (gi_State i)
    (gi_ResultJSON i) (gi_ArtifactOutputRefs i) (gi_Error i) lease instance (gi_DispatchingAt i)
    (gi_RunningAt i) (gi_FinishedAt i).
Definition with_running (now : timestamp) (runnerID : string) (i : Invocation) : Invocation :=
  mkInvocation (gi_ID i) (gi_AttemptID i) (gi_CallerScope i) (gi_CallerScopeID i) (gi_ToolCallID i)
    (gi_ToolName i) (gi_ToolVersionDigest i) (gi_IdempotencyKey i) (gi_EffectClass i) (gi_PoolID i)
    (Some runnerID) (gi_ArgumentsJSON i) (gi_ArtifactInputRefs i) (gi_ConsequenceSummary i)
    InvocationRunning (gi_ResultJSON i) (gi_ArtifactOutputRefs i) (gi_Error i)
    (gi_DispatchLeaseExpiresAt i) (gi_GatewayInstanceID i) (gi_DispatchingAt i) (Some now) (gi_FinishedAt i).
Definition with_outcome (now : timestamp) (st : InvocationState) (result : option json) (refs : json)
    (err : option json) (i : Invocation) : Invocation :=
  mkInvocation (gi_ID i) (gi_AttemptID i) (gi_CallerScope i) (gi_CallerScopeID i) (gi_ToolCallID i)
    (gi_ToolName i) (gi_ToolVersionDigest i) (gi_IdempotencyKey i) (gi_EffectClass i) (gi_PoolID i)
    (gi_RunnerID i) (gi_ArgumentsJSON i) (gi_ArtifactInputRefs i) (gi_ConsequenceSummary i) st
    result refs err None (gi_GatewayInstanceID i) (gi_DispatchingAt i) (gi_RunningAt i) (Some now).
Definition update_invocation (id : uuid) (P : Invocation → bool) (f : Invocation → Invocation) : GwTx () :=
  d ← tx_get;
  i ← tx_opt (i ← ledger d !! id; if P i then Some i else None) ErrInvalidTransition;
  tx_modify (set_ledger (<[id := f i]> (ledger d))).

Definition renew_lease (id : uuid) (instance : string) (lease : timestamp) (now : timestamp) : GwTx () :=
  update_invocation id (λ i, in_flight (gi_State i)) (with_lease (Some lease) (Some instance)).
Definition mark_running (id : uuid) (runnerID : string) (lease : timestamp) (instance : string)
    (now : timestamp) : GwTx () :=
  update_invocation id (λ i, bool_decide (gi_State i = InvocationDispatching))
    (λ i, with_lease (Some lease) (Some instance) (with_running now runnerID i)).
(** [artifact_output_refs] is NOT NULL: a nil parameter is rejected once a row matches. *)
Definition finish_invocation (id : uuid) (st : InvocationState) (result refs err : RawMessage)
    (now : timestamp) : GwTx () :=
  result ← jsonb_param result;
  refs ← jsonb_param refs;
  err ← jsonb_param err;
  d ← tx_get;
  tx_require (match ledger d !! id with Some i => in_flight (gi_State i) | None => false end)
    ErrInvalidTransition;;
  refs ← tx_opt refs (errNotNull "artifact_output_refs");
  update_invocation id (λ i, in_flight (gi_State i)) (with_outcome now st result refs err).

(** * Crash recovery *)
Record RecoveryCounts := mkCounts { rc_Failed : Z; rc_OutcomeUnknown : Z }.
Definition counts_Total (c : RecoveryCounts) : Z := rc_Failed c + rc_OutcomeUnknown c.
Definition orphaned (now : timestamp) (i : Invocation) : bool :=
  in_flight (gi_State i) && bool_decide (gi_FinishedAt i = None) &&
  match gi_DispatchLeaseExpiresAt i with Some t => t <? now | None => false end.
Definition recovery_error (message retryability : string) : json :=
  JObj [("code", JStr "outcome_unknown"); ("message", JStr message); ("retryability", JStr retryability)].
(** The sweep sets state, error and [finished_at]; the other columns stay. *)
Definition with_recovered (now : timestamp) (st : InvocationState) (err : json) (i : Invocation) : Invocation :=
  with_outcome now st (gi_ResultJSON i) (gi_ArtifactOutputRefs i) (Some err) i.
Definition sweep (P : Invocation → bool) (st : InvocationState) (err : json) (now : timestamp) : GwTx Z :=
  d ← tx_get;
  let hit i := orphaned now i && P i in
  tx_modify (set_ledger (update_where hit (with_recovered now st err) (ledger d)));;
  mret (count_where hit (ledger d)).
Definition sweep_reads : timestamp → GwTx Z :=
  sweep (λ i, String.eqb (gi_EffectClass i) EffectReadOnly) InvocationFailed
    (recovery_error "dispatch lease expired during recovery (read_only)" "retryable").
Definition sweep_writes : timestamp → GwTx Z :=
  sweep (λ i, bool_decide (gi_EffectClass i ∈ [EffectIdempotentWrite; EffectNonIdempotentWrite]))
    InvocationOutcomeUnknown
    (recovery_error "dispatch lease expired during recovery (possible effect, no committed result)" "unknown").

Section invocations.
Context {M : Type}.
#[local] Notation GwM A := (proc (Gw M) Query (GwErr + A)).
Definition GetInvocation (id : uuid) : GwM Invocation := tx (get_invocation id).
Definition GetInvocationByKey (k : InvocationKey) : GwM Invocation := tx (get_invocation_by_key k).
Definition BeginInvocation (k : InvocationKey) (tv : ToolVersion) (poolID : option uuid) (args : RawMessage)
    (refs : json) (summary : option (gmap string string)) (lease : timestamp) (instance : string)
    : GwM (Invocation * bool) :=
  id ⇐ tx (insert_invocation k tv poolID args refs summary lease instance);
  match id with
  | None => existing ⇐ GetInvocationByKey k; returns (existing, false)
  | Some id => inv ⇐ GetInvocation id; returns (inv, true)
  end.
Definition RenewDispatchLease (id : uuid) (instance : string) (lease : timestamp) : GwM () :=
  tx (renew_lease id instance lease).
Definition MarkRunning (id : uuid) (runnerID : string) (lease : timestamp) (instance : string) : GwM () :=
  tx (mark_running id runnerID lease instance).
Definition FinishInvocation (id : uuid) (st : InvocationState) (result refs err : RawMessage) : GwM () :=
  tx (finish_invocation id st result refs err).
Definition RecoverOrphanedInvocations : GwM RecoveryCounts :=
  failed ⇐ tx sweep_reads;
  unknown ⇐ tx sweep_writes;
  returns (mkCounts failed unknown).
(** A NULL [pool_id] does not scan into the boolean. *)
Definition InvocationOwnsCaller (id poolID : uuid) : GwM bool :=
  tx (λ now, i ← get_invocation id now; tx_opt ((λ p, String.eqb p poolID) <$> gi_PoolID i) errNullScan).
End invocations.

(** * Operator and reconciler writes *)
Definition grant_row (maxEffect : string) (actions : json) : PoolGrant := mkGrant maxEffect actions None.
Definition upsert_grant (poolID tool maxEffect : string) (actions : json) : GwTx () :=
  d ← tx_get;
  tx_require (bool_decide (maxEffect ∈ effect_classes))
    (errStore (ErrCheckViolation "pool_grants_max_effect_class_check"));;
  tx_require (pool_fk d (Some poolID)) (errStore (ErrForeignKeyViolation "pool_grants_pool_id_fkey"));;
  tx_modify (set_grants (<[(poolID, tool) := grant_row maxEffect actions]> (pool_grants d))).
Definition cred_schemes : list string := [CredBearer; CredOAuthClientCredentials].
Definition upsert_binding (poolID tool slot scheme : string) (spec constraints : json) : GwTx () :=
  d ← tx_get;
  tx_require (bool_decide (scheme ∈ cred_schemes))
    (errStore (ErrCheckViolation "credential_bindings_scheme_check"));;
  tx_require (pool_fk d (Some poolID)) (errStore (ErrForeignKeyViolation "credential_bindings_pool_id_fkey"));;
  tx_modify (set_credentials (<[(poolID, tool, slot) := mkBinding slot scheme spec constraints None]>
                                (credential_bindings d))).
(** A nil slice of bytes becomes the given document. *)
Definition bytes_or (dflt : json) (r : RawMessage) : GwTx json :=
  match r with
  | NoJSON => mret dflt
  | GoodJSON v => mret v
  | BadJSON _ => tx_fail (errStore ErrInvalidJSON)
  end.
Definition with_pool (name prefix : string) (deleted : option timestamp) (p : Pool) : Pool :=
  {| po_ID := po_ID p; po_Key := po_Key p; po_Name := name; po_SpiffeIDPrefix := prefix;
     po_DeletedAt := deleted |}.
Definition pool_by_key (d : GatewayDB) (key : string) : option Pool :=
  head (select (λ p, String.eqb (po_Key p) key) (gw_pools d)).
Definition upsert_pool (key name prefix : string) : GwTx Pool :=
  id ← gw_uuid;
  d ← tx_get;
  let p := match pool_by_key d key with
           | Some p => with_pool name prefix None p
           | None => {| po_ID := id; po_Key := key; po_Name := name; po_SpiffeIDPrefix := prefix;
                        po_DeletedAt := None |}
           end in
  tx_require (bool_decide (is_Some (pool_by_key d key)) || bool_decide (gw_pools d !! id = None))
    (errStore (ErrUniqueViolation "pools_pkey"));;
  tx_modify (set_gpools (<[po_ID p := p]> (gw_pools d)));;
  mret p.

Record PoolGrantInput := mkGrantInput {
  pgi_ToolName : string; pgi_MaxEffect : string; pgi_AllowedActions : list string }.
Record CredentialBindingInput := mkBindingInput {
  cbi_ToolName : string; cbi_SlotName : string; cbi_Scheme : string; cbi_SecretSpec : RawMessage;
  cbi_ResourceConstraints : RawMessage }.
Definition delete_grant (now : timestamp) (g : PoolGrant) : PoolGrant :=
  mkGrant (gg_MaxEffectClass g) (gg_AllowedActions g) (Some now).
Definition delete_binding (now : timestamp) (b : CredentialBinding) : CredentialBinding :=
  mkBinding (cb_SlotName b) (cb_Scheme b) (cb_SecretRef b) (cb_ResourceConstraints b) (Some now).
Definition clear_grants (poolID : uuid) (now : timestamp) (d : GatewayDB) : GatewayDB :=
  set_grants (map_imap (λ k g, Some (if String.eqb k.1 poolID && live gg_DeletedAt g
                                     then delete_grant now g else g)) (pool_grants d)) d.
Definition clear_bindings (poolID : uuid) (now : timestamp) (d : GatewayDB) : GatewayDB :=
  set_credentials (map_imap (λ k b, Some (if String.eqb k.1.1 poolID && live cb_DeletedAt b
                                          then delete_binding now b else b)) (credential_bindings d)) d.
Definition put_grant (poolID : uuid) (g : PoolGrantInput) : GwTx () :=
  upsert_grant poolID (pgi_ToolName g) (pgi_MaxEffect g) (json_strings (pgi_AllowedActions g)).
Definition put_binding (poolID : uuid) (b : CredentialBindingInput) : GwTx () :=
  spec ← bytes_or (JObj []) (cbi_SecretSpec b);
  constraints ← bytes_or (JObj []) (cbi_ResourceConstraints b);
  upsert_binding poolID (cbi_ToolName b) (cbi_SlotName b) (cbi_Scheme b) spec constraints.
Definition replace_grants (poolID : uuid) (grants : list PoolGrantInput) (now : timestamp) : GwTx () :=
  tx_modify (clear_grants poolID now);; tx_iter (put_grant poolID) grants.
Definition replace_bindings (poolID : uuid) (bindings : list CredentialBindingInput) (now : timestamp) : GwTx () :=
  tx_modify (clear_bindings poolID now);; tx_iter (put_binding poolID) bindings.
Definition materialize (key name prefix : string) (grants : list PoolGrantInput)
    (bindings : list CredentialBindingInput) (now : timestamp) : GwTx () :=
  p ← upsert_pool key name prefix;
  replace_grants (po_ID p) grants now;;
  replace_bindings (po_ID p) bindings now.
Definition soft_delete_pool (key : string) (now : timestamp) : GwTx () :=
  d ← tx_get;
  match head (select (λ p, String.eqb (po_Key p) key && live_pool p) (gw_pools d)) with
  | None => mret ()
  | Some p =>
      tx_modify (set_gpools (<[po_ID p := with_pool (po_Name p) (po_SpiffeIDPrefix p) (Some now) p]> (gw_pools d)));;
      tx_modify (clear_grants (po_ID p) now);;
      tx_modify (clear_bindings (po_ID p) now);;
      tx_modify (λ d, set_dp (set_capacity (delete (po_ID p) (workspace_capacity_state (gw_dp d))) (gw_dp d)) d)
  end.

Definition upsert_pool_binding (workflowKey poolID : string) (permitted : list Capability) (now : timestamp)
    : GwTx () :=
  d ← tx_get;
  tx_require (pool_fk d (Some poolID)) (errStore (ErrForeignKeyViolation "workflow_pool_bindings_pool_id_fkey"));;
  tx_modify (set_pool_bindings
    (<[workflowKey := mkPoolBinding poolID (JArr (capability_doc <$> permitted)) None]>
       (workflow_pool_bindings d))).
Definition delete_pool_binding (workflowKey : string) (now : timestamp) : GwTx () :=
  tx_modify (λ d, set_pool_bindings
    (alter (λ w, if live wb_DeletedAt w then mkPoolBinding (wb_PoolID w) (wb_PermittedTools w) (Some now) else w)
       workflowKey (workflow_pool_bindings d)) d).

Definition with_approval (a : ApprovedRunner) (managed : ManagedBy) : ApprovedRunner :=
  mkApproved (ap_Namespace a) (ap_RunnerID a) (ap_SpiffeID a) (ap_AllowedToolNamespaces a) managed None.
Definition put_static (a : ApprovedRunner) : GwTx () :=
  tx_require (negb (String.eqb (ap_SpiffeID a) EmptyString) && negb (String.eqb (ap_Namespace a) EmptyString) &&
              negb (String.eqb (ap_RunnerID a) EmptyString) &&
              negb (bool_decide (ap_AllowedToolNamespaces a = []))) errStaticRunner;;
  tx_modify (λ d, set_approved (<[ap_SpiffeID a := with_approval a ManagedByStaticConfig]> (approved_runners d)) d).
Definition reconcile_static (configured : list ApprovedRunner) (now : timestamp) : GwTx () :=
  tx_iter put_static configured;;
  tx_modify (λ d, set_approved
    (update_where (λ a, bool_decide (ap_ManagedBy a = ManagedByStaticConfig) && live ap_DeletedAt a &&
                        negb (bool_decide (ap_SpiffeID a ∈ (ap_SpiffeID <$> configured))))
       (λ a, mkApproved (ap_Namespace a) (ap_RunnerID a) (ap_SpiffeID a) (ap_AllowedToolNamespaces a)
               (ap_ManagedBy a) (Some now)) (approved_runners d)) d).
(** The conflict clause does not set [managed_by]: an existing row keeps its own. *)
Definition upsert_approved (namespace runnerID spiffeID : string) (allowed : list string) (now : timestamp)
    : GwTx () :=
  tx_modify (λ d, set_approved
    (<[spiffeID := mkApproved namespace runnerID spiffeID allowed
                     (match approved_runners d !! spiffeID with
                      | Some a => ap_ManagedBy a | None => ManagedByOperator end) None]>
       (approved_runners d)) d).
Definition approved_runner (spiffeID : string) (now : timestamp) : GwTx ApprovedRunner :=
  d ← tx_get;
  tx_opt (a ← approved_runners d !! spiffeID; if live ap_DeletedAt a then Some a else None) ErrNotFound.

Section operator.
Context {M : Type}.
#[local] Notation GwM A := (proc (Gw M) Query (GwErr + A)).
Definition UpsertPool (key name spiffePrefix : string) : GwM Pool := tx (λ _, upsert_pool key name spiffePrefix).
Definition UpsertPoolGrant (poolID toolName maxEffect : string) (allowedActions : RawMessage) : GwM () :=
  tx (λ _, actions ← bytes_or (JArr []) allowedActions; upsert_grant poolID toolName maxEffect actions).
Definition UpsertCredentialBinding (poolID toolName slotName scheme : string) (secretSpec constraints : RawMessage)
    : GwM () :=
  tx (λ _, put_binding poolID (mkBindingInput toolName slotName scheme secretSpec constraints)).
Definition ReplacePoolGrants (poolID : uuid) (grants : list PoolGrantInput) : GwM () :=
  tx (replace_grants poolID grants).
Definition ReplaceCredentialBindings (poolID : uuid) (bindings : list CredentialBindingInput) : GwM () :=
  tx (replace_bindings poolID bindings).
Definition SoftDeletePoolByKey (key : string) : GwM () := tx (soft_delete_pool key).
Definition MaterializePool (key name spiffePrefix : string) (grants : list PoolGrantInput)
    (bindings : list CredentialBindingInput) : GwM () := tx (materialize key name spiffePrefix grants bindings).
Definition UpsertWorkflowPoolBinding (workflowKey poolID : string) (permitted : list Capability) : GwM () :=
  tx (upsert_pool_binding workflowKey poolID permitted).
Definition SoftDeleteWorkflowPoolBindingByKey (workflowKey : string) : GwM () :=
  tx (delete_pool_binding workflowKey).
Definition ReconcileStaticApprovedRunners (configured : list ApprovedRunner) : GwM () :=
  tx (reconcile_static configured).
Definition UpsertApprovedRunner (namespace runnerID spiffeID : string) (allowedNs : list string) : GwM () :=
  tx (upsert_approved namespace runnerID spiffeID allowedNs).
Definition IsApprovedRunner (spiffeID : string) : GwM ApprovedRunner := tx (approved_runner spiffeID).
End operator.

(** * Pool storage *)

(** The column defaults of a new row. *)
Definition unobserved_capacity (poolID : uuid) (authorized : bool) : WorkspaceCapacityState :=
  {| wcs_PoolID := poolID; wcs_Observed := false; wcs_FreeBytes := 0; wcs_CapacityBytes := 0;
     wcs_FreeRatio := QArith_base.inject_Z 0; wcs_Warning := true; wcs_CreditGated := true;
     wcs_StorageAuthorized := authorized; wcs_ObservedAt := None |}.
Definition authorize_storage (poolKey : string) (authorized : bool) (now : timestamp) : GwTx () :=
  d ← tx_get;
  p ← tx_opt (head (select (λ p, String.eqb (po_Key p) poolKey && live_pool p) (gw_pools d))) ErrNotFound;
  tx_modify (λ d, set_dp (set_capacity
    (<[po_ID p :=
         match workspace_capacity_state (gw_dp d) !! po_ID p with
         | Some s => {| wcs_PoolID := wcs_PoolID s; wcs_Observed := wcs_Observed s;
                        wcs_FreeBytes := wcs_FreeBytes s; wcs_CapacityBytes := wcs_CapacityBytes s;
                        wcs_FreeRatio := wcs_FreeRatio s; wcs_Warning := wcs_Warning s;
                        wcs_CreditGated := wcs_CreditGated s; wcs_StorageAuthorized := authorized;
                        wcs_ObservedAt := wcs_ObservedAt s |}
         | None => unobserved_capacity (po_ID p) authorized
         end]> (workspace_capacity_state (gw_dp d))) (gw_dp d)) d).
Record WorkspaceCapacityStatus := mkCapacityStatus {
  ws_Observed : bool; ws_FreeBytes : Z; ws_CapacityBytes : Z; ws_FreeRatio : QArith_base.Q; ws_Warning : bool;
  ws_CreditGated : bool; ws_ObservedAt : option timestamp }.
(** A pool without an observation is unobserved, warned and gated. *)
Definition capacity_status (poolKey : string) (now : timestamp) : GwTx WorkspaceCapacityStatus :=
  d ← tx_get;
  p ← tx_opt (head (select (λ p, String.eqb (po_Key p) poolKey && live_pool p) (gw_pools d))) errNoRows;
  match workspace_capacity_state (gw_dp d) !! po_ID p with
  | None => mret (mkCapacityStatus false 0 0 (QArith_base.inject_Z 0) true true None)
  | Some s =>
      tx_require (negb ((wcs_FreeBytes s <? 0) || (wcs_CapacityBytes s <? 0))) errNegativeBytes;;
      mret (mkCapacityStatus (wcs_Observed s) (wcs_FreeBytes s) (wcs_CapacityBytes s) (wcs_FreeRatio s)
              (wcs_Warning s) (wcs_CreditGated s) (wcs_ObservedAt s))
  end.
Section storage.
Context {M : Type}.
#[local] Notation GwM A := (proc (Gw M) Query (GwErr + A)).
Definition SetAgentPoolStorageAuthorized (poolKey : string) (authorized : bool) : GwM () :=
  tx (authorize_storage poolKey authorized).
Definition WorkspaceCapacityStatus_ (poolKey : string) : GwM WorkspaceCapacityStatus :=
  tx (capacity_status poolKey).
End storage.
