(* ===== verification/GatewayFacts.v ===== *)
(** The gateway store keeps its tables well formed and its history immutable, under any
    interleaving of its operations and any database fault. *)
From S2P Require Import Prelude Json Runtime WorkerPool WorkData Dispatch Proc Consequence GatewayStore.

(** * Invariant and history *)

(** A ledger row: an unfinished one is in flight under a recovery lease, a finished one is
    terminal; a write carries its consequence summary. *)
Record invocation_wf (id : uuid) (i : Invocation) : Prop := {
  iw_id : gi_ID i = id;
  iw_finished : is_Some (gi_FinishedAt i) ↔ IsTerminal (gi_State i) = true;
  iw_lease : is_Some (gi_DispatchLeaseExpiresAt i) ↔ in_flight (gi_State i) = true;
  iw_class : gi_EffectClass i ∈ effect_classes;
  iw_summary : gi_EffectClass i ≠ EffectReadOnly → is_Some (gi_ConsequenceSummary i);
  iw_running : gi_State i = InvocationRunning → is_Some (gi_RunningAt i) }.
Definition keys_unique (t : gmap uuid Invocation) : Prop :=
  ∀ a b i j, t !! a = Some i → t !! b = Some j → key_of i = key_of j → a = b.
Definition versions_wf (t : gmap (string * string) ToolVersion) : Prop :=
  (∀ k v, t !! k = Some v → k = (gv_Name v, gv_Digest v)) ∧
  (∀ a b v w, t !! a = Some v → t !! b = Some w →
     gv_Name v = gv_Name w → gv_Version v = gv_Version w → a = b).
Definition registrations_wf (t : gmap uuid RunnerRegistration) : Prop :=
  ∀ a b r q, t !! a = Some r → t !! b = Some q → rr_Active r = true → rr_Active q = true →
    registers (rr_RunnerID r) (rr_ToolName r) (rr_ToolVersion r) q = true → a = b.
Definition pins_wf (p : pins) : Prop := NoDup p.*1.
Record gateway_wf (d : GatewayDB) : Prop := {
  wf_rows : ∀ id i, ledger d !! id = Some i → invocation_wf id i;
  wf_keys : keys_unique (ledger d);
  wf_versions : versions_wf (tool_versions d);
  wf_registrations : registrations_wf (runner_registrations d);
  wf_pins : pins_wf (tool_pins (gw_wk d)) }.

(** The states a row may move through. *)
Definition state_rank (s : InvocationState) : Z :=
  match s with InvocationDispatching => 0 | InvocationRunning => 1 | _ => 2 end.
Record invocation_moves (i j : Invocation) : Prop := {
  im_key : key_of j = key_of i;
  im_id : gi_ID j = gi_ID i;
  im_tool : gi_ToolName j = gi_ToolName i;
  im_class : gi_EffectClass j = gi_EffectClass i;
  im_pool : gi_PoolID j = gi_PoolID i;
  im_args : gi_ArgumentsJSON j = gi_ArgumentsJSON i;
  im_refs : gi_ArtifactInputRefs j = gi_ArtifactInputRefs i;
  im_summary : gi_ConsequenceSummary j = gi_ConsequenceSummary i;
  im_rank : state_rank (gi_State i) ≤ state_rank (gi_State j);
  im_final : IsTerminal (gi_State i) = true → j = i }.
Record gateway_evolves (d d' : GatewayDB) : Prop := {
  ge_ledger : ∀ id i, ledger d !! id = Some i → ∃ j, ledger d' !! id = Some j ∧ invocation_moves i j;
  ge_versions : ∀ k v, tool_versions d !! k = Some v → tool_versions d' !! k = Some v;
  ge_pins : ∃ l, tool_pins (gw_wk d') = tool_pins (gw_wk d) ++ l }.
Definition gateway_good (d d' : GatewayDB) : Prop :=
  gateway_wf d → gateway_wf d' ∧ gateway_evolves d d'.

Lemma invocation_moves_refl i : invocation_moves i i.
Proof. by constructor. Qed.
Lemma invocation_moves_trans a b c : invocation_moves a b → invocation_moves b c → invocation_moves a c.
Proof.
  intros [] []. constructor; try congruence; [lia|].
  intros Ht. specialize (im_final0 Ht). subst. auto.
Qed.
Lemma gateway_evolves_refl d : gateway_evolves d d.
Proof. constructor; [eauto using invocation_moves_refl|done|]. exists []. by rewrite app_nil_r. Qed.
Lemma gateway_evolves_trans a b c : gateway_evolves a b → gateway_evolves b c → gateway_evolves a c.
Proof.
  intros [L1 V1 [p1 P1]] [L2 V2 [p2 P2]]. constructor.
  - intros id i Hi. destruct (L1 _ _ Hi) as (j & Hj & M1). destruct (L2 _ _ Hj) as (k & Hk & M2).
    eauto using invocation_moves_trans.
  - eauto.
  - exists (p1 ++ p2). by rewrite P2, P1, app_assoc.
Qed.
Lemma gateway_good_refl d : gateway_good d d.
Proof. intros H. split; [done|apply gateway_evolves_refl]. Qed.
Lemma gateway_good_trans a b c : gateway_good a b → gateway_good b c → gateway_good a c.
Proof.
  intros H1 H2 Hw. destruct (H1 Hw) as [Hb E1]. destruct (H2 Hb) as [Hc E2].
  eauto using gateway_evolves_trans.
Qed.

(** Writes that leave the four tables alone. *)
Definition frame (d d' : GatewayDB) : Prop :=
  ledger d' = ledger d ∧ tool_versions d' = tool_versions d ∧
  runner_registrations d' = runner_registrations d ∧ tool_pins (gw_wk d') = tool_pins (gw_wk d).
Lemma frame_good d d' : frame d d' → gateway_good d d'.
Proof.
  intros (H1 & H2 & H3 & H4) [W1 W2 W3 W4 W5]. split; constructor; rewrite ?H1, ?H2, ?H3, ?H4; try done.
  - eauto using invocation_moves_refl.
  - exists []. by rewrite app_nil_r.
Qed.

(** * The ledger *)
Lemma good_set_ledger d t :
  (∀ id i, ledger d !! id = Some i → invocation_wf id i → ∃ j, t !! id = Some j ∧ invocation_moves i j) →
  (gateway_wf d → (∀ id i, t !! id = Some i → invocation_wf id i) ∧ keys_unique t) →
  gateway_good d (set_ledger t d).
Proof.
  intros Hm Hw W. destruct (Hw W) as [H1 H2]. destruct W as [W1 W2 W3 W4 W5].
  split; constructor; try done.
  - cbn. intros id i Hi. eauto.
  - exists []. by rewrite app_nil_r.
Qed.
(** Rows rewritten in place by a legal move. *)
Definition row_step (i j : Invocation) : Prop :=
  ∀ id, invocation_wf id i → invocation_wf id j ∧ invocation_moves i j.
Lemma good_map_ledger d t :
  (∀ id j, t !! id = Some j → ∃ i, ledger d !! id = Some i ∧ row_step i j) →
  (∀ id, is_Some (ledger d !! id) → is_Some (t !! id)) →
  gateway_good d (set_ledger t d).
Proof.
  intros Ht Hd. apply good_set_ledger.
  - intros id i Hi Hw. destruct (Hd id) as [j Hj]; [eauto|]. destruct (Ht _ _ Hj) as (i' & Hi' & Hs).
    rewrite Hi in Hi'. injection Hi' as <-. exists j. split; [done|]. by apply (Hs id).
  - intros W. split.
    + intros id j Hj. destruct (Ht _ _ Hj) as (i & Hi & Hs). by apply Hs, (wf_rows _ W).
    + intros a b i j Hi Hj Hk. destruct (Ht _ _ Hi) as (i0 & Hi0 & S1). destruct (Ht _ _ Hj) as (j0 & Hj0 & S2).
      apply (wf_keys _ W a b i0 j0 Hi0 Hj0).
      destruct (S1 a (wf_rows _ W _ _ Hi0)) as [_ M1]. destruct (S2 b (wf_rows _ W _ _ Hj0)) as [_ M2].
      by rewrite <- (im_key _ _ M1), <- (im_key _ _ M2).
Qed.
Lemma row_step_refl i : row_step i i.
Proof. intros id H. split; [done|apply invocation_moves_refl]. Qed.

Ltac row_move :=
  let Hw := fresh "Hw" in intros id Hw; destruct Hw; split; constructor; cbn in *; try done.
Lemma step_lease lease inst i :
  in_flight (gi_State i) = true → row_step i (with_lease (Some lease) inst i).
Proof.
  intros Hf. row_move.
  destruct (gi_State i); done.
Qed.
Lemma step_running now lease inst runner i :
  gi_State i = InvocationDispatching →
  row_step i (with_lease (Some lease) inst (with_running now runner i)).
Proof.
  intros Hf. row_move.
  - rewrite Hf in iw_finished0. cbn in *. exact iw_finished0.
  - rewrite Hf. cbn. lia.
  - by rewrite Hf.
Qed.
Lemma step_outcome now st res refs err i :
  in_flight (gi_State i) = true → IsTerminal st = true → row_step i (with_outcome now st res refs err i).
Proof.
  intros Hf Ht. row_move.
  - split; [by intros [? ?]|]. by destruct st.
  - by destruct st.
  - destruct (gi_State i), st; cbn in *; try done; lia.
  - by destruct (gi_State i).
Qed.

(** * Statements *)
Lemma gw_uuid_frame d u d' : gw_uuid d = inr (u, d') → frame d d'.
Proof.
  unfold gw_uuid. destruct (gen_random_uuid (gw_rt d)) as [e|[v r]]; [done|].
  intros [= <- <-]. done.
Qed.
Lemma jsonb_param_inr r d a d' : jsonb_param r d = inr (a, d') → d' = d.
Proof. destruct r; unfold jsonb_param, mret, tx_ret, tx_fail; naive_solver. Qed.
Lemma jsonb_not_null_inr c r d a d' : jsonb_not_null c r d = inr (a, d') → d' = d ∧ r = GoodJSON a.
Proof.
  unfold jsonb_not_null. intros H. inv_tx.
  destruct r; unfold jsonb_param, mret, tx_ret, tx_fail in *; naive_solver.
Qed.
Lemma frame_trans a b c : frame a b → frame b c → frame a c.
Proof. unfold frame. intros (?&?&?&?) (?&?&?&?). by split_and!; congruence. Qed.
Lemma frame_good_trans a b c : frame a b → gateway_good b c → gateway_good a c.
Proof. intros H. apply gateway_good_trans, frame_good, H. Qed.

Lemma good_update_invocation id P f d u d' :
  (∀ i, P i = true → row_step i (f i)) → update_invocation id P f d = inr (u, d') → gateway_good d d'.
Proof.
  intros Hf H. unfold update_invocation in H. inv_tx.
  match goal with H : (_ ≫= _) = Some _ |- _ => apply bind_Some in H as (i0 & Hi0 & HP) end.
  destruct (P i0) eqn:HPi; [|done]. injection HP as <-. apply good_map_ledger.
  - intros k j Hj. destruct (decide (k = id)) as [->|Hne].
    + rewrite lookup_insert_eq in Hj. injection Hj as <-. eauto.
    + rewrite lookup_insert_ne in Hj by done. eauto using row_step_refl.
  - intros k [j Hj]. destruct (decide (k = id)) as [->|Hne].
    + rewrite lookup_insert_eq. eauto.
    + rewrite lookup_insert_ne by done. eauto.
Qed.
Lemma good_renew id inst lease now d u d' : renew_lease id inst lease now d = inr (u, d') → gateway_good d d'.
Proof. apply good_update_invocation. intros i. apply step_lease. Qed.
Lemma good_mark id runner lease inst now d u d' :
  mark_running id runner lease inst now d = inr (u, d') → gateway_good d d'.
Proof. apply good_update_invocation. intros i Hi%bool_decide_eq_true. by apply step_running. Qed.
Lemma good_finish id st res refs err now d u d' :
  IsTerminal st = true → finish_invocation id st res refs err now d = inr (u, d') → gateway_good d d'.
Proof.
  intros Hst H. unfold finish_invocation in H. inv_tx.
  repeat match goal with H : jsonb_param _ _ = inr _ |- _ => apply jsonb_param_inr in H as -> end.
  eapply good_update_invocation; [|eassumption]. intros i Hi. by apply step_outcome.
Qed.
Lemma good_sweep P st err now d n d' :
  IsTerminal st = true → sweep P st err now d = inr (n, d') → gateway_good d d'.
Proof.
  intros Hst H. unfold sweep in H. inv_tx. apply good_map_ledger.
  - intros id j. unfold update_where. rewrite lookup_fmap, fmap_Some. intros (i & Hi & ->).
    exists i. split; [done|]. destruct (orphaned now i && P i) eqn:Ho; [|apply row_step_refl].
    apply andb_prop in Ho as [[[Hf _]%andb_prop _]%andb_prop _]. by apply step_outcome.
  - intros id [i Hi]. unfold update_where. rewrite lookup_fmap, Hi. by eexists.
Qed.
Lemma find_key_None d k : find_key d k = None ↔ ∀ id i, ledger d !! id = Some i → key_of i ≠ k.
Proof.
  unfold find_key, values. rewrite head_None. split.
  - intros Hn id i Hi Hk. assert (i ∈ filter (λ i, key_of i = k) (snd <$> map_to_list (ledger d))) as Hin.
    { apply list_elem_of_filter. split; [done|]. apply list_elem_of_fmap. exists (id, i).
      by rewrite elem_of_map_to_list. }
    rewrite Hn in Hin. by apply not_elem_of_nil in Hin.
  - intros H. destruct (filter _ _) as [|i l] eqn:Hf; [done|]. exfalso.
    assert (i ∈ filter (λ i, key_of i = k) (snd <$> map_to_list (ledger d))) as Hin by (rewrite Hf; left).
    apply list_elem_of_filter in Hin as [Hk Hin]. apply list_elem_of_fmap in Hin as ([id i'] & -> & Hin).
    apply elem_of_map_to_list in Hin. by apply (H id i').
Qed.
Lemma find_key_Some d k i : find_key d k = Some i → key_of i = k ∧ ∃ id, ledger d !! id = Some i.
Proof.
  unfold find_key, values. intros Hh. apply head_Some_elem_of in Hh.
  apply list_elem_of_filter in Hh as [Hk Hin]. split; [done|].
  apply list_elem_of_fmap in Hin as ([id i'] & -> & Hin). apply elem_of_map_to_list in Hin. eauto.
Qed.

(** What [INSERT ... ON CONFLICT DO NOTHING] did. *)
Lemma insert_invocation_inr k tv pool args refs summary lease inst now d o d' :
  insert_invocation k tv pool args refs summary lease inst now d = inr (o, d') →
  ∃ v d1, args = GoodJSON v ∧ gv_EffectClass tv ∈ effect_classes ∧
    (gv_EffectClass tv ≠ EffectReadOnly → is_Some summary) ∧ frame d d1 ∧
    match o with
    | None => d' = d1 ∧ ∃ i, find_key d k = Some i
    | Some id =>
        find_key d k = None ∧ ledger d !! id = None ∧
        d' = set_ledger (<[id := fresh_invocation id now k tv pool v refs summary lease inst]> (ledger d1)) d1
    end.
Proof.
  intros H. unfold insert_invocation in H. inv_tx.
  match goal with H : jsonb_not_null _ _ _ = _ |- _ => apply jsonb_not_null_inr in H as [-> ->] end.
  match goal with H : gw_uuid _ = _ |- _ => apply gw_uuid_frame in H as Hfr end.
  match type of Hfr with frame _ ?x => eexists _, x end.
  split; [reflexivity|]. split; [by eapply bool_decide_eq_true|].
  split.
  { intros Hne%String.eqb_neq.
    match goal with Ho : (_ || _) = true |- _ => rewrite Hne in Ho; by apply bool_decide_eq_true in Ho end. }
  split; [done|].
  match type of Hfr with frame _ ?x => assert (find_key x k = find_key d k) as Hk
    by (unfold find_key; destruct Hfr as (-> & _); reflexivity) end.
  rewrite Hk in H. destruct (find_key d k) as [i|].
  - inv_tx. eauto.
  - inv_tx. split; [done|]. split; [|done].
    match goal with H : bool_decide (ledger _ !! _ = None) = true |- _ => apply bool_decide_eq_true in H as Hn end.
    destruct Hfr as (Hl & _). by rewrite Hl in Hn.
Qed.
Lemma good_insert_invocation k tv pool args refs summary lease inst now d o d' :
  insert_invocation k tv pool args refs summary lease inst now d = inr (o, d') → gateway_good d d'.
Proof.
  intros (v & d1 & -> & Hc & Hs & Hfr & Ho)%insert_invocation_inr.
  eapply frame_good_trans; [done|]. destruct o as [id|].
  - destruct Ho as (Hk & Hid & ->). rewrite find_key_None in Hk. destruct Hfr as (Hl & _). rewrite <- Hl in *.
    apply good_set_ledger.
    + intros id' i Hi _. exists i. split; [|apply invocation_moves_refl].
      rewrite lookup_insert_ne; [done|]. intros ->. congruence.
    + intros W. split.
      * intros id' i [[<- <-]|[Hne Hi]]%lookup_insert_Some; [|by apply (wf_rows _ W)].
        by constructor; cbn.
      * intros a b i j [[<- <-]|[Hna Hi]]%lookup_insert_Some [[<- <-]|[Hnb Hj]]%lookup_insert_Some Heq.
        -- done.
        -- exfalso. apply (Hk _ _ Hj). rewrite <- Heq. by destruct k.
        -- exfalso. apply (Hk _ _ Hi). rewrite Heq. by destruct k.
        -- by eapply (wf_keys _ W).
  - destruct Ho as [-> _]. apply gateway_good_refl.
Qed.

(** ** Versions *)
Lemma elem_of_values {K R} `{Countable K} (t : gmap K R) r : r ∈ values t ↔ ∃ k, t !! k = Some r.
Proof.
  unfold values. rewrite list_elem_of_fmap. split.
  - intros ([k r'] & -> & Hin). exists k. by apply elem_of_map_to_list in Hin.
  - intros [k Hk]. exists (k, r). by rewrite elem_of_map_to_list.
Qed.
Lemma existsb_values_false {K R} `{Countable K} (P : R → bool) (t : gmap K R) :
  existsb P (values t) = false ↔ ∀ k r, t !! k = Some r → P r = false.
Proof.
  rewrite <- not_true_iff_false, existsb_exists. split.
  - intros Hn k r Hk. apply not_true_iff_false. intros HP. apply Hn. exists r.
    rewrite <- list_elem_of_In, elem_of_values. eauto.
  - intros Hf (r & Hin & HP). rewrite <- list_elem_of_In, elem_of_values in Hin. destruct Hin as [k Hk].
    rewrite (Hf k r Hk) in HP. done.
Qed.
(** A new descriptor, or none: no stored one changes. *)
Lemma insert_tool_version_inr tv now d u d' :
  insert_tool_version tv now d = inr (u, d') →
  ∃ d1 id, frame d d1 ∧
    ((d' = d1 ∧ is_Some (tool_versions d !! (gv_Name tv, gv_Digest tv))) ∨
     (tool_versions d !! (gv_Name tv, gv_Digest tv) = None ∧
      (∀ k v, tool_versions d !! k = Some v → same_version tv v = false) ∧
      d' = set_versions (<[(gv_Name tv, gv_Digest tv) := version_row id now tv]> (tool_versions d1)) d1)).
Proof.
  intros H. unfold insert_tool_version in H. inv_tx.
  repeat match goal with
         | H : jsonb_not_null _ _ _ = _ |- _ => apply jsonb_not_null_inr in H as [-> _]
         | H : jsonb_param _ _ = _ |- _ => apply jsonb_param_inr in H as ->
         end.
  match goal with H : gw_uuid _ = inr (?x, ?y) |- _ => apply gw_uuid_frame in H as Hfr; exists y, x end.
  split; [done|]. destruct Hfr as (_ & Hv & _). rewrite Hv in H.
  destruct (tool_versions d !! _) as [row|].
  - inv_tx. left. split; [done|]. by eexists.
  - inv_tx. right. split; [done|]. split; [|by rewrite Hv]. apply existsb_values_false. by apply negb_true_iff.
Qed.
Lemma good_insert_version tv now d u d' : insert_tool_version tv now d = inr (u, d') → gateway_good d d'.
Proof.
  intros (d1 & id & Hfr & Hc)%insert_tool_version_inr. eapply frame_good_trans; [done|].
  destruct Hc as [[-> _]|(Hn & Hs & ->)]; [apply gateway_good_refl|].
  destruct Hfr as (_ & Hv & _). rewrite <- Hv in *.
  intros [W1 W2 [W3 W3'] W4 W5]. split; constructor; try done; cbn.
  - split.
    + intros k v [[<- <-]|[_ Hk]]%lookup_insert_Some; [done|eauto].
    + intros a b v w [[<- <-]|[Ha Hv']]%lookup_insert_Some [[<- <-]|[Hb Hw]]%lookup_insert_Some H1 H2; cbn in *.
      * done.
      * apply Hs in Hw. unfold same_version in Hw. rewrite <- H1, <- H2, !String.eqb_refl in Hw. done.
      * apply Hs in Hv'. unfold same_version in Hv'. rewrite H1, H2, !String.eqb_refl in Hv'. done.
      * eauto.
  - eauto using invocation_moves_refl.
  - intros k v Hk. rewrite lookup_insert_ne; [done|]. intros <-. congruence.
  - exists []. by rewrite app_nil_r.
Qed.

(** ** Registrations *)
Lemma good_set_registrations d t :
  (gateway_wf d → registrations_wf t) → gateway_good d (set_registrations t d).
Proof.
  intros Ht W. specialize (Ht W). destruct W. split; constructor; try done; cbn.
  - eauto using invocation_moves_refl.
  - exists []. by rewrite app_nil_r.
Qed.
(** The identity columns of a registration. *)
Definition same_registration (r q : RunnerRegistration) : Prop :=
  rr_RunnerID q = rr_RunnerID r ∧ rr_ToolName q = rr_ToolName r ∧ rr_ToolVersion q = rr_ToolVersion r ∧
  (rr_Active q = true → rr_Active r = true).
Lemma registrations_wf_update P f t :
  (∀ r, same_registration r (f r)) → registrations_wf t → registrations_wf (update_where P f t).
Proof.
  intros Hf W a b r q. unfold update_where. rewrite !lookup_fmap, !fmap_Some.
  intros (r0 & Hr & ->) (q0 & Hq & ->) Ar Aq. pose proof (Hf r0) as (R1 & R2 & R3 & R4).
  pose proof (Hf q0) as (Q1 & Q2 & Q3 & Q4). unfold registers.
  intros Hreg. apply (W a b r0 q0 Hr Hq).
  - destruct (P r0); auto.
  - destruct (P q0); auto.
  - unfold registers. destruct (P r0), (P q0); congruence.
Qed.
Lemma good_update_registrations P f d n d' :
  (∀ r, same_registration r (f r)) → update_registrations P f d = inr (n, d') → gateway_good d d'.
Proof.
  intros Hf H. unfold update_registrations in H. inv_tx. apply good_set_registrations.
  intros W. apply registrations_wf_update; [done|apply W].
Qed.
Lemma same_deactivate r : same_registration r (deactivate r). Proof. by repeat split. Qed.
Lemma same_accepting b r : same_registration r (accepting b r). Proof. by repeat split. Qed.
Lemma same_heartbeat now r : same_registration r (with_heartbeat now r). Proof. by repeat split. Qed.
Lemma same_retired now r : same_registration r (with_flags false false now r). Proof. by repeat split. Qed.
#[export] Hint Resolve same_deactivate same_accepting same_heartbeat same_retired : gateway.
Lemma good_upsert_registration r now d out d' :
  upsert_registration r now d = inr (out, d') → gateway_good d d'.
Proof.
  intros H. unfold upsert_registration in H. inv_tx.
  eapply gateway_good_trans; [eapply good_update_registrations; [|eassumption]; intros; apply same_deactivate|].
  match goal with H : gw_uuid _ = _ |- _ => apply gw_uuid_frame in H as Hfr end.
  eapply frame_good_trans; [done|]. apply good_set_registrations. intros W.
  match goal with H : negb _ = true |- _ => apply negb_true_iff in H; rewrite existsb_values_false in H; rename H into Hn end.
  match type of W with gateway_wf ?x =>
    assert (∀ k q, rr_Active q = true → registers (rr_RunnerID r) (rr_ToolName r) (rr_ToolVersion r) q = true →
            runner_registrations x !! k = Some q → False) as Hno end.
  { intros k q Ha Hr Hk. specialize (Hn k q Hk). rewrite Ha, Hr in Hn. done. }
  intros a b x y [[<- <-]|[Ha Hx]]%lookup_insert_Some [[<- <-]|[Hb Hy]]%lookup_insert_Some Ax Ay Hreg; cbn in *.
  - done.
  - exfalso. eauto.
  - exfalso. eapply (Hno a x Ax); [|done]. unfold registers in *. cbn in Hreg.
    apply andb_prop in Hreg as [[->%String.eqb_eq ->%String.eqb_eq]%andb_prop ->%String.eqb_eq].
    by rewrite !String.eqb_refl.
  - by eapply (wf_registrations _ W).
Qed.
Lemma good_begin_drain runner gen refs now d u d' : begin_drain runner gen refs now d = inr (u, d') → gateway_good d d'.
Proof.
  intros H. unfold begin_drain in H. inv_tx.
  eapply gateway_good_trans; [eapply good_update_registrations; [|eassumption]; intros; apply same_accepting|].
  eapply tx_iter_preserves; [apply gateway_good_refl|apply gateway_good_trans| |eassumption].
  intros ref y z v _ Hx. inv_tx. eapply good_update_registrations; [|eassumption]. intros; apply same_accepting.
Qed.
Lemma good_retire runner gen ref now d u d' : retire_version runner gen ref now d = inr (u, d') → gateway_good d d'.
Proof.
  intros H. unfold retire_version in H. inv_tx.
  eapply good_update_registrations; [|eassumption]. intros; apply same_retired.
Qed.

(** ** Pins *)
Lemma pin_of_None p attemptID tool : pin_of p attemptID tool = None ↔ (attemptID, tool) ∉ p.*1.
Proof.
  unfold pin_of. rewrite fmap_None. split.
  - intros Hf Hin. apply list_elem_of_fmap in Hin as ([[a t] dg] & Heq & Hin). cbn in Heq. injection Heq as <- <-.
    apply list_elem_of_In in Hin. pose proof (find_none _ _ Hf _ Hin) as Hx. cbn in Hx.
    by rewrite !String.eqb_refl in Hx.
  - intros Hn. destruct (List.find _ _) as [x|] eqn:Hf; [|done]. exfalso. apply find_some in Hf as [Hin Hx].
    apply andb_prop in Hx as [H1%String.eqb_eq H2%String.eqb_eq]. apply Hn. apply list_elem_of_fmap.
    exists x. rewrite list_elem_of_In. destruct x as [[a t] dg]. cbn in *. by subst.
Qed.
Lemma good_pin attemptID poolID now name d u d' :
  pin_attempt_tool attemptID poolID now name d = inr (u, d') → gateway_good d d'.
Proof.
  intros H. unfold pin_attempt_tool in H. inv_tx.
  destruct (pin_of _ _ _) as [dg|] eqn:Hp; inv_tx; [apply gateway_good_refl|].
  intros [W1 W2 W3 W4 W5]. split; constructor; try done; cbn.
  - unfold pins_wf in *. rewrite fmap_app. apply NoDup_app. split; [done|]. split; [|apply NoDup_singleton].
    intros x Hx Hin. apply list_elem_of_singleton in Hin as ->. by apply pin_of_None in Hp.
  - eauto using invocation_moves_refl.
  - by eexists.
Qed.

(** ** Statements that write other tables *)
Ltac frame_op := intros; unfold frame; inv_tx; try done.
Lemma frame_refl d : frame d d. Proof. done. Qed.
Lemma frame_upsert_grant poolID tool eff acts d u d' :
  upsert_grant poolID tool eff acts d = inr (u, d') → frame d d'.
Proof. unfold upsert_grant. frame_op. Qed.
Lemma frame_upsert_binding poolID tool slot scheme spec cons d u d' :
  upsert_binding poolID tool slot scheme spec cons d = inr (u, d') → frame d d'.
Proof. unfold upsert_binding. frame_op. Qed.
Lemma bytes_or_inr v r d a d' : bytes_or v r d = inr (a, d') → d' = d.
Proof. destruct r; unfold bytes_or, mret, tx_ret, tx_fail; naive_solver. Qed.
Lemma frame_put_binding poolID b d u d' : put_binding poolID b d = inr (u, d') → frame d d'.
Proof.
  unfold put_binding. intros H. inv_tx.
  repeat match goal with H : bytes_or _ _ _ = _ |- _ => apply bytes_or_inr in H as -> end.
  by eapply frame_upsert_binding.
Qed.
Lemma frame_iter {A} (f : A → GwTx ()) l d u d' :
  (∀ a x y v, f a x = inr (v, y) → frame x y) → tx_iter f l d = inr (u, d') → frame d d'.
Proof.
  intros Hf H. eapply tx_iter_preserves; [apply frame_refl|apply frame_trans| |eassumption]. eauto.
Qed.
Lemma frame_replace_grants poolID grants now d u d' : replace_grants poolID grants now d = inr (u, d') → frame d d'.
Proof.
  unfold replace_grants. intros H. inv_tx.
  eapply (frame_trans _ (clear_grants poolID now d)); [done|].
  eapply frame_iter; [|eassumption]. intros. by eapply frame_upsert_grant.
Qed.
Lemma frame_replace_bindings poolID bs now d u d' : replace_bindings poolID bs now d = inr (u, d') → frame d d'.
Proof.
  unfold replace_bindings. intros H. inv_tx.
  eapply (frame_trans _ (clear_bindings poolID now d)); [done|].
  eapply frame_iter; [|eassumption]. intros. by eapply frame_put_binding.
Qed.
Lemma frame_upsert_pool key name prefix d p d' : upsert_pool key name prefix d = inr (p, d') → frame d d'.
Proof.
  unfold upsert_pool. intros H. inv_tx.
  match goal with H : gw_uuid _ = _ |- _ => apply gw_uuid_frame in H as Hfr end.
  eapply frame_trans; [done|]. done.
Qed.
Lemma frame_materialize key name prefix grants bs now d u d' :
  materialize key name prefix grants bs now d = inr (u, d') → frame d d'.
Proof.
  unfold materialize. intros H. inv_tx.
  eapply frame_trans; [by eapply frame_upsert_pool|].
  eapply frame_trans; [by eapply frame_replace_grants|]. by eapply frame_replace_bindings.
Qed.
Lemma frame_soft_delete key now d u d' : soft_delete_pool key now d = inr (u, d') → frame d d'.
Proof. unfold soft_delete_pool. intros H. inv_tx. destruct (head _); inv_tx; done. Qed.
Lemma frame_reconcile configured now d u d' : reconcile_static configured now d = inr (u, d') → frame d d'.
Proof.
  unfold reconcile_static. intros H. inv_tx.
  match goal with H : tx_iter _ _ _ = inr (_, ?x) |- _ => assert (frame d x) as Hfr end.
  { eapply frame_iter; [|eassumption]. intros a x y v Hx. unfold put_static in Hx. inv_tx. done. }
  eapply frame_trans; [done|]. done.
Qed.

(** * Processes *)
Section keeps.
Context {M : Type}.
Definition good_step (s s' : Gw M) : Prop := gateway_good s.1 s'.1.
Definition keeps_gw {A} (p : proc (Gw M) Query A) : Prop := all_steps good_step p.

Lemma good_step_refl s : good_step s s. Proof. apply gateway_good_refl. Qed.
Lemma good_step_trans a b c : good_step a b → good_step b c → good_step a c.
Proof. apply gateway_good_trans. Qed.
Lemma keeps_tx {A} (m : timestamp → GwTx A) :
  (∀ now d a d', m now d = inr (a, d') → gateway_good d d') → keeps_gw (tx m).
Proof.
  intros Hm.
  assert (∀ now b s, good_step s (tx_do (m now) b s).2) as Hdo.
  { intros now b [d x]. unfold good_step, tx_do, run_tx. cbn.
    destruct (m now d) as [e|[a d']] eqn:Hd; cbn; [apply gateway_good_refl|eauto]. }
  intros f now. destruct f; [|exact I|]; by apply all_steps_atomically.
Qed.
Lemma keeps_ebind {A B} (m : proc (Gw M) Query (GwErr + A)) (k : A → proc (Gw M) Query (GwErr + B)) :
  keeps_gw m → (∀ a, keeps_gw (k a)) → keeps_gw (ebind m k).
Proof. intros Hm Hk. apply all_steps_bind; [done|]. intros [e|a]; [exact I|apply Hk]. Qed.
Lemma keeps_attempt {A} (m : proc (Gw M) Query (GwErr + A)) : keeps_gw m → keeps_gw (attempt m).
Proof. intros Hm. apply all_steps_bind; [done|]. by intros r. Qed.
Lemma keeps_each {A} (f : A → proc (Gw M) Query (GwErr + ())) l :
  (∀ a, keeps_gw (f a)) → keeps_gw (each f l).
Proof. intros Hf. induction l as [|a l IH]; [exact I|]. by apply keeps_ebind. Qed.
Lemma keeps_fails {A} e : keeps_gw (fails e : proc (Gw M) Query (GwErr + A)). Proof. exact I. Qed.
Lemma keeps_returns {A} (a : A) : keeps_gw (returns a : proc (Gw M) Query (GwErr + A)). Proof. exact I. Qed.
(** A statement that only reads. *)
Definition reads {A} (m : GwTx A) : Prop := ∀ d a d', m d = inr (a, d') → d' = d.
Lemma gw_keeps_reads {A} (m : timestamp → GwTx A) : (∀ now, reads (m now)) → keeps_gw (tx m).
Proof. intros Hm. apply keeps_tx. intros now d a d' H. apply Hm in H as ->. apply gateway_good_refl. Qed.
Lemma keeps_frame {A} (m : timestamp → GwTx A) :
  (∀ now d a d', m now d = inr (a, d') → frame d d') → keeps_gw (tx m).
Proof. intros Hm. apply keeps_tx. eauto using frame_good. Qed.
End keeps.
Ltac read_op := let H := fresh in intros ? ? ? ? H; repeat (progress inv_tx); try done.

(** * Every operation of the store *)
Lemma reads_tool_version n dg now : reads (get_tool_version n dg now).
Proof. intros d a d' H. unfold get_tool_version in H. by inv_tx. Qed.
Lemma reads_other_digest tv now : reads (other_digest tv now).
Proof. intros d a d' H. unfold other_digest in H. by inv_tx. Qed.
Lemma reads_draining r g now : reads (draining_status r g now).
Proof. intros d a d' H. unfold draining_status in H. by inv_tx. Qed.
Lemma reads_pool_by_id p now : reads (get_pool_by_id p now).
Proof. intros d a d' H. unfold get_pool_by_id in H. by inv_tx. Qed.
Lemma reads_pool_by_key p now : reads (get_pool_by_key p now).
Proof. intros d a d' H. unfold get_pool_by_key in H. by inv_tx. Qed.
Lemma reads_resolve_pool p now : reads (resolve_pool p now).
Proof. intros d a d' H. unfold resolve_pool in H. by inv_tx. Qed.
Lemma reads_pool_binding k now : reads (get_pool_binding k now).
Proof. intros d a d' H. unfold get_pool_binding in H. by inv_tx. Qed.
Lemma reads_scoped_turn p a t now : reads (scoped_turn p a t now).
Proof. intros d x d' H. unfold scoped_turn in H. by inv_tx. Qed.
Lemma reads_scoped_assignment t now : reads (scoped_assignment t now).
Proof. intros d x d' H. unfold scoped_assignment in H. by inv_tx. Qed.
Lemma reads_scoped_step a t now : reads (scoped_step a t now).
Proof. intros d x d' H. unfold scoped_step in H. by inv_tx. Qed.
Lemma reads_run_pool r now : reads (run_pool r now).
Proof. intros d x d' H. unfold run_pool in H. by inv_tx. Qed.
Lemma reads_pin a t now : reads (get_pin a t now).
Proof. intros d x d' H. unfold get_pin in H. by inv_tx. Qed.
Lemma reads_names p now : reads (eligible_names p now).
Proof. intros d x d' H. unfold eligible_names in H. by inv_tx. Qed.
Lemma reads_discover a p l now : reads (discover a p l now).
Proof. intros d x d' H. unfold discover in H. by inv_tx. Qed.
Lemma reads_grant p t now : reads (get_grant p t now).
Proof. intros d x d' H. unfold get_grant in H. by inv_tx. Qed.
Lemma reads_invocation id now : reads (get_invocation id now).
Proof. intros d x d' H. unfold get_invocation in H. by inv_tx. Qed.
Lemma reads_invocation_by_key k now : reads (get_invocation_by_key k now).
Proof. intros d x d' H. unfold get_invocation_by_key in H. by inv_tx. Qed.
Lemma reads_approved s now : reads (approved_runner s now).
Proof. intros d x d' H. unfold approved_runner in H. by inv_tx. Qed.
Lemma reads_capacity k now : reads (capacity_status k now).
Proof.
  intros d x d' H. unfold capacity_status in H. inv_tx.
  destruct (workspace_capacity_state _ !! _); by inv_tx.
Qed.
#[export] Hint Resolve reads_tool_version reads_other_digest reads_draining reads_pool_by_id reads_pool_by_key
  reads_resolve_pool reads_pool_binding reads_scoped_turn reads_scoped_assignment reads_scoped_step
  reads_run_pool reads_pin reads_names reads_discover reads_grant reads_invocation
  reads_invocation_by_key reads_approved reads_capacity : gateway.
#[export] Hint Resolve good_insert_version good_upsert_registration good_begin_drain good_retire good_pin
  good_insert_invocation good_renew good_mark : gateway.

Section operations.
Context {M : Type}.
(** The operations of [store.go], and what other components commit to the database they
    share (dispatch, work and runtime tables, which only add tool pins). *)
Inductive store_op : ∀ {A : Type}, proc (Gw M) Query (GwErr + A) → Prop :=
| op_register_version tv : store_op (RegisterToolVersion tv)
| op_get_version n dg : store_op (GetToolVersion n dg)
| op_register_runner r : store_op (UpsertRunnerRegistration r)
| op_heartbeat r t v g : store_op (Heartbeat r t v g)
| op_heartbeat_runner r g : store_op (HeartbeatRunner r g)
| op_begin_drain r g refs : store_op (BeginDrain r g refs)
| op_draining r g : store_op (DrainingStatus r g)
| op_retire r g refs : store_op (RetireVersions r g refs)
| op_deactivate r g : store_op (DeactivateRunnerStream r g)
| op_approved s : store_op (IsApprovedRunner s)
| op_resolve_pool s : store_op (ResolvePoolBySpiffePrefix s)
| op_binding k : store_op (GetWorkflowPoolBinding k)
| op_turn_scope p a t w g : store_op (ResolveTurnScope p a t w g)
| op_step_scope a s : store_op (ResolveWorkflowStepScope a s)
| op_run_pool r p : store_op (UpsertRunPoolAssignment r p)
| op_snapshot a p l : store_op (SnapshotAttemptTools a p l)
| op_pin a t : store_op (GetAttemptToolPin a t)
| op_discover a p l : store_op (DiscoverEffectiveTools a p l)
| op_grant p t : store_op (GetPoolGrant p t)
| op_credentials p t : store_op (ResolveCredentialBindings p t)
| op_begin k tv p args refs summary lease inst : store_op (BeginInvocation k tv p args refs summary lease inst)
| op_renew id inst lease : store_op (RenewDispatchLease id inst lease)
| op_mark id r lease inst : store_op (MarkRunning id r lease inst)
| op_finish id st res refs err : IsTerminal st = true → store_op (FinishInvocation id st res refs err)
| op_recover : store_op RecoverOrphanedInvocations
| op_get_invocation id : store_op (GetInvocation id)
| op_get_by_key k : store_op (GetInvocationByKey k)
| op_owns id p : store_op (InvocationOwnsCaller id p)
| op_upsert_pool k n s : store_op (UpsertPool k n s)
| op_upsert_grant p t e a : store_op (UpsertPoolGrant p t e a)
| op_upsert_binding p t s c r rc : store_op (UpsertCredentialBinding p t s c r rc)
| op_replace_grants p l : store_op (ReplacePoolGrants p l)
| op_replace_bindings p l : store_op (ReplaceCredentialBindings p l)
| op_delete_pool k : store_op (SoftDeletePoolByKey k)
| op_materialize k n s g b : store_op (MaterializePool k n s g b)
| op_upsert_workflow k p l : store_op (UpsertWorkflowPoolBinding k p l)
| op_get_pool k : store_op (GetPoolByKey k)
| op_delete_workflow k : store_op (SoftDeleteWorkflowPoolBindingByKey k)
| op_reconcile l : store_op (ReconcileStaticApprovedRunners l)
| op_approve n r s l : store_op (UpsertApprovedRunner n r s l)
| op_storage k b : store_op (SetAgentPoolStorageAuthorized k b)
| op_capacity k : store_op (WorkspaceCapacityStatus_ k)
| op_foreign (f : DispatchDB → DispatchDB) :
    (∀ d, ∃ l, tool_pins (dp_wk (f d)) = tool_pins (dp_wk d) ++ l ∧
               (pins_wf (tool_pins (dp_wk d)) → pins_wf (tool_pins (dp_wk (f d))))) →
    store_op (tx (λ _, tx_modify (λ d, set_dp (f (gw_dp d)) d))).

Lemma keeps_turn_scope p a t w g : keeps_gw (ResolveTurnScope (M:=M) p a t w g).
Proof.
  apply keeps_ebind; [apply gw_keeps_reads; auto with gateway|]. intros run.
  apply keeps_ebind; [apply gw_keeps_reads; auto with gateway|]. intros asg.
  destruct (negb _); [exact I|]. apply keeps_ebind; [apply keeps_attempt, gw_keeps_reads; auto with gateway|].
  intros [e|pool]; [exact I|]. by destruct (turn_capabilities asg).
Qed.
Lemma keeps_step_scope a t : keeps_gw (ResolveWorkflowStepScope (M:=M) a t).
Proof.
  apply keeps_ebind; [apply gw_keeps_reads; auto with gateway|]. intros key. destruct (String.eqb _ _); [exact I|].
  apply keeps_ebind; [apply keeps_attempt, gw_keeps_reads; auto with gateway|]. intros [e|[pool caps]]; [exact I|].
  apply keeps_ebind; [apply keeps_attempt, gw_keeps_reads; auto with gateway|]. intros [e|assigned]; [exact I|].
  destruct (negb _); [exact I|]. apply keeps_ebind; [apply keeps_attempt, gw_keeps_reads; auto with gateway|].
  by intros [e|p].
Qed.
Lemma keeps_register tv : keeps_gw (RegisterToolVersion (M:=M) tv).
Proof.
  unfold RegisterToolVersion. destruct (validateToolVersion tv); [exact I|].
  apply keeps_ebind; [apply keeps_tx; eauto with gateway|]. intros _.
  apply keeps_ebind; [apply gw_keeps_reads; auto with gateway|]. intros out.
  destruct (validateToolVersion out); [exact I|]. destruct (negb _); [exact I|].
  apply keeps_ebind; [apply gw_keeps_reads; auto with gateway|]. by intros [].
Qed.
Lemma keeps_begin k tv p args refs summary lease inst :
  keeps_gw (BeginInvocation (M:=M) k tv p args refs summary lease inst).
Proof.
  apply keeps_ebind; [apply keeps_tx; eauto with gateway|]. intros [id|].
  - apply keeps_ebind; [apply gw_keeps_reads; auto with gateway|]. by intros inv.
  - apply keeps_ebind; [apply gw_keeps_reads; auto with gateway|]. by intros inv.
Qed.
Lemma gw_keeps_finish id st res refs err :
  IsTerminal st = true → keeps_gw (FinishInvocation (M:=M) id st res refs err).
Proof. intros Hst. apply keeps_tx. intros now d a d'. by apply good_finish. Qed.
Lemma keeps_recover : keeps_gw (RecoverOrphanedInvocations (M:=M)).
Proof.
  apply keeps_ebind; [apply keeps_tx; intros now d a d'; by apply good_sweep|]. intros n.
  apply keeps_ebind; [apply keeps_tx; intros now d a d'; by apply good_sweep|]. by intros.
Qed.
Lemma keeps_snapshot a p l : keeps_gw (SnapshotAttemptTools (M:=M) a p l).
Proof.
  assert (∀ names, keeps_gw (tx (M:=M) (λ now, tx_iter (pin_attempt_tool a p now) names))) as Hpin.
  { intros names. apply keeps_tx. intros now d x d' H.
    eapply tx_iter_preserves; [apply gateway_good_refl|apply gateway_good_trans| |eassumption].
    eauto with gateway. }
  destruct l as [[|n l]|]; [exact I| |]; apply keeps_ebind; try done.
  apply gw_keeps_reads; auto with gateway.
Qed.
Lemma keeps_update_registrations P f (m : Z → GwTx ()) :
  (∀ now r, same_registration r (f now r)) → (∀ n, reads (m n)) →
  keeps_gw (tx (M:=M) (λ now, n ← update_registrations P (f now); m n)).
Proof.
  intros Hf Hm. apply keeps_tx. intros now d a d' H. inv_tx. apply Hm in H as ->.
  eapply good_update_registrations; [|eassumption]. apply Hf.
Qed.

(** No operation of the store breaks its invariant or rewrites its history. *)
Lemma store_op_keeps {A} (p : proc (Gw M) Query (GwErr + A)) : store_op p → keeps_gw p.
Proof.
  destruct 1; try (apply gw_keeps_reads; by eauto with gateway).
  - apply keeps_register.
  - apply keeps_tx; eauto with gateway.
  - apply keeps_update_registrations; [auto with gateway|]. intros n d a d' H. by inv_tx.
  - apply keeps_update_registrations; [auto with gateway|]. intros n d a d' H. by inv_tx.
  - apply keeps_tx; eauto with gateway.
  - apply keeps_each. intros ref. apply keeps_tx; eauto with gateway.
  - apply (keeps_update_registrations _ (λ _, deactivate)); [auto with gateway|]. intros n d a d' H. by inv_tx.
  - apply keeps_turn_scope.
  - apply keeps_step_scope.
  - apply keeps_frame. intros now d a d' H. unfold assign_run_pool in H. by inv_tx.
  - apply keeps_snapshot.
  - apply gw_keeps_reads. intros now d a d' H. by inv_tx.
  - apply keeps_begin.
  - apply keeps_tx; eauto with gateway.
  - apply keeps_tx; eauto with gateway.
  - by apply gw_keeps_finish.
  - apply keeps_recover.
  - apply gw_keeps_reads. intros now d a d' H. inv_tx.
    match goal with H : get_invocation _ _ _ = _ |- _ => by apply reads_invocation in H end.
  - apply keeps_frame. intros now. apply frame_upsert_pool.
  - apply keeps_frame. intros now d x d' H. inv_tx.
    match goal with H : bytes_or _ _ _ = _ |- _ => apply bytes_or_inr in H as -> end. by eapply frame_upsert_grant.
  - apply keeps_frame. intros now. apply frame_put_binding.
  - apply keeps_frame. intros now. apply frame_replace_grants.
  - apply keeps_frame. intros now. apply frame_replace_bindings.
  - apply keeps_frame. intros now. apply frame_soft_delete.
  - apply keeps_frame. intros now. apply frame_materialize.
  - apply keeps_frame. intros now d x d' H. unfold upsert_pool_binding in H. by inv_tx.
  - apply keeps_frame. intros now d x d' H. unfold delete_pool_binding in H. by inv_tx.
  - apply keeps_frame. intros now. apply frame_reconcile.
  - apply keeps_frame. intros now d x d' H. unfold upsert_approved in H. by inv_tx.
  - apply keeps_frame. intros now d x d' H. unfold authorize_storage in H. by inv_tx.
  - apply keeps_tx. intros now d x d' Hx. inv_tx. destruct (H (gw_dp d)) as (l & Hl & Hwf).
    intros [W1 W2 W3 W4 W5]. split; constructor; try done; cbn.
    + by apply Hwf.
    + eauto using invocation_moves_refl.
    + by exists l.
Qed.

(** A thread that runs one operation and drops its result. *)
Definition store_thread (t : proc (Gw M) Query ()) : Prop :=
  ∃ A (p : proc (Gw M) Query (GwErr + A)), store_op p ∧ t = (p ≫= λ _, mret ()).

Lemma store_thread_op {A} (p : proc (Gw M) Query (GwErr + A)) : store_op p → store_thread (p ≫= λ _, mret ()).
Proof. intros Hp. by exists A, p. Qed.

(** C9. Whatever operations of the gateway store run concurrently, statement by statement, and
    whatever database faults hit them, the tables stay well formed (one ledger row per
    invocation key, finished rows terminal, unfinished ones under a lease, writes with a
    summary; one digest per tool version; one active registration per runner and version;
    one pin per attempt and tool) and history is kept: ledger rows only move forward with
    their request unchanged and are final once terminal, published versions and pins
    never change. *)
Theorem gateway_invariant (ts : list (proc (Gw M) Query ())) s ts' s' :
  Forall store_thread ts → tsteps ts s ts' s' → gateway_wf s.1 →
  gateway_wf s'.1 ∧ gateway_evolves s.1 s'.1.
Proof.
  intros Hts Hs. apply (tsteps_all good_step ts s ts' s' good_step_refl good_step_trans); [|done].
  eapply Forall_impl; [done|]. intros t (A & p & Hp & ->).
  apply all_steps_bind; [by apply store_op_keeps|done].
Qed.
End operations.
