(* ===== verification/GatewayService.v ===== *)
(** The gateway's handlers (control-plane/internal/gateway/service.go, runnerpool.go,
    conversions.go, credresolve.go, argschema.go).

    A handler is a process over the database and the memory of the gateway: the live runner
    connections with their pending results, the fencing counter, and the log of messages
    written to runner streams. Handlers, runner streams and the recovery loop run
    concurrently. Third-party and unmodelled code is a parameter: the JSON Schema library
    ([schema_valid]), the literal of a JSON number, error texts ([err_text]) and the
    artifact rows ([artifact_stat]). *)
From Stdlib Require Import Ascii.
From S2P Require Import Prelude Json Runtime Workflow WorkerPool WorkData Dispatch Spiffe Proc Consequence GatewayStore.
#[local] Open Scope gw_scope.

(** * Messages *)
Inductive Retryability :=
| RETRYABILITY_UNSPECIFIED | RETRYABILITY_RETRYABLE | RETRYABILITY_NON_RETRYABLE | RETRYABILITY_UNKNOWN.
#[export] Instance Retryability_eq : EqDecision Retryability. Proof. solve_decision. Defined.
Definition retryability_number (r : Retryability) : Z :=
  match r with
  | RETRYABILITY_UNSPECIFIED => 0 | RETRYABILITY_RETRYABLE => 1
  | RETRYABILITY_NON_RETRYABLE => 2 | RETRYABILITY_UNKNOWN => 3
  end.
Inductive InvokeState :=
| INVOKE_STATE_UNSPECIFIED | INVOKE_STATE_DISPATCHING | INVOKE_STATE_RUNNING | INVOKE_STATE_SUCCEEDED
| INVOKE_STATE_FAILED | INVOKE_STATE_OUTCOME_UNKNOWN | INVOKE_STATE_IN_PROGRESS.
#[export] Instance InvokeState_eq : EqDecision InvokeState. Proof. solve_decision. Defined.
Record ErrorDetail := mkError {
  ed_Code : string; ed_Message : string; ed_Retryability : Retryability; ed_DetailsJson : string }.
#[export] Instance ErrorDetail_eq : EqDecision ErrorDetail. Proof. solve_decision. Defined.
Record GatewayArtifactRef := mkArtifactRef {
  pa_ArtifactID : string; pa_MimeType : string; pa_SizeBytes : Z; pa_Digest : string }.
#[export] Instance GatewayArtifactRef_eq : EqDecision GatewayArtifactRef. Proof. solve_decision. Defined.
Record InvokeRequest := mkRequest {
  rq_AttemptID : string; rq_CallerScopeID : string; rq_ToolCallID : string; rq_ToolName : string;
  rq_ToolVersionDigest : string; rq_ArgumentsJson : string; rq_IdempotencyKey : string;
  rq_ArtifactInputRefs : list GatewayArtifactRef; rq_FencingGeneration : Z }.
Record InvokeResponse := mkResponse {
  rs_InvocationID : string; rs_State : InvokeState; rs_ResultJson : RawMessage;
  rs_ArtifactOutputRefs : list GatewayArtifactRef; rs_Error : option ErrorDetail;
  rs_ExistingInvocationID : string }.
Inductive Code :=
| CodeUnauthenticated | CodePermissionDenied | CodeFailedPrecondition | CodeInvalidArgument
| CodeNotFound | CodeInternal.

(** * Conversions *)
Inductive EffectClassProto :=
| EFFECT_CLASS_UNSPECIFIED | EFFECT_CLASS_READ_ONLY | EFFECT_CLASS_IDEMPOTENT_WRITE
| EFFECT_CLASS_NON_IDEMPOTENT_WRITE.
Definition effectClassToProto (c : string) : EffectClassProto :=
  if String.eqb c EffectReadOnly then EFFECT_CLASS_READ_ONLY
  else if String.eqb c EffectIdempotentWrite then EFFECT_CLASS_IDEMPOTENT_WRITE
  else if String.eqb c EffectNonIdempotentWrite then EFFECT_CLASS_NON_IDEMPOTENT_WRITE
  else EFFECT_CLASS_UNSPECIFIED.
Definition effectClassFromProto (c : EffectClassProto) : option string :=
  match c with
  | EFFECT_CLASS_READ_ONLY => Some EffectReadOnly
  | EFFECT_CLASS_IDEMPOTENT_WRITE => Some EffectIdempotentWrite
  | EFFECT_CLASS_NON_IDEMPOTENT_WRITE => Some EffectNonIdempotentWrite
  | EFFECT_CLASS_UNSPECIFIED => None
  end.
Definition invocationStateToProto (s : InvocationState) : InvokeState :=
  match s with
  | InvocationDispatching => INVOKE_STATE_DISPATCHING
  | InvocationRunning => INVOKE_STATE_RUNNING
  | InvocationSucceeded => INVOKE_STATE_SUCCEEDED
  | InvocationFailed => INVOKE_STATE_FAILED
  | InvocationOutcomeUnknown => INVOKE_STATE_OUTCOME_UNKNOWN
  end.
Definition parseRetryability (s : string) : Retryability :=
  if String.eqb s "retryable" then RETRYABILITY_RETRYABLE
  else if String.eqb s "non_retryable" then RETRYABILITY_NON_RETRYABLE
  else if String.eqb s "unknown" then RETRYABILITY_UNKNOWN
  else RETRYABILITY_UNSPECIFIED.
Definition retryabilityToStorage (r : Retryability) : string :=
  match r with
  | RETRYABILITY_RETRYABLE => "retryable"
  | RETRYABILITY_NON_RETRYABLE => "non_retryable"
  | RETRYABILITY_UNKNOWN => "unknown"
  | RETRYABILITY_UNSPECIFIED => EmptyString
  end.

(** [json.Unmarshal] of a number into [int64]. *)
Definition unmarshal_int64 (v : json) : option Z :=
  match v with
  | JNum m e =>
      let n := m * 10 ^ e in
      if (0 <=? e) && (- int8_max - 1 <=? n) && (n <=? int8_max) then Some n else None
  | JNull => Some 0
  | _ => None
  end.
Definition int64_field (name : string) (l : list (string * json)) : option Z :=
  foldl (λ acc v, a ← acc; match v with JNull => Some a | _ => unmarshal_int64 v end) (Some 0)
    (field_values name l).
Definition artifact_ref_of (v : json) : option GatewayArtifactRef :=
  match v with
  | JNull => Some (mkArtifactRef EmptyString EmptyString 0 EmptyString)
  | JObj l =>
      id ← string_field "artifact_id" l; mime ← string_field "mime_type" l;
      size ← int64_field "size_bytes" l; digest ← string_field "digest" l;
      Some (mkArtifactRef id mime size digest)
  | _ => None
  end.
Definition parseArtifactRefs (r : RawMessage) : list GatewayArtifactRef :=
  match r with
  | GoodJSON (JArr l) => default [] (mapM artifact_ref_of l)
  | _ => []
  end.
Definition artifact_ref_doc (r : GatewayArtifactRef) : json :=
  JObj [("artifact_id", JStr (pa_ArtifactID r)); ("mime_type", JStr (pa_MimeType r));
        ("size_bytes", JNum (pa_SizeBytes r) 0); ("digest", JStr (pa_Digest r))].
Definition marshalArtifactRefs (l : list GatewayArtifactRef) : json := JArr (artifact_ref_doc <$> l).
Definition parseError (r : RawMessage) : option ErrorDetail :=
  match r with
  | GoodJSON JNull => Some (mkError EmptyString EmptyString RETRYABILITY_UNSPECIFIED EmptyString)
  | GoodJSON (JObj l) =>
      code ← string_field "code" l; message ← string_field "message" l;
      retry ← string_field "retryability" l; details ← string_field "details_json" l;
      Some (mkError code message (parseRetryability retry) details)
  | _ => None
  end.
Definition mustMarshalError (e : option ErrorDetail) : json :=
  match e with
  | None => JObj []
  | Some e => JObj [("code", JStr (ed_Code e)); ("details_json", JStr (ed_DetailsJson e));
                    ("message", JStr (ed_Message e));
                    ("retryability", JStr (retryabilityToStorage (ed_Retryability e)))]
  end.
(** [json.Marshal] of the generated message: its fields by their tags, [omitempty], the
    enum as a number. *)
Definition error_struct_json (e : ErrorDetail) : json :=
  let str k v := if String.eqb v EmptyString then [] else [(k, JStr v)] in
  JObj (str "code" (ed_Code e) ++ str "message" (ed_Message e) ++
        match ed_Retryability e with
        | RETRYABILITY_UNSPECIFIED => []
        | r => [("retryability", JNum (retryability_number r) 0)]
        end ++ str "details_json" (ed_DetailsJson e)).

Definition column (o : option json) : RawMessage := match o with Some v => GoodJSON v | None => NoJSON end.
Definition invocationToResponse (inv : Invocation) : InvokeResponse :=
  let refs := parseArtifactRefs (GoodJSON (gi_ArtifactOutputRefs inv)) in
  match gi_State inv with
  | InvocationSucceeded =>
      mkResponse (gi_ID inv) INVOKE_STATE_SUCCEEDED (column (gi_ResultJSON inv)) refs None EmptyString
  | InvocationFailed =>
      mkResponse (gi_ID inv) INVOKE_STATE_FAILED NoJSON refs (parseError (column (gi_Error inv))) EmptyString
  | InvocationOutcomeUnknown =>
      mkResponse (gi_ID inv) INVOKE_STATE_OUTCOME_UNKNOWN NoJSON refs (parseError (column (gi_Error inv))) EmptyString
  | _ => mkResponse (gi_ID inv) INVOKE_STATE_IN_PROGRESS NoJSON refs None (gi_ID inv)
  end.

Record dispatchResult := mkResult {
  dr_state : InvocationState; dr_resultJSON : string; dr_artifactRefs : RawMessage;
  dr_errorDetail : RawMessage; dr_streamLost : bool }.
(** A lost stream. Its state is never read (the zero value in the code). *)
Definition lost : dispatchResult := mkResult InvocationFailed EmptyString NoJSON NoJSON true.
Record InvokeResult := mkInvokeResult {
  vr_InvocationID : string; vr_State : InvokeState; vr_ResultJson : string;
  vr_ArtifactOutputRefs : list GatewayArtifactRef; vr_Error : option ErrorDetail }.
Definition invokeResultToDispatch (r : InvokeResult) : dispatchResult :=
  let refs := GoodJSON (marshalArtifactRefs (vr_ArtifactOutputRefs r)) in
  match vr_State r with
  | INVOKE_STATE_SUCCEEDED => mkResult InvocationSucceeded (vr_ResultJson r) refs NoJSON false
  | INVOKE_STATE_FAILED => mkResult InvocationFailed EmptyString refs (GoodJSON (mustMarshalError (vr_Error r))) false
  | _ => mkResult InvocationFailed EmptyString refs
           (GoodJSON (mustMarshalError (Some (mkError "unexpected_state" "runner reported non-terminal result state"
              RETRYABILITY_UNSPECIFIED EmptyString)))) false
  end.
(** A runner's [InvokeError]: no artifact references are set. *)
Definition invokeErrorToDispatch (e : option ErrorDetail) : dispatchResult :=
  mkResult InvocationFailed EmptyString NoJSON (GoodJSON (mustMarshalError e)) false.

(** * Authorization *)
Inductive AuthErr := notInWorkflow | exceedsWorkflowCeiling | actionNotInWorkflow | notGranted
| exceedsGrantCeiling | actionNotGranted | authStore (e : GwErr).
Fixpoint authorize_capabilities (permitted : list Capability) (tv : ToolVersion) : AuthErr + () :=
  match permitted with
  | [] => inl notInWorkflow
  | c :: l =>
      if negb (String.eqb (cp_Tool c) (gv_Name tv)) then authorize_capabilities l tv
      else if exceeds_ceiling tv (cp_MaxEffectClass c) then inl exceedsWorkflowCeiling
      else if negb (capabilityAllowsAction c tv) then inl actionNotInWorkflow
      else inr ()
  end.
Definition authorizeWorkflowCapability (permitted : option (list Capability)) (tv : ToolVersion) : AuthErr + () :=
  match permitted with None => inr () | Some l => authorize_capabilities l tv end.
Definition grant_admits (grant : string * list string) (tv : ToolVersion) : AuthErr + () :=
  let '(ceiling, actions) := grant in
  if effectRank ceiling <? effectRank (gv_EffectClass tv) then inl exceedsGrantCeiling
  else match actions with
       | [] => inr ()
       | _ => if action_listed actions (actionForTool tv) then inr () else inl actionNotGranted
       end.
Fixpoint index_dot (s : string) : option nat :=
  match s with
  | EmptyString => None
  | String c s' => if Ascii.eqb c "." then Some O else S <$> index_dot s'
  end.
Definition toolNamespace (toolName : string) : string :=
  match index_dot toolName with
  | Some (S i) => String.substring 0 (S i) toolName
  | _ => toolName
  end.
Definition namespaceAllowed (allowed : list string) (ns : string) : bool := action_listed allowed ns.
Definition resourceAllowed (allowed : json) (val : string) : bool :=
  match allowed with
  | JStr a => String.eqb a val || String.eqb a "*"
  | JArr l => existsb (λ x, match x with JStr s => String.eqb s val || String.eqb s "*" | _ => false end) l
  | _ => false
  end.
(** The violated dimensions of one binding; [None] when its constraints do not decode. *)
Definition binding_admits (args : list (string * json)) (constraints : json) : option bool :=
  match constraints with
  | JObj l =>
      if negb (any_ok constraints) then None
      else Some (forallb (λ dim,
             match map_get dim l, map_get dim args with
             | Some allowed, Some (JStr v) => resourceAllowed allowed v
             | _, _ => true
             end) (map_keys l))
  | JNull => Some true
  | _ => None
  end.
Definition resource_policy (bindings : list CredentialBinding) (argsJSON : string) : bool :=
  match bindings with
  | [] => true
  | _ =>
      match (if String.eqb argsJSON EmptyString then Some [] else
             v ← parse_json argsJSON; if any_ok v then unmarshal_map v else None) with
      | None => false
      | Some args => forallb (λ b, default false (binding_admits args (cb_ResourceConstraints b))) bindings
      end
  end.

(** * Runner connections *)
Record Invoke := mkInvoke {
  io_InvocationID : string; io_Tool : string; io_Digest : string; io_ArgumentsJson : string;
  io_IdempotencyKey : string; io_ArtifactInputRefs : list GatewayArtifactRef }.
Inductive RunnerControl :=
| CtlWelcome (gen : Z) (heartbeatMs leaseMs : Z)
| CtlInvoke (i : Invoke)
| CtlCancel (invocationID reason : string)
| CtlAckRegistered (tool : string)
| CtlAckHeartbeat
| CtlDrainStatus (pinned releasable : list ToolRef).
(** [rc_pending] holds the result channel of each invocation, capacity one. *)
Record runnerConn := mkConn {
  rc_identity : Identity; rc_runnerID : string; rc_gen : Z;
  rc_pending : gmap string (option dispatchResult); rc_tools : gset string; rc_closed : bool;
  rc_sendMu : bool; rc_sendWG : Z }.
(** Connections by address, the pool's list of live ones, the generation counter and the
    messages written to streams so far. *)
Record Mem := mkMem {
  m_conns : gmap nat runnerConn; m_pool : list nat; m_gen : Z; m_sent : list (nat * RunnerControl) }.
Definition toolRefKey (name digest : string) : string := (name +:+ String "000" digest)%string.

Definition set_conns (c : gmap nat runnerConn) (m : Mem) : Mem := mkMem c (m_pool m) (m_gen m) (m_sent m).
Definition set_pool (l : list nat) (m : Mem) : Mem := mkMem (m_conns m) l (m_gen m) (m_sent m).
Definition with_pending (p : gmap string (option dispatchResult)) (c : runnerConn) : runnerConn :=
  mkConn (rc_identity c) (rc_runnerID c) (rc_gen c) p (rc_tools c) (rc_closed c) (rc_sendMu c) (rc_sendWG c).
Definition with_tools (t : gset string) (c : runnerConn) : runnerConn :=
  mkConn (rc_identity c) (rc_runnerID c) (rc_gen c) (rc_pending c) t (rc_closed c) (rc_sendMu c) (rc_sendWG c).
Definition with_closed (c : runnerConn) : runnerConn :=
  mkConn (rc_identity c) (rc_runnerID c) (rc_gen c) (rc_pending c) (rc_tools c) true (rc_sendMu c) (rc_sendWG c).
Definition with_sending (mu : bool) (wg : Z) (c : runnerConn) : runnerConn :=
  mkConn (rc_identity c) (rc_runnerID c) (rc_gen c) (rc_pending c) (rc_tools c) (rc_closed c) mu wg.

Abbreviation GwP A := (proc (Gw Mem) Query A).
Definition mem (f : Mem → Mem) : GwP () := update (λ s, (s.1, f s.2)).
Definition alter_conn (c : nat) (f : runnerConn → runnerConn) : GwP () :=
  mem (λ m, set_conns (alter f c (m_conns m)) m).
Definition conn_field {R} (c : nat) (dflt : R) (f : runnerConn → R) : GwP R :=
  inspect (λ s, match m_conns s.2 !! c with Some rc => f rc | None => dflt end).
(** A critical section on a connection that returns a value; [None] blocks. *)
Definition conn_section {R} (c : nat) (f : runnerConn → option (R * runnerConn)) : GwP R :=
  Atomic (λ s, rc ← m_conns s.2 !! c; '(r, rc') ← f rc;
               Some (r, (s.1, set_conns (<[c := rc']> (m_conns s.2)) s.2))) Ret.

(** The two critical sections around [stream.Send], the lock that serializes sends and the
    wait group that teardown waits for. The message is in the log once Send was called. *)
Definition rc_send (c : nat) (msg : RunnerControl) : GwP bool :=
  entered ← conn_section c (λ rc, Some (if rc_closed rc then (false, rc)
                                        else (true, with_sending (rc_sendMu rc) (rc_sendWG rc + 1) rc)));
  if entered : bool then
    _ ← conn_section c (λ rc, if rc_sendMu rc then None else Some ((), with_sending true (rc_sendWG rc) rc));
    closed ← conn_field c true rc_closed;
    ok ← (if closed : bool then mret false
          else
            _ ← mem (λ m, mkMem (m_conns m) (m_pool m) (m_gen m) (m_sent m ++ [(c, msg)]));
            ask QSend);
    _ ← alter_conn c (λ rc, with_sending false (rc_sendWG rc - 1) rc);
    mret ok
  else mret false.
Definition registerTool (c : nat) (name digest : string) : GwP () :=
  alter_conn c (λ rc, with_tools ({[toolRefKey name digest]} ∪ rc_tools rc) rc).
Definition retireTool (c : nat) (name digest : string) : GwP () :=
  alter_conn c (λ rc, with_tools (rc_tools rc ∖ {[toolRefKey name digest]}) rc).
Definition serves (tool digest : string) (rc : runnerConn) : bool :=
  bool_decide (toolRefKey tool digest ∈ rc_tools rc).
Definition drop_pending (id : string) (rc : runnerConn) : runnerConn :=
  with_pending (delete id (rc_pending rc)) rc.

(** The result of an attempt and whether the caller's context was done. *)
Definition rc_dispatch (c : nat) (invoke : Invoke) (id : string) (timeout : Z) : GwP (dispatchResult * bool) :=
  open ← conn_section c (λ rc, Some (if rc_closed rc then (false, rc)
                                     else (true, with_pending (<[id := None]> (rc_pending rc)) rc)));
  if open : bool then
    sent ← rc_send c (CtlInvoke invoke);
    r ← (if sent : bool then
           b ← ask QSelect;
           match b with
           | SelResult =>
               r ← conn_section c (λ rc, match rc_pending rc !! id with
                                         | Some (Some r) => Some (r, with_pending (<[id := None]> (rc_pending rc)) rc)
                                         | _ => None
                                         end);
               mret (r, false)
           | SelTimeout => if 0 <? timeout then mret (lost, false) else Atomic (λ _, @None (() * _)) (λ _, Ret (lost, false))
           | SelDone => mret (lost, true)
           end
         else mret (lost, false));
    _ ← alter_conn c (drop_pending id);
    mret r
  else mret (lost, false).
(** A result is dropped when nobody waits or one is already there. *)
Definition deliver (c : nat) (id : string) (r : dispatchResult) : GwP () :=
  alter_conn c (λ rc, match rc_pending rc !! id with
                      | Some None => with_pending (<[id := Some r]> (rc_pending rc)) rc
                      | _ => rc
                      end).
Definition pool_add (c : nat) : GwP () := mem (λ m, set_pool (m_pool m ++ [c]) m).
Fixpoint remove_first (c : nat) (l : list nat) : list nat :=
  match l with
  | [] => []
  | x :: l' => if bool_decide (x = c) then l' else x :: remove_first c l'
  end.
Definition pool_remove (c : nat) : GwP () := mem (λ m, set_pool (remove_first c (m_pool m)) m).
Definition pick_conn (m : Mem) (tool digest : string) : option nat :=
  List.find (λ c, match m_conns m !! c with Some rc => serves tool digest rc | None => false end) (m_pool m).
Definition pick (tool digest : string) : GwP (option nat) := inspect (λ s, pick_conn s.2 tool digest).
(** [None] is [ErrNoRunner]. *)
Definition dispatchToRunner (tool digest : string) (invoke : Invoke) (id : string) (timeout : Z)
    : GwP (option (dispatchResult * bool)) :=
  c ← pick tool digest;
  match c with
  | None => mret None
  | Some c => r ← rc_dispatch c invoke id timeout; mret (Some r)
  end.
Definition toolAvailable (tool digest : string) : GwP bool :=
  c ← pick tool digest; mret (bool_decide (is_Some c)).
Definition runnerOwnsInvocation (m : Mem) (runnerID id : string) : bool :=
  existsb (λ c, match m_conns m !! c with
                | Some rc => String.eqb (rc_runnerID rc) runnerID && bool_decide (is_Some (rc_pending rc !! id))
                | None => false
                end) (m_pool m).
Fixpoint cancel_in (conns : list nat) (id reason : string) : GwP () :=
  match conns with
  | [] => mret ()
  | c :: l =>
      pending ← conn_field c false (λ rc, bool_decide (is_Some (rc_pending rc !! id)));
      if pending : bool then _ ← rc_send c (CtlCancel id reason); mret ()
      else cancel_in l id reason
  end.
Definition propagateCancel (id reason : string) : GwP () :=
  conns ← inspect (λ s, m_pool s.2); cancel_in conns id reason.

(** * Configuration. Durations in microseconds. *)
Record Config := mkConfig {
  cfg_HeartbeatInterval : Z; cfg_LeaseInterval : Z; cfg_InlineLimit : Z; cfg_DefaultTimeout : Z;
  cfg_RetryMaxAttempts : Z; cfg_RetryBackoff : Z; cfg_DispatchLease : Z; cfg_GatewayInstanceID : string }.
Definition or_default (v dflt : Z) : Z := if v =? 0 then dflt else v.
Definition config_defaults (randomInstanceID : string) (c : Config) : Config :=
  mkConfig (or_default (cfg_HeartbeatInterval c) 10000000) (or_default (cfg_LeaseInterval c) 30000000)
    (or_default (cfg_InlineLimit c) 65536) (or_default (cfg_DefaultTimeout c) 60000000)
    (or_default (cfg_RetryMaxAttempts c) 3) (or_default (cfg_RetryBackoff c) 200000)
    (or_default (cfg_DispatchLease c) 60000000)
    (if String.eqb (cfg_GatewayInstanceID c) EmptyString then randomInstanceID else cfg_GatewayInstanceID c).
Definition dispatchTimeout (cfg : Config) (tv : ToolVersion) : Z :=
  if 0 <? gv_TimeoutMS tv then gv_TimeoutMS tv * 1000 else cfg_DefaultTimeout cfg.

(** * Artifact references *)

(** A row as [Stat] returns it: the reference is absent until the upload is complete. *)
Record ArtifactInfo := mkArtifactInfo {
  ai_Available : bool; ai_SourceType : string; ai_SourceRef : option string;
  ai_Ref : option GatewayArtifactRef }.
(** [ExecutionScope]: the node of the caller's running turn, or a running step. *)
Definition ExecutionScope (d : GatewayDB) (attemptID : string) (scope : CallerScope) (scopeID : string)
    : option (uuid * option uuid) :=
  a ← attempts (gw_wk d) !! attemptID;
  _ ← work_items (gw_wk d) !! at_WorkItemID a;
  match scope with
  | CallerScopeTurn =>
      t ← turns (gw_rt d) !! scopeID;
      if String.eqb (turn_RunID t) attemptID && bool_decide (turn_State t = TurnRunning)
      then Some (at_ID a, turn_NodeExecutionID t) else None
  | CallerScopeWorkflowStep =>
      s ← run_steps (gw_rt d) !! scopeID;
      if String.eqb (step_RunID s) attemptID && bool_decide (step_State s = StepRunning)
      then Some (at_ID a, None) else None
  end.
Definition LinkedToAttempt (d : GatewayDB) (artifactID attemptID : string) (node : option uuid) : bool :=
  existsb (λ l, String.eqb (al_ArtifactID l) artifactID && String.eqb (al_AttemptID l) attemptID &&
                match artifacts (gw_wk d) !! artifactID with
                | Some a => String.eqb (af_State a) "available"
                | None => false
                end &&
                match node, al_NodeExecutionID l with
                | Some n, Some m => String.eqb n m
                | _, _ => true
                end) (artifact_links (gw_wk d)).
Definition same_ref (a b : GatewayArtifactRef) : bool :=
  String.eqb (pa_MimeType a) (pa_MimeType b) && (pa_SizeBytes a =? pa_SizeBytes b) &&
  String.eqb (pa_Digest a) (pa_Digest b).
(** The descriptor's [reads] flag and accepted types; [None] when it does not decode. *)
Definition bool_field (name : string) (l : list (string * json)) : option bool :=
  foldl (λ acc v, b ← acc; match v with JNull => Some b | JBool x => Some x | _ => None end) (Some false)
    (field_values name l).
Definition artifact_capabilities (r : RawMessage) : option (bool * list string) :=
  match r with
  | GoodJSON JNull => Some (false, [])
  | GoodJSON (JObj l) => rd ← bool_field "reads" l; mime ← strings_field "accepted_mime_types" l; Some (rd, mime)
  | _ => None
  end.

(** * Credentials *)
Record declaredCredentialSlot := mkSlot { ds_Name : string; ds_Scheme : string; ds_Required : bool }.
Definition slot_of (v : json) : option declaredCredentialSlot :=
  match v with
  | JNull => Some (mkSlot EmptyString EmptyString false)
  | JObj l => n ← string_field "name" l; s ← string_field "scheme" l; r ← bool_field "required" l; Some (mkSlot n s r)
  | _ => None
  end.
Definition parseCredentialSlots (r : RawMessage) : option (list declaredCredentialSlot) :=
  match r with
  | NoJSON | GoodJSON JNull => Some []
  | GoodJSON (JArr l) => mapM slot_of l
  | _ => None
  end.
Record Credential := mkCredential {
  cr_Scheme : string; cr_BearerValue : string; cr_ResourceConstraints : json; cr_OauthClientID : string;
  cr_OauthTokenURL : string; cr_OauthScope : string }.
Inductive CredErr := credSlots | credMissing (slot : string) | credScheme (slot : string) | credSpec
| credSecret | credOAuth | credUnknownScheme | credUndeclared | credStore (e : GwErr).
(** A [SecretRef] field: an object with [name] and [key]. *)
Definition secret_ref (field : string) (l : list (string * json)) : option (string * string) :=
  foldl (λ acc v, r ← acc;
           match v with
           | JNull => Some r
           | JObj o =>
               let upd dflt k := foldl (λ a x, s ← a; match x with JNull => Some s | JStr t => Some t | _ => None end)
                                   (Some dflt) (field_values k o) in
               n ← upd r.1 "name"; k ← upd r.2 "key"; Some (n, k)
           | _ => None
           end) (Some (EmptyString, EmptyString)) (field_values field l).
Definition members (v : json) : option (list (string * json)) :=
  match v with JObj l => Some l | JNull => Some [] | _ => None end.
Definition resolveCredential (b : CredentialBinding) : GwP (CredErr + Credential) :=
  if String.eqb (cb_Scheme b) CredBearer then
    match (l ← members (cb_SecretRef b); secret_ref "value_ref" l) with
    | None => mret (inl credSpec)
    | Some (n, k) =>
        v ← ask (QSecret n k);
        mret (match v with
              | None => inl credSecret
              | Some v => inr (mkCredential CredBearer v (cb_ResourceConstraints b) EmptyString EmptyString EmptyString)
              end)
    end
  else if String.eqb (cb_Scheme b) CredOAuthClientCredentials then
    match (l ← members (cb_SecretRef b); id ← string_field "client_id" l; r ← secret_ref "client_secret_ref" l;
           u ← string_field "token_url" l; sc ← string_field "scope" l; Some (id, r, u, sc)) with
    | None => mret (inl credSpec)
    | Some (id, (n, k), u, sc) =>
        v ← ask (QSecret n k);
        match v with
        | None => mret (inl credSecret)
        | Some secret =>
            t ← ask (QOAuth u id secret sc);
            mret (match t with
                  | None => inl credOAuth
                  | Some t => inr (mkCredential CredOAuthClientCredentials t (cb_ResourceConstraints b) id u sc)
                  end)
        end
    end
  else mret (inl credUnknownScheme).
(** The declared slots in order; each takes its binding out of the map. *)
Fixpoint resolve_slots (slots : list declaredCredentialSlot) (bindings : gmap string CredentialBinding)
    (acc : gmap string Credential) : GwP (CredErr + gmap string Credential) :=
  match slots with
  | [] => mret (if bool_decide (bindings = ∅) then inr acc else inl credUndeclared)
  | s :: l =>
      match bindings !! ds_Name s with
      | None => if ds_Required s then mret (inl (credMissing (ds_Name s))) else resolve_slots l bindings acc
      | Some b =>
          if negb (String.eqb (cb_Scheme b) (ds_Scheme s)) then mret (inl (credScheme (ds_Name s)))
          else
            c ← resolveCredential b;
            match c with
            | inl e => mret (inl e)
            | inr c => resolve_slots l (delete (ds_Name s) bindings) (<[cb_SlotName b := c]> acc)
            end
      end
  end.
Definition resolveCredentialContext (poolID : string) (tv : ToolVersion) : GwP (CredErr + gmap string Credential) :=
  match parseCredentialSlots (gv_CredentialSlots tv) with
  | None => mret (inl credSlots)
  | Some declared =>
      bs ← ResolveCredentialBindings poolID (gv_Name tv);
      match bs with
      | inl e => mret (inl (credStore e))
      | inr bs => resolve_slots declared (list_to_map ((λ b, (cb_SlotName b, b)) <$> bs)) ∅
      end
  end.

(** * Handlers *)
Section handlers.
Context (cfg : Config) (schema_valid : json → json → bool) (number_text : Z → Z → string)
  (err_text : GwErr → string) (artifacts_configured : bool)
  (artifact_stat : GatewayDB → string → option ArtifactInfo).

(** Unmodelled error messages are empty. *)
Definition detail (code : string) (r : Retryability) : ErrorDetail := mkError code EmptyString r EmptyString.
Definition denied_response (e : ErrorDetail) : InvokeResponse :=
  mkResponse EmptyString INVOKE_STATE_FAILED NoJSON [] (Some e) EmptyString.
Definition mapErr (e : GwErr) : Code :=
  match e with ErrNotFound | ErrScopeDenied => CodePermissionDenied | _ => CodeInternal end.

Definition resolveCallerScope (id : Identity) (attemptID scopeID : string) (gen : Z)
    : proc (Gw Mem) Query (GwErr + CallerResolution) :=
  match id_Kind id with
  | KindSupervisor =>
      pool ⇐ attempt (ResolvePoolBySpiffePrefix (id_SPIFFEID id));
      match pool with
      | inl _ => fails ErrScopeDenied
      | inr p => ResolveTurnScope (po_ID p) attemptID scopeID (id_WorkerID id) gen
      end
  | KindControlPlaneWorkflow => ResolveWorkflowStepScope attemptID scopeID
  | _ => fails ErrScopeDenied
  end.
Definition authorize (poolID : string) (tv : ToolVersion) (permitted : option (list Capability)) : GwP (AuthErr + ()) :=
  match authorizeWorkflowCapability permitted tv with
  | inl e => mret (inl e)
  | inr _ =>
      g ← GetPoolGrant poolID (gv_Name tv);
      mret (match g with
            | inl ErrNotFound => inl notGranted
            | inl e => inl (authStore e)
            | inr grant => grant_admits grant tv
            end)
  end.
Definition validateArguments (args : string) (schema : RawMessage) : bool :=
  if cfg_InlineLimit cfg <? byte_length args then false
  else match (if String.eqb args EmptyString then Some (JObj []) else parse_json args) with
       | None => false
       | Some v =>
           any_ok v && match schema with
                       | NoJSON | GoodJSON (JObj []) => true
                       | GoodJSON s => schema_valid s v
                       | BadJSON _ => false
                       end
       end.
Definition input_ref_ok (d : GatewayDB) (attemptID : uuid) (node : option uuid) (mimes : list string)
    (ref : GatewayArtifactRef) : bool :=
  match artifact_stat d (pa_ArtifactID ref) with
  | Some a =>
      ai_Available a &&
      match ai_Ref a with
      | Some c => same_ref c ref && LinkedToAttempt d (pa_ArtifactID ref) attemptID node &&
                  (bool_decide (mimes = []) || bool_decide (pa_MimeType c ∈ mimes))
      | None => false
      end
  | None => false
  end.
Definition artifact_inputs_ok (d : GatewayDB) (res : CallerResolution) (tv : ToolVersion)
    (refs : list GatewayArtifactRef) : bool :=
  match refs with
  | [] => true
  | _ =>
      artifacts_configured &&
      match artifact_capabilities (gv_ArtifactCapabs tv) with
      | Some (true, mimes) =>
          match ExecutionScope d (re_AttemptID res) (re_CallerScope res) (re_CallerScopeID res) with
          | Some (attemptID, node) => forallb (input_ref_ok d attemptID node mimes) refs
          | None => false
          end
      | _ => false
      end
  end.
Definition output_ref_ok (d : GatewayDB) (inv : Invocation) (ref : GatewayArtifactRef) : bool :=
  match artifact_stat d (pa_ArtifactID ref) with
  | Some a =>
      ai_Available a && String.eqb (ai_SourceType a) "tool_output" &&
      bool_decide (ai_SourceRef a = Some (gi_ID inv)) &&
      match ai_Ref a with
      | Some c => same_ref c ref && LinkedToAttempt d (pa_ArtifactID ref) (gi_AttemptID inv) None
      | None => false
      end
  | None => false
  end.
(** The reads of one check see one state of the database. *)
Definition validateArtifactInputs (res : CallerResolution) (tv : ToolVersion) (refs : list GatewayArtifactRef)
    : GwP bool := inspect (λ s, artifact_inputs_ok s.1 res tv refs).
Definition validateArtifactOutputs (inv : Invocation) (refs : list GatewayArtifactRef) : GwP bool :=
  inspect (λ s, match refs with
                | [] => true
                | _ => artifacts_configured && forallb (output_ref_ok s.1 inv) refs
                end).
Definition assertResourcePolicy (poolID toolName argsJSON : string) : GwP bool :=
  bs ← ResolveCredentialBindings poolID toolName;
  mret (match bs with inl _ => false | inr bs => resource_policy bs argsJSON end).

(** [finishFailed], [classifyAmbiguous]: no terminal response without its commit. *)
Definition finishFailed (inv : Invocation) (e : ErrorDetail) : GwP (Code + InvokeResponse) :=
  r ← FinishInvocation (gi_ID inv) InvocationFailed NoJSON (GoodJSON (JArr [])) (GoodJSON (error_struct_json e));
  mret (match r with
        | inl _ => inl CodeInternal
        | inr _ => inr (mkResponse (gi_ID inv) INVOKE_STATE_FAILED NoJSON [] (Some e) EmptyString)
        end).
Definition ambiguous_state (tv : ToolVersion) : InvocationState :=
  if String.eqb (gv_EffectClass tv) EffectReadOnly then InvocationFailed else InvocationOutcomeUnknown.
Definition ambiguous_error (tv : ToolVersion) (reason : string) : json :=
  JObj [("code", JStr "outcome_unknown"); ("effect_class", JStr (gv_EffectClass tv)); ("message", JStr reason);
        ("retryability", JStr "unknown")].
Definition classifyAmbiguous (inv : Invocation) (tv : ToolVersion) (reason : string) : GwP (Code + InvokeResponse) :=
  r ← FinishInvocation (gi_ID inv) (ambiguous_state tv) NoJSON (GoodJSON (JArr [])) (GoodJSON (ambiguous_error tv reason));
  mret (match r with
        | inl _ => inl CodeInternal
        | inr _ => inr (mkResponse (gi_ID inv) (invocationStateToProto (ambiguous_state tv)) NoJSON []
                          (Some (mkError "outcome_unknown" reason RETRYABILITY_UNKNOWN EmptyString)) EmptyString)
        end).
Definition finishFromResult (inv : Invocation) (tv : ToolVersion) (res : dispatchResult) : GwP (Code + InvokeResponse) :=
  let refs := parseArtifactRefs (dr_artifactRefs res) in
  let commit (result : RawMessage) : GwP (Code + InvokeResponse) :=
    r ← FinishInvocation (gi_ID inv) (dr_state res) result (dr_artifactRefs res) (dr_errorDetail res);
    mret (match r with
          | inl _ => inl CodeInternal
          | inr _ =>
              inr (if bool_decide (dr_state res = InvocationSucceeded)
                   then mkResponse (gi_ID inv) INVOKE_STATE_SUCCEEDED result refs None EmptyString
                   else mkResponse (gi_ID inv) INVOKE_STATE_FAILED NoJSON refs
                          (Some (mkError "tool_failed" "tool execution failed" RETRYABILITY_UNKNOWN EmptyString))
                          EmptyString)
          end) in
  if bool_decide (dr_state res = InvocationSucceeded) then
    ok ← validateArtifactOutputs inv refs;
    if negb ok then classifyAmbiguous inv tv "runner returned unauthorized or non-canonical artifact reference"
    else if cfg_InlineLimit cfg <? byte_length (dr_resultJSON res) then
      classifyAmbiguous inv tv "runner result exceeds inline limit (use artifact refs)"
    else if String.eqb (dr_resultJSON res) EmptyString then commit (GoodJSON (JObj []))
    else match parse_json (dr_resultJSON res) with
         | None => classifyAmbiguous inv tv "runner reported succeeded with malformed JSON result"
         | Some v => commit (GoodJSON v)
         end
  else commit (raw_message (dr_resultJSON res)).

(** Take the row to running, or renew the lease of a running one. *)
Definition renewDispatchLease (invID : uuid) (timeout : Z) : proc (Gw Mem) Query (GwErr + ()) :=
  now ← ask QNow;
  let lease := now + timeout + cfg_DispatchLease cfg in
  r ← MarkRunning invID EmptyString lease (cfg_GatewayInstanceID cfg);
  match r with
  | inr _ => returns ()
  | inl ErrInvalidTransition => RenewDispatchLease invID (cfg_GatewayInstanceID cfg) lease
  | inl e => fails e
  end.
Definition abortAfterLeaseFailure (inv : Invocation) (tv : ToolVersion) (reason : string) : GwP (Code + InvokeResponse) :=
  cur ← GetInvocation (gi_ID inv);
  match cur with
  | inr cur => if IsTerminal (gi_State cur) then mret (inr (invocationToResponse cur))
               else classifyAmbiguous inv tv reason
  | inl _ => classifyAmbiguous inv tv reason
  end.

Definition can_retry (inv : Invocation) (tv : ToolVersion) : bool :=
  String.eqb (gv_EffectClass tv) EffectReadOnly ||
  (String.eqb (gv_EffectClass tv) EffectIdempotentWrite &&
   match gv_IdempotencyProof tv with NoJSON => false | _ => true end &&
   negb (String.eqb (gi_ID inv) EmptyString)).
Definition retry_attempts (inv : Invocation) (tv : ToolVersion) : nat :=
  if can_retry inv tv then Z.to_nat (Z.max 1 (cfg_RetryMaxAttempts cfg)) else 1%nat.
Definition invoke_message (inv : Invocation) (tv : ToolVersion) (msg : InvokeRequest) : Invoke :=
  mkInvoke (gi_ID inv) (gv_Name tv) (gv_Digest tv) (rq_ArgumentsJson msg)
    (if String.eqb (gv_EffectClass tv) EffectIdempotentWrite then gi_ID inv else rq_IdempotencyKey msg)
    (rq_ArtifactInputRefs msg).
(** The loop, [left] attempts to go. *)
Fixpoint dispatch_loop (left : nat) (inv : Invocation) (tv : ToolVersion) (invoke : Invoke) : GwP (Code + InvokeResponse) :=
  match left with
  | O => classifyAmbiguous inv tv "retry budget exhausted"
  | S left' =>
      lease ← renewDispatchLease (gi_ID inv) (dispatchTimeout cfg tv);
      match lease with
      | inl e => abortAfterLeaseFailure inv tv ("dispatch lease not established/renewed: " +:+ err_text e)
      | inr _ =>
          r ← dispatchToRunner (gv_Name tv) (gv_Digest tv) invoke (gi_ID inv) (dispatchTimeout cfg tv);
          match r with
          | None => classifyAmbiguous inv tv "no runner available for dispatch"
          | Some (res, _) =>
              if dr_streamLost res then
                match left' with
                | O => classifyAmbiguous inv tv "runner stream lost / context cancelled after send"
                | _ => dispatch_loop left' inv tv invoke
                end
              else finishFromResult inv tv res
          end
      end
  end.
Definition dispatchWithRetry (inv : Invocation) (tv : ToolVersion) (msg : InvokeRequest) : GwP (Code + InvokeResponse) :=
  dispatch_loop (retry_attempts inv tv) inv tv (invoke_message inv tv msg).

(** Steps 5 to 8 of [InvokeTool]: the ledger row, then the effect. *)
Definition invoke_authorized (res : CallerResolution) (tv : ToolVersion) (msg : InvokeRequest)
    (summary : option (gmap string string)) : GwP (Code + InvokeResponse) :=
  now ← ask QNow;
  let lease := now + dispatchTimeout cfg tv + cfg_DispatchLease cfg in
  let key := mkKey (re_AttemptID res) (re_CallerScope res) (re_CallerScopeID res) (rq_ToolCallID msg)
               (gv_Digest tv) (rq_IdempotencyKey msg) in
  b ← BeginInvocation key tv (Some (po_ID (re_Pool res))) (raw_message (rq_ArgumentsJson msg))
        (marshalArtifactRefs (rq_ArtifactInputRefs msg)) summary lease (cfg_GatewayInstanceID cfg);
  match b with
  | inl _ => mret (inl CodeInternal)
  | inr (inv, false) => mret (inr (invocationToResponse inv))
  | inr (inv, true) =>
      available ← toolAvailable (gv_Name tv) (gv_Digest tv);
      if negb available then
        finishFailed inv (mkError "tool_unavailable" "no live runner for the pinned tool version"
                            RETRYABILITY_RETRYABLE EmptyString)
      else
        cred ← resolveCredentialContext (po_ID (re_Pool res)) tv;
        match cred with
        | inl _ => finishFailed inv (detail "credential_resolution_failed" RETRYABILITY_NON_RETRYABLE)
        | inr _ => dispatchWithRetry inv tv msg
        end
  end.
Definition InvokeTool (caller : option Identity) (msg : InvokeRequest) : GwP (Code + InvokeResponse) :=
  match caller with
  | None => mret (inl CodeUnauthenticated)
  | Some id =>
      if bool_decide (id_Kind id = KindRunner) then mret (inl CodePermissionDenied)
      else
        scope ← resolveCallerScope id (rq_AttemptID msg) (rq_CallerScopeID msg) (rq_FencingGeneration msg);
        match scope with
        | inl e => mret (inl (mapErr e))
        | inr res =>
            pin ← GetAttemptToolPin (re_AttemptID res) (rq_ToolName msg);
            match pin with
            | inl ErrNotFound => mret (inl CodeFailedPrecondition)
            | inl _ => mret (inl CodeInternal)
            | inr pinDigest =>
                if negb (String.eqb (rq_ToolVersionDigest msg) EmptyString) &&
                   negb (String.eqb (rq_ToolVersionDigest msg) pinDigest)
                then mret (inl CodeFailedPrecondition)
                else
                  version ← GetToolVersion (rq_ToolName msg) pinDigest;
                  match version with
                  | inl ErrNotFound => mret (inl CodeFailedPrecondition)
                  | inl _ => mret (inl CodeInternal)
                  | inr tv =>
                      allowed ← authorize (po_ID (re_Pool res)) tv (re_PermittedCapabilities res);
                      match allowed with
                      | inl _ => mret (inr (denied_response (detail "permission_denied" RETRYABILITY_NON_RETRYABLE)))
                      | inr _ =>
                          if negb (validateArguments (rq_ArgumentsJson msg) (gv_InputSchema tv)) then
                            mret (inr (denied_response (detail "invalid_arguments" RETRYABILITY_NON_RETRYABLE)))
                          else
                            inputs ← validateArtifactInputs res tv (rq_ArtifactInputRefs msg);
                            if negb inputs then
                              mret (inr (denied_response (detail "artifact_access_denied" RETRYABILITY_NON_RETRYABLE)))
                            else
                              policy ← assertResourcePolicy (po_ID (re_Pool res)) (gv_Name tv) (rq_ArgumentsJson msg);
                              if negb policy then
                                mret (inr (denied_response (detail "permission_denied" RETRYABILITY_NON_RETRYABLE)))
                              else
                                order ← ask QOrder;
                                match renderConsequenceSummary number_text order (gv_EffectClass tv)
                                        (gv_ConsequenceTemplate tv) (rq_ArgumentsJson msg) with
                                | inl _ =>
                                    mret (inr (denied_response (detail "consequence_summary_invalid" RETRYABILITY_NON_RETRYABLE)))
                                | inr summary => invoke_authorized res tv msg summary
                                end
                      end
                  end
            end
        end
  end.
End handlers.

(** * Discovery and cancellation *)
(** What a caller sees of a version: neither slots nor the idempotency proof. *)
Record ToolDescriptorOut := mkDescriptorOut {
  do_Name : string; do_Version : string; do_Digest : string; do_Description : string;
  do_InputSchema : RawMessage; do_EffectClass : EffectClassProto; do_TimeoutMS : Z;
  do_ArtifactCapabilities : option (bool * bool * list string) }.
Definition artifactCapabilitiesFromStorage (r : RawMessage) : option (bool * bool * list string) :=
  match r with
  | GoodJSON (JObj l) =>
      rd ← bool_field "reads" l; wr ← bool_field "writes" l; mime ← strings_field "accepted_mime_types" l;
      if negb rd && negb wr && bool_decide (mime = []) then None else Some (rd, wr, mime)
  | _ => None
  end.
Definition toolVersionToDescriptor (tv : ToolVersion) : ToolDescriptorOut :=
  mkDescriptorOut (gv_Name tv) (gv_Version tv) (gv_Digest tv) (gv_Description tv) (gv_InputSchema tv)
    (effectClassToProto (gv_EffectClass tv)) (gv_TimeoutMS tv)
    (artifactCapabilitiesFromStorage (gv_ArtifactCapabs tv)).
Definition DiscoverTools (caller : option Identity) (attemptID scopeID : string) (gen : Z)
    : GwP (Code + list ToolDescriptorOut) :=
  match caller with
  | None => mret (inl CodeUnauthenticated)
  | Some id =>
      if bool_decide (id_Kind id = KindRunner) then mret (inl CodePermissionDenied)
      else
        scope ← resolveCallerScope id attemptID scopeID gen;
        match scope with
        | inl e => mret (inl (mapErr e))
        | inr res =>
            tools ← DiscoverEffectiveTools (re_AttemptID res) (po_ID (re_Pool res)) (re_PermittedCapabilities res);
            mret (match tools with
                  | inl _ => inl CodeInternal
                  | inr l => inr (List.map toolVersionToDescriptor l)
                  end)
        end
  end.
Definition assertCallerOwnsInvocation (id : Identity) (inv : Invocation) (gen : Z) : GwP bool :=
  match gi_PoolID inv with
  | None => mret false
  | Some pool =>
      scope ← resolveCallerScope id (gi_AttemptID inv) (gi_CallerScopeID inv) gen;
      mret (match scope with
            | inl _ => false
            | inr res => String.eqb (po_ID (re_Pool res)) pool &&
                         String.eqb (re_AttemptID res) (gi_AttemptID inv) &&
                         String.eqb (re_CallerScopeID res) (gi_CallerScopeID inv)
            end)
  end.
Definition CancelInvocation (caller : option Identity) (invocationID reason : string) (gen : Z)
    : GwP (Code + InvokeState) :=
  match caller with
  | None => mret (inl CodeUnauthenticated)
  | Some id =>
      if bool_decide (id_Kind id = KindRunner) then mret (inl CodePermissionDenied)
      else
        inv ← GetInvocation invocationID;
        match inv with
        | inl ErrNotFound => mret (inl CodeNotFound)
        | inl _ => mret (inl CodeInternal)
        | inr inv =>
            owns ← assertCallerOwnsInvocation id inv gen;
            if negb owns then mret (inl CodePermissionDenied)
            else if IsTerminal (gi_State inv) then mret (inr (invocationStateToProto (gi_State inv)))
            else _ ← propagateCancel (gi_ID inv) reason; mret (inr INVOKE_STATE_RUNNING)
        end
  end.

(** * Runner streams *)
Record CredentialSlotIn := mkSlotIn { si_Name : string; si_OAuth : bool; si_BindingSchema : string; si_Required : bool }.
Record ToolDescriptorIn := mkDescriptorIn {
  di_Name : string; di_Version : string; di_Digest : string; di_Description : string;
  di_InputSchema : RawMessage; di_EffectClass : EffectClassProto; di_TimeoutMS : option Z;
  di_CredentialSlots : list CredentialSlotIn;
  di_ArtifactCapabilities : option (bool * bool * list string);
  di_ConsequenceTemplate : option (list (string * string) * list (string * string));
  di_IdempotencyProof : option (string * string * string) }.
Definition schemeToStorage (oauth : bool) : string :=
  if oauth then CredOAuthClientCredentials else CredBearer.
(** [binding_schema] is a byte slice, which [json.Marshal] writes in base64; the given text
    stands for it. A nil list of accepted types is written as [null]. *)
Definition slot_doc (s : CredentialSlotIn) : json :=
  JObj [("binding_schema", JStr (si_BindingSchema s)); ("name", JStr (si_Name s));
        ("required", JBool (si_Required s)); ("scheme", JStr (schemeToStorage (si_OAuth s)))].
Definition string_map_doc (l : list (string * string)) : json := JObj ((λ kv, (kv.1, JStr kv.2)) <$> l).
Definition descriptorToToolVersion (d : ToolDescriptorIn) : option ToolVersion :=
  ec ← effectClassFromProto (di_EffectClass d);
  proof ← match di_IdempotencyProof d with
          | None => Some NoJSON
          | Some (strategy, description, header) =>
              if String.eqb strategy EmptyString then None
              else Some (GoodJSON (JObj [("description", JStr description); ("strategy", JStr strategy);
                                         ("upstream_key_header", JStr header)]))
          end;
  Some (mkToolVersion EmptyString (di_Name d) (di_Version d) (di_Digest d) (di_Description d)
    (di_InputSchema d) ec
    (GoodJSON (JArr (slot_doc <$> di_CredentialSlots d)))
    (match di_ArtifactCapabilities d with
     | Some (r, w, mimes) => GoodJSON (JObj [("accepted_mime_types", match mimes with [] => JNull | l => JArr (JStr <$> l) end);
                                             ("reads", JBool r); ("writes", JBool w)])
     | None => GoodJSON (JObj [])
     end)
    (let ms := default 0 (di_TimeoutMS d) in if ms =? 0 then 60000 else ms)
    proof
    (match di_ConsequenceTemplate d with
     | Some (texts, paths) => GoodJSON (JObj [("argument_paths", match paths with [] => JNull | l => string_map_doc l end);
                                              ("localized_templates", match texts with [] => JNull | l => string_map_doc l end)])
     | None => GoodJSON (JObj [])
     end) 0).

Inductive RunnerMessage :=
| MsgRegister (d : ToolDescriptorIn)
| MsgHeartbeat
| MsgBeginDrain (refs : list ToolRef)
| MsgRetired (refs : list ToolRef) (forced : bool)
| MsgInvokeResult (r : InvokeResult)
| MsgInvokeError (invocationID : string) (e : option ErrorDetail).
(** Every reference names a tool and a digest, once, and there is one. *)
Definition protoToolRefs (l : list ToolRef) : option (list ToolRef) :=
  if forallb (λ r, negb (String.eqb (tr_Name r) EmptyString) && negb (String.eqb (tr_Digest r) EmptyString)) l &&
     bool_decide (NoDup ((λ r, toolRefKey (tr_Name r) (tr_Digest r)) <$> l)) && negb (bool_decide (l = []))
  then Some l else None.

Section streams.
Context (cfg : Config).
Definition handleRegister (d : ToolDescriptorIn) (approved : ApprovedRunner) (c : nat) (rc : runnerConn) : GwP (Code + ()) :=
  match descriptorToToolVersion d with
  | None => mret (inl CodeInvalidArgument)
  | Some tv =>
      if negb (namespaceAllowed (ap_AllowedToolNamespaces approved) (toolNamespace (gv_Name tv)))
      then mret (inl CodePermissionDenied)
      else
        r ← RegisterToolVersion tv;
        match r with
        | inl _ => mret (inl CodeInvalidArgument)
        | inr tv =>
            r ← UpsertRunnerRegistration
                  (mkRegistration EmptyString (rc_runnerID rc) (id_SPIFFEID (rc_identity rc))
                     (id_Namespace (rc_identity rc)) (gv_Name tv) (gv_Version tv) (gv_Digest tv) (rc_gen rc)
                     0 true true 0 None);
            match r with
            | inl _ => mret (inl CodeInternal)
            | inr _ => _ ← registerTool c (gv_Name tv) (gv_Digest tv); mret (inr ())
            end
        end
  end.
Definition sendDrainStatus (c : nat) (rc : runnerConn) : GwP (Code + ()) :=
  r ← DrainingStatus (rc_runnerID rc) (rc_gen rc);
  match r with
  | inl _ => mret (inl CodeInternal)
  | inr ([], []) => mret (inr ())
  | inr (pinned, releasable) =>
      ok ← rc_send c (CtlDrainStatus pinned releasable);
      mret (if ok : bool then inr () else inl CodeInternal)
  end.
Fixpoint retire_all (c : nat) (refs : list ToolRef) : GwP () :=
  match refs with
  | [] => mret ()
  | r :: l => _ ← retireTool c (tr_Name r) (tr_Digest r); retire_all c l
  end.
(** One message of the receive loop; an error ends the stream. *)
Definition runner_message (approved : ApprovedRunner) (c : nat) (rc : runnerConn) (m : RunnerMessage) : GwP (Code + ()) :=
  match m with
  | MsgRegister d =>
      r ← handleRegister d approved c rc;
      match r with
      | inl e => mret (inl e)
      | inr _ => _ ← rc_send c (CtlAckRegistered (di_Name d)); mret (inr ())
      end
  | MsgHeartbeat =>
      _ ← HeartbeatRunner (rc_runnerID rc) (rc_gen rc);
      _ ← rc_send c CtlAckHeartbeat;
      _ ← sendDrainStatus c rc;
      mret (inr ())
  | MsgBeginDrain refs =>
      match protoToolRefs refs with
      | None => mret (inl CodeInvalidArgument)
      | Some refs =>
          r ← BeginDrain (rc_runnerID rc) (rc_gen rc) refs;
          match r with
          | inl _ => mret (inl CodeFailedPrecondition)
          | inr _ => sendDrainStatus c rc
          end
      end
  | MsgRetired refs _ =>
      match protoToolRefs refs with
      | None => mret (inl CodeInvalidArgument)
      | Some refs =>
          r ← RetireVersions (rc_runnerID rc) (rc_gen rc) refs;
          match r with
          | inl _ => mret (inl CodeFailedPrecondition)
          | inr _ => _ ← retire_all c refs; mret (inr ())
          end
      end
  | MsgInvokeResult r => _ ← deliver c (vr_InvocationID r) (invokeResultToDispatch r); mret (inr ())
  | MsgInvokeError id e => _ ← deliver c id (invokeErrorToDispatch e); mret (inr ())
  end.
Fixpoint receive_loop (approved : ApprovedRunner) (c : nat) (rc : runnerConn) (l : list RunnerMessage) : GwP (Code + ()) :=
  match l with
  | [] => mret (inr ())
  | m :: l' =>
      r ← runner_message approved c rc m;
      match r with inl e => mret (inl e) | inr _ => receive_loop approved c rc l' end
  end.
(** The deferred teardown: close, wait for the sends in flight, leave the pool, withdraw the
    registrations, release the waiting dispatchers. *)
Definition teardown (c : nat) (rc : runnerConn) : GwP () :=
  _ ← alter_conn c with_closed;
  _ ← conn_section c (λ x, if rc_sendWG x =? 0 then Some ((), x) else None);
  _ ← pool_remove c;
  _ ← DeactivateRunnerStream (rc_runnerID rc) (rc_gen rc);
  alter_conn c (λ x, with_pending ((λ ch, match ch with None => Some lost | Some r => Some r end) <$> rc_pending x) x).
Definition welcome (gen : Z) : RunnerControl :=
  CtlWelcome gen (cfg_HeartbeatInterval cfg / 1000) (cfg_LeaseInterval cfg / 1000).
(** A new address for the connection and the next generation. *)
Definition accept_conn (id : Identity) (runnerID : string) (s : Gw Mem) : (nat * runnerConn) * Gw Mem :=
  let m := s.2 in
  let c := fresh (dom (m_conns m)) in
  let gen := m_gen m + 1 in
  let rc := mkConn id runnerID gen ∅ ∅ false false 0 in
  ((c, rc), (s.1, mkMem (<[c := rc]> (m_conns m)) (m_pool m) gen (m_sent m))).
Definition RegisterRunner (caller : option Identity) (stream : list RunnerMessage) : GwP (Code + ()) :=
  match caller with
  | None => mret (inl CodeUnauthenticated)
  | Some id =>
      if negb (bool_decide (id_Kind id = KindRunner)) then mret (inl CodePermissionDenied)
      else
        approved ← IsApprovedRunner (id_SPIFFEID id);
        match approved with
        | inl ErrNotFound => mret (inl CodePermissionDenied)
        | inl _ => mret (inl CodeInternal)
        | inr approved =>
            if negb (String.eqb (id_Namespace id) (ap_Namespace approved)) then mret (inl CodePermissionDenied)
            else
              cr ← atomically (accept_conn id (ap_RunnerID approved));
              let '(c, rc) := cr in
              _ ← pool_add c;
              result ← match stream with
                       | [] => mret (inl CodeInternal)
                       | MsgRegister d :: rest =>
                           r ← handleRegister d approved c rc;
                           match r with
                           | inl e => mret (inl e)
                           | inr _ =>
                               ok ← rc_send c (welcome (rc_gen rc));
                               if negb ok then mret (inl CodeInternal)
                               else receive_loop approved c rc rest
                           end
                       | _ => mret (inl CodeInvalidArgument)
                       end;
              _ ← teardown c rc;
              mret result
        end
  end.
End streams.
(** The recovery loop: a sweep at start and one per tick. *)
Fixpoint StartReconciler (ticks : nat) : GwP () :=
  _ ← RecoverOrphanedInvocations;
  match ticks with O => mret () | S n => StartReconciler n end.
