(* ===== verification/ProcLogic.v ===== *)
(** Program logics for processes that share a state.

    [safe] is invariant reasoning: every action may assume the invariant, must keep it and
    takes a step of a given relation. [rg] is rely/guarantee reasoning: what a process knows
    about the state ([K]) is stable under the steps the others may take, its own actions
    take such steps, and it counts an observable which processes may only emit from a
    budget: an action pays for what it emits out of the process' own budget, which only
    grows where the state allows more. [owns] is rely/guarantee reasoning in which each
    process has its own guarantee, so that it may know things about what it owns that its
    own steps break. [establishes] is the postcondition of one process whose
    assertions the others' steps keep. *)
From S2P Require Import Prelude Proc.

Section invariant_logic.
Context {S : Type} {Q : Type → Type} (inv : S → Prop) (T : S → S → Prop).
Fixpoint safe {A} (p : proc S Q A) (Ψ : A → Prop) : Prop :=
  match p with
  | Ret a => Ψ a
  | Ask _ k => ∀ r, safe (k r) Ψ
  | Atomic f k => ∀ s r s', inv s → f s = Some (r, s') → (inv s' ∧ T s s') ∧ safe (k r) Ψ
  end.
Lemma safe_mono {A} (p : proc S Q A) (Ψ Ψ' : A → Prop) : (∀ a, Ψ a → Ψ' a) → safe p Ψ → safe p Ψ'.
Proof.
  intros HΨ. induction p as [a|X f k IH|X q k IH]; cbn; [auto| |auto].
  intros H s r s' Hs Hf. destruct (H s r s' Hs Hf). auto.
Qed.
Lemma safe_bind {A B} (p : proc S Q A) (k : A → proc S Q B) Ψ Φ :
  safe p Ψ → (∀ a, Ψ a → safe (k a) Φ) → safe (p ≫= k) Φ.
Proof.
  intros Hp Hk. unfold mbind, proc_bind. induction p as [a|X f h IH|X q h IH]; cbn in *; [auto| |auto].
  intros s r s' Hs Hf. destruct (Hp s r s' Hs Hf). auto.
Qed.
(** When the first part's result does not matter. *)
Lemma safe_then {A B} (p : proc S Q A) (k : A → proc S Q B) Φ :
  safe p (λ _, True) → (∀ a, safe (k a) Φ) → safe (p ≫= k) Φ.
Proof. intros Hp Hk. eapply safe_bind; [exact Hp|auto]. Qed.
Lemma safe_ask {X} (q : Q X) : safe (ask q) (λ _, True).
Proof. by intros r. Qed.
Lemma safe_atomic {X} (f : S → option (X * S)) (Ψ : X → Prop) :
  (∀ s r s', inv s → f s = Some (r, s') → (inv s' ∧ T s s') ∧ Ψ r) → safe (Atomic f Ret) Ψ.
Proof. intros H s r s' Hs Hf. by apply (H s). Qed.
Lemma safe_atomically {X} (f : S → X * S) (Ψ : X → Prop) :
  (∀ s, inv s → (inv (f s).2 ∧ T s (f s).2) ∧ Ψ (f s).1) → safe (atomically f) Ψ.
Proof. intros H. apply safe_atomic. intros s r s' Hs [= Hf]. specialize (H s Hs). by rewrite Hf in H. Qed.
Lemma safe_all {A} (p : proc S Q A) :
  all_steps (λ s s', inv s → inv s' ∧ T s s') p → safe p (λ _, True).
Proof. induction p as [a|X f k IH|X q k IH]; cbn; [done| |auto]. intros [Hf Hk] s r s' Hs Hr. split; eauto. Qed.
Lemma safe_step {A} (p : proc S Q A) Ψ s p' s' :
  safe p Ψ → inv s → pstep p s p' s' → (inv s' ∧ (T s s' ∨ s = s')) ∧ safe p' Ψ.
Proof.
  intros Hp Hs Hst. destruct Hst as [X f k s r s' Hf|X q k s r]; cbn in Hp; [|auto].
  destruct (Hp s r s' Hs Hf) as [[? ?] ?]. auto.
Qed.
Lemma safe_tsteps {A} (ts : list (proc S Q A)) s ts' s' :
  (∀ a, T a a) → (∀ a b c, T a b → T b c → T a c) →
  Forall (λ p, safe p (λ _, True)) ts → inv s → tsteps ts s ts' s' → inv s' ∧ T s s'.
Proof.
  intros Hr Ht Hall Hs Hst. induction Hst as [ts s|ts s ts1 s1 ts2 s2 H1 H2 IH]; [auto|].
  destruct H1 as [ts i p s p' s' Hi Hp].
  assert (safe p (λ _, True)) as Hpa by (rewrite Forall_lookup in Hall; eauto).
  destruct (safe_step p _ s p' s' Hpa Hs Hp) as [[Hs' HT] Hp'].
  destruct IH as [? HT']; [by apply Forall_insert|done|]. split; [done|].
  destruct HT as [HT|<-]; [|done]. eauto.
Qed.
End invariant_logic.
Lemma safe_weaken {S Q A} (inv : S → Prop) (T T' : S → S → Prop) (p : proc S Q A) Ψ :
  (∀ s s', inv s → T s s' → T' s s') → safe inv T p Ψ → safe inv T' p Ψ.
Proof.
  intros HT. induction p as [a|X f k IH|X q k IH]; cbn; [auto| |auto].
  intros H s r s' Hs Hf. destruct (H s r s' Hs Hf) as [[? ?] ?]. auto.
Qed.

(** A process whose actions leave the state alone, among others that keep [inv]. *)
Lemma safe_reads {S Q A} (inv : S → Prop) (R : S → S → Prop) (p : proc S Q A) Ψ s a s' :
  (∀ s s', R s s' → inv s → inv s') → safe inv (λ s s', s' = s) p Ψ → inv s → psteps R p s (Ret a) s' →
  Ψ a ∧ rtc R s s'.
Proof.
  intros HR Hp Hs Hst. remember (Ret a) as p' eqn:Hp'. revert Hs Hp Hp'.
  induction Hst as [p s|p s p1 s1 p2 s2 H1 H2 IH|p s s1 p2 s2 H1 H2 IH]; intros Hs Hp ->.
  - split; [exact Hp|done].
  - destruct (safe_step _ _ p Ψ s p1 s1 Hp Hs H1) as [[Hs1 Heq] Hp1].
    assert (s1 = s) as -> by naive_solver. by apply IH.
  - destruct IH as [? ?]; [eauto|done|done|]. split; [done|]. by eapply rtc_l.
Qed.

(** * Rely/guarantee with a ghost budget *)
Section rely_guarantee.
Context {S : Type} {Q : Type → Type} (inv : S → Prop) (T : S → S → Prop).
(** How often [id] was emitted and how many emissions the state allows it. *)
Context (count allowed : string → S → nat).
Definition budget := string → nat.
(** An action pays for what it emits; what it newly allows is its own. *)
Definition pays (s s' : S) (B B' : budget) : Prop :=
  ∀ id, (count id s' + B' id + allowed id s ≤ count id s + B id + allowed id s')%nat.
Definition stable (K : S → Prop) : Prop := ∀ s s', inv s → inv s' → T s s' → K s → K s'.
Fixpoint rg {A} (p : proc S Q A) (K : S → Prop) (B : budget) (Φ : A → S → budget → Prop) : Prop :=
  match p with
  | Ret a => ∀ s, inv s → K s → Φ a s B
  | Ask _ k => ∀ r, rg (k r) K B Φ
  | Atomic f k =>
      ∀ s r s', inv s → K s → f s = Some (r, s') →
        (inv s' ∧ T s s') ∧ ∃ K' B', pays s s' B B' ∧ stable K' ∧ K' s' ∧ rg (k r) K' B' Φ
  end.

Lemma rg_mono {A} (p : proc S Q A) (K K' : S → Prop) B (Φ Φ' : A → S → budget → Prop) :
  (∀ s, inv s → K' s → K s) → (∀ a s B, inv s → Φ a s B → Φ' a s B) → rg p K B Φ → rg p K' B Φ'.
Proof.
  revert K K' B. induction p as [a|X f k IH|X q k IH]; intros K K' B HK HΦ; cbn.
  - auto.
  - intros H s r s' Hs Hk Hf. destruct (H s r s' Hs (HK _ Hs Hk) Hf) as (HT & K1 & B1 & Hp & HS & H1 & H2).
    split; [done|]. exists K1, B1. split_and!; try done. by eapply IH; [..|exact H2].
  - intros H r. by eapply IH; [..|apply H].
Qed.
Lemma rg_post {A} (p : proc S Q A) K B (Φ Φ' : A → S → budget → Prop) :
  (∀ a s B, inv s → Φ a s B → Φ' a s B) → rg p K B Φ → rg p K B Φ'.
Proof. intros. eapply rg_mono; eauto. Qed.
Lemma rg_pre {A} (p : proc S Q A) (K K' : S → Prop) B Φ :
  (∀ s, inv s → K' s → K s) → rg p K B Φ → rg p K' B Φ.
Proof. intros. eapply rg_mono; eauto. Qed.
(** The continuation starts with what the first part established. *)
Lemma rg_bind {A C} (p : proc S Q A) (k : A → proc S Q C) K B Ψ Φ :
  rg p K B Ψ → (∀ a B', rg (k a) (λ s, Ψ a s B') B' Φ) → rg (p ≫= k) K B Φ.
Proof.
  intros Hp Hk. unfold mbind, proc_bind. revert K B Hp.
  induction p as [a|X f h IH|X q h IH]; intros K B Hp; cbn in *.
  - eapply rg_pre; [apply Hp|apply Hk].
  - intros s r s' Hs HK Hf. destruct (Hp s r s' Hs HK Hf) as (HT & K1 & B1 & ? & ? & ? & ?).
    split; [done|]. exists K1, B1. auto.
  - intros r. apply IH, Hp.
Qed.
Lemma rg_pure {A} (p : proc S Q A) (P : Prop) K B Φ : (P → rg p K B Φ) → rg p (λ s, P ∧ K s) B Φ.
Proof.
  revert K B. induction p as [a|X f k IH|X q k IH]; intros K B; cbn.
  - intros H s Hs [HP HK]. auto.
  - intros H s r s' Hs [HP HK] Hf. by apply (H HP).
  - intros H r. apply IH. auto.
Qed.
Lemma rg_ret {A} (a : A) K B (Φ : A → S → budget → Prop) : (∀ s, inv s → K s → Φ a s B) → rg (mret a) K B Φ.
Proof. done. Qed.
Lemma rg_ask {A X} (q : Q X) (k : X → proc S Q A) K B Φ : (∀ r, rg (k r) K B Φ) → rg (ask q ≫= k) K B Φ.
Proof. done. Qed.
(** One action. *)
Lemma rg_atomic {X} (f : S → option (X * S)) K B (Φ : X → S → budget → Prop) :
  (∀ s r s', inv s → K s → f s = Some (r, s') →
     (inv s' ∧ T s s') ∧ ∃ B', pays s s' B B' ∧ Φ r s' B') →
  (∀ r B', stable (λ s, Φ r s B')) → rg (Atomic f Ret) K B Φ.
Proof.
  intros H HS s r s' Hs HK Hf. destruct (H s r s' Hs HK Hf) as (HT & B' & Hp & HΦ).
  split; [done|]. exists (λ s, Φ r s B'), B'. split_and!; try done. by intros ???.
Qed.
Lemma rg_atomically {X} (f : S → X * S) K B (Φ : X → S → budget → Prop) :
  (∀ s, inv s → K s → (inv (f s).2 ∧ T s (f s).2) ∧ ∃ B', pays s (f s).2 B B' ∧ Φ (f s).1 (f s).2 B') →
  (∀ r B', stable (λ s, Φ r s B')) → rg (atomically f) K B Φ.
Proof. intros H. apply rg_atomic. intros s r s' Hs HK [= Hf]. specialize (H s Hs HK). by rewrite Hf in H. Qed.
(** A part that only keeps its own invariant [I0] by steps [T0] that neither emit nor
    allow disturbs nothing. *)
Lemma rg_safe {A} (I0 : S → Prop) (T0 : S → S → Prop) (p : proc S Q A) K B Ψ :
  (∀ s, inv s → I0 s) →
  (∀ s s', inv s → I0 s' → T0 s s' →
     (inv s' ∧ T s s') ∧ ∀ id, count id s' = count id s ∧ (allowed id s ≤ allowed id s')%nat) →
  stable K → safe I0 T0 p Ψ → rg p K B (λ a s B', Ψ a ∧ B' = B ∧ K s).
Proof.
  intros HI HT HK. induction p as [a|X f k IH|X q k IH]; cbn; [auto| |auto].
  intros Hp s r s' Hs Hks Hf. destruct (Hp s r s' (HI s Hs) Hf) as [[Hs' HTs] Hk'].
  destruct (HT s s' Hs Hs' HTs) as [[Hi Ht] Hq]. split; [done|]. exists K, B. split_and!; eauto.
  intros id. destruct (Hq id). lia.
Qed.
Lemma stable_and K1 K2 : stable K1 → stable K2 → stable (λ s, K1 s ∧ K2 s).
Proof. intros H1 H2 s s1 Hs Hs1 HT [HK1 HK2]. split; eauto. Qed.
Lemma stable_pure (P : Prop) : stable (λ _, P). Proof. by intros ?????. Qed.

(** One process, the others keeping the invariant by steps of [T]. *)
Definition rely (s s' : S) : Prop := inv s → inv s' ∧ T s s'.
Lemma rg_psteps {A} (p : proc S Q A) s a s' K B Φ :
  stable K → inv s → K s → rg p K B Φ → psteps rely p s (Ret a) s' → inv s' ∧ ∃ B', Φ a s' B'.
Proof.
  intros HS Hi Hs Hp Hst. remember (Ret a) as p' eqn:Hp'. revert K B HS Hi Hs Hp Hp'.
  induction Hst as [p s|p s p1 s1 p2 s2 H1 H2 IH|p s s1 p2 s2 H1 H2 IH]; intros K B HS Hi Hs Hp ->.
  - split; [done|]. exists B. by apply Hp.
  - destruct H1 as [X f k s r s1 Hf|X q k s r]; cbn in Hp.
    + destruct (Hp s r s1 Hi Hs Hf) as ([Hi1 _] & K' & B' & _ & HS' & Hs' & Hp'). by eapply (IH K').
    + by eapply (IH K); [..|apply Hp|].
  - destruct (H1 Hi) as [Hi1 HT]. eapply (IH K); eauto.
Qed.

Lemma rg_history {A} (p : proc S Q A) s a s' K B Φ :
  (∀ a, T a a) → (∀ a b c, T a b → T b c → T a c) →
  stable K → inv s → K s → rg p K B Φ → psteps rely p s (Ret a) s' → T s s'.
Proof.
  intros Hr Ht HS Hi Hs Hp Hst. remember (Ret a) as p' eqn:Hp'. revert K B HS Hi Hs Hp Hp'.
  induction Hst as [p s|p s p1 s1 p2 s2 H1 H2 IH|p s s1 p2 s2 H1 H2 IH]; intros K B HS Hi Hs Hp ->; [done| |].
  - destruct H1 as [X f k s r s1 Hf|X q k s r]; cbn in Hp.
    + destruct (Hp s r s1 Hi Hs Hf) as ([Hi1 HT] & K' & B' & _ & HS' & Hs' & Hp').
      eapply Ht; [exact HT|]. by eapply (IH K').
    + by eapply (IH K); [..|apply Hp|].
  - destruct (H1 Hi) as [Hi1 HT]. eapply Ht; [exact HT|]. eapply (IH K); eauto.
Qed.

(** Threads: their budgets together with what was emitted stay within what is allowed. *)
Definition total (Bs : list budget) (id : string) : nat := sum_list_with (λ B, B id) Bs.
Definition within (Bs : list budget) (s : S) : Prop := ∀ id, (count id s + total Bs id ≤ allowed id s)%nat.
Lemma total_insert Bs i B B' id :
  Bs !! i = Some B → (total (<[i := B']> Bs) id + B id = total Bs id + B' id)%nat.
Proof.
  unfold total. revert i. induction Bs as [|X Bs IH]; intros [|i] Hi; try done.
  - injection Hi as ->. cbn. lia.
  - change (<[Datatypes.S i := B']> (X :: Bs)) with (X :: <[i := B']> Bs). cbn [sum_list_with].
    specialize (IH i Hi). lia.
Qed.
Definition runs {A} (s : S) (p : proc S Q A) (B : budget) : Prop :=
  ∃ K Φ, stable K ∧ K s ∧ rg p K B Φ.
Lemma runs_env {A} s s' (p : proc S Q A) B : inv s → inv s' → T s s' → runs s p B → runs s' p B.
Proof. intros Hi Hi' HT (K & Φ & HS & HK & Hp). exists K, Φ. eauto. Qed.
Lemma runs_step {A} (p : proc S Q A) B s p' s' :
  inv s → runs s p B → pstep p s p' s' →
  (inv s' ∧ (T s s' ∨ s = s')) ∧ ∃ B', pays s s' B B' ∧ runs s' p' B'.
Proof.
  intros Hi (K & Φ & HS & HK & Hp) Hst. destruct Hst as [X f k s r s' Hf|X q k s r]; cbn in Hp.
  - destruct (Hp s r s' Hi HK Hf) as ([? ?] & K' & B' & ? & ? & ? & ?). split; [auto|].
    exists B'. split; [done|]. by exists K', Φ.
  - split; [auto|]. exists B. split; [intros id; lia|]. exists K, Φ. auto.
Qed.
Lemma rg_tsteps {A} (ts : list (proc S Q A)) s ts' s' Bs :
  (∀ a, T a a) → (∀ a b c, T a b → T b c → T a c) →
  Forall2 (runs s) ts Bs → inv s → within Bs s → tsteps ts s ts' s' →
  inv s' ∧ T s s' ∧ ∃ Bs', within Bs' s'.
Proof.
  intros Hr Ht Hts Hi Hw Hst. revert Bs Hts Hi Hw.
  induction Hst as [ts s|ts s ts1 s1 ts2 s2 H1 H2 IH]; intros Bs Hts Hi Hw; [eauto|].
  destruct H1 as [ts i p s p' s' Hl Hp].
  destruct (Forall2_lookup_l _ _ _ _ _ Hts Hl) as (B & HB & Hrun).
  destruct (runs_step p B s p' s' Hi Hrun Hp) as ([Hi' HT] & B' & Hpay & Hrun').
  destruct (IH (<[i := B']> Bs)) as (Hi2 & HT2 & HB2); [|done| |].
  - apply Forall2_insert; [|done]. eapply Forall2_impl; [exact Hts|]. intros x y Hx.
    destruct HT as [HT|<-]; [|done]. exact (runs_env s s' x y Hi Hi' HT Hx).
  - intros id. specialize (Hpay id). specialize (Hw id).
    pose proof (total_insert Bs i B B' id HB). unfold budget in *. lia.
  - split_and!; [done| |done]. destruct HT as [HT|<-]; eauto.
Qed.
End rely_guarantee.

(** * Rely/guarantee with ownership *)
Section ownership.
Context {S : Type} {Q : Type → Type} (inv : S → Prop) (G : nat → S → S → Prop).
(** No step of another process breaks [K]. *)
Definition undisturbed (me : nat) (K : S → Prop) : Prop :=
  ∀ j s s', j ≠ me → inv s → inv s' → G j s s' → K s → K s'.
Fixpoint owns {A} (me : nat) (p : proc S Q A) (K : S → Prop) (Φ : A → S → Prop) : Prop :=
  match p with
  | Ret a => ∀ s, inv s → K s → Φ a s
  | Ask _ k => ∀ r, owns me (k r) K Φ
  | Atomic f k =>
      ∀ s r s', inv s → K s → f s = Some (r, s') →
        (inv s' ∧ G me s s') ∧ ∃ K', undisturbed me K' ∧ K' s' ∧ owns me (k r) K' Φ
  end.
Lemma owns_mono {A} me (p : proc S Q A) (K K' : S → Prop) (Φ Φ' : A → S → Prop) :
  (∀ s, inv s → K' s → K s) → (∀ a s, inv s → Φ a s → Φ' a s) → owns me p K Φ → owns me p K' Φ'.
Proof.
  revert K K'. induction p as [a|X f k IH|X q k IH]; intros K K' HK HΦ; cbn.
  - auto.
  - intros H s r s' Hs Hk Hf. destruct (H s r s' Hs (HK _ Hs Hk) Hf) as (HT & K1 & HS & H1 & H2).
    split; [done|]. exists K1. split_and!; try done. by eapply IH; [..|exact H2].
  - intros H r. by eapply IH; [..|apply H].
Qed.
Lemma owns_bind {A C} me (p : proc S Q A) (k : A → proc S Q C) K Ψ Φ :
  owns me p K Ψ → (∀ a, owns me (k a) (Ψ a) Φ) → owns me (p ≫= k) K Φ.
Proof.
  intros Hp Hk. unfold mbind, proc_bind. revert K Hp.
  induction p as [a|X f h IH|X q h IH]; intros K Hp; cbn in *.
  - eapply owns_mono; [apply Hp|done|apply Hk].
  - intros s r s' Hs HK Hf. destruct (Hp s r s' Hs HK Hf) as (HT & K1 & ? & ? & ?).
    split; [done|]. exists K1. auto.
  - intros r. apply IH, Hp.
Qed.
Lemma owns_pure {A} me (p : proc S Q A) (P : Prop) K Φ : (P → owns me p K Φ) → owns me p (λ s, P ∧ K s) Φ.
Proof.
  revert K. induction p as [a|X f k IH|X q k IH]; intros K; cbn.
  - intros H s Hs [HP HK]. auto.
  - intros H s r s' Hs [HP HK] Hf. by apply (H HP).
  - intros H r. apply IH. auto.
Qed.
Lemma owns_ret {A} me (a : A) K (Φ : A → S → Prop) : (∀ s, inv s → K s → Φ a s) → owns me (mret a) K Φ.
Proof. done. Qed.
Lemma owns_ask {A X} me (q : Q X) (k : X → proc S Q A) K Φ : (∀ r, owns me (k r) K Φ) → owns me (ask q ≫= k) K Φ.
Proof. done. Qed.
Lemma owns_atomically {X} me (f : S → X * S) K (Φ : X → S → Prop) :
  (∀ s, inv s → K s → (inv (f s).2 ∧ G me s (f s).2) ∧ Φ (f s).1 (f s).2) →
  (∀ r, undisturbed me (Φ r)) → owns me (atomically f) K Φ.
Proof.
  intros H HS s r s' Hs HK [= Hf]. specialize (H s Hs HK). rewrite Hf in H. destruct H as [HG HΦ].
  split; [done|]. exists (Φ r). split_and!; [apply HS|done|]. by intros ???.
Qed.
Lemma owns_pre {A} me (p : proc S Q A) (K K' : S → Prop) Φ :
  owns me p K Φ → (∀ s, inv s → K' s → K s) → owns me p K' Φ.
Proof. intros Hp HK. exact (owns_mono me p K K' Φ Φ HK (λ a s _ h, h) Hp). Qed.
Lemma owns_post {A} me (p : proc S Q A) K (Φ Φ' : A → S → Prop) :
  owns me p K Φ → (∀ a s, inv s → Φ a s → Φ' a s) → owns me p K Φ'.
Proof. intros Hp HΦ. exact (owns_mono me p K K Φ Φ' (λ s _ h, h) HΦ Hp). Qed.
(** A part that needs no knowledge and whose result does not matter. *)
Lemma owns_seq {A C} me (p : proc S Q A) (k : A → proc S Q C) (K : S → Prop) Φ :
  owns me p (λ _, True) (λ _ _, True) → (∀ a, owns me (k a) (λ _, True) Φ) → owns me (p ≫= k) K Φ.
Proof. intros Hp Hk. exact (owns_pre me _ _ K Φ (owns_bind me p k (λ _, True) (λ _ _, True) Φ Hp Hk) (λ _ _ _, I)). Qed.
(** What every step keeps is kept by this process. *)
Lemma owns_frame {A} me (p : proc S Q A) K Φ (F : S → Prop) :
  (∀ j s s', inv s → inv s' → G j s s' → F s → F s') →
  owns me p K Φ → owns me p (λ s, K s ∧ F s) (λ a s, Φ a s ∧ F s).
Proof.
  intros HF. revert K. induction p as [a|X f k IH|X q k IH]; intros K; cbn.
  - intros H s Hs [HK HFs]. auto.
  - intros H s r s' Hs [HK HFs] Hf. destruct (H s r s' Hs HK Hf) as ([Hi HG] & K' & HU & HK' & Hk).
    split; [done|]. exists (λ s, K' s ∧ F s). split_and!; [|done|exact (HF me s s' Hs Hi HG HFs)|by apply IH].
    intros j t t' Hj Ht Ht' HGj [HKt HFt]. split; [exact (HU j t t' Hj Ht Ht' HGj HKt)|exact (HF j t t' Ht Ht' HGj HFt)].
  - intros H r. by apply IH.
Qed.
Lemma undisturbed_and me K1 K2 : undisturbed me K1 → undisturbed me K2 → undisturbed me (λ s, K1 s ∧ K2 s).
Proof. intros H1 H2 j s s' Hj Hs Hs' HG [HK1 HK2]. split; [exact (H1 j s s' Hj Hs Hs' HG HK1)|exact (H2 j s s' Hj Hs Hs' HG HK2)]. Qed.
Lemma undisturbed_pure me (P : Prop) : undisturbed me (λ _, P).
Proof. unfold undisturbed; auto. Qed.

(** One process, the others acting in between. *)
Definition others (me : nat) (s s' : S) : Prop := inv s → inv s' ∧ ∃ j, j ≠ me ∧ G j s s'.
Lemma owns_psteps {A} me (p : proc S Q A) s a s' K Φ :
  undisturbed me K → inv s → K s → owns me p K Φ → psteps (others me) p s (Ret a) s' → inv s' ∧ Φ a s'.
Proof.
  intros HS Hi Hs Hp Hst. remember (Ret a) as p' eqn:Hp'. revert K HS Hi Hs Hp Hp'.
  induction Hst as [p s|p s p1 s1 p2 s2 H1 H2 IH|p s s1 p2 s2 H1 H2 IH]; intros K HS Hi Hs Hp ->.
  - split; [done|]. by apply Hp.
  - destruct H1 as [X f k s r s1 Hf|X q k s r]; cbn in Hp.
    + destruct (Hp s r s1 Hi Hs Hf) as ([Hi1 _] & K' & HS' & Hs' & Hp'). by eapply (IH K').
    + by eapply (IH K); [..|apply Hp|].
  - destruct (H1 Hi) as [Hi1 (j & Hj & HG)]. eapply (IH K); eauto.
Qed.

(** Threads: the process at position [i] owns what is [i]'s. *)
Definition thread_ok {A} (s : S) (i : nat) (p : proc S Q A) : Prop :=
  ∃ K Φ, undisturbed i K ∧ K s ∧ owns i p K Φ.
Lemma owns_tsteps {A} (T : S → S → Prop) (ts : list (proc S Q A)) s ts' s' :
  (∀ a, T a a) → (∀ a b c, T a b → T b c → T a c) → (∀ i a b, G i a b → T a b) →
  (∀ i p, ts !! i = Some p → thread_ok s i p) → inv s → tsteps ts s ts' s' → inv s' ∧ T s s'.
Proof.
  intros Hr Ht HG Hts Hi Hst. revert Hts Hi.
  induction Hst as [ts s|ts s ts1 s1 ts2 s2 H1 H2 IH]; intros Hts Hi; [auto|].
  destruct H1 as [ts i p s p' s' Hl Hp].
  assert ((inv s' ∧ (G i s s' ∨ s = s')) ∧ thread_ok s' i p') as [[Hi' HGs] Hok].
  { destruct (Hts i p Hl) as (K & Φ & HS & HK & Ho). destruct Hp as [X f k s r s' Hf|X q k s r]; cbn in Ho.
    - destruct (Ho s r s' Hi HK Hf) as ([? ?] & K' & ? & ? & ?). split; [auto|]. by exists K', Φ.
    - split; [auto|]. exists K, Φ. auto. }
  destruct IH as [Hi2 HT2]; [|done|].
  - intros j q Hj. destruct (decide (j = i)) as [->|Hne].
    + rewrite list_lookup_insert_eq in Hj by by eapply lookup_lt_Some. by injection Hj as <-.
    + rewrite list_lookup_insert_ne in Hj by done. destruct (Hts j q Hj) as (K & Φ & HS & HK & Ho).
      exists K, Φ. split_and!; [done| |done]. destruct HGs as [HGs| <-]; [|done]. exact (HS i s s' (not_eq_sym Hne) Hi Hi' HGs HK).
  - split; [done|]. destruct HGs as [HGs| <-]; eauto.
Qed.
End ownership.
#[global] Arguments owns : simpl never.

(** * Postconditions under interference *)
Section postconditions.
Context {S : Type} {Q : Type → Type}.
(** What a process establishes when it returns, from a precondition [P]: each action leaves an
    assertion that the others' steps [R] keep. *)
Fixpoint establishes {A} (R : S → S → Prop) (Post : A → S → Prop) (P : S → Prop) (p : proc S Q A) : Prop :=
  match p with
  | Ret a => ∀ s, P s → Post a s
  | Atomic f k => ∀ r, ∃ P', (∀ s s', R s s' → P' s → P' s') ∧
      (∀ s s', P s → f s = Some (r, s') → P' s') ∧ establishes R Post P' (k r)
  | Ask _ k => ∀ r, establishes R Post P (k r)
  end.
Lemma establishes_sound {A} R (Post : A → S → Prop) (P : S → Prop) p s a s' :
  (∀ s s', R s s' → P s → P s') → establishes R Post P p → P s → psteps R p s (Ret a) s' → Post a s'.
Proof.
  intros HP Hp Hs Hr. remember (Ret a) as q eqn:Hq. revert P HP Hp Hs Hq.
  induction Hr as [p s|p s p1 s1 p2 s2 H1 H2 IH|p s s1 p2 s2 H1 H2 IH]; intros P HP Hp Hs ->; cbn in Hp.
  - by apply Hp.
  - destruct H1 as [T f k s r s1 Hf|T q k s r]; cbn in Hp.
    + destruct (Hp r) as (P' & HP' & Hpost & Hk). eapply IH; eauto.
    + eapply IH; [exact HP|apply Hp|done|done].
  - eapply IH; eauto.
Qed.
Lemma establishes_weaken {A} R (Post : A → S → Prop) (P P' : S → Prop) p :
  (∀ s, P s → P' s) → establishes R Post P' p → establishes R Post P p.
Proof.
  intros HP. revert P P' HP. induction p as [a|T f h IH|T q h IH]; intros P P' HP; cbn; [eauto| |eauto].
  intros Hp r. destruct (Hp r) as (P1 & H1 & H2 & H3). exists P1. eauto.
Qed.
Lemma establishes_bind {A B} R (Mid : A → S → Prop) (Post : B → S → Prop) P (p : proc S Q A) k :
  establishes R Mid P p → (∀ a, establishes R Post (Mid a) (k a)) → establishes R Post P (p ≫= k).
Proof.
  intros Hp Hk. unfold mbind, proc_bind. revert P Hp. induction p as [a|T f h IH|T q h IH]; intros P Hp; cbn in *.
  - by eapply establishes_weaken, Hk.
  - intros r. destruct (Hp r) as (P1 & H1 & H2 & H3). exists P1. eauto.
  - eauto.
Qed.
Lemma establishes_atomically {T} (R : S → S → Prop) (Post : T → S → Prop) (P : S → Prop) (f : S → T * S) :
  (∀ r s s', R s s' → Post r s → Post r s') → (∀ s, P s → Post (f s).1 (f s).2) →
  establishes R Post P (atomically f).
Proof.
  intros HR Hf r. exists (Post r). split_and!; [apply HR| |by intros s]. intros s s' Hs [= Hr].
  specialize (Hf s Hs). by rewrite Hr in Hf.
Qed.
End postconditions.
