(* ===== verification/GatewayServiceFacts.v ===== *)
(** What the gateway's handlers do to the ledger and to runners, whatever else runs.

    [gw_inv] is the invariant of the database and of the memory, [calm] a step that neither
    claims a ledger row nor sends an effect to a runner. Every action of every handler but
    two is calm: the insert of [BeginInvocation] and the send of an [Invoke]. *)
From S2P Require Import Prelude Json Runtime Workflow WorkerPool WorkData Dispatch Spiffe Proc Consequence GatewayStore GatewayFacts GatewayService ProcLogic.
#[local] Open Scope gw_scope.

(** * State *)

(** A result waiting in a channel reports a success or a failure. *)
Definition reported (r : dispatchResult) : Prop :=
  dr_state r = InvocationSucceeded ∨ dr_state r = InvocationFailed.
Definition conn_wf (rc : runnerConn) : Prop :=
  ∀ id r, rc_pending rc !! id = Some (Some r) → reported r.
Lemma reported_lost : reported lost. Proof. by right. Qed.
Lemma reported_terminal r : reported r → IsTerminal (dr_state r) = true.
Proof. by intros [->| ->]. Qed.
Definition mem_wf (m : Mem) : Prop := ∀ c rc, m_conns m !! c = Some rc → conn_wf rc.
Definition gw_inv (s : Gw Mem) : Prop := gateway_wf s.1 ∧ mem_wf s.2.
(** The effects sent to runners so far, in order. *)
Definition effect_of (m : nat * RunnerControl) : option Invoke :=
  match m.2 with CtlInvoke i => Some i | _ => None end.
Definition effects (s : Gw Mem) : list Invoke := omap effect_of (m_sent s.2).
Definition evolves (s s' : Gw Mem) : Prop := gateway_evolves s.1 s'.1.
Record calm (s s' : Gw Mem) : Prop := {
  calm_evolves : gateway_evolves s.1 s'.1;
  calm_rows : dom (ledger s'.1) = dom (ledger s.1);
  calm_effects : effects s' = effects s }.
Abbreviation quiet := (safe (Q := Query) gw_inv calm).

Lemma evolves_refl s : evolves s s. Proof. apply gateway_evolves_refl. Qed.
Lemma evolves_trans a b c : evolves a b → evolves b c → evolves a c.
Proof. apply gateway_evolves_trans. Qed.

(** * Statements *)
Lemma quiet_tx {A} (m : timestamp → GwTx A) (Ψ : GwErr + A → Prop) :
  (∀ now d a d', m now d = inr (a, d') → gateway_good d d' ∧ dom (ledger d') = dom (ledger d)) →
  (∀ e, Ψ (inl e)) → (∀ now d a d', gateway_wf d → m now d = inr (a, d') → Ψ (inr a)) → quiet (tx m) Ψ.
Proof.
  intros Hm He Ha.
  assert (∀ now b, quiet (atomically (tx_do (m now) b)) Ψ) as Hdo.
  { intros now b. apply safe_atomically. intros [d x] [Hd Hx]. cbn in Hd, Hx. unfold tx_do, run_tx. cbn.
    destruct (m now d) as [e|[a d']] eqn:E; cbn.
    - split; [split; [done|]|by destruct b]. constructor; [apply gateway_evolves_refl|done|done].
    - destruct (Hm _ _ _ _ E) as [Hg Hdom]. destruct (Hg Hd) as [Hw Hev].
      split; [split; [done|by constructor]|]. destruct b; eauto. }
  intros [] now; [apply Hdo|apply He|apply Hdo].
Qed.
Lemma quiet_tx_any {A} (m : timestamp → GwTx A) :
  (∀ now d a d', m now d = inr (a, d') → gateway_good d d' ∧ dom (ledger d') = dom (ledger d)) →
  quiet (tx m) (λ _, True).
Proof. intros Hm. by apply quiet_tx. Qed.
Lemma quiet_read {A} (m : timestamp → GwTx A) (Ψ : GwErr + A → Prop) :
  (∀ now, reads (m now)) → (∀ e, Ψ (inl e)) →
  (∀ now d a d', gateway_wf d → m now d = inr (a, d') → Ψ (inr a)) → quiet (tx m) Ψ.
Proof. intros Hr. apply quiet_tx. intros now d a d' H. apply Hr in H as ->. split; [apply gateway_good_refl|done]. Qed.
Lemma quiet_reads_any {A} (m : timestamp → GwTx A) : (∀ now, reads (m now)) → quiet (tx m) (λ _, True).
Proof. intros Hr. by apply quiet_read. Qed.
Lemma quiet_frame {A} (m : timestamp → GwTx A) :
  (∀ now d a d', m now d = inr (a, d') → frame d d') → quiet (tx m) (λ _, True).
Proof.
  intros Hm. apply quiet_tx_any. intros now d a d' H. apply Hm in H.
  split; [by apply frame_good|]. by destruct H as [-> _].
Qed.
Lemma quiet_ebind {A B} (m : proc (Gw Mem) Query (GwErr + A)) (k : A → proc (Gw Mem) Query (GwErr + B)) :
  quiet m (λ _, True) → (∀ a, quiet (k a) (λ _, True)) → quiet (ebind m k) (λ _, True).
Proof. intros Hm Hk. apply safe_then; [done|]. intros [e|a]; [exact I|apply Hk]. Qed.
Lemma quiet_attempt {A} (m : proc (Gw Mem) Query (GwErr + A)) :
  quiet m (λ _, True) → quiet (attempt m) (λ _, True).
Proof. intros Hm. by apply safe_then. Qed.
Lemma quiet_each {A} (f : A → proc (Gw Mem) Query (GwErr + ())) l :
  (∀ a, quiet (f a) (λ _, True)) → quiet (each f l) (λ _, True).
Proof. intros Hf. induction l as [|a l IH]; [exact I|]. by apply quiet_ebind. Qed.

(** The rows stay where they are. *)
Lemma update_invocation_dom id P f d u d' :
  update_invocation id P f d = inr (u, d') → dom (ledger d') = dom (ledger d).
Proof.
  unfold update_invocation. intros H. inv_tx.
  match goal with H : (_ ≫= _) = Some _ |- _ => apply bind_Some in H as (i & Hi & _) end.
  cbn. rewrite dom_insert_L. apply elem_of_dom_2 in Hi. set_solver.
Qed.
Lemma finish_dom id st res refs err now d u d' :
  finish_invocation id st res refs err now d = inr (u, d') → dom (ledger d') = dom (ledger d).
Proof.
  intros H. unfold finish_invocation in H. inv_tx.
  repeat match goal with H : jsonb_param _ _ = inr _ |- _ => apply jsonb_param_inr in H as -> end.
  by eapply update_invocation_dom.
Qed.
Lemma sweep_dom P st err now d n d' : sweep P st err now d = inr (n, d') → dom (ledger d') = dom (ledger d).
Proof. intros H. unfold sweep in H. inv_tx. cbn. unfold update_where. apply dom_fmap_L. Qed.
Lemma insert_version_dom tv now d u d' :
  insert_tool_version tv now d = inr (u, d') → ledger d' = ledger d.
Proof.
  intros (d1 & id & (Hl & _) & Hc)%insert_tool_version_inr.
  by destruct Hc as [[-> _]|(_ & _ & ->)].
Qed.
Lemma update_registrations_ledger P f d n d' : update_registrations P f d = inr (n, d') → ledger d' = ledger d.
Proof. intros H. unfold update_registrations in H. by inv_tx. Qed.
Lemma upsert_registration_ledger r now d out d' : upsert_registration r now d = inr (out, d') → ledger d' = ledger d.
Proof.
  intros H. unfold upsert_registration in H. inv_tx.
  repeat match goal with
  | H : update_registrations _ _ _ = _ |- _ => apply update_registrations_ledger in H
  | H : gw_uuid _ = _ |- _ => apply gw_uuid_frame in H as (? & _)
  end. cbn. congruence.
Qed.
Lemma begin_drain_ledger runner gen refs now d u d' : begin_drain runner gen refs now d = inr (u, d') → ledger d' = ledger d.
Proof.
  intros H. unfold begin_drain in H. inv_tx.
  match goal with H : update_registrations _ _ d = _ |- _ => apply update_registrations_ledger in H as <- end.
  eapply (tx_iter_preserves (λ a b, ledger b = ledger a)); [done|congruence| |eassumption].
  intros ref y z v _ Hx. inv_tx. by eapply update_registrations_ledger.
Qed.
Lemma retire_ledger runner gen ref now d u d' : retire_version runner gen ref now d = inr (u, d') → ledger d' = ledger d.
Proof. intros H. unfold retire_version in H. inv_tx. by eapply update_registrations_ledger. Qed.
Lemma pin_ledger attemptID poolID now name d u d' :
  pin_attempt_tool attemptID poolID now name d = inr (u, d') → ledger d' = ledger d.
Proof. intros H. unfold pin_attempt_tool in H. inv_tx. destruct (pin_of _ _ _); by inv_tx. Qed.

(** * Memory *)
Lemma quiet_inspect {A} (f : Gw Mem → A) (Ψ : A → Prop) :
  (∀ s, gw_inv s → Ψ (f s)) → quiet (inspect f) Ψ.
Proof.
  intros H. apply safe_atomically. intros s Hs. split; [split; [done|]|by apply H].
  constructor; [apply gateway_evolves_refl|done|done].
Qed.
Lemma quiet_inspect_any {A} (f : Gw Mem → A) : quiet (inspect f) (λ _, True).
Proof. by apply quiet_inspect. Qed.
Lemma quiet_mem (f : Mem → Mem) :
  (∀ m, mem_wf m → mem_wf (f m)) → (∀ d m, effects (d, f m) = effects (d, m)) → quiet (mem f) (λ _, True).
Proof.
  intros Hf He. apply safe_atomically. intros [d m] [Hd Hm]. cbn. split; [|done]. split; [split; [done|by apply Hf]|].
  constructor; [apply gateway_evolves_refl|done|apply He].
Qed.
Lemma quiet_alter c (f : runnerConn → runnerConn) :
  (∀ rc, conn_wf rc → conn_wf (f rc)) → quiet (alter_conn c f) (λ _, True).
Proof.
  intros Hf. apply quiet_mem; [|done]. intros m Hm c' rc. cbn. destruct (decide (c' = c)) as [->|Hne].
  - rewrite lookup_alter_eq, fmap_Some. intros (rc0 & H0 & ->). eauto.
  - rewrite lookup_alter_ne by done. apply Hm.
Qed.
Lemma quiet_section {R} c (f : runnerConn → option (R * runnerConn)) (Ψ : R → Prop) :
  (∀ rc r rc', conn_wf rc → f rc = Some (r, rc') → conn_wf rc' ∧ Ψ r) → quiet (conn_section c f) Ψ.
Proof.
  intros Hf. apply safe_atomic. intros [d m] r s' [Hd Hm] H. cbn in *.
  destruct (m_conns m !! c) as [rc|] eqn:Hc; [|done]. cbn in H.
  destruct (f rc) as [[r' rc']|] eqn:E; [|done]. injection H as <- <-.
  destruct (Hf rc r' rc' (Hm _ _ Hc) E) as [Hwf HΨ]. split; [|done]. split; [split; [done|]|].
  - intros c' x. cbn. destruct (decide (c' = c)) as [->|Hne].
    + rewrite lookup_insert_eq. by intros [= <-].
    + rewrite lookup_insert_ne by done. apply Hm.
  - constructor; [apply gateway_evolves_refl|done|done].
Qed.
Lemma quiet_section_any {R} c (f : runnerConn → option (R * runnerConn)) :
  (∀ rc r rc', conn_wf rc → f rc = Some (r, rc') → conn_wf rc') → quiet (conn_section c f) (λ _, True).
Proof. intros Hf. apply quiet_section. eauto. Qed.
Lemma quiet_field {R} c (dflt : R) f : quiet (conn_field c dflt f) (λ _, True).
Proof. apply quiet_inspect_any. Qed.

Lemma effects_snoc d m c msg :
  effects (d, mkMem (m_conns m) (m_pool m) (m_gen m) (m_sent m ++ [(c, msg)])) =
  effects (d, m) ++ option_list (effect_of (c, msg)).
Proof. unfold effects. cbn. rewrite omap_app. cbn. by destruct (effect_of _). Qed.
(** The critical sections of a send, and the send itself when it is no effect. *)
Lemma conn_wf_sending mu wg rc : conn_wf rc → conn_wf (with_sending mu wg rc). Proof. done. Qed.
Lemma quiet_enter c :
  quiet (conn_section c (λ rc, Some (if rc_closed rc then (false, rc)
                                     else (true, with_sending (rc_sendMu rc) (rc_sendWG rc + 1) rc)))) (λ _, True).
Proof. apply quiet_section_any. intros rc r rc' Hwf. destruct (rc_closed rc); naive_solver. Qed.
Lemma quiet_lock c :
  quiet (conn_section c (λ rc, if rc_sendMu rc then None else Some ((), with_sending true (rc_sendWG rc) rc))) (λ _, True).
Proof. apply quiet_section_any. intros rc r rc' Hwf. destruct (rc_sendMu rc); naive_solver. Qed.
Lemma quiet_unlock c : quiet (alter_conn c (λ rc, with_sending false (rc_sendWG rc - 1) rc)) (λ _, True).
Proof. by apply quiet_alter. Qed.
Lemma quiet_send c msg : effect_of (c, msg) = None → quiet (rc_send c msg) (λ _, True).
Proof.
  intros He. apply safe_then; [apply quiet_enter|]. intros []; [|exact I].
  apply safe_then; [apply quiet_lock|]. intros _.
  apply safe_then; [apply quiet_field|]. intros closed. apply safe_then.
  - destruct closed; [exact I|]. apply safe_then; [|intros _; apply safe_ask].
    apply quiet_mem; [done|]. intros d m. rewrite effects_snoc, He. cbn. by rewrite app_nil_r.
  - intros ok. apply safe_then; [apply quiet_unlock|by intros []].
Qed.

(** A tactic for the parts of a handler that are quiet. *)
Create HintDb quiet.
#[export] Hint Resolve quiet_inspect_any quiet_field quiet_unlock quiet_lock quiet_enter : quiet.
Ltac quiet_step :=
  lazymatch goal with
  | |- safe _ _ (Ret _) _ => exact I
  | |- safe _ _ (mret _) _ => exact I
  | |- safe _ _ (fails _) _ => exact I
  | |- safe _ _ (returns _) _ => exact I
  | |- safe _ _ (ask _) _ => apply safe_ask
  | |- safe _ _ (ebind _ _) _ => apply quiet_ebind; [|intro]
  | |- safe _ _ (attempt _) _ => apply quiet_attempt
  | |- safe _ _ (mbind _ _) _ => apply safe_then; [|intro]
  | |- safe _ _ (match ?x with _ => _ end) _ => destruct x
  | |- safe _ _ (tx _) _ => first [solve [apply quiet_reads_any; eauto with gateway] | solve [eauto with quiet nocore]]
  | |- safe _ _ (rc_send _ _) _ => by apply quiet_send
  | |- _ => solve [eauto with quiet nocore]
  end.
Ltac quiet_tac := repeat quiet_step.

(** * Quiet operations of the store *)
Lemma quiet_turn_scope p a t w g : quiet (ResolveTurnScope p a t w g) (λ _, True).
Proof. unfold ResolveTurnScope, getPoolByID. quiet_tac. Qed.
Lemma quiet_step_scope a t : quiet (ResolveWorkflowStepScope a t) (λ _, True).
Proof. unfold ResolveWorkflowStepScope, GetWorkflowPoolBinding, getPoolByID. quiet_tac. Qed.
#[export] Hint Resolve quiet_turn_scope quiet_step_scope : quiet.
Lemma quiet_caller_scope id a t g : quiet (resolveCallerScope id a t g) (λ _, True).
Proof. unfold resolveCallerScope, ResolvePoolBySpiffePrefix. quiet_tac. Qed.
Lemma quiet_credentials p t : quiet (ResolveCredentialBindings p t) (λ _, True).
Proof. apply quiet_reads_any. intros now d a d' H. by inv_tx. Qed.
#[export] Hint Resolve quiet_caller_scope quiet_credentials : quiet.
Lemma quiet_authorize p tv l : quiet (authorize p tv l) (λ _, True).
Proof. unfold authorize, GetPoolGrant. quiet_tac. Qed.
Lemma quiet_policy p t a : quiet (assertResourcePolicy p t a) (λ _, True).
Proof. unfold assertResourcePolicy. quiet_tac. Qed.
Lemma quiet_inputs ac ad r tv refs : quiet (validateArtifactInputs ac ad r tv refs) (λ _, True).
Proof. apply quiet_inspect_any. Qed.
Lemma quiet_outputs ac ad i refs : quiet (validateArtifactOutputs ac ad i refs) (λ _, True).
Proof. apply quiet_inspect_any. Qed.
Lemma quiet_credential b : quiet (resolveCredential b) (λ _, True).
Proof. unfold resolveCredential. quiet_tac. Qed.
#[export] Hint Resolve quiet_authorize quiet_policy quiet_inputs quiet_outputs quiet_credential : quiet.
Lemma quiet_slots l m acc : quiet (resolve_slots l m acc) (λ _, True).
Proof. revert m acc. induction l as [|s l IH]; intros m acc; cbn [resolve_slots]; quiet_tac; apply IH. Qed.
#[export] Hint Resolve quiet_slots : quiet.
Lemma quiet_credential_context p tv : quiet (resolveCredentialContext p tv) (λ _, True).
Proof. unfold resolveCredentialContext. quiet_tac. Qed.
Lemma quiet_available t g : quiet (toolAvailable t g) (λ _, True).
Proof. unfold toolAvailable, pick. quiet_tac. Qed.
#[export] Hint Resolve quiet_credential_context quiet_available : quiet.

Lemma quiet_renew id inst lease : quiet (RenewDispatchLease id inst lease) (λ _, True).
Proof.
  apply quiet_tx_any. intros now d a d' H. split; [by eapply good_renew|].
  by eapply update_invocation_dom.
Qed.
Lemma quiet_mark id r lease inst : quiet (MarkRunning id r lease inst) (λ _, True).
Proof.
  apply quiet_tx_any. intros now d a d' H. split; [by eapply good_mark|]. by eapply update_invocation_dom.
Qed.
#[export] Hint Resolve quiet_renew quiet_mark : quiet.
Lemma quiet_lease cfg id t : quiet (renewDispatchLease cfg id t) (λ _, True).
Proof. unfold renewDispatchLease. quiet_tac. Qed.
Lemma quiet_sweep P st err : IsTerminal st = true → quiet (tx (sweep P st err)) (λ _, True).
Proof. intros Hst. apply quiet_tx_any. intros now d a d' H. split; [by eapply good_sweep|by eapply sweep_dom]. Qed.
Lemma quiet_recover : quiet RecoverOrphanedInvocations (λ _, True).
Proof. unfold RecoverOrphanedInvocations. repeat (apply quiet_ebind; [by apply quiet_sweep|intro]). exact I. Qed.
#[export] Hint Resolve quiet_lease quiet_recover : quiet.
Lemma quiet_reconciler n : quiet (StartReconciler n) (λ _, True).
Proof. induction n as [|n IH]; cbn [StartReconciler]; (apply safe_then; [apply quiet_recover|intro]); [exact I|done]. Qed.

(** * Runner streams *)
Lemma quiet_insert_version tv : quiet (tx (insert_tool_version tv)) (λ _, True).
Proof.
  apply quiet_tx_any. intros now d a d' H. split; [by eapply good_insert_version|]. by erewrite insert_version_dom.
Qed.
Lemma quiet_registrations (m : timestamp → GwTx ()) :
  (∀ now d a d', m now d = inr (a, d') → gateway_good d d' ∧ ledger d' = ledger d) → quiet (tx m) (λ _, True).
Proof. intros Hm. apply quiet_tx_any. intros now d a d' H. destruct (Hm _ _ _ _ H) as [? ->]. done. Qed.
Lemma quiet_upsert_registration r : quiet (UpsertRunnerRegistration r) (λ _, True).
Proof.
  apply quiet_tx_any. intros now d a d' H. split; [by eapply good_upsert_registration|].
  by erewrite upsert_registration_ledger.
Qed.
Lemma quiet_heartbeat r g : quiet (HeartbeatRunner r g) (λ _, True).
Proof.
  apply quiet_registrations. intros now d a d' H. inv_tx.
  split; [eapply good_update_registrations; [|eassumption]; auto with gateway|by eapply update_registrations_ledger].
Qed.
Lemma quiet_deactivate r g : quiet (DeactivateRunnerStream r g) (λ _, True).
Proof.
  apply quiet_registrations. intros now d a d' H. inv_tx.
  split; [eapply good_update_registrations; [|eassumption]; auto with gateway|by eapply update_registrations_ledger].
Qed.
Lemma quiet_begin_drain r g refs : quiet (BeginDrain r g refs) (λ _, True).
Proof.
  apply quiet_registrations. intros now d a d' H. split; [by eapply good_begin_drain|by eapply begin_drain_ledger].
Qed.
Lemma quiet_retire_versions r g refs : quiet (RetireVersions r g refs) (λ _, True).
Proof.
  apply quiet_each. intros ref. apply quiet_registrations. intros now d a d' H.
  split; [by eapply good_retire|by eapply retire_ledger].
Qed.
#[export] Hint Resolve quiet_insert_version quiet_upsert_registration quiet_heartbeat quiet_deactivate
  quiet_begin_drain quiet_retire_versions : quiet.
Lemma quiet_register_version tv : quiet (RegisterToolVersion tv) (λ _, True).
Proof. unfold RegisterToolVersion, GetToolVersion. quiet_tac. Qed.
Lemma quiet_register_tool c n g : quiet (registerTool c n g) (λ _, True).
Proof. by apply quiet_alter. Qed.
#[export] Hint Resolve quiet_register_version quiet_register_tool : quiet.
Lemma quiet_handle_register d ap c rc : quiet (handleRegister d ap c rc) (λ _, True).
Proof. unfold handleRegister. quiet_tac. Qed.
Lemma quiet_drain_status c rc : quiet (sendDrainStatus c rc) (λ _, True).
Proof. unfold sendDrainStatus, DrainingStatus. quiet_tac. Qed.
Lemma quiet_retire_all c refs : quiet (retire_all c refs) (λ _, True).
Proof. induction refs as [|r l IH]; [exact I|]. apply safe_then; [by apply quiet_alter|done]. Qed.
Lemma reported_result r : reported (invokeResultToDispatch r).
Proof. unfold reported, invokeResultToDispatch. destruct (vr_State r); auto. Qed.
Lemma reported_error e : reported (invokeErrorToDispatch e). Proof. by right. Qed.
Lemma quiet_deliver c id r : reported r → quiet (deliver c id r) (λ _, True).
Proof.
  intros Hr. apply quiet_alter. intros rc Hwf. destruct (rc_pending rc !! id) as [[x|]|]; try done.
  intros id' r'. cbn. destruct (decide (id' = id)) as [->|Hne].
  - rewrite lookup_insert_eq. by intros [= <-].
  - rewrite lookup_insert_ne by done. apply Hwf.
Qed.
#[export] Hint Resolve quiet_handle_register quiet_drain_status quiet_retire_all : quiet.
Lemma quiet_message ap c rc m : quiet (runner_message ap c rc m) (λ _, True).
Proof.
  destruct m; cbn [runner_message]; try solve [quiet_tac].
  - apply safe_then; [apply quiet_deliver, reported_result|by intro].
  - apply safe_then; [apply quiet_deliver, reported_error|by intro].
Qed.
#[export] Hint Resolve quiet_message : quiet.
Lemma quiet_receive ap c rc l : quiet (receive_loop ap c rc l) (λ _, True).
Proof. induction l as [|m l IH]; cbn [receive_loop]; quiet_tac. Qed.
Lemma quiet_teardown c rc : quiet (teardown c rc) (λ _, True).
Proof.
  unfold teardown. apply safe_then; [by apply quiet_alter|]. intros _.
  apply safe_then; [apply quiet_section_any; intros x r x' Hwf; destruct (_ =? _); naive_solver|]. intros _.
  apply safe_then; [by apply quiet_mem|]. intros _. apply safe_then; [apply quiet_deactivate|]. intros _.
  apply quiet_alter. intros x Hwf id r. cbn. rewrite lookup_fmap, fmap_Some. intros (ch & Hch & Heq).
  destruct ch as [r'|]; injection Heq as ->; [by eapply Hwf|apply reported_lost].
Qed.
#[export] Hint Resolve quiet_receive quiet_teardown : quiet.
Lemma quiet_accept id r : quiet (atomically (accept_conn id r)) (λ _, True).
Proof.
  apply safe_atomically. intros [d m] [Hd Hm]. split; [|done]. cbn in *. split; [split; [done|]|].
  - intros c rc. cbn. rewrite lookup_insert_Some. intros [[_ <-]|[_ Hc]]; [|by eapply Hm]. by intros ??.
  - constructor; [apply gateway_evolves_refl|done|done].
Qed.
Lemma quiet_pool_add c : quiet (pool_add c) (λ _, True).
Proof. by apply quiet_mem. Qed.
#[export] Hint Resolve quiet_accept quiet_pool_add : quiet.
Lemma quiet_register_runner cfg caller l : quiet (RegisterRunner cfg caller l) (λ _, True).
Proof. unfold RegisterRunner, IsApprovedRunner. quiet_tac. Qed.

(** * The other handlers *)
Lemma quiet_discover caller a t g : quiet (DiscoverTools caller a t g) (λ _, True).
Proof. unfold DiscoverTools, DiscoverEffectiveTools. quiet_tac. Qed.
Lemma quiet_cancel_in l id reason : quiet (cancel_in l id reason) (λ _, True).
Proof. induction l as [|c l IH]; cbn [cancel_in]; quiet_tac. Qed.
#[export] Hint Resolve quiet_cancel_in : quiet.
Lemma quiet_cancel caller id reason g : quiet (CancelInvocation caller id reason g) (λ _, True).
Proof. unfold CancelInvocation, GetInvocation, assertCallerOwnsInvocation, propagateCancel. quiet_tac. Qed.

(** What operators, controllers and the components that share the database commit. *)
Inductive admin_op : ∀ {A : Type}, proc (Gw Mem) Query (GwErr + A) → Prop :=
| ad_pool k n s : admin_op (UpsertPool k n s)
| ad_grant p t e a : admin_op (UpsertPoolGrant p t e a)
| ad_binding p t s c r rc : admin_op (UpsertCredentialBinding p t s c r rc)
| ad_replace_grants p l : admin_op (ReplacePoolGrants p l)
| ad_replace_bindings p l : admin_op (ReplaceCredentialBindings p l)
| ad_materialize k n s g b : admin_op (MaterializePool k n s g b)
| ad_delete_pool k : admin_op (SoftDeletePoolByKey k)
| ad_workflow k p l : admin_op (UpsertWorkflowPoolBinding k p l)
| ad_delete_workflow k : admin_op (SoftDeleteWorkflowPoolBindingByKey k)
| ad_reconcile l : admin_op (ReconcileStaticApprovedRunners l)
| ad_approve n r s l : admin_op (UpsertApprovedRunner n r s l)
| ad_run_pool r p : admin_op (UpsertRunPoolAssignment r p)
| ad_snapshot a p l : admin_op (SnapshotAttemptTools a p l)
| ad_storage k b : admin_op (SetAgentPoolStorageAuthorized k b)
| ad_foreign (f : DispatchDB → DispatchDB) :
    (∀ d, ∃ l, tool_pins (dp_wk (f d)) = tool_pins (dp_wk d) ++ l ∧
               (pins_wf (tool_pins (dp_wk d)) → pins_wf (tool_pins (dp_wk (f d))))) →
    admin_op (tx (λ _, tx_modify (λ d, set_dp (f (gw_dp d)) d))).
Lemma quiet_snapshot a p l : quiet (SnapshotAttemptTools a p l) (λ _, True).
Proof.
  assert (∀ names, quiet (tx (λ now, tx_iter (pin_attempt_tool a p now) names)) (λ _, True)) as Hpin.
  { intros names. apply quiet_registrations. intros now d x d' H.
    eapply (tx_iter_preserves (λ x y, gateway_good x y ∧ ledger y = ledger x));
      [by split; [apply gateway_good_refl|]| | |eassumption].
    - intros u v w [? ?] [? ?]. split; [by eapply gateway_good_trans|congruence].
    - intros n u v w _ Hn. split; [by eapply good_pin|by eapply pin_ledger]. }
  unfold SnapshotAttemptTools. destruct l as [[|n l]|]; quiet_tac; apply Hpin.
Qed.
Lemma quiet_foreign f :
  (∀ d, ∃ l, tool_pins (dp_wk (f d)) = tool_pins (dp_wk d) ++ l ∧
             (pins_wf (tool_pins (dp_wk d)) → pins_wf (tool_pins (dp_wk (f d))))) →
  quiet (tx (λ _, tx_modify (λ d, set_dp (f (gw_dp d)) d))) (λ _, True).
Proof.
  intros Hf. apply quiet_registrations. intros now d x d' H. inv_tx. split; [|done].
  destruct (Hf (gw_dp d)) as (l & Hl & Hwf). intros [W1 W2 W3 W4 W5]. split; constructor; try done; cbn.
  - by apply Hwf.
  - eauto using invocation_moves_refl.
  - by exists l.
Qed.
Lemma quiet_admin {A} (p : proc (Gw Mem) Query (GwErr + A)) : admin_op p → quiet p (λ _, True).
Proof.
  destruct 1; try (apply quiet_frame; intros now d x d' H).
  - by eapply frame_upsert_pool.
  - inv_tx. match goal with H : bytes_or _ _ _ = _ |- _ => apply bytes_or_inr in H as -> end. by eapply frame_upsert_grant.
  - by eapply frame_put_binding.
  - by eapply frame_replace_grants.
  - by eapply frame_replace_bindings.
  - by eapply frame_materialize.
  - by eapply frame_soft_delete.
  - unfold upsert_pool_binding in H. by inv_tx.
  - unfold delete_pool_binding in H. by inv_tx.
  - by eapply frame_reconcile.
  - unfold upsert_approved in H. by inv_tx.
  - unfold assign_run_pool in H. by inv_tx.
  - apply quiet_snapshot.
  - unfold authorize_storage in H. by inv_tx.
  - by apply quiet_foreign.
Qed.
