(* ===== verification/GatewayEffects.v ===== *)
(** The promise of the gateway: effects are ledgered first, at most once for a write that
    cannot be repeated, with the tool version the attempt pinned, and a terminal answer is
    what the ledger holds. One rely/guarantee proof of [InvokeTool] carries them all. *)
From S2P Require Import Prelude Json Runtime Workflow WorkerPool WorkData Dispatch Spiffe Proc Consequence GatewayStore GatewayFacts GatewayService ProcLogic GatewayServiceFacts.
#[local] Open Scope gw_scope.

(** * The invariant *)

(** A ledger row names the version the attempt pinned, with that version's effect class. *)
Definition rows_pinned (d : GatewayDB) : Prop :=
  ∀ id i, ledger d !! id = Some i →
    pin_of (tool_pins (gw_wk d)) (gi_AttemptID i) (gi_ToolName i) = Some (gi_ToolVersionDigest i) ∧
    ∃ tv, tool_versions d !! (gi_ToolName i, gi_ToolVersionDigest i) = Some tv ∧
          gv_EffectClass tv = gi_EffectClass i.
(** What a runner is told is what the ledger says. *)
Record matches (m : Invoke) (i : Invocation) : Prop := {
  mt_tool : io_Tool m = gi_ToolName i;
  mt_digest : io_Digest m = gi_ToolVersionDigest i;
  mt_args : raw_message (io_ArgumentsJson m) = GoodJSON (gi_ArgumentsJSON i);
  mt_refs : marshalArtifactRefs (io_ArtifactInputRefs m) = gi_ArtifactInputRefs i }.
Definition effects_ledgered (s : Gw Mem) : Prop :=
  ∀ m, m ∈ effects s → ∃ i, ledger s.1 !! io_InvocationID m = Some i ∧ matches m i.
Record ledgered (s : Gw Mem) : Prop := {
  lg_inv : gw_inv s;
  lg_pinned : rows_pinned s.1;
  lg_effects : effects_ledgered s }.
(** What every step of every thread does. *)
Definition history (s s' : Gw Mem) : Prop :=
  gateway_evolves s.1 s'.1 ∧ effects s `prefix_of` effects s'.
Lemma history_refl s : history s s. Proof. split; [apply gateway_evolves_refl|done]. Qed.
Lemma history_trans a b c : history a b → history b c → history a c.
Proof. intros [? ?] [? ?]. split; [by eapply gateway_evolves_trans|by etrans]. Qed.

Lemma pin_of_app p l a t g : pin_of p a t = Some g → pin_of (p ++ l) a t = Some g.
Proof.
  unfold pin_of. rewrite !fmap_Some. intros (x & Hx & ->). exists x. split; [|done].
  revert Hx. induction p as [|y p IH]; cbn; [done|]. by destruct (_ && _).
Qed.
Lemma pin_kept d d' a t g :
  gateway_evolves d d' → pin_of (tool_pins (gw_wk d)) a t = Some g →
  pin_of (tool_pins (gw_wk d')) a t = Some g.
Proof. intros [_ _ [l ->]]. apply pin_of_app. Qed.
Lemma moves_key i j :
  invocation_moves i j →
  gi_AttemptID j = gi_AttemptID i ∧ gi_ToolVersionDigest j = gi_ToolVersionDigest i ∧ gi_ToolName j = gi_ToolName i.
Proof. intros [Hk _ Ht _ _ _ _ _ _ _]. unfold key_of in Hk. injection Hk. auto. Qed.
Lemma matches_moves m i j : invocation_moves i j → matches m i → matches m j.
Proof.
  intros Hm [H1 H2 H3 H4]. destruct (moves_key i j Hm) as (Ha & Hd & Ht). destruct Hm.
  constructor; congruence.
Qed.
Lemma effects_kept s s' : gateway_evolves s.1 s'.1 → effects s' = effects s → effects_ledgered s → effects_ledgered s'.
Proof.
  intros Hev He Hs m Hm. rewrite He in Hm. destruct (Hs m Hm) as (i & Hi & Hmt).
  destruct (ge_ledger _ _ Hev _ _ Hi) as (j & Hj & Hmv). eauto using matches_moves.
Qed.
Lemma rows_kept d d' :
  gateway_evolves d d' → dom (ledger d') = dom (ledger d) → rows_pinned d → rows_pinned d'.
Proof.
  intros Hev Hdom Hp id j Hj. assert (is_Some (ledger d !! id)) as [i Hi].
  { apply elem_of_dom. rewrite <- Hdom. apply elem_of_dom. eauto. }
  destruct (ge_ledger _ _ Hev _ _ Hi) as (j' & Hj' & Hm). rewrite Hj in Hj'. injection Hj' as <-.
  destruct (moves_key i j Hm) as (Ha & Hd & Ht). rewrite Ha, Hd, Ht. destruct (Hp _ _ Hi) as (Hpin & tv & Htv & Hc).
  split; [by eapply pin_kept|]. exists tv. split; [by apply (ge_versions _ _ Hev)|].
  rewrite Hc. symmetry. apply Hm.
Qed.
Lemma calm_ledgered s s' : ledgered s → gw_inv s' → calm s s' → ledgered s' ∧ history s s'.
Proof.
  intros [_ Hp He] Hs' [Hev Hdom Heff]. split.
  - constructor; [done|by eapply rows_kept|by eapply effects_kept].
  - split; [done|]. by rewrite Heff.
Qed.

(** * Counting effects *)
Definition sent_for (id : string) (s : Gw Mem) : nat :=
  length (filter (λ m, io_InvocationID m = id) (effects s)).
Section counting.
Context (cfg : Config).
(** How often a call of this class may be sent. *)
Definition send_limit (class : string) : nat :=
  if String.eqb class EffectNonIdempotentWrite then 1%nat
  else Z.to_nat (Z.max 1 (cfg_RetryMaxAttempts cfg)).
Definition allowed_for (id : string) (s : Gw Mem) : nat :=
  match ledger s.1 !! id with Some i => send_limit (gi_EffectClass i) | None => 0%nat end.
Lemma allowed_mono s s' id : gateway_evolves s.1 s'.1 → (allowed_for id s ≤ allowed_for id s')%nat.
Proof.
  intros Hev. unfold allowed_for. destruct (ledger s.1 !! id) as [i|] eqn:Hi; [|lia].
  destruct (ge_ledger _ _ Hev _ _ Hi) as (j & -> & Hm). by rewrite (im_class _ _ Hm).
Qed.
Lemma pays_evolves d d' x B :
  gateway_evolves d d' → pays sent_for allowed_for (d, x) (d', x) B B.
Proof.
  intros Hev id. pose proof (allowed_mono (d, x) (d', x) id Hev).
  change (sent_for id (d', x)) with (sent_for id (d, x)). lia.
Qed.
Abbreviation does := (rg (Q := Query) ledgered history sent_for allowed_for).
Abbreviation durable := (stable ledgered history).

(** Quiet parts of a handler. *)
Lemma does_quiet {A} (p : proc (Gw Mem) Query A) K B Ψ :
  durable K → quiet p Ψ → does p K B (λ a s B', Ψ a ∧ B' = B ∧ K s).
Proof.
  intros HK Hp. eapply rg_safe; [|..|exact HK|exact Hp]; [by intros s []|].
  intros s s' Hs Hs' Hc. split; [by apply calm_ledgered|].
  intros id. unfold sent_for. rewrite (calm_effects _ _ Hc). split; [done|].
  apply allowed_mono, Hc.
Qed.
Lemma does_then {A C} (p : proc (Gw Mem) Query A) (k : A → proc (Gw Mem) Query C) K B Ψ Φ :
  durable K → quiet p Ψ → (∀ a, Ψ a → does (k a) K B Φ) → does (p ≫= k) K B Φ.
Proof.
  intros HK Hp Hk. eapply rg_bind; [by apply (does_quiet p K B Ψ)|]. intros a B'.
  apply (rg_pure _ _ _ _ (k a) (Ψ a) (λ s, B' = B ∧ K s)). intros Ha.
  apply (rg_pure _ _ _ _ (k a) (B' = B) K). intros ->. auto.
Qed.
(** A statement that claims no row and leaves something durable behind. *)
Lemma does_stmt {A} (m : timestamp → GwTx A) K B (Ψ : GwErr + A → Gw Mem → Prop) :
  (∀ now d a d', m now d = inr (a, d') → gateway_good d d' ∧ dom (ledger d') = dom (ledger d)) →
  durable K → (∀ r, durable (Ψ r)) → (∀ e s, K s → Ψ (inl e) s) →
  (∀ now s a d', ledgered s → K s → m now s.1 = inr (a, d') → ledgered (d', s.2) → K (d', s.2) →
     Ψ (inr a) (d', s.2)) →
  does (tx m) K B (λ r s B', B' = B ∧ Ψ r s).
Proof.
  intros Hr HKs HS He Ha.
  assert (∀ now b, does (atomically (tx_do (m now) b)) K B (λ r s B', B' = B ∧ Ψ r s)) as Hdo.
  { intros now b. apply rg_atomically.
    - intros [d x] Hs HK. unfold tx_do, run_tx. cbn [fst snd].
      destruct (m now d) as [e|[a d']] eqn:E; cbn [fst snd].
      + split; [split; [done|apply history_refl]|]. exists B. split; [intros id; lia|]. destruct b; auto.
      + destruct (Hr _ _ _ _ E) as [Hg Hdom]. destruct (lg_inv _ Hs) as [Hw Hm]. destruct (Hg Hw) as [Hw' Hev].
        assert (calm (d, x) (d', x)) as Hc by by constructor.
        destruct (calm_ledgered _ (d', x) Hs ltac:(by split) Hc) as [Hs' HT]. split; [done|].
        assert (K (d', x)) as HK' by exact (HKs _ _ Hs Hs' HT HK). exists B. split.
        * by apply pays_evolves.
        * split; [done|]. destruct b; [by apply He|]. exact (Ha now (d, x) a d' Hs HK E Hs' HK').
    - intros r B' s s' Hs Hs' HT [-> HΨ]. split; [done|]. exact (HS r s s' Hs Hs' HT HΨ). }
  intros [] now; [apply Hdo| |apply Hdo]. intros s Hs HK. split; [done|]. by apply He.
Qed.
Lemma does_read {A} (m : timestamp → GwTx A) K B (Ψ : GwErr + A → Gw Mem → Prop) :
  (∀ now, reads (m now)) → durable K → (∀ r, durable (Ψ r)) → (∀ e s, K s → Ψ (inl e) s) →
  (∀ now s a d', ledgered s → K s → m now s.1 = inr (a, d') → Ψ (inr a) s) →
  does (tx m) K B (λ r s B', B' = B ∧ Ψ r s).
Proof.
  intros Hr HK HS He Ha. apply (does_stmt _ K); try done.
  - intros now d a d' H. apply Hr in H as ->. split; [apply gateway_good_refl|done].
  - intros now s a d' Hs Hk H Hs' Hk'. pose proof (Hr _ _ _ _ H) as ->. destruct s. eapply Ha; eauto.
Qed.
(** The continuation after a part that leaves [Ψ] and its budget untouched. *)
Lemma does_next {A C} (p : proc (Gw Mem) Query A) (k : A → proc (Gw Mem) Query C) K B Ψ Φ :
  does p K B (λ r s B', B' = B ∧ Ψ r s) → (∀ r, does (k r) (Ψ r) B Φ) → does (p ≫= k) K B Φ.
Proof.
  intros Hp Hk. eapply rg_bind; [exact Hp|]. intros r B'.
  apply (rg_pure _ _ _ _ (k r) (B' = B) (Ψ r)). by intros ->.
Qed.

(** * Sending an effect *)
Definition requested (m : Invoke) (s : Gw Mem) : Prop :=
  ∃ i, ledger s.1 !! io_InvocationID m = Some i ∧ matches m i.
Lemma durable_requested m : durable (requested m).
Proof.
  intros s s' _ _ [Hev _] (i & Hi & Hm). destruct (ge_ledger _ _ Hev _ _ Hi) as (j & Hj & Hmv).
  exists j. eauto using matches_moves.
Qed.
Definition spend (id : string) (B : budget) : budget := λ x, if String.eqb x id then pred (B x) else B x.
Lemma sent_for_snoc id d m c i :
  sent_for id (d, mkMem (m_conns m) (m_pool m) (m_gen m) (m_sent m ++ [(c, CtlInvoke i)])) =
  (sent_for id (d, m) + if String.eqb (io_InvocationID i) id then 1 else 0)%nat.
Proof.
  unfold sent_for. rewrite effects_snoc, filter_app, length_app.
  change (option_list (effect_of (c, CtlInvoke i))) with [i]. rewrite filter_cons, filter_nil.
  destruct (String.eqb_spec (io_InvocationID i) id); case_decide; done.
Qed.
(** The send itself pays with one unit of the budget. *)
Lemma does_emit c m n B :
  (S n ≤ B (io_InvocationID m))%nat →
  does (mem (λ x, mkMem (m_conns x) (m_pool x) (m_gen x) (m_sent x ++ [(c, CtlInvoke m)]))) (requested m) B
    (λ _ s B', (n ≤ B' (io_InvocationID m))%nat ∧ requested m s).
Proof.
  intros HB. apply rg_atomically.
  - intros [d x] [[Hw Hm] Hp He] (i & Hi & Hmt). cbn [fst snd] in *. split; [split|].
    + constructor; [split; done|done|]. intros q Hq. unfold effects_ledgered in He. rewrite effects_snoc in Hq.
      apply elem_of_app in Hq as [Hq|Hq]; [by apply He|]. apply list_elem_of_singleton in Hq as ->. eauto.
    + split; [apply gateway_evolves_refl|]. rewrite effects_snoc. by eexists.
    + exists (spend (io_InvocationID m) B). split.
      * intros id. rewrite sent_for_snoc. unfold spend, allowed_for. cbn [fst].
        destruct (String.eqb_spec (io_InvocationID m) id) as [<-|Hne].
        -- rewrite String.eqb_refl. lia.
        -- destruct (String.eqb_spec id (io_InvocationID m)); [congruence|]. lia.
      * unfold spend. rewrite String.eqb_refl. split; [lia|]. by exists i.
  - intros r B' s s' Hs Hs' HT [Hn Hr]. split; [done|]. exact (durable_requested m s s' Hs Hs' HT Hr).
Qed.
Lemma does_send c m n B :
  (S n ≤ B (io_InvocationID m))%nat →
  does (rc_send c (CtlInvoke m)) (requested m) B (λ _ s B', (n ≤ B' (io_InvocationID m))%nat ∧ requested m s).
Proof.
  intros HB. pose proof (durable_requested m) as HD.
  assert (∀ b, does (mret b) (requested m) B
     (λ (_ : bool) s B', (n ≤ B' (io_InvocationID m))%nat ∧ requested m s)) as Hret.
  { intros b s _ Hs. split; [lia|done]. }
  eapply does_then; [done|apply quiet_enter|]. intros [] _; [|apply Hret].
  eapply does_then; [done|apply quiet_lock|]. intros _ _.
  eapply does_then; [done|apply quiet_field|]. intros closed _.
  eapply (rg_bind _ _ _ _ _ _ _ _ (λ _ s B', (n ≤ B' (io_InvocationID m))%nat ∧ requested m s)).
  - destruct closed; [apply Hret|]. eapply rg_bind; [by apply does_emit|]. intros u B' ok. by intros s _ Hs.
  - intros ok B'. apply (rg_pure _ _ _ _ _ (n ≤ B' (io_InvocationID m))%nat (requested m)). intros HB'.
    eapply does_then; [done|apply quiet_unlock|]. intros _ _ s _ Hs. done.
Qed.
(** One attempt on a connection. *)
Lemma quiet_open c id :
  quiet (conn_section c (λ rc, Some (if rc_closed rc then (false, rc)
                                     else (true, with_pending (<[id := None]> (rc_pending rc)) rc)))) (λ _, True).
Proof.
  apply quiet_section_any. intros rc r rc' Hwf. destruct (rc_closed rc); intros [= <- <-]; [done|].
  intros id' x. cbn. rewrite lookup_insert_Some. intros [[_ ?]|[_ Hx]]; [done|by eapply Hwf].
Qed.
Lemma quiet_await c id :
  quiet (conn_section c (λ rc, match rc_pending rc !! id with
                               | Some (Some r) => Some (r, with_pending (<[id := None]> (rc_pending rc)) rc)
                               | _ => None
                               end)) reported.
Proof.
  apply quiet_section. intros rc r rc' Hwf. destruct (rc_pending rc !! id) as [[x|]|] eqn:Hx; try done.
  intros [= <- <-]. split; [|by eapply Hwf]. intros id' y. cbn. rewrite lookup_insert_Some.
  intros [[_ ?]|[_ Hy]]; [done|by eapply Hwf].
Qed.
Lemma quiet_drop c id : quiet (alter_conn c (drop_pending id)) (λ _, True).
Proof. apply quiet_alter. intros rc Hwf id' x. cbn. rewrite lookup_delete_Some. intros [_ Hx]. by eapply Hwf. Qed.
Lemma does_dispatch c m timeout n B :
  (S n ≤ B (io_InvocationID m))%nat →
  does (rc_dispatch c m (io_InvocationID m) timeout) (requested m) B
    (λ r s B', reported r.1 ∧ (n ≤ B' (io_InvocationID m))%nat ∧ requested m s).
Proof.
  intros HB. pose proof (durable_requested m) as HD. unfold rc_dispatch.
  eapply does_then; [done|apply quiet_open|]. intros [] _; [|intros s _ Hs; split_and!; [apply reported_lost|lia|done]].
  eapply rg_bind; [by apply does_send|]. intros sent B'.
  apply (rg_pure _ _ _ _ _ (n ≤ B' (io_InvocationID m))%nat (requested m)). intros HB'.
  eapply (does_then _ _ _ _ (λ r, reported r.1)); [done| |].
  - destruct sent; [|apply reported_lost]. apply safe_then; [apply safe_ask|]. intros [].
    + eapply safe_bind; [apply quiet_await|]. intros r Hr. exact Hr.
    + destruct (0 <? timeout); [apply reported_lost|]. by intros s r s'.
    + apply reported_lost.
  - intros r Hr. eapply does_then; [done|apply quiet_drop|]. intros _ _ s _ Hs. done.
Qed.

(** * Answers *)

(** A response that names an invocation: terminal, and then the ledger holds that outcome
    (for a success, the very response a replay gives), or in progress. *)
Definition answered (r : Code + InvokeResponse) (s : Gw Mem) : Prop :=
  match r with
  | inl _ => True
  | inr rsp => rs_InvocationID rsp = EmptyString ∨ rs_State rsp = INVOKE_STATE_IN_PROGRESS ∨
               ∃ i, ledger s.1 !! rs_InvocationID rsp = Some i ∧ IsTerminal (gi_State i) = true ∧
                    rs_State rsp = invocationStateToProto (gi_State i) ∧
                    (gi_State i = InvocationSucceeded → rsp = invocationToResponse i)
  end.
Lemma terminal_kept s s' id i :
  history s s' → ledger s.1 !! id = Some i → IsTerminal (gi_State i) = true → ledger s'.1 !! id = Some i.
Proof.
  intros [Hev _] Hi Ht. destruct (ge_ledger _ _ Hev _ _ Hi) as (j & Hj & Hm). by rewrite <- (im_final _ _ Hm Ht).
Qed.
Lemma durable_answered r : durable (answered r).
Proof.
  intros s s' _ _ HT. destruct r as [c|rsp]; [done|]. intros [Hd|[Hp|(i & Hi & Ht & Hr)]]; [by left|by right; left|].
  right. right. exists i. split; [by eapply terminal_kept|done].
Qed.
(** The row of a terminal invocation as it was read. *)
Definition settled (i : Invocation) (s : Gw Mem) : Prop :=
  IsTerminal (gi_State i) = true → ledger s.1 !! gi_ID i = Some i.
Lemma durable_settled i : durable (settled i).
Proof. intros s s' _ _ HT Hs Ht. by eapply terminal_kept; [..|apply Hs|]. Qed.
Lemma settled_answered i s : settled i s → answered (inr (invocationToResponse i)) s.
Proof.
  intros Hs. unfold settled in Hs. unfold answered, invocationToResponse.
  destruct (gi_State i) eqn:E; cbn in *; try (right; left; done); right; right; exists i;
    (split; [by apply Hs|]); rewrite E; cbn; split_and!; try done.
Qed.

(** What a committed outcome left in the row. *)
Definition outcome (id : uuid) (st : InvocationState) (result refs : RawMessage) (s : Gw Mem) : Prop :=
  ∃ i, ledger s.1 !! id = Some i ∧ gi_ID i = id ∧ gi_State i = st ∧ IsTerminal st = true ∧
       (∀ v, result = GoodJSON v → gi_ResultJSON i = Some v) ∧ refs = GoodJSON (gi_ArtifactOutputRefs i).
Lemma durable_outcome id st result refs : durable (outcome id st result refs).
Proof.
  intros s s' _ _ HT (i & Hi & Hid & Hst & Ht & Hr). exists i. split; [|done].
  eapply terminal_kept; [done|done|]. by rewrite Hst.
Qed.
Lemma jsonb_param_val r d o d' :
  jsonb_param r d = inr (o, d') → match r with NoJSON => o = None | GoodJSON v => o = Some v | BadJSON _ => False end.
Proof. destruct r; unfold jsonb_param, mret, tx_ret, tx_fail; naive_solver. Qed.
Lemma finish_outcome id st result refs err now d u d' :
  gateway_wf d → IsTerminal st = true → finish_invocation id st result refs err now d = inr (u, d') →
  ∀ m, outcome id st result refs (d', m).
Proof.
  intros Hw Ht H m. unfold finish_invocation in H. inv_tx.
  repeat match goal with H : jsonb_param ?r ?d = inr (_, ?d2) |- _ =>
    pose proof (jsonb_param_inr _ _ _ _ H); apply jsonb_param_val in H; subst d2 end.
  unfold update_invocation in H. inv_tx.
  match goal with H : (_ ≫= _) = Some _ |- _ => apply bind_Some in H as (i & Hi & HP) end.
  destruct (in_flight (gi_State i)) eqn:Hf; [|done]. injection HP as <-.
  eexists. cbn. rewrite lookup_insert_eq. split; [done|]. cbn. split; [by apply (wf_rows _ Hw)|].
  split; [done|]. split; [done|]. split.
  - by intros v ->.
  - destruct refs; naive_solver.
Qed.
Definition finished (id : uuid) (st : InvocationState) (result refs : RawMessage) (r : GwErr + ()) (s : Gw Mem) : Prop :=
  match r with inl _ => True | inr _ => outcome id st result refs s end.
Lemma does_finish {C} id st result refs err (k : GwErr + () → proc (Gw Mem) Query C) K B Φ :
  durable K → IsTerminal st = true →
  (∀ r, does (k r) (finished id st result refs r) B Φ) →
  does (FinishInvocation id st result refs err ≫= k) K B Φ.
Proof.
  intros HK Ht. apply does_next. apply does_stmt; [|done|..].
  - intros now d a d' H. split; [by eapply good_finish|by eapply finish_dom].
  - intros [e|u]; [by intros ?????|apply durable_outcome].
  - done.
  - intros now s a d' Hs _ H _ _. exact (finish_outcome _ _ _ _ _ _ _ _ _ (proj1 (lg_inv _ Hs)) Ht H _).
Qed.
Lemma does_failed inv e K B : durable K → does (finishFailed inv e) K B (λ r s _, answered r s).
Proof.
  intros HK. unfold finishFailed. apply does_finish; [done|done|]. intros [x|u] s _; [done|].
  intros (i & Hi & Hid & Hst & Ht & Hr). right. right. exists i. cbn. rewrite Hst. by split_and!.
Qed.
Lemma does_ambiguous inv tv reason K B : durable K → does (classifyAmbiguous inv tv reason) K B (λ r s _, answered r s).
Proof.
  intros HK. unfold classifyAmbiguous. assert (IsTerminal (ambiguous_state tv) = true ∧ ambiguous_state tv ≠ InvocationSucceeded) as [Ht Hne].
  { unfold ambiguous_state. by destruct (String.eqb _ _). }
  apply does_finish; [done|done|]. intros [x|u] s _; [done|].
  intros (i & Hi & Hid & Hst & _ & Hr). right. right. exists i. cbn. rewrite Hst. by split_and!.
Qed.
Lemma does_from_result ac ad inv tv res K B :
  durable K → reported res → does (finishFromResult cfg ac ad inv tv res) K B (λ r s _, answered r s).
Proof.
  intros HK Hr. pose proof (reported_terminal _ Hr) as Ht. unfold finishFromResult. destruct (bool_decide_reflect (dr_state res = InvocationSucceeded)) as [Hst|Hst].
  - eapply does_then; [done|apply quiet_outputs|]. intros ok _.
    assert (∀ v, does (r ← FinishInvocation (gi_ID inv) (dr_state res) (GoodJSON v) (dr_artifactRefs res) (dr_errorDetail res);
        mret (match r with
          | inl _ => inl CodeInternal
          | inr _ => inr (mkResponse (gi_ID inv) INVOKE_STATE_SUCCEEDED (GoodJSON v) (parseArtifactRefs (dr_artifactRefs res)) None EmptyString)
          end)) K B (λ r s _, answered r s)) as Hcommit.
    { intros v. apply does_finish; [done|done|]. intros [x|u] s _; [done|].
      intros (i & Hi & Hid & Hs & _ & Hres & Hrefs). right. right. exists i. cbn. rewrite Hs, Hst. split_and!; try done.
      intros _. unfold invocationToResponse. rewrite Hs, Hst, Hid, (Hres v eq_refl), <- Hrefs. done. }
    destruct (negb ok); [by apply does_ambiguous|]. destruct (_ <? _); [by apply does_ambiguous|].
    destruct (String.eqb _ _); [apply Hcommit|]. destruct (parse_json _); [apply Hcommit|by apply does_ambiguous].
  - apply does_finish; [done|done|]. intros [x|u] s _; [done|].
    intros (i & Hi & Hid & Hs & _ & _). right. right. exists i. cbn.
    destruct Hr as [Hr|Hr]; [done|]. rewrite Hs, Hr. by split_and!.
Qed.
Lemma does_get {C} id (k : GwErr + Invocation → proc (Gw Mem) Query C) K B Φ :
  durable K →
  (∀ e, does (k (inl e)) K B Φ) → (∀ i, gi_ID i = id → does (k (inr i)) (λ s, settled i s ∧ K s) B Φ) →
  does (GetInvocation id ≫= k) K B Φ.
Proof.
  intros HK He Hi.
  apply (does_next _ _ _ _ (λ r s, match r with inl _ => K s | inr i => gi_ID i = id ∧ settled i s ∧ K s end)).
  - apply does_read; [auto with gateway|done| |done|].
    + intros [e|i]; [done|]. apply stable_and; [apply stable_pure|]. apply stable_and; [apply durable_settled|done].
    + intros now s i d' Hs Hk H. unfold get_invocation in H. inv_tx.
      assert (gi_ID i = id) as Hid by (apply (wf_rows _ (proj1 (lg_inv _ Hs))); done).
      split; [done|]. split; [|done]. intros _. by rewrite Hid.
  - intros [e|i]; [done|]. apply rg_pure. by apply Hi.
Qed.
Lemma does_abort inv tv reason K B : durable K → does (abortAfterLeaseFailure inv tv reason) K B (λ r s _, answered r s).
Proof.
  intros HK. apply does_get; [done| |].
  - intros e. by apply does_ambiguous.
  - intros i Hid. destruct (IsTerminal (gi_State i)).
    + intros s _ [Hs _]. by apply settled_answered.
    + eapply rg_pre; [|by apply (does_ambiguous inv tv reason K)]. by intros s _ [_ ?].
Qed.
Lemma does_loop et ac ad left inv tv m B :
  io_InvocationID m = gi_ID inv → (left ≤ B (gi_ID inv))%nat →
  does (dispatch_loop cfg et ac ad left inv tv m) (requested m) B (λ r s _, answered r s).
Proof.
  intros Hm. pose proof (durable_requested m) as HD. revert B. induction left as [|n IH]; intros B HB; cbn [dispatch_loop].
  - by apply does_ambiguous.
  - eapply does_then; [done|apply quiet_lease|]. intros [e|u] _; [by apply does_abort|].
    unfold dispatchToRunner. rewrite <- Hm in *.
    eapply (rg_bind _ _ _ _ _ _ _ _ (λ r s B', match r with
             | None => requested m s
             | Some r => reported r.1 ∧ (n ≤ B' (io_InvocationID m))%nat ∧ requested m s end)).
    + unfold pick. eapply does_then; [done|apply quiet_inspect_any|]. intros [c|] _.
      * eapply rg_bind; [by apply does_dispatch|]. intros r B' s _ Hs. done.
      * by intros s _ Hs.
    + intros [[res done_]|] B'; [|by apply does_ambiguous].
      apply (rg_pure _ _ _ _ _ (reported res) (λ s, (n ≤ B' (io_InvocationID m))%nat ∧ requested m s)). intros Hres.
      apply (rg_pure _ _ _ _ _ (n ≤ B' (io_InvocationID m))%nat (requested m)). intros HB'.
      destruct (dr_streamLost res); [|by apply does_from_result].
      destruct n as [|n]; [by apply does_ambiguous|]. by apply IH.
Qed.

(** * Claiming a row *)
Definition pinned_as (attempt : string) (tv : ToolVersion) (s : Gw Mem) : Prop :=
  pin_of (tool_pins (gw_wk s.1)) attempt (gv_Name tv) = Some (gv_Digest tv) ∧
  tool_versions s.1 !! (gv_Name tv, gv_Digest tv) = Some tv.
Lemma durable_pinned_as attempt tv : durable (pinned_as attempt tv).
Proof.
  intros s s' _ _ [Hev _] [Hp Hv]. split; [by eapply pin_kept|by apply (ge_versions _ _ Hev)].
Qed.
Record row_for (tv : ToolVersion) (args : RawMessage) (refs : json) (i : Invocation) : Prop := {
  rf_tool : gi_ToolName i = gv_Name tv;
  rf_digest : gi_ToolVersionDigest i = gv_Digest tv;
  rf_args : args = GoodJSON (gi_ArgumentsJSON i);
  rf_refs : gi_ArtifactInputRefs i = refs }.
Definition row_at (id : uuid) (tv : ToolVersion) (args : RawMessage) (refs : json) (s : Gw Mem) : Prop :=
  ∃ i, ledger s.1 !! id = Some i ∧ row_for tv args refs i.
Lemma durable_row_at id tv args refs : durable (row_at id tv args refs).
Proof.
  intros s s' _ _ [Hev _] (i & Hi & [H1 H2 H3 H4]). destruct (ge_ledger _ _ Hev _ _ Hi) as (j & Hj & Hm).
  exists j. split; [done|]. destruct (moves_key i j Hm) as (Ha & Hd & Ht). destruct Hm. constructor; congruence.
Qed.
Lemma insert_ledgered k tv pool args refs summary lease inst now d x o d' :
  ik_ToolVersionDigest k = gv_Digest tv → ledgered (d, x) → pinned_as (ik_AttemptID k) tv (d, x) →
  insert_invocation k tv pool args refs summary lease inst now d = inr (o, d') →
  (ledgered (d', x) ∧ history (d, x) (d', x)) ∧
  match o with
  | Some id => row_at id tv args refs (d', x) ∧ ledger d !! id = None ∧
               (∀ y, y ≠ id → ledger d' !! y = ledger d !! y) ∧
               allowed_for id (d', x) = send_limit (gv_EffectClass tv)
  | None => ledger d' = ledger d
  end.
Proof.
  intros Hk [[Hw Hm] Hp He] [Hpin Hver] H. pose proof (good_insert_invocation _ _ _ _ _ _ _ _ _ _ _ _ H Hw) as [Hw' Hev].
  apply insert_invocation_inr in H as (v & d1 & -> & Hc & Hs & Hfr & Ho). cbn [fst snd] in *.
  assert (history (d, x) (d', x)) as HT by (split; [done|done]).
  assert (effects_ledgered (d', x)) as He' by by eapply (effects_kept (d, x)).
  destruct Hfr as (Hl & Hv & Hr & Ht). destruct o as [id|].
  - destruct Ho as (Hnk & Hid & ->). split; [split; [|done]|].
    + constructor; [done| |done]. intros y i. cbn [fst snd]. cbn. rewrite lookup_insert_Some.
      intros [[_ <-]|[_ Hi]]; cbn.
      * rewrite Hk. split; [|rewrite Hv; eauto]. by rewrite <- Hpin, <- Ht.
      * rewrite Hl in Hi. destruct (Hp _ _ Hi) as (Hp1 & t & Hp2 & Hp3). rewrite Hv. split; [|eauto].
        by rewrite <- Hp1, <- Ht.
    + split_and!; [|done|..].
      * eexists. cbn. rewrite lookup_insert_eq. split; [done|]. by constructor.
      * intros y Hy. cbn. rewrite lookup_insert_ne by done. by rewrite Hl.
      * unfold allowed_for. cbn. by rewrite lookup_insert_eq.
  - destruct Ho as [-> _]. split; [split; [|done]|done]. constructor; [done| |done].
    apply (rows_kept d); [done|cbn; by rewrite Hl|done].
Qed.
Definition gain (id : string) (n : nat) (B : budget) : budget := λ x, if String.eqb x id then (B x + n)%nat else B x.
Lemma does_claim k tv pool args refs summary lease inst B :
  ik_ToolVersionDigest k = gv_Digest tv →
  does (tx (insert_invocation k tv pool args refs summary lease inst)) (pinned_as (ik_AttemptID k) tv) B
    (λ r s B', match r with
               | inr (Some id) => (send_limit (gv_EffectClass tv) ≤ B' id)%nat ∧ row_at id tv args refs s
               | _ => True end).
Proof.
  intros Hk.
  assert (∀ now b, does (atomically (tx_do (insert_invocation k tv pool args refs summary lease inst now) b))
     (pinned_as (ik_AttemptID k) tv) B
     (λ r s B', match r with
               | inr (Some id) => (send_limit (gv_EffectClass tv) ≤ B' id)%nat ∧ row_at id tv args refs s
               | _ => True end)) as Hdo.
  { intros now b. apply rg_atomically.
    - intros [d x] Hs HK. unfold tx_do, run_tx. cbn [fst snd].
      destruct (insert_invocation k tv pool args refs summary lease inst now d) as [e|[o d']] eqn:E; cbn [fst snd].
      + split; [split; [done|apply history_refl]|]. exists B. split; [intros id; lia|]. by destruct b.
      + destruct (insert_ledgered _ _ _ _ _ _ _ _ _ _ _ _ _ Hk Hs HK E) as [[Hs' HT] Ho]. split; [done|].
        assert (∀ id, (allowed_for id (d, x) ≤ allowed_for id (d', x))%nat) as Hmono by (intros id; by apply allowed_mono, HT).
        assert (pays sent_for allowed_for (d, x) (d', x) B B) as Hpay by apply pays_evolves, HT.
        destruct b; [by exists B|]. destruct o as [id|]; [|by exists B].
        destruct Ho as (Hrow & Hnone & Hrest & Hlim). exists (gain id (send_limit (gv_EffectClass tv)) B). split.
        * intros y. change (sent_for y (d', x)) with (sent_for y (d, x)). unfold gain.
          destruct (String.eqb_spec y id) as [->|Hne]; [|specialize (Hmono y); lia].
          rewrite Hlim. unfold allowed_for at 1. cbn [fst]. rewrite Hnone. lia.
        * unfold gain. rewrite String.eqb_refl. split; [lia|done].
    - intros [e|[id|]] B' s s' Hs Hs' HT; [done| |done]. intros [Hb Hr]. split; [done|].
      exact (durable_row_at _ _ _ _ s s' Hs Hs' HT Hr). }
  intros [] now; [apply Hdo|by intros s|apply Hdo].
Qed.
Lemma find_key_settled k i s d' now :
  ledgered s → get_invocation_by_key k now s.1 = inr (i, d') → settled i s.
Proof.
  intros Hs H _. unfold get_invocation_by_key in H. inv_tx.
  match goal with H : find_key _ _ = Some _ |- _ => apply find_key_Some in H as (_ & id & Hi) end.
  by rewrite (iw_id _ _ (wf_rows _ (proj1 (lg_inv _ Hs)) _ _ Hi)).
Qed.
(** What [BeginInvocation] returns: a row of the caller's own with its budget, or the row
    of an earlier call. *)
Definition begun (tv : ToolVersion) (args : RawMessage) (refs : json) (r : GwErr + (Invocation * bool))
    (s : Gw Mem) (B : budget) : Prop :=
  match r with
  | inl _ => True
  | inr (inv, true) => (send_limit (gv_EffectClass tv) ≤ B (gi_ID inv))%nat ∧ row_at (gi_ID inv) tv args refs s
  | inr (inv, false) => settled inv s
  end.
Lemma does_begin k tv pool args refs summary lease inst B :
  ik_ToolVersionDigest k = gv_Digest tv →
  does (BeginInvocation k tv pool args refs summary lease inst) (pinned_as (ik_AttemptID k) tv) B (begun tv args refs).
Proof.
  intros Hk. unfold BeginInvocation, ebind. eapply rg_bind; [by apply does_claim|].
  intros [e|[id|]] B'; [by intros s| |].
  - apply (rg_pure _ _ _ _ _ (send_limit (gv_EffectClass tv) ≤ B' id)%nat (row_at id tv args refs)). intros HB.
    apply does_get; [apply durable_row_at|by intros e s|]. intros i <- s _ [_ Hs]. done.
  - apply (does_next _ _ _ _ (λ r s, match r with inl _ => True | inr i => settled i s end)).
    + apply does_read; [auto with gateway|by intros ?????| |done|].
      * intros [e|i]; [by intros ?????|apply durable_settled].
      * intros now s i d' Hs _ H. by eapply find_key_settled.
    + intros [e|i] s _; [done|]. done.
Qed.

(** * InvokeTool *)
Lemma retries_within inv tv : (retry_attempts cfg inv tv ≤ send_limit (gv_EffectClass tv))%nat.
Proof.
  unfold retry_attempts, send_limit, can_retry. destruct (String.eqb_spec (gv_EffectClass tv) EffectNonIdempotentWrite) as [->|_].
  - cbn. done.
  - destruct (_ || _); lia.
Qed.
Lemma does_authorized et ac ad res tv msg summary B :
  does (invoke_authorized cfg et ac ad res tv msg summary) (pinned_as (re_AttemptID res) tv) B (λ r s _, answered r s).
Proof.
  unfold invoke_authorized. intros now. eapply rg_bind; [by apply (does_begin (mkKey _ _ _ _ _ _))|].
  intros [e|[inv []]] B'; [by intros s| |].
  - apply rg_pure. intros HB.
    set (m := invoke_message inv tv msg).
    apply (rg_pre _ _ _ _ _ (requested m)).
    { intros s _ (i & Hi & [H1 H2 H3 H4]). exists i. split; [done|]. by constructor. }
    pose proof (durable_requested m) as HD.
    eapply does_then; [done|apply quiet_available|]. intros available _. destruct (negb available); [by apply does_failed|].
    eapply does_then; [done|apply quiet_credential_context|]. intros [e|cred] _; [by apply does_failed|].
    apply does_loop; [done|]. pose proof (retries_within inv tv). lia.
  - intros s _ Hs. by apply settled_answered.
Qed.
Definition pin_known (attempt name digest : string) (s : Gw Mem) : Prop :=
  pin_of (tool_pins (gw_wk s.1)) attempt name = Some digest.
Lemma durable_pin_known a n g : durable (pin_known a n g).
Proof. intros s s' _ _ [Hev _]. by apply pin_kept. Qed.
Lemma durable_true : durable (λ _, True). Proof. by intros ?????. Qed.
Lemma does_get_pin {C} attempt name (k : GwErr + string → proc (Gw Mem) Query C) B Φ :
  (∀ e, does (k (inl e)) (λ _, True) B Φ) → (∀ g, does (k (inr g)) (pin_known attempt name g) B Φ) →
  does (GetAttemptToolPin attempt name ≫= k) (λ _, True) B Φ.
Proof.
  intros He Hg. apply (does_next _ _ _ _ (λ r s, match r with inl _ => True | inr g => pin_known attempt name g s end)).
  - apply does_read; [auto with gateway|apply durable_true| |done|].
    + intros [e|g]; [apply durable_true|apply durable_pin_known].
    + intros now s g d' _ _ H. unfold get_pin in H. by inv_tx.
  - intros [e|g]; auto.
Qed.
Lemma does_get_version {C} attempt name digest (k : GwErr + ToolVersion → proc (Gw Mem) Query C) B Φ :
  (∀ e, does (k (inl e)) (pin_known attempt name digest) B Φ) → (∀ tv, does (k (inr tv)) (pinned_as attempt tv) B Φ) →
  does (GetToolVersion name digest ≫= k) (pin_known attempt name digest) B Φ.
Proof.
  intros He Hg.
  apply (does_next _ _ _ _ (λ r s, match r with inl _ => pin_known attempt name digest s | inr tv => pinned_as attempt tv s end)).
  - apply does_read; [auto with gateway|apply durable_pin_known| |done|].
    + intros [e|tv]; [apply durable_pin_known|apply durable_pinned_as].
    + intros now s tv d' Hs Hp H. unfold get_tool_version in H. inv_tx.
      match goal with H : tool_versions _ !! _ = Some _ |- _ =>
        pose proof (proj1 (wf_versions _ (proj1 (lg_inv _ Hs))) _ _ H) as Heq; injection Heq as -> -> end.
      by split.
  - intros [e|g]; auto.
Qed.
Lemma does_invoke sv nt et ac ad caller msg B :
  does (InvokeTool cfg sv nt et ac ad caller msg) (λ _, True) B (λ r s _, answered r s).
Proof.
  unfold InvokeTool. destruct caller as [id|]; [|by intros s]. destruct (bool_decide _); [by intros s|].
  eapply does_then; [apply durable_true|apply quiet_caller_scope|]. intros [e|res] _; [by intros s|].
  apply does_get_pin; [intros []; by intros s|]. intros g. destruct (_ && _); [by intros s|].
  apply does_get_version; [intros []; by intros s|]. intros tv.
  pose proof (durable_pinned_as (re_AttemptID res) tv) as HD.
  eapply does_then; [done|apply quiet_authorize|]. intros [e|u] _; [intros s _ _; by left|].
  destruct (negb (validateArguments _ _ _ _)); [intros s _ _; by left|].
  eapply does_then; [done|apply quiet_inputs|]. intros inputs _. destruct (negb inputs); [intros s _ _; by left|].
  eapply does_then; [done|apply quiet_policy|]. intros policy _. destruct (negb policy); [intros s _ _; by left|].
  apply rg_ask. intros order. cbv beta. case_match; [intros s _ _; by left|].
  apply does_authorized.
Qed.

(** * Threads *)
Inductive gateway_thread : GwP () → Prop :=
| th_invoke sv nt et ac ad caller msg : gateway_thread (InvokeTool cfg sv nt et ac ad caller msg ≫= λ _, mret ())
| th_discover caller a t g : gateway_thread (DiscoverTools caller a t g ≫= λ _, mret ())
| th_cancel caller id reason g : gateway_thread (CancelInvocation caller id reason g ≫= λ _, mret ())
| th_runner caller l : gateway_thread (RegisterRunner cfg caller l ≫= λ _, mret ())
| th_reconciler n : gateway_thread (StartReconciler n)
| th_admin {A} (p : proc (Gw Mem) Query (GwErr + A)) : admin_op p → gateway_thread (p ≫= λ _, mret ()).
Lemma thread_runs t s : gateway_thread t → runs (Q := Query) ledgered history sent_for allowed_for s t (λ _, 0%nat).
Proof.
  intros Ht. exists (λ _, True), (λ _ _ _, True). split; [apply durable_true|]. split; [done|].
  assert (∀ p : GwP (), quiet p (λ _, True) → does p (λ _, True) (λ _, 0%nat) (λ _ _ _, True)) as Hq.
  { intros p Hp. eapply rg_post; [|by eapply does_quiet; [apply durable_true|]]. done. }
  destruct Ht.
  - eapply rg_bind; [apply does_invoke|]. by intros r B' s0.
  - apply Hq, safe_then; [apply quiet_discover|done].
  - apply Hq, safe_then; [apply quiet_cancel|done].
  - apply Hq, safe_then; [apply quiet_register_runner|done].
  - apply Hq, quiet_reconciler.
  - apply Hq, safe_then; [by apply quiet_admin|done].
Qed.
Lemma total_zero n id : total (replicate n (λ _, 0%nat)) id = 0%nat.
Proof. unfold total. induction n; cbn; done. Qed.
Lemma threads_run ts s ts' s' :
  Forall gateway_thread ts → ledgered s → effects s = [] → tsteps ts s ts' s' →
  ledgered s' ∧ history s s' ∧ ∀ id, (sent_for id s' ≤ allowed_for id s')%nat.
Proof.
  intros Hts Hs He Hst.
  destruct (rg_tsteps ledgered history sent_for allowed_for ts s ts' s' (replicate (length ts) (λ _, 0%nat)))
    as (Hi & HT & Bs & Hw); [apply history_refl|apply history_trans| |done| |done|].
  - apply Forall2_same_length_lookup_2; [by rewrite length_replicate|]. intros i t B Ht HB.
    apply lookup_replicate in HB as [-> _]. apply thread_runs. rewrite Forall_lookup in Hts. eauto.
  - intros id. unfold sent_for. rewrite He. cbn [filter length]. rewrite total_zero. cbn. lia.
  - split; [done|]. split; [done|]. intros id. specialize (Hw id). lia.
Qed.
End counting.

(** * The promises *)

(** How often an effect was sent for an invocation key, as the rows of the messages say. *)
Definition sends_for (k : InvocationKey) (s : Gw Mem) : nat :=
  length (filter (λ m, key_of <$> ledger s.1 !! io_InvocationID m = Some k) (effects s)).
Lemma filter_length_le {A} (P Q : A → Prop) `{!∀ x : A, Decision (P x), !∀ x : A, Decision (Q x)} (l : list A) :
  (∀ x, x ∈ l → P x → Q x) → (length (filter P l) ≤ length (filter Q l))%nat.
Proof.
  induction l as [|x l IH]; intros HPQ; [done|]. rewrite !filter_cons.
  assert (length (filter P l) ≤ length (filter Q l))%nat by (apply IH; intros y Hy; apply HPQ; by right).
  destruct (decide (P x)) as [HP|_]; [rewrite decide_True by (apply HPQ; [by left|done]); cbn; lia|].
  case_decide; cbn; lia.
Qed.
Lemma sends_for_id s k id i :
  gateway_wf s.1 → ledger s.1 !! id = Some i → key_of i = k → (sends_for k s ≤ sent_for id s)%nat.
Proof.
  intros Hw Hi Hk. apply filter_length_le. intros m _ (j & Hj & Hjk)%fmap_Some.
  apply (wf_keys _ Hw _ _ _ _ Hj Hi). congruence.
Qed.
Lemma sends_for_some s m i : m ∈ effects s → ledger s.1 !! io_InvocationID m = Some i → (1 ≤ sends_for (key_of i) s)%nat.
Proof.
  intros Hm Hi. unfold sends_for. assert (m ∈ filter (λ m, key_of <$> ledger s.1 !! io_InvocationID m = Some (key_of i)) (effects s)) as Hf.
  { apply list_elem_of_filter. by rewrite Hi. }
  destruct (filter _ _); [by apply elem_of_nil in Hf|cbn; lia].
Qed.
Lemma ledger_find_key d id i : gateway_wf d → ledger d !! id = Some i → find_key d (key_of i) = Some i.
Proof.
  intros Hw Hi. destruct (find_key d (key_of i)) as [j|] eqn:Hk.
  - apply find_key_Some in Hk as (Hj & id' & Hid). rewrite (wf_keys _ Hw _ _ _ _ Hid Hi Hj) in Hid. congruence.
  - rewrite find_key_None in Hk. by destruct (Hk _ _ Hi).
Qed.

(** C6. Effects are ledgered first and happen at most once. Start the gateway on any database
    with nothing sent to a runner yet; let whatever requests, replays, retries,
    cancellations, runner streams, recovery sweeps and administrative writes run
    concurrently, whatever statements fail before or after taking effect and whichever
    sends are lost (a send counts as made once it was tried). At every moment each call a
    runner was told to execute has a committed ledger row, the only row of its invocation
    key; all the messages for that key together are at most [RetryMaxAttempts], and the
    message is the only one for its key when the tool is a non-idempotent write. *)
Theorem effect_at_most_once cfg ts s ts' s' m :
  Forall (gateway_thread cfg) ts → ledgered s → effects s = [] → tsteps ts s ts' s' → m ∈ effects s' →
  ∃ i, ledger s'.1 !! io_InvocationID m = Some i ∧ find_key s'.1 (key_of i) = Some i ∧
    Z.of_nat (sends_for (key_of i) s') ≤ Z.max 1 (cfg_RetryMaxAttempts cfg) ∧
    (gi_EffectClass i = EffectNonIdempotentWrite → sends_for (key_of i) s' = 1%nat).
Proof.
  intros Hts Hs He Hst Hm. destruct (threads_run cfg ts s ts' s' Hts Hs He Hst) as ([[Hw _] _ Hef] & _ & Hle).
  destruct (Hef m Hm) as (i & Hi & _). exists i. split; [done|]. split; [by eapply ledger_find_key|].
  pose proof (sends_for_id s' _ _ i Hw Hi eq_refl) as Hb. pose proof (sends_for_some s' m i Hm Hi) as Hp.
  specialize (Hle (io_InvocationID m)). unfold allowed_for in Hle. rewrite Hi in Hle. unfold send_limit in Hle.
  destruct (String.eqb_spec (gi_EffectClass i) EffectNonIdempotentWrite) as [->|Hne]; split; try lia; done.
Qed.
(** C7. No tool is substituted: every effect a runner was told to execute names the tool,
    arguments and artifact inputs of a ledger row, the version the row's attempt pinned,
    and that version's published effect class. *)
Theorem effect_is_the_ledgered_call cfg ts s ts' s' m :
  Forall (gateway_thread cfg) ts → ledgered s → effects s = [] → tsteps ts s ts' s' → m ∈ effects s' →
  ∃ i tv, ledger s'.1 !! io_InvocationID m = Some i ∧ matches m i ∧
    pin_of (tool_pins (gw_wk s'.1)) (gi_AttemptID i) (io_Tool m) = Some (io_Digest m) ∧
    tool_versions s'.1 !! (io_Tool m, io_Digest m) = Some tv ∧ gv_EffectClass tv = gi_EffectClass i.
Proof.
  intros Hts Hs He Hst Hm. destruct (threads_run cfg ts s ts' s' Hts Hs He Hst) as ([_ Hp Hef] & _ & _).
  destruct (Hef m Hm) as (i & Hi & Hmt). destruct (Hp _ _ Hi) as (Hpin & tv & Htv & Hc).
  exists i, tv. destruct Hmt as [H1 H2 H3 H4]. rewrite H1, H2. split_and!; try done; by constructor.
Qed.
(** C8. No terminal answer without its commit: when [InvokeTool] answers with an invocation
    that is not in progress, its ledger row is terminal in that state, and a success is
    exactly what every later replay of the call returns. *)
Theorem terminal_answer_is_committed cfg sv nt et ac ad caller msg s rsp s' :
  ledgered s →
  psteps (rely ledgered history) (InvokeTool cfg sv nt et ac ad caller msg) s (Ret (inr rsp)) s' →
  rs_InvocationID rsp ≠ EmptyString → rs_State rsp ≠ INVOKE_STATE_IN_PROGRESS →
  ∃ i, ledger s'.1 !! rs_InvocationID rsp = Some i ∧ IsTerminal (gi_State i) = true ∧
    rs_State rsp = invocationStateToProto (gi_State i) ∧
    (gi_State i = InvocationSucceeded → rsp = invocationToResponse i).
Proof.
  intros Hs Hst Hid Hp.
  destruct (rg_psteps ledgered history sent_for (allowed_for cfg) _ s _ s' (λ _, True) (λ _, 0%nat) _
    durable_true Hs I (does_invoke cfg sv nt et ac ad caller msg _) Hst) as (_ & B' & [?|[?|Hc]]); done.
Qed.
