(* ===== verification/GatewayPolicy.v ===== *)
(** Who may do what at the gateway: fenced workers, the caller's capabilities and grants,
    what operators declare, and what the recovery sweep decides. *)
From S2P Require Import Prelude Json Runtime Workflow WorkerPool WorkData Dispatch DispatchFacts Spiffe Proc Consequence GatewayStore GatewayFacts GatewayService ProcLogic.
#[local] Open Scope gw_scope.

(** * Fencing *)

(** No active assignment authorizes worker [w] at generation [g] for the turn, ever. *)
Definition fenced_out (turn w : string) (g : Z) (s : Gw Mem) : Prop :=
  ∃ a, turn_assignments (gw_dp s.1) !! turn = Some a ∧
       (as_State a ≠ AssignmentActive ∨ as_WorkerID a ≠ w ∨ as_FencingGeneration a ≠ g).
(** The dispatch component takes any steps, everything else in the state may change. *)
Definition dispatch_moves (s s' : Gw Mem) : Prop := steps (gw_dp s.1) (gw_dp s'.1).
Lemma fenced_out_stays turn w g s s' : dispatch_moves s s' → fenced_out turn w g s → fenced_out turn w g s'.
Proof.
  intros [ls Hst] (a & Ha & Hn). destruct (trace_assignments _ _ _ Hst _ _ Ha) as (a' & Ha' & Hm).
  exists a'. split; [done|]. destruct (asg_moves_same _ _ Hm) as (_ & _ & _ & -> & ->).
  destruct Hn as [Hn|Hn]; [left; intros Hact; apply Hn; by eapply asg_moves_active|by right].
Qed.
Section fenced.
Context (turn w : string) (g : Z).
Abbreviation refused := (safe (Q := Query) (fenced_out turn w g) (λ s s', s' = s)).
Lemma refused_read {A} (m : timestamp → GwTx A) (Ψ : GwErr + A → Prop) :
  (∀ now, reads (m now)) → (∀ e, Ψ (inl e)) →
  (∀ now s a d', fenced_out turn w g s → m now s.1 = inr (a, d') → Ψ (inr a)) → refused (tx m) Ψ.
Proof.
  intros Hr He Ha.
  assert (∀ now b, refused (atomically (tx_do (m now) b)) Ψ) as Hdo.
  { intros now b. apply safe_atomically. intros [d x] Hs. unfold tx_do, run_tx. cbn [fst snd].
    destruct (m now d) as [e|[a d']] eqn:E; cbn [fst snd]; [by destruct b|].
    pose proof (Hr _ _ _ _ E) as ->. split; [done|]. destruct b; [done|]. exact (Ha now (d, x) a d Hs E). }
  intros [] now; [apply Hdo|apply He|apply Hdo].
Qed.
Lemma refused_read_any {A} (m : timestamp → GwTx A) : (∀ now, reads (m now)) → refused (tx m) (λ _, True).
Proof. intros Hr. by apply refused_read. Qed.
Lemma refused_turn_scope pool attempt :
  refused (ResolveTurnScope pool attempt turn w g) (λ r, ∃ e, r = inl e).
Proof.
  apply safe_then; [apply refused_read_any; auto with gateway|]. intros [e|run]; [by exists e|].
  eapply (safe_bind _ _ _ _ (λ r, match r with
     | inr a => String.eqb (as_WorkerID a) w && (as_FencingGeneration a =? g) = false | inl _ => True end)).
  - apply refused_read; [auto with gateway|done|]. intros now s a d' (b & Hb & Hn) H.
    unfold scoped_assignment in H. inv_tx.
    match goal with H : active_row _ _ = Some _ |- _ => apply active_row_Some in H as [Ha Hact] end.
    assert (b = a) as -> by congruence. destruct Hn as [Hn|[Hn|Hn]]; [done| |].
    + apply String.eqb_neq in Hn. by rewrite Hn.
    + apply Z.eqb_neq in Hn. by rewrite Hn, andb_false_r.
  - intros [e|a] Hr; [by exists e|]. rewrite Hr. by eexists.
Qed.
Lemma refused_scope id attempt :
  id_Kind id = KindSupervisor → id_WorkerID id = w →
  refused (resolveCallerScope id attempt turn g) (λ r, ∃ e, r = inl e).
Proof.
  intros Hk Hw. unfold resolveCallerScope. rewrite Hk, Hw.
  apply safe_then; [apply safe_then; [apply refused_read_any; auto with gateway|by intro]|].
  intros [e|[e|p]]; [by eexists|by eexists|]. apply refused_turn_scope.
Qed.
End fenced.
(** A fenced worker is refused: once a turn's assignment is fenced, finished, or bound to
    another worker or generation, a supervisor that presents the old worker and generation
    is answered with an error by [InvokeTool] and [DiscoverTools], whatever the dispatch
    component does meanwhile, and its request leaves no trace in the database or in any
    runner's stream. *)
Theorem fenced_worker_is_refused cfg sv nt et ac ad id msg s s' :
  id_Kind id = KindSupervisor →
  fenced_out (rq_CallerScopeID msg) (id_WorkerID id) (rq_FencingGeneration msg) s →
  (∀ r, psteps dispatch_moves (InvokeTool cfg sv nt et ac ad (Some id) msg) s (Ret r) s' →
     (∃ c, r = inl c) ∧ rtc dispatch_moves s s') ∧
  (∀ r, psteps dispatch_moves
          (DiscoverTools (Some id) (rq_AttemptID msg) (rq_CallerScopeID msg) (rq_FencingGeneration msg)) s (Ret r) s' →
     (∃ c, r = inl c) ∧ rtc dispatch_moves s s').
Proof.
  intros Hk Hf.
  pose proof (fenced_out_stays (rq_CallerScopeID msg) (id_WorkerID id) (rq_FencingGeneration msg)) as Hst.
  split; intros r Hr;
    (eapply (safe_reads _ dispatch_moves _ (λ r, ∃ c, r = inl c)) in Hr; [exact Hr|apply Hst| |exact Hf]);
    [unfold InvokeTool|unfold DiscoverTools]; (rewrite bool_decide_false by (by rewrite Hk));
    (eapply safe_bind; [by apply refused_scope|]); intros x [e ->]; by eexists.
Qed.

(** * Discovery and invocation agree *)
Lemma insert_version_elem x y l : x ∈ insert_version y l ↔ x = y ∨ x ∈ l.
Proof.
  induction l as [|z l IH]; cbn; [set_solver|]. case_match; [set_solver|].
  rewrite !elem_of_cons, IH. tauto.
Qed.
Lemma sort_versions_elem x l : x ∈ foldr insert_version [] l ↔ x ∈ l.
Proof. induction l as [|y l IH]; cbn; [done|]. rewrite insert_version_elem, IH, elem_of_cons. tauto. Qed.
Lemma pin_of_elem p a t g : pin_of p a t = Some g → (a, t, g) ∈ p.
Proof.
  unfold pin_of. rewrite fmap_Some. intros ([[a' t'] g'] & Hf & ->). apply find_some in Hf as [Hin Heq].
  cbn in *. apply andb_prop in Heq as [->%String.eqb_eq ->%String.eqb_eq]. by apply list_elem_of_In.
Qed.
Lemma capability_by_tool_app l c tool :
  capability_by_tool (l ++ [c]) tool = if String.eqb (cp_Tool c) tool then Some c else capability_by_tool l tool.
Proof. unfold capability_by_tool. by rewrite foldl_app. Qed.
Lemma capability_by_tool_None l tool : capability_by_tool l tool = None ↔ tool ∉ cp_Tool <$> l.
Proof.
  induction l as [|c l IH] using rev_ind; [set_solver|]. rewrite capability_by_tool_app, fmap_app.
  destruct (String.eqb_spec (cp_Tool c) tool) as [<-|Hne]; [set_solver|]. rewrite IH. set_solver.
Qed.
Lemma capability_by_tool_Some l c tool : capability_by_tool l tool = Some c → c ∈ l ∧ cp_Tool c = tool.
Proof.
  induction l as [|x l IH] using rev_ind; [done|]. rewrite capability_by_tool_app.
  destruct (String.eqb_spec (cp_Tool x) tool) as [<-|Hne]; [intros [= ->]; set_solver|].
  intros [??]%IH. set_solver.
Qed.
(** The first entry decides at invocation, the last one in discovery. *)
Lemma first_is_last l c tool :
  NoDup (cp_Tool <$> l) → c ∈ l → cp_Tool c = tool → capability_by_tool l tool = Some c.
Proof.
  intros Hnd Hin Ht. destruct (capability_by_tool l tool) as [c'|] eqn:E.
  - apply capability_by_tool_Some in E as [Hin' Ht']. f_equal.
    apply list_elem_of_lookup in Hin as [i Hi]. apply list_elem_of_lookup in Hin' as [j Hj].
    assert (i = j) as ->; [|congruence].
    eapply (NoDup_lookup _ _ _ tool Hnd); rewrite list_lookup_fmap; [rewrite Hi|rewrite Hj]; cbn; congruence.
  - apply capability_by_tool_None in E. destruct E. apply list_elem_of_fmap. eauto.
Qed.
Lemma authorize_capabilities_spec l tv :
  NoDup (cp_Tool <$> l) →
  authorize_capabilities l tv = inr () ↔ capability_admits (Some l) tv = true.
Proof.
  intros Hnd. cbn. induction l as [|c l IH]; [done|]. cbn [authorize_capabilities].
  rewrite fmap_cons in Hnd. apply NoDup_cons in Hnd as [Hc Hnd].
  destruct (String.eqb_spec (cp_Tool c) (gv_Name tv)) as [Heq|Hne]; cbn [negb].
  - assert (capability_by_tool (c :: l) (gv_Name tv) = Some c) as ->.
    { apply first_is_last; [|by left|done]. rewrite fmap_cons. by apply NoDup_cons. }
    destruct (exceeds_ceiling _ _); [by cbn|]. by destruct (capabilityAllowsAction c tv).
  - rewrite IH by done. assert (capability_by_tool (c :: l) (gv_Name tv) = capability_by_tool l (gv_Name tv)) as ->; [|done].
    destruct (capability_by_tool l (gv_Name tv)) as [c'|] eqn:E.
    + apply capability_by_tool_Some in E as [Hin Ht]. apply first_is_last; [|by right|done].
      rewrite fmap_cons. by apply NoDup_cons.
    + apply capability_by_tool_None in E. apply capability_by_tool_None. rewrite fmap_cons. set_solver.
Qed.
Lemma ranks_agree a b :
  a ∈ effect_classes → b ∈ effect_classes → (effectRank b <? effectRank a) = negb (effect_rank_sql a <=? effect_rank_sql b).
Proof.
  unfold effect_classes. rewrite !elem_of_cons, !elem_of_nil. by intros [->|[->|[->|[]]]] [->|[->|[->|[]]]].
Qed.
Definition grant_lists (actions : list string) (tv : ToolVersion) : bool :=
  bool_decide (actions = []) || action_listed actions (actionForTool tv).
Lemma grant_admits_spec ceiling actions tv :
  gv_EffectClass tv ∈ effect_classes → ceiling ∈ effect_classes →
  grant_admits (ceiling, actions) tv = inr () ↔
  (effect_rank_sql (gv_EffectClass tv) <=? effect_rank_sql ceiling) = true ∧ grant_lists actions tv = true.
Proof.
  intros Hc Hg. cbn. rewrite ranks_agree by done. unfold grant_lists.
  destruct (_ <=? _); cbn; [|naive_solver]. destruct actions as [|a l]; [by cbn|].
  rewrite bool_decide_false by done. cbn [orb]. destruct (action_listed _ _); naive_solver.
Qed.
Definition permits (permitted : option (list Capability)) : Prop :=
  match permitted with None => True | Some l => NoDup (cp_Tool <$> l) end.

(** What discovery shows and what invocation allows agree: for a version the attempt
    pinned, the capability and grant checks of [InvokeTool] pass exactly when
    [DiscoverTools] lists the version and the pool's grant names its action (or none).
    So every tool a caller may invoke is one it can discover, and the checks differ in
    nothing but the grant's action list. *)
Theorem invocable_iff_discoverable d now attemptID poolID permitted tv ceiling actions :
  pin_of (tool_pins (gw_wk d)) attemptID (gv_Name tv) = Some (gv_Digest tv) →
  tool_versions d !! (gv_Name tv, gv_Digest tv) = Some tv →
  gv_EffectClass tv ∈ effect_classes → permits permitted →
  get_grant poolID (gv_Name tv) now d = inr ((ceiling, actions), d) → ceiling ∈ effect_classes →
  ∃ l, discover attemptID poolID permitted now d = inr (l, d) ∧
    (authorizeWorkflowCapability permitted tv = inr () ∧ grant_admits (ceiling, actions) tv = inr () ↔
     tv ∈ l ∧ grant_lists actions tv = true).
Proof.
  intros Hpin Htv Hc Hp Hg Hce. unfold discover. eexists. split; [reflexivity|].
  rewrite list_elem_of_filter, sort_versions_elem, list_elem_of_filter.
  assert (tv ∈ pinned_versions d attemptID) as Hin.
  { apply list_elem_of_omap. exists (attemptID, gv_Name tv, gv_Digest tv). split; [by apply pin_of_elem|].
    cbn. by rewrite String.eqb_refl. }
  assert (within_grant d poolID tv = (effect_rank_sql (gv_EffectClass tv) <=? effect_rank_sql ceiling)) as Hw.
  { unfold get_grant in Hg. inv_tx. unfold within_grant.
    match goal with H : live_grant _ _ _ = Some _ |- _ => rewrite H end. naive_solver. }
  assert (authorizeWorkflowCapability permitted tv = inr () ↔ capability_admits permitted tv = true) as ->.
  { destruct permitted as [l|]; [by apply authorize_capabilities_spec|done]. }
  rewrite (grant_admits_spec ceiling actions tv Hc Hce), Hw. tauto.
Qed.

(** * What operators declare *)
Lemma unmarshal_strings_fmap l : unmarshal_strings (JStr <$> l) = Some l.
Proof. induction l as [|s l IH]; [done|]. cbn in *. by rewrite IH. Qed.
Lemma capability_round_trip c : unmarshal_capability (capability_doc c) = Some c.
Proof.
  destruct c as [t e [|a l]]; [done|]. unfold unmarshal_capability, capability_doc. cbn [cp_Tool cp_MaxEffectClass cp_Actions app].
  set (doc := [_; _; _]).
  assert (string_field "tool" doc = Some t) as -> by reflexivity.
  assert (string_field "maxEffectClass" doc = Some e) as -> by reflexivity.
  assert (strings_field "actions" doc = unmarshal_strings (JStr <$> a :: l)) as -> by reflexivity.
  by rewrite unmarshal_strings_fmap.
Qed.
Lemma capabilities_round_trip l : mapM unmarshal_capability (capability_doc <$> l) = Some l.
Proof.
  induction l as [|c l IH]; [done|]. rewrite fmap_cons. cbn [mapM]. by rewrite capability_round_trip, IH.
Qed.
(** A workflow's capability request survives storage: after a pool binding is written,
    reading it back gives the same pool and exactly the capabilities given, actions and
    ceilings included; an empty request stays an empty one (which permits nothing) and
    does not become the absent one (which permits everything). *)
Theorem pool_binding_round_trip key poolID permitted now now' d u d' :
  upsert_pool_binding key poolID permitted now d = inr (u, d') →
  get_pool_binding key now' d' = inr ((poolID, Some permitted), d').
Proof.
  intros H. unfold upsert_pool_binding in H. inv_tx. unfold get_pool_binding.
  unfold tx_get, mbind, tx_bind, tx_opt. cbn [workflow_pool_bindings set_pool_bindings].
  rewrite lookup_insert_eq. cbn [mbind option_bind wb_PermittedTools unmarshal_capabilities]. cbn.
  by rewrite capabilities_round_trip.
Qed.

(** The last entry for a key of a list of inputs. *)
Definition last_for {A} (P : A → bool) (l : list A) : option A := foldl (λ acc x, if P x then Some x else acc) None l.
Lemma last_for_app {A} (P : A → bool) l x : last_for P (l ++ [x]) = if P x then Some x else last_for P l.
Proof. unfold last_for. by rewrite foldl_app. Qed.

Lemma tx_iter_app {S E A} (f : A → Tx S E ()) l1 l2 s u s' :
  tx_iter f (l1 ++ l2) s = inr (u, s') → ∃ s1, tx_iter f l1 s = inr ((), s1) ∧ tx_iter f l2 s1 = inr ((), s').
Proof.
  revert s. induction l1 as [|a l IH]; intros s H; cbn in *.
  - exists s. split; [done|]. by destruct u.
  - inv_tx. match goal with H : f a s = inr (?v, ?y) |- _ => destruct v; rename H into Hf end.
    destruct (IH _ H) as (s1 & H1 & H2). exists s1. split; [|done].
    unfold mbind, tx_bind. by rewrite Hf.
Qed.
Lemma tx_iter_one {S E A} (f : A → Tx S E ()) x s u s' : tx_iter f [x] s = inr (u, s') → f x s = inr ((), s').
Proof. cbn. intros H. inv_tx. by repeat match goal with v : unit |- _ => destruct v end. Qed.

Definition declared_grant (g : PoolGrantInput) : PoolGrant := grant_row (pgi_MaxEffect g) (json_strings (pgi_AllowedActions g)).
Lemma put_grants_lookup poolID l d u d' q tool :
  tx_iter (put_grant poolID) l d = inr (u, d') →
  pool_grants d' !! (q, tool) =
    if bool_decide (q = poolID)
    then match last_for (λ g, String.eqb (pgi_ToolName g) tool) l with
         | Some g => Some (declared_grant g)
         | None => pool_grants d !! (q, tool)
         end
    else pool_grants d !! (q, tool).
Proof.
  revert d' u. induction l as [|g l IH] using rev_ind; intros d' u H.
  - cbn in H. inv_tx. cbn. by destruct (bool_decide _).
  - apply tx_iter_app in H as (d1 & H1 & H2%tx_iter_one). specialize (IH _ _ H1). rewrite last_for_app.
    unfold put_grant, upsert_grant in H2. inv_tx. cbn [pool_grants set_grants].
    destruct (bool_decide_reflect (q = poolID)) as [->|Hne].
    + destruct (String.eqb_spec (pgi_ToolName g) tool) as [<-|Hne]; [by rewrite lookup_insert_eq|].
      rewrite lookup_insert_ne by congruence. done.
    + by rewrite lookup_insert_ne by congruence.
Qed.
Definition declared_binding (b : CredentialBindingInput) : option CredentialBinding :=
  match cbi_SecretSpec b, cbi_ResourceConstraints b with
  | BadJSON _, _ | _, BadJSON _ => None
  | s, c => Some (mkBinding (cbi_SlotName b) (cbi_Scheme b)
                    (match s with GoodJSON v => v | _ => JObj [] end) (match c with GoodJSON v => v | _ => JObj [] end) None)
  end.
Definition binds_slot (tool slot : string) (b : CredentialBindingInput) : bool :=
  String.eqb (cbi_ToolName b) tool && String.eqb (cbi_SlotName b) slot.
Lemma put_binding_inr poolID b d u d' :
  put_binding poolID b d = inr (u, d') →
  ∃ row, declared_binding b = Some row ∧
    d' = set_credentials (<[(poolID, cbi_ToolName b, cbi_SlotName b) := row]> (credential_bindings d)) d.
Proof.
  intros H. unfold put_binding, upsert_binding in H. inv_tx. unfold declared_binding.
  destruct (cbi_SecretSpec b), (cbi_ResourceConstraints b);
    unfold bytes_or, mret, tx_ret, tx_fail in *; simplify_eq; eexists; (split; [reflexivity|done]).
Qed.
Lemma put_bindings_lookup poolID l d u d' q tool slot :
  tx_iter (put_binding poolID) l d = inr (u, d') →
  credential_bindings d' !! (q, tool, slot) =
    if bool_decide (q = poolID)
    then match last_for (binds_slot tool slot) l with
         | Some b => declared_binding b
         | None => credential_bindings d !! (q, tool, slot)
         end
    else credential_bindings d !! (q, tool, slot).
Proof.
  revert d' u. induction l as [|b l IH] using rev_ind; intros d' u H.
  - cbn in H. inv_tx. cbn. by destruct (bool_decide _).
  - apply tx_iter_app in H as (d1 & H1 & H2%tx_iter_one). specialize (IH _ _ H1). rewrite last_for_app.
    apply put_binding_inr in H2 as (row & Hrow & ->). cbn [credential_bindings set_credentials].
    destruct (bool_decide_reflect (q = poolID)) as [->|Hne]; [|by rewrite lookup_insert_ne by congruence].
    unfold binds_slot at 1. destruct (String.eqb_spec (cbi_ToolName b) tool) as [<-|Ht]; cbn [andb].
    + destruct (String.eqb_spec (cbi_SlotName b) slot) as [<-|Hs]; [by rewrite lookup_insert_eq|].
      by rewrite lookup_insert_ne by congruence.
    + by rewrite lookup_insert_ne by congruence.
Qed.
Definition live_binding (d : GatewayDB) (poolID tool slot : string) : option CredentialBinding :=
  b ← credential_bindings d !! (poolID, tool, slot); if live cb_DeletedAt b then Some b else None.
Lemma clear_grants_lookup poolID now d q tool :
  pool_grants (clear_grants poolID now d) !! (q, tool) =
  (λ g, if String.eqb q poolID && live gg_DeletedAt g then delete_grant now g else g) <$> pool_grants d !! (q, tool).
Proof. unfold clear_grants. cbn. rewrite map_lookup_imap. by destruct (pool_grants d !! (q, tool)). Qed.
Lemma clear_bindings_lookup poolID now d q tool slot :
  credential_bindings (clear_bindings poolID now d) !! (q, tool, slot) =
  (λ b, if String.eqb q poolID && live cb_DeletedAt b then delete_binding now b else b) <$> credential_bindings d !! (q, tool, slot).
Proof. unfold clear_bindings. cbn. rewrite map_lookup_imap. by destruct (credential_bindings d !! (q, tool, slot)). Qed.
Lemma grants_untouched_pool key name prefix d p d' :
  upsert_pool key name prefix d = inr (p, d') →
  gw_pools d' !! po_ID p = Some p ∧ po_Name p = name ∧ po_SpiffeIDPrefix p = prefix ∧ po_DeletedAt p = None ∧
  po_Key p = key ∧ pool_grants d' = pool_grants d ∧ credential_bindings d' = credential_bindings d.
Proof.
  intros H. unfold upsert_pool in H. inv_tx.
  match goal with H : gw_uuid d = inr (_, ?x) |- _ =>
    assert (pool_grants x = pool_grants d ∧ credential_bindings x = credential_bindings d ∧ gw_pools x = gw_pools d)
      as (Hg & Hb & Hp)
      by (unfold gw_uuid in H; destruct (gen_random_uuid _) as [?|[? ?]]; [done|by injection H as <- <-]) end.
  unfold gw_pools at 1. cbn [set_gpools set_dp gw_dp pools pool_grants credential_bindings]. rewrite lookup_insert_eq.
  split; [done|]. destruct (pool_by_key _ key) as [q|] eqn:Hq; cbn; split_and!; try done.
  unfold pool_by_key in Hq. apply head_Some_elem_of in Hq.
  assert (String.eqb (po_Key q) key = true) as Hk; [|by apply String.eqb_eq].
  revert Hq. unfold select, rows. rewrite list_elem_of_filter. by intros [? _].
Qed.
Lemma replace_grants_spec poolID grants now d u d' :
  replace_grants poolID grants now d = inr (u, d') →
  (∀ tool, live_grant d' poolID tool = declared_grant <$> last_for (λ g, String.eqb (pgi_ToolName g) tool) grants) ∧
  (∀ q tool, q ≠ poolID → pool_grants d' !! (q, tool) = pool_grants d !! (q, tool)) ∧
  gw_pools d' = gw_pools d ∧ credential_bindings d' = credential_bindings d.
Proof.
  intros H. unfold replace_grants in H. inv_tx. split_and!.
  - intros tool. unfold live_grant. rewrite (put_grants_lookup _ _ _ _ _ poolID tool H), bool_decide_true by done.
    destruct (last_for _ grants) as [g|]; [done|]. rewrite clear_grants_lookup, String.eqb_refl.
    destruct (pool_grants d !! _) as [g|]; [|done]. cbn. unfold live.
    by destruct (bool_decide_reflect (gg_DeletedAt g = None)); cbn; rewrite ?bool_decide_false.
  - intros q tool Hq. rewrite (put_grants_lookup _ _ _ _ _ q tool H), bool_decide_false by done.
    rewrite clear_grants_lookup. apply String.eqb_neq in Hq. rewrite Hq. by destruct (pool_grants d !! _).
  - eapply (tx_iter_preserves (λ a b, gw_pools b = gw_pools a)) in H; [exact H|done|congruence|].
    intros b x y v _ Hx. unfold put_grant, upsert_grant in Hx. by inv_tx.
  - eapply (tx_iter_preserves (λ a b, credential_bindings b = credential_bindings a)) in H; [exact H|done|congruence|].
    intros b x y v _ Hx. unfold put_grant, upsert_grant in Hx. by inv_tx.
Qed.
Lemma replace_bindings_spec poolID bindings now d u d' :
  replace_bindings poolID bindings now d = inr (u, d') →
  (∀ tool slot, live_binding d' poolID tool slot = last_for (binds_slot tool slot) bindings ≫= declared_binding) ∧
  (∀ q tool slot, q ≠ poolID → credential_bindings d' !! (q, tool, slot) = credential_bindings d !! (q, tool, slot)) ∧
  gw_pools d' = gw_pools d ∧ pool_grants d' = pool_grants d.
Proof.
  intros H. unfold replace_bindings in H. inv_tx. split_and!.
  - intros tool slot. unfold live_binding. rewrite (put_bindings_lookup _ _ _ _ _ poolID tool slot H), bool_decide_true by done.
    destruct (last_for _ bindings) as [b|].
    + cbn. unfold declared_binding. by destruct (cbi_SecretSpec b), (cbi_ResourceConstraints b).
    + rewrite clear_bindings_lookup, String.eqb_refl.
      destruct (credential_bindings d !! _) as [g|]; [|done]. cbn. unfold live.
      by destruct (bool_decide_reflect (cb_DeletedAt g = None)); cbn; rewrite ?bool_decide_false.
  - intros q tool slot Hq. rewrite (put_bindings_lookup _ _ _ _ _ q tool slot H), bool_decide_false by done.
    rewrite clear_bindings_lookup. apply String.eqb_neq in Hq. rewrite Hq. by destruct (credential_bindings d !! _).
  - eapply (tx_iter_preserves (λ a b, gw_pools b = gw_pools a)) in H; [exact H|done|congruence|].
    intros b x y v _ (row & _ & ->)%put_binding_inr. done.
  - eapply (tx_iter_preserves (λ a b, pool_grants b = pool_grants a)) in H; [exact H|done|congruence|].
    intros b x y v _ (row & _ & ->)%put_binding_inr. done.
Qed.
(** A pool is what its declaration says: after [MaterializePool] commits, the pool is live
    under the given name and prefix, a tool has a live grant exactly when the declaration
    lists it (the last entry counts), with that ceiling and action list, a credential slot
    is bound exactly when the declaration binds it, and no other pool's grants or bindings
    changed. *)
Theorem materialize_is_declarative key name prefix grants bindings now d u d' :
  materialize key name prefix grants bindings now d = inr (u, d') →
  ∃ p, gw_pools d' !! po_ID p = Some p ∧ po_Key p = key ∧ po_Name p = name ∧ po_SpiffeIDPrefix p = prefix ∧
    po_DeletedAt p = None ∧
    (∀ tool, live_grant d' (po_ID p) tool =
       declared_grant <$> last_for (λ g, String.eqb (pgi_ToolName g) tool) grants) ∧
    (∀ tool slot, live_binding d' (po_ID p) tool slot =
       last_for (binds_slot tool slot) bindings ≫= declared_binding) ∧
    (∀ q tool, q ≠ po_ID p → pool_grants d' !! (q, tool) = pool_grants d !! (q, tool)) ∧
    (∀ q tool slot, q ≠ po_ID p →
       credential_bindings d' !! (q, tool, slot) = credential_bindings d !! (q, tool, slot)).
Proof.
  intros H. unfold materialize in H. inv_tx.
  match goal with H : upsert_pool _ _ _ _ = inr (?p, ?d1) |- _ =>
    exists p; apply grants_untouched_pool in H as (P1 & P2 & P3 & P4 & P5 & P6 & P7) end.
  match goal with H : replace_grants _ _ _ _ = _ |- _ => apply replace_grants_spec in H as (G1 & G2 & G3 & G4) end.
  apply replace_bindings_spec in H as (B1 & B2 & B3 & B4). split_and!; try done.
  - by rewrite B3, G3.
  - intros tool. rewrite <- G1. unfold live_grant. by rewrite B4.
  - intros q tool Hq. by rewrite B4, G2, P6.
  - intros q tool slot Hq. by rewrite B2, G4, P7.
Qed.

(** * Approved runners *)
Definition approved_keyed (d : GatewayDB) : Prop := ∀ id a, approved_runners d !! id = Some a → ap_SpiffeID a = id.
Definition withdraw (now : timestamp) (a : ApprovedRunner) : ApprovedRunner :=
  mkApproved (ap_Namespace a) (ap_RunnerID a) (ap_SpiffeID a) (ap_AllowedToolNamespaces a) (ap_ManagedBy a) (Some now).
Definition configured_for (id : string) (l : list ApprovedRunner) : option ApprovedRunner :=
  last_for (λ a, String.eqb (ap_SpiffeID a) id) l.
Lemma configured_for_None id l : configured_for id l = None ↔ id ∉ ap_SpiffeID <$> l.
Proof.
  unfold configured_for. induction l as [|a l IH] using rev_ind; [set_solver|]. rewrite last_for_app, fmap_app.
  destruct (String.eqb_spec (ap_SpiffeID a) id) as [<-|Hne]; [set_solver|]. rewrite IH. set_solver.
Qed.
Lemma configured_for_Some id l a : configured_for id l = Some a → ap_SpiffeID a = id.
Proof.
  unfold configured_for. induction l as [|b l IH] using rev_ind; [done|]. rewrite last_for_app.
  destruct (String.eqb_spec (ap_SpiffeID b) id); [by intros [= <-]|done].
Qed.
Lemma put_statics_lookup l d u d' id :
  tx_iter put_static l d = inr (u, d') →
  approved_runners d' !! id =
    match configured_for id l with
    | Some a => Some (with_approval a ManagedByStaticConfig)
    | None => approved_runners d !! id
    end.
Proof.
  revert d' u. induction l as [|a l IH] using rev_ind; intros d' u H; [cbn in H; by inv_tx|].
  apply tx_iter_app in H as (d1 & H1 & H2%tx_iter_one). specialize (IH _ _ H1).
  unfold configured_for. rewrite last_for_app. unfold put_static in H2. inv_tx. cbn [approved_runners set_approved].
  destruct (String.eqb_spec (ap_SpiffeID a) id) as [<-|Hne]; [by rewrite lookup_insert_eq|].
  by rewrite lookup_insert_ne.
Qed.
Lemma reconcile_static_lookup configured now d u d' id :
  approved_keyed d → reconcile_static configured now d = inr (u, d') →
  approved_runners d' !! id =
    match configured_for id configured with
    | Some a => Some (with_approval a ManagedByStaticConfig)
    | None => (λ a, if bool_decide (ap_ManagedBy a = ManagedByStaticConfig) && live ap_DeletedAt a
                    then withdraw now a else a) <$> approved_runners d !! id
    end.
Proof.
  intros Hk H. unfold reconcile_static in H. inv_tx. cbn [approved_runners set_approved].
  unfold update_where. rewrite lookup_fmap.
  match goal with H : tx_iter _ _ _ = _ |- _ => rewrite (put_statics_lookup _ _ _ _ id H) end.
  destruct (configured_for id configured) as [a|] eqn:E.
  - cbn. rewrite (bool_decide_true (ap_SpiffeID a ∈ _)), andb_false_r; [done|].
    destruct (decide (ap_SpiffeID a ∈ ap_SpiffeID <$> configured)) as [|Hn]; [done|].
    apply configured_for_None in Hn. pose proof (configured_for_Some _ _ _ E). congruence.
  - destruct (approved_runners d !! id) as [a|] eqn:Ha; [|done]. cbn.
    apply configured_for_None in E. rewrite (Hk _ _ Ha), (bool_decide_false (id ∈ _)) by done. cbn [negb]. rewrite andb_true_r. unfold withdraw. by rewrite (Hk _ _ Ha).
Qed.
(** The approved runners follow the static configuration: after a reconciliation commits,
    every configured runner is approved as configured (the last entry counts), a runner
    the configuration no longer lists is withdrawn if the configuration manages it, and no
    other approval changed. *)
Theorem static_reconcile_is_exact configured now d u d' :
  approved_keyed d → reconcile_static configured now d = inr (u, d') →
  approved_keyed d' ∧
  (∀ id a, configured_for id configured = Some a →
     approved_runners d' !! id = Some (with_approval a ManagedByStaticConfig)) ∧
  (∀ id a, id ∉ ap_SpiffeID <$> configured → approved_runners d !! id = Some a →
     approved_runners d' !! id =
       Some (if bool_decide (ap_ManagedBy a = ManagedByStaticConfig) && live ap_DeletedAt a then withdraw now a else a)) ∧
  (∀ id, id ∉ ap_SpiffeID <$> configured → approved_runners d !! id = None → approved_runners d' !! id = None).
Proof.
  intros Hk H. pose proof (λ id, reconcile_static_lookup _ _ _ _ _ id Hk H) as Hl. split_and!.
  - intros id a. rewrite Hl. destruct (configured_for id configured) as [b|] eqn:E.
    + intros [= <-]. cbn. by eapply configured_for_Some.
    + rewrite fmap_Some. intros (b & Hb & ->). destruct (_ && _); by apply Hk in Hb.
  - intros id a Ha. by rewrite Hl, Ha.
  - intros id a Hn Ha. apply configured_for_None in Hn. by rewrite Hl, Hn, Ha.
  - intros id Hn Ha. apply configured_for_None in Hn. by rewrite Hl, Hn, Ha.
Qed.
(** An operator's approval can be lost: approving a runner whose row a former static
    configuration left behind succeeds and makes it approved, but the row keeps its static
    owner, so the next reconciliation withdraws the operator's approval although the
    comment says approvals made by operators are left alone. *)
Theorem operator_approval_is_withdrawn ns runner id allowed configured a now1 now2 now3 d d1 d2 u v :
  approved_keyed d → approved_runners d !! id = Some a → ap_ManagedBy a = ManagedByStaticConfig →
  id ∉ ap_SpiffeID <$> configured →
  upsert_approved ns runner id allowed now1 d = inr (u, d1) → reconcile_static configured now2 d1 = inr (v, d2) →
  (∃ b, approved_runner id now1 d1 = inr (b, d1)) ∧ approved_runner id now3 d2 = inl ErrNotFound.
Proof.
  intros Hk Ha Hm Hn H1 H2. unfold upsert_approved in H1. inv_tx. rewrite Ha, Hm in *.
  set (row := mkApproved ns runner id allowed ManagedByStaticConfig None) in *.
  assert (approved_keyed (set_approved (<[id:=row]> (approved_runners d)) d)) as Hk1.
  { intros x y. cbn. rewrite lookup_insert_Some. intros [[<- <-]|[_ ?]]; [done|by apply Hk]. }
  pose proof (reconcile_static_lookup _ _ _ _ _ id Hk1 H2) as Hl. cbn [approved_runners set_approved] in Hl.
  rewrite lookup_insert_eq in Hl. apply configured_for_None in Hn. rewrite Hn in Hl. cbn in Hl.
  unfold approved_runner, tx_get, mbind, tx_bind, tx_opt. cbn [approved_runners set_approved].
  rewrite lookup_insert_eq, Hl. split; [by eexists|done].
Qed.

(** * Recovery *)

(** What a sweep at [n1] for reads and [n2] for writes makes of a row. *)
Definition recovered (n1 n2 : timestamp) (i : Invocation) : Invocation :=
  if String.eqb (gi_EffectClass i) EffectReadOnly
  then if orphaned n1 i
       then with_recovered n1 InvocationFailed
              (recovery_error "dispatch lease expired during recovery (read_only)" "retryable") i
       else i
  else if orphaned n2 i
       then with_recovered n2 InvocationOutcomeUnknown
              (recovery_error "dispatch lease expired during recovery (possible effect, no committed result)" "unknown") i
       else i.
Lemma sweep_run P st err now d :
  sweep P st err now d =
  inr (count_where (λ i, orphaned now i && P i) (ledger d),
       set_ledger (update_where (λ i, orphaned now i && P i) (with_recovered now st err) (ledger d)) d).
Proof. reflexivity. Qed.
Lemma write_class c : c ∈ effect_classes →
  bool_decide (c ∈ [EffectIdempotentWrite; EffectNonIdempotentWrite]) = negb (String.eqb c EffectReadOnly).
Proof. intros Hc. unfold effect_classes in Hc. rewrite !elem_of_cons, elem_of_nil in Hc. by destruct Hc as [->|[->|[->|[]]]]. Qed.
Lemma count_where_fmap {K R} `{Countable K} (P : R → bool) (f : R → R) (t : gmap K R) :
  count_where P (f <$> t) = count_where (λ r, P (f r)) t.
Proof.
  unfold count_where, values. rewrite map_to_list_fmap, <- list_fmap_compose. f_equal.
  induction (map_to_list t) as [|[k r] l IH]; [done|]. rewrite !fmap_cons, !filter_cons.
  change ((snd ∘ prod_map id f) (k, r)) with (f r). change ((k, r).2) with r.
  destruct (decide (P (f r) = true)); cbn [length]; [f_equal|]; exact IH.
Qed.
Lemma count_where_ext {K R} `{Countable K} (P Q : R → bool) (t : gmap K R) :
  (∀ k r, t !! k = Some r → P r = Q r) → count_where P t = count_where Q t.
Proof.
  intros Hpq. unfold count_where, values. f_equal.
  assert (∀ kv, kv ∈ map_to_list t → P kv.2 = Q kv.2) as Hl by (intros [k r] Hin%elem_of_map_to_list; eauto).
  revert Hl. induction (map_to_list t) as [|[k r] l IH]; intros Hl; [done|]. rewrite !fmap_cons, !filter_cons.
  pose proof (Hl (k, r) ltac:(by left)) as Heq. change ((k, r).2) with r in *. rewrite Heq.
  assert (length (filter (λ r, P r = true) l.*2) = length (filter (λ r, Q r = true) l.*2)) as IH'
    by (apply IH; intros kv Hk; apply Hl; by right).
  case_decide; cbn [length]; [f_equal|]; exact IH'.
Qed.
Lemma recover_rows n1 n2 d c1 d1 c2 d2 :
  gateway_wf d → sweep_reads n1 d = inr (c1, d1) → sweep_writes n2 d1 = inr (c2, d2) →
  ledger d2 = recovered n1 n2 <$> ledger d.
Proof.
  unfold sweep_reads, sweep_writes. rewrite !sweep_run. intros Hw [= _ <-] [= _ <-]. cbn [ledger set_ledger].
  apply map_eq. intros id. unfold update_where. rewrite !lookup_fmap. destruct (ledger d !! id) as [i|] eqn:Hi; [|done].
  cbn. f_equal. pose proof (iw_class _ _ (wf_rows _ Hw _ _ Hi)) as Hc. unfold recovered.
  destruct (String.eqb (gi_EffectClass i) EffectReadOnly) eqn:Er.
  - rewrite andb_true_r. destruct (orphaned n1 i) eqn:Ho; cbn [gi_EffectClass with_recovered with_outcome];
      rewrite write_class, Er, andb_false_r by done; done.
  - rewrite andb_false_r. rewrite write_class, Er, andb_true_r by done. done.
Qed.
(** The recovery sweep is exact: a row whose dispatch lease has expired is closed, reads
    as failed and writes as of unknown outcome, with its request unchanged; every other
    row (finished, or under a live lease of a running gateway) is left as it is; the
    reported counts are the numbers of rows of each kind it closed. *)
Theorem recovery_is_exact n1 n2 d :
  gateway_wf d →
  ∃ d1 d2, let reads_hit i := orphaned n1 i && String.eqb (gi_EffectClass i) EffectReadOnly in
           let writes_hit i := orphaned n2 i && negb (String.eqb (gi_EffectClass i) EffectReadOnly) in
    sweep_reads n1 d = inr (count_where reads_hit (ledger d), d1) ∧
    sweep_writes n2 d1 = inr (count_where writes_hit (ledger d), d2) ∧
    d2 = set_ledger (recovered n1 n2 <$> ledger d) d.
Proof.
  intros Hw. unfold sweep_reads, sweep_writes.
  destruct (sweep_reads n1 d) as [e|[c1 d1]] eqn:E1; [by unfold sweep_reads in E1; rewrite sweep_run in E1|].
  destruct (sweep_writes n2 d1) as [e|[c2 d2]] eqn:E2; [by unfold sweep_writes in E2; rewrite sweep_run in E2|].
  pose proof (recover_rows _ _ _ _ _ _ _ Hw E1 E2) as Hr. exists d1, d2.
  unfold sweep_reads, sweep_writes in E1, E2. rewrite E1, E2, sweep_run in *. injection E1 as <- <-. injection E2 as <- <-.
  split; [done|]. cbn [ledger set_ledger] in *. split; [|by rewrite Hr]. f_equal. f_equal.
  unfold update_where. rewrite count_where_fmap. apply count_where_ext. intros id i Hi.
  pose proof (iw_class _ _ (wf_rows _ Hw _ _ Hi)) as Hc. destruct (String.eqb (gi_EffectClass i) EffectReadOnly) eqn:Er.
  - rewrite andb_true_r. destruct (orphaned n1 i); cbn [gi_EffectClass with_recovered with_outcome];
      rewrite write_class, Er by done; cbn [negb]; by rewrite !andb_false_r.
  - rewrite andb_false_r, write_class, Er by done. done.
Qed.
(** C36. No call stays in flight for ever: whatever crashed, one undisturbed sweep after the
    last lease has expired leaves every ledger row terminal. *)
Theorem recovery_settles_all n1 n2 d :
  gateway_wf d →
  (∀ id i t, ledger d !! id = Some i → gi_DispatchLeaseExpiresAt i = Some t → t < n1 ∧ t < n2) →
  ∃ c1 d1 c2 d2, sweep_reads n1 d = inr (c1, d1) ∧ sweep_writes n2 d1 = inr (c2, d2) ∧
    ∀ id i, ledger d2 !! id = Some i → IsTerminal (gi_State i) = true.
Proof.
  intros Hw Ht.
  destruct (sweep_reads n1 d) as [e|[c1 d1]] eqn:E1; [by unfold sweep_reads in E1; rewrite sweep_run in E1|].
  destruct (sweep_writes n2 d1) as [e|[c2 d2]] eqn:E2; [by unfold sweep_writes in E2; rewrite sweep_run in E2|].
  exists c1, d1, c2, d2. split; [done|]. split; [done|]. intros id j.
  rewrite (recover_rows _ _ _ _ _ _ _ Hw E1 E2), lookup_fmap, fmap_Some. intros (i & Hi & ->).
  assert (∀ n, (∀ t, gi_DispatchLeaseExpiresAt i = Some t → t < n) → orphaned n i = false → IsTerminal (gi_State i) = true) as Ho.
  { intros n Hn. destruct (wf_rows _ Hw _ _ Hi) as [_ Hfin Hlease _ _]. unfold orphaned.
    destruct (in_flight (gi_State i)) eqn:Hf; [|by destruct (gi_State i)]. intros Hno.
    destruct Hlease as [_ [t Hlt]]; [done|]. rewrite Hlt in Hno. specialize (Hn t Hlt). apply Z.ltb_lt in Hn.
    rewrite Hn, andb_true_r in Hno. cbn in Hno. apply bool_decide_eq_false in Hno. apply Hfin.
    destruct (gi_FinishedAt i); [by eexists|done]. }
  unfold recovered. destruct (String.eqb _ _).
  - destruct (orphaned n1 i) eqn:E; [done|]. apply (Ho n1); [|done]. intros t Hlt. by destruct (Ht _ _ _ Hi Hlt).
  - destruct (orphaned n2 i) eqn:E; [done|]. apply (Ho n2); [|done]. intros t Hlt. by destruct (Ht _ _ _ Hi Hlt).
Qed.
