(* ===== verification/GatewayErrors.v ===== *)
(** Republished tool versions, what runners report and what a replay returns, and three
    requests the gateway cannot complete. *)
From S2P Require Import Prelude Json Runtime Workflow WorkerPool WorkData Dispatch Spiffe Proc Consequence GatewayStore GatewayFacts GatewayService ProcLogic GatewayServiceFacts.
#[local] Open Scope gw_scope.

(** * Published versions *)
Section published.
Definition no_count (_ : string) (_ : Gw Mem) : nat := 0.
Definition store_wf (s : Gw Mem) : Prop := gateway_wf s.1.
Abbreviation learns := (rg (Q := Query) store_wf evolves no_count no_count).
Abbreviation lasting := (stable store_wf evolves).
Lemma learns_stmt {A} (m : timestamp → GwTx A) K B (Ψ : GwErr + A → Gw Mem → Prop) :
  (∀ now d a d', m now d = inr (a, d') → gateway_good d d') → lasting K → (∀ r, lasting (Ψ r)) →
  (∀ now s e, store_wf s → K s → m now s.1 = inl e → Ψ (inl e) s) → (∀ s, K s → Ψ (inl errUnavailable) s) →
  (∀ now s a d', store_wf s → K s → m now s.1 = inr (a, d') → K (d', s.2) → Ψ (inr a) (d', s.2)) →
  learns (tx m) K B (λ r s _, Ψ r s).
Proof.
  intros Hg HK HS He Hu Ha.
  assert (∀ now b, learns (atomically (tx_do (m now) b)) K B (λ r s _, Ψ r s)) as Hdo.
  { intros now b. apply rg_atomically; [|by intros r B'; apply HS].
    intros [d x] Hs Hk. unfold tx_do, run_tx. cbn [fst snd].
    destruct (m now d) as [e|[a d']] eqn:E; cbn [fst snd].
    - split; [split; [done|apply evolves_refl]|]. exists B. split; [by intros id|]. destruct b; [by apply Hu|].
      by eapply (He now (d, x)).
    - destruct (Hg _ _ _ _ E Hs) as [Hw Hev]. split; [done|]. exists B. split; [by intros id|].
      assert (K (d', x)) as Hk' by exact (HK (d, x) (d', x) Hs Hw Hev Hk).
      destruct b; [by apply Hu|]. exact (Ha now (d, x) a d' Hs Hk E Hk'). }
  intros [] now; [apply Hdo| |apply Hdo]. intros s Hs Hk. by apply Hu.
Qed.
Definition published (k : string * string) (v : ToolVersion) (s : Gw Mem) : Prop := tool_versions s.1 !! k = Some v.
Lemma lasting_published k v : lasting (published k v).
Proof. intros s s' _ _ Hev Hp. by apply (ge_versions _ _ Hev). Qed.
Lemma same_descriptor a b :
  sameToolVersionDescriptor a b = true → gv_Name a = gv_Name b ∧ gv_Version a = gv_Version b ∧ gv_Digest a = gv_Digest b.
Proof.
  unfold sameToolVersionDescriptor. rewrite !andb_true_iff, !String.eqb_eq. tauto.
Qed.
(** Two rows of one version are one row. *)
Lemma one_digest s k v tv now d' other :
  store_wf s → published k v s → gv_Name tv = gv_Name v → gv_Version tv = gv_Version v → gv_Digest tv = gv_Digest v →
  other_digest tv now s.1 = inr (other, d') → other = false.
Proof.
  intros Hw Hp Hn Hv Hd H. unfold other_digest, tx_asks in H. injection H as <- _.
  apply existsb_values_false. intros k' r Hr. unfold same_version. apply not_true_iff_false.
  rewrite !andb_true_iff, negb_true_iff, !String.eqb_eq, String.eqb_neq. intros [[Hn' Hv'] Hd']. apply Hd'.
  destruct (wf_versions _ Hw) as [Hk Hu]. assert (k' = k) as -> by (apply (Hu _ _ _ _ Hr Hp); congruence).
  unfold published in Hp. congruence.
Qed.
(** A statement that fails, if at all, with another error. *)
Definition avoids {A} (x : GwErr) (m : GwTx A) : Prop := ∀ d e, m d = inl e → e ≠ x.
Lemma avoids_bind {A B} x (m : GwTx A) (k : A → GwTx B) :
  avoids x m → (∀ a, avoids x (k a)) → avoids x (m ≫= k).
Proof.
  intros Hm Hk d e. unfold mbind, tx_bind. destruct (m d) as [e'|[a d']] eqn:E; [intros [= <-]; by eapply Hm|apply Hk].
Qed.
Lemma avoids_ret {A} x (a : A) : avoids x (mret a). Proof. by intros d e. Qed.
Lemma avoids_get x : avoids x tx_get. Proof. by intros d e. Qed.
Lemma avoids_modify x f : avoids x (tx_modify f). Proof. by intros d e. Qed.
Lemma avoids_require x b e : e ≠ x → avoids x (tx_require b e).
Proof. intros He d y. unfold tx_require. destruct b; [done|]. by intros [= <-]. Qed.
Lemma avoids_not_null x c r : (∀ y, errNotNull y ≠ x) → (∀ y, errStore y ≠ x) → avoids x (jsonb_not_null c r).
Proof.
  intros H1 H2 d e. unfold jsonb_not_null, jsonb_param, mbind, tx_bind, tx_opt.
  destruct r; cbn; intros [= <-]; auto.
Qed.
Lemma avoids_param x r : (∀ y, errStore y ≠ x) → avoids x (jsonb_param r).
Proof. intros H2 d e. unfold jsonb_param. destruct r; cbn; intros [= <-]; auto. Qed.
Lemma avoids_uuid x : (∀ y, errStore y ≠ x) → avoids x gw_uuid.
Proof. intros H d e. unfold gw_uuid. destruct (gen_random_uuid _) as [y|[? ?]]; intros [= <-]; auto. Qed.
Lemma insert_version_err tv now d e : insert_tool_version tv now d = inl e → e ≠ errVersionPublished.
Proof.
  revert d e. change (avoids errVersionPublished (insert_tool_version tv now)). unfold insert_tool_version.
  repeat (apply avoids_bind; [first [by apply avoids_not_null|by apply avoids_param|by apply avoids_require
    |by apply avoids_uuid|apply avoids_get]|intro]).
  destruct (tool_versions _ !! _); [apply avoids_ret|].
  apply avoids_bind; [by apply avoids_require|intro]. apply avoids_modify.
Qed.
(** What a registration answers, and the row it answers with. *)
Definition registered (tv : ToolVersion) (r : GwErr + ToolVersion) (s : Gw Mem) : Prop :=
  match r with
  | inl e => e ≠ errVersionPublished
  | inr out => published (gv_Name tv, gv_Digest tv) out s ∧ sameToolVersionDescriptor tv out = true
  end.
Lemma learns_register tv B :
  learns (RegisterToolVersion tv) (λ _, True) B (λ r s _, registered tv r s).
Proof.
  assert (lasting (λ _, True)) as Htrue by by intros ?????.
  unfold RegisterToolVersion. destruct (validateToolVersion tv) as [e|u] eqn:Hval.
  { intros s _ _ ->. unfold validateToolVersion in Hval. repeat case_match; simplify_eq. }
  unfold ebind at 1. eapply rg_bind.
  { apply (learns_stmt _ _ _ (λ r _, match r with inl e => e ≠ errVersionPublished | inr _ => True end)); try done.
    - eauto with gateway.
    - intros [e|u']; by intros ?????.
    - intros now s e _ _ H. by eapply insert_version_err. }
  intros [e|u'] B1; [by intros s _ He|]. unfold ebind at 1. eapply rg_bind.
  { apply (learns_stmt _ _ _ (λ r s, match r with inl e => e ≠ errVersionPublished
                                     | inr out => published (gv_Name tv, gv_Digest tv) out s end)); try done.
    - intros now d a d' H. apply reads_tool_version in H as ->. apply gateway_good_refl.
    - intros [e|out]; [by intros ?????|apply lasting_published].
    - intros now s e _ _ H ->. unfold get_tool_version, tx_get, mbind, tx_bind, tx_opt in H. by case_match.
    - intros now s out d' _ _ H _. pose proof (reads_tool_version _ _ _ _ _ _ H) as ->.
      unfold get_tool_version in H. by inv_tx. }
  intros [e|out] B2; [by intros s _ He|].
  destruct (validateToolVersion out) as [e|v]; [by intros s _ _|].
  destruct (sameToolVersionDescriptor tv out) eqn:Hsame; cbn [negb]; [|by intros s _ _].
  destruct (same_descriptor _ _ Hsame) as (Hn & Hv & Hd). unfold ebind. eapply rg_bind.
  { apply (learns_stmt _ _ _ (λ r s, match r with inl e => e ≠ errVersionPublished
                               | inr other => other = false ∧ published (gv_Name tv, gv_Digest tv) out s end)); try done.
    - intros now d a d' H. apply reads_other_digest in H as ->. apply gateway_good_refl.
    - apply lasting_published.
    - intros [e|other]; [by intros ?????|]. apply stable_and; [by intros ?????|apply lasting_published].
    - intros now s other d' Hw Hp H _. pose proof (reads_other_digest _ _ _ _ _ H) as ->. destruct s as [d x].
      split; [|done]. by eapply (one_digest (d, x) _ out tv). }
  intros [e|other] B3; [by intros s _ He|].
  apply (rg_pure _ _ _ _ _ (other = false) (published (gv_Name tv, gv_Digest tv) out)). intros ->. by intros s _ Hp.
Qed.
End published.

(** A published version is immutable: whatever else registers concurrently, a registration
    that succeeds returns the stored row under the version's name and digest, with the
    descriptor the runner offered; one that offers another digest for a published version
    fails. The guard that is to report this case never fires: the unique index on name and
    version rejects the insert first. *)
Theorem published_version_is_immutable tv s r s' :
  store_wf s → psteps (rely store_wf evolves) (RegisterToolVersion tv) s (Ret r) s' →
  r ≠ inl errVersionPublished ∧
  (∀ out, r = inr out → tool_versions s'.1 !! (gv_Name tv, gv_Digest tv) = Some out ∧
     sameToolVersionDescriptor tv out = true) ∧
  (∀ k v, tool_versions s.1 !! k = Some v → gv_Name v = gv_Name tv → gv_Version v = gv_Version tv →
     gv_Digest v ≠ gv_Digest tv → ∃ e, r = inl e).
Proof.
  intros Hs Hst.
  destruct (rg_psteps store_wf evolves no_count no_count _ s r s' (λ _, True) (λ _, 0%nat) _
    ltac:(by intros ?????) Hs I (learns_register tv _) Hst) as (Hs' & B & Hr).
  split_and!.
  - intros ->. by apply Hr.
  - intros out ->. exact Hr.
  - intros k v Hv Hn Hver Hd. destruct r as [e|out]; [by exists e|]. destruct Hr as [Hp Hsame].
    assert (evolves s s') as Hev by exact (rg_history store_wf evolves no_count no_count _ s _ s' (λ _, True) (λ _, 0%nat) _
      evolves_refl evolves_trans ltac:(by intros ?????) Hs I (learns_register tv _) Hst).
    pose proof (ge_versions _ _ Hev _ _ Hv) as Hv'. destruct (same_descriptor _ _ Hsame) as (Hn' & Hver' & Hd').
    destruct (wf_versions _ Hs') as [Hk Hu]. assert (k = (gv_Name tv, gv_Digest tv)) as -> by (apply (Hu _ _ _ _ Hv' Hp); congruence).
    destruct Hd. unfold published in Hp. congruence.
Qed.

(** * What a runner reports *)
Definition int64_size (r : GatewayArtifactRef) : Prop := - int8_max - 1 ≤ pa_SizeBytes r ≤ int8_max.
Lemma artifact_ref_round_trip r : int64_size r → artifact_ref_of (artifact_ref_doc r) = Some r.
Proof.
  destruct r as [id mime size digest]. unfold int64_size. cbn [pa_SizeBytes]. intros Hs.
  unfold artifact_ref_of, artifact_ref_doc. cbn [pa_ArtifactID pa_MimeType pa_SizeBytes pa_Digest]. set (doc := [_; _; _; _]).
  assert (string_field "artifact_id" doc = Some id) as -> by reflexivity.
  assert (string_field "mime_type" doc = Some mime) as -> by reflexivity.
  assert (string_field "digest" doc = Some digest) as -> by reflexivity.
  assert (int64_field "size_bytes" doc = unmarshal_int64 (JNum size 0)) as -> by reflexivity.
  unfold unmarshal_int64. rewrite Z.pow_0_r, Z.mul_1_r. cbn [mbind option_bind].
  destruct (Z.leb_spec (- int8_max - 1) size), (Z.leb_spec size int8_max); try lia. done.
Qed.
Lemma artifact_refs_round_trip l :
  Forall int64_size l → parseArtifactRefs (GoodJSON (marshalArtifactRefs l)) = l.
Proof.
  intros Hl. unfold parseArtifactRefs, marshalArtifactRefs.
  assert (mapM artifact_ref_of (artifact_ref_doc <$> l) = Some l) as ->; [|done].
  induction Hl as [|r l Hr Hl IH]; [done|]. rewrite fmap_cons. cbn [mapM]. by rewrite artifact_ref_round_trip, IH.
Qed.
Lemma error_round_trip e : parseError (GoodJSON (mustMarshalError (Some e))) = Some e.
Proof.
  destruct e as [code msg r details]. unfold parseError, mustMarshalError.
  cbn [ed_Code ed_Message ed_Retryability ed_DetailsJson]. set (doc := [_; _; _; _]).
  assert (string_field "code" doc = Some code) as -> by reflexivity.
  assert (string_field "message" doc = Some msg) as -> by reflexivity.
  assert (string_field "details_json" doc = Some details) as -> by reflexivity.
  assert (string_field "retryability" doc = Some (retryabilityToStorage r)) as -> by reflexivity.
  cbn. by destruct r.
Qed.
Lemma finish_invocation_inr id st res refs err now d u d' :
  finish_invocation id st res refs err now d = inr (u, d') →
  ∃ i v, ledger d !! id = Some i ∧ refs = GoodJSON v ∧
    d' = set_ledger (<[id := with_outcome now st (match res with GoodJSON x => Some x | _ => None end) v
                               (match err with GoodJSON x => Some x | _ => None end) i]> (ledger d)) d.
Proof.
  intros H. unfold finish_invocation in H. inv_tx.
  unfold update_invocation in H. inv_tx.
  match goal with H : (_ ≫= _) = Some _ |- _ => apply bind_Some in H as (i & Hi & HP) end.
  destruct (in_flight (gi_State i)); [|done]. injection HP as <-. 
  unfold jsonb_param, mret, tx_ret, tx_fail in *.
  destruct res, refs, err; simplify_eq; exists i; eexists; split_and!; done.
Qed.
(** C40. A reported failure is kept: when the outcome a runner reported as failed is committed,
    every replay of the call returns the runner's own error, retryability included, and
    its artifact references, whatever strings they hold and for every size of 64 bits. *)
Theorem reported_failure_is_replayed r e id now d u d' :
  vr_State r = INVOKE_STATE_FAILED → vr_Error r = Some e → Forall int64_size (vr_ArtifactOutputRefs r) →
  gateway_wf d →
  (let res := invokeResultToDispatch r in
   finish_invocation id (dr_state res) (raw_message (dr_resultJSON res)) (dr_artifactRefs res) (dr_errorDetail res) now d
   = inr (u, d')) →
  ∃ i, ledger d' !! id = Some i ∧
    invocationToResponse i = mkResponse id INVOKE_STATE_FAILED NoJSON (vr_ArtifactOutputRefs r) (Some e) EmptyString.
Proof.
  intros Hst He Hl Hw. unfold invokeResultToDispatch. rewrite Hst, He. cbn [dr_state dr_resultJSON dr_artifactRefs dr_errorDetail].
  intros (i & v & Hi & [= <-] & ->)%finish_invocation_inr. eexists. cbn [ledger set_ledger]. rewrite lookup_insert_eq.
  split; [reflexivity|]. unfold invocationToResponse. cbn [gi_State with_outcome gi_ID gi_ArtifactOutputRefs gi_Error column].
  rewrite artifact_refs_round_trip, error_round_trip by done. by rewrite (iw_id _ _ (wf_rows _ Hw _ _ Hi)).
Qed.

(** * Requests that cannot complete *)
Abbreviation idle := (safe (Q := Query) (λ _ : Gw Mem, True) (λ s s' : Gw Mem, s' = s)).
Lemma idle_fails {A} (m : timestamp → GwTx A) :
  (∀ now d, ∃ e, m now d = inl e) → idle (tx m) (λ r, ∃ e, r = inl e).
Proof.
  intros Hm.
  assert (∀ now b, idle (atomically (tx_do (m now) b)) (λ r, ∃ e, r = inl e)) as Hdo.
  { intros now b. apply safe_atomically. intros [d x] _. unfold tx_do, run_tx. cbn [fst snd].
    destruct (Hm now d) as [e ->]. split; [done|]. destruct b; eauto. }
  intros [] now; [apply Hdo|by eexists|apply Hdo].
Qed.
(** A commit of the gateway's own error, as a stable fact. *)
Definition failed_with (id : uuid) (e : json) (s : Gw Mem) : Prop :=
  ∃ i, ledger s.1 !! id = Some i ∧ gi_State i = InvocationFailed ∧ gi_Error i = Some e.
Lemma lasting_failed id e : stable store_wf evolves (failed_with id e).
Proof.
  intros s s' _ _ Hev (i & Hi & Hst & He). destruct (ge_ledger _ _ Hev _ _ Hi) as (j & Hj & Hm).
  assert (j = i) as -> by (apply Hm; by rewrite Hst). by exists i.
Qed.
Lemma struct_error_unreadable e :
  ed_Retryability e ≠ RETRYABILITY_UNSPECIFIED → parseError (GoodJSON (error_struct_json e)) = None.
Proof.
  destruct e as [code msg r details]. cbn [ed_Retryability]. intros Hr. unfold parseError, error_struct_json.
  cbn [ed_Code ed_Message ed_Retryability ed_DetailsJson].
  assert (∀ c m d n, string_field "retryability" ((if String.eqb c EmptyString then [] else [("code", JStr c)]) ++
    (if String.eqb m EmptyString then [] else [("message", JStr m)]) ++ [("retryability", JNum n 0)] ++
    (if String.eqb d EmptyString then [] else [("details_json", JStr d)])) = None) as Hn.
  { intros c m d n. by destruct (String.eqb c EmptyString), (String.eqb m EmptyString), (String.eqb d EmptyString). }
  destruct r; [done|..]; rewrite Hn;
    repeat match goal with |- context [string_field ?k ?l ≫= _] => destruct (string_field k l); cbn [mbind option_bind]; [|done] end;
    done.
Qed.
(** A failure of the gateway itself is not replayed: [finishFailed] answers with its error
    and commits it, but in a form its own reader rejects (the retryability as a number),
    so every replay of the same call reports a failure without any error. *)
Theorem own_failure_is_not_replayed inv e s rsp s' :
  store_wf s → ed_Retryability e ≠ RETRYABILITY_UNSPECIFIED →
  psteps (rely store_wf evolves) (finishFailed inv e) s (Ret (inr rsp)) s' →
  rs_Error rsp = Some e ∧
  ∃ i, ledger s'.1 !! gi_ID inv = Some i ∧ rs_State (invocationToResponse i) = INVOKE_STATE_FAILED ∧
       rs_Error (invocationToResponse i) = None.
Proof.
  intros Hs Hr Hst.
  eapply (rg_psteps store_wf evolves no_count no_count _ s _ s' (λ _, True) (λ _, 0%nat)
    (λ r s _, match r with inl _ => True
      | inr rsp => rs_Error rsp = Some e ∧ failed_with (gi_ID inv) (error_struct_json e) s end)) in Hst as (_ & B & He & Hf);
    [|by intros ?????|done|done|].
  - split; [done|]. destruct Hf as (i & Hi & Hi1 & Hi2). exists i. split; [done|].
    unfold invocationToResponse. rewrite Hi1, Hi2. split; [done|]. cbn. by apply struct_error_unreadable.
  - unfold finishFailed. eapply rg_bind.
    + apply (learns_stmt _ _ _ (λ r s, match r with inl _ => True | inr _ => failed_with (gi_ID inv) (error_struct_json e) s end)); try done.
      * intros now d a d'. by apply good_finish.
      * intros [x|u]; [by intros ?????|apply lasting_failed].
      * intros now s0 a d' _ _ (i & v & Hi & _ & ->)%finish_invocation_inr _. eexists. cbn. rewrite lookup_insert_eq. by split_and!.
    + intros [x|u] B' s0 _ H0; [done|]. done.
Qed.
(** A runner's error is never recorded: an [InvokeError] message carries no artifact
    references, so committing its outcome violates the NOT NULL column; the caller always
    gets an internal error, and the row stays in flight until a recovery sweep reports an
    unknown outcome for a call the runner said had failed. *)
Theorem invoke_error_never_commits R cfg ac ad inv tv e s r s' :
  psteps R (finishFromResult cfg ac ad inv tv (invokeErrorToDispatch e)) s (Ret r) s' →
  r = inl CodeInternal ∧ rtc R s s'.
Proof.
  apply (safe_reads (λ _, True) R _ (λ r, r = inl CodeInternal)); try done.
  unfold finishFromResult. cbn [invokeErrorToDispatch dr_state dr_resultJSON dr_artifactRefs dr_errorDetail].
  rewrite bool_decide_false by done. eapply safe_bind; [apply idle_fails|by intros x [err ->]].
  intros now d. destruct (finish_invocation _ _ _ _ _ now d) as [x|[u d']] eqn:E; [by exists x|].
  by apply finish_invocation_inr in E as (i & v & _ & ? & _).
Qed.
(** An accepted request that can never run: empty arguments pass the argument check (they
    count as an empty object), but the ledger column rejects them, so the authorized call
    always ends in an internal error, no row is written and nothing is sent. *)
Theorem empty_arguments_never_run R cfg sv et ac ad res tv msg summary s r s' :
  rq_ArgumentsJson msg = EmptyString →
  psteps R (invoke_authorized cfg et ac ad res tv msg summary) s (Ret r) s' →
  (0 ≤ cfg_InlineLimit cfg → validateArguments cfg sv (rq_ArgumentsJson msg) (GoodJSON (JObj [])) = true) ∧
  r = inl CodeInternal ∧ rtc R s s'.
Proof.
  intros Hmsg Hst. split.
  { intros Hlim. rewrite Hmsg. unfold validateArguments. change (byte_length EmptyString) with 0.
    destruct (Z.ltb_spec (cfg_InlineLimit cfg) 0); [lia|done]. }
  revert Hst. apply (safe_reads (λ _, True) R _ (λ r, r = inl CodeInternal)); try done.
  unfold invoke_authorized. rewrite Hmsg. apply safe_then; [apply safe_ask|]. intros now.
  eapply (safe_bind _ _ _ _ (λ r, ∃ e, r = inl e)); [|by intros x [e ->]].
  eapply safe_bind; [apply idle_fails|by intros x [e ->]; exists e].
  intros t d. destruct (insert_invocation _ _ _ _ _ _ _ _ t d) as [x|[u d']] eqn:E; [by exists x|].
  by apply insert_invocation_inr in E as (v & d1 & ? & _).
Qed.
