(* ===== verification/GatewayDemo.v ===== *)
(** A concrete gateway on which the theorems are applied: the worker of the dispatch example
    holds an assigned turn; a runner connects and registers a mail tool; the worker sends one
    mail, its duplicate request is answered from the ledger. *)
From S2P Require Import Prelude Json Runtime Workflow WorkerPool WorkData Dispatch DispatchFacts DispatchServiceFacts.
From S2P Require Import DispatchDemo Spiffe Proc Consequence ConsequenceFacts GatewayStore GatewayFacts GatewayService.
From S2P Require Import ProcLogic GatewayServiceFacts GatewayEffects GatewayPolicy GatewayErrors.
#[local] Open Scope Z_scope.

Definition mail : string := "mail.send".
Definition demo_cfg : GatewayService.Config :=
  config_defaults "gw" (mkConfig 0 0 0 0 0 0 0 EmptyString).
Definition demo_gw_dp : DispatchDB :=
  set_wk (set_pins [("A", mail, "sha1")] (dp_wk (DispatchService.sv_db assigned))) (DispatchService.sv_db assigned).
Definition mail_runner : ApprovedRunner :=
  mkApproved "ns" "r1" "spiffe://iterabase.local/runners/r1" ["mail"] ManagedByOperator None.
Definition mail_grant : PoolGrant := mkGrant EffectNonIdempotentWrite (JArr []) None.
Definition demo_gw : GatewayDB :=
  mkGatewayDB demo_gw_dp ∅ ∅ {[("pool", mail) := mail_grant]} ∅ ∅
    {["spiffe://iterabase.local/runners/r1" := mail_runner]} ∅.
Definition demo_start : Gw Mem := (demo_gw, mkMem ∅ [] 0 []).
Definition runner_identity : Identity :=
  {| id_SPIFFEID := "spiffe://iterabase.local/runners/r1"; id_Kind := KindRunner;
     id_TrustDomain := DefaultTrustDomain; id_PoolUID := EmptyString; id_WorkerID := EmptyString;
     id_Namespace := "ns"; id_RunnerID := "r1" |}.
Definition mail_descriptor : ToolDescriptorIn :=
  mkDescriptorIn mail "1" "sha1" "send a mail" (GoodJSON (JObj [])) EFFECT_CLASS_NON_IDEMPOTENT_WRITE (Some 1000) [] None
    (Some ([("en", "Mail {{to}} about {{subject}}"); ("pt", "{{subject}} para {{to}}")],
           [("subject", "/subject"); ("to", "/to/0")])) None.
Definition mail_request : InvokeRequest :=
  mkRequest "A" "E" "call-1" mail EmptyString demo_arguments EmptyString [] 1.
Definition any_schema (s v : json) : bool := true.
Definition no_artifact (d : GatewayDB) (id : string) : option ArtifactInfo := None.
Definition no_text (e : GwErr) : string := EmptyString.
Definition demo_invoke (msg : InvokeRequest) : GwP (Code + InvokeResponse) :=
  InvokeTool demo_cfg any_schema demo_number no_text false no_artifact (Some demo_supervisor) msg.
Definition answer_with (sel : branch) (R : Type) (q : Query R) : R :=
  match q with
  | QFault => NoFault
  | QNow => 100
  | QSend => true
  | QSelect => sel
  | QSecret _ _ => None
  | QOAuth _ _ _ _ => None
  | QOrder => λ _ l, l
  end.

(** * Sending one mail *)
Definition mail_sent : InvokeResult := mkInvokeResult "I" INVOKE_STATE_SUCCEEDED (quoted "{'id':'m-1'}") [] None.
Definition demo_threads : list (GwP ()) :=
  [RegisterRunner demo_cfg (Some runner_identity) [MsgRegister mail_descriptor; MsgInvokeResult mail_sent] ≫= λ _, mret ();
   demo_invoke mail_request ≫= λ _, mret ();
   demo_invoke mail_request ≫= λ _, mret ()].
(** The runner registers, the request waits for its result, the runner reports it, the
    request finishes, the duplicate runs, the runner's stream ends. *)
Definition demo_schedule : list nat :=
  replicate 24 0%nat ++ replicate 90 1%nat ++ [0%nat] ++ replicate 20 1%nat ++ replicate 60 2%nat ++ replicate 20 0%nat.
Definition demo_end : list (GwP ()) * Gw Mem :=
  run_threads (answer_with SelResult) demo_threads demo_start demo_schedule.
Definition mail_key : InvocationKey := mkKey "A" CallerScopeTurn "E" "call-1" "sha1" EmptyString.
Definition demo_row : option (string * InvocationState) :=
  (λ i, (gi_ID i, gi_State i)) <$> find_key demo_end.2.1 mail_key.
Example demo_outcome :
  demo_row = Some ("I", InvocationSucceeded) ∧ length (effects demo_end.2) = 1%nat ∧
  length (m_sent demo_end.2.2) = 2%nat ∧
  forallb (λ t, match t with Ret _ => true | _ => false end) demo_end.1 = true.
Proof. split_and!; vm_compute; reflexivity. Qed.

Lemma demo_pins : tool_pins (gw_wk demo_gw) = [("A", mail, "sha1")]. Proof. reflexivity. Qed.
Lemma demo_gw_wf : gateway_wf demo_gw.
Proof.
  constructor.
  - intros id i H. change (ledger demo_gw) with (∅ : gmap uuid GatewayStore.Invocation) in H. by rewrite lookup_empty in H.
  - intros a b i j H. change (ledger demo_gw) with (∅ : gmap uuid GatewayStore.Invocation) in H. by rewrite lookup_empty in H.
  - split; [intros k v H|intros a b v w H];
      change (tool_versions demo_gw) with (∅ : gmap (string * string) ToolVersion) in H; by rewrite lookup_empty in H.
  - intros a b r q H.
    change (runner_registrations demo_gw) with (∅ : gmap uuid RunnerRegistration) in H. by rewrite lookup_empty in H.
  - unfold pins_wf. rewrite demo_pins. apply NoDup_singleton.
Qed.
Lemma demo_ledgered : ledgered demo_start.
Proof.
  constructor; [split|..].
  - apply demo_gw_wf.
  - intros c rc H. change (m_conns demo_start.2) with (∅ : gmap nat runnerConn) in H. by rewrite lookup_empty in H.
  - intros id i H. change (ledger demo_start.1) with (∅ : gmap uuid GatewayStore.Invocation) in H. by rewrite lookup_empty in H.
  - intros m H. by apply elem_of_nil in H.
Qed.
Lemma demo_gateway_threads : Forall (gateway_thread demo_cfg) demo_threads.
Proof. repeat constructor. Qed.
Lemma demo_run_steps : tsteps demo_threads demo_start demo_end.1 demo_end.2.
Proof. exact (run_threads_tsteps (answer_with SelResult) demo_threads demo_start demo_schedule). Qed.
Definition demo_effect : Invoke := mkInvoke "I" mail "sha1" demo_arguments EmptyString [].
Lemma demo_effects : effects demo_end.2 = [demo_effect]. Proof. vm_compute. reflexivity. Qed.

Lemma effect_at_most_once_witness :
  sends_for mail_key demo_end.2 = 1%nat ∧ demo_row = Some ("I", InvocationSucceeded) ∧
  ∃ i, ledger demo_end.2.1 !! "I" = Some i ∧ find_key demo_end.2.1 (key_of i) = Some i ∧
    Z.of_nat (sends_for (key_of i) demo_end.2) ≤ Z.max 1 (cfg_RetryMaxAttempts demo_cfg) ∧
    (gi_EffectClass i = EffectNonIdempotentWrite → sends_for (key_of i) demo_end.2 = 1%nat).
Proof.
  split; [vm_compute; reflexivity|]. split; [vm_compute; reflexivity|].
  refine (effect_at_most_once demo_cfg demo_threads demo_start demo_end.1 demo_end.2 demo_effect
    demo_gateway_threads demo_ledgered eq_refl demo_run_steps _).
  rewrite demo_effects. left.
Defined.
Lemma effect_is_the_ledgered_call_witness :
  ∃ i tv, ledger demo_end.2.1 !! "I" = Some i ∧ matches demo_effect i ∧
    pin_of (tool_pins (gw_wk demo_end.2.1)) (gi_AttemptID i) mail = Some "sha1" ∧
    tool_versions demo_end.2.1 !! (mail, "sha1") = Some tv ∧ gv_EffectClass tv = gi_EffectClass i.
Proof.
  refine (effect_is_the_ledgered_call demo_cfg demo_threads demo_start demo_end.1 demo_end.2 demo_effect
    demo_gateway_threads demo_ledgered eq_refl demo_run_steps _).
  rewrite demo_effects. left.
Defined.

(** The state after the run: a duplicate request alone, answered from the ledger. *)
Lemma end_ledgered : ledgered demo_end.2.
Proof.
  apply (threads_run demo_cfg demo_threads demo_start demo_end.1 demo_end.2 demo_gateway_threads demo_ledgered eq_refl
    demo_run_steps).
Qed.
Definition dummy_end : (Code + InvokeResponse) * Gw Mem := (inl CodeInternal, demo_start).
Definition replayed : (Code + InvokeResponse) * Gw Mem :=
  default dummy_end (run_proc (answer_with SelResult) (demo_invoke mail_request) demo_end.2).
Definition mail_response : InvokeResponse :=
  mkResponse "I" INVOKE_STATE_SUCCEEDED (GoodJSON (JObj [("id", JStr "m-1")])) [] None EmptyString.
Lemma replayed_steps (R : Gw Mem → Gw Mem → Prop) :
  psteps R (demo_invoke mail_request) demo_end.2 (Ret (inr mail_response)) replayed.2.
Proof. apply (run_proc_psteps (answer_with SelResult)). vm_compute. reflexivity. Qed.
Lemma terminal_answer_is_committed_witness :
  ∃ i, ledger replayed.2.1 !! "I" = Some i ∧ IsTerminal (gi_State i) = true ∧
    INVOKE_STATE_SUCCEEDED = invocationStateToProto (gi_State i) ∧
    (gi_State i = InvocationSucceeded → mail_response = invocationToResponse i).
Proof.
  refine (terminal_answer_is_committed demo_cfg any_schema demo_number no_text false no_artifact (Some demo_supervisor)
    mail_request demo_end.2 mail_response replayed.2 end_ledgered (replayed_steps _) _ _); discriminate.
Defined.

(** * The other theorems applied *)
Definition alone {A} (p : proc (Gw Mem) Query A) (s : Gw Mem) (dflt : A) : A * Gw Mem :=
  default (dflt, s) (run_proc (answer_with SelTimeout) p s).
Definition completes {A} (p : proc (Gw Mem) Query A) (s : Gw Mem) : bool :=
  match run_proc (answer_with SelTimeout) p s with Some _ => true | None => false end.
Lemma alone_psteps {A} (R : Gw Mem → Gw Mem → Prop) (p : proc (Gw Mem) Query A) s dflt :
  completes p s = true → psteps R p s (Ret (alone p s dflt).1) (alone p s dflt).2.
Proof.
  unfold completes, alone. destruct (run_proc (answer_with SelTimeout) p s) as [[a s']|] eqn:E; [|done].
  intros _. by apply (run_proc_psteps (answer_with SelTimeout)).
Qed.
Definition demo_version : ToolVersion := default (mkToolVersion EmptyString EmptyString EmptyString EmptyString EmptyString
  NoJSON EmptyString NoJSON NoJSON 0 NoJSON NoJSON 0) (descriptorToToolVersion mail_descriptor).
Definition invariant_threads : list (GwP ()) :=
  [RegisterToolVersion demo_version ≫= λ _, mret ();
   BeginInvocation mail_key demo_version (Some "pool") (GoodJSON (JObj [])) (JArr []) (Some ∅) 500 "gw" ≫= λ _, mret ();
   FinishInvocation "H" InvocationFailed NoJSON (GoodJSON (JArr [])) NoJSON ≫= λ _, mret ()].
Definition invariant_end : list (GwP ()) * Gw Mem :=
  run_threads (answer_with SelTimeout) invariant_threads demo_start
    (replicate 10 0%nat ++ replicate 10 1%nat ++ replicate 5 2%nat).
Lemma gateway_invariant_witness :
  gi_State <$> ledger invariant_end.2.1 !! "H" = Some InvocationFailed ∧
  gateway_wf invariant_end.2.1 ∧ gateway_evolves demo_start.1 invariant_end.2.1.
Proof.
  split; [vm_compute; reflexivity|].
  refine (gateway_invariant invariant_threads demo_start invariant_end.1 invariant_end.2 _
    (run_threads_tsteps (answer_with SelTimeout) invariant_threads demo_start
       (replicate 10 0%nat ++ replicate 10 1%nat ++ replicate 5 2%nat)) demo_gw_wf).
  exact (Forall_cons_2 _ _ _ (store_thread_op (RegisterToolVersion demo_version) (op_register_version _))
    (Forall_cons_2 _ _ _ (store_thread_op
        (BeginInvocation mail_key demo_version (Some "pool") (GoodJSON (JObj [])) (JArr []) (Some ∅) 500 "gw")
        (op_begin _ _ _ _ _ _ _ _))
      (Forall_cons_2 _ _ _ (store_thread_op
          (FinishInvocation "H" InvocationFailed NoJSON (GoodJSON (JArr [])) NoJSON)
          (op_finish _ InvocationFailed _ _ _ eq_refl)) (Forall_nil_2 _)))).
Defined.
(** A worker with an older generation of the same turn. *)
Definition stale_request : InvokeRequest := mkRequest "A" "E" "call-2" mail EmptyString demo_arguments EmptyString [] 0.
Lemma fenced_worker_is_refused_witness :
  (∃ c, (alone (demo_invoke stale_request) demo_end.2 (inl CodeInternal)).1 = inl c) ∧
  rtc dispatch_moves demo_end.2 (alone (demo_invoke stale_request) demo_end.2 (inl CodeInternal)).2.
Proof.
  refine (proj1 (fenced_worker_is_refused demo_cfg any_schema demo_number no_text false no_artifact demo_supervisor stale_request
    demo_end.2 (alone (demo_invoke stale_request) demo_end.2 (inl CodeInternal)).2 _ _) _ _).
  - reflexivity.
  - exists row1. split; [vm_compute; reflexivity|]. right. right. vm_compute. discriminate.
  - apply (alone_psteps _ (demo_invoke stale_request)). vm_compute. reflexivity.
Defined.
Definition stored_version : ToolVersion :=
  default demo_version (tool_versions demo_end.2.1 !! (mail, "sha1")).
Lemma stored_at : tool_versions demo_end.2.1 !! (gv_Name stored_version, gv_Digest stored_version) = Some stored_version.
Proof. vm_compute. reflexivity. Qed.
Definition mail_only : list Capability := [mkCapability mail EffectNonIdempotentWrite []].
Lemma invocable_iff_discoverable_witness :
  ∃ l, discover "A" "pool" (Some mail_only) 200 demo_end.2.1 = inr (l, demo_end.2.1) ∧
    (authorizeWorkflowCapability (Some mail_only) stored_version = inr () ∧
     grant_admits (EffectNonIdempotentWrite, []) stored_version = inr () ↔
     stored_version ∈ l ∧ grant_lists [] stored_version = true).
Proof.
  refine (invocable_iff_discoverable demo_end.2.1 200 "A" "pool" (Some mail_only) stored_version EffectNonIdempotentWrite []
    _ stored_at _ _ _ _).
  - vm_compute. reflexivity.
  - apply (bool_decide_unpack _). vm_compute. exact I.
  - apply NoDup_singleton.
  - vm_compute. reflexivity.
  - apply (bool_decide_unpack _). vm_compute. exact I.
Defined.
Definition after_gw {A} (m : GwTx A) (d : GatewayDB) : GatewayDB := snd (run_tx m d).
Definition commits {A} (m : GwTx A) (d : GatewayDB) : bool := match m d with inr _ => true | inl _ => false end.
Lemma commits_after {A} (m : GwTx A) d : commits m d = true → ∃ a, m d = inr (a, after_gw m d).
Proof. unfold commits, after_gw, run_tx. destruct (m d) as [|[a d']]; [done|]. eauto. Qed.
Lemma commits_unit (m : GwTx ()) d : commits m d = true → m d = inr ((), after_gw m d).
Proof. intros [[] H]%commits_after. done. Qed.
Lemma pool_binding_round_trip_witness :
  get_pool_binding "mailing" 6 (after_gw (upsert_pool_binding "mailing" "pool" mail_only 5) demo_gw) =
  inr (("pool", Some mail_only), after_gw (upsert_pool_binding "mailing" "pool" mail_only 5) demo_gw).
Proof.
  refine (pool_binding_round_trip "mailing" "pool" mail_only 5 6 demo_gw () _ _).
  apply commits_unit. vm_compute. reflexivity.
Defined.
Definition pool_grants_in : list PoolGrantInput := [mkGrantInput "fs.read" EffectReadOnly []; mkGrantInput "fs.read" EffectIdempotentWrite ["fs.read"]].
Definition pool_bindings_in : list CredentialBindingInput := [mkBindingInput "fs.read" "token" CredBearer NoJSON NoJSON].
Definition materialized : GatewayDB :=
  after_gw (materialize "ns/pool" "renamed" "spiffe://iterabase.local/pools/p1" pool_grants_in pool_bindings_in 7) demo_gw.
Lemma materialize_is_declarative_witness :
  ∃ p, gw_pools materialized !! po_ID p = Some p ∧ po_Name p = "renamed" ∧
    live_grant materialized (po_ID p) mail = None ∧
    live_grant materialized (po_ID p) "fs.read" = Some (mkGrant EffectIdempotentWrite (JArr [JStr "fs.read"]) None).
Proof.
  destruct (materialize_is_declarative "ns/pool" "renamed" "spiffe://iterabase.local/pools/p1" pool_grants_in
    pool_bindings_in 7 demo_gw () materialized) as (p & H1 & _ & H3 & _ & _ & H6 & _).
  - apply commits_unit. vm_compute. reflexivity.
  - exists p. rewrite !H6. split_and!; [exact H1|exact H3|reflexivity|reflexivity].
Defined.
Definition static_runner : ApprovedRunner :=
  mkApproved "ns" "r2" "spiffe://iterabase.local/runners/r2" ["fs"] ManagedByStaticConfig None.
Definition with_static : GatewayDB := after_gw (reconcile_static [static_runner] 3) demo_gw.
Lemma demo_keyed : approved_keyed demo_gw.
Proof.
  intros id a H. change (approved_runners demo_gw) with ({["spiffe://iterabase.local/runners/r1" := mail_runner]} : gmap string ApprovedRunner) in H.
  apply lookup_singleton_Some in H as [<- <-]. reflexivity.
Qed.
Lemma static_reconcile_is_exact_witness :
  approved_keyed with_static ∧
  approved_runners with_static !! "spiffe://iterabase.local/runners/r2" = Some static_runner ∧
  approved_runners with_static !! "spiffe://iterabase.local/runners/r1" = Some mail_runner.
Proof.
  destruct (static_reconcile_is_exact [static_runner] 3 demo_gw () with_static demo_keyed) as (Hk & Hc & Hn & _).
  - apply commits_unit. vm_compute. reflexivity.
  - split; [exact Hk|]. split; [exact (Hc "spiffe://iterabase.local/runners/r2" static_runner eq_refl)|].
    refine (Hn "spiffe://iterabase.local/runners/r1" mail_runner _ _); [|reflexivity].
    apply (bool_decide_unpack _). vm_compute. exact I.
Defined.
Definition r1_id : string := "spiffe://iterabase.local/runners/r1".
Definition r2_id : string := "spiffe://iterabase.local/runners/r2".
Lemma with_static_rows : approved_runners with_static = {[r1_id := mail_runner; r2_id := static_runner]}.
Proof. vm_compute. reflexivity. Qed.
Lemma with_static_keyed : approved_keyed with_static.
Proof.
  intros id a. rewrite with_static_rows, lookup_insert_Some.
  intros [[<- <-]|[_ [<- <-]%lookup_singleton_Some]]; reflexivity.
Qed.
Lemma with_static_r2 : approved_runners with_static !! r2_id = Some static_runner.
Proof. rewrite with_static_rows. vm_compute. reflexivity. Qed.
Definition operator_approved : GatewayDB := after_gw (upsert_approved "ns" "r2" r2_id ["fs"] 5) with_static.
Lemma operator_approval_is_withdrawn_witness :
  (∃ b, approved_runner r2_id 5 operator_approved = inr (b, operator_approved)) ∧
  approved_runner r2_id 7 (after_gw (reconcile_static [] 6) operator_approved) = inl GatewayStore.ErrNotFound.
Proof.
  refine (operator_approval_is_withdrawn "ns" "r2" r2_id ["fs"] [] static_runner 5 6 7 with_static operator_approved
    (after_gw (reconcile_static [] 6) operator_approved) () () with_static_keyed with_static_r2 eq_refl _ _ _).
  - apply not_elem_of_nil.
  - apply commits_unit. vm_compute. reflexivity.
  - apply commits_unit. vm_compute. reflexivity.
Defined.

(** A gateway that crashed while a mail was in flight. *)
Definition crashed : GatewayDB :=
  after_gw (insert_invocation mail_key stored_version (Some "pool") (GoodJSON (JObj [])) (JArr []) (Some ∅) 500 "gw" 100) demo_gw.
Lemma crashed_wf : gateway_wf crashed.
Proof.
  destruct (commits_after (insert_invocation mail_key stored_version (Some "pool") (GoodJSON (JObj [])) (JArr []) (Some ∅) 500 "gw" 100)
    demo_gw) as [a Ha]; [vm_compute; reflexivity|].
  exact (proj1 (good_insert_invocation _ _ _ _ _ _ _ _ _ _ _ _ Ha demo_gw_wf)).
Qed.
Definition crashed_row : GatewayStore.Invocation :=
  fresh_invocation "G" 100 mail_key stored_version (Some "pool") (JObj []) (JArr []) (Some ∅) 500 "gw".
Lemma crashed_ledger : ledger crashed = {["G" := crashed_row]}.
Proof. vm_compute. reflexivity. Qed.
Lemma recovery_is_exact_witness :
  ∃ d1 d2, sweep_reads 600 crashed = inr (0, d1) ∧ sweep_writes 601 d1 = inr (1, d2) ∧
    gi_State <$> ledger d2 !! "G" = Some InvocationOutcomeUnknown.
Proof.
  destruct (recovery_is_exact 600 601 crashed crashed_wf) as (d1 & d2 & H1 & H2 & ->). rewrite crashed_ledger in *.
  exists d1. eexists. split; [exact H1|]. split; [exact H2|]. vm_compute. reflexivity.
Defined.
Lemma recovery_settles_all_witness :
  ∃ c1 d1 c2 d2, sweep_reads 600 crashed = inr (c1, d1) ∧ sweep_writes 601 d1 = inr (c2, d2) ∧
    ∀ id i, ledger d2 !! id = Some i → IsTerminal (gi_State i) = true.
Proof.
  refine (recovery_settles_all 600 601 crashed crashed_wf _). intros id i t. rewrite crashed_ledger.
  intros [<- <-]%lookup_singleton_Some [= <-]. split; reflexivity.
Defined.

(** The runner offers the registered version again, with another digest. *)
Definition changed_version : ToolVersion :=
  version_row EmptyString 0 (mkToolVersion EmptyString mail "1" "sha2" (gv_Description demo_version) (gv_InputSchema demo_version)
    (gv_EffectClass demo_version) (gv_CredentialSlots demo_version) (gv_ArtifactCapabs demo_version) 1000 NoJSON
    (gv_ConsequenceTemplate demo_version) 0).
Definition republished : (GwErr + ToolVersion) * Gw Mem :=
  alone (RegisterToolVersion changed_version) demo_end.2 (inl errUnavailable).
Lemma published_version_is_immutable_witness :
  republished.1 = inl (errStore (ErrUniqueViolation "tool_versions_name_version_key")) ∧
  republished.1 ≠ inl errVersionPublished ∧ (∃ e, republished.1 = inl e).
Proof.
  split; [vm_compute; reflexivity|].
  destruct (published_version_is_immutable changed_version demo_end.2 republished.1 republished.2) as (H1 & _ & H3).
  - exact (proj1 (lg_inv _ end_ledgered)).
  - apply (alone_psteps _ (RegisterToolVersion changed_version)). vm_compute. reflexivity.
  - split; [exact H1|]. apply (H3 _ _ stored_at); vm_compute; [reflexivity|reflexivity|discriminate].
Defined.
Definition bounced : ErrorDetail := mkError "bounced" "mailbox full" RETRYABILITY_NON_RETRYABLE EmptyString.
Definition bounce : InvokeResult :=
  mkInvokeResult "G" INVOKE_STATE_FAILED EmptyString [mkArtifactRef "a1" "text/plain" 12 "sha"] (Some bounced).
Lemma reported_failure_is_replayed_witness :
  ∃ i d', ledger d' !! "G" = Some i ∧
    invocationToResponse i =
      mkResponse "G" INVOKE_STATE_FAILED NoJSON [mkArtifactRef "a1" "text/plain" 12 "sha"] (Some bounced) EmptyString.
Proof.
  destruct (reported_failure_is_replayed bounce bounced "G" 200 crashed ()
    (after_gw (finish_invocation "G" InvocationFailed NoJSON (dr_artifactRefs (invokeResultToDispatch bounce))
       (dr_errorDetail (invokeResultToDispatch bounce)) 200) crashed)) as (i & Hi & Hr).
  - reflexivity.
  - reflexivity.
  - apply Forall_cons_2; [vm_compute; split; discriminate|apply Forall_nil_2].
  - exact crashed_wf.
  - apply (commits_unit (finish_invocation "G" InvocationFailed NoJSON _ _ 200)). vm_compute. reflexivity.
  - exists i. eexists. split; [exact Hi|exact Hr].
Defined.
Definition unavailable : ErrorDetail :=
  mkError "tool_unavailable" "no live runner for the pinned tool version" RETRYABILITY_RETRYABLE EmptyString.
Definition crashed_state : Gw Mem := (crashed, mkMem ∅ [] 0 []).
Definition own_failure : (Code + InvokeResponse) * Gw Mem :=
  alone (finishFailed crashed_row unavailable) crashed_state (inl CodeInternal).
Lemma own_failure_is_not_replayed_witness :
  ∃ i, ledger own_failure.2.1 !! "G" = Some i ∧ rs_State (invocationToResponse i) = INVOKE_STATE_FAILED ∧
       rs_Error (invocationToResponse i) = None.
Proof.
  refine (proj2 (own_failure_is_not_replayed crashed_row unavailable crashed_state
    (mkResponse "G" INVOKE_STATE_FAILED NoJSON [] (Some unavailable) EmptyString) own_failure.2 crashed_wf _ _)).
  - discriminate.
  - apply (alone_psteps _ (finishFailed crashed_row unavailable) crashed_state (inl CodeInternal)). vm_compute. reflexivity.
Defined.
Definition runner_error : (Code + InvokeResponse) * Gw Mem :=
  alone (finishFromResult demo_cfg false no_artifact crashed_row stored_version (invokeErrorToDispatch (Some bounced)))
    crashed_state (inr mail_response).
Lemma invoke_error_never_commits_witness :
  runner_error.1 = inl CodeInternal ∧ rtc (λ _ _ : Gw Mem, False) crashed_state runner_error.2.
Proof.
  refine (invoke_error_never_commits _ demo_cfg false no_artifact crashed_row stored_version (Some bounced) crashed_state
    runner_error.1 runner_error.2 _).
  apply (alone_psteps _ (finishFromResult demo_cfg false no_artifact crashed_row stored_version _)). vm_compute. reflexivity.
Defined.
Definition empty_request : InvokeRequest := mkRequest "A" "E" "call-3" mail EmptyString EmptyString EmptyString [] 1.
Definition demo_resolution : CallerResolution := mkResolution demo_pool None "A" CallerScopeTurn "E".
Definition empty_run : (Code + InvokeResponse) * Gw Mem :=
  alone (invoke_authorized demo_cfg no_text false no_artifact demo_resolution stored_version empty_request (Some ∅))
    demo_end.2 (inr mail_response).
Lemma empty_arguments_never_run_witness :
  (0 ≤ cfg_InlineLimit demo_cfg → validateArguments demo_cfg any_schema EmptyString (GoodJSON (JObj [])) = true) ∧
  empty_run.1 = inl CodeInternal ∧ rtc (λ _ _ : Gw Mem, False) demo_end.2 empty_run.2.
Proof.
  refine (empty_arguments_never_run _ demo_cfg any_schema no_text false no_artifact demo_resolution stored_version
    empty_request (Some ∅) demo_end.2 empty_run.1 empty_run.2 eq_refl _).
  apply (alone_psteps _ (invoke_authorized demo_cfg no_text false no_artifact demo_resolution stored_version empty_request (Some ∅))).
  vm_compute. reflexivity.
Defined.
