(* ===== verification/IdentityActions.v ===== *)
(** The customer action catalogue (control-plane/internal/identity/actions.go) and the
    database constraints that encode the same catalogue (migration 000027): which actions
    a credential kind may hold, the gate that accepts an action set when a credential is
    issued, and the matcher that authorizes a request. *)
From S2P Require Import Prelude Json Workflow.

(** * The catalogue *)
Definition RoleAdmin : string := "admin".
Definition RoleOperator : string := "operator".
Definition CredentialKindPersonal : string := "personal".
Definition CredentialKindAutomation : string := "automation".

Definition ActionWorkflowsRead : string := "workflows.read".
Definition ActionWorkflowsStart : string := "workflows.start".
Definition ActionWorkRead : string := "work.read".
Definition ActionWorkFeedbackWrite : string := "work.feedback.write".
Definition ActionArtifactsRead : string := "artifacts.read".
Definition ActionArtifactsUpload : string := "artifacts.upload".
Definition ActionArtifactsDelete : string := "artifacts.delete".
Definition ActionInferenceModelsRead : string := "inference.models.read".
Definition ActionInferenceChatInvoke : string := "inference.chat.invoke".
Definition ActionPeopleRead : string := "people.read".
Definition ActionValueRead : string := "value.read".

Record ActionSpec := mkActionSpec {
  as_Action : string; as_Kinds : list string; as_AdminOnly : bool;
  as_Requires : list string; as_RequiresAny : list string }.
Definition both_kinds : list string := [CredentialKindPersonal; CredentialKindAutomation].
Definition actionCatalogue : list ActionSpec := [
  mkActionSpec ActionWorkflowsRead both_kinds false [] [];
  mkActionSpec ActionWorkflowsStart both_kinds false [] [];
  mkActionSpec ActionWorkRead both_kinds false [] [];
  mkActionSpec ActionWorkFeedbackWrite [CredentialKindPersonal] false [] [];
  mkActionSpec ActionArtifactsRead both_kinds false [] [];
  mkActionSpec ActionArtifactsUpload both_kinds false [] [];
  mkActionSpec ActionArtifactsDelete [CredentialKindPersonal] true [ActionArtifactsRead] [];
  mkActionSpec ActionInferenceModelsRead both_kinds false [] [];
  mkActionSpec ActionInferenceChatInvoke both_kinds false [] [];
  mkActionSpec ActionPeopleRead [CredentialKindPersonal] true [] [];
  mkActionSpec ActionValueRead [CredentialKindPersonal] true [] [ActionWorkRead; ActionWorkflowsRead] ].

Definition ActionFor (action : string) : option ActionSpec :=
  List.find (λ s, bool_decide (as_Action s = action)) actionCatalogue.
#[global] Arguments ActionFor : simpl never.
Definition KnownAction (action : string) : bool := bool_decide (is_Some (ActionFor action)).
Definition ActionAdminOnly (action : string) : bool :=
  match ActionFor action with Some s => as_AdminOnly s | None => false end.
Definition mem (x : string) (l : list string) : bool := bool_decide (x ∈ l).
Definition CatalogueActions (kind : string) : list string :=
  sort_strings (as_Action <$> filter (λ s, mem kind (as_Kinds s) = true) actionCatalogue).
Definition subsetOfActions (actions allowed : list string) : bool :=
  forallb (λ a, mem a allowed) actions.
(** [actions && required]: the arrays overlap. *)
Definition overlaps (a b : list string) : bool := existsb (λ x, mem x b) a.
Definition intersectActions (actions allowed : list string) : list string :=
  filter (λ a, mem a allowed = true) actions.
Definition AdminOnlyActions : list string :=
  filter (λ a, ActionAdminOnly a = true) (CatalogueActions CredentialKindPersonal).
#[global] Arguments AdminOnlyActions : simpl never.

(** * The gate *)
Inductive ActErr :=
| errInvalidKind (kind : string)
| errNoAction
| errInvalidAction (action : string)
| errDuplicateAction (action : string)
| errUnknownAction (action : string)
| errActionNotAvailable (action kind : string)
| errActionNeedsAdmin (action : string)
| errActionRequires (action required : string)
| errActionRequiresAny (action : string) (alternatives : list string).

Definition check_member (kind ownerRole : string) (_ : Z) (action : string) (present : list string)
    : ActErr + list string :=
  _ ← fail_if (bool_decide (action = EmptyString) || negb (bool_decide (TrimSpace action = action)))
        (errInvalidAction action);
  _ ← fail_if (mem action present) (errDuplicateAction action);
  match ActionFor action with
  | None => inl (errUnknownAction action)
  | Some spec =>
      _ ← fail_if (negb (mem kind (as_Kinds spec))) (errActionNotAvailable action kind);
      _ ← fail_if (as_AdminOnly spec && negb (bool_decide (ownerRole = RoleAdmin)))
            (errActionNeedsAdmin action);
      mret (action :: present)
  end.
Definition check_required (present : list string) (action : string) (_ : Z) (required : string)
    : ActErr + () :=
  fail_if (negb (mem required present)) (errActionRequires action required).
Definition check_prerequisites (present : list string) (_ : Z) (action : string) : ActErr + () :=
  match ActionFor action with
  | None => mret ()
  | Some spec =>
      _ ← range_check (check_required present action) 0 (as_Requires spec);
      fail_if (negb (bool_decide (as_RequiresAny spec = [])) &&
               negb (existsb (λ a, mem a present) (as_RequiresAny spec)))
        (errActionRequiresAny action (as_RequiresAny spec))
  end.
Definition ValidateActions (kind : string) (actions : list string) (ownerRole : string) : ActErr + () :=
  _ ← fail_if (negb (bool_decide (kind = CredentialKindPersonal)) &&
               negb (bool_decide (kind = CredentialKindAutomation))) (errInvalidKind kind);
  _ ← fail_if (bool_decide (actions = [])) errNoAction;
  present ← range_loop (check_member kind ownerRole) 0 actions [];
  range_check (check_prerequisites present) 0 actions.

(** * The matcher *)
Definition prerequisites_met (have : list string) (spec : ActionSpec) : bool :=
  forallb (λ a, mem a have) (as_Requires spec) &&
  (bool_decide (as_RequiresAny spec = []) || existsb (λ a, mem a have) (as_RequiresAny spec)).
Definition ActionsSatisfied (granted : list string) (required : string) : bool :=
  match ActionFor required with
  | None => false
  | Some spec => mem required granted && prerequisites_met granted spec
  end.

(** * The constraints of the table *)
Definition db_actions : list string := [
  "workflows.read"; "workflows.start"; "work.read"; "work.feedback.write";
  "artifacts.read"; "artifacts.upload"; "artifacts.delete";
  "inference.models.read"; "inference.chat.invoke"; "people.read"; "value.read" ].
Definition db_automation_actions : list string := [
  "workflows.read"; "workflows.start"; "work.read"; "artifacts.read"; "artifacts.upload";
  "inference.models.read"; "inference.chat.invoke" ].
(** [api_keys_actions_known]; a check whose value is NULL passes. *)
Definition api_keys_actions_known (actions : option (list string)) : bool :=
  match actions with
  | None => true
  | Some a => subsetOfActions a db_actions && negb (mem "*" a)
  end.
(** [api_keys_actions_by_type]. *)
Definition api_keys_actions_by_type (key_type : option string) (actions : option (list string)) : bool :=
  match key_type, actions with
  | Some k, Some a =>
      (bool_decide (k = CredentialKindPersonal) && subsetOfActions a db_actions) ||
      (bool_decide (k = CredentialKindAutomation) && subsetOfActions a db_automation_actions)
  | Some k, None => bool_decide (k = CredentialKindPersonal) || bool_decide (k = CredentialKindAutomation)
  | None, _ => true
  end.

(** * What the gate accepts *)
(** The catalogue contract as a predicate on the set alone. *)
Definition action_allowed (kind role : string) (actions : list string) (action : string) : Prop :=
  ∃ spec, ActionFor action = Some spec ∧ kind ∈ as_Kinds spec ∧
    (as_AdminOnly spec = true → role = RoleAdmin) ∧
    (∀ r, r ∈ as_Requires spec → r ∈ actions) ∧
    (as_RequiresAny spec = [] ∨ ∃ r, r ∈ as_RequiresAny spec ∧ r ∈ actions).
Definition actions_contract (kind : string) (actions : list string) (role : string) : Prop :=
  kind ∈ both_kinds ∧ actions ≠ [] ∧ NoDup actions ∧
  ∀ a, a ∈ actions → action_allowed kind role actions a.

Lemma mem_true x l : mem x l = true ↔ x ∈ l.
Proof. apply bool_decide_eq_true. Qed.
Lemma mem_false x l : mem x l = false ↔ x ∉ l.
Proof. apply bool_decide_eq_false. Qed.
Lemma subsetOfActions_true a l : subsetOfActions a l = true ↔ ∀ x, x ∈ a → x ∈ l.
Proof.
  unfold subsetOfActions. rewrite forallb_forall. setoid_rewrite mem_true.
  by setoid_rewrite <- list_elem_of_In.
Qed.
Lemma overlaps_true a b : overlaps a b = true ↔ ∃ x, x ∈ a ∧ x ∈ b.
Proof.
  unfold overlaps. rewrite existsb_exists. setoid_rewrite mem_true.
  by setoid_rewrite <- list_elem_of_In.
Qed.
Lemma existsb_mem l have : existsb (λ a, mem a have) l = true ↔ ∃ x, x ∈ l ∧ x ∈ have.
Proof. apply overlaps_true. Qed.
Lemma elem_of_intersect x actions allowed :
  x ∈ intersectActions actions allowed ↔ x ∈ actions ∧ x ∈ allowed.
Proof. unfold intersectActions. rewrite list_elem_of_filter, mem_true. naive_solver. Qed.
Lemma ActionFor_Some a spec :
  ActionFor a = Some spec → spec ∈ actionCatalogue ∧ as_Action spec = a.
Proof.
  intros H. apply find_some in H as [H1 H2].
  split; [by apply list_elem_of_In|by apply bool_decide_eq_true in H2].
Qed.
(** No catalogue entry is empty or padded. *)
Lemma known_action_trimmed a spec :
  ActionFor a = Some spec → a ≠ EmptyString ∧ TrimSpace a = a.
Proof.
  intros [Hin <-]%ActionFor_Some. revert Hin.
  assert (Forall (λ s, as_Action s ≠ EmptyString ∧ TrimSpace (as_Action s) = as_Action s) actionCatalogue)
    as H by (repeat constructor; done).
  by intros ?%(proj1 (Forall_forall _ _) H).
Qed.

Lemma check_member_inr kind role i a present p :
  check_member kind role i a present = inr p ↔
  p = a :: present ∧ a ∉ present ∧
  ∃ spec, ActionFor a = Some spec ∧ kind ∈ as_Kinds spec ∧ (as_AdminOnly spec = true → role = RoleAdmin).
Proof.
  unfold check_member. split.
  - intros H. inv_res. destruct (ActionFor a) as [spec|] eqn:Hs; [|done]. inv_res.
    injection H as <-. rewrite mem_false in *. rewrite negb_false_iff, mem_true in *.
    split_and!; [done..|]. exists spec. split_and!; [done..|]. intros Ha.
    rewrite Ha in *. cbn in *. rewrite negb_false_iff, bool_decide_eq_true in *. done.
  - intros (-> & Hn & spec & Hs & Hk & Ha). destruct (known_action_trimmed _ _ Hs) as [H1 H2].
    rewrite (bool_decide_eq_false_2 _ H1), (bool_decide_eq_true_2 _ H2). cbn.
    apply mem_false in Hn. rewrite Hn. cbn. rewrite Hs. apply mem_true in Hk. rewrite Hk. cbn.
    destruct (as_AdminOnly spec); cbn; [|done]. by rewrite bool_decide_eq_true_2 by auto.
Qed.
Lemma range_members kind role l i present p :
  range_loop (check_member kind role) i l present = inr p →
  p = reverse l ++ present ∧ (NoDup present → NoDup (l ++ present)) ∧
  ∀ a, a ∈ l → ∃ spec, ActionFor a = Some spec ∧ kind ∈ as_Kinds spec ∧
    (as_AdminOnly spec = true → role = RoleAdmin).
Proof.
  revert i present. induction l as [|a l IH]; intros i present H; cbn in H.
  - injection H as <-. split_and!; [done..|]. intros a Ha. by apply not_elem_of_nil in Ha.
  - inv_res. apply check_member_inr in H0 as (-> & Hn & Hs). apply IH in H as (-> & Hd & Hl).
    split_and!.
    + by rewrite reverse_cons, <- app_assoc.
    + intros Hp. assert (NoDup (l ++ a :: present)) as Hq by (apply Hd; by constructor).
      rewrite <- Permutation_middle in Hq. by rewrite <- app_comm_cons.
    + intros b [->|Hb]%elem_of_cons; eauto.
Qed.
Lemma range_members_ok kind role l i present :
  NoDup (l ++ present) →
  (∀ a, a ∈ l → ∃ spec, ActionFor a = Some spec ∧ kind ∈ as_Kinds spec ∧
    (as_AdminOnly spec = true → role = RoleAdmin)) →
  range_loop (check_member kind role) i l present = inr (reverse l ++ present).
Proof.
  revert i present. induction l as [|a l IH]; intros i present Hd Hl; [done|].
  rewrite reverse_cons, <- app_assoc. cbn [range_loop].
  rewrite <- app_comm_cons in Hd. apply NoDup_cons in Hd as [Hn Hd].
  rewrite (proj2 (check_member_inr kind role i a present (a :: present))).
  2:{ split; [done|]. split; [set_solver|]. apply Hl. by left. }
  unfold mbind, result_bind. rewrite IH; [done| |set_solver].
  rewrite <- Permutation_middle. by constructor.
Qed.
Lemma prerequisites_ok present i a spec :
  ActionFor a = Some spec →
  check_prerequisites present i a = inr () ↔
  (∀ r, r ∈ as_Requires spec → r ∈ present) ∧
  (as_RequiresAny spec = [] ∨ ∃ r, r ∈ as_RequiresAny spec ∧ r ∈ present).
Proof.
  intros Hs. unfold check_prerequisites. rewrite Hs, result_bind_inr.
  setoid_rewrite (range_check_Forall (check_required present a) (λ r, r ∈ present)).
  2:{ intros j b. unfold check_required. by rewrite fail_if_inr, negb_false_iff, mem_true. }
  setoid_rewrite fail_if_inr. setoid_rewrite andb_false_iff. setoid_rewrite negb_false_iff.
  setoid_rewrite bool_decide_eq_true. setoid_rewrite existsb_mem.
  setoid_rewrite Forall_forall. split; [by intros (_ & ? & ?)|]. by exists ().
Qed.

Lemma validate_actions_contract kind actions role :
  ValidateActions kind actions role = inr () ↔ actions_contract kind actions role.
Proof.
  unfold ValidateActions, actions_contract, both_kinds. split.
  - intros H. inv_res. rewrite bool_decide_eq_false in *.
    apply range_members in H2 as (-> & Hd & Hl). rewrite app_nil_r in *.
    split_and!; [|done|by apply Hd, NoDup_nil|].
    + apply andb_false_iff in H0. rewrite !negb_false_iff, !bool_decide_eq_true in H0. set_solver.
    + intros a Ha. destruct (Hl a Ha) as (spec & Hs & Hk & Hr). exists spec. split_and!; [done..| |];
        apply list_elem_of_lookup in Ha as [j Hj];
        apply (proj1 (range_check_inr _ _ _ _)) with (j := j) (a := a) in H; [|done| |done];
        apply (prerequisites_ok _ _ _ _ Hs) in H as [Hq Ho].
      * intros r ?%Hq. by rewrite elem_of_reverse in *.
      * setoid_rewrite elem_of_reverse in Ho. done.
  - intros (Hk & Hne & Hd & Ha). rewrite (bool_decide_eq_false_2 _ Hne).
    replace (negb _ && negb _) with false.
    2:{ symmetry. rewrite andb_false_iff, !negb_false_iff, !bool_decide_eq_true. set_solver. }
    cbn. rewrite range_members_ok, app_nil_r; [|by rewrite app_nil_r|].
    2:{ intros a (spec & ? & ? & ? & _)%Ha. eauto. }
    apply range_check_inr. intros j a Hj. apply list_elem_of_lookup_2 in Hj.
    destruct (Ha a Hj) as (spec & Hs & _ & _ & Hq & Ho). apply (prerequisites_ok _ _ _ _ Hs).
    setoid_rewrite elem_of_reverse. done.
Qed.

(** The first error of the gate is the one of the first offending action, so acceptance
    never depends on the order of the slice. *)
Lemma validate_actions_permutation kind role l l' :
  l ≡ₚ l' → ValidateActions kind l role = inr () ↔ ValidateActions kind l' role = inr ().
Proof.
  enough (∀ l l', l ≡ₚ l' → actions_contract kind l role → actions_contract kind l' role) as H.
  { intros Hp. rewrite !validate_actions_contract. split; apply H; [done|by symmetry]. }
  clear l l'. intros l l' Hp (Hk & Hne & Hd & Ha).
  assert (∀ x : string, x ∈ l ↔ x ∈ l') as He by (intros x; by rewrite Hp).
  split_and!; [done|intros ->; by apply Permutation_nil_r in Hp|by rewrite <- Hp|].
  intros a Hin. apply He, Ha in Hin as (spec & Hs & Hkd & Hr & Hq & Ho). exists spec. naive_solver.
Qed.

Lemma ActionsSatisfied_true granted a :
  ActionsSatisfied granted a = true ↔
  ∃ spec, ActionFor a = Some spec ∧ a ∈ granted ∧ (∀ r, r ∈ as_Requires spec → r ∈ granted) ∧
    (as_RequiresAny spec = [] ∨ ∃ r, r ∈ as_RequiresAny spec ∧ r ∈ granted).
Proof.
  unfold ActionsSatisfied, prerequisites_met. destruct (ActionFor a) as [spec|]; [|naive_solver].
  rewrite !andb_true_iff, orb_true_iff, mem_true, bool_decide_eq_true, existsb_mem.
  change (forallb _ (as_Requires spec)) with (subsetOfActions (as_Requires spec) granted).
  rewrite subsetOfActions_true. naive_solver.
Qed.

(** Every entry of the catalogue is one of the strings the table accepts, by kind. *)
Lemma catalogue_matches_table spec :
  spec ∈ actionCatalogue →
  as_Action spec ∈ db_actions ∧ (CredentialKindAutomation ∈ as_Kinds spec ↔ as_Action spec ∈ db_automation_actions) ∧
  CredentialKindPersonal ∈ as_Kinds spec ∧ (as_AdminOnly spec = true → CredentialKindAutomation ∉ as_Kinds spec).
Proof.
  intros Hin. apply list_elem_of_In in Hin.
  assert (forallb (λ s, mem (as_Action s) db_actions &&
    Bool.eqb (mem CredentialKindAutomation (as_Kinds s)) (mem (as_Action s) db_automation_actions) &&
    mem CredentialKindPersonal (as_Kinds s) &&
    implb (as_AdminOnly s) (negb (mem CredentialKindAutomation (as_Kinds s)))) actionCatalogue = true) as H
    by by vm_compute.
  rewrite forallb_forall in H. apply H in Hin.
  rewrite !andb_true_iff, Bool.eqb_true_iff, implb_true_iff in Hin. destruct Hin as [[[H1 H2] H3] H4].
  rewrite <- !mem_true, H2. split_and!; [done..|]. intros Ha%H4. rewrite H2 in Ha.
  by apply negb_true_iff, not_true_iff_false in Ha.
Qed.
Lemma table_matches_catalogue a : a ∈ db_actions → is_Some (ActionFor a).
Proof.
  intros Ha. apply list_elem_of_In in Ha.
  assert (forallb KnownAction db_actions = true) as H by by vm_compute.
  rewrite forallb_forall in H. by apply H, bool_decide_eq_true in Ha.
Qed.

Lemma known_iff_table a : KnownAction a = true ↔ a ∈ db_actions.
Proof.
  unfold KnownAction. rewrite bool_decide_eq_true. split; [|apply table_matches_catalogue].
  intros [spec Hs]. apply ActionFor_Some in Hs as [Hin <-]. by apply catalogue_matches_table.
Qed.
(** What the gate accepts, the table accepts. *)
Lemma validated_by_table kind actions role :
  ValidateActions kind actions role = inr () →
  api_keys_actions_known (Some actions) = true ∧
  api_keys_actions_by_type (Some kind) (Some actions) = true ∧ actions ≠ [].
Proof.
  intros (Hk & Hne & Hd & Ha)%validate_actions_contract. unfold api_keys_actions_known, api_keys_actions_by_type.
  assert (∀ a, a ∈ actions → a ∈ db_actions ∧ (kind = CredentialKindAutomation → a ∈ db_automation_actions)) as Hdb.
  { intros a (spec & Hs & Hkd & _)%Ha. apply ActionFor_Some in Hs as [Hin <-].
    destruct (catalogue_matches_table _ Hin) as (H1 & H2 & _). split; [done|]. intros ->. by apply H2. }
  rewrite andb_true_iff, negb_true_iff, orb_true_iff, !andb_true_iff, !bool_decide_eq_true, !subsetOfActions_true,
    mem_false.
  split_and!; [naive_solver| | |done].
  - intros Hs. apply Hdb in Hs as [Hs _]. apply mem_true in Hs. by vm_compute in Hs.
  - unfold both_kinds in Hk. apply elem_of_cons in Hk as [->|Hk%list_elem_of_singleton]; [|subst kind]; [left|right]; naive_solver.
Qed.
(** No credential that the gate accepts for an owner who is no Admin holds an Admin-only
    action, and no automation credential ever does. *)
Lemma validated_admin_only kind actions role a :
  ValidateActions kind actions role = inr () → a ∈ actions → ActionAdminOnly a = true →
  kind = CredentialKindPersonal ∧ role = RoleAdmin.
Proof.
  intros (Hk & _ & _ & Ha)%validate_actions_contract Hin Had.
  destruct (Ha a Hin) as (spec & Hs & Hkd & Hr & _). unfold ActionAdminOnly in Had. rewrite Hs in Had.
  split; [|by apply Hr]. apply ActionFor_Some in Hs as [Hin' _].
  destruct (catalogue_matches_table _ Hin') as (_ & _ & _ & H4). unfold both_kinds in Hk.
  apply elem_of_cons in Hk as [->|Hk%list_elem_of_singleton]; [done|]. subst kind. by destruct (H4 Had).
Qed.
Lemma elem_of_AdminOnlyActions a : a ∈ AdminOnlyActions ↔ ActionAdminOnly a = true.
Proof.
  split; [by intros [? _]%list_elem_of_filter|]. intros Ha. apply list_elem_of_filter. split; [done|].
  unfold CatalogueActions. rewrite sort_strings_perm, list_elem_of_fmap. unfold ActionAdminOnly in Ha.
  destruct (ActionFor a) as [spec|] eqn:Hs; [|done]. apply ActionFor_Some in Hs as [Hin <-].
  exists spec. split; [done|]. apply list_elem_of_filter. split; [|done].
  apply mem_true. by apply catalogue_matches_table.
Qed.

(** The issuing gate and the request matcher agree on every action set: the gate's
    answer depends on the set alone and not on the slice's order, every set it accepts is
    accepted by the table's constraints for that credential kind, and a credential issued
    with that set is authorized for exactly the actions it holds, so no prerequisite that
    was checked at issue can fail a later request. *)
Theorem issued_actions_are_enforced kind actions role :
  ValidateActions kind actions role = inr () →
  (∀ l, l ≡ₚ actions → ValidateActions kind l role = inr ()) ∧
  api_keys_actions_known (Some actions) = true ∧
  api_keys_actions_by_type (Some kind) (Some actions) = true ∧
  (∀ a, ActionsSatisfied actions a = true ↔ a ∈ actions) ∧
  (∀ a, a ∈ actions → ActionAdminOnly a = true → kind = CredentialKindPersonal ∧ role = RoleAdmin).
Proof.
  intros H. destruct (validated_by_table _ _ _ H) as (Hk & Ht & _).
  split_and!; [|done..| |by intros; eapply validated_admin_only].
  - intros l Hl. by apply (validate_actions_permutation _ _ _ _ Hl).
  - intros a. rewrite ActionsSatisfied_true. apply validate_actions_contract in H as (_ & _ & _ & Ha).
    split; [naive_solver|]. intros Hin. destruct (Ha a Hin) as (spec & ? & _ & _ & ? & ?). eauto.
Qed.
Lemma issued_actions_are_enforced_witness :
  ActionsSatisfied [ActionValueRead; ActionArtifactsDelete; ActionWorkRead; ActionArtifactsRead] ActionValueRead = true.
Proof.
  destruct (issued_actions_are_enforced CredentialKindPersonal
    [ActionValueRead; ActionArtifactsDelete; ActionWorkRead; ActionArtifactsRead] RoleAdmin) as (_ & _ & _ & H & _).
  - by vm_compute.
  - apply H. by left.
Defined.
