(* ===== verification/IdentityData.v ===== *)
(** The identity schema of the control plane: the tables of migrations 000002, 000026 and
    000027 that the identity package reads and writes, with the constraints PostgreSQL
    enforces on them, and the security audit (control-plane/internal/identity/audit.go).

    A transaction is a [Tx]: an error discards its writes. An operation receives the
    identifiers and secrets it generates as arguments. [now] is the caller's clock,
    [pgnow] is [now()] of the transaction. A statement that fails for reasons outside the
    program (a lost connection) leaves the transaction uncommitted and is not represented;
    identifiers are well-formed. *)
From S2P Require Import Prelude Json IdentityActions.

(** * Rows *)
Definition KindUser : string := "user".
Definition KindServiceAccount : string := "service_account".
Definition SourceLocal : string := "local".
Definition valid_kind (k : string) : bool := mem k ["user"; "group"; "service_account"; "workflow"].
Definition valid_source (k : string) : bool := mem k ["local"; "external"; "external-auto"].

Record Identity := mkIdentity {
  id_ID : uuid; id_Key : string; id_Kind : string; id_Source : string; id_DisplayName : string }.
Record IdentityRow := mkIdentityRow {
  ir_Identity : Identity; ir_UpdatedAt : timestamp; ir_DeletedAt : option timestamp }.
Record Binding := mkBindingID { bd_Provider : string; bd_Type : string; bd_ExternalID : string }.
#[export] Instance Binding_eq : EqDecision Binding. Proof. solve_decision. Defined.
#[export] Instance Binding_countable : Countable Binding.
Proof.
  refine (inj_countable' (λ b, (bd_Provider b, bd_Type b, bd_ExternalID b)) (λ '(p, t, e), mkBindingID p t e) _).
  by intros [].
Defined.

(** Account states. *)
Inductive UserStatus := LocalUserSetupPending | LocalUserActive | LocalUserDisabled.
#[export] Instance UserStatus_eq : EqDecision UserStatus. Proof. solve_decision. Defined.
Record LocalUserRow := mkLocalUser {
  lu_Email : string; lu_EmailNormalized : string; lu_DisplayName : string; lu_Role : string;
  lu_Locale : string; lu_Status : UserStatus; lu_PasswordHash : option string;
  lu_PasswordChangedAt : option timestamp; lu_CreatedAt : timestamp; lu_UpdatedAt : timestamp;
  lu_ApprovedAccessRequestID : option uuid; lu_RoleChangedAt : option timestamp;
  lu_RoleChangedBy : option uuid; lu_AccountChangedAt : option timestamp;
  lu_AccountChangedBy : option uuid }.
(** [LocalUser]: the account joined with its identity. *)
Record LocalUser := mkUser { us_Identity : Identity; us_Row : LocalUserRow }.
Definition us_ID (u : LocalUser) : uuid := id_ID (us_Identity u).

(** Credentials. *)
Inductive KeyStatus := KeyActive | KeyRetiring | KeySuspended | KeyExpired | KeyRevoked.
#[export] Instance KeyStatus_eq : EqDecision KeyStatus. Proof. solve_decision. Defined.
Inductive Epoch := AuthorityEpochLegacy | AuthorityEpochV2.
#[export] Instance Epoch_eq : EqDecision Epoch. Proof. solve_decision. Defined.
Record ApiKeyRow := mkApiKey {
  ak_IdentityID : uuid; ak_KeyHash : string; ak_Prefix : string; ak_Name : string; ak_Purpose : string;
  ak_Scope : option string; ak_ExpiresAt : option timestamp; ak_LastUsedAt : option timestamp;
  ak_RevokedAt : option timestamp; ak_CreatedAt : timestamp; ak_FamilyID : option uuid; ak_Version : Z;
  ak_KeyType : option string; ak_Owner : option uuid; ak_Actor : option uuid;
  ak_Actions : option (list string); ak_Status : KeyStatus; ak_SuspensionReason : option string;
  ak_RevocationReason : option string; ak_RateRPM : option Z; ak_RateTPM : option Z;
  ak_RetiringUntil : option timestamp; ak_CreatedBy : option uuid; ak_Epoch : Epoch }.
Record OwnershipTransfer := mkTransfer {
  ot_FamilyID : uuid; ot_CredentialID : uuid; ot_PriorOwner : uuid; ot_NewOwner : uuid;
  ot_TransferredBy : uuid; ot_Reason : option string; ot_CorrelationID : option string;
  ot_CreatedAt : timestamp }.

(** Access requests. *)
Inductive RequestState :=
| AccessRequestVerificationPending | AccessRequestApprovalPending | AccessRequestApproved
| AccessRequestDeclined | AccessRequestExpired.
#[export] Instance RequestState_eq : EqDecision RequestState. Proof. solve_decision. Defined.
Record AccessRequest := mkRequest {
  ar_ID : uuid; ar_Email : string; ar_EmailNormalized : string; ar_Locale : string;
  ar_State : RequestState; ar_TerminalReason : option string; ar_VerifiedAt : option timestamp;
  ar_ReviewedBy : option uuid; ar_ReviewedAt : option timestamp; ar_ApprovedIdentityID : option uuid;
  ar_ApprovedRole : option string; ar_PurgeAt : timestamp; ar_CreatedAt : timestamp }.

(** The authentication mail outbox and the one-time links. *)
Inductive OutboxState :=
| AuthEmailPending | AuthEmailLeased | AuthEmailAccepted | AuthEmailOutcomeUnknown | AuthEmailFailed.
#[export] Instance OutboxState_eq : EqDecision OutboxState. Proof. solve_decision. Defined.
Inductive LinkPurpose := AuthLinkVerifyAccess | AuthLinkSetupPassword | AuthLinkResetPassword.
#[export] Instance LinkPurpose_eq : EqDecision LinkPurpose. Proof. solve_decision. Defined.
Record OutboxRow := mkOutbox {
  ob_Purpose : LinkPurpose; ob_RecipientEmail : string; ob_RecipientIdentityID : option uuid;
  ob_AccessRequestID : option uuid; ob_Locale : string; ob_State : OutboxState; ob_Attempts : Z;
  ob_LeaseOwner : option string; ob_LeasedUntil : option timestamp; ob_AcceptedAt : option timestamp;
  ob_OutcomeUnknownAt : option timestamp; ob_TerminalAt : option timestamp;
  ob_LastErrorClass : option string; ob_CreatedAt : timestamp }.
Record AuthLinkRow := mkLink {
  al_TokenHash : string; al_Purpose : LinkPurpose; al_AccessRequestID : option uuid;
  al_IdentityID : option uuid; al_OutboxID : option uuid; al_Generation : Z; al_IssuedAt : timestamp;
  al_ExpiresAt : timestamp; al_ConsumedAt : option timestamp; al_InvalidatedAt : option timestamp;
  al_InvalidatedReason : option string; al_CreatedAt : timestamp }.

(** Browser sessions. *)
Inductive Termination :=
| TerminationRevoked | TerminationIdleExpired | TerminationAbsoluteExpired
| TerminationAccountRevoked | TerminationPasswordRevoked | TerminationRoleRevoked.
#[export] Instance Termination_eq : EqDecision Termination. Proof. solve_decision. Defined.
Record SessionRow := mkSession {
  bs_TokenHash : string; bs_IdentityID : uuid; bs_CSRFHash : string; bs_CreatedAt : timestamp;
  bs_LastAuthorizedAt : timestamp; bs_IdleExpiresAt : timestamp; bs_AbsoluteExpiresAt : timestamp;
  bs_RecentPasswordAt : option timestamp; bs_TerminatedAt : option timestamp;
  bs_TerminationReason : option Termination; bs_CreatedIP : option string; bs_LastIP : option string;
  bs_LocationCountry : option string; bs_LocationRegion : option string; bs_Browser : option string;
  bs_OS : option string; bs_Device : option string }.

(** The security audit: one row per event, with its purgeable network evidence. *)
Inductive Outcome := OutcomeSuccess | OutcomeFailure | OutcomeDenied | OutcomeUnknown.
#[export] Instance Outcome_eq : EqDecision Outcome. Proof. solve_decision. Defined.
Record EventNetwork := mkNetwork {
  en_SourceIP : string; en_LocationCountry : string; en_LocationRegion : string }.
Record SecurityEvent := mkEvent {
  se_Event : string; se_Outcome : Outcome; se_Reason : string; se_InitiatingHuman : uuid;
  se_RequestActor : uuid; se_ActorRole : string; se_Subject : uuid; se_AccessRequestID : uuid; se_BrowserSessionID : uuid;
  se_APIKeyID : uuid; se_KeyOwner : uuid; se_CredentialKind : string; se_RequestID : string;
  se_CorrelationID : string;
  se_Detail : json; se_Network : option EventNetwork; se_CreatedAt : timestamp }.

Record ThrottleRow := mkThrottle {
  th_WindowStartedAt : timestamp; th_Attempts : Z; th_BlockedUntil : option timestamp;
  th_UpdatedAt : timestamp }.

(** The authority epoch record. *)
Record AuthorityRow := mkAuthority {
  au_Epoch : Epoch; au_SourceFingerprint : option string; au_PreflightAt : option timestamp;
  au_PreflightResult : json; au_CutoverID : option string; au_CutoverAt : option timestamp;
  au_CutoverOperator : option string; au_CutoverRelease : option string; au_CutoverResult : json;
  au_VerifiedAt : option timestamp; au_VerificationResult : json }.
(** The relations of the six schemas, whether the gateway role exists and what it may read,
    and whether the legacy view [identity.active_api_keys] exists. *)
Record GatewayAcl := mkAcl {
  acl_Role : bool; acl_Relations : gset string; acl_Select : gset string; acl_LegacyView : bool }.

Record IdentityDB := mkIdentityDB {
  identities : gmap uuid IdentityRow;
  external_mappings : gmap Binding uuid;
  local_users : gmap uuid LocalUserRow;
  api_keys : gmap uuid ApiKeyRow;
  ownership_history : list OwnershipTransfer;
  access_requests : gmap uuid AccessRequest;
  auth_email_outbox : gmap uuid OutboxRow;
  auth_link_tokens : gmap uuid AuthLinkRow;
  browser_sessions : gmap uuid SessionRow;
  security_events : list SecurityEvent;
  auth_throttle_counters : gmap (string * string) ThrottleRow;
  bootstrap_marker : option (string * timestamp);
  authority_state : AuthorityRow;
  gateway_acl : GatewayAcl }.
Definition put_identities (v : gmap uuid IdentityRow) (d : IdentityDB) : IdentityDB :=
  mkIdentityDB v (external_mappings d) (local_users d) (api_keys d) (ownership_history d)
    (access_requests d) (auth_email_outbox d) (auth_link_tokens d) (browser_sessions d)
    (security_events d) (auth_throttle_counters d) (bootstrap_marker d) (authority_state d)
    (gateway_acl d).
Definition put_mappings (v : gmap Binding uuid) (d : IdentityDB) : IdentityDB :=
  mkIdentityDB (identities d) v (local_users d) (api_keys d) (ownership_history d) (access_requests
    d) (auth_email_outbox d) (auth_link_tokens d) (browser_sessions d) (security_events d)
    (auth_throttle_counters d) (bootstrap_marker d) (authority_state d) (gateway_acl d).
Definition put_users (v : gmap uuid LocalUserRow) (d : IdentityDB) : IdentityDB :=
  mkIdentityDB (identities d) (external_mappings d) v (api_keys d) (ownership_history d)
    (access_requests d) (auth_email_outbox d) (auth_link_tokens d) (browser_sessions d)
    (security_events d) (auth_throttle_counters d) (bootstrap_marker d) (authority_state d)
    (gateway_acl d).
Definition put_keys (v : gmap uuid ApiKeyRow) (d : IdentityDB) : IdentityDB :=
  mkIdentityDB (identities d) (external_mappings d) (local_users d) v (ownership_history d)
    (access_requests d) (auth_email_outbox d) (auth_link_tokens d) (browser_sessions d)
    (security_events d) (auth_throttle_counters d) (bootstrap_marker d) (authority_state d)
    (gateway_acl d).
Definition put_history (v : list OwnershipTransfer) (d : IdentityDB) : IdentityDB :=
  mkIdentityDB (identities d) (external_mappings d) (local_users d) (api_keys d) v (access_requests
    d) (auth_email_outbox d) (auth_link_tokens d) (browser_sessions d) (security_events d)
    (auth_throttle_counters d) (bootstrap_marker d) (authority_state d) (gateway_acl d).
Definition put_requests (v : gmap uuid AccessRequest) (d : IdentityDB) : IdentityDB :=
  mkIdentityDB (identities d) (external_mappings d) (local_users d) (api_keys d) (ownership_history
    d) v (auth_email_outbox d) (auth_link_tokens d) (browser_sessions d) (security_events d)
    (auth_throttle_counters d) (bootstrap_marker d) (authority_state d) (gateway_acl d).
Definition put_outbox (v : gmap uuid OutboxRow) (d : IdentityDB) : IdentityDB :=
  mkIdentityDB (identities d) (external_mappings d) (local_users d) (api_keys d) (ownership_history
    d) (access_requests d) v (auth_link_tokens d) (browser_sessions d) (security_events d)
    (auth_throttle_counters d) (bootstrap_marker d) (authority_state d) (gateway_acl d).
Definition put_links (v : gmap uuid AuthLinkRow) (d : IdentityDB) : IdentityDB :=
  mkIdentityDB (identities d) (external_mappings d) (local_users d) (api_keys d) (ownership_history
    d) (access_requests d) (auth_email_outbox d) v (browser_sessions d) (security_events d)
    (auth_throttle_counters d) (bootstrap_marker d) (authority_state d) (gateway_acl d).
Definition put_sessions (v : gmap uuid SessionRow) (d : IdentityDB) : IdentityDB :=
  mkIdentityDB (identities d) (external_mappings d) (local_users d) (api_keys d) (ownership_history
    d) (access_requests d) (auth_email_outbox d) (auth_link_tokens d) v (security_events d)
    (auth_throttle_counters d) (bootstrap_marker d) (authority_state d) (gateway_acl d).
Definition put_events (v : list SecurityEvent) (d : IdentityDB) : IdentityDB :=
  mkIdentityDB (identities d) (external_mappings d) (local_users d) (api_keys d) (ownership_history
    d) (access_requests d) (auth_email_outbox d) (auth_link_tokens d) (browser_sessions d) v
    (auth_throttle_counters d) (bootstrap_marker d) (authority_state d) (gateway_acl d).
Definition put_throttle (v : gmap (string * string) ThrottleRow) (d : IdentityDB) : IdentityDB :=
  mkIdentityDB (identities d) (external_mappings d) (local_users d) (api_keys d) (ownership_history
    d) (access_requests d) (auth_email_outbox d) (auth_link_tokens d) (browser_sessions d)
    (security_events d) v (bootstrap_marker d) (authority_state d) (gateway_acl d).
Definition put_marker (v : option (string * timestamp)) (d : IdentityDB) : IdentityDB :=
  mkIdentityDB (identities d) (external_mappings d) (local_users d) (api_keys d) (ownership_history
    d) (access_requests d) (auth_email_outbox d) (auth_link_tokens d) (browser_sessions d)
    (security_events d) (auth_throttle_counters d) v (authority_state d) (gateway_acl d).
Definition put_authority (v : AuthorityRow) (d : IdentityDB) : IdentityDB :=
  mkIdentityDB (identities d) (external_mappings d) (local_users d) (api_keys d) (ownership_history
    d) (access_requests d) (auth_email_outbox d) (auth_link_tokens d) (browser_sessions d)
    (security_events d) (auth_throttle_counters d) (bootstrap_marker d) v (gateway_acl d).
Definition put_acl (v : GatewayAcl) (d : IdentityDB) : IdentityDB :=
  mkIdentityDB (identities d) (external_mappings d) (local_users d) (api_keys d) (ownership_history
    d) (access_requests d) (auth_email_outbox d) (auth_link_tokens d) (browser_sessions d)
    (security_events d) (auth_throttle_counters d) (bootstrap_marker d) (authority_state d) v.

(** * Errors *)
Inductive IdErr :=
| ErrNotFoundID
| ErrInvalidAPIKey
| ErrConstraint
| ErrInvalidEmail
| ErrInvalidScope
| ErrScanNull
| ErrInvalidRole
| ErrLastAdmin
| ErrPersonStateChanged
| ErrProfileConflict
| ErrCredentialNotEligible
| ErrCredentialInsufficient
| ErrInvalidCredentialKind
| ErrInvalidCredentialAction (e : ActErr)
| ErrOwnerNotEligible
| ErrOwnerActorShape
| ErrRatePolicy
| ErrExpiry
| ErrSameOwner
| ErrAccountNotEligible
| ErrAuthLinkInvalid
| ErrAuthLinkExpired
| ErrAuthLinkSuperseded
| ErrAuthLinkConsumed
| ErrAccessRequestNotFound
| ErrAccountExists
| ErrRequestStateChanged
| ErrSessionInvalid
| ErrSessionExpired
| ErrSessionIneligible
| ErrUnsupportedLocale
| ErrPasswordPolicy
| ErrBootstrapInconsistent
| ErrRecoveryNotPermitted
| ErrIntentNotLeased
| ErrIntentNotFound
| ErrAuthorityNotV2
| ErrAuthorityCutoverBlocked.
Notation tx := (Tx IdentityDB IdErr).

(** * Statements *)
(** [UPDATE ... WHERE]: the rows that match, and how many there are. *)
Definition update_where {K R} `{Countable K} (P : K → R → bool) (f : R → R) (t : gmap K R) : gmap K R :=
  map_imap (λ k r, Some (if P k r then f r else r)) t.
Definition count_where {K R} `{Countable K} (P : K → R → bool) (t : gmap K R) : Z :=
  Z.of_nat (size (filter (λ kr, P kr.1 kr.2 = true) t)).
(** [DELETE ... WHERE]. *)
Definition delete_where {K R} `{Countable K} (P : K → R → bool) (t : gmap K R) : gmap K R :=
  filter (λ kr, P kr.1 kr.2 = false) t.
(** A lookup on a unique column. *)
Definition find_row {K R} `{Countable K} (P : K → R → bool) (t : gmap K R) : option (K * R) :=
  head (filter (λ kr, P kr.1 kr.2 = true) (map_to_list t)).
Definition exists_where {K R} `{Countable K} (P : K → R → bool) (t : gmap K R) : bool :=
  bool_decide (is_Some (find_row P t)).
Definition is_null {A} (o : option A) : bool := match o with None => true | Some _ => false end.
(** [nullString], [NULLIF(s, '')]. *)
Definition nullString (s : string) : option string :=
  if bool_decide (s = EmptyString) then None else Some s.
Definition derefString (s : option string) : string := default EmptyString s.

(** * Constraints of identity.api_keys *)
Definition in_int4 (z : Z) : bool := (0 <? z) && (z <=? int4_max).
Definition api_keys_owner_actor (r : ApiKeyRow) : bool :=
  match ak_KeyType r, ak_Owner r, ak_Actor r with
  | Some k, Some o, Some a =>
      (bool_decide (k = CredentialKindPersonal) && bool_decide (o = a)) ||
      (bool_decide (k = CredentialKindAutomation) && negb (bool_decide (o = a)))
  | Some k, _, _ => bool_decide (k = CredentialKindPersonal) || bool_decide (k = CredentialKindAutomation)
  | None, _, _ => true
  end.
Definition api_keys_v2_complete (r : ApiKeyRow) : bool :=
  negb (bool_decide (ak_Epoch r = AuthorityEpochV2)) ||
  (negb (is_null (ak_KeyType r)) && negb (is_null (ak_Owner r)) && negb (is_null (ak_Actor r)) &&
   negb (bool_decide (default [] (ak_Actions r) = [])) &&
   negb (is_null (ak_RateRPM r)) && negb (is_null (ak_RateTPM r)) &&
   negb (is_null (ak_ExpiresAt r)) && negb (is_null (ak_FamilyID r))).
Definition valid_scope_shape (scope : option string) : bool :=
  match scope with None => true | Some s => mem s ["admin"; "token"; "gateway"; "work"] end.
Definition rates_ok (r : ApiKeyRow) : bool :=
  default true (in_int4 <$> ak_RateRPM r) && default true (in_int4 <$> ak_RateTPM r).
Definition api_key_checks (r : ApiKeyRow) : bool :=
  valid_scope_shape (ak_Scope r) && rates_ok r && api_keys_actions_known (ak_Actions r) &&
  api_keys_actions_by_type (ak_KeyType r) (ak_Actions r) && api_keys_owner_actor r &&
  api_keys_v2_complete r.
(** [status IN ('active', 'retiring')]. *)
Definition live_status (s : KeyStatus) : bool :=
  match s with KeyActive | KeyRetiring => true | _ => false end.
(** The unique index [api_keys_one_live_version]. *)
Definition same_live_family (r r' : ApiKeyRow) : bool :=
  live_status (ak_Status r) && live_status (ak_Status r') && negb (is_null (ak_FamilyID r)) &&
  bool_decide (ak_FamilyID r = ak_FamilyID r').
Definition known_identity (d : IdentityDB) (o : option uuid) : bool :=
  match o with None => true | Some i => bool_decide (is_Some (identities d !! i)) end.
(** A row is stored under [id] when it satisfies the table's checks, its foreign keys and
    its unique keys. *)
Definition store_key (id : uuid) (r : ApiKeyRow) : tx () :=
  d ← tx_get;
  _ ← tx_require (api_key_checks r && known_identity d (Some (ak_IdentityID r)) &&
                  known_identity d (ak_Owner r) && known_identity d (ak_Actor r)) ErrConstraint;
  _ ← tx_require (negb (exists_where (λ k r', negb (bool_decide (k = id)) &&
                    (bool_decide (ak_KeyHash r' = ak_KeyHash r) || same_live_family r r')) (api_keys d)))
        ErrConstraint;
  tx_modify (put_keys (<[id := r]> (api_keys d))).

(** * Constraints of identity.local_users *)
(** [local_users_role_check]: the cutover drops the legacy spelling from the check. *)
Definition role_check (d : IdentityDB) (role : string) : bool :=
  mem role ["admin"; "operator"] ||
  (bool_decide (role = "user") && bool_decide (au_Epoch (authority_state d) = AuthorityEpochLegacy)).
Definition locale_check (l : string) : bool := mem l ["en"; "pt"].
Definition store_user (id : uuid) (u : LocalUserRow) : tx () :=
  d ← tx_get;
  _ ← tx_require (role_check d (lu_Role u) && locale_check (lu_Locale u) && known_identity d (Some id))
        ErrConstraint;
  _ ← tx_require (negb (exists_where (λ k u', negb (bool_decide (k = id)) &&
                    (bool_decide (lu_Email u' = lu_Email u) ||
                     bool_decide (lu_EmailNormalized u' = lu_EmailNormalized u))) (local_users d)))
        ErrConstraint;
  tx_modify (put_users (<[id := u]> (local_users d))).

(** * The security audit (audit.go) *)
Definition CredentialBrowser : string := "browser_session".
(** An event with the fields most callers leave empty. *)
Definition event (name : string) (outcome : Outcome) (now : timestamp) : SecurityEvent :=
  mkEvent name outcome EmptyString EmptyString EmptyString EmptyString EmptyString EmptyString
    EmptyString EmptyString EmptyString EmptyString EmptyString EmptyString (JObj []) None now.
Definition AppendSecurityEventTx (ev : SecurityEvent) : tx () :=
  tx_modify (λ d, put_events (security_events d ++ [ev]) d).
Definition AppendSecurityEvent (ev : SecurityEvent) : tx () := AppendSecurityEventTx ev.
Definition PurgeSecurityEvents (before : timestamp) : tx Z :=
  d ← tx_get;
  let kept := filter (λ e, ¬ (se_CreatedAt e < before)) (security_events d) in
  _ ← tx_modify (put_events kept);
  mret (Z.of_nat (length (security_events d)) - Z.of_nat (length kept)).
Definition drop_network (before : timestamp) (e : SecurityEvent) : SecurityEvent :=
  if bool_decide (se_CreatedAt e < before)
  then mkEvent (se_Event e) (se_Outcome e) (se_Reason e) (se_InitiatingHuman e) (se_RequestActor e)
         (se_ActorRole e) (se_Subject e) (se_AccessRequestID e) (se_BrowserSessionID e) (se_APIKeyID e) (se_KeyOwner e)
         (se_CredentialKind e) (se_RequestID e) (se_CorrelationID e) (se_Detail e) None (se_CreatedAt e)
  else e.
Definition PurgeSecurityEventNetwork (before : timestamp) : tx Z :=
  d ← tx_get;
  _ ← tx_modify (put_events (drop_network before <$> security_events d));
  mret (Z.of_nat (length (filter (λ e, se_CreatedAt e < before ∧ is_Some (se_Network e)) (security_events d)))).
Definition link_burned (before : timestamp) (l : AuthLinkRow) : bool :=
  (negb (is_null (al_ConsumedAt l)) || negb (is_null (al_InvalidatedAt l)) || (al_ExpiresAt l <? before)) &&
  (al_CreatedAt l <? before).
Definition outbox_terminal (s : OutboxState) : bool :=
  match s with AuthEmailAccepted | AuthEmailOutcomeUnknown | AuthEmailFailed => true | _ => false end.
Definition outbox_purgeable (before : timestamp) (o : OutboxRow) : bool :=
  outbox_terminal (ob_State o) && default false ((λ t, t <? before) <$> ob_TerminalAt o).
(** Deleting an intent clears the reference of its links ([ON DELETE SET NULL]). *)
Definition forget_outbox (gone : uuid → bool) (l : AuthLinkRow) : AuthLinkRow :=
  mkLink (al_TokenHash l) (al_Purpose l) (al_AccessRequestID l) (al_IdentityID l)
    (match al_OutboxID l with Some o => if gone o then None else Some o | None => None end)
    (al_Generation l) (al_IssuedAt l) (al_ExpiresAt l) (al_ConsumedAt l) (al_InvalidatedAt l)
    (al_InvalidatedReason l) (al_CreatedAt l).
(** Two statements; the second runs only when the first succeeded. *)
Definition PurgeAuthEmailState (before : timestamp) : tx Z :=
  d ← tx_get;
  let links := auth_link_tokens d in
  let outbox := auth_email_outbox d in
  let gone o := match outbox !! o with Some r => outbox_purgeable before r | None => false end in
  _ ← tx_modify (put_links (forget_outbox gone <$> delete_where (λ _, link_burned before) links));
  _ ← tx_modify (put_outbox (delete_where (λ _, outbox_purgeable before) outbox));
  mret (count_where (λ _, link_burned before) links + count_where (λ _, outbox_purgeable before) outbox).
