(* ===== verification/IdentityStore.v ===== *)
(** The identity store (control-plane/internal/identity: store.go, local_users.go, email.go,
    apikey.go, secrets.go): identities and their external bindings, local accounts, and
    the long-lived API keys of the legacy epoch. *)
From S2P Require Import Prelude Json Workflow Consequence IdentityActions IdentityData.
From Stdlib Require Import Ascii.

(** * Strings *)
Fixpoint split_byte (c : ascii) (s : string) : list string :=
  match s with
  | EmptyString => [EmptyString]
  | String x s' =>
      if bool_decide (x = c) then EmptyString :: split_byte c s'
      else match split_byte c s' with
           | w :: l => String x w :: l
           | [] => [String x EmptyString]
           end
  end.
Fixpoint any_byte (P : ascii → bool) (s : string) : bool :=
  match s with EmptyString => false | String c s' => P c || any_byte P s' end.
(** [strings.LastIndex] of a one-byte string, as the bytes before and after it. *)
Fixpoint split_last (c : ascii) (s : string) : option (string * string) :=
  match s with
  | EmptyString => None
  | String x s' =>
      match split_last c s' with
      | Some (l, r) => Some (String x l, r)
      | None => if bool_decide (x = c) then Some (EmptyString, s') else None
      end
  end.
Definition HasSuffix (s p : string) : bool := HasPrefix (reverse_bytes s) (reverse_bytes p).

(** * Secrets (secrets.go, apikey.go)

    [sha256hex] is the hexadecimal SHA-256 digest. *)
Section hashes.
Context (sha256hex : string → string).
Definition HashAPIKey (full : string) : string := sha256hex full.
Definition SecretDomainSessionToken : string := "iterabase/browser-session/v1".
Definition SecretDomainCSRF : string := "iterabase/csrf/v1".
Definition SecretDomainAuthLink : string := "iterabase/auth-link/v1".
Definition SecretDomainThrottle : string := "iterabase/throttle-subject/v1".
Definition HashSecret (domain raw : string) : string :=
  sha256hex (domain +:+ String zero raw).
Definition SecretMatches (storedHash domain raw : string) : bool :=
  bool_decide (storedHash = HashSecret domain raw).
Definition HashSubject (subject : string) : string := HashSecret SecretDomainThrottle subject.
(** [GenerateAPIKey] for the base32 text of the random bytes: the key, its display prefix and
    its hash. *)
Definition GenerateAPIKey (enc : string) : string * string * string :=
  let full := "cp-" +:+ enc in
  (full, String.substring 0 12 full, HashAPIKey full).
End hashes.
Definition ScopeAdmin : string := "admin".
Definition ScopeToken : string := "token".
Definition ScopeGateway : string := "gateway".
Definition ScopeWork : string := "work".
Definition ValidScope (s : string) : bool := mem s [ScopeAdmin; ScopeToken; ScopeGateway; ScopeWork].
(** [ParseBearer]; only ASCII letters fold to the seven bytes of the prefix. *)
Definition ParseBearer (authHeader : string) : option string :=
  if (String.length authHeader <=? 7)%nat || negb (bool_decide (lower (String.substring 0 7 authHeader) = "bearer "))
  then None
  else nullString (TrimSpace (String.substring 7 (String.length authHeader - 7) authHeader)).

(** * Email addresses (email.go)

    [ToLower] is [strings.ToLower], which lowers every Unicode letter. *)
Section email.
Context (ToLower : string → string).
Definition email_forbidden : list ascii :=
  [" "; "009"; "013"; "010"; "<"; ">"; dquote; "("; ")"; ","; ":"; ";"; bslash; "["; "]"]%char.
Definition domain_byte (c : ascii) : bool :=
  let n := N_of_ascii c in
  ((97 <=? n) && (n <=? 122) || ((48 <=? n) && (n <=? 57)) || (n =? 45) || (n =? 46))%N.
Definition validEmailDomain (domain : string) : bool :=
  negb (bool_decide (domain = EmptyString) || (253 <? String.length domain)%nat ||
        HasPrefix domain "." || HasSuffix domain "." || Contains domain "..") &&
  negb (any_byte (λ c, negb (domain_byte c)) domain) &&
  forallb (λ part, negb (bool_decide (part = EmptyString) || HasPrefix part "-" || HasSuffix part "-"))
    (split_byte "." domain).
(** The delivery form and the canonical form. *)
Definition CanonicalEmail (email : string) : option (string * string) :=
  let email := TrimSpace email in
  if bool_decide (email = EmptyString) || (254 <? String.length email)%nat then None
  else if any_byte (λ c, bool_decide (c ∈ email_forbidden)) email then None
  else match split_last "@" email with
       | None => None
       | Some (local, domain) =>
           if bool_decide (local = EmptyString) || bool_decide (domain = EmptyString) ||
              (64 <? String.length local)%nat || any_byte (λ c, bool_decide (c = "@"%char)) local
           then None
           else
             let domain := ToLower domain in
             if negb (validEmailDomain domain) then None
             else let delivery := local +:+ "@" +:+ domain in Some (delivery, ToLower delivery)
       end.
End email.

(** [NormalizeRole] (session.go). *)
Definition NormalizeRole (role : string) : string :=
  if bool_decide (role = "user") then RoleOperator else role.

(** * Identities *)
Definition live (r : IdentityRow) : bool := is_null (ir_DeletedAt r).
Definition by_key (key : string) (_ : uuid) (r : IdentityRow) : bool := bool_decide (id_Key (ir_Identity r) = key).
(** [INSERT ... ON CONFLICT (key) DO UPDATE ... RETURNING]: [onConflict] is the SET clause,
    which always clears [deleted_at] and stamps [updated_at]. *)
Definition upsert_identity (fresh : uuid) (key kind source displayName : string)
    (onConflict : Identity → Identity) (pgnow : timestamp) : tx Identity :=
  d ← tx_get;
  match find_row (by_key key) (identities d) with
  | Some (i, r) =>
      let ident := onConflict (ir_Identity r) in
      _ ← tx_require (valid_kind (id_Kind ident) && valid_source (id_Source ident)) ErrConstraint;
      _ ← tx_modify (put_identities (<[i := mkIdentityRow ident pgnow None]> (identities d)));
      mret ident
  | None =>
      let ident := mkIdentity fresh key kind source displayName in
      _ ← tx_require (valid_kind kind && valid_source source && is_null (identities d !! fresh)) ErrConstraint;
      _ ← tx_modify (put_identities (<[fresh := mkIdentityRow ident pgnow None]> (identities d)));
      mret ident
  end.
Definition with_display (n : string) (i : Identity) : Identity :=
  mkIdentity (id_ID i) (id_Key i) (id_Kind i) (id_Source i) n.
Definition UpsertIdentity (fresh : uuid) (key kind source displayName : string) (pgnow : timestamp) : tx Identity :=
  upsert_identity fresh key kind source displayName
    (λ i, mkIdentity (id_ID i) (id_Key i) kind source displayName) pgnow.
Definition UpsertServiceAccount (fresh : uuid) (key displayName : string) (pgnow : timestamp) : tx Identity :=
  upsert_identity fresh key KindServiceAccount SourceLocal displayName (with_display displayName) pgnow.
Definition with_deleted (at_ : timestamp) (r : IdentityRow) : IdentityRow :=
  mkIdentityRow (ir_Identity r) at_ (Some at_).
Definition SoftDeleteIdentityByKey (key : string) (pgnow : timestamp) : tx () :=
  d ← tx_get;
  _ ← tx_modify (put_mappings (delete_where (λ _ i,
        match identities d !! i with Some r => by_key key i r | None => false end) (external_mappings d)));
  tx_modify (put_identities (update_where (λ i r, by_key key i r && live r) (with_deleted pgnow) (identities d))).
Definition dedupe_step (acc : list Binding) (b : Binding) : list Binding :=
  if bool_decide (b ∈ acc) then acc else acc ++ [b].
Definition dedupeBindings (l : list Binding) : list Binding := foldl dedupe_step [] l.
Definition insert_binding (identityID : uuid) (b : Binding) : tx () :=
  d ← tx_get;
  _ ← tx_require (mem (bd_Provider b) ["slack"; "teams"] && mem (bd_Type b) ["user"; "group"] &&
                  known_identity d (Some identityID) && is_null (external_mappings d !! b)) ErrConstraint;
  tx_modify (put_mappings (<[b := identityID]> (external_mappings d))).
Definition ReplaceExternalMappings (identityID : uuid) (bindings : list Binding) : tx () :=
  d ← tx_get;
  _ ← tx_modify (put_mappings (delete_where (λ _ i, bool_decide (i = identityID)) (external_mappings d)));
  tx_iter (insert_binding identityID) (dedupeBindings bindings).
Definition GetIdentityByID (id : uuid) : tx Identity :=
  d ← tx_get;
  match identities d !! id with
  | Some r => if live r then mret (ir_Identity r) else tx_fail ErrNotFoundID
  | None => tx_fail ErrNotFoundID
  end.
Definition ResolveByExternalID (provider bindingType externalID : string) : tx Identity :=
  d ← tx_get;
  match external_mappings d !! mkBindingID provider bindingType externalID with
  | Some i => GetIdentityByID i
  | None => tx_fail ErrNotFoundID
  end.

(** * Local accounts *)
(** The account joined with its identity; [only_live] adds [i.deleted_at IS NULL]. *)
Definition join_user (only_live : bool) (d : IdentityDB) (id : uuid) : option LocalUser :=
  u ← local_users d !! id;
  r ← identities d !! id;
  if only_live && negb (live r) then None else Some (mkUser (ir_Identity r) u).
Definition GetLocalUser (id : uuid) : tx LocalUser :=
  d ← tx_get; tx_opt (join_user true d id) ErrNotFoundID.
Definition by_email (normalized : string) (_ : uuid) (u : LocalUserRow) : bool :=
  bool_decide (lu_EmailNormalized u = normalized).
Definition user_by_email (d : IdentityDB) (normalized : string) : option LocalUser :=
  '(i, _) ← find_row (by_email normalized) (local_users d);
  join_user true d i.
Definition FindLocalUserByEmail (normalized : string) : tx LocalUser :=
  d ← tx_get; tx_opt (user_by_email d normalized) ErrNotFoundID.
Definition newer (a b : LocalUser) : Prop := lu_CreatedAt (us_Row b) ≤ lu_CreatedAt (us_Row a).
#[export] Instance newer_dec a b : Decision (newer a b). Proof. unfold newer. apply _. Defined.
Definition ListLocalUsers (d : IdentityDB) : list LocalUser :=
  merge_sort newer (omap (λ '(i, _), join_user true d i) (map_to_list (local_users d))).

(** A new account. *)
Definition new_user (email normalized displayName role locale : string) (request : option uuid)
    (pgnow : timestamp) : LocalUserRow :=
  mkLocalUser email normalized displayName role locale LocalUserSetupPending None None pgnow pgnow
    request None None None None.
(** The SET clause of the legacy upsert. *)
Definition with_email_role (email normalized role : string) (pgnow : timestamp) (u : LocalUserRow) : LocalUserRow :=
  mkLocalUser email normalized (lu_DisplayName u) role (lu_Locale u) (lu_Status u) (lu_PasswordHash u)
    (lu_PasswordChangedAt u) (lu_CreatedAt u) pgnow (lu_ApprovedAccessRequestID u) (lu_RoleChangedAt u)
    (lu_RoleChangedBy u) (lu_AccountChangedAt u) (lu_AccountChangedBy u).
Definition UpsertLocalUser (ToLower : string → string) (fresh : uuid) (email role : string) (pgnow : timestamp)
    : tx LocalUser :=
  match CanonicalEmail ToLower email with
  | None => tx_fail ErrInvalidEmail
  | Some (delivery, normalized) =>
      ident ← upsert_identity fresh normalized KindUser SourceLocal delivery (with_display delivery) pgnow;
      d ← tx_get;
      _ ← store_user (id_ID ident)
            (match local_users d !! id_ID ident with
             | Some u => with_email_role delivery normalized role pgnow u
             | None => new_user delivery normalized delivery role "en" None pgnow
             end);
      d ← tx_get;
      tx_opt (join_user false d (id_ID ident)) ErrNotFoundID
  end.

(** Profile. *)
Definition with_profile (displayName locale : string) (pgnow : timestamp) (u : LocalUserRow) : LocalUserRow :=
  mkLocalUser (lu_Email u) (lu_EmailNormalized u) displayName (lu_Role u) locale (lu_Status u)
    (lu_PasswordHash u) (lu_PasswordChangedAt u) (lu_CreatedAt u) pgnow (lu_ApprovedAccessRequestID u)
    (lu_RoleChangedAt u) (lu_RoleChangedBy u) (lu_AccountChangedAt u) (lu_AccountChangedBy u).
Definition set_identity (id : uuid) (f : IdentityRow → IdentityRow) (d : IdentityDB) : IdentityDB :=
  put_identities (alter f id (identities d)) d.
Definition EventProfileUpdated : string := "profile_updated".
Definition subject_event (name : string) (subject : uuid) (detail : json) (now : timestamp) : SecurityEvent :=
  mkEvent name OutcomeSuccess EmptyString EmptyString EmptyString EmptyString subject EmptyString
    EmptyString EmptyString EmptyString CredentialBrowser EmptyString EmptyString detail None now.
(** The account is read again after the commit: [None] is the error of that read. *)
Definition UpdateLocalUserProfileVersioned (identityID : uuid) (displayName locale : string)
    (expected : option timestamp) (now pgnow : timestamp) : tx (option LocalUser) :=
  d ← tx_get;
  u ← tx_opt (u ← local_users d !! identityID;
              if default true ((λ v, bool_decide (lu_UpdatedAt u = v)) <$> expected) then Some u else None)
        (match expected with Some _ => ErrProfileConflict | None => ErrNotFoundID end);
  _ ← store_user identityID (with_profile displayName locale pgnow u);
  _ ← tx_modify (set_identity identityID (λ r, mkIdentityRow (with_display displayName (ir_Identity r)) pgnow
                                                 (ir_DeletedAt r)));
  _ ← AppendSecurityEventTx (subject_event EventProfileUpdated identityID (JObj [("locale", JStr locale)]) now);
  tx_asks (λ d, join_user true d identityID).
Definition UpdateLocalUserProfile (identityID : uuid) (displayName locale : string) (now pgnow : timestamp)
    : tx (option LocalUser) :=
  UpdateLocalUserProfileVersioned identityID displayName locale None now pgnow.

Definition active_admin (u : LocalUserRow) : bool :=
  bool_decide (lu_Role u = RoleAdmin) && bool_decide (lu_Status u = LocalUserActive).
Definition CountActiveAdmins (d : IdentityDB) : Z := count_where (λ _, active_admin) (local_users d).

Definition with_activation (passwordHash displayName locale : string) (now pgnow : timestamp) (u : LocalUserRow)
    : LocalUserRow :=
  mkLocalUser (lu_Email u) (lu_EmailNormalized u) displayName (lu_Role u) locale LocalUserActive
    (Some passwordHash) (Some now) (lu_CreatedAt u) pgnow (lu_ApprovedAccessRequestID u)
    (lu_RoleChangedAt u) (lu_RoleChangedBy u) (lu_AccountChangedAt u) (lu_AccountChangedBy u).
Definition activateLocalUserTx (id : uuid) (passwordHash displayName locale : string) (now pgnow : timestamp)
    : tx () :=
  d ← tx_get;
  u ← tx_opt (local_users d !! id) ErrNotFoundID;
  _ ← tx_require (bool_decide (lu_Status u = LocalUserSetupPending)) ErrNotFoundID;
  _ ← store_user id (with_activation passwordHash displayName locale now pgnow u);
  tx_modify (set_identity id (λ r, mkIdentityRow (with_display displayName (ir_Identity r)) pgnow None)).
Definition with_password (passwordHash : string) (now pgnow : timestamp) (u : LocalUserRow) : LocalUserRow :=
  mkLocalUser (lu_Email u) (lu_EmailNormalized u) (lu_DisplayName u) (lu_Role u) (lu_Locale u) (lu_Status u)
    (Some passwordHash) (Some now) (lu_CreatedAt u) pgnow (lu_ApprovedAccessRequestID u)
    (lu_RoleChangedAt u) (lu_RoleChangedBy u) (lu_AccountChangedAt u) (lu_AccountChangedBy u).
Definition setLocalUserPasswordTx (id : uuid) (passwordHash : string) (now pgnow : timestamp) : tx () :=
  d ← tx_get;
  u ← tx_opt (local_users d !! id) ErrNotFoundID;
  _ ← tx_require (bool_decide (lu_Status u = LocalUserActive)) ErrNotFoundID;
  store_user id (with_password passwordHash now pgnow u).

(** * Legacy API keys *)
Record APIKey := mkAPIKey {
  pk_ID : uuid; pk_IdentityID : uuid; pk_Prefix : string; pk_Name : string; pk_Scope : string;
  pk_ExpiresAt : option timestamp; pk_LastUsedAt : option timestamp; pk_RevokedAt : option timestamp;
  pk_CreatedAt : timestamp }.
(** [Scan] into the struct, whose [Scope] is a plain string: a NULL scope is an error. *)
Definition scan_key (id : uuid) (r : ApiKeyRow) : IdErr + APIKey :=
  match ak_Scope r with
  | Some scope => inr (mkAPIKey id (ak_IdentityID r) (ak_Prefix r) (ak_Name r) scope (ak_ExpiresAt r)
                         (ak_LastUsedAt r) (ak_RevokedAt r) (ak_CreatedAt r))
  | None => inl ErrScanNull
  end.
Definition lift_scan {A} (r : IdErr + A) : tx A :=
  match r with inl e => tx_fail e | inr a => mret a end.
Definition legacy_key (identityID : uuid) (hash prefix name scope : string) (expiresAt : option timestamp)
    (pgnow : timestamp) : ApiKeyRow :=
  mkApiKey identityID hash prefix name EmptyString (Some scope) expiresAt None None pgnow None 1 None None
    None None KeyActive None None None None None None AuthorityEpochLegacy.
Section keys.
Context (sha256hex : string → string).
Definition CreateAPIKey (fresh enc : string) (identityID : uuid) (name scope : string)
    (expiresAt : option timestamp) (pgnow : timestamp) : tx (string * APIKey) :=
  _ ← tx_require (ValidScope scope) ErrInvalidScope;
  let '(full, prefix, hash) := GenerateAPIKey sha256hex enc in
  d ← tx_get;
  _ ← tx_require (is_null (api_keys d !! fresh)) ErrConstraint;
  let r := legacy_key identityID hash prefix name scope expiresAt pgnow in
  _ ← store_key fresh r;
  k ← lift_scan (scan_key fresh r);
  mret (full, k).
Definition with_revoked (at_ : timestamp) (r : ApiKeyRow) : ApiKeyRow :=
  mkApiKey (ak_IdentityID r) (ak_KeyHash r) (ak_Prefix r) (ak_Name r) (ak_Purpose r) (ak_Scope r)
    (ak_ExpiresAt r) (ak_LastUsedAt r) (Some at_) (ak_CreatedAt r) (ak_FamilyID r) (ak_Version r)
    (ak_KeyType r) (ak_Owner r) (ak_Actor r) (ak_Actions r) (ak_Status r) (ak_SuspensionReason r)
    (ak_RevocationReason r) (ak_RateRPM r) (ak_RateTPM r) (ak_RetiringUntil r) (ak_CreatedBy r) (ak_Epoch r).
Definition unrevoked (r : ApiKeyRow) : bool := is_null (ak_RevokedAt r).
Definition unexpired (pgnow : timestamp) (r : ApiKeyRow) : bool :=
  match ak_ExpiresAt r with None => true | Some t => pgnow <? t end.
Definition RevokeAPIKeysForIdentity (identityID : uuid) (scope : string) (pgnow : timestamp) : tx () :=
  tx_modify (λ d, put_keys (update_where (λ _ r, bool_decide (ak_IdentityID r = identityID) &&
      bool_decide (ak_Scope r = Some scope) && unrevoked r) (with_revoked pgnow) (api_keys d)) d).
Definition with_last_used (at_ : timestamp) (r : ApiKeyRow) : ApiKeyRow :=
  mkApiKey (ak_IdentityID r) (ak_KeyHash r) (ak_Prefix r) (ak_Name r) (ak_Purpose r) (ak_Scope r)
    (ak_ExpiresAt r) (Some at_) (ak_RevokedAt r) (ak_CreatedAt r) (ak_FamilyID r) (ak_Version r)
    (ak_KeyType r) (ak_Owner r) (ak_Actor r) (ak_Actions r) (ak_Status r) (ak_SuspensionReason r)
    (ak_RevocationReason r) (ak_RateRPM r) (ak_RateTPM r) (ak_RetiringUntil r) (ak_CreatedBy r) (ak_Epoch r).
Definition by_hash (hash : string) (_ : uuid) (r : ApiKeyRow) : bool := bool_decide (ak_KeyHash r = hash).
(** [stamped] is false when the best-effort last-used write failed. *)
Definition ValidateAPIKey (fullKey : string) (stamped : bool) (pgnow : timestamp) : tx (APIKey * Identity) :=
  d ← tx_get;
  match find_row (by_hash (HashAPIKey sha256hex fullKey)) (api_keys d) with
  | None => tx_fail ErrInvalidAPIKey
  | Some (id, r) =>
      match identities d !! ak_IdentityID r with
      | Some i =>
          if unrevoked r && unexpired pgnow r && live i then
            k ← lift_scan (scan_key id r);
            _ ← (if stamped then tx_modify (put_keys (alter (with_last_used pgnow) id (api_keys d))) else mret ());
            mret (k, ir_Identity i)
          else tx_fail ErrInvalidAPIKey
      | None => tx_fail ErrInvalidAPIKey
      end
  end.
End keys.
Definition newer_key (a b : uuid * ApiKeyRow) : Prop := ak_CreatedAt b.2 ≤ ak_CreatedAt a.2.
#[export] Instance newer_key_dec a b : Decision (newer_key a b). Proof. unfold newer_key. apply _. Defined.
Definition ListAPIKeys (d : IdentityDB) : IdErr + list APIKey :=
  mapM (λ '(id, r), scan_key id r) (merge_sort newer_key (map_to_list (api_keys d))).
Definition RevokeAPIKey (id : uuid) (pgnow : timestamp) : tx () :=
  d ← tx_get;
  r ← tx_opt (api_keys d !! id) ErrNotFoundID;
  _ ← tx_require (unrevoked r) ErrNotFoundID;
  tx_modify (put_keys (<[id := with_revoked pgnow r]> (api_keys d))).

Example canonical_email : CanonicalEmail lower "  Ana.Silva@Example.COM " = Some ("Ana.Silva@example.com", "ana.silva@example.com").
Proof. by vm_compute. Qed.
Example bearer_token : ParseBearer "bEArer  cp-1 " = Some "cp-1".
Proof. by vm_compute. Qed.
