(* ===== verification/IdentityFlows.v ===== *)
(** The building blocks of the account journeys: the rune and character tests of Go's
    unicode package, one-time links (control-plane/internal/identity/authlink.go) and the
    authentication mail outbox they are queued to (authemail.go).

    [HashPassword] is password.go's policy check and Argon2id hash: [None] when the policy
    refuses the password. *)
From S2P Require Import Prelude Json Workflow Consequence IdentityActions IdentityData IdentityStore.
From Stdlib Require Import Ascii.

Definition second : Z := 1000000.
Definition hour : Z := 3600 * second.
Definition day : Z := 24 * hour.

(** * Runes *)
Definition in_range (lo hi : Z) (c : ascii) : bool :=
  (lo <=? Z.of_N (N_of_ascii c)) && (Z.of_N (N_of_ascii c) <=? hi).
Definition low6 (c : ascii) : Z := Z.land (Z.of_N (N_of_ascii c)) 63.
Definition RuneError : Z := 65533.
(** The bounds of the second byte, the number of further bytes and the payload of the first. *)
Definition lead_byte (b : Z) : option (Z * Z * nat * Z) :=
  if (194 <=? b) && (b <=? 223) then Some (128, 191, 1%nat, Z.land b 31)
  else if b =? 224 then Some (160, 191, 2%nat, 0)
  else if b =? 237 then Some (128, 159, 2%nat, 13)
  else if (225 <=? b) && (b <=? 239) then Some (128, 191, 2%nat, Z.land b 15)
  else if b =? 240 then Some (144, 191, 3%nat, 0)
  else if (241 <=? b) && (b <=? 243) then Some (128, 191, 3%nat, Z.land b 7)
  else if b =? 244 then Some (128, 143, 3%nat, 4)
  else None.
Fixpoint continue_rune (lo hi : Z) (n : nat) (acc : Z) (s : string) : option (Z * string) :=
  match n, s with
  | O, _ => Some (acc, s)
  | S n', String c s' => if in_range lo hi c then continue_rune 128 191 n' (acc * 64 + low6 c) s' else None
  | S _, EmptyString => None
  end.
(** One rune of [range s]: an invalid byte is one [RuneError]. *)
Definition decode_rune (c : ascii) (s : string) : Z * string :=
  let b := Z.of_N (N_of_ascii c) in
  if b <? 128 then (b, s)
  else match lead_byte b with
       | Some (lo, hi, n, acc) =>
           match continue_rune lo hi n acc s with Some r => r | None => (RuneError, s) end
       | None => (RuneError, s)
       end.
Fixpoint runes_fuel (fuel : nat) (s : string) : list Z :=
  match fuel, s with
  | S fuel', String c s' => let '(r, rest) := decode_rune c s' in r :: runes_fuel fuel' rest
  | _, _ => []
  end.
(** Every step consumes a byte, so the length is enough fuel. *)
Definition runes (s : string) : list Z := runes_fuel (String.length s) s.
Definition string_of_runes (l : list Z) : string := foldr (λ r acc, utf8 r +:+ acc) EmptyString l.
Definition boundRunes (value : string) (max : nat) : string :=
  if (max <? length (runes value))%nat then string_of_runes (take max (runes value)) else value.
Definition normalizeDisplayName (displayName : string) : string := boundRunes displayName 200.

(** * One-time links (authlink.go) *)
Definition VerifyAccessLinkTTL : Z := 24 * hour.
Definition SetupPasswordLinkTTL : Z := 7 * day.
Definition ResetPasswordLinkTTL : Z := 1800 * second.
Definition AuthLinkTTL (p : LinkPurpose) : Z :=
  match p with
  | AuthLinkVerifyAccess => VerifyAccessLinkTTL
  | AuthLinkSetupPassword => SetupPasswordLinkTTL
  | AuthLinkResetPassword => ResetPasswordLinkTTL
  end.
Record AuthEmailIntent := mkIntent {
  in_OutboxID : string; in_Purpose : LinkPurpose; in_RecipientEmail : string;
  in_RecipientIdentityID : string; in_AccessRequestID : string; in_Locale : string; in_Attempts : Z }.
Definition link_unused (l : AuthLinkRow) : bool := is_null (al_ConsumedAt l) && is_null (al_InvalidatedAt l).
(** [($2 <> '' AND access_request_id = $2) OR ($3 <> '' AND identity_id = $3)]. *)
Definition link_subject (purpose : LinkPurpose) (accessRequestID identityID : string) (l : AuthLinkRow) : bool :=
  bool_decide (al_Purpose l = purpose) &&
  ((negb (bool_decide (accessRequestID = EmptyString)) && bool_decide (al_AccessRequestID l = Some accessRequestID)) ||
   (negb (bool_decide (identityID = EmptyString)) && bool_decide (al_IdentityID l = Some identityID))).
Definition with_invalidated (now : timestamp) (reason : string) (l : AuthLinkRow) : AuthLinkRow :=
  mkLink (al_TokenHash l) (al_Purpose l) (al_AccessRequestID l) (al_IdentityID l) (al_OutboxID l)
    (al_Generation l) (al_IssuedAt l) (al_ExpiresAt l) (al_ConsumedAt l) (Some now) (Some reason) (al_CreatedAt l).
Definition InvalidateAuthLinksTx (purpose : LinkPurpose) (accessRequestID identityID : string)
    (now : timestamp) (reason : string) : tx () :=
  tx_modify (λ d, put_links (update_where (λ _ l, link_subject purpose accessRequestID identityID l && link_unused l)
                               (with_invalidated now reason) (auth_link_tokens d)) d).
(** [auth_link_tokens_subject]. *)
Definition link_subject_check (l : AuthLinkRow) : bool :=
  match al_Purpose l with
  | AuthLinkVerifyAccess => negb (is_null (al_AccessRequestID l)) && is_null (al_IdentityID l)
  | _ => negb (is_null (al_IdentityID l))
  end.
Definition known_request (d : IdentityDB) (o : option uuid) : bool :=
  match o with None => true | Some i => bool_decide (is_Some (access_requests d !! i)) end.
Definition known_outbox (d : IdentityDB) (o : option uuid) : bool :=
  match o with None => true | Some i => bool_decide (is_Some (auth_email_outbox d !! i)) end.
Definition insert_link (fresh : uuid) (l : AuthLinkRow) : tx () :=
  d ← tx_get;
  _ ← tx_require (link_subject_check l && known_request d (al_AccessRequestID l) &&
                  known_identity d (al_IdentityID l) && known_outbox d (al_OutboxID l) &&
                  is_null (auth_link_tokens d !! fresh) &&
                  negb (exists_where (λ _ l', bool_decide (al_TokenHash l' = al_TokenHash l)) (auth_link_tokens d)))
        ErrConstraint;
  tx_modify (put_links (<[fresh := l]> (auth_link_tokens d))).
Section links.
Context (sha256hex : string → string).
Definition link_hash (raw : string) : string := HashSecret sha256hex SecretDomainAuthLink raw.
Definition next_generation (purpose : LinkPurpose) (accessRequestID identityID : string) (d : IdentityDB) : Z :=
  max_of al_Generation (filter (λ l, link_subject purpose accessRequestID identityID l = true)
                          (rows (auth_link_tokens d))) + 1.
Definition createAuthLinkTx (fresh raw : string) (intent : AuthEmailIntent) (now pgnow : timestamp)
    : tx (string * timestamp) :=
  _ ← InvalidateAuthLinksTx (in_Purpose intent) (in_AccessRequestID intent) (in_RecipientIdentityID intent)
        now "superseded";
  d ← tx_get;
  let expiresAt := now + AuthLinkTTL (in_Purpose intent) in
  let generation := next_generation (in_Purpose intent) (in_AccessRequestID intent) (in_RecipientIdentityID intent) d in
  _ ← insert_link fresh
        (mkLink (link_hash raw) (in_Purpose intent) (nullString (in_AccessRequestID intent))
           (nullString (in_RecipientIdentityID intent)) (nullString (in_OutboxID intent)) generation now expiresAt
           None None None pgnow);
  mret (raw, expiresAt).
Definition link_by_hash (hash : string) (_ : uuid) (l : AuthLinkRow) : bool := bool_decide (al_TokenHash l = hash).
Definition lockAuthLinkTx (raw : string) : tx (uuid * AuthLinkRow) :=
  d ← tx_get; tx_opt (find_row (link_by_hash (link_hash raw)) (auth_link_tokens d)) ErrAuthLinkInvalid.
Definition with_consumed (now : timestamp) (l : AuthLinkRow) : AuthLinkRow :=
  mkLink (al_TokenHash l) (al_Purpose l) (al_AccessRequestID l) (al_IdentityID l) (al_OutboxID l)
    (al_Generation l) (al_IssuedAt l) (al_ExpiresAt l) (Some now) (al_InvalidatedAt l) (al_InvalidatedReason l)
    (al_CreatedAt l).
Definition ConsumeAuthLinkTx (id : uuid) (now : timestamp) : tx () :=
  d ← tx_get;
  l ← tx_opt (auth_link_tokens d !! id) ErrAuthLinkInvalid;
  _ ← tx_require (link_unused l) ErrAuthLinkInvalid;
  tx_modify (put_links (<[id := with_consumed now l]> (auth_link_tokens d))).
Definition claimAuthLinkTx (raw : string) (purpose : LinkPurpose) (now : timestamp) : tx (uuid * AuthLinkRow) :=
  t ← lockAuthLinkTx raw;
  let l := t.2 in
  _ ← tx_require (bool_decide (al_Purpose l = purpose)) ErrAuthLinkInvalid;
  _ ← tx_require (is_null (al_InvalidatedAt l)) ErrAuthLinkSuperseded;
  _ ← tx_require (is_null (al_ConsumedAt l)) ErrAuthLinkConsumed;
  _ ← tx_require (now <? al_ExpiresAt l) ErrAuthLinkExpired;
  mret t.

(** * The outbox (authemail.go) *)
Definition QueueAuthEmailTx (fresh : uuid) (purpose : LinkPurpose) (recipientEmail recipientIdentityID
    accessRequestID locale : string) (pgnow : timestamp) : tx uuid :=
  d ← tx_get;
  _ ← tx_require (known_identity d (nullString recipientIdentityID) && known_request d (nullString accessRequestID) &&
                  locale_check locale && is_null (auth_email_outbox d !! fresh)) ErrConstraint;
  _ ← tx_modify (put_outbox (<[fresh := mkOutbox purpose recipientEmail (nullString recipientIdentityID)
        (nullString accessRequestID) locale AuthEmailPending 0 None None None None None None pgnow]>
        (auth_email_outbox d)));
  mret fresh.
Definition intent_of (id : uuid) (o : OutboxRow) : AuthEmailIntent :=
  mkIntent id (ob_Purpose o) (ob_RecipientEmail o) (derefString (ob_RecipientIdentityID o))
    (derefString (ob_AccessRequestID o)) (ob_Locale o) (ob_Attempts o).
Definition older_intent (a b : uuid * OutboxRow) : Prop := ob_CreatedAt a.2 ≤ ob_CreatedAt b.2.
#[export] Instance older_intent_dec a b : Decision (older_intent a b).
Proof. unfold older_intent. apply _. Defined.
Definition with_lease (owner : string) (until : timestamp) (o : OutboxRow) : OutboxRow :=
  mkOutbox (ob_Purpose o) (ob_RecipientEmail o) (ob_RecipientIdentityID o) (ob_AccessRequestID o) (ob_Locale o)
    AuthEmailLeased (ob_Attempts o + 1) (Some owner) (Some until) (ob_AcceptedAt o) (ob_OutcomeUnknownAt o)
    (ob_TerminalAt o) (ob_LastErrorClass o) (ob_CreatedAt o).
(** [ClaimAuthEmails]: the oldest pending intents; [skipped] are the ones whose rows another
    worker holds ([FOR UPDATE SKIP LOCKED]). *)
Definition claimable (skipped : gset uuid) (limit : nat) (d : IdentityDB) : list uuid :=
  (take limit (merge_sort older_intent
    (filter (λ ko, ob_State ko.2 = AuthEmailPending ∧ ko.1 ∉ skipped) (map_to_list (auth_email_outbox d))))).*1.
Definition ClaimAuthEmails (skipped : gset uuid) (owner : string) (limit : nat) (leaseTTL now : timestamp)
    : tx (list AuthEmailIntent) :=
  d ← tx_get;
  let ids := claimable skipped limit d in
  let leased := update_where (λ k _, bool_decide (k ∈ ids)) (with_lease owner (now + leaseTTL)) (auth_email_outbox d) in
  _ ← tx_modify (put_outbox leased);
  mret (omap (λ k, intent_of k <$> leased !! k) ids).
Definition lease_overdue (now : timestamp) (o : OutboxRow) : bool :=
  bool_decide (ob_State o = AuthEmailLeased) && default false ((λ t, t <=? now) <$> ob_LeasedUntil o).
Definition with_unknown (now : timestamp) (o : OutboxRow) : OutboxRow :=
  mkOutbox (ob_Purpose o) (ob_RecipientEmail o) (ob_RecipientIdentityID o) (ob_AccessRequestID o) (ob_Locale o)
    AuthEmailOutcomeUnknown (ob_Attempts o) (ob_LeaseOwner o) (ob_LeasedUntil o) (ob_AcceptedAt o) (Some now)
    (Some now) (Some "lease_expired") (ob_CreatedAt o).
Definition ExpireAuthEmailLeases (now : timestamp) : tx (list AuthEmailIntent) :=
  d ← tx_get;
  _ ← tx_modify (put_outbox (update_where (λ _, lease_overdue now) (with_unknown now) (auth_email_outbox d)));
  mret ((λ '(k, o), intent_of k o) <$>
        filter (λ ko, lease_overdue now ko.2 = true) (map_to_list (auth_email_outbox d))).
Definition CreateAuthLinkForIntent (fresh raw : string) (outboxID : uuid) (now pgnow : timestamp)
    : tx (AuthEmailIntent * string) :=
  d ← tx_get;
  o ← tx_opt (auth_email_outbox d !! outboxID) ErrIntentNotLeased;
  _ ← tx_require (bool_decide (ob_State o = AuthEmailLeased)) ErrIntentNotLeased;
  r ← createAuthLinkTx fresh raw (intent_of outboxID o) now pgnow;
  mret (intent_of outboxID o, r.1).
Definition EventAuthEmailSent : string := "auth_email_sent".
Definition EventAuthEmailOutcomeUnknown : string := "auth_email_outcome_unknown".
Definition EventAuthEmailFailed : string := "auth_email_failed".
Definition EventAuthEmailLeaseExpired : string := "auth_email_lease_expired".
Definition eventOutcome (ev : string) : Outcome :=
  if mem ev [EventAuthEmailFailed; EventAuthEmailOutcomeUnknown; EventAuthEmailLeaseExpired]
  then OutcomeUnknown else OutcomeSuccess.
Definition outbox_state_name (s : OutboxState) : string :=
  match s with
  | AuthEmailPending => "pending" | AuthEmailLeased => "leased" | AuthEmailAccepted => "accepted"
  | AuthEmailOutcomeUnknown => "outcome_unknown" | AuthEmailFailed => "failed"
  end.
Definition with_finished (state : OutboxState) (errorClass : string) (now : timestamp) (o : OutboxRow) : OutboxRow :=
  mkOutbox (ob_Purpose o) (ob_RecipientEmail o) (ob_RecipientIdentityID o) (ob_AccessRequestID o) (ob_Locale o)
    state (ob_Attempts o) None None
    (if bool_decide (state = AuthEmailAccepted) then Some now else None)
    (if bool_decide (state = AuthEmailOutcomeUnknown) then Some now else None)
    (if outbox_terminal state then Some now else None) (nullString errorClass) (ob_CreatedAt o).
Definition finishAuthEmailTx (outboxID : uuid) (state : OutboxState) (errorClass : string) (now : timestamp)
    (ev : string) : tx () :=
  d ← tx_get;
  o ← tx_opt (auth_email_outbox d !! outboxID) ErrIntentNotFound;
  _ ← tx_modify (put_outbox (<[outboxID := with_finished state errorClass now o]> (auth_email_outbox d)));
  AppendSecurityEventTx (mkEvent ev (eventOutcome ev) EmptyString EmptyString EmptyString EmptyString EmptyString
    EmptyString EmptyString EmptyString EmptyString EmptyString EmptyString EmptyString
    (JObj [("state", JStr (outbox_state_name state))]) None now).
Definition MarkAuthEmailAccepted (outboxID : uuid) (now : timestamp) : tx () :=
  finishAuthEmailTx outboxID AuthEmailAccepted EmptyString now EventAuthEmailSent.
Definition MarkAuthEmailOutcomeUnknown (outboxID : uuid) (errorClass : string) (now : timestamp) : tx () :=
  finishAuthEmailTx outboxID AuthEmailOutcomeUnknown errorClass now EventAuthEmailOutcomeUnknown.
Definition invalidate_outbox_links (outboxID : uuid) (now : timestamp) : tx () :=
  tx_modify (λ d, put_links (update_where (λ _ l, bool_decide (al_OutboxID l = Some outboxID) && link_unused l)
                               (with_invalidated now "send_failed") (auth_link_tokens d)) d).
Definition MarkAuthEmailFailed (outboxID : uuid) (errorClass : string) (now : timestamp) : tx () :=
  _ ← invalidate_outbox_links outboxID now;
  finishAuthEmailTx outboxID AuthEmailFailed errorClass now EventAuthEmailFailed.
Definition with_retry (errorClass : string) (o : OutboxRow) : OutboxRow :=
  mkOutbox (ob_Purpose o) (ob_RecipientEmail o) (ob_RecipientIdentityID o) (ob_AccessRequestID o) (ob_Locale o)
    AuthEmailPending (ob_Attempts o) None None (ob_AcceptedAt o) (ob_OutcomeUnknownAt o) (ob_TerminalAt o)
    (Some errorClass) (ob_CreatedAt o).
Definition ReleaseAuthEmailRetry (outboxID : uuid) (errorClass : string) (maxAttempts : Z) (now : timestamp) : tx () :=
  d ← tx_get;
  match auth_email_outbox d !! outboxID with
  | None => mret ()
  | Some o =>
      if outbox_terminal (ob_State o) then mret ()
      else if ob_Attempts o <? maxAttempts then
        tx_modify (put_outbox (<[outboxID := with_retry errorClass o]> (auth_email_outbox d)))
      else
        _ ← invalidate_outbox_links outboxID now;
        finishAuthEmailTx outboxID AuthEmailFailed errorClass now EventAuthEmailFailed
  end.
End links.
