(* ===== verification/IdentityJourneys.v ===== *)
(** Access requests (control-plane/internal/identity/access_request.go), first-time setup
    and password reset (credentials.go), and the locked bootstrap and recovery of the first
    Admin (bootstrap.go). *)
From S2P Require Import Prelude Json IdentityActions IdentityData IdentityStore IdentityFlows.

Definition AccessRequestRetention : Z := 180 * day.
Definition request_open (s : RequestState) : bool :=
  match s with AccessRequestVerificationPending | AccessRequestApprovalPending => true | _ => false end.
Definition request_terminal (s : RequestState) : bool := negb (request_open s).

(** * Access requests *)
Definition request_event (name : string) (actor subject request : uuid) (kind : string) (detail : json)
    (now : timestamp) : SecurityEvent :=
  mkEvent name OutcomeSuccess EmptyString EmptyString actor EmptyString subject request EmptyString EmptyString
    EmptyString kind EmptyString EmptyString detail None now.
Definition open_request (normalized : string) (_ : uuid) (r : AccessRequest) : bool :=
  bool_decide (ar_EmailNormalized r = normalized) && request_open (ar_State r).
(** The unique index [access_requests_non_terminal_email]. *)
Definition store_request (r : AccessRequest) : tx () :=
  d ← tx_get;
  _ ← tx_require (locale_check (ar_Locale r) &&
                  negb (request_open (ar_State r) &&
                        exists_where (λ k r', negb (bool_decide (k = ar_ID r)) &&
                                              open_request (ar_EmailNormalized r) k r') (access_requests d)))
        ErrConstraint;
  tx_modify (put_requests (<[ar_ID r := r]> (access_requests d))).
Section journeys.
Context (sha256hex : string → string).
Definition CreateOrResendAccessRequest (fresh outboxID : uuid) (delivery normalized locale : string)
    (now pgnow : timestamp) : tx AccessRequest :=
  d ← tx_get;
  match find_row (open_request normalized) (access_requests d) with
  | Some (_, existing) =>
      if bool_decide (ar_State existing = AccessRequestApprovalPending) then mret existing
      else
        _ ← InvalidateAuthLinksTx AuthLinkVerifyAccess (ar_ID existing) EmptyString now "resend";
        _ ← QueueAuthEmailTx outboxID AuthLinkVerifyAccess (ar_Email existing) EmptyString (ar_ID existing)
              (ar_Locale existing) pgnow;
        _ ← AppendSecurityEventTx (request_event "access_request_created" EmptyString EmptyString (ar_ID existing)
              EmptyString (JObj [("resend", JBool true)]) now);
        mret existing
  | None =>
      let request := mkRequest fresh delivery normalized locale AccessRequestVerificationPending None None None
                       None None None (now + AccessRequestRetention) pgnow in
      _ ← tx_require (is_null (access_requests d !! fresh)) ErrConstraint;
      _ ← store_request request;
      _ ← QueueAuthEmailTx outboxID AuthLinkVerifyAccess delivery EmptyString fresh locale pgnow;
      _ ← AppendSecurityEventTx (request_event "access_request_created" EmptyString EmptyString fresh
            EmptyString (JObj [("resend", JBool false)]) now);
      mret request
  end.
Definition with_verified (now : timestamp) (r : AccessRequest) : AccessRequest :=
  mkRequest (ar_ID r) (ar_Email r) (ar_EmailNormalized r) (ar_Locale r) AccessRequestApprovalPending
    (ar_TerminalReason r) (Some now) (ar_ReviewedBy r) (ar_ReviewedAt r) (ar_ApprovedIdentityID r)
    (ar_ApprovedRole r) (ar_PurgeAt r) (ar_CreatedAt r).
Definition request_by_id (d : IdentityDB) (id : option uuid) : option AccessRequest :=
  i ← id; access_requests d !! i.
Definition VerifyAccessRequest (raw : string) (now : timestamp) : tx AccessRequest :=
  t ← lockAuthLinkTx sha256hex raw;
  let l := t.2 in
  _ ← tx_require (bool_decide (al_Purpose l = AuthLinkVerifyAccess)) ErrAuthLinkInvalid;
  _ ← tx_require (is_null (al_InvalidatedAt l)) ErrAuthLinkSuperseded;
  d ← tx_get;
  request ← tx_opt (request_by_id d (al_AccessRequestID l)) ErrAccessRequestNotFound;
  if negb (is_null (al_ConsumedAt l)) then mret request
  else
    _ ← tx_require (now <? al_ExpiresAt l) ErrAuthLinkExpired;
    request ← (if bool_decide (ar_State request = AccessRequestVerificationPending) then
                 let verified := with_verified now request in
                 _ ← store_request verified;
                 _ ← AppendSecurityEventTx (request_event "access_request_verified" EmptyString EmptyString
                       (ar_ID verified) EmptyString (JObj []) now);
                 mret verified
               else mret request);
    _ ← ConsumeAuthLinkTx t.1 now;
    mret request.
Definition AccessRequestByToken (raw : string) : tx AccessRequest :=
  t ← lockAuthLinkTx sha256hex raw;
  let l := t.2 in
  _ ← tx_require (bool_decide (al_Purpose l = AuthLinkVerifyAccess)) ErrAuthLinkInvalid;
  _ ← tx_require (is_null (al_InvalidatedAt l)) ErrAuthLinkSuperseded;
  d ← tx_get;
  tx_opt (request_by_id d (al_AccessRequestID l)) ErrAccessRequestNotFound.
Definition verified_first (a b : AccessRequest) : Prop :=
  default 0 (ar_VerifiedAt a) ≤ default 0 (ar_VerifiedAt b).
#[export] Instance verified_first_dec a b : Decision (verified_first a b).
Proof. unfold verified_first. apply _. Defined.
Definition ListPendingAccessRequests (d : IdentityDB) : list AccessRequest :=
  merge_sort verified_first (filter (λ r, ar_State r = AccessRequestApprovalPending) (rows (access_requests d))).
Definition ensureNoLocalUserTx (normalized : string) : tx () :=
  d ← tx_get; tx_require (negb (exists_where (by_email normalized) (local_users d))) ErrAccountExists.
Definition with_approved (identityID : uuid) (role : string) (reviewer : uuid) (now : timestamp) (r : AccessRequest)
    : AccessRequest :=
  mkRequest (ar_ID r) (ar_Email r) (ar_EmailNormalized r) (ar_Locale r) AccessRequestApproved (Some "approved")
    (ar_VerifiedAt r) (Some reviewer) (Some now) (Some identityID) (Some role) (now + AccessRequestRetention)
    (ar_CreatedAt r).
Definition ApproveAccessRequest (fresh outboxID requestID reviewerID : uuid) (role : string)
    (now pgnow : timestamp) : tx LocalUser :=
  _ ← tx_require (mem role [RoleOperator; RoleAdmin]) ErrInvalidRole;
  d ← tx_get;
  request ← tx_opt (access_requests d !! requestID) ErrAccessRequestNotFound;
  _ ← tx_require (bool_decide (ar_State request = AccessRequestApprovalPending)) ErrRequestStateChanged;
  _ ← ensureNoLocalUserTx (ar_EmailNormalized request);
  ident ← upsert_identity fresh (ar_EmailNormalized request) KindUser SourceLocal (ar_Email request) (λ i, i) pgnow;
  d ← tx_get;
  _ ← tx_require (is_null (local_users d !! id_ID ident) && known_identity d (Some reviewerID)) ErrConstraint;
  _ ← store_user (id_ID ident) (new_user (ar_Email request) (ar_EmailNormalized request) (ar_Email request) role
        (ar_Locale request) (Some (ar_ID request)) pgnow);
  _ ← store_request (with_approved (id_ID ident) role reviewerID now request);
  _ ← InvalidateAuthLinksTx AuthLinkVerifyAccess (ar_ID request) EmptyString now "approved";
  _ ← QueueAuthEmailTx outboxID AuthLinkSetupPassword (ar_Email request) (id_ID ident) EmptyString
        (ar_Locale request) pgnow;
  _ ← AppendSecurityEventTx (request_event "access_request_approved" reviewerID (id_ID ident) (ar_ID request)
        CredentialBrowser (JObj [("role", JStr role)]) now);
  GetLocalUser (id_ID ident).
Definition with_declined (reviewer : uuid) (now : timestamp) (r : AccessRequest) : AccessRequest :=
  mkRequest (ar_ID r) (ar_Email r) (ar_EmailNormalized r) (ar_Locale r) AccessRequestDeclined (Some "declined")
    (ar_VerifiedAt r) (Some reviewer) (Some now) (ar_ApprovedIdentityID r) (ar_ApprovedRole r)
    (now + AccessRequestRetention) (ar_CreatedAt r).
Definition DeclineAccessRequest (requestID reviewerID : uuid) (now : timestamp) : tx () :=
  d ← tx_get;
  request ← tx_opt (access_requests d !! requestID) ErrAccessRequestNotFound;
  _ ← tx_require (bool_decide (ar_State request = AccessRequestApprovalPending)) ErrRequestStateChanged;
  _ ← tx_require (known_identity d (Some reviewerID)) ErrConstraint;
  _ ← store_request (with_declined reviewerID now request);
  _ ← InvalidateAuthLinksTx AuthLinkVerifyAccess (ar_ID request) EmptyString now "declined";
  AppendSecurityEventTx (request_event "access_request_declined" reviewerID EmptyString (ar_ID request)
    EmptyString (JObj []) now).
(** A usable verification link keeps the request open. *)
Definition has_valid_link (d : IdentityDB) (request : uuid) (now : timestamp) : bool :=
  exists_where (λ _ l, bool_decide (al_AccessRequestID l = Some request) &&
                       bool_decide (al_Purpose l = AuthLinkVerifyAccess) && link_unused l && (now <? al_ExpiresAt l))
    (auth_link_tokens d).
Definition request_overdue (d : IdentityDB) (now : timestamp) (k : uuid) (r : AccessRequest) : bool :=
  bool_decide (ar_State r = AccessRequestVerificationPending) &&
  (ar_CreatedAt r + VerifyAccessLinkTTL <=? now) && negb (has_valid_link d k now).
Definition with_expired (now : timestamp) (r : AccessRequest) : AccessRequest :=
  mkRequest (ar_ID r) (ar_Email r) (ar_EmailNormalized r) (ar_Locale r) AccessRequestExpired
    (Some "verification_expired") (ar_VerifiedAt r) (ar_ReviewedBy r) (ar_ReviewedAt r) (ar_ApprovedIdentityID r)
    (ar_ApprovedRole r) (now + AccessRequestRetention) (ar_CreatedAt r).
Definition ExpireAccessRequests (now : timestamp) : tx Z :=
  d ← tx_get;
  let P := request_overdue d now in
  _ ← tx_modify (put_requests (update_where P (with_expired now) (access_requests d)));
  _ ← tx_modify (λ d', put_events (security_events d' ++
        ((λ k, request_event "access_request_expired" EmptyString EmptyString k EmptyString
            (JObj [("reason", JStr "verification_expired")]) now) <$>
         (filter (λ kr, P kr.1 kr.2 = true) (map_to_list (access_requests d))).*1)) d');
  mret (count_where P (access_requests d)).
Definition purgeable (now : timestamp) (r : AccessRequest) : bool :=
  (ar_PurgeAt r <=? now) && request_terminal (ar_State r).
Definition purged_id (d : IdentityDB) (now : timestamp) (o : option uuid) : bool :=
  match o with
  | Some k => match access_requests d !! k with Some r => purgeable now r | None => false end
  | None => false
  end.
Definition without_request (pgnow : timestamp) (u : LocalUserRow) : LocalUserRow :=
  mkLocalUser (lu_Email u) (lu_EmailNormalized u) (lu_DisplayName u) (lu_Role u) (lu_Locale u) (lu_Status u)
    (lu_PasswordHash u) (lu_PasswordChangedAt u) (lu_CreatedAt u) pgnow None (lu_RoleChangedAt u)
    (lu_RoleChangedBy u) (lu_AccountChangedAt u) (lu_AccountChangedBy u).
(** The purge deletes the request's mail intents and links with it ([ON DELETE CASCADE]). *)
Definition PurgeAccessRequests (now pgnow : timestamp) : tx Z :=
  d ← tx_get;
  let gone := purged_id d now in
  let outbox := delete_where (λ _ o, gone (ob_AccessRequestID o)) (auth_email_outbox d) in
  let links := delete_where (λ _ l, gone (al_AccessRequestID l)) (auth_link_tokens d) in
  _ ← tx_modify (put_users (update_where (λ _ u, gone (lu_ApprovedAccessRequestID u)) (without_request pgnow)
                              (local_users d)));
  _ ← tx_modify (λ d', put_events (security_events d' ++
        ((λ _, event "access_request_purged" OutcomeSuccess now) <$>
         filter (λ r, purgeable now r = true) (rows (access_requests d)))) d');
  _ ← tx_modify (put_requests (delete_where (λ _, purgeable now) (access_requests d)));
  _ ← tx_modify (put_outbox outbox);
  _ ← tx_modify (put_links (forget_outbox (λ o, is_null (outbox !! o)) <$> links));
  mret (count_where (λ _, purgeable now) (access_requests d)).

(** * Setup and password reset (credentials.go) *)
Context (HashPassword : string → option string).
(** The locked account behind a link. *)
Definition localUserInTx (id : option uuid) : tx LocalUser :=
  d ← tx_get; tx_opt (i ← id; join_user true d i) ErrNotFoundID.
Definition CompleteSetup (raw displayName locale password : string) (now pgnow : timestamp) : tx LocalUser :=
  _ ← tx_require (locale_check locale) ErrUnsupportedLocale;
  passwordHash ← tx_opt (HashPassword password) ErrPasswordPolicy;
  t ← claimAuthLinkTx sha256hex raw AuthLinkSetupPassword now;
  user ← localUserInTx (al_IdentityID t.2);
  _ ← tx_require (bool_decide (lu_Status (us_Row user) = LocalUserSetupPending))
        (match lu_Status (us_Row user) with LocalUserDisabled => ErrAccountNotEligible | _ => ErrAuthLinkConsumed end);
  _ ← activateLocalUserTx (us_ID user) passwordHash (normalizeDisplayName displayName) locale now pgnow;
  _ ← ConsumeAuthLinkTx t.1 now;
  _ ← InvalidateAuthLinksTx AuthLinkSetupPassword EmptyString (us_ID user) now "completed";
  _ ← AppendSecurityEventTx (subject_event "setup_completed" (us_ID user) (JObj [("locale", JStr locale)]) now);
  GetLocalUser (us_ID user).
Definition has_password (u : LocalUserRow) : bool :=
  negb (bool_decide (derefString (lu_PasswordHash u) = EmptyString)).
Definition RequestPasswordReset (outboxID : uuid) (normalized : string) (now pgnow : timestamp) : tx bool :=
  d ← tx_get;
  match user_by_email d normalized with
  | None => mret false
  | Some user =>
      if negb (bool_decide (lu_Status (us_Row user) = LocalUserActive) && has_password (us_Row user)) then mret false
      else
        _ ← InvalidateAuthLinksTx AuthLinkResetPassword EmptyString (us_ID user) now "resend";
        _ ← QueueAuthEmailTx outboxID AuthLinkResetPassword (lu_Email (us_Row user)) (us_ID user) EmptyString
              (lu_Locale (us_Row user)) pgnow;
        _ ← AppendSecurityEventTx (subject_event "password_reset_requested" (us_ID user) (JObj []) now);
        mret true
  end.
Definition with_terminated (now : timestamp) (reason : Termination) (s : SessionRow) : SessionRow :=
  mkSession (bs_TokenHash s) (bs_IdentityID s) (bs_CSRFHash s) (bs_CreatedAt s) (bs_LastAuthorizedAt s)
    (bs_IdleExpiresAt s) (bs_AbsoluteExpiresAt s) (bs_RecentPasswordAt s) (Some now) (Some reason) (bs_CreatedIP s)
    (bs_LastIP s) (bs_LocationCountry s) (bs_LocationRegion s) (bs_Browser s) (bs_OS s) (bs_Device s).
Definition session_open (s : SessionRow) : bool := is_null (bs_TerminatedAt s).
Definition open_session_of (identityID : uuid) (_ : uuid) (s : SessionRow) : bool :=
  bool_decide (bs_IdentityID s = identityID) && session_open s.
(** [revokeAllSessionsTx] (people.go): the live sessions of an identity end. *)
Definition revokeAllSessionsTx (identityID : uuid) (now : timestamp) (reason : Termination) : tx Z :=
  d ← tx_get;
  _ ← tx_modify (put_sessions (update_where (open_session_of identityID) (with_terminated now reason)
                                 (browser_sessions d)));
  mret (count_where (open_session_of identityID) (browser_sessions d)).
Definition CompletePasswordReset (raw password : string) (now pgnow : timestamp) : tx () :=
  passwordHash ← tx_opt (HashPassword password) ErrPasswordPolicy;
  t ← claimAuthLinkTx sha256hex raw AuthLinkResetPassword now;
  user ← localUserInTx (al_IdentityID t.2);
  _ ← tx_require (bool_decide (lu_Status (us_Row user) = LocalUserActive) && has_password (us_Row user))
        ErrAccountNotEligible;
  _ ← setLocalUserPasswordTx (us_ID user) passwordHash now pgnow;
  _ ← ConsumeAuthLinkTx t.1 now;
  _ ← InvalidateAuthLinksTx AuthLinkResetPassword EmptyString (us_ID user) now "completed";
  _ ← revokeAllSessionsTx (us_ID user) now TerminationPasswordRevoked;
  AppendSecurityEventTx (subject_event "password_reset_completed" (us_ID user) (JObj []) now).
Definition ResendSetupInstructions (outboxID : uuid) (raw : string) (now pgnow : timestamp) : tx bool :=
  d ← tx_get;
  match find_row (link_by_hash (link_hash sha256hex raw)) (auth_link_tokens d) with
  | None => mret false
  | Some (_, l) =>
      if negb (bool_decide (al_Purpose l = AuthLinkSetupPassword)) then mret false
      else match (i ← al_IdentityID l; join_user true d i) with
           | None => mret false
           | Some user =>
               if negb (bool_decide (lu_Status (us_Row user) = LocalUserSetupPending)) then mret false
               else
                 _ ← InvalidateAuthLinksTx AuthLinkSetupPassword EmptyString (us_ID user) now "resend";
                 _ ← QueueAuthEmailTx outboxID AuthLinkSetupPassword (lu_Email (us_Row user)) (us_ID user)
                       EmptyString (lu_Locale (us_Row user)) pgnow;
                 _ ← AppendSecurityEventTx (subject_event "setup_resend_requested" (us_ID user) (JObj []) now);
                 mret true
           end
  end.
(** The bounded context a setup link discloses: the email and the approved role. *)
Definition SetupContext (raw : string) (now : timestamp) : tx (string * string) :=
  _ ← tx_require (negb (bool_decide (raw = EmptyString))) ErrAuthLinkInvalid;
  t ← lockAuthLinkTx sha256hex raw;
  let l := t.2 in
  d ← tx_get;
  let u := (i ← al_IdentityID l; local_users d !! i) in
  _ ← tx_require (bool_decide (al_Purpose l = AuthLinkSetupPassword)) ErrAuthLinkInvalid;
  _ ← tx_require (is_null (al_InvalidatedAt l)) ErrAuthLinkSuperseded;
  _ ← tx_require (is_null (al_ConsumedAt l)) ErrAuthLinkConsumed;
  _ ← tx_require (now <? al_ExpiresAt l) ErrAuthLinkExpired;
  u ← tx_opt u ErrAccountNotEligible;
  _ ← tx_require (bool_decide (lu_Status u = LocalUserSetupPending)) ErrAccountNotEligible;
  mret (lu_Email u, NormalizeRole (lu_Role u)).

(** * Bootstrap and recovery (bootstrap.go) *)
Inductive BootstrapState := BootstrapCreated | BootstrapNoop | BootstrapRecovered.
Record BootstrapResult := mkBootstrap { br_State : BootstrapState; br_AdminEmail : string; br_IdentityID : string }.
Record BootstrapOptions := mkBootstrapOptions { bo_AdminEmail : string; bo_AdminLocale : string; bo_Recover : bool }.
(** The SET clause of the bootstrap upsert. *)
Definition with_setup_pending (email normalized locale : string) (pgnow : timestamp) (u : LocalUserRow) : LocalUserRow :=
  mkLocalUser email normalized (lu_DisplayName u) RoleAdmin locale LocalUserSetupPending None None
    (lu_CreatedAt u) pgnow (lu_ApprovedAccessRequestID u) (lu_RoleChangedAt u) (lu_RoleChangedBy u)
    (lu_AccountChangedAt u) (lu_AccountChangedBy u).
Definition createSetupPendingAdminTx (fresh outboxID : uuid) (delivery normalized locale : string)
    (now pgnow : timestamp) : tx uuid :=
  ident ← upsert_identity fresh normalized KindUser SourceLocal delivery (λ i, i) pgnow;
  d ← tx_get;
  _ ← store_user (id_ID ident)
        (match local_users d !! id_ID ident with
         | Some u => with_setup_pending delivery normalized locale pgnow u
         | None => new_user delivery normalized delivery RoleAdmin locale None pgnow
         end);
  _ ← QueueAuthEmailTx outboxID AuthLinkSetupPassword delivery (id_ID ident) EmptyString locale pgnow;
  mret (id_ID ident).
Definition readBootstrapStateTx : tx (string * bool * Z) :=
  d ← tx_get;
  mret (default EmptyString (fst <$> bootstrap_marker d), negb (is_null (bootstrap_marker d)),
        Z.of_nat (size (local_users d))).
Definition bootstrap_event (name : string) (subject : uuid) (detail : json) (now : timestamp) : SecurityEvent :=
  mkEvent name OutcomeSuccess EmptyString EmptyString EmptyString EmptyString subject EmptyString EmptyString
    EmptyString EmptyString EmptyString EmptyString EmptyString detail None now.
Definition createFreshBootstrapTx (fresh outboxID : uuid) (delivery normalized locale : string)
    (now pgnow : timestamp) : tx BootstrapResult :=
  _ ← AppendSecurityEventTx (bootstrap_event "bootstrap_attempted" EmptyString (JObj [("state", JStr "empty")]) now);
  identityID ← createSetupPendingAdminTx fresh outboxID delivery normalized locale now pgnow;
  d ← tx_get;
  _ ← tx_require (is_null (bootstrap_marker d)) ErrConstraint;
  _ ← tx_modify (put_marker (Some (delivery, now)));
  _ ← AppendSecurityEventTx (bootstrap_event "bootstrap_completed" identityID (JObj [("role", JStr "admin")]) now);
  mret (mkBootstrap BootstrapCreated delivery identityID).
Definition with_recovered (locale : string) (now pgnow : timestamp) (u : LocalUserRow) : LocalUserRow :=
  mkLocalUser (lu_Email u) (lu_EmailNormalized u) (lu_DisplayName u) RoleAdmin locale LocalUserSetupPending None None
    (lu_CreatedAt u) pgnow (lu_ApprovedAccessRequestID u) (Some now) (lu_RoleChangedBy u) (Some now)
    (lu_AccountChangedBy u).
Definition recoverAdminTx (fresh outboxID outboxID2 : uuid) (delivery normalized locale : string)
    (now pgnow : timestamp) : tx BootstrapResult :=
  d ← tx_get;
  if 0 <? CountActiveAdmins d then
    _ ← AppendSecurityEventTx (mkEvent "recover_admin_denied" OutcomeDenied "active_admin_exists" EmptyString
          EmptyString EmptyString EmptyString EmptyString EmptyString EmptyString EmptyString EmptyString EmptyString
          EmptyString (JObj []) None now);
    tx_fail ErrRecoveryNotPermitted
  else
    _ ← AppendSecurityEventTx (bootstrap_event "recover_admin_attempted" EmptyString
          (JObj [("state", JStr "no_active_admin")]) now);
    identityID ← match user_by_email d normalized with
                 | None => createSetupPendingAdminTx fresh outboxID delivery normalized locale now pgnow
                 | Some user =>
                     _ ← store_user (us_ID user) (with_recovered locale now pgnow (us_Row user));
                     mret (us_ID user)
                 end;
    _ ← revokeAllSessionsTx identityID now TerminationAccountRevoked;
    _ ← tx_modify (λ d, put_keys (update_where (λ _ r, bool_decide (ak_IdentityID r = identityID) && unrevoked r)
                                    (with_revoked now) (api_keys d)) d);
    _ ← InvalidateAuthLinksTx AuthLinkSetupPassword EmptyString identityID now "recovery";
    _ ← InvalidateAuthLinksTx AuthLinkResetPassword EmptyString identityID now "recovery";
    _ ← QueueAuthEmailTx outboxID2 AuthLinkSetupPassword delivery identityID EmptyString locale pgnow;
    _ ← tx_modify (put_marker (Some (delivery, now)));
    _ ← AppendSecurityEventTx (bootstrap_event "recover_admin_completed" identityID (JObj [("role", JStr "admin")]) now);
    mret (mkBootstrap BootstrapRecovered delivery identityID).
Definition BootstrapAdmin (ToLower : string → string) (fresh outboxID outboxID2 : uuid) (opts : BootstrapOptions)
    (now pgnow : timestamp) : tx BootstrapResult :=
  match CanonicalEmail ToLower (bo_AdminEmail opts) with
  | None => tx_fail ErrInvalidEmail
  | Some (delivery, normalized) =>
      let locale := if bool_decide (bo_AdminLocale opts = EmptyString) then "en" else bo_AdminLocale opts in
      _ ← tx_require (locale_check locale) ErrUnsupportedLocale;
      st ← readBootstrapStateTx;
      let '(markerEmail, hasMarker, userCount) := st in
      if bo_Recover opts then recoverAdminTx fresh outboxID outboxID2 delivery normalized locale now pgnow
      else if hasMarker && (userCount =? 0) then tx_fail ErrBootstrapInconsistent
      else if hasMarker || (0 <? userCount) then mret (mkBootstrap BootstrapNoop markerEmail EmptyString)
      else createFreshBootstrapTx fresh outboxID delivery normalized locale now pgnow
  end.
End journeys.
