(* ===== verification/IdentitySession.v ===== *)
(** Opaque browser sessions (control-plane/internal/identity/session.go) and the persistent
    authentication throttle (throttle.go).

    [ResolveBrowserSession] reads the session, decides and then writes; it is one function
    on the tables here, and its writes carry the guards of their statements. *)
From S2P Require Import Prelude Json IdentityActions IdentityData IdentityStore IdentityFlows IdentityJourneys.

Definition minute : Z := 60 * second.
Definition sessionActivityCoalesce : Z := 5 * minute.

(** A session joined with its account ([LEFT JOIN identity.local_users]). *)
Record BrowserSession := mkBrowserSession {
  ss_ID : uuid; ss_Row : SessionRow; ss_User : option LocalUserRow; ss_Role : string }.
Definition join_session (d : IdentityDB) (id : uuid) (s : SessionRow) : BrowserSession :=
  let u := local_users d !! bs_IdentityID s in
  mkBrowserSession id s u (default EmptyString (lu_Role <$> u)).

Record CreateBrowserSessionParams := mkSessionParams {
  sp_IdentityID : uuid; sp_CSRFHash : string; sp_IdleTTL : Z; sp_AbsoluteTTL : Z; sp_Now : timestamp;
  sp_IP : option string; sp_Browser : string; sp_OS : string; sp_Device : string;
  sp_Country : string; sp_Region : string; sp_Audit : option SecurityEvent }.
Definition with_session_id (id : uuid) (e : SecurityEvent) : SecurityEvent :=
  mkEvent (se_Event e) (se_Outcome e) (se_Reason e) (se_InitiatingHuman e) (se_RequestActor e) (se_ActorRole e)
    (se_Subject e) (se_AccessRequestID e) id (se_APIKeyID e) (se_KeyOwner e) (se_CredentialKind e) (se_RequestID e)
    (se_CorrelationID e) (se_Detail e) (se_Network e) (se_CreatedAt e).
Section sessions.
Context (sha256hex : string → string).
Definition session_hash (raw : string) : string := HashSecret sha256hex SecretDomainSessionToken raw.
Definition CreateBrowserSession (fresh raw : string) (p : CreateBrowserSessionParams) : tx (string * BrowserSession) :=
  let now := sp_Now p in
  let absolute := now + sp_AbsoluteTTL p in
  let idle := Z.min (now + sp_IdleTTL p) absolute in
  let row := mkSession (session_hash raw) (sp_IdentityID p) (sp_CSRFHash p) now now idle absolute None None None
               (sp_IP p) (sp_IP p) (nullString (sp_Country p)) (nullString (sp_Region p))
               (nullString (sp_Browser p)) (nullString (sp_OS p)) (nullString (sp_Device p)) in
  d ← tx_get;
  _ ← tx_require (known_identity d (Some (sp_IdentityID p)) && is_null (browser_sessions d !! fresh) &&
                  negb (exists_where (λ _ s, bool_decide (bs_TokenHash s = bs_TokenHash row)) (browser_sessions d)))
        ErrConstraint;
  _ ← tx_modify (put_sessions (<[fresh := row]> (browser_sessions d)));
  _ ← match sp_Audit p with
      | Some e => AppendSecurityEventTx (with_session_id fresh e)
      | None => mret ()
      end;
  mret (raw, join_session d fresh row).

(** [mutateSessionWithAudit]: the rows that changed, with their evidence in the same
    transaction when there are any. *)
Definition mutateSessionWithAudit (P : uuid → SessionRow → bool) (f : SessionRow → SessionRow)
    (ev : Z → option SecurityEvent) : tx Z :=
  d ← tx_get;
  let changed := count_where P (browser_sessions d) in
  _ ← tx_modify (put_sessions (update_where P f (browser_sessions d)));
  _ ← (if 0 <? changed then
         match ev changed with Some e => AppendSecurityEventTx e | None => mret () end
       else mret ());
  mret changed.
Definition fixedEvent (e : option SecurityEvent) (_ : Z) : option SecurityEvent := e.
Definition RevokeSessionWithAudit (sessionID : uuid) (now : timestamp) (reason : Termination)
    (e : option SecurityEvent) : tx bool :=
  n ← mutateSessionWithAudit (λ k s, bool_decide (k = sessionID) && session_open s) (with_terminated now reason)
        (fixedEvent e);
  mret (0 <? n).
Definition RevokeSession (sessionID : uuid) (now : timestamp) (reason : Termination) : tx bool :=
  RevokeSessionWithAudit sessionID now reason None.
Definition RevokeOwnedSessionWithAudit (identityID sessionID : uuid) (now : timestamp) (reason : Termination)
    (e : option SecurityEvent) : tx bool :=
  n ← mutateSessionWithAudit (λ k s, bool_decide (k = sessionID) && open_session_of identityID k s)
        (with_terminated now reason) (fixedEvent e);
  mret (0 <? n).
Definition RevokeOtherSessionsWithAudit (identityID keepID : uuid) (now : timestamp) (reason : Termination)
    (e : Z → option SecurityEvent) : tx Z :=
  mutateSessionWithAudit (λ k s, negb (bool_decide (k = keepID)) && open_session_of identityID k s)
    (with_terminated now reason) e.
Definition RevokeAllSessionsForIdentity (identityID : uuid) (now : timestamp) (reason : Termination) : tx Z :=
  revokeAllSessionsTx identityID now reason.
Definition RevokeSessionByToken (raw : string) (now : timestamp) (reason : Termination) : tx bool :=
  if bool_decide (raw = EmptyString) then mret false
  else
    n ← mutateSessionWithAudit (λ _ s, bool_decide (bs_TokenHash s = session_hash raw) && session_open s)
          (with_terminated now reason) (fixedEvent None);
    mret (0 <? n).

(** Activity is coalesced: at most one write per five minutes. *)
Record SessionNetwork := mkSessionNetwork { sn_IP : option string; sn_Location : option (string * string) }.
Definition with_activity (now idle : timestamp) (n : SessionNetwork) (s : SessionRow) : SessionRow :=
  mkSession (bs_TokenHash s) (bs_IdentityID s) (bs_CSRFHash s) (bs_CreatedAt s) now idle (bs_AbsoluteExpiresAt s)
    (bs_RecentPasswordAt s) (bs_TerminatedAt s) (bs_TerminationReason s) (bs_CreatedIP s)
    (match sn_IP n with Some ip => Some ip | None => bs_LastIP s end)
    (match sn_Location n with Some l => Some l.1 | None => bs_LocationCountry s end)
    (match sn_Location n with Some l => Some l.2 | None => bs_LocationRegion s end)
    (bs_Browser s) (bs_OS s) (bs_Device s).
(** [written] is false when the statement failed, which leaves the session as it was read. *)
Definition coalesceSessionActivity (b : BrowserSession) (now : timestamp) (n : SessionNetwork) (written : bool)
    (d : IdentityDB) : BrowserSession * IdentityDB :=
  let s := ss_Row b in
  if now - bs_LastAuthorizedAt s <? sessionActivityCoalesce then (b, d)
  else
    let idle := Z.min (now + (bs_IdleExpiresAt s - bs_LastAuthorizedAt s)) (bs_AbsoluteExpiresAt s) in
    if negb written then (b, d)
    else
      (mkBrowserSession (ss_ID b) (with_activity now idle n s) (ss_User b) (ss_Role b),
       put_sessions (update_where (λ k r, bool_decide (k = ss_ID b) && session_open r) (with_activity now idle n)
                       (browser_sessions d)) d).
Definition terminate (b : BrowserSession) (now : timestamp) (reason : Termination) (d : IdentityDB) : IdentityDB :=
  (run_tx (RevokeSession (ss_ID b) now reason) d).2.
Definition session_by_hash (hash : string) (_ : uuid) (s : SessionRow) : bool := bool_decide (bs_TokenHash s = hash).
Definition ResolveBrowserSessionWithNetwork (raw : string) (now : timestamp) (n : SessionNetwork) (written : bool)
    (d : IdentityDB) : (IdErr + BrowserSession) * IdentityDB :=
  if bool_decide (raw = EmptyString) then (inl ErrSessionInvalid, d)
  else match find_row (session_by_hash (session_hash raw)) (browser_sessions d) with
  | None => (inl ErrSessionInvalid, d)
  | Some (id, s) =>
      let b := join_session d id s in
      if negb (session_open s) then (inl ErrSessionInvalid, d)
      else if default false ((λ u, negb (bool_decide (lu_Status u = LocalUserActive))) <$> ss_User b)
      then (inl ErrSessionIneligible, terminate b now TerminationAccountRevoked d)
      else if bs_AbsoluteExpiresAt s <=? now then (inl ErrSessionExpired, terminate b now TerminationAbsoluteExpired d)
      else if bs_IdleExpiresAt s <=? now then (inl ErrSessionExpired, terminate b now TerminationIdleExpired d)
      else
        let '(b', d') := coalesceSessionActivity b now n written d in
        (inr (mkBrowserSession (ss_ID b') (ss_Row b') (ss_User b') (NormalizeRole (ss_Role b'))), d')
  end.
Definition ResolveBrowserSession (raw : string) (now : timestamp) (written : bool) (d : IdentityDB)
    : (IdErr + BrowserSession) * IdentityDB :=
  ResolveBrowserSessionWithNetwork raw now (mkSessionNetwork None None) written d.

Definition VerifyCSRF (b : BrowserSession) (presented : string) : bool :=
  negb (bool_decide (presented = EmptyString) || bool_decide (bs_CSRFHash (ss_Row b) = EmptyString)) &&
  SecretMatches sha256hex (bs_CSRFHash (ss_Row b)) SecretDomainCSRF presented.
Definition with_csrf (hash : string) (s : SessionRow) : SessionRow :=
  mkSession (bs_TokenHash s) (bs_IdentityID s) hash (bs_CreatedAt s) (bs_LastAuthorizedAt s) (bs_IdleExpiresAt s)
    (bs_AbsoluteExpiresAt s) (bs_RecentPasswordAt s) (bs_TerminatedAt s) (bs_TerminationReason s) (bs_CreatedIP s)
    (bs_LastIP s) (bs_LocationCountry s) (bs_LocationRegion s) (bs_Browser s) (bs_OS s) (bs_Device s).
Definition RotateSessionCSRF (raw : string) (sessionID : uuid) : tx string :=
  n ← mutateSessionWithAudit (λ k s, bool_decide (k = sessionID) && session_open s)
        (with_csrf (HashSecret sha256hex SecretDomainCSRF raw)) (fixedEvent None);
  _ ← tx_require (0 <? n) ErrSessionInvalid;
  mret raw.
Definition with_recent_password (now : timestamp) (s : SessionRow) : SessionRow :=
  mkSession (bs_TokenHash s) (bs_IdentityID s) (bs_CSRFHash s) (bs_CreatedAt s) (bs_LastAuthorizedAt s)
    (bs_IdleExpiresAt s) (bs_AbsoluteExpiresAt s) (Some now) (bs_TerminatedAt s) (bs_TerminationReason s)
    (bs_CreatedIP s) (bs_LastIP s) (bs_LocationCountry s) (bs_LocationRegion s) (bs_Browser s) (bs_OS s) (bs_Device s).
Definition SetRecentPasswordWithAudit (sessionID : uuid) (now : timestamp) (e : option SecurityEvent) : tx () :=
  n ← mutateSessionWithAudit (λ k s, bool_decide (k = sessionID) && session_open s) (with_recent_password now)
        (fixedEvent e);
  tx_require (0 <? n) ErrSessionInvalid.
Definition HasRecentPassword (b : BrowserSession) (window now : Z) : bool :=
  match bs_RecentPasswordAt (ss_Row b) with None => false | Some t => now - t <=? window end.
Definition session_listed (identityID : uuid) (now : timestamp) (s : SessionRow) : bool :=
  bool_decide (bs_IdentityID s = identityID) && session_open s && (now <? bs_IdleExpiresAt s) &&
  (now <? bs_AbsoluteExpiresAt s).
Definition listed_first (current : uuid) (a b : BrowserSession) : Prop :=
  (ss_ID a = current ∧ current ≠ EmptyString) ∨
  ((ss_ID b = current → current = EmptyString) ∧
   bs_LastAuthorizedAt (ss_Row b) ≤ bs_LastAuthorizedAt (ss_Row a)).
#[export] Instance listed_first_dec current a b : Decision (listed_first current a b).
Proof. unfold listed_first. apply _. Defined.
Definition normalize_session (b : BrowserSession) : BrowserSession :=
  mkBrowserSession (ss_ID b) (ss_Row b) (ss_User b) (NormalizeRole (ss_Role b)).
Definition ListActiveSessions (identityID current : uuid) (now : timestamp) (d : IdentityDB) : list BrowserSession :=
  normalize_session <$> merge_sort (listed_first current)
    ((λ '(k, s), join_session d k s) <$>
     filter (λ ks, session_listed identityID now ks.2 = true) (map_to_list (browser_sessions d))).
Definition network_purgeable (before : timestamp) (s : SessionRow) : bool :=
  default false ((λ t, t <? before) <$> bs_TerminatedAt s) &&
  (negb (is_null (bs_CreatedIP s)) || negb (is_null (bs_LastIP s))).
Definition without_network (s : SessionRow) : SessionRow :=
  mkSession (bs_TokenHash s) (bs_IdentityID s) (bs_CSRFHash s) (bs_CreatedAt s) (bs_LastAuthorizedAt s)
    (bs_IdleExpiresAt s) (bs_AbsoluteExpiresAt s) (bs_RecentPasswordAt s) (bs_TerminatedAt s)
    (bs_TerminationReason s) None None (bs_LocationCountry s) (bs_LocationRegion s) (bs_Browser s) (bs_OS s)
    (bs_Device s).
Definition PurgeSessionNetworkEvidence (before : timestamp) : tx Z :=
  mutateSessionWithAudit (λ _, network_purgeable before) without_network (fixedEvent None).
End sessions.

(** * The throttle *)
Record ThrottleRule := mkRule { tr_Scope : string; tr_Limit : Z; tr_Window : Z; tr_Block : Z }.
Record ThrottleState := mkThrottleState { ts_Blocked : bool; ts_RetryAfter : Z; ts_Attempts : Z }.
Definition throttleState (blockedUntil : option timestamp) (attempts : Z) (now : timestamp) : ThrottleState :=
  match blockedUntil with
  | Some t => if now <? t then mkThrottleState true (t - now) attempts else mkThrottleState false 0 attempts
  | None => mkThrottleState false 0 attempts
  end.
Definition unthrottled : ThrottleState := mkThrottleState false 0 0.
Definition ThrottleStatus (rule : ThrottleRule) (subject : string) (now : timestamp) (d : IdentityDB) : ThrottleState :=
  if tr_Limit rule <=? 0 then unthrottled
  else match auth_throttle_counters d !! (tr_Scope rule, subject) with
       | None => unthrottled
       | Some t => throttleState (th_BlockedUntil t) (th_Attempts t) now
       end.
(** The three CASE expressions of the upsert. *)
Definition record_attempt (rule : ThrottleRule) (now : timestamp) (t : ThrottleRow) : ThrottleRow :=
  if default false ((λ b, now <? b) <$> th_BlockedUntil t)
  then mkThrottle (th_WindowStartedAt t) (th_Attempts t) (th_BlockedUntil t) now
  else if th_WindowStartedAt t <=? now - tr_Window rule
  then mkThrottle now 1 None now
  else mkThrottle (th_WindowStartedAt t) (th_Attempts t + 1)
         (if tr_Limit rule <=? th_Attempts t + 1 then Some (now + tr_Block rule) else None) now.
Definition RecordAuthAttempt (rule : ThrottleRule) (subject : string) (now : timestamp) : tx ThrottleState :=
  if tr_Limit rule <=? 0 then mret unthrottled
  else
    d ← tx_get;
    let k := (tr_Scope rule, subject) in
    let row := match auth_throttle_counters d !! k with
               | None => mkThrottle now 1 None now
               | Some t => record_attempt rule now t
               end in
    _ ← tx_require (th_Attempts row <=? int4_max) ErrConstraint;
    _ ← tx_modify (put_throttle (<[k := row]> (auth_throttle_counters d)));
    mret (throttleState (th_BlockedUntil row) (th_Attempts row) now).
Definition ClearAuthThrottle (scope subject : string) : tx () :=
  tx_modify (λ d, put_throttle (delete (scope, subject) (auth_throttle_counters d)) d).
Definition throttle_prunable (before now : timestamp) (t : ThrottleRow) : bool :=
  (th_UpdatedAt t <? before) && default true ((λ b, b <=? now) <$> th_BlockedUntil t).
Definition PruneAuthThrottle (before now : timestamp) : tx Z :=
  d ← tx_get;
  _ ← tx_modify (put_throttle (delete_where (λ _, throttle_prunable before now) (auth_throttle_counters d)));
  mret (count_where (λ _, throttle_prunable before now) (auth_throttle_counters d)).
