(* ===== verification/IdentityPeople.v ===== *)
(** Customer API credentials (control-plane/internal/identity/apicredentials.go) with the
    live projection [identity.effective_api_credentials] of migration 000027, and People
    administration (people.go). *)
From S2P Require Import Prelude Json IdentityActions IdentityData IdentityStore IdentityFlows IdentityJourneys IdentitySession.

(** * The live projection *)
Record Credential := mkCredential {
  cr_ID : uuid; cr_FamilyID : option uuid; cr_Version : Z; cr_Kind : string; cr_Status : KeyStatus;
  cr_ExpiresAt : option timestamp; cr_Actions : list string; cr_OwnerIdentityID : option uuid;
  cr_OwnerStatus : option UserStatus; cr_OwnerRole : string; cr_ActorIdentityID : uuid;
  cr_ActorKind : string; cr_ActorRole : string; cr_RateRPM : option Z; cr_RateTPM : option Z;
  cr_Epoch : Epoch; cr_Eligible : bool; cr_SuspensionReason : string }.
Definition owner_row (d : IdentityDB) (r : ApiKeyRow) : option LocalUserRow :=
  o ← ak_Owner r; local_users d !! o.
Definition role_of (u : option LocalUserRow) : string := default EmptyString (lu_Role <$> u).
(** A retiring version counts as active until its overlap ends. *)
Definition projected_status (pgnow : timestamp) (r : ApiKeyRow) : KeyStatus :=
  if bool_decide (ak_Status r = KeyRetiring) && default false ((λ t, pgnow <? t) <$> ak_RetiringUntil r)
  then KeyActive else ak_Status r.
Definition owner_entitled (kind role : string) : bool :=
  (bool_decide (kind = CredentialKindPersonal) && mem role [RoleAdmin; RoleOperator]) ||
  (bool_decide (kind = CredentialKindAutomation) && bool_decide (role = RoleAdmin)).
Definition eligible (d : IdentityDB) (pgnow : timestamp) (kind : string) (r : ApiKeyRow) : bool :=
  bool_decide (projected_status pgnow r = KeyActive) && unexpired pgnow r &&
  bool_decide (lu_Status <$> owner_row d r = Some LocalUserActive) &&
  owner_entitled kind (role_of (owner_row d r)).
Definition key_status_name (s : KeyStatus) : string :=
  match s with
  | KeyActive => "active" | KeyRetiring => "retiring" | KeySuspended => "suspended"
  | KeyExpired => "expired" | KeyRevoked => "revoked"
  end.
Definition suspension_reason (d : IdentityDB) (pgnow : timestamp) (kind : string) (r : ApiKeyRow) : string :=
  match projected_status pgnow r with
  | KeyRevoked => "revoked"
  | KeyExpired => "expired"
  | KeySuspended => default "suspended" (ak_SuspensionReason r)
  | s =>
      if negb (unexpired pgnow r) then "expired"
      else if negb (bool_decide (s = KeyActive)) then key_status_name s
      else if negb (bool_decide (lu_Status <$> owner_row d r = Some LocalUserActive)) then "owner_inactive"
      else if bool_decide (kind = CredentialKindAutomation) &&
              negb (bool_decide (role_of (owner_row d r) = RoleAdmin)) then "owner_not_admin"
      else if negb (mem (role_of (owner_row d r)) [RoleAdmin; RoleOperator]) then "owner_no_role"
      else EmptyString
  end.
(** One row of the view: a V2 key with a kind whose actor identity is live. The actor is
    the key's bound identity. *)
Definition effective_credential (d : IdentityDB) (pgnow : timestamp) (id : uuid) (r : ApiKeyRow) : option Credential :=
  kind ← ak_KeyType r;
  ai ← identities d !! ak_IdentityID r;
  if bool_decide (ak_Epoch r = AuthorityEpochV2) && live ai then
    Some (mkCredential id (ak_FamilyID r) (ak_Version r) kind (projected_status pgnow r) (ak_ExpiresAt r)
            (default [] (ak_Actions r)) (ak_Owner r) (lu_Status <$> owner_row d r) (role_of (owner_row d r))
            (ak_IdentityID r) (id_Kind (ir_Identity ai)) (role_of (local_users d !! ak_IdentityID r))
            (ak_RateRPM r) (ak_RateTPM r) (ak_Epoch r) (eligible d pgnow kind r)
            (suspension_reason d pgnow kind r))
  else None.

(** * Bearer requests *)
Definition credentialLastUseCoalesce : Z := 5 * minute.
Definition identityOrMissing (d : IdentityDB) (id : uuid) : Identity :=
  match identities d !! id with
  | Some r => if live r then ir_Identity r else mkIdentity id EmptyString EmptyString EmptyString EmptyString
  | None => mkIdentity id EmptyString EmptyString EmptyString EmptyString
  end.
Definition touchCredentialLastUse (id : uuid) (now : timestamp) (d : IdentityDB) : IdentityDB :=
  put_keys (update_where (λ k r, bool_decide (k = id) &&
      default true ((λ t, t <? now - credentialLastUseCoalesce) <$> ak_LastUsedAt r)) (with_last_used now)
    (api_keys d)) d.
(** The credential with its owner and actor; a credential that is not eligible comes with
    the error. [stamped] is false when the last-use write failed. *)
Definition ResolveCredential (sha256hex : string → string) (fullKey : string) (stamped : bool)
    (now pgnow : timestamp) (d : IdentityDB)
    : (IdErr + (Credential * Identity * Identity * option IdErr)) * IdentityDB :=
  match ('(id, r) ← find_row (by_hash (HashAPIKey sha256hex fullKey)) (api_keys d);
         effective_credential d pgnow id r) with
  | None => (inl ErrInvalidAPIKey, d)
  | Some cred =>
      let owner := identityOrMissing d (derefString (cr_OwnerIdentityID cred)) in
      let actor := identityOrMissing d (cr_ActorIdentityID cred) in
      if cr_Eligible cred
      then (inr (cred, owner, actor, None), if stamped then touchCredentialLastUse (cr_ID cred) now d else d)
      else (inr (cred, owner, actor, Some ErrCredentialNotEligible), d)
  end.
Definition AuthorizeAction (c : Credential) (required : string) : IdErr + () :=
  if negb (cr_Eligible c) then inl ErrCredentialNotEligible
  else if negb (ActionsSatisfied (cr_Actions c) required) then inl ErrCredentialInsufficient
  else inr ().

(** * Issuing a credential *)
Record CreateCredentialParams := mkCredentialParams {
  cp_Kind : string; cp_OwnerIdentity : uuid; cp_ActorIdentity : uuid; cp_Name : string; cp_Purpose : string;
  cp_Actions : list string; cp_RateRPM : Z; cp_RateTPM : Z; cp_ExpiresAt : option timestamp;
  cp_CreatedBy : string; cp_Now : timestamp }.
Definition lockLocalUserTx (id : uuid) : tx LocalUser :=
  d ← tx_get; tx_opt (join_user false d id) ErrNotFoundID.
Definition validateOwnerEligibility (kind : string) (owner : LocalUserRow) : bool :=
  bool_decide (lu_Status owner = LocalUserActive) &&
  (let role := NormalizeRole (lu_Role owner) in
   if bool_decide (kind = CredentialKindPersonal) then bool_decide (role = RoleAdmin) || bool_decide (role = RoleOperator)
   else if bool_decide (kind = CredentialKindAutomation) then bool_decide (role = RoleAdmin)
   else false).
Definition credential_event (p : CreateCredentialParams) (id : uuid) : SecurityEvent :=
  mkEvent "api_key_created" OutcomeSuccess EmptyString (cp_OwnerIdentity p) (cp_ActorIdentity p) EmptyString
    (cp_OwnerIdentity p) EmptyString EmptyString id (cp_OwnerIdentity p) (cp_Kind p) EmptyString EmptyString
    (JObj [("actions", JArr (JStr <$> cp_Actions p)); ("rateRPM", JNum (cp_RateRPM p) 0);
           ("rateTPM", JNum (cp_RateTPM p) 0)]) None (cp_Now p).
Definition credential_row (p : CreateCredentialParams) (hash prefix : string) (expiresAt : timestamp) (familyID : uuid)
    (pgnow : timestamp) : ApiKeyRow :=
  mkApiKey (cp_ActorIdentity p) hash prefix (cp_Name p) (cp_Purpose p) None (Some expiresAt) None None pgnow
    (Some familyID) 1 (Some (cp_Kind p)) (Some (cp_OwnerIdentity p)) (Some (cp_ActorIdentity p))
    (Some (cp_Actions p)) KeyActive None None (Some (cp_RateRPM p)) (Some (cp_RateTPM p)) None
    (nullString (cp_CreatedBy p)) AuthorityEpochV2.
(** The credential is read again from the view after the commit: [None] is that read's
    error. An absent expiry is the zero time. *)
Definition CreateCredentialVersion (sha256hex : string → string) (fresh familyID enc : string)
    (p : CreateCredentialParams) (pgnow : timestamp) : tx (string * option Credential) :=
  _ ← tx_require (bool_decide (cp_Kind p = CredentialKindPersonal) || bool_decide (cp_Kind p = CredentialKindAutomation))
        ErrInvalidCredentialKind;
  _ ← tx_require (negb (bool_decide (cp_Kind p = CredentialKindPersonal) &&
                        negb (bool_decide (cp_OwnerIdentity p = cp_ActorIdentity p)))) ErrOwnerActorShape;
  _ ← tx_require (negb (bool_decide (cp_Kind p = CredentialKindAutomation) &&
                        bool_decide (cp_OwnerIdentity p = cp_ActorIdentity p))) ErrOwnerActorShape;
  _ ← tx_require ((0 <? cp_RateRPM p) && (0 <? cp_RateTPM p)) ErrRatePolicy;
  expiresAt ← tx_opt (cp_ExpiresAt p) ErrExpiry;
  _ ← tx_require (cp_Now p <? expiresAt) ErrExpiry;
  let '(full, prefix, hash) := GenerateAPIKey sha256hex enc in
  owner ← lockLocalUserTx (cp_OwnerIdentity p);
  _ ← tx_require (validateOwnerEligibility (cp_Kind p) (us_Row owner)) ErrOwnerNotEligible;
  _ ← match ValidateActions (cp_Kind p) (cp_Actions p) (NormalizeRole (lu_Role (us_Row owner))) with
      | inl e => tx_fail (ErrInvalidCredentialAction e)
      | inr () => mret ()
      end;
  d ← tx_get;
  _ ← tx_require (is_null (api_keys d !! fresh) && known_identity d (nullString (cp_CreatedBy p))) ErrConstraint;
  let r := credential_row p hash prefix expiresAt familyID pgnow in
  _ ← store_key fresh r;
  _ ← AppendSecurityEventTx (credential_event p fresh);
  cred ← tx_asks (λ d, effective_credential d pgnow fresh r);
  mret (full, cred).
(** Called inside the transfer's transaction. *)
Definition RecordOwnershipTransfer (familyID credentialID priorOwner newOwner transferredBy reason correlationID : string)
    (now : timestamp) : tx () :=
  _ ← tx_require (negb (bool_decide (priorOwner = newOwner))) ErrSameOwner;
  tx_modify (λ d, put_history (ownership_history d ++
    [mkTransfer familyID credentialID priorOwner newOwner transferredBy (nullString reason) (nullString correlationID)
       now]) d).

(** * People administration (people.go) *)
Record Person := mkPerson { pe_IdentityID : uuid; pe_Row : LocalUserRow; pe_Role : string }.
Definition person_of (u : LocalUser) : Person := mkPerson (us_ID u) (us_Row u) (NormalizeRole (lu_Role (us_Row u))).
Definition GetPerson (d : IdentityDB) (id : uuid) : option Person := person_of <$> join_user true d id.
Definition person_first (a b : LocalUser) : Prop :=
  let admin u := bool_decide (lu_Role (us_Row u) = RoleAdmin) in
  (admin a = true ∧ admin b = false) ∨
  (admin a = admin b ∧ String.leb (lu_EmailNormalized (us_Row a)) (lu_EmailNormalized (us_Row b)) = true).
#[export] Instance person_first_dec a b : Decision (person_first a b). Proof. unfold person_first. apply _. Defined.
Definition ListPeople (d : IdentityDB) : list Person :=
  person_of <$> merge_sort person_first (omap (λ '(i, _), join_user true d i) (map_to_list (local_users d))).
Record PersonConsequences := mkConsequences { pc_SessionsRevoked : Z; pc_CredentialsSuspended : Z }.

Definition other_admins (d : IdentityDB) (target : uuid) : Z :=
  count_where (λ k u, active_admin u && negb (bool_decide (k = target))) (local_users d).
Definition requireAnotherActiveAdminTx (target : uuid) : tx () :=
  d ← tx_get; tx_require (negb (other_admins d target =? 0)) ErrLastAdmin.
Definition with_suspended (reason : string) (r : ApiKeyRow) : ApiKeyRow :=
  mkApiKey (ak_IdentityID r) (ak_KeyHash r) (ak_Prefix r) (ak_Name r) (ak_Purpose r) (ak_Scope r)
    (ak_ExpiresAt r) (ak_LastUsedAt r) (ak_RevokedAt r) (ak_CreatedAt r) (ak_FamilyID r) (ak_Version r)
    (ak_KeyType r) (ak_Owner r) (ak_Actor r) (ak_Actions r) KeySuspended (Some reason)
    (ak_RevocationReason r) (ak_RateRPM r) (ak_RateTPM r) (ak_RetiringUntil r) (ak_CreatedBy r) (ak_Epoch r).
Definition owned_live (owner : uuid) (r : ApiKeyRow) : bool :=
  bool_decide (ak_Owner r = Some owner) && bool_decide (ak_Epoch r = AuthorityEpochV2) && live_status (ak_Status r).
Definition suspend_where (P : ApiKeyRow → bool) (reason : string) : tx Z :=
  d ← tx_get;
  _ ← tx_modify (put_keys (update_where (λ _, P) (with_suspended reason) (api_keys d)));
  mret (count_where (λ _, P) (api_keys d)).
Definition suspendAllCredentialsTx (owner : uuid) : tx Z := suspend_where (owned_live owner) "owner_inactive".
Definition holds_admin_only (r : ApiKeyRow) : bool := overlaps (default [] (ak_Actions r)) AdminOnlyActions.
Definition suspendAdminOnlyCredentialsTx (owner : uuid) : tx Z :=
  suspend_where (λ r, owned_live owner r && bool_decide (ak_KeyType r = Some CredentialKindPersonal) &&
                      holds_admin_only r) "owner_role_changed".
Definition suspendOwnedAutomationTx (owner : uuid) : tx Z :=
  suspend_where (λ r, owned_live owner r && bool_decide (ak_KeyType r = Some CredentialKindAutomation))
    "owner_role_changed".

(** ** The mutations

    A mutation first decides on what it reads under the row locks ([None]: nothing to do),
    then writes. Its detail becomes the audit event. *)
Definition with_role (role : string) (actor : uuid) (now pgnow : timestamp) (u : LocalUserRow) : LocalUserRow :=
  mkLocalUser (lu_Email u) (lu_EmailNormalized u) (lu_DisplayName u) role (lu_Locale u) (lu_Status u)
    (lu_PasswordHash u) (lu_PasswordChangedAt u) (lu_CreatedAt u) pgnow (lu_ApprovedAccessRequestID u)
    (Some now) (Some actor) (lu_AccountChangedAt u) (lu_AccountChangedBy u).
Definition with_status (status : UserStatus) (actor : uuid) (now pgnow : timestamp) (u : LocalUserRow) : LocalUserRow :=
  mkLocalUser (lu_Email u) (lu_EmailNormalized u) (lu_DisplayName u) (lu_Role u) (lu_Locale u) status
    (lu_PasswordHash u) (lu_PasswordChangedAt u) (lu_CreatedAt u) pgnow (lu_ApprovedAccessRequestID u)
    (lu_RoleChangedAt u) (lu_RoleChangedBy u) (Some now) (Some actor).
(** [UPDATE identity.local_users SET ... WHERE identity_id = $1]. *)
Definition update_user (id : uuid) (f : LocalUserRow → LocalUserRow) : tx () :=
  d ← tx_get;
  match local_users d !! id with
  | Some u => store_user id (f u)
  | None => mret ()
  end.
Record mutation := mkMutation {
  mu_decide : LocalUser → tx bool;
  mu_write : LocalUser → tx (json * PersonConsequences) }.
Definition demoting (target : LocalUser) (role : string) : bool :=
  bool_decide (NormalizeRole (lu_Role (us_Row target)) = RoleAdmin) && bool_decide (role = RoleOperator).
Definition change_role (actorID targetID : uuid) (role : string) (now pgnow : timestamp) : mutation :=
  mkMutation
    (λ target,
       if bool_decide (NormalizeRole (lu_Role (us_Row target)) = role) then mret false
       else
         _ ← (if demoting target role then requireAnotherActiveAdminTx targetID else mret ());
         mret true)
    (λ target,
       _ ← update_user targetID (with_role role actorID now pgnow);
       revoked ← revokeAllSessionsTx targetID now TerminationRoleRevoked;
       clipped ← (if demoting target role then
                    adminOnly ← suspendAdminOnlyCredentialsTx targetID;
                    automation ← suspendOwnedAutomationTx targetID;
                    mret (adminOnly + automation)
                  else mret 0);
       mret (JObj [("fromRole", JStr (NormalizeRole (lu_Role (us_Row target)))); ("toRole", JStr role);
                   ("sessionsRevoked", JNum revoked 0); ("credentialsSuspended", JNum clipped 0)],
             mkConsequences revoked clipped)).
Definition disable_account (actorID targetID : uuid) (now pgnow : timestamp) : mutation :=
  mkMutation
    (λ target,
       if bool_decide (lu_Status (us_Row target) = LocalUserDisabled) then mret false
       else
         _ ← (if bool_decide (NormalizeRole (lu_Role (us_Row target)) = RoleAdmin)
              then requireAnotherActiveAdminTx targetID else mret ());
         mret true)
    (λ target,
       _ ← update_user targetID (with_status LocalUserDisabled actorID now pgnow);
       revoked ← revokeAllSessionsTx targetID now TerminationAccountRevoked;
       suspended ← suspendAllCredentialsTx targetID;
       mret (JObj [("sessionsRevoked", JNum revoked 0); ("credentialsSuspended", JNum suspended 0)],
             mkConsequences revoked suspended)).
Definition enable_account (actorID targetID : uuid) (now pgnow : timestamp) : mutation :=
  mkMutation
    (λ target,
       match lu_Status (us_Row target) with
       | LocalUserActive => mret false
       | LocalUserDisabled => mret true
       | LocalUserSetupPending => tx_fail ErrPersonStateChanged
       end)
    (λ target,
       _ ← update_user targetID (with_status LocalUserActive actorID now pgnow);
       mret (JObj [("resumed_credentials", JNum 0 0)], mkConsequences 0 0)).
(** Nothing live is no mutation, so no evidence is invented. *)
Definition revoke_sessions (targetID : uuid) (now : timestamp) : mutation :=
  mkMutation
    (λ _, d ← tx_get; mret (negb (count_where (open_session_of targetID) (browser_sessions d) =? 0)))
    (λ _,
       count ← revokeAllSessionsTx targetID now TerminationRevoked;
       mret (JObj [("sessionsRevoked", JNum count 0)], mkConsequences count 0)).

Definition people_event (name : string) (outcome : Outcome) (reason : string) (actor target : uuid) (detail : json)
    (now : timestamp) : SecurityEvent :=
  mkEvent name outcome reason actor actor EmptyString target EmptyString EmptyString EmptyString EmptyString
    CredentialBrowser EmptyString EmptyString detail None now.
Definition no_consequences : PersonConsequences := mkConsequences 0 0.
(** [mutatePerson]: a refused last-Admin mutation commits its evidence and nothing else. *)
Definition last_admin_denied (actorID targetID : uuid) (now : timestamp) (d : IdentityDB) : IdentityDB :=
  put_events (security_events d ++
    [people_event "last_admin_mutation_denied" OutcomeDenied "last_active_admin" actorID targetID (JObj []) now]) d.
Definition commit_mutation (name : string) (actorID targetID : uuid) (now : timestamp) (m : mutation)
    (target : LocalUser) : tx PersonConsequences :=
  r ← mu_write m target;
  _ ← AppendSecurityEventTx (people_event name OutcomeSuccess EmptyString actorID targetID r.1 now);
  mret r.2.
Definition mutatePerson (actorID targetID : uuid) (now : timestamp) (name : string) (m : mutation) (d : IdentityDB)
    : (IdErr + PersonConsequences) * IdentityDB :=
  match (_ ← lockLocalUserTx actorID; lockLocalUserTx targetID) d with
  | inl e => (inl e, d)
  | inr (target, _) =>
      match mu_decide m target d with
      | inl ErrLastAdmin => (inl ErrLastAdmin, last_admin_denied actorID targetID now d)
      | inl e => (inl e, d)
      | inr (false, _) => (inr no_consequences, d)
      | inr (true, _) => run_tx (commit_mutation name actorID targetID now m target) d
      end
  end.
(** The re-read after a durable mutation is an error of its own. *)
Definition reread (targetID : uuid) (r : (IdErr + PersonConsequences) * IdentityDB)
    : (IdErr + (Person * PersonConsequences)) * IdentityDB :=
  match r with
  | (inl e, d) => (inl e, d)
  | (inr c, d) => (match GetPerson d targetID with Some p => inr (p, c) | None => inl ErrNotFoundID end, d)
  end.
Definition ChangePersonRole (actorID targetID : uuid) (role : string) (now pgnow : timestamp) (d : IdentityDB)
    : (IdErr + (Person * PersonConsequences)) * IdentityDB :=
  if negb (mem role [RoleAdmin; RoleOperator]) then (inl ErrInvalidRole, d)
  else reread targetID (mutatePerson actorID targetID now "role_changed" (change_role actorID targetID role now pgnow) d).
Definition DisablePerson (actorID targetID : uuid) (now pgnow : timestamp) (d : IdentityDB)
    : (IdErr + (Person * PersonConsequences)) * IdentityDB :=
  reread targetID (mutatePerson actorID targetID now "account_disabled" (disable_account actorID targetID now pgnow) d).
Definition EnablePerson (actorID targetID : uuid) (now pgnow : timestamp) (d : IdentityDB)
    : (IdErr + (Person * PersonConsequences)) * IdentityDB :=
  reread targetID (mutatePerson actorID targetID now "account_enabled" (enable_account actorID targetID now pgnow) d).
Definition RevokePersonSessions (actorID targetID : uuid) (now : timestamp) (d : IdentityDB)
    : (IdErr + PersonConsequences) * IdentityDB :=
  mutatePerson actorID targetID now "account_sessions_revoked" (revoke_sessions targetID now) d.
