(* ===== verification/IdentityFacts.v ===== *)
(** Lemmas on the statements of the identity schema: bulk updates, counts and lookups, and
    what each helper of the identity package leaves unchanged. *)
From S2P Require Import Prelude Json IdentityActions IdentityData IdentityStore IdentityFlows IdentityJourneys IdentitySession IdentityPeople.

(** * Tables *)
Section tables.
Context {K R : Type} `{Countable K}.
Implicit Types (t : gmap K R) (P : K → R → bool) (f : R → R).

Lemma lookup_update_where P f t k :
  update_where P f t !! k = (λ r, if P k r then f r else r) <$> t !! k.
Proof. unfold update_where. rewrite map_lookup_imap. by destruct (t !! k). Qed.
Lemma lookup_delete_where P t k r :
  delete_where P t !! k = Some r ↔ t !! k = Some r ∧ P k r = false.
Proof. unfold delete_where. by rewrite map_lookup_filter_Some. Qed.
Lemma find_row_Some P t k r : find_row P t = Some (k, r) → t !! k = Some r ∧ P k r = true.
Proof.
  unfold find_row. intros Hh. apply head_Some_elem_of, list_elem_of_filter in Hh as [HP Hin].
  by apply elem_of_map_to_list in Hin.
Qed.
Lemma find_row_None P t : find_row P t = None ↔ ∀ k r, t !! k = Some r → P k r = false.
Proof.
  unfold find_row. rewrite head_None. split.
  - intros Hf k r Hk. destruct (P k r) eqn:HP; [|done]. exfalso.
    assert ((k, r) ∈ filter (λ kr, P kr.1 kr.2 = true) (map_to_list t)) as Hin.
    { apply list_elem_of_filter. split; [done|]. by apply elem_of_map_to_list. }
    rewrite Hf in Hin. by apply not_elem_of_nil in Hin.
  - intros Hall. apply elem_of_nil_inv. intros [k r] [HP Hin]%list_elem_of_filter.
    apply elem_of_map_to_list in Hin. cbn in HP. by rewrite (Hall _ _ Hin) in HP.
Qed.
Lemma exists_where_true P t : exists_where P t = true ↔ ∃ k r, t !! k = Some r ∧ P k r = true.
Proof.
  unfold exists_where. rewrite bool_decide_eq_true. split.
  - intros [[k r] Hf]. apply find_row_Some in Hf. eauto.
  - intros (k & r & Hk & HP). destruct (find_row P t) as [kr|] eqn:Hf; [by eexists|].
    by rewrite (proj1 (find_row_None _ _) Hf _ _ Hk) in HP.
Qed.
Lemma exists_where_false P t : exists_where P t = false ↔ ∀ k r, t !! k = Some r → P k r = false.
Proof. rewrite <- find_row_None. unfold exists_where. rewrite bool_decide_eq_false. by rewrite eq_None_not_Some. Qed.
Lemma count_where_nonneg P t : 0 ≤ count_where P t.
Proof. unfold count_where. lia. Qed.
Lemma count_where_pos P t : 0 < count_where P t ↔ ∃ k r, t !! k = Some r ∧ P k r = true.
Proof.
  unfold count_where. split.
  - intros Hc. assert (filter (λ kr, P kr.1 kr.2 = true) t ≠ ∅) as Hne.
    { intros He. rewrite He, map_size_empty in Hc. lia. }
    apply map_choose in Hne as (k & r & Hk). apply map_lookup_filter_Some in Hk. eauto.
  - intros (k & r & Hk & HP). assert (filter (λ kr, P kr.1 kr.2 = true) t !! k = Some r) as Hf
      by by apply map_lookup_filter_Some.
    assert (size (filter (λ kr, P kr.1 kr.2 = true) t) ≠ 0%nat); [|lia].
    intros H0%map_size_empty_iff. by rewrite H0, lookup_empty in Hf.
Qed.
Lemma count_where_zero P t : count_where P t = 0 ↔ ∀ k r, t !! k = Some r → P k r = false.
Proof.
  pose proof (count_where_nonneg P t). split.
  - intros Hz k r Hk. destruct (P k r) eqn:HP; [|done].
    assert (0 < count_where P t) by (apply count_where_pos; eauto). lia.
  - intros Hall. destruct (decide (count_where P t = 0)) as [|Hn]; [done|].
    assert (0 < count_where P t) as Hp by lia. apply count_where_pos in Hp as (k & r & Hk & HP).
    by rewrite (Hall _ _ Hk) in HP.
Qed.
Lemma update_where_id P f t :
  (∀ k r, t !! k = Some r → P k r = true → f r = r) → update_where P f t = t.
Proof.
  intros Hid. apply map_eq. intros k. rewrite lookup_update_where.
  destruct (t !! k) as [r|] eqn:Hk; [|done]. cbn. destruct (P k r) eqn:HP; [|done]. f_equal. eauto.
Qed.
End tables.

Lemma is_null_true {A} (o : option A) : is_null o = true ↔ o = None.
Proof. destruct o; cbn; naive_solver. Qed.
Lemma is_null_false {A} (o : option A) : is_null o = false ↔ is_Some o.
Proof. destruct o; cbn; unfold is_Some; naive_solver. Qed.

(** A transaction that fails leaves the tables as they were. *)
Lemma run_tx_inv {S E A} (I : S → Prop) (m : Tx S E A) d :
  I d → (∀ a d', m d = inr (a, d') → I d') → I (run_tx m d).2.
Proof. intros Hd Hm. unfold run_tx. destruct (m d) as [e|[a d']] eqn:He; [done|]. by eapply Hm. Qed.

(** * Accounts *)
Lemma NormalizeRole_admin r : NormalizeRole r = RoleAdmin ↔ r = RoleAdmin.
Proof. unfold NormalizeRole. case_bool_decide; [subst r; by split|done]. Qed.
Lemma NormalizeRole_inv r : NormalizeRole r = RoleAdmin → r = RoleAdmin.
Proof. apply NormalizeRole_admin. Qed.
Lemma role_check_normalized d r : role_check d r = true → NormalizeRole r ∈ [RoleAdmin; RoleOperator].
Proof.
  unfold role_check, NormalizeRole. rewrite orb_true_iff, andb_true_iff, bool_decide_eq_true, mem_true.
  destruct (decide (r = "user")) as [->|Hr]; [intros _; by right; left|].
  rewrite (bool_decide_eq_false_2 _ Hr). intros [Hm|[Hu _]]; [exact Hm|by destruct (Hr Hu)].
Qed.
Lemma join_user_Some b d id u :
  join_user b d id = Some u →
  local_users d !! id = Some (us_Row u) ∧ ∃ r, identities d !! id = Some r ∧ us_Identity u = ir_Identity r ∧
    (b = true → live r = true).
Proof.
  unfold join_user. destruct (local_users d !! id) as [row|]; cbn; [|done].
  destruct (identities d !! id) as [r|]; cbn; [|done].
  destruct (b && negb (live r)) eqn:Hb; [done|]. intros [= <-]. split; [done|]. exists r. split_and!; [done..|].
  intros ->. by destruct (live r).
Qed.

(** * What the helpers change *)
Lemma store_key_inr id r d d' u :
  store_key id r d = inr (u, d') ↔
  u = () ∧ d' = put_keys (<[id := r]> (api_keys d)) d ∧
  api_key_checks r = true ∧
  known_identity d (Some (ak_IdentityID r)) = true ∧ known_identity d (ak_Owner r) = true ∧
  known_identity d (ak_Actor r) = true ∧
  (∀ k r', api_keys d !! k = Some r' → k ≠ id → ak_KeyHash r' ≠ ak_KeyHash r ∧ same_live_family r r' = false).
Proof.
  unfold store_key. split.
  - intros Hs. inv_tx. rewrite !andb_true_iff in *. rewrite negb_true_iff in *.
    split_and!; [done|done|naive_solver..|].
    rewrite exists_where_false in *. intros k r' Hk Hne.
    match goal with Hx : ∀ k r, _ |- _ => specialize (Hx k r' Hk) end.
    rewrite (bool_decide_eq_false_2 _ Hne) in *. cbn in *. rewrite orb_false_iff, bool_decide_eq_false in *. done.
  - intros (-> & -> & Hc & H1 & H2 & H3 & Hu). unfold mbind, tx_bind, tx_get, tx_require.
    rewrite Hc, H1, H2, H3. cbn. rewrite (proj2 (exists_where_false _ _)); [done|].
    intros k r' Hk. destruct (decide (k = id)) as [->|Hne]; [by rewrite bool_decide_eq_true_2|].
    destruct (Hu _ _ Hk Hne) as [Hh Hf]. by rewrite Hf, (bool_decide_eq_false_2 _ Hh), orb_false_r, andb_false_r.
Qed.
Lemma store_user_inr id u d d' v :
  store_user id u d = inr (v, d') →
  d' = put_users (<[id := u]> (local_users d)) d ∧ role_check d (lu_Role u) = true ∧
  locale_check (lu_Locale u) = true ∧ known_identity d (Some id) = true ∧
  (∀ k u', local_users d !! k = Some u' → k ≠ id →
     lu_Email u' ≠ lu_Email u ∧ lu_EmailNormalized u' ≠ lu_EmailNormalized u).
Proof.
  unfold store_user. intros Hs. inv_tx. rewrite !andb_true_iff in *. rewrite negb_true_iff in *.
  split_and!; [done|naive_solver..|]. rewrite exists_where_false in *. intros k u' Hk Hne.
  match goal with Hx : ∀ k r, _ |- _ => specialize (Hx k u' Hk) end.
  rewrite (bool_decide_eq_false_2 _ Hne) in *. cbn in *. rewrite orb_false_iff, !bool_decide_eq_false in *. done.
Qed.
Lemma upsert_identity_inr fresh key kind source dn f pgnow d ident d' :
  upsert_identity fresh key kind source dn f pgnow d = inr (ident, d') →
  ∃ t, d' = put_identities t d.
Proof. unfold upsert_identity. intros Hs. inv_tx. destruct (find_row _ _) as [[i r]|]; inv_tx; eauto. Qed.
Lemma QueueAuthEmailTx_inr fresh p a b c l pgnow d id d' :
  QueueAuthEmailTx fresh p a b c l pgnow d = inr (id, d') → ∃ t, d' = put_outbox t d.
Proof. unfold QueueAuthEmailTx. intros Hs. inv_tx. eauto. Qed.
Lemma store_request_inr r d u d' : store_request r d = inr (u, d') → ∃ t, d' = put_requests t d.
Proof. unfold store_request. intros Hs. inv_tx. eauto. Qed.
Lemma insert_link_inr fresh l d u d' : insert_link fresh l d = inr (u, d') →
  d' = put_links (<[fresh := l]> (auth_link_tokens d)) d ∧ auth_link_tokens d !! fresh = None ∧
  link_subject_check l = true ∧ ∀ k l', auth_link_tokens d !! k = Some l' → al_TokenHash l' ≠ al_TokenHash l.
Proof.
  unfold insert_link. intros Hs. inv_tx. rewrite !andb_true_iff in *. destruct_and!.
  rewrite negb_true_iff, exists_where_false, is_null_true in *. split_and!; [done..|].
  intros k l' Hk. match goal with Hx : ∀ k r, _ |- _ => specialize (Hx k l' Hk); by apply bool_decide_eq_false in Hx end.
Qed.

(** [id_inv] decomposes a successful transaction of the identity package: the steps of the
    monad, then the helpers by what they change. *)
Ltac id_inv_step :=
  match goal with
  | H : store_user _ _ _ = inr (_, _) |- _ => apply store_user_inr in H; destruct H as (? & ? & ? & ? & ?); subst
  | H : store_key _ _ _ = inr (_, _) |- _ => apply store_key_inr in H; destruct H as (? & ? & ? & ? & ? & ? & ?); subst
  | H : upsert_identity _ _ _ _ _ _ _ _ = inr (_, _) |- _ => apply upsert_identity_inr in H; destruct H as (? & ?); subst
  | H : QueueAuthEmailTx _ _ _ _ _ _ _ _ = inr (_, _) |- _ => apply QueueAuthEmailTx_inr in H; destruct H as (? & ?); subst
  | H : store_request _ _ = inr (_, _) |- _ => apply store_request_inr in H; destruct H as (? & ?); subst
  | H : insert_link _ _ _ = inr (_, _) |- _ => apply insert_link_inr in H; destruct H as (? & ? & ? & ?); subst
  | H : AppendSecurityEventTx _ _ = inr (_, _) |- _ => unfold AppendSecurityEventTx in H
  | H : AppendSecurityEvent _ _ = inr (_, _) |- _ => unfold AppendSecurityEvent in H
  | H : InvalidateAuthLinksTx _ _ _ _ _ _ = inr (_, _) |- _ => unfold InvalidateAuthLinksTx in H
  | H : invalidate_outbox_links _ _ _ = inr (_, _) |- _ => unfold invalidate_outbox_links in H
  | H : ConsumeAuthLinkTx _ _ _ = inr (_, _) |- _ => unfold ConsumeAuthLinkTx in H
  | H : claimAuthLinkTx _ _ _ _ _ = inr (_, _) |- _ => unfold claimAuthLinkTx in H
  | H : lockAuthLinkTx _ _ _ = inr (_, _) |- _ => unfold lockAuthLinkTx in H
  | H : localUserInTx _ _ = inr (_, _) |- _ => unfold localUserInTx in H
  | H : revokeAllSessionsTx _ _ _ _ = inr (_, _) |- _ => unfold revokeAllSessionsTx in H
  | H : GetLocalUser _ _ = inr (_, _) |- _ => unfold GetLocalUser in H
  | H : ensureNoLocalUserTx _ _ = inr (_, _) |- _ => unfold ensureNoLocalUserTx in H
  | H : lockLocalUserTx _ _ = inr (_, _) |- _ => unfold lockLocalUserTx in H
  | H : requireAnotherActiveAdminTx _ _ = inr (_, _) |- _ => unfold requireAnotherActiveAdminTx in H
  | H : suspend_where _ _ _ = inr (_, _) |- _ => unfold suspend_where in H
  | H : readBootstrapStateTx _ = inr (_, _) |- _ => unfold readBootstrapStateTx in H
  | H : finishAuthEmailTx _ _ _ _ _ _ = inr (_, _) |- _ => unfold finishAuthEmailTx in H
  | H : mutateSessionWithAudit _ _ _ _ = inr (_, _) |- _ => unfold mutateSessionWithAudit in H
  | H : lift_scan _ _ = inr (_, _) |- _ => unfold lift_scan in H
  | H : (if ?b then _ else _) _ = inr (_, _) |- _ => destruct b eqn:?
  | H : (let '(_, _) := ?p in _) _ = inr (_, _) |- _ => destruct p eqn:?
  | H : (match ?x with _ => _ end) _ = inr (_, _) |- _ => destruct x eqn:?
  end.
Ltac id_inv := repeat first [inv_tx_step | id_inv_step].

(** * People mutations and bootstrap *)
Lemma mutatePerson_inv (I : IdentityDB → Prop) a t now name m d :
  I d → (∀ d' ev, I d' → I (put_events ev d')) →
  (∀ target b d1 r d', join_user false d t = Some target → mu_decide m target d = inr (b, d1) → b = true →
     mu_write m target d = inr (r, d') → I d') →
  I (mutatePerson a t now name m d).2.
Proof.
  intros Hd Hev Hm. unfold mutatePerson. match goal with |- context [match ?x with inl _ => _ | inr _ => _ end] => destruct x as [e|[target d0]] eqn:Hl; [done|] end.
  unfold lockLocalUserTx in Hl. inv_tx. destruct (mu_decide m target d) as [e|[b d1]] eqn:Hdec.
  - destruct e; first [done|by apply Hev].
  - destruct b; [|done]. apply run_tx_inv; [done|]. intros c d' Hc. unfold commit_mutation in Hc. id_inv.
    apply Hev. eapply Hm; [done..|]. by destruct x.
Qed.
Lemma reread_snd t r : (reread t r).2 = r.2.
Proof. by destruct r as [[]]. Qed.
Lemma update_user_inr id f u d v d' :
  local_users d !! id = Some u → update_user id f d = inr (v, d') → d' = put_users (<[id := f u]> (local_users d)) d.
Proof. intros Hu H. unfold update_user in H. inv_tx. rewrite Hu in H. by apply store_user_inr in H as [-> _]. Qed.
