(* ===== verification/Authority.v ===== *)
(** The V2 authority epoch (control-plane/internal/identity/authority.go): the epoch record
    and its latch, the cutover preflight, the disposition of legacy credentials, the locked
    cutover transaction and the verification that follows it. *)
From S2P Require Import Prelude Json Workflow Duration Consequence IdentityActions IdentityData IdentityStore IdentityFlows IdentityJourneys IdentitySession IdentityPeople Proc.
From Stdlib Require Import Ascii.
From stdpp Require Import pretty.
#[local] Open Scope Z_scope.

(** * Time *)
(** [time.Parse(time.RFC3339, s)] and the layout [20060102T150405Z]. *)
Definition days_from_civil (y m d : Z) : Z :=
  let y := if m <=? 2 then y - 1 else y in
  let era := y / 400 in
  let yoe := y - era * 400 in
  let doy := (153 * (m + (if 2 <? m then -3 else 9)) + 2) / 5 + d - 1 in
  let doe := yoe * 365 + yoe / 4 - yoe / 100 + doy in
  era * 146097 + doe - 719468.
Definition civil_from_days (z : Z) : Z * Z * Z :=
  let z := z + 719468 in
  let era := z / 146097 in
  let doe := z - era * 146097 in
  let yoe := (doe - doe / 1460 + doe / 36524 - doe / 146096) / 365 in
  let doy := doe - (365 * yoe + yoe / 4 - yoe / 100) in
  let mp := (5 * doy + 2) / 153 in
  let m := mp + (if mp <? 10 then 3 else -9) in
  ((yoe + era * 400) + (if m <=? 2 then 1 else 0), m, doy - (153 * mp + 2) / 5 + 1).
Definition is_leap (y : Z) : bool := (y mod 4 =? 0) && (negb (y mod 100 =? 0) || (y mod 400 =? 0)).
Definition days_in (m y : Z) : Z :=
  if m =? 2 then (if is_leap y then 29 else 28)
  else if (m =? 4) || (m =? 6) || (m =? 9) || (m =? 11) then 30 else 31.
Definition digit1 (s : string) : option (Z * string) :=
  match s with String c s' => if is_digit c then Some (digit_val c, s') else None | EmptyString => None end.
(** [getnum(value, true)] and [getnum(value, false)]. *)
Definition digit2 (s : string) : option (Z * string) :=
  '(a, s) ← digit1 s; '(b, s) ← digit1 s; Some (10 * a + b, s).
Definition digit12 (s : string) : option (Z * string) :=
  match digit2 s with Some r => Some r | None => digit1 s end.
Definition in_bounds (lo hi : Z) (r : option (Z * string)) : option (Z * string) :=
  '(n, s) ← r; if (lo <=? n) && (n <=? hi) then Some (n, s) else None.
Definition literal (p : string) (s : string) : option string := Json.strip_prefix p s.
(** The fraction that may follow the seconds; nine digits are significant. *)
Fixpoint fraction (n : nat) (unit acc : Z) (s : string) : Z * string :=
  match n, s with
  | S n', String c s' => if is_digit c then fraction n' (unit / 10) (acc + digit_val c * unit) s' else (acc, s)
  | O, String c s' => if is_digit c then fraction O unit acc s' else (acc, s)
  | _, EmptyString => (acc, s)
  end.
Definition optional_fraction (s : string) : Z * string :=
  match s with
  | String c s' =>
      if (bool_decide (c = "."%char) || bool_decide (c = ","%char)) && negb (is_null (digit1 s'))
      then fraction 9 100000000 0 s' else (0, s)
  | EmptyString => (0, s)
  end.
(** The offset from UTC in seconds. *)
Definition zone (s : string) : option (Z * string) :=
  match literal "Z" s with
  | Some s' => Some (0, s')
  | None =>
      '(sign, s) ← match literal "+" s with
                   | Some s' => Some (1, s')
                   | None => s' ← literal "-" s; Some (-1, s')
                   end;
      '(hh, s) ← in_bounds 0 24 (digit2 s); s ← literal ":" s; '(mm, s) ← in_bounds 0 60 (digit2 s);
      Some (sign * (hh * 3600 + mm * 60), s)
  end.
Definition parse_RFC3339 (s : string) : option timestamp :=
  '(y1, s) ← digit2 s; '(y2, s) ← digit2 s; s ← literal "-" s;
  '(mo, s) ← in_bounds 1 12 (digit2 s); s ← literal "-" s;
  '(da, s) ← digit2 s; s ← literal "T" s;
  '(ho, s) ← in_bounds 0 23 (digit12 s); s ← literal ":" s;
  '(mi, s) ← in_bounds 0 59 (digit2 s); s ← literal ":" s;
  '(se, s) ← in_bounds 0 59 (digit2 s);
  let '(ns, s) := optional_fraction s in
  '(off, s) ← zone s;
  let y := 100 * y1 + y2 in
  if bool_decide (s = EmptyString) && (1 <=? da) && (da <=? days_in mo y)
  then Some ((days_from_civil y mo da * 86400 + ho * 3600 + mi * 60 + se - off) * second + ns / 1000)
  else None.
Fixpoint zeros (n : nat) : string := match n with O => EmptyString | S n' => String "0" (zeros n') end.
Definition padded (width : nat) (z : Z) : string :=
  let s := pretty z in zeros (width - String.length s) +:+ s.
Definition format_compact (t : timestamp) : string :=
  let secs := t / second in
  let '(y, m, d) := civil_from_days (secs / 86400) in
  let r := secs mod 86400 in
  padded 4 y +:+ padded 2 m +:+ padded 2 d +:+ "T" +:+ padded 2 (r / 3600) +:+ padded 2 (r / 60 mod 60) +:+
  padded 2 (r mod 60) +:+ "Z".
Example parse_time : parse_RFC3339 "2026-02-28T23:59:59.5+01:00" = Some 1772319599500000.
Proof. by vm_compute. Qed.
Example parse_time_day : parse_RFC3339 "2026-02-29T00:00:00Z" = None.
Proof. by vm_compute. Qed.
Example format_time : format_compact 1772319599500000 = "20260228T225959Z".
Proof. by vm_compute. Qed.
(** [time.Duration(days) * 24 * time.Hour] wraps at 64 bits (nanoseconds). *)
Definition wrap64 (z : Z) : Z := (z + two63) mod two64 - two63.
Definition days_duration (days : Z) : Z := wrap64 (days * 86400000000000) / 1000.

(** * The cutover's input *)
Record LegacyCredentialMapping := mkLegacyMapping {
  lm_OwnerIdentityID : string; lm_ActorIdentityID : string; lm_Actions : list string; lm_RPM : Z; lm_TPM : Z;
  lm_ExpiresAt : string }.
Record CutoverManifest := mkManifest {
  cm_DefaultRPM : Z; cm_DefaultTPM : Z; cm_DefaultExpiryDays : Z;
  cm_Credentials : gmap string LegacyCredentialMapping }.
Record CutoverOptions := mkCutover {
  co_Operator : string; co_Release : string; co_Manifest : CutoverManifest; co_BackupEvidence : string;
  co_RehearsalEvidence : string; co_ExpectedFingerprint : string; co_Now : timestamp }.

(** * The disposition of a legacy credential *)
Definition legacyWorkActions : list string :=
  [ActionWorkflowsRead; ActionWorkflowsStart; ActionWorkRead; ActionWorkFeedbackWrite; ActionArtifactsRead;
   ActionArtifactsUpload].
Definition legacyGatewayActions : list string := [ActionInferenceModelsRead; ActionInferenceChatInvoke].
Definition legacyScopeActions (scope : string) : option (list string) :=
  if bool_decide (scope = ScopeWork) then Some legacyWorkActions
  else if bool_decide (scope = ScopeGateway) then Some legacyGatewayActions
  else None.
Definition legacyMappingKind (scope identityKind : string) (hasLocalUser : bool) : string :=
  if bool_decide (scope = ScopeWork) && negb (bool_decide (identityKind = KindServiceAccount)) && hasLocalUser
  then CredentialKindPersonal else CredentialKindAutomation.
Record legacyCredential := mkLegacy {
  lc_prefix : string; lc_scope : string; lc_kind : string; lc_identityID : string; lc_hasLocalUser : bool;
  lc_role : string; lc_status : option UserStatus }.
Definition humanOwnerIsMappable (key : legacyCredential) : bool :=
  negb (bool_decide (NormalizeRole (lc_role key) = EmptyString)) &&
  bool_decide (lc_status key = Some LocalUserActive).
Inductive MapErr :=
| errMappingSkip | errMappingNeedsManifest | errMappingMissingRates | errMappingWidened | errMappingOwnerShape
| errMappingActionsInvalid (e : ActErr) | errMappingExpiry (prefix : string).
Record legacyMappingSpec := mkSpec {
  ms_kind : string; ms_ownerID : string; ms_actorID : string; ms_actions : list string; ms_rpm : Z; ms_tpm : Z;
  ms_expiresAt : timestamp }.
Definition firstNonEmpty (a b : string) : string := if bool_decide (a = EmptyString) then b else a.
Definition positive_or (x y : Z) : Z := if 0 <? x then x else y.
Definition resolve_owner (kind : string) (mapping : option LegacyCredentialMapping) (key : legacyCredential)
    : MapErr + (string * string) :=
  if bool_decide (kind = CredentialKindAutomation) then
    match mapping with
    | None => inl errMappingNeedsManifest
    | Some m =>
        let owner := lm_OwnerIdentityID m in
        let actor := firstNonEmpty (lm_ActorIdentityID m) (lc_identityID key) in
        if bool_decide (owner = EmptyString) || bool_decide (owner = actor) then inl errMappingOwnerShape
        else inr (owner, actor)
    end
  else inr (lc_identityID key, lc_identityID key).
Definition resolve_actions (mapping : option LegacyCredentialMapping) (scopeActions automatic : list string)
    : MapErr + list string :=
  match mapping with
  | Some m =>
      if bool_decide (lm_Actions m = []) then inr automatic
      else if subsetOfActions (lm_Actions m) scopeActions then inr (lm_Actions m) else inl errMappingWidened
  | None => inr automatic
  end.
Definition resolve_expiry (mapping : option LegacyCredentialMapping) (prefix : string) (automatic : timestamp)
    : MapErr + timestamp :=
  match mapping with
  | Some m =>
      if bool_decide (lm_ExpiresAt m = EmptyString) then inr automatic
      else match parse_RFC3339 (lm_ExpiresAt m) with Some t => inr t | None => inl (errMappingExpiry prefix) end
  | None => inr automatic
  end.
Definition resolveLegacyMapping (key : legacyCredential) (manifest : CutoverManifest) (now : timestamp)
    : MapErr + legacyMappingSpec :=
  match legacyScopeActions (lc_scope key) with
  | None => inl errMappingSkip
  | Some scopeActions =>
      let kind := legacyMappingKind (lc_scope key) (lc_kind key) (lc_hasLocalUser key) in
      let expiryDays := positive_or (cm_DefaultExpiryDays manifest) 90 in
      let mapping := cm_Credentials manifest !! lc_prefix key in
      owners ← resolve_owner kind mapping key;
      let rpm := positive_or (default 0 (lm_RPM <$> mapping)) (cm_DefaultRPM manifest) in
      let tpm := positive_or (default 0 (lm_TPM <$> mapping)) (cm_DefaultTPM manifest) in
      actions ← resolve_actions mapping scopeActions (intersectActions scopeActions (CatalogueActions kind));
      expiresAt ← resolve_expiry mapping (lc_prefix key) (now + days_duration expiryDays);
      _ ← fail_if ((rpm <=? 0) || (tpm <=? 0)) errMappingMissingRates;
      let ownerRole := if bool_decide (kind = CredentialKindPersonal) then NormalizeRole (lc_role key) else RoleAdmin in
      match ValidateActions kind actions ownerRole with
      | inl e => inl (errMappingActionsInvalid e)
      | inr _ => inr (mkSpec kind owners.1 owners.2 actions rpm tpm expiresAt)
      end
  end.

(** * The source fingerprint *)
Definition scope_is (s : string) (r : ApiKeyRow) : bool := bool_decide (ak_Scope r = Some s).
Definition has_wildcard (r : ApiKeyRow) : bool := mem "*" (default [] (ak_Actions r)).
Definition authoritySourceFingerprint (d : IdentityDB) : string :=
  let users := Z.of_nat (size (local_users d)) in
  let admins := count_where (λ _ u, bool_decide (lu_Role u = RoleAdmin)) (local_users d) in
  let keys := count_where (λ _, unrevoked) (api_keys d) in
  let gateways := count_where (λ _ r, unrevoked r && scope_is ScopeGateway r) (api_keys d) in
  let wildcard := count_where (λ _ r, unrevoked r && negb (is_null (ak_KeyType r)) && has_wildcard r) (api_keys d) in
  "users=" +:+ pretty users +:+ ";admins=" +:+ pretty admins +:+ ";keys=" +:+ pretty keys +:+
  ";gateway_keys=" +:+ pretty gateways +:+ ";wildcard=" +:+ pretty wildcard.

(** * Preflight *)
(** The message of a blocker is fixed by its code. *)
Record PreflightBlocker := mkBlocker { pb_Code : string; pb_Count : Z }.
Record PreflightReport := mkPreflight {
  pr_Blockers : list PreflightBlocker; pr_Ready : bool; pr_Fingerprint : string; pr_Checked : list (string * Z) }.
Definition block (code : string) (count : Z) : list PreflightBlocker :=
  if count <=? 0 then [] else [mkBlocker code count].
Definition block_if (code : string) (b : bool) : list PreflightBlocker := block code (if b then 1 else 0).
(** [email_normalized LIKE '%_@_%']: a byte before and after some [@]. *)
Fixpoint at_inside (s : string) : bool :=
  match s with
  | String _ (String c2 (String _ _ as r) as s') => bool_decide (c2 = "@"%char) || at_inside s'
  | _ => false
  end.
Definition user_live (d : IdentityDB) (id : uuid) : bool :=
  match identities d !! id with Some r => live r | None => false end.
Definition legacy_live (pgnow : timestamp) (r : ApiKeyRow) : bool :=
  negb (bool_decide (ak_Epoch r = AuthorityEpochV2)) && unrevoked r && unexpired pgnow r.
Definition created_first (a b : uuid * ApiKeyRow) : Prop := ak_CreatedAt a.2 ≤ ak_CreatedAt b.2.
#[export] Instance created_first_dec a b : Decision (created_first a b). Proof. unfold created_first. apply _. Defined.
(** The live legacy keys with their identities. *)
Definition legacy_rows (d : IdentityDB) (pgnow : timestamp) : list (uuid * ApiKeyRow) :=
  filter (λ kr, legacy_live pgnow kr.2 = true ∧ is_Some (identities d !! ak_IdentityID kr.2))
    (map_to_list (api_keys d)).
(** What is read of a key; [actor] is the column scanned into [identityID]. *)
Definition read_legacy (d : IdentityDB) (actor : uuid) (r : ApiKeyRow) : legacyCredential :=
  let lu := local_users d !! ak_IdentityID r in
  mkLegacy (ak_Prefix r) (derefString (ak_Scope r))
    (default EmptyString (id_Kind ∘ ir_Identity <$> identities d !! ak_IdentityID r)) actor
    (negb (is_null lu)) (default EmptyString (lu_Role <$> lu)) (lu_Status <$> lu).
(** Preflight scans the key's own id. *)
Definition preflight_legacy (d : IdentityDB) (pgnow : timestamp) : list legacyCredential :=
  (λ '(id, r), read_legacy d id r) <$>
  filter (λ kr, user_live d (ak_IdentityID kr.2) = true) (merge_sort created_first (legacy_rows d pgnow)).
Definition deleted_legacy (d : IdentityDB) (pgnow : timestamp) : list (uuid * ApiKeyRow) :=
  filter (λ kr, user_live d (ak_IdentityID kr.2) = false) (legacy_rows d pgnow).
Definition carried (key : legacyCredential) : bool := negb (mem (lc_scope key) [ScopeAdmin; ScopeToken]).
Inductive disposition :=
| dispMapped | dispIneligibleHuman | dispUnsupported | dispUnmappedService | dispMissingRates | dispWidened
| dispShapeInvalid | dispActionsInvalid.
#[export] Instance disposition_eq : EqDecision disposition. Proof. solve_decision. Defined.
(** [None]: preflight itself fails. *)
Definition classify (manifest : CutoverManifest) (now : timestamp) (key : legacyCredential) : option disposition :=
  match resolveLegacyMapping key manifest now with
  | inr spec =>
      Some (if bool_decide (ms_kind spec = CredentialKindPersonal) && negb (humanOwnerIsMappable key)
            then dispIneligibleHuman else dispMapped)
  | inl errMappingSkip => Some dispUnsupported
  | inl errMappingNeedsManifest =>
      Some (if bool_decide (lc_scope key = ScopeGateway) then dispUnsupported else dispUnmappedService)
  | inl errMappingMissingRates => Some dispMissingRates
  | inl errMappingWidened => Some dispWidened
  | inl errMappingOwnerShape => Some dispShapeInvalid
  | inl (errMappingActionsInvalid _) => Some dispActionsInvalid
  | inl (errMappingExpiry _) => None
  end.
Definition tally (x : disposition) (l : list disposition) : Z := Z.of_nat (length (filter (λ y, y = x) l)).
Definition manifestTarget (legacy : list legacyCredential) (prefix : string) : option legacyCredential :=
  List.find (λ k, bool_decide (lc_prefix k = prefix)) legacy.
Definition active_admin_role (u : LocalUserRow) : bool :=
  bool_decide (NormalizeRole (lu_Role u) = RoleAdmin) && bool_decide (lu_Status u = LocalUserActive).
(** An automation mapping must name an owner who is a current active Admin. *)
Definition owner_ineligible (d : IdentityDB) (manifest : CutoverManifest) (now : timestamp) (key : legacyCredential)
    : bool :=
  bool_decide (legacyMappingKind (lc_scope key) (lc_kind key) (lc_hasLocalUser key) = CredentialKindAutomation) &&
  match resolveLegacyMapping key manifest now with
  | inr spec => negb (default false (active_admin_role <$> local_users d !! ms_ownerID spec))
  | inl _ => false
  end.
Definition blocker_first (a b : PreflightBlocker) : Prop := String.leb (pb_Code a) (pb_Code b) = true.
#[export] Instance blocker_first_dec a b : Decision (blocker_first a b). Proof. unfold blocker_first. apply _. Defined.
Definition blank (s : string) : bool := bool_decide (TrimSpace s = EmptyString).
Definition admin_rows (d : IdentityDB) : list LocalUserRow :=
  (filter (λ ku, lu_Role ku.2 = RoleAdmin ∧ user_live d ku.1 = true) (map_to_list (local_users d))).*2.
Definition deliverable (u : LocalUserRow) : bool :=
  bool_decide (lu_Status u = LocalUserActive) && at_inside (lu_EmailNormalized u).
Definition count_list {A} (P : A → bool) (l : list A) : Z := Z.of_nat (length (filter (λ x, P x = true) l)).
Definition PreflightAuthority (opts : CutoverOptions) (pgnow : timestamp) (d : IdentityDB) : MapErr + PreflightReport :=
  let manifest := co_Manifest opts in
  let active := count_list deliverable (admin_rows d) in
  let setup := count_list (λ u, bool_decide (lu_Status u = LocalUserSetupPending)) (admin_rows d) in
  let legacy := preflight_legacy d pgnow in
  let expired := count_where (λ _ r, negb (bool_decide (ak_Epoch r = AuthorityEpochV2)) && unrevoked r &&
                                     negb (unexpired pgnow r)) (api_keys d) in
  match mapM (classify manifest (co_Now opts)) (filter (λ k, carried k = true) legacy) with
  | None => inl (errMappingExpiry EmptyString)
  | Some l =>
      let named := omap (manifestTarget legacy) (map_to_list (cm_Credentials manifest)).*1 in
      let unused := Z.of_nat (size (cm_Credentials manifest)) - Z.of_nat (length named) in
      let wildcard := count_where (λ _ r, bool_decide (ak_Epoch r = AuthorityEpochV2) && has_wildcard r) (api_keys d) in
      let legacyRows := if bool_decide (au_Epoch (authority_state d) = AuthorityEpochV2)
                        then count_where (λ _ u, bool_decide (lu_Role u = "user")) (local_users d) else 0 in
      let fingerprint := authoritySourceFingerprint d in
      let blockers :=
        block_if "no_active_admin" (active + setup =? 0) ++
        ((λ _, mkBlocker "deleted_key_identity" 1) <$> deleted_legacy d pgnow) ++
        block "unmapped_legacy_key" (tally dispUnsupported l) ++
        block "unmapped_service_key" (tally dispUnmappedService l) ++
        block "missing_rate_policy" (tally dispMissingRates l) ++
        block "manifest_actions_widened" (tally dispWidened l) ++
        block "manifest_shape_invalid" (tally dispShapeInvalid l) ++
        block "manifest_actions_invalid" (tally dispActionsInvalid l) ++
        block "manifest_owner_not_active_admin" (count_list (owner_ineligible d manifest (co_Now opts)) named) ++
        block "unused_manifest_entry" unused ++
        block "wildcard_action" wildcard ++
        block "legacy_role_after_epoch" legacyRows ++
        (if blank (co_ExpectedFingerprint opts) then [mkBlocker "missing_source_fingerprint" 1]
         else block_if "source_fingerprint_drift" (negb (bool_decide (co_ExpectedFingerprint opts = fingerprint)))) ++
        block_if "missing_backup_evidence" (blank (co_BackupEvidence opts)) ++
        block_if "missing_rehearsal_evidence" (blank (co_RehearsalEvidence opts)) ++
        block_if "missing_operator" (blank (co_Operator opts)) in
      inr (mkPreflight (merge_sort blocker_first blockers) (bool_decide (blockers = [])) fingerprint
             [("active_admins", active); ("expired_legacy_credentials", expired);
              ("revoked_ineligible_human_owner", tally dispIneligibleHuman l);
              ("manifest_entries", Z.of_nat (length named))])
  end.

(** * The cutover transaction *)
Definition with_operator_role (now pgnow : timestamp) (u : LocalUserRow) : LocalUserRow :=
  mkLocalUser (lu_Email u) (lu_EmailNormalized u) (lu_DisplayName u) RoleOperator (lu_Locale u) (lu_Status u)
    (lu_PasswordHash u) (lu_PasswordChangedAt u) (lu_CreatedAt u) pgnow (lu_ApprovedAccessRequestID u)
    (Some now) (lu_RoleChangedBy u) (lu_AccountChangedAt u) (lu_AccountChangedBy u).
Definition legacy_role (_ : uuid) (u : LocalUserRow) : bool := bool_decide (lu_Role u = "user").
Definition with_revocation (now : timestamp) (reason : string) (r : ApiKeyRow) : ApiKeyRow :=
  mkApiKey (ak_IdentityID r) (ak_KeyHash r) (ak_Prefix r) (ak_Name r) (ak_Purpose r) (ak_Scope r)
    (ak_ExpiresAt r) (ak_LastUsedAt r) (Some now) (ak_CreatedAt r) (ak_FamilyID r) (ak_Version r)
    (ak_KeyType r) (ak_Owner r) (ak_Actor r) (ak_Actions r) KeyRevoked (ak_SuspensionReason r)
    (Some reason) (ak_RateRPM r) (ak_RateTPM r) (ak_RetiringUntil r) (ak_CreatedBy r) (ak_Epoch r).
Definition legacy_authority (_ : uuid) (r : ApiKeyRow) : bool :=
  unrevoked r && (scope_is ScopeAdmin r || scope_is ScopeToken r).
Definition legacy_unmapped (_ : uuid) (r : ApiKeyRow) : bool :=
  unrevoked r && negb (bool_decide (ak_Epoch r = AuthorityEpochV2)).
Definition with_mapping (id : uuid) (spec : legacyMappingSpec) (r : ApiKeyRow) : ApiKeyRow :=
  mkApiKey (ak_IdentityID r) (ak_KeyHash r) (ak_Prefix r) (ak_Name r) (ak_Purpose r) None
    (Some (ms_expiresAt spec)) (ak_LastUsedAt r) (ak_RevokedAt r) (ak_CreatedAt r)
    (Some (default id (ak_FamilyID r))) (ak_Version r) (Some (ms_kind spec)) (Some (ms_ownerID spec))
    (Some (ms_actorID spec)) (Some (ms_actions spec)) KeyActive None (ak_RevocationReason r)
    (Some (ms_rpm spec)) (Some (ms_tpm spec)) (ak_RetiringUntil r) (ak_CreatedBy r) AuthorityEpochV2.
(** The UPDATE of one credential. *)
Definition map_credential (id : uuid) (spec : legacyMappingSpec) : tx Z :=
  d ← tx_get;
  match api_keys d !! id with
  | Some r => if unrevoked r then _ ← store_key id (with_mapping id spec r); mret 1 else mret 0
  | None => mret 0
  end.
(** One iteration: the rows were selected from [d0]; the actor is the bound identity. *)
Definition map_one (opts : CutoverOptions) (d0 : IdentityDB) (kr : uuid * ApiKeyRow) : tx Z :=
  let '(id, r) := kr in
  let key := read_legacy d0 (ak_IdentityID r) r in
  match resolveLegacyMapping key (co_Manifest opts) (co_Now opts) with
  | inl errMappingSkip => mret 0
  | inl _ => tx_fail ErrAuthorityCutoverBlocked
  | inr spec =>
      if bool_decide (ms_kind spec = CredentialKindPersonal) then
        if humanOwnerIsMappable key then map_credential id spec else mret 0
      else
        d ← tx_get;
        _ ← tx_require (default false (active_admin_role <$> local_users d !! ms_ownerID spec))
              ErrAuthorityCutoverBlocked;
        map_credential id spec
  end.
Fixpoint map_all (opts : CutoverOptions) (d0 : IdentityDB) (l : list (uuid * ApiKeyRow)) : tx Z :=
  match l with
  | [] => mret 0
  | kr :: l' => n ← map_one opts d0 kr; m ← map_all opts d0 l'; mret (n + m)
  end.
Definition mapLegacyCredentialsTx (opts : CutoverOptions) (pgnow : timestamp) : tx Z :=
  d ← tx_get; map_all opts d (legacy_rows d pgnow).

Definition approvedGatewayReadObjects : list string := [
  "identity.inference_api_credentials"; "catalog.effective_api_catalog"; "catalog.effective_catalog";
  "permissions.effective_capabilities"; "permissions.effective_rate_limits"; "toolgateway.pools";
  "runtime.turns"; "runtime.workflow_runs"; "runtime.run_pool_assignments"; "runtime.turn_assignments" ].
Definition usage_ledger : string := "usage.inference_events".
(** [GRANT] names its relations, which must exist. *)
Definition applyGatewayAuthorityGrantsTx : tx () :=
  d ← tx_get;
  let acl := gateway_acl d in
  let relations := acl_Relations acl ∖ {[ "identity.active_api_keys" ]} in
  if acl_Role acl then
    _ ← tx_require (bool_decide (Forall (λ o, o ∈ relations) (usage_ledger :: approvedGatewayReadObjects)))
          ErrConstraint;
    tx_modify (put_acl (mkAcl true relations (list_to_set approvedGatewayReadObjects) false))
  else tx_modify (put_acl (mkAcl false relations (acl_Select acl) false)).
(** The address is looked up in its delivery form, the first result of [CanonicalEmail]. *)
Definition resolveOperatorIdentityTx (ToLower : string → string) (operator : string) (d : IdentityDB) : string :=
  let operator := TrimSpace operator in
  if bool_decide (operator = EmptyString) then EmptyString
  else match ('(delivery, _) ← CanonicalEmail ToLower operator;
              fst <$> find_row (by_email delivery) (local_users d)) with
       | Some id => id
       | None => if bool_decide (is_Some (identities d !! operator)) then operator else EmptyString
       end.
Record CutoverReport := mkReport {
  cv_AlreadyV2 : bool; cv_CutoverID : string; cv_RolesRewritten : Z; cv_CredentialsMapped : Z;
  cv_CredentialsRevoked : Z; cv_VerificationPassed : bool; cv_VerificationFailures : list string }.
Definition already_v2 : CutoverReport := mkReport true EmptyString 0 0 0 false [].
Definition report_json (roles mapped revoked : Z) : list (string * json) :=
  [("rolesRewritten", JNum roles 0); ("credentialsMapped", JNum mapped 0); ("credentialsRevoked", JNum revoked 0)].
Definition cutoverID (now : timestamp) : string := format_compact now +:+ "-v2".
(** The locked transaction: [None] when the epoch is already V2. *)
Definition cutover_tx (ToLower : string → string) (opts : CutoverOptions) (preflight : PreflightReport)
    (pgnow : timestamp) : tx (option CutoverReport) :=
  d ← tx_get;
  if bool_decide (au_Epoch (authority_state d) = AuthorityEpochV2) then mret None
  else
    let now := co_Now opts in
    let fingerprint := authoritySourceFingerprint d in
    _ ← tx_require (bool_decide (fingerprint = co_ExpectedFingerprint opts)) ErrAuthorityCutoverBlocked;
    let roles := count_where legacy_role (local_users d) in
    _ ← tx_modify (put_users (update_where legacy_role (with_operator_role now pgnow) (local_users d)));
    d ← tx_get;
    _ ← tx_require (bool_decide (Forall (λ u, lu_Role u ∈ [RoleAdmin; RoleOperator]) (rows (local_users d)))) ErrConstraint;
    let revoked := count_where legacy_authority (api_keys d) in
    _ ← tx_modify (put_keys (update_where legacy_authority (with_revocation now "legacy_authority") (api_keys d)));
    mapped ← mapLegacyCredentialsTx opts pgnow;
    d ← tx_get;
    let revoked := revoked + count_where legacy_unmapped (api_keys d) in
    _ ← tx_modify (put_keys (update_where legacy_unmapped (with_revocation now "legacy_unmapped") (api_keys d)));
    _ ← applyGatewayAuthorityGrantsTx;
    d ← tx_get;
    let st := authority_state d in
    _ ← tx_modify (put_authority (mkAuthority AuthorityEpochV2 (Some fingerprint) (Some now)
          (JObj [("ready", JBool (pr_Ready preflight)); ("fingerprint", JStr (pr_Fingerprint preflight));
                 ("checked", JObj ((λ kv, (kv.1, JNum kv.2 0)) <$> pr_Checked preflight))])
          (Some (cutoverID now)) (Some now) (nullString (co_Operator opts)) (nullString (co_Release opts))
          (JObj (report_json roles mapped revoked ++ [("backupEvidence", JStr (co_BackupEvidence opts));
                 ("rehearsalEvidence", JStr (co_RehearsalEvidence opts))]))
          (au_VerifiedAt st) (au_VerificationResult st)));
    d ← tx_get;
    let operator := resolveOperatorIdentityTx ToLower (co_Operator opts) d in
    _ ← AppendSecurityEventTx (mkEvent "authority_cutover" OutcomeSuccess EmptyString operator operator EmptyString
          EmptyString EmptyString EmptyString EmptyString EmptyString EmptyString EmptyString (cutoverID now)
          (JObj (report_json roles mapped revoked)) None now);
    mret (Some (mkReport false (cutoverID now) roles mapped revoked false [])).

(** * Verification *)
Definition failure (message : string) (count : Z) : list string :=
  if 0 <? count then [message +:+ " (" +:+ pretty count +:+ ")"] else [].
Definition verifyGatewayGrantUnion (d : IdentityDB) : list string :=
  let acl := gateway_acl d in
  if negb (acl_Role acl) then []
  else
    let unapproved := Z.of_nat (size ((acl_Relations acl ∩ acl_Select acl) ∖ list_to_set approvedGatewayReadObjects)) in
    (if 0 <? unapproved
     then ["gateway role retains unapproved customer-authority reads (" +:+ pretty unapproved +:+ ")"] else []) ++
    ((λ o, "required gateway read removed: " +:+ o) <$>
     filter (λ o, o ∈ acl_Relations acl ∧ o ∉ acl_Select acl) approvedGatewayReadObjects).
Record AuthorityVerification := mkVerification {
  av_Passed : bool; av_Failures : list string; av_Checked : list (string * Z) }.
Definition VerifyAuthority (pgnow : timestamp) (d : IdentityDB) : AuthorityVerification :=
  if negb (bool_decide (au_Epoch (authority_state d) = AuthorityEpochV2))
  then mkVerification false ["authority epoch is not v2"] []
  else
    let failures :=
      failure "legacy local roles remain" (count_where legacy_role (local_users d)) ++
      failure "live pre-epoch credentials remain" (count_where (λ _, legacy_live pgnow) (api_keys d)) ++
      failure "wildcard credential actions remain" (count_where (λ _, has_wildcard) (api_keys d)) ++
      failure "live credentials still carry a legacy scope"
        (count_where (λ _ r, unrevoked r && negb (is_null (ak_Scope r))) (api_keys d)) ++
      failure "legacy gateway customer lookup remains" (if acl_LegacyView (gateway_acl d) then 1 else 0) ++
      verifyGatewayGrantUnion d in
    mkVerification (bool_decide (failures = [])) failures [("epoch", 1)].
Definition recordVerification (v : AuthorityVerification) (now : timestamp) : tx () :=
  tx_modify (λ d,
    let st := authority_state d in
    put_authority (mkAuthority (au_Epoch st) (au_SourceFingerprint st) (au_PreflightAt st) (au_PreflightResult st)
      (au_CutoverID st) (au_CutoverAt st) (au_CutoverOperator st) (au_CutoverRelease st) (au_CutoverResult st)
      (Some now)
      (JObj [("passed", JBool (av_Passed v)); ("failures", JArr (JStr <$> av_Failures v));
             ("checked", JObj ((λ kv, (kv.1, JNum kv.2 0)) <$> av_Checked v))])) d).

(** * The store process

    The store keeps a latch beside the database. A call is a process: other connections act
    between its statements, and [now()] is a question. The reads of one preflight see one
    state. *)
Record AuthorityStore := mkAuthorityStore { st_db : IdentityDB; st_latch : bool }.
Inductive AuthQ : Type → Type := PgNow : AuthQ timestamp.
Notation aproc := (proc AuthorityStore AuthQ).
Definition on_db {A} (f : IdentityDB → A * IdentityDB) (s : AuthorityStore) : A * AuthorityStore :=
  let '(a, d) := f (st_db s) in (a, mkAuthorityStore d (st_latch s)).
Definition set_latch (s : AuthorityStore) : AuthorityStore := mkAuthorityStore (st_db s) true.
Definition AuthorityEpoch : aproc Epoch :=
  latched ← inspect st_latch;
  if latched : bool then mret AuthorityEpochV2
  else
    epoch ← inspect (λ s, au_Epoch (authority_state (st_db s)));
    if bool_decide (epoch = AuthorityEpochV2) then _ ← update set_latch; mret epoch
    else mret epoch.
Definition RequireAuthorityV2 : aproc (IdErr + ()) :=
  epoch ← AuthorityEpoch;
  mret (if bool_decide (epoch = AuthorityEpochV2) then inr () else inl ErrAuthorityNotV2).
Inductive CutoverErr := CutoverBlocked (codes : list string) | CutoverFailed (e : IdErr) | PreflightFailed (e : MapErr).
Definition PreflightAuthorityError (opts : CutoverOptions) : aproc (CutoverErr + PreflightReport) :=
  pgnow ← ask PgNow;
  got ← inspect (λ s, PreflightAuthority opts pgnow (st_db s));
  mret (match got with
        | inl e => inl (PreflightFailed e)
        | inr r => if pr_Ready r then inr r else inl (CutoverBlocked (pb_Code <$> pr_Blockers r))
        end).
Definition CutoverAuthority (ToLower : string → string) (opts : CutoverOptions) : aproc (CutoverErr + CutoverReport) :=
  epoch ← AuthorityEpoch;
  if bool_decide (epoch = AuthorityEpochV2) then mret (inr already_v2)
  else
    preflight ← PreflightAuthorityError opts;
    match preflight with
    | inl e => mret (inl e)
    | inr preflight =>
        pgnow ← ask PgNow;
        r ← atomically (on_db (run_tx (cutover_tx ToLower opts preflight pgnow)));
        match r with
        | inl e => mret (inl (CutoverFailed e))
        | inr None => mret (inr already_v2)
        | inr (Some report) =>
            _ ← update set_latch;
            pgnow ← ask PgNow;
            v ← inspect (λ s, VerifyAuthority pgnow (st_db s));
            _ ← atomically (on_db (run_tx (recordVerification v (co_Now opts))));
            mret (inr (mkReport false (cv_CutoverID report) (cv_RolesRewritten report) (cv_CredentialsMapped report)
                         (cv_CredentialsRevoked report) (av_Passed v) (av_Failures v)))
        end
    end.
