(* ===== verification/AuthorityFacts.v ===== *)
(** The disposition of a legacy credential at the cutover: what a resolved mapping may grant,
    and when the preflight and the locked transaction agree. *)
From S2P Require Import Prelude Json IdentityActions IdentityData IdentityStore IdentityFlows IdentityJourneys IdentitySession IdentityPeople IdentityFacts Authority.

(** * A resolved mapping *)
Lemma resolve_inv key m now spec :
  resolveLegacyMapping key m now = inr spec →
  ∃ scopeActions,
    legacyScopeActions (lc_scope key) = Some scopeActions ∧
    ms_kind spec = legacyMappingKind (lc_scope key) (lc_kind key) (lc_hasLocalUser key) ∧
    resolve_owner (ms_kind spec) (cm_Credentials m !! lc_prefix key) key = inr (ms_ownerID spec, ms_actorID spec) ∧
    resolve_actions (cm_Credentials m !! lc_prefix key) scopeActions
      (intersectActions scopeActions (CatalogueActions (ms_kind spec))) = inr (ms_actions spec) ∧
    0 < ms_rpm spec ∧ 0 < ms_tpm spec ∧
    ValidateActions (ms_kind spec) (ms_actions spec)
      (if bool_decide (ms_kind spec = CredentialKindPersonal) then NormalizeRole (lc_role key) else RoleAdmin) = inr ().
Proof.
  unfold resolveLegacyMapping. destruct (legacyScopeActions _) as [sa|]; [|done]. intros H. inv_res.
  match goal with o : string * string |- _ => destruct o as [owner actor] end.
  match goal with H : match ValidateActions ?k ?a ?r with _ => _ end = _ |- _ =>
    destruct (ValidateActions k a r) as [|[]] eqn:Hv; [done|]; injection H as <- end.
  match goal with H : (_ || _) = false |- _ => apply orb_false_iff in H as [?%Z.leb_gt ?%Z.leb_gt] end.
  exists sa. by split_and!.
Qed.
Lemma legacy_kind scope kind user :
  legacyMappingKind scope kind user = CredentialKindPersonal ∧ scope = ScopeWork ∧ user = true ∨
  legacyMappingKind scope kind user = CredentialKindAutomation.
Proof.
  unfold legacyMappingKind. destruct (_ && _) eqn:He; [|by right]. left.
  rewrite !andb_true_iff, bool_decide_eq_true in He. naive_solver.
Qed.
(** The two shapes of a mapping, with the role its actions were validated for. *)
Lemma mapping_cases key m now spec :
  resolveLegacyMapping key m now = inr spec →
  ms_kind spec = CredentialKindPersonal ∧ lc_scope key = ScopeWork ∧ lc_hasLocalUser key = true ∧
    ms_ownerID spec = lc_identityID key ∧ ms_actorID spec = lc_identityID key ∧
    ValidateActions (ms_kind spec) (ms_actions spec) (NormalizeRole (lc_role key)) = inr () ∨
  ms_kind spec = CredentialKindAutomation ∧ ms_ownerID spec ≠ EmptyString ∧ ms_ownerID spec ≠ ms_actorID spec ∧
    ValidateActions (ms_kind spec) (ms_actions spec) RoleAdmin = inr ().
Proof.
  intros (sa & _ & Hk & Ho & _ & _ & _ & Hv)%resolve_inv.
  destruct (legacy_kind (lc_scope key) (lc_kind key) (lc_hasLocalUser key)) as [(Hp & Hw & Hu)|Hp];
    rewrite Hp in Hk; rewrite Hk in Ho, Hv |- *; unfold resolve_owner in Ho; cbn in Ho, Hv.
  - left. by injection Ho as <- <-.
  - right. destruct (_ !! _); [|done]. destruct (_ || _) eqn:Hb; [done|].
    rewrite orb_false_iff, !bool_decide_eq_false in Hb. injection Ho as <- <-. destruct Hb. by split_and!.
Qed.
Lemma resolved_within key m now spec :
  resolveLegacyMapping key m now = inr spec →
  ∃ scopeActions, legacyScopeActions (lc_scope key) = Some scopeActions ∧ ms_actions spec ⊆ scopeActions.
Proof.
  intros (sa & Hs & _ & _ & Ha & _)%resolve_inv. exists sa. split; [done|].
  assert (∀ l, intersectActions sa l ⊆ sa) as Hi.
  { intros l x. unfold intersectActions. by intros [_ Hx]%list_elem_of_filter. }
  unfold resolve_actions in Ha. destruct (_ !! _) as [mp|]; [|injection Ha as <-; apply Hi].
  destruct (bool_decide _); [injection Ha as <-; apply Hi|].
  destruct (subsetOfActions _ _) eqn:Hsub; [|done]. injection Ha as <-. exact (proj1 (subsetOfActions_true _ _) Hsub).
Qed.
Lemma legacy_scope_harmless scope sa a :
  legacyScopeActions scope = Some sa → a ∈ sa → ActionAdminOnly a = false.
Proof.
  unfold legacyScopeActions. repeat case_bool_decide; intros [= <-]; intros Ha;
    repeat (apply elem_of_cons in Ha as [->|Ha]; [done|]); by apply not_elem_of_nil in Ha.
Qed.
(** The cutover never widens a legacy credential. A mapping that resolves for a legacy key,
    whatever the manifest says, holds only actions the key's scope already carried, none of
    them an Admin-only action, and the set passes the catalogue's gate; its rate limits are
    positive; and it is shaped as one of the two V2 kinds: a personal credential only for a
    person's work key, owned and acted by that same identity, or an automation credential whose
    owner and actor are both named and distinct. *)
Theorem mapping_never_widens key m now spec :
  resolveLegacyMapping key m now = inr spec →
  (∃ scopeActions, legacyScopeActions (lc_scope key) = Some scopeActions ∧ ms_actions spec ⊆ scopeActions) ∧
  (∀ a, a ∈ ms_actions spec → ActionAdminOnly a = false) ∧
  ms_actions spec ≠ [] ∧ NoDup (ms_actions spec) ∧
  0 < ms_rpm spec ∧ 0 < ms_tpm spec ∧
  (ms_kind spec = CredentialKindPersonal ∧ lc_scope key = ScopeWork ∧ lc_hasLocalUser key = true ∧
     ms_ownerID spec = lc_identityID key ∧ ms_actorID spec = lc_identityID key ∨
   ms_kind spec = CredentialKindAutomation ∧ ms_ownerID spec ≠ EmptyString ∧ ms_ownerID spec ≠ ms_actorID spec).
Proof.
  intros Hr. destruct (resolved_within _ _ _ _ Hr) as (sa & Hs & Hsub).
  destruct (resolve_inv _ _ _ _ Hr) as (_ & _ & _ & _ & _ & Hrpm & Htpm & Hv).
  apply validate_actions_contract in Hv as (_ & Hne & Hnd & _).
  split_and!; [by exists sa| |done..|].
  - intros a Ha. eapply legacy_scope_harmless; [exact Hs|by apply Hsub].
  - destruct (mapping_cases _ _ _ _ Hr) as [(? & ? & ? & ? & ? & _)|(? & ? & ? & _)]; [by left|by right].
Qed.

(** * The transaction, step by step *)
Section cutover.
Context (ToLower : string → string) (opts : CutoverOptions) (pgnow : timestamp).

Lemma put_keys_keys t t' d : put_keys t (put_keys t' d) = put_keys t d.
Proof. done. Qed.
Lemma put_keys_same d : put_keys (api_keys d) d = d.
Proof. by destruct d. Qed.
Lemma map_one_keys d0 kr d n d' : map_one opts d0 kr d = inr (n, d') → ∃ t, d' = put_keys t d.
Proof.
  destruct kr as [id r]. unfold map_one, map_credential. intros H.
  id_inv; first [by eexists|exists (api_keys d); by rewrite put_keys_same].
Qed.
Lemma map_all_keys d0 l d n d' : map_all opts d0 l d = inr (n, d') → ∃ t, d' = put_keys t d.
Proof.
  revert d n. induction l as [|kr l IH]; intros d n H; cbn in H.
  - id_inv. exists (api_keys d). by rewrite put_keys_same.
  - apply tx_bind_inr in H as (a & d1 & H1 & H). apply tx_bind_inr in H as (b & d2 & H2 & H). inv_tx.
    apply map_one_keys in H1 as [t ->]. apply IH in H2 as [t' ->]. by exists t'.
Qed.
Lemma grants_acl d u d' : applyGatewayAuthorityGrantsTx d = inr (u, d') → ∃ acl, d' = put_acl acl d.
Proof. unfold applyGatewayAuthorityGrantsTx. intros H. id_inv; by eexists. Qed.

(** The tables after the role rewrite, after the withdrawal of the legacy authority scopes,
    and after the sweep of what was not mapped. *)
Definition rewritten (d : IdentityDB) : IdentityDB :=
  put_users (update_where legacy_role (with_operator_role (co_Now opts) pgnow) (local_users d)) d.
Definition withdrawn (d : IdentityDB) : IdentityDB :=
  put_keys (update_where legacy_authority (with_revocation (co_Now opts) "legacy_authority") (api_keys d)) d.
Definition swept (d : IdentityDB) : IdentityDB :=
  put_keys (update_where legacy_unmapped (with_revocation (co_Now opts) "legacy_unmapped") (api_keys d)) d.
Lemma cutover_inr pf d rep d' :
  cutover_tx ToLower opts pf pgnow d = inr (rep, d') →
  (rep = None ∧ d' = d ∧ au_Epoch (authority_state d) = AuthorityEpochV2) ∨
  ∃ report n d3 acl au ev,
    rep = Some report ∧ au_Epoch (authority_state d) = AuthorityEpochLegacy ∧
    authoritySourceFingerprint d = co_ExpectedFingerprint opts ∧
    Forall (λ u, lu_Role u ∈ [RoleAdmin; RoleOperator]) (rows (local_users (rewritten d))) ∧
    map_all opts (withdrawn (rewritten d)) (legacy_rows (withdrawn (rewritten d)) pgnow) (withdrawn (rewritten d)) = inr (n, d3) ∧
    applyGatewayAuthorityGrantsTx (swept d3) = inr ((), put_acl acl (swept d3)) ∧
    au_Epoch au = AuthorityEpochV2 ∧
    d' = put_events ev (put_authority au (put_acl acl (swept d3))).
Proof.
  intros H. unfold cutover_tx in H. apply tx_bind_inr in H as (? & ? & [<- <-]%tx_get_inr & H).
  destruct (bool_decide _) eqn:He; [left; apply bool_decide_eq_true in He; by inv_tx|right].
  apply bool_decide_eq_false in He.
  apply tx_bind_inr in H as ([] & d1 & [Hfp%bool_decide_eq_true <-]%tx_require_inr & H).
  apply tx_bind_inr in H as ([] & d1 & <-%tx_modify_inr & H).
  apply tx_bind_inr in H as (? & ? & [<- <-]%tx_get_inr & H).
  apply tx_bind_inr in H as ([] & d1 & [Hro%bool_decide_eq_true <-]%tx_require_inr & H).
  apply tx_bind_inr in H as ([] & d1 & <-%tx_modify_inr & H).
  apply tx_bind_inr in H as (n & d3 & H1 & H). unfold mapLegacyCredentialsTx in H1. inv_tx.
  match goal with H : applyGatewayAuthorityGrantsTx _ = _ |- _ => destruct (grants_acl _ _ _ H) as [acl ->] end.
  id_inv. eexists _, n, d3, acl, _, _. split_and!; try done. all: first [reflexivity | by destruct (au_Epoch (authority_state d))].
Qed.
End cutover.
