(* ===== verification/IdentityMachine.v ===== *)
(** The identity store as a machine, and the authority it grants.

    [idop] lists every operation of the identity package that writes; [exec] runs one on
    the tables. [view] is what the store's clients rely on: who holds which role, which
    credentials and sessions are usable, and the epoch. [authority_step] is the promise
    made about it: how accounts, credentials and sessions may change, with the guards of
    each change. *)
From S2P Require Import Prelude Json IdentityActions IdentityData IdentityStore IdentityFlows IdentityJourneys IdentitySession IdentityPeople Authority.

(** * The operations *)
Inductive idop :=
| OpUpsertIdentity (fresh key kind source displayName : string) (pgnow : timestamp)
| OpSoftDeleteIdentity (key : string) (pgnow : timestamp)
| OpReplaceMappings (identityID : uuid) (bindings : list Binding)
| OpUpsertLocalUser (fresh email role : string) (pgnow : timestamp)
| OpUpsertServiceAccount (fresh key displayName : string) (pgnow : timestamp)
| OpCreateAPIKey (fresh enc identityID name scope : string) (expiresAt : option timestamp) (pgnow : timestamp)
| OpRevokeAPIKeysForIdentity (identityID scope : string) (pgnow : timestamp)
| OpValidateAPIKey (fullKey : string) (stamped : bool) (pgnow : timestamp)
| OpRevokeAPIKey (id : uuid) (pgnow : timestamp)
| OpUpdateProfile (identityID displayName locale : string) (expected : option timestamp) (now pgnow : timestamp)
| OpAppendEvent (ev : SecurityEvent)
| OpPurgeEvents (before : timestamp)
| OpPurgeEventNetwork (before : timestamp)
| OpPurgeEmailState (before : timestamp)
| OpQueueEmail (fresh : uuid) (purpose : LinkPurpose) (email identityID request locale : string) (pgnow : timestamp)
| OpClaimEmails (skipped : gset uuid) (owner : string) (limit : nat) (leaseTTL now : timestamp)
| OpExpireLeases (now : timestamp)
| OpCreateLink (fresh raw outboxID : string) (now pgnow : timestamp)
| OpMarkAccepted (outboxID : uuid) (now : timestamp)
| OpMarkUnknown (outboxID errorClass : string) (now : timestamp)
| OpMarkFailed (outboxID errorClass : string) (now : timestamp)
| OpReleaseRetry (outboxID errorClass : string) (maxAttempts : Z) (now : timestamp)
| OpCreateOrResend (fresh outboxID delivery normalized locale : string) (now pgnow : timestamp)
| OpVerify (raw : string) (now : timestamp)
| OpApprove (fresh outboxID requestID reviewerID role : string) (now pgnow : timestamp)
| OpDecline (requestID reviewerID : uuid) (now : timestamp)
| OpExpireRequests (now : timestamp)
| OpPurgeRequests (now pgnow : timestamp)
| OpCompleteSetup (raw displayName locale password : string) (now pgnow : timestamp)
| OpRequestReset (outboxID normalized : string) (now pgnow : timestamp)
| OpCompleteReset (raw password : string) (now pgnow : timestamp)
| OpResendSetup (outboxID raw : string) (now pgnow : timestamp)
| OpBootstrap (fresh outboxID outboxID2 : uuid) (opts : BootstrapOptions) (now pgnow : timestamp)
| OpCreateSession (fresh raw : string) (p : CreateBrowserSessionParams)
| OpResolveSession (raw : string) (now : timestamp) (n : SessionNetwork) (written : bool)
| OpRevokeSession (sessionID : uuid) (now : timestamp) (reason : Termination) (e : option SecurityEvent)
| OpRevokeOwnedSession (identityID sessionID : uuid) (now : timestamp) (reason : Termination) (e : option SecurityEvent)
| OpRevokeOtherSessions (identityID keepID : uuid) (now : timestamp) (reason : Termination) (e : Z → option SecurityEvent)
| OpRevokeAllSessions (identityID : uuid) (now : timestamp) (reason : Termination)
| OpRevokeSessionByToken (raw : string) (now : timestamp) (reason : Termination)
| OpRotateCSRF (raw : string) (sessionID : uuid)
| OpSetRecentPassword (sessionID : uuid) (now : timestamp) (e : option SecurityEvent)
| OpPurgeSessionNetwork (before : timestamp)
| OpRecordAttempt (rule : ThrottleRule) (subject : string) (now : timestamp)
| OpClearThrottle (scope subject : string)
| OpPruneThrottle (before now : timestamp)
| OpResolveCredential (fullKey : string) (stamped : bool) (now pgnow : timestamp)
| OpCreateCredential (fresh familyID enc : string) (p : CreateCredentialParams) (pgnow : timestamp)
| OpTransfer (family credential prior new by_ reason correlation : string) (now : timestamp)
| OpChangeRole (actorID targetID role : string) (now pgnow : timestamp)
| OpDisable (actorID targetID : uuid) (now pgnow : timestamp)
| OpEnable (actorID targetID : uuid) (now pgnow : timestamp)
| OpRevokePersonSessions (actorID targetID : uuid) (now : timestamp)
| OpCutover (opts : CutoverOptions) (preflight : PreflightReport) (pgnow : timestamp)
| OpRecordVerification (v : AuthorityVerification) (now : timestamp).

Section machine.
Context (sha256hex ToLower : string → string) (HashPassword : string → option string).

Definition exec (op : idop) (d : IdentityDB) : IdentityDB :=
  match op with
  | OpUpsertIdentity f k ki so dn p => (run_tx (UpsertIdentity f k ki so dn p) d).2
  | OpSoftDeleteIdentity k p => (run_tx (SoftDeleteIdentityByKey k p) d).2
  | OpReplaceMappings i b => (run_tx (ReplaceExternalMappings i b) d).2
  | OpUpsertLocalUser f e r p => (run_tx (UpsertLocalUser ToLower f e r p) d).2
  | OpUpsertServiceAccount f k dn p => (run_tx (UpsertServiceAccount f k dn p) d).2
  | OpCreateAPIKey f e i n s x p => (run_tx (CreateAPIKey sha256hex f e i n s x p) d).2
  | OpRevokeAPIKeysForIdentity i s p => (run_tx (RevokeAPIKeysForIdentity i s p) d).2
  | OpValidateAPIKey k s p => (run_tx (ValidateAPIKey sha256hex k s p) d).2
  | OpRevokeAPIKey i p => (run_tx (RevokeAPIKey i p) d).2
  | OpUpdateProfile i dn l e n p => (run_tx (UpdateLocalUserProfileVersioned i dn l e n p) d).2
  | OpAppendEvent e => (run_tx (AppendSecurityEvent e) d).2
  | OpPurgeEvents b => (run_tx (PurgeSecurityEvents b) d).2
  | OpPurgeEventNetwork b => (run_tx (PurgeSecurityEventNetwork b) d).2
  | OpPurgeEmailState b => (run_tx (PurgeAuthEmailState b) d).2
  | OpQueueEmail f pu e i r l p => (run_tx (QueueAuthEmailTx f pu e i r l p) d).2
  | OpClaimEmails sk o li t n => (run_tx (ClaimAuthEmails sk o li t n) d).2
  | OpExpireLeases n => (run_tx (ExpireAuthEmailLeases n) d).2
  | OpCreateLink f r o n p => (run_tx (CreateAuthLinkForIntent sha256hex f r o n p) d).2
  | OpMarkAccepted o n => (run_tx (MarkAuthEmailAccepted o n) d).2
  | OpMarkUnknown o e n => (run_tx (MarkAuthEmailOutcomeUnknown o e n) d).2
  | OpMarkFailed o e n => (run_tx (MarkAuthEmailFailed o e n) d).2
  | OpReleaseRetry o e m n => (run_tx (ReleaseAuthEmailRetry o e m n) d).2
  | OpCreateOrResend f o de no l n p => (run_tx (CreateOrResendAccessRequest f o de no l n p) d).2
  | OpVerify r n => (run_tx (VerifyAccessRequest sha256hex r n) d).2
  | OpApprove f o rq rv r n p => (run_tx (ApproveAccessRequest f o rq rv r n p) d).2
  | OpDecline rq rv n => (run_tx (DeclineAccessRequest rq rv n) d).2
  | OpExpireRequests n => (run_tx (ExpireAccessRequests n) d).2
  | OpPurgeRequests n p => (run_tx (PurgeAccessRequests n p) d).2
  | OpCompleteSetup r dn l pw n p => (run_tx (CompleteSetup sha256hex HashPassword r dn l pw n p) d).2
  | OpRequestReset o no n p => (run_tx (RequestPasswordReset o no n p) d).2
  | OpCompleteReset r pw n p => (run_tx (CompletePasswordReset sha256hex HashPassword r pw n p) d).2
  | OpResendSetup o r n p => (run_tx (ResendSetupInstructions sha256hex o r n p) d).2
  | OpBootstrap f o o2 op n p => (run_tx (BootstrapAdmin ToLower f o o2 op n p) d).2
  | OpCreateSession f r p => (run_tx (CreateBrowserSession sha256hex f r p) d).2
  | OpResolveSession r n nw w => (ResolveBrowserSessionWithNetwork sha256hex r n nw w d).2
  | OpRevokeSession s n r e => (run_tx (RevokeSessionWithAudit s n r e) d).2
  | OpRevokeOwnedSession i s n r e => (run_tx (RevokeOwnedSessionWithAudit i s n r e) d).2
  | OpRevokeOtherSessions i k n r e => (run_tx (RevokeOtherSessionsWithAudit i k n r e) d).2
  | OpRevokeAllSessions i n r => (run_tx (RevokeAllSessionsForIdentity i n r) d).2
  | OpRevokeSessionByToken r n re => (run_tx (RevokeSessionByToken sha256hex r n re) d).2
  | OpRotateCSRF r s => (run_tx (RotateSessionCSRF sha256hex r s) d).2
  | OpSetRecentPassword s n e => (run_tx (SetRecentPasswordWithAudit s n e) d).2
  | OpPurgeSessionNetwork b => (run_tx (PurgeSessionNetworkEvidence b) d).2
  | OpRecordAttempt r s n => (run_tx (RecordAuthAttempt r s n) d).2
  | OpClearThrottle sc s => (run_tx (ClearAuthThrottle sc s) d).2
  | OpPruneThrottle b n => (run_tx (PruneAuthThrottle b n) d).2
  | OpResolveCredential k s n p => (ResolveCredential sha256hex k s n p d).2
  | OpCreateCredential f fa e pa p => (run_tx (CreateCredentialVersion sha256hex f fa e pa p) d).2
  | OpTransfer f c po no b r co n => (run_tx (RecordOwnershipTransfer f c po no b r co n) d).2
  | OpChangeRole a t r n p => (ChangePersonRole a t r n p d).2
  | OpDisable a t n p => (DisablePerson a t n p d).2
  | OpEnable a t n p => (EnablePerson a t n p d).2
  | OpRevokePersonSessions a t n => (RevokePersonSessions a t n d).2
  | OpCutover o pf p => (run_tx (cutover_tx ToLower o pf p) d).2
  | OpRecordVerification v n => (run_tx (recordVerification v n) d).2
  end.
Fixpoint exec_all (ops : list idop) (d : IdentityDB) : IdentityDB :=
  match ops with [] => d | op :: ops' => exec_all ops' (exec op d) end.

(** The one operation that changes a role and nothing else: the legacy user endpoint, on an
    account that is an Admin and stops being one. *)
Definition silently_demotes (op : idop) (d : IdentityDB) : bool :=
  match op with
  | OpUpsertLocalUser _ _ _ _ =>
      exists_where (λ k u, bool_decide (lu_Role u = RoleAdmin) &&
        negb (bool_decide (lu_Role <$> local_users (exec op d) !! k = Some RoleAdmin))) (local_users d)
  | _ => false
  end.
(** A run in which that never happens. *)
Fixpoint orderly (ops : list idop) (d : IdentityDB) : bool :=
  match ops with
  | [] => true
  | op :: ops' => negb (silently_demotes op d) && orderly ops' (exec op d)
  end.
End machine.

(** * The authority the tables grant *)
Record account := mkAccount { ac_role : string; ac_status : UserStatus }.
Record cred := mkCred { cd_kind : string; cd_owner : uuid; cd_actions : list string; cd_live : bool }.
Record view := mkView {
  v_accounts : gmap uuid account; v_creds : gmap uuid cred; v_sessions : gmap uuid (uuid * bool); v_epoch : Epoch }.
Definition account_of (u : LocalUserRow) : account := mkAccount (NormalizeRole (lu_Role u)) (lu_Status u).
Definition cred_of (r : ApiKeyRow) : option cred :=
  kind ← ak_KeyType r; owner ← ak_Owner r; actions ← ak_Actions r;
  if bool_decide (ak_Epoch r = AuthorityEpochV2) then Some (mkCred kind owner actions (live_status (ak_Status r)))
  else None.
Definition session_of (s : SessionRow) : uuid * bool := (bs_IdentityID s, session_open s).
Definition view_of (d : IdentityDB) : view :=
  mkView (account_of <$> local_users d) (omap cred_of (api_keys d)) (session_of <$> browser_sessions d)
    (au_Epoch (authority_state d)).

Definition dead (c : cred) : cred := mkCred (cd_kind c) (cd_owner c) (cd_actions c) false.
Definition retire (P : uuid → bool) (t : gmap uuid cred) : gmap uuid cred :=
  map_imap (λ k c, Some (if P k then dead c else c)) t.
Definition close (P : uuid → bool) (t : gmap uuid (uuid * bool)) : gmap uuid (uuid * bool) :=
  map_imap (λ k s, Some (if P k then (s.1, false) else s)) t.
Definition close_of (id : uuid) (t : gmap uuid (uuid * bool)) : gmap uuid (uuid * bool) :=
  (λ s, if bool_decide (s.1 = id) then (s.1, false) else s) <$> t.
(** What a demoted owner loses: automation credentials, and personal credentials with an
    Admin-only action. *)
Definition admin_cred (c : cred) : bool :=
  bool_decide (cd_kind c = CredentialKindAutomation) ||
  bool_decide (cd_kind c = CredentialKindPersonal) && overlaps (cd_actions c) AdminOnlyActions.
Definition clip (id : uuid) (c : cred) : cred :=
  if bool_decide (cd_owner c = id) && admin_cred c then dead c else c.
Definition forfeit (id : uuid) (c : cred) : cred := if bool_decide (cd_owner c = id) then dead c else c.
Definition another_admin (t : gmap uuid account) (id : uuid) : Prop :=
  ∃ j, j ≠ id ∧ t !! j = Some (mkAccount RoleAdmin LocalUserActive).
(** An owner may hold the credential: active, an Admin for automation, and entitled to every
    action under the current role. *)
Definition may_hold (t : gmap uuid account) (c : cred) : Prop :=
  ∃ role, t !! cd_owner c = Some (mkAccount role LocalUserActive) ∧
    (cd_kind c = CredentialKindAutomation → role = RoleAdmin) ∧
    ValidateActions (cd_kind c) (cd_actions c) role = inr ().

Inductive authority_step : view → view → Prop :=
| auth_account t c s e id role :
    t !! id = None → role ∈ [RoleAdmin; RoleOperator] →
    authority_step (mkView t c s e) (mkView (<[id := mkAccount role LocalUserSetupPending]> t) c s e)
| auth_activate t c s e id role :
    t !! id = Some (mkAccount role LocalUserSetupPending) →
    authority_step (mkView t c s e) (mkView (<[id := mkAccount role LocalUserActive]> t) c s e)
| auth_promote t c s e id role st :
    t !! id = Some (mkAccount role st) →
    authority_step (mkView t c s e) (mkView (<[id := mkAccount RoleAdmin st]> t) c s e)
| auth_demote t c s e id st :
    t !! id = Some (mkAccount RoleAdmin st) → another_admin t id →
    authority_step (mkView t c s e)
      (mkView (<[id := mkAccount RoleOperator st]> t) (clip id <$> c) (close_of id s) e)
| auth_disable t c s e id role st :
    t !! id = Some (mkAccount role st) → (role = RoleAdmin → another_admin t id) →
    authority_step (mkView t c s e)
      (mkView (<[id := mkAccount role LocalUserDisabled]> t) (forfeit id <$> c) (close_of id s) e)
| auth_enable t c s e id role :
    t !! id = Some (mkAccount role LocalUserDisabled) →
    authority_step (mkView t c s e) (mkView (<[id := mkAccount role LocalUserActive]> t) c s e)
| auth_recover t c s e id :
    (∀ j, t !! j ≠ Some (mkAccount RoleAdmin LocalUserActive)) →
    authority_step (mkView t c s e)
      (mkView (<[id := mkAccount RoleAdmin LocalUserSetupPending]> t) c (close_of id s) e)
| auth_issue t c s e k x :
    c !! k = None → cd_live x = true → may_hold t x →
    authority_step (mkView t c s e) (mkView t (<[k := x]> c) s e)
| auth_retire t c s e P : authority_step (mkView t c s e) (mkView t (retire P c) s e)
| auth_open t c s e k id :
    s !! k = None → authority_step (mkView t c s e) (mkView t c (<[k := (id, true)]> s) e)
| auth_close t c s e P : authority_step (mkView t c s e) (mkView t c (close P s) e)
| auth_epoch t c s :
    authority_step (mkView t c s AuthorityEpochLegacy) (mkView t c s AuthorityEpochV2).
(** The exception: a role lowered with the account's sessions and credentials untouched. *)
Inductive unguarded_step : view → view → Prop :=
| auth_lower t c s e id st :
    t !! id = Some (mkAccount RoleAdmin st) →
    unguarded_step (mkView t c s e) (mkView (<[id := mkAccount RoleOperator st]> t) c s e).

(** [open_op] opens the operations that are one transaction, so that [id_inv] can decompose
    them. *)
Ltac open_op :=
  unfold UpsertIdentity, SoftDeleteIdentityByKey, UpsertServiceAccount, UpsertLocalUser, CreateAPIKey, RevokeAPIKeysForIdentity,
    ValidateAPIKey, RevokeAPIKey, UpdateLocalUserProfileVersioned,
    PurgeSecurityEvents, PurgeSecurityEventNetwork, PurgeAuthEmailState, ClaimAuthEmails, ExpireAuthEmailLeases,
    CreateAuthLinkForIntent, createAuthLinkTx, MarkAuthEmailAccepted, MarkAuthEmailOutcomeUnknown,
    MarkAuthEmailFailed, ReleaseAuthEmailRetry, CreateOrResendAccessRequest, VerifyAccessRequest, ApproveAccessRequest,
    DeclineAccessRequest, ExpireAccessRequests, PurgeAccessRequests, CompleteSetup, activateLocalUserTx, CompletePasswordReset,
    setLocalUserPasswordTx, RequestPasswordReset, ResendSetupInstructions, CreateBrowserSession, RevokeSessionWithAudit,
    RevokeOwnedSessionWithAudit, RevokeOtherSessionsWithAudit, RevokeAllSessionsForIdentity, RevokeSessionByToken,
    RotateSessionCSRF, SetRecentPasswordWithAudit, PurgeSessionNetworkEvidence, CreateCredentialVersion,
    RecordAuthAttempt, ClearAuthThrottle, PruneAuthThrottle, RecordOwnershipTransfer, recordVerification in *.
