(* ===== verification/IdentityRace.v ===== *)
(** People transactions in flight at once. [mutatePerson] locks the rows of its actor and its
    target, decides, writes and commits; under READ COMMITTED another such transaction that
    locks none of these rows may decide before the first one commits. *)
From S2P Require Import Prelude Json IdentityActions IdentityData IdentityStore IdentityFlows IdentityJourneys IdentitySession IdentityPeople IdentityFacts IdentityMachine.

(** One call: its actor, its target and what it does. *)
Record people_call := mkCall { pc_actor : uuid; pc_target : uuid; pc_event : string; pc_mutation : mutation }.
Definition locked (c : people_call) : list uuid := [pc_actor c; pc_target c].
(** The first half of [mutatePerson]: the target when the mutation is to be written. *)
Definition decides (c : people_call) (d : IdentityDB) : option LocalUser :=
  match (_ ← lockLocalUserTx (pc_actor c); lockLocalUserTx (pc_target c)) d with
  | inr (target, _) =>
      match mu_decide (pc_mutation c) target d with inr (true, _) => Some target | _ => None end
  | inl _ => None
  end.
(** The second half. *)
Definition commits (c : people_call) (now : timestamp) (target : LocalUser) (d : IdentityDB) : option IdentityDB :=
  match commit_mutation (pc_event c) (pc_actor c) (pc_target c) now (pc_mutation c) target d with
  | inr (_, d') => Some d'
  | inl _ => None
  end.
(** Both decide on [d], then both commit. *)
Definition overlapping (c c' : people_call) (now : timestamp) (d : IdentityDB) : option IdentityDB :=
  if bool_decide (Forall (λ x, x ∉ locked c') (locked c)) then
    target ← decides c d; target' ← decides c' d;
    d1 ← commits c now target d; commits c' now target' d1
  else None.
(** The two halves make up the call. *)
Lemma mutatePerson_halves c now d target d' :
  decides c d = Some target → commits c now target d = Some d' →
  (mutatePerson (pc_actor c) (pc_target c) now (pc_event c) (pc_mutation c) d).2 = d'.
Proof.
  unfold decides, commits, mutatePerson. intros Hd Hc.
  match goal with |- context [match ?x with inl _ => _ | inr _ => _ end] => destruct x as [e|[t d0]] eqn:Hl; [done|] end.
  destruct (mu_decide _ t d) as [e|[[|] d1]]; try done. injection Hd as ->. unfold run_tx.
  destruct (commit_mutation _ _ _ _ _ _ _) as [e|[c0 d2]]; [done|]. by injection Hc as ->.
Qed.

Definition self_demotion (id : uuid) (now pgnow : timestamp) : people_call :=
  mkCall id id "role_changed" (change_role id id RoleOperator now pgnow).
Lemma decides_target c d target : decides c d = Some target → join_user false d (pc_target c) = Some target.
Proof.
  unfold decides. match goal with |- context [match ?x with inl _ => _ | inr _ => _ end] => destruct x as [e|[t d0]] eqn:Hl; [done|] end.
  unfold lockLocalUserTx in Hl. inv_tx. destruct (mu_decide _ t d) as [e|[[|] d1]]; try done. by intros [= ->].
Qed.
Lemma self_demotion_users id now p target d d' :
  local_users d !! id = Some (us_Row target) → commits (self_demotion id now p) now target d = Some d' →
  local_users d' = <[id := with_role RoleOperator id now p (us_Row target)]> (local_users d) ∧ identities d' = identities d.
Proof.
  intros Hu. unfold commits. cbn [pc_event pc_actor pc_target pc_mutation self_demotion].
  destruct (commit_mutation _ _ _ _ _ _ _) as [e|[c d2]] eqn:H; [done|]. intros [= ->]. unfold commit_mutation in H.
  apply tx_bind_inr in H as (r & d1 & Hw & H). cbn in Hw. apply tx_bind_inr in Hw as ([] & d3 & H1 & Hw).
  apply (update_user_inr _ _ _ _ _ _ Hu) in H1 as ->. unfold suspendAdminOnlyCredentialsTx, suspendOwnedAutomationTx in Hw.
  id_inv; done.
Qed.
Lemma second_demotion_refused id target now p d :
  join_user false d id = Some target → lu_Role (us_Row target) = RoleAdmin → other_admins d id = 0 →
  (ChangePersonRole id id RoleOperator now p d).1 = inl ErrLastAdmin.
Proof.
  intros Hj Hr Ho. unfold ChangePersonRole. rewrite (proj2 (mem_true RoleOperator _)) by (by right; left). cbn [negb].
  assert (lockLocalUserTx id d = inr (target, d)) as Hl.
  { unfold lockLocalUserTx, mbind, tx_bind, tx_get, tx_opt. by rewrite Hj. }
  unfold mutatePerson. erewrite (tx_bind_step _ _ _ _ _ Hl), Hl.
  assert (mu_decide (change_role id id RoleOperator now p) target d = inl ErrLastAdmin) as ->; [|done].
  cbn [mu_decide change_role]. unfold demoting. rewrite Hr. change (NormalizeRole RoleAdmin) with RoleAdmin.
  rewrite bool_decide_eq_false_2, !bool_decide_eq_true_2 by done. cbn [andb].
  unfold requireAnotherActiveAdminTx, mbind, tx_bind, tx_get, tx_require. by rewrite Ho.
Qed.
(** C19. The last-Admin guard does not serialize. When the two only active Admins demote
    themselves at the same time, the transactions lock different rows, each counts the other as
    the remaining Admin, both commit, and no active Admin is left; run one after the other, the
    second is refused with the last-Admin error. *)
Theorem concurrent_demotions_lose_the_last_admin d a b ua ub now p d2 :
  a ≠ b → local_users d !! a = Some ua → local_users d !! b = Some ub → lu_Role ua = RoleAdmin → lu_Role ub = RoleAdmin →
  (∀ j u, local_users d !! j = Some u → active_admin u = true → j = a ∨ j = b) →
  overlapping (self_demotion a now p) (self_demotion b now p) now d = Some d2 →
  CountActiveAdmins d2 = 0 ∧
  (ChangePersonRole b b RoleOperator now p (ChangePersonRole a a RoleOperator now p d).2).1 = inl ErrLastAdmin.
Proof.
  intros Hab Ha Hb Hra Hrb Honly Hov. unfold overlapping in Hov. destruct (bool_decide _); [|done].
  apply bind_Some in Hov as (ta & Hda & Hov). apply bind_Some in Hov as (tb & Hdb & Hov).
  apply bind_Some in Hov as (d1 & Hc1 & Hc2).
  pose proof (decides_target _ _ _ Hda) as Hja. pose proof (decides_target _ _ _ Hdb) as Hjb. cbn in Hja, Hjb.
  destruct (join_user_Some _ _ _ _ Hja) as [Hla _], (join_user_Some _ _ _ _ Hjb) as [Hlb _].
  rewrite Ha in Hla. rewrite Hb in Hlb. injection Hla as ->. injection Hlb as ->.
  destruct (self_demotion_users _ _ _ _ _ _ Ha Hc1) as [Hu1 Hi1].
  assert (local_users d1 !! b = Some (us_Row tb)) as Hb1 by by rewrite Hu1, lookup_insert_ne.
  destruct (self_demotion_users _ _ _ _ _ _ Hb1 Hc2) as [Hu2 _].
  split.
  - apply count_where_zero. intros j u Hj. rewrite Hu2, Hu1 in Hj.
    apply lookup_insert_Some in Hj as [[-> <-]|[Hjb' Hj]]; [done|]. apply lookup_insert_Some in Hj as [[-> <-]|[Hja' Hj]]; [done|].
    destruct (active_admin u) eqn:Hact; [|done]. destruct (Honly _ _ Hj Hact); by subst.
  - unfold ChangePersonRole at 2. cbn [negb mem]. rewrite (proj2 (mem_true _ _)) by (by right; left). cbn [negb].
    rewrite reread_snd. pose proof (mutatePerson_halves (self_demotion a now p) now d ta d1 Hda Hc1) as Hh.
    cbn [pc_actor pc_target pc_event pc_mutation self_demotion] in Hh. rewrite Hh.
    apply second_demotion_refused with tb; [|done|].
    + unfold join_user in Hjb |- *. by rewrite Hi1, Hb1, <- Hb.
    + apply count_where_zero. intros j u Hj. rewrite Hu1 in Hj. apply lookup_insert_Some in Hj as [[-> <-]|[Hja' Hj]]; [done|].
      destruct (active_admin u) eqn:Hact; [|done]. destruct (Honly _ _ Hj Hact) as [->| ->]; [done|].
      by rewrite bool_decide_eq_true_2.
Qed.
