(* ===== verification/IdentitySchema.v ===== *)
(** Well-formed identity tables. The constraints hold in every state the operations reach: the
    checks of identity.api_keys with its unique keys, and those of identity.local_users.
    Beyond the constraints, each row carries what its state means. *)
From S2P Require Import Prelude Json IdentityActions IdentityData IdentityStore IdentityFlows IdentityJourneys IdentitySession IdentityPeople IdentityFacts Authority AuthorityFacts IdentityMachine.

(** * The tables *)
Definition key_ok (r : ApiKeyRow) : Prop :=
  api_key_checks r = true ∧ (ak_Epoch r = AuthorityEpochV2 → ak_Scope r = None).
Definition keys_table (t : gmap uuid ApiKeyRow) : Prop :=
  (∀ k r, t !! k = Some r → key_ok r) ∧
  ∀ k k' r r', t !! k = Some r → t !! k' = Some r' → k ≠ k' →
    ak_KeyHash r ≠ ak_KeyHash r' ∧ same_live_family r r' = false.
Definition users_table (d : IdentityDB) : Prop :=
  (∀ k u, local_users d !! k = Some u → role_check d (lu_Role u) = true ∧ locale_check (lu_Locale u) = true) ∧
  ∀ k k' u u', local_users d !! k = Some u → local_users d !! k' = Some u' → k ≠ k' →
    lu_Email u ≠ lu_Email u' ∧ lu_EmailNormalized u ≠ lu_EmailNormalized u'.
Definition schema (d : IdentityDB) : Prop := keys_table (api_keys d) ∧ users_table d.

(** An update that leaves the constrained columns alone and never revives a version. *)
Definition harmless (r r' : ApiKeyRow) : Prop :=
  api_key_checks r' = api_key_checks r ∧ ak_KeyHash r' = ak_KeyHash r ∧ ak_Scope r' = ak_Scope r ∧
  ak_Epoch r' = ak_Epoch r ∧ ak_FamilyID r' = ak_FamilyID r ∧
  (live_status (ak_Status r') = true → live_status (ak_Status r) = true).
Lemma harmless_refl r : harmless r r.
Proof. by split_and!. Qed.
Lemma family_harmless r s r' s' :
  harmless r r' → harmless s s' → same_live_family r s = false → same_live_family r' s' = false.
Proof.
  intros (_ & _ & _ & _ & Hf & Hl) (_ & _ & _ & _ & Hf' & Hl') Hs. unfold same_live_family in *. rewrite Hf, Hf'.
  destruct (live_status (ak_Status r')); [|done]. destruct (live_status (ak_Status s')); [|done].
  by rewrite Hl, Hl' in Hs.
Qed.
Lemma family_sym r s : same_live_family r s = same_live_family s r.
Proof.
  unfold same_live_family. destruct (decide (ak_FamilyID r = ak_FamilyID s)) as [He|Hne].
  - rewrite He. by destruct (live_status (ak_Status r)), (live_status (ak_Status s)).
  - rewrite (bool_decide_eq_false_2 _ Hne), (bool_decide_eq_false_2 (ak_FamilyID s = _)) by congruence. by rewrite !andb_false_r.
Qed.
Lemma keys_pointwise t t' :
  keys_table t → (∀ k r', t' !! k = Some r' → ∃ r, t !! k = Some r ∧ harmless r r') → keys_table t'.
Proof.
  intros [Hr Hu] Hp. split.
  - intros k r' Hk. destruct (Hp _ _ Hk) as (r & Hk' & Hc & _ & Hs & He & _). destruct (Hr _ _ Hk') as [H1 H2].
    split; [by rewrite Hc|]. rewrite He, Hs. exact H2.
  - intros k k' r' s' Hk Hk' Hne. destruct (Hp _ _ Hk) as (r & H1 & Hh), (Hp _ _ Hk') as (s & H2 & Hh').
    destruct (Hu _ _ _ _ H1 H2 Hne) as [Hha Hf]. split; [|by eapply family_harmless].
    destruct Hh as (_ & -> & _), Hh' as (_ & -> & _). done.
Qed.
Lemma keys_update P f t : keys_table t → (∀ r, harmless r (f r)) → keys_table (update_where P f t).
Proof.
  intros Ht Hf. eapply keys_pointwise; [exact Ht|]. intros k r' Hk. rewrite lookup_update_where in Hk.
  destruct (t !! k) as [r|]; [|done]. injection Hk as <-. exists r. split; [done|].
  destruct (P k r); [apply Hf|apply harmless_refl].
Qed.
Lemma keys_put k r r' t : keys_table t → t !! k = Some r → harmless r r' → keys_table (<[k := r']> t).
Proof.
  intros Ht Hk Hh. eapply keys_pointwise; [exact Ht|]. intros j s [[-> <-]|[Hne Hj]]%lookup_insert_Some; [by exists r|].
  exists s. split; [done|apply harmless_refl].
Qed.
Lemma keys_alter f k t : keys_table t → (∀ r, harmless r (f r)) → keys_table (alter f k t).
Proof.
  intros Ht Hf. eapply keys_pointwise; [exact Ht|]. intros j s Hj. apply lookup_alter_Some in Hj as [(-> & r & Hj & ->)|[_ Hj]];
    [by exists r|]. exists s. split; [done|apply harmless_refl].
Qed.
Lemma keys_store k r t :
  keys_table t → key_ok r →
  (∀ k' r', t !! k' = Some r' → k' ≠ k → ak_KeyHash r' ≠ ak_KeyHash r ∧ same_live_family r r' = false) →
  keys_table (<[k := r]> t).
Proof.
  intros [Hr Hu] Hk Hn. split.
  - intros j s [[-> <-]|[_ Hj]]%lookup_insert_Some; [done|by eapply Hr].
  - intros j j' s s' [[-> <-]|[Hj1 Hj]]%lookup_insert_Some [[-> <-]|[Hj2 Hj']]%lookup_insert_Some Hne; [done|..].
    + destruct (Hn _ _ Hj') as [? ?]; [done|]. split; [by apply not_eq_sym|done].
    + destruct (Hn _ _ Hj) as [? ?]; [done|]. split; [done|]. by rewrite family_sym.
    + by eapply Hu.
Qed.
Lemma harmless_suspended reason r : harmless r (with_suspended reason r).
Proof. by split_and!. Qed.
Lemma harmless_revocation now reason r : harmless r (with_revocation now reason r).
Proof. by split_and!. Qed.
Lemma harmless_revoked now r : harmless r (with_revoked now r).
Proof. by split_and!. Qed.
Lemma harmless_last_used now r : harmless r (with_last_used now r).
Proof. by split_and!. Qed.
#[export] Hint Resolve harmless_suspended harmless_revocation harmless_revoked harmless_last_used : iterabase.

Lemma users_pointwise d d' :
  users_table d → (∀ role, role_check d role = true → role_check d' role = true) →
  (∀ k u', local_users d' !! k = Some u' → ∃ u, local_users d !! k = Some u ∧ lu_Email u' = lu_Email u ∧
     lu_EmailNormalized u' = lu_EmailNormalized u ∧ lu_Role u' = lu_Role u ∧ lu_Locale u' = lu_Locale u) →
  users_table d'.
Proof.
  intros [Hr Hu] Hrole Hp. split.
  - intros k u' Hk. destruct (Hp _ _ Hk) as (u & Hk' & _ & _ & -> & ->). destruct (Hr _ _ Hk'). split; [by apply Hrole|done].
  - intros k k' u' v' Hk Hk' Hne. destruct (Hp _ _ Hk) as (u & H1 & -> & -> & _), (Hp _ _ Hk') as (v & H2 & -> & -> & _).
    by eapply Hu.
Qed.
Lemma users_update P f d :
  users_table d → (∀ u, lu_Email (f u) = lu_Email u ∧ lu_EmailNormalized (f u) = lu_EmailNormalized u ∧
     lu_Role (f u) = lu_Role u ∧ lu_Locale (f u) = lu_Locale u) →
  users_table (put_users (update_where P f (local_users d)) d).
Proof.
  intros Ht Hf. eapply users_pointwise; [exact Ht|done|]. intros k u' Hk. cbn in Hk. rewrite lookup_update_where in Hk.
  destruct (local_users d !! k) as [u|]; [|done]. injection Hk as <-. exists u. split; [done|]. by destruct (P k u).
Qed.
Lemma users_store k u d :
  users_table d → role_check d (lu_Role u) = true → locale_check (lu_Locale u) = true →
  (∀ k' u', local_users d !! k' = Some u' → k' ≠ k → lu_Email u' ≠ lu_Email u ∧ lu_EmailNormalized u' ≠ lu_EmailNormalized u) →
  users_table (put_users (<[k := u]> (local_users d)) d).
Proof.
  intros [Hr Hu] Hrole Hloc Hn. split; cbn.
  - intros j v [[-> <-]|[_ Hj]]%lookup_insert_Some; [done|by eapply Hr].
  - intros j j' v v' [[-> <-]|[Hj1 Hj]]%lookup_insert_Some [[-> <-]|[Hj2 Hj']]%lookup_insert_Some Hne; [done|..].
    + destruct (Hn _ _ Hj') as [? ?]; [done|]. split; by apply not_eq_sym.
    + by destruct (Hn _ _ Hj).
    + by eapply Hu.
Qed.

(** * The operations *)
Section schema_ops.
Context (sha256hex ToLower : string → string) (HashPassword : string → option string).
Notation exec := (exec sha256hex ToLower HashPassword).

(** [keep] closes the goal when the accounts and the keys are those of the hypothesis, one of
    them possibly stored or updated in bulk. *)
Ltac keep_users Hu d :=
  first
  [ exact Hu
  | match goal with |- users_table ?X => match X with context [put_users (<[?k := ?u]> _) _] =>
      change (users_table (put_users (<[k := u]> (local_users d)) d)); apply users_store; [exact Hu|assumption..] end end
  | match goal with |- users_table ?X => match X with context [put_users (update_where ?P ?f _) _] =>
      change (users_table (put_users (update_where P f (local_users d)) d)); by apply users_update end end ].
Ltac keep_keys Hk :=
  cbn [api_keys put_keys put_users put_identities put_mappings put_history put_requests put_outbox put_links put_sessions
       put_events put_throttle put_marker put_authority put_acl];
  first
  [ exact Hk
  | apply keys_store; [exact Hk|by split|assumption]
  | eapply keys_put; [exact Hk|eassumption|auto with iterabase]
  | repeat (apply keys_update; [|auto with iterabase]); exact Hk
  | apply keys_alter; [exact Hk|auto with iterabase] ].
Ltac keep Hk Hu d := split; [keep_keys Hk|keep_users Hu d].
Lemma map_all_keys_table opts d0 l d n d' :
  keys_table (api_keys d) → map_all opts d0 l d = inr (n, d') → keys_table (api_keys d').
Proof.
  revert d n. induction l as [|[id r] l IH]; intros d n Hk H; cbn in H; [by id_inv|].
  apply tx_bind_inr in H as (a & d1 & H1 & H). apply tx_bind_inr in H as (b & d2 & H2 & H). inv_tx.
  eapply IH; [|exact H2]. clear H2. unfold map_one, map_credential in H1. id_inv; keep_keys Hk.
Qed.
Lemma schema_cutover opts pf p d a d' :
  schema d → cutover_tx ToLower opts pf p d = inr (a, d') → schema d'.
Proof.
  intros [Hk Hu] [(_ & -> & _)|(? & n & d3 & acl & au & ev & _ & He & _ & Hro & H1 & _ & Hv2 & ->)]%cutover_inr; [by split|].
  split.
  - apply map_all_keys_table in H1; [keep_keys H1|]. unfold withdrawn. keep_keys Hk.
  - apply map_all_keys in H1 as [t ->]. destruct Hu as [Hrows Huniq]. split; cbn.
    + intros k u Hku. split.
      * unfold role_check. cbn. rewrite Hv2. cbn. rewrite andb_false_r, orb_false_r. apply mem_true.
        eapply (proj1 (Forall_forall _ _) Hro). unfold rows. apply list_elem_of_fmap. exists (k, u).
        split; [done|]. by apply elem_of_map_to_list.
      * rewrite lookup_update_where in Hku. destruct (local_users d !! k) as [v|] eqn:Hv; [|done]. injection Hku as <-.
        destruct (Hrows k v Hv). by destruct (legacy_role k v).
    + intros k k' u u' Hku Hku' Hne. rewrite lookup_update_where in Hku, Hku'.
      destruct (local_users d !! k) as [v|] eqn:Hv; [|done]. destruct (local_users d !! k') as [v'|] eqn:Hv'; [|done].
      injection Hku as <-. injection Hku' as <-. destruct (Huniq _ _ _ _ Hv Hv' Hne).
      by destruct (legacy_role k v), (legacy_role k' v').
Qed.
Lemma schema_op op d : schema d → schema (exec op d).
Proof.
  intros [Hk Hu]. destruct op; cbn [IdentityMachine.exec].
  all: try (apply run_tx_inv; [by split|]; intros ? ? ?).
  all: open_op.
  all: try (id_inv; keep Hk Hu d; fail).
  - unfold ReplaceExternalMappings in *. inv_tx.
    refine (tx_iter_preserves (λ a b, schema a → schema b) _ _ _ _ _ _ _ _ H _); [done|auto| |by split].
    intros b x y [] _ Hb [Hk' Hu']. unfold insert_binding in Hb. id_inv. keep Hk' Hu' x.
  - unfold BootstrapAdmin, recoverAdminTx, createFreshBootstrapTx, createSetupPendingAdminTx in *. id_inv; keep Hk Hu d.
  - unfold ResolveBrowserSessionWithNetwork. destruct (bool_decide _); [by split|].
    destruct (find_row _ _) as [[id s]|]; [|by split].
    assert (∀ reason, schema (terminate (join_session d id s) now reason d)) as Ht.
    { intros reason. unfold terminate, RevokeSession, RevokeSessionWithAudit. apply run_tx_inv; [by split|]. intros. id_inv; keep Hk Hu d. }
    repeat (case_match; [first [by split|apply Ht]|]).
    destruct (coalesceSessionActivity _ _ _ _ _) as [b' d'] eqn:Hc. cbn. unfold coalesceSessionActivity in Hc.
    repeat case_match; simplify_eq; match goal with Hu : users_table ?x |- _ => keep Hk Hu x end.
  - unfold ResolveCredential. destruct (_ ≫= _) as [c|]; [|by split]. destruct (cr_Eligible c); [|by split].
    destruct stamped; [|by split]. cbn. unfold touchCredentialLastUse. keep Hk Hu d.
  - unfold ChangePersonRole. destruct (negb _); [by split|]. rewrite reread_snd. apply mutatePerson_inv; [by split|done|].
    intros target b d1 r d' [Hl _]%join_user_Some _ _ Hw. cbn in Hw.
    unfold update_user, suspendAdminOnlyCredentialsTx, suspendOwnedAutomationTx in Hw. id_inv; keep Hk Hu d.
  - unfold DisablePerson. rewrite reread_snd. apply mutatePerson_inv; [by split|done|].
    intros target b d1 r d' [Hl _]%join_user_Some _ _ Hw. cbn in Hw.
    unfold update_user, suspendAllCredentialsTx in Hw. id_inv; keep Hk Hu d.
  - unfold EnablePerson. rewrite reread_snd. apply mutatePerson_inv; [by split|done|].
    intros target b d1 r d' [Hl _]%join_user_Some _ _ Hw. cbn in Hw.
    unfold update_user in Hw. id_inv; keep Hk Hu d.
  - unfold RevokePersonSessions. apply mutatePerson_inv; [by split|done|].
    intros target b d1 r d' _ _ _ Hw. cbn in Hw. id_inv; keep Hk Hu d.
  - by eapply schema_cutover.
Qed.
Lemma schema_run ops d : schema d → schema (exec_all sha256hex ToLower HashPassword ops d).
Proof. revert d. induction ops as [|op ops IH]; intros d Hd; [done|]. cbn. by apply IH, schema_op. Qed.
End schema_ops.

(** * What the state of a row says

    None of this is a constraint of the tables: the operations keep it. *)
Definition user_typed (u : LocalUserRow) : Prop :=
  (lu_Status u = LocalUserSetupPending → lu_PasswordHash u = None) ∧
  (is_Some (lu_PasswordHash u) ↔ is_Some (lu_PasswordChangedAt u)).
Definition unreviewed (r : AccessRequest) : Prop :=
  ar_ReviewedBy r = None ∧ ar_ReviewedAt r = None ∧ ar_ApprovedIdentityID r = None ∧ ar_ApprovedRole r = None.
Definition reviewed (r : AccessRequest) : Prop :=
  is_Some (ar_VerifiedAt r) ∧ is_Some (ar_ReviewedBy r) ∧ is_Some (ar_ReviewedAt r).
Definition request_typed (accounts : gset uuid) (k : uuid) (r : AccessRequest) : Prop :=
  ar_ID r = k ∧
  match ar_State r with
  | AccessRequestVerificationPending | AccessRequestExpired => ar_VerifiedAt r = None ∧ unreviewed r
  | AccessRequestApprovalPending => is_Some (ar_VerifiedAt r) ∧ unreviewed r
  | AccessRequestApproved =>
      reviewed r ∧ ∃ i role, ar_ApprovedIdentityID r = Some i ∧ i ∈ accounts ∧ ar_ApprovedRole r = Some role ∧ role ∈ [RoleOperator; RoleAdmin]
  | AccessRequestDeclined => reviewed r ∧ ar_ApprovedIdentityID r = None ∧ ar_ApprovedRole r = None
  end.
Definition outbox_typed (o : OutboxRow) : Prop :=
  match ob_State o with
  | AuthEmailPending =>
      ob_LeaseOwner o = None ∧ ob_LeasedUntil o = None ∧ ob_AcceptedAt o = None ∧ ob_OutcomeUnknownAt o = None ∧ ob_TerminalAt o = None
  | AuthEmailLeased =>
      is_Some (ob_LeaseOwner o) ∧ is_Some (ob_LeasedUntil o) ∧ ob_AcceptedAt o = None ∧ ob_OutcomeUnknownAt o = None ∧ ob_TerminalAt o = None
  | AuthEmailAccepted => is_Some (ob_AcceptedAt o) ∧ ob_OutcomeUnknownAt o = None ∧ is_Some (ob_TerminalAt o)
  | AuthEmailOutcomeUnknown => ob_AcceptedAt o = None ∧ is_Some (ob_OutcomeUnknownAt o) ∧ is_Some (ob_TerminalAt o)
  | AuthEmailFailed => ob_AcceptedAt o = None ∧ ob_OutcomeUnknownAt o = None ∧ is_Some (ob_TerminalAt o)
  end.
Definition session_typed (s : SessionRow) : Prop := is_Some (bs_TerminatedAt s) ↔ is_Some (bs_TerminationReason s).
Definition cred_typed (accounts : gset uuid) (r : ApiKeyRow) : Prop :=
  (ak_Epoch r = AuthorityEpochV2 → ∃ o, ak_Owner r = Some o ∧ o ∈ accounts) ∧
  (ak_Status r = KeySuspended → is_Some (ak_SuspensionReason r)) ∧
  (ak_Status r = KeyRevoked → is_Some (ak_RevokedAt r) ∧ is_Some (ak_RevocationReason r)).
Record well_typed (d : IdentityDB) : Prop := mkTyped {
  ty_users : map_Forall (λ _, user_typed) (local_users d);
  ty_requests : map_Forall (request_typed (dom (local_users d))) (access_requests d);
  ty_outbox : map_Forall (λ _, outbox_typed) (auth_email_outbox d);
  ty_sessions : map_Forall (λ _, session_typed) (browser_sessions d);
  ty_creds : map_Forall (λ _, cred_typed (dom (local_users d))) (api_keys d) }.

Lemma Forall_update {R} (Q : uuid → R → Prop) P f (t : gmap uuid R) :
  map_Forall Q t → (∀ k r, t !! k = Some r → Q k r → P k r = true → Q k (f r)) → map_Forall Q (update_where P f t).
Proof.
  intros Ht Hf k r' Hk. rewrite lookup_update_where in Hk. destruct (t !! k) as [r|] eqn:Hr; [|done]. injection Hk as <-.
  specialize (Ht k r Hr). destruct (P k r) eqn:HP; [by apply Hf|done].
Qed.
Lemma Forall_delete {R} (Q : uuid → R → Prop) P (t : gmap uuid R) : map_Forall Q t → map_Forall Q (delete_where P t).
Proof. intros Ht k r [Hk _]%map_lookup_filter_Some. by apply Ht. Qed.
Lemma Forall_alter {R} (Q : uuid → R → Prop) f i (t : gmap uuid R) :
  map_Forall Q t → (∀ k r, t !! k = Some r → Q k r → Q k (f r)) → map_Forall Q (alter f i t).
Proof.
  intros Ht Hf k r' Hk. apply lookup_alter_Some in Hk as [(-> & r & Hr & ->)|[_ Hk]]; [|by apply Ht]. apply Hf; [done|by apply Ht].
Qed.
Lemma dom_update {R} P f (t : gmap uuid R) : dom (update_where P f t) = dom t.
Proof.
  apply set_eq. intros k. rewrite !elem_of_dom, lookup_update_where. destruct (t !! k); cbn; [|done]. split; intros _; by eexists.
Qed.
Lemma requests_mono (A B : gset uuid) (t : gmap uuid AccessRequest) : A ⊆ B → map_Forall (request_typed A) t → map_Forall (request_typed B) t.
Proof.
  intros HA Ht k r Hr. destruct (Ht k r Hr) as [Hi Hs]. split; [done|]. destruct (ar_State r); try done.
  destruct Hs as (? & i & role & ? & ? & ?). split; [done|]. exists i, role. set_solver.
Qed.
Lemma creds_mono (A B : gset uuid) (t : gmap uuid ApiKeyRow) : A ⊆ B → map_Forall (λ _, cred_typed A) t → map_Forall (λ _, cred_typed B) t.
Proof. intros HA Ht k r Hr. destruct (Ht k r Hr) as (Ho & ? & ?). split_and!; [|done|done]. intros He. destruct (Ho He) as (o & ? & ?). set_solver. Qed.

Create HintDb typed discriminated.
Lemma typed_email e n r p u : user_typed u → user_typed (with_email_role e n r p u).
Proof. done. Qed.
Lemma typed_new e n dn r l rq p : user_typed (new_user e n dn r l rq p).
Proof. split; [done|]. by split; intros []. Qed.
Lemma typed_activation h dn l n p u : user_typed (with_activation h dn l n p u).
Proof. split; [done|]. cbn. split; intros _; by eexists. Qed.
Lemma typed_password h n p u : lu_Status u = LocalUserActive → user_typed (with_password h n p u).
Proof. intros Hs. split; cbn; [by rewrite Hs|]. split; intros _; by eexists. Qed.
Lemma typed_setup e n l p u : user_typed (with_setup_pending e n l p u).
Proof. split; [done|]. cbn. by split; intros []. Qed.
Lemma typed_recovered l n p u : user_typed (with_recovered l n p u).
Proof. split; [done|]. cbn. by split; intros []. Qed.
Lemma typed_role r a n p u : user_typed u → user_typed (with_role r a n p u).
Proof. done. Qed.
Lemma typed_disabled a n p u : user_typed u → user_typed (with_status LocalUserDisabled a n p u).
Proof. intros [_ ?]. by split. Qed.
Lemma typed_enabled a n p u : user_typed u → user_typed (with_status LocalUserActive a n p u).
Proof. intros [_ ?]. by split. Qed.
Lemma typed_unlinked p u : user_typed u → user_typed (without_request p u).
Proof. done. Qed.
Lemma typed_profile dn l p u : user_typed u → user_typed (with_profile dn l p u).
Proof. done. Qed.
Lemma typed_rewritten n p u : user_typed u → user_typed (with_operator_role n p u).
Proof. done. Qed.
#[export] Hint Resolve typed_email typed_new typed_activation typed_password typed_setup typed_recovered typed_role typed_disabled
  typed_enabled typed_unlinked typed_profile typed_rewritten : typed.
Lemma typed_request A k de no l p c : request_typed A k (mkRequest k de no l AccessRequestVerificationPending None None None None None None p c).
Proof. by split_and!. Qed.
Lemma typed_verified A k n r : ar_State r = AccessRequestVerificationPending → request_typed A k r → request_typed A k (with_verified n r).
Proof. intros Hs [? Ht]. rewrite Hs in Ht. split; [done|]. cbn. split; [by eexists|apply Ht]. Qed.
Lemma typed_approved (A : gset uuid) k i role rv n r :
  ar_State r = AccessRequestApprovalPending → i ∈ A → role ∈ [RoleOperator; RoleAdmin] → request_typed A k r → request_typed A k (with_approved i role rv n r).
Proof.
  intros Hs Hi Hrole [? Ht]. rewrite Hs in Ht. split; [done|]. cbn. split; [split_and!; [apply Ht|by eexists|by eexists]|]. by exists i, role.
Qed.
Lemma typed_declined A k rv n r : ar_State r = AccessRequestApprovalPending → request_typed A k r → request_typed A k (with_declined rv n r).
Proof.
  intros Hs [? Ht]. rewrite Hs in Ht. split; [done|]. cbn. destruct Ht as (? & _ & _ & ? & ?). split_and!; [|done|done].
  split_and!; [done|by eexists|by eexists].
Qed.
Lemma typed_expired A k n r : ar_State r = AccessRequestVerificationPending → request_typed A k r → request_typed A k (with_expired n r).
Proof. intros Hs [? Ht]. rewrite Hs in Ht. by split. Qed.
#[export] Hint Resolve typed_request typed_verified typed_approved typed_declined typed_expired : typed.
Lemma typed_queued pu e i q l p : outbox_typed (mkOutbox pu e i q l AuthEmailPending 0 None None None None None None p).
Proof. by split_and!. Qed.
Lemma typed_lease w t o : ob_State o = AuthEmailPending → outbox_typed o → outbox_typed (with_lease w t o).
Proof. unfold outbox_typed. intros ->. cbn. intros (_ & _ & ? & ? & ?). split_and!; by eauto. Qed.
Lemma typed_unknown n o : ob_State o = AuthEmailLeased → outbox_typed o → outbox_typed (with_unknown n o).
Proof. unfold outbox_typed. intros ->. cbn. intros (_ & _ & ? & _). split_and!; by eauto. Qed.
Lemma typed_finished st e n o : outbox_terminal st = true → outbox_typed (with_finished st e n o).
Proof. unfold outbox_typed. destruct st; try done; intros _; cbn; split_and!; by eauto. Qed.
Lemma typed_retry e o : outbox_terminal (ob_State o) = false → outbox_typed o → outbox_typed (with_retry e o).
Proof. unfold outbox_typed. destruct (ob_State o); try done; intros _; cbn; naive_solver. Qed.
#[export] Hint Resolve typed_queued typed_lease typed_unknown typed_finished typed_retry : typed.
Lemma typed_session th i c ca la ie ae rp ci li co re b o de : session_typed (mkSession th i c ca la ie ae rp None None ci li co re b o de).
Proof. by split; intros []. Qed.
Lemma typed_activity n i w s : session_typed s → session_typed (with_activity n i w s). Proof. done. Qed.
Lemma typed_csrf h s : session_typed s → session_typed (with_csrf h s). Proof. done. Qed.
Lemma typed_recent n s : session_typed s → session_typed (with_recent_password n s). Proof. done. Qed.
Lemma typed_no_network s : session_typed s → session_typed (without_network s). Proof. done. Qed.
Lemma typed_terminated n r s : session_typed (with_terminated n r s).
Proof. split; intros _; by eexists. Qed.
#[export] Hint Resolve typed_session typed_activity typed_csrf typed_recent typed_no_network typed_terminated : typed.
Lemma typed_legacy A i h p n sc x pg : cred_typed A (legacy_key i h p n sc x pg).
Proof. by split_and!. Qed.
Lemma typed_credential (A : gset uuid) q h p x f pg : cp_OwnerIdentity q ∈ A → cred_typed A (credential_row q h p x f pg).
Proof. intros Ho. split_and!; [|done|done]. intros _. by eexists. Qed.
Lemma typed_mapping (A : gset uuid) id sp r : ms_ownerID sp ∈ A → cred_typed A (with_mapping id sp r).
Proof. intros Ho. split_and!; [|done|done]. intros _. by eexists. Qed.
Lemma typed_revoked A n r : cred_typed A r → cred_typed A (with_revoked n r).
Proof. intros (? & ? & Hr). split_and!; [done|done|]. intros Hs. destruct (Hr Hs). split; [by eexists|done]. Qed.
Lemma typed_last_used A n r : cred_typed A r → cred_typed A (with_last_used n r). Proof. done. Qed.
Lemma typed_revocation A n re r : cred_typed A r → cred_typed A (with_revocation n re r).
Proof. intros (? & _ & _). split_and!; [done|done|]. intros _. split; by eexists. Qed.
Lemma typed_suspended A re r : cred_typed A r → cred_typed A (with_suspended re r).
Proof. intros (? & _ & _). split_and!; [done| |done]. intros _. by eexists. Qed.
#[export] Hint Resolve typed_legacy typed_credential typed_mapping typed_revoked typed_last_used typed_revocation typed_suspended : typed.

Lemma typed_self A k r : request_typed A k r → request_typed A (ar_ID r) r.
Proof. by intros [? ?]. Qed.
Lemma dom_grows {R} k u (t : gmap uuid R) : dom t ⊆ dom (<[k := u]> t).
Proof. rewrite dom_insert_L. apply union_subseteq_r. Qed.
Lemma dom_kept {R} P f (t : gmap uuid R) : dom t ⊆ dom (update_where P f t).
Proof. by rewrite dom_update. Qed.
Lemma dom_new {R} k (u : R) (t : gmap uuid R) : k ∈ dom (<[k := u]> t).
Proof. rewrite dom_insert_L. apply elem_of_union_l, elem_of_singleton. done. Qed.
Lemma dom_row {R} k (u : R) (t : gmap uuid R) : t !! k = Some u → k ∈ dom t.
Proof. intros H. by eapply elem_of_dom_2. Qed.
#[export] Hint Resolve dom_new dom_row : typed.
Lemma claimable_pending skipped limit d k o :
  bool_decide (k ∈ claimable skipped limit d) = true → auth_email_outbox d !! k = Some o → ob_State o = AuthEmailPending.
Proof.
  intros Hk%bool_decide_eq_true Ho. unfold claimable in Hk. apply list_elem_of_fmap in Hk as ([k' o'] & -> & Hin).
  apply elem_of_take in Hin as (i & Hi & _). apply list_elem_of_lookup_2 in Hi. rewrite merge_sort_Permutation in Hi.
  apply list_elem_of_filter in Hi as [[Hs _] Hm%elem_of_map_to_list]. cbn in *. congruence.
Qed.
Lemma overdue_leased now o : lease_overdue now o = true → ob_State o = AuthEmailLeased.
Proof. unfold lease_overdue. rewrite andb_true_iff, bool_decide_eq_true. by intros [? _]. Qed.
Lemma overdue_pending d now k r : request_overdue d now k r = true → ar_State r = AccessRequestVerificationPending.
Proof. unfold request_overdue. rewrite !andb_true_iff, bool_decide_eq_true. by intros [[? _] _]. Qed.
#[export] Hint Resolve claimable_pending overdue_leased overdue_pending : typed.
Lemma queue_row fresh p a b c l pgnow d id d' :
  QueueAuthEmailTx fresh p a b c l pgnow d = inr (id, d') →
  d' = put_outbox (<[fresh := mkOutbox p a (nullString b) (nullString c) l AuthEmailPending 0 None None None None None None pgnow]> (auth_email_outbox d)) d.
Proof. unfold QueueAuthEmailTx. intros Hs. by inv_tx. Qed.
Lemma request_row r d u d' : store_request r d = inr (u, d') → d' = put_requests (<[ar_ID r := r]> (access_requests d)) d.
Proof. unfold store_request. intros Hs. by inv_tx. Qed.
Lemma request_found d o r : request_by_id d o = Some r → ∃ k, access_requests d !! k = Some r.
Proof. unfold request_by_id. intros (k & _ & Hk)%bind_Some. by exists k. Qed.

Section typed_ops.
Context (sha256hex ToLower : string → string) (HashPassword : string → option string).
Notation exec := (exec sha256hex ToLower HashPassword).
Ltac ty_step :=
  match goal with
  | H : QueueAuthEmailTx _ _ _ _ _ _ _ _ = inr (_, _) |- _ => apply queue_row in H; subst
  | H : store_request _ _ = inr (_, _) |- _ => apply request_row in H; subst
  end.
Ltac ty_inv := repeat first [ty_step | inv_tx_step | id_inv_step].
(** What is known of the rows at hand. *)
Ltac fact P pf := lazymatch goal with _ : P |- _ => fail | _ => pose proof (pf : P) end.
Ltac facts Hu Hr Ho Hs Hc :=
  repeat match goal with
  | H : bool_decide _ = true |- _ => apply bool_decide_eq_true in H
  | H : is_null _ = true |- _ => apply is_null_true in H
  | H : mem _ _ = true |- _ => apply mem_true in H
  | H : join_user _ _ _ = Some _ |- _ => apply join_user_Some in H as [? _]
  | H : request_by_id _ _ = Some _ |- _ => apply request_found in H as [? ?]
  | H : local_users _ !! ?k = Some ?u |- _ => fact (user_typed u) (Hu _ _ H)
  | H : access_requests _ !! ?k = Some ?u |- _ => let T := type of (typed_self _ _ _ (Hr _ _ H)) in fact T (typed_self _ _ _ (Hr _ _ H))
  | H : auth_email_outbox _ !! ?k = Some ?u |- _ => fact (outbox_typed u) (Ho _ _ H)
  | H : browser_sessions _ !! ?k = Some ?u |- _ => fact (session_typed u) (Hs _ _ H)
  | H : api_keys _ !! ?k = Some ?u |- _ => lazymatch type of Hc with map_Forall (λ _, cred_typed ?A) _ => fact (cred_typed A u) (Hc _ _ H) end
  end.
Ltac tables := cbn [local_users access_requests auth_email_outbox browser_sessions api_keys put_keys put_users put_identities put_mappings put_history put_requests put_outbox put_links put_sessions
       put_events put_throttle put_marker put_authority put_acl set_identity].
Ltac row := repeat case_match; eauto 3 with typed.
Ltac table H :=
  lazymatch goal with
  | |- map_Forall _ (<[_ := _]> _) => apply map_Forall_insert_2; [solve [row]|table H]
  | |- map_Forall _ (update_where _ _ _) => apply Forall_update; [table H|intros; solve [row]]
  | |- map_Forall _ (alter _ _ _) => apply Forall_alter; [table H|intros; solve [row]]
  | |- map_Forall _ (delete_where _ _) => apply Forall_delete; table H
  | |- map_Forall _ _ => exact H
  end.
Ltac grows := first [reflexivity | apply dom_grows | apply dom_kept].
Ltac typed Hu Hr Ho Hs Hc :=
  split; tables;
  lazymatch goal with
  | |- map_Forall (request_typed ?B) _ =>
      let H := fresh "HrB" in
      assert (map_Forall (request_typed B) _) as H by (eapply requests_mono; [|exact Hr]; grows); facts Hu H Ho Hs Hc; table H
  | |- map_Forall (λ _, cred_typed ?B) _ =>
      let H := fresh "HcB" in
      assert (map_Forall (λ _, cred_typed B) _) as H by (eapply creds_mono; [|exact Hc]; grows); facts Hu Hr Ho Hs H; table H
  | |- map_Forall (λ _, user_typed) _ => facts Hu Hr Ho Hs Hc; table Hu
  | |- map_Forall (λ _, outbox_typed) _ => facts Hu Hr Ho Hs Hc; table Ho
  | |- map_Forall (λ _, session_typed) _ => facts Hu Hr Ho Hs Hc; table Hs
  end.
Lemma map_one_typed opts d0 id r d n d' :
  map_Forall (λ _, cred_typed (dom (local_users d0))) (api_keys d) → local_users d = local_users d0 →
  map_one opts d0 (id, r) d = inr (n, d') → map_Forall (λ _, cred_typed (dom (local_users d0))) (api_keys d').
Proof.
  intros Hc Hd H. unfold map_one in H. destruct (resolveLegacyMapping _ _ _) as [e|spec] eqn:Hspec; [destruct e; by inv_tx|].
  assert (∀ x d1, ms_ownerID spec ∈ dom (local_users d0) → map_credential id spec d = inr (x, d1) →
    map_Forall (λ _, cred_typed (dom (local_users d0))) (api_keys d1)) as Hmap.
  { intros x d1 Ho Hm. unfold map_credential in Hm. clear H. id_inv; tables; table Hc. }
  case_bool_decide as Hk.
  - destruct (humanOwnerIsMappable _); [|by inv_tx]. eapply Hmap; [|exact H].
    destruct (mapping_cases _ _ _ _ Hspec) as [(_ & _ & Hl & -> & _)|[Ha _]]; [|by rewrite Ha in Hk].
    apply elem_of_dom. unfold read_legacy in *. cbn in Hl |- *. by destruct (local_users d0 !! ak_IdentityID r).
  - inv_tx. eapply Hmap; [|eassumption]. apply elem_of_dom. rewrite <- Hd.
    match goal with Hq : default false (_ <$> ?o) = true |- _ => by destruct o end.
Qed.
Lemma map_all_typed opts d0 l d n d' :
  map_Forall (λ _, cred_typed (dom (local_users d0))) (api_keys d) → local_users d = local_users d0 →
  map_all opts d0 l d = inr (n, d') → map_Forall (λ _, cred_typed (dom (local_users d0))) (api_keys d').
Proof.
  revert d n. induction l as [|[id r] l IH]; intros d n Hc Hd H; cbn [map_all] in H; [by id_inv|].
  apply tx_bind_inr in H as (a & d1 & H1 & H). apply tx_bind_inr in H as (b & d2 & H2 & H). inv_tx.
  eapply IH; [by eapply map_one_typed| |exact H2]. by apply map_one_keys in H1 as [t ->].
Qed.
Lemma typed_cutover opts pf p d a d' : well_typed d → cutover_tx ToLower opts pf p d = inr (a, d') → well_typed d'.
Proof.
  intros [Hu Hr Ho Hs Hc] [(_ & -> & _)|(? & n & d3 & acl & au & ev & _ & _ & _ & _ & H1 & _ & _ & ->)]%cutover_inr; [by split|].
  assert (local_users d3 = local_users (rewritten opts p d) ∧ access_requests d3 = access_requests d ∧
    auth_email_outbox d3 = auth_email_outbox d ∧ browser_sessions d3 = browser_sessions d) as (E1 & E2 & E3 & E4)
    by by apply map_all_keys in H1 as [t ->].
  apply map_all_typed in H1; [|tables; apply Forall_update; [|intros; solve [row]]|done].
  - split; cbn; rewrite ?E1, ?E2, ?E3, ?E4; cbn; [table Hu|eapply requests_mono; [apply dom_kept|exact Hr]|exact Ho|exact Hs|].
    apply Forall_update; [exact H1|intros; solve [row]].
  - eapply creds_mono; [|exact Hc]. cbn. apply dom_kept.
Qed.
Lemma typed_op op d : well_typed d → well_typed (exec op d).
Proof.
  intros [Hu Hr Ho Hs Hc]. destruct op; cbn [IdentityMachine.exec].
  all: try (apply run_tx_inv; [by split|]; intros ? ? ?).
  all: open_op.
  all: [> try (solve [ty_inv; typed Hu Hr Ho Hs Hc]) ..].
  - unfold ReplaceExternalMappings in *. inv_tx.
    refine (tx_iter_preserves (λ a b, well_typed a → well_typed b) _ _ _ _ _ _ _ _ H _); [done|auto| |by split].
    intros b x y [] _ Hb Hx. unfold insert_binding in Hb. id_inv. by destruct Hx.
  - ty_inv. match goal with H : (_ ≫= _) = Some ?u |- _ => apply bind_Some in H as (u0 & Hu0 & H); destruct (default true _); [injection H as ->|done] end.
    typed Hu Hr Ho Hs Hc.
  - unfold BootstrapAdmin, recoverAdminTx, createFreshBootstrapTx, createSetupPendingAdminTx in *. ty_inv; typed Hu Hr Ho Hs Hc.
  - unfold ResolveBrowserSessionWithNetwork. destruct (bool_decide _); [by split|].
    destruct (find_row _ _) as [[id s]|]; [|by split].
    assert (∀ reason, well_typed (terminate (join_session d id s) now reason d)) as Ht.
    { intros reason. unfold terminate, RevokeSession, RevokeSessionWithAudit. apply run_tx_inv; [by split|]. intros. ty_inv; typed Hu Hr Ho Hs Hc. }
    repeat (case_match; [first [by split|apply Ht]|]).
    destruct (coalesceSessionActivity _ _ _ _ _) as [b' d'] eqn:Hco. cbn. unfold coalesceSessionActivity in Hco.
    repeat case_match; simplify_eq; typed Hu Hr Ho Hs Hc.
  - unfold ResolveCredential. destruct (_ ≫= _) as [c|]; [|by split]. destruct (cr_Eligible c); [|by split].
    destruct stamped; [|by split]. cbn. unfold touchCredentialLastUse. typed Hu Hr Ho Hs Hc.
  - unfold ChangePersonRole. destruct (negb _); [by split|]. rewrite reread_snd. apply mutatePerson_inv; [by split|by intros ? ? []|].
    intros target b d1 r d' [Hl _]%join_user_Some _ _ Hw. cbn in Hw.
    unfold update_user, suspendAdminOnlyCredentialsTx, suspendOwnedAutomationTx in Hw. ty_inv; typed Hu Hr Ho Hs Hc.
  - unfold DisablePerson. rewrite reread_snd. apply mutatePerson_inv; [by split|by intros ? ? []|].
    intros target b d1 r d' [Hl _]%join_user_Some _ _ Hw. cbn in Hw.
    unfold update_user, suspendAllCredentialsTx in Hw. ty_inv; typed Hu Hr Ho Hs Hc.
  - unfold EnablePerson. rewrite reread_snd. apply mutatePerson_inv; [by split|by intros ? ? []|].
    intros target b d1 r d' [Hl _]%join_user_Some _ _ Hw. cbn in Hw.
    unfold update_user in Hw. ty_inv; typed Hu Hr Ho Hs Hc.
  - unfold RevokePersonSessions. apply mutatePerson_inv; [by split|by intros ? ? []|].
    intros target b d1 r d' _ _ _ Hw. cbn in Hw. ty_inv; typed Hu Hr Ho Hs Hc.
  - by eapply typed_cutover.
Qed.
Lemma typed_run ops d : well_typed d → well_typed (exec_all sha256hex ToLower HashPassword ops d).
Proof. revert d. induction ops as [|op ops IH]; intros d Hd; [done|]. cbn. by apply IH, typed_op. Qed.
(** C17. Rows carry what their state means, although no constraint of the tables asks for it.
    Over any sequence of identity operations, from tables where this holds: an account that
    waits for setup has no password, and a password has its date; an access request waits
    for verification, or has expired, without evidence of verification or review, waits for
    approval only with the verification, is approved or declined only with verification,
    reviewer and review time, and an approved one names an existing account and one of the
    two roles; an email intent has a lease exactly as leased or pending ask, and the
    timestamps of its outcome and no other; a session ended exactly if it has a reason; every
    V2 credential belongs to a person's account, a suspended one has its reason and a
    revoked one its time and reason. *)
Theorem identity_rows_well_typed ops d : well_typed d → well_typed (exec_all sha256hex ToLower HashPassword ops d).
Proof. apply typed_run. Qed.
End typed_ops.
