(* ===== verification/IdentityLinks.v ===== *)
(** One-time links: a link that was consumed or superseded is never claimed again, and a
    purpose and subject have at most one usable link; the authentication throttle. *)
From S2P Require Import Prelude Json IdentityActions IdentityData IdentityStore IdentityFlows IdentityJourneys IdentitySession IdentityPeople IdentityFacts Authority AuthorityFacts IdentityMachine.

(** * What operations do to links *)
(** A row that keeps its identity and is not made usable again. *)
Definition link_le (l l' : AuthLinkRow) : Prop :=
  al_TokenHash l' = al_TokenHash l ∧ al_Purpose l' = al_Purpose l ∧ al_AccessRequestID l' = al_AccessRequestID l ∧
  al_IdentityID l' = al_IdentityID l ∧ (link_unused l' = true → link_unused l = true).
Definition links_le (t t' : gmap uuid AuthLinkRow) : Prop :=
  ∀ k l', t' !! k = Some l' → ∃ l, t !! k = Some l ∧ link_le l l'.
Lemma link_le_refl l : link_le l l.
Proof. by split_and!. Qed.
Lemma links_le_refl t : links_le t t.
Proof. intros k l Hl. exists l. split; [done|apply link_le_refl]. Qed.
Lemma links_le_trans t1 t2 t3 : links_le t1 t2 → links_le t2 t3 → links_le t1 t3.
Proof.
  intros H1 H2 k l3 Hl. destruct (H2 _ _ Hl) as (l2 & Hl2 & H). destruct (H1 _ _ Hl2) as (l1 & Hl1 & H').
  exists l1. split; [done|]. unfold link_le in *. destruct H as (-> & -> & -> & -> & Hu), H' as (-> & -> & -> & -> & Hu').
  split_and!; auto.
Qed.
Lemma links_update P f t : (∀ l, link_le l (f l)) → links_le t (update_where P f t).
Proof.
  intros Hf k l' Hl. rewrite lookup_update_where in Hl. destruct (t !! k) as [l|]; [|done]. injection Hl as <-.
  exists l. split; [done|]. destruct (P k l); [apply Hf|apply link_le_refl].
Qed.
Lemma links_consume k l now t : t !! k = Some l → links_le t (<[k := with_consumed now l]> t).
Proof.
  intros Hk j l' [[-> <-]|[_ Hj]]%lookup_insert_Some; [|exists l'; split; [done|apply link_le_refl]].
  exists l. by split_and!.
Qed.
Lemma links_purge gone P t : links_le t (forget_outbox gone <$> delete_where P t).
Proof.
  intros k l' Hl. rewrite lookup_fmap in Hl. destruct (delete_where P t !! k) as [l|] eqn:Hd; [|done].
  apply lookup_delete_where in Hd as [Hk _]. injection Hl as <-. exists l. split; [done|]. unfold forget_outbox.
  by repeat case_match.
Qed.
Lemma invalidated_le now reason l : link_le l (with_invalidated now reason l).
Proof. split_and!; try done. unfold link_unused. cbn. by rewrite andb_false_r. Qed.
Section link_ops.
Context (sha256hex ToLower : string → string) (HashPassword : string → option string).
Notation exec := (exec sha256hex ToLower HashPassword).
Notation exec_all := (exec_all sha256hex ToLower HashPassword).

Ltac keep_links :=
  cbn [auth_link_tokens put_keys put_users put_identities put_mappings put_history put_requests put_outbox put_links put_sessions
       put_events put_throttle put_marker put_authority put_acl];
  first
  [ apply links_le_refl
  | apply links_purge
  | repeat (eapply links_le_trans; [|apply links_update; intros; apply invalidated_le]);
    first [apply links_le_refl | by apply links_consume ] ].
Definition mints (op : idop) : option string :=
  match op with OpCreateLink _ raw _ _ _ => Some raw | _ => None end.
Lemma links_op op d : mints op = None → links_le (auth_link_tokens d) (auth_link_tokens (exec op d)).
Proof.
  destruct op; try done; intros _; cbn [IdentityMachine.exec].
  all: try (apply (run_tx_inv (λ d', links_le (auth_link_tokens d) (auth_link_tokens d'))); [apply links_le_refl|]; intros ? ? ?).
  all: open_op.
  all: try (id_inv; keep_links; fail).
  - unfold ReplaceExternalMappings in *. inv_tx.
    refine (tx_iter_preserves (λ a b, links_le (auth_link_tokens a) (auth_link_tokens b)) _ _ _ _ _ _ _ _ H);
      [intros; apply links_le_refl|intros; by eapply links_le_trans|].
    intros b x y [] _ Hb. unfold insert_binding in Hb. id_inv. keep_links.
  - unfold BootstrapAdmin, recoverAdminTx, createFreshBootstrapTx, createSetupPendingAdminTx in *. id_inv; keep_links.
  - unfold ResolveBrowserSessionWithNetwork. destruct (bool_decide _); [apply links_le_refl|].
    destruct (find_row _ _) as [[id s]|]; [|apply links_le_refl].
    assert (∀ reason, links_le (auth_link_tokens d) (auth_link_tokens (terminate (join_session d id s) now reason d))) as Ht.
    { intros reason. unfold terminate, RevokeSession, RevokeSessionWithAudit.
      apply (run_tx_inv (λ d', links_le (auth_link_tokens d) (auth_link_tokens d'))); [apply links_le_refl|]. intros. id_inv; keep_links. }
    repeat (case_match; [first [apply links_le_refl|apply Ht]|]).
    destruct (coalesceSessionActivity _ _ _ _ _) as [b' d'] eqn:Hc. cbn. unfold coalesceSessionActivity in Hc.
    repeat case_match; simplify_eq; keep_links.
  - unfold ResolveCredential. destruct (_ ≫= _) as [c|]; [|apply links_le_refl]. destruct (cr_Eligible c); [|apply links_le_refl].
    destruct stamped; cbn; apply links_le_refl.
  - unfold ChangePersonRole. destruct (negb _); [apply links_le_refl|]. rewrite reread_snd.
    apply (mutatePerson_inv (λ d', links_le (auth_link_tokens d) (auth_link_tokens d'))); [apply links_le_refl|done|].
    intros target b d1 r d' _ _ _ Hw. cbn in Hw.
    unfold update_user, suspendAdminOnlyCredentialsTx, suspendOwnedAutomationTx in Hw. id_inv; keep_links.
  - unfold DisablePerson. rewrite reread_snd.
    apply (mutatePerson_inv (λ d', links_le (auth_link_tokens d) (auth_link_tokens d'))); [apply links_le_refl|done|].
    intros target b d1 r d' _ _ _ Hw. cbn in Hw. unfold update_user, suspendAllCredentialsTx in Hw. id_inv; keep_links.
  - unfold EnablePerson. rewrite reread_snd.
    apply (mutatePerson_inv (λ d', links_le (auth_link_tokens d) (auth_link_tokens d'))); [apply links_le_refl|done|].
    intros target b d1 r d' _ _ _ Hw. cbn in Hw. unfold update_user in Hw. id_inv; keep_links.
  - unfold RevokePersonSessions.
    apply (mutatePerson_inv (λ d', links_le (auth_link_tokens d) (auth_link_tokens d'))); [apply links_le_refl|done|].
    intros target b d1 r d' _ _ _ Hw. cbn in Hw. id_inv; keep_links.
  - match goal with H : cutover_tx _ _ _ _ _ = _ |- _ => apply cutover_inr in H as
      [(_ & -> & _)|(? & n & d3 & acl & au & ev & _ & _ & _ & _ & H1 & _ & _ & ->)] end; [apply links_le_refl|].
    apply map_all_keys in H1 as [t ->]. apply links_le_refl.
Qed.

(** * The table *)
Definition same_subject (l l' : AuthLinkRow) : Prop :=
  al_Purpose l = al_Purpose l' ∧
  (is_Some (al_AccessRequestID l) ∧ al_AccessRequestID l = al_AccessRequestID l' ∨
   is_Some (al_IdentityID l) ∧ al_IdentityID l = al_IdentityID l').
Definition links_table (t : gmap uuid AuthLinkRow) : Prop :=
  ∀ k k' l l', t !! k = Some l → t !! k' = Some l' → k ≠ k' →
    al_TokenHash l ≠ al_TokenHash l' ∧ (link_unused l = true → link_unused l' = true → ¬ same_subject l l').
Lemma links_table_le t t' : links_le t t' → links_table t → links_table t'.
Proof.
  intros Hle Ht k k' l l' Hk Hk' Hne. destruct (Hle _ _ Hk) as (m & Hm & H1), (Hle _ _ Hk') as (m' & Hm' & H2).
  destruct (Ht _ _ _ _ Hm Hm' Hne) as [Hh Hu]. unfold link_le in H1, H2. destruct H1 as (-> & P1 & R1 & I1 & U1), H2 as (-> & P2 & R2 & I2 & U2).
  split; [done|]. intros Hl Hl'. specialize (Hu (U1 Hl) (U2 Hl')). unfold same_subject in *. rewrite P1, P2, R1, R2, I1, I2. done.
Qed.
Lemma nullString_Some s x : nullString s = Some x → s = x ∧ s ≠ EmptyString.
Proof. unfold nullString. case_bool_decide; [done|]. by intros [= <-]. Qed.
Lemma same_subject_sym l l' : same_subject l l' → same_subject l' l.
Proof. unfold same_subject. intros [-> [[Hs He]|[Hs He]]]; rewrite He in *; auto. Qed.
(** A link stored beside rows of which it supersedes the usable ones. *)
Lemma links_store k l t :
  links_table t →
  (∀ j l', t !! j = Some l' → al_TokenHash l' ≠ al_TokenHash l ∧ (link_unused l' = true → ¬ same_subject l' l)) →
  links_table (<[k := l]> t).
Proof.
  intros Ht Hn j j' x x' [[-> <-]|[Hj1 Hj]]%lookup_insert_Some [[-> <-]|[Hj2 Hj']]%lookup_insert_Some Hne; [done|..].
  - destruct (Hn _ _ Hj') as [Hh Hs]. split; [by apply not_eq_sym|]. intros _ Hu Hss. by apply (Hs Hu), same_subject_sym.
  - destruct (Hn _ _ Hj) as [Hh Hs]. split; [done|]. intros Hu _. by apply Hs.
  - by eapply Ht.
Qed.
(** A new link supersedes the usable ones of its purpose and subject. *)
Lemma links_create fresh raw intent now pgnow d a d' :
  createAuthLinkTx sha256hex fresh raw intent now pgnow d = inr (a, d') → links_table (auth_link_tokens d) →
  links_table (auth_link_tokens d') ∧
  ∃ t l, auth_link_tokens d' = <[fresh := l]> t ∧ links_le (auth_link_tokens d) t ∧ al_TokenHash l = link_hash sha256hex raw.
Proof.
  intros H Ht. unfold createAuthLinkTx in H. id_inv. cbn in *.
  set (P := λ (_ : uuid) (l : AuthLinkRow), link_subject (in_Purpose intent) (in_AccessRequestID intent)
              (in_RecipientIdentityID intent) l && link_unused l) in *.
  pose proof (links_update P (with_invalidated now "superseded") (auth_link_tokens d) (invalidated_le _ _)) as Hle.
  set (t := update_where P _ _) in *. split; [|by eexists t, _].
  pose proof (links_table_le _ _ Hle Ht) as Ht'.
  assert (∀ k l, t !! k = Some l → link_unused l = true →
    link_subject (in_Purpose intent) (in_AccessRequestID intent) (in_RecipientIdentityID intent) l = false) as Hold.
  { intros k l Hk Hun. unfold t in Hk. rewrite lookup_update_where in Hk. destruct (auth_link_tokens d !! k) as [l0|]; [|done].
    injection Hk as <-. destruct (P k l0) eqn:HP.
    - unfold link_unused in Hun. cbn in Hun. by rewrite andb_false_r in Hun.
    - unfold P in HP. rewrite Hun, andb_true_r in HP. done. }
  apply links_store; [done|]. intros j l' Hj. split; [by eapply H3|]. intros Hun [Hp Hsub]. cbn in Hp, Hsub.
  specialize (Hold j l' Hj Hun). unfold link_subject in Hold. rewrite Hp, bool_decide_eq_true_2 in Hold by done. cbn in Hold.
  apply orb_false_iff in Hold as [Ho1 Ho2]. destruct Hsub as [[[x Hx] He]|[[x Hx] He]]; rewrite He in Hx.
  - destruct (nullString_Some _ _ Hx) as [Hq Hne]. rewrite He, Hx, (bool_decide_eq_false_2 _ Hne) in Ho1.
    rewrite bool_decide_eq_true_2 in Ho1; [done|by rewrite Hq].
  - destruct (nullString_Some _ _ Hx) as [Hq Hne]. rewrite He, Hx, (bool_decide_eq_false_2 _ Hne) in Ho2.
    rewrite bool_decide_eq_true_2 in Ho2; [done|by rewrite Hq].
Qed.
Lemma links_table_op op d : links_table (auth_link_tokens d) → links_table (auth_link_tokens (exec op d)).
Proof.
  intros Ht. destruct (mints op) eqn:Hm; [|eapply links_table_le; [by apply links_op|done]].
  destruct op; try done. cbn. apply (run_tx_inv (λ d', links_table (auth_link_tokens d'))); [done|]. intros a d' H.
  unfold CreateAuthLinkForIntent in H. inv_tx. by eapply links_create.
Qed.
Lemma links_table_run ops d : links_table (auth_link_tokens d) → links_table (auth_link_tokens (exec_all ops d)).
Proof. revert d. induction ops as [|op ops IH]; intros d Ht; [done|]. cbn. by apply IH, links_table_op. Qed.
(** Every link with this token was consumed or superseded. *)
Definition spent (raw : string) (d : IdentityDB) : Prop :=
  ∀ k l, auth_link_tokens d !! k = Some l → al_TokenHash l = link_hash sha256hex raw → link_unused l = false.
Lemma spent_op raw op d :
  links_table (auth_link_tokens d) →
  (∀ raw', mints op = Some raw' → link_hash sha256hex raw' ≠ link_hash sha256hex raw) →
  spent raw d → spent raw (exec op d).
Proof.
  intros Ht Hm Hs.
  assert (∀ t, links_le (auth_link_tokens d) t → ∀ k l, t !! k = Some l → al_TokenHash l = link_hash sha256hex raw → link_unused l = false) as Hle.
  { intros t Hle k l Hk Hh. destruct (Hle _ _ Hk) as (m & Hm' & H1 & _ & _ & _ & Hu). rewrite H1 in Hh.
    specialize (Hs _ _ Hm' Hh). destruct (link_unused l); [|done]. by rewrite Hu in Hs. }
  destruct (mints op) as [r|] eqn:Hop; [|exact (Hle _ (links_op op d Hop))].
  destruct op; try done. cbn in Hop. injection Hop as ->. cbn. unfold run_tx.
  destruct (CreateAuthLinkForIntent _ _ _ _ _ _ _) as [|[a d']] eqn:H; [done|]. cbn.
  unfold CreateAuthLinkForIntent in H. inv_tx.
  match goal with H : createAuthLinkTx _ _ _ _ _ _ _ = _ |- _ => destruct (links_create _ _ _ _ _ _ _ _ H Ht) as (_ & t & l & He & Hle' & Hh) end.
  intros k l' Hk Hh'. rewrite He in Hk. apply lookup_insert_Some in Hk as [[-> <-]|[_ Hk]]; [|exact (Hle t Hle' _ _ Hk Hh')].
  destruct (Hm r eq_refl). by rewrite <- Hh.
Qed.
Lemma claim_spent raw purpose now d : spent raw d → ∃ e, claimAuthLinkTx sha256hex raw purpose now d = inl e.
Proof.
  intros Hs. destruct (claimAuthLinkTx _ _ _ _ _) as [e|[[k l] d']] eqn:H; [by exists e|]. exfalso.
  unfold claimAuthLinkTx, lockAuthLinkTx in H. id_inv. cbn [fst snd] in *.
  subst x. cbn in *. match goal with H : find_row _ _ = Some _ |- _ => apply find_row_Some in H as [Hk Hh%bool_decide_eq_true] end.
  specialize (Hs _ _ Hk Hh). unfold link_unused in Hs. rewrite andb_false_iff in Hs. destruct Hs; congruence.
Qed.
Lemma consumed_spent raw x l now d t :
  links_table (auth_link_tokens d) → find_row (link_by_hash (link_hash sha256hex raw)) (auth_link_tokens d) = Some x →
  links_le (<[x.1 := with_consumed now l]> (auth_link_tokens d)) t →
  ∀ j l', t !! j = Some l' → al_TokenHash l' = link_hash sha256hex raw → link_unused l' = false.
Proof.
  destruct x as [k l0]. cbn [fst]. intros Ht [Hk Hh%bool_decide_eq_true]%find_row_Some Hle j l' Hj Hh'.
  destruct (Hle _ _ Hj) as (m & Hm & H1 & _ & _ & _ & Hu). rewrite H1 in Hh'.
  assert (link_unused m = false) as Hf.
  { apply lookup_insert_Some in Hm as [[-> <-]|[Hne Hm]]; [done|]. exfalso.
    destruct (Ht _ _ _ _ Hk Hm Hne) as [Hx _]. by rewrite Hh, Hh' in Hx. }
  destruct (link_unused l'); [|done]. by rewrite Hu in Hf.
Qed.
Ltac spends :=
  match goal with Ht : links_table _, Hf : find_row _ _ = Some _ |- _ =>
    refine (consumed_spent _ _ _ _ _ _ Ht Hf _); apply links_update; intros; apply invalidated_le end.
Lemma setup_spends raw dn lo pw now p d u d' :
  links_table (auth_link_tokens d) → CompleteSetup sha256hex HashPassword raw dn lo pw now p d = inr (u, d') → spent raw d'.
Proof. intros Ht H. unfold CompleteSetup, activateLocalUserTx in H. id_inv. spends. Qed.
Lemma reset_spends raw pw now p d u d' :
  links_table (auth_link_tokens d) → CompletePasswordReset sha256hex HashPassword raw pw now p d = inr (u, d') → spent raw d'.
Proof. intros Ht H. unfold CompletePasswordReset, setLocalUserPasswordTx in H. id_inv. spends. Qed.
Lemma spent_refused raw dn lo pw now p d :
  spent raw d → (∃ e, CompleteSetup sha256hex HashPassword raw dn lo pw now p d = inl e) ∧
    (∃ e, CompletePasswordReset sha256hex HashPassword raw pw now p d = inl e).
Proof.
  intros Hs. split.
  - destruct (CompleteSetup _ _ _ _ _ _ _ _ _) as [e|[u d']] eqn:H; [by exists e|]. exfalso. unfold CompleteSetup in H.
    destruct (claim_spent raw AuthLinkSetupPassword now d Hs) as [e He]. inv_tx. congruence.
  - destruct (CompletePasswordReset _ _ _ _ _ _ _) as [e|[u d']] eqn:H; [by exists e|]. exfalso. unfold CompletePasswordReset in H.
    destruct (claim_spent raw AuthLinkResetPassword now d Hs) as [e He]. inv_tx. congruence.
Qed.
(** C18. One-time links are used once. Starting from a table whose tokens are distinct and in
    which a purpose and subject have at most one usable link, every sequence of identity
    operations keeps it so: a new link supersedes the old one. And once a setup or a password
    reset has succeeded with a token, neither ever succeeds with that token again, whatever
    operations follow, unless the mail worker draws the very same token anew. *)
Theorem one_time_links_are_used_once ops d :
  links_table (auth_link_tokens d) →
  links_table (auth_link_tokens (exec_all ops d)) ∧
  ∀ raw d1,
    ((∃ dn lo pw now p u, CompleteSetup sha256hex HashPassword raw dn lo pw now p d = inr (u, d1)) ∨
     (∃ pw now p, CompletePasswordReset sha256hex HashPassword raw pw now p d = inr ((), d1))) →
    (∀ op raw', op ∈ ops → mints op = Some raw' → link_hash sha256hex raw' ≠ link_hash sha256hex raw) →
    ∀ dn lo pw now p,
      (∃ e, CompleteSetup sha256hex HashPassword raw dn lo pw now p (exec_all ops d1) = inl e) ∧
      (∃ e, CompletePasswordReset sha256hex HashPassword raw pw now p (exec_all ops d1) = inl e).
Proof.
  intros Ht. split.
  - by apply links_table_run.
  - intros raw d1 Huse Hm dn lo pw now p. apply spent_refused.
    assert (links_table (auth_link_tokens d1) ∧ spent raw d1) as [Ht1 Hs].
    { destruct Huse as [(dn' & lo' & pw' & now' & p' & u & H)|(pw' & now' & p' & H)]; (split; [|first [exact (setup_spends _ _ _ _ _ _ _ _ _ Ht H) | exact (reset_spends _ _ _ _ _ _ _ Ht H)]]).
      - pose proof (links_table_op (OpCompleteSetup raw dn' lo' pw' now' p') d Ht) as Hx. cbn in Hx. unfold run_tx in Hx. by rewrite H in Hx.
      - pose proof (links_table_op (OpCompleteReset raw pw' now' p') d Ht) as Hx. cbn in Hx. unfold run_tx in Hx. by rewrite H in Hx. }
    clear Huse Ht d. revert d1 Ht1 Hs. induction ops as [|op ops IH]; intros d1 Ht1 Hs; [done|]. cbn. apply IH.
    + intros op' raw' Hin. apply Hm. by right.
    + by apply links_table_op.
    + apply spent_op; [done| |done]. intros raw' Hr. eapply Hm; [by left|done].
Qed.
End link_ops.

(** * The throttle *)
Section throttle.
Context (rule : ThrottleRule) (subject : string).
Notation key := (tr_Scope rule, subject).
(** A run of attempts, with what each was told. *)
Fixpoint attempts (ts : list timestamp) : tx (list ThrottleState) :=
  match ts with
  | [] => mret []
  | t :: ts' => s ← RecordAuthAttempt rule subject t; l ← attempts ts'; mret (s :: l)
  end.
(** The attempt that blocks: the first one opens the window and is never it. *)
Definition blocking_attempt : Z := Z.max 2 (tr_Limit rule).
Definition counter (d : IdentityDB) (row : ThrottleRow) : IdentityDB :=
  put_throttle (<[key := row]> (auth_throttle_counters d)) d.
Context (Hlimit : 1 ≤ tr_Limit rule) (Hint : blocking_attempt ≤ int4_max).

Lemma record_known d row t :
  th_Attempts (record_attempt rule t row) ≤ int4_max →
  RecordAuthAttempt rule subject t (counter d row) =
  inr (throttleState (th_BlockedUntil (record_attempt rule t row)) (th_Attempts (record_attempt rule t row)) t,
       counter d (record_attempt rule t row)).
Proof.
  intros Ha. unfold RecordAuthAttempt. destruct (Z.leb_spec (tr_Limit rule) 0); [lia|].
  unfold mbind, tx_bind, tx_get, tx_require, tx_modify, mret, tx_ret. cbn [auth_throttle_counters counter put_throttle].
  unfold counter. cbn [auth_throttle_counters put_throttle]. rewrite lookup_insert_eq.
  destruct (Z.leb_spec (th_Attempts (record_attempt rule t row)) int4_max); [|lia].
  rewrite insert_insert_eq. by destruct d.
Qed.
(** Unblocked attempts inside the window are counted. *)
Lemma attempts_counted d t0 n last ts :
  1 ≤ n → n + Z.of_nat (length ts) < blocking_attempt → Forall (λ t, t < t0 + tr_Window rule) ts →
  ∃ last', attempts ts (counter d (mkThrottle t0 n None last)) =
    inr (imap (λ i t, mkThrottleState false 0 (n + 1 + Z.of_nat i)) ts,
         counter d (mkThrottle t0 (n + Z.of_nat (length ts)) None last')).
Proof.
  revert n last. induction ts as [|t ts IH]; intros n last Hn Hb Hw.
  - exists last. cbn. by rewrite Z.add_0_r.
  - apply Forall_cons in Hw as [Ht Hw]. cbn [length] in Hb.
    assert (record_attempt rule t (mkThrottle t0 n None last) = mkThrottle t0 (n + 1) None t) as Hrec.
    { unfold record_attempt. cbn. destruct (Z.leb_spec t0 (t - tr_Window rule)); [lia|].
      unfold blocking_attempt in Hb. destruct (Z.leb_spec (tr_Limit rule) (n + 1)); [lia|done]. }
    destruct (IH (n + 1) t) as [last' Hr]; [lia|lia|done|]. exists last'. cbn [attempts].
    unfold mbind, tx_bind. rewrite record_known by (rewrite Hrec; cbn; lia). rewrite Hrec. cbn [th_BlockedUntil th_Attempts throttleState].
    rewrite Hr. unfold mret, tx_ret. cbn [imap length]. do 2 f_equal; [f_equal; [f_equal; lia|]|f_equal; f_equal; lia].
    apply imap_ext. intros i x _. cbn. f_equal. lia.
Qed.
(** While blocked, an attempt changes neither the counter nor the end of the block. *)
Lemma attempts_blocked d t0 n until last more :
  n ≤ int4_max → Forall (λ t, t < until) more →
  ∃ last', attempts more (counter d (mkThrottle t0 n (Some until) last)) =
    inr ((λ t, mkThrottleState true (until - t) n) <$> more, counter d (mkThrottle t0 n (Some until) last')).
Proof.
  intros Hn. revert last. induction more as [|t more IH]; intros last Hw; [by exists last|].
  apply Forall_cons in Hw as [Ht Hw]. apply Z.ltb_lt in Ht.
  assert (record_attempt rule t (mkThrottle t0 n (Some until) last) = mkThrottle t0 n (Some until) t) as Hrec.
  { unfold record_attempt. cbn. by rewrite Ht. }
  destruct (IH t Hw) as [last' Hr]. exists last'. cbn [attempts]. unfold mbind, tx_bind.
  rewrite record_known by (rewrite Hrec; cbn; lia). rewrite Hrec. cbn [th_BlockedUntil th_Attempts]. rewrite Hr.
  unfold throttleState. rewrite Ht. done.
Qed.
Lemma attempts_app l l' d r d1 r' d2 :
  attempts l d = inr (r, d1) → attempts l' d1 = inr (r', d2) → attempts (l ++ l') d = inr (r ++ r', d2).
Proof.
  revert d r. induction l as [|t l IH]; intros d r H H'; cbn [attempts app] in *.
  - by inv_tx.
  - apply tx_bind_inr in H as (s & d3 & Hs & H). apply tx_bind_inr in H as (rs & d4 & Hrs & H). inv_tx.
    unfold mbind, tx_bind in *. rewrite Hs. specialize (IH _ _ Hrs H'). rewrite IH. done.
Qed.
(** The throttle's bounds. On a cleared counter, attempts that fall into one window are let
    through until attempt number [max 2 Limit], which blocks: it and every attempt before the
    block ends are told so, with the exact time left. The block lasts [Block] from the attempt
    that caused it, attempts made meanwhile neither prolong it nor count, and it ends: the
    status is unblocked from then on. A rule with [Limit] 1 thus still lets one attempt
    through. *)
Theorem throttle_blocks_for_exactly_block d t0 ts tl more :
  auth_throttle_counters d !! key = None →
  2 + Z.of_nat (length ts) = blocking_attempt →
  Forall (λ t, t < t0 + tr_Window rule) (ts ++ [tl]) → 0 < tr_Block rule →
  Forall (λ t, t < tl + tr_Block rule) more →
  ∃ d', attempts (t0 :: ts ++ tl :: more) d =
      inr (imap (λ i _, mkThrottleState false 0 (1 + Z.of_nat i)) (t0 :: ts) ++
           ((λ t, mkThrottleState true (tl + tr_Block rule - t) blocking_attempt) <$> (tl :: more)), d') ∧
    ∀ s, ThrottleStatus rule subject s d' =
      (if s <? tl + tr_Block rule then mkThrottleState true (tl + tr_Block rule - s) blocking_attempt
       else mkThrottleState false 0 blocking_attempt).
Proof.
  intros Hnone Hlen Hwin Hblock Hmore. apply Forall_app in Hwin as [Hwin [Htl _]%Forall_cons].
  destruct (attempts_counted d t0 1 t0 ts) as [last Hts]; [lia|lia|done|].
  set (n := 1 + Z.of_nat (length ts)) in *.
  assert (record_attempt rule tl (mkThrottle t0 n None last) =
    mkThrottle t0 blocking_attempt (Some (tl + tr_Block rule)) tl) as Hrec.
  { unfold record_attempt. cbn. destruct (Z.leb_spec t0 (tl - tr_Window rule)); [lia|].
    destruct (Z.leb_spec (tr_Limit rule) (n + 1)); [f_equal; lia|unfold blocking_attempt in *; lia]. }
  destruct (attempts_blocked d t0 blocking_attempt (tl + tr_Block rule) tl more) as [last' Hm]; [done|done|].
  assert (attempts (tl :: more) (counter d (mkThrottle t0 n None last)) =
    inr ((λ t, mkThrottleState true (tl + tr_Block rule - t) blocking_attempt) <$> (tl :: more),
         counter d (mkThrottle t0 blocking_attempt (Some (tl + tr_Block rule)) last'))) as Hblocked.
  { cbn [attempts]. unfold mbind, tx_bind. rewrite record_known by (rewrite Hrec; cbn; lia). rewrite Hrec.
    cbn [th_BlockedUntil th_Attempts]. rewrite Hm. unfold throttleState. by destruct (Z.ltb_spec tl (tl + tr_Block rule)); [|lia]. }
  exists (counter d (mkThrottle t0 blocking_attempt (Some (tl + tr_Block rule)) last')). split.
  - change (t0 :: ts ++ tl :: more) with ((t0 :: ts) ++ tl :: more). eapply attempts_app; [|exact Hblocked].
    cbn [attempts]. unfold mbind at 1, tx_bind at 1, RecordAuthAttempt.
    destruct (Z.leb_spec (tr_Limit rule) 0); [lia|]. unfold mbind at 1, tx_bind at 1, tx_get. rewrite Hnone.
    change (counter d (mkThrottle t0 1 None t0)) with (put_throttle (<[key := mkThrottle t0 1 None t0]> (auth_throttle_counters d)) d) in Hts.
    unfold mbind, tx_bind, tx_require, tx_modify, mret, tx_ret in *. cbn [th_Attempts th_BlockedUntil throttleState].
    change (1 <=? int4_max) with true. cbv iota beta. rewrite Hts. cbn [imap]. do 2 f_equal. f_equal.
    apply imap_ext. intros i x _. cbn. f_equal. lia.
  - intros s. unfold ThrottleStatus. destruct (Z.leb_spec (tr_Limit rule) 0); [lia|]. unfold counter. cbn [auth_throttle_counters put_throttle].
    rewrite lookup_insert_eq. cbn [th_BlockedUntil th_Attempts throttleState]. done.
Qed.
End throttle.
