(* ===== verification/IdentityRefine.v ===== *)
(** Every operation of the identity package is a sequence of guarded authority steps, except
    the legacy user endpoint when it lowers an Admin's role. *)
From S2P Require Import Prelude Json IdentityActions IdentityData IdentityStore IdentityFlows IdentityJourneys IdentitySession IdentityPeople IdentityFacts Authority AuthorityFacts IdentityMachine.

Notation steps := (rtc authority_step).

(** * The view of a changed table *)
Lemma view_put_user d id u :
  view_of (put_users (<[id := u]> (local_users d)) d) =
  mkView (<[id := account_of u]> (v_accounts (view_of d))) (v_creds (view_of d)) (v_sessions (view_of d))
    (v_epoch (view_of d)).
Proof. unfold view_of. cbn. by rewrite fmap_insert. Qed.
Lemma view_user_same d id u u0 :
  local_users d !! id = Some u0 → account_of u = account_of u0 →
  view_of (put_users (<[id := u]> (local_users d)) d) = view_of d.
Proof.
  intros Hu He. rewrite view_put_user. unfold view_of. cbn. f_equal.
  apply insert_id. by rewrite lookup_fmap, Hu, He.
Qed.
Lemma view_users_same P f d :
  (∀ k u, P k u = true → account_of (f u) = account_of u) →
  view_of (put_users (update_where P f (local_users d)) d) = view_of d.
Proof.
  intros Hf. unfold view_of. cbn. f_equal. apply map_eq. intros k.
  rewrite !lookup_fmap, lookup_update_where. destruct (local_users d !! k) as [u|]; cbn; [|done].
  destruct (P k u) eqn:HP; [|done]. f_equal. by eapply Hf.
Qed.
Lemma view_keys_same P f d :
  (∀ r, cred_of (f r) = cred_of r) →
  view_of (put_keys (update_where P f (api_keys d)) d) = view_of d.
Proof.
  intros Hf. unfold view_of. cbn. f_equal. apply map_eq. intros k.
  rewrite !lookup_omap, lookup_update_where. destruct (api_keys d !! k); cbn; [|done].
  by destruct (P _ _); rewrite ?Hf.
Qed.
Lemma view_key_put_same k r r0 d :
  api_keys d !! k = Some r0 → cred_of r = cred_of r0 →
  view_of (put_keys (<[k := r]> (api_keys d)) d) = view_of d.
Proof.
  intros Hk Hr. unfold view_of. cbn. f_equal. apply map_eq. intros j. rewrite !lookup_omap.
  destruct (decide (j = k)) as [->|Hne]; [by rewrite lookup_insert_eq, Hk|by rewrite lookup_insert_ne].
Qed.
Lemma view_key_alter_same f k d :
  (∀ r, cred_of (f r) = cred_of r) → view_of (put_keys (alter f k (api_keys d)) d) = view_of d.
Proof.
  intros Hf. unfold view_of. cbn. f_equal. apply map_eq. intros j. rewrite !lookup_omap.
  destruct (decide (k = j)) as [->|Hne]; [rewrite lookup_alter_eq|by rewrite lookup_alter_ne].
  destruct (api_keys d !! j); cbn; by rewrite ?Hf.
Qed.
Lemma view_key_put_legacy k r d :
  omap cred_of (api_keys d) !! k = None → cred_of r = None →
  view_of (put_keys (<[k := r]> (api_keys d)) d) = view_of d.
Proof.
  intros Hk Hr. unfold view_of. cbn. f_equal. apply map_eq. intros j.
  destruct (decide (j = k)) as [->|Hne]; [by rewrite Hk, lookup_omap, lookup_insert_eq|].
  by rewrite !lookup_omap, lookup_insert_ne.
Qed.
Lemma view_key_put_issue k r x d :
  cred_of r = Some x →
  view_of (put_keys (<[k := r]> (api_keys d)) d) =
  mkView (v_accounts (view_of d)) (<[k := x]> (v_creds (view_of d))) (v_sessions (view_of d)) (v_epoch (view_of d)).
Proof. intros Hr. unfold view_of. cbn. f_equal. by apply omap_insert_Some. Qed.
Lemma view_keys_dead P f d :
  (∀ r, cred_of (f r) = dead <$> cred_of r) →
  view_of (put_keys (update_where P f (api_keys d)) d) =
  mkView (v_accounts (view_of d))
    (retire (λ k, default false (P k <$> api_keys d !! k)) (v_creds (view_of d)))
    (v_sessions (view_of d)) (v_epoch (view_of d)).
Proof.
  intros Hf. unfold view_of, retire. cbn. f_equal. apply map_eq. intros k.
  rewrite map_lookup_imap, !lookup_omap, lookup_update_where. destruct (api_keys d !! k) as [r|]; cbn; [|done].
  destruct (P k r); [rewrite Hf|]; by destruct (cred_of r).
Qed.
Lemma view_sessions_same P f d :
  (∀ s, session_of (f s) = session_of s) →
  view_of (put_sessions (update_where P f (browser_sessions d)) d) = view_of d.
Proof.
  intros Hf. unfold view_of. cbn. f_equal. apply map_eq. intros k.
  rewrite !lookup_fmap, lookup_update_where. destruct (browser_sessions d !! k); cbn; [|done].
  by destruct (P _ _); rewrite ?Hf.
Qed.
Lemma view_sessions_closed P f d :
  (∀ s, session_of (f s) = (bs_IdentityID s, false)) →
  view_of (put_sessions (update_where P f (browser_sessions d)) d) =
  mkView (v_accounts (view_of d)) (v_creds (view_of d))
    (close (λ k, default false (P k <$> browser_sessions d !! k)) (v_sessions (view_of d))) (v_epoch (view_of d)).
Proof.
  intros Hf. unfold view_of, close. cbn. f_equal. apply map_eq. intros k.
  rewrite map_lookup_imap, !lookup_fmap, lookup_update_where. destruct (browser_sessions d !! k) as [s|]; cbn; [|done].
  by destruct (P k s); rewrite ?Hf.
Qed.
(** Terminating the open sessions of an identity closes exactly its sessions. *)
Lemma view_sessions_of id now reason d :
  view_of (put_sessions (update_where (open_session_of id) (with_terminated now reason) (browser_sessions d)) d) =
  mkView (v_accounts (view_of d)) (v_creds (view_of d)) (close_of id (v_sessions (view_of d))) (v_epoch (view_of d)).
Proof.
  unfold view_of, close_of. cbn. f_equal. apply map_eq. intros k.
  rewrite !lookup_fmap, lookup_update_where. destruct (browser_sessions d !! k) as [s|]; cbn; [|done].
  unfold open_session_of, session_of, with_terminated, session_open. case_bool_decide; cbn; [|done].
  destruct (bs_TerminatedAt s) eqn:Ht; cbn; by rewrite ?Ht.
Qed.

(** * Single steps from a view *)
Section step_lemmas.
Implicit Types (v : view).
Lemma step_close v P :
  steps v (mkView (v_accounts v) (v_creds v) (close P (v_sessions v)) (v_epoch v)).
Proof. destruct v. apply rtc_once. constructor. Qed.
Lemma step_retire v P :
  steps v (mkView (v_accounts v) (retire P (v_creds v)) (v_sessions v) (v_epoch v)).
Proof. destruct v. apply rtc_once. constructor. Qed.
Lemma step_promote v id role st :
  v_accounts v !! id = Some (mkAccount role st) →
  steps v (mkView (<[id := mkAccount RoleAdmin st]> (v_accounts v)) (v_creds v) (v_sessions v) (v_epoch v)).
Proof. destruct v. intros. apply rtc_once. by eapply auth_promote. Qed.
Lemma step_enable v id role :
  v_accounts v !! id = Some (mkAccount role LocalUserDisabled) →
  steps v (mkView (<[id := mkAccount role LocalUserActive]> (v_accounts v)) (v_creds v) (v_sessions v) (v_epoch v)).
Proof. destruct v. intros. apply rtc_once. by apply auth_enable. Qed.
Lemma step_demote v id st :
  v_accounts v !! id = Some (mkAccount RoleAdmin st) → another_admin (v_accounts v) id →
  steps v (mkView (<[id := mkAccount RoleOperator st]> (v_accounts v)) (clip id <$> v_creds v) (close_of id (v_sessions v)) (v_epoch v)).
Proof. destruct v. intros. apply rtc_once. by apply auth_demote. Qed.
Lemma step_disable v id role st :
  v_accounts v !! id = Some (mkAccount role st) → (role = RoleAdmin → another_admin (v_accounts v) id) →
  steps v (mkView (<[id := mkAccount role LocalUserDisabled]> (v_accounts v)) (forfeit id <$> v_creds v)
    (close_of id (v_sessions v)) (v_epoch v)).
Proof. destruct v. intros. apply rtc_once. by eapply auth_disable. Qed.
Lemma close_of_is_close id t : ∃ P, close_of id t = close P t.
Proof.
  exists (λ k, default false ((λ s, bool_decide (s.1 = id)) <$> t !! k)).
  apply map_eq. intros k. unfold close_of, close. rewrite lookup_fmap, map_lookup_imap.
  destruct (t !! k) as [s|]; cbn; [|done]. by case_bool_decide.
Qed.
Lemma step_close_of v id :
  steps v (mkView (v_accounts v) (v_creds v) (close_of id (v_sessions v)) (v_epoch v)).
Proof. destruct (close_of_is_close id (v_sessions v)) as [P ->]. apply step_close. Qed.
Lemma step_promote_close v id role st :
  v_accounts v !! id = Some (mkAccount role st) →
  steps v (mkView (<[id := mkAccount RoleAdmin st]> (v_accounts v)) (v_creds v) (close_of id (v_sessions v)) (v_epoch v)).
Proof.
  intros Ha. etrans; [by eapply step_promote|].
  exact (step_close_of (mkView (<[id := mkAccount RoleAdmin st]> (v_accounts v)) (v_creds v) (v_sessions v) (v_epoch v)) id).
Qed.
End step_lemmas.

(** [frame] closes the operations that leave the view as it was. *)
Ltac frame :=
  apply run_tx_inv; [reflexivity|];
  let a := fresh in let d' := fresh in let H := fresh in
  intros a d' H; revert H; intros ?; id_inv; cbv beta; try reflexivity.

Lemma mutate_session_closes (P : uuid → SessionRow → bool) now reason ev d n d' :
  mutateSessionWithAudit P (with_terminated now reason) ev d = inr (n, d') → steps (view_of d) (view_of d').
Proof.
  intros H. etrans; [apply (step_close _ (λ k, default false (P k <$> browser_sessions d !! k)))|].
  rewrite <- (view_sessions_closed P (with_terminated now reason)) by done.
  id_inv; reflexivity.
Qed.
Lemma mutate_session_same (P : uuid → SessionRow → bool) f ev d n d' :
  (∀ s, session_of (f s) = session_of s) →
  mutateSessionWithAudit P f ev d = inr (n, d') → steps (view_of d) (view_of d').
Proof.
  intros Hf H. rewrite <- (view_sessions_same P f d Hf) at 1. id_inv; reflexivity.
Qed.

Section refine.
Context (sha256hex ToLower : string → string) (HashPassword : string → option string).
Notation exec := (exec sha256hex ToLower HashPassword).
Notation silently_demotes := (silently_demotes sha256hex ToLower HashPassword).

(** ** Operations on tables that grant nothing *)
Definition grants_nothing (op : idop) : bool :=
  match op with
  | OpUpsertIdentity _ _ _ _ _ _ | OpSoftDeleteIdentity _ _ | OpUpsertServiceAccount _ _ _ _
  | OpAppendEvent _ | OpPurgeEvents _ | OpPurgeEventNetwork _ | OpPurgeEmailState _
  | OpQueueEmail _ _ _ _ _ _ _ | OpClaimEmails _ _ _ _ _ | OpExpireLeases _ | OpCreateLink _ _ _ _ _
  | OpMarkAccepted _ _ | OpMarkUnknown _ _ _ | OpMarkFailed _ _ _ | OpReleaseRetry _ _ _ _
  | OpCreateOrResend _ _ _ _ _ _ _ | OpVerify _ _ | OpDecline _ _ _ | OpExpireRequests _
  | OpRequestReset _ _ _ _ | OpResendSetup _ _ _ _ | OpRecordAttempt _ _ _ | OpClearThrottle _ _
  | OpPruneThrottle _ _ | OpTransfer _ _ _ _ _ _ _ _ | OpRecordVerification _ _ => true
  | _ => false
  end.
Lemma refine_frame op d : grants_nothing op = true → steps (view_of d) (view_of (exec op d)).
Proof.
  destruct op; try done; intros _; cbn [IdentityMachine.exec].
  all: unfold UpsertIdentity, SoftDeleteIdentityByKey, UpsertServiceAccount,
    PurgeSecurityEvents, PurgeSecurityEventNetwork, PurgeAuthEmailState, ClaimAuthEmails, ExpireAuthEmailLeases,
    CreateAuthLinkForIntent, createAuthLinkTx, MarkAuthEmailAccepted, MarkAuthEmailOutcomeUnknown,
    MarkAuthEmailFailed, ReleaseAuthEmailRetry, CreateOrResendAccessRequest, VerifyAccessRequest,
    DeclineAccessRequest, ExpireAccessRequests, RequestPasswordReset, ResendSetupInstructions,
    RecordAuthAttempt, ClearAuthThrottle, PruneAuthThrottle, RecordOwnershipTransfer, recordVerification.
  all: frame.
Qed.
Lemma refine_mappings i l d : steps (view_of d) (view_of (exec (OpReplaceMappings i l) d)).
Proof.
  cbn [IdentityMachine.exec]. apply run_tx_inv; [reflexivity|]. intros [] d' H.
  unfold ReplaceExternalMappings in H. inv_tx.
  eapply (tx_iter_preserves (λ a b, steps (view_of a) (view_of b))) in H; [done|done|intros; by etrans|].
  intros b x y [] _ Hb. unfold insert_binding in Hb. id_inv. reflexivity.
Qed.

(** ** Legacy API keys *)
Lemma refine_keys op d :
  match op with
  | OpCreateAPIKey _ _ _ _ _ _ _ | OpRevokeAPIKeysForIdentity _ _ _ | OpValidateAPIKey _ _ _ | OpRevokeAPIKey _ _
  | OpResolveCredential _ _ _ _ => True
  | _ => False
  end → steps (view_of d) (view_of (exec op d)).
Proof.
  destruct op; try done; intros _; cbn [IdentityMachine.exec].
  - apply run_tx_inv; [reflexivity|]. intros [full k] d' H. unfold CreateAPIKey in H. id_inv.
    rewrite is_null_true in *. rewrite view_key_put_legacy; [done| |done].
    rewrite lookup_omap. by match goal with H : api_keys _ !! _ = None |- _ => rewrite H end.
  - unfold RevokeAPIKeysForIdentity. frame. by rewrite view_keys_same.
  - unfold ValidateAPIKey. frame. by rewrite view_key_alter_same.
  - unfold RevokeAPIKey. frame. by erewrite view_key_put_same.
  - unfold ResolveCredential. destruct (_ ≫= _) as [c|]; [|done]. destruct (cr_Eligible c); [|done].
    destruct stamped; [|done]. cbn. unfold touchCredentialLastUse. by rewrite view_keys_same.
Qed.

(** ** Accounts *)
Lemma account_step_put d id u :
  (local_users d !! id = None → NormalizeRole (lu_Role u) ∈ [RoleAdmin; RoleOperator] ∧ lu_Status u = LocalUserSetupPending) →
  (∀ u0, local_users d !! id = Some u0 →
     account_of u = account_of u0 ∨
     (lu_Status u = lu_Status u0 ∧ NormalizeRole (lu_Role u) = RoleAdmin) ∨
     (lu_Status u0 = LocalUserSetupPending ∧ lu_Status u = LocalUserActive ∧ lu_Role u = lu_Role u0)) →
  steps (view_of d) (view_of (put_users (<[id := u]> (local_users d)) d)).
Proof.
  intros Hn Hs. destruct (local_users d !! id) as [u0|] eqn:Hu.
  - assert (v_accounts (view_of d) !! id = Some (account_of u0)) as Ha by (cbn; by rewrite lookup_fmap, Hu).
    unfold account_of in Ha.
    destruct (Hs u0 eq_refl) as [He|[[He Hr]|(H1 & H2 & H3)]].
    + by rewrite (view_user_same _ _ _ _ Hu He).
    + rewrite view_put_user. apply rtc_once. unfold account_of. rewrite Hr, He. by eapply auth_promote.
    + rewrite view_put_user. apply rtc_once. unfold account_of. rewrite H1 in Ha. rewrite H2, H3.
      by eapply auth_activate.
  - destruct (Hn eq_refl) as [Hr Hst]. rewrite view_put_user. apply rtc_once. unfold account_of. rewrite Hst.
    apply auth_account; [|done]. cbn. by rewrite lookup_fmap, Hu.
Qed.
(** Exactly two roles exist. *)
Definition two_roles (v : view) : Prop :=
  ∀ id a, v_accounts v !! id = Some a → ac_role a ∈ [RoleAdmin; RoleOperator].
Lemma two_roles_user d id u :
  two_roles (view_of d) → local_users d !! id = Some u → NormalizeRole (lu_Role u) ∈ [RoleAdmin; RoleOperator].
Proof. intros Hr Hu. apply (Hr id (account_of u)). cbn. by rewrite lookup_fmap, Hu. Qed.
Lemma not_admin_operator d id u :
  two_roles (view_of d) → local_users d !! id = Some u → lu_Role u ≠ RoleAdmin → NormalizeRole (lu_Role u) = RoleOperator.
Proof.
  intros Hr Hu Hn. apply (two_roles_user _ _ _ Hr) in Hu.
  apply elem_of_cons in Hu as [Hu|Hu%list_elem_of_singleton]; [|done]. by apply NormalizeRole_inv in Hu.
Qed.
Lemma refine_upsert_user f e r p d :
  two_roles (view_of d) → silently_demotes (OpUpsertLocalUser f e r p) d = false →
  steps (view_of d) (view_of (exec (OpUpsertLocalUser f e r p) d)).
Proof.
  cbn [IdentityMachine.silently_demotes]. rewrite exists_where_false. cbn [IdentityMachine.exec]. intros Ht Hd.
  unfold run_tx in *. destruct (UpsertLocalUser _ _ _ _ _ d) as [|[u d']] eqn:H; [done|]. cbn in Hd |- *.
  unfold UpsertLocalUser in H. destruct (CanonicalEmail ToLower e) as [[de no]|]; [|id_inv].
  apply tx_bind_inr in H as (ident & d1 & Hi & H). apply upsert_identity_inr in Hi as [t ->].
  id_inv; cbn in *;
    match goal with |- steps _ (view_of (put_users (<[?id := ?u]> _) _)) =>
      change (steps (view_of d) (view_of (put_users (<[id := u]> (local_users d)) d))) end;
    apply account_step_put; [intros Hu|intros u0 Hu]; rewrite Hu in *; cbn in *;
    match goal with H : role_check _ _ = true |- _ => apply role_check_normalized in H as Hr end.
  - done.
  - specialize (Hd _ _ Hu). rewrite lookup_insert_eq in Hd. cbn in Hd. unfold account_of. cbn.
    apply elem_of_cons in Hr as [Hr|Hr%list_elem_of_singleton]; [by right; left|]. left.
    rewrite Hr. f_equal. symmetry. eapply not_admin_operator; [done..|]. intros Ha. rewrite Ha in Hd.
    rewrite bool_decide_eq_true_2 in Hd by done. cbn in Hd.
    rewrite negb_false_iff, bool_decide_eq_true in Hd. simplify_eq.
Qed.
(** The accounts of the goal's tables are those of [d] with one row stored. *)
Ltac user_of d :=
  match goal with |- steps _ (view_of ?X) =>
    match X with context [put_users (<[?i := ?u]> _) _] =>
      change (view_of X) with (view_of (put_users (<[i := u]> (local_users d)) d)) end end.
Lemma refine_accounts op d :
  two_roles (view_of d) →
  match op with
  | OpUpdateProfile _ _ _ _ _ _ | OpApprove _ _ _ _ _ _ _ | OpPurgeRequests _ _ | OpCompleteSetup _ _ _ _ _ _
  | OpCompleteReset _ _ _ _ => True
  | _ => False
  end → steps (view_of d) (view_of (exec op d)).
Proof.
  intros Hr. destruct op; try done; intros _; cbn [IdentityMachine.exec].
  - unfold UpdateLocalUserProfileVersioned. frame.
    match goal with H : (_ ≫= _) = Some ?u |- _ =>
      apply bind_Some in H as (u0 & Hu & H); destruct (default true _); [injection H as ->|done] end.
    user_of d. by eapply account_step_put; intros; simplify_eq; left.
  - unfold ApproveAccessRequest. frame.
    match goal with H : context [is_null] |- _ => apply andb_true_iff in H as [Hn%is_null_true _] end.
    user_of d. cbn in *. apply account_step_put; [|naive_solver]. intros _. split; [|done].
    by eapply role_check_normalized.
  - unfold PurgeAccessRequests. frame.
    match goal with |- steps _ (view_of ?X) => match X with context [put_users ?t d] =>
      change (view_of X) with (view_of (put_users t d)) end end.
    by rewrite view_users_same.
  - unfold CompleteSetup, activateLocalUserTx. frame. user_of d.
    repeat match goal with H : bool_decide _ = true |- _ => apply bool_decide_eq_true in H end.
    apply account_step_put; intros; simplify_eq. by right; right.
  - unfold CompletePasswordReset, setLocalUserPasswordTx. frame.
    match goal with H : local_users d !! ?id = Some ?u |- steps _ (view_of ?X) =>
      match X with context [put_users ?t d] =>
        rewrite <- (view_user_same d id (with_password x now pgnow u) u H) by done;
        change (view_of X) with (view_of (put_sessions (update_where (open_session_of id)
          (with_terminated now TerminationPasswordRevoked) (browser_sessions (put_users t d))) (put_users t d))) end end.
    rewrite view_sessions_of. apply step_close_of.
Qed.

(** ** Bootstrap and recovery *)
Lemma step_recover d id u d' :
  CountActiveAdmins d = 0 → account_of u = mkAccount RoleAdmin LocalUserSetupPending →
  view_of d' = mkView (<[id := account_of u]> (v_accounts (view_of d))) (v_creds (view_of d))
                 (close_of id (v_sessions (view_of d))) (v_epoch (view_of d)) →
  steps (view_of d) (view_of d').
Proof.
  intros Hz Hu ->. rewrite Hu. apply rtc_once. apply auth_recover. intros j Hj. cbn in Hj.
  rewrite lookup_fmap in Hj. destruct (local_users d !! j) as [x|] eqn:Hx; [|done].
  injection Hj as Hr Hs. apply NormalizeRole_inv in Hr.
  apply (proj1 (count_where_zero _ _) Hz) in Hx. unfold active_admin in Hx.
  by rewrite Hr, Hs, !bool_decide_eq_true_2 in Hx.
Qed.
Lemma createSetupPendingAdmin_inr f o de no l now p d id d' :
  createSetupPendingAdminTx f o de no l now p d = inr (id, d') →
  ∃ u t t', account_of u = mkAccount RoleAdmin LocalUserSetupPending ∧
    d' = put_outbox t (put_users (<[id := u]> (local_users d)) (put_identities t' d)).
Proof.
  unfold createSetupPendingAdminTx. intros H. id_inv. eexists _, _, _. split; [|reflexivity].
  cbn. by destruct (local_users d !! id_ID _).
Qed.
Lemma refine_bootstrap f o o2 opts n p d :
  steps (view_of d) (view_of (exec (OpBootstrap f o o2 opts n p) d)).
Proof.
  cbn [IdentityMachine.exec]. apply run_tx_inv; [reflexivity|]. intros a d' H. unfold BootstrapAdmin in H.
  destruct (CanonicalEmail _ _) as [[de no]|]; [|id_inv].
  apply tx_bind_inr in H as ([] & d1 & H1 & H). apply tx_require_inr in H1 as [_ <-].
  apply tx_bind_inr in H as ([[me hm] uc] & d1 & H1 & H). unfold readBootstrapStateTx in H1. inv_tx.
  injection H1 as <- <- <-.
  destruct (bo_Recover opts).
  - unfold recoverAdminTx in H. inv_tx. destruct (0 <? CountActiveAdmins _) eqn:Hc; [id_inv|].
    pose proof (count_where_nonneg (λ _ : uuid, active_admin) (local_users d)) as Hnn.
    assert (CountActiveAdmins d = 0) as Hz by (unfold CountActiveAdmins in *; lia).
    apply tx_bind_inr in H as ([] & d1 & H1 & H). apply tx_modify_inr in H1 as <-.
    apply tx_bind_inr in H as (id & d1 & H1 & H).
    assert (∃ u, account_of u = mkAccount RoleAdmin LocalUserSetupPending ∧
      view_of d1 = mkView (<[id := account_of u]> (v_accounts (view_of d))) (v_creds (view_of d))
        (v_sessions (view_of d)) (v_epoch (view_of d)) ∧ browser_sessions d1 = browser_sessions d) as (u & Hu & Hv & Hs).
    { destruct (user_by_email _ _) as [user|].
      - id_inv. exists (with_recovered (if bool_decide (bo_AdminLocale opts = "") then "en" else bo_AdminLocale opts)
          n p (us_Row user)). split_and!; [done| |done]. rewrite <- view_put_user. reflexivity.
      - apply createSetupPendingAdmin_inr in H1 as (u & t & t' & Hu & ->). exists u.
        split_and!; [done| |done]. rewrite <- view_put_user. reflexivity. }
    apply (step_recover d id u); [done..|]. clear Hz H1. id_inv.
    match goal with |- view_of ?X = _ => match X with context [put_keys ?t _] =>
      change (view_of X) with (view_of (put_sessions (update_where (open_session_of id)
        (with_terminated n TerminationAccountRevoked) (browser_sessions d1)) (put_keys t d1))) end end.
    change (browser_sessions d1) with (browser_sessions (put_keys (update_where (λ _ r, bool_decide (ak_IdentityID r = id) && unrevoked r)
      (with_revoked n) (api_keys d1)) d1)).
    cbn [api_keys put_keys put_sessions]. rewrite view_sessions_of, view_keys_same by done. by rewrite Hv.
  - destruct (_ && _); [id_inv|]. destruct (_ || _) eqn:Ho; [id_inv; reflexivity|].
    apply orb_false_iff in Ho as [_ Ho]. unfold createFreshBootstrapTx in H.
    apply tx_bind_inr in H as ([] & d1 & H1 & H). apply tx_modify_inr in H1 as <-.
    apply tx_bind_inr in H as (id & d1 & H1 & H). apply createSetupPendingAdmin_inr in H1 as (u & t & t' & Hu & ->).
    id_inv. user_of d. apply account_step_put.
    + intros _. injection Hu as -> ->. split; [by left|done].
    + intros u0 Hu0. exfalso. assert (size (local_users d) ≠ 0%nat); [|lia].
      intros Hz%map_size_empty_iff. by rewrite Hz, lookup_empty in Hu0.
Qed.

(** ** Sessions *)
Lemma terminate_closes b now reason d : steps (view_of d) (view_of (terminate b now reason d)).
Proof.
  unfold terminate, RevokeSession, RevokeSessionWithAudit. apply run_tx_inv; [reflexivity|]. intros x d' H.
  apply tx_bind_inr in H as (n & d1 & H & Hr). apply tx_ret_inr in Hr as [_ <-]. by eapply mutate_session_closes.
Qed.
Lemma refine_sessions op d :
  match op with
  | OpCreateSession _ _ _ | OpResolveSession _ _ _ _ | OpRevokeSession _ _ _ _ | OpRevokeOwnedSession _ _ _ _ _
  | OpRevokeOtherSessions _ _ _ _ _ | OpRevokeAllSessions _ _ _ | OpRevokeSessionByToken _ _ _ | OpRotateCSRF _ _
  | OpSetRecentPassword _ _ _ | OpPurgeSessionNetwork _ => True
  | _ => False
  end → steps (view_of d) (view_of (exec op d)).
Proof.
  destruct op; try done; intros _; cbn [IdentityMachine.exec].
  2:{ unfold ResolveBrowserSessionWithNetwork. destruct (bool_decide _); [done|].
      destruct (find_row _ _) as [[id s]|]; [|done]. repeat (case_match; [first [done|apply terminate_closes]|]).
      destruct (coalesceSessionActivity _ _ _ _ _) as [b' d'] eqn:Hc. cbn. unfold coalesceSessionActivity in Hc.
      repeat case_match; simplify_eq; [done..|]. by rewrite view_sessions_same. }
  all: apply run_tx_inv; [reflexivity|]; intros x d' H.
  - unfold CreateBrowserSession in H. id_inv; cbv beta;
    (match goal with H : context [is_null] |- _ => rewrite !andb_true_iff in H; destruct H as [[_ Hn%is_null_true] _] end;
     apply rtc_once; unfold view_of; cbn; rewrite fmap_insert; apply auth_open; by rewrite lookup_fmap, Hn).
  - unfold RevokeSessionWithAudit in H. apply tx_bind_inr in H as (n & d1 & H & Hr). inv_tx. by eapply mutate_session_closes.
  - unfold RevokeOwnedSessionWithAudit in H. apply tx_bind_inr in H as (n & d1 & H & Hr). inv_tx. by eapply mutate_session_closes.
  - by eapply mutate_session_closes.
  - unfold RevokeAllSessionsForIdentity in H. id_inv. rewrite view_sessions_of. apply step_close_of.
  - unfold RevokeSessionByToken in H. destruct (bool_decide _); [by inv_tx|].
    apply tx_bind_inr in H as (n & d1 & H & Hr). inv_tx. by eapply mutate_session_closes.
  - unfold RotateSessionCSRF in H. apply tx_bind_inr in H as (n & d1 & H & Hr). inv_tx. by eapply mutate_session_same, H.
  - unfold SetRecentPasswordWithAudit in H. apply tx_bind_inr in H as (n & d1 & H & Hr). inv_tx. by eapply mutate_session_same, H.
  - unfold PurgeSessionNetworkEvidence in H. by eapply mutate_session_same, H.
Qed.

(** ** Credentials *)
Lemma owner_role_account d id u :
  local_users d !! id = Some u → v_accounts (view_of d) !! id = Some (account_of u).
Proof. intros Hu. cbn. by rewrite lookup_fmap, Hu. Qed.
Lemma step_issue d k r x :
  api_keys d !! k ≫= cred_of = None → cred_of r = Some x → cd_live x = true → may_hold (v_accounts (view_of d)) x →
  steps (view_of d) (view_of (put_keys (<[k := r]> (api_keys d)) d)).
Proof.
  intros Hk Hr Hl Hm. rewrite (view_key_put_issue _ _ _ _ Hr). apply rtc_once, auth_issue; [|done..].
  cbn. by rewrite lookup_omap.
Qed.
Lemma refine_credential f fa e pa p d :
  steps (view_of d) (view_of (exec (OpCreateCredential f fa e pa p) d)).
Proof.
  cbn [IdentityMachine.exec]. unfold CreateCredentialVersion. frame.
  repeat match goal with H : join_user _ _ _ = Some _ |- _ => apply join_user_Some in H as [Hu _] end.
  match goal with H : context [is_null] |- _ => apply andb_true_iff in H as [Hn%is_null_true _] end.
  match goal with |- steps _ (view_of ?X) => match X with context [put_keys (<[?k := ?r]> (api_keys ?d)) ?d] =>
    change (view_of X) with (view_of (put_keys (<[k := r]> (api_keys d)) d)) end end.
  eapply step_issue; [by rewrite Hn|done|done|]. cbn.
  match goal with H : validateOwnerEligibility _ _ = true |- _ => unfold validateOwnerEligibility in H;
    apply andb_true_iff in H as [Hst%bool_decide_eq_true Hrole] end.
  eexists. split_and!.
  - cbn. rewrite lookup_fmap, Hu. cbn. unfold account_of. by rewrite Hst.
  - cbn. intros Hk. rewrite Hk in Hrole. cbn in Hrole. by apply bool_decide_eq_true in Hrole.
  - cbn. by match goal with H : ValidateActions _ _ _ = inr ?u |- _ => destruct u end.
Qed.

(** ** People *)
Lemma another_admin_of d id : other_admins d id ≠ 0 → another_admin (v_accounts (view_of d)) id.
Proof.
  intros Hn. pose proof (count_where_nonneg (λ k u, active_admin u && negb (bool_decide (k = id))) (local_users d)).
  assert (0 < other_admins d id) as Hp by (unfold other_admins in *; lia).
  apply count_where_pos in Hp as (j & u & Hj & Hu). unfold active_admin in Hu.
  rewrite !andb_true_iff, negb_true_iff, !bool_decide_eq_true, bool_decide_eq_false in Hu.
  destruct Hu as [[Hr Hs] Hne]. exists j. split; [done|]. cbn. rewrite lookup_fmap, Hj. cbn. unfold account_of.
  by rewrite Hr, Hs.
Qed.
(** Two bulk suspensions of the same kind, seen through the view. *)
Lemma view_suspended P reason d :
  view_of (put_keys (update_where (λ _, P) (with_suspended reason) (api_keys d)) d) =
  mkView (v_accounts (view_of d))
    (omap cred_of (update_where (λ _, P) (with_suspended reason) (api_keys d))) (v_sessions (view_of d)) (v_epoch (view_of d)).
Proof. reflexivity. Qed.
Lemma cred_suspended reason r : cred_of (with_suspended reason r) = dead <$> cred_of r.
Proof.
  unfold cred_of, with_suspended. cbn. destruct (ak_KeyType r), (ak_Owner r), (ak_Actions r); cbn; try done.
  by case_bool_decide.
Qed.
Lemma dead_dead c : dead (dead c) = dead c.
Proof. done. Qed.
Lemma dead_not_live c : cd_live c = false → dead c = c.
Proof. destruct c. cbn. by intros ->. Qed.
Lemma owned_live_cred id r c : cred_of r = Some c → owned_live id r = bool_decide (cd_owner c = id) && cd_live c.
Proof.
  unfold cred_of, owned_live. destruct (ak_KeyType r), (ak_Owner r) as [o|], (ak_Actions r); cbn; try done.
  case_bool_decide as He; [|done]. intros [= <-]. cbn.
  rewrite andb_true_r. f_equal. apply bool_decide_ext. naive_solver.
Qed.
Lemma cred_kind r c : cred_of r = Some c → ak_KeyType r = Some (cd_kind c) ∧ ak_Actions r = Some (cd_actions c).
Proof.
  unfold cred_of. destruct (ak_KeyType r), (ak_Owner r), (ak_Actions r); cbn; try done.
  case_bool_decide; [|done]. by intros [= <-].
Qed.
(** A bulk suspension of live rows is a map on the credentials of the view. *)
Lemma creds_suspended (P : ApiKeyRow → bool) (Q : cred → bool) reason (t : gmap uuid ApiKeyRow) :
  (∀ r c, cred_of r = Some c → P r = Q c && cd_live c) →
  omap cred_of (update_where (λ _, P) (with_suspended reason) t) = (λ c, if Q c then dead c else c) <$> omap cred_of t.
Proof.
  intros HP. apply map_eq. intros k. rewrite lookup_fmap, !lookup_omap, lookup_update_where.
  destruct (t !! k) as [r|]; cbn; [|done]. destruct (cred_of r) as [c|] eqn:Hc; cbn.
  - rewrite (HP r c Hc). destruct (Q c); cbn; [|done].
    destruct (cd_live c) eqn:Hl; [by rewrite cred_suspended, Hc|by rewrite Hc, (dead_not_live _ Hl)].
  - destruct (P r); [by rewrite cred_suspended, Hc|done].
Qed.
Lemma creds_forfeit id reason (t : gmap uuid ApiKeyRow) :
  omap cred_of (update_where (λ _, owned_live id) (with_suspended reason) t) = forfeit id <$> omap cred_of t.
Proof. apply creds_suspended. apply owned_live_cred. Qed.
Lemma creds_clip id reason (t : gmap uuid ApiKeyRow) :
  omap cred_of (update_where (λ _ r, owned_live id r && bool_decide (ak_KeyType r = Some CredentialKindAutomation))
      (with_suspended reason)
      (update_where (λ _ r, owned_live id r && bool_decide (ak_KeyType r = Some CredentialKindPersonal) && holds_admin_only r)
        (with_suspended reason) t)) = clip id <$> omap cred_of t.
Proof.
  set (Qa c := bool_decide (cd_owner c = id) && bool_decide (cd_kind c = CredentialKindAutomation)).
  set (Qp c := bool_decide (cd_owner c = id) && bool_decide (cd_kind c = CredentialKindPersonal) &&
               overlaps (cd_actions c) AdminOnlyActions).
  rewrite (creds_suspended _ Qa), (creds_suspended _ Qp).
  - rewrite <- map_fmap_compose. apply map_fmap_ext. intros k c _. cbn. unfold Qa, Qp, clip, admin_cred. cbn.
    destruct (bool_decide (cd_owner c = id)) eqn:Ho; cbn; [|by rewrite Ho].
    destruct (bool_decide (cd_kind c = CredentialKindPersonal) && _) eqn:Hp; cbn; rewrite Ho; cbn;
      by destruct (bool_decide (cd_kind c = CredentialKindAutomation)).
  - intros r c Hc. destruct (cred_kind r c Hc) as [Hk Ha]. rewrite (owned_live_cred id r c Hc). unfold holds_admin_only, Qp.
    rewrite Hk, Ha. cbn [from_option]. unfold Datatypes.id at 1. rewrite (bool_decide_ext (Some (cd_kind c) = _) (cd_kind c = CredentialKindPersonal)) by (split; congruence).
    by destruct (bool_decide (cd_owner c = id)), (bool_decide (cd_kind c = _)), (overlaps _ _), (cd_live c).
  - intros r c Hc. destruct (cred_kind r c Hc) as [Hk _]. rewrite (owned_live_cred id r c Hc), Hk. unfold Qa.
    rewrite (bool_decide_ext (Some (cd_kind c) = _) (cd_kind c = CredentialKindAutomation)) by (split; congruence).
    by destruct (bool_decide (cd_owner c = id)), (bool_decide (cd_kind c = _)), (cd_live c).
Qed.

Lemma change_role_view a t role now p target d r d' :
  local_users d !! t = Some (us_Row target) →
  mu_write (change_role a t role now p) target d = inr (r, d') →
  view_of d' = mkView (<[t := mkAccount (NormalizeRole role) (lu_Status (us_Row target))]> (v_accounts (view_of d)))
    (if demoting target role then clip t <$> v_creds (view_of d) else v_creds (view_of d))
    (close_of t (v_sessions (view_of d))) (v_epoch (view_of d)).
Proof.
  intros Hu H. cbn in H. apply tx_bind_inr in H as ([] & d1 & H1 & H).
  apply (update_user_inr _ _ _ _ _ _ Hu) in H1 as ->. unfold suspendAdminOnlyCredentialsTx, suspendOwnedAutomationTx in H.
  set (d1 := put_users _ d) in H.
  assert (view_of (put_sessions (update_where (open_session_of t) (with_terminated now TerminationRoleRevoked)
    (browser_sessions d1)) d1) = mkView (<[t := mkAccount (NormalizeRole role) (lu_Status (us_Row target))]>
      (v_accounts (view_of d))) (v_creds (view_of d)) (close_of t (v_sessions (view_of d))) (v_epoch (view_of d))) as Hv.
  { rewrite view_sessions_of. unfold d1. by rewrite view_put_user. }
  id_inv; [|exact Hv]. unfold view_of at 1. cbn. rewrite creds_clip.
  unfold view_of in Hv |- *. cbn in Hv |- *. by injection Hv as -> ->.
Qed.
Lemma disable_view a t now p target d r d' :
  local_users d !! t = Some (us_Row target) →
  mu_write (disable_account a t now p) target d = inr (r, d') →
  view_of d' = mkView (<[t := mkAccount (NormalizeRole (lu_Role (us_Row target))) LocalUserDisabled]> (v_accounts (view_of d)))
    (forfeit t <$> v_creds (view_of d)) (close_of t (v_sessions (view_of d))) (v_epoch (view_of d)).
Proof.
  intros Hu H. cbn in H. apply tx_bind_inr in H as ([] & d1 & H1 & H).
  apply (update_user_inr _ _ _ _ _ _ Hu) in H1 as ->. unfold suspendAllCredentialsTx in H. set (d1 := put_users _ d) in H.
  assert (view_of (put_sessions (update_where (open_session_of t) (with_terminated now TerminationAccountRevoked)
    (browser_sessions d1)) d1) = mkView (<[t := mkAccount (NormalizeRole (lu_Role (us_Row target))) LocalUserDisabled]>
      (v_accounts (view_of d))) (v_creds (view_of d)) (close_of t (v_sessions (view_of d))) (v_epoch (view_of d))) as Hv.
  { rewrite view_sessions_of. unfold d1. by rewrite view_put_user. }
  id_inv. unfold view_of at 1. cbn. rewrite creds_forfeit.
  unfold view_of in Hv |- *. cbn in Hv |- *. by injection Hv as -> ->.
Qed.

Lemma refine_people op d :
  two_roles (view_of d) →
  match op with
  | OpChangeRole _ _ _ _ _ | OpDisable _ _ _ _ | OpEnable _ _ _ _ | OpRevokePersonSessions _ _ _ => True
  | _ => False
  end → steps (view_of d) (view_of (exec op d)).
Proof.
  intros Hr. destruct op; try done; intros _; cbn [IdentityMachine.exec].
  - unfold ChangePersonRole. destruct (negb _) eqn:Hrole; [done|]. apply negb_false_iff, mem_true in Hrole.
    rewrite reread_snd. apply (mutatePerson_inv (λ d', steps (view_of d) (view_of d'))); [done..|].
    intros target b d1 r d' [Hu _]%join_user_Some Hdec -> Hw. rewrite (change_role_view _ _ _ _ _ _ _ _ _ Hu Hw).
    clear Hw. cbn in Hdec. apply owner_role_account in Hu as Ha. unfold account_of in Ha.
    destruct (demoting target role) eqn:Hdem.
    + unfold demoting in Hdem. apply andb_true_iff in Hdem as [Hadm%bool_decide_eq_true ->%bool_decide_eq_true].
      id_inv; [done|]. rewrite Hadm in Ha. apply step_demote; [done|]. by apply another_admin_of, Z.eqb_neq, negb_true_iff.
    + apply elem_of_cons in Hrole as [->| ->%list_elem_of_singleton]; [by eapply step_promote_close|]. exfalso.
      destruct (bool_decide _) eqn:Hsame in Hdec; [by id_inv|]. apply bool_decide_eq_false in Hsame. apply Hsame.
      eapply not_admin_operator; [done..|]. intros Hadm. unfold demoting in Hdem. by rewrite Hadm in Hdem.
  - unfold DisablePerson. rewrite reread_snd. apply (mutatePerson_inv (λ d', steps (view_of d) (view_of d'))); [done..|].
    intros target b d1 r d' [Hu _]%join_user_Some Hdec -> Hw. rewrite (disable_view _ _ _ _ _ _ _ _ Hu Hw). clear Hw.
    apply owner_role_account in Hu as Ha. eapply step_disable; [done|]. intros Hadm. cbn in Hdec. rewrite Hadm in Hdec.
    id_inv; [done| |done]. by apply another_admin_of, Z.eqb_neq, negb_true_iff.
  - unfold EnablePerson. rewrite reread_snd. apply (mutatePerson_inv (λ d', steps (view_of d) (view_of d'))); [done..|].
    intros target b d1 r d' [Hu _]%join_user_Some Hdec -> Hw. cbn in Hdec, Hw.
    apply tx_bind_inr in Hw as ([] & d2 & H1 & H). apply (update_user_inr _ _ _ _ _ _ Hu) in H1 as ->. inv_tx.
    apply owner_role_account in Hu as Ha. unfold account_of in Ha.
    destruct (lu_Status (us_Row target)) eqn:Hs; [id_inv..|]; try done. rewrite view_put_user. by apply step_enable.
  - unfold RevokePersonSessions. apply (mutatePerson_inv (λ d', steps (view_of d) (view_of d'))); [done..|].
    intros target b d1 r d' _ _ _ Hw. cbn in Hw. id_inv. rewrite view_sessions_of. apply step_close_of.
Qed.

(** ** The cutover *)
Lemma cred_revocation now reason r : cred_of (with_revocation now reason r) = dead <$> cred_of r.
Proof.
  unfold cred_of, with_revocation. cbn. destruct (ak_KeyType r), (ak_Owner r), (ak_Actions r); cbn; try done.
  by case_bool_decide.
Qed.
Lemma refine_revocation P now reason d :
  steps (view_of d) (view_of (put_keys (update_where P (with_revocation now reason) (api_keys d)) d)).
Proof. rewrite view_keys_dead by apply cred_revocation. apply step_retire. Qed.
(** The rows of the cutover's loop, each read once and still as it was read. *)
Definition unmapped (l : list (uuid * ApiKeyRow)) (d : IdentityDB) : Prop :=
  NoDup l.*1 ∧ ∀ id r, (id, r) ∈ l → api_keys d !! id = Some r ∧ ak_Epoch r ≠ AuthorityEpochV2.
Lemma legacy_cred r : ak_Epoch r ≠ AuthorityEpochV2 → cred_of r = None.
Proof.
  intros He. unfold cred_of. destruct (ak_KeyType r), (ak_Owner r), (ak_Actions r); cbn; try done.
  by rewrite bool_decide_eq_false_2.
Qed.
Lemma legacy_rows_unmapped d p : unmapped (legacy_rows d p) d.
Proof.
  unfold legacy_rows. split.
  - eapply sublist_NoDup; [apply (NoDup_fst_map_to_list (api_keys d))|apply fmap_sublist, sublist_filter].
  - intros id r [[Hl _] Hin%elem_of_map_to_list]%list_elem_of_filter. split; [done|].
    unfold legacy_live in Hl. rewrite !andb_true_iff, negb_true_iff, bool_decide_eq_false in Hl. naive_solver.
Qed.
(** The step of one row: only that row changes. *)
Definition issues (id : uuid) (d d' : IdentityDB) : Prop :=
  steps (view_of d) (view_of d') ∧ local_users d' = local_users d ∧ ∀ k, k ≠ id → api_keys d' !! k = api_keys d !! k.
Lemma issues_refl id d : issues id d d.
Proof. by split_and!. Qed.
Lemma map_credential_issue id spec r d n d' :
  api_keys d !! id = Some r → ak_Epoch r ≠ AuthorityEpochV2 → map_credential id spec d = inr (n, d') →
  may_hold (v_accounts (view_of d)) (mkCred (ms_kind spec) (ms_ownerID spec) (ms_actions spec) true) →
  issues id d d'.
Proof.
  intros Hk He H Hm. unfold map_credential in H. apply tx_bind_inr in H as (? & ? & [<- <-]%tx_get_inr & H).
  rewrite Hk in H. id_inv; [|apply issues_refl]. split_and!; [|done|].
  - apply (step_issue _ _ _ (mkCred (ms_kind spec) (ms_ownerID spec) (ms_actions spec) true)); [|done|done|exact Hm].
    rewrite Hk. cbn. by apply legacy_cred.
  - intros k Hne. cbn. by rewrite lookup_insert_ne.
Qed.
Lemma map_one_issue opts d0 id r d n d' :
  api_keys d !! id = Some r → ak_Epoch r ≠ AuthorityEpochV2 → local_users d = local_users d0 →
  map_one opts d0 (id, r) d = inr (n, d') → issues id d d'.
Proof.
  intros Hk He Hu H. unfold map_one in H.
  destruct (resolveLegacyMapping _ _ _) as [e|spec] eqn:Hr; [destruct e; id_inv; apply issues_refl|].
  destruct (mapping_cases _ _ _ _ Hr) as [(Hp & _ & Hlu & Howner & _ & Hv)|(Hp & _ & _ & Hv)].
  - rewrite (bool_decide_eq_true_2 _ Hp) in H. destruct (humanOwnerIsMappable _) eqn:Hh in H; [|id_inv; apply issues_refl].
    eapply map_credential_issue; [done..|]. unfold humanOwnerIsMappable in Hh. cbn in Howner, Hv, Hh.
    apply andb_true_iff in Hh as [_ Hst%bool_decide_eq_true]. rewrite <- Hu in Hst, Hv.
    destruct (local_users d !! ak_IdentityID r) as [u|] eqn:Hl; [|done]. cbn in Hst, Hv. injection Hst as Hst.
    exists (NormalizeRole (lu_Role u)). cbn. rewrite Howner, lookup_fmap, Hl. cbn. unfold account_of. rewrite Hst, Hp.
    by rewrite Hp in Hv.
  - rewrite bool_decide_eq_false_2 in H by by rewrite Hp.
    apply tx_bind_inr in H as (? & ? & [<- <-]%tx_get_inr & H).
    apply tx_bind_inr in H as ([] & ? & [Hadm <-]%tx_require_inr & H).
    eapply map_credential_issue; [done..|]. destruct (local_users d !! ms_ownerID spec) as [u|] eqn:Hl; [|done].
    cbn in Hadm. unfold active_admin_role in Hadm. rewrite andb_true_iff, !bool_decide_eq_true in Hadm. destruct Hadm as [Hro Hst].
    exists RoleAdmin. cbn. rewrite lookup_fmap, Hl. cbn. unfold account_of. by rewrite Hro, Hst.
Qed.
Lemma map_all_issues opts d0 l d n d' :
  unmapped l d → local_users d = local_users d0 → map_all opts d0 l d = inr (n, d') → steps (view_of d) (view_of d').
Proof.
  revert d n. induction l as [|[id r] l IH]; intros d n [Hnd Hl] Hu H; cbn in H; [by id_inv|].
  apply tx_bind_inr in H as (a & d1 & H1 & H). apply tx_bind_inr in H as (b & d2 & H2 & H). inv_tx.
  destruct (Hl id r) as [Hk He]; [by left|]. apply NoDup_cons in Hnd as [Hid Hnd].
  destruct (map_one_issue _ _ _ _ _ _ _ Hk He Hu H1) as (Hs & Hu1 & Hk1). etrans; [exact Hs|].
  eapply IH; [split; [done|]|by rewrite Hu1|exact H2].
  intros k r' Hin. rewrite Hk1; [apply Hl; by right|]. intros ->. apply Hid. apply list_elem_of_fmap. by exists (id, r').
Qed.
Lemma refine_cutover opts pf p d : steps (view_of d) (view_of (exec (OpCutover opts pf p) d)).
Proof.
  cbn [IdentityMachine.exec]. apply run_tx_inv; [reflexivity|].
  intros rep d' [(_ & -> & _)|(? & n & d3 & acl & au & ev & _ & He & _ & _ & H1 & _ & Hv2 & ->)]%cutover_inr; [done|].
  rewrite <- (view_users_same legacy_role (with_operator_role (co_Now opts) p)).
  2:{ intros k u Hl. unfold legacy_role in Hl. apply bool_decide_eq_true in Hl. unfold account_of. cbn. by rewrite Hl. }
  etrans; [apply (refine_revocation legacy_authority (co_Now opts) "legacy_authority")|].
  etrans; [eapply map_all_issues; [apply legacy_rows_unmapped|done|exact H1]|].
  etrans; [apply (refine_revocation legacy_unmapped (co_Now opts) "legacy_unmapped")|].
  apply map_all_keys in H1 as [t ->]. apply rtc_once. unfold view_of. cbn. rewrite He, Hv2. constructor.
Qed.

(** ** Every operation *)
Lemma two_roles_step v v' : authority_step v v' → two_roles v → two_roles v'.
Proof.
  intros Hs Hr. destruct Hs; unfold two_roles in *; cbn in *; try done;
    intros j a [[-> <-]|[Hne Hj]]%lookup_insert_Some; try (by eapply Hr); cbn;
    first [done | by repeat constructor | by eapply (Hr _ _ H) | idtac].
Qed.
Lemma two_roles_unguarded v v' : unguarded_step v v' → two_roles v → two_roles v'.
Proof.
  intros Hs Hr. destruct Hs. unfold two_roles in *. cbn in *.
  intros j a [[-> <-]|[Hne Hj]]%lookup_insert_Some; [by right; left|by eapply Hr].
Qed.
Lemma two_roles_steps v v' : steps v v' → two_roles v → two_roles v'.
Proof. induction 1; eauto using two_roles_step. Qed.
Lemma two_roles_any v v' : rtc (λ v v', authority_step v v' ∨ unguarded_step v v') v v' → two_roles v → two_roles v'.
Proof. induction 1 as [|? ? ? [] _ IH]; eauto using two_roles_step, two_roles_unguarded. Qed.
(** The exception, when it happens, is exactly the unguarded step. *)
Lemma refine_lower op d :
  silently_demotes op d = true → unguarded_step (view_of d) (view_of (exec op d)).
Proof.
  destruct op; try done. cbn [IdentityMachine.silently_demotes IdentityMachine.exec]. unfold run_tx.
  destruct (UpsertLocalUser _ _ _ _ _ d) as [|[u d']] eqn:H; cbn; intros (k & u0 & Hk & Hd)%exists_where_true;
    apply andb_true_iff in Hd as [Ha%bool_decide_eq_true Hn]; apply negb_true_iff, bool_decide_eq_false in Hn.
  { rewrite Hk in Hn. cbn in Hn. congruence. }
  unfold UpsertLocalUser in H. destruct (CanonicalEmail ToLower _) as [[de no]|]; [|id_inv].
  apply tx_bind_inr in H as (ident & d1 & Hi & H). apply upsert_identity_inr in Hi as [t ->].
  id_inv. cbn [local_users put_identities put_users] in *.
  destruct (decide (k = id_ID ident)) as [->|Hne].
  2:{ exfalso. apply Hn. rewrite lookup_insert_ne by done. rewrite Hk. cbn. by rewrite Ha. }
  match goal with H : role_check _ _ = true |- _ => apply role_check_normalized in H as Hr end.
  rewrite lookup_insert_eq in Hn. rewrite Hk in *. cbn in Hn, Hr.
  apply elem_of_cons in Hr as [Hr%NormalizeRole_inv|Hr%list_elem_of_singleton]; [by rewrite Hr in Hn|].
  match goal with |- unguarded_step _ (view_of (put_users (<[?id := ?u]> _) _)) =>
    change (unguarded_step (view_of d) (view_of (put_users (<[id := u]> (local_users d)) d))) end.
  rewrite view_put_user. unfold account_of. cbn [lu_Role lu_Status with_email_role]. rewrite Hr.
  apply auth_lower. cbn. rewrite lookup_fmap, Hk. cbn. unfold account_of. by rewrite Ha.
Qed.
Lemma refine_op op d :
  two_roles (view_of d) → silently_demotes op d = false → steps (view_of d) (view_of (exec op d)).
Proof.
  intros Hr Hs. destruct (grants_nothing op) eqn:Hg; [by apply refine_frame|].
  destruct op; try done;
    first [ by apply refine_mappings | by apply refine_upsert_user | by apply refine_keys | by apply refine_accounts
          | by apply refine_bootstrap | by apply refine_sessions | by apply refine_credential | by apply refine_people
          | by apply refine_cutover ].
Qed.
Lemma refine_any op d :
  two_roles (view_of d) → rtc (λ v v', authority_step v v' ∨ unguarded_step v v') (view_of d) (view_of (exec op d)).
Proof.
  intros Hr. destruct (silently_demotes op d) eqn:Hs; [apply rtc_once; right; by apply refine_lower|].
  eapply rtc_subrel; [|by apply refine_op]. by left.
Qed.
(** The role column's CHECK holds of every account. *)
Definition roles_checked (d : IdentityDB) : Prop :=
  ∀ id u, local_users d !! id = Some u → role_check d (lu_Role u) = true.
Lemma roles_checked_view d : roles_checked d → two_roles (view_of d).
Proof.
  intros Hr id a Ha. cbn in Ha. rewrite lookup_fmap in Ha. destruct (local_users d !! id) as [u|] eqn:Hu; [|done].
  injection Ha as <-. by eapply role_check_normalized, Hr.
Qed.
Lemma refine_run ops d :
  two_roles (view_of d) → orderly sha256hex ToLower HashPassword ops d = true →
  steps (view_of d) (view_of (exec_all sha256hex ToLower HashPassword ops d)).
Proof.
  revert d. induction ops as [|op ops IH]; intros d Hr Ho; [done|]. cbn in Ho |- *.
  apply andb_true_iff in Ho as [Hs%negb_true_iff Ho]. etrans; [by apply refine_op|].
  apply IH; [|done]. eapply two_roles_steps; [by apply refine_op|done].
Qed.
Lemma refine_run_any ops d :
  two_roles (view_of d) →
  rtc (λ v v', authority_step v v' ∨ unguarded_step v v')
    (view_of d) (view_of (exec_all sha256hex ToLower HashPassword ops d)).
Proof.
  revert d. induction ops as [|op ops IH]; intros d Hr; [done|]. cbn.
  etrans; [by apply refine_any|]. apply IH. eapply two_roles_any; [by apply refine_any|done].
Qed.
(** C11. Refinement of the authority contract. Whatever sequence of identity operations runs
    (account, invitation, password, session, credential, people, bootstrap and cutover
    operations, failures included), the accounts, credentials, sessions and epoch it leaves are
    reached by guarded authority steps alone: an account starts in setup, becomes active by
    setup or re-enabling, gains Admin freely but loses it, or is disabled, only beside another
    active Admin and with its sessions closed and its credentials clipped in the same step; a
    credential is issued live only to an active owner whose current role validates its actions,
    is never revived once retired; a session is only opened or closed; the epoch only advances.
    The one exception is the legacy user endpoint when it lowers an Admin: that is the single
    unguarded step. *)
Theorem operations_refine_authority ops d :
  roles_checked d →
  (orderly sha256hex ToLower HashPassword ops d = true →
     rtc authority_step (view_of d) (view_of (exec_all sha256hex ToLower HashPassword ops d))) ∧
  rtc (λ v v', authority_step v v' ∨ unguarded_step v v')
    (view_of d) (view_of (exec_all sha256hex ToLower HashPassword ops d)).
Proof.
  intros Hr%roles_checked_view. split; [by apply refine_run|by apply refine_run_any].
Qed.
End refine.
