(* ===== verification/IdentityAuthority.v ===== *)
(** What the guarded authority steps keep: Admin-only power stays with current Admins, the
    last active Admin is never lost, a closed session and a retired credential stay so. Each
    invariant is proved on the abstract steps and carried to the operations by the
    refinement. *)
From S2P Require Import Prelude Json IdentityActions IdentityData IdentityStore IdentityFlows IdentityJourneys IdentitySession IdentityPeople IdentityFacts Authority AuthorityFacts IdentityMachine IdentityRefine.

(** * Invariants of the abstract steps *)
(** A live credential with Admin-only power belongs to an Admin. *)
Definition clipped (v : view) : Prop :=
  ∀ k c, v_creds v !! k = Some c → cd_live c = true → admin_cred c = true →
  ∃ st, v_accounts v !! cd_owner c = Some (mkAccount RoleAdmin st).
Definition has_admin (v : view) : Prop :=
  ∃ j, v_accounts v !! j = Some (mkAccount RoleAdmin LocalUserActive).
(** The relations that only ever grow: closed sessions and retired credentials. *)
Definition session_closed (k : uuid) (v : view) : Prop := ∃ id, v_sessions v !! k = Some (id, false).
Definition cred_retired (k : uuid) (v : view) : Prop := ∃ c, v_creds v !! k = Some c ∧ cd_live c = false.
Definition any_step (v v' : view) : Prop := authority_step v v' ∨ unguarded_step v v'.

Lemma may_hold_admin t x : may_hold t x → admin_cred x = true → ∃ st, t !! cd_owner x = Some (mkAccount RoleAdmin st).
Proof.
  intros (role & Ht & Hauto & Hv) Ha. exists LocalUserActive. rewrite Ht. do 2 f_equal.
  unfold admin_cred in Ha. apply orb_true_iff in Ha as [Ha|Ha]; [by apply bool_decide_eq_true in Ha; apply Hauto|].
  apply andb_true_iff in Ha as [_ (a & Hin & Had)%overlaps_true].
  apply elem_of_AdminOnlyActions in Had. by destruct (validated_admin_only _ _ _ _ Hv Hin Had).
Qed.
Lemma dead_live c : cd_live (dead c) = true → False.
Proof. done. Qed.
(** The owner of a live Admin credential keeps an Admin account when one account is replaced by
    another Admin one, or was not an Admin before. *)
Lemma clipped_put t c s e id a :
  clipped (mkView t c s e) → (∀ b, t !! id = Some b → ac_role b = RoleAdmin → ac_role a = RoleAdmin) →
  clipped (mkView (<[id := a]> t) c s e).
Proof.
  intros Hc Ha k x Hk Hl Hx. destruct (Hc k x Hk Hl Hx) as [st Ht]. cbn in *.
  destruct (decide (cd_owner x = id)) as [Heq|Hne].
  - rewrite Heq in *. rewrite lookup_insert_eq. exists (ac_status a). specialize (Ha _ Ht eq_refl). destruct a. cbn in *. by subst.
  - rewrite lookup_insert_ne by done. by exists st.
Qed.
Lemma clipped_step v v' : authority_step v v' → clipped v → clipped v'.
Proof.
  intros Hs Hc. destruct Hs.
  - apply clipped_put; [done|]. intros b Hb. by rewrite H in Hb.
  - apply clipped_put; [done|]. intros b Hb Hr. rewrite H in Hb. injection Hb as <-. done.
  - by apply clipped_put.
  - intros k x Hk Hl Hx. cbn in Hk. rewrite lookup_fmap in Hk. destruct (c !! k) as [y|] eqn:Hy; [|done].
    injection Hk as <-. unfold clip in *. destruct (bool_decide (cd_owner y = id)) eqn:Ho; cbn in *.
    + destruct (admin_cred y) eqn:Hay; [done|]. by rewrite Hay in Hx.
    + destruct (Hc k y Hy Hl Hx) as [st' Ht]. apply bool_decide_eq_false in Ho. cbn in Ht.
      exists st'. by rewrite lookup_insert_ne.
  - intros k x Hk Hl Hx. cbn in Hk. rewrite lookup_fmap in Hk. destruct (c !! k) as [y|] eqn:Hy; [|done].
    injection Hk as <-. unfold forfeit in *. destruct (bool_decide (cd_owner y = id)) eqn:Ho; cbn in *; [done|].
    destruct (Hc k y Hy Hl Hx) as [st' Ht]. apply bool_decide_eq_false in Ho. cbn in Ht. exists st'. by rewrite lookup_insert_ne.
  - apply clipped_put; [done|]. intros b Hb Hr. rewrite H in Hb. injection Hb as <-. done.
  - exact (clipped_put t c s e id (mkAccount RoleAdmin LocalUserSetupPending) Hc (λ _ _ _, eq_refl)).
  - intros k' y Hk Hl Hx. cbn in Hk. apply lookup_insert_Some in Hk as [[-> <-]|[_ Hk]]; [by apply may_hold_admin|].
    by apply (Hc k' y).
  - intros k x Hk Hl Hx. cbn in Hk. unfold retire in Hk. rewrite map_lookup_imap in Hk.
    destruct (c !! k) as [y|] eqn:Hy; [|done]. cbn in Hk. injection Hk as <-. destruct (P k); [done|]. by apply (Hc k y).
  - done.
  - done.
  - done.
Qed.
Lemma has_admin_step v v' : authority_step v v' → has_admin v → has_admin v'.
Proof.
  intros Hs [j Hj]. unfold has_admin. destruct Hs; cbn in *; try by exists j.
  all: try match goal with H : another_admin _ _ |- _ =>
    destruct H as (j' & Hne & Hj'); exists j'; by rewrite lookup_insert_ne end.
  - destruct (decide (j = id)) as [->|]; [congruence|exists j; by rewrite lookup_insert_ne].
  - destruct (decide (j = id)) as [->|]; [congruence|exists j; by rewrite lookup_insert_ne].
  - destruct (decide (j = id)) as [->|]; [exists id; rewrite lookup_insert_eq; congruence|exists j; by rewrite lookup_insert_ne].
  - destruct (decide (j = id)) as [->|]; [|exists j; by rewrite lookup_insert_ne].
    destruct H0 as (j' & Hne & Hj'); [congruence|]. exists j'. by rewrite lookup_insert_ne.
  - destruct (decide (j = id)) as [->|]; [congruence|exists j; by rewrite lookup_insert_ne].
  - by destruct (H j).
Qed.
Lemma session_closed_step k v v' : any_step v v' → session_closed k v → session_closed k v'.
Proof.
  intros Hs [i Hk]. unfold session_closed. destruct Hs as [Hs|Hs]; destruct Hs; cbn in *; try by exists i.
  all: exists i; unfold close_of, close; try rewrite lookup_fmap, Hk; try rewrite map_lookup_imap, Hk; cbn.
  all: try (by case_bool_decide).
  - rewrite lookup_insert_ne; [done|congruence].
  - by destruct (P k).
Qed.
Lemma cred_retired_step k v v' : any_step v v' → cred_retired k v → cred_retired k v'.
Proof.
  intros Hs (c0 & Hk & Hl). unfold cred_retired. destruct Hs as [Hs|Hs]; destruct Hs; cbn in *; try by exists c0.
  - exists (clip id c0). rewrite lookup_fmap, Hk. split; [done|]. unfold clip. by destruct (_ && _).
  - exists (forfeit id c0). rewrite lookup_fmap, Hk. split; [done|]. unfold forfeit. by case_bool_decide.
  - exists c0. rewrite lookup_insert_ne; [done|congruence].
  - exists (if P k then dead c0 else c0). unfold retire. rewrite map_lookup_imap, Hk. split; [done|]. by destruct (P k).
Qed.
Lemma epoch_step v v' : any_step v v' → v_epoch v = AuthorityEpochV2 → v_epoch v' = AuthorityEpochV2.
Proof. by intros [Hs|Hs]; destruct Hs. Qed.
Lemma rtc_invariant {A} (R : A → A → Prop) (I : A → Prop) x y :
  (∀ a b, R a b → I a → I b) → rtc R x y → I x → I y.
Proof. intros Hp. induction 1; eauto. Qed.

(** * What a loss of authority takes with it *)
Definition lost_role (a a' : account) : Prop := ac_role a = RoleAdmin ∧ ac_role a' ≠ RoleAdmin.
Definition was_disabled (a a' : account) : Prop := ac_status a ≠ LocalUserDisabled ∧ ac_status a' = LocalUserDisabled.
(** Between two views the account [id] changed as [L] says. *)
Definition account_change (L : account → account → Prop) (id : uuid) (v v' : view) : Prop :=
  ∃ a a', v_accounts v !! id = Some a ∧ v_accounts v' !! id = Some a' ∧ L a a'.
Definition keeps_accounts (v v' : view) : Prop := ∀ id, is_Some (v_accounts v !! id) → is_Some (v_accounts v' !! id).
Definition lost_session (id : uuid) (v v' : view) : Prop :=
  account_change lost_role id v v' ∨ account_change was_disabled id v v'.
Definition lost_cred (c : cred) (v v' : view) : Prop :=
  (account_change lost_role (cd_owner c) v v' ∧ admin_cred c = true) ∨ account_change was_disabled (cd_owner c) v v'.
Definition keeps_sessions (v v' : view) : Prop :=
  ∀ k id b, v_sessions v !! k = Some (id, b) →
  ∃ b', v_sessions v' !! k = Some (id, b') ∧ (b = false ∨ lost_session id v v' → b' = false).
Definition keeps_creds (v v' : view) : Prop :=
  ∀ k c, v_creds v !! k = Some c →
  ∃ c', v_creds v' !! k = Some c' ∧ dead c' = dead c ∧ (cd_live c = false ∨ lost_cred c v v' → cd_live c' = false).

Lemma account_change_split L id v v1 v2 :
  (∀ a b c, L a c → L a b ∨ L b c) → keeps_accounts v v1 →
  account_change L id v v2 → account_change L id v v1 ∨ account_change L id v1 v2.
Proof.
  intros HL Hk (a & a2 & Ha & Ha2 & Hl). destruct (Hk id) as [a1 Ha1]; [by exists a|].
  destruct (HL a a1 a2 Hl); [left|right]; eexists _, _; split_and!; eauto.
Qed.
Lemma lost_role_split a b c : lost_role a c → lost_role a b ∨ lost_role b c.
Proof. unfold lost_role. intros [? ?]. destruct (decide (ac_role b = RoleAdmin)); auto. Qed.
Lemma was_disabled_split a b c : was_disabled a c → was_disabled a b ∨ was_disabled b c.
Proof. unfold was_disabled. intros [? ?]. destruct (decide (ac_status b = LocalUserDisabled)); auto. Qed.
Definition keeps (v v' : view) : Prop := keeps_accounts v v' ∧ keeps_sessions v v' ∧ keeps_creds v v'.
Lemma account_unchanged L id v : (∀ a, ¬ L a a) → ¬ account_change L id v v.
Proof. intros HL (a & a' & Ha & Ha' & Hl). rewrite Ha in Ha'. injection Ha' as <-. by apply (HL a). Qed.
Lemma keeps_refl v : keeps v v.
Proof.
  assert (∀ id, ¬ account_change lost_role id v v) as H1 by (intros; apply account_unchanged; unfold lost_role; naive_solver).
  assert (∀ id, ¬ account_change was_disabled id v v) as H2 by (intros; apply account_unchanged; unfold was_disabled; naive_solver).
  split_and!; [by intros ?| |].
  - intros k id b Hk. exists b. split; [done|]. intros [|[?|?]]; [done|by destruct (H1 id)|by destruct (H2 id)].
  - intros k c Hk. exists c. split_and!; [done..|]. intros [|[[? _]|?]]; [done|by destruct (H1 (cd_owner c))|by destruct (H2 (cd_owner c))].
Qed.
Lemma dead_same c c' : dead c' = dead c → cd_owner c' = cd_owner c ∧ admin_cred c' = admin_cred c.
Proof. destruct c, c'. unfold dead, admin_cred. cbn. by intros [= -> -> ->]. Qed.
Lemma keeps_trans v v1 v2 : keeps v v1 → keeps v1 v2 → keeps v v2.
Proof.
  intros (Ha & Hs & Hc) (Ha' & Hs' & Hc'). split_and!; [intros id ?; by apply Ha', Ha| |].
  - intros k id b Hk. destruct (Hs k id b Hk) as (b1 & Hk1 & Hb1). destruct (Hs' k id b1 Hk1) as (b2 & Hk2 & Hb2).
    exists b2. split; [done|]. intros [Hb|[Hl|Hl]]; [apply Hb2; left; by apply Hb1; left|..].
    + destruct (account_change_split _ _ _ _ _ lost_role_split Ha Hl) as [H|H]; apply Hb2;
        [left; apply Hb1; right; by left|right; by left].
    + destruct (account_change_split _ _ _ _ _ was_disabled_split Ha Hl) as [H|H]; apply Hb2;
        [left; apply Hb1; right; by right|right; by right].
  - intros k c Hk. destruct (Hc k c Hk) as (c1 & Hk1 & Hd1 & Hl1). destruct (Hc' k c1 Hk1) as (c2 & Hk2 & Hd2 & Hl2).
    destruct (dead_same _ _ Hd1) as [Ho Hadm]. unfold lost_cred in Hl2. rewrite Ho, Hadm in Hl2.
    exists c2. split_and!; [done|by rewrite Hd2|]. intros [Hb|[[Hl Hx]|Hl]]; [apply Hl2; left; by apply Hl1; left|..].
    + destruct (account_change_split _ _ _ _ _ lost_role_split Ha Hl) as [H|H]; apply Hl2;
        [left; apply Hl1; right; by left|right; by left].
    + destruct (account_change_split _ _ _ _ _ was_disabled_split Ha Hl) as [H|H]; apply Hl2;
        [left; apply Hl1; right; by right|right; by right].
Qed.
Lemma change_put L t c s e c' s' e' id a j :
  (∀ x, ¬ L x x) → account_change L j (mkView t c s e) (mkView (<[id := a]> t) c' s' e') →
  j = id ∧ ∃ a0, t !! id = Some a0 ∧ L a0 a.
Proof.
  intros HL (x & x' & Hx & Hx' & Hl). cbn in *. destruct (decide (j = id)) as [->|Hne].
  - rewrite lookup_insert_eq in Hx'. injection Hx' as <-. eauto.
  - rewrite lookup_insert_ne in Hx' by done. rewrite Hx in Hx'. injection Hx' as <-. by destruct (HL x).
Qed.
Lemma lost_role_irrefl a : ¬ lost_role a a.
Proof. unfold lost_role. naive_solver. Qed.
Lemma was_disabled_irrefl a : ¬ was_disabled a a.
Proof. unfold was_disabled. naive_solver. Qed.
(** One account is stored: only its own sessions and credentials can be lost. *)
Lemma keeps_put t c s e id a c' s' e' :
  (∀ k i b, s !! k = Some (i, b) → ∃ b', s' !! k = Some (i, b') ∧
     (b = false ∨ i = id ∧ (∃ a0, t !! id = Some a0 ∧ (lost_role a0 a ∨ was_disabled a0 a)) → b' = false)) →
  (∀ k x, c !! k = Some x → ∃ x', c' !! k = Some x' ∧ dead x' = dead x ∧
     (cd_live x = false ∨ cd_owner x = id ∧ (∃ a0, t !! id = Some a0 ∧ (lost_role a0 a ∧ admin_cred x = true ∨ was_disabled a0 a)) →
      cd_live x' = false)) →
  keeps (mkView t c s e) (mkView (<[id := a]> t) c' s' e').
Proof.
  intros Hs Hc. split_and!.
  - intros j [x Hx]. cbn. destruct (decide (j = id)) as [->|]; [rewrite lookup_insert_eq; by eexists|].
    rewrite lookup_insert_ne by done. by exists x.
  - intros k i b Hk. destruct (Hs k i b Hk) as (b' & Hk' & Hb). exists b'. split; [done|].
    intros [?|[Hl|Hl]]; apply Hb; [by left|right..];
      [apply change_put in Hl as (-> & a0 & ? & ?); [|apply lost_role_irrefl]
      |apply change_put in Hl as (-> & a0 & ? & ?); [|apply was_disabled_irrefl]]; eauto.
  - intros k x Hk. destruct (Hc k x Hk) as (x' & Hk' & Hd & Hb). exists x'. split_and!; [done..|].
    intros [?|[[Hl Hx]|Hl]]; apply Hb; [by left|right..];
      [apply change_put in Hl as (-> & a0 & ? & ?); [|apply lost_role_irrefl]
      |apply change_put in Hl as (-> & a0 & ? & ?); [|apply was_disabled_irrefl]]; eauto 10.
Qed.
Lemma keeps_still t c s e c' s' e' :
  (∀ k i b, s !! k = Some (i, b) → ∃ b', s' !! k = Some (i, b') ∧ (b = false → b' = false)) →
  (∀ k x, c !! k = Some x → ∃ x', c' !! k = Some x' ∧ dead x' = dead x ∧ (cd_live x = false → cd_live x' = false)) →
  keeps (mkView t c s e) (mkView t c' s' e').
Proof.
  intros Hs Hc. split_and!; [by intros j| |].
  - intros k i b Hk. destruct (Hs k i b Hk) as (b' & Hk' & Hb). exists b'. split; [done|].
    intros [?|[(x & x' & H1 & H2 & Hl)|(x & x' & H1 & H2 & Hl)]]; [by apply Hb|..]; cbn in *; simplify_eq;
      [by apply lost_role_irrefl in Hl|by apply was_disabled_irrefl in Hl].
  - intros k x Hk. destruct (Hc k x Hk) as (x' & Hk' & Hd & Hb). exists x'. split_and!; [done..|].
    intros [?|[[(y & y' & H1 & H2 & Hl) _]|(y & y' & H1 & H2 & Hl)]]; [by apply Hb|..]; cbn in *; simplify_eq;
      [by apply lost_role_irrefl in Hl|by apply was_disabled_irrefl in Hl].
Qed.
Lemma close_of_lookup id (s : gmap uuid (uuid * bool)) k i b :
  s !! k = Some (i, b) → close_of id s !! k = Some (i, if bool_decide (i = id) then false else b).
Proof. intros Hk. unfold close_of. rewrite lookup_fmap, Hk. cbn. by case_bool_decide. Qed.
Lemma keeps_step v v' : authority_step v v' → keeps v v'.
Proof.
  intros Hs. destruct Hs.
  - apply keeps_put; [intros k i b Hk; exists b|intros k x Hk; exists x]; naive_solver.
  - apply keeps_put; [intros k i b Hk; exists b|intros k x Hk; exists x]; unfold lost_role, was_disabled; naive_solver.
  - apply keeps_put; [intros k i b Hk; exists b|intros k x Hk; exists x]; unfold lost_role, was_disabled; naive_solver.
  - apply keeps_put.
    + intros k i b Hk. eexists. split; [by apply close_of_lookup|]. case_bool_decide; naive_solver.
    + intros k x Hk. exists (clip id x). split; [by rewrite lookup_fmap, Hk|]. unfold clip, was_disabled, lost_role.
      destruct (bool_decide (cd_owner x = id)) eqn:Ho, (admin_cred x); cbn; split_and!; try done.
      * intros [?|(_ & a0 & ? & Hl)]; [done|]. simplify_eq. cbn in Hl. naive_solver.
      * apply bool_decide_eq_false in Ho. naive_solver.
      * apply bool_decide_eq_false in Ho. naive_solver.
  - apply keeps_put.
    + intros k i b Hk. eexists. split; [by apply close_of_lookup|]. case_bool_decide; naive_solver.
    + intros k x Hk. exists (forfeit id x). split; [by rewrite lookup_fmap, Hk|]. unfold forfeit. case_bool_decide; naive_solver.
  - apply keeps_put; [intros k i b Hk; exists b|intros k x Hk; exists x]; unfold lost_role, was_disabled; naive_solver.
  - apply keeps_put.
    + intros k i b Hk. eexists. split; [by apply close_of_lookup|]. case_bool_decide; naive_solver.
    + intros k x Hk; exists x; unfold lost_role, was_disabled; naive_solver.
  - apply keeps_still; [naive_solver|]. intros k' y Hk. exists y. rewrite lookup_insert_ne; [done|congruence].
  - apply keeps_still; [naive_solver|]. intros k y Hk. exists (if P k then dead y else y).
    unfold retire. rewrite map_lookup_imap, Hk. by destruct (P k).
  - apply keeps_still; [|naive_solver]. intros k' i b Hk. exists b. rewrite lookup_insert_ne; [done|congruence].
  - apply keeps_still; [|naive_solver]. intros k i b Hk. exists (if P k then false else b).
    unfold close. rewrite map_lookup_imap, Hk. by destruct (P k).
  - apply keeps_still; naive_solver.
Qed.
Lemma keeps_steps v v' : rtc authority_step v v' → keeps v v'.
Proof. induction 1; [apply keeps_refl|]. eapply keeps_trans; [by apply keeps_step|done]. Qed.

(** * The operations *)
Section operations.
Context (sha256hex ToLower : string → string) (HashPassword : string → option string).
Notation exec_all := (exec_all sha256hex ToLower HashPassword).
Notation orderly := (orderly sha256hex ToLower HashPassword).
Notation ResolveCredential := (ResolveCredential sha256hex).
Notation ResolveBrowserSessionWithNetwork := (ResolveBrowserSessionWithNetwork sha256hex).

(** ** What a resolved request stands on *)
Lemma resolve_session_open raw now n w d b d1 :
  ResolveBrowserSessionWithNetwork raw now n w d = (inr b, d1) →
  ∃ s, browser_sessions d !! ss_ID b = Some s ∧ session_open s = true.
Proof.
  unfold IdentitySession.ResolveBrowserSessionWithNetwork. destruct (bool_decide _); [done|].
  destruct (find_row _ _) as [[id s]|] eqn:Hf; [|done]. apply find_row_Some in Hf as [Hk _].
  destruct (session_open s) eqn:Ho; [|done]. cbn [negb]. repeat (case_match; [done|]).
  destruct (coalesceSessionActivity _ _ _ _ _) as [b' d'] eqn:Hc. intros [= <- _]. cbn. exists s. split; [|done].
  unfold coalesceSessionActivity in Hc. repeat case_match; simplify_eq; done.
Qed.
Lemma resolve_credential_row key st now pgnow d cr o a d1 :
  ResolveCredential key st now pgnow d = (inr (cr, o, a, None), d1) →
  ∃ r, api_keys d !! cr_ID cr = Some r ∧ effective_credential d pgnow (cr_ID cr) r = Some cr ∧ cr_Eligible cr = true.
Proof.
  unfold IdentityPeople.ResolveCredential. destruct (find_row _ _) as [[id r]|] eqn:Hf; cbn; [|done].
  apply find_row_Some in Hf as [Hk _]. destruct (effective_credential d pgnow id r) as [c|] eqn:He; [|done].
  destruct (cr_Eligible c) eqn:Hel; [|done]. intros [= <- _ _ _]. exists r.
  assert (cr_ID c = id) as ->; [|done]. unfold effective_credential in He.
  destruct (ak_KeyType r), (identities d !! _); cbn in He; try done. destruct (_ && _); [|done]. by injection He as <-.
Qed.
(** An eligible credential with some action is live in the view, and its owner is an active
    account; for automation, an active Admin. *)
Lemma eligible_credential d pgnow id r cr :
  effective_credential d pgnow id r = Some cr → cr_Eligible cr = true → cr_Actions cr ≠ [] →
  ∃ o u, cr_OwnerIdentityID cr = Some o ∧ local_users d !! o = Some u ∧ lu_Status u = LocalUserActive ∧
    cr_Kind cr ∈ both_kinds ∧ (cr_Kind cr = CredentialKindAutomation → lu_Role u = RoleAdmin) ∧
    cred_of r = Some (mkCred (cr_Kind cr) o (cr_Actions cr) true).
Proof.
  unfold effective_credential. destruct (ak_KeyType r) as [kind|] eqn:Hkt; cbn; [|done].
  destruct (identities d !! _) as [ai|]; cbn; [|done]. destruct (_ && _) eqn:Hb; [|done]. intros [= <-]. cbn.
  apply andb_true_iff in Hb as [Hv2 _]. intros Hel Hne. unfold eligible in Hel. rewrite !andb_true_iff in Hel.
  destruct Hel as [[[Hps%bool_decide_eq_true _] Host%bool_decide_eq_true] Hent].
  unfold owner_row in Host, Hent. destruct (ak_Owner r) as [o|] eqn:Ho; cbn in Host, Hent; [|done].
  destruct (local_users d !! o) as [u|] eqn:Hu; cbn in Host, Hent; [|done]. injection Host as Host.
  exists o, u. unfold owner_entitled in Hent. rewrite orb_true_iff, !andb_true_iff, !bool_decide_eq_true in Hent.
  split_and!; [done..| | |].
  - destruct Hent as [[-> _]|[-> _]]; [by left|by right; left].
  - intros ->. by destruct Hent as [[? _]|[_ ?]].
  - unfold cred_of. rewrite Hkt, Ho. cbn. destruct (ak_Actions r) as [acts|]; [|done]. cbn. rewrite Hv2. do 2 f_equal.
    unfold projected_status in Hps. destruct (bool_decide _ && _) eqn:Hr; [|by rewrite Hps].
    apply andb_true_iff in Hr as [->%bool_decide_eq_true _]. done.
Qed.
Lemma authorized_action cr a : AuthorizeAction cr a = inr () → cr_Eligible cr = true ∧ a ∈ cr_Actions cr.
Proof.
  unfold AuthorizeAction. destruct (cr_Eligible cr); [|done]. destruct (ActionsSatisfied _ _) eqn:Hs; [|done]. intros _.
  split; [done|]. unfold ActionsSatisfied in Hs. destruct (ActionFor a); [|done].
  by apply andb_true_iff in Hs as [?%mem_true _].
Qed.

(** C12. Admin authority is always current. Start from tables in which no live Admin credential
    belongs to a non-Admin, and run any orderly sequence of identity operations. Whenever a
    presented bearer key then resolves and is authorized for an Admin-only action, or is an
    automation credential authorized for anything, its owner is an active Admin at that very
    moment. The projection does not test the owner's role for Admin-only actions; that every
    demotion clips them is what makes this hold. *)
Theorem admin_authority_is_current ops d key st now pgnow cr owner actor d1 a :
  roles_checked d → clipped (view_of d) → orderly ops d = true →
  ResolveCredential key st now pgnow (exec_all ops d) = (inr (cr, owner, actor, None), d1) →
  AuthorizeAction cr a = inr () →
  ActionAdminOnly a = true ∨ cr_Kind cr = CredentialKindAutomation →
  ∃ o u, cr_OwnerIdentityID cr = Some o ∧ local_users (exec_all ops d) !! o = Some u ∧
    lu_Role u = RoleAdmin ∧ lu_Status u = LocalUserActive.
Proof.
  intros Hr%roles_checked_view Hc Ho Hres Hau Ha. set (d' := exec_all ops d) in *.
  assert (clipped (view_of d')) as Hc'.
  { eapply rtc_invariant; [apply clipped_step|by apply refine_run|done]. }
  destruct (resolve_credential_row _ _ _ _ _ _ _ _ _ Hres) as (r & Hk & He & Hel).
  apply authorized_action in Hau as [_ Hin]. assert (cr_Actions cr ≠ []) as Hne by (intros E; rewrite E in Hin; by apply not_elem_of_nil in Hin).
  destruct (eligible_credential _ _ _ _ _ He Hel Hne) as (o & u & Hown & Hu & Hst & Hkind & Hauto & Hcred).
  exists o, u. split_and!; [done..| |done]. destruct Ha as [Ha|Ha]; [|by apply Hauto].
  apply elem_of_cons in Hkind as [Hkind|Hkind%list_elem_of_singleton]; [|by apply Hauto].
  destruct (Hc' (cr_ID cr) (mkCred (cr_Kind cr) o (cr_Actions cr) true)) as [st' Hacc]; [|done| |].
  - cbn. by rewrite lookup_omap, Hk.
  - unfold admin_cred. cbn. rewrite orb_true_iff, andb_true_iff. right. split; [by apply bool_decide_eq_true|].
    apply overlaps_true. exists a. split; [done|by apply elem_of_AdminOnlyActions].
  - cbn in Hacc. rewrite lookup_fmap, Hu in Hacc. by injection Hacc as Hacc%NormalizeRole_inv _.
Qed.
(** C14. The last active Admin survives. No orderly sequence of identity operations, in any
    order and with any outcomes, takes a deployment that has an active Admin to one that has
    none. *)
Theorem last_admin_survives ops d :
  roles_checked d → orderly ops d = true → 0 < CountActiveAdmins d → 0 < CountActiveAdmins (exec_all ops d).
Proof.
  intros Hr%roles_checked_view Ho Hp.
  assert (∀ d, 0 < CountActiveAdmins d ↔ has_admin (view_of d)) as Hcount; [|].
  { clear. intros d. unfold CountActiveAdmins. rewrite count_where_pos. unfold has_admin. cbn.
    setoid_rewrite lookup_fmap. split; intros (j & H); exists j.
    - destruct H as (u & -> & Hu). unfold active_admin in Hu. rewrite andb_true_iff, !bool_decide_eq_true in Hu.
      destruct Hu as [Hro Hst]. cbn. unfold account_of. by rewrite Hro, Hst.
    - destruct (local_users d !! j) as [u|]; [|done]. injection H as Hro%NormalizeRole_inv Hst. exists u. split; [done|].
      unfold active_admin. by rewrite Hro, Hst. }
  apply Hcount. eapply rtc_invariant; [apply has_admin_step|by apply refine_run|by apply Hcount].
Qed.

(** ** After a loss of authority *)
(** What is closed or retired in the view never serves a request again. *)
Lemma closed_session_unresolved k d raw now n w b d1 :
  session_closed k (view_of d) → ResolveBrowserSessionWithNetwork raw now n w d = (inr b, d1) → ss_ID b ≠ k.
Proof.
  intros [id Hk] Hr <-. apply resolve_session_open in Hr as (s & Hs & Ho). cbn in Hk. rewrite lookup_fmap, Hs in Hk.
  injection Hk as _ Hk. by rewrite Ho in Hk.
Qed.
Lemma retired_credential_unresolved k d key st now pgnow cr o a d1 act :
  cred_retired k (view_of d) → ResolveCredential key st now pgnow d = (inr (cr, o, a, None), d1) →
  AuthorizeAction cr act = inr () → cr_ID cr ≠ k.
Proof.
  intros (c & Hk & Hl) Hr [_ Hin]%authorized_action <-. apply resolve_credential_row in Hr as (r & Hs & He & Hel).
  assert (cr_Actions cr ≠ []) as Hne by (intros E; rewrite E in Hin; by apply not_elem_of_nil in Hin).
  destruct (eligible_credential _ _ _ _ _ He Hel Hne) as (o' & u & _ & _ & _ & _ & _ & Hc).
  cbn in Hk. rewrite lookup_omap, Hs in Hk. cbn in Hk. rewrite Hc in Hk. by injection Hk as <-.
Qed.
Lemma stays ops d (I : view → Prop) :
  two_roles (view_of d) → (∀ v v', any_step v v' → I v → I v') → I (view_of d) → I (view_of (exec_all ops d)).
Proof. intros Hr Hs. eapply rtc_invariant; [exact Hs|by apply refine_run_any]. Qed.
(** The account [id] lost Admin, or was disabled, between two states. *)
Definition demoted (id : uuid) (d d' : IdentityDB) : Prop :=
  ∃ u u', local_users d !! id = Some u ∧ local_users d' !! id = Some u' ∧ lu_Role u = RoleAdmin ∧ lu_Role u' ≠ RoleAdmin.
Definition deactivated (id : uuid) (d d' : IdentityDB) : Prop :=
  ∃ u u', local_users d !! id = Some u ∧ local_users d' !! id = Some u' ∧
    lu_Status u ≠ LocalUserDisabled ∧ lu_Status u' = LocalUserDisabled.
Lemma demoted_view id d d' : demoted id d d' → account_change lost_role id (view_of d) (view_of d').
Proof.
  intros (u & u' & Hu & Hu' & Hr & Hr'). exists (account_of u), (account_of u'). cbn. rewrite !lookup_fmap, Hu, Hu'.
  split_and!; [done..|]. unfold lost_role. cbn. split; [by rewrite Hr|]. by intros ?%NormalizeRole_inv.
Qed.
Lemma deactivated_view id d d' : deactivated id d d' → account_change was_disabled id (view_of d) (view_of d').
Proof.
  intros (u & u' & Hu & Hu' & Hr & Hr'). exists (account_of u), (account_of u'). cbn. by rewrite !lookup_fmap, Hu, Hu'.
Qed.
(** C13. Authority once lost is not resumed. If over an orderly run an account loses Admin or
    is disabled, then in every later state, whatever runs afterwards (a promotion, a
    re-enablement, even the unguarded endpoint): no session the account had before the run ever
    resolves, and no V2 credential it owned before the run authorizes any action again - all of
    them after a disablement, the automation credentials and those holding an Admin-only action
    after a demotion. *)
Theorem lost_authority_is_not_resumed ops ops' d id :
  roles_checked d → orderly ops d = true →
  demoted id d (exec_all ops d) ∨ deactivated id d (exec_all ops d) →
  (∀ k s raw now n w b d1,
     browser_sessions d !! k = Some s → bs_IdentityID s = id →
     ResolveBrowserSessionWithNetwork raw now n w (exec_all ops' (exec_all ops d)) = (inr b, d1) → ss_ID b ≠ k) ∧
  (∀ k r c key st now pgnow cr o a act d1,
     api_keys d !! k = Some r → cred_of r = Some c → cd_owner c = id →
     admin_cred c = true ∨ deactivated id d (exec_all ops d) →
     ResolveCredential key st now pgnow (exec_all ops' (exec_all ops d)) = (inr (cr, o, a, None), d1) →
     AuthorizeAction cr act = inr () → cr_ID cr ≠ k).
Proof.
  intros Hr%roles_checked_view Ho Hlost. pose proof (refine_run sha256hex ToLower HashPassword ops d Hr Ho) as Hrun.
  destruct (keeps_steps _ _ Hrun) as (_ & Hs & Hc). assert (two_roles (view_of (exec_all ops d))) as Hr' by by eapply two_roles_steps.
  split.
  - intros k s raw now n w b d1 Hk Hid Hres. eapply closed_session_unresolved, Hres. apply stays; [done|apply session_closed_step|].
    destruct (Hs k id (session_open s)) as (b' & Hb & Hf); [cbn; rewrite lookup_fmap, Hk; cbn; unfold session_of; by rewrite Hid|].
    exists id. rewrite Hb, Hf; [done|]. right. destruct Hlost; [left; by apply demoted_view|right; by apply deactivated_view].
  - intros k r c key st now pgnow cr o a act d1 Hk Hcr <- Hx Hres Hau. eapply retired_credential_unresolved; [|exact Hres|exact Hau].
    apply stays; [done|apply cred_retired_step|].
    destruct (Hc k c) as (c' & Hk' & _ & Hf); [cbn; by rewrite lookup_omap, Hk|]. exists c'. split; [done|]. apply Hf. right.
    destruct Hx as [Hx|Hx]; [|right; by apply deactivated_view].
    destruct Hlost; [left; split; [by apply demoted_view|done]|right; by apply deactivated_view].
Qed.
End operations.
