(* ===== verification/AuthorityCutover.v ===== *)
(** The V2 cutover as a whole: what a committed transaction leaves, that the epoch and the
    store's latch only ever advance, and that a ready preflight is kept by the transaction. *)
From S2P Require Import Prelude Json Proc ProcLogic IdentityActions IdentityData IdentityStore IdentityFlows IdentityJourneys IdentitySession IdentityPeople IdentityFacts Authority AuthorityFacts IdentityMachine IdentitySchema IdentityRefine IdentityAuthority.

(** * A committed cutover *)
Lemma count_none {K R} `{Countable K} (P : K → R → bool) (t : gmap K R) message :
  (∀ k r, t !! k = Some r → P k r = false) → failure message (count_where P t) = [].
Proof. intros Hn. by rewrite (proj2 (count_where_zero P t) Hn). Qed.
Lemma keys_no_wildcard t k r : keys_table t → t !! k = Some r → has_wildcard r = false.
Proof.
  intros [Hr _] Hk. destruct (Hr k r Hk) as [Hc _]. unfold api_key_checks in Hc. rewrite !andb_true_iff in Hc.
  destruct Hc as [[[[_ Hc] _] _] _]. unfold has_wildcard. destruct (ak_Actions r); [|done]. cbn in Hc |- *.
  apply andb_true_iff in Hc as [_ Hc]. by apply negb_true_iff in Hc.
Qed.
(** A role granted exactly the approved reads has none missing and none left over. *)
Lemma grant_union_exact d role relations view :
  verifyGatewayGrantUnion (put_acl (mkAcl role relations (list_to_set approvedGatewayReadObjects) view) d) = [].
Proof.
  unfold verifyGatewayGrantUnion. cbn [gateway_acl put_acl acl_Role acl_Relations acl_Select]. generalize approvedGatewayReadObjects.
  intros l. destruct role; [|done]. cbn [negb]. replace ((relations ∩ list_to_set l) ∖ list_to_set l) with (∅ : gset string).
  2:{ symmetry. apply leibniz_equiv, equiv_empty. intros x [[_ Hx]%elem_of_intersection Hn]%elem_of_difference. by destruct Hn. }
  rewrite size_empty. change (0 <? Z.of_nat 0) with false. cbn [app].
  replace (filter _ l) with (@nil string); [done|]. symmetry. apply elem_of_nil_inv.
  intros o [[_ Hn] Ho]%list_elem_of_filter. apply Hn. by apply elem_of_list_to_set.
Qed.
Lemma grants_verified d d' : applyGatewayAuthorityGrantsTx d = inr ((), d') →
  acl_LegacyView (gateway_acl d') = false ∧ verifyGatewayGrantUnion d' = [].
Proof.
  unfold applyGatewayAuthorityGrantsTx. intros H. id_inv; (split; [done|]); [apply grant_union_exact|done].
Qed.
Lemma swept_v2 opts d k r :
  api_keys (swept opts d) !! k = Some r → unrevoked r = true → ak_Epoch r = AuthorityEpochV2.
Proof.
  cbn. rewrite lookup_update_where. destruct (api_keys d !! k) as [r0|]; [|done]. cbn. intros [= <-] Hu.
  destruct (legacy_unmapped k r0) eqn:Hl; [done|]. unfold legacy_unmapped in Hl. rewrite Hu in Hl. cbn in Hl.
  by apply negb_false_iff, bool_decide_eq_true in Hl.
Qed.
(** C15. A committed cutover is complete. When the locked transaction commits on well-formed
    tables, the epoch is V2, no account has the legacy role, every credential not revoked is a
    V2 credential without a legacy scope, and the verification that follows passes without a
    failure at whatever time it runs: no live pre-epoch credential, no wildcard, no legacy scope,
    no legacy gateway view, and exactly the approved gateway reads. *)
Theorem committed_cutover_verifies ToLower opts pf pgnow d report d' :
  schema d → cutover_tx ToLower opts pf pgnow d = inr (Some report, d') →
  au_Epoch (authority_state d') = AuthorityEpochV2 ∧
  (∀ k u, local_users d' !! k = Some u → lu_Role u ∈ [RoleAdmin; RoleOperator]) ∧
  (∀ k r, api_keys d' !! k = Some r → unrevoked r = true → ak_Epoch r = AuthorityEpochV2 ∧ ak_Scope r = None) ∧
  ∀ t, VerifyAuthority t d' = mkVerification true [] [("epoch", 1)].
Proof.
  intros Hd H. destruct (schema_cutover _ _ _ _ _ _ _ Hd H) as [Hkeys [Husers _]].
  apply cutover_inr in H as [(? & _)|(? & n & d3 & acl & au & ev & _ & He & _ & Hro & H1 & Hacl & Hv2 & Hd')]; [done|].
  assert (au_Epoch (authority_state d') = AuthorityEpochV2) as Hep by by subst d'.
  assert (∀ k u, local_users d' !! k = Some u → lu_Role u ∈ [RoleAdmin; RoleOperator]) as Hroles.
  { intros k u Hu. destruct (Husers k u Hu) as [Hr _]. unfold role_check in Hr. rewrite Hep in Hr. cbn in Hr.
    rewrite andb_false_r, orb_false_r in Hr. by apply mem_true in Hr. }
  assert (∀ k r, api_keys d' !! k = Some r → unrevoked r = true → ak_Epoch r = AuthorityEpochV2 ∧ ak_Scope r = None) as Hv.
  { intros k r Hk Hu. assert (ak_Epoch r = AuthorityEpochV2) as Hr by (rewrite Hd' in Hk; eapply swept_v2; [exact Hk|done]).
    split; [done|]. by apply (proj1 Hkeys k r Hk). }
  split_and!; [done..|]. intros t. unfold VerifyAuthority. rewrite Hep. cbn [negb bool_decide].
  destruct (grants_verified _ _ Hacl) as [Hview Hunion].
  rewrite (bool_decide_eq_true_2 (AuthorityEpochV2 = _)) by done. cbn [negb].
  rewrite !count_none.
  - replace (acl_LegacyView (gateway_acl d')) with false by (rewrite Hd'; cbn; exact (eq_sym Hview)).
    replace (verifyGatewayGrantUnion d') with (@nil string) by (rewrite Hd'; exact (eq_sym Hunion)). done.
  - intros k r Hk. destruct (unrevoked r) eqn:Hu; [|done]. destruct (Hv k r Hk Hu) as [_ ->]. done.
  - intros k r Hk. by eapply keys_no_wildcard.
  - intros k r Hk. unfold legacy_live. destruct (unrevoked r) eqn:Hu; [|by rewrite andb_false_r].
    destruct (Hv k r Hk Hu) as [-> _]. done.
  - intros k u Hu. unfold legacy_role. apply bool_decide_eq_false. intros Hr. specialize (Hroles k u Hu). rewrite Hr in Hroles.
    by apply elem_of_cons in Hroles as [?|?%list_elem_of_singleton].
Qed.

(** * The epoch and the latch *)
Section latch.
Context (sha256hex ToLower : string → string) (HashPassword : string → option string).
Notation exec_all := (exec_all sha256hex ToLower HashPassword).
Definition epoch_of (s : AuthorityStore) : Epoch := au_Epoch (authority_state (st_db s)).
(** The latch tells the truth. *)
Definition latch_sound (s : AuthorityStore) : Prop :=
  schema (st_db s) ∧ (st_latch s = true → epoch_of s = AuthorityEpochV2).
(** Other connections and other calls on the same store: any identity operations, and a
    latch set by a call that found the epoch at V2. *)
Definition others (s s' : AuthorityStore) : Prop :=
  (∃ ops, st_db s' = exec_all ops (st_db s)) ∧
  (st_latch s' = st_latch s ∨ epoch_of s' = AuthorityEpochV2).

Lemma schema_roles d : schema d → two_roles (view_of d).
Proof. intros [_ [Hu _]]. apply roles_checked_view. intros id u Hl. by apply (Hu id u). Qed.
Lemma epoch_irreversible ops d :
  schema d → au_Epoch (authority_state d) = AuthorityEpochV2 → au_Epoch (authority_state (exec_all ops d)) = AuthorityEpochV2.
Proof. intros Hd He. apply (stays sha256hex ToLower HashPassword ops d (λ v, v_epoch v = AuthorityEpochV2)); [by apply schema_roles|apply epoch_step|done]. Qed.
Lemma others_epoch s s' : others s s' → schema (st_db s) → epoch_of s = AuthorityEpochV2 → epoch_of s' = AuthorityEpochV2.
Proof. intros [[ops Hd] _] Hs He. unfold epoch_of. rewrite Hd. by apply epoch_irreversible. Qed.
Lemma others_sound s s' : others s s' → latch_sound s → latch_sound s'.
Proof.
  intros Ho [Hs Hl]. split.
  - destruct Ho as [[ops ->] _]. by apply schema_run.
  - intros Hl'. pose proof Ho as [_ [He|He]]; [|done]. eapply others_epoch; [done..|]. apply Hl. by rewrite <- He.
Qed.
(** The assertion of a step that found the epoch at [e]. *)
Definition knows (e : Epoch) (s : AuthorityStore) : Prop :=
  latch_sound s ∧ (e = AuthorityEpochV2 → epoch_of s = AuthorityEpochV2).
Lemma knows_stable e s s' : others s s' → knows e s → knows e s'.
Proof. intros Ho [Hs He]. split; [by eapply others_sound|]. intros ->. eapply others_epoch; [done|apply Hs|by apply He]. Qed.
Lemma epoch_establishes : establishes others knows latch_sound AuthorityEpoch.
Proof.
  unfold AuthorityEpoch. eapply (establishes_bind _ (λ (b : bool) s, latch_sound s ∧ (b = true → epoch_of s = AuthorityEpochV2))).
  { apply establishes_atomically.
    - intros b s s' Ho [Hs He]. split; [by eapply others_sound|]. intros Hb. eapply others_epoch; [done|apply Hs|by apply He].
    - intros s Hs. split; [done|]. cbn. apply Hs. }
  intros [|]; [intros s [Hs He]; split; auto|].
  eapply (establishes_bind _ knows).
  { apply establishes_atomically; [apply knows_stable|]. intros s [Hs _]. by split. }
  intros e. case_bool_decide as Hb; [|by intros s Hs]. subst e.
  eapply (establishes_bind _ (λ _, knows AuthorityEpochV2)); [|by intros [] s Hs].
  apply establishes_atomically; [intros []; apply knows_stable|]. intros [db l] [[Hs _] He]. split; [|done]. split; [done|]. by intros _; apply He.
Qed.
Lemma cutover_knows opts pf pgnow s :
  latch_sound s →
  let r := on_db (run_tx (cutover_tx ToLower opts pf pgnow)) s in
  latch_sound r.2 ∧ (∀ o, r.1 = inr o → epoch_of r.2 = AuthorityEpochV2).
Proof.
  intros [Hs Hl]. destruct s as [d l]. cbn in *. unfold on_db, run_tx. cbn.
  destruct (cutover_tx ToLower opts pf pgnow d) as [e|[o d']] eqn:H; cbn; [done|].
  assert (au_Epoch (authority_state d') = AuthorityEpochV2) as He.
  { apply cutover_inr in H as [(_ & -> & ?)|(? & n & d3 & acl & au & ev & _ & _ & _ & _ & _ & _ & Hv2 & ->)]; done. }
  split; [|by intros; apply He]. split; [|done]. cbn. by eapply schema_cutover.
Qed.
Lemma verification_knows v now e s : knows e s → knows e (on_db (run_tx (recordVerification v now)) s).2.
Proof. destruct s as [d l]. intros [[Hs Hl] He]. by split_and!. Qed.
Lemma cutover_establishes opts :
  establishes others (λ r s, knows (if r is inr _ then AuthorityEpochV2 else AuthorityEpochLegacy) s) latch_sound
    (CutoverAuthority ToLower opts).
Proof.
  unfold CutoverAuthority. eapply establishes_bind; [apply epoch_establishes|]. intros e.
  case_bool_decide as He; [subst e; by intros s Hs|].
  eapply (establishes_bind _ (λ _, latch_sound)).
  { unfold PreflightAuthorityError. intros pgnow. cbn. intros got. exists latch_sound.
    split_and!; [apply others_sound|intros s s' [Hs _] [= _ <-]; done|by intros s Hs]. }
  intros [err|pf]; [by intros s Hs|]. intros pgnow.
  eapply (establishes_bind _ (λ r s, knows (if r is inr _ then AuthorityEpochV2 else AuthorityEpochLegacy) s)).
  { apply establishes_atomically; [intros r; apply knows_stable|]. intros s Hs.
    destruct (cutover_knows opts pf pgnow s Hs) as [H1 H2]. split; [done|]. destruct (_.1) eqn:Hr; [done|]. intros _. by eapply H2. }
  intros [err|[report|]]; [by intros s Hs| |by intros s Hs].
  eapply (establishes_bind _ (λ _, knows AuthorityEpochV2)).
  { apply establishes_atomically; [intros []; apply knows_stable|]. intros [d l] [[Hs _] Hv2]. split; [|done].
    split; [done|]. by intros _; apply Hv2. }
  intros [] pgnow2. eapply (establishes_bind _ (λ _, knows AuthorityEpochV2)).
  { by apply establishes_atomically; [intros v; apply knows_stable|]. }
  intros v. eapply (establishes_bind _ (λ _, knows AuthorityEpochV2)); [|by intros _ s Hs].
  apply establishes_atomically; [intros r; apply knows_stable|]. intros s Hs. by apply verification_knows.
Qed.
(** The V2 gate is sound and permanent. Whatever other connections and calls do meanwhile,
    when [RequireAuthorityV2] lets a request pass, or [CutoverAuthority] returns a report, the
    database's epoch is V2 at that moment; no sequence of identity operations takes it back;
    and the store's latch, which answers without asking the database, stays truthful. *)
Theorem authority_gate_is_sound s s' :
  latch_sound s →
  (psteps others RequireAuthorityV2 s (Ret (inr ())) s' ∨
   ∃ opts report, psteps others (CutoverAuthority ToLower opts) s (Ret (inr report)) s') →
  latch_sound s' ∧ ∀ ops, au_Epoch (authority_state (exec_all ops (st_db s'))) = AuthorityEpochV2.
Proof.
  intros Hs Hrun. assert (knows AuthorityEpochV2 s') as [Hs' He].
  { destruct Hrun as [Hrun|(opts & report & Hrun)].
    - refine (establishes_sound others (λ r, knows (if r is inr _ then AuthorityEpochV2 else AuthorityEpochLegacy))
        latch_sound RequireAuthorityV2 s (inr ()) s' others_sound _ Hs Hrun).
      eapply establishes_bind; [apply epoch_establishes|]. intros e s1 Hk. cbn. by case_bool_decide; [subst e|destruct Hk].
    - exact (establishes_sound others _ latch_sound _ s (inr report) s' others_sound (cutover_establishes opts) Hs Hrun). }
  split; [done|]. intros ops. apply epoch_irreversible; [apply Hs'|by apply He].
Qed.
End latch.

(** * Preflight and transaction *)
(** A mapping resolved for one reading of a key resolves for another that differs only in
    the identity it names and the spelling of the role. *)
Lemma resolve_owner_transfer kind mapping key key' ow ac :
  resolve_owner kind mapping key = inr (ow, ac) →
  (∀ mp, mapping = Some mp → lm_ActorIdentityID mp = EmptyString → lm_OwnerIdentityID mp ≠ lc_identityID key') →
  ∃ ow' ac', resolve_owner kind mapping key' = inr (ow', ac') ∧ (kind = CredentialKindAutomation → ow' = ow).
Proof.
  intros Ho Hid. unfold resolve_owner in *. destruct (decide (kind = CredentialKindAutomation)) as [Hau|Hau];
    [rewrite bool_decide_eq_true_2 in Ho |- * by done|rewrite bool_decide_eq_false_2 by done].
  2:{ eexists _, _. split; [reflexivity|]. intros Hc. by destruct (Hau Hc). }
  destruct mapping as [mp|]; [|done]. destruct (_ || _) eqn:Hb; [done|].
  injection Ho as <- <-. rewrite orb_false_iff, !bool_decide_eq_false in Hb. destruct Hb as [Hne Hna].
  exists (lm_OwnerIdentityID mp), (firstNonEmpty (lm_ActorIdentityID mp) (lc_identityID key')). split; [|done].
  rewrite (bool_decide_eq_false_2 (lm_OwnerIdentityID mp = EmptyString)) by done. cbn [orb].
  rewrite bool_decide_eq_false_2; [done|]. unfold firstNonEmpty in *. intros He. revert Hna. rewrite He.
  case_bool_decide; [|done]. by destruct (Hid mp).
Qed.
Lemma resolve_transfer key key' m now spec :
  resolveLegacyMapping key m now = inr spec →
  lc_prefix key' = lc_prefix key → lc_scope key' = lc_scope key → lc_kind key' = lc_kind key →
  lc_hasLocalUser key' = lc_hasLocalUser key → NormalizeRole (lc_role key') = NormalizeRole (lc_role key) →
  (∀ mp, cm_Credentials m !! lc_prefix key = Some mp → lm_ActorIdentityID mp = EmptyString →
     lm_OwnerIdentityID mp ≠ lc_identityID key') →
  ∃ spec', resolveLegacyMapping key' m now = inr spec' ∧ ms_kind spec' = ms_kind spec ∧
    (ms_kind spec = CredentialKindAutomation → ms_ownerID spec' = ms_ownerID spec).
Proof.
  intros Hr Hp Hsc Hk Hl Hro Hid. unfold resolveLegacyMapping in *. rewrite Hp, Hsc, Hk, Hl, Hro.
  destruct (legacyScopeActions _) as [sa|]; [|done]. set (kind := legacyMappingKind _ _ _) in *.
  apply result_bind_inr in Hr as ([ow ac] & Ho & Hr).
  destruct (resolve_owner_transfer _ _ _ key' _ _ Ho Hid) as (ow' & ac' & -> & Heq).
  inv_res. cbn [mbind result_bind] in *. rewrite H. cbn. rewrite H0. cbn. unfold fail_if. rewrite H1. cbn.
  destruct (ValidateActions _ _ _) as [|[]]; [done|]. injection Hr as <-. eexists. split; [reflexivity|]. done.
Qed.
(** What a ready report says of the state it was taken from. *)
Lemma block_nil code n : block code n = [] → 0 ≤ n → n = 0.
Proof. unfold block. destruct (n <=? 0) eqn:Hn; [|done]. lia. Qed.
Lemma count_list_zero {A} (P : A → bool) (l : list A) : count_list P l = 0 → ∀ x, x ∈ l → P x = false.
Proof.
  unfold count_list. intros Hz x Hx. destruct (P x) eqn:HP; [|done]. exfalso.
  assert (x ∈ filter (λ y, P y = true) l) as Hin by by apply list_elem_of_filter.
  destruct (filter (λ y, P y = true) l); [by apply not_elem_of_nil in Hin|]. cbn in Hz. lia.
Qed.
Lemma tally_zero x l : tally x l = 0 → x ∉ l.
Proof.
  unfold tally. intros Hz Hx. assert (x ∈ filter (λ y, y = x) l) as Hin by by apply list_elem_of_filter.
  destruct (filter (λ y, y = x) l); [by apply not_elem_of_nil in Hin|]. cbn in Hz. lia.
Qed.
Lemma ready_inv opts pgnow d rep :
  PreflightAuthority opts pgnow d = inr rep → pr_Ready rep = true →
  co_ExpectedFingerprint opts = authoritySourceFingerprint d ∧ deleted_legacy d pgnow = [] ∧
  (∀ key, key ∈ preflight_legacy d pgnow → carried key = true →
     ∃ spec, resolveLegacyMapping key (co_Manifest opts) (co_Now opts) = inr spec) ∧
  (∀ key p, p ∈ dom (cm_Credentials (co_Manifest opts)) → manifestTarget (preflight_legacy d pgnow) p = Some key →
     owner_ineligible d (co_Manifest opts) (co_Now opts) key = false).
Proof.
  unfold PreflightAuthority. destruct (mapM _ _) as [l|] eqn:Hm; [|done]. intros [= <-]. cbn [pr_Ready].
  rewrite bool_decide_eq_true, !app_nil.
  intros (_ & Hdel & Hun & Hsvc & Hrate & Hwid & Hshape & Hact & Hown & _ & _ & _ & Hfp & _).
  split_and!.
  - destruct (blank _); [done|]. destruct (bool_decide _) eqn:Hb; [by apply bool_decide_eq_true in Hb|done].
  - by apply fmap_nil_inv in Hdel.
  - intros key Hin Hc. apply mapM_Some_1 in Hm. assert (key ∈ filter (λ k, carried k = true) (preflight_legacy d pgnow)) as Hf
      by by apply list_elem_of_filter.
    apply list_elem_of_lookup in Hf as [i Hi]. destruct (Forall2_lookup_l _ _ _ _ _ Hm Hi) as (c & Hcl & Hcf).
    apply list_elem_of_lookup_2 in Hcl. unfold classify in Hcf.
    destruct (resolveLegacyMapping _ _ _) as [e|spec]; [|by exists spec]. exfalso.
    repeat match goal with H : block _ (tally ?x l) = [] |- _ => apply block_nil in H; [apply tally_zero in H|unfold tally; lia] end.
    destruct e; [| |..]; try (by injection Hcf as <-); [|done].
    injection Hcf as Hcf. by case_bool_decide; subst c.
  - intros key p Hp Ht. apply block_nil in Hown; [|unfold count_list; lia].
    apply (count_list_zero _ _ Hown). apply list_elem_of_omap. exists p. split; [|done].
    apply elem_of_dom in Hp as [mp Hp]. apply list_elem_of_fmap. exists (p, mp). split; [done|]. by apply elem_of_map_to_list.
Qed.
Section kept.
Context (ToLower : string → string) (opts : CutoverOptions) (pgnow0 pgnow : timestamp) (d : IdentityDB) (Hlater : pgnow0 ≤ pgnow).
Notation d2 := (withdrawn opts (rewritten opts pgnow d)).

(** Time only takes keys out. *)
Lemma legacy_rows_later kr : kr ∈ legacy_rows d pgnow → kr ∈ legacy_rows d pgnow0.
Proof.
  unfold legacy_rows. intros [[Hl Hi] Hin]%list_elem_of_filter. apply list_elem_of_filter. split_and!; [|done|done].
  unfold legacy_live, unexpired in *. rewrite !andb_true_iff in *. destruct Hl as [? Hx]. split; [done|].
  destruct (ak_ExpiresAt kr.2); [|done]. cbn in *. lia.
Qed.
(** A row the loop reads was read by the preflight, unchanged, and carries no authority scope. *)
Lemma loop_row id r :
  (id, r) ∈ legacy_rows d2 pgnow → (id, r) ∈ legacy_rows d pgnow0 ∧ carried (read_legacy d id r) = true.
Proof.
  intros Hrow. assert ((id, r) ∈ legacy_rows d pgnow ∧ carried (read_legacy d id r) = true) as [? ?]; [|split; [by apply legacy_rows_later|done]].
  revert Hrow.
  unfold legacy_rows. intros [[Hl Hi] Hin%elem_of_map_to_list]%list_elem_of_filter. cbn in Hin, Hi, Hl.
  rewrite lookup_update_where in Hin. destruct (api_keys d !! id) as [r0|] eqn:Hr; [|done]. cbn in Hin.
  destruct (legacy_authority id r0) eqn:Ha.
  { injection Hin as <-. unfold legacy_live in Hl. cbn in Hl. by rewrite !andb_false_r in Hl. }
  injection Hin as ->. split; [apply list_elem_of_filter; split; [done|by apply elem_of_map_to_list]|].
  unfold carried. cbn. apply negb_true_iff, mem_false. unfold legacy_live in Hl. rewrite !andb_true_iff in Hl.
  destruct Hl as [[_ Hun] _]. unfold legacy_authority, scope_is in Ha. rewrite Hun in Ha. cbn in Ha.
  rewrite orb_false_iff, !bool_decide_eq_false in Ha. destruct Ha as [H1 H2].
  destruct (ak_Scope r) as [sc|]; cbn; [|by intros [?|?%list_elem_of_singleton]%elem_of_cons].
  intros [->| ->%list_elem_of_singleton]%elem_of_cons; congruence.
Qed.
Lemma rewritten_role id :
  NormalizeRole (default EmptyString (lu_Role <$> local_users d2 !! id)) =
    NormalizeRole (default EmptyString (lu_Role <$> local_users d !! id)) ∧
  is_null (local_users d2 !! id) = is_null (local_users d !! id) ∧
  (active_admin_role <$> local_users d2 !! id) = (active_admin_role <$> local_users d !! id).
Proof.
  cbn. rewrite lookup_update_where. destruct (local_users d !! id) as [u|]; cbn; [|done].
  destruct (legacy_role id u) eqn:Hl; [|done]. unfold legacy_role in Hl. apply bool_decide_eq_true in Hl.
  split_and!; [by rewrite Hl|done|]. unfold active_admin_role. by rewrite Hl.
Qed.

Context (rep : PreflightReport) (Hpre : PreflightAuthority opts pgnow0 d = inr rep) (Hready : pr_Ready rep = true)
  (Hprefix : NoDup ((λ kr : uuid * ApiKeyRow, ak_Prefix kr.2) <$> legacy_rows d pgnow0))
  (Hactor : ∀ id r mp, (id, r) ∈ legacy_rows d pgnow0 → cm_Credentials (co_Manifest opts) !! ak_Prefix r = Some mp →
     lm_ActorIdentityID mp = EmptyString → lm_OwnerIdentityID mp ≠ ak_IdentityID r).

Lemma preflight_reads id r : (id, r) ∈ legacy_rows d pgnow0 → read_legacy d id r ∈ preflight_legacy d pgnow0.
Proof.
  intros Hin. destruct (ready_inv _ _ _ _ Hpre Hready) as (_ & Hdel & _). unfold preflight_legacy.
  apply list_elem_of_fmap. exists (id, r). split; [done|]. apply list_elem_of_filter. split.
  - cbn. destruct (user_live d (ak_IdentityID r)) eqn:Hl; [done|]. exfalso.
    assert ((id, r) ∈ deleted_legacy d pgnow0) as Hd by (apply list_elem_of_filter; by split).
    rewrite Hdel in Hd. by apply not_elem_of_nil in Hd.
  - by rewrite merge_sort_Permutation.
Qed.
Lemma preflight_target id r : (id, r) ∈ legacy_rows d pgnow0 →
  manifestTarget (preflight_legacy d pgnow0) (ak_Prefix r) = Some (read_legacy d id r).
Proof.
  intros Hin. unfold manifestTarget. destruct (List.find _ _) as [key|] eqn:Hf.
  - apply find_some in Hf as [Hk Hp%bool_decide_eq_true]. apply list_elem_of_In in Hk. unfold preflight_legacy in Hk.
    apply list_elem_of_fmap in Hk as ([id' r'] & -> & Hk). apply list_elem_of_filter in Hk as [_ Hk].
    rewrite merge_sort_Permutation in Hk. cbn in Hp. f_equal.
    assert ((id', r') = (id, r)) as [= -> ->]; [|done].
    apply list_elem_of_lookup in Hk as [i Hi]. apply list_elem_of_lookup in Hin as [j Hj].
    assert (i = j) as ->; [|congruence]. eapply (NoDup_lookup _ i j (ak_Prefix r) Hprefix); rewrite list_lookup_fmap.
    + rewrite Hi. cbn. by rewrite Hp.
    + by rewrite Hj.
  - apply preflight_reads, list_elem_of_In in Hin. apply (find_none _ _ Hf) in Hin. by rewrite bool_decide_eq_true_2 in Hin.
Qed.
Lemma store_key_error id r x e : store_key id r x = inl e → e = ErrConstraint.
Proof.
  unfold store_key, mbind, tx_bind, tx_get, tx_require, tx_modify. cbn.
  destruct (_ && _); cbn; [|naive_solver]. destruct (negb _); cbn; naive_solver.
Qed.
Lemma map_credential_error id spec x e : map_credential id spec x = inl e → e = ErrConstraint.
Proof.
  unfold map_credential. intros [H|(? & ? & [<- <-]%tx_get_inr & H)]%tx_bind_inl; [done|].
  destruct (api_keys _ !! id) as [r|]; [|done]. destruct (unrevoked r); [|done].
  apply tx_bind_inl in H as [H|(? & ? & _ & H)]; [by apply store_key_error in H|done].
Qed.
Lemma map_one_kept id r x :
  (id, r) ∈ legacy_rows d2 pgnow → local_users x = local_users d2 → map_one opts d2 (id, r) x ≠ inl ErrAuthorityCutoverBlocked.
Proof.
  intros Hin Hx. apply loop_row in Hin as [Hin Hc]. destruct (ready_inv _ _ _ _ Hpre Hready) as (_ & _ & Hres & Hown).
  destruct (Hres _ (preflight_reads _ _ Hin) Hc) as [spec Hspec].
  destruct (rewritten_role (ak_IdentityID r)) as (Hrole & Hnull & _).
  destruct (resolve_transfer _ (read_legacy d2 (ak_IdentityID r) r) _ _ _ Hspec) as (spec' & Hspec' & Hkind & Howner);
    [done|done|done|unfold read_legacy; cbn [lc_hasLocalUser]; by rewrite Hnull|exact Hrole|intros; by eapply Hactor|].
  unfold map_one. rewrite Hspec'. case_bool_decide as Hp.
  - destruct (humanOwnerIsMappable _); [|done]. by intros ?%map_credential_error.
  - intros [H|(? & ? & [<- <-]%tx_get_inr & H)]%tx_bind_inl; [done|].
    apply tx_bind_inl in H as [H|(? & ? & _ & H)]; [|by apply map_credential_error in H].
    assert (ms_kind spec = CredentialKindAutomation) as Hauto.
    { destruct (mapping_cases _ _ _ _ Hspec) as [[? _]|[? _]]; [|done]. by rewrite Hkind in Hp. }
    assert (default false (active_admin_role <$> local_users d !! ms_ownerID spec) = true) as Hadm.
    { destruct (resolve_inv _ _ _ _ Hspec) as (_ & _ & Hk & Ho & _).
      assert (is_Some (cm_Credentials (co_Manifest opts) !! ak_Prefix r)) as Hm.
      { unfold resolve_owner in Ho. rewrite Hauto, bool_decide_eq_true_2 in Ho by done.
        change (lc_prefix _) with (ak_Prefix r) in Ho. destruct (cm_Credentials _ !! _); [by eexists|done]. }
      apply elem_of_dom in Hm. specialize (Hown _ _ Hm (preflight_target _ _ Hin)). unfold owner_ineligible in Hown.
      rewrite <- Hk, Hauto, Hspec in Hown. cbn in Hown. by apply negb_false_iff in Hown. }
    rewrite Hx, Howner in H by done. destruct (rewritten_role (ms_ownerID spec)) as (_ & _ & Heq).
    unfold tx_require in H. cbn [local_users] in H, Heq. rewrite Heq, Hadm in H. done.
Qed.
Lemma map_all_kept l x :
  l ⊆ legacy_rows d2 pgnow → local_users x = local_users d2 → map_all opts d2 l x ≠ inl ErrAuthorityCutoverBlocked.
Proof.
  revert x. induction l as [|[id r] l IH]; intros x Hl Hx; cbn [map_all]; [done|].
  intros [H|(n & x1 & H1 & H)]%tx_bind_inl; [revert H; apply map_one_kept; [by apply Hl; left|done]|].
  apply tx_bind_inl in H as [H|(? & ? & _ & H)]; [|done]. revert H. apply IH; [intros y Hy; apply Hl; by right|].
  by apply map_one_keys in H1 as [t ->].
Qed.
(** C16. A ready preflight is kept. If the preflight of a state reports ready, then the cutover
    transaction run on that state, at the same or any later database time (the two read the
    clock separately, and keys may expire in between), is not refused: it can only meet a
    database constraint, never the blocked error. This needs what the preflight leaves unchecked: the live legacy keys have
    distinct prefixes (the manifest names keys by prefix), and no manifest entry that leaves the
    actor to default names the key's own bound identity as the owner. *)
Theorem ready_preflight_is_kept : cutover_tx ToLower opts rep pgnow d ≠ inl ErrAuthorityCutoverBlocked.
Proof.
  destruct (ready_inv _ _ _ _ Hpre Hready) as (Hfp & _). unfold cutover_tx.
  intros [H|(? & ? & [<- <-]%tx_get_inr & H)]%tx_bind_inl; [done|]. destruct (bool_decide _); [done|].
  rewrite Hfp in H. apply tx_bind_inl in H as [H|([] & d1 & [_ <-]%tx_require_inr & H)];
    [by rewrite (bool_decide_eq_true_2 (_ = _)) in H|].
  apply tx_bind_inl in H as [H|([] & d1 & <-%tx_modify_inr & H)]; [done|].
  apply tx_bind_inl in H as [H|(? & ? & [<- <-]%tx_get_inr & H)]; [done|].
  apply tx_bind_inl in H as [H|([] & d1 & [_ <-]%tx_require_inr & H)]; [unfold tx_require in H; by destruct (bool_decide _)|].
  apply tx_bind_inl in H as [H|([] & d1 & <-%tx_modify_inr & H)]; [done|].
  apply tx_bind_inl in H as [H|(n & d3 & _ & H)].
  { unfold mapLegacyCredentialsTx in H. apply tx_bind_inl in H as [H|(? & ? & [<- <-]%tx_get_inr & H)]; [done|].
    revert H. by apply map_all_kept. }
  apply tx_bind_inl in H as [H|(? & ? & [<- <-]%tx_get_inr & H)]; [done|].
  apply tx_bind_inl in H as [H|([] & d4 & _ & H)]; [done|].
  apply tx_bind_inl in H as [H|([] & d5 & _ & H)].
  { unfold applyGatewayAuthorityGrantsTx in H. apply tx_bind_inl in H as [H|(? & ? & [<- <-]%tx_get_inr & H)]; [done|].
    destruct (acl_Role _); [|done]. apply tx_bind_inl in H as [H|(? & ? & _ & H)]; [|done]. unfold tx_require in H.
    by destruct (bool_decide _). }
  repeat (apply tx_bind_inl in H as [H|(? & ? & _ & H)]; [done|]). done.
Qed.
End kept.
