(* ===== verification/IdentityDemo.v ===== *)
(** A deployment's first days: two Admins join, one is demoted, the authority epoch advances.
    Concrete runs at which the properties of the identity component are instantiated. *)
From S2P Require Import Prelude Json Proc IdentityActions IdentityData IdentityStore IdentityFlows IdentityJourneys IdentitySession IdentityPeople IdentityFacts Authority AuthorityFacts IdentityMachine IdentityRace IdentitySchema IdentityLinks IdentityRefine IdentityAuthority AuthorityCutover.

(** * A deployment *)
Definition plain (s : string) : string := s.
Definition any_password (s : string) : option string := Some s.
Notation run := (exec_all plain plain any_password).
Definition no_authority : AuthorityRow :=
  mkAuthority AuthorityEpochLegacy None None (JObj []) None None None None (JObj []) None (JObj []).
Definition fresh_acl : GatewayAcl :=
  mkAcl true (list_to_set (usage_ledger :: "identity.active_api_keys" :: "identity.api_keys" :: approvedGatewayReadObjects))
    {[ "identity.api_keys" ]} true.
Definition nothing : IdentityDB := mkIdentityDB ∅ ∅ ∅ ∅ [] ∅ ∅ ∅ ∅ [] ∅ None no_authority fresh_acl.
Definition mail (link raw outbox : string) (t : timestamp) : list idop :=
  [OpClaimEmails ∅ "worker" 10 60 t; OpCreateLink link raw outbox t t].
Definition arrivals : list idop :=
  [OpBootstrap "ana" "m1" "m1b" (mkBootstrapOptions "ana@x.io" "en" false) 10 10] ++ mail "l1" "tokenA" "m1" 20 ++
  [OpCompleteSetup "tokenA" "Ana" "en" "secret" 30 30; OpCreateOrResend "q" "m2" "bo@x.io" "bo@x.io" "en" 40 40] ++
  mail "l2" "tokenB" "m2" 50 ++ [OpVerify "tokenB" 60; OpApprove "bo" "m3" "q" "ana" RoleAdmin 70 70] ++
  mail "l3" "tokenC" "m3" 80 ++ [OpCompleteSetup "tokenC" "Bo" "en" "secret" 90 90].
Definition session_params : CreateBrowserSessionParams :=
  mkSessionParams "bo" "csrf" 1000000 9000000 100 None "Firefox" "Linux" "desktop" "PT" "11" None.
Definition people_reader : CreateCredentialParams :=
  mkCredentialParams CredentialKindPersonal "bo" "bo" "reader" "" [ActionPeopleRead] 60 1000 (Some 9000000) "ana" 110.
Definition credentials : list idop :=
  [OpCreateSession "s1" "cookie" session_params; OpCreateCredential "k1" "f1" "secret1" people_reader 110].
Definition settled : IdentityDB := run arrivals nothing.
Definition equipped : IdentityDB := run credentials settled.
Example two_admins : CountActiveAdmins settled = 2.
Proof. by vm_compute. Qed.
Example equipped_view : omap cred_of (api_keys equipped) !! "k1" = Some (mkCred CredentialKindPersonal "bo" [ActionPeopleRead] true).
Proof. by vm_compute. Qed.

(** * Well-formed starts *)
Lemma nothing_schema : schema nothing.
Proof. split; split; intros *; cbn; by rewrite lookup_empty. Qed.
Lemma settled_schema : schema settled.
Proof. apply schema_run, nothing_schema. Qed.
Lemma equipped_schema : schema equipped.
Proof. apply schema_run, settled_schema. Qed.
Lemma schema_roles_checked d : schema d → roles_checked d.
Proof. intros [_ [Hu _]] id u Hl. by apply (Hu id u). Qed.
Lemma nothing_clipped : clipped (view_of nothing).
Proof. intros k c. cbn. by rewrite lookup_omap, lookup_empty. Qed.

(** * The properties, instantiated *)
Definition demotion : list idop := [OpChangeRole "ana" "bo" RoleOperator 200 200].
Lemma operations_refine_authority_witness :
  orderly plain plain any_password (credentials ++ demotion) settled = true ∧
  rtc authority_step (view_of settled) (view_of (run (credentials ++ demotion) settled)).
Proof.
  assert (orderly plain plain any_password (credentials ++ demotion) settled = true) as Ho by by vm_compute.
  split; [exact Ho|].
  apply (operations_refine_authority plain plain any_password (credentials ++ demotion) settled); [|exact Ho].
  apply schema_roles_checked, settled_schema.
Defined.
Lemma nothing_typed : well_typed nothing.
Proof. split; apply map_Forall_empty. Qed.
Lemma identity_rows_well_typed_witness :
  length (map_to_list (access_requests (run (arrivals ++ credentials ++ demotion) nothing))) = 1%nat ∧
  well_typed (run (arrivals ++ credentials ++ demotion) nothing).
Proof. split; [by vm_compute|]. apply (identity_rows_well_typed plain plain any_password), nothing_typed. Defined.
(** Disabling and enabling an account that waits for setup makes it active without a
    password: nobody can sign in to it, its setup link is refused, and it counts as an active
    Admin, so that the last usable one may be disabled. *)
Definition waiting : list idop :=
  [OpCreateOrResend "q3" "m6" "dora@x.io" "dora@x.io" "en" 92 92] ++ mail "l6" "tokenF" "m6" 93 ++
  [OpVerify "tokenF" 94; OpApprove "dora" "m7" "q3" "ana" RoleAdmin 95 95] ++ mail "l7" "tokenG" "m7" 96 ++
  [OpDisable "ana" "dora" 97 97; OpEnable "ana" "dora" 98 98; OpCompleteSetup "tokenG" "Dora" "en" "secret" 99 99;
   OpDisable "ana" "bo" 100 100; OpDisable "ana" "ana" 101 101].
Example enabled_without_password :
  let d := run waiting settled in
  ((λ u, (lu_Status u, lu_PasswordHash u)) <$> local_users d !! "dora") = Some (LocalUserActive, None) ∧
  (lu_Status <$> local_users d !! "ana") = Some LocalUserDisabled ∧ (lu_Status <$> local_users d !! "bo") = Some LocalUserDisabled.
Proof. by vm_compute. Qed.
Definition reader : Credential :=
  mkCredential "k1" (Some "f1") 1 CredentialKindPersonal KeyActive (Some 9000000) [ActionPeopleRead] (Some "bo")
    (Some LocalUserActive) RoleAdmin "bo" KindUser RoleAdmin (Some 60) (Some 1000) AuthorityEpochV2 true "".
Definition bo : Identity := mkIdentity "bo" "bo@x.io" KindUser SourceLocal "Bo".
Lemma result_and_state {A B} (p : A * B) a : p.1 = a → p = (a, p.2).
Proof. destruct p. by intros <-. Qed.
Lemma admin_authority_is_current_witness :
  AuthorizeAction reader ActionPeopleRead = inr () ∧
  ∃ o u, cr_OwnerIdentityID reader = Some o ∧ local_users (run (arrivals ++ credentials) nothing) !! o = Some u ∧
    lu_Role u = RoleAdmin ∧ lu_Status u = LocalUserActive.
Proof.
  split; [by vm_compute|].
  apply (admin_authority_is_current plain plain any_password (arrivals ++ credentials) nothing "cp-secret1" false 120 120 reader bo bo
           (ResolveCredential plain "cp-secret1" false 120 120 (run (arrivals ++ credentials) nothing)).2 ActionPeopleRead).
  - apply schema_roles_checked, nothing_schema.
  - apply nothing_clipped.
  - by vm_compute.
  - apply result_and_state. by vm_compute.
  - by vm_compute.
  - left. by vm_compute.
Defined.
Lemma last_admin_survives_witness :
  0 < CountActiveAdmins settled ∧ 0 < CountActiveAdmins (run (credentials ++ demotion) settled).
Proof.
  assert (0 < CountActiveAdmins settled) as Hp by by vm_compute. split; [exact Hp|].
  apply (last_admin_survives plain plain any_password); [apply schema_roles_checked, settled_schema|by vm_compute|exact Hp].
Defined.
Definition admin_lost (id : uuid) (d d' : IdentityDB) : bool :=
  match local_users d !! id, local_users d' !! id with
  | Some u, Some u' => bool_decide (lu_Role u = RoleAdmin) && negb (bool_decide (lu_Role u' = RoleAdmin))
  | _, _ => false
  end.
Lemma admin_lost_demoted id d d' : admin_lost id d d' = true → demoted id d d'.
Proof.
  unfold admin_lost, demoted. destruct (local_users d !! id) as [u|], (local_users d' !! id) as [u'|]; try done.
  rewrite andb_true_iff, negb_true_iff, bool_decide_eq_true, bool_decide_eq_false. intros [? ?]. by exists u, u'.
Qed.
Definition promotion : list idop := [OpChangeRole "ana" "bo" RoleAdmin 300 300].
Lemma lost_authority_is_not_resumed_witness :
  demoted "bo" equipped (run demotion equipped) ∧
  (∀ raw now n w b d1,
     ResolveBrowserSessionWithNetwork plain raw now n w (run promotion (run demotion equipped)) = (inr b, d1) → ss_ID b ≠ "s1") ∧
  (∀ key st now pgnow cr o a act d1,
     ResolveCredential plain key st now pgnow (run promotion (run demotion equipped)) = (inr (cr, o, a, None), d1) →
     AuthorizeAction cr act = inr () → cr_ID cr ≠ "k1").
Proof.
  assert (demoted "bo" equipped (run demotion equipped)) as Hd by (apply admin_lost_demoted; by vm_compute).
  destruct (lost_authority_is_not_resumed plain plain any_password demotion promotion equipped "bo") as [Hs Hc];
    [apply schema_roles_checked, equipped_schema|by vm_compute|by left|].
  split_and!; [exact Hd| |].
  - intros raw now n w b d1. eapply (Hs "s1" (default (mkSession "" "" "" 0 0 0 0 None None None None None None None None None None)
      (browser_sessions equipped !! "s1"))); by vm_compute.
  - assert (is_Some (api_keys equipped !! "k1")) as [r Hk] by (apply is_null_false; by vm_compute).
    intros key st now pgnow cr o a act d1.
    refine (Hc "k1" r (mkCred CredentialKindPersonal "bo" [ActionPeopleRead] true) key st now pgnow cr o a act d1 Hk _ eq_refl _).
    + pose proof equipped_view as Hv. rewrite lookup_omap, Hk in Hv. exact Hv.
    + left. by vm_compute.
Defined.
Lemma concurrent_demotions_lose_the_last_admin_witness :
  CountActiveAdmins settled = 2 ∧
  ∃ d2, overlapping (self_demotion "ana" 100 100) (self_demotion "bo" 100 100) 100 settled = Some d2 ∧
    CountActiveAdmins d2 = 0 ∧
    (ChangePersonRole "bo" "bo" RoleOperator 100 100 (ChangePersonRole "ana" "ana" RoleOperator 100 100 settled).2).1 = inl ErrLastAdmin.
Proof.
  split; [by vm_compute|].
  assert (is_Some (overlapping (self_demotion "ana" 100 100) (self_demotion "bo" 100 100) 100 settled)) as [d2 Ho]
    by (apply is_null_false; by vm_compute).
  assert (lu_Role <$> local_users settled !! "ana" = Some RoleAdmin) as (ua & Ha & Hra)%fmap_Some by by vm_compute.
  assert (lu_Role <$> local_users settled !! "bo" = Some RoleAdmin) as (ub & Hb & Hrb)%fmap_Some by by vm_compute.
  assert (map_Forall (λ j u, active_admin u = true → j = "ana" ∨ j = "bo") (local_users settled)) as Honly
    by (apply (bool_decide_unpack _); by vm_compute).
  exists d2. split; [exact Ho|].
  exact (concurrent_demotions_lose_the_last_admin settled "ana" "bo" ua ub 100 100 d2 ltac:(done) Ha Hb (eq_sym Hra) (eq_sym Hrb) Honly Ho).
Defined.

(** * The cutover of a deployment with legacy keys *)
Definition legacy_keys : list idop :=
  [OpUpsertServiceAccount "svc" "svc" "Pipeline" 120; OpCreateAPIKey "g1" "gateway1" "svc" "gateway" ScopeGateway None 121;
   OpCreateAPIKey "w1" "work1" "bo" "work" ScopeWork None 122; OpCreateAPIKey "a1" "admin1" "ana" "admin" ScopeAdmin None 123].
Definition legacy : IdentityDB := run legacy_keys settled.
Definition manifest : CutoverManifest :=
  mkManifest 60 1000 0 {[ "cp-gateway1" := mkLegacyMapping "ana" "svc" [] 10 100 "" ]}.
Definition plan : CutoverOptions :=
  mkCutover "ana@x.io" "r1" manifest "backup-1" "rehearsal-1"
    "users=2;admins=2;keys=3;gateway_keys=1;wildcard=0" 500.
Definition ready : PreflightReport :=
  mkPreflight [] true "users=2;admins=2;keys=3;gateway_keys=1;wildcard=0"
    [("active_admins", 2); ("expired_legacy_credentials", 0); ("revoked_ineligible_human_owner", 0); ("manifest_entries", 1)].
Example preflight_ready : PreflightAuthority plan 500 legacy = inr ready.
Proof. by vm_compute. Qed.
Definition done_report : CutoverReport := mkReport false "19700101T000000Z-v2" 0 2 1 false [].
Definition cut_over : IdentityDB := run [OpCutover plan ready 500] legacy.
Lemma legacy_schema : schema legacy.
Proof. apply schema_run, settled_schema. Qed.
Example cutover_commits : (run_tx (cutover_tx plain plan ready 500) legacy).1 = inr (Some done_report).
Proof. by vm_compute. Qed.
Lemma run_tx_result {S E A} (m : Tx S E A) d a : (run_tx m d).1 = inr a → m d = inr (a, (run_tx m d).2).
Proof. unfold run_tx. destruct (m d) as [|[]]; cbn; congruence. Qed.
Lemma run_tx_succeeds {S E A} (m : Tx S E A) d :
  (match (run_tx m d).1 with inr _ => true | inl _ => false end) = true → ∃ a, m d = inr (a, (run_tx m d).2).
Proof. unfold run_tx. destruct (m d) as [|[a d']]; cbn; [done|]. by exists a. Qed.
Lemma committed_cutover_verifies_witness :
  cutover_tx plain plan ready 500 legacy = inr (Some done_report, cut_over) ∧
  au_Epoch (authority_state cut_over) = AuthorityEpochV2 ∧
  (∀ k u, local_users cut_over !! k = Some u → lu_Role u ∈ [RoleAdmin; RoleOperator]) ∧
  (∀ k r, api_keys cut_over !! k = Some r → unrevoked r = true → ak_Epoch r = AuthorityEpochV2 ∧ ak_Scope r = None) ∧
  ∀ t, VerifyAuthority t cut_over = mkVerification true [] [("epoch", 1)].
Proof.
  pose proof (run_tx_result _ _ _ cutover_commits) as Hc. split; [exact Hc|].
  exact (committed_cutover_verifies plain plan ready 500 legacy done_report cut_over legacy_schema Hc).
Defined.
(** The mapped keys keep working as V2 credentials; the Admin key is withdrawn. *)
Example mapped_credentials :
  v_creds (view_of cut_over) !! "g1" = Some (mkCred CredentialKindAutomation "ana" legacyGatewayActions true) ∧
  v_creds (view_of cut_over) !! "w1" = Some (mkCred CredentialKindPersonal "bo" legacyWorkActions true) ∧
  v_creds (view_of cut_over) !! "a1" = None ∧ ak_Status <$> api_keys cut_over !! "a1" = Some KeyRevoked.
Proof. by vm_compute. Qed.
Lemma ready_preflight_is_kept_witness :
  PreflightAuthority plan 500 legacy = inr ready ∧ cutover_tx plain plan ready 700 legacy ≠ inl ErrAuthorityCutoverBlocked.
Proof.
  split; [exact preflight_ready|].
  apply (ready_preflight_is_kept plain plan 500 700 legacy ltac:(lia) ready preflight_ready eq_refl).
  - apply (bool_decide_unpack _). by vm_compute.
  - intros id r mp _ Hmp He. cbn in Hmp. apply lookup_singleton_Some in Hmp as [_ <-]. done.
Defined.
(** Without its hypothesis on defaulted actors the preflight's promise fails: it takes the
    key's own id for the actor, the transaction the bound identity. *)
Definition own_gateway : IdentityDB := run [OpCreateAPIKey "g2" "gateway2" "ana" "gateway" ScopeGateway None 124] settled.
Definition own_plan : CutoverOptions :=
  mkCutover "ana@x.io" "r1" (mkManifest 60 1000 0 {[ "cp-gateway2" := mkLegacyMapping "ana" "" [] 10 100 "" ]}) "backup-1"
    "rehearsal-1" "users=2;admins=2;keys=1;gateway_keys=1;wildcard=0" 500.
Example ready_preflight_can_be_refused :
  (∃ rep, PreflightAuthority own_plan 500 own_gateway = inr rep ∧ pr_Ready rep = true ∧
     (run_tx (cutover_tx plain own_plan rep 500) own_gateway).1 = inl ErrAuthorityCutoverBlocked).
Proof.
  exists (mkPreflight [] true "users=2;admins=2;keys=1;gateway_keys=1;wildcard=0"
    [("active_admins", 2); ("expired_legacy_credentials", 0); ("revoked_ineligible_human_owner", 0); ("manifest_entries", 1)]).
  by vm_compute.
Qed.
Definition pipeline_key : legacyCredential := mkLegacy "cp-gateway1" ScopeGateway KindServiceAccount "svc" false "" None.
Definition pipeline_spec : legacyMappingSpec :=
  mkSpec CredentialKindAutomation "ana" "svc" legacyGatewayActions 10 100 (500 + 90 * day).
Lemma mapping_never_widens_witness :
  resolveLegacyMapping pipeline_key manifest 500 = inr pipeline_spec ∧
  (∀ a, a ∈ ms_actions pipeline_spec → ActionAdminOnly a = false) ∧ ms_ownerID pipeline_spec ≠ ms_actorID pipeline_spec.
Proof.
  assert (resolveLegacyMapping pipeline_key manifest 500 = inr pipeline_spec) as Hr by by vm_compute. split; [exact Hr|].
  destruct (mapping_never_widens pipeline_key manifest 500 pipeline_spec Hr) as (_ & Ha & _ & _ & _ & _ & [(Hk & _)|(_ & _ & Hne)]);
    [done|by split].
Defined.
Definition at_600 (R : Type) (q : AuthQ R) : R := match q in AuthQ R return R with PgNow => 600 end.
Lemma require_reads d :
  au_Epoch (authority_state d) = AuthorityEpochV2 →
  run_proc at_600 RequireAuthorityV2 (mkAuthorityStore d false) = Some (inr (), mkAuthorityStore d true).
Proof. intros He. cbn. by rewrite He. Qed.
Lemma authority_gate_is_sound_witness :
  latch_sound (mkAuthorityStore cut_over true) ∧
  ∀ ops, au_Epoch (authority_state (run ops cut_over)) = AuthorityEpochV2.
Proof.
  assert (schema cut_over) as Hs by apply schema_run, legacy_schema.
  destruct (authority_gate_is_sound plain plain any_password (mkAuthorityStore cut_over false) (mkAuthorityStore cut_over true)) as [Hl He].
  - by split.
  - left. apply (run_proc_psteps at_600), require_reads. by vm_compute.
  - split; [exact Hl|exact He].
Defined.

(** * Links and the throttle *)
Definition invited : IdentityDB := run (take 3 arrivals) nothing.
Definition ana_joined : IdentityDB := run [OpCompleteSetup "tokenA" "Ana" "en" "secret" 30 30] invited.
Lemma one_time_links_are_used_once_witness :
  links_table (auth_link_tokens (run (drop 4 arrivals) invited)) ∧
  ∃ e, CompleteSetup plain any_password "tokenA" "Ana" "en" "other" 600 600 (run (drop 4 arrivals) ana_joined) = inl e.
Proof.
  assert (links_table (auth_link_tokens invited)) as Ht.
  { pose proof (links_table_run plain plain any_password (take 3 arrivals) nothing) as H. apply H. intros k k' l l' Hk. cbn in Hk. by rewrite lookup_empty in Hk. }
  destruct (one_time_links_are_used_once plain plain any_password (drop 4 arrivals) invited Ht) as [H1 H2]. split; [exact H1|].
  apply (H2 "tokenA" ana_joined).
  - left. exists "Ana", "en", "secret", 30, 30. apply (run_tx_succeeds (CompleteSetup plain any_password "tokenA" "Ana" "en" "secret" 30 30)).
    by vm_compute.
  - assert (forallb (λ op, match mints op with Some r => negb (bool_decide (link_hash plain r = link_hash plain "tokenA"))
                                           | None => true end) (drop 4 arrivals) = true) as Hf by by vm_compute.
    intros op raw' Hin Hm. rewrite forallb_forall in Hf. apply list_elem_of_In, Hf in Hin. rewrite Hm in Hin.
    by apply negb_true_iff, bool_decide_eq_false in Hin.
Defined.
Definition login_rule : ThrottleRule := mkRule "login" 3 900 300.
Lemma throttle_blocks_for_exactly_block_witness :
  ∃ d', attempts login_rule "bo@x.io" [10; 20; 30; 40; 329] nothing =
      inr ([mkThrottleState false 0 1; mkThrottleState false 0 2; mkThrottleState true 300 3; mkThrottleState true 290 3;
            mkThrottleState true 1 3], d') ∧
    ∀ s, ThrottleStatus login_rule "bo@x.io" s d' =
      (if s <? 330 then mkThrottleState true (330 - s) 3 else mkThrottleState false 0 3).
Proof.
  apply (throttle_blocks_for_exactly_block login_rule "bo@x.io" ltac:(by vm_compute) ltac:(by vm_compute) nothing 10 [20] 30 [40; 329]);
    [by vm_compute|by vm_compute|by repeat constructor|by vm_compute|by repeat constructor].
Defined.
(** A rule with limit 1 lets the first attempt through. *)
Example limit_one_lets_one_through :
  (run_tx (attempts (mkRule "login" 1 900 300) "bo@x.io" [10; 20]) nothing).1 =
    inr [mkThrottleState false 0 1; mkThrottleState true 300 2].
Proof. by vm_compute. Qed.

(** * What the code lets happen *)
(** The legacy user endpoint lowers the only Admin's role: no session or credential is
    touched and no Admin is left. *)
Example legacy_endpoint_loses_the_admin :
  let d := run (take 4 arrivals) nothing in
  let d' := run [OpUpsertLocalUser "x" "ana@x.io" RoleOperator 150] d in
  CountActiveAdmins d = 1 ∧ CountActiveAdmins d' = 0 ∧ orderly plain plain any_password [OpUpsertLocalUser "x" "ana@x.io" RoleOperator 150] d = false.
Proof. by vm_compute. Qed.
(** Revoking a V2 credential through the legacy operation leaves it eligible. *)
Definition revoked_reader : IdentityDB := run [OpRevokeAPIKey "k1" 150] equipped.
Example revoked_credential_still_authorizes :
  ak_RevokedAt <$> api_keys revoked_reader !! "k1" = Some (Some 150) ∧
  match (ResolveCredential plain "cp-secret1" false 200 200 revoked_reader).1 with
  | inr (cr, _, _, None) => AuthorizeAction cr ActionPeopleRead
  | _ => inl ErrInvalidAPIKey
  end = inr ().
Proof. by vm_compute. Qed.
(** Listing legacy keys fails once a V2 credential, whose scope is null, exists. *)
Example listing_fails_on_v2 : ListAPIKeys equipped = inl ErrScanNull.
Proof. by vm_compute. Qed.
(** A refused recovery leaves no evidence: its event is rolled back. *)
Example refused_recovery_leaves_no_evidence :
  let r := run_tx (BootstrapAdmin plain "z" "m8" "m9" (mkBootstrapOptions "ana@x.io" "en" true) 400 400) settled in
  r.1 = inl ErrRecoveryNotPermitted ∧ length (security_events r.2) = length (security_events settled).
Proof. by vm_compute. Qed.
(** A legacy key created after the cutover makes the verification fail. *)
Example legacy_key_after_cutover :
  av_Passed (VerifyAuthority 700 (run [OpCreateAPIKey "w9" "late" "bo" "late" ScopeWork None 650] cut_over)) = false.
Proof. by vm_compute. Qed.
(** The operator of a cutover is looked up by the delivery form of the address: with a capital
    letter in the local part the account is not found, and the audit row has no anchor. *)
Example operator_lookup_keeps_case :
  resolveOperatorIdentityTx lower "ana@x.io" settled = "ana" ∧ resolveOperatorIdentityTx lower "Ana@x.io" settled = EmptyString.
Proof. by vm_compute. Qed.
