(* ===== verification/Artifact.v ===== *)
(** The artifact domain (control-plane/internal/artifact: types.go, store.go, service.go,
    objectstore.go): immutable metadata in PostgreSQL (migration 000017), bytes in an object
    store, and the lifecycle that coordinates the two.

    The two stores share no transaction. The operations are processes ([Proc]) over both: any
    number of uploads, reads, deletions and sweeps interleave, from any number of servers.
    A statement or object request is answered, fails before it had an effect, or has its
    effect without an answer. The object store is a third-party service behind the interface
    [ObjectStorage]; [sha256hex], [media_type] (whether mime.ParseMediaType accepts a text) and
    the texts of errors are arbitrary functions. A body is its bytes and whether the reader fails after them.

    History variables, read by no operation, say what happened to an artifact id: who
    generated it, whether it was generated twice, whether a sweep listed it as a stale
    upload, whether the answer of its final commit was lost. *)
From Stdlib Require Import Ascii.
From S2P Require Import Prelude Json Runtime WorkData WorkGraph Proc.

(** * Types (types.go) *)
Inductive ArtErr :=
| ErrNotFound | ErrNotAvailable | ErrUnauthorized | ErrInvalidInput | ErrDigest | ErrSize | ErrTooLarge
| ErrDatabase | ErrObject.
#[export] Instance ArtErr_eq : EqDecision ArtErr. Proof. solve_decision. Defined.
Inductive ArtState := StatePending | StateAvailable | StateDeleting | StateDeleted.
#[export] Instance ArtState_eq : EqDecision ArtState. Proof. solve_decision. Defined.
Definition SourceUserUpload : string := "user_upload".
Definition SourceSandboxPublish : string := "sandbox_publish".
Definition SourceToolOutput : string := "tool_output".
Definition SourceWorkflow : string := "workflow".
Definition source_types : list string := [SourceUserUpload; SourceSandboxPublish; SourceToolOutput; SourceWorkflow].

Record Artifact := mkArtifact {
  ax_ID : uuid; ax_StorageKey : string; ax_SourceType : string; ax_SourceRef : option string;
  ax_CreatedBy : uuid; ax_MIMEType : string; ax_SizeBytes : option Z; ax_Digest : option string;
  ax_State : ArtState; ax_RetentionUntil : option timestamp; ax_DeletionReason : option string;
  ax_CreatedAt : timestamp; ax_AvailableAt : option timestamp; ax_DeletedAt : option timestamp }.
#[export] Instance Artifact_eq : EqDecision Artifact. Proof. solve_decision. Defined.
Record Ref := mkRef { rf_ArtifactID : uuid; rf_MIMEType : string; rf_SizeBytes : Z; rf_Digest : string }.
(** [Artifact.Ref]. *)
Definition artifact_ref (a : Artifact) : ArtErr + Ref :=
  match ax_State a, ax_SizeBytes a, ax_Digest a with
  | StateAvailable, Some n, Some d => inr (mkRef (ax_ID a) (ax_MIMEType a) n d)
  | _, _, _ => inl ErrNotAvailable
  end.
Record Scope := mkScope { sc_WorkItemID : uuid; sc_AttemptID : uuid; sc_NodeExecutionID : string; sc_Role : string }.
Record UploadInput := mkUpload {
  ui_SourceType : string; ui_SourceRef : string; ui_CreatedBy : uuid; ui_MIMEType : string;
  ui_ExpectedSize : option Z; ui_ExpectedDigest : string; ui_RetentionUntil : option timestamp;
  ui_Scope : option Scope }.
Definition with_retention (t : timestamp) (i : UploadInput) : UploadInput :=
  mkUpload (ui_SourceType i) (ui_SourceRef i) (ui_CreatedBy i) (ui_MIMEType i) (ui_ExpectedSize i)
    (ui_ExpectedDigest i) (Some t) (ui_Scope i).

(** * Rows and their constraints (migration 000017) *)
Record ArtRow := mkRow { ro_Artifact : Artifact; ro_DeletionStartedAt : option timestamp; ro_DeletionError : option string }.
Definition hex_lower (c : ascii) : bool :=
  let n := N_of_ascii c in ((48 <=? n) && (n <=? 57) || (97 <=? n) && (n <=? 102))%N.
Fixpoint all_ascii (p : ascii → bool) (s : string) : bool :=
  match s with EmptyString => true | String c s' => p c && all_ascii p s' end.
(** [digest ~ '^sha256:[0-9a-f]{64}$']. *)
Definition digest_check (d : string) : bool :=
  String.prefix "sha256:" d && (Z.of_nat (String.length d) =? 71) && all_ascii hex_lower (String.substring 7 64 d).
Definition is_some {A} (o : option A) : bool := match o with Some _ => true | None => false end.
Definition row_checks (r : ArtRow) : bool :=
  let a := ro_Artifact r in
  bool_decide (ax_SourceType a ∈ source_types) &&
  match ax_SizeBytes a with Some n => 0 <=? n | None => true end &&
  match ax_Digest a with Some d => digest_check d | None => true end &&
  (match ax_State a with
   | StatePending => negb (is_some (ax_SizeBytes a) || is_some (ax_Digest a) || is_some (ax_AvailableAt a))
   | _ => is_some (ax_SizeBytes a) && is_some (ax_Digest a) && is_some (ax_AvailableAt a)
   end) &&
  Bool.eqb (bool_decide (ax_State a = StateDeleted)) (is_some (ax_DeletedAt a)) &&
  Bool.eqb (bool_decide (ax_State a ∈ [StateDeleting; StateDeleted])) (is_some (ro_DeletionStartedAt r)).
(** The trigger [artifact.enforce_immutable]. *)
Definition enforce_immutable (old new : Artifact) : bool :=
  bool_decide (ax_ID new = ax_ID old ∧ ax_StorageKey new = ax_StorageKey old ∧ ax_SourceType new = ax_SourceType old ∧
    ax_SourceRef new = ax_SourceRef old ∧ ax_CreatedBy new = ax_CreatedBy old ∧ ax_MIMEType new = ax_MIMEType old ∧
    ax_RetentionUntil new = ax_RetentionUntil old ∧ ax_CreatedAt new = ax_CreatedAt old) &&
  match ax_State old with
  | StatePending => bool_decide (ax_State new = StateAvailable)
  | StateAvailable => bool_decide (ax_State new = StateDeleting)
  | StateDeleting => bool_decide (ax_State new = StateDeleting ∨ ax_State new = StateDeleted)
  | StateDeleted => false
  end &&
  (bool_decide (ax_State old = StatePending) ||
   bool_decide (ax_SizeBytes new = ax_SizeBytes old ∧ ax_Digest new = ax_Digest old ∧ ax_AvailableAt new = ax_AvailableAt old)).

(** * The object store *)
(** A bucket: documented behaviour of an S3 bucket whose object keys hold bytes. *)
Class ObjectStorage (O : Type) := {
  object_at : string → O → option string;
  put_object : string → string → O → O;
  remove_object : string → O → O }.
Class ObjectStorageLaws (O : Type) `{ObjectStorage O} := {
  put_object_eq k b o : object_at k (put_object k b o) = Some b;
  put_object_ne k k' b o : k ≠ k' → object_at k (put_object k' b o) = object_at k o;
  remove_object_eq k o : object_at k (remove_object k o) = None;
  remove_object_ne k k' o : k ≠ k' → object_at k (remove_object k' o) = object_at k o }.
#[export] Instance bucket_storage : ObjectStorage (gmap string string) :=
  {| object_at := λ k m, m !! k; put_object := λ k b m, <[k := b]> m; remove_object := λ k m, delete k m |}.
#[export] Instance bucket_laws : ObjectStorageLaws (gmap string string).
Proof.
  split; cbn; intros; [apply lookup_insert_eq|by apply lookup_insert_ne|apply lookup_delete_eq|by apply lookup_delete_ne].
Qed.

(** * The shared state *)
Record ArtSys (O : Type) := mkSys {
  sy_rows : gmap uuid ArtRow; sy_wk : WorkDB; sy_identities : gset uuid; sy_objects : O;
  sy_owner : gmap uuid nat; sy_reused : gset uuid; sy_missing : gset uuid }.
Arguments mkSys {O}.
Arguments sy_rows {O}.
Arguments sy_wk {O}.
Arguments sy_identities {O}.
Arguments sy_objects {O}.
Arguments sy_owner {O}.
Arguments sy_reused {O}.
Arguments sy_missing {O}.
Section setters.
Context {O : Type}.
Definition set_rows (v : gmap uuid ArtRow) (s : ArtSys O) : ArtSys O :=
  mkSys v (sy_wk s) (sy_identities s) (sy_objects s) (sy_owner s) (sy_reused s) (sy_missing s).
Definition set_wk (v : WorkDB) (s : ArtSys O) : ArtSys O :=
  mkSys (sy_rows s) v (sy_identities s) (sy_objects s) (sy_owner s) (sy_reused s) (sy_missing s).
Definition set_objects (v : O) (s : ArtSys O) : ArtSys O :=
  mkSys (sy_rows s) (sy_wk s) (sy_identities s) v (sy_owner s) (sy_reused s) (sy_missing s).
(** [id] may lose its bytes. *)
Definition mark_missing (ids : gset uuid) (s : ArtSys O) : ArtSys O :=
  mkSys (sy_rows s) (sy_wk s) (sy_identities s) (sy_objects s) (sy_owner s) (sy_reused s) (ids ∪ sy_missing s).
End setters.

(** What an operation asks of its environment: the outcome of a remote call, the time (of
    the process or of PostgreSQL) and a generated UUID. *)
Inductive outcome := Answered | Unsent | Unanswered.
Inductive ArtQ : Type → Type :=
| QOutcome : ArtQ outcome
| QTime : ArtQ timestamp
| QUuid : ArtQ uuid.

Section operations.
Context {O : Type} `{ObjectStorage O}.
Context (sha256hex : string → string) (media_type : string → bool) (error_text : ArtErr → string).
#[local] Notation Sys := (ArtSys O).
#[local] Notation ArtTx := (Tx Sys ArtErr).
#[local] Notation ArtP A := (proc Sys ArtQ A).

(** A statement, or a transaction with its commit. *)
Definition call {A} (m : timestamp → ArtTx A) : ArtP (ArtErr + A) :=
  o ← ask QOutcome; now ← ask QTime;
  match o with
  | Unsent => mret (inl ErrDatabase)
  | Answered => atomically (run_tx (m now))
  | Unanswered => atomically (λ s, (inl ErrDatabase, (run_tx (m now) s).2))
  end.
(** [if err != nil { return err }]. *)
Definition then_ {A B} (p : ArtP (ArtErr + A)) (k : A → ArtP (ArtErr + B)) : ArtP (ArtErr + B) :=
  r ← p; match r with inl e => mret (inl e) | inr a => k a end.

(** * The metadata store (store.go) *)
Definition storage_key_free (key : string) (rows : gmap uuid ArtRow) : bool :=
  bool_decide (map_Forall (λ _ r, ax_StorageKey (ro_Artifact r) ≠ key) rows).
Definition CreatePending (id key : string) (i : UploadInput) (now : timestamp) : ArtTx Artifact :=
  s ← tx_get;
  let a := mkArtifact id key (ui_SourceType i)
             (if String.eqb (ui_SourceRef i) EmptyString then None else Some (ui_SourceRef i)) (ui_CreatedBy i)
             (ui_MIMEType i) None None StatePending (ui_RetentionUntil i) None now None None in
  let r := mkRow a None None in
  tx_require (negb (is_some (sy_rows s !! id)) && storage_key_free key (sy_rows s)) ErrDatabase;;
  tx_require (bool_decide (ui_CreatedBy i ∈ sy_identities s) && row_checks r) ErrDatabase;;
  tx_modify (set_rows (<[id := r]> (sy_rows s)));;
  mret a.
(** [UPDATE artifact.artifacts SET .. WHERE id=$1 AND ..]: the row it changed. *)
Definition update_artifact (id : uuid) (where_ : ArtState → bool) (f : ArtRow → ArtRow) : ArtTx (option Artifact) :=
  s ← tx_get;
  match sy_rows s !! id with
  | Some r =>
      if where_ (ax_State (ro_Artifact r)) then
        tx_require (enforce_immutable (ro_Artifact r) (ro_Artifact (f r)) && row_checks (f r)) ErrDatabase;;
        tx_modify (set_rows (<[id := f r]> (sy_rows s)));;
        mret (Some (ro_Artifact (f r)))
      else mret None
  | None => mret None
  end.
Definition validateScopeTx (sc : Scope) : ArtTx () :=
  tx_require (negb (String.eqb (sc_WorkItemID sc) EmptyString || String.eqb (sc_AttemptID sc) EmptyString ||
                    String.eqb (sc_Role sc) EmptyString)) ErrInvalidInput;;
  s ← tx_get;
  tx_require
    (match attempts (sy_wk s) !! sc_AttemptID sc with
     | Some a =>
         String.eqb (at_WorkItemID a) (sc_WorkItemID sc) &&
         (String.eqb (sc_NodeExecutionID sc) EmptyString ||
          match node_executions (sy_wk s) !! sc_NodeExecutionID sc with
          | Some n => String.eqb (ne_AttemptID n) (sc_AttemptID sc)
          | None => false
          end)
     | None => false
     end) ErrUnauthorized.
Definition link_roles : list string := ["source"; "input"; "output"; "corrected_result"; "evidence"].
(** The unique key of work.artifact_links; rows without a node do not conflict. *)
Definition link_conflicts (l l' : ArtifactLink) : bool :=
  String.eqb (al_ArtifactID l) (al_ArtifactID l') && String.eqb (al_WorkItemID l) (al_WorkItemID l') &&
  String.eqb (al_AttemptID l) (al_AttemptID l') && is_some (al_NodeExecutionID l) &&
  bool_decide (al_NodeExecutionID l = al_NodeExecutionID l') && String.eqb (al_Role l) (al_Role l').
Definition link_tx (id : uuid) (sc : Scope) (now : timestamp) : ArtTx () :=
  s ← tx_get;
  let l := {| al_ArtifactID := id; al_WorkItemID := sc_WorkItemID sc; al_AttemptID := sc_AttemptID sc;
              al_NodeExecutionID := if String.eqb (sc_NodeExecutionID sc) EmptyString then None else Some (sc_NodeExecutionID sc);
              al_Role := sc_Role sc; al_Metadata := JObj []; al_CreatedAt := now |} in
  tx_require (is_some (sy_rows s !! id) && is_some (work_items (sy_wk s) !! sc_WorkItemID sc) &&
              bool_decide (sc_Role sc ∈ link_roles) &&
              negb (existsb (link_conflicts l) (artifact_links (sy_wk s)))) ErrDatabase;;
  tx_modify (λ s, set_wk (set_links (artifact_links (sy_wk s) ++ [l]) (sy_wk s)) s).
Definition finalized (size : Z) (digest : string) (now : timestamp) (r : ArtRow) : ArtRow :=
  let a := ro_Artifact r in
  mkRow (mkArtifact (ax_ID a) (ax_StorageKey a) (ax_SourceType a) (ax_SourceRef a) (ax_CreatedBy a) (ax_MIMEType a)
           (Some size) (Some digest) StateAvailable (ax_RetentionUntil a) (ax_DeletionReason a) (ax_CreatedAt a)
           (Some now) (ax_DeletedAt a)) (ro_DeletionStartedAt r) (ro_DeletionError r).
Definition finalize_tx (id : uuid) (size : Z) (digest : string) (scope : option Scope) (now : timestamp) : ArtTx Artifact :=
  match scope with
  | Some sc => validateScopeTx sc;; link_tx id sc now
  | None => mret ()
  end;;
  a ← update_artifact id (λ st, bool_decide (st = StatePending)) (finalized size digest now);
  tx_opt a ErrNotFound.
(** When the answer of the commit is lost, the history records it. *)
Definition Finalize (id : uuid) (size : Z) (digest : string) (scope : option Scope) : ArtP (ArtErr + Artifact) :=
  o ← ask QOutcome; now ← ask QTime;
  match o with
  | Unsent => mret (inl ErrDatabase)
  | Answered => atomically (run_tx (finalize_tx id size digest scope now))
  | Unanswered =>
      atomically (λ s, match run_tx (finalize_tx id size digest scope now) s with
                       | (inr _, s') => (inl ErrDatabase, mark_missing {[ id ]} s')
                       | (inl e, s') => (inl e, s')
                       end)
  end.
Definition Get_tx (id : uuid) (now : timestamp) : ArtTx Artifact :=
  s ← tx_get; tx_opt (ro_Artifact <$> sy_rows s !! id) ErrNotFound.
Definition Get (id : uuid) : ArtP (ArtErr + Artifact) := call (Get_tx id).
Definition GetAvailable (id : uuid) : ArtP (ArtErr + Artifact) :=
  then_ (Get id) (λ a, mret (if decide (ax_State a = StateAvailable) then inr a else inl ErrNotAvailable)).
Definition deleting (reason : string) (now : timestamp) (r : ArtRow) : ArtRow :=
  let a := ro_Artifact r in
  mkRow (mkArtifact (ax_ID a) (ax_StorageKey a) (ax_SourceType a) (ax_SourceRef a) (ax_CreatedBy a) (ax_MIMEType a)
           (ax_SizeBytes a) (ax_Digest a) StateDeleting (ax_RetentionUntil a) (Some reason) (ax_CreatedAt a)
           (ax_AvailableAt a) (ax_DeletedAt a)) (Some (default now (ro_DeletionStartedAt r))) None.
Definition BeginDelete_tx (id : uuid) (reason : string) (now : timestamp) : ArtTx (option Artifact) :=
  update_artifact id (λ st, bool_decide (st = StateAvailable ∨ st = StateDeleting)) (deleting reason now).
Definition BeginDelete (id : uuid) (reason : string) : ArtP (ArtErr + Artifact) :=
  then_ (call (BeginDelete_tx id reason)) (λ o,
    match o with
    | Some a => mret (inr a)
    | None =>
        r ← Get id;
        mret (match r with
              | inr a => if decide (ax_State a = StateDeleted) then inr a else inl ErrNotFound
              | inl _ => inl ErrNotFound
              end)
    end).
Definition deleted (now : timestamp) (r : ArtRow) : ArtRow :=
  let a := ro_Artifact r in
  mkRow (mkArtifact (ax_ID a) (ax_StorageKey a) (ax_SourceType a) (ax_SourceRef a) (ax_CreatedBy a) (ax_MIMEType a)
           (ax_SizeBytes a) (ax_Digest a) StateDeleted (ax_RetentionUntil a) (ax_DeletionReason a) (ax_CreatedAt a)
           (ax_AvailableAt a) (Some now)) (ro_DeletionStartedAt r) None.
Definition FinishDelete_tx (id : uuid) (now : timestamp) : ArtTx (option Artifact) :=
  update_artifact id (λ st, bool_decide (st = StateDeleting)) (deleted now).
Definition FinishDelete (id : uuid) : ArtP (ArtErr + ()) :=
  then_ (call (FinishDelete_tx id)) (λ o,
    match o with
    | Some _ => mret (inr ())
    | None =>
        r ← Get id;
        mret (match r with
              | inr a => if decide (ax_State a = StateDeleted) then inr () else inl ErrNotFound
              | inl _ => inl ErrNotFound
              end)
    end).
Definition with_error (text : string) (r : ArtRow) : ArtRow := mkRow (ro_Artifact r) (ro_DeletionStartedAt r) (Some text).
Definition RecordDeleteError (id : uuid) (cause : string) : ArtP () :=
  call (λ _, update_artifact id (λ st, bool_decide (st = StateDeleting)) (with_error cause));; mret ().
(** A row that a link references is not deleted. *)
Definition DeletePending_tx (id : uuid) (now : timestamp) : ArtTx () :=
  s ← tx_get;
  match sy_rows s !! id with
  | Some r =>
      if decide (ax_State (ro_Artifact r) = StatePending) then
        tx_require (negb (existsb (λ l, String.eqb (al_ArtifactID l) id) (artifact_links (sy_wk s)))) ErrDatabase;;
        tx_modify (set_rows (delete id (sy_rows s)))
      else mret ()
  | None => mret ()
  end.
Definition DeletePending (id : uuid) : ArtP () := call (DeletePending_tx id);; mret ().
(** [WHERE predicate ORDER BY created_at LIMIT limit]. *)
Definition created_before (a b : Artifact) : Prop := ax_CreatedAt a ≤ ax_CreatedAt b.
#[local] Instance created_before_dec a b : Decision (created_before a b).
Proof. unfold created_before. apply _. Defined.
Definition lifecycle_rows (p : ArtRow → bool) (rows : gmap uuid ArtRow) : list Artifact :=
  ro_Artifact <$> (map_to_list (filter (λ kr, p kr.2 = true) rows)).*2.
Definition listLifecycle (p : ArtRow → bool) (limit : Z) (rows : gmap uuid ArtRow) : list Artifact :=
  take (Z.to_nat (if limit <=? 0 then 100 else limit)) (merge_sort created_before (lifecycle_rows p rows)).
Definition stale_pending (before : timestamp) (r : ArtRow) : bool :=
  bool_decide (ax_State (ro_Artifact r) = StatePending) && (ax_CreatedAt (ro_Artifact r) <? before).
Definition expired (now : timestamp) (r : ArtRow) : bool :=
  bool_decide (ax_State (ro_Artifact r) = StateAvailable) &&
  match ax_RetentionUntil (ro_Artifact r) with Some t => t <=? now | None => false end.
Definition being_deleted (before : timestamp) (r : ArtRow) : bool :=
  bool_decide (ax_State (ro_Artifact r) = StateDeleting) &&
  match ro_DeletionStartedAt r with Some t => t <=? before | None => false end.
(** The history records which uploads a sweep took for abandoned. *)
Definition StalePending (before : timestamp) (limit : Z) : ArtP (ArtErr + list Artifact) :=
  call (λ _, s ← tx_get;
             let l := listLifecycle (stale_pending before) limit (sy_rows s) in
             tx_modify (mark_missing (list_to_set (ax_ID <$> l)));; mret l).
Definition Expired (now : timestamp) (limit : Z) : ArtP (ArtErr + list Artifact) :=
  call (λ _, tx_asks (λ s, listLifecycle (expired now) limit (sy_rows s))).
Definition Deleting (before : timestamp) (limit : Z) : ArtP (ArtErr + list Artifact) :=
  call (λ _, tx_asks (λ s, listLifecycle (being_deleted before) limit (sy_rows s))).

(** * The object store client (objectstore.go) *)
Definition object_call (f : O → O) : ArtP (ArtErr + ()) :=
  o ← ask QOutcome;
  match o with
  | Unsent => mret (inl ErrObject)
  | Answered => update (λ s, set_objects (f (sy_objects s)) s);; mret (inr ())
  | Unanswered => update (λ s, set_objects (f (sy_objects s)) s);; mret (inl ErrObject)
  end.
(** The reader's bytes, and whether it fails after them. *)
Record Body := mkBody { bd_bytes : string; bd_fails : bool }.
Definition Put (key : string) (stream : Body) : ArtP (ArtErr + ()) :=
  o ← ask QOutcome;
  match o with
  | Answered =>
      existing ← inspect (λ s, object_at key (sy_objects s));
      if is_some existing then mret (inl ErrObject)
      else if bd_fails stream then mret (inl ErrObject)
      else object_call (put_object key (bd_bytes stream))
  | _ => mret (inl ErrObject)
  end.
(** The object as it is when the request for it is answered. *)
Definition GetObject (key : string) : ArtP (ArtErr + string) :=
  o ← ask QOutcome;
  match o with
  | Answered => b ← inspect (λ s, object_at key (sy_objects s));
                mret (match b with Some b => inr b | None => inl ErrObject end)
  | _ => mret (inl ErrObject)
  end.
Definition DeleteObject (key : string) : ArtP (ArtErr + ()) := object_call (remove_object key).

(** * The service (service.go) *)
Record ArtConfig := mkArtConfig { ac_MaxSize : Z; ac_DefaultRetention : Z; ac_PendingTTL : Z; ac_SweepInterval : Z }.
Definition if_zero (v dflt : Z) : Z := if v =? 0 then dflt else v.
(** Durations in microseconds. *)
Definition art_defaults (c : ArtConfig) : ArtConfig :=
  mkArtConfig (if_zero (ac_MaxSize c) (Z.shiftl 1 30)) (ac_DefaultRetention c) (if_zero (ac_PendingTTL c) 3600000000)
    (if_zero (ac_SweepInterval c) 60000000).
Definition hex_any (c : ascii) : bool :=
  let n := N_of_ascii c in ((48 <=? n) && (n <=? 57) || (65 <=? n) && (n <=? 70) || (97 <=? n) && (n <=? 102))%N.
Definition validateUpload (i : UploadInput) : option ArtErr :=
  if negb (bool_decide (ui_SourceType i ∈ source_types)) then Some ErrInvalidInput
  else if String.eqb (ui_CreatedBy i) EmptyString then Some ErrInvalidInput
  else if String.eqb (ui_MIMEType i) EmptyString then Some ErrInvalidInput
  else if negb (media_type (ui_MIMEType i)) then Some ErrInvalidInput
  else if match ui_ExpectedSize i with Some n => n <? 0 | None => false end then Some ErrInvalidInput
  else if String.eqb (ui_ExpectedDigest i) EmptyString then None
  else if negb (Z.of_nat (String.length (ui_ExpectedDigest i)) =? 71) || negb (String.prefix "sha256:" (lower (ui_ExpectedDigest i)))
       then Some ErrInvalidInput
  else if all_ascii hex_any (String.substring 7 64 (ui_ExpectedDigest i)) then None else Some ErrInvalidInput.
Definition int64_wrap (z : Z) : Z := (z + 2 ^ 63) mod 2 ^ 64 - 2 ^ 63.
(** [io.LimitedReader{N: MaxSize + 1}]: at most N bytes, the failure only if it comes before. *)
Definition LimitedReader (max : Z) (b : Body) : Body :=
  let n := Z.to_nat (int64_wrap (max + 1)) in
  if (n <=? String.length (bd_bytes b))%nat then mkBody (String.substring 0 n (bd_bytes b)) false else b.
Definition cleanupPending (a : Artifact) : ArtP () :=
  r ← DeleteObject (ax_StorageKey a);
  match r with
  | inl _ => mret ()
  | inr _ => DeletePending (ax_ID a)
  end.
(** [uuid.NewString()]. The history records the generator and a repeated id. *)
Definition generated (me : nat) (id : uuid) (s : Sys) : Sys :=
  mkSys (sy_rows s) (sy_wk s) (sy_identities s) (sy_objects s) (<[id := me]> (sy_owner s))
    (if is_some (sy_owner s !! id) || is_some (sy_rows s !! id) || is_some (object_at ("artifacts/" +:+ id) (sy_objects s))
     then {[ id ]} ∪ sy_reused s else sy_reused s) (sy_missing s).
Definition digest_of (b : string) : string := "sha256:" +:+ sha256hex b.
Definition size_of (b : string) : Z := Z.of_nat (String.length b).
(** The part of [Upload] after the object was written. *)
Definition upload_verified (cfg : ArtConfig) (i : UploadInput) (pending : Artifact) (b : string) : ArtP (ArtErr + Artifact) :=
  if ac_MaxSize cfg <? size_of b then cleanupPending pending;; mret (inl ErrTooLarge)
  else if match ui_ExpectedSize i with Some n => negb (n =? size_of b) | None => false end
       then cleanupPending pending;; mret (inl ErrSize)
  else if negb (String.eqb (ui_ExpectedDigest i) EmptyString) &&
          negb (String.eqb (lower (ui_ExpectedDigest i)) (lower (digest_of b)))
       then cleanupPending pending;; mret (inl ErrDigest)
  else
    r ← Finalize (ax_ID pending) (size_of b) (digest_of b) (ui_Scope i);
    match r with
    | inl e => DeleteObject (ax_StorageKey pending);; mret (inl e)
    | inr a => mret (inr a)
    end.
Definition Upload (me : nat) (cfg : ArtConfig) (i : UploadInput) (body : option Body) : ArtP (ArtErr + Artifact) :=
  match validateUpload i, body with
  | Some e, _ => mret (inl e)
  | None, None => mret (inl ErrInvalidInput)
  | None, Some body =>
      i ← (if negb (is_some (ui_RetentionUntil i)) && (0 <? ac_DefaultRetention cfg)
           then now ← ask QTime; mret (with_retention (now + ac_DefaultRetention cfg) i) else mret i);
      id ← ask QUuid;
      update (generated me id);;
      let key := "artifacts/" +:+ id in
      then_ (call (CreatePending id key i)) (λ pending,
        let stream := LimitedReader (ac_MaxSize cfg) body in
        r ← Put key stream;
        match r with
        | inl e => cleanupPending pending;; mret (inl e)
        | inr _ => upload_verified cfg i pending (bd_bytes stream)
        end)
  end.
Definition Open_ (id : uuid) : ArtP (ArtErr + (Artifact * string)) :=
  then_ (GetAvailable id) (λ a, then_ (GetObject (ax_StorageKey a)) (λ b, mret (inr (a, b)))).
Definition Stat (id : uuid) : ArtP (ArtErr + Artifact) := Get id.
Definition Delete (id : uuid) (reason : string) : ArtP (ArtErr + Artifact) :=
  let reason := if String.eqb reason EmptyString then "explicit" else reason in
  then_ (BeginDelete id reason) (λ a,
    if decide (ax_State a = StateDeleted) then mret (inr a)
    else
      r ← DeleteObject (ax_StorageKey a);
      match r with
      | inl e => RecordDeleteError id (error_text e);; mret (inl e)
      | inr _ => then_ (FinishDelete id) (λ _, Get id)
      end).
Definition valueOr (p : option string) (fallback : string) : string :=
  match p with Some v => if String.eqb v EmptyString then fallback else v | None => fallback end.
Fixpoint for_each {A} (f : A → ArtP ()) (l : list A) : ArtP () :=
  match l with [] => mret () | a :: l' => f a;; for_each f l' end.
Definition sweep_pending (a : Artifact) : ArtP () :=
  r ← DeleteObject (ax_StorageKey a);
  match r with inl _ => mret () | inr _ => DeletePending (ax_ID a) end.
Definition sweep_delete (reason : Artifact → string) (a : Artifact) : ArtP () := Delete (ax_ID a) (reason a);; mret ().
Definition on_listed (f : Artifact → ArtP ()) (r : ArtErr + list Artifact) : ArtP () :=
  match r with inl _ => mret () | inr l => for_each f l end.
Definition sweep (cfg : ArtConfig) : ArtP () :=
  now ← ask QTime;
  pending ← StalePending (now - ac_PendingTTL cfg) 100;
  on_listed sweep_pending pending;;
  now ← ask QTime;
  listed ← Expired now 100;
  on_listed (sweep_delete (λ _, "retention_expired")) listed;;
  now ← ask QTime;
  retry ← Deleting now 100;
  on_listed (sweep_delete (λ a, valueOr (ax_DeletionReason a) "deletion_retry")) retry.
(** What another component does to the tables of the work domain. *)
Definition work_write (f : WorkDB → WorkDB) : ArtP () := update (λ s, set_wk (f (sy_wk s)) s).
End operations.

(** The tables as the work domain reads them. *)
Definition state_name (s : ArtState) : string :=
  match s with StatePending => "pending" | StateAvailable => "available" | StateDeleting => "deleting" | StateDeleted => "deleted" end.
Definition columns (r : ArtRow) : ArtifactRow :=
  {| af_State := state_name (ax_State (ro_Artifact r)); af_SourceType := ax_SourceType (ro_Artifact r);
     af_MIMEType := ax_MIMEType (ro_Artifact r); af_SizeBytes := default 0 (ax_SizeBytes (ro_Artifact r));
     af_Digest := default EmptyString (ax_Digest (ro_Artifact r)) |}.
Definition work_view {O} (s : ArtSys O) : WorkDB :=
  let d := sy_wk s in
  mkWorkDB (wk_rt d) (definitions d) (work_items d) (attempts d) (node_executions d) (graph_transitions d) (blockers d)
    (feedback d) (artifact_links d) (timeline_events d) (value_ledger d) (value_models d) (columns <$> sy_rows s)
    (invocations d) (catalog d) (tool_pins d) (pool_assignments d).
