(* ===== verification/ArtifactFacts.v ===== *)
(** What the artifact lifecycle keeps while uploads, reads, deletions and sweeps interleave:
    the bytes behind an artifact are the ones its metadata records, published metadata never
    changes, and bytes are only ever missing for two reasons. *)
From Stdlib Require Import Ascii.
From S2P Require Import Prelude Json Runtime WorkData WorkGraph Proc ProcLogic Artifact.

Section artifacts.
Context {O : Type} `{ObjectStorageLaws O}.
Context (sha256hex : string → string).
#[local] Notation Sys := (ArtSys O).
#[local] Notation ArtP A := (proc Sys ArtQ A).
#[local] Notation digest_of := (digest_of sha256hex).

Definition key (id : uuid) : string := "artifacts/" +:+ id.
Definition row (s : Sys) (id : uuid) : option ArtRow := sy_rows s !! id.
Definition obj (s : Sys) (id : uuid) : option string := object_at (key id) (sy_objects s).
Definition row_state (r : ArtRow) : ArtState := ax_State (ro_Artifact r).
(** The metadata describes these bytes. *)
Definition describes (a : Artifact) (b : string) : Prop :=
  ax_Digest a = Some (digest_of b) ∧ ax_SizeBytes a = Some (size_of b).
Definition published (s : Sys) (id : uuid) : Prop := ∃ r, row s id = Some r ∧ row_state r ≠ StatePending.

(** * The invariant *)
Definition row_ok (s : Sys) (id : uuid) : Prop :=
  ∀ r, row s id = Some r → ax_ID (ro_Artifact r) = id ∧ ax_StorageKey (ro_Artifact r) = key id ∧ row_checks r = true.
Definition bytes_match (s : Sys) (id : uuid) : Prop :=
  ∀ r b, row s id = Some r → row_state r ≠ StatePending → obj s id = Some b → describes (ro_Artifact r) b.
Definition bytes_present (s : Sys) (id : uuid) : Prop :=
  match row s id with
  | None => obj s id = None
  | Some r =>
      match row_state r with
      | StateAvailable => is_Some (obj s id)
      | StateDeleted => obj s id = None
      | StatePending | StateDeleting => True
      end
  end.
Definition art_ok (s : Sys) (id : uuid) : Prop :=
  id ∉ sy_reused s → bytes_match s id ∧ (id ∉ sy_missing s → bytes_present s id).
Definition art_inv (s : Sys) : Prop := ∀ id, row_ok s id ∧ art_ok s id.

(** * What a process may do *)
(** Identity, source and integrity columns. *)
Definition same_metadata (a b : Artifact) : Prop :=
  ax_ID a = ax_ID b ∧ ax_StorageKey a = ax_StorageKey b ∧ ax_SourceType a = ax_SourceType b ∧ ax_SourceRef a = ax_SourceRef b ∧
  ax_CreatedBy a = ax_CreatedBy b ∧ ax_MIMEType a = ax_MIMEType b ∧ ax_SizeBytes a = ax_SizeBytes b ∧
  ax_Digest a = ax_Digest b ∧ ax_RetentionUntil a = ax_RetentionUntil b ∧ ax_CreatedAt a = ax_CreatedAt b ∧
  ax_AvailableAt a = ax_AvailableAt b.
Definition rank (s : ArtState) : Z :=
  match s with StatePending => 0 | StateAvailable => 1 | StateDeleting => 2 | StateDeleted => 3 end.
Definition later (r r' : ArtRow) : Prop :=
  same_metadata (ro_Artifact r) (ro_Artifact r') ∧ rank (row_state r) ≤ rank (row_state r') ∧
  (row_state r = StateDeleted → r' = r).
(** A published row stays, unchanged but for its deletion. *)
Definition kept (s s' : Sys) (id : uuid) : Prop :=
  ∀ r, row s id = Some r → row_state r ≠ StatePending → ∃ r', row s' id = Some r' ∧ later r r'.
(** What a process does to an artifact it is not uploading. *)
Definition public (s s' : Sys) (id : uuid) : Prop :=
  id ∉ sy_reused s' →
  match row s id with
  | None => row s' id = None
  | Some r =>
      match row_state r with
      | StatePending => row s' id = Some r ∨ (row s' id = None ∧ id ∈ sy_missing s')
      | _ => True
      end
  end ∧
  (obj s' id = obj s id ∨ obj s' id = None) ∧
  (id ∉ sy_missing s' →
   match row s id with
   | Some r => rank (row_state r) ≤ 1
   | None => True
   end → obj s' id = obj s id).
Record may (me : nat) (s s' : Sys) : Prop := {
  may_reused : sy_reused s ⊆ sy_reused s';
  may_missing : sy_missing s ⊆ sy_missing s';
  may_owner id j : sy_owner s !! id = Some j → sy_owner s' !! id = Some j ∨ id ∈ sy_reused s';
  may_kept id : kept s s' id;
  may_public id : sy_owner s !! id ≠ Some me ∨ published s id → public s s' id }.
Definition step_ok (me : nat) (s s' : Sys) : Prop := art_inv s' ∧ may me s s'.

Lemma key_inj id id' : key id = key id' → id = id'.
Proof. apply (inj (String.append "artifacts/")). Qed.
Lemma later_refl r : later r r.
Proof. by repeat split. Qed.
Lemma later_trans r1 r2 r3 : later r1 r2 → later r2 r3 → later r1 r3.
Proof.
  intros (Hm1 & Hr1 & Hd1) (Hm2 & Hr2 & Hd2). split_and!; [|lia|].
  - unfold same_metadata in *. naive_solver congruence.
  - intros Hd. assert (r2 = r1) as -> by auto. auto.
Qed.
Lemma kept_refl s id : kept s s id.
Proof. intros r Hr _. exists r. split; [done|apply later_refl]. Qed.
Lemma kept_trans s1 s2 s3 id : kept s1 s2 id → kept s2 s3 id → kept s1 s3 id.
Proof.
  intros H1 H2 r Hr Hp. destruct (H1 r Hr Hp) as (r2 & Hr2 & Hl).
  destruct (H2 r2 Hr2) as (r3 & Hr3 & Hl'); [|exists r3; split; [done|by eapply later_trans]].
  destruct Hl as (_ & Hk & _). intros He. rewrite He in Hk. by destruct (row_state r).
Qed.
(** A step that leaves an artifact alone. *)
Lemma public_same s s' id : row s' id = row s id → obj s' id = obj s id → public s s' id.
Proof.
  intros Hr Ho _. rewrite Hr, Ho. split_and!; [|by left|done].
  destruct (row s id) as [r|]; [|done]. destruct (row_state r); auto.
Qed.
Lemma kept_same s s' id : row s' id = row s id → kept s s' id.
Proof. intros Hr r Hl _. exists r. rewrite Hr. split; [done|apply later_refl]. Qed.
Lemma art_ok_same s s' id :
  row s' id = row s id → obj s' id = obj s id → sy_reused s ⊆ sy_reused s' → sy_missing s ⊆ sy_missing s' → art_ok s id → art_ok s' id.
Proof.
  intros Hr Ho Hre Hmi Hok Hn. destruct Hok as [Hm Hp]; [set_solver|].
  unfold bytes_match, bytes_present in *. rewrite Hr, Ho. split; [done|]. intros Hn'. apply Hp. set_solver.
Qed.
(** A step on one artifact. *)
Lemma step_at me x s s' :
  art_inv s → sy_owner s' = sy_owner s → sy_reused s' = sy_reused s → sy_missing s ⊆ sy_missing s' →
  (∀ id, id ≠ x → row s' id = row s id) → (∀ id, id ≠ x → obj s' id = obj s id) →
  row_ok s' x → art_ok s' x → kept s s' x →
  (sy_owner s !! x ≠ Some me ∨ published s x → public s s' x) → step_ok me s s'.
Proof.
  intros Hi Ho Hre Hmi Hr Hb Hrx Hax Hkx Hpx. split.
  - intros id. destruct (decide (id = x)) as [->|Hne]; [done|]. destruct (Hi id) as [Hro Hao].
    split; [intros r; rewrite (Hr id Hne); apply Hro|]. apply (art_ok_same s); auto. by rewrite Hre.
  - split; [by rewrite Hre|done|intros; left; by rewrite Ho| |].
    + intros id. destruct (decide (id = x)) as [->|Hne]; [done|]. apply kept_same. auto.
    + intros id Hc. destruct (decide (id = x)) as [->|Hne]; [auto|]. apply public_same; auto.
Qed.
Lemma step_same me s s' :
  art_inv s → sy_owner s' = sy_owner s → sy_reused s' = sy_reused s → sy_missing s ⊆ sy_missing s' →
  sy_rows s' = sy_rows s → sy_objects s' = sy_objects s → step_ok me s s'.
Proof.
  intros Hi Ho Hre Hmi Hr Hb. assert (∀ id, row s' id = row s id) as Hr' by (intros; unfold row; by rewrite Hr).
  assert (∀ id, obj s' id = obj s id) as Hb' by (intros; unfold obj; by rewrite Hb).
  destruct (Hi EmptyString) as [Hro Hao].
  eapply (step_at me EmptyString s s'); eauto using kept_same, public_same.
  - intros r. rewrite Hr'. apply Hro.
  - apply (art_ok_same s); auto. by rewrite Hre.
Qed.
Lemma step_refl me s : art_inv s → step_ok me s s.
Proof. intros. by apply step_same. Qed.

(** * Steps on one artifact *)
Lemma row_insert s s' x r id :
  sy_rows s' = <[x := r]> (sy_rows s) → row s' id = if decide (id = x) then Some r else row s id.
Proof.
  intros Hr. unfold row. rewrite Hr. destruct (decide (id = x)) as [->|Hne]; [apply lookup_insert_eq|by apply lookup_insert_ne].
Qed.
Lemma row_delete s s' x id :
  sy_rows s' = delete x (sy_rows s) → row s' id = if decide (id = x) then None else row s id.
Proof.
  intros Hr. unfold row. rewrite Hr. destruct (decide (id = x)) as [->|Hne]; [apply lookup_delete_eq|by apply lookup_delete_ne].
Qed.
Lemma obj_put s x b id :
  obj (set_objects (put_object (key x) b (sy_objects s)) s) id = if decide (id = x) then Some b else obj s id.
Proof.
  unfold obj. cbn. destruct (decide (id = x)) as [->|Hne]; [apply put_object_eq|]. apply put_object_ne.
  intros He. by apply Hne, key_inj.
Qed.
Lemma obj_remove s x id :
  obj (set_objects (remove_object (key x) (sy_objects s)) s) id = if decide (id = x) then None else obj s id.
Proof.
  unfold obj. cbn. destruct (decide (id = x)) as [->|Hne]; [apply remove_object_eq|]. apply remove_object_ne.
  intros He. by apply Hne, key_inj.
Qed.
Lemma obj_eq s s' id : sy_objects s' = sy_objects s → obj s' id = obj s id.
Proof. intros Ho. unfold obj. by rewrite Ho. Qed.

Definition unpublished (s : Sys) (x : uuid) : Prop := ∀ r, row s x = Some r → row_state r = StatePending.
Lemma unpublished_not s x : unpublished s x → published s x → False.
Proof. intros Hu (r & Hr & Hp). by apply Hp, Hu. Qed.
(** Another process' freedom ends where this one uploads. *)
Lemma own_public me s s' x :
  sy_owner s !! x = Some me → unpublished s x → sy_owner s !! x ≠ Some me ∨ published s x → public s s' x.
Proof. intros Ho Hu [Hc|Hc]; [done|]. by destruct (unpublished_not s x). Qed.
Lemma reused_art_ok s x : x ∈ sy_reused s → art_ok s x.
Proof. by intros ? []. Qed.
Lemma reused_public s s' x : x ∈ sy_reused s' → public s s' x.
Proof. by intros ? []. Qed.

Definition removable (me : nat) (x : uuid) (s : Sys) : Prop :=
  x ∈ sy_reused s ∨ x ∈ sy_missing s ∨ (sy_owner s !! x = Some me ∧ unpublished s x ∧ is_Some (row s x)) ∨
  (∃ r, row s x = Some r ∧ 2 ≤ rank (row_state r)).
Lemma remove_step me x s :
  art_inv s → removable me x s → step_ok me s (set_objects (remove_object (key x) (sy_objects s)) s).
Proof.
  intros Hi Hrm. set (s' := set_objects _ s). destruct (Hi x) as [Hro Hao].
  assert (∀ id, obj s' id = if decide (id = x) then None else obj s id) as Ho by apply obj_remove.
  assert (obj s' x = None) as Hox by (rewrite Ho; by rewrite decide_True).
  apply (step_at me x s s'); try done.
  - intros id Hne. rewrite Ho. by rewrite decide_False.
  - intros Hn. destruct (Hao Hn) as [_ Hp]. split; [intros r b _ _ Hb; congruence|].
    intros Hm. specialize (Hp Hm). unfold bytes_present in *. change (row s' x) with (row s x).
    destruct Hrm as [?|[?|[(_ & Hu & _)|(r & Hr & Hk)]]]; [done..| |].
    + destruct (row s x) as [r|] eqn:Er; [|done]. by rewrite (Hu r Er).
    + rewrite Hr in *. by destruct (row_state r).
  - by apply kept_same.
  - destruct Hrm as [Hc|[Hc|[(Hc & Hu & _)|(r & Hr & Hk)]]]; [by intros _; apply reused_public| |by apply own_public|].
    + intros _ _. change (row s' x) with (row s x). split_and!; [|by right|done].
      destruct (row s x) as [r|]; [|done]. destruct (row_state r); auto.
    + intros _ _. change (row s' x) with (row s x). rewrite Hr. split_and!; [by destruct (row_state r)|by right|intros _ ?; lia].
Qed.
Lemma put_step me x b s :
  art_inv s → x ∈ sy_reused s ∨ (sy_owner s !! x = Some me ∧ unpublished s x ∧ (is_Some (row s x) ∨ x ∈ sy_missing s)) →
  step_ok me s (set_objects (put_object (key x) b (sy_objects s)) s).
Proof.
  intros Hi Hc. set (s' := set_objects _ s). destruct (Hi x) as [Hro Hao].
  assert (∀ id, obj s' id = if decide (id = x) then Some b else obj s id) as Ho by apply obj_put.
  apply (step_at me x s s'); try done.
  - intros id Hne. rewrite Ho. by rewrite decide_False.
  - destruct Hc as [Hc|(Hc & Hu & Hr)]; [by apply reused_art_ok|]. intros Hn. split.
    + intros r b' Hl Hst. by destruct Hst; apply Hu.
    + intros Hm. unfold bytes_present. change (row s' x) with (row s x). destruct Hr as [[r Hr]|?]; [|done].
      by rewrite Hr, (Hu r Hr).
  - by apply kept_same.
  - destruct Hc as [Hc|(Hc & Hu & Hr)]; [by intros _; apply reused_public|by apply own_public].
Qed.
(** Row writes: only the rows and, for [x], the history may change. *)
Record row_write (x : uuid) (s s' : Sys) : Prop := {
  rw_objects : sy_objects s' = sy_objects s; rw_owner : sy_owner s' = sy_owner s; rw_reused : sy_reused s' = sy_reused s;
  rw_missing : sy_missing s ⊆ sy_missing s' }.
Lemma create_step me x r s s' :
  art_inv s → row_write x s s' → sy_rows s' = <[x := r]> (sy_rows s) → row s x = None → row_state r = StatePending →
  row_ok s' x → x ∈ sy_reused s ∨ sy_owner s !! x = Some me → step_ok me s s'.
Proof.
  intros Hi [Hob How Hre Hmi] Hr Hx Hst Hok Hc.
  assert (∀ id, row s' id = if decide (id = x) then Some r else row s id) as Hrows by (intros; by apply row_insert).
  assert (unpublished s x) as Hu by (intros r'; by rewrite Hx).
  assert (row s' x = Some r) as Hr' by (rewrite Hrows; by rewrite decide_True).
  apply (step_at me x s s'); try done.
  - intros id Hne. rewrite Hrows. by rewrite decide_False.
  - intros id _. by apply obj_eq.
  - intros Hn. split.
    + intros r' b Hl Hp. rewrite Hr' in Hl. injection Hl as <-. done.
    + intros _. unfold bytes_present. by rewrite Hr', Hst.
  - intros r' Hl. congruence.
  - destruct Hc as [Hc|Hc]; [intros _; apply reused_public; by rewrite Hre|by apply own_public].
Qed.
Lemma drop_step me x r s s' :
  art_inv s → row_write x s s' → sy_rows s' = delete x (sy_rows s) → row s x = Some r → row_state r = StatePending →
  x ∈ sy_reused s ∨ x ∈ sy_missing s ∨ (sy_owner s !! x = Some me ∧ obj s x = None) → step_ok me s s'.
Proof.
  intros Hi [Hob How Hre Hmi] Hr Hx Hst Hc.
  assert (∀ id, row s' id = if decide (id = x) then None else row s id) as Hrows by (intros; by apply row_delete).
  assert (row s' x = None) as Hr' by (rewrite Hrows; by rewrite decide_True).
  assert (unpublished s x) as Hu by (intros r' Hl; congruence).
  apply (step_at me x s s'); try done.
  - intros id Hne. rewrite Hrows. by rewrite decide_False.
  - intros id _. by apply obj_eq.
  - intros r'. by rewrite Hr'.
  - intros Hn. rewrite Hre in Hn. split; [intros r' b Hl; congruence|]. intros Hm. unfold bytes_present. rewrite Hr', (obj_eq s s') by done.
    destruct Hc as [?|[?|[_ ?]]]; [done|set_solver|done].
  - intros r' Hl Hp. congruence.
  - destruct Hc as [Hc|[Hc|[Hc _]]]; [intros _; apply reused_public; by rewrite Hre| |by apply own_public].
    intros _ _. rewrite Hx, Hst, Hr', (obj_eq s s') by done. split_and!; [right; split; [done|set_solver]|by left|done].
Qed.
Lemma publish_step me x r r' s s' :
  art_inv s → row_write x s s' → sy_rows s' = <[x := r']> (sy_rows s) → row s x = Some r → row_state r = StatePending →
  row_state r' = StateAvailable → row_ok s' x →
  x ∈ sy_reused s ∨ (sy_owner s !! x = Some me ∧ (∀ b, obj s x = Some b → describes (ro_Artifact r') b) ∧
                     (x ∉ sy_missing s' → is_Some (obj s x))) → step_ok me s s'.
Proof.
  intros Hi [Hob How Hre Hmi] Hr Hx Hst Hst' Hok Hc.
  assert (∀ id, row s' id = if decide (id = x) then Some r' else row s id) as Hrows by (intros; by apply row_insert).
  assert (row s' x = Some r') as Hr' by (rewrite Hrows; by rewrite decide_True).
  assert (unpublished s x) as Hu by (intros r1 Hl; congruence).
  apply (step_at me x s s'); try done.
  - intros id Hne. rewrite Hrows. by rewrite decide_False.
  - intros id _. by apply obj_eq.
  - intros Hn. rewrite Hre in Hn. destruct Hc as [?|(_ & Hd & Hp)]; [done|]. split.
    + intros r1 b Hl _. rewrite (obj_eq s s') by done. rewrite Hr' in Hl. injection Hl as <-. apply Hd.
    + intros Hm. unfold bytes_present. rewrite Hr', Hst', (obj_eq s s') by done. auto.
  - intros r1 Hl Hp. congruence.
  - destruct Hc as [Hc|(Hc & _)]; [intros _; apply reused_public; by rewrite Hre|by apply own_public].
Qed.
Lemma advance_step me x r r' s s' :
  art_inv s → row_write x s s' → sy_rows s' = <[x := r']> (sy_rows s) → row s x = Some r → row_state r ≠ StatePending →
  later r r' → 2 ≤ rank (row_state r') → row_ok s' x →
  (row_state r' = StateDeleted → x ∈ sy_reused s ∨ x ∈ sy_missing s ∨ obj s x = None) → step_ok me s s'.
Proof.
  intros Hi [Hob How Hre Hmi] Hr Hx Hst Hl Hk Hok Hc. destruct (Hi x) as [_ Hao].
  assert (∀ id, row s' id = if decide (id = x) then Some r' else row s id) as Hrows by (intros; by apply row_insert).
  assert (row s' x = Some r') as Hr' by (rewrite Hrows; by rewrite decide_True).
  apply (step_at me x s s'); try done.
  - intros id Hne. rewrite Hrows. by rewrite decide_False.
  - intros id _. by apply obj_eq.
  - intros Hn. rewrite Hre in Hn. destruct (Hao Hn) as [Hm _]. split.
    + intros r1 b Hl1 _. rewrite (obj_eq s s') by done. intros Hb. rewrite Hr' in Hl1. injection Hl1 as <-.
      specialize (Hm r b Hx Hst Hb). destruct Hl as [Hs _]. unfold describes, same_metadata in *. naive_solver congruence.
    + intros Hmm. unfold bytes_present. rewrite Hr', (obj_eq s s') by done. destruct (row_state r') eqn:E; cbn in Hk; try lia; try done.
      destruct (Hc eq_refl) as [?|[?|?]]; [done|set_solver|done].
  - intros r1 Hl1 _. assert (r1 = r) as -> by congruence. by exists r'.
  - intros _ _. rewrite Hx, (obj_eq s s') by done. split_and!; [by destruct (row_state r)|by left|done].
Qed.

(** * Knowledge that other processes leave alone *)
#[local] Notation owns := (owns art_inv may).
#[local] Notation undisturbed := (undisturbed art_inv may).
Definition lost (x : uuid) (s : Sys) : Prop := x ∈ sy_reused s ∨ x ∈ sy_missing s.
Definition in_deletion (x : uuid) (s : Sys) : Prop := ∃ r, row s x = Some r ∧ 2 ≤ rank (row_state r).
Definition gone (x : uuid) (s : Sys) : Prop := lost x s ∨ (in_deletion x s ∧ obj s x = None).
(** This process uploads [x], whose row is [a] unless a sweep removed it; [P] relates the
    object to whether it may be missing. *)
Definition uploading (me : nat) (x : uuid) (a : Artifact) (P : option string → Prop → Prop) (s : Sys) : Prop :=
  x ∈ sy_reused s ∨
  (sy_owner s !! x = Some me ∧
   ((∃ r, row s x = Some r ∧ ro_Artifact r = a ∧ ax_State a = StatePending) ∨ (row s x = None ∧ x ∈ sy_missing s)) ∧
   P (obj s x) (x ∈ sy_missing s)).
Definition any_object (o : option string) (m : Prop) : Prop := True.
Definition no_object (o : option string) (m : Prop) : Prop := o = None.
Definition holds_bytes (b : string) (o : option string) (m : Prop) : Prop := o = Some b ∨ (o = None ∧ m).
Definition survives (P : option string → Prop → Prop) : Prop :=
  ∀ o o' (m m' : Prop), (m → m') → P o m → o' = o ∨ (o' = None ∧ m') → P o' m'.
Lemma lost_undisturbed me x : undisturbed me (lost x).
Proof. intros j s s' _ _ _ [Hre Hmi _ _ _] [?|?]; [left|right]; set_solver. Qed.
Lemma in_deletion_undisturbed me x : undisturbed me (in_deletion x).
Proof.
  intros j s s' _ _ _ Hm (r & Hr & Hk). destruct (may_kept _ _ _ Hm x r Hr) as (r' & Hr' & _ & Hl & _).
  - intros He. rewrite He in Hk. cbn in Hk. lia.
  - exists r'. split; [done|lia].
Qed.
Lemma gone_undisturbed me x : undisturbed me (gone x).
Proof.
  intros j s s' Hj Hi Hi' Hm [Hl|[Hd Ho]]; [left; exact (lost_undisturbed me x j s s' Hj Hi Hi' Hm Hl)|].
  destruct (decide (x ∈ sy_reused s')) as [Hr|Hr]; [by left; left|]. right.
  split; [exact (in_deletion_undisturbed me x j s s' Hj Hi Hi' Hm Hd)|]. destruct Hd as (r & Hrow & Hk).
  destruct (may_public _ _ _ Hm x) as (_ & Hob & _); [|done|destruct Hob; congruence].
  right. exists r. split; [done|]. intros He. rewrite He in Hk. cbn in Hk. lia.
Qed.
Lemma uploading_undisturbed me x a P : survives P → undisturbed me (uploading me x a P).
Proof.
  intros HP j s s' Hj Hi Hi' Hm [Hc|(Ho & Hrow & Hp)]; [left; pose proof (may_reused _ _ _ Hm); set_solver|].
  destruct (decide (x ∈ sy_reused s')) as [Hr|Hr]; [by left|]. right.
  pose proof (may_missing _ _ _ Hm) as Hmi.
  destruct (may_public _ _ _ Hm x) as (Hpr & Hob & Hkeep); [left; congruence|done|].
  split_and!.
  - destruct (may_owner _ _ _ Hm x me Ho); [done|contradiction].
  - destruct Hrow as [(r & Hrow & Ha & Hst)|[Hrow Hmis]]; rewrite Hrow in Hpr.
    + assert (row_state r = StatePending) as Hs by (unfold row_state; by rewrite Ha). rewrite Hs in Hpr.
      destruct Hpr as [Hpr|[Hpr Hin]]; [left; by exists r|by right].
    + right. split; [done|set_solver].
  - eapply HP; [|exact Hp|]; [set_solver|]. destruct (decide (x ∈ sy_missing s')) as [Hin|Hin]; [destruct Hob; auto|].
    left. apply Hkeep; [done|]. destruct Hrow as [(r & Hrow & Ha & Hst)|[Hrow Hmis]]; rewrite Hrow; [|done].
    unfold row_state. by rewrite Ha, Hst.
Qed.
Lemma any_survives : survives any_object. Proof. done. Qed.
Lemma no_survives : survives no_object.
Proof. intros o o' m m' _ -> [?|[? _]]; done. Qed.
Lemma holds_survives b : survives (holds_bytes b).
Proof. intros o o' m m' Hm [->|[-> ?]] [->|[-> ?]]; unfold holds_bytes; auto. Qed.
Lemma uploading_weaken me x a P s : uploading me x a P s → uploading me x a any_object s.
Proof. unfold uploading, any_object. naive_solver. Qed.
Lemma uploading_removable me x a P s : uploading me x a P s → removable me x s.
Proof.
  intros [?|(Ho & [(r & Hr & Ha & Hst)|[_ Hm]] & _)]; [by left| |by right; left]. right; right; left.
  split_and!; [done| |by exists r]. intros r' Hr'. assert (r' = r) as -> by congruence. unfold row_state. by rewrite Ha.
Qed.
Lemma undisturbed_or me K1 K2 : undisturbed me K1 → undisturbed me K2 → undisturbed me (λ s, K1 s ∨ K2 s).
Proof.
  intros H1 H2 j s s' Hj Hs Hs' HG [HK|HK]; [left; exact (H1 j s s' Hj Hs Hs' HG HK)|right; exact (H2 j s s' Hj Hs Hs' HG HK)].
Qed.
Lemma true_undisturbed me (P : Prop) : undisturbed me (λ _, P). Proof. apply undisturbed_pure. Qed.
#[local] Hint Resolve lost_undisturbed in_deletion_undisturbed gone_undisturbed uploading_undisturbed any_survives
  no_survives holds_survives undisturbed_or undisturbed_and true_undisturbed : artifact.

(** * Rules *)
Definition on_error {A} (Φ : ArtErr → Sys → Prop) (Ψ : A → Sys → Prop) (r : ArtErr + A) : Sys → Prop :=
  match r with inl e => Φ e | inr a => Ψ a end.
Lemma owns_then {A B} me (p : ArtP (ArtErr + A)) (k : A → ArtP (ArtErr + B)) K Ψ (Φ : ArtErr + B → Sys → Prop) :
  owns me p K (on_error (λ e, Φ (inl e)) Ψ) → (∀ a, owns me (k a) (Ψ a) Φ) → owns me (then_ p k) K Φ.
Proof. intros Hp Hk. eapply owns_bind; [exact Hp|]. intros [e|a]; [by apply owns_ret|apply Hk]. Qed.
(** A statement keeps [K] when it fails, and does what [Ψ] says when it succeeds. *)
Lemma owns_call {A} me (m : timestamp → Tx Sys ArtErr A) (K : Sys → Prop) (Ψ : A → Sys → Prop) :
  undisturbed me K → (∀ a, undisturbed me (Ψ a)) →
  (∀ now s a s', art_inv s → K s → m now s = inr (a, s') → step_ok me s s' ∧ Ψ a s') →
  owns me (call m) K (on_error (λ e s, True) Ψ).
Proof.
  intros HK HΨ Hm. unfold call. apply owns_ask. intros o. apply owns_ask. intros now. destruct o.
  - apply owns_atomically.
    + intros s Hi Hs. unfold run_tx. destruct (m now s) as [e|[a s']] eqn:E; cbn; [split; [by apply step_refl|done]|].
      by apply (Hm now s a s').
    + intros [e|a]; cbn; auto with artifact.
  - by apply owns_ret.
  - apply owns_atomically.
    + intros s Hi Hs. unfold run_tx. destruct (m now s) as [e|[a s']] eqn:E; cbn; [split; [by apply step_refl|done]|].
      split; [by apply (Hm now s a s')|done].
    + intros [e|a]; cbn; auto with artifact.
Qed.
Lemma owns_object_call me (f : O → O) (K K' : Sys → Prop) :
  undisturbed me K → undisturbed me K' →
  (∀ s, art_inv s → K s → step_ok me s (set_objects (f (sy_objects s)) s) ∧ K' (set_objects (f (sy_objects s)) s)) →
  owns me (object_call f) K (on_error (λ _ s, K s ∨ K' s) (λ _, K')).
Proof.
  intros HK HK' Hf. unfold object_call. apply owns_ask. intros o.
  assert (∀ r : ArtErr + (), (∀ s, K' s → on_error (λ _ s, K s ∨ K' s) (λ _, K') r s) →
            owns me (update (λ s, set_objects (f (sy_objects s)) s);; mret r : ArtP (ArtErr + ())) K (on_error (λ _ s, K s ∨ K' s) (λ _, K'))) as Hu.
  { intros r Hr. eapply owns_bind; [apply (owns_atomically _ _ me _ K (λ _, K')); auto|]. intros ?. apply owns_ret. auto. }
  destruct o; [apply Hu; cbn; auto|apply owns_ret; cbn; auto|apply Hu; cbn; auto].
Qed.

(** * Statements *)
Lemma update_artifact_inr id w f (s : Sys) o s' :
  update_artifact id w f s = inr (o, s') →
  (o = None ∧ s' = s) ∨
  ∃ r, row s id = Some r ∧ w (row_state r) = true ∧ enforce_immutable (ro_Artifact r) (ro_Artifact (f r)) = true ∧
    row_checks (f r) = true ∧ o = Some (ro_Artifact (f r)) ∧ s' = set_rows (<[id := f r]> (sy_rows s)) s.
Proof.
  intros Hu. unfold update_artifact in Hu. inv_tx. fold (row s id) in Hu. destruct (row s id) as [r|] eqn:Er; [|inv_tx; auto].
  fold (row_state r) in Hu. destruct (w (row_state r)) eqn:Ew; [|inv_tx; auto]. right. exists r. inv_tx.
  rewrite andb_true_iff in *. naive_solver.
Qed.
Lemma immutable_facts a b :
  enforce_immutable a b = true →
  ax_ID b = ax_ID a ∧ ax_StorageKey b = ax_StorageKey a ∧
  (ax_State a ≠ StatePending →
   same_metadata a b ∧ rank (ax_State a) ≤ rank (ax_State b) ∧ ax_State a ≠ StateDeleted ∧ 2 ≤ rank (ax_State b)).
Proof.
  unfold enforce_immutable. rewrite !andb_true_iff, orb_true_iff, !bool_decide_eq_true. intros [[Hid Hst] Hint].
  split_and!; [naive_solver..|]. intros Hp. split_and!.
  - unfold same_metadata. naive_solver congruence.
  - destruct (ax_State a), (ax_State b); first [by vm_compute|by vm_compute in Hst|by destruct Hp].
  - by intros He; rewrite He in Hst.
  - destruct (ax_State a), (ax_State b); first [by vm_compute|by vm_compute in Hst|by destruct Hp].
Qed.
Lemma rows_write x v (s : Sys) : row_write x s (set_rows v s).
Proof. by split. Qed.
Lemma update_row_ok (s s' : Sys) id r r' :
  art_inv s → sy_rows s' = <[id := r']> (sy_rows s) → row s id = Some r →
  enforce_immutable (ro_Artifact r) (ro_Artifact r') = true → row_checks r' = true → row_ok s' id.
Proof.
  intros Hi Hs Hr Him Hck r1. rewrite (row_insert s s' id r') by done. rewrite decide_True by done. intros [= <-].
  destruct (immutable_facts _ _ Him) as (-> & -> & _). destruct (Hi id) as [Hro _]. destruct (Hro r Hr) as (? & ? & _). done.
Qed.
(** An UPDATE of a published row, when it deletes the row only after the bytes are gone. *)
Lemma update_step me id w f (s : Sys) o s' :
  art_inv s → update_artifact id w f s = inr (o, s') → w StatePending = false →
  (∀ r, row s id = Some r → w (row_state r) = true → row_state (f r) = StateDeleted → gone id s) →
  step_ok me s s' ∧
  ∀ a, o = Some a → (∃ r, row s' id = Some r ∧ ro_Artifact r = a ∧ 2 ≤ rank (row_state r)) ∧ in_deletion id s'.
Proof.
  intros Hi Hu Hw Hg. apply update_artifact_inr in Hu as [[-> ->]|(r & Hr & Hwr & Him & Hck & -> & ->)]; [split; [by apply step_refl|done]|].
  assert (row_state r ≠ StatePending) as Hnp by (intros He; congruence).
  destruct (immutable_facts _ _ Him) as (_ & _ & Hm). destruct (Hm Hnp) as (Hsm & Hrk & Hnd & Hk). split.
  - apply (advance_step me id r (f r) s _ Hi (rows_write id _ s) eq_refl Hr Hnp); [by split_and!|done| |].
    + by apply (update_row_ok s _ id r (f r)).
    + intros Hd. destruct (Hg r Hr Hwr Hd) as [[?|?]|[_ ?]]; auto.
  - intros a [= <-]. assert (row (set_rows (<[id := f r]> (sy_rows s)) s) id = Some (f r)) as Hrow by apply lookup_insert_eq.
    split; [by exists (f r)|by exists (f r)].
Qed.
Lemma owns_get me id K :
  undisturbed me K → owns me (Get id) K (on_error (λ _ _, True) (λ a s, K s ∧ ax_ID a = id ∧ ax_StorageKey a = key id)).
Proof.
  intros HK. apply owns_call; [done|auto with artifact|]. intros now s a s' Hi Hs Hg. unfold Get_tx in Hg. inv_tx.
  match goal with H : _ <$> _ = Some _ |- _ => apply fmap_Some in H as (r & Hr & ->) end.
  destruct (Hi id) as [Hro _]. destruct (Hro r Hr) as (? & ? & _). split; [by apply step_refl|done].
Qed.
(** * Deletion *)
Lemma owns_begin_delete me id reason :
  owns me (BeginDelete id reason) (λ _, True)
    (on_error (λ _ _, True) (λ a s, (ax_StorageKey a = key id) ∧ (ax_State a = StateDeleted ∨ in_deletion id s))).
Proof.
  eapply (owns_then me _ _ _ (λ o s, match o with Some a => ax_StorageKey a = key id ∧ in_deletion id s | None => True end)).
  - apply owns_call; [auto with artifact|intros [a|]; auto with artifact|]. intros now s o s' Hi _ Hu.
    unfold BeginDelete_tx in Hu. destruct (update_step me id _ _ s o s' Hi Hu) as [Hst Ha]; [done| |].
    { intros r Hr _ Hd. by unfold row_state in Hd. }
    split; [done|]. destruct o as [a|]; [|done]. destruct (Ha a eq_refl) as [(r & Hr & <- & _) Hd]. split; [|done].
    destruct Hst as [Hi' _]. destruct (Hi' id) as [Hro _]. by destruct (Hro r Hr) as (_ & ? & _).
  - intros [a|]; [apply owns_ret; cbn; naive_solver|]. eapply owns_bind; [apply (owns_get me id (λ _, True)); auto with artifact|].
    intros [e|a]; apply owns_ret; [done|]. intros s _ (_ & _ & Hk). destruct (decide _); cbn; auto.
Qed.
Lemma owns_finish_delete me id : owns me (FinishDelete id) (gone id) (λ _ _, True).
Proof.
  eapply (owns_then me _ _ _ (λ _ _, True)).
  - eapply owns_mono; [done| |apply (owns_call me _ (gone id) (λ _ _, True)); auto with artifact].
    + by intros [].
    + intros now s o s' Hi Hg Hu. unfold FinishDelete_tx in Hu. destruct (update_step me id _ _ s o s' Hi Hu) as [Hst _]; auto.
  - intros [a|]; [by apply owns_ret|]. eapply owns_bind; [apply (owns_get me id (λ _, True)); auto with artifact|].
    intros [e|a]; by apply owns_ret.
Qed.
Lemma owns_record_error me id text : owns me (RecordDeleteError id text) (λ _, True) (λ _ _, True).
Proof.
  eapply owns_bind; [apply (owns_call me _ (λ _, True) (λ _ _, True)); auto with artifact|intros; by apply owns_ret].
  intros now s o s' Hi _ Hu. split; [|done]. destruct (update_step me id _ _ s o s' Hi Hu) as [Hst _]; [done| |done].
  intros r Hr Hw Hd. apply bool_decide_eq_true in Hw. unfold row_state in *. cbn in Hd. congruence.
Qed.
Lemma owns_delete_object me x K K' :
  undisturbed me K → undisturbed me K' → (∀ s, K s → removable me x s) →
  (∀ s, K s → K' (set_objects (remove_object (key x) (sy_objects s)) s)) →
  owns me (DeleteObject (key x)) K (on_error (λ _ s, K s ∨ K' s) (λ _, K')).
Proof. intros. apply owns_object_call; [done..|]. intros s Hi HK. split; [apply remove_step; auto|auto]. Qed.
Lemma remove_gone x s : in_deletion x s → gone x (set_objects (remove_object (key x) (sy_objects s)) s).
Proof. intros (r & Hr & Hk). right. split; [by exists r|]. rewrite obj_remove. by rewrite decide_True. Qed.
Lemma owns_Delete me id reason error_text : owns me (Delete error_text id reason) (λ _, True) (λ _ _, True).
Proof.
  unfold Delete. set (why := if String.eqb reason EmptyString then _ else _).
  refine (owns_then me _ _ _ _ (λ _ _, True) (owns_begin_delete me id why) _).
  intros a. apply owns_pure. intros ->. destruct (decide _) as [Hd|Hd]; [by apply owns_ret|].
  refine (owns_pre _ _ me _ (in_deletion id) _ _ _ _); [|by intros s _ [?|?]].
  eapply owns_bind; [apply (owns_delete_object me id (in_deletion id) (gone id)); auto with artifact|].
  - intros s Hs. by right; right; right.
  - intros s. apply remove_gone.
  - intros [e|[]]; [apply owns_seq; [apply owns_record_error|intros; by apply owns_ret]|].
    eapply (owns_then me _ _ _ (λ _ _, True)); [eapply owns_post; [apply owns_finish_delete|by intros []]|].
    intros _. eapply owns_post; [apply (owns_get me id (λ _, True)); auto with artifact|done].
Qed.

(** * Abandoned uploads *)
Lemma owns_delete_pending me x K :
  undisturbed me K → (∀ s, K s → x ∈ sy_reused s ∨ x ∈ sy_missing s ∨ (sy_owner s !! x = Some me ∧ obj s x = None)) →
  owns me (DeletePending x) K (λ _ _, True).
Proof.
  intros HK Hc. eapply owns_bind; [apply (owns_call me _ K (λ _ _, True)); auto with artifact|intros; by apply owns_ret].
  intros now s [] s' Hi Hs Hd. split; [|done]. unfold DeletePending_tx in Hd. inv_tx. fold (row s x) in Hd.
  destruct (row s x) as [r|] eqn:Hr; [|inv_tx; by apply step_refl].
  destruct (decide _) as [Hst|Hst]; [|inv_tx; by apply step_refl]. inv_tx.
  by apply (drop_step me x r s _ Hi (rows_write x _ s)); auto.
Qed.
Lemma remove_uploading me x a P s :
  uploading me x a P s → uploading me x a no_object (set_objects (remove_object (key x) (sy_objects s)) s).
Proof.
  intros [?|(Ho & Hr & _)]; [by left|]. right. split_and!; [done|done|]. unfold no_object. rewrite obj_remove. by rewrite decide_True.
Qed.
Lemma owns_cleanup me x a a0 :
  ax_ID a = x → ax_StorageKey a = key x → owns me (cleanupPending a) (uploading me x a0 any_object) (λ _ _, True).
Proof.
  intros Hid Hk. unfold cleanupPending. rewrite Hid, Hk.
  eapply owns_bind; [apply (owns_delete_object me x _ (uploading me x a0 no_object)); auto with artifact|].
  - intros s. apply uploading_removable.
  - intros s. apply remove_uploading.
  - intros [e|[]]; [by apply owns_ret|]. cbn [on_error]. apply owns_delete_pending; [auto with artifact|].
    intros s [?|(Ho & _ & Hob)]; [by left|]. by right; right.
Qed.
Lemma owns_sweep_pending me a :
  ax_StorageKey a = key (ax_ID a) → owns me (sweep_pending a) (lost (ax_ID a)) (λ _ _, True).
Proof.
  intros Hk. unfold sweep_pending. rewrite Hk.
  eapply owns_bind; [apply (owns_delete_object me (ax_ID a) _ (lost (ax_ID a))); auto with artifact|].
  - intros s [?|?]; [by left|by right; left].
  - intros [e|[]]; [by apply owns_ret|]. cbn [on_error]. apply owns_delete_pending; [auto with artifact|].
    intros s [?|?]; auto.
Qed.
Lemma lost_kept x j s s' : may j s s' → lost x s → lost x s'.
Proof. intros Hm [?|?]; [left; pose proof (may_reused _ _ _ Hm)|right; pose proof (may_missing _ _ _ Hm)]; set_solver. Qed.
Lemma owns_for_each {A} me (f : A → ArtP ()) (P : A → Sys → Prop) l :
  (∀ a, undisturbed me (P a)) → (∀ a j s s', may j s s' → P a s → P a s') → (∀ a, owns me (f a) (P a) (λ _ _, True)) →
  owns me (for_each f l) (λ s, Forall (λ a, P a s) l) (λ _ _, True).
Proof.
  intros HU HP Hf. induction l as [|a l IH]; [by apply owns_ret|]. cbn [for_each].
  apply (owns_pre _ _ me _ (λ s, P a s ∧ Forall (λ a, P a s) l)); [|intros s _ Hl; by inversion Hl].
  eapply owns_bind; [apply (owns_frame _ _ me (f a) (P a) (λ _ _, True)); [|apply Hf]|].
  - intros j s s' _ _ Hm Hl. eapply Forall_impl; [exact Hl|]. intros x. by apply HP with j.
  - intros ?. eapply owns_pre; [exact IH|]. by intros s _ [_ ?].
Qed.
Lemma owns_listed me f (P : Artifact → Sys → Prop) r :
  (∀ a, undisturbed me (P a)) → (∀ a j s s', may j s s' → P a s → P a s') → (∀ a, owns me (f a) (P a) (λ _ _, True)) →
  owns me (on_listed f r) (on_error (λ _ _, True) (λ l s, Forall (λ a, P a s) l) r) (λ _ _, True).
Proof. intros. destruct r as [e|l]; [by apply owns_ret|by apply owns_for_each]. Qed.
Lemma elem_of_lifecycle p limit rows a :
  a ∈ listLifecycle p limit rows → ∃ id r, rows !! id = Some r ∧ ro_Artifact r = a ∧ p r = true.
Proof.
  unfold listLifecycle, lifecycle_rows. intros (i & Ha & _)%elem_of_take.
  apply list_elem_of_lookup_2 in Ha. rewrite merge_sort_Permutation in Ha.
  apply list_elem_of_fmap in Ha as (r & -> & Hr). apply list_elem_of_fmap in Hr as ([id r'] & -> & Hl).
  apply elem_of_map_to_list, map_lookup_filter_Some in Hl as [Hl Hp]. by exists id, r'.
Qed.
Lemma forall_lost_undisturbed me l : undisturbed me (λ s, Forall (λ a, ax_StorageKey a = key (ax_ID a) ∧ lost (ax_ID a) s) l).
Proof.
  intros j s s' Hj Hi Hi' Hm Hl. eapply Forall_impl; [exact Hl|]. intros a [? ?]. split; [done|]. by apply (lost_kept _ j s).
Qed.
Lemma owns_stale_pending me before limit :
  owns me (StalePending before limit) (λ _, True)
    (on_error (λ _ _, True) (λ l s, Forall (λ a, ax_StorageKey a = key (ax_ID a) ∧ lost (ax_ID a) s) l)).
Proof.
  apply owns_call; [auto with artifact|intros; apply forall_lost_undisturbed|]. intros now s l s' Hi _ Hl. inv_tx. cbv zeta in Hl. inv_tx.
  split; [apply step_same; try done; cbn; set_solver|]. apply Forall_forall. intros a Ha. split.
  - destruct (elem_of_lifecycle _ _ _ _ Ha) as (id & r & Hr & <- & _). destruct (Hi id) as [Hro _].
    destruct (Hro r Hr) as (-> & -> & _). done.
  - right. cbn. apply elem_of_union_l, elem_of_list_to_set, list_elem_of_fmap. by exists a.
Qed.
Lemma owns_sweep_delete me reason a error_text : owns me (sweep_delete error_text reason a) (λ _, True) (λ _ _, True).
Proof. apply owns_seq; [apply owns_Delete|intros; by apply owns_ret]. Qed.
Lemma owns_list me p limit : owns me (call (λ _, tx_asks (λ s : Sys, listLifecycle p limit (sy_rows s)))) (λ _, True) (on_error (λ _ _, True) (λ _ _, True)).
Proof. apply owns_call; [auto with artifact..|]. intros now s l s' Hi _ Hl. inv_tx. split; [by apply step_refl|done]. Qed.
Lemma owns_delete_all me reason r error_text : owns me (on_listed (sweep_delete error_text reason) r) (λ _, True) (λ _ _, True).
Proof.
  eapply owns_pre; [apply (owns_listed me _ (λ _ _, True)); [auto with artifact|done|intros; apply owns_sweep_delete]|].
  intros s _ _. destruct r as [e|l]; [done|]. by apply Forall_true.
Qed.
Lemma owns_sweep me cfg error_text : owns me (sweep error_text cfg) (λ _, True) (λ _ _, True).
Proof.
  unfold sweep. apply owns_ask. intros now.
  eapply owns_bind; [apply owns_stale_pending|]. intros r.
  eapply owns_bind; [apply (owns_listed me _ (λ a s, ax_StorageKey a = key (ax_ID a) ∧ lost (ax_ID a) s))|].
  - intros a. auto with artifact.
  - intros a j s s' Hm [? ?]. split; [done|by eapply lost_kept].
  - intros a. apply owns_pure. intros Hk. by apply owns_sweep_pending.
  - intros ?. apply owns_ask. intros now2. eapply owns_bind; [apply owns_list|]. intros r2.
    apply owns_seq; [apply owns_delete_all|]. intros ?. apply owns_ask. intros now3.
    eapply owns_bind; [apply owns_list|]. intros r3. eapply owns_pre; [apply owns_delete_all|done].
Qed.

(** * Uploads *)
Definition fresh (me : nat) (x : uuid) (s : Sys) : Prop :=
  x ∈ sy_reused s ∨ (sy_owner s !! x = Some me ∧ row s x = None ∧ obj s x = None).
Lemma fresh_undisturbed me x : undisturbed me (fresh me x).
Proof.
  intros j s s' Hj Hi Hi' Hm [Hc|(Ho & Hrow & Hob)]; [left; pose proof (may_reused _ _ _ Hm); set_solver|].
  destruct (decide (x ∈ sy_reused s')) as [Hr|Hr]; [by left|]. right.
  destruct (may_public _ _ _ Hm x) as (Hpr & Hpo & _); [left; congruence|done|]. rewrite Hrow in Hpr. split_and!; [|done|].
  - destruct (may_owner _ _ _ Hm x me Ho); [done|contradiction].
  - destruct Hpo; congruence.
Qed.
#[local] Hint Resolve fresh_undisturbed : artifact.
Lemma is_some_spec {A} (o : option A) : is_some o = true ↔ is_Some o.
Proof. destruct o; cbn; [by split; eauto|]. split; [done|by intros []]. Qed.
Lemma generated_step me x s : art_inv s → step_ok me s (generated me x s) ∧ fresh me x (generated me x s).
Proof.
  intros Hi. set (s' := generated me x s).
  assert (sy_reused s ⊆ sy_reused s') as Hre by (unfold s', generated; cbn; destruct (_ || _); set_solver).
  assert (is_Some (sy_owner s !! x) ∨ is_Some (row s x) ∨ is_Some (obj s x) → x ∈ sy_reused s') as Huse.
  { intros Hc. unfold s', generated. cbn. rewrite (proj2 (orb_true_iff _ _)); [set_solver|].
    rewrite orb_true_iff, !is_some_spec. unfold row, obj, key in Hc. tauto. }
  split; [split|].
  - intros id. destruct (Hi id) as [Hro Hao]. split; [done|]. by apply (art_ok_same s).
  - split; [done|done| |intros; by apply kept_same|intros; by apply public_same]. intros id j Hj.
    destruct (decide (id = x)) as [->|Hne]; [right; apply Huse; left; by exists j|left]. unfold s', generated. cbn. by rewrite lookup_insert_ne.
  - destruct (decide (x ∈ sy_reused s')) as [?|Hn]; [by left|]. right. split_and!.
    + apply lookup_insert_eq.
    + apply eq_None_not_Some. intros Hs. apply Hn, Huse. auto.
    + apply eq_None_not_Some. intros Hs. apply Hn, Huse. auto.
Qed.
(** The new row carries the upload's metadata. *)
Definition from_input (i : UploadInput) (a : Artifact) : Prop :=
  ax_SourceType a = ui_SourceType i ∧ ax_CreatedBy a = ui_CreatedBy i ∧ ax_MIMEType a = ui_MIMEType i.
Lemma owns_create_pending me x i :
  owns me (call (CreatePending x (key x) i)) (fresh me x)
    (on_error (λ _ _, True) (λ a s, (ax_ID a = x ∧ ax_StorageKey a = key x ∧ from_input i a) ∧ uploading me x a no_object s)).
Proof.
  apply owns_call; [auto with artifact..|]. intros now s a s' Hi Hf Hc. unfold CreatePending in Hc. inv_tx.
  rewrite andb_true_iff in *. destruct_and!. set (a := mkArtifact _ _ _ _ _ _ _ _ _ _ _ _ _ _).
  assert (row s x = None) as Hx.
  { apply eq_None_not_Some. rewrite <- is_some_spec. unfold row. by destruct (is_some _). }
  assert (row (set_rows (<[x := mkRow a None None]> (sy_rows s)) s) x = Some (mkRow a None None)) as Hr by apply lookup_insert_eq.
  split.
  - apply (create_step me x (mkRow a None None) s _ Hi (rows_write x _ s)); try done.
    + intros r. rewrite Hr. by intros [= <-].
    + destruct Hf as [?|[? _]]; auto.
  - split; [by repeat split|]. destruct Hf as [?|(Ho & _ & Hob)]; [by left|]. right. split_and!; [done| |done].
    left. by exists (mkRow a None None).
Qed.
Lemma owns_put me x a stream :
  owns me (Put (key x) stream) (uploading me x a no_object)
    (on_error (λ _, uploading me x a any_object)
       (λ _ s, bd_fails stream = false ∧ uploading me x a (holds_bytes (bd_bytes stream)) s)).
Proof.
  apply (owns_pre _ _ me _ (uploading me x a any_object)); [|intros s _; apply uploading_weaken].
  unfold Put. apply owns_ask. intros [| |]; [|by apply owns_ret..].
  eapply owns_bind; [apply (owns_atomically _ _ me _ _ (λ _, uploading me x a any_object)); [|auto with artifact]|].
  { intros s Hi Hs. split; [by apply step_refl|done]. }
  intros o. destruct (is_some o); [by apply owns_ret|]. destruct (bd_fails stream) eqn:Ef; [by apply owns_ret|].
  eapply owns_post; [apply (owns_object_call me _ (uploading me x a any_object) (uploading me x a (holds_bytes (bd_bytes stream)))); auto with artifact|].
  - intros s Hi Hu. split.
    + apply put_step; [done|]. destruct Hu as [?|(Ho & Hr & _)]; [by left|]. right.
      split_and!; [done| |destruct Hr as [(r & Hr & _)|[_ ?]]; [left; by exists r|by right]].
      intros r Hl. destruct Hr as [(r' & Hr & Ha & Hst)|[Hr _]]; [|congruence].
      assert (r = r') as -> by congruence. unfold row_state. by rewrite Ha.
    + destruct Hu as [?|(Ho & Hr & _)]; [by left|]. right. split_and!; [done|done|]. left. rewrite obj_put. by rewrite decide_True.
  - intros [e|[]] s _; cbn; [|done]. intros [?|?]; [done|by eapply uploading_weaken].
Qed.
Lemma finalize_inr x size digest scope now (s : Sys) a s' :
  finalize_tx x size digest scope now s = inr (a, s') →
  ∃ r wk, row s x = Some r ∧ row_state r = StatePending ∧
    enforce_immutable (ro_Artifact r) (ro_Artifact (finalized size digest now r)) = true ∧
    row_checks (finalized size digest now r) = true ∧ a = ro_Artifact (finalized size digest now r) ∧
    s' = set_rows (<[x := finalized size digest now r]> (sy_rows s)) (set_wk wk s).
Proof.
  unfold finalize_tx. intros Hf. inv_tx.
  match goal with H : _ s = inr (tt, ?y) |- _ => assert (∃ wk, y = set_wk wk s) as [wk ->] end.
  { destruct scope as [sc|]; [|inv_tx; exists (sy_wk s); by destruct s].
    unfold validateScopeTx, link_tx in *. inv_tx. eauto. }
  match goal with H : update_artifact _ _ _ _ = _ |- _ => apply update_artifact_inr in H as [[? ?]|(r & Hr & Hw & ? & ? & ? & ?)] end;
    [congruence|]. apply bool_decide_eq_true in Hw. simplify_eq. exists r, wk. done.
Qed.
Definition inherits (a0 a : Artifact) : Prop := ∀ i, from_input i a0 → from_input i a.
Lemma reused_undisturbed me x (P : Prop) : undisturbed me (λ s, x ∈ sy_reused s ∨ P).
Proof. intros j s s' _ _ _ Hm [?|?]; [left; pose proof (may_reused _ _ _ Hm); set_solver|auto]. Qed.
#[local] Hint Resolve reused_undisturbed : artifact.
Lemma finalize_step me x a0 b scope now s a s' s1 :
  art_inv s → uploading me x a0 (holds_bytes b) s → finalize_tx x (size_of b) (digest_of b) scope now s = inr (a, s') →
  s1 = s' ∨ s1 = mark_missing {[ x ]} s' →
  step_ok me s s1 ∧ (describes a b ∧ ax_State a = StateAvailable ∧ ax_ID a = x) ∧ (x ∈ sy_reused s1 ∨ inherits a0 a).
Proof.
  intros Hi Hu Hf Hs1. apply finalize_inr in Hf as (r & wk & Hr & Hst & Him & Hck & -> & ->).
  set (r' := finalized (size_of b) (digest_of b) now r) in *.
  assert (row_write x s s1 ∧ sy_rows s1 = <[x := r']> (sy_rows s)) as [Hw Hrows].
  { destruct Hs1 as [->| ->]; (split; [split|]); cbn; try done. set_solver. }
  assert (row_ok s1 x) as Hok by by apply (update_row_ok s s1 x r r').
  destruct (Hok r') as (Hid & _ & _); [rewrite (row_insert s s1 x r') by done; by rewrite decide_True|].
  assert (sy_reused s1 = sy_reused s) as Hre by apply Hw. rewrite Hre. split_and!; [|done|done|done|].
  - apply (publish_step me x r r' s s1 Hi Hw Hrows Hr Hst); [done|done|].
    destruct Hu as [?|(Ho & _ & Hb)]; [by left|]. right. split_and!; [done| |].
    + intros b' Hb'. destruct Hb as [Hb|[Hb _]]; [|congruence]. assert (b' = b) as -> by congruence. done.
    + intros Hn. destruct Hb as [Hb|[_ Hm]]; [by rewrite Hb|]. pose proof (rw_missing _ _ _ Hw). set_solver.
  - destruct Hu as [?|(_ & [(r1 & Hr1 & Ha & _)|[Hn _]] & _)]; [by left| |congruence]. right.
    assert (r1 = r) as -> by congruence. subst a0. by intros i.
Qed.
Lemma owns_finalize me x a0 b scope :
  owns me (Finalize x (size_of b) (digest_of b) scope) (uploading me x a0 (holds_bytes b))
    (on_error (λ _ s, uploading me x a0 any_object s ∨ lost x s)
       (λ a s, (describes a b ∧ ax_State a = StateAvailable ∧ ax_ID a = x) ∧ (x ∈ sy_reused s ∨ inherits a0 a))).
Proof.
  unfold Finalize. apply owns_ask. intros o. apply owns_ask. intros now. destruct o.
  - apply owns_atomically; [|intros [e|a]; cbn; auto with artifact]. intros s Hi Hu. unfold run_tx.
    destruct (finalize_tx x _ _ scope now s) as [e|[a s']] eqn:E; cbn.
    + split; [by apply step_refl|]. left. by eapply uploading_weaken.
    + destruct (finalize_step me x a0 b scope now s a s' s' Hi Hu E) as [? ?]; auto.
  - apply owns_ret. intros s _ Hu. left. by eapply uploading_weaken.
  - apply owns_atomically; [|intros [e|a]; cbn; auto with artifact]. intros s Hi Hu. unfold run_tx.
    destruct (finalize_tx x _ _ scope now s) as [e|[a s']] eqn:E; cbn.
    + split; [by apply step_refl|]. left. by eapply uploading_weaken.
    + destruct (finalize_step me x a0 b scope now s a s' (mark_missing {[ x ]} s') Hi Hu E) as [? ?]; [auto|].
      split; [done|]. right. right. cbn. set_solver.
Qed.
(** What a successful upload promises about the artifact it returns. *)
Definition accepted (cfg : ArtConfig) (i : UploadInput) (b : string) : Prop :=
  size_of b ≤ ac_MaxSize cfg ∧ (∀ n, ui_ExpectedSize i = Some n → n = size_of b) ∧
  (ui_ExpectedDigest i ≠ EmptyString → lower (ui_ExpectedDigest i) = lower (digest_of b)).
Definition upload_post (cfg : ArtConfig) (i : UploadInput) (b : string) (a : Artifact) (s : Sys) : Prop :=
  (accepted cfg i b ∧ describes a b ∧ ax_State a = StateAvailable) ∧ (ax_ID a ∈ sy_reused s ∨ from_input i a).
Lemma owns_verified me x cfg i a0 b :
  ax_ID a0 = x → ax_StorageKey a0 = key x → from_input i a0 →
  owns me (upload_verified sha256hex cfg i a0 b) (uploading me x a0 (holds_bytes b)) (on_error (λ _ _, True) (upload_post cfg i b)).
Proof.
  intros Hid Hk Hin. unfold upload_verified.
  assert (∀ e, owns me (cleanupPending a0;; mret (inl e) : ArtP (ArtErr + Artifact)) (uploading me x a0 (holds_bytes b))
                 (on_error (λ _ _, True) (upload_post cfg i b))) as Hclean.
  { intros e. eapply owns_bind; [eapply owns_pre; [by apply (owns_cleanup me x a0 a0)|intros s _; apply uploading_weaken]|].
    intros ?. by apply owns_ret. }
  destruct (Z.ltb_spec (ac_MaxSize cfg) (size_of b)); [apply Hclean|].
  destruct (match ui_ExpectedSize i with Some n => _ | None => _ end) eqn:Esize; [apply Hclean|].
  destruct (negb _ && negb _) eqn:Edig; [apply Hclean|]. rewrite Hid, Hk.
  eapply owns_bind; [apply owns_finalize|]. intros [e|a].
  - eapply owns_bind; [apply (owns_delete_object me x (λ s, uploading me x a0 any_object s ∨ lost x s) (λ _, True)); auto with artifact|].
    + intros s [Hu|[?|?]]; [by eapply uploading_removable|by left|by right; left].
    + intros ?. by apply owns_ret.
  - apply owns_ret. intros s _ [(Hd & Hst & Hida) Hi]. split; [split_and!; [split_and!|done|done]|].
    + done.
    + intros n Hn. rewrite Hn in Esize. apply negb_false_iff, Z.eqb_eq in Esize. done.
    + intros Hne. apply andb_false_iff in Edig as [Ed|Ed]; [|by apply negb_false_iff, String.eqb_eq in Ed].
      by apply negb_false_iff, String.eqb_eq in Ed.
    + rewrite Hida. destruct Hi as [?|Hi]; [by left|right]. by apply Hi.
Qed.
Lemma owns_Upload me cfg i body media_type :
  owns me (Upload sha256hex media_type me cfg i body) (λ _, True)
    (on_error (λ _ _, True) (λ a s, ∃ bd, body = Some bd ∧ bd_fails (LimitedReader (ac_MaxSize cfg) bd) = false ∧
       upload_post cfg i (bd_bytes (LimitedReader (ac_MaxSize cfg) bd)) a s)).
Proof.
  unfold Upload. destruct (validateUpload media_type i); [by apply owns_ret|]. destruct body as [bd|]; [|by apply owns_ret].
  apply (owns_bind _ _ me _ _ _ (λ i' _, i' = i ∨ ∃ t, i' = with_retention t i)).
  { destruct (negb _ && _); [|by apply owns_ret; auto]. apply owns_ask. intros t. apply owns_ret. eauto. }
  intros i'. apply (owns_pre _ _ me _ (λ s, (i' = i ∨ ∃ t, i' = with_retention t i) ∧ True)); [|done]. apply owns_pure. intros Hi'.
  apply owns_ask. intros x. apply (owns_bind _ _ me _ _ _ (λ _, fresh me x)).
  { apply owns_atomically; [|auto with artifact]. intros s Hi _. by apply generated_step. }
  intros ?. eapply owns_then; [eapply owns_post; [apply (owns_create_pending me x i')|by intros [?|?]]|].
  intros a0. apply owns_pure. intros (Hid & Hk & Hin).
  assert (from_input i a0) as Hin' by by destruct Hi' as [->|[t ->]].
  eapply owns_bind; [apply owns_put|]. intros [e|[]].
  - eapply owns_bind; [by apply (owns_cleanup me x a0 a0)|]. intros ?. by apply owns_ret.
  - apply owns_pure. intros Hf. eapply owns_post; [by apply (owns_verified me x cfg i' a0)|]. intros [e|a'] s _ Hp; [done|].
    exists bd. split_and!; [done|done|]. destruct Hp as [[(H1 & H2 & H3) [H4 H5]] H6].
    split; [split_and!; [split_and!|done|done]|]; destruct Hi' as [->|[t ->]]; done.
Qed.
(** * Reads *)
Lemma owns_Open me id :
  owns me (Open_ id) (λ _, True)
    (on_error (λ _ _, True) (λ '(a, b) s, (ax_ID a = id ∧ ax_State a = StateAvailable) ∧ (id ∈ sy_reused s ∨ describes a b))).
Proof.
  set (seen := λ a s, id ∈ sy_reused s ∨ ∃ r, row s id = Some r ∧ row_state r ≠ StatePending ∧ same_metadata a (ro_Artifact r)).
  assert (∀ a, undisturbed me (seen a)) as Hseen.
  { intros a j s s' _ _ _ Hm [?|(r & Hr & Hst & Hs)]; [left; pose proof (may_reused _ _ _ Hm); set_solver|]. right.
    destruct (may_kept _ _ _ Hm id r Hr Hst) as (r' & Hr' & Hl & Hk & _). exists r'. split_and!; [done| |].
    - intros He. rewrite He in Hk. by destruct (row_state r).
    - unfold same_metadata in *. naive_solver congruence. }
  unfold Open_, GetAvailable.
  eapply (owns_then me _ _ _ (λ a s, (ax_ID a = id ∧ ax_State a = StateAvailable ∧ ax_StorageKey a = key id) ∧ seen a s)).
  - eapply (owns_then me _ _ _ (λ a s, ax_ID a = id ∧ ax_StorageKey a = key id ∧ (ax_State a = StatePending ∨ seen a s))).
    + refine (owns_call me (Get_tx id) (λ _, True) _ _ _ _); [auto with artifact|intros; auto with artifact|].
      intros now s a s' Hi _ Hg. unfold Get_tx in Hg. inv_tx.
      match goal with H : _ <$> _ = Some _ |- _ => apply fmap_Some in H as (r & Hr & ->) end.
      destruct (Hi id) as [Hro _]. destruct (Hro r Hr) as (? & ? & _). split; [by apply step_refl|]. split_and!; [done|done|].
      destruct (decide (row_state r = StatePending)) as [?|Hn]; [by left|]. right; right. exists r. by repeat split.
    + intros a. apply owns_ret. intros s _ (H1 & H2 & H3). destruct (decide _) as [He|]; cbn; [|done].
      split_and!; [done..|]. destruct H3; [congruence|done].
  - intros a. apply owns_pure. intros (Hid & Hst & Hk). rewrite Hk.
    eapply (owns_then me _ _ _ (λ b s, id ∈ sy_reused s ∨ describes a b)); [|intros b; by apply owns_ret].
    unfold GetObject. apply owns_ask. intros [| |]; [|by apply owns_ret..].
    eapply (owns_bind _ _ me _ _ _ (λ o s, match o with Some b => id ∈ sy_reused s ∨ describes a b | None => True end));
      [|intros [b|]; by apply owns_ret].
    apply owns_atomically; [|intros [b|]; auto with artifact]. intros s Hi Hs. split; [by apply step_refl|]. cbn.
    destruct (object_at (key id) (sy_objects s)) as [b|] eqn:Eb; [|done].
    destruct (decide (id ∈ sy_reused s)) as [?|Hn]; [by left|]. right. destruct Hs as [?|(r & Hr & Hp & Hs)]; [done|].
    destruct (Hi id) as [_ Hao]. destruct (Hao Hn) as [Hm _]. specialize (Hm r b Hr Hp Eb).
    unfold describes, same_metadata in *. naive_solver congruence.
Qed.
End artifacts.
