(* ===== verification/ArtifactLifecycle.v ===== *)
(** The artifact lifecycle under any interleaving: theorems on the bytes behind an artifact,
    and concrete runs of a small bucket at which they are instantiated. *)
From Stdlib Require Import Ascii.
From S2P Require Import Prelude Json Runtime WorkData WorkGraph WorkDemo Proc ProcLogic Artifact ArtifactFacts.

(** The requests and loops of the servers that share the two stores. *)
Inductive ArtThread :=
| TUpload (cfg : ArtConfig) (i : UploadInput) (body : option Body)
| TOpen (id : uuid)
| TStat (id : uuid)
| TDelete (id : uuid) (reason : string)
| TSweep (cfg : ArtConfig)
| TWork (f : WorkDB → WorkDB).

Section theorems.
Context {O : Type} `{ObjectStorageLaws O}.
Context (sha256hex : string → string) (media_type : string → bool) (error_text : ArtErr → string).
Definition run_thread (me : nat) (t : ArtThread) : proc (ArtSys O) ArtQ () :=
  match t with
  | TUpload cfg i body => Upload sha256hex media_type me cfg i body;; mret ()
  | TOpen id => Open_ id;; mret ()
  | TStat id => Stat id;; mret ()
  | TDelete id reason => Delete error_text id reason;; mret ()
  | TSweep cfg => sweep error_text cfg
  | TWork f => work_write f
  end.
#[local] Notation art_inv := (art_inv sha256hex).
#[local] Notation describes := (describes sha256hex).
Lemma run_thread_owns me t : owns art_inv may me (run_thread me t) (λ _, True) (λ _ _, True).
Proof.
  assert (∀ A (p : proc (ArtSys O) ArtQ A) Φ, owns art_inv may me p (λ _, True) Φ → owns art_inv may me (p;; mret ()) (λ _, True) (λ _ _, True)) as Hret.
  { intros A p Φ Hp. eapply owns_bind; [exact Hp|]. intros ?. by apply owns_ret. }
  destruct t; cbn [run_thread].
  - exact (Hret _ _ _ (owns_Upload sha256hex me cfg i body media_type)).
  - exact (Hret _ _ _ (owns_Open sha256hex me id)).
  - exact (Hret _ _ _ (owns_get sha256hex me id (λ _, True) (undisturbed_pure _ _ me True))).
  - exact (Hret _ _ _ (owns_Delete sha256hex me id reason error_text)).
  - apply owns_sweep.
  - apply owns_atomically; [|intros; apply undisturbed_pure]. intros s Hi _. split; [by apply step_same|done].
Qed.
Lemma threads_step ts (s : ArtSys O) ps s' :
  art_inv s → tsteps (imap run_thread ts) s ps s' → art_inv s' ∧ ∀ id, kept s s' id.
Proof.
  intros Hi Hst. apply (owns_tsteps art_inv may (λ s s', ∀ id, kept s s' id) (imap run_thread ts) s ps s'); try done.
  - intros a id. apply kept_refl.
  - intros a b c H1 H2 id. by eapply kept_trans.
  - intros i a b Hm id. apply (may_kept _ _ _ Hm).
  - intros i p Hp. rewrite list_lookup_imap in Hp. destruct (ts !! i) as [t|]; [|done]. injection Hp as <-.
    exists (λ _, True), (λ _ _, True). split_and!; [apply undisturbed_pure|done|apply run_thread_owns].
Qed.

(** C30. The bytes behind an artifact. Whatever uploads, reads, deletions, sweeps and writes of
    the work domain interleave on any number of servers, whatever bodies they send and
    whichever statements and object requests fail or lose their answer: the object stored
    for a published artifact is the one its size and digest describe; an available artifact
    has its object unless a sweep took its upload for abandoned or the answer of its final
    commit was lost; a deleted artifact has none under the same proviso; and once published
    an artifact keeps its row, its metadata never changes and its state only advances. Ids
    that were generated twice are excepted. *)
Theorem artifact_bytes_are_recorded ts (s : ArtSys O) ps s' :
  art_inv s → tsteps (imap run_thread ts) s ps s' →
  (∀ id r, row s' id = Some r → row_state r ≠ StatePending → id ∉ sy_reused s' →
     (∀ b, obj s' id = Some b → describes (ro_Artifact r) b) ∧
     (id ∉ sy_missing s' → (row_state r = StateAvailable → is_Some (obj s' id)) ∧ (row_state r = StateDeleted → obj s' id = None))) ∧
  (∀ id r, row s id = Some r → row_state r ≠ StatePending →
     ∃ r', row s' id = Some r' ∧ same_metadata (ro_Artifact r) (ro_Artifact r') ∧ rank (row_state r) ≤ rank (row_state r')).
Proof.
  intros Hi Hst. destruct (threads_step ts s ps s' Hi Hst) as [Hi' Hk]. split.
  - intros id r Hr Hp Hn. destruct (Hi' id) as [_ Hao]. destruct (Hao Hn) as [Hm Hpr]. split; [intros b; by apply Hm|].
    intros Hmi. specialize (Hpr Hmi). unfold bytes_present in Hpr. rewrite Hr in Hpr. by destruct (row_state r).
  - intros id r Hr Hp. destruct (Hk id r Hr Hp) as (r' & Hr' & Hs & Hrk & _). by exists r'.
Qed.

(** What is read is what was recorded: when [Open] returns bytes, they are the ones the
    returned metadata describes, whatever other requests do in between, deletions and
    sweeps included. *)
Theorem open_serves_recorded_bytes me id (s : ArtSys O) a b s' :
  art_inv s → psteps (others art_inv may me) (Open_ id) s (Ret (inr (a, b))) s' → id ∉ sy_reused s' →
  ax_ID a = id ∧ ax_State a = StateAvailable ∧ describes a b.
Proof.
  intros Hi Hst Hn. destruct (owns_psteps art_inv may me (Open_ id) s (inr (a, b)) s' (λ _, True)
    (on_error (λ _ _, True) (λ '(a, b) s, (ax_ID a = id ∧ ax_State a = StateAvailable) ∧ (id ∈ sy_reused s ∨ describes a b))))
    as [_ Hp]; [apply undisturbed_pure|done|done|apply owns_Open|done|]. cbn in Hp. destruct Hp as [[Hid Hav] [Hr|Hd]]; [by destruct Hn|done].
Qed.

Lemma LimitedReader_whole max bd :
  0 ≤ max < 2 ^ 63 - 1 → size_of (bd_bytes (LimitedReader max bd)) ≤ max → LimitedReader max bd = bd.
Proof.
  intros Hm. unfold LimitedReader, int64_wrap. rewrite Z.mod_small by lia.
  replace (max + 1 + 2 ^ 63 - 2 ^ 63) with (max + 1) by lia.
  destruct (Nat.leb_spec (Z.to_nat (max + 1)) (String.length (bd_bytes bd))) as [Hle|]; [|done]. cbn. unfold size_of.
  assert (∀ n t, (n ≤ String.length t)%nat → String.length (String.substring 0 n t) = n) as Hlen.
  { induction n as [|n IH]; intros [|c t] Hn; cbn in *; [done|done|lia|]. rewrite IH; lia. }
  rewrite Hlen by done. lia.
Qed.
(** C31. An upload records its body: when [Upload] succeeds, the whole body was read without
    error, it is at most the configured size and as long and of the digest the caller
    claimed, if he did; the artifact is available with the body's size and SHA-256, and with
    the source, creator and type of the request. The size limit must not be the largest
    int64. *)
Theorem upload_records_body me cfg i body (s : ArtSys O) a s' :
  0 ≤ ac_MaxSize cfg < 2 ^ 63 - 1 → art_inv s →
  psteps (others art_inv may me) (Upload sha256hex media_type me cfg i body) s (Ret (inr a)) s' →
  ∃ bd, body = Some bd ∧ bd_fails bd = false ∧ describes a (bd_bytes bd) ∧ ax_State a = StateAvailable ∧
    size_of (bd_bytes bd) ≤ ac_MaxSize cfg ∧ (∀ n, ui_ExpectedSize i = Some n → n = size_of (bd_bytes bd)) ∧
    (ui_ExpectedDigest i ≠ EmptyString → lower (ui_ExpectedDigest i) = lower (digest_of sha256hex (bd_bytes bd))) ∧
    (ax_ID a ∉ sy_reused s' → from_input i a).
Proof.
  intros Hmax Hi Hst. destruct (owns_psteps art_inv may me _ s (inr a) s' (λ _, True) _ (undisturbed_pure _ _ me True) Hi I
    (owns_Upload sha256hex me cfg i body media_type) Hst) as [_ (bd & -> & Hf & [(Hacc & Hd & Hav) Hin])].
  destruct Hacc as (Hsz & Hes & Hed). pose proof (LimitedReader_whole _ bd Hmax Hsz) as Hw. rewrite Hw in *.
  exists bd. split_and!; try done. intros Hn. destruct Hin as [Hr|Hr]; [by destruct Hn|exact Hr].
Qed.
End theorems.

(** * A bucket *)
Definition Bucket : Type := gmap string string.
Definition zeros : string := "000000000000000000000000000000000000000000000000000000000000000".
(** A stand-in for SHA-256: 64 hexadecimal digits. *)
Definition toy_sha (b : string) : string := zeros +:+ (if (String.length b =? 0)%nat then "0" else "1").
Definition any_type (s : string) : bool := true.
Definition no_text (e : ArtErr) : string := "error".
Definition no_artifacts : ArtSys Bucket := mkSys ∅ drafted {[ "ana" ]} ∅ ∅ ∅ ∅.
Lemma no_artifacts_inv : art_inv toy_sha no_artifacts.
Proof.
  assert (∀ id, row no_artifacts id = None) as Hn by (intros; apply lookup_empty).
  intros id. split; [intros r; by rewrite Hn|]. intros _. split; [intros r b; by rewrite Hn|]. intros _.
  unfold bytes_present. rewrite Hn. apply lookup_empty.
Qed.
(** The environment at time [t]: every call has outcome [o], a new id is [id]. *)
Definition env (t : timestamp) (o : outcome) (id : uuid) (R : Type) (q : ArtQ R) : R :=
  match q in ArtQ R return R with QOutcome => o | QTime => t | QUuid => id end.
Definition demo_cfg : ArtConfig := mkArtConfig 1000 0 3600000000 60000000.
Definition demo_upload : UploadInput :=
  mkUpload SourceUserUpload "" "ana" "text/plain" (Some 5) "" None None.
Definition hello : Body := mkBody "hello" false.
Definition upload_thread : ArtThread := TUpload demo_cfg demo_upload (Some hello).
Definition run_bucket (ts : list ArtThread) (s : ArtSys Bucket) (l : list (nat * (∀ R, ArtQ R → R))) :
    list (proc (ArtSys Bucket) ArtQ ()) * ArtSys Bucket :=
  run_schedule (imap (run_thread toy_sha any_type no_text) ts) s l.
Definition steps (n i : nat) (a : ∀ R, ArtQ R → R) : list (nat * (∀ R, ArtQ R → R)) := replicate n (i, a).
Definition uploaded : ArtSys Bucket := (run_bucket [upload_thread] no_artifacts (steps 30 0 (env 10 Answered "u1"))).2.
Definition hello_row : ArtRow :=
  mkRow (mkArtifact "u1" "artifacts/u1" SourceUserUpload None "ana" "text/plain" (Some 5) (Some (digest_of toy_sha "hello"))
           StateAvailable None None 10 (Some 10) None) None None.
Example upload_available : row uploaded "u1" = Some hello_row ∧ obj uploaded "u1" = Some "hello" ∧ sy_missing uploaded = ∅.
Proof. by vm_compute. Qed.

(** * The properties, instantiated *)
(** A deletion runs while the artifact is being read. *)
Definition read_and_delete : list (proc (ArtSys Bucket) ArtQ ()) * ArtSys Bucket :=
  run_bucket [TOpen "u1"; TDelete "u1" ""] uploaded (steps 4 0 (env 20 Answered "") ++ steps 30 1 (env 21 Answered "")).
Lemma uploaded_inv : art_inv toy_sha uploaded.
Proof.
  unfold uploaded, run_bucket. set (l := steps _ _ _). set (ts := [upload_thread]).
  exact (proj1 (threads_step toy_sha any_type no_text ts no_artifacts _ _ no_artifacts_inv (run_schedule_tsteps _ _ l))).
Qed.
Lemma artifact_bytes_are_recorded_witness :
  (row_state <$> row read_and_delete.2 "u1") = Some StateDeleted ∧ obj read_and_delete.2 "u1" = None ∧
  ∃ r', row read_and_delete.2 "u1" = Some r' ∧ same_metadata (ro_Artifact hello_row) (ro_Artifact r').
Proof.
  split; [by vm_compute|]. split; [by vm_compute|].
  unfold read_and_delete, run_bucket. set (l := _ ++ _). set (ts := [TOpen "u1"; _]).
  destruct (artifact_bytes_are_recorded toy_sha any_type no_text ts uploaded _ _ uploaded_inv (run_schedule_tsteps _ _ l)) as [_ Hk].
  destruct (Hk "u1" hello_row) as (r' & Hr' & Hs & _); [by vm_compute|done|]. by exists r'.
Defined.
Lemma open_serves_recorded_bytes_witness :
  ∃ s', run_proc (env 20 Answered "") (Open_ "u1") uploaded = Some (inr (ro_Artifact hello_row, "hello"), s') ∧ describes toy_sha (ro_Artifact hello_row) "hello".
Proof.
  assert (fst <$> run_proc (env 20 Answered "") (Open_ "u1") uploaded = Some (inr (ro_Artifact hello_row, "hello"))) as Hr by by vm_compute.
  apply fmap_Some in Hr as ([r s'] & Hr & He). cbn in He. subst r. exists s'. split; [exact Hr|].
  assert (sy_reused s' = ∅) as Hre.
  { assert ((sy_reused ∘ snd) <$> run_proc (env 20 Answered "") (Open_ "u1") uploaded = Some ∅) as Hq by by vm_compute. rewrite Hr in Hq. by injection Hq. }
  destruct (open_serves_recorded_bytes toy_sha 0%nat "u1" uploaded (ro_Artifact hello_row) "hello" s' uploaded_inv) as (_ & _ & Hd);
    [exact (run_proc_psteps (env 20 Answered "") _ _ _ _ _ Hr)|rewrite Hre; apply not_elem_of_empty|exact Hd].
Defined.
Lemma upload_records_body_witness :
  ∃ a s', run_proc (env 10 Answered "u1") (Upload toy_sha any_type 0%nat demo_cfg demo_upload (Some hello)) no_artifacts = Some (inr a, s') ∧
    describes toy_sha a "hello" ∧ from_input demo_upload a.
Proof.
  assert (fst <$> run_proc (env 10 Answered "u1") (Upload toy_sha any_type 0%nat demo_cfg demo_upload (Some hello)) no_artifacts
          = Some (inr (ro_Artifact hello_row))) as Hr by by vm_compute.
  apply fmap_Some in Hr as ([r s'] & Hr & He). cbn in He. subst r. exists (ro_Artifact hello_row), s'. split; [exact Hr|].
  assert (sy_reused s' = ∅) as Hre.
  { assert ((sy_reused ∘ snd) <$> run_proc (env 10 Answered "u1") (Upload toy_sha any_type 0%nat demo_cfg demo_upload (Some hello)) no_artifacts
            = Some ∅) as Hq by by vm_compute. rewrite Hr in Hq. by injection Hq. }
  destruct (upload_records_body toy_sha any_type 0%nat demo_cfg demo_upload (Some hello) no_artifacts (ro_Artifact hello_row) s')
    as (bd & [= <-] & _ & Hd & _ & _ & _ & _ & Hin); [by vm_compute|exact no_artifacts_inv|exact (run_proc_psteps (env 10 Answered "u1") _ _ _ _ _ Hr)|].
  split; [exact Hd|]. apply Hin. rewrite Hre. apply not_elem_of_empty.
Defined.

(** * What the code lets happen *)
(** An upload that outlasts the pending TTL: the sweep lists its row as abandoned, the upload
    is finalized, the sweep then deletes the object of the available artifact. *)
Definition late : timestamp := 3600000100.
Definition slow_upload : ArtSys Bucket :=
  (run_bucket [upload_thread; TSweep demo_cfg] no_artifacts
     (steps 8 0 (env 10 Answered "u1") ++ steps 4 1 (env late Answered "") ++ steps 30 0 (env late Answered "") ++
      steps 60 1 (env late Answered ""))).2.
Example slow_upload_loses_its_bytes :
  (row_state <$> row slow_upload "u1") = Some StateAvailable ∧ obj slow_upload "u1" = None.
Proof. by vm_compute. Qed.
(** The final commit takes effect but its answer is lost: the upload reports a failure and
    deletes the object of the artifact it has made available. *)
Definition unanswered_commit : ArtSys Bucket :=
  (run_bucket [upload_thread] no_artifacts
     (steps 8 0 (env 10 Answered "u1") ++ steps 3 0 (env 11 Unanswered "") ++ steps 10 0 (env 12 Answered ""))).2.
Example unanswered_commit_loses_its_bytes :
  (row_state <$> row unanswered_commit "u1") = Some StateAvailable ∧ obj unanswered_commit "u1" = None.
Proof. by vm_compute. Qed.
(** With the largest int64 as the size limit, the limit plus one wraps and every body is
    recorded as empty. *)
Definition unlimited : ArtConfig := mkArtConfig (2 ^ 63 - 1) 0 3600000000 60000000.
Example largest_limit_stores_nothing :
  let r := run_proc (env 10 Answered "u1") (Upload toy_sha any_type 0%nat unlimited
             (mkUpload SourceUserUpload "" "ana" "text/plain" None "" None None) (Some hello)) no_artifacts in
  match r with Some (inr a, s) => ax_SizeBytes a = Some 0 ∧ obj s "u1" = Some "" | _ => False end.
Proof. by vm_compute. Qed.
