(* ===== verification/RateLimit.v ===== *)
(** The inference gateway's rate limiter (inference-gateway/internal/ratelimit/redis.go and
    limiter.go): a sliding window of 60 seconds per identity in Redis sorted sets, run by a
    Lua script, and the batcher that counts the tokens of a stream.

    A sorted set maps a member to its score. A member is the text count:now:random that the
    script builds; it is kept as its three parts, of which [now] is what Lua prints of a
    number, 14 significant digits. [random] is Redis' generator. A key carries the deadline
    its EXPIRE set, on Redis' clock. Times are Unix microseconds; the counts stay far below
    2^53, where Lua's numbers are exact. *)
From S2P Require Import Prelude.

(** * Sorted sets *)
Definition member : Type := Z * Z * Z.
Definition mb_count (m : member) : Z := m.1.1.
Record zkey := mkZ { zk_set : gmap member Z; zk_deadline : option timestamp }.
Notation Redis := (gmap string zkey) (only parsing).
Definition windowSize : Z := 60000000.
Definition rpmKeyPrefix : string := "ratelimit:rpm:".
Definition tpmKeyPrefix : string := "ratelimit:tpm:".
(** The set under a key at Redis' time [rt]: an expired key is empty. *)
Definition zset (r : Redis) (key : string) (rt : timestamp) : gmap member Z :=
  match r !! key with
  | Some z => match zk_deadline z with Some d => if d <=? rt then ∅ else zk_set z | None => zk_set z end
  | None => ∅
  end.
(** ["%.14g"] of a whole number: 14 significant digits, ties to even. *)
Fixpoint digits (fuel : nat) (n : Z) : Z :=
  match fuel with O => 0 | S f => if n <=? 0 then 0 else 1 + digits f (n / 10) end.
Definition round_to (unit_ n : Z) : Z :=
  let q := n / unit_ in let r := n mod unit_ in
  unit_ * (if 2 * r <? unit_ then q else if unit_ <? 2 * r then q + 1 else if Z.even q then q else q + 1).
Definition lua_text (n : Z) : Z :=
  let d := digits 40 n in if d <=? 14 then n else round_to (10 ^ (d - 14)) n.
(** The counts of the members whose score is in the range. *)
Definition total (p : Z → bool) (z : gmap member Z) : Z :=
  foldr (λ ms acc, (if p ms.2 then mb_count ms.1 else 0) + acc) 0 (map_to_list z).

(** * The script *)
Record Clock := mkClock { ck_now : timestamp; ck_redis : timestamp; ck_random : Z }.
Definition slidingWindowScript (c : Clock) (key : string) (window_start limit count ttl : Z) (r : Redis) : (Z * bool) * Redis :=
  let z := filter (λ ms, window_start < ms.2) (zset r key (ck_redis c)) in
  let current := total (λ s, window_start <=? s) z in
  let deadline := match r !! key with
                  | Some k => match zk_deadline k with Some d => if d <=? ck_redis c then None else Some d | None => None end
                  | None => None
                  end in
  if (0 <? limit) && (limit <? current + count) then
    ((current, false), if decide (z = ∅) then delete key r else <[key := mkZ z deadline]> r)
  else
    let m := (count, lua_text (ck_now c), ck_random c) in
    ((current, true), <[key := mkZ (<[m := ck_now c]> z) (Some (ck_redis c + ttl * 1000000))]> r).

(** * The limiter *)
Record Result := mkResult { rs_Allowed : bool; rs_Limit : Z; rs_Remaining : Z; rs_ResetAt : timestamp }.
Definition checkAndIncrement (c : Clock) (key : string) (limit count : Z) (r : Redis) : Result * Redis :=
  let windowStart := ck_now c - windowSize in
  let ttl := windowSize / 1000000 + 1 in
  let '((current, allowed), r') := slidingWindowScript c key windowStart limit count ttl r in
  let remaining :=
    if 0 <? limit then
      let left_ := limit - current - (if allowed then count else 0) in if left_ <? 0 then 0 else left_
    else 0 in
  (mkResult allowed limit remaining (ck_now c + windowSize), r').
Definition check (c : Clock) (key : string) (limit : Z) (r : Redis) : Result :=
  let windowStart := ck_now c - windowSize in
  let current := total (λ s, windowStart <=? s) (zset r key (ck_redis c)) in
  let remaining := limit - current in
  mkResult (current <? limit) limit (if remaining <? 0 then 0 else remaining) (ck_now c + windowSize).
Definition CheckRPM (c : Clock) (keyID : string) (limit : Z) (r : Redis) : Result * Redis :=
  checkAndIncrement c (rpmKeyPrefix +:+ keyID) limit 1 r.
Definition CheckTPM (c : Clock) (keyID : string) (limit : Z) (r : Redis) : Result :=
  check c (tpmKeyPrefix +:+ keyID) limit r.
Definition IncrementTPM (c : Clock) (keyID : string) (tokens : Z) (r : Redis) : Redis :=
  if tokens <=? 0 then r else (checkAndIncrement c (tpmKeyPrefix +:+ keyID) 0 tokens r).2.

(** Calls of the gateway's servers, in the order Redis runs them. *)
Inductive limiter_call :=
| CallRPM (c : Clock) (keyID : string) (limit : Z)
| CallTPM (c : Clock) (keyID : string) (limit : Z)
| CallIncrement (c : Clock) (keyID : string) (tokens : Z).
Definition call_clock (op : limiter_call) : Clock :=
  match op with CallRPM c _ _ => c | CallTPM c _ _ => c | CallIncrement c _ _ => c end.
Definition limiter_step (op : limiter_call) (r : Redis) : option Result * Redis :=
  match op with
  | CallRPM c id limit => let '(a, r') := CheckRPM c id limit r in (Some a, r')
  | CallTPM c id limit => (Some (CheckTPM c id limit r), r)
  | CallIncrement c id tokens => (None, IncrementTPM c id tokens r)
  end.
Fixpoint limiter_run (ops : list limiter_call) (r : Redis) : list (option Result) * Redis :=
  match ops with
  | [] => ([], r)
  | op :: ops' => let '(a, r1) := limiter_step op r in let '(l, r2) := limiter_run ops' r1 in (a :: l, r2)
  end.

(** * The token batcher *)
Inductive loop_phase := LoopIdle | LoopFlushing | LoopDraining | LoopExited | BatcherDone.
Record TPMBatcher := mkBatcher {
  bt_channel : list Z; bt_pending : Z; bt_stopped : bool; bt_phase : loop_phase;
  (* the amounts passed to IncrementTPM, and the history of Add *)
  bt_flushed : list Z; bt_added : Z; bt_dropped : Z }.
Definition NewTPMBatcher : TPMBatcher := mkBatcher [] 0 false LoopIdle [] 0 0.
Definition channel_capacity : nat := 256.
Definition flush_pending (next : loop_phase) (b : TPMBatcher) : TPMBatcher :=
  if 0 <? bt_pending b
  then mkBatcher (bt_channel b) 0 (bt_stopped b) next (bt_flushed b ++ [bt_pending b]) (bt_added b) (bt_dropped b)
  else mkBatcher (bt_channel b) (bt_pending b) (bt_stopped b) next (bt_flushed b) (bt_added b) (bt_dropped b).
(** [Add]: a full channel drops the tokens. *)
Definition batcher_Add (tokens : Z) (b : TPMBatcher) : TPMBatcher :=
  if (length (bt_channel b) <? channel_capacity)%nat
  then mkBatcher (bt_channel b ++ [tokens]) (bt_pending b) (bt_stopped b) (bt_phase b) (bt_flushed b) (bt_added b + tokens) (bt_dropped b)
  else mkBatcher (bt_channel b) (bt_pending b) (bt_stopped b) (bt_phase b) (bt_flushed b) (bt_added b + tokens) (bt_dropped b + tokens).
Definition receive (b : TPMBatcher) : option TPMBatcher :=
  match bt_channel b with
  | [] => None
  | t :: l => Some (mkBatcher l (bt_pending b + t) (bt_stopped b) (bt_phase b) (bt_flushed b) (bt_added b) (bt_dropped b))
  end.
Definition set_phase (p : loop_phase) (b : TPMBatcher) : TPMBatcher :=
  mkBatcher (bt_channel b) (bt_pending b) (bt_stopped b) p (bt_flushed b) (bt_added b) (bt_dropped b).
Definition close_stop (b : TPMBatcher) : TPMBatcher :=
  mkBatcher (bt_channel b) (bt_pending b) true (bt_phase b) (bt_flushed b) (bt_added b) (bt_dropped b).
(** The stream's goroutine calls [Add] and finally [Stop]; the loop runs beside it. [select]
    takes any ready branch. *)
Inductive batcher_step : TPMBatcher → TPMBatcher → Prop :=
| step_add b n : bt_stopped b = false → batcher_step b (batcher_Add n b)
| step_stop b : bt_stopped b = false → batcher_step b (close_stop b)
| step_receive b b' : bt_phase b = LoopIdle → receive b = Some b' → batcher_step b b'
| step_tick b : bt_phase b = LoopIdle → batcher_step b (set_phase LoopFlushing b)
| step_flush_receive b b' : bt_phase b = LoopFlushing → receive b = Some b' → batcher_step b b'
| step_flush b : bt_phase b = LoopFlushing → bt_channel b = [] → batcher_step b (flush_pending LoopIdle b)
| step_stop_seen b : bt_phase b = LoopIdle → bt_stopped b = true → batcher_step b (set_phase LoopDraining b)
| step_drain b b' : bt_phase b = LoopDraining → receive b = Some b' → batcher_step b b'
| step_exit b : bt_phase b = LoopDraining → bt_channel b = [] → batcher_step b (set_phase LoopExited b)
| step_final_flush b : bt_phase b = LoopExited → bt_stopped b = true → batcher_step b (flush_pending BatcherDone b).
(** What a stream adds for the usage totals of its chunks (streaming.go): the increase over
    the last total that was added. *)
Fixpoint stream_deltas (prev : Z) (totals : list Z) : list Z :=
  match totals with
  | [] => []
  | t :: l => if 0 <? t - prev then t - prev :: stream_deltas t l else stream_deltas prev l
  end.
