(* ===== verification/RateLimitFacts.v ===== *)
(** The Redis limiter against the sliding window it stands for: a log of what was accepted,
    from which every decision can be read off. *)
From S2P Require Import Prelude RateLimit.

(** * The ideal limiter: a log of accepted calls *)
Record accepted := mkAccepted { ac_key : string; ac_time : timestamp; ac_count : Z }.
Definition used (key : string) (p : Z → bool) (log : list accepted) : Z :=
  foldr (λ a acc, (if String.eqb (ac_key a) key && p (ac_time a) then ac_count a else 0) + acc) 0 log.
(** What the last 60 seconds before [now] hold; the first instant is excluded. *)
Definition in_window (now t : Z) : bool := now - windowSize <? t.
Definition in_window_closed (now t : Z) : bool := now - windowSize <=? t.
Definition rpm_key (id : string) : string := rpmKeyPrefix +:+ id.
Definition tpm_key (id : string) : string := tpmKeyPrefix +:+ id.
Definition admits (limit count current : Z) : bool := negb ((0 <? limit) && (limit <? current + count)).
Definition log_step (op : limiter_call) (log : list accepted) : list accepted :=
  match op with
  | CallRPM c id limit =>
      if admits limit 1 (used (rpm_key id) (in_window (ck_now c)) log) then log ++ [mkAccepted (rpm_key id) (ck_now c) 1] else log
  | CallTPM _ _ _ => log
  | CallIncrement c id tokens => if tokens <=? 0 then log else log ++ [mkAccepted (tpm_key id) (ck_now c) tokens]
  end.
Fixpoint log_run (ops : list limiter_call) (log : list accepted) : list accepted :=
  match ops with [] => log | op :: ops' => log_run ops' (log_step op log) end.
(** The answer the log calls for. A token check counts an amount accepted exactly 60 seconds
    ago if no call has purged it yet. *)
Definition answers (op : limiter_call) (log : list accepted) (a : option Result) : Prop :=
  match op with
  | CallRPM c id limit =>
      let n := used (rpm_key id) (in_window (ck_now c)) log in
      ∃ r, a = Some r ∧ rs_Allowed r = admits limit 1 n ∧
        rs_Remaining r = (if 0 <? limit then Z.max 0 (limit - n - (if admits limit 1 n then 1 else 0)) else 0)
  | CallTPM c id limit =>
      ∃ r n, a = Some r ∧ rs_Allowed r = (n <? limit) ∧ rs_Remaining r = Z.max 0 (limit - n) ∧
        used (tpm_key id) (in_window (ck_now c)) log ≤ n ≤ used (tpm_key id) (in_window_closed (ck_now c)) log
  | CallIncrement _ _ _ => a = None
  end.
Fixpoint answers_all (ops : list limiter_call) (log : list accepted) (l : list (option Result)) : Prop :=
  match ops, l with
  | [], [] => True
  | op :: ops', a :: l' => answers op log a ∧ answers_all ops' (log_step op log) l'
  | _, _ => False
  end.

(** Calls reach Redis in the order of their times; Redis' clock is within half a second. *)
Definition skew : Z := 500000.
Definition in_step (t : timestamp) (c : Clock) : Prop := t ≤ ck_now c ∧ Z.abs (ck_redis c - ck_now c) ≤ skew.
Fixpoint orderly (t : timestamp) (ops : list limiter_call) : Prop :=
  match ops with [] => True | op :: ops' => in_step t (call_clock op) ∧ orderly (ck_now (call_clock op)) ops' end.
(** The text that tells apart what two calls add. *)
Definition tag (op : limiter_call) : option (Z * Z) :=
  match op with
  | CallRPM c _ _ | CallIncrement c _ _ => Some (lua_text (ck_now c), ck_random c)
  | CallTPM _ _ _ => None
  end.
Definition tags (ops : list limiter_call) : list (Z * Z) := omap tag ops.

(** * Totals *)
Lemma total_perm (p : Z → bool) z L : map_to_list z ≡ₚ L → total p z = foldr (λ ms acc, (if p ms.2 then mb_count ms.1 else 0) + acc) 0 L.
Proof.
  unfold total. generalize (map_to_list z). intros l. induction 1 as [|x l l' _ IH|x y l|l1 l2 l3 _ IH1 _ IH2]; cbn; [done|by rewrite IH|lia|congruence].
Qed.
Notation stored := (list (member * Z)) (only parsing).
Definition sum_stored (p : Z → bool) (L : stored) : Z := foldr (λ ms acc, (if p ms.2 then mb_count ms.1 else 0) + acc) 0 L.
Lemma sum_stored_filter p (q : Z → bool) L :
  (∀ s, p s = true → q s = true) → sum_stored p (filter (λ ms, q ms.2 = true) L) = sum_stored p L.
Proof.
  intros Hq. induction L as [|[m s] L IH]; [done|]. rewrite filter_cons. cbn [snd]. case_decide as Hd.
  - cbn. fold (sum_stored p L). rewrite <- IH. done.
  - rewrite IH. cbn. destruct (p s) eqn:E; [|done]. by destruct Hd; apply Hq.
Qed.
Lemma sum_stored_app p L L' : sum_stored p (L ++ L') = sum_stored p L + sum_stored p L'.
Proof. induction L as [|[m s] L IH]; cbn; [done|]. unfold sum_stored in *. lia. Qed.
Lemma used_app key p l l' : used key p (l ++ l') = used key p l + used key p l'.
Proof. induction l as [|a l IH]; cbn; [done|]. unfold used in *. lia. Qed.
(** A set that holds what a duplicate-free list holds. *)
Lemma total_stored (p : Z → bool) (z : gmap member Z) (L : stored) :
  NoDup L.*1 → (∀ m s, z !! m = Some s ↔ (m, s) ∈ L) → total p z = sum_stored p L.
Proof.
  intros Hn Hz. assert (z = list_to_map L) as ->.
  { apply map_eq. intros m. apply option_eq. intros s. by rewrite Hz, elem_of_list_to_map. }
  apply total_perm. by apply map_to_list_to_map.
Qed.
(** A set between two bounds, when no count is negative. *)
Lemma sum_stored_between (p q : Z → bool) (L L' : stored) :
  (∀ m s, (m, s) ∈ L' → 0 ≤ mb_count m) → NoDup L → NoDup L' →
  (∀ m s, (m, s) ∈ L → p s = true → (m, s) ∈ L' ∧ q s = true) → sum_stored p L ≤ sum_stored q L'.
Proof.
  intros Hc HL. revert L' Hc. induction L as [|[m s] L IH]; intros L' Hc HL' Hsub.
  - clear HL' Hsub. cbn. induction L' as [|[m' s'] L' IH']; cbn; [done|].
    assert (0 ≤ sum_stored q L') by (apply IH'; intros ???; eapply Hc; by right).
    pose proof (Hc m' s' ltac:(left)). unfold sum_stored in *. destruct (q s'); lia.
  - apply NoDup_cons in HL as [Hni HL]. cbn. fold (sum_stored p L). destruct (p s) eqn:Ep.
    + destruct (Hsub m s ltac:(left) Ep) as [Hin Hq]. apply list_elem_of_split in Hin as (l1 & l2 & ->).
      rewrite sum_stored_app. cbn. rewrite Hq. fold (sum_stored q l2).
      assert (sum_stored p L ≤ sum_stored q (l1 ++ l2)) as Hle; [|rewrite sum_stored_app in Hle; lia].
      apply IH; [done| | |].
      * intros m' s' Hin. apply (Hc m' s'). rewrite elem_of_app, elem_of_cons in *. tauto.
      * apply NoDup_app in HL' as (H1 & H2 & H3). apply NoDup_cons in H3 as [H4 H5]. apply NoDup_app. split_and!; [done| |done].
        intros x Hx Hx'. apply (H2 x Hx). by right.
      * intros m' s' Hin Hp. destruct (Hsub m' s' ltac:(by right) Hp) as [Hin' Hq']. split; [|done].
        rewrite elem_of_app, elem_of_cons in *. destruct Hin' as [?|[Heq|?]]; [auto| |auto].
        injection Heq as -> ->. by destruct Hni.
    + apply IH; [done|done|done|]. intros m' s' Hin. apply Hsub. by right.
Qed.
Lemma sum_stored_window (p q : Z → bool) (L : stored) :
  (∀ s, q s = true → p s = true) → sum_stored p (filter (λ ms, q ms.2 = true) L) = sum_stored q L.
Proof.
  intros Hq. induction L as [|[m s] L IH]; [done|]. rewrite filter_cons. cbn [snd]. case_decide as Hd.
  - cbn. fold (sum_stored q L) (sum_stored p (filter (λ ms, q ms.2 = true) L)). rewrite IH, Hd, (Hq s Hd). done.
  - rewrite IH. cbn. fold (sum_stored q L). apply not_true_is_false in Hd. rewrite Hd. lia.
Qed.

(** * The invariant: the sets hold the window of the log *)
Notation entry := (string * member * Z)%type (only parsing).
Definition stored_at (key : string) (G : list entry) : stored := (λ g, (g.1.2, g.2)) <$> filter (λ g, g.1.1 = key) G.
Definition log_of (G : list entry) : list accepted := (λ g, mkAccepted g.1.1 g.2 (mb_count g.1.2)) <$> G.
Definition entry_tag (g : entry) : Z * Z := (g.1.2.1.2, g.1.2.2).
Record holds (G : list entry) (t : timestamp) (r : Redis) : Prop := {
  hd_set k z m s : r !! k = Some z → zk_set z !! m = Some s → (k, m, s) ∈ G;
  hd_live k m s : (k, m, s) ∈ G → t - windowSize < s →
    ∃ z d, r !! k = Some z ∧ zk_set z !! m = Some s ∧ zk_deadline z = Some d ∧ s + windowSize + skew ≤ d;
  hd_nodup : NoDup (entry_tag <$> G);
  hd_time g : g ∈ G → g.2 ≤ t;
  hd_count g : g ∈ G → 0 ≤ mb_count g.1.2 }.
Lemma elem_of_stored_at k G m s : (m, s) ∈ stored_at k G ↔ (k, m, s) ∈ G.
Proof.
  unfold stored_at. rewrite list_elem_of_fmap. split.
  - intros ([[k' m'] s'] & [= -> ->] & [Hk Hin]%list_elem_of_filter). cbn in Hk. by subst.
  - intros Hin. exists (k, m, s). split; [done|]. by apply list_elem_of_filter.
Qed.
Lemma stored_at_nodup k G : NoDup (entry_tag <$> G) → NoDup (stored_at k G).*1.
Proof.
  unfold stored_at. induction G as [|[[k' m] s] G IH]; intros Hn; [constructor|]. rewrite filter_cons.
  rewrite fmap_cons in Hn. apply NoDup_cons in Hn as [Hni Hn]. case_decide; [|auto]. rewrite !fmap_cons. constructor; [|auto].
  intros Hin. apply Hni. apply list_elem_of_fmap in Hin as ([m' s'] & Hm & Hin). cbn in Hm. subst m'.
  apply list_elem_of_fmap. exists (k, m, s'). split; [done|]. by apply elem_of_stored_at.
Qed.
Lemma used_stored k p G : used k p (log_of G) = sum_stored p (stored_at k G).
Proof.
  unfold stored_at. induction G as [|[[k' m] s] G IH]; [done|]. rewrite filter_cons. cbn [log_of fmap list_fmap used foldr].
  fold (log_of G) (used k p (log_of G)). cbn [fst snd ac_key ac_time ac_count]. destruct (String.eqb_spec k' k) as [->|Hne].
  - rewrite decide_True by done. cbn. rewrite IH. done.
  - rewrite decide_False by done. rewrite IH. done.
Qed.
Lemma log_of_snoc G k m s : log_of (G ++ [(k, m, s)]) = log_of G ++ [mkAccepted k s (mb_count m)].
Proof. unfold log_of. by rewrite fmap_app. Qed.
(** What a call finds in its window is what the log has there. *)
Lemma zset_sound G t r k rt m s : holds G t r → zset r k rt !! m = Some s → (k, m, s) ∈ G.
Proof.
  intros Hh Hz. unfold zset in Hz. destruct (r !! k) as [z|] eqn:Hk; [|by rewrite lookup_empty in Hz].
  eapply hd_set; [done..|]. destruct (zk_deadline z) as [d|]; [|done]. destruct (d <=? rt); [by rewrite lookup_empty in Hz|done].
Qed.
Lemma zset_live G t r c k m s :
  holds G t r → in_step t c → (k, m, s) ∈ G → ck_now c - windowSize < s →
  zset r k (ck_redis c) !! m = Some s ∧
  ∃ z d, r !! k = Some z ∧ zk_deadline z = Some d ∧ (d <=? ck_redis c) = false ∧ s + windowSize + skew ≤ d.
Proof.
  intros Hh [Ht Hs] Hin Hw. destruct (hd_live _ _ _ Hh k m s Hin) as (z & d & Hk & Hm & Hd & Hle); [lia|].
  assert ((d <=? ck_redis c) = false) as Hf by (apply Z.leb_gt; unfold skew in *; lia).
  unfold zset. rewrite Hk, Hd, Hf. split; [done|]. by exists z, d.
Qed.
Lemma window_lookup G t r c k m s :
  holds G t r → in_step t c →
  filter (λ ms, ck_now c - windowSize < ms.2) (zset r k (ck_redis c)) !! m = Some s ↔
  (m, s) ∈ filter (λ ms, in_window (ck_now c) ms.2 = true) (stored_at k G).
Proof.
  intros Hh Hc. rewrite map_lookup_filter_Some, list_elem_of_filter, elem_of_stored_at. cbn. unfold in_window. rewrite Z.ltb_lt. split.
  - intros [Hz Hw]. split; [done|]. by eapply zset_sound.
  - intros [Hw Hin]. split; [|done]. by eapply zset_live.
Qed.
Lemma NoDup_fst_filter (q : Z → bool) (L : stored) : NoDup L.*1 → NoDup (filter (λ ms, q ms.2 = true) L).*1.
Proof.
  induction L as [|[m s] L IH]; intros Hn; [constructor|]. rewrite fmap_cons in Hn. apply NoDup_cons in Hn as [Hni Hn].
  rewrite filter_cons. case_decide; [|auto]. rewrite fmap_cons. constructor; [|auto]. intros Hin. apply Hni.
  apply list_elem_of_fmap in Hin as (x & Hx & [_ Hin]%list_elem_of_filter). apply list_elem_of_fmap. eauto.
Qed.
Lemma script_current G t r c k :
  holds G t r → in_step t c →
  total (λ s, ck_now c - windowSize <=? s) (filter (λ ms, ck_now c - windowSize < ms.2) (zset r k (ck_redis c))) =
  used k (in_window (ck_now c)) (log_of G).
Proof.
  intros Hh Hc. rewrite used_stored, <- (sum_stored_window (λ s, ck_now c - windowSize <=? s) (in_window (ck_now c))).
  - apply total_stored; [|intros m s; by apply window_lookup with t]. by apply NoDup_fst_filter, stored_at_nodup, Hh.
  - intros s. unfold in_window. rewrite Z.ltb_lt, Z.leb_le. lia.
Qed.
Lemma holds_later G t t' r : holds G t r → t ≤ t' → holds G t' r.
Proof.
  intros [H1 H2 H3 H4 H5] Ht. split; [done| |done| |done].
  - intros k m s Hin Hw. apply H2; [done|lia].
  - intros g Hg. specialize (H4 g Hg). lia.
Qed.
(** A rejected call only drops what left the window. *)
Lemma purge_keeps G t r c k deadline :
  holds G t r → in_step t c →
  (∀ z d, r !! k = Some z → zk_deadline z = Some d → (d <=? ck_redis c) = false → deadline = Some d) →
  let z := filter (λ ms, ck_now c - windowSize < ms.2) (zset r k (ck_redis c)) in
  holds G (ck_now c) (if decide (z = ∅) then delete k r else <[k := mkZ z deadline]> r).
Proof.
  intros Hh Hc Hd z. destruct (holds_later G t (ck_now c) r Hh (proj1 Hc)) as [H1 H2 H3 H4 H5].
  assert (∀ m s, z !! m = Some s → (k, m, s) ∈ G) as Hz by (intros m s [Hl _]%map_lookup_filter_Some; by eapply zset_sound).
  assert (∀ k', k' ≠ k → (if decide (z = ∅) then delete k r else <[k := mkZ z deadline]> r) !! k' = r !! k') as Hother.
  { intros k' Hne. destruct (decide (z = ∅)); [by rewrite lookup_delete_ne|by rewrite lookup_insert_ne]. }
  split; [| |done..].
  - intros k' y m s Hk Hm. destruct (decide (k' = k)) as [->|Hne]; [|rewrite Hother in Hk by done; by apply (H1 k' y)].
    destruct (decide (z = ∅)); [by rewrite lookup_delete_eq in Hk|]. rewrite lookup_insert_eq in Hk. injection Hk as <-. auto.
  - intros k' m s Hin Hw. destruct (decide (k' = k)) as [->|Hne]; [|rewrite Hother by done; auto].
    destruct (zset_live G t r c k m s Hh Hc Hin Hw) as (Hl & y & d & Hk & Hyd & Hf & Hle).
    assert (z !! m = Some s) as Hzm by (by apply map_lookup_filter_Some).
    rewrite decide_False by (intros He; by rewrite He, lookup_empty in Hzm).
    exists (mkZ z deadline), d. rewrite lookup_insert_eq. split_and!; [done|done| |done]. by eapply Hd.
Qed.
(** An accepted call adds its amount. *)
Lemma add_keeps G t r c k count :
  holds G t r → in_step t c → 0 ≤ count → (lua_text (ck_now c), ck_random c) ∉ entry_tag <$> G →
  let m := (count, lua_text (ck_now c), ck_random c) in
  let z := filter (λ ms, ck_now c - windowSize < ms.2) (zset r k (ck_redis c)) in
  holds (G ++ [(k, m, ck_now c)]) (ck_now c)
    (<[k := mkZ (<[m := ck_now c]> z) (Some (ck_redis c + (windowSize / 1000000 + 1) * 1000000))]> r).
Proof.
  intros Hh Hc Hn Htag m z. destruct (holds_later G t (ck_now c) r Hh (proj1 Hc)) as [H1 H2 H3 H4 H5].
  assert (∀ m s, z !! m = Some s → (k, m, s) ∈ G) as Hz by (intros ? s [Hl _]%map_lookup_filter_Some; by eapply zset_sound).
  assert (∀ m' s, (k, m', s) ∈ G → m' ≠ m) as Hfresh.
  { intros m' s Hin ->. apply Htag, list_elem_of_fmap. by exists (k, m, s). }
  set (d := ck_redis c + _). assert (∀ s, s ≤ ck_now c → s + windowSize + skew ≤ d) as Hd.
  { intros s Hs. destruct Hc as [_ Hsk]. unfold d, skew, windowSize in *. change (60000000 / 1000000) with 60. lia. }
  split.
  - intros k' y m' s Hk Hm. rewrite elem_of_app, list_elem_of_singleton. destruct (decide (k' = k)) as [->|Hne].
    + rewrite lookup_insert_eq in Hk. injection Hk as <-. cbn in Hm. apply lookup_insert_Some in Hm as [[<- <-]|[_ Hm]]; auto.
    + rewrite lookup_insert_ne in Hk by done. left. by apply (H1 k' y).
  - intros k' m' s. rewrite elem_of_app, list_elem_of_singleton. intros [Hin|[= -> -> ->]] Hw.
    + destruct (decide (k' = k)) as [->|Hne].
      * exists (mkZ (<[m := ck_now c]> z) (Some d)), d. rewrite lookup_insert_eq. split_and!; [done| |done|].
        -- cbn. rewrite lookup_insert_ne by (intros He; by apply (Hfresh m' s)).
           apply map_lookup_filter_Some. split; [|done]. by eapply zset_live.
        -- apply Hd, (H4 _ Hin).
      * destruct (H2 k' m' s Hin Hw) as (y & d' & Hk & ?). exists y, d'. by rewrite lookup_insert_ne.
    + exists (mkZ (<[m := ck_now c]> z) (Some d)), d. rewrite lookup_insert_eq. split_and!; [done|apply lookup_insert_eq|done|by apply Hd].
  - rewrite fmap_app. apply NoDup_app. split_and!; [done| |apply NoDup_singleton].
    intros x Hx. cbn. rewrite list_elem_of_singleton. intros ->. by apply Htag.
  - intros g. rewrite elem_of_app, list_elem_of_singleton. intros [?| ->]; [auto|cbn; lia].
  - intros g. rewrite elem_of_app, list_elem_of_singleton. intros [?| ->]; auto.
Qed.
Lemma script_keeps G t r c k limit count current ok r' :
  holds G t r → in_step t c → 0 ≤ count → (lua_text (ck_now c), ck_random c) ∉ entry_tag <$> G →
  slidingWindowScript c k (ck_now c - windowSize) limit count (windowSize / 1000000 + 1) r = ((current, ok), r') →
  current = used k (in_window (ck_now c)) (log_of G) ∧ ok = admits limit count current ∧
  holds (if ok then G ++ [(k, (count, lua_text (ck_now c), ck_random c), ck_now c)] else G) (ck_now c) r'.
Proof.
  intros Hh Hc Hn Htag. unfold slidingWindowScript. rewrite (script_current G t r c k Hh Hc). unfold admits.
  destruct (_ && _) eqn:E; intros [= <- <- <-]; (split_and!; [done|by rewrite E|]).
  - apply (purge_keeps G t); [done..|]. intros z d -> ->. by intros ->.
  - by apply (add_keeps G t).
Qed.
Lemma check_bounds G t r c k :
  holds G t r → in_step t c →
  used k (in_window (ck_now c)) (log_of G) ≤ total (λ s, ck_now c - windowSize <=? s) (zset r k (ck_redis c)) ≤
  used k (in_window_closed (ck_now c)) (log_of G).
Proof.
  intros Hh Hc. rewrite !used_stored. pose proof (NoDup_fmap_1 _ _ (stored_at_nodup k G (hd_nodup _ _ _ Hh))) as Hnd.
  change (total ?p ?z) with (sum_stored p (map_to_list z)). split; apply sum_stored_between; try done; try apply NoDup_map_to_list.
  - intros m s Hin%elem_of_map_to_list. eapply (zset_sound G t) in Hin; [|done]. exact (hd_count _ _ _ Hh _ Hin).
  - intros m s Hin%elem_of_stored_at Hw. unfold in_window in Hw. apply Z.ltb_lt in Hw.
    rewrite elem_of_map_to_list, Z.leb_le. split; [by eapply zset_live|lia].
  - intros m s Hin%elem_of_stored_at. exact (hd_count _ _ _ Hh _ Hin).
  - intros m s Hin%elem_of_map_to_list Hp. split; [|done]. apply elem_of_stored_at. by eapply zset_sound.
Qed.

(** * Runs *)
Lemma remaining_max limit n : (if limit - n <? 0 then 0 else limit - n) = Z.max 0 (limit - n).
Proof. destruct (Z.ltb_spec (limit - n) 0); lia. Qed.
Lemma limiter_step_answers op G t r a r' :
  holds G t r → in_step t (call_clock op) → (∀ x, tag op = Some x → x ∉ entry_tag <$> G) → limiter_step op r = (a, r') →
  answers op (log_of G) a ∧
  ∃ G', log_of G' = log_step op (log_of G) ∧ holds G' (ck_now (call_clock op)) r' ∧
    (entry_tag <$> G' = entry_tag <$> G ∨ ∃ x, tag op = Some x ∧ entry_tag <$> G' = (entry_tag <$> G) ++ [x]).
Proof.
  intros Hh Hc Ht. destruct op as [c id limit|c id limit|c id tokens]; cbn in Hc, Ht |- *.
  - unfold CheckRPM, checkAndIncrement. destruct (slidingWindowScript _ _ _ _ _ _ _) as [[n ok] r1] eqn:E. intros [= <- <-].
    destruct (script_keeps G t r c (rpm_key id) limit 1 n ok r1 Hh Hc) as (Hn & Hok & Hk); [lia|auto|done|]. subst n. split.
    + eexists. split_and!; [done|done|]. cbn. destruct (0 <? limit); [|done]. rewrite <- Hok. apply remaining_max.
    + exists (if ok then G ++ [(rpm_key id, (1, lua_text (ck_now c), ck_random c), ck_now c)] else G).
      rewrite <- Hok. destruct ok; (split_and!; [|done|]).
      * apply log_of_snoc.
      * right. eexists. split; [done|]. by rewrite fmap_app.
      * done.
      * by left.
  - intros [= <- <-]. split.
    + exists (CheckTPM c id limit r), (total (λ s, ck_now c - windowSize <=? s) (zset r (tpm_key id) (ck_redis c))).
      split_and!; [done|done|apply remaining_max|by eapply check_bounds|by eapply check_bounds].
    + exists G. split_and!; [done| |by left]. destruct Hc. by eapply holds_later.
  - unfold IncrementTPM, checkAndIncrement. destruct (Z.leb_spec tokens 0).
    + intros [= <- <-]. split; [done|]. exists G. split_and!; [done| |by left]. destruct Hc. by eapply holds_later.
    + destruct (slidingWindowScript _ _ _ _ _ _ _) as [[n ok] r1] eqn:E. intros [= <- <-]. split; [done|].
      destruct (script_keeps G t r c (tpm_key id) 0 tokens n ok r1 Hh Hc) as (Hn & Hok & Hk); [lia|auto|done|]. subst ok. cbn in Hk.
      eexists. split_and!; [|exact Hk|right; eexists; split; [done|by rewrite fmap_app]]. apply log_of_snoc.
Qed.
Lemma limiter_run_answers ops G t r l r' :
  holds G t r → orderly t ops → NoDup ((entry_tag <$> G) ++ tags ops) → limiter_run ops r = (l, r') → answers_all ops (log_of G) l.
Proof.
  revert G t r l. induction ops as [|op ops IH]; intros G t r l Hh Ho Hn; cbn [limiter_run].
  - by intros [= <- <-].
  - destruct (limiter_step op r) as [a r1] eqn:E, (limiter_run ops r1) as [l1 r2] eqn:E1. intros [= <- <-]. destruct Ho as [Hc Ho].
    apply NoDup_app in Hn as (Hn1 & Hn2 & Hn3).
    destruct (limiter_step_answers op G t r a r1 Hh Hc) as (Ha & G' & Hlog & Hh' & Htags); [|done|].
    { intros x Hx Hin. apply (Hn2 x Hin). unfold tags. cbn [omap list_omap]. rewrite Hx. by left. }
    split; [done|]. rewrite <- Hlog. eapply IH; [exact Hh'|done| |exact E1]. unfold tags in *. cbn [omap list_omap] in Hn2, Hn3.
    destruct Htags as [-> |(x & Hx & ->)].
    + apply NoDup_app. split_and!; [done| |by destruct (tag op); [apply NoDup_cons in Hn3 as [_ ?]|]].
      intros y Hy Hy'. apply (Hn2 y Hy). destruct (tag op); [by right|done].
    + rewrite Hx in Hn2, Hn3. rewrite <- app_assoc. apply NoDup_app. by split_and!.
Qed.
Lemma holds_empty t : holds [] t ∅.
Proof.
  split; [intros k z m s Hk; by rewrite lookup_empty in Hk|intros k m s Hin; by apply not_elem_of_nil in Hin|constructor|..];
    intros g Hg; by apply not_elem_of_nil in Hg.
Qed.

(** C32. The limiter is a sliding window. For any sequence of request checks, token checks and
    token increments of any identities, in the order of their times and with Redis' clock
    within half a second of the callers', every answer is the one that the log of what was
    accepted in the last 60 seconds calls for: a request passes exactly when its identity's
    requests of the window leave room, with that many remaining; a token check counts the
    identity's tokens of the window, the first instant included if nothing has purged it.
    Two calls must differ in their printed time (100 microseconds) or random number. *)
Theorem limiter_implements_window ops t l r :
  orderly t ops → NoDup (tags ops) → limiter_run ops ∅ = (l, r) → answers_all ops [] l.
Proof. intros Ho Hn Hr. exact (limiter_run_answers ops [] t ∅ l r (holds_empty t) Ho Hn Hr). Qed.

(** ** No window exceeds the limit *)
Definition between (w t : Z) : bool := (w <? t) && (t <=? w + windowSize).
(** The requests of an identity that passed in the 60 seconds after [w]. *)
Fixpoint passed (id : string) (w : Z) (ops : list limiter_call) (l : list (option Result)) : Z :=
  match ops, l with
  | CallRPM c id' _ :: ops', Some a :: l' =>
      (if String.eqb id' id && between w (ck_now c) && rs_Allowed a then 1 else 0) + passed id w ops' l'
  | _ :: ops', _ :: l' => passed id w ops' l'
  | _, _ => 0
  end.
Definition limited (id : string) (L : Z) (op : limiter_call) : Prop :=
  match op with CallRPM _ id' limit => id' = id → limit = L | _ => True end.
Definition nonneg (log : list accepted) : Prop := Forall (λ a, 0 ≤ ac_count a) log.
Lemma used_mono key (p q : Z → bool) log :
  nonneg log → (∀ a, a ∈ log → p (ac_time a) = true → q (ac_time a) = true) → used key p log ≤ used key q log.
Proof.
  induction 1 as [|a log Ha Hl IH]; intros Hpq; [done|]. cbn. fold (used key p log) (used key q log).
  assert (used key p log ≤ used key q log) by (apply IH; intros; apply Hpq; [by right|done]).
  destruct (String.eqb (ac_key a) key); cbn; [|lia]. destruct (p (ac_time a)) eqn:E; [rewrite (Hpq a); [lia|by left|done]|].
  destruct (q (ac_time a)); lia.
Qed.
Lemma rpm_key_inj id id' : rpm_key id = rpm_key id' → id = id'.
Proof. apply (inj (String.append rpmKeyPrefix)). Qed.
Lemma rpm_tpm_ne id id' : rpm_key id ≠ tpm_key id'.
Proof. unfold rpm_key, tpm_key. cbn. by intros [=]. Qed.
Definition within_limit (id : string) (L : Z) (log : list accepted) : Prop :=
  ∀ w, used (rpm_key id) (between w) log ≤ L.
Lemma log_step_within id L op t log :
  0 < L → limited id L op → nonneg log → (∀ a, a ∈ log → ac_time a ≤ t) → t ≤ ck_now (call_clock op) → within_limit id L log →
  within_limit id L (log_step op log) ∧ nonneg (log_step op log) ∧ (∀ a, a ∈ log_step op log → ac_time a ≤ ck_now (call_clock op)).
Proof.
  intros HL Hlim Hn Ht Hnow Hw.
  assert (∀ k n, 0 ≤ n → (k = rpm_key id → n = 1 ∧ used (rpm_key id) (in_window (ck_now (call_clock op))) log + 1 ≤ L) →
    within_limit id L (log ++ [mkAccepted k (ck_now (call_clock op)) n]) ∧ nonneg (log ++ [mkAccepted k (ck_now (call_clock op)) n]) ∧
    (∀ a, a ∈ log ++ [mkAccepted k (ck_now (call_clock op)) n] → ac_time a ≤ ck_now (call_clock op))) as Hadd.
  { intros k n Hn0 Hk. split_and!.
    - intros w. rewrite used_app. cbn. destruct (String.eqb_spec k (rpm_key id)) as [->|]; cbn; [|specialize (Hw w); lia].
      destruct (between w _) eqn:Eb; [|specialize (Hw w); lia]. destruct (Hk eq_refl) as [-> Hle].
      assert (used (rpm_key id) (between w) log ≤ used (rpm_key id) (in_window (ck_now (call_clock op))) log); [|lia].
      apply used_mono; [done|]. unfold between, in_window in *. intros a _. rewrite !andb_true_iff, !Z.ltb_lt, !Z.leb_le in *. lia.
    - apply Forall_app. split; [done|]. by constructor.
    - intros a. rewrite elem_of_app, list_elem_of_singleton. intros [Ha| ->]; [specialize (Ht a Ha); lia|cbn; lia]. }
  assert (within_limit id L log ∧ nonneg log ∧ ∀ a, a ∈ log → ac_time a ≤ ck_now (call_clock op)) as Hsame.
  { split_and!; [done|done|]. intros a Ha. specialize (Ht a Ha). lia. }
  destruct op as [c id' limit|c id' limit|c id' tokens]; cbn in *; [|done|].
  - destruct (admits limit 1 _) eqn:Ea; [|done]. apply Hadd; [done|]. intros He. split; [done|]. apply rpm_key_inj in He as ->.
    rewrite (Hlim eq_refl) in Ea. unfold admits in Ea. apply negb_true_iff, andb_false_iff in Ea as [Ea|Ea]; [apply Z.ltb_ge in Ea; lia|].
    by apply Z.ltb_ge in Ea.
  - destruct (Z.leb_spec tokens 0); [done|]. apply Hadd; [lia|]. intros He. by destruct (rpm_tpm_ne id id').
Qed.
Lemma passed_used id w ops log l :
  answers_all ops log l → used (rpm_key id) (between w) (log_run ops log) = used (rpm_key id) (between w) log + passed id w ops l.
Proof.
  revert log l. induction ops as [|op ops IH]; intros log [|a l] Hall; try done; [cbn [log_run passed]; lia|]. destruct Hall as [Ha Hl].
  cbn [log_run]. rewrite (IH _ l Hl). destruct op as [c id' limit|c id' limit|c id' tokens]; cbn [log_step passed].
  - destruct Ha as (r & -> & Hr & _). rewrite Hr. destruct (admits limit 1 _); [rewrite used_app|]; cbn.
    + destruct (String.eqb_spec id' id) as [->|Hne].
      * rewrite String.eqb_refl. cbn. destruct (between w (ck_now c)); cbn; lia.
      * destruct (String.eqb_spec (rpm_key id') (rpm_key id)) as [He|]; [by apply rpm_key_inj in He|]. cbn. lia.
    + rewrite andb_false_r. lia.
  - done.
  - destruct (tokens <=? 0); [done|]. rewrite used_app. cbn.
    destruct (String.eqb_spec (tpm_key id') (rpm_key id)) as [He|]; [by destruct (rpm_tpm_ne id id')|]. cbn. lia.
Qed.
Lemma log_run_within id L ops t log :
  0 < L → Forall (limited id L) ops → orderly t ops → nonneg log → (∀ a, a ∈ log → ac_time a ≤ t) → within_limit id L log →
  within_limit id L (log_run ops log).
Proof.
  intros HL. revert t log. induction ops as [|op ops IH]; intros t log Hlim Ho Hn Ht Hw; [done|].
  apply Forall_cons in Hlim as [Hl Hlim]. destruct Ho as [[Hle _] Ho]. cbn [log_run].
  destruct (log_step_within id L op t log HL Hl Hn Ht Hle Hw) as (Hw' & Hn' & Ht'). by apply (IH (ck_now (call_clock op))).
Qed.

(** C33. No window exceeds the limit. Start with an empty Redis that answers every call (the
    gateway lets a request pass when it does not). Let the requests of an identity all be
    checked against one and the same positive limit (a limit of zero or less admits
    everything), let the calls of all identities come in the order of their times with
    Redis' clock within half a second of the callers', and let any two calls that add a
    member differ in their printed time (100 microseconds) or random number (otherwise both
    pass and count once). Then, whatever checks and increments the identities make, in
    every interval of 60 seconds at most as many requests of that identity pass as its
    limit says. *)
Theorem requests_within_limit id L ops t l r w :
  0 < L → Forall (limited id L) ops → orderly t ops → NoDup (tags ops) → limiter_run ops ∅ = (l, r) → passed id w ops l ≤ L.
Proof.
  intros HL Hlim Ho Hn Hr. pose proof (limiter_run_answers ops [] t ∅ l r (holds_empty t) Ho Hn Hr) as Ha.
  pose proof (passed_used id w ops [] l Ha) as Hp. cbn in Hp.
  assert (within_limit id L (log_run ops [])) as Hw.
  { apply (log_run_within id L ops t); try done; [constructor|intros a Ha'; by apply not_elem_of_nil in Ha'|]. intros w'. cbn. lia. }
  specialize (Hw w). lia.
Qed.

(** * The batcher *)
Definition sum_list_Z (l : list Z) : Z := foldr Z.add 0 l.
Lemma sum_list_Z_app l l' : sum_list_Z (l ++ l') = sum_list_Z l + sum_list_Z l'.
Proof. induction l as [|x l IH]; cbn; [done|]. unfold sum_list_Z in *. lia. Qed.
Definition conserved (b : TPMBatcher) : Prop :=
  bt_added b = sum_list_Z (bt_flushed b) + bt_pending b + sum_list_Z (bt_channel b) + bt_dropped b ∧
  (length (bt_channel b) ≤ channel_capacity)%nat ∧ (bt_phase b = LoopExited → bt_channel b = []) ∧
  (bt_phase b = BatcherDone → bt_channel b = [] ∧ bt_pending b ≤ 0) ∧ (bt_phase b ∈ [LoopDraining; LoopExited; BatcherDone] → bt_stopped b = true).
Lemma receive_conserved b b' :
  bt_phase b ≠ LoopExited → bt_phase b ≠ BatcherDone → receive b = Some b' → conserved b → conserved b'.
Proof.
  unfold receive, conserved, sum_list_Z. destruct (bt_channel b) as [|x l] eqn:E; [done|].
  intros H1 H2 [= <-] (Ha & Hl & He & Hd & Hs). cbn in *. split_and!; [lia|lia|done|done|done].
Qed.
Lemma flush_conserved p b :
  bt_channel b = [] → (p = LoopIdle ∨ (p = BatcherDone ∧ bt_stopped b = true)) → conserved b → conserved (flush_pending p b).
Proof.
  unfold flush_pending, conserved. intros Hc Hp (Ha & Hl & He & Hd & Hs). rewrite Hc in *.
  destruct (Z.ltb_spec 0 (bt_pending b)); cbn [bt_channel bt_pending bt_stopped bt_phase bt_flushed bt_added bt_dropped];
    rewrite ?sum_list_Z_app; unfold sum_list_Z in *; cbn in *; (split_and!; [lia|lia|done|done|]); intros Hin;
    destruct Hp as [->|[-> ?]]; (done || set_solver).
Qed.
Lemma phase_conserved p b :
  (p = LoopFlushing ∨ (p = LoopDraining ∧ bt_stopped b = true) ∨ (p = LoopExited ∧ bt_channel b = [] ∧ bt_stopped b = true)) →
  conserved b → conserved (set_phase p b).
Proof.
  unfold conserved, set_phase. cbn. intros Hp (Ha & Hl & _). split_and!; [done|done|..]; destruct Hp as [->|[[-> ?]|(-> & ? & ?)]];
    (done || set_solver).
Qed.
Lemma batcher_step_conserved b b' : batcher_step b b' → conserved b → conserved b'.
Proof.
  destruct 1 as [b n Hs|b Hs|b b' Hp Hr|b Hp|b b' Hp Hr|b Hp Hc|b Hp Hs|b b' Hp Hr|b Hp Hc|b Hp Hs]; intros Hcons;
    try (by apply (receive_conserved b); [rewrite Hp..| |]).
  - destruct Hcons as (Ha & Hl & He & Hd & Hst). unfold batcher_Add, conserved, sum_list_Z in *.
    assert (bt_phase b ∉ [LoopDraining; LoopExited; BatcherDone]) as Hph by (intros Hin; by rewrite Hst in Hs).
    destruct (Nat.ltb_spec (length (bt_channel b)) channel_capacity); cbn; rewrite ?foldr_app, ?length_app; cbn;
      (split_and!; [|lia|intros E; rewrite E in Hph; set_solver..|done]).
    + pose proof (sum_list_Z_app (bt_channel b) [n]) as Hs'. unfold sum_list_Z in Hs'. rewrite foldr_app in Hs'. cbn in Hs'. lia.
    + lia.
  - unfold conserved, close_stop in *. cbn. naive_solver.
  - by apply phase_conserved; [left|].
  - apply flush_conserved; auto.
  - apply phase_conserved; auto.
  - apply phase_conserved; [|done]. right; right. split_and!; [done|done|]. apply Hcons. rewrite Hp. set_solver.
  - destruct Hcons as (Ha & Hl & He & Hrest). apply flush_conserved; [by apply He|by right|exact (conj Ha (conj Hl (conj He Hrest)))].
Qed.
(** Tokens are conserved: in every state of a stream's batcher, whatever the order in
    which its goroutines run, the tokens added are the ones passed to the limiter, pending,
    queued or dropped because the queue of 256 was full; when [Stop] has returned, all but
    the dropped ones were passed on. The code's comment says that nothing is dropped. *)
Theorem batcher_conserves_tokens b :
  rtc batcher_step NewTPMBatcher b →
  bt_added b = sum_list_Z (bt_flushed b) + bt_pending b + sum_list_Z (bt_channel b) + bt_dropped b ∧
  (bt_phase b = BatcherDone → bt_added b - bt_dropped b ≤ sum_list_Z (bt_flushed b)).
Proof.
  intros Hr. assert (conserved b) as (Ha & _ & _ & Hd & _).
  { eapply (rtc_ind_r (λ x, conserved x)); [|intros x y _ Hs; by apply batcher_step_conserved|exact Hr].
    repeat split; cbn; (done || lia || set_solver). }
  split; [done|]. intros Hp. destruct (Hd Hp) as [Hc Hpend]. rewrite Hc in Ha. cbn in Ha. lia.
Qed.

(** What a stream adds: the largest usage total its chunks reported. *)
Lemma stream_deltas_sum prev totals : sum_list_Z (stream_deltas prev totals) = foldl Z.max prev totals - prev.
Proof.
  revert prev. induction totals as [|t l IH]; intros prev; cbn; [unfold sum_list_Z; cbn; lia|].
  destruct (Z.ltb_spec 0 (t - prev)).
  - cbn. fold (sum_list_Z (stream_deltas t l)). rewrite IH. rewrite (Z.max_r prev t) by lia. lia.
  - rewrite IH. rewrite (Z.max_l prev t) by lia. lia.
Qed.

(** * Examples *)
Definition at_ (t r : Z) : Clock := mkClock t t r.
Definition noon : Z := 1700000000000000.
(** A limit of two: the third request of a minute is refused, one a minute later passes. *)
Definition demo_calls : list limiter_call :=
  [CallRPM (at_ noon 1) "ana" 2; CallRPM (at_ (noon + 1000) 2) "ana" 2; CallRPM (at_ (noon + 2000) 3) "ana" 2;
   CallIncrement (at_ (noon + 3000) 4) "ana" 500; CallTPM (at_ (noon + 4000) 5) "ana" 400; CallRPM (at_ (noon + 60000001) 6) "ana" 2].
Definition allowed (o : option Result) : option bool := rs_Allowed <$> o.
Example demo_answers : allowed <$> (limiter_run demo_calls ∅).1 = [Some true; Some true; Some false; None; Some false; Some true].
Proof. by vm_compute. Qed.
Lemma demo_orderly : orderly noon demo_calls.
Proof. unfold demo_calls, orderly, in_step, at_, skew, noon. cbn. lia. Qed.
Lemma demo_tags : NoDup (tags demo_calls).
Proof. apply (bool_decide_unpack _). by vm_compute. Qed.
Lemma limiter_implements_window_witness : answers_all demo_calls [] (limiter_run demo_calls ∅).1.
Proof. exact (limiter_implements_window demo_calls noon _ _ demo_orderly demo_tags (surjective_pairing _)). Defined.
Lemma requests_within_limit_witness : passed "ana" (noon - 1) demo_calls (limiter_run demo_calls ∅).1 ≤ 2.
Proof.
  apply (requests_within_limit "ana" 2 demo_calls noon _ (limiter_run demo_calls ∅).2); [lia| |exact demo_orderly|exact demo_tags|apply surjective_pairing].
  unfold demo_calls. by repeat constructor.
Defined.
Definition small_stream : TPMBatcher :=
  flush_pending BatcherDone (set_phase LoopExited (set_phase LoopDraining (close_stop
    (flush_pending LoopIdle (mkBatcher [] 7 false LoopFlushing [] 7 0))))).
Lemma batcher_conserves_tokens_witness : bt_phase small_stream = BatcherDone ∧ 7 ≤ sum_list_Z (bt_flushed small_stream).
Proof.
  split; [done|]. apply (batcher_conserves_tokens small_stream); [|done].
  unfold small_stream. eapply rtc_l; [apply (step_add NewTPMBatcher 7); done|]. eapply rtc_l; [by apply step_tick|].
  eapply rtc_l; [by apply step_flush_receive|]. eapply rtc_l; [by apply step_flush|]. eapply rtc_l; [by apply step_stop|].
  eapply rtc_l; [by apply step_stop_seen|]. eapply rtc_l; [by apply step_exit|]. eapply rtc_l; [by apply step_final_flush|]. apply rtc_refl.
Defined.
(** Redis gives a script the same random numbers at every run. Two requests within the 100
    microseconds that Lua prints alike are then one member: a limit of one passes both. *)
Example same_instant_counts_once :
  allowed <$> (limiter_run [CallRPM (at_ noon 7) "ana" 1; CallRPM (at_ (noon + 60000001) 7) "ana" 2;
                            CallRPM (at_ (noon + 60000002) 7) "ana" 2; CallRPM (at_ (noon + 60000003) 7) "ana" 2] ∅).1 =
  [Some true; Some true; Some true; Some true].
Proof. by vm_compute. Qed.
(** A full queue drops tokens. *)
Example full_queue_drops : bt_dropped (batcher_Add 5 (mkBatcher (replicate 256 1) 0 false LoopIdle [] 256 0)) = 5.
Proof. by vm_compute. Qed.
