(* ===== verification/Catalog.v ===== *)
(** The declared platform configuration that the inference gateway reads: permission
    policies (control-plane/internal/permissions/store.go), model backends and models
    (control-plane/internal/catalog/store.go, models.go), and the views of migrations
    000003, 000005, 000006 and 000008 over them and over the identity tables.

    Tables are keyed by their natural key. [fresh] is the UUID a new row gets, [now] is
    PostgreSQL's [now()]. JSONB columns hold parsed values; Go's [int] is 64 bits wide,
    PostgreSQL's [integer] 32. *)
From S2P Require Import Prelude Json IdentityData IdentityStore.

Inductive CatErr := ErrNotFound | ErrCheck (constraint : string) | ErrUnique (constraint : string)
  | ErrNotNull | ErrInvalidJSON | ErrOutOfRange | ErrUnreadable.

(** * Rows *)
Record RateLimits := mkRateLimits { rl_RPM : Z; rl_TPM : Z }.
#[export] Instance RateLimits_eq : EqDecision RateLimits. Proof. solve_decision. Defined.
Record Policy := mkPolicy {
  pl_ID : uuid; pl_Key : string; pl_SubjectKind : string; pl_SubjectKey : string; pl_RateLimits : option RateLimits }.
Record PolicyRow := mkPolicyRow { pr_Policy : Policy; pr_UpdatedAt : timestamp; pr_DeletedAt : option timestamp }.
Record Capability := mkCapability { cp_IdentityID : uuid; cp_Resource : string; cp_Action : string }.
#[export] Instance Capability_eq : EqDecision Capability. Proof. solve_decision. Defined.

Record Backend := mkBackend {
  be_ID : uuid; be_Key : string; be_Name : string; be_Namespace : string; be_Kind : string; be_Model : string;
  be_ServiceURL : string; be_Image : string; be_Deployed : bool; be_Healthy : bool }.
Record BackendRow := mkBackendRow { br_Backend : Backend; br_UpdatedAt : timestamp; br_DeletedAt : option timestamp }.
(** [Model], whose JSON fields are texts on the way in and values in the table. *)
Record Model (J : Type) := mkModel {
  mo_ID : uuid; mo_Key : string; mo_Namespace : string; mo_ModelID : string; mo_DisplayName : string;
  mo_ContextLength : Z; mo_Capabilities : J; mo_BackendRef : string; mo_DefaultParams : J;
  mo_ReasoningConfig : J; mo_Transforms : J; mo_RateLimits : J; mo_Available : bool }.
Arguments mkModel {J}.
Arguments mo_ID {J}.
Arguments mo_Key {J}.
Arguments mo_Namespace {J}.
Arguments mo_ModelID {J}.
Arguments mo_DisplayName {J}.
Arguments mo_ContextLength {J}.
Arguments mo_Capabilities {J}.
Arguments mo_BackendRef {J}.
Arguments mo_DefaultParams {J}.
Arguments mo_ReasoningConfig {J}.
Arguments mo_Transforms {J}.
Arguments mo_RateLimits {J}.
Arguments mo_Available {J}.
Record ModelRow := mkModelRow { mr_Model : Model json; mr_UpdatedAt : timestamp; mr_DeletedAt : option timestamp }.
Record CatalogEntry := mkCatalogEntry {
  ce_ModelKey : string; ce_Namespace : string; ce_ModelID : string; ce_DisplayName : string;
  ce_ContextLength : Z; ce_Capabilities : json; ce_BackendRef : string; ce_BackendKind : string;
  ce_BackendModelID : string; ce_BackendURL : string; ce_DefaultParams : json; ce_ReasoningConfig : json;
  ce_Transforms : json; ce_RateLimits : json; ce_Available : bool }.

Record PlatformDB := mkPlatformDB {
  pf_identity : IdentityDB;
  policies : gmap string PolicyRow;
  backends : gmap string BackendRow;
  models : gmap string ModelRow }.
Definition set_identity (v : IdentityDB) (d : PlatformDB) : PlatformDB := mkPlatformDB v (policies d) (backends d) (models d).
Definition set_policies (v : gmap string PolicyRow) (d : PlatformDB) : PlatformDB :=
  mkPlatformDB (pf_identity d) v (backends d) (models d).
Definition set_backends (v : gmap string BackendRow) (d : PlatformDB) : PlatformDB :=
  mkPlatformDB (pf_identity d) (policies d) v (models d).
Definition set_models (v : gmap string ModelRow) (d : PlatformDB) : PlatformDB :=
  mkPlatformDB (pf_identity d) (policies d) (backends d) v.
Notation CatTx := (Tx PlatformDB CatErr).

(** * The permission store *)
Definition subject_kinds : list string := ["user"; "group"; "service_account"; "workflow"].
(** The row's id survives a conflict on the key. *)
Definition UpsertPolicy (fresh key subjectKind subjectKey : string) (rateLimits : option RateLimits) (now : timestamp) : CatTx Policy :=
  d ← tx_get;
  tx_require (bool_decide (subjectKind ∈ subject_kinds)) (ErrCheck "policies_subject_kind_check");;
  let id := match policies d !! key with Some r => pl_ID (pr_Policy r) | None => fresh end in
  let p := mkPolicy id key subjectKind subjectKey rateLimits in
  tx_modify (set_policies (<[key := mkPolicyRow p now None]> (policies d)));;
  mret p.
Definition SoftDeletePolicyByKey (key : string) (now : timestamp) : CatTx () :=
  d ← tx_get;
  match policies d !! key with
  | Some r =>
      if decide (pr_DeletedAt r = None)
      then tx_modify (set_policies (<[key := mkPolicyRow (pr_Policy r) now (Some now)]> (policies d)))
      else mret ()
  | None => mret ()
  end.
Definition active_policy (d : PlatformDB) (key : string) : option Policy :=
  r ← policies d !! key; if decide (pr_DeletedAt r = None) then Some (pr_Policy r) else None.
Definition GetPolicyByKey (key : string) : CatTx Policy :=
  d ← tx_get; tx_opt (active_policy d key) ErrNotFound.

(** * The catalog store *)
Definition backend_kinds : list string := ["vLLM"; "SGLang"; "external"].
Definition with_backend_id (id : uuid) (b : Backend) : Backend :=
  mkBackend id (be_Key b) (be_Name b) (be_Namespace b) (be_Kind b) (be_Model b) (be_ServiceURL b) (be_Image b)
    (be_Deployed b) (be_Healthy b).
Definition UpsertBackend (fresh : uuid) (b : Backend) (now : timestamp) : CatTx Backend :=
  d ← tx_get;
  tx_require (bool_decide (be_Kind b ∈ backend_kinds)) (ErrCheck "backends_kind_check");;
  let id := match backends d !! be_Key b with Some r => be_ID (br_Backend r) | None => fresh end in
  let b' := with_backend_id id b in
  tx_modify (set_backends (<[be_Key b := mkBackendRow b' now None]> (backends d)));;
  mret b'.
Definition unhealthy (b : Backend) : Backend :=
  mkBackend (be_ID b) (be_Key b) (be_Name b) (be_Namespace b) (be_Kind b) (be_Model b) (be_ServiceURL b) (be_Image b)
    (be_Deployed b) false.
Definition SoftDeleteBackendByKey (key : string) (now : timestamp) : CatTx () :=
  d ← tx_get;
  match backends d !! key with
  | Some r =>
      if decide (br_DeletedAt r = None)
      then tx_modify (set_backends (<[key := mkBackendRow (unhealthy (br_Backend r)) now (Some now)]> (backends d)))
      else mret ()
  | None => mret ()
  end.
Definition GetBackendByKey (key : string) : CatTx Backend :=
  d ← tx_get;
  tx_opt (r ← backends d !! key; if decide (br_DeletedAt r = None) then Some (br_Backend r) else None) ErrNotFound.

(** An empty text is an explicit NULL, which the column's default does not replace. *)
Definition jsonb (b : string) : CatTx json :=
  if String.eqb b EmptyString then tx_fail ErrNotNull else tx_opt (parse_json b) ErrInvalidJSON.
Definition fits_int4 (n : Z) : bool := (- int4_max - 1 <=? n) && (n <=? int4_max).
(** Another active model of the namespace with the alias. *)
Definition alias_taken (key namespace modelID : string) (t : gmap string ModelRow) : bool :=
  exists_row (λ r, let m := mr_Model r in
    negb (String.eqb (mo_Key m) key) && String.eqb (mo_Namespace m) namespace && String.eqb (mo_ModelID m) modelID &&
    bool_decide (mr_DeletedAt r = None)) t.
Definition UpsertModel (fresh : uuid) (m : Model string) (now : timestamp) : CatTx (Model json) :=
  d ← tx_get;
  tx_require (fits_int4 (mo_ContextLength m)) ErrOutOfRange;;
  caps ← jsonb (mo_Capabilities m);
  dp ← jsonb (mo_DefaultParams m);
  rc ← jsonb (mo_ReasoningConfig m);
  tr ← jsonb (mo_Transforms m);
  rl ← jsonb (mo_RateLimits m);
  tx_require (negb (alias_taken (mo_Key m) (mo_Namespace m) (mo_ModelID m) (models d))) (ErrUnique "idx_models_model_id");;
  let id := match models d !! mo_Key m with Some r => mo_ID (mr_Model r) | None => fresh end in
  let m' := mkModel id (mo_Key m) (mo_Namespace m) (mo_ModelID m) (mo_DisplayName m) (mo_ContextLength m) caps
              (mo_BackendRef m) dp rc tr rl (mo_Available m) in
  tx_modify (set_models (<[mo_Key m := mkModelRow m' now None]> (models d)));;
  mret m'.
Definition unavailable {J} (m : Model J) : Model J :=
  mkModel (mo_ID m) (mo_Key m) (mo_Namespace m) (mo_ModelID m) (mo_DisplayName m) (mo_ContextLength m) (mo_Capabilities m)
    (mo_BackendRef m) (mo_DefaultParams m) (mo_ReasoningConfig m) (mo_Transforms m) (mo_RateLimits m) false.
Definition SoftDeleteModelByKey (key : string) (now : timestamp) : CatTx () :=
  d ← tx_get;
  match models d !! key with
  | Some r =>
      if decide (mr_DeletedAt r = None)
      then tx_modify (set_models (<[key := mkModelRow (unavailable (mr_Model r)) now (Some now)]> (models d)))
      else mret ()
  | None => mret ()
  end.
Definition GetModelByKey (key : string) : CatTx (Model json) :=
  d ← tx_get;
  tx_opt (r ← models d !! key; if decide (mr_DeletedAt r = None) then Some (mr_Model r) else None) ErrNotFound.

(** * The views *)
(** [identity.active_api_keys]. *)
Definition key_active (now : timestamp) (k : ApiKeyRow) : bool :=
  bool_decide (ak_RevokedAt k = None) && match ak_ExpiresAt k with Some e => now <? e | None => true end.
Definition active_api_keys (now : timestamp) (d : PlatformDB) : list (string * uuid) :=
  (λ k, (ak_KeyHash k, ak_IdentityID k)) <$> select (key_active now) (api_keys (pf_identity d)).
Definition identity_active (r : IdentityRow) : bool := bool_decide (ir_DeletedAt r = None).
(** [permissions.effective_capabilities]: the policies do not narrow it yet. *)
Definition effective_capabilities (d : PlatformDB) : list Capability :=
  (λ kr, mkCapability kr.1 "*" "*") <$> filter (λ kr, identity_active kr.2 = true) (map_to_list (identities (pf_identity d))).
(** [permissions.effective_rate_limits]: the rows an identity joins with, and their minima. The
    casts to [integer] fail out of range. *)
Definition limits_of (key : string) (d : PlatformDB) : list RateLimits :=
  omap (λ r, if decide (pr_DeletedAt r = None ∧ pl_SubjectKey (pr_Policy r) = key) then pl_RateLimits (pr_Policy r) else None)
    (rows (policies d)).
Definition least (l : list Z) (x : Z) : Z := foldr Z.min x l.
Definition effective_limit (l : list RateLimits) : option (option RateLimits) :=
  match l with
  | [] => Some None
  | r :: l' =>
      if forallb (λ r, fits_int4 (rl_RPM r) && fits_int4 (rl_TPM r)) l
      then Some (Some (mkRateLimits (least (rl_RPM <$> l') (rl_RPM r)) (least (rl_TPM <$> l') (rl_TPM r))))
      else None
  end.
Definition rate_limits_row (d : PlatformDB) (kr : uuid * IdentityRow) : option (option (uuid * RateLimits)) :=
  match effective_limit (limits_of (id_Key (ir_Identity kr.2)) d) with
  | Some o => Some (pair kr.1 <$> o)
  | None => None
  end.
Definition effective_rate_limits (d : PlatformDB) : option (list (uuid * RateLimits)) :=
  l ← mapM (rate_limits_row d) (filter (λ kr, identity_active kr.2 = true) (map_to_list (identities (pf_identity d))));
  Some (omap id l).
(** [catalog.effective_catalog]. *)
Definition serves (m : Model json) (r : BackendRow) : bool :=
  String.eqb (be_Name (br_Backend r)) (mo_BackendRef m) && String.eqb (be_Namespace (br_Backend r)) (mo_Namespace m) &&
  bool_decide (br_DeletedAt r = None).
Definition catalog_entry (m : Model json) (r : BackendRow) : CatalogEntry :=
  let b := br_Backend r in
  mkCatalogEntry (mo_Key m) (mo_Namespace m) (mo_ModelID m) (mo_DisplayName m) (mo_ContextLength m) (mo_Capabilities m)
    (mo_BackendRef m) (be_Kind b) (be_Model b) (be_ServiceURL b) (mo_DefaultParams m) (mo_ReasoningConfig m)
    (mo_Transforms m) (mo_RateLimits m) (mo_Available m && be_Healthy b).
Definition effective_catalog (d : PlatformDB) : list CatalogEntry :=
  mo ← select (λ r, bool_decide (mr_DeletedAt r = None)) (models d);
  catalog_entry (mr_Model mo) <$> select (serves (mr_Model mo)) (backends d).

(** * Reads of the control plane *)
Definition EffectiveCapabilities (identityID : uuid) : CatTx (list Capability) :=
  tx_asks (λ d, filter (λ c, cp_IdentityID c = identityID) (effective_capabilities d)).
(** The condition on the grouping column is applied before the aggregation. *)
Definition EffectiveRateLimits (identityID : uuid) : CatTx RateLimits :=
  d ← tx_get;
  match identities (pf_identity d) !! identityID with
  | Some r =>
      if identity_active r
      then o ← tx_opt (effective_limit (limits_of (id_Key (ir_Identity r)) d)) ErrOutOfRange; tx_opt o ErrNotFound
      else tx_fail ErrNotFound
  | None => tx_fail ErrNotFound
  end.
(** [ORDER BY namespace, model_id], in byte order. *)
Definition catalog_before (a b : CatalogEntry) : Prop :=
  String.leb (ce_Namespace a) (ce_Namespace b) = true ∧ (ce_Namespace a = ce_Namespace b → String.leb (ce_ModelID a) (ce_ModelID b) = true).
#[local] Instance catalog_before_dec a b : Decision (catalog_before a b).
Proof. unfold catalog_before. apply _. Defined.
Definition EffectiveCatalog : CatTx (list CatalogEntry) :=
  tx_asks (λ d, merge_sort catalog_before (effective_catalog d)).
