(* ===== verification/InferenceBody.v ===== *)
(** Request and response bodies of the inference gateway (inference-gateway/internal/proxy:
    transform.go and the decoding parts of handler.go and streaming.go).

    A body is raw bytes, or the object that [json.Marshal] printed after a transformation:
    what a reader gets back from it, with every number at its float64 value. Decoding a raw
    body into [map[string]any] fails when a number overflows float64. *)
From Stdlib Require Import Ascii.
From S2P Require Import Prelude Json Workflow Consequence Catalog RateLimit.

(** * Objects *)
Inductive Body := RawBody (bytes : string) | ObjBody (m : gmap string json).
Definition obj_map (l : list (string * json)) : gmap string json := foldl (λ m kv, <[kv.1 := kv.2]> m) ∅ l.
Definition of_map (m : gmap string json) : json := JObj (map_to_list m).
(** The value of a decoded number, exactly. *)
Definition float_value (m e : Z) : json :=
  match float64_of_decimal m e with
  | Some (k, x, neg) =>
      let k := if neg then - k else k in if 0 <=? x then JNum (k * 2 ^ x) 0 else JNum (k * 5 ^ (- x)) x
  | None => JNull
  end.
Fixpoint any_value (v : json) : json :=
  match v with
  | JNum m e => float_value m e
  | JArr l => JArr (any_value <$> l)
  | JObj l => JObj ((λ kv, (kv.1, any_value kv.2)) <$> l)
  | _ => v
  end.
(** [json.Unmarshal] into [map[string]any]. A [null] gives the nil map, which is printed as
    [null] again; the request path never gets there with one. *)
Definition unmarshal_object (b : Body) : option (gmap string json) :=
  match b with
  | ObjBody m => Some m
  | RawBody s =>
      v ← parse_json s;
      match v with
      | JObj l => if any_ok v then Some (obj_map ((λ kv, (kv.1, any_value kv.2)) <$> l)) else None
      | _ => None
      end
  end.
(** [rewritten, err := json.Marshal(f(parsed))], or the body itself. *)
Definition rewrite_body (f : gmap string json → gmap string json) (b : Body) : Body :=
  match unmarshal_object b with Some m => ObjBody (f m) | None => b end.

(** * The catalog's per-alias configuration *)
Record DefaultParams := mkParams {
  dp_Temperature : option json; dp_TopP : option json; dp_MaxTokens : option json; dp_FrequencyPenalty : option json;
  dp_PresencePenalty : option json; dp_RepetitionPenalty : option json; dp_TopK : option json; dp_MinP : option json;
  dp_Stop : list string }.
Record Transforms := mkTransforms { tf_SystemPromptPrefix : string; tf_RewriteModelName : bool }.
(** A column decoded into a struct whose errors are ignored: a member of another type leaves
    its field alone, [null] clears a pointer. *)
Definition decode_pointer {A} (dec : json → option A) (name : string) (l : list (string * json)) : option A :=
  foldl (λ acc v, match v with JNull => None | _ => match dec v with Some a => Some a | None => acc end end) None
    (field_values name l).
Definition decode_value {A} (dec : json → option A) (zero : A) (name : string) (l : list (string * json)) : A :=
  foldl (λ acc v, match v with JNull => acc | _ => default acc (dec v) end) zero (field_values name l).
Definition object_members (v : json) : list (string * json) := match v with JObj l => l | _ => [] end.
Definition dec_float (v : json) : option json :=
  match v with JNum m e => if any_ok v then Some (float_value m e) else None | _ => None end.
(** Integers are printed without a fraction or an exponent by who wrote the column. *)
Definition int_literal (v : json) : option Z :=
  match v with JNum m 0 => if (- int8_max - 1 <=? m) && (m <=? int8_max) then Some m else None | _ => None end.
Definition dec_int (v : json) : option json := n ← int_literal v; Some (JNum n 0).
Definition dec_string (v : json) : option string := match v with JStr s => Some s | _ => None end.
Definition dec_bool (v : json) : option bool := match v with JBool b => Some b | _ => None end.
(** An element of another type is left empty. *)
Definition dec_strings (v : json) : option (list string) :=
  match v with JArr l => Some ((λ x, default EmptyString (dec_string x)) <$> l) | _ => None end.
Definition decode_params (v : json) : DefaultParams :=
  let l := object_members v in
  mkParams (decode_pointer dec_float "temperature" l) (decode_pointer dec_float "top_p" l)
    (decode_pointer dec_int "max_tokens" l) (decode_pointer dec_float "frequency_penalty" l)
    (decode_pointer dec_float "presence_penalty" l) (decode_pointer dec_float "repetition_penalty" l)
    (decode_pointer dec_int "top_k" l) (decode_pointer dec_float "min_p" l)
    (default [] (decode_pointer dec_strings "stop" l)).
Definition decode_reasoning (v : json) : option bool := decode_pointer dec_bool "enable_thinking" (object_members v).
Definition decode_transforms (v : json) : Transforms :=
  let l := object_members v in
  mkTransforms (decode_value dec_string EmptyString "system_prompt_prefix" l) (decode_value dec_bool false "rewrite_model_name" l).

(** A row of the gateway's catalog (snapshot/types.go); its other columns are not read. *)
Record Entry := mkEntry {
  en_ModelID : string; en_BackendRef : string; en_BackendModelID : string; en_BackendURL : string;
  en_DefaultParams : DefaultParams; en_EnableThinking : option bool; en_Transforms : Transforms; en_Available : bool }.
Definition scan_entry (e : CatalogEntry) : Entry :=
  mkEntry (ce_ModelID e) (ce_BackendRef e) (ce_BackendModelID e) (ce_BackendURL e) (decode_params (ce_DefaultParams e))
    (decode_reasoning (ce_ReasoningConfig e)) (decode_transforms (ce_Transforms e)) (ce_Available e).

(** * Transformations of a request *)
Definition setIfAbsent (key : string) (val : option json) (m : gmap string json) : gmap string json :=
  match val with
  | None => m
  | Some v => match m !! key with Some _ => m | None => <[key := v]> m end
  end.
(** The keys in the order the code sets them. *)
Definition param_values (d : DefaultParams) : list (string * option json) :=
  [("temperature", dp_Temperature d); ("top_p", dp_TopP d); ("max_tokens", dp_MaxTokens d);
   ("frequency_penalty", dp_FrequencyPenalty d); ("presence_penalty", dp_PresencePenalty d);
   ("repetition_penalty", dp_RepetitionPenalty d); ("top_k", dp_TopK d); ("min_p", dp_MinP d);
   ("stop", match dp_Stop d with [] => None | l => Some (JArr (JStr <$> l)) end)].
Definition applyDefaultParams (d : DefaultParams) (m : gmap string json) : gmap string json :=
  foldl (λ m kv, setIfAbsent kv.1 kv.2 m) m (param_values d).
Definition applyReasoningConfig (enableThinking : option bool) (m : gmap string json) : gmap string json :=
  match enableThinking with
  | None => m
  | Some b =>
      let kwargs := match m !! "chat_template_kwargs" with Some (JObj l) => obj_map l | _ => ∅ end in
      <["chat_template_kwargs" := of_map (<["enable_thinking" := JBool b]> kwargs)]> m
  end.
Definition system_message (prefix : string) : json := of_map (<["role" := JStr "system"]> {[ "content" := JStr prefix ]}).
Definition newline : string := String (chr 10) EmptyString.
Definition applySystemPromptPrefix (t : Transforms) (m : gmap string json) : gmap string json :=
  let prefix := tf_SystemPromptPrefix t in
  if String.eqb prefix EmptyString then m
  else
    match m !! "messages" with
    | Some (JArr (JObj l :: messages)) =>
        let first_ := obj_map l in
        let role := match first_ !! "role" with Some (JStr s) => s | _ => EmptyString end in
        if String.eqb role "system"
        then
          let existing := match first_ !! "content" with Some (JStr s) => s | _ => EmptyString end in
          <["messages" := JArr (of_map (<["content" := JStr (prefix +:+ newline +:+ existing)]> first_) :: messages)]> m
        else <["messages" := JArr (system_message prefix :: JObj l :: messages)]> m
    | Some (JArr (_ :: _)) => m
    | _ => <["messages" := JArr [system_message prefix]]> m
    end.
Definition ApplyRequestTransforms (e : Entry) (b : Body) : Body :=
  rewrite_body (λ m, applySystemPromptPrefix (en_Transforms e)
                       (applyReasoningConfig (en_EnableThinking e) (applyDefaultParams (en_DefaultParams e) m))) b.
Definition rewriteModelInRequest (modelID : string) (b : Body) : Body := rewrite_body (<["model" := JStr modelID]>) b.
Definition injectStreamOptions (b : Body) : Body :=
  rewrite_body (λ m,
    let opts := match m !! "stream_options" with Some (JObj l) => obj_map l | _ => ∅ end in
    <["stream_options" := of_map (<["continuous_usage_stats" := JBool true]> (<["include_usage" := JBool true]> opts))]> m) b.

(** * What the handler reads of a request *)
(** [chatCompletionRequest]: the members are matched without regard to case, and the last
    one counts. *)
Record ChatRequest := mkChat { ch_Model : string; ch_Stream : bool }.
Definition decode_request (bytes : string) : option ChatRequest :=
  v ← parse_json bytes;
  l ← unmarshal_map v;
  model ← string_field "model" l;
  stream ← foldl (λ acc v, b ← acc; match v with JBool x => Some x | JNull => Some b | _ => None end) (Some false)
             (field_values "stream" l);
  Some (mkChat model stream).

(** * Responses *)
(** Also the model of a chunk ([processStreamChunk]). *)
Definition alias_model (alias_ : string) (m : gmap string json) : gmap string json :=
  match m !! "model" with Some _ => <["model" := JStr alias_]> m | None => m end.
Definition rewriteModelInResponse (alias_ : string) (b : Body) : Body := rewrite_body (alias_model alias_) b.
Record Usage := mkUsage { us_Prompt : Z; us_Completion : Z; us_Total : Z }.
Definition usage_field (name : string) (zero : Z) (l : list (string * json)) : option Z :=
  foldl (λ acc v, a ← acc; match v with JNull => Some a | _ => int_literal v end) (Some zero) (field_values name l).
(** A second [usage] member is decoded over the first. *)
Definition decode_usage (v : json) : option (option Usage) :=
  l ← unmarshal_map v;
  foldl (λ acc v, acc ≫= λ u,
    match v with
    | JNull => Some None
    | JObj f =>
        let u0 := default (mkUsage 0 0 0) u in
        p ← usage_field "prompt_tokens" (us_Prompt u0) f;
        c ← usage_field "completion_tokens" (us_Completion u0) f;
        t ← usage_field "total_tokens" (us_Total u0) f;
        Some (Some (mkUsage p c t))
    | _ => None
    end) (Some None) (field_values "usage" l).
Definition body_value (b : Body) : option json :=
  match b with RawBody s => parse_json s | ObjBody m => Some (of_map m) end.
(** The tokens [trackUsage] counts. *)
Definition usage_tokens (b : Body) : Z :=
  match body_value b ≫= decode_usage with Some (Some u) => us_Total u | _ => 0 end.

(** * Streams (server-sent events) *)
Inductive StreamLine := PassLine (line : string) | DoneLine | DataLine (data : Body).
(** A chunk with its usage, and what is sent on. *)
Definition processStreamChunk (data alias_ : string) : option (option Usage) * Body :=
  match unmarshal_object (RawBody data), parse_json data ≫= decode_usage with
  | Some m, Some u => (Some u, ObjBody (alias_model alias_ m))
  | _, _ => (None, RawBody data)
  end.
(** The lines of the backend up to the end marker: what the client gets and the usage totals
    that were seen. *)
Fixpoint stream_lines (alias_ : string) (lines : list string) : list StreamLine * list Z :=
  match lines with
  | [] => ([], [])
  | line :: lines' =>
      match strip_prefix "data: " line with
      | None => let '(out, totals) := stream_lines alias_ lines' in (PassLine line :: out, totals)
      | Some data =>
          if String.eqb data "[DONE]" then ([DoneLine], [])
          else
            let '(chunk, rewritten) := processStreamChunk data alias_ in
            let '(out, totals) := stream_lines alias_ lines' in
            (DataLine rewritten :: out, match chunk with Some (Some u) => us_Total u :: totals | _ => totals end)
      end
  end.
