(* ===== verification/Inference.v ===== *)
(** The inference gateway (inference-gateway/internal: snapshot, spiffe, workload, middleware,
    proxy and the routes of server): the in-memory snapshot of the control plane's views and
    its refreshes, the two ways in (API keys and supervisors' certificates), the rate-limit
    middleware and the handler that forwards a chat completion to a backend.

    Requests and refreshes are processes that share the snapshot, Redis and the control
    plane's database. The database and the clock form a world that others change at any
    moment; the worlds that were are kept, so that theorems can say when something held.
    Responses carry a status and an error code; logs and metrics are left out, and a response
    writer is always a flusher. *)
From Stdlib Require Import Ascii.
From S2P Require Import Prelude Json Runtime Workflow Consequence WorkerPool WorkData Dispatch IdentityData IdentityStore Spiffe Catalog RateLimit InferenceBody Proc.

(** * The shared state *)
Record World := mkWorld { wd_now : timestamp; wd_platform : PlatformDB; wd_dispatch : DispatchDB }.
(** [Cache]: the four maps and the time of the last refresh. *)
Record Cache := mkCache {
  ca_catalog : gmap string Entry; ca_apiKeys : gmap string uuid; ca_caps : gmap uuid (list Capability);
  ca_rl : gmap uuid RateLimits; ca_lastRefresh : option timestamp }.
Definition empty_cache : Cache := mkCache ∅ ∅ ∅ ∅ None.
(** The durable scope of a supervisor ([WorkloadContext]). *)
Record WorkloadContext := mkWorkload {
  wc_PoolID : uuid; wc_PoolKey : string; wc_RunID : uuid; wc_TurnID : uuid; wc_AssignedModel : string; wc_EffectiveIdentity : uuid }.
(** How a caller was admitted: by the hash of his key, or as the worker of a generation. *)
Inductive Caller := ByKey (hash : string) | ByWorker (w : WorkloadContext) (workerID : string) (generation : Z).
(** A request passed to a backend. *)
Record Sent := mkSent { sn_Caller : Caller; sn_Identity : uuid; sn_Model : string; sn_Entry : Entry; sn_URL : string; sn_Body : Body }.
(** [if_read_at] is where in the history the four views of the current snapshot were read. *)
Record InfSys := mkInf {
  if_past : list World; if_world : World; if_pending : bool; if_cache : Cache;
  if_read_at : option (nat * nat * nat * nat); if_redis : gmap string zkey; if_sent : list Sent }.
Definition history (s : InfSys) : list World := if_past s ++ [if_world s].
Definition change (f : World → World) (s : InfSys) : InfSys :=
  mkInf (history s) (f (if_world s)) true (if_cache s) (if_read_at s) (if_redis s) (if_sent s).
Definition set_pending (b : bool) (s : InfSys) : InfSys :=
  mkInf (if_past s) (if_world s) b (if_cache s) (if_read_at s) (if_redis s) (if_sent s).
Definition set_redis (r : gmap string zkey) (s : InfSys) : InfSys :=
  mkInf (if_past s) (if_world s) (if_pending s) (if_cache s) (if_read_at s) r (if_sent s).
Definition swap_cache (c : Cache) (at_ : nat * nat * nat * nat) (s : InfSys) : InfSys :=
  mkInf (if_past s) (if_world s) (if_pending s) c (Some at_) (if_redis s) (if_sent s).
Definition log_sent (r : Sent) (s : InfSys) : InfSys :=
  mkInf (if_past s) (if_world s) (if_pending s) (if_cache s) (if_read_at s) (if_redis s) (if_sent s ++ [r]).

(** Questions to the environment: whether a database read fails, the order of the rows of an
    unordered query, what became of a call of Redis and its clocks, whether a URL makes a
    request, and what a backend answers. *)
Inductive call_outcome := Answered | Unsent | Unanswered.
Record BackendAnswer := mkAnswer { ba_status : Z; ba_body : string; ba_complete : bool; ba_lines_sent : nat }.
Inductive InfQ : Type → Type :=
| QFails : InfQ bool
| QOrder : InfQ (list nat)
| QRedis : InfQ call_outcome
| QClock : InfQ Clock
| QRequestOk : InfQ bool
| QBackend : InfQ (option BackendAnswer).
Notation InfP A := (proc InfSys InfQ A).

(** * Reading the views (snapshot/store.go) *)
Definition may_read (obj : string) (d : PlatformDB) : bool :=
  let acl := gateway_acl (pf_identity d) in
  bool_decide (obj ∈ acl_Relations acl) && (negb (acl_Role acl) || bool_decide (obj ∈ acl_Select acl)).
Definition arrange {A} (order : list nat) (l : list A) : list A :=
  if bool_decide (order ≡ₚ seq 0 (length l)) then omap (λ i, l !! i) order else l.
Definition ListCatalog (order : list nat) (w : World) : option (list Entry) :=
  if may_read "catalog.effective_catalog" (wd_platform w)
  then Some (arrange order (scan_entry <$> effective_catalog (wd_platform w))) else None.
(** The view that an authority cutover drops. *)
Definition AllAPIKeys (w : World) : option (list (string * uuid)) :=
  if acl_LegacyView (gateway_acl (pf_identity (wd_platform w))) && may_read "identity.active_api_keys" (wd_platform w) then Some (active_api_keys (wd_now w) (wd_platform w)) else None.
Definition AllCapabilities (w : World) : option (list Capability) :=
  if may_read "permissions.effective_capabilities" (wd_platform w) then Some (effective_capabilities (wd_platform w)) else None.
Definition AllRateLimits (w : World) : option (list (uuid * RateLimits)) :=
  if may_read "permissions.effective_rate_limits" (wd_platform w) then effective_rate_limits (wd_platform w) else None.

(** * The snapshot (snapshot/cache.go) *)
Definition catalog_map (l : list Entry) : gmap string Entry := foldl (λ m e, <[en_ModelID e := e]> m) ∅ l.
Definition keys_map (l : list (string * uuid)) : gmap string uuid := foldl (λ m k, <[k.1 := k.2]> m) ∅ l.
Definition caps_map (l : list Capability) : gmap uuid (list Capability) :=
  foldl (λ m c, <[cp_IdentityID c := default [] (m !! cp_IdentityID c) ++ [c]]> m) ∅ l.
Definition limits_map (l : list (uuid * RateLimits)) : gmap uuid RateLimits := foldl (λ m r, <[r.1 := r.2]> m) ∅ l.
(** One query, and when it was answered. *)
Definition stamped {A} (f : World → option A) (s : InfSys) : option (A * nat) :=
  match f (if_world s) with Some a => Some (a, length (if_past s)) | None => None end.
Definition read_view {A} (f : World → option A) : InfP (option (A * nat)) :=
  fails ← ask QFails;
  if fails : bool then mret None else inspect (stamped f).
Definition or_fail {A} (p : InfP (option A)) (k : A → InfP bool) : InfP bool :=
  r ← p; match r with Some a => k a | None => mret false end.
Definition swap (entries : list Entry * nat) (keys : list (string * uuid) * nat) (caps : list Capability * nat)
    (rl : list (uuid * RateLimits) * nat) (s : InfSys) : InfSys :=
  swap_cache (mkCache (catalog_map entries.1) (keys_map keys.1) (caps_map caps.1) (limits_map rl.1) (Some (wd_now (if_world s))))
    (entries.2, keys.2, caps.2, rl.2) s.
Definition refresh : InfP bool :=
  order ← ask QOrder;
  or_fail (read_view (ListCatalog order)) (λ entries,
  or_fail (read_view AllAPIKeys) (λ keys,
  or_fail (read_view AllCapabilities) (λ caps,
  or_fail (read_view AllRateLimits) (λ rl,
  update (swap entries keys caps rl);; mret true)))).
(** [Start]: retried until it succeeds; [n] is how many attempts the context allows. *)
Fixpoint Start (n : nat) : InfP bool :=
  match n with
  | O => mret false
  | S n' => ok ← refresh; if ok : bool then mret true else Start n'
  end.
(** A round of [serveConn] and of [pollLoop]: the former waits for a notification, which every
    change of the tables behind the views sends. *)
Definition await_notification : InfP () := Atomic (λ s, if if_pending s then Some ((), set_pending false s) else None) Ret.
Definition listen_round : InfP bool := await_notification;; refresh.
Definition poll_round : InfP bool := refresh.
Definition Fresh (maxStaleness : Z) (s : InfSys) : bool :=
  match ca_lastRefresh (if_cache s) with Some t => wd_now (if_world s) - t <=? maxStaleness | None => false end.
(** The readiness probe (server/routes.go). *)
Definition readinessHandler (staleness : Z) : InfP Z :=
  fresh ← inspect (Fresh staleness); mret (if fresh : bool then 200 else 503).
Definition get_entry (modelID : string) : InfP (option Entry) := inspect (λ s, ca_catalog (if_cache s) !! modelID).
Definition IdentityByAPIKey (keyHash : string) : InfP (option uuid) := inspect (λ s, ca_apiKeys (if_cache s) !! keyHash).
Definition Capabilities (identityID : uuid) : InfP (list Capability) :=
  inspect (λ s, default [] (ca_caps (if_cache s) !! identityID)).
Definition cached_limits (identityID : uuid) : InfP (option RateLimits) := inspect (λ s, ca_rl (if_cache s) !! identityID).

(** * Requests and replies *)
(** The parts of a URL the certificate's identity is read from. *)
Record WURL := mkWURL { wu_Scheme : string; wu_Host : string; wu_User : bool; wu_Port : string; wu_RawQuery : string;
  wu_Fragment : string; wu_Opaque : string; wu_Path : string }.
Record Request := mkRequest {
  rq_Authorization : string; rq_AdminKey : string; rq_TLS : option (list (list (string * option WURL)));
  rq_RunID : string; rq_TurnID : string; rq_Generation : string; rq_Body : option string }.
Inductive Reply :=
| Refused (status : Z) (code : string)
| Proxied (status : Z) (b : Body)
| Streamed (lines : list StreamLine) (added : list Z)
| ModelList (ids : list string)
| Snapshot (entries : list Entry).

(** * Supervisors' certificates (spiffe/spiffe.go) *)
Record WIdentity := mkWIdentity { wi_SPIFFEID : string; wi_PoolUID : string; wi_WorkerID : string }.
Definition ParseSupervisor (spiffeID : string) (parsed : option WURL) (trustDomain : string) : option WIdentity :=
  let trustDomain := if String.eqb trustDomain EmptyString then DefaultTrustDomain else trustDomain in
  u ← parsed;
  if negb (String.eqb (wu_Scheme u) "spiffe") || negb (String.eqb (wu_Host u) trustDomain) || wu_User u ||
     negb (String.eqb (wu_Port u) EmptyString) || negb (String.eqb (wu_RawQuery u) EmptyString) ||
     negb (String.eqb (wu_Fragment u) EmptyString) || negb (String.eqb (wu_Opaque u) EmptyString)
  then None
  else match splitPath (wu_Path u) with
       | ["pools"; pool; "workers"; worker] => Some (mkWIdentity spiffeID pool worker)
       | _ => None
       end.
(** Exactly one URI SAN on the leaf. *)
Definition supervisor_of_certs (certs : list (list (string * option WURL))) (trustDomain : string) : option WIdentity :=
  match certs with
  | [(uri, parsed)] :: _ => ParseSupervisor uri parsed trustDomain
  | _ => None
  end.
Definition supervisor_of_conn (cs : option (list (list (string * option WURL)))) (trustDomain : string) : option WIdentity :=
  certs ← cs; supervisor_of_certs certs trustDomain.

(** * The durable scope of a supervisor (workload/store.go) *)
Record TurnScope := mkScope { sp_RunID : uuid; sp_TurnID : uuid; sp_AssignedModel : string; sp_ScopeIdentityID : uuid }.
Inductive ScopeErr := ErrScopeDenied | ErrInfrastructure.
(** The join; [runID] is compared as text. *)
Definition turn_scope (d : DispatchDB) (poolID runID turnID workerID : string) (generation : Z) : option TurnScope :=
  t ← turns (wk_rt (dp_wk d)) !! turnID;
  pool ← pool_assignments (dp_wk d) !! turn_RunID t;
  wr ← workflow_runs (wk_rt (dp_wk d)) !! turn_RunID t;
  ta ← turn_assignments d !! turnID;
  if bool_decide (turn_State t = TurnRunning ∧ turn_RunID t = runID ∧ pool = poolID ∧ as_State ta = AssignmentActive ∧
       as_RunID ta = turn_RunID t ∧ as_PoolID ta = pool ∧ as_WorkerID ta = workerID ∧ as_FencingGeneration ta = generation)
  then Some (mkScope (turn_RunID t) (turn_ID t) (default EmptyString (turn_Model t)) (run_ScopeIdentityID wr)) else None.
Definition pool_by_prefix (d : DispatchDB) (spiffeID : string) : option Pool :=
  min_by (λ p, - Z.of_nat (String.length (po_SpiffeIDPrefix p))) (select (prefix_matches spiffeID) (pools d)).
(** [strconv.ParseUint(s, 10, 63)]. *)
Definition ParseUint63 (s : string) : option Z :=
  let '(v, n, rest) := Json.digits 0 0 s in
  if (n =? 0) || negb (String.eqb rest EmptyString) || (int8_max <? v) then None else Some v.

Section gateway.
(** SHA-256 in hexadecimal; [uuid.Parse] of the uuid package, and the conversion to [uuid] of
    PostgreSQL, which gives the canonical text. *)
Context (sha256hex : string → string) (uuid_Parse : string → bool) (pg_uuid : string → option uuid).

(** A read of the live tables. *)
Definition live {A} (f : DispatchDB → ScopeErr + A) : InfP (ScopeErr + A) :=
  fails ← ask QFails;
  if fails : bool then mret (inl ErrInfrastructure) else inspect (λ s, f (wd_dispatch (if_world s))).
Definition ResolvePoolBySpiffePrefix (spiffeID : string) : InfP (ScopeErr + Pool) :=
  live (λ d, match pool_by_prefix d spiffeID with Some p => inr p | None => inl ErrScopeDenied end).
Definition ResolveTurnScope (poolID runID turnID workerID : string) (generation : Z) : InfP (ScopeErr + TurnScope) :=
  if negb (uuid_Parse runID) || negb (uuid_Parse turnID) then mret (inl ErrScopeDenied)
  else live (λ d,
    match pg_uuid turnID with
    | None => inl ErrInfrastructure
    | Some turn =>
        match turn_scope d poolID runID turn workerID generation with Some ts => inr ts | None => inl ErrScopeDenied end
    end).

(** * Authentication (middleware/auth.go, workload.go) *)
Definition HashKey (token : string) : string := sha256hex token.
(** [strings.SplitN(header, " ", 2)] has two parts when there is a space. *)
Fixpoint cut_space (s : string) : option (string * string) :=
  match s with
  | EmptyString => None
  | String c s' =>
      if Ascii.eqb c " "%char then Some (EmptyString, s') else '(a, b) ← cut_space s'; Some (String c a, b)
  end.
Definition extractBearerToken (header : string) : string :=
  match cut_space header with
  | Some (scheme, rest) => if String.eqb (lower scheme) "bearer" then TrimSpace rest else EmptyString
  | None => EmptyString
  end.
Definition Auth (rq : Request) (next : Caller → uuid → InfP Reply) : InfP Reply :=
  let token := extractBearerToken (rq_Authorization rq) in
  if String.eqb token EmptyString then mret (Refused 401 "invalid_api_key")
  else
    id ← IdentityByAPIKey (HashKey token);
    match id with
    | None => mret (Refused 401 "invalid_api_key")
    | Some identityID => next (ByKey (HashKey token)) identityID
    end.
Definition AdminAuth (adminKey : string) (rq : Request) (next : InfP Reply) : InfP Reply :=
  if String.eqb (rq_AdminKey rq) EmptyString || negb (String.eqb (rq_AdminKey rq) adminKey)
  then mret (Refused 401 "invalid_admin_key") else next.
Definition scope_refusal (e : ScopeErr) (denied : string) : Reply :=
  match e with ErrInfrastructure => Refused 503 "scope_unavailable" | ErrScopeDenied => Refused 403 denied end.
Definition WorkloadAuth (trustDomain : string) (rq : Request) (next : Caller → uuid → InfP Reply) : InfP Reply :=
  match supervisor_of_conn (rq_TLS rq) trustDomain with
  | None => mret (Refused 403 "invalid_workload_identity")
  | Some id =>
      pool ← ResolvePoolBySpiffePrefix (wi_SPIFFEID id);
      match pool with
      | inl e => mret (scope_refusal e "pool_not_authorized")
      | inr p =>
          if String.eqb (rq_RunID rq) EmptyString || String.eqb (rq_TurnID rq) EmptyString ||
             String.eqb (rq_Generation rq) EmptyString
          then mret (Refused 403 "missing_turn_context")
          else
            match ParseUint63 (rq_Generation rq) with
            | None => mret (Refused 403 "missing_turn_context")
            | Some generation =>
                ts ← ResolveTurnScope (po_ID p) (rq_RunID rq) (rq_TurnID rq) (wi_WorkerID id) generation;
                match ts with
                | inl e => mret (scope_refusal e "turn_not_authorized")
                | inr t =>
                    let wc := mkWorkload (po_ID p) (po_Key p) (sp_RunID t) (sp_TurnID t) (sp_AssignedModel t) (sp_ScopeIdentityID t) in
                    next (ByWorker wc (wi_WorkerID id) generation) (sp_ScopeIdentityID t)
                end
            end
      end
  end.

(** * Rate limits (middleware/ratelimit.go) *)
Definition redis_call {A} (f : Clock → gmap string zkey → A * gmap string zkey) : InfP (option A) :=
  o ← ask QRedis;
  c ← ask QClock;
  match o with
  | Unsent => mret None
  | Answered => atomically (λ s, let '(a, r) := f c (if_redis s) in (Some a, set_redis r s))
  | Unanswered => atomically (λ s, let '(_, r) := f c (if_redis s) in (None, set_redis r s))
  end.
(** A limiter that cannot be asked lets the request pass. *)
Definition RateLimit (limiter : bool) (identityID : uuid) (next : InfP Reply) : InfP Reply :=
  if negb limiter || String.eqb identityID EmptyString then next
  else
    rl ← cached_limits identityID;
    match rl with
    | None => next
    | Some l =>
        rpm ← redis_call (λ c, CheckRPM c identityID (rl_RPM l));
        match rpm with
        | None => next
        | Some res =>
            if negb (rs_Allowed res) then mret (Refused 429 "rate_limit_exceeded")
            else
              tpm ← redis_call (λ c r, (CheckTPM c identityID (rl_TPM l) r, r));
              match tpm with
              | None => next
              | Some res' => if negb (rs_Allowed res') then mret (Refused 429 "rate_limit_exceeded") else next
              end
        end
    end.

(** * The proxy (proxy/handler.go, streaming.go) *)
Definition allowsModel (caps : list Capability) (model : string) : bool :=
  existsb (λ c, String.eqb (cp_Resource c) "*" || String.eqb (cp_Resource c) "model:*" ||
                String.eqb (cp_Resource c) ("model:" +:+ model)) caps.
Definition trackUsage (limiter : bool) (identityID : uuid) (b : Body) : InfP () :=
  let tokens := usage_tokens b in
  if limiter && (0 <? tokens) && negb (String.eqb identityID EmptyString)
  then redis_call (λ c r, ((), IncrementTPM c identityID tokens r));; mret ()
  else mret ().
(** [bufio.ScanLines]: lines without their end of line. *)
Definition strip_cr (s : string) : string :=
  match reverse_bytes s with String c t => if Ascii.eqb c (chr 13) then reverse_bytes t else s | EmptyString => s end.
Definition scan_lines (s : string) : list string :=
  let l := split_byte (chr 10) s in
  strip_cr <$> match last l with Some EmptyString => removelast l | _ => l end.
Definition completions_url (e : Entry) : string := en_BackendURL e +:+ "/v1/chat/completions".
Definition handleNonStreaming (limiter : bool) (caller : Caller) (identityID : uuid) (model : string) (e : Entry) (b : Body) : InfP Reply :=
  ok ← ask QRequestOk;
  if negb ok then mret (Refused 500 "server_error")
  else
    update (log_sent (mkSent caller identityID model e (completions_url e) b));;
    answer ← ask QBackend;
    match answer with
    | None => mret (Refused 502 "backend_error")
    | Some a =>
        if negb (ba_complete a) then mret (Refused 502 "backend_error")
        else
          let respBody := rewriteModelInResponse (en_ModelID e) (RawBody (ba_body a)) in
          trackUsage limiter identityID respBody;;
          mret (Proxied (ba_status a) respBody)
    end.
Definition handleStreaming (limiter : bool) (caller : Caller) (identityID : uuid) (model : string) (e : Entry) (b : Body) : InfP Reply :=
  let b := injectStreamOptions b in
  ok ← ask QRequestOk;
  if negb ok then mret (Refused 500 "server_error")
  else
    update (log_sent (mkSent caller identityID model e (completions_url e) b));;
    answer ← ask QBackend;
    match answer with
    | None => mret (Refused 502 "backend_error")
    | Some a =>
        if negb (ba_status a =? 200) then mret (Proxied (ba_status a) (rewriteModelInResponse (en_ModelID e) (RawBody (ba_body a))))
        else
          let '(out, totals) := stream_lines (en_ModelID e) (take (ba_lines_sent a) (scan_lines (ba_body a))) in
          mret (Streamed out (if limiter && negb (String.eqb identityID EmptyString) then stream_deltas 0 totals else []))
    end.
Definition model_mismatch (caller : Caller) (model : string) : bool :=
  match caller with ByWorker wc _ _ => negb (String.eqb model (wc_AssignedModel wc)) | ByKey _ => false end.
(** The body that is forwarded for an alias. *)
Definition forwarded_body (e : Entry) (bytes : string) : Body :=
  let b := ApplyRequestTransforms e (RawBody bytes) in
  if tf_RewriteModelName (en_Transforms e) && negb (String.eqb (en_BackendModelID e) EmptyString)
  then rewriteModelInRequest (en_BackendModelID e) b else b.
Definition ChatCompletions (limiter : bool) (rq : Request) (caller : Caller) (identityID : uuid) : InfP Reply :=
  match rq_Body rq with
  | None => mret (Refused 400 "invalid_request_error")
  | Some bytes =>
      match decode_request bytes with
      | None => mret (Refused 400 "invalid_request_error")
      | Some req =>
          if String.eqb (ch_Model req) EmptyString then mret (Refused 400 "invalid_request_error")
          else if model_mismatch caller (ch_Model req) then mret (Refused 403 "model_mismatch")
          else
            caps ← Capabilities identityID;
            if negb (allowsModel caps (ch_Model req)) then mret (Refused 403 "model_not_allowed")
            else
              entry ← get_entry (ch_Model req);
              match entry with
              | None => mret (Refused 404 "model_not_found")
              | Some e =>
                  if negb (en_Available e) then mret (Refused 503 "service_unavailable")
                  else
                    let b := forwarded_body e bytes in
                    if ch_Stream req then handleStreaming limiter caller identityID (ch_Model req) e b
                    else handleNonStreaming limiter caller identityID (ch_Model req) e b
              end
      end
  end.
(** [Cache.ListCatalog], in some order of the map. *)
Definition cached_entries (s : InfSys) : list Entry := (map_to_list (ca_catalog (if_cache s))).*2.
Definition ListModels : InfP Reply :=
  l ← inspect cached_entries;
  mret (ModelList (en_ModelID <$> filter (λ e, en_Available e = true) l)).

(** * The routes (server/routes.go) *)
Inductive Route := PostChat | GetModels.
Definition handler (limiter : bool) (rt : Route) (rq : Request) (caller : Caller) (identityID : uuid) : InfP Reply :=
  match rt with PostChat => ChatCompletions limiter rq caller identityID | GetModels => ListModels end.
Definition newRouter (limiter : bool) (rt : Route) (rq : Request) : InfP Reply :=
  Auth rq (λ caller id, RateLimit limiter id (handler limiter rt rq caller id)).
Definition newWorkloadRouter (limiter : bool) (trustDomain : string) (rt : Route) (rq : Request) : InfP Reply :=
  WorkloadAuth trustDomain rq (λ caller id, RateLimit limiter id (handler limiter rt rq caller id)).
(** The admin routes ask for a key only when one is configured. *)
Definition admin_snapshot (adminKey : string) (rq : Request) : InfP Reply :=
  let next := l ← inspect cached_entries; mret (Snapshot l) in
  if String.eqb adminKey EmptyString then next else AdminAuth adminKey rq next.
End gateway.
