(* ===== verification/InferenceFacts.v ===== *)
(** The inference gateway under any interleaving of requests, refreshes and changes of the
    control plane: its invariant and the theorems on who reaches a backend. *)
From Stdlib Require Import Ascii.
From S2P Require Import Prelude Json Runtime Workflow Consequence WorkerPool WorkData Dispatch IdentityData IdentityStore Spiffe Catalog RateLimit InferenceBody Proc ProcLogic Inference.

(** * Maps built by a loop *)
Section built_maps.
Context {A B : Type} (key : A → string) (val : A → B).
Definition build (m : gmap string B) (l : list A) : gmap string B := foldl (λ m x, <[key x := val x]> m) m l.
Lemma build_Some m l k v :
  build m l !! k = Some v → (∃ x, x ∈ l ∧ key x = k ∧ val x = v) ∨ m !! k = Some v.
Proof.
  revert m. induction l as [|x l IH]; intros m; cbn; [by right|].
  intros [(y & Hy & Hk)|Hm]%IH; [left; exists y; split; [by right|done]|].
  apply lookup_insert_Some in Hm as [[<- <-]|[_ Hm]]; [left; exists x; split; [left|done]|by right].
Qed.
Lemma build_keeps m l k : is_Some (m !! k) → is_Some (build m l !! k).
Proof.
  revert m. induction l as [|x l IH]; intros m Hm; cbn; [done|]. apply IH.
  destruct (decide (key x = k)) as [<-|Hne]; [by rewrite lookup_insert_eq|by rewrite lookup_insert_ne].
Qed.
Lemma build_is_Some m l x : x ∈ l → is_Some (build m l !! key x).
Proof.
  intros Hx. revert m. induction Hx as [x l|x y l _ IH]; intros m; cbn; [|apply IH].
  apply build_keeps. by rewrite lookup_insert_eq.
Qed.
(** The last entry of a key counts; with distinct keys, the entry. *)
Lemma build_unique m l x : NoDup (key <$> l) → x ∈ l → build m l !! key x = Some (val x).
Proof.
  intros Hnd Hx. revert m Hnd. induction Hx as [x l|x y l Hx IH]; intros m Hnd; cbn in *; apply NoDup_cons in Hnd as [Hn Hnd].
  - assert (∀ m, m !! key x = Some (val x) → build m l !! key x = Some (val x)) as Hkeep; [|apply Hkeep, lookup_insert_eq].
    clear Hnd. induction l as [|y l IHl]; intros m' Hm; cbn in *; [done|]. apply not_elem_of_cons in Hn as [Hne Hn].
    apply IHl; [done|]. by rewrite lookup_insert_ne.
  - by apply IH.
Qed.
End built_maps.
Lemma caps_map_Some l (m : gmap uuid (list Capability)) k cs c :
  foldl (λ m c, <[cp_IdentityID c := default [] (m !! cp_IdentityID c) ++ [c]]> m) m l !! k = Some cs →
  c ∈ cs → (c ∈ l ∧ cp_IdentityID c = k) ∨ ∃ cs', m !! k = Some cs' ∧ c ∈ cs'.
Proof.
  revert m. induction l as [|x l IH]; intros m; cbn; [by eauto|]. intros H Hc.
  destruct (IH _ H Hc) as [[Hin Hid]|(cs' & Hm & Hc')]; [left; split; [by right|done]|].
  apply lookup_insert_Some in Hm as [[<- <-]|[_ Hm]]; [|by eauto].
  apply elem_of_app in Hc' as [Hc'|Hc']; [|apply list_elem_of_singleton in Hc' as ->; left; split; [left|done]].
  destruct (m !! cp_IdentityID x) as [cs'|] eqn:E; cbn in Hc'; [by eauto|by apply not_elem_of_nil in Hc'].
Qed.
Lemma elem_of_arrange {A} order (l : list A) x : x ∈ arrange order l → x ∈ l.
Proof.
  unfold arrange. case_bool_decide; [|done]. rewrite list_elem_of_omap. intros (i & _ & Hi). by eapply list_elem_of_lookup_2.
Qed.
Lemma arrange_perm {A} order (l : list A) : arrange order l ≡ₚ l.
Proof.
  unfold arrange. case_bool_decide as Hp; [|done]. rewrite Hp. clear. apply reflexive_eq.
  induction l as [|x l IH] using rev_ind; [done|]. rewrite length_app. cbn. rewrite Nat.add_1_r, seq_S. cbn.
  rewrite omap_app. cbn. rewrite list_lookup_middle by done. cbn. f_equal. rewrite <- IH at 2.
  apply list_omap_ext, Forall_Forall2_diag, Forall_forall. intros i Hi%elem_of_seq. by rewrite lookup_app_l by lia.
Qed.

(** * What was *)
(** The history only grows. *)
Definition grows (s s' : InfSys) : Prop := history s `prefix_of` history s'.
Lemma grows_refl s : grows s s. Proof. unfold grows. done. Qed.
Lemma grows_trans a b c : grows a b → grows b c → grows a c. Proof. unfold grows. apply transitivity. Qed.
Lemma length_history s : length (history s) = S (length (if_past s)).
Proof. unfold history. rewrite length_app. cbn. lia. Qed.
Lemma grows_past s s' : grows s s' → (length (if_past s) ≤ length (if_past s'))%nat.
Proof. intros H%prefix_length. rewrite !length_history in H. lia. Qed.
Definition world_at (i : nat) (w : World) (s : InfSys) : Prop := history s !! i = Some w.
Lemma world_at_grows i w s s' : grows s s' → world_at i w s → world_at i w s'.
Proof. intros Hg Hw. exact (prefix_lookup_Some _ _ _ _ Hw Hg). Qed.
Lemma world_now s : world_at (length (if_past s)) (if_world s) s.
Proof. unfold world_at, history. by rewrite list_lookup_middle. Qed.
Lemma grows_change f s : grows s (change f s).
Proof. unfold grows, history. cbn. by apply prefix_app_r. Qed.

(** [i] is the instant at which [f] gave [a]. *)
Definition read_at {A} (f : World → option A) (a : A) (i : nat) (s : InfSys) : Prop :=
  ∃ w, world_at i w s ∧ f w = Some a.
Lemma read_at_grows {A} (f : World → option A) a i s s' : grows s s' → read_at f a i s → read_at f a i s'.
Proof. intros Hg (w & Hw & Hf). exists w. split; [by eapply world_at_grows|done]. Qed.

(** * The invariant *)
(** The snapshot: every map is a view as it was when it was read, in the order of the reads. *)
Definition snapshot_of (c : Cache) (at_ : nat * nat * nat * nat) (s : InfSys) : Prop :=
  let '(i, j, k, l) := at_ in
  ((i ≤ j) ∧ (j ≤ k) ∧ (k ≤ l) ∧ (l ≤ length (if_past s)))%nat ∧
  ∃ order entries keys caps rl,
    read_at (ListCatalog order) entries i s ∧ ca_catalog c = catalog_map entries ∧
    read_at AllAPIKeys keys j s ∧ ca_apiKeys c = keys_map keys ∧
    read_at AllCapabilities caps k s ∧ ca_caps c = caps_map caps ∧
    read_at AllRateLimits rl l s ∧ ca_rl c = limits_map rl.
Lemma snapshot_grows c at_ s s' : grows s s' → snapshot_of c at_ s → snapshot_of c at_ s'.
Proof.
  intros Hg. destruct at_ as [[[i j] k] l]. intros ((?&?&?&?) & order & entries & keys & caps & rl & Hall). split.
  - apply grows_past in Hg. lia.
  - exists order, entries, keys, caps, rl. destruct Hall as (?&?&?&?&?&?&?&?). split_and!; try done; by eapply read_at_grows.
Qed.
Definition cache_ok (s : InfSys) : Prop :=
  match if_read_at s with None => if_cache s = empty_cache | Some at_ => snapshot_of (if_cache s) at_ s end.

(** Something that held in a world that was. *)
Definition was (P : World → Prop) (s : InfSys) : Prop := ∃ i w, world_at i w s ∧ P w.
Lemma was_grows P s s' : grows s s' → was P s → was P s'.
Proof. intros Hg (i & w & Hw & HP). exists i, w. split; [by eapply world_at_grows|done]. Qed.
Lemma read_at_was {A} (f : World → option A) a i s (P : World → Prop) : (∀ w, f w = Some a → P w) → read_at f a i s → was P s.
Proof. intros HP (w & Hw & Hf). exists i, w. auto. Qed.
Definition key_of (hash : string) (identityID : uuid) (w : World) : Prop :=
  (hash, identityID) ∈ active_api_keys (wd_now w) (wd_platform w).
Definition active_in (identityID : uuid) (w : World) : Prop :=
  ∃ r, IdentityData.identities (pf_identity (wd_platform w)) !! identityID = Some r ∧ ir_DeletedAt r = None.
Definition offers (e : Entry) (w : World) : Prop :=
  ∃ ce, ce ∈ effective_catalog (wd_platform w) ∧ scan_entry ce = e ∧ ce_Available ce = true.
Definition holds_turn (wc : WorkloadContext) (worker : string) (generation : Z) (w : World) : Prop :=
  ∃ turn, turn_scope (wd_dispatch w) (wc_PoolID wc) (wc_RunID wc) turn worker generation =
          Some (mkScope (wc_RunID wc) (wc_TurnID wc) (wc_AssignedModel wc) (wc_EffectiveIdentity wc)).
Definition admitted (c : Caller) (identityID : uuid) (model : string) (s : InfSys) : Prop :=
  match c with
  | ByKey hash => was (key_of hash identityID) s
  | ByWorker wc worker generation =>
      wc_EffectiveIdentity wc = identityID ∧ wc_AssignedModel wc = model ∧ was (holds_turn wc worker generation) s
  end.
(** The body that was forwarded, for a request that named the model. *)
Definition body_for (model : string) (e : Entry) (b : Body) : Prop :=
  ∃ bytes req, decode_request bytes = Some req ∧ ch_Model req = model ∧
    b = if ch_Stream req then injectStreamOptions (forwarded_body e bytes) else forwarded_body e bytes.
Definition authorized (r : Sent) (s : InfSys) : Prop :=
  admitted (sn_Caller r) (sn_Identity r) (sn_Model r) s ∧ was (active_in (sn_Identity r)) s ∧
  was (offers (sn_Entry r)) s ∧ en_ModelID (sn_Entry r) = sn_Model r ∧
  sn_URL r = completions_url (sn_Entry r) ∧ body_for (sn_Model r) (sn_Entry r) (sn_Body r).
Lemma admitted_grows c id model s s' : grows s s' → admitted c id model s → admitted c id model s'.
Proof. intros Hg. destruct c; cbn; [by apply was_grows|]. intros (? & ? & ?). split_and!; try done. by eapply was_grows. Qed.
Lemma authorized_grows r s s' : grows s s' → authorized r s → authorized r s'.
Proof.
  intros Hg (H1 & H2 & H3 & H4). split_and!; [by eapply admitted_grows|by eapply was_grows|by eapply was_grows|apply H4..].
Qed.
Definition inf_inv (s : InfSys) : Prop := cache_ok s ∧ Forall (λ r, authorized r s) (if_sent s).

(** * Steps *)
(** Every process may grow the history; what a process knows is monotone in it. *)
Definition step_ok (_ : nat) : InfSys → InfSys → Prop := grows.
Definition mono (K : InfSys → Prop) : Prop := ∀ s s', grows s s' → K s → K s'.
#[local] Notation inf_owns := (owns (Q:=InfQ) inf_inv step_ok).
Lemma mono_undisturbed me K : mono K → undisturbed inf_inv step_ok me K.
Proof. intros HK j s s' _ _ _ Hg. by apply HK. Qed.
Lemma mono_true : mono (λ _, True). Proof. by intros ???. Qed.
Lemma mono_and K K' : mono K → mono K' → mono (λ s, K s ∧ K' s).
Proof. intros H1 H2 s s' Hg [HK HK']. split; [by eapply H1|by eapply H2]. Qed.
Lemma mono_pure (P : Prop) : mono (λ _, P). Proof. by intros ???. Qed.
Lemma mono_past n : mono (λ s, (n ≤ length (if_past s))%nat).
Proof. intros s s' Hg%grows_past. lia. Qed.

(** A step that leaves the world, the snapshot and the sent requests alone. *)
Definition inert (s s' : InfSys) : Prop :=
  if_past s' = if_past s ∧ if_world s' = if_world s ∧ if_cache s' = if_cache s ∧ if_read_at s' = if_read_at s ∧ if_sent s' = if_sent s.
Lemma inert_history s s' : inert s s' → history s' = history s.
Proof. unfold history. by intros (-> & -> & _). Qed.
Lemma inert_grows s s' : inert s s' → grows s s'.
Proof. intros H%inert_history. unfold grows. by rewrite H. Qed.
Lemma cache_ok_grows s s' : grows s s' → if_cache s' = if_cache s → if_read_at s' = if_read_at s → cache_ok s → cache_ok s'.
Proof. unfold cache_ok. intros Hg -> ->. destruct (if_read_at s); [by apply snapshot_grows|done]. Qed.
Lemma sent_grows s s' l : grows s s' → Forall (λ r, authorized r s) l → Forall (λ r, authorized r s') l.
Proof. intros Hg Hl. eapply Forall_impl; [exact Hl|]. intros r. by apply authorized_grows. Qed.
Lemma inert_inv s s' : inert s s' → inf_inv s → inf_inv s'.
Proof.
  intros Hi [Hc Hs]. pose proof (inert_grows _ _ Hi) as Hg. destruct Hi as (_ & _ & H1 & H2 & H3). split.
  - by eapply cache_ok_grows.
  - rewrite H3. by eapply sent_grows.
Qed.
Lemma owns_inert {X} me (f : InfSys → X * InfSys) K Φ :
  (∀ s, inf_inv s → K s → inert s (f s).2 ∧ Φ (f s).1 (f s).2) → (∀ r, mono (Φ r)) → inf_owns me (atomically f) K Φ.
Proof.
  intros Hf Hm. apply owns_atomically; [|intros r; by apply mono_undisturbed]. intros s Hs HK.
  destruct (Hf s Hs HK) as [Hi HΦ]. split_and!; [by eapply inert_inv|by apply inert_grows|done].
Qed.
Lemma owns_inspect {X} me (f : InfSys → X) K Φ :
  (∀ s, inf_inv s → K s → Φ (f s) s) → (∀ r, mono (Φ r)) → inf_owns me (inspect f) K Φ.
Proof. intros Hf Hm. apply owns_inert; [|done]. intros s Hs HK. split; [done|by apply Hf]. Qed.

(** * Changes and refreshes *)
Lemma owns_change me f : inf_owns me (update (change f)) (λ _, True) (λ _ _, True).
Proof.
  apply owns_atomically; [|intros; apply mono_undisturbed, mono_true]. intros s [Hc Hs] _. cbn.
  split; [|done]. split; [|apply grows_change]. split; [by eapply cache_ok_grows, Hc; [apply grows_change|..]|].
  cbn. by eapply sent_grows, Hs; apply grows_change.
Qed.
Lemma owns_read_view {A} me (f : World → option A) n K :
  mono K →
  inf_owns me (read_view f) (λ s, (n ≤ length (if_past s))%nat ∧ K s)
    (λ o s, match o with
            | Some (a, i) => ((n ≤ i)%nat ∧ (i ≤ length (if_past s))%nat) ∧ read_at f a i s ∧ K s
            | None => True
            end).
Proof.
  intros HK. unfold read_view. apply owns_ask. intros [|]; [by apply owns_ret|]. apply owns_inspect.
  - intros s _ [Hn Hks]. unfold stamped. destruct (f (if_world s)) as [a|] eqn:E; [|done].
    split_and!; [done|done| |done]. exists (if_world s). split; [apply world_now|done].
  - intros [[a i]|]; [|apply mono_true]. repeat apply mono_and; [apply mono_pure|apply mono_past| |done].
    intros s s'. apply read_at_grows.
Qed.
Lemma owns_or_fail {A} me (p : InfP (option A)) k K (Ψ : A → InfSys → Prop) :
  inf_owns me p K (λ o s, match o with Some a => Ψ a s | None => True end) →
  (∀ a, inf_owns me (k a) (Ψ a) (λ _ _, True)) → inf_owns me (or_fail p k) K (λ _ _, True).
Proof. intros Hp Hk. eapply owns_bind; [exact Hp|]. intros [a|]; [apply Hk|by apply owns_ret]. Qed.
Lemma swap_inv order entries keys caps rl s :
  ((entries.2 ≤ keys.2) ∧ (keys.2 ≤ caps.2) ∧ (caps.2 ≤ rl.2) ∧ (rl.2 ≤ length (if_past s)))%nat →
  read_at (ListCatalog order) entries.1 entries.2 s → read_at AllAPIKeys keys.1 keys.2 s →
  read_at AllCapabilities caps.1 caps.2 s → read_at AllRateLimits rl.1 rl.2 s →
  inf_inv s → inf_inv (swap entries keys caps rl s).
Proof.
  intros Hle H1 H2 H3 H4 [_ Hs]. split; [|exact Hs]. unfold cache_ok. cbn. split; [exact Hle|].
  exists order, entries.1, keys.1, caps.1, rl.1. done.
Qed.
Lemma owns_refresh me : inf_owns me refresh (λ _, True) (λ _ _, True).
Proof.
  unfold refresh. apply owns_ask. intros order.
  eapply owns_or_fail; [eapply owns_pre; [apply (owns_read_view me _ 0 (λ _, True)), mono_true|intros s _ _; split; [lia|done]]|].
  intros [entries i]. eapply owns_or_fail.
  { eapply owns_pre; [apply (owns_read_view me AllAPIKeys i (λ s, read_at (ListCatalog order) entries i s))|].
    - intros s s'. apply read_at_grows.
    - intros s _ ([_ ?] & ? & _). done. }
  intros [keys j]. eapply owns_or_fail.
  { eapply owns_pre; [apply (owns_read_view me AllCapabilities j (λ s, (i ≤ j)%nat ∧ read_at (ListCatalog order) entries i s ∧ read_at AllAPIKeys keys j s))|].
    - repeat apply mono_and; [apply mono_pure|intros s s'; apply read_at_grows..].
    - intros s _ ([? ?] & ? & ?). done. }
  intros [caps k]. eapply owns_or_fail.
  { eapply owns_pre; [apply (owns_read_view me AllRateLimits k (λ s, (i ≤ j)%nat ∧ (j ≤ k)%nat ∧ read_at (ListCatalog order) entries i s ∧ read_at AllAPIKeys keys j s ∧ read_at AllCapabilities caps k s))|].
    - repeat apply mono_and; [apply mono_pure|apply mono_pure|intros s s'; apply read_at_grows..].
    - intros s _ ([? ?] & ? & ? & ? & ?). done. }
  intros [rl l]. eapply owns_bind; [|intros ?; by apply owns_ret].
  apply owns_atomically; [|intros; apply mono_undisturbed, mono_true].
  intros s Hs ([? ?] & Hrl & ? & ? & ? & ? & ?). split; [|done]. split; [|exact (grows_refl s)].
  by apply (swap_inv order).
Qed.
Lemma owns_listen me : inf_owns me listen_round (λ _, True) (λ _ _, True).
Proof.
  eapply (owns_bind _ _ me await_notification (λ _, refresh) _ (λ _ _, True)); [|intros ?; apply owns_refresh].
  intros s r s' Hs _. cbn. destruct (if_pending s); [|done]. intros [= <- <-].
  assert (inert s (set_pending false s)) as Hi by done. split; [by split; [eapply inert_inv|apply inert_grows]|].
  exists (λ _, True). split_and!; [apply mono_undisturbed, mono_true|done|by intros ???].
Qed.
Lemma owns_Start me n : inf_owns me (Start n) (λ _, True) (λ _ _, True).
Proof.
  induction n as [|n IH]; cbn [Start]; [by apply owns_ret|].
  eapply owns_bind; [apply owns_refresh|]. intros [|]; [by apply owns_ret|exact IH].
Qed.

(** * What the snapshot says was so *)
Lemma cached_key s hash id : cache_ok s → ca_apiKeys (if_cache s) !! hash = Some id → was (key_of hash id) s.
Proof.
  unfold cache_ok. destruct (if_read_at s) as [[[[i j] k] l]|]; [|by intros ->].
  intros (_ & order & entries & keys & caps & rl & _ & _ & Hr & -> & _) Hk. eapply read_at_was, Hr. intros w.
  unfold AllAPIKeys. destruct (_ && _); [|done]. intros [= Hw]. unfold key_of. rewrite Hw.
  destruct (build_Some fst snd ∅ keys hash id Hk) as [([h x] & Hin & <- & <-)|Hm]; [done|by rewrite lookup_empty in Hm].
Qed.
Lemma cached_capability s id c : cache_ok s → c ∈ default [] (ca_caps (if_cache s) !! id) → was (active_in id) s.
Proof.
  unfold cache_ok. destruct (if_read_at s) as [[[[i j] k] l]|]; [|intros ->; by intros ?%not_elem_of_nil].
  intros (_ & order & entries & keys & caps & rl & _ & _ & _ & _ & Hr & -> & _) Hc. eapply read_at_was, Hr. intros w.
  unfold AllCapabilities. destruct (may_read _ _); [|done]. intros [= Hw].
  destruct (caps_map caps !! id) as [cs|] eqn:E; [|by apply not_elem_of_nil in Hc].
  destruct (caps_map_Some _ _ _ _ _ E Hc) as [[Hin <-]|(? & Hm & _)]; [|by rewrite lookup_empty in Hm].
  rewrite <- Hw in Hin. unfold effective_capabilities in Hin. apply list_elem_of_fmap in Hin as ([k' r] & -> & Hin).
  apply list_elem_of_filter in Hin as [Ha Hin]. cbn in *. apply elem_of_map_to_list in Hin. exists r. split; [done|].
  unfold identity_active in Ha. by case_bool_decide.
Qed.
Lemma cached_entry s m e :
  cache_ok s → ca_catalog (if_cache s) !! m = Some e → en_ModelID e = m ∧ (en_Available e = true → was (offers e) s).
Proof.
  unfold cache_ok. destruct (if_read_at s) as [[[[i j] k] l]|]; [|by intros ->].
  intros (_ & order & entries & keys & caps & rl & Hr & -> & _) He.
  destruct (build_Some en_ModelID (λ e, e) ∅ entries m e He) as [(x & Hin & Hid & <-)|Hm]; [|by rewrite lookup_empty in Hm].
  split; [done|]. intros Ha. eapply read_at_was, Hr. intros w. unfold ListCatalog. destruct (may_read _ _); [|done].
  intros [= Hw]. rewrite <- Hw in Hin. apply elem_of_arrange, list_elem_of_fmap in Hin as (ce & -> & Hin). by exists ce.
Qed.
Lemma allows_some caps model : allowsModel caps model = true → ∃ c, c ∈ caps.
Proof. unfold allowsModel. rewrite existsb_exists. intros (c & Hc & _). exists c. by apply list_elem_of_In. Qed.

(** * Requests *)
(** What a handler may assume of its caller, and what it then knows of a reply. *)
Definition caller_ok (c : Caller) (id : uuid) (s : InfSys) : Prop :=
  match c with
  | ByKey hash => was (key_of hash id) s
  | ByWorker wc worker generation => wc_EffectiveIdentity wc = id ∧ was (holds_turn wc worker generation) s
  end.
Lemma caller_ok_mono c id : mono (caller_ok c id).
Proof.
  intros s s' Hg. destruct c; cbn; [by apply was_grows|]. intros [? ?]. split; [done|by eapply was_grows].
Qed.
Lemma was_mono P : mono (was P). Proof. intros s s'. apply was_grows. Qed.
Definition served (r : Reply) : bool := match r with Proxied _ _ | Streamed _ _ => true | _ => false end.
(** The request named its model and a worker's is the assigned one. *)
Definition named (rq : Request) (c : Caller) (model : string) : Prop :=
  ∃ bytes req, rq_Body rq = Some bytes ∧ decode_request bytes = Some req ∧ ch_Model req = model ∧
    model ≠ EmptyString ∧ model_mismatch c model = false.
Definition reply_ok (rq : Request) (c : Caller) (r : Reply) (s : InfSys) : Prop :=
  served r = true → ∃ model, named rq c model.
Lemma reply_ok_mono rq c r : mono (reply_ok rq c r). Proof. by intros ???. Qed.
Lemma owns_redis_call {A} me (f : Clock → gmap string zkey → A * gmap string zkey) K :
  mono K → inf_owns me (redis_call f) K (λ _, K).
Proof.
  intros HK. unfold redis_call. apply owns_ask. intros o. apply owns_ask. intros c.
  destruct o; [apply owns_inert|apply owns_ret; auto|apply owns_inert]; auto; intros s Hs HKs; cbn;
    destruct (f c (if_redis s)) as [a r]; (split; [done|exact (HK s (set_redis r s) (grows_refl s) HKs)]).
Qed.
Lemma owns_send me (r : Sent) K :
  mono K → (∀ s, inf_inv s → K s → authorized r s) → inf_owns me (update (log_sent r)) K (λ _, K).
Proof.
  intros HK Hr. apply owns_atomically; [|intros; by apply mono_undisturbed]. intros s Hs HKs. cbn.
  assert (grows s (log_sent r s)) as Hg by exact (grows_refl s).
  split; [|by apply (HK _ _ Hg)]. split; [|done]. destruct Hs as [Hc Hsent]. split; [by eapply cache_ok_grows, Hc|]. cbn.
  apply Forall_app. split; [by eapply sent_grows|]. apply Forall_singleton. eapply authorized_grows; [exact Hg|]. by apply Hr.
Qed.
Lemma owns_track me limiter id b K : mono K → inf_owns me (trackUsage limiter id b) K (λ _, K).
Proof.
  intros HK. unfold trackUsage. destruct (_ && _); [|by apply owns_ret].
  eapply owns_bind; [by apply owns_redis_call|]. intros ?. by apply owns_ret.
Qed.
(** The two ways to pass a request on. *)
Definition ready (rq : Request) (c : Caller) (id : uuid) (model : string) (e : Entry) (b : Body) (s : InfSys) : Prop :=
  authorized (mkSent c id model e (completions_url e) b) s ∧ named rq c model.
Lemma ready_mono rq c id model e b : mono (ready rq c id model e b).
Proof. apply mono_and; [intros s s'; apply authorized_grows|apply mono_pure]. Qed.
Lemma owns_nonstreaming me limiter rq c id model e b :
  inf_owns me (handleNonStreaming limiter c id model e b) (ready rq c id model e b) (reply_ok rq c).
Proof.
  unfold handleNonStreaming. apply owns_ask. intros [|]; [|by apply owns_ret].
  eapply owns_bind; [apply owns_send; [apply ready_mono|by intros s _ [? _]]|]. intros u.
  apply owns_ask. intros [a|]; [|by apply owns_ret]. destruct (ba_complete a); [|by apply owns_ret]. cbn [negb].
  eapply owns_bind; [apply owns_track, ready_mono|]. intros ?. apply owns_ret. intros s _ [_ Hn] _. by exists model.
Qed.
Lemma owns_streaming me limiter rq c id model e b :
  inf_owns me (handleStreaming limiter c id model e b) (ready rq c id model e (injectStreamOptions b)) (reply_ok rq c).
Proof.
  unfold handleStreaming. apply owns_ask. intros [|]; [|by apply owns_ret].
  eapply owns_bind; [apply owns_send; [apply ready_mono|by intros s _ [? _]]|]. intros u.
  apply owns_ask. intros [a|]; [|by apply owns_ret].
  destruct (negb _); [|destruct (stream_lines _ _)]; apply owns_ret; intros s _ [_ Hn] _; by exists model.
Qed.
Lemma admitted_intro c id model s :
  model_mismatch c model = false → caller_ok c id s → admitted c id model s.
Proof.
  destruct c as [h|wc worker g]; cbn; [done|]. intros Hm [Hid Hw]. split_and!; [done| |done].
  apply negb_false_iff, String.eqb_eq in Hm. done.
Qed.
Lemma owns_chat me limiter rq c id :
  inf_owns me (ChatCompletions limiter rq c id) (caller_ok c id) (reply_ok rq c).
Proof.
  unfold ChatCompletions. destruct (rq_Body rq) as [bytes|] eqn:Hb; [|by apply owns_ret].
  destruct (decode_request bytes) as [req|] eqn:Hd; [|by apply owns_ret].
  destruct (String.eqb_spec (ch_Model req) EmptyString) as [|Hne]; [by apply owns_ret|].
  destruct (model_mismatch c (ch_Model req)) eqn:Hm; [by apply owns_ret|].
  eapply owns_bind; [eapply (owns_inspect me _ _ (λ caps s, caller_ok c id s ∧ (∀ cp, cp ∈ caps → was (active_in id) s)))|].
  { intros s [Hc _] Hk. split; [done|]. intros cp. by apply cached_capability. }
  { intros caps. apply mono_and; [apply caller_ok_mono|]. intros s s' Hg Hw cp Hcp. eapply was_grows; [exact Hg|by eapply Hw]. }
  intros caps. cbn beta. destruct (allowsModel caps (ch_Model req)) eqn:Ha; [|by apply owns_ret]. cbn [negb].
  destruct (allows_some _ _ Ha) as [cp Hcp].
  eapply owns_bind; [eapply (owns_inspect me _ _ (λ o s, (caller_ok c id s ∧ was (active_in id) s) ∧
    match o with Some e => en_ModelID e = ch_Model req ∧ (en_Available e = true → was (offers e) s) | None => True end))|].
  { intros s [Hc _] [Hk Hw]. split; [split; [done|by eapply Hw]|]. destruct (ca_catalog _ !! _) eqn:He; [|done]. by apply cached_entry. }
  { intros o. repeat apply mono_and; [apply caller_ok_mono|apply was_mono|]. destruct o; [|apply mono_true].
    apply mono_and; [apply mono_pure|]. intros s s' Hg Hw Hav. eapply was_grows; [exact Hg|by apply Hw]. }
  intros [e|]; [|by apply owns_ret]. destruct (en_Available e) eqn:Hav; [|by apply owns_ret]. cbn [negb].
  assert (named rq c (ch_Model req)) as Hn by by exists bytes, req.
  assert (∀ b, body_for (ch_Model req) e b → ∀ s, (caller_ok c id s ∧ was (active_in id) s) ∧
    (en_ModelID e = ch_Model req ∧ (true = true → was (offers e) s)) → ready rq c id (ch_Model req) e b s) as Hready.
  { intros b Hbody s [[Hk Hw] [Hid Ho]]. split; [|done]. split_and!; [by apply admitted_intro|done|by apply Ho|done|done|done]. }
  destruct (ch_Stream req) eqn:Hs.
  - eapply owns_pre; [apply (owns_streaming me limiter rq)|]. intros s _. apply Hready. exists bytes, req. by rewrite Hs.
  - eapply owns_pre; [apply (owns_nonstreaming me limiter rq)|]. intros s _. apply Hready. exists bytes, req. by rewrite Hs.
Qed.
Lemma owns_list_models me : inf_owns me ListModels (λ _, True) (λ r _, served r = false).
Proof. eapply owns_bind; [eapply (owns_inspect me _ _ (λ _ _, True)); [done|intros; apply mono_true]|]. intros l. by apply owns_ret. Qed.
Lemma owns_handler me limiter rt rq c id : inf_owns me (handler limiter rt rq c id) (caller_ok c id) (reply_ok rq c).
Proof.
  destruct rt; [apply owns_chat|]. eapply owns_mono; [| |apply owns_list_models]; [done|]. intros r s _ H. unfold reply_ok. by rewrite H.
Qed.
(** Refusals need no justification, and the limiter only adds refusals. *)
Definition refusals_ok (Φ : Reply → InfSys → Prop) : Prop := ∀ status code s, Φ (Refused status code) s.
Lemma owns_RateLimit me limiter id next K Φ :
  mono K → refusals_ok Φ → inf_owns me next K Φ → inf_owns me (RateLimit limiter id next) K Φ.
Proof.
  intros HK HΦ Hn. unfold RateLimit. destruct (_ || _); [done|].
  eapply owns_bind; [eapply (owns_inspect me _ _ (λ _, K)); auto|]. intros [l|]; [|done].
  eapply owns_bind; [by apply owns_redis_call|]. intros [res|]; [|done].
  destruct (rs_Allowed res); [|apply owns_ret; intros; apply HΦ]. cbn [negb].
  eapply owns_bind; [by apply owns_redis_call|]. intros [res'|]; [|done].
  destruct (rs_Allowed res'); [done|]. apply owns_ret. intros; apply HΦ.
Qed.

Section gateway_facts.
Context (sha256hex : string → string) (uuid_Parse : string → bool) (pg_uuid : string → option uuid).
Lemma owns_Auth me rq next Φ :
  refusals_ok Φ → (∀ hash id, inf_owns me (next (ByKey hash) id) (caller_ok (ByKey hash) id) Φ) →
  inf_owns me (Auth sha256hex rq next) (λ _, True) Φ.
Proof.
  intros HΦ Hn. unfold Auth. destruct (String.eqb _ _); [apply owns_ret; intros; apply HΦ|].
  eapply owns_bind; [eapply (owns_inspect me _ _ (λ o s, match o with Some id => was (key_of (HashKey sha256hex (extractBearerToken (rq_Authorization rq))) id) s | None => True end))|].
  - intros s [Hc _] _. destruct (ca_apiKeys _ !! _) as [id|] eqn:E; [|done]. by apply cached_key.
  - intros [id|]; [apply was_mono|apply mono_true].
  - intros [id|]; [apply Hn|apply owns_ret; intros; apply HΦ].
Qed.
(** Something that held at an instant no earlier than the [n]-th. *)
Definition during (n : nat) (P : World → Prop) (s : InfSys) : Prop := ∃ i w, (n ≤ i)%nat ∧ world_at i w s ∧ P w.
Lemma during_mono n P : mono (during n P).
Proof. intros s s' Hg (i & w & Hn & Hw & HP). exists i, w. split_and!; [done|by eapply world_at_grows|done]. Qed.
Lemma during_was n P s : during n P s → was P s.
Proof. intros (i & w & _ & Hw). by exists i, w. Qed.
Lemma owns_live {A} me n (f : DispatchDB → ScopeErr + A) K :
  mono K →
  inf_owns me (live f) (λ s, (n ≤ length (if_past s))%nat ∧ K s)
    (λ r s, match r with inr a => during n (λ w, f (wd_dispatch w) = inr a) s ∧ K s | inl _ => True end ).
Proof.
  intros HK. unfold live. apply owns_ask. intros [|]; [by apply owns_ret|]. apply owns_inspect.
  - intros s _ [Hn Hks]. destruct (f _) as [e|a] eqn:E; [done|]. split; [|done]. exists (length (if_past s)), (if_world s).
    split_and!; [done|apply world_now|done].
  - intros [e|a]; [apply mono_true|]. apply mono_and; [apply during_mono|done].
Qed.
Lemma turn_scope_run d pool run turn worker g ts : turn_scope d pool run turn worker g = Some ts → sp_RunID ts = run.
Proof.
  unfold turn_scope. destruct (turns _ !! _) as [t|]; [|done]. cbn. destruct (pool_assignments _ !! _); [|done]. cbn.
  destruct (workflow_runs _ !! _); [|done]. cbn. destruct (turn_assignments _ !! _); [|done]. cbn.
  case_bool_decide as H; [|done]. intros [= <-]. apply H.
Qed.
(** The scope a supervisor was given. *)
Definition scope_held (n : nat) (id : WIdentity) (wc : WorkloadContext) (generation : Z) (s : InfSys) : Prop :=
  during n (λ w, ∃ p, pool_by_prefix (wd_dispatch w) (wi_SPIFFEID id) = Some p ∧ po_ID p = wc_PoolID wc) s ∧
  during n (holds_turn wc (wi_WorkerID id) generation) s.
Lemma scope_held_mono n id wc g : mono (scope_held n id wc g).
Proof. apply mono_and; apply during_mono. Qed.
Lemma owns_turn_scope me n poolID runID turnID worker g K :
  mono K →
  inf_owns me (ResolveTurnScope uuid_Parse pg_uuid poolID runID turnID worker g) (λ s, (n ≤ length (if_past s))%nat ∧ K s)
    (λ r s, match r with
            | inr ts => during n (λ w, ∃ turn, turn_scope (wd_dispatch w) poolID runID turn worker g = Some ts) s ∧ K s
            | inl _ => True
            end).
Proof.
  intros HK. unfold ResolveTurnScope. destruct (_ || _); [by apply owns_ret|].
  eapply owns_post; [by apply (owns_live me n _ K)|]. intros [e|ts] s _; [done|]. intros [(i & w & Hi & Hw & Hf) HKs].
  split; [|done]. exists i, w. split_and!; [done|done|]. destruct (pg_uuid turnID) as [turn|]; [|done].
  exists turn. destruct (turn_scope _ _ _ _ _ _); [by injection Hf as ->|done].
Qed.
Lemma owns_WorkloadAuth me n td rq next Φ :
  refusals_ok Φ →
  (∀ id wc g, supervisor_of_conn (rq_TLS rq) td = Some id → ParseUint63 (rq_Generation rq) = Some g →
     inf_owns me (next (ByWorker wc (wi_WorkerID id) g) (wc_EffectiveIdentity wc)) (scope_held n id wc g) Φ) →
  inf_owns me (WorkloadAuth uuid_Parse pg_uuid td rq next) (λ s, (n ≤ length (if_past s))%nat) Φ.
Proof.
  intros HΦ Hn. unfold WorkloadAuth. destruct (supervisor_of_conn _ _) as [id|] eqn:Hid; [|apply owns_ret; intros; apply HΦ].
  set (bound := λ p s, (n ≤ length (if_past s))%nat ∧ during n (λ w, pool_by_prefix (wd_dispatch w) (wi_SPIFFEID id) = Some p) s).
  assert (∀ e denied K, inf_owns me (mret (scope_refusal e denied)) K Φ) as Href.
  { intros e denied K. apply owns_ret. intros s _ _. destruct e; apply HΦ. }
  eapply (owns_bind _ _ me _ _ _ (λ r s, match r with inr p => bound p s | inl _ => True end)).
  { eapply owns_mono; [| |apply (owns_live me n _ (λ s, (n ≤ length (if_past s))%nat)), mono_past]; [by intros s _ Hl|].
    intros [e|p] s _; [done|]. intros [(i & w & Hi & Hw & Hf) Hl]. split; [done|]. exists i, w. split_and!; [done|done|].
    destruct (pool_by_prefix _ _); [by injection Hf as ->|done]. }
  intros [e|p]; [apply Href|]. destruct (_ || _); [apply owns_ret; intros; apply HΦ|].
  destruct (ParseUint63 _) as [g|] eqn:Hg; [|apply owns_ret; intros; apply HΦ].
  eapply owns_bind; [apply owns_turn_scope, during_mono|]. intros [e|ts]; [apply Href|].
  eapply owns_pre; [by apply Hn|]. intros s _ [(i & w & Hi & Hw & turn & Hts) (j & w' & Hj & Hw' & Hp)]. split.
  - exists j, w'. split_and!; [done|done|]. by exists p.
  - exists i, w. split_and!; [done|done|]. exists turn. cbn.
    pose proof (turn_scope_run _ _ _ _ _ _ _ Hts) as Hrun. rewrite Hrun, Hts. destruct ts. cbn in *. by subst.
Qed.

(** * The servers *)
Inductive InfThread :=
| TApi (limiter : bool) (rt : Route) (rq : Request)
| TWorkload (limiter : bool) (trustDomain : string) (rt : Route) (rq : Request)
| TStart (attempts : nat)
| TListen
| TPoll
| TChange (f : World → World).
Definition run_inf (t : InfThread) : InfP () :=
  match t with
  | TApi limiter rt rq => newRouter sha256hex limiter rt rq;; mret ()
  | TWorkload limiter td rt rq => newWorkloadRouter uuid_Parse pg_uuid limiter td rt rq;; mret ()
  | TStart n => Start n;; mret ()
  | TListen => listen_round;; mret ()
  | TPoll => poll_round;; mret ()
  | TChange f => update (change f)
  end.
Lemma owns_workload_router me n limiter td rt rq :
  inf_owns me (newWorkloadRouter uuid_Parse pg_uuid limiter td rt rq) (λ s, (n ≤ length (if_past s))%nat)
    (λ r s, served r = true → ∃ id wc g, supervisor_of_conn (rq_TLS rq) td = Some id ∧ ParseUint63 (rq_Generation rq) = Some g ∧
       scope_held n id wc g s ∧ ∃ model, named rq (ByWorker wc (wi_WorkerID id) g) model).
Proof.
  apply owns_WorkloadAuth; [done|]. intros id wc g Hid Hg. apply owns_RateLimit; [apply scope_held_mono|done|].
  eapply owns_mono; [| |apply (owns_frame _ _ me _ (caller_ok (ByWorker wc (wi_WorkerID id) g) (wc_EffectiveIdentity wc)) (reply_ok rq (ByWorker wc (wi_WorkerID id) g)) (scope_held n id wc g))].
  - intros s _ Hs. split; [|done]. split; [done|]. destruct Hs as [_ Hs]. by eapply during_was.
  - intros r s _ [Hr Hs] Hsv. destruct (Hr Hsv) as [model Hm]. exists id, wc, g. split_and!; try done. by exists model.
  - intros j s s' _ _ Hgr. by apply scope_held_mono.
  - apply owns_handler.
Qed.
Lemma owns_api_router me limiter rt rq :
  inf_owns me (newRouter sha256hex limiter rt rq) (λ _, True) (λ _ _, True).
Proof.
  apply owns_Auth; [done|]. intros hash id. apply owns_RateLimit; [apply (caller_ok_mono (ByKey hash))|done|].
  eapply owns_post; [apply owns_handler|done].
Qed.
Lemma run_inf_owns me t : inf_owns me (run_inf t) (λ _, True) (λ _ _, True).
Proof.
  assert (∀ A (p : InfP A) Φ, inf_owns me p (λ _, True) Φ → inf_owns me (p;; mret ()) (λ _, True) (λ _ _, True)) as Hret.
  { intros A p Φ Hp. eapply owns_bind; [exact Hp|]. intros ?. by apply owns_ret. }
  destruct t; cbn [run_inf]; [apply (Hret _ _ _ (owns_api_router me _ _ _))| |apply (Hret _ _ _ (owns_Start me _))|
    apply (Hret _ _ _ (owns_listen me))|apply (Hret _ _ _ (owns_refresh me))|apply owns_change].
  eapply Hret, owns_pre; [apply (owns_workload_router me 0)|]. intros s _ _. apply Nat.le_0_l.
Qed.
Lemma inf_threads ts s ps s' : inf_inv s → tsteps (run_inf <$> ts) s ps s' → inf_inv s' ∧ grows s s'.
Proof.
  intros Hi. apply (owns_tsteps inf_inv step_ok grows); [apply grows_refl|apply grows_trans|done| |done].
  intros i p Hp. apply list_lookup_fmap_Some in Hp as (t & -> & _).
  exists (λ _, True), (λ _ _, True). split_and!; [apply mono_undisturbed, mono_true|done|apply run_inf_owns].
Qed.
End gateway_facts.
