(* ===== verification/InferenceAccess.v ===== *)
(** Who reaches a backend through the inference gateway, with what request, and what becomes
    of the snapshot after the cutover to the new authority; concrete runs at the end. *)
From Stdlib Require Import Ascii.
From S2P Require Import Prelude Json Runtime Workflow Consequence ConsequenceFacts WorkerPool WorkData Dispatch IdentityData IdentityStore Authority Spiffe Catalog RateLimit InferenceBody Proc ProcLogic Inference InferenceFacts.

Section access.
Context (sha256hex : string → string) (uuid_Parse : string → bool) (pg_uuid : string → option uuid).
#[local] Notation run_inf := (run_inf sha256hex uuid_Parse pg_uuid).

(** C23. Only authorized calls reach a model. Whatever API requests, supervisors' requests,
    refreshes of the snapshot (several at a time) and changes of the control plane
    interleave: every request passed to a backend had a caller whose key was active for that
    identity, or who held the turn with its generation and was assigned that very model; the
    identity was active; the model was offered and available with that backend; the URL is
    the backend's and the body the transformed body of a request that named the model. Each
    of these held in some world that was. The snapshot's maps are the four views as they
    were read, one after the other, by one refresh. *)
Theorem model_calls_are_authorized ts s ps s' :
  inf_inv s → tsteps (run_inf <$> ts) s ps s' →
  (∀ r, r ∈ if_sent s' → authorized r s') ∧ (∀ at_, if_read_at s' = Some at_ → snapshot_of (if_cache s') at_ s').
Proof.
  intros Hi Hst. destruct (inf_threads _ _ _ ts s ps s' Hi Hst) as [[Hc Hs] _]. split.
  - intros r Hr. rewrite Forall_forall in Hs. by apply Hs.
  - intros at_ Hat. unfold cache_ok in Hc. by rewrite Hat in Hc.
Qed.

(** C24. A supervisor's authority is live. When the workload listener serves a model call, then
    at an instant during this very request the caller's certificate resolved to that pool
    and its worker held the turn: running, of a run assigned to the pool, with an active
    assignment of this worker, run and pool and of the fencing generation in the header;
    and the model asked for is the one assigned. A worker fenced before his request is
    refused whatever the snapshot says. *)
Theorem supervisor_scope_is_live me limiter td rq s reply s' :
  inf_inv s → psteps (others inf_inv step_ok me) (newWorkloadRouter uuid_Parse pg_uuid limiter td PostChat rq) s (Ret reply) s' →
  served reply = true →
  ∃ id wc generation model, supervisor_of_conn (rq_TLS rq) td = Some id ∧ ParseUint63 (rq_Generation rq) = Some generation ∧
    scope_held (length (if_past s)) id wc generation s' ∧ named rq (ByWorker wc (wi_WorkerID id) generation) model ∧
    model = wc_AssignedModel wc.
Proof.
  intros Hi Hst Hsv.
  destruct (owns_psteps inf_inv step_ok me _ s reply s' _ _
    (mono_undisturbed me _ (mono_past (length (if_past s)))) Hi (le_n _)
    (owns_workload_router uuid_Parse pg_uuid me (length (if_past s)) limiter td PostChat rq) Hst) as [_ Hr].
  destruct (Hr Hsv) as (id & wc & g & Hid & Hg & Hheld & model & Hn). exists id, wc, g, model. split_and!; try done.
  destruct Hn as (bytes & req & _ & _ & _ & _ & Hm). cbn in Hm. by apply negb_false_iff, String.eqb_eq in Hm.
Qed.
End access.

(** * A refresh in a world that stands still *)
Definition readable (w : World) : Prop :=
  let d := wd_platform w in
  may_read "catalog.effective_catalog" d = true ∧ acl_LegacyView (gateway_acl (pf_identity d)) = true ∧
  may_read "identity.active_api_keys" d = true ∧ may_read "permissions.effective_capabilities" d = true ∧
  may_read "permissions.effective_rate_limits" d = true ∧ is_Some (effective_rate_limits d).
Definition current_cache (order : list nat) (w : World) : Cache :=
  mkCache (catalog_map (arrange order (scan_entry <$> effective_catalog (wd_platform w))))
    (keys_map (active_api_keys (wd_now w) (wd_platform w))) (caps_map (effective_capabilities (wd_platform w)))
    (limits_map (default [] (effective_rate_limits (wd_platform w)))) (Some (wd_now w)).
Section still.
Context (answer : ∀ R, InfQ R → R).
Lemma run_read_view {A} (f : World → option A) s :
  answer bool QFails = false → run_proc answer (read_view f) s = Some (stamped f s, s).
Proof. intros Hf. cbn. by rewrite Hf. Qed.
Lemma run_refresh s :
  answer bool QFails = false → readable (if_world s) →
  ∃ at_, run_proc answer refresh s = Some (true, swap_cache (current_cache (answer _ QOrder) (if_world s)) at_ s).
Proof.
  intros Hf (H1 & H2 & H3 & H4 & H5 & rl & H6). set (n := length (if_past s)). exists (n, n, n, n).
  unfold refresh. rewrite run_proc_bind. cbn [run_proc ask mbind option_bind].
  unfold or_fail. rewrite run_proc_bind, (run_read_view _ _ Hf). unfold stamped at 1, ListCatalog at 1. rewrite H1.
  cbn [mbind option_bind]. rewrite run_proc_bind, (run_read_view _ _ Hf). unfold stamped at 1, AllAPIKeys at 1. rewrite H2, H3.
  cbn [mbind option_bind andb]. rewrite run_proc_bind, (run_read_view _ _ Hf). unfold stamped at 1, AllCapabilities at 1. rewrite H4.
  cbn [mbind option_bind]. rewrite run_proc_bind, (run_read_view _ _ Hf). unfold stamped at 1, AllRateLimits at 1. rewrite H5, H6.
  cbn. unfold swap, current_cache. by rewrite H6.
Qed.
End still.
Lemma keys_map_iff l hash id : NoDup l.*1 → keys_map l !! hash = Some id ↔ (hash, id) ∈ l.
Proof.
  intros Hnd. change (keys_map l) with (build fst snd (∅ : gmap string uuid) l). split.
  - intros [([h x] & Hin & <- & <-)|Hm]%build_Some; [done|by rewrite lookup_empty in Hm].
  - intros Hin. exact (build_unique fst snd ∅ l (hash, id) Hnd Hin).
Qed.
Lemma caps_map_intro l (m : gmap uuid (list Capability)) c :
  c ∈ l ∨ (∃ cs, m !! cp_IdentityID c = Some cs ∧ c ∈ cs) →
  ∃ cs, foldl (λ m c, <[cp_IdentityID c := default [] (m !! cp_IdentityID c) ++ [c]]> m) m l !! cp_IdentityID c = Some cs ∧ c ∈ cs.
Proof.
  revert m. induction l as [|x l IH]; intros m [Hin|Hm]; cbn; [by apply not_elem_of_nil in Hin|done| |]; apply IH.
  - apply elem_of_cons in Hin as [->|Hin]; [|by left]. right. rewrite lookup_insert_eq. eexists. split; [done|].
    apply elem_of_app. right. by left.
  - right. destruct Hm as (cs & Hm & Hc). destruct (decide (cp_IdentityID x = cp_IdentityID c)) as [->|Hne].
    + rewrite lookup_insert_eq, Hm. eexists. split; [done|]. apply elem_of_app. by left.
    + rewrite lookup_insert_ne by done. by eauto.
Qed.
Lemma allowed_iff w id model :
  allowsModel (default [] (caps_map (effective_capabilities (wd_platform w)) !! id)) model = true ↔ active_in id w.
Proof.
  split.
  - intros [c Hc]%allows_some. destruct (caps_map _ !! id) as [cs|] eqn:E; [|by apply not_elem_of_nil in Hc].
    destruct (caps_map_Some _ _ _ _ _ E Hc) as [[Hin <-]|(? & Hm & _)]; [|by rewrite lookup_empty in Hm].
    apply list_elem_of_fmap in Hin as ([k r] & -> & [Ha Hin]%list_elem_of_filter). cbn in *. exists r.
    split; [by apply elem_of_map_to_list in Hin|]. unfold identity_active in Ha. by case_bool_decide.
  - intros (r & Hr & Hd). destruct (caps_map_intro (effective_capabilities (wd_platform w)) ∅ (mkCapability id "*" "*")) as (cs & Hcs & Hin).
    { left. apply list_elem_of_fmap. exists (id, r). split; [done|]. apply list_elem_of_filter. unfold identity_active. cbn.
      split; [by rewrite bool_decide_eq_true|by apply elem_of_map_to_list]. }
    cbn in Hcs. unfold caps_map. rewrite Hcs. unfold allowsModel. apply existsb_exists. exists (mkCapability id "*" "*").
    split; [by apply list_elem_of_In|done].
Qed.
Lemma catalog_map_iff order l model e :
  NoDup (ce_ModelID <$> l) →
  catalog_map (arrange order (scan_entry <$> l)) !! model = Some e ↔ ∃ ce, ce ∈ l ∧ ce_ModelID ce = model ∧ e = scan_entry ce.
Proof.
  intros Hnd. change (catalog_map ?x) with (build en_ModelID (λ e, e) (∅ : gmap string Entry) x). split.
  - intros [(x & Hin & <- & <-)|Hm]%build_Some; [|by rewrite lookup_empty in Hm].
    apply elem_of_arrange, list_elem_of_fmap in Hin as (ce & -> & Hin). by exists ce.
  - intros (ce & Hin & <- & ->).
    apply (build_unique en_ModelID (λ e, e) ∅ (arrange order (scan_entry <$> l)) (scan_entry ce)).
    + rewrite arrange_perm, <- list_fmap_compose. exact Hnd.
    + rewrite arrange_perm. by apply list_elem_of_fmap_2.
Qed.
(** What the control plane's tables say of a key and a model. *)
Definition entitled (w : World) (hash model : string) (id : uuid) (ce : CatalogEntry) : Prop :=
  key_of hash id w ∧ active_in id w ∧ ce ∈ effective_catalog (wd_platform w) ∧ ce_ModelID ce = model ∧ ce_Available ce = true.

Section decision.
Context (sha256hex : string → string) (answer : ∀ R, InfQ R → R).
(** The handler for an entry passes the request on, once. *)
Lemma run_pass c id model e b s stream :
  answer bool QRequestOk = true →
  ∃ reply b', run_proc answer ((if stream : bool then handleStreaming else handleNonStreaming) false c id model e b) s =
    Some (reply, log_sent (mkSent c id model e (completions_url e) b') s).
Proof.
  intros Hok. destruct stream; cbn; rewrite Hok; cbn; destruct (answer _ QBackend) as [a|]; cbn; try by eauto.
  - destruct (negb _); [by eauto|]. destruct (stream_lines _ _). by eauto.
  - destruct (negb _); by eauto.
Qed.
Lemma run_chat order at_ w rq bytes req c id s :
  answer bool QRequestOk = true → rq_Body rq = Some bytes → decode_request bytes = Some req → ch_Model req ≠ EmptyString →
  model_mismatch c (ch_Model req) = false → NoDup (ce_ModelID <$> effective_catalog (wd_platform w)) →
  ∃ reply s', run_proc answer (ChatCompletions false rq c id) (swap_cache (current_cache order w) at_ s) = Some (reply, s') ∧
    ((∃ r, if_sent s' = if_sent s ++ [r] ∧ sn_Identity r = id ∧
        ∃ ce, (active_in id w ∧ ce ∈ effective_catalog (wd_platform w) ∧ ce_ModelID ce = ch_Model req ∧ ce_Available ce = true) ∧
          sn_Entry r = scan_entry ce) ∨
     if_sent s' = if_sent s ∧ (∃ status code, reply = Refused status code) ∧
       ¬ ∃ ce, active_in id w ∧ ce ∈ effective_catalog (wd_platform w) ∧ ce_ModelID ce = ch_Model req ∧ ce_Available ce = true).
Proof.
  intros Hok Hb Hd Hne Hm Hnd. unfold ChatCompletions. rewrite Hb, Hd.
  destruct (String.eqb_spec (ch_Model req) EmptyString) as [|_]; [done|]. rewrite Hm. rewrite run_proc_bind.
  cbn [run_proc Capabilities inspect atomically mbind option_bind if_cache swap_cache ca_caps current_cache].
  pose proof (allowed_iff w id (ch_Model req)) as Hal.
  destruct (allowsModel _ (ch_Model req)).
  2:{ cbn. eexists _, _. split; [done|]. right. split_and!; [done|by eauto|]. intros (ce & Ha & _). by apply Hal in Ha. }
  assert (active_in id w) as Ha by by apply Hal.
  cbn [negb]. rewrite run_proc_bind. cbn [run_proc get_entry inspect atomically mbind option_bind if_cache swap_cache ca_catalog current_cache].
  pose proof (catalog_map_iff order (effective_catalog (wd_platform w)) (ch_Model req)) as Hcat.
  destruct (catalog_map _ !! _) as [e|].
  2:{ cbn. eexists _, _. split; [done|]. right. split_and!; [done|by eauto|]. intros (ce & _ & Hin & Hid & _).
      assert (None = Some (scan_entry ce)); [|done]. apply (Hcat _ Hnd). by exists ce. }
  destruct (proj1 (Hcat e Hnd) eq_refl) as (ce & Hin & Hid & ->).
  destruct (en_Available (scan_entry ce)) eqn:Hav; cbn [negb].
  - destruct (run_pass c id (ch_Model req) (scan_entry ce) (forwarded_body (scan_entry ce) bytes)
      (swap_cache (current_cache order w) at_ s) (ch_Stream req) Hok) as (reply & b' & Hrun).
    eexists _, _. split; [destruct (ch_Stream req); exact Hrun|]. left. cbn. eexists. split; [done|]. split; [done|].
    exists ce. done.
  - cbn. eexists _, _. split; [done|]. right. split_and!; [done|by eauto|]. intros (ce' & _ & Hin' & Hid' & Hav').
    assert (Some (scan_entry ce) = Some (scan_entry ce')) as [= Heq]; [by apply Hcat; [|exists ce']|].
    cbn in Hav. congruence.
Qed.

(** C25. After a refresh the gateway decides as the control plane's tables say. In a world
    that stands still and whose views can be read, a refresh succeeds, and a well-formed API
    request is passed on, once, exactly when its key is active for an active identity and
    the model is offered and available; it goes out under that identity and to that backend,
    and any other is refused. Keys and aliases must be unique, and rate limits are left
    aside. *)
Theorem refreshed_gateway_follows_tables s rq bytes req :
  answer bool QFails = false → answer bool QRequestOk = true → readable (if_world s) →
  NoDup (active_api_keys (wd_now (if_world s)) (wd_platform (if_world s))).*1 →
  NoDup (ce_ModelID <$> effective_catalog (wd_platform (if_world s))) →
  extractBearerToken (rq_Authorization rq) ≠ EmptyString →
  rq_Body rq = Some bytes → decode_request bytes = Some req → ch_Model req ≠ EmptyString →
  let hash := HashKey sha256hex (extractBearerToken (rq_Authorization rq)) in
  ∃ reply s', run_proc answer (refresh;; newRouter sha256hex false PostChat rq) s = Some (reply, s') ∧
    ((∃ r, if_sent s' = if_sent s ++ [r] ∧ ∃ ce, entitled (if_world s) hash (ch_Model req) (sn_Identity r) ce ∧ sn_Entry r = scan_entry ce) ∨
     if_sent s' = if_sent s ∧ (∃ status code, reply = Refused status code) ∧ ∀ id ce, ¬ entitled (if_world s) hash (ch_Model req) id ce).
Proof.
  intros Hf Hok Hrd Hk Hc Ht Hb Hd Hne hash. destruct (run_refresh answer s Hf Hrd) as (at_ & Hr).
  setoid_rewrite run_proc_bind. rewrite Hr. cbn [mbind option_bind]. unfold newRouter, Auth.
  destruct (String.eqb_spec (extractBearerToken (rq_Authorization rq)) EmptyString) as [|_]; [done|].
  setoid_rewrite run_proc_bind. cbn [run_proc IdentityByAPIKey inspect atomically mbind option_bind if_cache swap_cache ca_apiKeys current_cache].
  fold hash. pose proof (λ id, keys_map_iff _ hash id Hk) as Hki. destruct (keys_map _ !! hash) as [id|].
  - assert (key_of hash id (if_world s)) as Hkey by by apply Hki.
    destruct (run_chat (answer _ QOrder) at_ (if_world s) rq bytes req (ByKey hash) id s Hok Hb Hd Hne eq_refl Hc) as (reply & s' & Hrun & Hres).
    exists reply, s'. split; [exact Hrun|]. destruct Hres as [(r & Hs & <- & ce & (? & ? & ? & ?) & He)|(Hs & Href & Hno)].
    + left. exists r. split; [done|]. by exists ce.
    + right. split_and!; [done|done|]. intros id' ce (Hkey' & ? & ? & ? & ?). apply Hno. exists ce.
      assert (Some id = Some id') as [= ->]; [by apply Hki|]. done.
  - eexists _, _. split; [done|]. right. split_and!; [done|by eauto|]. intros id ce (Hkey & _).
    assert (None = Some id); [by apply Hki|done].
Qed.
End decision.

(** * The forwarded body *)
Lemma set_if_absent_lookup k v m j :
  setIfAbsent k v m !! j = match m !! j with Some x => Some x | None => if decide (j = k) then v else None end.
Proof.
  unfold setIfAbsent. destruct v as [v|].
  - destruct (m !! k) as [x|] eqn:E.
    + destruct (m !! j) eqn:E'; [done|]. case_decide; [congruence|done].
    + case_decide as Hj; [subst; by rewrite lookup_insert_eq, E|]. rewrite lookup_insert_ne by done. by destruct (m !! j).
  - destruct (m !! j); [done|]. by case_decide.
Qed.
(** The first value given for a key. *)
Fixpoint first_value (k : string) (l : list (string * option json)) : option json :=
  match l with
  | [] => None
  | (k', v) :: l' => match (if decide (k = k') then v else None) with Some x => Some x | None => first_value k l' end
  end.
Lemma apply_params_lookup d m k :
  applyDefaultParams d m !! k = match m !! k with Some x => Some x | None => first_value k (param_values d) end.
Proof.
  unfold applyDefaultParams. generalize (param_values d). intros l. revert m.
  induction l as [|[k' v] l IH]; intros m; cbn; [by destruct (m !! k)|]. rewrite IH, set_if_absent_lookup.
  by destruct (m !! k).
Qed.
Lemma reasoning_other b m k : k ≠ "chat_template_kwargs" → applyReasoningConfig b m !! k = m !! k.
Proof. intros Hk. unfold applyReasoningConfig. destruct b; [by rewrite lookup_insert_ne|done]. Qed.
Lemma prefix_other t m k : k ≠ "messages" → applySystemPromptPrefix t m !! k = m !! k.
Proof.
  intros Hk. unfold applySystemPromptPrefix. destruct (String.eqb _ _); [done|].
  destruct (m !! "messages") as [[| | | |[|[| | | | |l] msgs]|]|]; try done; try by rewrite lookup_insert_ne.
  destruct (String.eqb _ _); by rewrite lookup_insert_ne.
Qed.
(** The object behind a JSON value. *)
Definition members (v : option json) : gmap string json := match v with Some (JObj l) => obj_map l | _ => ∅ end.
Lemma obj_map_of m : members (Some (of_map m)) = m.
Proof.
  cbn. change (obj_map ?l) with (build fst snd (∅ : gmap string json) l). apply map_eq. intros k.
  destruct (build fst snd ∅ (map_to_list m) !! k) as [v|] eqn:E.
  - apply build_Some in E as [([k' v'] & Hin & <- & <-)|Hm]; [by apply elem_of_map_to_list in Hin|by rewrite lookup_empty in Hm].
  - destruct (m !! k) as [v|] eqn:E'; [|done]. apply elem_of_map_to_list in E'.
    pose proof (build_is_Some fst snd (∅ : gmap string json) _ _ E') as [x Hx]. cbn in Hx. congruence.
Qed.
(** A JSON object with these members. *)
Definition object_of (m : gmap string json) (v : json) : Prop := ∃ l, v = JObj l ∧ obj_map l = m.
Lemma object_of_map m : object_of m (of_map m).
Proof. eexists. split; [reflexivity|]. exact (obj_map_of m). Qed.
(** The conversation that a configured system prompt makes of the client's. *)
Inductive prompted (prefix : string) : option json → option json → Prop :=
| prompted_alone v sys :
    (∀ x rest, v ≠ Some (JArr (x :: rest))) → object_of {[ "role" := JStr "system"; "content" := JStr prefix ]} sys →
    prompted prefix v (Some (JArr [sys]))
| prompted_not_object x rest :
    (∀ l, x ≠ JObj l) → prompted prefix (Some (JArr (x :: rest))) (Some (JArr (x :: rest)))
| prompted_extended x old first_ rest :
    members (Some x) !! "role" = Some (JStr "system") → old = match members (Some x) !! "content" with Some (JStr c) => c | _ => EmptyString end →
    object_of (<["content" := JStr (prefix +:+ newline +:+ old)]> (members (Some x))) first_ →
    prompted prefix (Some (JArr (x :: rest))) (Some (JArr (first_ :: rest)))
| prompted_opened l sys rest :
    obj_map l !! "role" ≠ Some (JStr "system") → object_of {[ "role" := JStr "system"; "content" := JStr prefix ]} sys →
    prompted prefix (Some (JArr (JObj l :: rest))) (Some (JArr (sys :: JObj l :: rest))).
Lemma prefix_applied t m :
  tf_SystemPromptPrefix t ≠ EmptyString →
  prompted (tf_SystemPromptPrefix t) (m !! "messages") (applySystemPromptPrefix t m !! "messages").
Proof.
  intros Hp. unfold applySystemPromptPrefix. destruct (String.eqb_spec (tf_SystemPromptPrefix t) EmptyString); [done|]. cbv zeta.
  assert (object_of {[ "role" := JStr "system"; "content" := JStr (tf_SystemPromptPrefix t) ]} (system_message (tf_SystemPromptPrefix t))) as Hsys by apply object_of_map.
  destruct (m !! "messages") as [[| | | |[|[| | | | |l] msgs]|]|] eqn:Hm;
    rewrite ?Hm, ?lookup_insert_eq; first [apply prompted_alone; [intros; discriminate|exact Hsys] | apply prompted_not_object; intros; discriminate | idtac].
  destruct (String.eqb_spec (match obj_map l !! "role" with Some (JStr s) => s | _ => EmptyString end) "system") as [Hr|Hr]; rewrite lookup_insert_eq.
  - assert (obj_map l !! "role" = Some (JStr "system")) as Hrole by (destruct (obj_map l !! "role") as [[]|]; congruence).
    eapply prompted_extended; [exact Hrole|reflexivity|]. apply object_of_map.
  - apply prompted_opened; [|done]. intros E. by rewrite E in Hr.
Qed.
(** What the stream options become. *)
Definition stream_members (m : gmap string json) : gmap string json :=
  <["continuous_usage_stats" := JBool true]> (<["include_usage" := JBool true]> (members (m !! "stream_options"))).
(** The body a backend gets for an alias, of the bytes the client sent. *)
Definition backend_object (e : Entry) (stream : bool) (m m' : gmap string json) : Prop :=
  (∀ k, k ∉ ["model"; "chat_template_kwargs"; "messages"] → (stream = true → k ≠ "stream_options") →
     m' !! k = match m !! k with Some v => Some v | None => first_value k (param_values (en_DefaultParams e)) end) ∧
  m' !! "model" = (if tf_RewriteModelName (en_Transforms e) && negb (String.eqb (en_BackendModelID e) EmptyString)
                   then Some (JStr (en_BackendModelID e)) else m !! "model") ∧
  match en_EnableThinking e with
  | Some b => ∃ v, m' !! "chat_template_kwargs" = Some v ∧ object_of (<["enable_thinking" := JBool b]> (members (m !! "chat_template_kwargs"))) v
  | None => m' !! "chat_template_kwargs" = m !! "chat_template_kwargs"
  end ∧
  (if String.eqb (tf_SystemPromptPrefix (en_Transforms e)) EmptyString then m' !! "messages" = m !! "messages"
   else prompted (tf_SystemPromptPrefix (en_Transforms e)) (m !! "messages") (m' !! "messages")) ∧
  (stream = true → ∃ v, m' !! "stream_options" = Some v ∧ object_of (stream_members m) v).
Definition backend_body (e : Entry) (stream : bool) (bytes : string) (b : Body) : Prop :=
  match unmarshal_object (RawBody bytes) with
  | None => b = RawBody bytes
  | Some m => ∃ m', b = ObjBody m' ∧ backend_object e stream m m'
  end.
Lemma defaults_skip d m k : k ∈ ["model"; "chat_template_kwargs"; "messages"; "stream_options"] → applyDefaultParams d m !! k = m !! k.
Proof.
  intros Hk. rewrite apply_params_lookup. destruct (m !! k); [done|]. unfold param_values.
  repeat (apply elem_of_cons in Hk as [->|Hk]; [reflexivity|]). by apply not_elem_of_nil in Hk.
Qed.
Lemma forwarded_object e m :
  let m3 := applySystemPromptPrefix (en_Transforms e) (applyReasoningConfig (en_EnableThinking e) (applyDefaultParams (en_DefaultParams e) m)) in
  backend_object e false m (if tf_RewriteModelName (en_Transforms e) && negb (String.eqb (en_BackendModelID e) EmptyString)
                            then <["model" := JStr (en_BackendModelID e)]> m3 else m3).
Proof.
  intros m3. unfold backend_object. set (rw := tf_RewriteModelName (en_Transforms e) && _).
  assert (∀ k, k ≠ "model" → (if rw then <["model" := JStr (en_BackendModelID e)]> m3 else m3) !! k = m3 !! k) as Hrw.
  { intros k Hk. destruct rw; [by rewrite lookup_insert_ne|done]. }
  assert (∀ k, bool_decide (k ∈ ["model"; "chat_template_kwargs"; "messages"; "stream_options"]) = true → k ∈ ["model"; "chat_template_kwargs"; "messages"; "stream_options"]) as Hin.
  { intros k. apply bool_decide_eq_true. }
  unfold m3 in *. split_and!; [| | | |done].
  - intros k Hk _. rewrite !not_elem_of_cons in Hk. destruct Hk as (H1 & H2 & H3 & _). rewrite Hrw, prefix_other, reasoning_other by done. apply apply_params_lookup.
  - destruct rw; [by rewrite lookup_insert_eq|]. rewrite prefix_other, reasoning_other by done. apply defaults_skip. by left.
  - rewrite Hrw, prefix_other by done. unfold applyReasoningConfig.
    destruct (en_EnableThinking e); [|apply defaults_skip; by apply Hin]. rewrite lookup_insert_eq, defaults_skip by by apply Hin.
    eexists. split; [done|]. apply object_of_map.
  - rewrite Hrw by done. set (m2 := applyReasoningConfig _ _).
    assert (m2 !! "messages" = m !! "messages") as <-.
    { unfold m2. rewrite reasoning_other by done. apply defaults_skip. by apply Hin. }
    destruct (String.eqb_spec (tf_SystemPromptPrefix (en_Transforms e)) EmptyString) as [Hp|Hp]; [|by apply prefix_applied].
    unfold applySystemPromptPrefix. by rewrite Hp.
Qed.
Lemma forwarded_backend e bytes : backend_body e false bytes (forwarded_body e bytes).
Proof.
  unfold backend_body, forwarded_body, ApplyRequestTransforms, rewriteModelInRequest, rewrite_body.
  destruct (unmarshal_object (RawBody bytes)) as [m|] eqn:Hu; [|rewrite Hu; by destruct (_ && _)].
  eexists. split; [|apply forwarded_object]. by destruct (_ && _).
Qed.
Lemma streamed_backend e bytes : backend_body e true bytes (injectStreamOptions (forwarded_body e bytes)).
Proof.
  pose proof (forwarded_backend e bytes) as H. unfold backend_body in *. destruct (unmarshal_object (RawBody bytes)) as [m|] eqn:Hu.
  - destruct H as (m' & -> & Hk & Hmodel & Hkw & Hmsg & _). unfold injectStreamOptions, rewrite_body. cbn [unmarshal_object].
    eexists. split; [reflexivity|]. split_and!; try (by rewrite lookup_insert_ne by done).
    + intros k Hn Hs. rewrite lookup_insert_ne by (intros <-; by apply Hs). by apply Hk.
    + intros _. eexists. rewrite lookup_insert_eq. split; [reflexivity|]. unfold stream_members.
      assert (m' !! "stream_options" = m !! "stream_options") as ->.
      { rewrite Hk by (done || (apply (bool_decide_unpack _); reflexivity)). by destruct (m !! "stream_options"). }
      apply object_of_map.
  - rewrite H. unfold injectStreamOptions, rewrite_body. by rewrite Hu.
Qed.
(** An action of the handling of a request either sends nothing or passes one request on. *)
Definition passes_on (rq : Request) (s s' : InfSys) : Prop :=
  if_sent s' = if_sent s ∨
  ∃ r bytes req, if_sent s' = if_sent s ++ [r] ∧ rq_Body rq = Some bytes ∧ decode_request bytes = Some req ∧ sn_Model r = ch_Model req ∧
    sn_URL r = completions_url (sn_Entry r) ∧ backend_body (sn_Entry r) (ch_Stream req) bytes (sn_Body r).
Ltac steps_tac tac :=
  repeat first
    [ apply all_steps_ret | apply all_steps_ask | apply all_steps_bind; [|intros ?]
    | apply all_steps_atomically; intros ?; cbn; repeat case_match; tac
    | match goal with |- all_steps _ (match ?x with _ => _ end) => destruct x eqn:? end
    | match goal with |- all_steps _ (if ?x then _ else _) => destruct x eqn:? end
    | match goal with |- all_steps _ (let '(_, _) := ?x in _) => destruct x end ].
Ltac silent_tac := steps_tac ltac:(by left).
Lemma silent_redis {A} rq (f : Clock → gmap string zkey → A * gmap string zkey) : all_steps (passes_on rq) (redis_call f).
Proof. unfold redis_call. silent_tac. Qed.
Lemma passes_limit rq limiter id next : all_steps (passes_on rq) next → all_steps (passes_on rq) (RateLimit limiter id next).
Proof. intros Hn. unfold RateLimit, cached_limits, inspect. silent_tac; try exact Hn; apply silent_redis. Qed.
Lemma passes_sent rq caller id model e b bytes req :
  rq_Body rq = Some bytes → decode_request bytes = Some req → model = ch_Model req → backend_body e (ch_Stream req) bytes b →
  all_steps (passes_on rq) (update (log_sent (mkSent caller id model e (completions_url e) b)) : InfP ()).
Proof.
  intros Hb Hd -> Hbody. apply all_steps_atomically. intros s. right. eexists _, bytes, req. split; [reflexivity|]. by split_and!.
Qed.
Lemma passes_chat limiter rq c id : all_steps (passes_on rq) (ChatCompletions limiter rq c id).
Proof.
  unfold ChatCompletions. destruct (rq_Body rq) as [bytes|] eqn:Hb; [|done]. destruct (decode_request bytes) as [req|] eqn:Hd; [|done].
  pose proof (λ e, passes_sent rq c id (ch_Model req) e) as Hsent.
  unfold Capabilities, get_entry, inspect. silent_tac;
    match goal with H : ch_Stream req = _ |- _ => rename H into Hst end.
  - eapply Hsent; [done..|]. rewrite Hst. apply streamed_backend.
  - eapply Hsent; [done..|]. rewrite Hst. apply forwarded_backend.
  - unfold trackUsage. silent_tac.
Qed.
Lemma passes_handler limiter rt rq c id : all_steps (passes_on rq) (handler limiter rt rq c id).
Proof. destruct rt; cbn [handler]; [apply passes_chat|unfold ListModels, inspect; silent_tac]. Qed.

(** C26. The body a backend gets. Whatever the store, the snapshot, Redis and the backend
    answer, and whatever runs beside it, each action of the handling of a request, by key or
    by supervisor, either passes nothing on or passes one request on, for the model the
    client named, whose body is made of that client's bytes as follows. If the bytes decode
    as a JSON object all of whose numbers fit a float64, the body is an object in which the
    model is the backend's own name where the alias says so; the reasoning switch, if
    configured, is set among the client's template arguments, which otherwise stay; with a
    configured system prompt the conversation is the client's with that prompt joined in
    front of a leading system message, or with a system message put first, or that message
    alone when the client sent no messages, and untouched when the first message is no
    object, all the client's further messages kept; a streaming request has the two usage
    switches set among its stream options, which otherwise stay; every other member is the
    client's, or, if absent, the alias' default, and no other member is added. Otherwise the
    client's bytes go out untouched: no default, no prompt, no rewriting. *)
Theorem forwarded_body_correct (sha256hex : string → string) (uuid_Parse : string → bool) (pg_uuid : string → option uuid) limiter trustDomain rt rq :
  all_steps (passes_on rq) (newRouter sha256hex limiter rt rq) ∧
  all_steps (passes_on rq) (newWorkloadRouter uuid_Parse pg_uuid limiter trustDomain rt rq).
Proof.
  split.
  - unfold newRouter, Auth, IdentityByAPIKey, inspect. silent_tac. apply passes_limit, passes_handler.
  - unfold newWorkloadRouter, WorkloadAuth, ResolvePoolBySpiffePrefix, ResolveTurnScope, live, inspect. silent_tac.
    all: apply passes_limit, passes_handler.
Qed.

(** * After the cutover *)
Definition legacy_view (w : World) : bool := acl_LegacyView (gateway_acl (pf_identity (wd_platform w))).
Definition gone (s : InfSys) : Prop := legacy_view (if_world s) = false.
Definition same_cache (s s' : InfSys) : Prop := if_cache s' = if_cache s.
Definition aside (s s' : InfSys) : Prop := if_world s' = if_world s ∧ if_cache s' = if_cache s.
(** Requests leave the world and the snapshot alone. *)
Ltac aside_tac := steps_tac done.
Lemma aside_redis {A} (f : Clock → gmap string zkey → A * gmap string zkey) : all_steps aside (redis_call f).
Proof. unfold redis_call. aside_tac. Qed.
Lemma aside_limit limiter id next : all_steps aside next → all_steps aside (RateLimit limiter id next).
Proof. intros Hn. unfold RateLimit, cached_limits, inspect. aside_tac; try exact Hn; apply aside_redis. Qed.
Lemma aside_handler limiter rt rq c id : all_steps aside (handler limiter rt rq c id).
Proof.
  destruct rt; cbn [handler]; [|unfold ListModels, inspect; aside_tac].
  unfold ChatCompletions, Capabilities, get_entry, inspect. aside_tac;
    unfold handleStreaming, handleNonStreaming, update, trackUsage; aside_tac; apply aside_redis.
Qed.
Section cutover.
Context (sha256hex : string → string) (uuid_Parse : string → bool) (pg_uuid : string → option uuid).
#[local] Notation run_inf := (run_inf sha256hex uuid_Parse pg_uuid).
Lemma aside_api limiter rt rq : all_steps aside (newRouter sha256hex limiter rt rq).
Proof. unfold newRouter, Auth, IdentityByAPIKey, inspect. aside_tac. apply aside_limit, aside_handler. Qed.
Lemma aside_workload limiter td rt rq : all_steps aside (newWorkloadRouter uuid_Parse pg_uuid limiter td rt rq).
Proof.
  unfold newWorkloadRouter, WorkloadAuth, ResolvePoolBySpiffePrefix, ResolveTurnScope, live, inspect. aside_tac;
    try (unfold live, inspect; aside_tac). apply aside_limit, aside_handler.
Qed.
Lemma safe_aside {A} (p : InfP A) : all_steps aside p → safe gone same_cache p (λ _, True).
Proof.
  intros Hp. apply safe_all. eapply all_steps_impl; [|exact Hp]. intros s s' [Hw Hc] Hg. unfold gone, same_cache.
  by rewrite Hw, Hc.
Qed.
Lemma safe_read {A} (f : World → option A) : safe gone same_cache (read_view f) (λ _, True).
Proof. intros [|]; [done|]. intros s r s' Hg [= <- <-]. done. Qed.
Lemma safe_keys : safe gone same_cache (read_view AllAPIKeys) (λ o, o = None).
Proof.
  intros [|]; [done|]. intros s r s' Hg [= <- <-]. split; [done|]. cbn. unfold stamped, AllAPIKeys.
  unfold gone, legacy_view in Hg. by rewrite Hg.
Qed.
Lemma safe_refresh : safe gone same_cache refresh (λ ok, ok = false).
Proof.
  unfold refresh. eapply (safe_then _ _ (ask QOrder)); [apply safe_ask|]. intros order.
  eapply (safe_then _ _ (read_view (ListCatalog order))); [apply safe_read|]. intros [e|]; [|done].
  eapply (safe_bind _ _ (read_view AllAPIKeys)); [apply safe_keys|]. by intros ? ->.
Qed.
Lemma safe_Start n : safe gone same_cache (Start n) (λ ok, ok = false).
Proof.
  induction n as [|n IH]; [done|]. cbn [Start]. eapply (safe_bind _ _ refresh); [apply safe_refresh|]. intros ? ->. exact IH.
Qed.
(** Changes that do not bring the dropped view back. *)
Definition keeps_cutover (t : InfThread) : Prop :=
  match t with TChange f => ∀ w, legacy_view w = false → legacy_view (f w) = false | _ => True end.
Lemma safe_thread t : keeps_cutover t → safe gone same_cache (run_inf t) (λ _, True).
Proof.
  assert (∀ p : InfP bool, safe gone same_cache p (λ ok, ok = false) → safe gone same_cache (p;; mret ()) (λ _, True)) as Hret.
  { intros p Hp. by eapply safe_bind; [exact Hp|]. }
  intros Hk. destruct t; cbn [run_inf].
  - apply safe_then; [apply safe_aside, aside_api|done].
  - apply safe_then; [apply safe_aside, aside_workload|done].
  - apply Hret, safe_Start.
  - apply Hret. eapply (safe_then _ _ await_notification); [|intros ?; apply safe_refresh].
    intros s r s' Hg. cbn. destruct (if_pending s); [|done]. by intros [= <- <-].
  - apply Hret, safe_refresh.
  - apply safe_atomically. intros s Hg. split; [|done]. split; [by apply Hk|done].
Qed.

(** C27. The cutover freezes the gateway. Once the verification of the new authority passes,
    and as long as nobody brings the dropped view back, no refresh succeeds: whatever runs,
    the snapshot stays what it was, revoked keys included, and a gateway that starts then
    never becomes ready. This gateway reads identity.active_api_keys, not the view that the
    cutover grants it. *)
Theorem cutover_freezes_snapshot ts s ps s' now :
  av_Passed (VerifyAuthority now (pf_identity (wd_platform (if_world s)))) = true →
  Forall keeps_cutover ts → tsteps (run_inf <$> ts) s ps s' →
  if_cache s' = if_cache s ∧ AllAPIKeys (if_world s') = None.
Proof.
  intros Hv Hts Hst.
  assert (gone s) as Hg.
  { unfold gone, legacy_view. unfold VerifyAuthority in Hv. destruct (negb _); [done|]. cbn in Hv. case_bool_decide as Hf; [|done].
    destruct (acl_LegacyView _); [|done]. exfalso. clear Hv. revert Hf. cbn. intros Hf.
    repeat match type of Hf with _ ++ _ = [] => apply app_nil in Hf as [? Hf] end.
    repeat match goal with H : _ ++ _ = [] |- _ => apply app_nil in H as [? H] end. done. }
  destruct (safe_tsteps gone same_cache (run_inf <$> ts) s ps s') as [Hg' Hc]; try done.
  - intros a b c H1 H2. unfold same_cache in *. congruence.
  - apply Forall_fmap. eapply Forall_impl; [exact Hts|]. apply safe_thread.
  - split; [done|]. unfold AllAPIKeys, gone, legacy_view in *. by rewrite Hg'.
Qed.
End cutover.
