(* ===== verification/InferenceDemo.v ===== *)
(** A small deployment of the inference gateway: one identity, one key, one model and one
    worker. Concrete runs at which the properties are instantiated, and what goes wrong. *)
From Stdlib Require Import Ascii.
From S2P Require Import Prelude Json Runtime Workflow Consequence ConsequenceFacts WorkerPool WorkData Dispatch IdentityData IdentityStore Authority Spiffe Catalog RateLimit InferenceBody Proc ProcLogic Inference InferenceFacts InferenceAccess.

(** * The deployment *)
Definition no_state (e : Epoch) : AuthorityRow := mkAuthority e None None JNull None None None None JNull None JNull.
Definition ann : IdentityRow := mkIdentityRow (mkIdentity "ann" "default/ann" KindUser SourceLocal "Ann") 0 None.
Definition ann_key : ApiKeyRow :=
  mkApiKey "ann" "h:secret" "" "" "" (Some ScopeToken) None None None 0 None 1 None None None None KeyActive None None None None None
    None AuthorityEpochLegacy.
Definition revoked_key : ApiKeyRow :=
  mkApiKey "ann" "h:secret" "" "" "" (Some ScopeToken) None None (Some 5) 0 None 1 None None None None KeyActive None None None None None
    None AuthorityEpochLegacy.
Definition views : gset string :=
  {[ "identity.active_api_keys"; "catalog.effective_catalog"; "permissions.effective_capabilities"; "permissions.effective_rate_limits" ]}.
Definition people (key : ApiKeyRow) : IdentityDB :=
  mkIdentityDB {[ "ann" := ann ]} ∅ ∅ {[ "k" := key ]} [] ∅ ∅ ∅ ∅ [] ∅ None (no_state AuthorityEpochLegacy) (mkAcl true views views true).
Definition gpu : BackendRow := mkBackendRow (mkBackend "b" "default/gpu" "gpu" "default" "vLLM" "org/small" "http://gpu" "" true true) 0 None.
Definition plain_json : json := JObj [].
Definition prompt_json : json := JObj [("system_prompt_prefix", JStr "Be kind.")].
Definition small (transforms : json) : ModelRow :=
  mkModelRow (mkModel "m" "default/small" "default" "small" "Small" 4096 (JArr []) "gpu" (JObj [("top_k", JNum 5 0)]) plain_json transforms plain_json true) 0 None.
Definition tables (key : ApiKeyRow) : PlatformDB := mkPlatformDB (people key) ∅ {[ "default/gpu" := gpu ]} {[ "default/small" := small prompt_json ]}.
Definition demo_run : Run :=
  {| run_ID := "R"; run_Kind := KindChat; run_DefinitionKey := None; run_ScopeIdentityID := "ann"; run_SessionID := ""; run_SessionDir := "";
     run_Trigger := JNull; run_State := RunRunning; run_CreatedAt := 0; run_UpdatedAt := 0; run_StartedAt := None; run_FinishedAt := None;
     run_Principals := no_principals |}.
Definition demo_turn : Turn :=
  {| turn_ID := "T"; turn_RunID := "R"; turn_StepID := None; turn_NodeExecutionID := None; turn_SessionID := ""; turn_Model := Some "small";
     turn_State := TurnRunning; turn_StartedAt := None; turn_SettledAt := None; turn_CreatedAt := 0; turn_UpdatedAt := 0 |}.
Definition demo_assignment : Assignment :=
  mkAssignment "T" "R" "pool" "w1" 7 "R" "ann" "p1" JNull JNull JNull AssignmentActive 0 0 None None None.
Definition demo_pool : Pool :=
  {| po_ID := "pool"; po_Key := "p1"; po_Name := "p1"; po_SpiffeIDPrefix := "spiffe://iterabase.local/pools/p1"; po_DeletedAt := None |}.
Definition no_models : WorkData.Catalog := {| ca_bindings := ∅; ca_models := ∅; ca_tool_versions := []; ca_grants := [] |}.
Definition floor : DispatchDB :=
  mkDispatchDB (mkWorkDB (mkRuntimeDB {["ann"]} {["R" := demo_run]} ∅ {["T" := demo_turn]} [] (λ _, "") 0) ∅ ∅ ∅ ∅ [] ∅ ∅ [] [] [] ∅ ∅ []
      no_models [] {["R" := "pool"]})
    {["T" := demo_assignment]} ∅ ∅ {["pool" := demo_pool]}.
Definition world (key : ApiKeyRow) (now : timestamp) : World := mkWorld now (tables key) floor.
Definition cold (w : World) : InfSys := mkInf [] w false empty_cache None ∅ [].
Definition toy_hash (s : string) : string := "h:" +:+ s.
Definition any_uuid (s : string) : bool := true.
Definition same_uuid (s : string) : option uuid := Some s.
Notation demo_threads := (run_inf toy_hash any_uuid same_uuid).
(** Everything answers; the backend returns a completion. *)
Definition completion : string := quoted "{'model':'org/small','usage':{'total_tokens':9}}".
Definition up (R : Type) (q : InfQ R) : R :=
  match q in InfQ R return R with
  | QFails => false | QOrder => [] | QRedis => Answered | QClock => mkClock 0 0 1 | QRequestOk => true
  | QBackend => Some (mkAnswer 200 completion true 10)
  end.
Definition ask_small : string := quoted "{'model':'small','messages':[{'role':'user','content':'hi'}]}".
Definition api_call (body : string) : Request := mkRequest "Bearer secret" "" None "" "" "" (Some body).
Definition worker_url : WURL := mkWURL "spiffe" "iterabase.local" false "" "" "" "" "/pools/p1/workers/w1".
Definition worker_call : Request :=
  mkRequest "" "" (Some [[("spiffe://iterabase.local/pools/p1/workers/w1", Some worker_url)]]) "R" "T" "7" (Some ask_small).
Lemma cold_inv w : inf_inv (cold w).
Proof. split; [done|constructor]. Qed.
Definition warm : InfSys := (run_threads up [demo_threads TPoll] (cold (world ann_key 3)) (replicate 12 0%nat)).2.
Lemma warm_inv : inf_inv warm.
Proof.
  unfold warm. generalize (replicate 12 0%nat). intros l.
  exact (proj1 (inf_threads toy_hash any_uuid same_uuid [TPoll] (cold (world ann_key 3)) _ _ (cold_inv _) (run_threads_tsteps up _ _ l))).
Qed.
Example warm_snapshot : ca_apiKeys (if_cache warm) !! "h:secret" = Some "ann" ∧ if_read_at warm = Some (0, 0, 0, 0)%nat.
Proof. by vm_compute. Qed.

(** * The properties, instantiated *)
Definition mixed_threads : list InfThread :=
  [TApi true PostChat (api_call ask_small); TWorkload true "" PostChat worker_call; TChange (λ _, world revoked_key 4)].
Definition mixed_schedule : list nat := (replicate 3 0 ++ replicate 8 1 ++ [2] ++ replicate 30 0 ++ replicate 30 1)%nat.
Definition mixed : list (InfP ()) * InfSys := run_threads up (demo_threads <$> mixed_threads) warm mixed_schedule.
Lemma model_calls_are_authorized_witness :
  (sn_URL <$> if_sent mixed.2) = ["http://gpu/v1/chat/completions"; "http://gpu/v1/chat/completions"] ∧
  ∀ r, r ∈ if_sent mixed.2 → authorized r mixed.2.
Proof.
  split; [by vm_compute|].
  apply (model_calls_are_authorized toy_hash any_uuid same_uuid mixed_threads warm mixed.1 mixed.2 warm_inv).
  apply run_threads_tsteps.
Defined.
Definition served_worker : option (Reply * InfSys) :=
  run_proc up (newWorkloadRouter any_uuid same_uuid true "" PostChat worker_call) warm.
Lemma supervisor_scope_is_live_witness :
  ∃ reply s', served_worker = Some (reply, s') ∧ ∃ id wc generation model,
    supervisor_of_conn (rq_TLS worker_call) "" = Some id ∧ scope_held (length (if_past warm)) id wc generation s' ∧ model = wc_AssignedModel wc.
Proof.
  assert ((λ x, served x.1) <$> served_worker = Some true) as Hv by (vm_compute; reflexivity).
  apply fmap_Some in Hv as ([reply s'] & E & Hs). exists reply, s'. split; [exact E|].
  destruct (supervisor_scope_is_live any_uuid same_uuid 0 true "" worker_call warm reply s' warm_inv) as (id & wc & g & model & H1 & _ & H2 & _ & H3).
  - exact (run_proc_psteps up (others inf_inv step_ok 0) (newWorkloadRouter any_uuid same_uuid true "" PostChat worker_call) warm reply s' E).
  - exact (eq_sym Hs).
  - exists id, wc, g, model. exact (conj H1 (conj H2 H3)).
Defined.
Lemma refreshed_gateway_follows_tables_witness :
  ∃ reply s', run_proc up (refresh;; newRouter toy_hash false PostChat (api_call ask_small)) (cold (world ann_key 3)) = Some (reply, s') ∧
    ∃ r, if_sent s' = [r].
Proof.
  destruct (refreshed_gateway_follows_tables toy_hash up (cold (world ann_key 3)) (api_call ask_small) ask_small (mkChat "small" false))
    as (reply & s' & Hrun & [(r & Hs & _)|(_ & _ & Hno)]); [done|done| | | |by vm_compute|done|by vm_compute|done| |].
  - repeat split; vm_compute; eauto.
  - vm_compute. constructor; [apply not_elem_of_nil|constructor].
  - vm_compute. constructor; [apply not_elem_of_nil|constructor].
  - exists reply, s'. split; [exact Hrun|]. by exists r.
  - exfalso. eapply (Hno "ann" (catalog_entry (mr_Model (small prompt_json)) gpu)). 
    refine (conj _ (conj (ex_intro _ ann (conj _ _)) (conj _ (conj _ _)))); vm_compute; first [reflexivity|left].
Defined.
(** The authority has been cut over and verified. *)
Definition new_people : IdentityDB :=
  mkIdentityDB {[ "ann" := ann ]} ∅ ∅ ∅ [] ∅ ∅ ∅ ∅ [] ∅ None (no_state AuthorityEpochV2) (mkAcl false ∅ ∅ false).
Definition cut_over (w : World) : World := mkWorld 9 (mkPlatformDB new_people ∅ {[ "default/gpu" := gpu ]} {[ "default/small" := small prompt_json ]}) floor.
Definition after_cutover : InfSys := change cut_over warm.
Definition later_threads : list InfThread := [TPoll; TListen; TApi false PostChat (api_call ask_small)].
Definition later_schedule : list nat := (replicate 20 0 ++ replicate 20 1 ++ replicate 30 2)%nat.
Definition later : list (InfP ()) * InfSys := run_threads up (demo_threads <$> later_threads) after_cutover later_schedule.
Lemma cutover_freezes_snapshot_witness :
  av_Passed (VerifyAuthority 9 new_people) = true ∧ ca_apiKeys (if_cache later.2) !! "h:secret" = Some "ann" ∧
  length (if_sent later.2) = 1%nat.
Proof.
  assert (av_Passed (VerifyAuthority 9 new_people) = true) as Hv by by vm_compute.
  split; [done|]. split; [|by vm_compute].
  assert (if_cache later.2 = if_cache after_cutover) as ->; [|by vm_compute].
  apply (cutover_freezes_snapshot toy_hash any_uuid same_uuid later_threads after_cutover later.1 later.2 9 Hv).
  - repeat constructor.
  - apply run_threads_tsteps.
Defined.

(** * What goes wrong *)
(** A poll that read the keys before a revocation stores them after the refresh that the
    revocation caused: the revoked key is back, the snapshot counts as fresh and no
    notification is pending. *)
Definition overtaken : InfSys :=
  (run_threads up (demo_threads <$> [TPoll; TChange (λ _, world revoked_key 4); TListen]) warm
     (replicate 9 0 ++ [1] ++ replicate 12 2 ++ [0])%nat).2.
Example stale_refresh_restores_key :
  ca_apiKeys (if_cache overtaken) !! "h:secret" = Some "ann" ∧ active_api_keys 4 (wd_platform (if_world overtaken)) = [] ∧
  Fresh 0 overtaken = true ∧ if_pending overtaken = false.
Proof. by vm_compute. Qed.
(** A number no float64 holds: the handler accepts the request, and the configured system
    prompt is not applied. *)
Definition overflowing : string := quoted "{'model':'small','x':1e999,'messages':[]}".
Example overflow_skips_transforms :
  decode_request overflowing = Some (mkChat "small" false) ∧
  forwarded_body (scan_entry (catalog_entry (mr_Model (small prompt_json)) gpu)) overflowing = RawBody overflowing.
Proof. by vm_compute. Qed.
(** A streaming request behind a configured prompt. *)
Definition streaming : string := quoted "{'model':'small','stream':true,'stream_options':{'x':1},'messages':[{'role':'user','content':'hi'}]}".
Example streaming_body :
  match injectStreamOptions (forwarded_body (scan_entry (catalog_entry (mr_Model (small prompt_json)) gpu)) streaming) with
  | ObjBody m =>
      members (m !! "stream_options") !! "include_usage" = Some (JBool true) ∧ is_Some (members (m !! "stream_options") !! "x") ∧
      match m !! "messages" with
      | Some (JArr [sys; own]) => members (Some sys) !! "role" = Some (JStr "system") ∧ members (Some own) !! "content" = Some (JStr "hi")
      | _ => False
      end
  | RawBody _ => False
  end.
Proof. vm_compute. split_and!; eauto. Qed.
(** The model is checked in any letter case and forwarded in lower case. *)
Definition two_models : string := quoted "{'model':'large','MODEL':'small'}".
Example checked_model_is_not_forwarded :
  decode_request two_models = Some (mkChat "small" false) ∧
  match forwarded_body (scan_entry (catalog_entry (mr_Model (small prompt_json)) gpu)) two_models with
  | ObjBody m => m !! "model" = Some (JStr "large")
  | RawBody _ => False
  end.
Proof. by vm_compute. Qed.
(** A rate limit above the largest integer makes the view fail for everybody; a policy for a
    group applies to the user with its key. *)
Definition limited (kind : string) (rpm : Z) : PlatformDB :=
  set_policies {[ "p" := mkPolicyRow (mkPolicy "p" "p" kind "default/ann" (Some (mkRateLimits rpm 100))) 0 None ]} (tables ann_key).
Example large_limit_stops_refresh :
  effective_rate_limits (limited "user" 2147483648) = None ∧
  option_map fst (run_proc up refresh (cold (mkWorld 3 (limited "user" 2147483648) floor))) = Some false.
Proof. by vm_compute. Qed.
Example group_policy_limits_user : effective_rate_limits (limited "group" 60) = Some [("ann", mkRateLimits 60 100)].
Proof. by vm_compute. Qed.
(** Two namespaces offer the same alias: the order of the rows decides where it goes. *)
Definition gpu2 : BackendRow := mkBackendRow (mkBackend "b2" "other/gpu" "gpu" "other" "vLLM" "org/small" "http://other" "" true true) 0 None.
Definition small2 : ModelRow :=
  mkModelRow (mkModel "m2" "other/small" "other" "small" "Small" 4096 (JArr []) "gpu" plain_json plain_json plain_json plain_json true) 0 None.
Definition twice : PlatformDB :=
  mkPlatformDB (people ann_key) ∅ {[ "default/gpu" := gpu; "other/gpu" := gpu2 ]} {[ "default/small" := small prompt_json; "other/small" := small2 ]}.
Definition backend_of (order : list nat) : option string :=
  en_BackendURL <$> ca_catalog (current_cache order (mkWorld 3 twice floor)) !! "small".
Example alias_depends_on_row_order : backend_of [0; 1]%nat ≠ backend_of [1; 0]%nat.
Proof. by vm_compute. Qed.
