(* ===== verification/Reconcile.v ===== *)
(** The reconcilers that carry declared resources into the database
    (control-plane/internal/controller: permissionpolicy_controller.go,
    identitymapping_controller.go, model_controller.go): create or update a row from the
    resource's specification, soft-delete it when the resource goes, with a finalizer in
    between.

    The Kubernetes API keeps for every resource the list of its versions (a version's number
    is its position) and how far the controller's informer has got: reads are from that
    cache, which never goes back. [Update] fails unless it is based on the last version; a
    status patch carries the fields that differ from the cached copy, and one that changes
    nothing makes no version. A resource being
    deleted disappears with its last finalizer. Every call of the API or the database may
    fail, or take effect without an answer. Other parties create, edit and delete resources at
    any moment, but leave the reconcilers' finalizer alone. *)
From S2P Require Import Prelude Json IdentityData IdentityStore Catalog Proc.

(** * The Kubernetes API *)
Record KStatus := mkStatus {
  ks_Ready : bool; ks_ID : string; ks_Healthy : bool; ks_LastChecked : option timestamp; ks_Observed : Z; ks_Message : string }.
#[export] Instance KStatus_eq : EqDecision KStatus. Proof. solve_decision. Defined.
(** [ko_Held]: somebody else's finalizer is present. *)
Record KObj (Sp : Type) := mkObj {
  ko_Generation : Z; ko_Deleting : bool; ko_Finalizer : bool; ko_Held : bool; ko_Spec : Sp; ko_Status : KStatus }.
Arguments mkObj {Sp}.
Arguments ko_Generation {Sp}.
Arguments ko_Deleting {Sp}.
Arguments ko_Finalizer {Sp}.
Arguments ko_Held {Sp}.
Arguments ko_Spec {Sp}.
Arguments ko_Status {Sp}.
Record Track (Sp : Type) := mkTrack { tk_versions : list (option (KObj Sp)); tk_seen : nat }.
Arguments mkTrack {Sp}.
Arguments tk_versions {Sp}.
Arguments tk_seen {Sp}.
Record KSys (Sp : Type) := mkKSys { ky_tracks : gmap string (Track Sp); ky_db : PlatformDB }.
Arguments mkKSys {Sp}.
Arguments ky_tracks {Sp}.
Arguments ky_db {Sp}.
Inductive KErr := ErrConflict | ErrGone | ErrCall | ErrCat (e : CatErr) | ErrId (e : IdErr).
Inductive kcall := KAnswered | KUnsent | KUnanswered.
Inductive KQ : Type → Type :=
| QCall : KQ kcall
| QLag : KQ nat
| QNow : KQ timestamp
| QNewID : KQ uuid
| QBackendStatus : KQ (option (bool * bool)).
(** What a round reports to the controller's queue. *)
Inductive KResult := Done | Requeue | RequeueAfter (d : Z) | Failed.
#[export] Instance KResult_eq : EqDecision KResult. Proof. solve_decision. Defined.

Section api.
Context {Sp : Type}.
#[local] Notation Obj := (KObj Sp).
#[local] Notation Sys := (KSys Sp).
#[local] Notation KP A := (proc Sys KQ A).
Definition no_track : Track Sp := mkTrack [None] 0.
Definition track_of (key : string) (s : Sys) : Track Sp := default no_track (ky_tracks s !! key).
Definition versions (key : string) (s : Sys) : list (option Obj) := tk_versions (track_of key s).
Definition seen (key : string) (s : Sys) : nat := tk_seen (track_of key s).
Definition newest (key : string) (s : Sys) : option Obj := default None (last (versions key s)).
Definition set_track (key : string) (t : Track Sp) (s : Sys) : Sys := mkKSys (<[key := t]> (ky_tracks s)) (ky_db s).
Definition set_kdb (d : PlatformDB) (s : Sys) : Sys := mkKSys (ky_tracks s) d.
Definition push (key : string) (v : option Obj) (s : Sys) : Sys := set_track key (mkTrack (versions key s ++ [v]) (seen key s)) s.
Definition with_finalizer (b : bool) (o : Obj) : Obj := mkObj (ko_Generation o) (ko_Deleting o) b (ko_Held o) (ko_Spec o) (ko_Status o).
Definition with_status (st : KStatus) (o : Obj) : Obj := mkObj (ko_Generation o) (ko_Deleting o) (ko_Finalizer o) (ko_Held o) (ko_Spec o) st.
(** The last finalizer goes: a resource being deleted goes too. *)
Definition collected (o : Obj) : option Obj :=
  if ko_Deleting o && negb (ko_Finalizer o) && negb (ko_Held o) then None else Some o.

(** The cached read. *)
Definition observe (key : string) (lag : nat) (s : Sys) : (option (nat * Obj)) * Sys :=
  let i := Nat.min (Nat.max (seen key s) lag) (length (versions key s) - 1) in
  (match versions key s !! i with Some (Some o) => Some (i, o) | _ => None end, set_track key (mkTrack (versions key s) i) s).
Definition get (key : string) : KP (KErr + option (nat * Obj)) :=
  c ← ask QCall;
  match c with
  | KAnswered => lag ← ask QLag; r ← atomically (observe key lag); mret (inr r)
  | _ => mret (inl ErrCall)
  end.
Definition update_tx (key : string) (version : nat) (f : Obj → Obj) (s : Sys) : (KErr + ()) * Sys :=
  match newest key s with
  | None => (inl ErrGone, s)
  | Some o => if (version =? length (versions key s) - 1)%nat then (inr (), push key (collected (f o)) s) else (inl ErrConflict, s)
  end.
Definition api_call (f : Sys → (KErr + ()) * Sys) : KP (KErr + ()) :=
  c ← ask QCall;
  match c with
  | KAnswered => atomically f
  | KUnsent => mret (inl ErrCall)
  | KUnanswered => atomically (λ s, (inl ErrCall, (f s).2))
  end.
Definition Update (key : string) (version : nat) (f : Obj → Obj) : KP (KErr + ()) := api_call (update_tx key version f).
(** A merge patch: the fields of [new] that differ from [base]. *)
Definition merge_status (base new cur : KStatus) : KStatus :=
  mkStatus (if Bool.eqb (ks_Ready base) (ks_Ready new) then ks_Ready cur else ks_Ready new)
    (if String.eqb (ks_ID base) (ks_ID new) then ks_ID cur else ks_ID new)
    (if Bool.eqb (ks_Healthy base) (ks_Healthy new) then ks_Healthy cur else ks_Healthy new)
    (if decide (ks_LastChecked base = ks_LastChecked new) then ks_LastChecked cur else ks_LastChecked new)
    (if ks_Observed base =? ks_Observed new then ks_Observed cur else ks_Observed new)
    (if String.eqb (ks_Message base) (ks_Message new) then ks_Message cur else ks_Message new).
Definition patch_tx (key : string) (base new : KStatus) (s : Sys) : (KErr + ()) * Sys :=
  match newest key s with
  | None => (inl ErrGone, s)
  | Some o =>
      let st := merge_status base new (ko_Status o) in
      (inr (), if decide (st = ko_Status o) then s else push key (Some (with_status st o)) s)
  end.
Definition Patch (key : string) (base new : KStatus) : KP (KErr + ()) := api_call (patch_tx key base new).
(** A statement of the stores. *)
Definition db_run {A} (m : Tx PlatformDB KErr A) (s : Sys) : (KErr + A) * Sys :=
  let '(r, d) := run_tx m (ky_db s) in (r, set_kdb d s).
Definition db_call {A} (m : timestamp → Tx PlatformDB KErr A) : KP (KErr + A) :=
  c ← ask QCall; now ← ask QNow;
  match c with
  | KAnswered => atomically (db_run (m now))
  | KUnsent => mret (inl ErrCall)
  | KUnanswered => atomically (λ s, (inl ErrCall, (db_run (m now) s).2))
  end.

(** * One round *)
(** [Reconcile] up to the materialization, which the three reconcilers share. *)
Definition reconcileDelete (softDelete : timestamp → Tx PlatformDB KErr ()) (key : string) (version : nat) (o : Obj) : KP KResult :=
  if negb (ko_Finalizer o) then mret Done
  else
    d ← db_call softDelete;
    match d with
    | inl _ => mret Failed
    | inr _ =>
        u ← Update key version (with_finalizer false);
        mret (match u with inl _ => Failed | inr _ => Done end)
    end.
Definition Reconcile (softDelete : timestamp → Tx PlatformDB KErr ()) (materialize : Obj → KP KResult) (key : string) : KP KResult :=
  r ← get key;
  match r with
  | inl _ => mret Failed
  | inr None => mret Done
  | inr (Some (version, o)) =>
      if ko_Deleting o then reconcileDelete softDelete key version o
      else if negb (ko_Finalizer o) then
        u ← Update key version (with_finalizer true);
        mret (match u with inl _ => Failed | inr _ => Requeue end)
      else materialize o
  end.
(** [patchStatus] of policies and identities. *)
Definition patchStatus (key : string) (o : Obj) (ready : bool) (id message : string) : KP (KErr + ()) :=
  let st := ko_Status o in
  Patch key st (mkStatus ready id (ks_Healthy st) (ks_LastChecked st) (ko_Generation o) message).

(** What other parties do to a resource. [EFinalizer] puts the reconciler's finalizer on or
    takes it off by hand; the API server adds none to what is being deleted. *)
Inductive KEdit := ECreate (sp : Sp) (held : bool) | EEdit (sp : Sp) | EDelete | ERelease | EFinalizer (b : bool).
Definition no_status : KStatus := mkStatus false EmptyString false None 0 EmptyString.
Definition edited (e : KEdit) (cur : option Obj) : option (option Obj) :=
  match e, cur with
  | ECreate sp held, None => Some (Some (mkObj 1 false false held sp no_status))
  | EEdit sp, Some o => Some (Some (mkObj (ko_Generation o + 1) (ko_Deleting o) (ko_Finalizer o) (ko_Held o) sp (ko_Status o)))
  | EDelete, Some o => Some (collected (mkObj (ko_Generation o + 1) true (ko_Finalizer o) (ko_Held o) (ko_Spec o) (ko_Status o)))
  | ERelease, Some o => Some (collected (mkObj (ko_Generation o) (ko_Deleting o) (ko_Finalizer o) false (ko_Spec o) (ko_Status o)))
  | EFinalizer b, Some o => if b && ko_Deleting o && negb (ko_Finalizer o) then None else Some (collected (with_finalizer b o))
  | _, _ => None
  end.
Definition edit (key : string) (e : KEdit) : KP () :=
  update (λ s, match edited e (newest key s) with Some v => push key v s | None => s end).
End api.

Definition lift_cat {A} (m : Tx PlatformDB CatErr A) : Tx PlatformDB KErr A := λ d,
  match m d with inl e => inl (ErrCat e) | inr r => inr r end.
Definition lift_id {A} (m : Tx IdentityDB IdErr A) : Tx PlatformDB KErr A := λ d,
  match m (pf_identity d) with inl e => inl (ErrId e) | inr (a, i) => inr (a, set_identity i d) end.

Section reconcilers.
(** The text of an error. *)
Context (err_text : KErr → string).

(** * Permission policies *)
Record PolicySpec := mkPolicySpec { ps_SubjectKind : string; ps_SubjectKey : string; ps_RateLimits : option RateLimits }.
Definition materialize_policy (key : string) (o : KObj PolicySpec) : proc (KSys PolicySpec) KQ KResult :=
  fresh ← ask QNewID;
  pol ← db_call (λ now, lift_cat (UpsertPolicy fresh key (ps_SubjectKind (ko_Spec o)) (ps_SubjectKey (ko_Spec o)) (ps_RateLimits (ko_Spec o)) now));
  match pol with
  | inl e => patchStatus key o false EmptyString ("upsert policy: " +:+ err_text e);; mret Failed
  | inr p => r ← patchStatus key o true (pl_ID p) EmptyString; mret (match r with inl _ => Failed | inr _ => Done end)
  end.
Definition reconcile_policy (key : string) : proc (KSys PolicySpec) KQ KResult :=
  Reconcile (λ now, lift_cat (SoftDeletePolicyByKey key now)) (materialize_policy key) key.

(** * Identity mappings *)
Definition SourceExternal : string := "external".
Record MappingSpec := mkMappingSpec { is_Kind : string; is_DisplayName : string; is_Bindings : list Binding }.
Definition materialize_identity (key : string) (o : KObj MappingSpec) : proc (KSys MappingSpec) KQ KResult :=
  fresh ← ask QNewID;
  ident ← db_call (λ now, lift_id (UpsertIdentity fresh key (is_Kind (ko_Spec o)) SourceExternal (is_DisplayName (ko_Spec o)) now));
  match ident with
  | inl e => patchStatus key o false EmptyString ("upsert identity: " +:+ err_text e);; mret Failed
  | inr i =>
      b ← db_call (λ _, lift_id (ReplaceExternalMappings (id_ID i) (is_Bindings (ko_Spec o))));
      match b with
      | inl e => patchStatus key o false (id_ID i) ("replace bindings: " +:+ err_text e);; mret Failed
      | inr _ => r ← patchStatus key o true (id_ID i) EmptyString; mret (match r with inl _ => Failed | inr _ => Done end)
      end
  end.
Definition reconcile_identity (key : string) : proc (KSys MappingSpec) KQ KResult :=
  Reconcile (λ now, lift_id (SoftDeleteIdentityByKey key now)) (materialize_identity key) key.

(** * Models *)
(** The marshalled fields of the specification are texts. *)
Record ModelSpec := mkModelSpec {
  ms_Namespace : string; ms_ModelID : string; ms_DisplayName : string; ms_ContextLength : Z; ms_Capabilities : string;
  ms_BackendRef : string; ms_DefaultParams : string; ms_ReasoningConfig : string; ms_Transforms : string; ms_RateLimits : string }.
Definition modelStatusChanged (st : KStatus) (generation : Z) (available healthy : bool) (message : string) : bool :=
  negb (Bool.eqb (ks_Ready st) available) || negb (Bool.eqb (ks_Healthy st) healthy) || negb (ks_Observed st =? generation) ||
  negb (String.eqb (ks_Message st) message).
Definition patch_model_status (key : string) (o : KObj ModelSpec) (available healthy : bool) (message : string) : proc (KSys ModelSpec) KQ (KErr + ()) :=
  if negb (modelStatusChanged (ko_Status o) (ko_Generation o) available healthy message) then mret (inr ())
  else
    now ← ask QNow;
    Patch key (ko_Status o) (mkStatus available (ks_ID (ko_Status o)) healthy (Some now) (ko_Generation o) message).
(** [resolveBackend] reads the cached backend: [inr None] is a missing one. *)
Definition bool_text (b : bool) : string := if b then "true" else "false".
(** [%q] of a resource's name. *)
Definition quoted_name (s : string) : string := String dquote (s +:+ String dquote EmptyString).
Definition backend_not_found (ref : string) : string := "backend " +:+ quoted_name ref +:+ " not found".
Definition backend_not_ready (ref : string) (deployed healthy : bool) : string :=
  "backend " +:+ quoted_name ref +:+ " not ready (deployed=" +:+ bool_text deployed +:+ " healthy=" +:+ bool_text healthy +:+ ")".
Definition resolveBackend (o : KObj ModelSpec) : proc (KSys ModelSpec) KQ (KErr + (bool * bool * string)) :=
  c ← ask QCall;
  match c with
  | KAnswered =>
      st ← ask QBackendStatus;
      mret (inr match st with
                | None => (false, false, backend_not_found (ms_BackendRef (ko_Spec o)))
                | Some (deployed, healthy) =>
                    (deployed && healthy, healthy,
                     if deployed && healthy then EmptyString else backend_not_ready (ms_BackendRef (ko_Spec o)) deployed healthy)
                end)
  | _ => mret (inl ErrCall)
  end.
Definition model_row (key : string) (sp : ModelSpec) (available : bool) : Model string :=
  mkModel EmptyString key (ms_Namespace sp) (ms_ModelID sp) (ms_DisplayName sp) (ms_ContextLength sp) (ms_Capabilities sp) (ms_BackendRef sp)
    (ms_DefaultParams sp) (ms_ReasoningConfig sp) (ms_Transforms sp) (ms_RateLimits sp) available.
(** In microseconds. *)
Definition modelRequeueInterval : Z := 30000000.
Definition reconcileUpsert (key : string) (o : KObj ModelSpec) : proc (KSys ModelSpec) KQ KResult :=
  if String.eqb (ms_BackendRef (ko_Spec o)) EmptyString
  then patch_model_status key o false false "spec.backendRef is required";; mret Done
  else
    b ← resolveBackend o;
    match b with
    | inl _ => mret Failed
    | inr (available, healthy, msg) =>
        fresh ← ask QNewID;
        u ← db_call (λ now, lift_cat (UpsertModel fresh (model_row key (ko_Spec o) available) now));
        match u with
        | inl _ => mret Failed
        | inr _ =>
            r ← patch_model_status key o available healthy msg;
            mret (match r with inl _ => Failed | inr _ => RequeueAfter modelRequeueInterval end)
        end
    end.
Definition reconcile_model (key : string) : proc (KSys ModelSpec) KQ KResult :=
  Reconcile (λ now, lift_cat (SoftDeleteModelByKey key now)) (reconcileUpsert key) key.
End reconcilers.
