(* ===== verification/ReconcileFacts.v ===== *)
(** The finalizer protocol of the reconcilers: no row outlives its resource, and what one
    round leaves behind; then a small cluster with one policy and one model, at which the
    properties are instantiated, and a model whose backend was taken out. *)
From S2P Require Import Prelude Json IdentityData IdentityStore Catalog Proc ProcLogic Reconcile Authority.

Section tracks.
Context {Sp : Type}.
#[local] Notation Sys := (KSys Sp).
Implicit Types (s : Sys).
Lemma track_set_eq key t s : track_of key (set_track key t s) = t.
Proof. unfold track_of. cbn. by rewrite lookup_insert_eq. Qed.
Lemma track_set_ne key k t s : k ≠ key → track_of k (set_track key t s) = track_of k s.
Proof. intros Hk. unfold track_of. cbn. by rewrite lookup_insert_ne. Qed.
Lemma push_versions key v s : versions key (push key v s) = versions key s ++ [v].
Proof. unfold push, versions at 1. by rewrite track_set_eq. Qed.
Lemma push_seen key v s : seen key (push key v s) = seen key s.
Proof. unfold push, seen at 1. by rewrite track_set_eq. Qed.
Lemma push_newest key v s : newest key (push key v s) = v.
Proof. unfold newest. by rewrite push_versions, last_snoc. Qed.
Lemma push_ne key k v s : k ≠ key → track_of k (push key v s) = track_of k s.
Proof. apply track_set_ne. Qed.
(** Two states that agree on a resource. *)
Lemma same_track k s s' : track_of k s' = track_of k s → versions k s' = versions k s ∧ seen k s' = seen k s ∧ newest k s' = newest k s.
Proof. unfold newest, versions, seen. by intros ->. Qed.
End tracks.

Section finalizers.
Context {Sp : Type} (active : string → PlatformDB → Prop) (keyof : nat → option string).
Context (distinct : ∀ i j k, keyof i = Some k → keyof j = Some k → i = j).
#[local] Notation Sys := (KSys Sp).
#[local] Notation KP A := (proc Sys KQ A).
Implicit Types (s : Sys).
(** The newest version carries the finalizer. *)
Definition protected (k : string) s : Prop := ∃ o, newest k s = Some o ∧ ko_Finalizer o = true.
Definition usable (o : KObj Sp) : Prop := ko_Finalizer o = true ∧ ko_Deleting o = false.
(** A row has its resource behind it, and any copy the informer may still hand out as usable
    does too. *)
Definition rec_ok (k : string) s : Prop :=
  (seen k s < length (versions k s))%nat ∧ (active k (ky_db s) → protected k s) ∧
  (∀ i o, (seen k s ≤ i)%nat → versions k s !! i = Some (Some o) → usable o → protected k s).
Definition rec_inv s : Prop := ∀ k, rec_ok k s.
(** What a process may do to a resource that is not its own. *)
Definition foreign_step (k : string) s s' : Prop :=
  (active k (ky_db s') → active k (ky_db s)) ∧ seen k s' = seen k s ∧ versions k s `prefix_of` versions k s' ∧
  (protected k s → protected k s').
Definition rec_step (me : nat) s s' : Prop := ∀ k, keyof me ≠ Some k → foreign_step k s s'.
#[local] Notation rec_owns := (owns (Q:=KQ) rec_inv rec_step).
Lemma foreign_refl k s s' : track_of k s' = track_of k s → (active k (ky_db s') → active k (ky_db s)) → foreign_step k s s'.
Proof.
  intros Ht Ha. destruct (same_track k s s' Ht) as (Hv & Hs & Hn). split_and!; [done|done|by rewrite Hv|].
  unfold protected. by rewrite Hn.
Qed.
Lemma rec_ok_same k s s' : track_of k s' = track_of k s → (active k (ky_db s') → active k (ky_db s)) → rec_ok k s → rec_ok k s'.
Proof.
  intros Ht Ha (H1 & H2 & H3). destruct (same_track k s s' Ht) as (Hv & Hs & Hn). unfold rec_ok, protected in *.
  rewrite Hv, Hs, Hn. split_and!; [done|by auto|done].
Qed.
(** A new version of a resource. *)
Lemma last_version (l : list (option (KObj Sp))) : l ≠ [] → default None (last l) = default None (l !! (length l - 1)%nat).
Proof. intros Hl. by rewrite last_lookup, Nat.sub_1_r. Qed.
Lemma push_ok key v s :
  rec_ok key s → (active key (ky_db s) → ∃ o, v = Some o ∧ ko_Finalizer o = true) →
  ((∃ i o, (seen key s ≤ i)%nat ∧ versions key s !! i = Some (Some o) ∧ usable o) → ∃ o, v = Some o ∧ ko_Finalizer o = true) →
  rec_ok key (push key v s).
Proof.
  intros (H1 & H2 & H3) Ha Hu. unfold rec_ok, protected. rewrite push_versions, push_seen, push_newest, length_app. cbn. split_and!; [lia|done|].
  intros i o Hi Hl Huse. apply lookup_app_Some in Hl as [Hl|[Hge Hl]]; [apply Hu; by exists i, o|].
  apply list_lookup_singleton_Some in Hl as [_ ->]. exists o. split; [done|]. apply Huse.
Qed.
Lemma push_inv key v s : rec_inv s → rec_ok key (push key v s) → rec_inv (push key v s).
Proof.
  intros Hi Hk k. destruct (decide (k = key)) as [->|Hne]; [done|]. apply (rec_ok_same k s); [by apply push_ne|done|apply Hi].
Qed.
(** A version that keeps the finalizer. *)
Lemma push_keeps key o' s :
  rec_inv s → (protected key s → ko_Finalizer o' = true) → rec_inv (push key (Some o') s) ∧ ∀ k, foreign_step k s (push key (Some o') s).
Proof.
  intros Hi Hf. split.
  - apply push_inv; [done|]. destruct (Hi key) as (H1 & H2 & H3). apply push_ok; [apply Hi| |].
    + intros Ha. exists o'. split; [done|]. auto.
    + intros (i & o & Hi' & Hl & Hu). exists o'. split; [done|]. apply Hf. by eapply H3.
  - intros k. destruct (decide (k = key)) as [->|Hne]; [|apply foreign_refl; [by apply push_ne|done]].
    split_and!; [done|apply push_seen|rewrite push_versions; by apply prefix_app_r|].
    intros Hp. exists o'. split; [apply push_newest|by apply Hf].
Qed.
(** A version of a resource without the finalizer. *)
Lemma push_free key v s :
  rec_inv s → ¬ protected key s → (∀ o, v = Some o → usable o → ko_Finalizer o = true) → rec_inv (push key v s) ∧ ∀ k, foreign_step k s (push key v s).
Proof.
  intros Hi Hn Hv. split.
  - apply push_inv; [done|]. destruct (Hi key) as (H1 & H2 & H3). apply push_ok; [apply Hi| |].
    + intros Ha. destruct (Hn (H2 Ha)).
    + intros (i & o & Hi' & Hl & Hu). destruct Hn. by eapply H3.
  - intros k. destruct (decide (k = key)) as [->|Hne]; [|apply foreign_refl; [by apply push_ne|done]].
    split_and!; [done|apply push_seen|rewrite push_versions; by apply prefix_app_r|done].
Qed.

(** * Other parties *)
Lemma collected_cases (o : KObj Sp) : (collected o = Some o) ∨ (collected o = None ∧ ko_Finalizer o = false).
Proof. unfold collected. destruct (ko_Deleting o), (ko_Finalizer o), (ko_Held o); cbn; auto. Qed.
Lemma push_like key v o s :
  newest key s = Some o → (∃ o', v = Some o' ∧ ko_Finalizer o' = ko_Finalizer o) ∨ (v = None ∧ ko_Finalizer o = false) → rec_inv s →
  rec_inv (push key v s) ∧ ∀ k, foreign_step k s (push key v s).
Proof.
  intros Hn Hv Hi. destruct (ko_Finalizer o) eqn:Hf.
  - destruct Hv as [(o' & -> & Hf')|[_ ?]]; [|done]. by apply push_keeps.
  - apply push_free; [done| |].
    + intros (o1 & Ho1 & Hf1). rewrite Hn in Ho1. injection Ho1 as <-. congruence.
    + by intros o1 _ [? _].
Qed.
Lemma owns_else me (f : PlatformDB → PlatformDB) :
  (∀ k d, active k (f d) → active k d) → rec_owns me (update (λ s, set_kdb (f (ky_db s)) s)) (λ _, True) (λ _ _, True).
Proof.
  intros Hf. apply owns_atomically; [|intros; apply undisturbed_pure]. intros s Hi _. cbn. split; [split|done].
  - intros k. apply (rec_ok_same k s); [done|apply Hf|apply Hi].
  - intros k _. apply foreign_refl; [done|apply Hf].
Qed.
Lemma owns_edit me key e : e ≠ EFinalizer false → rec_owns me (edit key e) (λ _, True) (λ _ _, True).
Proof.
  intros Hkeep. apply owns_atomically; [|intros; apply undisturbed_pure]. intros s Hi _. cbn. split; [|done].
  destruct (edited e (newest key s)) as [v|] eqn:He.
  2:{ split; [done|]. intros k _. by apply foreign_refl. }
  assert (rec_inv (push key v s) ∧ ∀ k, foreign_step k s (push key v s)) as [Hp1 Hp2]; [|split; [done|]; intros k _; apply Hp2].
  destruct (newest key s) as [o|] eqn:Hn; destruct e as [| | | |b]; try done; try (injection He as <-).
  - apply (push_like key _ o); [done| |done]. left. eexists. done.
  - apply (push_like key _ o); [done| |done].
    destruct (collected_cases (mkObj (ko_Generation o + 1) true (ko_Finalizer o) (ko_Held o) (ko_Spec o) (ko_Status o))) as [->|[-> Hf]]; [left; eexists; done|by right].
  - apply (push_like key _ o); [done| |done].
    destruct (collected_cases (mkObj (ko_Generation o) (ko_Deleting o) (ko_Finalizer o) false (ko_Spec o) (ko_Status o))) as [->|[-> Hf]]; [left; eexists; done|by right].
  - destruct b; [|done]. cbn in He. case_match; [done|]. injection He as <-.
    destruct (collected_cases (with_finalizer true o)) as [->|[_ Hf]]; [|done]. by apply push_keeps.
  - apply push_free; [done| |].
    + intros (o1 & Ho1 & _). congruence.
    + by intros o1 _ [? _].
Qed.

(** * The reconciler of a resource *)
Section owner.
Context (me : nat) (key : string) (mine : keyof me = Some key).
Lemma not_foreign j : j ≠ me → keyof j ≠ Some key.
Proof. intros Hj Hk. apply Hj. by eapply distinct. Qed.
Lemma protected_undisturbed : undisturbed rec_inv rec_step me (protected key).
Proof. intros j s s' Hj _ _ Hst. by apply (Hst key (not_foreign j Hj)). Qed.
Lemma inactive_undisturbed : undisturbed rec_inv rec_step me (λ s, ¬ active key (ky_db s)).
Proof. intros j s s' Hj _ _ Hst Hn Ha. apply Hn. by apply (Hst key (not_foreign j Hj)). Qed.
(** The copy in hand is the one the informer has got to. *)
Definition in_hand (i : nat) (o : KObj Sp) s : Prop := seen key s = i ∧ versions key s !! i = Some (Some o).
Lemma in_hand_undisturbed i o : undisturbed rec_inv rec_step me (in_hand i o).
Proof.
  intros j s s' Hj _ _ Hst [<- Hv]. destruct (Hst key (not_foreign j Hj)) as (_ & Hs & Hp & _).
  split; [done|]. by eapply prefix_lookup_Some.
Qed.
(** Every step on one's own resource is allowed. *)
Lemma own_step s s' : (∀ k, k ≠ key → foreign_step k s s') → rec_step me s s'.
Proof. intros H k Hk. apply H. intros ->. by apply Hk. Qed.
Lemma owns_read_resource :
  rec_owns me (get key) (λ _, True)
    (λ r s, match r with inr (Some (i, o)) => in_hand i o s ∧ (usable o → protected key s) | _ => True end).
Proof.
  unfold get. apply owns_ask. intros c. destruct c; [|by apply owns_ret..]. apply owns_ask. intros lag.
  eapply (owns_bind _ _ me _ _ _ (λ r s, match r with Some (i, o) => in_hand i o s ∧ (usable o → protected key s) | None => True end)).
  2:{ intros r. apply owns_ret. intros s _ Hr. by destruct r as [[i o]|]. }
  apply owns_atomically.
  2:{ intros [[i o]|]; [|apply undisturbed_pure]. apply undisturbed_and; [apply in_hand_undisturbed|].
      intros j s s' Hj Hs Hs' Hst Hu Huse. exact (protected_undisturbed j s s' Hj Hs Hs' Hst (Hu Huse)). }
  intros s Hi _. set (i := Nat.min (Nat.max (seen key s) lag) (length (versions key s) - 1)).
  assert (seen key s ≤ i ∧ i < length (versions key s))%nat as [Hle Hlt] by (destruct (Hi key) as (? & _); lia).
  unfold observe. fold i. cbn [fst snd].
  set (s' := set_track key (mkTrack (versions key s) i) s).
  assert (versions key s' = versions key s ∧ seen key s' = i) as [Hv Hs] by (unfold versions at 1, seen, s'; by rewrite track_set_eq).
  assert (newest key s' = newest key s) as Hn by (unfold newest; by rewrite Hv).
  assert (∀ k, k ≠ key → track_of k s' = track_of k s) as Hoth by (intros; by apply track_set_ne).
  split; [split|].
  - intros k. destruct (decide (k = key)) as [->|Hne]; [|apply (rec_ok_same k s); [by apply Hoth|done|apply Hi]].
    destruct (Hi key) as (H1 & H2 & H3). unfold rec_ok, protected in *. rewrite Hv, Hs, Hn. split_and!; [done|done|].
    intros j o Hj. apply H3. lia.
  - apply own_step. intros k Hk. apply foreign_refl; [by apply Hoth|done].
  - destruct (versions key s !! i) as [[o|]|] eqn:Hl; [|done|done]. split; [split; [done|by rewrite Hv]|].
    intros Hu. unfold protected. rewrite Hn. destruct (Hi key) as (_ & _ & H3). by eapply H3.
Qed.
Lemma owns_api f K Φ :
  (∀ s, rec_inv s → K s → (rec_inv (f s).2 ∧ rec_step me s (f s).2) ∧ Φ (f s).1 (f s).2 ∧ Φ (inl ErrCall) (f s).2) →
  (∀ s, K s → Φ (inl ErrCall) s) → (∀ r, undisturbed rec_inv rec_step me (Φ r)) → rec_owns me (api_call f) K Φ.
Proof.
  intros Hf HK HΦ. unfold api_call. apply owns_ask. intros c. destruct c; [| |].
  - apply owns_atomically; [|done]. intros s Hi Hk. destruct (Hf s Hi Hk) as (? & ? & _). done.
  - apply owns_ret. auto.
  - apply owns_atomically; [|done]. intros s Hi Hk. destruct (Hf s Hi Hk) as (? & _ & ?). done.
Qed.
(** A status patch keeps the finalizer as it is. *)
Lemma owns_patch base new : rec_owns me (Patch key base new) (λ _, True) (λ _ _, True).
Proof.
  apply owns_api; [|done|intros; apply undisturbed_pure]. intros s Hi _. unfold patch_tx.
  destruct (newest key s) as [o|] eqn:Hn; cbn [fst snd]; [case_decide|].
  - split; [|done]. split; [done|]. intros k _. by apply foreign_refl.
  - destruct (push_like key (Some (with_status (merge_status base new (ko_Status o)) o)) o s Hn) as [H1 H2]; [left; eexists; done|done|].
    split; [|done]. split; [done|]. intros k _. apply H2.
  - split; [|done]. split; [done|]. intros k _. by apply foreign_refl.
Qed.
(** Taking the finalizer off, when the row is gone and the copy in hand is being deleted. *)
Lemma owns_release i o :
  ko_Deleting o = true →
  rec_owns me (Update key i (with_finalizer false)) (λ s, in_hand i o s ∧ ¬ active key (ky_db s)) (λ _ _, True).
Proof.
  intros Hd. apply owns_api; [|done|intros; apply undisturbed_pure]. intros s Hi [[Hs Hv] Hna]. unfold update_tx.
  destruct (newest key s) as [o'|] eqn:Hn; cbn [fst snd]; [|split; [|done]; split; [done|]; intros k _; by apply foreign_refl].
  destruct (Nat.eqb_spec i (length (versions key s) - 1)) as [Hlast|]; cbn [fst snd]; [|split; [|done]; split; [done|]; intros k _; by apply foreign_refl].
  assert (o' = o) as ->.
  { unfold newest in Hn. rewrite last_version, <- Hlast, Hv in Hn by (intros E; by rewrite E in Hv). by injection Hn. }
  split; [|done]. split.
  - apply push_inv; [done|]. apply push_ok; [apply Hi|done|]. intros (j & o1 & Hj & Hl & Hu). exfalso.
    assert (j < length (versions key s))%nat by by eapply lookup_lt_Some.
    assert (j = i) as -> by lia. rewrite Hv in Hl. injection Hl as <-. destruct Hu as [_ Hu]. congruence.
  - apply own_step. intros k Hk. apply foreign_refl; [by apply push_ne|done].
Qed.
(** Putting it on, on a copy that is not being deleted. *)
Lemma owns_protect i o :
  ko_Deleting o = false → ko_Finalizer o = false →
  rec_owns me (Update key i (with_finalizer true)) (in_hand i o) (λ _ _, True).
Proof.
  intros Hd Hf. apply owns_api; [|done|intros; apply undisturbed_pure]. intros s Hi [Hs Hv]. unfold update_tx.
  destruct (newest key s) as [o'|] eqn:Hn; cbn [fst snd]; [|split; [|done]; split; [done|]; intros k _; by apply foreign_refl].
  destruct (Nat.eqb_spec i (length (versions key s) - 1)); cbn [fst snd]; [|split; [|done]; split; [done|]; intros k _; by apply foreign_refl].
  split; [|done]. assert (collected (with_finalizer true o') = Some (with_finalizer true o')) as ->.
  { unfold collected. cbn. by rewrite andb_false_r. }
  destruct (push_keeps key (with_finalizer true o') s Hi (λ _, eq_refl)) as [H1 H2]. split; [done|]. intros k _. apply H2.
Qed.
(** A statement that leaves other keys alone. *)
Definition local_to {A} (m : timestamp → Tx PlatformDB KErr A) : Prop :=
  ∀ now d a d' k, m now d = inr (a, d') → k ≠ key → active k d' → active k d.
Lemma db_run_cases {A} (m : Tx PlatformDB KErr A) s :
  (∃ e, db_run m s = (inl e, s) ∧ m (ky_db s) = inl e) ∨ ∃ a d, m (ky_db s) = inr (a, d) ∧ db_run m s = (inr a, set_kdb d s).
Proof.
  unfold db_run, run_tx. destruct (m (ky_db s)) as [e|[a d]]; [left; exists e; by destruct s|right; eauto].
Qed.
(** [Q] tells what the statement leaves behind when it succeeds. *)
Lemma owns_db {A} (m : timestamp → Tx PlatformDB KErr A) K (P : KSys Sp → Prop) :
  local_to m → undisturbed rec_inv rec_step me P → (∀ s, K s → ∀ d, P (set_kdb d s)) → (∀ s, rec_inv s → K s → P s) →
  (∀ s d now a, rec_inv s → K s → m now (ky_db s) = inr (a, d) → active key d → protected key s) →
  rec_owns me (db_call m) K (λ r s, P s).
Proof.
  intros Hloc HP HK HK0 Hact. unfold db_call. apply owns_ask. intros c. apply owns_ask. intros now.
  assert (∀ s, rec_inv s → K s → (rec_inv (db_run (m now) s).2 ∧ rec_step me s (db_run (m now) s).2) ∧ P (db_run (m now) s).2) as Hrun.
  { intros s Hi Hk. destruct (db_run_cases (m now) s) as [(e & -> & _)|(a & d & Hm & ->)]; cbn.
    - split; [|by apply HK0]. split; [done|]. intros k _. by apply foreign_refl.
    - split; [|by apply HK]. split.
      + intros k. destruct (decide (k = key)) as [->|Hne]; [|apply (rec_ok_same k s); [done|by eapply Hloc|apply Hi]].
        destruct (Hi key) as (H1 & H2 & H3). split_and!; [done| |done]. cbn. intros Ha. exact (Hact s d now a Hi Hk Hm Ha).
      + apply own_step. intros k Hk'. apply foreign_refl; [done|]. by eapply Hloc. }
  destruct c; [| |].
  - apply owns_atomically; [|done]. apply Hrun.
  - apply owns_ret. auto.
  - apply owns_atomically; [|done]. apply Hrun.
Qed.
Lemma owns_soft_delete (m : timestamp → Tx PlatformDB KErr ()) i o :
  local_to m → (∀ now d d' u, m now d = inr (u, d') → ¬ active key d') →
  rec_owns me (db_call m) (in_hand i o) (λ r s, match r with inr _ => in_hand i o s ∧ ¬ active key (ky_db s) | inl _ => True end).
Proof.
  intros Hloc Hdel. unfold db_call. apply owns_ask. intros c. apply owns_ask. intros now.
  assert (∀ s, rec_inv s → (rec_inv (db_run (m now) s).2 ∧ rec_step me s (db_run (m now) s).2)) as Hrun.
  { intros s Hi. destruct (db_run_cases (m now) s) as [(e & -> & _)|(a & d & Hm & ->)]; cbn.
    - split; [done|]. intros k _. by apply foreign_refl.
    - split.
      + intros k. destruct (decide (k = key)) as [->|Hne]; [|apply (rec_ok_same k s); [done|by eapply Hloc|apply Hi]].
        destruct (Hi key) as (H1 & H2 & H3). split_and!; [done| |done]. cbn. intros Ha. by destruct (Hdel _ _ _ _ Hm).
      + apply own_step. intros k Hk'. apply foreign_refl; [done|]. by eapply Hloc. }
  assert (∀ r : KErr + (), undisturbed rec_inv rec_step me (λ s, match r with inr _ => in_hand i o s ∧ ¬ active key (ky_db s) | inl _ => True end)) as Hu.
  { intros [e|u]; [apply undisturbed_pure|]. apply undisturbed_and; [apply in_hand_undisturbed|apply inactive_undisturbed]. }
  destruct c; [|by apply owns_ret|].
  - apply owns_atomically; [|done]. intros s Hi Hh. split; [by apply Hrun|].
    destruct (db_run_cases (m now) s) as [(e & -> & _)|(a & d & Hm & ->)]; [done|]. cbn. split; [done|]. by eapply Hdel.
  - apply owns_atomically; [|done]. intros s Hi Hh. split; [by apply Hrun|done].
Qed.
(** The round, for a materialization that starts from a protected resource. *)
Lemma owns_Reconcile softDelete materialize :
  local_to softDelete → (∀ now d d' u, softDelete now d = inr (u, d') → ¬ active key d') →
  (∀ o, rec_owns me (materialize o) (protected key) (λ _ _, True)) →
  rec_owns me (Reconcile softDelete materialize key) (λ _, True) (λ _ _, True).
Proof.
  intros Hloc Hdel Hmat. unfold Reconcile. eapply owns_bind; [apply owns_read_resource|].
  intros [e|[[i o]|]]; [by apply owns_ret| |by apply owns_ret]. destruct (ko_Deleting o) eqn:Hd.
  - unfold reconcileDelete. destruct (ko_Finalizer o); [|by apply owns_ret]. cbn [negb].
    eapply owns_bind; [eapply owns_pre; [by apply (owns_soft_delete _ i o)|by intros s _ [? _]]|].
    intros [e|u]; [by apply owns_ret|]. eapply owns_bind; [by apply (owns_release i o)|]. intros r. by apply owns_ret.
  - destruct (ko_Finalizer o) eqn:Hf; cbn [negb].
    + eapply owns_pre; [apply Hmat|]. intros s _ [_ Hu]. by apply Hu.
    + eapply owns_bind; [eapply owns_pre; [by apply (owns_protect i o)|by intros s _ [? _]]|]. intros r. by apply owns_ret.
Qed.
End owner.
End finalizers.

(** * The three kinds of resources *)
Inductive Kind := PolicyKind | IdentityKind | ModelKind.
Definition spec_of (kind : Kind) : Type :=
  match kind with PolicyKind => PolicySpec | IdentityKind => MappingSpec | ModelKind => ModelSpec end.
Definition active_of (kind : Kind) (key : string) (d : PlatformDB) : Prop :=
  match kind with
  | PolicyKind => ∃ r, policies d !! key = Some r ∧ pr_DeletedAt r = None
  | IdentityKind =>
      ∃ i r, identities (pf_identity d) !! i = Some r ∧ id_Key (ir_Identity r) = key ∧ id_Source (ir_Identity r) = SourceExternal ∧ ir_DeletedAt r = None
  | ModelKind => ∃ r, models d !! key = Some r ∧ mr_DeletedAt r = None
  end.
Definition reconcile_of (err_text : KErr → string) (kind : Kind) : string → proc (KSys (spec_of kind)) KQ KResult :=
  match kind with
  | PolicyKind => reconcile_policy err_text
  | IdentityKind => reconcile_identity err_text
  | ModelKind => reconcile_model
  end.
Lemma lift_cat_inr {A} (m : Tx PlatformDB CatErr A) d a d' : lift_cat m d = inr (a, d') → m d = inr (a, d').
Proof. unfold lift_cat. destruct (m d) as [|[]]; naive_solver. Qed.
Lemma lift_id_inr {A} (m : Tx IdentityDB IdErr A) d a d' :
  lift_id m d = inr (a, d') → ∃ i, m (pf_identity d) = inr (a, i) ∧ d' = set_identity i d.
Proof. unfold lift_id. destruct (m (pf_identity d)) as [|[b i]]; [done|]. intros [= -> <-]. eauto. Qed.
Lemma upsert_policy_row fresh key kind subj rl now d p d' :
  UpsertPolicy fresh key kind subj rl now d = inr (p, d') →
  d' = set_policies (<[key := mkPolicyRow p now None]> (policies d)) d ∧ pl_SubjectKind p = kind ∧ pl_SubjectKey p = subj ∧ pl_RateLimits p = rl.
Proof. unfold UpsertPolicy. intros H. inv_tx. done. Qed.
Lemma upsert_model_row fresh m now d m' d' :
  UpsertModel fresh m now d = inr (m', d') → d' = set_models (<[mo_Key m := mkModelRow m' now None]> (models d)) d.
Proof.
  unfold UpsertModel, jsonb. intros H. inv_tx. repeat (case_match; inv_tx); done.
Qed.
Lemma delete_policy_row key now d d' u :
  SoftDeletePolicyByKey key now d = inr (u, d') →
  ¬ active_of PolicyKind key d' ∧ ∀ k, k ≠ key → active_of PolicyKind k d' → active_of PolicyKind k d.
Proof.
  unfold SoftDeletePolicyByKey. intros H. inv_tx. destruct (policies d !! key) as [r|] eqn:E.
  - case_decide; inv_tx.
    + split; [intros (r' & Hr & Hd); cbn in Hr; rewrite lookup_insert_eq in Hr; by injection Hr as <-|].
      intros k Hk (r' & Hr & Hd). cbn in Hr. rewrite lookup_insert_ne in Hr by done. by exists r'.
    + split; [intros (r' & Hr & Hd); congruence|done].
  - inv_tx. split; [intros (r' & Hr & Hd); congruence|done].
Qed.
Lemma delete_model_row key now d d' u :
  SoftDeleteModelByKey key now d = inr (u, d') →
  ¬ active_of ModelKind key d' ∧ ∀ k, k ≠ key → active_of ModelKind k d' → active_of ModelKind k d.
Proof.
  unfold SoftDeleteModelByKey. intros H. inv_tx. destruct (models d !! key) as [r|] eqn:E.
  - case_decide; inv_tx.
    + split; [intros (r' & Hr & Hd); cbn in Hr; rewrite lookup_insert_eq in Hr; by injection Hr as <-|].
      intros k Hk (r' & Hr & Hd). cbn in Hr. rewrite lookup_insert_ne in Hr by done. by exists r'.
    + split; [intros (r' & Hr & Hd); congruence|done].
  - inv_tx. split; [intros (r' & Hr & Hd); congruence|done].
Qed.
Definition id_active (key : string) (d : IdentityDB) : Prop :=
  ∃ i r, identities d !! i = Some r ∧ id_Key (ir_Identity r) = key ∧ id_Source (ir_Identity r) = SourceExternal ∧ ir_DeletedAt r = None.
Lemma delete_identity_row key now d d' u :
  SoftDeleteIdentityByKey key now d = inr (u, d') →
  ¬ id_active key d' ∧ ∀ k, k ≠ key → id_active k d' → id_active k d.
Proof.
  unfold SoftDeleteIdentityByKey. intros H. inv_tx. cbn. unfold id_active. cbn.
  assert (∀ i r, update_where (λ i r, by_key key i r && live r) (with_deleted now) (identities d) !! i = Some r →
    ir_DeletedAt r = None → identities d !! i = Some r ∧ by_key key i r && live r = false) as Hrow.
  { intros i r Hr Hd. unfold update_where in Hr. rewrite map_lookup_imap in Hr.
    destruct (identities d !! i) as [r0|]; [|done]. cbn in Hr. destruct (by_key key i r0 && live r0) eqn:E; injection Hr as <-; [done|auto]. }
  split.
  - intros (i & r & Hr & Hk & _ & Hd). destruct (Hrow i r Hr Hd) as [_ Hb]. unfold by_key, live in Hb. rewrite Hk, Hd in Hb. by rewrite bool_decide_true in Hb.
  - intros k Hk (i & r & Hr & Hkey & Hs & Hd). destruct (Hrow i r Hr Hd) as [Hr' _]. by exists i, r.
Qed.
Lemma upsert_identity_row fresh key kind source name now d i d' :
  UpsertIdentity fresh key kind source name now d = inr (i, d') → ∀ k, k ≠ key → id_active k d' → id_active k d.
Proof.
  unfold UpsertIdentity, upsert_identity. intros H k Hk. inv_tx. destruct (find_row (by_key key) (identities d)) as [[j r]|] eqn:E; inv_tx.
  - assert (id_Key (ir_Identity r) = key) as Hkey.
    { unfold find_row in E. destruct (filter _ (map_to_list _)) as [|[j' r'] l] eqn:Ef; [done|]. injection E as -> ->.
      assert ((j, r) ∈ filter (λ kr, by_key key kr.1 kr.2 = true) (map_to_list (identities d))) as Hin by (rewrite Ef; left).
      apply list_elem_of_filter in Hin as [Hb _]. unfold by_key in Hb. cbn in Hb. by case_bool_decide. }
    intros (i' & r' & Hr & Hk' & Hd). cbn in Hr. apply lookup_insert_Some in Hr as [[-> <-]|[_ Hr]]; [cbn in Hk'; congruence|by exists i', r'].
  - intros (i' & r' & Hr & Hk' & Hd). cbn in Hr. apply lookup_insert_Some in Hr as [[-> <-]|[_ Hr]]; [cbn in Hk'; congruence|by exists i', r'].
Qed.
Lemma replace_mappings_identities id l d u d' : ReplaceExternalMappings id l d = inr (u, d') → identities d' = identities d.
Proof.
  unfold ReplaceExternalMappings. intros H. inv_tx.
  apply (tx_iter_preserves (λ a b, identities b = identities a)) in H; [by rewrite H|done|by intros x y z -> ->|].
  intros b x y v _ Hb. unfold insert_binding in Hb. inv_tx. done.
Qed.

Section kinds.
Context (err_text : KErr → string) (keyof : nat → option string).
Context (distinct : ∀ i j k, keyof i = Some k → keyof j = Some k → i = j).
Lemma owns_status kind (me : nat) (key : string) (o : KObj (spec_of kind)) ready id msg :
  keyof me = Some key → owns (Q:=KQ) (rec_inv (active_of kind)) (rec_step (active_of kind) keyof) me (patchStatus key o ready id msg) (λ _, True) (λ _ _, True).
Proof. intros Hm. by apply owns_patch. Qed.
Lemma owns_statement kind (me : nat) (key : string) {A} (m : timestamp → Tx PlatformDB KErr A) :
  keyof me = Some key → local_to (active_of kind) key m →
  owns (Q:=KQ) (rec_inv (Sp:=spec_of kind) (active_of kind)) (rec_step (active_of kind) keyof) me (db_call m) (protected key) (λ _, protected key).
Proof.
  intros Hm Hloc. apply (owns_db (active_of kind) keyof me key Hm m _ (protected key)); try done.
  by apply protected_undisturbed.
Qed.
Lemma owns_reported kind (me : nat) (p : proc (KSys (spec_of kind)) KQ (KErr + ())) (k : KErr + () → KResult) K :
  owns (Q:=KQ) (rec_inv (active_of kind)) (rec_step (active_of kind) keyof) me p (λ _, True) (λ _ _, True) →
  owns (Q:=KQ) (rec_inv (active_of kind)) (rec_step (active_of kind) keyof) me (r ← p; mret (k r)) K (λ _ _, True).
Proof. intros Hp. apply owns_seq; [exact Hp|]. intros r. by apply owns_ret. Qed.
Lemma owns_kind kind (me : nat) (key : string) :
  keyof me = Some key →
  owns (Q:=KQ) (rec_inv (active_of kind)) (rec_step (active_of kind) keyof) me (reconcile_of err_text kind key) (λ _, True) (λ _ _, True).
Proof.
  intros Hm. destruct kind; cbn [reconcile_of].
  - unfold reconcile_policy. apply (owns_Reconcile (active_of PolicyKind) keyof distinct me key Hm).
    + intros now d u d' k H%lift_cat_inr Hk. exact (proj2 (delete_policy_row _ _ _ _ _ H) k Hk).
    + intros now d d' u H%lift_cat_inr. exact (proj1 (delete_policy_row _ _ _ _ _ H)).
    + intros o. unfold materialize_policy. apply owns_ask. intros fresh.
      eapply owns_bind; [apply (owns_statement PolicyKind); [done|]|].
      { intros now d p d' k H%lift_cat_inr Hk (r & Hr & Hd). destruct (upsert_policy_row _ _ _ _ _ _ _ _ _ H) as [-> _].
        cbn in Hr. rewrite lookup_insert_ne in Hr by done. by exists r. }
      intros [e|p]; apply (owns_reported PolicyKind), (owns_status PolicyKind); done.
  - unfold reconcile_identity. apply (owns_Reconcile (active_of IdentityKind) keyof distinct me key Hm).
    + intros now d u d' k H%lift_id_inr Hk. destruct H as (i & H & ->). exact (proj2 (delete_identity_row _ _ _ _ _ H) k Hk).
    + intros now d d' u H%lift_id_inr. destruct H as (i & H & ->). exact (proj1 (delete_identity_row _ _ _ _ _ H)).
    + intros o. unfold materialize_identity. apply owns_ask. intros fresh.
      eapply owns_bind; [apply (owns_statement IdentityKind); [done|]|].
      { intros now d p d' k H%lift_id_inr Hk. destruct H as (i & H & ->). exact (upsert_identity_row _ _ _ _ _ _ _ _ _ H k Hk). }
      intros [e|i]; [apply (owns_reported IdentityKind), (owns_status IdentityKind); done|].
      eapply owns_bind; [apply (owns_statement IdentityKind); [done|]|].
      { intros now d u d' k H%lift_id_inr Hk. destruct H as (j & H & ->). cbn. by rewrite (replace_mappings_identities _ _ _ _ _ H). }
      intros [e|u]; apply (owns_reported IdentityKind), (owns_status IdentityKind); done.
  - unfold reconcile_model. apply (owns_Reconcile (active_of ModelKind) keyof distinct me key Hm).
    + intros now d u d' k H%lift_cat_inr Hk. exact (proj2 (delete_model_row _ _ _ _ _ H) k Hk).
    + intros now d d' u H%lift_cat_inr. exact (proj1 (delete_model_row _ _ _ _ _ H)).
    + intros o. unfold reconcileUpsert.
      assert (∀ a h msg, owns (Q:=KQ) (rec_inv (active_of ModelKind)) (rec_step (active_of ModelKind) keyof) me (patch_model_status key o a h msg) (λ _, True) (λ _ _, True)) as Hst.
      { intros a h msg. unfold patch_model_status. destruct (negb _); [by apply owns_ret|]. apply owns_ask. intros now. by apply owns_patch. }
      destruct (String.eqb _ _); [by apply (owns_reported ModelKind)|]. unfold resolveBackend.
      eapply (owns_bind _ _ me _ _ _ (λ _, protected key)); [apply owns_ask; intros c; destruct c; [apply owns_ask; intros st|..]; by apply owns_ret|].
      intros [e|[[available healthy] msg]]; [by apply owns_ret|]. apply owns_ask. intros fresh.
      eapply owns_bind; [apply (owns_statement ModelKind); [done|]|].
      { intros now d m d' k H%lift_cat_inr Hk (r & Hr & Hd). apply upsert_model_row in H as ->.
        cbn in Hr. rewrite lookup_insert_ne in Hr by done. by exists r. }
      intros [e|m]; [by apply owns_ret|]. by apply (owns_reported ModelKind).
Qed.
End kinds.

(** * The controllers *)
(** Rounds on a resource, an edit by another party, anything else that happens to the tables. *)
Inductive KThread (Sp : Type) :=
| TReconcile (key : string) (rounds : nat) | TEdit (key : string) (e : KEdit (Sp:=Sp)) | TElse (f : PlatformDB → PlatformDB).
Arguments TReconcile {Sp}.
Arguments TEdit {Sp}.
Arguments TElse {Sp}.
Fixpoint rounds {Sp} (p : proc (KSys Sp) KQ KResult) (n : nat) : proc (KSys Sp) KQ () :=
  match n with O => mret () | S n' => p;; rounds p n' end.
Definition run_kthread (err_text : KErr → string) (kind : Kind) (t : KThread (spec_of kind)) : proc (KSys (spec_of kind)) KQ () :=
  match t with
  | TReconcile key n => rounds (reconcile_of err_text kind key) n
  | TEdit key e => edit key e
  | TElse f => update (λ s, set_kdb (f (ky_db s)) s)
  end.
Definition reconciled {Sp} (t : KThread Sp) : option string := match t with TReconcile key _ => Some key | _ => None end.
(** The queue hands a resource to one worker at a time. *)
Definition one_worker {Sp} (ts : list (KThread Sp)) : Prop := NoDup (omap reconciled ts).
(** Nobody else takes the finalizer off or brings a row of the kind to life. *)
Definition orderly (kind : Kind) (t : KThread (spec_of kind)) : Prop :=
  match t with
  | TReconcile _ _ => True
  | TEdit _ e => e ≠ EFinalizer false
  | TElse f => ∀ k d, active_of kind k (f d) → active_of kind k d
  end.
Lemma one_worker_distinct {Sp} (ts : list (KThread Sp)) i j k :
  one_worker ts → ts !! i ≫= reconciled = Some k → ts !! j ≫= reconciled = Some k → i = j.
Proof.
  unfold one_worker. revert i j. induction ts as [|t ts IH]; intros i j Hnd Hi Hj; [done|]. cbn in Hnd.
  assert (∀ i, ts !! i ≫= reconciled = Some k → k ∈ omap reconciled ts) as Hin.
  { intros i' H. destruct (ts !! i') as [t'|] eqn:E; [|done]. apply list_elem_of_omap. exists t'. split; [by eapply list_elem_of_lookup_2|done]. }
  destruct (reconciled t) as [k'|] eqn:E.
  - apply NoDup_cons in Hnd as [Hn Hnd]. destruct i as [|i], j as [|j]; cbn in Hi, Hj.
    + done.
    + assert (k' = k) as -> by congruence. by destruct Hn; eapply Hin.
    + assert (k' = k) as -> by congruence. by destruct Hn; eapply Hin.
    + f_equal. by apply IH.
  - destruct i as [|i], j as [|j]; cbn in Hi, Hj; [done|congruence|congruence|]. f_equal. by apply IH.
Qed.

Lemma controllers_keep err_text kind (ts : list (KThread (spec_of kind))) s ps s' :
  one_worker ts → Forall (orderly kind) ts → rec_inv (active_of kind) s → tsteps (run_kthread err_text kind <$> ts) s ps s' → rec_inv (active_of kind) s'.
Proof.
  intros Hone Hord Hi Hst. set (keyof := λ i, ts !! i ≫= reconciled).
  assert (∀ i j k, keyof i = Some k → keyof j = Some k → i = j) as Hd by (intros i j k; by apply one_worker_distinct).
  destruct (owns_tsteps (rec_inv (active_of kind)) (rec_step (active_of kind) keyof) (λ _ _, True) (run_kthread err_text kind <$> ts) s ps s') as [Hi' _]; try done.
  intros i p Hp. apply list_lookup_fmap_Some in Hp as (t & -> & Ht). exists (λ _, True), (λ _ _, True).
  split_and!; [apply undisturbed_pure|done|]. pose proof (Forall_lookup_1 _ _ _ _ Hord Ht) as Ho.
  destruct t as [k n|k e|f]; cbn [run_kthread]; [|by apply owns_edit|by apply owns_else].
  assert (keyof i = Some k) as Hk by (unfold keyof; by rewrite Ht).
  clear Ht Ho. induction n as [|n IH]; cbn [rounds]; [by apply owns_ret|]. apply owns_seq; [|intros ?; exact IH].
  by apply owns_kind.
Qed.

(** C28. No row outlives its resource. For permission policies, for identity mappings (the
    identities whose source is external; local accounts and service accounts are not the
    reconciler's) and for models: start from any state in which it holds, such as an empty
    cluster beside tables without such rows, and let any rounds of reconciliation run, each
    resource with one worker at a time, reading a cache that lags arbitrarily, with any calls
    failing or losing their answers, while other parties create, edit, delete and release
    resources and do anything else to the tables. Provided that nobody but the reconciler
    takes its finalizer off a resource by hand, and that nothing else brings rows of the kind
    to life, an active row always has a resource in the cluster that carries the reconciler's
    finalizer. So a deleted and collected resource has no policy, external identity or model
    left behind. *)
Theorem no_row_outlives_its_resource err_text kind (ts : list (KThread (spec_of kind))) s ps s' :
  one_worker ts → Forall (orderly kind) ts → rec_inv (active_of kind) s → tsteps (run_kthread err_text kind <$> ts) s ps s' →
  ∀ key, active_of kind key (ky_db s') → ∃ o, newest key s' = Some o ∧ ko_Finalizer o = true.
Proof.
  intros Hone Hord Hi Hst key. destruct (controllers_keep err_text kind ts s ps s' Hone Hord Hi Hst key) as (_ & H & _). exact H.
Qed.

(** * Rounds that see the last version *)
Section converge.
Context {Sp : Type} (answer : ∀ R, KQ R → R).
Implicit Types (s : KSys Sp) (o : KObj Sp).
Definition caught_up (key : string) s : KSys Sp := set_track key (mkTrack (versions key s) (length (versions key s) - 1)) s.
Lemma caught_up_versions key s : versions key (caught_up key s) = versions key s.
Proof. unfold versions at 1, caught_up. by rewrite track_set_eq. Qed.
Lemma caught_up_newest key s : newest key (caught_up key s) = newest key s.
Proof. unfold newest. by rewrite caught_up_versions. Qed.
(** Every call is answered and the informer has got to the end. *)
Definition responsive (key : string) (n : nat) s : Prop :=
  answer _ QCall = KAnswered ∧ (length (versions key s) + n ≤ answer _ QLag)%nat.
Lemma versions_last key s : (0 < length (versions key s))%nat → versions key s !! (length (versions key s) - 1)%nat = Some (newest key s).
Proof.
  intros Hl. unfold newest. rewrite last_version by (intros E; rewrite E in Hl; cbn in Hl; lia).
  destruct (lookup_lt_is_Some_2 (versions key s) (length (versions key s) - 1)) as [v ->]; [lia|done].
Qed.
Lemma get_current key n s :
  responsive key n s → (seen key s < length (versions key s))%nat →
  run_proc answer (get key) s = Some (inr ((λ o, (length (versions key s) - 1, o)%nat) <$> newest key s), caught_up key s).
Proof.
  intros [Hc Hl] Hs. unfold get. cbn [run_proc ask mbind proc_bind proc_bind_ atomically]. rewrite Hc.
  cbn [run_proc ask mbind proc_bind proc_bind_ atomically option_bind]. unfold observe.
  replace (Nat.min (Nat.max (seen key s) (answer nat QLag)) (length (versions key s) - 1))%nat with (length (versions key s) - 1)%nat by lia.
  rewrite versions_last by lia. destruct (newest key s); done.
Qed.
Lemma api_answered (f : KSys Sp → (KErr + ()) * KSys Sp) s : answer _ QCall = KAnswered → run_proc answer (api_call f) s = Some (f s).
Proof. intros Hc. unfold api_call. cbn. rewrite Hc. cbn. by destruct (f s). Qed.
Lemma db_answered {A} (m : timestamp → Tx PlatformDB KErr A) s :
  answer _ QCall = KAnswered → run_proc answer (db_call m) s = Some (db_run (m (answer _ QNow)) s).
Proof. intros Hc. unfold db_call. cbn. rewrite Hc. cbn. by destruct (db_run _ s). Qed.
Lemma merge_status_self base new : merge_status base new base = new.
Proof.
  unfold merge_status. destruct new as [r i h l g m], base as [r' i' h' l' g' m']; cbn.
  f_equal; repeat case_match; try done; [by apply eqb_prop|by apply String.eqb_eq|by apply eqb_prop|by apply Z.eqb_eq|by apply String.eqb_eq].
Qed.
Section round.
Context (softDelete : timestamp → Tx PlatformDB KErr ()) (materialize : KObj Sp → proc (KSys Sp) KQ KResult) (key : string).
#[local] Notation now := (answer _ QNow).
(** A round on the last version is: nothing, the finalizer, the row's deletion, or its
    materialization. *)
Lemma round_absent n s :
  responsive key n s → (seen key s < length (versions key s))%nat → newest key s = None →
  run_proc answer (Reconcile softDelete materialize key) s = Some (Done, caught_up key s).
Proof. intros Hr Hs Hn. unfold Reconcile. rewrite run_proc_bind, (get_current key n) by done. by rewrite Hn. Qed.
Lemma round_protects n s o :
  responsive key n s → (seen key s < length (versions key s))%nat → newest key s = Some o → usable (with_finalizer true o) → ko_Finalizer o = false →
  run_proc answer (Reconcile softDelete materialize key) s = Some (Requeue, push key (Some (with_finalizer true o)) (caught_up key s)).
Proof.
  intros Hr Hs Hn [_ Hd] Hf. unfold Reconcile. rewrite run_proc_bind, (get_current key n) by done. rewrite Hn. cbn in Hd.
  cbn [mbind option_bind fmap option_fmap option_map]. rewrite Hd, Hf. cbn [negb]. rewrite run_proc_bind. unfold Update.
  rewrite api_answered by apply Hr. unfold update_tx. rewrite caught_up_newest, caught_up_versions, Hn, Nat.eqb_refl.
  unfold collected. cbn. by rewrite andb_false_r.
Qed.
Lemma round_materializes n s o :
  responsive key n s → (seen key s < length (versions key s))%nat → newest key s = Some o → usable o →
  run_proc answer (Reconcile softDelete materialize key) s = run_proc answer (materialize o) (caught_up key s).
Proof.
  intros Hr Hs Hn [Hf Hd]. unfold Reconcile. rewrite run_proc_bind, (get_current key n) by done. rewrite Hn.
  cbn [mbind option_bind fmap option_fmap option_map]. by rewrite Hd, Hf.
Qed.
Lemma round_deletes n s o d :
  responsive key n s → (seen key s < length (versions key s))%nat → newest key s = Some o → ko_Deleting o = true → ko_Finalizer o = true →
  softDelete now (ky_db s) = inr ((), d) →
  run_proc answer (Reconcile softDelete materialize key) s = Some (Done, push key (collected (with_finalizer false o)) (set_kdb d (caught_up key s))).
Proof.
  intros Hr Hs Hn Hd Hf Hm. unfold Reconcile. rewrite run_proc_bind, (get_current key n) by done. rewrite Hn.
  cbn [mbind option_bind fmap option_fmap option_map]. rewrite Hd. unfold reconcileDelete. rewrite Hf. cbn [negb].
  rewrite run_proc_bind, db_answered by apply Hr. unfold db_run, run_tx. cbn [ky_db caught_up set_track]. rewrite Hm.
  cbn [mbind option_bind]. rewrite run_proc_bind. unfold Update. rewrite api_answered by apply Hr. unfold update_tx.
  change (newest key (set_kdb d (caught_up key s))) with (newest key (caught_up key s)).
  change (versions key (set_kdb d (caught_up key s))) with (versions key (caught_up key s)).
  rewrite caught_up_newest, caught_up_versions, Hn, Nat.eqb_refl. done.
Qed.
Lemma round_ignores n s o :
  responsive key n s → (seen key s < length (versions key s))%nat → newest key s = Some o → ko_Deleting o = true → ko_Finalizer o = false →
  run_proc answer (Reconcile softDelete materialize key) s = Some (Done, caught_up key s).
Proof.
  intros Hr Hs Hn Hd Hf. unfold Reconcile. rewrite run_proc_bind, (get_current key n) by done. rewrite Hn.
  cbn [mbind option_bind fmap option_fmap option_map]. rewrite Hd. unfold reconcileDelete. by rewrite Hf.
Qed.
End round.
End converge.

(** * Policies converge *)
Section policies_converge.
Context (err_text : KErr → string) (answer : ∀ R, KQ R → R) (key : string).
Implicit Types (s : KSys PolicySpec) (o : KObj PolicySpec).
#[local] Notation round := (reconcile_policy err_text key).
Definition ready_status (id : uuid) o : KStatus :=
  mkStatus true id (ks_Healthy (ko_Status o)) (ks_LastChecked (ko_Status o)) (ko_Generation o) EmptyString.
(** The row says what the resource says, and the resource's status says so. *)
Definition policy_settled o s : Prop :=
  if ko_Deleting o then active_policy (ky_db s) key = None ∧ (ko_Held o = false → newest key s = None)
  else ∃ id, active_policy (ky_db s) key = Some (mkPolicy id key (ps_SubjectKind (ko_Spec o)) (ps_SubjectKey (ko_Spec o)) (ps_RateLimits (ko_Spec o))) ∧
             newest key s = Some (with_status (ready_status id o) (with_finalizer true o)).
Definition policy_valid o : Prop := ko_Deleting o = true ∨ ps_SubjectKind (ko_Spec o) ∈ subject_kinds.
Lemma materialize_settles s o :
  answer _ QCall = KAnswered → newest key s = Some o → usable o → policy_valid o →
  ∃ s', run_proc answer (materialize_policy err_text key o) s = Some (Done, s') ∧ policy_settled o s' ∧
        (length (versions key s) ≤ length (versions key s') ≤ S (length (versions key s)))%nat ∧ seen key s' = seen key s.
Proof.
  intros Hc Hn [Hf Hd] [Hd'|Hk]; [congruence|]. unfold materialize_policy. cbn [run_proc ask mbind proc_bind proc_bind_].
  set (fresh := answer _ QNewID). set (id := match policies (ky_db s) !! key with Some r => pl_ID (pr_Policy r) | None => fresh end).
  set (p := mkPolicy id key (ps_SubjectKind (ko_Spec o)) (ps_SubjectKey (ko_Spec o)) (ps_RateLimits (ko_Spec o))).
  set (d := set_policies (<[key := mkPolicyRow p (answer _ QNow) None]> (policies (ky_db s))) (ky_db s)).
  change (proc_bind_ ?k ?p) with (p ≫= k). rewrite run_proc_bind, db_answered by done.
  assert (db_run (lift_cat (UpsertPolicy fresh key (ps_SubjectKind (ko_Spec o)) (ps_SubjectKey (ko_Spec o)) (ps_RateLimits (ko_Spec o)) (answer _ QNow))) s
    = (inr p, set_kdb d s)) as ->.
  { unfold db_run, run_tx, lift_cat, UpsertPolicy. cbn. by rewrite bool_decide_true. }
  cbn [mbind option_bind]. rewrite run_proc_bind. unfold patchStatus, Patch. rewrite api_answered by done. unfold patch_tx.
  change (newest key (set_kdb d s)) with (newest key s). rewrite Hn, merge_status_self. cbn [mbind option_bind run_proc].
  assert (∃ s', (if decide (ready_status id o = ko_Status o) then set_kdb d s else push key (Some (with_status (ready_status id o) o)) (set_kdb d s)) = s' ∧
    ky_db s' = d ∧ newest key s' = Some (with_status (ready_status id o) o) ∧
    (length (versions key s) ≤ length (versions key s') ≤ S (length (versions key s)))%nat ∧ seen key s' = seen key s)
    as (s' & Hs' & Hdb & Hn' & Hlen & Hseen).
  { eexists. split; [reflexivity|]. case_decide as Hst.
    - change (versions key (set_kdb d s)) with (versions key s). split_and!; [done| |lia|lia|done].
      change (newest key (set_kdb d s)) with (newest key s). rewrite Hn, Hst. by destruct o.
    - split_and!; [done|apply push_newest| | |by rewrite push_seen]; rewrite push_versions, length_app; change (versions key (set_kdb d s)) with (versions key s); cbn; lia. }
  exists s'. split; [by rewrite <- Hs'|]. split_and!; [|apply Hlen|apply Hlen|done].
  unfold policy_settled. rewrite Hd, Hdb. exists id. split.
  - unfold active_policy, d. cbn. by rewrite lookup_insert_eq.
  - rewrite Hn'. f_equal. unfold with_status, with_finalizer. destruct o; cbn in *. by subst.
Qed.
Lemma settled_status o id s : policy_settled (with_status (ready_status id o) (with_finalizer true o)) s → policy_settled o s.
Proof. unfold policy_settled. cbn. done. Qed.
Lemma settled_same o s s' : newest key s' = newest key s → ky_db s' = ky_db s → policy_settled o s → policy_settled o s'.
Proof. unfold policy_settled. by intros -> ->. Qed.
Lemma responsive_push n s s' : (length (versions key s') ≤ S (length (versions key s)))%nat → responsive answer key (S n) s → responsive answer key n s'.
Proof. intros Hv [? ?]. split; [done|]. lia. Qed.
Lemma usable_settles n s o :
  responsive answer key n s → (seen key s < length (versions key s))%nat → newest key s = Some o → usable o → policy_valid o →
  ∃ s', run_proc answer round s = Some (Done, s') ∧ policy_settled o s' ∧ (length (versions key s') ≤ S (length (versions key s)))%nat ∧
        (seen key s' < length (versions key s'))%nat.
Proof.
  intros Hr Hs Hn Hu Hv. unfold reconcile_policy. rewrite (round_materializes answer _ _ _ n s o) by done.
  destruct (materialize_settles (caught_up key s) o) as (s' & Hrun & Hset & Hver & Hseen); [apply Hr|by rewrite caught_up_newest|done|done|].
  exists s'. rewrite caught_up_versions in Hver. split_and!; [done|done|lia|].
  rewrite Hseen. unfold seen at 1, caught_up. rewrite track_set_eq. cbn. lia.
Qed.
Lemma soft_delete_policy (d : PlatformDB) now :
  ∃ d', lift_cat (SoftDeletePolicyByKey key now) d = inr ((), d') ∧ active_policy d' key = None.
Proof.
  unfold active_policy. destruct (policies d !! key) as [r|] eqn:E.
  - destruct (decide (pr_DeletedAt r = None)) as [Hd|Hd].
    + exists (set_policies (<[key := mkPolicyRow (pr_Policy r) now (Some now)]> (policies d)) d).
      split; [unfold lift_cat, SoftDeletePolicyByKey, mbind, tx_bind; cbn; rewrite E, decide_True by done; done|].
      cbn. by rewrite lookup_insert_eq.
    + exists d. split; [unfold lift_cat, SoftDeletePolicyByKey, mbind, tx_bind; cbn; rewrite E, decide_False by done; done|].
      rewrite E. cbn. by rewrite decide_False.
  - exists d. split; [unfold lift_cat, SoftDeletePolicyByKey, mbind, tx_bind; cbn; by rewrite E|by rewrite E].
Qed.
Lemma inactive_policy (d : PlatformDB) : ¬ active_of PolicyKind key d → active_policy d key = None.
Proof.
  unfold active_policy. intros Hn. destruct (policies d !! key) as [r|] eqn:E; [|done]. cbn. case_decide; [|done]. destruct Hn. by exists r.
Qed.
(** A round on what is being deleted and has no finalizer of the controller. *)
Lemma deleted_settles n s o :
  responsive answer key n s → (seen key s < length (versions key s))%nat → ko_Deleting o = true →
  (∀ o', newest key s = Some o' → ko_Deleting o' = true ∧ ko_Finalizer o' = false) → policy_settled o s →
  ∃ s', run_proc answer round s = Some (Done, s') ∧ policy_settled o s'.
Proof.
  intros Hr Hs Hd Ho Hset. exists (caught_up key s). split; [|by apply (settled_same o s); [apply caught_up_newest|..]].
  unfold reconcile_policy. destruct (newest key s) as [o'|] eqn:Hn; [|by apply (round_absent answer _ _ _ n)].
  destruct (Ho o' eq_refl). by apply (round_ignores answer _ _ _ n s o').
Qed.
Lemma deleting_settles n s o :
  responsive answer key (S n) s → (seen key s < length (versions key s))%nat → newest key s = Some o → ko_Deleting o = true → ko_Finalizer o = true →
  ∃ s', run_proc answer round s = Some (Done, s') ∧ policy_settled o s' ∧ responsive answer key n s' ∧
        (seen key s' < length (versions key s'))%nat ∧ (∀ o', newest key s' = Some o' → ko_Deleting o' = true ∧ ko_Finalizer o' = false).
Proof.
  intros Hr Hs Hn Hd Hf. destruct (soft_delete_policy (ky_db s) (answer _ QNow)) as (d & Hm & Ha).
  unfold reconcile_policy. rewrite (round_deletes answer _ _ _ (S n) s o d) by done.
  set (s1 := set_kdb d (caught_up key s)). eexists. split; [reflexivity|].
  assert (versions key s1 = versions key s) as Hv by exact (caught_up_versions key s).
  split_and!.
  - unfold policy_settled. rewrite Hd. split; [done|]. intros Hh. rewrite push_newest. unfold collected. cbn. by rewrite Hd, Hh.
  - eapply responsive_push; [rewrite push_versions, length_app, Hv, Nat.add_comm; done|done].
  - rewrite push_seen, push_versions, length_app, Hv. change (seen key s1) with (seen key (caught_up key s)).
    unfold seen at 1, caught_up. rewrite track_set_eq. cbn. lia.
  - intros o'. rewrite push_newest. unfold collected. case_match; [done|]. by intros [= <-].
Qed.
End policies_converge.

(** C29. Policies converge. Take any resource that the cluster holds, with any history, any
    row left by earlier rounds and any status. When calls are answered and the informer has
    caught up, two rounds are enough: a resource that is being deleted has no active policy
    any more and, unless somebody else's finalizer holds it, is gone; any other one has
    exactly the policy it declares, and its status names that policy, reports ready and is
    up to date with the specification. *)
Theorem policies_converge err_text answer key (s : KSys PolicySpec) o :
  responsive answer key 2 s → rec_inv (active_of PolicyKind) s → newest key s = Some o → collected o = Some o → policy_valid o →
  ∃ s', run_proc answer (rounds (reconcile_policy err_text key) 2) s = Some ((), s') ∧ policy_settled key o s'.
Proof.
  intros Hr Hi Hn Hco Hv. destruct (Hi key) as (Hs & Ha & _). cbn [rounds]. rewrite run_proc_bind.
  assert (∀ s1, responsive answer key 1 s1 → (seen key s1 < length (versions key s1))%nat → ∀ o1, newest key s1 = Some o1 → usable o1 → policy_valid o1 →
    ∃ s', run_proc answer (reconcile_policy err_text key;; mret ()) s1 = Some ((), s') ∧ policy_settled key o1 s') as Hlast.
  { intros s1 Hr1 Hs1 o1 Hn1 Hu1 Hv1. destruct (usable_settles err_text answer key 1 s1 o1) as (s' & Hrun & Hset & _); try done.
    exists s'. by rewrite run_proc_bind, Hrun. }
  destruct (ko_Deleting o) eqn:Hd.
  - assert (∃ s1, run_proc answer (reconcile_policy err_text key) s = Some (Done, s1) ∧ policy_settled key o s1 ∧ responsive answer key 1 s1 ∧
        (seen key s1 < length (versions key s1))%nat ∧ (∀ o', newest key s1 = Some o' → ko_Deleting o' = true ∧ ko_Finalizer o' = false))
      as (s1 & Hrun & Hset & Hr1 & Hs1 & Ho1).
    { destruct (ko_Finalizer o) eqn:Hf; [by apply deleting_settles|]. exists (caught_up key s). unfold reconcile_policy.
      rewrite (round_ignores answer _ _ _ 2 s o) by done. rewrite caught_up_newest, caught_up_versions. split_and!; [done| |destruct Hr; split; [done|rewrite caught_up_versions; lia]| |by intros o' [= <-]%(eq_trans (eq_sym Hn))].
      - unfold policy_settled. rewrite Hd. split.
        + apply inactive_policy. intros Hact. destruct (Ha Hact) as (o' & Ho' & Hf'). congruence.
        + intros Hh. unfold collected in Hco. by rewrite Hd, Hf, Hh in Hco.
      - unfold seen at 1, caught_up. rewrite track_set_eq. cbn. lia. }
    rewrite Hrun. cbn [mbind option_bind]. destruct (deleted_settles err_text answer key 1 s1 o) as (s' & Hrun' & Hset'); try done.
    exists s'. by rewrite run_proc_bind, Hrun'.
  - destruct (ko_Finalizer o) eqn:Hf.
    + destruct (usable_settles err_text answer key 2 s o) as (s1 & Hrun & Hset & Hver & Hs1); try done.
      rewrite Hrun. cbn [mbind option_bind]. pose proof Hset as Hset1. unfold policy_settled in Hset1. rewrite Hd in Hset1.
      destruct Hset1 as (id & _ & Hn1). destruct (Hlast s1 (responsive_push answer key 1 s s1 Hver Hr) Hs1 _ Hn1) as (s' & Hrun' & Hset'); [done|done|].
      exists s'. split; [done|]. by apply settled_status in Hset'.
    + assert (run_proc answer (reconcile_policy err_text key) s = Some (Requeue, push key (Some (with_finalizer true o)) (caught_up key s))) as ->
        by (by apply (round_protects answer _ _ _ 2)).
      cbn [mbind option_bind].
      set (s1 := push key _ _). destruct (Hlast s1) with (o1 := with_finalizer true o) as (s' & Hrun' & Hset'); [| |apply push_newest|done|done|].
      * eapply responsive_push; [unfold s1; rewrite push_versions, length_app, caught_up_versions, Nat.add_comm; done|done].
      * unfold s1. rewrite push_seen, push_versions, length_app, caught_up_versions. unfold seen at 1, caught_up. rewrite track_set_eq. cbn. lia.
      * exists s'. split; [done|exact Hset'].
Qed.

Definition empty_platform : PlatformDB :=
  mkPlatformDB (mkIdentityDB ∅ ∅ ∅ ∅ [] ∅ ∅ ∅ ∅ [] ∅ None
      (mkAuthority AuthorityEpochLegacy None None JNull None None None None JNull None JNull) (mkAcl true ∅ ∅ true)) ∅ ∅ ∅.
Definition empty_cluster {Sp} : KSys Sp := mkKSys ∅ empty_platform.
Lemma fresh_cluster_inv kind d : (∀ k, ¬ active_of kind k d) → rec_inv (Sp:=spec_of kind) (active_of kind) (mkKSys ∅ d).
Proof.
  intros Hd k. unfold rec_ok, versions, seen, track_of. cbn. rewrite lookup_empty. cbn. split_and!; [lia| |].
  - intros Ha. by destruct (Hd k).
  - intros i o _ Hl. by destruct i as [|[|i]].
Qed.
Lemma empty_cluster_inv kind : rec_inv (Sp:=spec_of kind) (active_of kind) empty_cluster.
Proof. apply fresh_cluster_inv. intros k. destruct kind; cbn; intros Ha; destruct_and?; naive_solver. Qed.
(** Everything answers at once. *)
Definition well (R : Type) (q : KQ R) : R :=
  match q in KQ R return R with
  | QCall => KAnswered | QLag => 9%nat | QNow => 5 | QNewID => "id1" | QBackendStatus => Some (true, true)
  end.
(** Answers are lost. *)
Definition unwell (R : Type) (q : KQ R) : R :=
  match q in KQ R return R with
  | QCall => KUnanswered | QLag => 9%nat | QNow => 5 | QNewID => "id1" | QBackendStatus => None
  end.
Definition no_text (e : KErr) : string := "failed".

(** * A policy *)
Definition ann_limits : PolicySpec := mkPolicySpec "user" "ann" None.
Definition bob_limits : PolicySpec := mkPolicySpec "user" "bob" None.
Definition policy_life : list (KThread PolicySpec) :=
  [TEdit "default/p" (ECreate ann_limits false); TReconcile "default/p" 4; TEdit "default/p" (EEdit bob_limits); TEdit "default/p" EDelete].
Lemma policy_life_orderly : Forall (orderly PolicyKind) policy_life.
Proof. repeat (apply Forall_cons; split; [done|]). by apply List.Forall_nil. Qed.
(** Created, two rounds, edited and deleted while the third round runs on the older copy. *)
Definition policy_schedule : list nat := ([0] ++ replicate 16 1 ++ [2; 1; 1; 1; 3] ++ replicate 6 1)%nat.
Definition policy_run : list (proc (KSys PolicySpec) KQ ()) * KSys PolicySpec :=
  run_threads well (run_kthread no_text PolicyKind <$> policy_life) empty_cluster policy_schedule.
Lemma no_row_outlives_its_resource_witness :
  active_of PolicyKind "default/p" (ky_db policy_run.2) ∧
  ∃ o, newest "default/p" policy_run.2 = Some o ∧ ko_Finalizer o = true.
Proof.
  assert (active_of PolicyKind "default/p" (ky_db policy_run.2)) as Ha.
  { exists (mkPolicyRow (mkPolicy "id1" "default/p" "user" "bob" None) 5 None). split; vm_compute; reflexivity. }
  split; [exact Ha|].
  apply (no_row_outlives_its_resource no_text PolicyKind policy_life empty_cluster policy_run.1 policy_run.2).
  - vm_compute. constructor; [apply not_elem_of_nil|constructor].
  - exact policy_life_orderly.
  - apply empty_cluster_inv.
  - exact (run_threads_tsteps well (run_kthread no_text PolicyKind <$> policy_life) empty_cluster policy_schedule).
  - exact Ha.
Defined.
(** The resource was deleted at that point, and the rounds that follow take the row away. *)
Example policy_deleted :
  (ko_Deleting <$> newest "default/p" policy_run.2) = Some true ∧
  let s := (run_threads well policy_run.1 policy_run.2 (replicate 30 1%nat)).2 in newest "default/p" s = None ∧ active_policy (ky_db s) "default/p" = None.
Proof. by vm_compute. Qed.
(** The policy as it stands after the edit: its row is the older one. *)
Definition policy_edited : KSys PolicySpec :=
  (run_threads well (run_kthread no_text PolicyKind <$> policy_life) empty_cluster ([0] ++ replicate 16 1 ++ [2])%nat).2.
Lemma policies_converge_witness :
  active_policy (ky_db policy_edited) "default/p" = Some (mkPolicy "id1" "default/p" "user" "ann" None) ∧
  ∃ s', run_proc well (rounds (reconcile_policy no_text "default/p") 2) policy_edited = Some ((), s') ∧
        active_policy (ky_db s') "default/p" = Some (mkPolicy "id1" "default/p" "user" "bob" None).
Proof.
  split; [by vm_compute|].
  destruct (policies_converge no_text well "default/p" policy_edited
    (mkObj 2 false true false bob_limits (mkStatus true "id1" false None 1 ""))) as (s' & Hrun & Hset).
  - vm_compute. split; [reflexivity|lia].
  - apply (controllers_keep no_text PolicyKind policy_life empty_cluster
      (run_threads well (run_kthread no_text PolicyKind <$> policy_life) empty_cluster ([0] ++ replicate 16 1 ++ [2])%nat).1).
    + vm_compute. constructor; [apply not_elem_of_nil|constructor].
    + exact policy_life_orderly.
    + apply empty_cluster_inv.
    + exact (run_threads_tsteps well (run_kthread no_text PolicyKind <$> policy_life) empty_cluster ([0] ++ replicate 16 1 ++ [2])%nat).
  - by vm_compute.
  - reflexivity.
  - right. left.
  - exists s'. split; [exact Hrun|]. destruct Hset as (id & Ha & _). rewrite Ha.
    assert ((λ x, pl_ID <$> active_policy (ky_db x.2) "default/p") <$> run_proc well (rounds (reconcile_policy no_text "default/p") 2) policy_edited
      = Some (Some "id1")) as Hid by by vm_compute.
    rewrite Hrun in Hid. cbn [fmap option_fmap option_map snd] in Hid. rewrite Ha in Hid. by injection Hid as ->.
Defined.

(** The finalizer is taken off by hand before the deletion: the row stays. *)
Definition stripped_life : list (KThread PolicySpec) :=
  [TEdit "default/p" (ECreate ann_limits false); TReconcile "default/p" 4; TEdit "default/p" (EFinalizer false); TEdit "default/p" EDelete].
Example stripped_finalizer_leaves_row :
  let s := (run_threads well (run_kthread no_text PolicyKind <$> stripped_life) empty_cluster ([0] ++ replicate 16 1 ++ [2; 3] ++ replicate 30 1)%nat).2 in
  newest "default/p" s = None ∧ is_Some (active_policy (ky_db s) "default/p").
Proof. vm_compute. eauto. Qed.

(** * Identity mappings beside a local account *)
Definition bootstrapped : PlatformDB :=
  set_identity (put_identities {[ "ana" := mkIdentityRow (mkIdentity "ana" "local:ana" KindUser SourceLocal "Ana") 1 None ]} (pf_identity empty_platform)) empty_platform.
Definition mapped_person : MappingSpec := mkMappingSpec KindUser "Bo" [].
Definition mapping_life : list (KThread MappingSpec) :=
  [TEdit "default/bo" (ECreate mapped_person false); TReconcile "default/bo" 4; TEdit "default/bo" EDelete].
Definition mapping_run : list (proc (KSys MappingSpec) KQ ()) * KSys MappingSpec :=
  run_threads well (run_kthread no_text IdentityKind <$> mapping_life) (mkKSys ∅ bootstrapped) ([0] ++ replicate 18 1 ++ [2])%nat.
Example mapping_protected :
  active_of IdentityKind "default/bo" (ky_db mapping_run.2) ∧ ∃ o, newest "default/bo" mapping_run.2 = Some o ∧ ko_Finalizer o = true.
Proof.
  assert (active_of IdentityKind "default/bo" (ky_db mapping_run.2)) as Ha.
  { exists "id1", (mkIdentityRow (mkIdentity "id1" "default/bo" KindUser SourceExternal "Bo") 5 None). by vm_compute. }
  split; [exact Ha|]. refine (proj1 (proj2 (controllers_keep no_text IdentityKind mapping_life (mkKSys ∅ bootstrapped) mapping_run.1 mapping_run.2 _ _ _ _ "default/bo")) Ha).
  - vm_compute. constructor; [apply not_elem_of_nil|constructor].
  - repeat (apply Forall_cons; split; [done|]). by apply List.Forall_nil.
  - apply fresh_cluster_inv. intros k (i & r & Hr & _ & Hs & _). cbn in Hr. apply lookup_singleton_Some in Hr as [_ <-]. by cbn in Hs.
  - exact (run_threads_tsteps well (run_kthread no_text IdentityKind <$> mapping_life) (mkKSys ∅ bootstrapped) _).
Qed.

(** * A model whose backend is taken out *)
Definition served_model (ref : string) : ModelSpec := mkModelSpec "default" "small" "Small" 4096 "[]" ref "{}" "{}" "{}" "{}".
Definition model_life : list (KThread ModelSpec) :=
  [TEdit "default/m" (ECreate (served_model "gpu") false); TReconcile "default/m" 3; TEdit "default/m" (EEdit (served_model ""))].
(** The reconciler reports that the model needs a backend and is not available. The row
    keeps the backend and stays available. *)
Definition model_run : KSys ModelSpec :=
  (run_threads well (run_kthread no_text ModelKind <$> model_life) empty_cluster ([0] ++ replicate 16 1 ++ [2] ++ replicate 9 1)%nat).2.
Example cleared_backend_keeps_model :
  ((λ o, (ks_Ready (ko_Status o), ks_Message (ko_Status o))) <$> newest "default/m" model_run) = Some (false, "spec.backendRef is required") ∧
  ((λ r, (mo_BackendRef (mr_Model r), mo_Available (mr_Model r))) <$> models (ky_db model_run) !! "default/m") = Some ("gpu", true).
Proof. by vm_compute. Qed.
