(* ===== verification/Web.v ===== *)
(** The HTTP API of accounts (control-plane/internal/server: auth_middleware.go, auth_api.go,
    people_api.go, authority.go and the user and key endpoints of server.go), over the
    identity store.

    A request is handled by a process. Each call of the store is one atomic action on the
    tables that may fail, or take effect without an answer; the clock, generated ids and
    random secrets are questions to the environment; other requests, workers and
    administrators act between the calls. A request carries what the body decodes to ([None]
    is an error of the decoder); the texts for people and the headers of caching are left
    out of replies. net.SplitHostPort, net.ParseIP, the networks of the trusted proxies, the
    location database, the user agent parser and the password functions are parameters. *)
From Stdlib Require Import Ascii.
From S2P Require Import Prelude Json Workflow IdentityActions IdentityData IdentityStore IdentityFlows IdentityJourneys IdentitySession IdentityPeople Authority Proc.

(** * Configuration and requests *)
Record AuthServices := mkAuthServices {
  as_Enabled : bool; as_PublicOrigin : string; as_CookieName : string; as_IdleTTL : Z; as_AbsoluteTTL : Z; as_RecentAuthTTL : Z;
  as_TrustedProxies : list string; as_ForwardedHeader : string; as_Location : option (string → option (string * string)) }.
(** [wh_Store]: a store is configured. *)
Record Handler := mkHandler { wh_Auth : option AuthServices; wh_Store : bool }.
Record WebRequest := mkWebRequest { wq_Header : string → string; wq_Cookie : string → option string; wq_RemoteAddr : string }.
Inductive CookieChange := KeepCookie | SetCookie (token : string) (expires : timestamp) | ClearCookie.
Record Profile := mkProfile {
  pf_ID : uuid; pf_Email : string; pf_DisplayName : string; pf_Role : string; pf_Locale : string; pf_UpdatedAt : timestamp;
  pf_RecentPasswordAt : option timestamp }.
Inductive WebBody :=
| BNone
| BError (code : string) (retryAfter : Z)
| BState (fields : list (string * string))
| BSignIn (p : Profile) (csrf : string)
| BProbe (enabled authenticated : bool) (p : option Profile) (csrf : string)
| BSessions (current : uuid) (l : list BrowserSession)
| BRequests (l : list AccessRequest)
| BRevoked (n : Z)
| BRecent (at_ : timestamp)
| BPeople (people : list Person) (pending : list AccessRequest)
| BPerson (p : Person) (c : PersonConsequences)
| BUser (u : LocalUser)
| BUsers (l : list LocalUser)
| BKey (full : option string) (k : APIKey)
| BKeys (l : list APIKey).
Record WebReply := mkWebReply { wr_Status : Z; wr_Body : WebBody; wr_Cookie : CookieChange }.
Definition authWrite (status : Z) (b : WebBody) : WebReply := mkWebReply status b KeepCookie.
Definition authError (status : Z) (code : string) : WebReply := authWrite status (BError code 0).
Definition unavailable_reply (status : Z) : WebReply := authError status "unavailable".

(** * Store calls *)
Inductive wcall := WAnswered | WUnsent | WUnanswered.
Inductive WebQ : Type → Type :=
| QOutcome : WebQ wcall
| QClock : WebQ timestamp
| QPg : WebQ timestamp
| QFresh : WebQ uuid
| QRandom : WebQ (option string)
| QTouched : WebQ bool.
Inductive WErr := WStore (e : IdErr) | WFailed.
Notation WP A := (proc AuthorityStore WebQ A).
Definition store_call {A} (f : IdentityDB → (IdErr + A) * IdentityDB) : WP (WErr + A) :=
  c ← ask QOutcome;
  match c with
  | WAnswered => r ← atomically (on_db f); mret (match r with inl e => inl (WStore e) | inr a => inr a end)
  | WUnsent => mret (inl WFailed)
  | WUnanswered => update (λ s, mkAuthorityStore (f (st_db s)).2 (st_latch s));; mret (inl WFailed)
  end.
Definition store_tx {A} (m : tx A) : WP (WErr + A) := store_call (run_tx m).
Definition store_read {A} (f : IdentityDB → A) : WP (WErr + A) := store_call (λ d, (inr (f d), d)).
(** A random secret that a store operation draws. *)
Definition with_secret {A} (k : string → WP (WErr + A)) : WP (WErr + A) :=
  r ← ask QRandom;
  match r with Some raw => k raw | None => mret (inl WFailed) end.
Fixpoint lift_auth {A} (p : aproc A) : WP A :=
  match p with
  | Ret a => Ret a
  | Atomic f k => Atomic f (λ r, lift_auth (k r))
  | Ask q k => match q in AuthQ R return (R → aproc _) → (∀ r : R, WP _) → WP _ with PgNow => λ _ k', Ask QPg k' end k (λ r, lift_auth (k r))
  end.

Section web.
Context (sha256hex ToLower : string → string) (HashPassword : string → option string) (VerifyPassword : string → string → bool).
Context (SplitHostPort : string → option string) (ParseIP : string → option string) (contains : string → string → bool).
Context (ParseClientLabels : string → string * string * string).

(** * auth_middleware.go *)
Definition DefaultSessionCookie : string := "__Host-iterabase_session".
Definition DefaultSessionIdleTTL : Z := 12 * hour.
Definition DefaultSessionAbsoluteTTL : Z := 30 * day.
Definition DefaultRecentAuthTTL : Z := 15 * minute.
Definition csrfHeaderName : string := "X-CSRF-Token".
Definition cookieName (a : AuthServices) : string :=
  if bool_decide (as_CookieName a = EmptyString) then DefaultSessionCookie else as_CookieName a.
Definition idleTTL (a : AuthServices) : Z := if 0 <? as_IdleTTL a then as_IdleTTL a else DefaultSessionIdleTTL.
Definition absoluteTTL (a : AuthServices) : Z := if 0 <? as_AbsoluteTTL a then as_AbsoluteTTL a else DefaultSessionAbsoluteTTL.
Definition recentAuthTTL (a : AuthServices) : Z := if 0 <? as_RecentAuthTTL a then as_RecentAuthTTL a else DefaultRecentAuthTTL.
(** strings.TrimRight(s, "/"). *)
Fixpoint trim_slashes (s : string) : string :=
  match s with
  | EmptyString => EmptyString
  | String c s' =>
      match trim_slashes s' with
      | EmptyString => if Ascii.eqb c "/" then EmptyString else String c EmptyString
      | t => String c t
      end
  end.
Definition OriginAllowed (a : AuthServices) (rq : WebRequest) : bool :=
  negb (bool_decide (as_PublicOrigin a = EmptyString)) && negb (bool_decide (wq_Header rq "Origin" = EmptyString)) &&
  String.eqb (trim_slashes (wq_Header rq "Origin")) (trim_slashes (as_PublicOrigin a)).
Definition parseHostIP (value : string) : option string :=
  if bool_decide (value = EmptyString) then None
  else match SplitHostPort value with Some host => ParseIP host | None => ParseIP value end.
Definition trustedPeer (a : AuthServices) (ip : string) : bool := existsb (λ n, contains n ip) (as_TrustedProxies a).
Definition forwardedHeader (a : AuthServices) : string :=
  if bool_decide (as_ForwardedHeader a = EmptyString) then "X-Forwarded-For" else as_ForwardedHeader a.
(** The chain from its right end; [None] when every hop is trusted or one is malformed. *)
Fixpoint first_untrusted (a : AuthServices) (hops : list string) : option string :=
  match hops with
  | [] => None
  | h :: hops' =>
      match parseHostIP (TrimSpace h) with
      | None => None
      | Some ip => if trustedPeer a ip then first_untrusted a hops' else Some ip
      end
  end.
Definition ClientIP (a : AuthServices) (rq : WebRequest) : option string :=
  match parseHostIP (wq_RemoteAddr rq) with
  | None => None
  | Some peer =>
      if negb (trustedPeer a peer) then Some peer
      else
        let raw := wq_Header rq (forwardedHeader a) in
        if bool_decide (raw = EmptyString) then Some peer
        else match first_untrusted a (reverse (split_byte "," raw)) with Some ip => Some ip | None => Some peer end
  end.
Definition LocationFor (a : AuthServices) (ip : option string) : option (string * string) :=
  lookup ← as_Location a; ip ← ip; lookup ip.
Inductive CookieErr := ErrBearerNotAccepted | ErrNoSession.
Definition sessionCookie (a : AuthServices) (rq : WebRequest) : CookieErr + string :=
  if negb (bool_decide (wq_Header rq "Authorization" = EmptyString)) then inl ErrBearerNotAccepted
  else match wq_Cookie rq (cookieName a) with
       | Some v => if bool_decide (v = EmptyString) then inl ErrNoSession else inr v
       | None => inl ErrNoSession
       end.

(** * Throttles *)
Definition ruleRequestAccessIP : ThrottleRule := mkRule "request_access_ip" 10 hour hour.
Definition ruleRequestAccessEmail : ThrottleRule := mkRule "request_access_email" 3 hour hour.
Definition ruleVerifyIP : ThrottleRule := mkRule "verify_ip" 60 hour hour.
Definition ruleSetupIP : ThrottleRule := mkRule "setup_ip" 30 hour hour.
Definition ruleSignInIP : ThrottleRule := mkRule "sign_in_ip" 30 (15 * minute) (15 * minute).
Definition ruleSignInAccount : ThrottleRule := mkRule "sign_in_account" 8 (15 * minute) (15 * minute).
Definition ruleForgotIP : ThrottleRule := mkRule "forgot_ip" 10 hour hour.
Definition ruleForgotAccount : ThrottleRule := mkRule "forgot_account" 3 hour hour.
Definition ruleResetIP : ThrottleRule := mkRule "reset_ip" 30 hour hour.
Definition ruleReauthAccount : ThrottleRule := mkRule "reauth_account" 8 (15 * minute) (15 * minute).
Record throttleEntry := mkEntry { te_rule : ThrottleRule; te_subject : string }.
Definition entryThrottles (a : AuthServices) (rq : WebRequest) (normalized : string) (rules : list ThrottleRule) : list throttleEntry :=
  omap (λ rule,
    if HasSuffix (tr_Scope rule) "_email" || HasSuffix (tr_Scope rule) "_account"
    then if bool_decide (normalized = EmptyString) then None else Some (mkEntry rule (HashSubject sha256hex ("email:" +:+ normalized)))
    else (λ ip, mkEntry rule (HashSubject sha256hex ("ip:" +:+ ip))) <$> ClientIP a rq) rules.
Definition worse (best st : ThrottleState) : ThrottleState :=
  if ts_Blocked st && (ts_RetryAfter best <? ts_RetryAfter st) then st else best.
Fixpoint throttleStatus (entries : list throttleEntry) (blocked : ThrottleState) : WP (WErr + ThrottleState) :=
  match entries with
  | [] => mret (inr blocked)
  | e :: entries' =>
      now ← ask QClock;
      r ← store_read (ThrottleStatus (te_rule e) (te_subject e) now);
      match r with inl x => mret (inl x) | inr st => throttleStatus entries' (worse blocked st) end
  end.
(** [record]: the worst of the states after the attempts were counted. *)
Fixpoint record (entries : list throttleEntry) (blocked : ThrottleState) : WP (WErr + ThrottleState) :=
  match entries with
  | [] => mret (inr blocked)
  | e :: entries' =>
      now ← ask QClock;
      r ← store_tx (RecordAuthAttempt (te_rule e) (te_subject e) now);
      match r with inl x => mret (inl x) | inr st => record entries' (worse blocked st) end
  end.
Fixpoint clearThrottle (entries : list throttleEntry) : WP (WErr + ()) :=
  match entries with
  | [] => mret (inr ())
  | e :: entries' =>
      r ← store_tx (ClearAuthThrottle (tr_Scope (te_rule e)) (te_subject e));
      match r with inl x => mret (inl x) | inr _ => clearThrottle entries' end
  end.
Definition retry_seconds (st : ThrottleState) : Z := ts_RetryAfter st `div` second + 1.
Definition writeThrottled (st : ThrottleState) : WebReply := authWrite 429 (BError "throttled" (retry_seconds st)).

(** * Evidence *)
Definition web_event (name : string) (outcome : Outcome) (reason : string) (subject session : uuid) (kind : string) (detail : json)
    (now : timestamp) : SecurityEvent :=
  mkEvent name outcome reason EmptyString EmptyString EmptyString subject EmptyString session EmptyString EmptyString kind EmptyString
    EmptyString detail None now.
Definition with_network (n : option EventNetwork) (e : SecurityEvent) : SecurityEvent :=
  mkEvent (se_Event e) (se_Outcome e) (se_Reason e) (se_InitiatingHuman e) (se_RequestActor e) (se_ActorRole e) (se_Subject e)
    (se_AccessRequestID e) (se_BrowserSessionID e) (se_APIKeyID e) (se_KeyOwner e) (se_CredentialKind e) (se_RequestID e)
    (se_CorrelationID e) (se_Detail e) n (se_CreatedAt e).
Definition securityEvent (a : AuthServices) (rq : WebRequest) (e : SecurityEvent) : SecurityEvent :=
  match ClientIP a rq with
  | None => e
  | Some ip => let l := default (EmptyString, EmptyString) (LocationFor a (Some ip)) in with_network (Some (mkNetwork ip l.1 l.2)) e
  end.
(** Best effort. *)
Definition audit (a : AuthServices) (rq : WebRequest) (e : SecurityEvent) : WP () :=
  store_tx (AppendSecurityEvent (securityEvent a rq e));; mret ().
Definition sessionNetwork (a : AuthServices) (rq : WebRequest) : SessionNetwork :=
  mkSessionNetwork (ClientIP a rq) (LocationFor a (ClientIP a rq)).
Definition sessionRefusalEvent (err : WErr) (now : timestamp) : option SecurityEvent :=
  match err with
  | WStore ErrSessionExpired => Some (web_event "session_expired" OutcomeDenied "expired" EmptyString EmptyString EmptyString (JObj []) now)
  | WStore ErrSessionIneligible =>
      Some (web_event "session_resolved_ineligible" OutcomeDenied "account_not_active" EmptyString EmptyString EmptyString (JObj []) now)
  | _ => None
  end.
Definition auditSessionRefusal (a : AuthServices) (rq : WebRequest) (err : WErr) : WP () :=
  now ← ask QClock;
  match sessionRefusalEvent err now with Some e => audit a rq e | None => mret () end.
Definition writeSessionError (a : AuthServices) (rq : WebRequest) (err : WErr) : WP WebReply :=
  auditSessionRefusal a rq err;; mret (authError 401 "session_expired").
Definition bearer_refused : WebReply := authError 401 "bearer_not_accepted".
Definition write_cookie_error (a : AuthServices) (rq : WebRequest) (err : CookieErr) : WP WebReply :=
  match err with
  | ErrBearerNotAccepted => mret bearer_refused
  | ErrNoSession => writeSessionError a rq (WStore ErrSessionInvalid)
  end.

(** * The guards *)
Definition authReady (h : Handler) (next : AuthServices → WP WebReply) : WP WebReply :=
  match wh_Auth h with
  | Some a => if as_Enabled a && wh_Store h then next a else mret (authError 503 "auth_unavailable")
  | None => mret (authError 503 "auth_unavailable")
  end.
(** [unsafe]: the method is not GET, HEAD or OPTIONS. *)
Definition requireOrigin (h : Handler) (unsafe : bool) (rq : WebRequest) (next : WP WebReply) : WP WebReply :=
  match wh_Auth h with
  | Some a => if as_Enabled a && unsafe && negb (OriginAllowed a rq) then mret (authError 403 "origin") else next
  | None => next
  end.
Definition ResolveSession (a : AuthServices) (rq : WebRequest) (token : string) : WP (WErr + BrowserSession) :=
  now ← ask QClock; touched ← ask QTouched;
  store_call (ResolveBrowserSessionWithNetwork sha256hex token now (sessionNetwork a rq) touched).
Definition requireBrowser (h : Handler) (rq : WebRequest) (next : AuthServices → BrowserSession → WP WebReply) : WP WebReply :=
  authReady h (λ a,
    match sessionCookie a rq with
    | inl e => write_cookie_error a rq e
    | inr token =>
        r ← ResolveSession a rq token;
        match r with inl e => writeSessionError a rq e | inr b => next a b end
    end).
Definition requireCSRF (rq : WebRequest) (b : BrowserSession) (next : WP WebReply) : WP WebReply :=
  if VerifyCSRF sha256hex b (wq_Header rq csrfHeaderName) then next else mret (authError 403 "csrf").
Definition requireAdmin (b : BrowserSession) (next : WP WebReply) : WP WebReply :=
  if bool_decide (ss_Role b = RoleAdmin) then next else mret (authError 403 "forbidden").
Definition requireRecentAuth (a : AuthServices) (b : BrowserSession) (next : WP WebReply) : WP WebReply :=
  now ← ask QClock;
  if HasRecentPassword b (recentAuthTTL a) now then next else mret (authError 403 "recent_auth_required").
Definition requireAuthorityV2 (next : WP WebReply) : WP WebReply :=
  c ← ask QOutcome;
  match c with
  | WAnswered =>
      r ← lift_auth RequireAuthorityV2;
      match r with inl _ => mret (authError 503 "authority_migration_pending") | inr _ => next end
  | _ => mret (authError 503 "authority_migration_pending")
  end.
Definition blockedWithEvent (a : AuthServices) (rq : WebRequest) (entries : list throttleEntry) (event : string) (next : WP WebReply) : WP WebReply :=
  r ← throttleStatus entries unthrottled;
  match r with
  | inl _ => mret (unavailable_reply 500)
  | inr st =>
      if ts_Blocked st
      then now ← ask QClock;
           audit a rq (web_event event OutcomeDenied "throttled" EmptyString EmptyString CredentialBrowser (JObj []) now);;
           mret (writeThrottled st)
      else next
  end.
Definition blocked (a : AuthServices) (rq : WebRequest) (entries : list throttleEntry) (next : WP WebReply) : WP WebReply :=
  blockedWithEvent a rq entries "auth_throttled" next.
Definition throttleOnly (entries : list throttleEntry) (next : WP WebReply) : WP WebReply :=
  r ← throttleStatus entries unthrottled;
  match r with
  | inl _ => mret (unavailable_reply 500)
  | inr st => if ts_Blocked st then mret (writeThrottled st) else next
  end.

(** * The public journey *)
Definition profileFor (u : LocalUser) : Profile :=
  mkProfile (us_ID u) (lu_Email (us_Row u)) (lu_DisplayName (us_Row u)) (NormalizeRole (lu_Role (us_Row u))) (lu_Locale (us_Row u))
    (lu_UpdatedAt (us_Row u)) None.
Definition with_recent (b : BrowserSession) (p : Profile) : Profile :=
  mkProfile (pf_ID p) (pf_Email p) (pf_DisplayName p) (pf_Role p) (pf_Locale p) (pf_UpdatedAt p) (bs_RecentPasswordAt (ss_Row b)).
(** strings.EqualFold(locale, "pt"): no other letter folds to these two. *)
Definition normalizeLocale (locale : string) : string :=
  if bool_decide (locale ∈ ["pt"; "PT"; "Pt"; "pT"]) then "pt" else "en".
(** [tokenBody]. *)
Definition tokenBody (body : option string) (next : string → WP WebReply) : WP WebReply :=
  match body with
  | Some token => if bool_decide (token = EmptyString) then mret (authError 400 "invalid") else next token
  | None => mret (authError 400 "invalid")
  end.
Definition writeAuthLinkError (e : WErr) : WebReply :=
  match e with
  | WStore ErrPasswordPolicy => authError 400 "password_policy"
  | WStore ErrAuthLinkInvalid => authError 400 "invalid"
  | WStore ErrAuthLinkExpired => authError 410 "expired"
  | WStore ErrAuthLinkSuperseded => authError 410 "superseded"
  | WStore ErrAuthLinkConsumed => authError 410 "reused"
  | WStore ErrAccountNotEligible => authError 403 "ineligible"
  | _ => unavailable_reply 500
  end.
Definition accessRequestState (r : AccessRequest) : WebBody :=
  BState [("state", match ar_State r with
    | AccessRequestVerificationPending => "waiting_verification" | AccessRequestApprovalPending => "waiting"
    | AccessRequestApproved => "approved" | AccessRequestDeclined => "declined" | AccessRequestExpired => "expired"
    end)].
Definition accepted : WebReply := authWrite 202 (BState [("status", "accepted")]).
Definition RotateCSRF (sessionID : uuid) : WP (WErr + string) := with_secret (λ raw, store_tx (RotateSessionCSRF sha256hex raw sessionID)).
Definition authSession (h : Handler) (rq : WebRequest) : WP WebReply :=
  let anonymous := authWrite 200 (BProbe true false None EmptyString) in
  match wh_Auth h with
  | Some a =>
      if negb (as_Enabled a && wh_Store h) then mret (authWrite 200 (BProbe false false None EmptyString))
      else match sessionCookie a rq with
      | inl ErrBearerNotAccepted => mret bearer_refused
      | inl ErrNoSession => mret anonymous
      | inr token =>
          r ← ResolveSession a rq token;
          match r with
          | inl e => auditSessionRefusal a rq e;; mret anonymous
          | inr b =>
              u ← store_tx (GetLocalUser (bs_IdentityID (ss_Row b)));
              match u with
              | inl _ => mret anonymous
              | inr user =>
                  csrf ← RotateCSRF (ss_ID b);
                  mret (match csrf with
                        | inl _ => anonymous
                        | inr raw => authWrite 200 (BProbe true true (Some (with_recent b (profileFor user))) raw)
                        end)
              end
          end
      end
  | None => mret (authWrite 200 (BProbe false false None EmptyString))
  end.
(** [body]: email and locale. *)
Definition requestAccess (h : Handler) (rq : WebRequest) (body : option (string * string)) : WP WebReply :=
  authReady h (λ a,
    match body with
    | None => mret (authError 400 "invalid_request")
    | Some (email, locale) =>
        match CanonicalEmail ToLower email with
        | None => mret (authError 400 "invalid_email")
        | Some (delivery, normalized) =>
            let entries := entryThrottles a rq normalized [ruleRequestAccessIP; ruleRequestAccessEmail] in
            blocked a rq entries (
              now ← ask QClock; pgnow ← ask QPg; fresh ← ask QFresh; outbox ← ask QFresh;
              r ← store_tx (CreateOrResendAccessRequest fresh outbox delivery normalized (normalizeLocale locale) now pgnow);
              match r with
              | inl _ => mret (unavailable_reply 500)
              | inr _ => c ← record entries unthrottled; mret (match c with inl _ => unavailable_reply 503 | inr _ => accepted end)
              end)
        end
    end).
Definition verifyAccessRequest (h : Handler) (rq : WebRequest) (body : option string) : WP WebReply :=
  authReady h (λ a,
    throttleOnly (entryThrottles a rq EmptyString [ruleVerifyIP]) (
      tokenBody body (λ token,
        now ← ask QClock;
        r ← store_tx (VerifyAccessRequest sha256hex token now);
        mret (match r with
              | inl (WStore ErrAuthLinkInvalid) => authError 400 "invalid"
              | inl (WStore ErrAuthLinkExpired) => authError 410 "expired"
              | inl (WStore ErrAuthLinkSuperseded) => authError 410 "superseded"
              | inl _ => unavailable_reply 500
              | inr request => authWrite 200 (accessRequestState request)
              end)))).
Definition accessRequestStatus (h : Handler) (rq : WebRequest) (body : option string) : WP WebReply :=
  authReady h (λ a,
    tokenBody body (λ token,
      r ← store_tx (AccessRequestByToken sha256hex token);
      mret (match r with
            | inl (WStore ErrAuthLinkInvalid) => authError 400 "invalid"
            | inl (WStore ErrAuthLinkSuperseded) => authError 410 "superseded"
            | inl _ => unavailable_reply 500
            | inr request => authWrite 200 (accessRequestState request)
            end))).
Record SetupBody := mkSetupBody { sb_Token : string; sb_DisplayName : string; sb_Locale : string; sb_Password : string }.
Definition completeSetup (h : Handler) (rq : WebRequest) (body : option SetupBody) : WP WebReply :=
  authReady h (λ a,
    match body with
    | None => mret (authError 400 "invalid_request")
    | Some b =>
        if bool_decide (TrimSpace (sb_DisplayName b) = EmptyString) then mret (authError 400 "display_name")
        else
          blocked a rq (entryThrottles a rq EmptyString [ruleSetupIP]) (
            now ← ask QClock; pgnow ← ask QPg;
            r ← store_tx (CompleteSetup sha256hex HashPassword (sb_Token b) (sb_DisplayName b) (normalizeLocale (sb_Locale b)) (sb_Password b) now pgnow);
            mret (match r with inl e => writeAuthLinkError e | inr _ => authWrite 200 (BState [("status", "setup_complete")]) end))
    end).
Definition resendSetup (h : Handler) (rq : WebRequest) (body : option string) : WP WebReply :=
  authReady h (λ a,
    tokenBody body (λ token,
      blocked a rq (entryThrottles a rq EmptyString [ruleSetupIP]) (
        now ← ask QClock; pgnow ← ask QPg; outbox ← ask QFresh;
        r ← store_tx (ResendSetupInstructions sha256hex outbox token now pgnow);
        mret (match r with inl _ => unavailable_reply 500 | inr _ => accepted end)))).
Definition setupContext (h : Handler) (rq : WebRequest) (body : option string) : WP WebReply :=
  authReady h (λ a,
    tokenBody body (λ token,
      now ← ask QClock;
      r ← store_tx (SetupContext sha256hex token now);
      mret (match r with inl e => writeAuthLinkError e | inr (email, role) => authWrite 200 (BState [("email", email); ("role", role)]) end))).

(** * Signing in *)
Definition failedSignIn (a : AuthServices) (rq : WebRequest) (entries : list throttleEntry) (identityID : uuid) : WP WebReply :=
  c ← record entries unthrottled;
  now ← ask QClock;
  audit a rq (web_event "login_failed" OutcomeFailure "invalid_credentials" identityID EmptyString CredentialBrowser (JObj []) now);;
  mret (match c with
        | inl _ => unavailable_reply 503
        | inr st => if ts_Blocked st then writeThrottled st else authError 401 "invalid_credentials"
        end).
Definition finishSignIn (a : AuthServices) (rq : WebRequest) (user : LocalUser) (now : timestamp) : WP WebReply :=
  _ ← (match sessionCookie a rq with
       | inr token => store_tx (RevokeSessionByToken sha256hex token now TerminationRevoked);; mret ()
       | inl _ => mret ()
       end);
  csrf ← ask QRandom;
  match csrf with
  | None => mret (unavailable_reply 500)
  | Some csrfRaw =>
      let ip := ClientIP a rq in
      let l := default (EmptyString, EmptyString) (LocationFor a ip) in
      let '(browser, os, device) := ParseClientLabels (wq_Header rq "User-Agent") in
      let ev := securityEvent a rq (web_event "login_succeeded" OutcomeSuccess EmptyString (us_ID user) EmptyString CredentialBrowser
                  (JObj [("role", JStr (NormalizeRole (lu_Role (us_Row user))))]) now) in
      fresh ← ask QFresh;
      r ← with_secret (λ raw, store_tx (CreateBrowserSession sha256hex fresh raw
            (mkSessionParams (us_ID user) (HashSecret sha256hex SecretDomainCSRF csrfRaw) (idleTTL a) (absoluteTTL a) now ip browser os device
               l.1 l.2 (Some ev))));
      mret (match r with
            | inl _ => unavailable_reply 500
            | inr (raw, b) => mkWebReply 200 (BSignIn (profileFor user) csrfRaw) (SetCookie raw (bs_AbsoluteExpiresAt (ss_Row b)))
            end)
  end.
(** [normalized] of an invalid address is empty. *)
Definition normalized_of (email : string) : string := default EmptyString (snd <$> CanonicalEmail ToLower email).
Definition can_sign_in (valid : bool) (user : LocalUser) : bool :=
  valid && bool_decide (lu_Status (us_Row user) = LocalUserActive) && has_password (us_Row user).
Definition signIn (h : Handler) (rq : WebRequest) (body : option (string * string)) : WP WebReply :=
  authReady h (λ a,
    match body with
    | None => mret (authError 400 "invalid_request")
    | Some (email, password) =>
        let normalized := normalized_of email in
        let valid := bool_decide (is_Some (CanonicalEmail ToLower email)) in
        let entries := entryThrottles a rq normalized [ruleSignInIP; ruleSignInAccount] in
        blockedWithEvent a rq entries "login_throttled" (
          now ← ask QClock;
          r ← store_tx (FindLocalUserByEmail normalized);
          match r with
          | inl (WStore ErrNotFoundID) => failedSignIn a rq entries EmptyString
          | inl _ => mret (unavailable_reply 500)
          | inr user =>
              if can_sign_in valid user && VerifyPassword (derefString (lu_PasswordHash (us_Row user))) password
              then clearThrottle entries;; finishSignIn a rq user now
              else failedSignIn a rq entries (us_ID user)
          end)
    end).
Definition forgotPassword (h : Handler) (rq : WebRequest) (body : option string) : WP WebReply :=
  authReady h (λ a,
    match body with
    | None => mret (authError 400 "invalid_request")
    | Some email =>
        let normalized := normalized_of email in
        let entries := entryThrottles a rq normalized [ruleForgotIP; ruleForgotAccount] in
        let counted := (c ← record entries unthrottled; mret (match c with inl _ => unavailable_reply 503 | inr _ => accepted end)) in
        blocked a rq entries (
          if bool_decide (normalized = EmptyString) then counted
          else
            now ← ask QClock; pgnow ← ask QPg; outbox ← ask QFresh;
            r ← store_tx (RequestPasswordReset outbox normalized now pgnow);
            match r with inl _ => mret (unavailable_reply 500) | inr _ => counted end)
    end).
Definition resetPassword (h : Handler) (rq : WebRequest) (body : option (string * string)) : WP WebReply :=
  authReady h (λ a,
    match body with
    | None => mret (authError 400 "invalid_request")
    | Some (token, password) =>
        blocked a rq (entryThrottles a rq EmptyString [ruleResetIP]) (
          now ← ask QClock; pgnow ← ask QPg;
          r ← store_tx (CompletePasswordReset sha256hex HashPassword token password now pgnow);
          mret (match r with inl e => writeAuthLinkError e | inr _ => authWrite 200 (BState [("status", "reset_complete")]) end))
    end).

(** * The cookie session *)
Definition getProfile (a : AuthServices) (rq : WebRequest) (b : BrowserSession) : WP WebReply :=
  csrf ← RotateCSRF (ss_ID b);
  match csrf with
  | inl _ => writeSessionError a rq (WStore ErrSessionInvalid)
  | inr raw =>
      u ← store_tx (GetLocalUser (bs_IdentityID (ss_Row b)));
      match u with
      | inl _ => writeSessionError a rq (WStore ErrSessionIneligible)
      | inr user => mret (authWrite 200 (BSignIn (with_recent b (profileFor user)) raw))
      end
  end.
Record ProfileBody := mkProfileBody { pb_DisplayName : option string; pb_Locale : option string; pb_Expected : option timestamp }.
Definition updateProfile (a : AuthServices) (rq : WebRequest) (b : BrowserSession) (body : option ProfileBody) : WP WebReply :=
  match body with
  | None => mret (authError 400 "invalid_request")
  | Some req =>
      u ← store_tx (GetLocalUser (bs_IdentityID (ss_Row b)));
      match u with
      | inl _ => writeSessionError a rq (WStore ErrSessionIneligible)
      | inr user =>
          let displayName := match pb_DisplayName req with Some n => TrimSpace n | None => lu_DisplayName (us_Row user) end in
          let refused := match pb_DisplayName req with
                         | Some _ => bool_decide (displayName = EmptyString) || (200 <? length (runes displayName))%nat
                         | None => false
                         end in
          if refused then mret (authError 400 "display_name")
          else
            let locale := match pb_Locale req with Some l => normalizeLocale l | None => lu_Locale (us_Row user) end in
            now ← ask QClock; pgnow ← ask QPg;
            r ← store_tx (UpdateLocalUserProfileVersioned (bs_IdentityID (ss_Row b)) displayName locale (pb_Expected req) now pgnow);
            mret (match r with
                  | inl (WStore ErrProfileConflict) => authError 409 "profile_conflict"
                  | inl _ | inr None => unavailable_reply 500
                  | inr (Some updated) => authWrite 200 (BSignIn (profileFor updated) EmptyString)
                  end)
      end
  end.
Definition session_event (a : AuthServices) (rq : WebRequest) (name : string) (identityID sessionID : uuid) (detail : json) (now : timestamp) : SecurityEvent :=
  securityEvent a rq (web_event name OutcomeSuccess EmptyString identityID sessionID CredentialBrowser detail now).
Definition signOut (a : AuthServices) (rq : WebRequest) (b : BrowserSession) : WP WebReply :=
  now ← ask QClock;
  r ← store_tx (RevokeSessionWithAudit (ss_ID b) now TerminationRevoked
        (Some (session_event a rq "logout" (bs_IdentityID (ss_Row b)) (ss_ID b) (JObj []) now)));
  mret (match r with inl _ => unavailable_reply 500 | inr _ => mkWebReply 204 BNone ClearCookie end).
Definition refused_password (a : AuthServices) (rq : WebRequest) (b : BrowserSession) (me : uuid) (entries : list throttleEntry) : WP WebReply :=
  c ← record entries unthrottled;
  match c with
  | inl _ => mret (unavailable_reply 503)
  | inr _ =>
      now ← ask QClock;
      audit a rq (web_event "reauthentication_failed" OutcomeFailure "invalid_credentials" me (ss_ID b) CredentialBrowser (JObj []) now);;
      mret (authError 401 "invalid_credentials")
  end.
Definition reauthenticate (a : AuthServices) (rq : WebRequest) (b : BrowserSession) (body : option string) : WP WebReply :=
  match body with
  | None => mret (authError 400 "invalid_request")
  | Some password =>
      let me := bs_IdentityID (ss_Row b) in
      let entries := [mkEntry ruleReauthAccount (HashSubject sha256hex ("reauth:" +:+ me))] in
      blockedWithEvent a rq entries "login_throttled" (
        u ← store_tx (FindLocalUserByEmail (default EmptyString (lu_EmailNormalized <$> ss_User b)));
        match u with
        | inr user =>
            if has_password (us_Row user) && VerifyPassword (derefString (lu_PasswordHash (us_Row user))) password
            then
              now ← ask QClock;
              r ← store_tx (SetRecentPasswordWithAudit (ss_ID b) now (Some (session_event a rq "reauthentication_succeeded" me (ss_ID b) (JObj []) now)));
              match r with
              | inl (WStore ErrSessionInvalid) => writeSessionError a rq (WStore ErrSessionInvalid)
              | inl _ => mret (unavailable_reply 500)
              | inr _ => clearThrottle entries;; mret (authWrite 200 (BRecent now))
              end
            else refused_password a rq b me entries
        | inl _ => refused_password a rq b me entries
        end)
  end.
Definition listSessions (b : BrowserSession) : WP WebReply :=
  now ← ask QClock;
  r ← store_read (ListActiveSessions (bs_IdentityID (ss_Row b)) (ss_ID b) now);
  mret (match r with inl _ => unavailable_reply 500 | inr l => authWrite 200 (BSessions (ss_ID b) l) end).
Definition revokeSession (a : AuthServices) (rq : WebRequest) (b : BrowserSession) (target : uuid) : WP WebReply :=
  now ← ask QClock;
  let self := bool_decide (target = ss_ID b) in
  r ← store_tx (RevokeOwnedSessionWithAudit (bs_IdentityID (ss_Row b)) target now TerminationRevoked
        (Some (session_event a rq "session_revoked" (bs_IdentityID (ss_Row b)) target (JObj [("self", JBool self)]) now)));
  mret (match r with inl _ => unavailable_reply 500 | inr _ => mkWebReply 204 BNone (if self then ClearCookie else KeepCookie) end).
Definition revokeOtherSessions (a : AuthServices) (rq : WebRequest) (b : BrowserSession) : WP WebReply :=
  now ← ask QClock;
  r ← store_tx (RevokeOtherSessionsWithAudit (bs_IdentityID (ss_Row b)) (ss_ID b) now TerminationRevoked
        (λ revoked, Some (session_event a rq "session_revoked" (bs_IdentityID (ss_Row b)) (ss_ID b) (JObj [("others", JNum revoked 0)]) now)));
  mret (match r with inl _ => unavailable_reply 500 | inr n => authWrite 200 (BRevoked n) end).

(** * Access requests *)
Definition listAccessRequests : WP WebReply :=
  r ← store_read ListPendingAccessRequests;
  mret (match r with inl _ => unavailable_reply 500 | inr l => authWrite 200 (BRequests l) end).
Definition approveAccessRequest (b : BrowserSession) (id : uuid) (body : option string) : WP WebReply :=
  match body with
  | None => mret (authError 400 "invalid_request")
  | Some role =>
      if negb (bool_decide (role = RoleOperator) || bool_decide (role = RoleAdmin)) then mret (authError 400 "invalid_role")
      else
        now ← ask QClock; pgnow ← ask QPg; fresh ← ask QFresh; outbox ← ask QFresh;
        r ← store_tx (ApproveAccessRequest fresh outbox id (bs_IdentityID (ss_Row b)) role now pgnow);
        mret (match r with
              | inl (WStore ErrAccessRequestNotFound) => authError 404 "not_found"
              | inl (WStore ErrRequestStateChanged) => authError 409 "state_changed"
              | inl (WStore ErrAccountExists) => authError 409 "account_exists"
              | inl _ => unavailable_reply 500
              | inr user => authWrite 200 (BState [("state", "setup_pending"); ("role", NormalizeRole (lu_Role (us_Row user)))])
              end)
  end.
Definition declineAccessRequest (b : BrowserSession) (id : uuid) : WP WebReply :=
  now ← ask QClock;
  r ← store_tx (DeclineAccessRequest id (bs_IdentityID (ss_Row b)) now);
  mret (match r with
        | inl (WStore ErrAccessRequestNotFound) => authError 404 "not_found"
        | inl (WStore ErrRequestStateChanged) => authError 409 "state_changed"
        | inl _ => unavailable_reply 500
        | inr _ => authWrite 200 (BState [("state", "declined")])
        end).

(** * People *)
Definition writePeopleError (e : WErr) : WebReply :=
  match e with
  | WStore ErrNotFoundID => authError 404 "not_found"
  | WStore ErrLastAdmin => authError 409 "last_admin"
  | WStore ErrInvalidRole => authError 400 "invalid_role"
  | WStore ErrPersonStateChanged => authError 409 "state_changed"
  | _ => unavailable_reply 500
  end.
Definition listPeople : WP WebReply :=
  p ← store_read ListPeople;
  match p with
  | inl _ => mret (unavailable_reply 500)
  | inr people =>
      r ← store_read ListPendingAccessRequests;
      mret (match r with inl _ => unavailable_reply 500 | inr pending => authWrite 200 (BPeople people pending) end)
  end.
Definition getPerson (id : uuid) : WP WebReply :=
  r ← store_read (λ d, GetPerson d id);
  mret (match r with
        | inl _ => unavailable_reply 500
        | inr None => authError 404 "not_found"
        | inr (Some p) => authWrite 200 (BPerson p no_consequences)
        end).
Definition write_person (r : WErr + (Person * PersonConsequences)) : WebReply :=
  match r with inl e => writePeopleError e | inr (p, c) => authWrite 200 (BPerson p c) end.
Definition changePersonRole (b : BrowserSession) (id : uuid) (body : option string) : WP WebReply :=
  match body with
  | None => mret (authError 400 "invalid_request")
  | Some role =>
      now ← ask QClock; pgnow ← ask QPg;
      r ← store_call (ChangePersonRole (bs_IdentityID (ss_Row b)) id role now pgnow);
      mret (write_person r)
  end.
Definition disablePerson (b : BrowserSession) (id : uuid) : WP WebReply :=
  now ← ask QClock; pgnow ← ask QPg;
  r ← store_call (DisablePerson (bs_IdentityID (ss_Row b)) id now pgnow);
  mret (write_person r).
Definition enablePerson (b : BrowserSession) (id : uuid) : WP WebReply :=
  now ← ask QClock; pgnow ← ask QPg;
  r ← store_call (EnablePerson (bs_IdentityID (ss_Row b)) id now pgnow);
  mret (write_person r).
Definition revokePersonSessions (b : BrowserSession) (id : uuid) : WP WebReply :=
  now ← ask QClock;
  r ← store_call (RevokePersonSessions (bs_IdentityID (ss_Row b)) id now);
  mret (match r with inl e => writePeopleError e | inr c => authWrite 200 (BRevoked (pc_SessionsRevoked c)) end).

(** * Users and keys (server.go) *)
Definition auth (h : Handler) (rq : WebRequest) (scope : string) (next : APIKey → Identity → WP WebReply) : WP WebReply :=
  if negb (wh_Store h) then mret (authWrite 503 BNone)
  else match ParseBearer (wq_Header rq "Authorization") with
  | None => mret (authWrite 401 BNone)
  | Some token =>
      touched ← ask QTouched; pgnow ← ask QPg;
      r ← store_tx (ValidateAPIKey sha256hex token touched pgnow);
      match r with
      | inl _ => mret (authWrite 401 BNone)
      | inr (key, ident) => if bool_decide (pk_Scope key = scope) then next key ident else mret (authWrite 403 BNone)
      end
  end.
Definition createUser (body : option (string * string)) : WP WebReply :=
  match body with
  | None => mret (authWrite 400 BNone)
  | Some (email, role) =>
      if bool_decide (email = EmptyString) then mret (authWrite 400 BNone)
      else
        let role := if bool_decide (role = EmptyString) || bool_decide (role = "user") then RoleOperator else role in
        if negb (bool_decide (role = RoleAdmin) || bool_decide (role = RoleOperator)) then mret (authWrite 400 BNone)
        else
          pgnow ← ask QPg; fresh ← ask QFresh;
          r ← store_tx (UpsertLocalUser ToLower fresh email role pgnow);
          mret (match r with inl _ => authWrite 500 BNone | inr u => authWrite 201 (BUser u) end)
  end.
Definition listUsers : WP WebReply :=
  r ← store_read ListLocalUsers;
  mret (match r with inl _ => authWrite 500 BNone | inr l => authWrite 200 (BUsers l) end).
Definition getUser (id : uuid) : WP WebReply :=
  r ← store_tx (GetLocalUser id);
  mret (match r with inl (WStore ErrNotFoundID) => authWrite 404 BNone | inl _ => authWrite 500 BNone | inr u => authWrite 200 (BUser u) end).
Record KeyBody := mkKeyBody { kb_IdentityID : uuid; kb_Name : string; kb_Scope : string; kb_ExpiresAt : option timestamp }.
Definition createAPIKey (body : option KeyBody) : WP WebReply :=
  match body with
  | None => mret (authWrite 400 BNone)
  | Some b =>
      if bool_decide (kb_IdentityID b = EmptyString) || negb (ValidScope (kb_Scope b)) then mret (authWrite 400 BNone)
      else
        pgnow ← ask QPg; fresh ← ask QFresh;
        r ← with_secret (λ enc, store_tx (CreateAPIKey sha256hex fresh enc (kb_IdentityID b) (kb_Name b) (kb_Scope b) (kb_ExpiresAt b) pgnow));
        mret (match r with inl _ => authWrite 500 BNone | inr (full, k) => authWrite 201 (BKey (Some full) k) end)
  end.
Definition listAPIKeys : WP WebReply :=
  r ← store_call (λ d, (ListAPIKeys d, d));
  mret (match r with inl _ => authWrite 500 BNone | inr l => authWrite 200 (BKeys l) end).
Definition deleteAPIKey (id : uuid) : WP WebReply :=
  pgnow ← ask QPg;
  r ← store_tx (RevokeAPIKey id pgnow);
  mret (match r with inl (WStore ErrNotFoundID) => authWrite 404 BNone | inl _ => authWrite 500 BNone | inr _ => authWrite 204 BNone end).

(** * The routes *)
Inductive WebRoute :=
| RRequestAccess (body : option (string * string)) | RVerify (body : option string) | RRequestStatus (body : option string)
| RSetup (body : option SetupBody) | RSetupResend (body : option string) | RSetupContext (body : option string)
| RSignIn (body : option (string * string)) | RForgot (body : option string) | RReset (body : option (string * string))
| RAuthSession
| RGetProfile | RListSessions
| RUpdateProfile (body : option ProfileBody) | RSignOut | RReauthenticate (body : option string) | RRevokeSession (id : uuid)
| RRevokeOthers
| RListRequests | RApprove (id : uuid) (body : option string) | RDecline (id : uuid)
| RListPeople | RGetPerson (id : uuid) | RChangeRole (id : uuid) (body : option string) | RDisable (id : uuid) | REnable (id : uuid)
| RRevokePerson (id : uuid)
| RListUsers | RCreateUser (body : option (string * string)) | RGetUser (id : uuid)
| RListKeys | RCreateKey (body : option KeyBody) | RDeleteKey (id : uuid).
(** The groups of [registerAuthRoutes] and [registerPeopleRoutes]. *)
Definition browser_group (h : Handler) (unsafe : bool) (rq : WebRequest) (next : AuthServices → BrowserSession → WP WebReply) : WP WebReply :=
  requireOrigin h unsafe rq (requireBrowser h rq next).
Definition csrf_group (h : Handler) (rq : WebRequest) (next : AuthServices → BrowserSession → WP WebReply) : WP WebReply :=
  browser_group h true rq (λ a b, requireCSRF rq b (next a b)).
Definition review_group (h : Handler) (rq : WebRequest) (next : BrowserSession → WP WebReply) : WP WebReply :=
  browser_group h true rq (λ a b, requireAdmin b (requireCSRF rq b (requireRecentAuth a b (next b)))).
Definition people_group (h : Handler) (rq : WebRequest) (next : AuthServices → BrowserSession → WP WebReply) : WP WebReply :=
  requireBrowser h rq (λ a b, requireAuthorityV2 (requireAdmin b (next a b))).
Definition people_mutation (h : Handler) (rq : WebRequest) (next : BrowserSession → WP WebReply) : WP WebReply :=
  people_group h rq (λ a b, requireCSRF rq b (requireRecentAuth a b (next b))).
Definition serve (h : Handler) (rq : WebRequest) (route : WebRoute) : WP WebReply :=
  match route with
  | RRequestAccess b => requireOrigin h true rq (requestAccess h rq b)
  | RVerify b => requireOrigin h true rq (verifyAccessRequest h rq b)
  | RRequestStatus b => requireOrigin h true rq (accessRequestStatus h rq b)
  | RSetup b => requireOrigin h true rq (completeSetup h rq b)
  | RSetupResend b => requireOrigin h true rq (resendSetup h rq b)
  | RSetupContext b => requireOrigin h true rq (setupContext h rq b)
  | RSignIn b => requireOrigin h true rq (signIn h rq b)
  | RForgot b => requireOrigin h true rq (forgotPassword h rq b)
  | RReset b => requireOrigin h true rq (resetPassword h rq b)
  | RAuthSession => requireOrigin h false rq (authSession h rq)
  | RGetProfile => browser_group h false rq (λ a b, getProfile a rq b)
  | RListSessions => browser_group h false rq (λ _ b, listSessions b)
  | RUpdateProfile body => csrf_group h rq (λ a b, updateProfile a rq b body)
  | RSignOut => csrf_group h rq (λ a b, signOut a rq b)
  | RReauthenticate body => csrf_group h rq (λ a b, reauthenticate a rq b body)
  | RRevokeSession id => csrf_group h rq (λ a b, revokeSession a rq b id)
  | RRevokeOthers => csrf_group h rq (λ a b, revokeOtherSessions a rq b)
  | RListRequests => browser_group h false rq (λ _ b, requireAdmin b listAccessRequests)
  | RApprove id body => review_group h rq (λ b, approveAccessRequest b id body)
  | RDecline id => review_group h rq (λ b, declineAccessRequest b id)
  | RListPeople => people_group h rq (λ _ _, listPeople)
  | RGetPerson id => people_group h rq (λ _ _, getPerson id)
  | RChangeRole id body => people_mutation h rq (λ b, changePersonRole b id body)
  | RDisable id => people_mutation h rq (λ b, disablePerson b id)
  | REnable id => people_mutation h rq (λ b, enablePerson b id)
  | RRevokePerson id => people_mutation h rq (λ b, revokePersonSessions b id)
  | RListUsers => auth h rq ScopeAdmin (λ _ _, listUsers)
  | RCreateUser body => auth h rq ScopeAdmin (λ _ _, createUser body)
  | RGetUser id => auth h rq ScopeAdmin (λ _ _, getUser id)
  | RListKeys => auth h rq ScopeAdmin (λ _ _, listAPIKeys)
  | RCreateKey body => auth h rq ScopeAdmin (λ _ _, createAPIKey body)
  | RDeleteKey id => auth h rq ScopeAdmin (λ _ _, deleteAPIKey id)
  end.
End web.
