(* ===== verification/WebFacts.v ===== *)
(** Logics for the processes of the HTTP API, and what the operations they call leave alone. *)
From S2P Require Import Prelude Json IdentityActions IdentityData IdentityStore IdentityFlows IdentityJourneys IdentitySession IdentityPeople IdentityFacts Authority IdentityMachine IdentityRefine Proc Web.

(** * A process with the log of its own actions

    Anything may happen between two actions; [answers] says which answers the environment
    may give. *)
Section logs.
Context {S : Type} {Q : Type → Type} (answers : ∀ R, Q R → R → Prop).
Inductive plog {A} : proc S Q A → S → list (S * S) → proc S Q A → S → Prop :=
| plog_stop p s : plog p s [] p s
| plog_atomic {R} (f : S → option (R * S)) k s r s1 l p2 s2 :
    f s = Some (r, s1) → plog (k r) s1 l p2 s2 → plog (Atomic f k) s ((s, s1) :: l) p2 s2
| plog_ask {R} (q : Q R) k r s l p2 s2 : answers R q r → plog (k r) s l p2 s2 → plog (Ask q k) s l p2 s2
| plog_others p s s1 l p2 s2 : plog p s1 l p2 s2 → plog p s l p2 s2.
(** Every action keeps [P], which knows the actions before it; [Φ] holds of the result. *)
Fixpoint logs {A} (P : list (S * S) → S → S → Prop) (h : list (S * S)) (p : proc S Q A) (Φ : A → list (S * S) → Prop) : Prop :=
  match p with
  | Ret a => Φ a h
  | Atomic f k => ∀ s r s', f s = Some (r, s') → P h s s' ∧ logs P (h ++ [(s, s')]) (k r) Φ
  | Ask q k => ∀ r, answers _ q r → logs P h (k r) Φ
  end.
Lemma logs_mono {A} P h (p : proc S Q A) (Φ Φ' : A → list (S * S) → Prop) : (∀ a h', Φ a h' → Φ' a h') → logs P h p Φ → logs P h p Φ'.
Proof.
  intros HΦ. revert h. induction p as [a|T f k IH|T q k IH]; intros h; cbn; [apply HΦ| |].
  - intros H s r s' Hf. destruct (H s r s' Hf). split; [done|]. by apply IH.
  - intros H r Hr. apply IH. by apply H.
Qed.
Lemma logs_bind {A B} P h (p : proc S Q A) (k : A → proc S Q B) Ψ Φ :
  logs P h p Ψ → (∀ a h', Ψ a h' → logs P h' (k a) Φ) → logs P h (p ≫= k) Φ.
Proof.
  intros Hp Hk. unfold mbind, proc_bind. revert h Hp. induction p as [a|T f g IH|T q g IH]; intros h; cbn.
  - apply Hk.
  - intros H s r s' Hf. destruct (H s r s' Hf). split; [done|]. by apply IH.
  - intros H r Hr. apply IH. by apply H.
Qed.
Lemma logs_ask {A X} P h (q : Q X) (k : X → proc S Q A) Φ : (∀ r, answers _ q r → logs P h (k r) Φ) → logs P h (ask q ≫= k) Φ.
Proof. intros H r Hr. by apply H. Qed.
Lemma logs_ret {A} P h (a : A) (Φ : A → list (S * S) → Prop) : Φ a h → logs P h (mret a) Φ.
Proof. done. Qed.
Lemma logs_all {A} P (R : S → S → Prop) h (p : proc S Q A) :
  (∀ h s s', R s s' → P h s s') → all_steps R p → logs P h p (λ _ _, True).
Proof.
  intros HR. revert h. induction p as [a|T f k IH|T q k IH]; intros h; cbn; [done| |].
  - intros [H1 H2] s r s' Hf. split; [by eapply HR, H1|by apply IH].
  - intros H r _. by apply IH.
Qed.
Lemma logs_sound {A} P h (p : proc S Q A) Φ s l p' s' :
  logs P h p Φ → plog p s l p' s' → ∀ i e e', l !! i = Some (e, e') → P (h ++ take i l) e e'.
Proof.
  intros Hp Hl. revert h Hp. induction Hl as [p s|R f k s r s1 l p2 s2 Hf Hl IH|R q k r s l p2 s2 Hr Hl IH|p s s1 l p2 s2 Hl IH]; intros h Hp i e e' Hi.
  - done.
  - destruct (Hp s r s1 Hf) as [Hh Hk]. destruct i as [|i]; cbn in Hi.
    + injection Hi as -> ->. cbn. by rewrite app_nil_r.
    + specialize (IH _ Hk i e e' Hi). cbn. by rewrite <- app_assoc in IH.
  - by eapply IH; [apply Hp|].
  - by eapply IH.
Qed.
(** One run, with the answers listed. *)
Fixpoint timed {A} (l : list (∀ R, Q R → R)) (p : proc S Q A) (s : S) : option (A * S * list (∀ R, Q R → R)) :=
  match p with
  | Ret a => Some (a, s, l)
  | Atomic f k => '(r, s') ← f s; timed l (k r) s'
  | Ask q k => match l with [] => None | w :: l' => timed l' (k (w _ q)) s end
  end.
Lemma timed_bind {A B} l (p : proc S Q A) (k : A → proc S Q B) s :
  timed l (p ≫= k) s = '(a, s', l') ← timed l p s; timed l' (k a) s'.
Proof.
  unfold mbind at 1, proc_bind. revert l s. induction p as [a|T f g IH|T q g IH]; intros l s; cbn; [done| |].
  - destruct (f s) as [[r s1]|]; cbn; [apply IH|done].
  - destruct l as [|w l]; [done|]. apply IH.
Qed.
(** Two processes that give the same answer after the same questions, at most [n], from
    states that [E] relates. *)
Definition alike {A} (E : S → S → Prop) (n : nat) (p1 p2 : proc S Q A) : Prop :=
  ∀ l s1 s2, E s1 s2 → (n ≤ length l)%nat → ∃ a s1' s2' l', timed l p1 s1 = Some (a, s1', l') ∧ timed l p2 s2 = Some (a, s2', l') ∧
    E s1' s2' ∧ (length l ≤ length l' + n)%nat.
Lemma alike_bind {A B} (E : S → S → Prop) n m (p1 p2 : proc S Q A) (k1 k2 : A → proc S Q B) :
  alike E n p1 p2 → (∀ a, alike E m (k1 a) (k2 a)) → alike E (n + m) (p1 ≫= k1) (p2 ≫= k2).
Proof.
  intros Hp Hk l s1 s2 HE Hl. destruct (Hp l s1 s2 HE) as (a & t1 & t2 & l' & H1 & H2 & HE' & Hl'); [lia|].
  destruct (Hk a l' t1 t2 HE') as (b & u1 & u2 & l'' & K1 & K2 & HE'' & Hl''); [lia|].
  exists b, u1, u2, l''. rewrite !timed_bind, H1, H2. cbn. split_and!; [done|done|done|lia].
Qed.
Lemma alike_ret {A} (E : S → S → Prop) n (a : A) : alike E n (mret a) (mret a).
Proof. intros l s1 s2 HE _. exists a, s1, s2, l. split_and!; [done|done|done|lia]. Qed.
Lemma alike_ask {X} (E : S → S → Prop) (q : Q X) : alike E 1 (ask q) (ask q).
Proof. intros [|w l] s1 s2 HE Hl; [cbn in Hl; lia|]. exists (w X q), s1, s2, l. cbn. split_and!; [done|done|done|lia]. Qed.
Lemma alike_atomically {X} (E : S → S → Prop) (f1 f2 : S → X * S) :
  (∀ s1 s2, E s1 s2 → (f1 s1).1 = (f2 s2).1 ∧ E (f1 s1).2 (f2 s2).2) → alike E 0 (atomically f1) (atomically f2).
Proof.
  intros Hf l s1 s2 HE _. destruct (Hf s1 s2 HE) as [H1 H2]. exists (f1 s1).1, (f1 s1).2, (f2 s2).2, l. cbn. rewrite H1 at 2.
  destruct (f1 s1), (f2 s2). cbn in *. split_and!; [done|done|done|lia].
Qed.
Lemma alike_weaken {A} (E : S → S → Prop) n m (p1 p2 : proc S Q A) : (n ≤ m)%nat → alike E n p1 p2 → alike E m p1 p2.
Proof.
  intros Hnm Hp l s1 s2 HE Hl. destruct (Hp l s1 s2 HE) as (a & t1 & t2 & l' & H1 & H2 & HE' & Hl'); [lia|].
  exists a, t1, t2, l'. split_and!; [done|done|done|lia].
Qed.
End logs.

(** * What the operations leave alone *)
(** The accounts, whole rows with address, profile, role, status and password, and the API keys
    and credentials, whole rows but for the time of the last use. *)
Definition powers (d : IdentityDB) : gmap uuid LocalUserRow * gmap uuid ApiKeyRow := (local_users d, with_last_used 0 <$> api_keys d).
Definition same_powers (d d' : IdentityDB) : Prop := powers d' = powers d.
Definition same_counters (d d' : IdentityDB) : Prop := auth_throttle_counters d' = auth_throttle_counters d.
Definition quiet (d d' : IdentityDB) : Prop := same_powers d d' ∧ same_counters d d'.
Lemma quiet_refl d : quiet d d.
Proof. done. Qed.
Ltac quiet_op := apply run_tx_inv; [apply quiet_refl|]; intros ? ? ?; open_op; id_inv; cbv beta; try (split; reflexivity).
Section operations.
Context (sha256hex ToLower : string → string) (HashPassword : string → option string).
Lemma quiet_append e d : quiet d (run_tx (AppendSecurityEvent e) d).2.
Proof. quiet_op. Qed.
Lemma quiet_create_request f o de no l n p d : quiet d (run_tx (CreateOrResendAccessRequest f o de no l n p) d).2.
Proof. quiet_op. Qed.
Lemma quiet_verify r n d : quiet d (run_tx (VerifyAccessRequest sha256hex r n) d).2.
Proof. quiet_op. Qed.
Lemma quiet_by_token r d : quiet d (run_tx (AccessRequestByToken sha256hex r) d).2.
Proof. unfold AccessRequestByToken. quiet_op. Qed.
Lemma quiet_resend o r n p d : quiet d (run_tx (ResendSetupInstructions sha256hex o r n p) d).2.
Proof. quiet_op. Qed.
Lemma quiet_context r n d : quiet d (run_tx (SetupContext sha256hex r n) d).2.
Proof. unfold SetupContext. quiet_op. Qed.
Lemma quiet_find_user e d : quiet d (run_tx (FindLocalUserByEmail e) d).2.
Proof. unfold FindLocalUserByEmail. quiet_op. Qed.
Lemma quiet_get_user i d : quiet d (run_tx (GetLocalUser i) d).2.
Proof. quiet_op. Qed.
Lemma quiet_forgot o e n p d : quiet d (run_tx (RequestPasswordReset o e n p) d).2.
Proof. quiet_op. Qed.
Lemma quiet_revoke_token r n re d : quiet d (run_tx (RevokeSessionByToken sha256hex r n re) d).2.
Proof. quiet_op. Qed.
Lemma quiet_create_session f r p d : quiet d (run_tx (CreateBrowserSession sha256hex f r p) d).2.
Proof. quiet_op. Qed.
Lemma quiet_rotate r i d : quiet d (run_tx (RotateSessionCSRF sha256hex r i) d).2.
Proof. quiet_op. Qed.
Lemma quiet_revoke i n r e d : quiet d (run_tx (RevokeSessionWithAudit i n r e) d).2.
Proof. quiet_op. Qed.
Lemma quiet_recent i n e d : quiet d (run_tx (SetRecentPasswordWithAudit i n e) d).2.
Proof. quiet_op. Qed.
Lemma quiet_revoke_owned i s n r e d : quiet d (run_tx (RevokeOwnedSessionWithAudit i s n r e) d).2.
Proof. quiet_op. Qed.
Lemma quiet_revoke_others i k n r e d : quiet d (run_tx (RevokeOtherSessionsWithAudit i k n r e) d).2.
Proof. quiet_op. Qed.
Lemma quiet_decline r i n d : quiet d (run_tx (DeclineAccessRequest r i n) d).2.
Proof. quiet_op. Qed.
Lemma quiet_validate k s p d : quiet d (run_tx (ValidateAPIKey sha256hex k s p) d).2.
Proof.
  quiet_op. split; [|reflexivity]. unfold same_powers, powers. cbn. f_equal. apply map_eq. intros j. rewrite !lookup_fmap.
  match goal with |- context [alter _ ?k _] => destruct (decide (k = j)) as [->|Hne] end; [rewrite lookup_alter_eq; by destruct (api_keys d !! _)|by rewrite lookup_alter_ne].
Qed.
Lemma quiet_terminate b n r d : quiet d (terminate b n r d).
Proof. unfold terminate, RevokeSession. apply quiet_revoke. Qed.
Lemma quiet_resolve r n nw w d : quiet d (ResolveBrowserSessionWithNetwork sha256hex r n nw w d).2.
Proof.
  unfold ResolveBrowserSessionWithNetwork. destruct (bool_decide _); [done|].
  destruct (find_row _ _) as [[id s]|]; [|done]. repeat (case_match; [first [done|apply quiet_terminate]|]).
  destruct (coalesceSessionActivity _ _ _ _ _) as [b' d'] eqn:Hc. cbn. unfold coalesceSessionActivity in Hc.
  repeat case_match; simplify_eq; done.
Qed.
Lemma quiet_revoke_person a t n d : quiet d (RevokePersonSessions a t n d).2.
Proof.
  unfold RevokePersonSessions. apply (mutatePerson_inv (quiet d)); [done|by intros d' ev [? ?]|].
  intros target b d1 r d' _ _ _ H. unfold revoke_sessions in H. cbn in H. id_inv. done.
Qed.
(** The counters alone. *)
Lemma powers_record r s n d : same_powers d (run_tx (RecordAuthAttempt r s n) d).2.
Proof. apply run_tx_inv; [done|]. intros ? ? ?. open_op. id_inv; done. Qed.
Lemma powers_clear sc s d : same_powers d (run_tx (ClearAuthThrottle sc s) d).2.
Proof. done. Qed.
(** Not the counters. *)
Ltac counters_op := apply run_tx_inv; [reflexivity|]; intros ? ? ?; open_op; id_inv; reflexivity.
Lemma counters_approve f o r i ro n p d : same_counters d (run_tx (ApproveAccessRequest f o r i ro n p) d).2.
Proof. counters_op. Qed.
Lemma counters_setup r dn l pw n p d : same_counters d (run_tx (CompleteSetup sha256hex HashPassword r dn l pw n p) d).2.
Proof. counters_op. Qed.
Lemma counters_reset r pw n p d : same_counters d (run_tx (CompletePasswordReset sha256hex HashPassword r pw n p) d).2.
Proof. counters_op. Qed.
Lemma counters_profile i dn l e n p d : same_counters d (run_tx (UpdateLocalUserProfileVersioned i dn l e n p) d).2.
Proof. counters_op. Qed.
Lemma counters_create_key f e i n s x p d : same_counters d (run_tx (CreateAPIKey sha256hex f e i n s x p) d).2.
Proof. counters_op. Qed.
Lemma counters_revoke_key i p d : same_counters d (run_tx (RevokeAPIKey i p) d).2.
Proof. counters_op. Qed.
Lemma counters_user f e r p d : same_counters d (run_tx (UpsertLocalUser ToLower f e r p) d).2.
Proof. counters_op. Qed.
Ltac counters_person :=
  rewrite reread_snd; apply (mutatePerson_inv (same_counters _)); [reflexivity|by intros|];
  intros ? ? ? ? ? _ _ _ H; cbn in H; unfold update_user, suspendAllCredentialsTx, suspendAdminOnlyCredentialsTx, suspendOwnedAutomationTx in H; id_inv; reflexivity.
Lemma counters_role a t r n p d : same_counters d (ChangePersonRole a t r n p d).2.
Proof. unfold ChangePersonRole. destruct (negb _); [done|]. counters_person. Qed.
Lemma counters_disable a t n p d : same_counters d (DisablePerson a t n p d).2.
Proof. unfold DisablePerson. counters_person. Qed.
Lemma counters_enable a t n p d : same_counters d (EnablePerson a t n p d).2.
Proof. unfold EnablePerson. counters_person. Qed.
End operations.

Create HintDb web_quiet discriminated.
#[export] Hint Resolve quiet_refl quiet_append quiet_create_request quiet_verify quiet_by_token quiet_resend quiet_context quiet_find_user
  quiet_get_user quiet_forgot quiet_revoke_token quiet_create_session quiet_rotate quiet_revoke quiet_recent
  quiet_revoke_owned quiet_revoke_others quiet_decline quiet_validate quiet_resolve quiet_revoke_person : web_quiet.

(** * Handlers whose actions keep a relation *)
Definition on_store (R : IdentityDB → IdentityDB → Prop) (s s' : AuthorityStore) : Prop := R (st_db s) (st_db s').
Definition counted (R : IdentityDB → IdentityDB → Prop) (rule : ThrottleRule) : Prop :=
  ∀ subject now d, R d (run_tx (RecordAuthAttempt rule subject now) d).2 ∧ R d (run_tx (ClearAuthThrottle (tr_Scope rule) subject) d).2.
(** The rules whose attempts some handler counts. *)
Definition recorded_rules : list ThrottleRule :=
  [ruleRequestAccessIP; ruleRequestAccessEmail; ruleSignInIP; ruleSignInAccount; ruleForgotIP; ruleForgotAccount; ruleReauthAccount].
Section handlers.
Context (sha256hex ToLower : string → string) (HashPassword : string → option string) (VerifyPassword : string → string → bool).
Context (SplitHostPort ParseIP : string → option string) (contains : string → string → bool).
Context (ParseClientLabels : string → string * string * string).
Context (R : IdentityDB → IdentityDB → Prop).
Context (Rquiet : ∀ d d', quiet d d' → R d d') (Rcount : ∀ rule, rule ∈ recorded_rules → counted R rule).
#[local] Notation keeps p := (all_steps (on_store R) p).
Lemma leaves_bind {A B} (p : WP A) (k : A → WP B) : keeps p → (∀ a, keeps (k a)) → keeps (p ≫= k).
Proof. apply all_steps_bind. Qed.
Lemma leaves_call {A} (f : IdentityDB → (IdErr + A) * IdentityDB) : (∀ d, R d (f d).2) → keeps (store_call f).
Proof.
  intros Hf. unfold store_call. apply leaves_bind; [apply all_steps_ask|]. intros [].
  - apply leaves_bind; [|intros; apply all_steps_ret]. apply all_steps_atomically. intros s. unfold on_store, on_db.
    specialize (Hf (st_db s)). by destruct (f (st_db s)).
  - apply all_steps_ret.
  - apply leaves_bind; [|intros; apply all_steps_ret]. apply all_steps_atomically. intros s. apply Hf.
Qed.
Lemma leaves_tx {A} (m : tx A) : (∀ d, quiet d (run_tx m d).2) → keeps (store_tx m).
Proof. intros Hm. apply leaves_call. intros d. apply Rquiet, Hm. Qed.
Lemma leaves_read {A} (f : IdentityDB → A) : keeps (store_read f).
Proof. apply leaves_call. intros d. by apply Rquiet. Qed.
Lemma leaves_lift {A} (p : aproc A) : all_steps (λ s s', st_db s' = st_db s) p → keeps (lift_auth p).
Proof.
  induction p as [a|T f k IH|T q k IH]; cbn.
  - done.
  - intros [Hf Hk]. split; [|intros r; by apply IH]. intros s r s' E. unfold on_store. rewrite (Hf s r s' E). by apply Rquiet.
  - intros Hk. destruct q. intros r. by apply IH.
Qed.
Lemma RequireAuthorityV2_reads : all_steps (λ s s', st_db s' = st_db s) RequireAuthorityV2.
Proof.
  unfold RequireAuthorityV2. apply all_steps_bind; [|intros; apply all_steps_ret]. unfold AuthorityEpoch.
  apply all_steps_bind; [by apply all_steps_atomically|]. intros []; [apply all_steps_ret|].
  apply all_steps_bind; [by apply all_steps_atomically|]. intros e. case_bool_decide; [|apply all_steps_ret].
  apply all_steps_bind; [by apply all_steps_atomically|]. intros. apply all_steps_ret.
Qed.
Lemma leaves_status entries st : keeps (throttleStatus entries st).
Proof.
  revert st. induction entries as [|e entries IH]; intros st; cbn [throttleStatus]; [apply all_steps_ret|].
  apply leaves_bind; [apply all_steps_ask|]. intros now. apply leaves_bind; [apply leaves_read|]. intros [x|x]; [apply all_steps_ret|apply IH].
Qed.
Definition recordable (entries : list throttleEntry) : Prop := Forall (λ e, te_rule e ∈ recorded_rules) entries.
Lemma leaves_record entries st : recordable entries → keeps (record entries st).
Proof.
  revert st. induction entries as [|e entries IH]; intros st; cbn [record]; [intros; apply all_steps_ret|].
  intros [He Hr]%Forall_cons. apply leaves_bind; [apply all_steps_ask|]. intros now.
  apply leaves_bind; [|intros [x|x]; [apply all_steps_ret|by apply IH]]. apply leaves_call. intros d. exact (proj1 (Rcount _ He _ _ d)).
Qed.
Lemma leaves_clear entries : recordable entries → keeps (clearThrottle entries).
Proof.
  induction entries as [|e entries IH]; cbn [clearThrottle]; [intros; apply all_steps_ret|].
  intros [He Hr]%Forall_cons. apply leaves_bind; [|intros [x|x]; [apply all_steps_ret|by apply IH]]. apply leaves_call. intros d. exact (proj2 (Rcount _ He (te_subject e) 0 d)).
Qed.
Lemma recordable_entries a rq normalized rules :
  Forall (λ r, r ∈ recorded_rules) rules → recordable (entryThrottles sha256hex SplitHostPort ParseIP contains a rq normalized rules).
Proof.
  intros Hr. unfold entryThrottles, recordable. induction rules as [|r rules IH]; [constructor|]. apply Forall_cons in Hr as [Hr Hrs].
  cbn. match goal with |- context [match ?x with Some _ => _ | None => _ end] => destruct x as [e|] eqn:He end; [|by apply IH].
  constructor; [|by apply IH]. destruct (_ || _); [case_bool_decide; [done|]|destruct (ClientIP _ _ _ _ _); [|done]]; by injection He as <-.
Qed.
(** [walk] takes a handler apart. *)
Ltac walk_step :=
  match goal with
  | |- all_steps _ (mret _) => apply all_steps_ret
  | |- all_steps _ (ask _) => apply all_steps_ask
  | |- all_steps _ (store_tx _) => apply leaves_tx; intros; solve [auto with web_quiet]
  | |- all_steps _ (store_read _) => apply leaves_read
  | |- all_steps _ (store_call _) => apply leaves_call; intros; apply Rquiet; solve [auto with web_quiet]
  | |- all_steps _ (throttleStatus _ _) => apply leaves_status
  | |- all_steps _ (record _ _) => apply leaves_record; first [apply recordable_entries | idtac]; repeat constructor
  | |- all_steps _ (clearThrottle _) => apply leaves_clear; first [apply recordable_entries | idtac]; repeat constructor
  | |- all_steps _ (lift_auth RequireAuthorityV2) => apply leaves_lift, RequireAuthorityV2_reads
  | |- all_steps _ (_ ≫= _) => apply leaves_bind; [|intros]
  | |- all_steps _ (let '(_, _) := ?x in _) => destruct x
  | |- all_steps _ (match ?x with _ => _ end) => destruct x
  | H : all_steps _ ?p |- all_steps _ ?p => exact H
  | H : ∀ x, all_steps _ _ |- all_steps _ _ => apply H
  | H : ∀ x y, all_steps _ _ |- all_steps _ _ => apply H
  end.
Ltac walk := repeat walk_step.
#[local] Notation audit := (audit SplitHostPort ParseIP contains).
Lemma leaves_audit a rq e : keeps (audit a rq e).
Proof. unfold Web.audit. walk. Qed.
Lemma leaves_ready h next : (∀ a, keeps (next a)) → keeps (authReady h next).
Proof. intros Hn. unfold authReady. walk. Qed.
Lemma leaves_origin h u rq next : keeps next → keeps (requireOrigin h u rq next).
Proof. intros Hn. unfold requireOrigin. walk. Qed.
Lemma leaves_blocked a rq entries ev next : keeps next → keeps (blockedWithEvent SplitHostPort ParseIP contains a rq entries ev next).
Proof. intros Hn. unfold blockedWithEvent. walk. apply leaves_audit. Qed.
Lemma leaves_only entries next : keeps next → keeps (throttleOnly entries next).
Proof. intros Hn. unfold throttleOnly. walk. Qed.
Lemma leaves_refusal a rq e : keeps (auditSessionRefusal SplitHostPort ParseIP contains a rq e).
Proof. unfold auditSessionRefusal. walk. apply leaves_audit. Qed.
Lemma leaves_session_error a rq e : keeps (writeSessionError SplitHostPort ParseIP contains a rq e).
Proof. unfold writeSessionError. walk. apply leaves_refusal. Qed.
Lemma leaves_secret {A} (k : string → WP (WErr + A)) : (∀ raw, keeps (k raw)) → keeps (with_secret k).
Proof. intros Hk. unfold with_secret. walk. Qed.
Lemma leaves_rotate i : keeps (RotateCSRF sha256hex i).
Proof. apply leaves_secret. intros raw. walk. Qed.
Lemma leaves_resolve a rq token : keeps (ResolveSession sha256hex SplitHostPort ParseIP contains a rq token).
Proof. unfold ResolveSession. walk. Qed.
Lemma leaves_browser h rq next : (∀ a b, keeps (next a b)) → keeps (requireBrowser sha256hex SplitHostPort ParseIP contains h rq next).
Proof.
  intros Hn. apply leaves_ready. intros a. walk; [unfold write_cookie_error; walk; apply leaves_session_error|apply leaves_resolve|apply leaves_session_error].
Qed.
Lemma leaves_token body next : (∀ token, keeps (next token)) → keeps (tokenBody body next).
Proof. intros Hn. unfold tokenBody. walk. Qed.
Lemma leaves_refused a rq b me entries : recordable entries → keeps (refused_password SplitHostPort ParseIP contains a rq b me entries).
Proof. intros Hr. unfold refused_password. walk; [done|apply leaves_audit]. Qed.
Lemma leaves_failed a rq entries i : recordable entries → keeps (failedSignIn SplitHostPort ParseIP contains a rq entries i).
Proof. intros Hr. unfold failedSignIn. walk; [done|apply leaves_audit]. Qed.
Lemma leaves_finish a rq user now : keeps (finishSignIn sha256hex SplitHostPort ParseIP contains ParseClientLabels a rq user now).
Proof. unfold finishSignIn. walk. apply leaves_secret. intros raw. walk. Qed.
(** The routes that change accounts or keys. *)
Definition changes_accounts (route : WebRoute) : bool :=
  match route with
  | RSetup _ | RReset _ | RUpdateProfile _ | RApprove _ _ | RChangeRole _ _ | RDisable _ | REnable _ | RCreateUser _ | RCreateKey _
  | RDeleteKey _ => true
  | _ => false
  end.
#[local] Notation serve := (serve sha256hex ToLower HashPassword VerifyPassword SplitHostPort ParseIP contains ParseClientLabels).
Ltac outer_step :=
  first
  [ apply leaves_browser; intros | apply leaves_ready; intros | apply leaves_origin | apply leaves_blocked | apply leaves_only | apply leaves_token; intros
  | apply leaves_rotate | apply leaves_session_error | apply leaves_refusal | apply leaves_audit
  | apply leaves_resolve | apply leaves_secret; intros
  | apply leaves_failed; first [apply recordable_entries | idtac]; repeat constructor
  | apply leaves_refused; repeat constructor | apply leaves_finish | walk_step ].
Lemma leaves_public h rq route :
  match route with
  | RRequestAccess _ | RVerify _ | RRequestStatus _ | RSetupResend _ | RSetupContext _ | RSignIn _ | RForgot _ | RAuthSession => True
  | _ => False
  end → keeps (serve h rq route).
Proof.
  destruct route; try done; intros _; cbn [Web.serve]; apply leaves_origin.
  - unfold requestAccess, blocked. repeat outer_step.
  - unfold verifyAccessRequest. repeat outer_step.
  - unfold accessRequestStatus. repeat outer_step.
  - unfold resendSetup, blocked. repeat outer_step.
  - unfold setupContext. repeat outer_step.
  - unfold signIn. repeat outer_step.
  - unfold forgotPassword, blocked. repeat outer_step.
  - unfold authSession. repeat outer_step.
Qed.
Ltac groups := unfold csrf_group, review_group, people_mutation, people_group, browser_group, requireCSRF, requireAdmin, requireRecentAuth, requireAuthorityV2.
Lemma leaves_session h rq route :
  match route with
  | RGetProfile | RListSessions | RSignOut | RReauthenticate _ | RRevokeSession _ | RRevokeOthers | RListRequests
  | RDecline _ | RListPeople | RGetPerson _ | RRevokePerson _ => True
  | _ => False
  end → keeps (serve h rq route).
Proof.
  destruct route; try done; intros _; cbn [Web.serve]; groups;
    unfold getProfile, listSessions, signOut, reauthenticate, revokeSession, revokeOtherSessions, listAccessRequests,
      declineAccessRequest, listPeople, getPerson, revokePersonSessions; repeat outer_step.
Qed.
Lemma leaves_bearer h rq route :
  match route with RListUsers | RGetUser _ | RListKeys => True | _ => False end → keeps (serve h rq route).
Proof.
  destruct route; try done; intros _; cbn [Web.serve]; unfold auth, listUsers, getUser, listAPIKeys; repeat outer_step.
Qed.
Lemma leaves_serve h rq route :
  (changes_accounts route = true → ∀ d d', same_counters d d' → R d d') → keeps (serve h rq route).
Proof.
  intros Hp. destruct route; try (by apply leaves_public); try (by apply leaves_session); try (by apply leaves_bearer);
    specialize (Hp eq_refl); cbn [Web.serve]; groups;
    unfold completeSetup, resetPassword, updateProfile, blocked, approveAccessRequest, changePersonRole, disablePerson, enablePerson, auth, createUser,
      createAPIKey, deleteAPIKey, store_tx;
    repeat first [apply leaves_call; intros d; apply Hp; by auto using counters_setup, counters_reset, counters_profile, counters_approve, counters_role,
      counters_disable, counters_enable, counters_user, counters_create_key, counters_revoke_key | outer_step].
Qed.
End handlers.
