(* ===== verification/WebAccess.v ===== *)
(** Who may change accounts over HTTP, what sign-in discloses, and which throttles count;
    then a deployment served over HTTP, where Ana signs in, proves her password and
    administers Bo and Cleo: concrete runs at which the properties are instantiated, and
    what the guards let through. *)
From S2P Require Import Prelude Json IdentityActions IdentityData IdentityStore IdentityFlows IdentityJourneys IdentitySession IdentityPeople IdentityFacts Authority IdentityMachine IdentityRefine Proc ProcLogic Web WebFacts IdentitySchema IdentityDemo.

(** No clock shows a time before [t0]. *)
Definition clock_from (t0 : timestamp) (R : Type) (q : WebQ R) : R → Prop :=
  match q with QClock => λ t, t0 ≤ t | QPg => λ t, t0 ≤ t | _ => λ _, True end.

(** Every thread with its own postcondition, under one invariant. *)
Lemma safe_threads {S Q A} (inv : S → Prop) (Ψ : nat → A → Prop) (ts : list (proc S Q A)) s ts' s' :
  (∀ i p, ts !! i = Some p → safe inv (λ _ _, True) p (Ψ i)) → inv s → tsteps ts s ts' s' →
  inv s' ∧ ∀ i a, ts' !! i = Some (Ret a) → Ψ i a.
Proof.
  intros Hall Hs Hst. induction Hst as [ts s|ts s ts1 s1 ts2 s2 H1 H2 IH].
  - split; [done|]. intros i a Hi. exact (Hall i (Ret a) Hi).
  - destruct H1 as [ts i p s p' s' Hi Hp]. destruct (safe_step inv (λ _ _, True) p (Ψ i) s p' s' (Hall i p Hi) Hs Hp) as [[Hs' _] Hp'].
    apply IH; [|done]. intros j q Hj. apply list_lookup_insert_Some in Hj as [(-> & <- & _)|[_ Hj]]; [done|by apply Hall].
Qed.
Section access.
Context (sha256hex ToLower : string → string) (HashPassword : string → option string) (VerifyPassword : string → string → bool).
Context (SplitHostPort ParseIP : string → option string) (contains : string → string → bool).
Context (ParseClientLabels : string → string * string * string).
#[local] Notation serve := (serve sha256hex ToLower HashPassword VerifyPassword SplitHostPort ParseIP contains ParseClientLabels).

(** * Changes of accounts *)
(** The request carries the token of a live session of an active Admin, its CSRF token and a
    recent password. *)
Definition admin_session (h : Handler) (rq : WebRequest) (t0 : timestamp) (d : IdentityDB) : Prop :=
  ∃ a token sid row u, wh_Auth h = Some a ∧ as_Enabled a = true ∧ sessionCookie a rq = inr token ∧
    browser_sessions d !! sid = Some row ∧ bs_TokenHash row = session_hash sha256hex token ∧ session_open row = true ∧
    t0 < bs_IdleExpiresAt row ∧ t0 < bs_AbsoluteExpiresAt row ∧
    local_users d !! bs_IdentityID row = Some u ∧ lu_Status u = LocalUserActive ∧ lu_Role u = RoleAdmin ∧
    SecretMatches sha256hex (bs_CSRFHash row) SecretDomainCSRF (wq_Header rq csrfHeaderName) = true ∧
    ∃ t, bs_RecentPasswordAt row = Some t ∧ t0 - recentAuthTTL a ≤ t.
(** The request carries a live API key with the Admin scope. *)
Definition admin_key (rq : WebRequest) (t0 : timestamp) (d : IdentityDB) : Prop :=
  ∃ token id r, ParseBearer (wq_Header rq "Authorization") = Some token ∧ api_keys d !! id = Some r ∧
    ak_KeyHash r = HashAPIKey sha256hex token ∧ ak_Scope r = Some ScopeAdmin ∧ ak_RevokedAt r = None ∧
    (∀ t, ak_ExpiresAt r = Some t → t0 < t).
(** The cookie is a live session of the identity [id], whose account is not disabled, and the
    request carries its CSRF token. *)
Definition own_session (h : Handler) (rq : WebRequest) (t0 : timestamp) (id : uuid) (d : IdentityDB) : Prop :=
  ∃ a token sid row, wh_Auth h = Some a ∧ as_Enabled a = true ∧ sessionCookie a rq = inr token ∧
    browser_sessions d !! sid = Some row ∧ bs_TokenHash row = session_hash sha256hex token ∧ session_open row = true ∧
    t0 < bs_IdleExpiresAt row ∧ t0 < bs_AbsoluteExpiresAt row ∧ bs_IdentityID row = id ∧
    (∀ u, local_users d !! id = Some u → lu_Status u = LocalUserActive) ∧
    SecretMatches sha256hex (bs_CSRFHash row) SecretDomainCSRF (wq_Header rq csrfHeaderName) = true.
(** A link of the purpose, not used before, replaced or expired, sent for this account. *)
Definition open_link (token : string) (purpose : LinkPurpose) (t0 : timestamp) (d : IdentityDB) (user : LocalUser) : Prop :=
  ∃ k l, auth_link_tokens d !! k = Some l ∧ al_TokenHash l = link_hash sha256hex token ∧ al_Purpose l = purpose ∧
    al_ConsumedAt l = None ∧ al_InvalidatedAt l = None ∧ t0 < al_ExpiresAt l ∧ (al_IdentityID l ≫= join_user true d) = Some user.
(** The row of this account becomes [f] of it, and nothing else that is watched changes. *)
Definition only_account (id : uuid) (from : UserStatus) (f : LocalUserRow → LocalUserRow) (d d' : IdentityDB) : Prop :=
  ∃ row, local_users d !! id = Some row ∧ lu_Status row = from ∧ powers d' = (<[id := f row]> (local_users d), (powers d).2).
(** A setup link activates the account it was sent for, with the password that was posted;
    its address and role stay. *)
Definition set_up (b : SetupBody) (t0 : timestamp) (d d' : IdentityDB) : Prop :=
  ∃ user hash name locale now pgnow, open_link (sb_Token b) AuthLinkSetupPassword t0 d user ∧ HashPassword (sb_Password b) = Some hash ∧
    only_account (us_ID user) LocalUserSetupPending (with_activation hash name locale now pgnow) d d'.
(** A reset link replaces the password of the active account it was sent for. *)
Definition reset_by_link (token password : string) (t0 : timestamp) (d d' : IdentityDB) : Prop :=
  ∃ user hash now pgnow, open_link token AuthLinkResetPassword t0 d user ∧ HashPassword password = Some hash ∧
    only_account (us_ID user) LocalUserActive (with_password hash now pgnow) d d'.
(** The name and locale of one account change. *)
Definition profile_edit (id : uuid) (d d' : IdentityDB) : Prop :=
  ∃ name locale pgnow from, only_account id from (with_profile name locale pgnow) d d'.
Definition warranted (h : Handler) (rq : WebRequest) (t0 : timestamp) (route : WebRoute) (log : list (AuthorityStore * AuthorityStore))
    (d d' : IdentityDB) : Prop :=
  match route with
  | RApprove _ _ | RChangeRole _ _ | RDisable _ | REnable _ => ∃ e e', (e, e') ∈ log ∧ admin_session h rq t0 (st_db e)
  | RCreateUser _ | RCreateKey _ | RDeleteKey _ => ∃ e e', (e, e') ∈ log ∧ admin_key rq t0 (st_db e)
  | RUpdateProfile _ => ∃ e e' id, (e, e') ∈ log ∧ own_session h rq t0 id (st_db e) ∧ profile_edit id d d'
  | RSetup (Some b) => set_up b t0 d d'
  | RReset (Some (token, password)) => reset_by_link token password t0 d d'
  | _ => False
  end.
Definition watched h rq t0 route (log : list (AuthorityStore * AuthorityStore)) (s s' : AuthorityStore) : Prop :=
  same_powers (st_db s) (st_db s') ∨ warranted h rq t0 route log (st_db s) (st_db s').
Lemma resolve_inr token now n w d b d' :
  ResolveBrowserSessionWithNetwork sha256hex token now n w d = (inr b, d') →
  ∃ row, browser_sessions d !! ss_ID b = Some row ∧ bs_TokenHash row = session_hash sha256hex token ∧ session_open row = true ∧
    now < bs_IdleExpiresAt row ∧ now < bs_AbsoluteExpiresAt row ∧
    (∀ u, local_users d !! bs_IdentityID row = Some u → lu_Status u = LocalUserActive) ∧
    ss_Role b = NormalizeRole (default EmptyString (lu_Role <$> local_users d !! bs_IdentityID row)) ∧
    bs_IdentityID (ss_Row b) = bs_IdentityID row ∧ bs_CSRFHash (ss_Row b) = bs_CSRFHash row ∧
    bs_RecentPasswordAt (ss_Row b) = bs_RecentPasswordAt row.
Proof.
  unfold ResolveBrowserSessionWithNetwork. destruct (bool_decide (token = _)); [done|].
  destruct (find_row _ _) as [[id s]|] eqn:Hf; [|done]. apply find_row_Some in Hf as [Hs Hh]. unfold session_by_hash in Hh. apply bool_decide_eq_true in Hh.
  destruct (session_open s) eqn:Ho; [|done]. cbn [negb]. destruct (default false _) eqn:Hst; [done|].
  destruct (Z.leb_spec (bs_AbsoluteExpiresAt s) now); [done|]. destruct (Z.leb_spec (bs_IdleExpiresAt s) now); [done|].
  intros Hres. assert (∃ b', b = mkBrowserSession (ss_ID b') (ss_Row b') (ss_User b') (NormalizeRole (ss_Role b')) ∧ ss_ID b' = id ∧
    ss_Role b' = default EmptyString (lu_Role <$> local_users d !! bs_IdentityID s) ∧ bs_IdentityID (ss_Row b') = bs_IdentityID s ∧
    bs_CSRFHash (ss_Row b') = bs_CSRFHash s ∧ bs_RecentPasswordAt (ss_Row b') = bs_RecentPasswordAt s) as (b' & -> & <- & Hr & Hi & Hc & Hp).
  { unfold coalesceSessionActivity in Hres. repeat case_match; simplify_eq; eexists; (split; [reflexivity|]); done. }
  exists s. cbn. rewrite Hr. split_and!; try done; try lia. intros u Hu. cbn in Hst. rewrite Hu in Hst. cbn in Hst.
  by apply negb_false_iff, bool_decide_eq_true in Hst.
Qed.
Lemma logs_call {A} t0 P hist (f : IdentityDB → (IdErr + A) * IdentityDB) (Φ : WErr + A → list (AuthorityStore * AuthorityStore) → Prop) :
  Φ (inl WFailed) hist →
  (∀ s, let s' := mkAuthorityStore (f (st_db s)).2 (st_latch s) in
     P hist s s' ∧ Φ (inl WFailed) (hist ++ [(s, s')]) ∧
     Φ (match (f (st_db s)).1 with inl e => inl (WStore e) | inr a => inr a end) (hist ++ [(s, s')])) →
  logs (clock_from t0) P hist (store_call f) Φ.
Proof.
  intros Hn Hf. intros c _. destruct c; [|done|].
  - intros s r s' E. specialize (Hf s). unfold on_db in E. destruct (f (st_db s)) as [x d]. injection E as <- <-. by destruct Hf as (? & _ & ?).
  - intros s r s' E. injection E as <- <-. by destruct (Hf s) as (? & ? & _).
Qed.
(** What a resolved session says of the store at that moment. *)
Definition resolved (a : AuthServices) (rq : WebRequest) (t0 : timestamp) (b : BrowserSession) (d : IdentityDB) : Prop :=
  ∃ token now n w d', sessionCookie a rq = inr token ∧ t0 ≤ now ∧ ResolveBrowserSessionWithNetwork sha256hex token now n w d = (inr b, d').
Section route.
Context (h : Handler) (rq : WebRequest) (t0 : timestamp) (route : WebRoute).
#[local] Notation P := (watched h rq t0 route).
#[local] Notation logged hist p := (logs (clock_from t0) P hist p (λ _ _, True)).
Lemma logged_keeps hist {A} (p : WP A) : all_steps (on_store same_powers) p → logged hist p.
Proof. apply logs_all. intros ? s s' H. by left. Qed.
Lemma powers_counted rule : counted same_powers rule.
Proof. intros subject now d. split; [apply powers_record|apply powers_clear]. Qed.
Lemma quiet_powers d d' : quiet d d' → same_powers d d'.
Proof. by intros [? _]. Qed.
Lemma logged_seq hist {A B} (p : WP A) (k : A → WP B) : all_steps (on_store same_powers) p → (∀ a hist', hist `prefix_of` hist' → logged hist' (k a)) → logged hist (p ≫= k).
Proof.
  intros Hp Hk. eapply (logs_bind _ _ _ _ _ (λ _ hist', hist `prefix_of` hist')); [|intros a hist' Hh; by apply Hk].
  clear Hk k. assert (hist `prefix_of` hist) as Hh by done. revert Hh. generalize hist at 2 3 as h0. 
  induction p as [a|T f k IH|T q k IH]; intros h0 Hh; cbn; [done| |].
  - destruct Hp as [Hf Hk]. intros s r s' E. split; [left; by eapply Hf|]. apply IH; [done|]. by apply prefix_app_r.
  - intros r _. by apply IH.
Qed.
Lemma logged_browser hist next :
  (∀ a b hist', wh_Auth h = Some a → as_Enabled a = true → (∃ e e', (e, e') ∈ hist' ∧ resolved a rq t0 b (st_db e)) → logged hist' (next a b)) →
  logged hist (requireBrowser sha256hex SplitHostPort ParseIP contains h rq next).
Proof.
  intros Hn. unfold requireBrowser, authReady. destruct (wh_Auth h) as [a|] eqn:Ha; [|done]. destruct (as_Enabled a && wh_Store h) eqn:He; [|done].
  apply andb_true_iff in He as [He _].
  destruct (sessionCookie a rq) as [e|token] eqn:Hc.
  - apply logged_keeps. unfold write_cookie_error. destruct e; [done|]. apply leaves_session_error; auto using quiet_powers, powers_counted.
  - unfold ResolveSession. eapply logs_bind.
    2:{ intros r hist' Hr. exact Hr. }
    apply logs_ask. intros now Hnow. apply logs_ask. intros w _.
    apply logs_call; [apply logged_keeps, leaves_session_error; auto using quiet_powers, powers_counted|].
    intros s s'. split_and!; [left; apply quiet_powers, quiet_resolve|apply logged_keeps, leaves_session_error; auto using quiet_powers, powers_counted|].
    destruct (ResolveBrowserSessionWithNetwork _ _ _ _ _ (st_db s)) as [[e|b] d'] eqn:Hres; cbn [fst].
    + apply logged_keeps, leaves_session_error; auto using quiet_powers, powers_counted.
    + apply Hn; [done|done|]. exists s, s'. split; [apply elem_of_app; right; left|]. exists token, now, (sessionNetwork SplitHostPort ParseIP contains a rq), w, d'. done.
Qed.
Lemma logged_recent hist a b next :
  (∀ t now, t0 ≤ now → bs_RecentPasswordAt (ss_Row b) = Some t → now - t ≤ recentAuthTTL a → logged hist next) →
  logged hist (requireRecentAuth a b next).
Proof.
  intros Hn. unfold requireRecentAuth. apply logs_ask. intros now Hnow. destruct (HasRecentPassword _ _ _) eqn:Hr; [|done].
  unfold HasRecentPassword in Hr. destruct (bs_RecentPasswordAt _) as [t|] eqn:Ht; [|done]. eapply Hn; [done|done|lia].
Qed.
(** The guards together. *)
Lemma guards_admin a b d :
  wh_Auth h = Some a → as_Enabled a = true → resolved a rq t0 b d → ss_Role b = RoleAdmin → VerifyCSRF sha256hex b (wq_Header rq csrfHeaderName) = true →
  (∃ t now, t0 ≤ now ∧ bs_RecentPasswordAt (ss_Row b) = Some t ∧ now - t ≤ recentAuthTTL a) → admin_session h rq t0 d.
Proof.
  intros Ha He (token & now & n & w & d' & Hc & Hnow & Hres) Hrole Hcsrf (t & now' & Hnow' & Ht & Hle).
  apply resolve_inr in Hres as (row & Hs & Hh & Ho & Hidle & Habs & Hact & Hr & Hid & Hcs & Hrec).
  rewrite Hrole in Hr. destruct (local_users d !! bs_IdentityID row) as [u|] eqn:Hu; [|done]. cbn in Hr.
  unfold VerifyCSRF in Hcsrf. apply andb_true_iff in Hcsrf as [_ Hm].
  exists a, token, (ss_ID b), row, u. rewrite <- Hcs, <- Hrec. split_and!; try done; try lia; [by eapply Hact|by apply NormalizeRole_inv|].
  exists t. split; [done|lia].
Qed.
Lemma logged_any hist {A} (p : WP A) : (∀ hist' s s', hist `prefix_of` hist' → P hist' s s') → logged hist p.
Proof.
  intros HP. assert (hist `prefix_of` hist) as Hh by done. revert Hh. generalize hist at 2 3 as h0.
  induction p as [a|T f k IH|T q k IH]; intros h0 Hh; cbn; [done| |auto].
  intros s r s' E. split; [by apply HP|]. apply IH. by apply prefix_app_r.
Qed.
Definition by_admin (hist : list (AuthorityStore * AuthorityStore)) : Prop := ∃ e e', (e, e') ∈ hist ∧ admin_session h rq t0 (st_db e).
Lemma logged_guards hist a b next :
  wh_Auth h = Some a → as_Enabled a = true → (∃ e e', (e, e') ∈ hist ∧ resolved a rq t0 b (st_db e)) → ss_Role b = RoleAdmin →
  (by_admin hist → logged hist (next b)) →
  logged hist (requireCSRF sha256hex rq b (requireRecentAuth a b (next b))).
Proof.
  intros Ha He (e & e' & Hin & Hres) Hrole Hn. unfold requireCSRF. destruct (VerifyCSRF _ _ _) eqn:Hcsrf; [|done].
  apply logged_recent. intros t now Hnow Ht Hle. apply Hn. exists e, e'. split; [done|]. eapply guards_admin; eauto.
Qed.
Lemma logged_review hist next :
  (∀ b hist', by_admin hist' → logged hist' (next b)) → logged hist (review_group sha256hex SplitHostPort ParseIP contains h rq next).
Proof.
  intros Hn. unfold review_group, browser_group, requireOrigin.
  assert (logged hist (requireBrowser sha256hex SplitHostPort ParseIP contains h rq
    (λ a b, requireAdmin b (requireCSRF sha256hex rq b (requireRecentAuth a b (next b)))))) as Hb.
  { apply logged_browser. intros a b hist' Ha He Hres. unfold requireAdmin. case_bool_decide as Hrole; [|done].
    apply logged_guards; try done. apply Hn. }
  destruct (wh_Auth h) as [a|]; [|exact Hb]. by destruct (as_Enabled a && true && negb (OriginAllowed a rq)).
Qed.
Lemma logged_people hist next :
  (∀ b hist', by_admin hist' → logged hist' (next b)) → logged hist (people_mutation sha256hex SplitHostPort ParseIP contains h rq next).
Proof.
  intros Hn. apply logged_browser. intros a b hist' Ha He (e & e' & Hin & Hres). unfold requireAuthorityV2. apply logs_ask. intros c _.
  destruct c; [|done|done]. apply logged_seq; [apply (leaves_lift same_powers quiet_powers), RequireAuthorityV2_reads|]. intros [x|x] hist2 Hp; [done|].
  unfold requireAdmin. case_bool_decide as Hrole; [|done]. apply logged_guards; try done; [|apply Hn].
  exists e, e'. split; [|done]. destruct Hp as [l ->]. apply elem_of_app. by left.
Qed.
Lemma validate_inr token w now d k i d' :
  ParseBearer (wq_Header rq "Authorization") = Some token → t0 ≤ now → ValidateAPIKey sha256hex token w now d = inr ((k, i), d') →
  pk_Scope k = ScopeAdmin → admin_key rq t0 d.
Proof.
  intros Hb Hnow Hv Hscope. unfold ValidateAPIKey in Hv. inv_tx. destruct (find_row _ _) as [[id r]|] eqn:Hf; [|done].
  apply find_row_Some in Hf as [Hr Hh]. unfold by_hash in Hh. apply bool_decide_eq_true in Hh.
  destruct (identities d !! ak_IdentityID r) as [ir|]; [|done]. destruct (unrevoked r && unexpired now r && live ir) eqn:Hc; [|done].
  rewrite !andb_true_iff in Hc. destruct Hc as [[Hu He] _].
  apply tx_bind_inr in Hv as (k' & d1 & Hk & Hv). unfold lift_scan, scan_key in Hk. destruct (ak_Scope r) as [sc|] eqn:Hs; [|done]. inv_tx.
  exists token, id, r. unfold unrevoked in Hu. apply is_null_true in Hu. unfold unexpired in He. injection Hv as <- <-. cbn in Hscope.
  split_and!; try done; [by rewrite Hs, Hscope|].
  intros t Ht. rewrite Ht in He. cbn in He. lia.
Qed.
Lemma logged_auth hist scope next :
  scope = ScopeAdmin →
  (∀ k i hist', (∃ e e', (e, e') ∈ hist' ∧ admin_key rq t0 (st_db e)) → logged hist' (next k i)) → logged hist (auth sha256hex h rq scope next).
Proof.
  intros -> Hn. unfold auth. destruct (negb (wh_Store h)); [done|]. destruct (ParseBearer _) as [token|] eqn:Hb; [|done].
  apply logs_ask. intros w _. apply logs_ask. intros now Hnow. eapply logs_bind; [|intros r hist' Hr; exact Hr].
  apply logs_call; [done|]. intros s s'. split_and!; [left; apply quiet_powers, quiet_validate|done|]. unfold run_tx in *.
  destruct (ValidateAPIKey sha256hex token w now (st_db s)) as [e|[[k i] d']] eqn:Hv; cbn [fst]; [done|].
  case_bool_decide as Hs; [|done]. apply Hn. exists s, s'. split; [apply elem_of_app; right; left|]. by eapply validate_inr.
Qed.
(** [link_spent] reads a transaction that spent a link. *)
Ltac link_spent :=
  id_inv;
  repeat match goal with H : bool_decide _ = true |- _ => apply bool_decide_eq_true in H | H : is_null _ = true |- _ => apply is_null_true in H end;
  match goal with Hf : find_row (link_by_hash _) _ = Some ?x |- _ =>
    destruct x as [k l0]; apply find_row_Some in Hf as [Hk Hh]; unfold link_by_hash in Hh; apply bool_decide_eq_true in Hh; cbn [fst snd] in *
  end.
Lemma setup_links b dn l now pgnow d u d' :
  t0 ≤ now → CompleteSetup sha256hex HashPassword (sb_Token b) dn l (sb_Password b) now pgnow d = inr (u, d') → set_up b t0 d d'.
Proof.
  intros Hnow Hs. unfold CompleteSetup, activateLocalUserTx in Hs. link_spent.
  eexists _, _, (normalizeDisplayName dn), l, now, pgnow. split; [exists k, l0; split_and!; (done || lia)|]. split; [done|]. eexists. by split_and!.
Qed.
Lemma reset_links token pw now pgnow d u d' :
  t0 ≤ now → CompletePasswordReset sha256hex HashPassword token pw now pgnow d = inr (u, d') → reset_by_link token pw t0 d d'.
Proof.
  intros Hnow Hs. unfold CompletePasswordReset, setLocalUserPasswordTx in Hs. link_spent.
  eexists _, _, now, pgnow. split; [exists k, l0; split_and!; (done || lia)|]. split; [done|]. eexists. by split_and!.
Qed.
Lemma profile_edits id dn l ex now pgnow d u d' :
  UpdateLocalUserProfileVersioned id dn l ex now pgnow d = inr (u, d') → profile_edit id d d'.
Proof.
  intros Hs. unfold UpdateLocalUserProfileVersioned in Hs. id_inv.
  match goal with H : (_ ≫= _) = Some ?u |- _ =>
    apply bind_Some in H as (u0 & Hu & H); destruct (default true _); [injection H as ->|done] end.
  exists dn, l, pgnow. eexists _, _. by split_and!.
Qed.
Lemma guards_own a b d :
  wh_Auth h = Some a → as_Enabled a = true → resolved a rq t0 b d → VerifyCSRF sha256hex b (wq_Header rq csrfHeaderName) = true →
  own_session h rq t0 (bs_IdentityID (ss_Row b)) d.
Proof.
  intros Ha He (token & now & n & w & d' & Hc & Hnow & Hres) Hcsrf.
  apply resolve_inr in Hres as (row & Hs & Hh & Ho & Hidle & Habs & Hact & _ & Hid & Hcs & _).
  unfold VerifyCSRF in Hcsrf. apply andb_true_iff in Hcsrf as [_ Hm].
  exists a, token, (ss_ID b), row. rewrite <- Hcs, Hid. split_and!; (done || lia).
Qed.
(** The calls that spend a link. *)
Lemma logged_spend hist {A} (m : timestamp → timestamp → tx A) (k : WErr + A → WebReply) :
  (∀ now pgnow d u d', t0 ≤ now → m now pgnow d = inr (u, d') → warranted h rq t0 route hist d d') →
  logged hist (now ← ask QClock; pgnow ← ask QPg; r ← store_tx (m now pgnow); mret (k r)).
Proof.
  intros Hm. apply logs_ask. intros now Hnow. apply logs_ask. intros pgnow _. eapply (logs_bind _ _ _ _ _ (λ _ _, True)); [|done].
  apply logs_call; [done|]. intros s s'. split_and!; [|done|done]. unfold run_tx in *.
  destruct (m now pgnow (st_db s)) as [e|[u d']] eqn:Hr; [by left|right]. by eapply Hm.
Qed.
Lemma logged_blocked hist a entries next :
  (∀ hist', logged hist' next) → logged hist (blocked SplitHostPort ParseIP contains a rq entries next).
Proof.
  intros Hn. unfold blocked, blockedWithEvent.
  apply logged_seq; [apply leaves_status; auto using quiet_powers|]. intros [e|st] hist' _; [done|]. destruct (ts_Blocked st); [|apply Hn].
  apply logged_keeps. apply all_steps_bind; [apply all_steps_ask|]. intros now. apply all_steps_bind; [|intros; apply all_steps_ret].
  apply leaves_audit; auto using quiet_powers.
Qed.
Lemma logged_origin hist (u : bool) p : logged hist p → logged hist (requireOrigin h u rq p).
Proof. intros Hp. unfold requireOrigin. destruct (wh_Auth h) as [a|]; [|exact Hp]. by destruct (as_Enabled a && u && negb (OriginAllowed a rq)). Qed.
Lemma logged_ready hist next : (∀ a, logged hist (next a)) → logged hist (authReady h next).
Proof. intros Hn. unfold authReady. destruct (wh_Auth h) as [a|]; [|done]. by destruct (as_Enabled a && wh_Store h). Qed.
Lemma logged_profile hist body :
  (∀ hist' d d', (∃ e e' id, (e, e') ∈ hist' ∧ own_session h rq t0 id (st_db e) ∧ profile_edit id d d') → warranted h rq t0 route hist' d d') →
  logged hist (csrf_group sha256hex SplitHostPort ParseIP contains h rq (λ a b, updateProfile SplitHostPort ParseIP contains a rq b body)).
Proof.
  intros Hw. apply logged_origin, logged_browser. intros a b hist1 Ha He (e & e' & Hin & Hres). unfold requireCSRF.
  destruct (VerifyCSRF _ _ _) eqn:Hcsrf; [|done]. pose proof (guards_own a b _ Ha He Hres Hcsrf) as Hown.
  unfold updateProfile. destruct body as [req|]; [|done].
  apply logged_seq; [apply leaves_tx; auto using quiet_powers, quiet_get_user|]. intros [x|user] hist2 [l ->].
  - apply logged_keeps, leaves_session_error; auto using quiet_powers, powers_counted.
  - cbv zeta. match goal with |- context [if ?c then _ else _] => destruct c end; [done|].
    apply logs_ask. intros now _. apply logs_ask. intros pgnow _. eapply (logs_bind _ _ _ _ _ (λ _ _, True)); [|done].
    apply logs_call; [done|]. intros s s'. split_and!; [|done|done]. unfold run_tx in *.
    destruct (UpdateLocalUserProfileVersioned _ _ _ _ _ _ (st_db s)) as [x|[u d']] eqn:Hr; [by left|right].
    apply Hw. exists e, e', (bs_IdentityID (ss_Row b)). split_and!; [apply elem_of_app; by left|done|by eapply profile_edits].
Qed.
End route.
Lemma logged_serve h rq t0 route hist : logs (clock_from t0) (watched h rq t0 route) hist (serve h rq route) (λ _ _, True).
Proof.
  destruct (changes_accounts route) eqn:Hch.
  2:{ apply logged_keeps, leaves_serve; auto using quiet_powers, powers_counted. by rewrite Hch. }
  assert (∀ hist', by_admin h rq t0 hist' → (∀ hist2 d d', by_admin h rq t0 hist2 → warranted h rq t0 route hist2 d d') →
    ∀ A (p : WP A), logs (clock_from t0) (watched h rq t0 route) hist' p (λ _ _, True)) as Hadmin.
  { intros hist' Hb Hw A p. apply logged_any. intros hist2 s s' [l ->]. right. apply Hw. destruct Hb as (e & e' & Hin & Ha).
    exists e, e'. split; [apply elem_of_app; by left|done]. }
  assert (∀ scope f, scope = ScopeAdmin → (∀ hist2 d d', (∃ e e', (e, e') ∈ hist2 ∧ admin_key rq t0 (st_db e)) → warranted h rq t0 route hist2 d d') →
    logs (clock_from t0) (watched h rq t0 route) hist (auth sha256hex h rq scope f) (λ _ _, True)) as Hkey.
  { intros scope f Hs Hw. apply logged_auth; [done|]. intros k i hist' (e & e' & Hin & Ha). apply logged_any. intros hist2 s s' [l ->]. right.
    apply Hw. exists e, e'. split; [apply elem_of_app; by left|done]. }
  destruct route as [| | |body| | | | |body| | | |body| | | | | |id body| | | |id body|id|id| | |body| | |body|id]; try done; cbn [Web.serve].
  - apply logged_origin, logged_ready. intros a. destruct body as [b|]; [|done]. case_bool_decide; [done|]. apply logged_blocked. intros hist'.
    apply logged_spend. intros. by eapply setup_links.
  - apply logged_origin, logged_ready. intros a. destruct body as [[token pw]|]; [|done]. apply logged_blocked. intros hist'.
    apply logged_spend. intros. by eapply reset_links.
  - by apply logged_profile.
  - apply logged_review. intros b hist' Hb. by apply Hadmin.
  - apply logged_people. intros b hist' Hb. by apply Hadmin.
  - apply logged_people. intros b hist' Hb. by apply Hadmin.
  - apply logged_people. intros b hist' Hb. by apply Hadmin.
  - by apply Hkey.
  - by apply Hkey.
  - by apply Hkey.
Qed.

(** C20. Accounts and keys change only with authority. Watch every account row (address,
    name, locale, role, status, password) and every API key and credential row apart from
    the time of its last use; identity rows, sessions, links, requests, counters and events
    are not watched. Serve any request on any modelled route while anything else happens to
    the store between its steps, fail any store call or lose its answer, stop wherever you
    like, on clocks that never show a time before t0. If one of the request's own actions
    changed what is watched, then one of these holds, where live and unexpired mean at t0.
    The request completes a setup or a password reset with a link of that purpose that was
    unused, not replaced and unexpired: then only the account the link was sent for
    changed, from setup-pending to active with the posted password, its address and role
    kept, or, active, in its password. Or it edits a profile, and an earlier action of the
    same request found its cookie to be a live session with that session's CSRF token: then
    only the name and locale of the account of that session changed. Or it is an approval
    or a role, disable or enable request, and an earlier action found its cookie to be the
    live session of an active Admin, with that session's CSRF token and a password entered
    within the configured time. Or it creates a user or creates or revokes an API key, and
    an earlier action found its bearer token to be a live key with the Admin scope. No
    other route changes any of what is watched. *)
Theorem account_changes_are_authorized h rq route t0 s log p' s' i e e' :
  plog (clock_from t0) (serve h rq route) s log p' s' → log !! i = Some (e, e') → powers (st_db e') ≠ powers (st_db e) →
  warranted h rq t0 route (take i log) (st_db e) (st_db e').
Proof.
  intros Hl Hi Hne. pose proof (logs_sound (clock_from t0) _ [] _ _ s log p' s' (logged_serve h rq t0 route []) Hl i e e' Hi) as H.
  cbn in H. destruct H as [H|H]; [by destruct Hne|done].
Qed.

(** * The throttles of the link endpoints *)
Definition link_scopes : list string := [tr_Scope ruleVerifyIP; tr_Scope ruleSetupIP; tr_Scope ruleResetIP].
Definition uncounted (d : IdentityDB) : Prop := ∀ scope subject, scope ∈ link_scopes → auth_throttle_counters d !! (scope, subject) = None.
Definition same_links (d d' : IdentityDB) : Prop :=
  ∀ scope subject, scope ∈ link_scopes → auth_throttle_counters d' !! (scope, subject) = auth_throttle_counters d !! (scope, subject).
(** Requests, and what else happens to the tables. *)
Inductive WebThread := TServe (rq : WebRequest) (route : WebRoute) | TElse (f : IdentityDB → IdentityDB).
Definition run_web (h : Handler) (t : WebThread) : WP (option WebReply) :=
  match t with
  | TServe rq route => r ← serve h rq route; mret (Some r)
  | TElse f => update (λ s, mkAuthorityStore (f (st_db s)) (st_latch s));; mret None
  end.
Definition follows_links (route : WebRoute) : bool := match route with RVerify _ | RSetup _ | RSetupResend _ | RReset _ => true | _ => false end.
Definition not_throttled (t : WebThread) (r : option WebReply) : Prop :=
  match t with TServe _ route => follows_links route = true → ∀ reply, r = Some reply → wr_Status reply ≠ 429 | TElse _ => True end.
Lemma links_counted rule : rule ∈ recorded_rules → counted same_links rule.
Proof.
  intros Hr. assert (tr_Scope rule ∉ link_scopes) as Hn.
  { assert (Forall (λ r, tr_Scope r ∉ link_scopes) recorded_rules) as Hall.
    { apply Forall_forall. intros r Hin. unfold recorded_rules in Hin. rewrite !elem_of_cons, elem_of_nil in Hin.
      destruct_or?; try done; subst r; intros Hx%(bool_decide_eq_true_2 _); by vm_compute in Hx. }
    rewrite Forall_forall in Hall. by apply Hall. }
  intros subject now d. split.
  - apply run_tx_inv; [by intros ???|]. intros st d' H scope subj Hs. unfold RecordAuthAttempt in H. id_inv; [done|]. cbn.
    rewrite lookup_insert_ne; [done|]. intros [= <- _]. by apply Hn.
  - intros scope subj Hs. cbn. rewrite lookup_delete_ne; [done|]. intros [= <- _]. by apply Hn.
Qed.
Lemma links_serve h rq route : all_steps (on_store same_links) (serve h rq route).
Proof.
  apply leaves_serve; [|apply links_counted|].
  - intros d d' [_ Hc] scope subj _. by rewrite Hc.
  - intros _ d d' Hc scope subj _. by rewrite Hc.
Qed.
#[local] Notation inv := (λ s, uncounted (st_db s)).
#[local] Notation guarded p Ψ := (safe inv (λ _ _, True) p Ψ).
Lemma guarded_keeps {A} (p : WP A) : all_steps (on_store same_links) p → guarded p (λ _, True).
Proof.
  intros Hp. apply safe_all. eapply all_steps_impl; [|exact Hp]. intros s s' Hs Hi. split; [|done]. intros scope subj Hsc. rewrite Hs by done. by apply Hi.
Qed.
Lemma guarded_status entries :
  Forall (λ e, tr_Scope (te_rule e) ∈ link_scopes) entries →
  guarded (throttleStatus entries unthrottled) (λ r, r = inr unthrottled ∨ ∃ e, r = inl e).
Proof.
  induction entries as [|e entries IH]; cbn [throttleStatus]; [intros; by left|]. intros [He Hes]%Forall_cons.
  eapply safe_then; [apply safe_ask|]. intros now.
  eapply (safe_bind _ _ _ _ (λ r, r = inr unthrottled ∨ ∃ x, r = inl x)); [|intros r [->|[x ->]]; [by apply IH|right; by eexists]].
  unfold store_read, store_call. eapply safe_then; [apply safe_ask|]. intros c. destruct c; [|right; by eexists|].
  - eapply (safe_bind _ _ _ _ (λ r, r = inr unthrottled)); [|intros r ->; by left]. apply safe_atomically. intros s Hi. cbn.
    split; [done|]. f_equal. unfold ThrottleStatus. destruct (_ <=? 0); [done|]. by rewrite Hi.
  - eapply safe_then; [by apply safe_atomically|]. intros []. right. by eexists.
Qed.
Lemma link_entries a rq rule :
  tr_Scope rule ∈ link_scopes →
  Forall (λ e, tr_Scope (te_rule e) ∈ link_scopes) (entryThrottles sha256hex SplitHostPort ParseIP contains a rq EmptyString [rule]).
Proof.
  intros Hr. unfold entryThrottles. cbn. destruct (_ || _); [constructor|]. destruct (ClientIP _ _ _ _ _); cbn; [by apply Forall_singleton|apply List.Forall_nil].
Qed.
Definition answered_otherwise (r : WebReply) : Prop := wr_Status r ≠ 429.
Lemma link_error e : answered_otherwise (writeAuthLinkError e).
Proof. destruct e as [[]|]; done. Qed.
Lemma guarded_blocked a rq entries ev next :
  Forall (λ e, tr_Scope (te_rule e) ∈ link_scopes) entries → guarded next answered_otherwise →
  guarded (blockedWithEvent SplitHostPort ParseIP contains a rq entries ev next) answered_otherwise.
Proof.
  intros He Hn. unfold blockedWithEvent. eapply safe_bind; [by apply guarded_status|]. intros r [->|[x ->]]; [exact Hn|done].
Qed.
Lemma guarded_only entries next :
  Forall (λ e, tr_Scope (te_rule e) ∈ link_scopes) entries → guarded next answered_otherwise → guarded (throttleOnly entries next) answered_otherwise.
Proof. intros He Hn. unfold throttleOnly. eapply safe_bind; [by apply guarded_status|]. intros r [->|[x ->]]; [exact Hn|done]. Qed.
Lemma guarded_tx {A} (m : tx A) (k : WErr + A → WebReply) :
  (∀ d, same_counters d (run_tx m d).2) → (∀ r, answered_otherwise (k r)) → guarded (r ← store_tx m; mret (k r)) answered_otherwise.
Proof.
  intros Hm Hk. eapply safe_then; [|intros r; apply Hk]. apply guarded_keeps. apply leaves_call. intros d scope subj _. by rewrite Hm.
Qed.
Lemma guarded_token body next : (∀ token, guarded (next token) answered_otherwise) → guarded (tokenBody body next) answered_otherwise.
Proof. intros Hn. unfold tokenBody. destruct body; [|done]. by case_bool_decide. Qed.
Ltac link_scope := vm_compute; repeat constructor.
Lemma guarded_links h rq route : follows_links route = true → guarded (serve h rq route) answered_otherwise.
Proof.
  assert (∀ p : WP WebReply, guarded p answered_otherwise → guarded (requireOrigin h true rq p) answered_otherwise) as Horigin.
  { intros p Hp. unfold requireOrigin. destruct (wh_Auth h) as [a|]; [|done]. by destruct (as_Enabled a && true && negb (OriginAllowed a rq)). }
  assert (∀ f, (∀ a, guarded (f a) answered_otherwise) → guarded (authReady h f) answered_otherwise) as Hready.
  { intros f Hf. unfold authReady. destruct (wh_Auth h) as [a|]; [|done]. by destruct (as_Enabled a && wh_Store h). }
  destruct route; try done; intros _; cbn [Web.serve]; apply Horigin, Hready; intros a.
  - apply guarded_only; [apply link_entries; link_scope|]. apply guarded_token. intros token. eapply safe_then; [apply safe_ask|]. intros now.
    apply guarded_tx; [intros d; apply quiet_verify|]. by intros [[[]|]|r].
  - destruct body as [b|]; [|done]. case_bool_decide; [done|]. apply guarded_blocked; [apply link_entries; link_scope|].
    eapply safe_then; [apply safe_ask|]. intros now. eapply safe_then; [apply safe_ask|]. intros pgnow.
    apply guarded_tx; [apply counters_setup|]. intros [e|r]; [apply link_error|done].
  - apply guarded_token. intros token. apply guarded_blocked; [apply link_entries; link_scope|].
    eapply safe_then; [apply safe_ask|]. intros now. eapply safe_then; [apply safe_ask|]. intros pgnow. eapply safe_then; [apply safe_ask|]. intros o.
    apply guarded_tx; [intros d; apply quiet_resend|]. by intros [e|r].
  - destruct body as [[token pw]|]; [|done]. apply guarded_blocked; [apply link_entries; link_scope|].
    eapply safe_then; [apply safe_ask|]. intros now. eapply safe_then; [apply safe_ask|]. intros pgnow.
    apply guarded_tx; [apply counters_reset|]. intros [e|r]; [apply link_error|done].
Qed.

(** C22. The link endpoints are never throttled. The code asks the throttles of verification,
    setup and password reset before it acts, with limits of 60 and 30 an hour; no handler
    counts an attempt under them. So whatever requests are served, in any interleaving and
    with any failures, together with anything else that does not itself count under these
    scopes, no such counter ever appears, and none of the four endpoints that take a link
    token ever answers that there were too many attempts. *)
Theorem link_endpoints_never_throttle h ts s ps s' :
  uncounted (st_db s) → (∀ f d, TElse f ∈ ts → uncounted d → uncounted (f d)) → tsteps (run_web h <$> ts) s ps s' →
  uncounted (st_db s') ∧ ∀ i rq route reply, ts !! i = Some (TServe rq route) → follows_links route = true → ps !! i = Some (Ret (Some reply)) →
    wr_Status reply ≠ 429.
Proof.
  intros Hs Helse Hst.
  destruct (safe_threads inv (λ i r, ∀ t, ts !! i = Some t → not_throttled t r) (run_web h <$> ts) s ps s') as [Hi Hr]; [|done|done|].
  - intros i p Hp. apply list_lookup_fmap_Some in Hp as (t & -> & Ht). destruct t as [rq route|f]; cbn [run_web].
    + destruct (follows_links route) eqn:Hl.
      * eapply safe_bind; [by apply guarded_links|]. intros a Ha t Ht'. assert (t = TServe rq route) as -> by congruence. by intros _ reply [= <-].
      * eapply safe_then; [apply guarded_keeps, links_serve|]. intros a t Ht'. assert (t = TServe rq route) as -> by congruence. cbn. by rewrite Hl.
    + eapply safe_then; [apply safe_atomically; intros s0 Hs0; cbn; split; [|done]; split; [|done]|].
      * apply Helse; [by eapply list_elem_of_lookup_2|done].
      * intros a t Ht'. assert (t = TElse f) as -> by congruence. done.
  - split; [done|]. intros i rq route reply Ht Hl Hp. exact (Hr i (Some reply) Hp _ Ht Hl reply eq_refl).
Qed.

(** * Failed sign-ins *)
(** The account of the address, if there is one, cannot be signed in to with the password. *)
Definition refuses (email password : string) (d : IdentityDB) : Prop :=
  ∀ user, user_by_email d (normalized_of ToLower email) = Some user →
    can_sign_in (bool_decide (is_Some (CanonicalEmail ToLower email))) user && VerifyPassword (derefString (lu_PasswordHash (us_Row user))) password = false.
Section sign_in.
Context (email password : string).
(** The stores agree on the counters, and both refuse. *)
Definition both_refuse (s1 s2 : AuthorityStore) : Prop :=
  auth_throttle_counters (st_db s1) = auth_throttle_counters (st_db s2) ∧ refuses email password (st_db s1) ∧ refuses email password (st_db s2).
#[local] Notation alike n p1 p2 := (alike both_refuse n p1 p2).
Definition same_people (d d' : IdentityDB) : Prop := local_users d' = local_users d ∧ identities d' = identities d.
Lemma refuses_same d d' : same_people d d' → refuses email password d → refuses email password d'.
Proof. unfold refuses, user_by_email, join_user. by intros [-> ->]. Qed.
(** Calls whose answers and effects on the counters are the same. *)
Lemma alike_call {A} (f1 f2 : IdentityDB → (IdErr + A) * IdentityDB) :
  (∀ d1 d2, auth_throttle_counters d1 = auth_throttle_counters d2 →
     (f1 d1).1 = (f2 d2).1 ∧ auth_throttle_counters (f1 d1).2 = auth_throttle_counters (f2 d2).2) →
  (∀ d, same_people d (f1 d).2) → (∀ d, same_people d (f2 d).2) →
  alike 1 (store_call f1) (store_call f2).
Proof.
  intros Hf H1 H2. unfold store_call. apply (alike_bind _ 1 0); [apply alike_ask|].
  assert (∀ s1 s2, both_refuse s1 s2 → both_refuse (mkAuthorityStore (f1 (st_db s1)).2 (st_latch s1)) (mkAuthorityStore (f2 (st_db s2)).2 (st_latch s2))) as Hkeep.
  { intros s1 s2 (HE & R1 & R2). split_and!; [by apply (Hf _ _ HE)|eapply refuses_same; [apply H1|exact R1]|eapply refuses_same; [apply H2|exact R2]]. }
  intros c. destruct c.
  - apply (alike_bind _ 0 0); [|intros r; apply alike_ret]. apply alike_atomically. intros s1 s2 HE. specialize (Hkeep s1 s2 HE).
    destruct (Hf _ _ (proj1 HE)) as [Heq _]. unfold on_db. destruct (f1 (st_db s1)), (f2 (st_db s2)). done.
  - apply alike_ret.
  - apply (alike_bind _ 0 0); [|intros r; apply alike_ret]. apply alike_atomically. intros s1 s2 HE. split; [done|]. by apply Hkeep.
Qed.
Lemma alike_status entries st : alike (2 * length entries) (throttleStatus entries st) (throttleStatus entries st).
Proof.
  revert st. induction entries as [|e entries IH]; intros st; cbn [throttleStatus length]; [apply alike_ret|].
  apply (alike_weaken _ (1 + (1 + 2 * length entries))); [lia|]. apply alike_bind; [apply alike_ask|]. intros now. apply alike_bind.
  - apply alike_call; [|done|done]. intros d1 d2 Hd. cbn. split; [|done]. unfold ThrottleStatus. by rewrite Hd.
  - intros [x|x]; [apply alike_ret|apply IH].
Qed.
Lemma record_alike rule subject now d1 d2 :
  auth_throttle_counters d1 = auth_throttle_counters d2 →
  (run_tx (RecordAuthAttempt rule subject now) d1).1 = (run_tx (RecordAuthAttempt rule subject now) d2).1 ∧
  auth_throttle_counters (run_tx (RecordAuthAttempt rule subject now) d1).2 = auth_throttle_counters (run_tx (RecordAuthAttempt rule subject now) d2).2.
Proof.
  intros Hd. unfold RecordAuthAttempt, run_tx, mbind, tx_bind, tx_get, tx_require, tx_modify. destruct (tr_Limit rule <=? 0); [done|].
  rewrite Hd. by destruct (_ <=? int4_max).
Qed.
Lemma record_people rule subject now d : same_people d (run_tx (RecordAuthAttempt rule subject now) d).2.
Proof. apply run_tx_inv; [done|]. intros ? ? ?. open_op. id_inv; done. Qed.
Lemma alike_record entries st : alike (2 * length entries) (record entries st) (record entries st).
Proof.
  revert st. induction entries as [|e entries IH]; intros st; cbn [record length]; [apply alike_ret|].
  apply (alike_weaken _ (1 + (1 + 2 * length entries))); [lia|]. apply alike_bind; [apply alike_ask|]. intros now. apply alike_bind.
  - apply alike_call; [apply record_alike|apply record_people|apply record_people].
  - intros [x|x]; [apply alike_ret|apply IH].
Qed.
(** Evidence differs between the two; the answer does not depend on it. *)
Lemma alike_audit a rq e1 e2 :
  alike 1 (Web.audit SplitHostPort ParseIP contains a rq e1) (Web.audit SplitHostPort ParseIP contains a rq e2).
Proof.
  unfold Web.audit. apply (alike_bind _ 1 0); [|intros; apply alike_ret]. apply alike_call; [|intros d; apply run_tx_inv; [done|]; intros ? ? ?; open_op; by id_inv..].
  intros d1 d2 Hd. unfold run_tx, AppendSecurityEvent, AppendSecurityEventTx. cbn. done.
Qed.
Lemma timed_call {A B} w l (f : IdentityDB → (IdErr + A) * IdentityDB) (k : WErr + A → WP B) s :
  timed (w :: l) (store_call f ≫= k) s =
  let s' := mkAuthorityStore (f (st_db s)).2 (st_latch s) in
  match w wcall QOutcome with
  | WAnswered => timed l (k (match (f (st_db s)).1 with inl e => inl (WStore e) | inr a => inr a end)) s'
  | WUnsent => timed l (k (inl WFailed)) s
  | WUnanswered => timed l (k (inl WFailed)) s'
  end.
Proof. cbn. destruct (w wcall QOutcome); cbn; [|done|done]. unfold on_db. by destruct (f (st_db s)). Qed.
#[local] Notation failed a rq entries i := (failedSignIn SplitHostPort ParseIP contains a rq entries i).
Lemma alike_failed a rq entries i j : alike (2 * length entries + 2) (failed a rq entries i) (failed a rq entries j).
Proof.
  unfold failedSignIn. apply alike_bind; [apply alike_record|]. intros c. apply (alike_bind _ 1 1); [apply alike_ask|]. intros now.
  apply (alike_bind _ 1 0); [apply alike_audit|]. intros ?. apply alike_ret.
Qed.
(** The answer of the lookup differs; what follows does not. *)
Lemma alike_find a rq entries now :
  let next r := match r with
    | inl (WStore ErrNotFoundID) => failed a rq entries EmptyString
    | inl _ => mret (unavailable_reply 500)
    | inr user =>
        if can_sign_in (bool_decide (is_Some (CanonicalEmail ToLower email))) user && VerifyPassword (derefString (lu_PasswordHash (us_Row user))) password
        then clearThrottle entries;; finishSignIn sha256hex SplitHostPort ParseIP contains ParseClientLabels a rq user now
        else failed a rq entries (us_ID user)
    end in
  alike (1 + (2 * length entries + 2)) (store_tx (FindLocalUserByEmail (normalized_of ToLower email)) ≫= next)
    (store_tx (FindLocalUserByEmail (normalized_of ToLower email)) ≫= next).
Proof.
  intros next [|w l] s1 s2 HE Hl; [cbn in Hl; lia|]. unfold store_tx. rewrite !timed_call.
  assert (∀ s, refuses email password (st_db s) →
    let f := run_tx (FindLocalUserByEmail (normalized_of ToLower email)) in
    mkAuthorityStore (f (st_db s)).2 (st_latch s) = s ∧
    ∃ i, next (match (f (st_db s)).1 with inl e => inl (WStore e) | inr u => inr u end) = failed a rq entries i) as Hfind.
  { intros s Hs. unfold refuses in Hs. cbn. unfold run_tx, FindLocalUserByEmail, tx_get, tx_opt, mbind, tx_bind.
    destruct (user_by_email (st_db s) _) as [u|]; cbn; (split; [by destruct s|]); [rewrite (Hs u eq_refl); by eexists|by eexists]. }
  destruct (Hfind s1) as [E1 [i Hi]]; [apply HE|]. destruct (Hfind s2) as [E2 [j Hj]]; [apply HE|]. cbn zeta in *. rewrite E1, E2, Hi, Hj.
  cbn [length] in *. destruct (w wcall QOutcome).
  - destruct (alike_failed a rq entries i j l s1 s2 HE) as (r & t1 & t2 & l' & K1 & K2 & K3 & K4); [lia|].
    exists r, t1, t2, l'. split_and!; [done|done|done|lia].
  - eexists _, s1, s2, l. split_and!; [done|done|done|lia].
  - eexists _, s1, s2, l. split_and!; [done|done|done|lia].
Qed.
Lemma alike_blocked a rq entries ev n next :
  (2 ≤ n)%nat → alike n next next →
  alike (2 * length entries + n) (blockedWithEvent SplitHostPort ParseIP contains a rq entries ev next) (blockedWithEvent SplitHostPort ParseIP contains a rq entries ev next).
Proof.
  intros Hn Hnext. unfold blockedWithEvent. apply alike_bind; [apply alike_status|]. intros [e|st]; [apply alike_ret|].
  destruct (ts_Blocked st); [|done]. apply (alike_weaken _ (1 + 1)); [done|]. apply alike_bind; [apply alike_ask|]. intros now.
  apply (alike_bind _ 1 0); [apply alike_audit|]. intros ?. apply alike_ret.
Qed.
Lemma entries_length a rq normalized rules : (length (entryThrottles sha256hex SplitHostPort ParseIP contains a rq normalized rules) ≤ length rules)%nat.
Proof. unfold entryThrottles. induction rules as [|r rules IH]; cbn; [done|]. destruct (if _ || _ then _ else _); cbn; lia. Qed.
Lemma alike_sign_in h rq : alike 12 (serve h rq (RSignIn (Some (email, password)))) (serve h rq (RSignIn (Some (email, password)))).
Proof.
  cbn [Web.serve]. unfold requireOrigin, signIn, authReady.
  destruct (wh_Auth h) as [a|]; [|apply alike_ret]. destruct (as_Enabled a && true && _); [apply alike_ret|].
  destruct (as_Enabled a && wh_Store h); [|apply alike_ret]. cbv zeta.
  pose proof (entries_length a rq (normalized_of ToLower email) [ruleSignInIP; ruleSignInAccount]) as Hl. cbn [length] in Hl.
  eapply alike_weaken; [|apply alike_blocked; [|eapply (alike_bind _ 1); [apply alike_ask|intros now; apply alike_find]]]; lia.
Qed.
End sign_in.

(** C21. A failed sign-in discloses nothing of the account. Take two deployments with the same
    throttle counters in which the address and password are refused, whether because there
    is no such account, or it is not active, or has no password, or another one; give the
    same request the same answers of the clock and the same failures of the store. Then both
    get the same reply after the same questions, at most twelve, and the counters agree
    again, so the comparison goes on with the next attempt. *)
Theorem sign_in_discloses_nothing h rq email password l s1 s2 :
  auth_throttle_counters (st_db s1) = auth_throttle_counters (st_db s2) →
  refuses email password (st_db s1) → refuses email password (st_db s2) → (12 ≤ length l)%nat →
  ∃ reply s1' s2' l',
    timed l (serve h rq (RSignIn (Some (email, password)))) s1 = Some (reply, s1', l') ∧
    timed l (serve h rq (RSignIn (Some (email, password)))) s2 = Some (reply, s2', l') ∧
    auth_throttle_counters (st_db s1') = auth_throttle_counters (st_db s2') ∧
    refuses email password (st_db s1') ∧ refuses email password (st_db s2').
Proof.
  intros Hc H1 H2 Hl. destruct (alike_sign_in email password h rq l s1 s2) as (r & t1 & t2 & l' & K1 & K2 & (K3 & K4 & K5) & _); [done|done|].
  by exists r, t1, t2, l'.
Qed.
End access.

(** * Runs with interference *)
(** Before its [i]-th action the others apply the [i]-th function. *)
Fixpoint trace {S Q A} (w : ∀ R, Q R → R) (others : list (S → S)) (p : proc S Q A) (s : S) : list (S * S) * proc S Q A * S :=
  match p with
  | Ret a => ([], Ret a, s)
  | Atomic f k =>
      let s0 := match others with o :: _ => o s | [] => s end in
      match f s0 with
      | Some (r, s1) => let '(l, p', s') := trace w (tail others) (k r) s1 in ((s0, s1) :: l, p', s')
      | None => ([], p, s0)
      end
  | Ask q k => trace w others (k (w _ q)) s
  end.
Lemma trace_plog {S Q A} (answers : ∀ R, Q R → R → Prop) (w : ∀ R, Q R → R) others (p : proc S Q A) s :
  (∀ R q, answers R q (w R q)) → plog answers p s (trace w others p s).1.1 (trace w others p s).1.2 (trace w others p s).2.
Proof.
  intros Hw. revert others s. induction p as [a|T f k IH|T q k IH]; intros others s; cbn [trace].
  - constructor.
  - eapply plog_others. destruct (f _) as [[r s1]|] eqn:Hf; [|constructor].
    specialize (IH r (tail others) s1). destruct (trace _ _ _ _) as [[l p'] s']. econstructor; [exact Hf|exact IH].
  - econstructor; [apply Hw|apply IH].
Qed.

(** * The deployment *)
Definition newcomer : list idop :=
  [OpCreateOrResend "q2" "m4" "cleo@x.io" "cleo@x.io" "en" 92 92] ++ mail "l4" "tokenD" "m4" 93 ++
  [OpVerify "tokenD" 94; OpApprove "cleo" "m5" "q2" "ana" RoleOperator 95 95] ++ mail "l5" "tokenE" "m5" 96.
Definition joined : IdentityDB := run (newcomer ++ [OpCompleteSetup "tokenE" "Cleo" "en" "secret" 97 97]) settled.
Definition same_password (hash password : string) : bool := String.eqb hash password.
Definition address (s : string) : option string := if bool_decide (s = EmptyString) then None else Some s.
Definition no_labels (s : string) : string * string * string := (EmptyString, EmptyString, EmptyString).
Notation web := (serve plain plain any_password same_password address address String.eqb no_labels).
Definition site : AuthServices := mkAuthServices true "https://x.io" EmptyString 0 0 0 ["proxy"] EmptyString None.
Definition handler : Handler := mkHandler (Some site) true.
Definition browser (origin cookie : bool) : WebRequest :=
  mkWebRequest (λ name, if String.eqb name "Origin" then (if origin then "https://x.io" else EmptyString)
                        else if String.eqb name csrfHeaderName then "token" else EmptyString)
    (λ name, if cookie && String.eqb name DefaultSessionCookie then Some "token" else None) "peer".
(** Every call is answered and the clock stands still. *)
Definition at_noon (R : Type) (q : WebQ R) : R :=
  match q with
  | QOutcome => WAnswered | QClock => 1000 | QPg => 1000 | QFresh => "fresh" | QRandom => Some "token" | QTouched => false
  end.
Lemma noon_clock t0 R (q : WebQ R) : t0 ≤ 1000 → clock_from t0 R q (at_noon R q).
Proof. intros. by destruct q. Qed.
(** What happens without interference. *)
Definition served (rq : WebRequest) (route : WebRoute) (s : AuthorityStore) : option WebReply * AuthorityStore :=
  let t := trace at_noon [] (web handler rq route) s in (match t.1.2 with Ret r => Some r | _ => None end, t.2).
Definition opened : AuthorityStore := mkAuthorityStore (put_authority (mkAuthority AuthorityEpochV2 None None (JObj []) None None None None (JObj []) None (JObj [])) joined) false.
Definition signed_in : AuthorityStore := (served (browser true false) (RSignIn (Some ("ana@x.io", "secret"))) opened).2.
Definition proved : AuthorityStore := (served (browser true true) (RReauthenticate (Some "secret")) signed_in).2.
Definition role_of (id : uuid) (s : AuthorityStore) : option string := lu_Role <$> local_users (st_db s) !! id.
Definition status_of (r : option WebReply * AuthorityStore) : option Z := wr_Status <$> r.1.
Example ana_signs_in : status_of (served (browser true false) (RSignIn (Some ("ana@x.io", "secret"))) opened) = Some 200.
Proof. by vm_compute. Qed.
Example password_needed : status_of (served (browser true true) (RChangeRole "cleo" (Some RoleAdmin)) signed_in) = Some 403.
Proof. by vm_compute. Qed.
Example ana_promotes_cleo :
  let r := served (browser true true) (RChangeRole "cleo" (Some RoleAdmin)) proved in status_of r = Some 200 ∧ role_of "cleo" r.2 = Some RoleAdmin.
Proof. by vm_compute. Qed.

(** * The properties, instantiated *)
Definition promotion : list (AuthorityStore * AuthorityStore) * WP WebReply * AuthorityStore :=
  trace at_noon [] (web handler (browser true true) (RChangeRole "cleo" (Some RoleAdmin))) proved.
Definition promoting : AuthorityStore * AuthorityStore := default (proved, proved) (promotion.1.1 !! 4%nat).
Lemma account_changes_are_authorized_witness :
  warranted plain any_password handler (browser true true) 900 (RChangeRole "cleo" (Some RoleAdmin)) (take 4 promotion.1.1) (st_db promoting.1) (st_db promoting.2).
Proof.
  apply (account_changes_are_authorized plain plain any_password same_password address address String.eqb no_labels handler (browser true true)
    (RChangeRole "cleo" (Some RoleAdmin)) 900 proved promotion.1.1 promotion.1.2 promotion.2 4).
  - assert (900 ≤ 1000) as Ht by lia. unfold promotion.
    exact (trace_plog (clock_from 900) at_noon [] (web handler (browser true true) (RChangeRole "cleo" (Some RoleAdmin))) proved (λ R q, noon_clock 900 R q Ht)).
  - unfold promoting. destruct (promotion.1.1 !! 4%nat) as [[e e']|] eqn:E; [done|]. exfalso. apply lookup_ge_None in E. vm_compute in E. lia.
  - intros H. apply (f_equal (λ p, p.1 !! "cleo")) in H. by vm_compute in H.
Defined.
Definition visitors : list WebThread :=
  [TServe (browser true false) (RVerify (Some "guess")); TServe (browser true false) (RReset (Some ("guess", "secret")));
   TElse (λ d, (RevokePersonSessions "ana" "bo" 2000 d).2)].
Definition visit : list (WP (option WebReply)) :=
  run_web plain plain any_password same_password address address String.eqb no_labels handler <$> visitors.
Definition visits : list (WP (option WebReply)) * AuthorityStore := run_threads at_noon visit opened (concat (replicate 12 [0; 1; 2]))%nat.
Example both_invalid :
  map (λ p, match p with Ret r => wr_Status <$> r | _ => None end) visits.1 = [Some 400; Some 400; None].
Proof. by vm_compute. Qed.
Lemma opened_uncounted : uncounted (st_db opened).
Proof. intros scope subject _. assert (auth_throttle_counters (st_db opened) = ∅) as -> by by vm_compute. apply lookup_empty. Qed.
Lemma link_endpoints_never_throttle_witness :
  uncounted (st_db visits.2) ∧
  ∀ i rq route reply, visitors !! i = Some (TServe rq route) → follows_links route = true → visits.1 !! i = Some (Ret (Some reply)) → wr_Status reply ≠ 429.
Proof.
  refine (link_endpoints_never_throttle plain plain any_password same_password address address String.eqb no_labels handler visitors opened visits.1
    visits.2 opened_uncounted _ _).
  - intros f d Hf Hd. apply list_elem_of_In in Hf. destruct Hf as [Hf|[Hf|[Hf|[]]]]; [done|done|]. injection Hf as <-. intros scope subject Hs.
    rewrite (proj2 (quiet_revoke_person "ana" "bo" 2000 d)). by apply Hd.
  - unfold visits. exact (run_threads_tsteps at_noon visit opened _).
Defined.
Definition stranger : AuthorityStore := mkAuthorityStore (put_users ∅ (st_db opened)) false.
Definition noons : list (∀ R, WebQ R → R) := replicate 12 at_noon.
Lemma refuses_wrong : refuses plain same_password "ana@x.io" "guess" (st_db opened).
Proof. intros user H. vm_compute in H. injection H as <-. by vm_compute. Qed.
Lemma refuses_stranger : refuses plain same_password "ana@x.io" "guess" (st_db stranger).
Proof. intros user H. by vm_compute in H. Qed.
Lemma same_counts : auth_throttle_counters (st_db opened) = auth_throttle_counters (st_db stranger).
Proof. by vm_compute. Qed.
Lemma sign_in_discloses_nothing_witness :
  ∃ reply s1 s2 l, timed noons (web handler (browser true false) (RSignIn (Some ("ana@x.io", "guess")))) opened = Some (reply, s1, l) ∧
    timed noons (web handler (browser true false) (RSignIn (Some ("ana@x.io", "guess")))) stranger = Some (reply, s2, l) ∧ wr_Status reply = 401.
Proof.
  destruct (sign_in_discloses_nothing plain plain any_password same_password address address String.eqb no_labels handler (browser true false)
    "ana@x.io" "guess" noons opened stranger same_counts refuses_wrong refuses_stranger) as (r & s1 & s2 & l & H1 & H2 & _); [vm_compute; lia|].
  exists r, s1, s2, l. split_and!; [exact H1|exact H2|].
  apply (f_equal (fmap (λ x, wr_Status x.1.1))) in H1. vm_compute in H1. by injection H1.
Defined.

(** * What the guards let through *)
(** Bo takes the Admin role from Ana after her session was read; her request still makes Cleo
    an Admin. *)
Definition bo_demotes_ana (s : AuthorityStore) : AuthorityStore := mkAuthorityStore (run [OpChangeRole "bo" "ana" RoleOperator 1000 1000] (st_db s)) (st_latch s).
Example demoted_admin_still_promotes :
  let t := trace at_noon [id; id; id; id; bo_demotes_ana] (web handler (browser true true) (RChangeRole "cleo" (Some RoleAdmin))) proved in
  role_of "ana" t.2 = Some RoleOperator ∧ role_of "cleo" t.2 = Some RoleAdmin.
Proof. by vm_compute. Qed.
(** The same mutation without an Origin header, which every other unsafe browser route
    refuses. *)
Example people_skip_origin :
  status_of (served (browser false true) (RChangeRole "cleo" (Some RoleAdmin)) proved) = Some 200 ∧
  status_of (served (browser false true) RSignOut proved) = Some 403.
Proof. by vm_compute. Qed.
